(* ===== verification/_CoqProject ===== *)
-Q . S2P
Prelude.v
Text.v
Node.v
Tree.v
TreeFacts.v
Locks.v
LockClaims.v
BlinkInv.v
ThreadTree.v
Capacity.v
LatchedTree.v
OptimisticTree.v
OlcBTree.v
OlcFacts.v
Queues.v
Epochs.v
Checker.v
Workload.v
CoreConfig.v
Driver.v
Clients.v
TbbTree.v
TbbBatch.v
Permuter.v
KSearch.v
NodeVersion.v
MassKey.v
MassBag.v
MassNode.v
MassTree.v
MassLeaf.v
MassSplit.v
MassInv.v
MassDict.v
MassGet.v
MassWrite.v
MassFinish.v
MassInner.v
MassGhost.v
MassParent.v
MassRound.v
MassClimb.v
MassLink.v
MassGrow.v
MassLayer.v
MassTwig.v
MassPair.v
MassBranch.v
MassInsert.v
MassPut.v
MassIndex.v
MassClient.v
AtomicStack.v
BwSets.v
BwNode.v
BwLeaf.v
BwInner.v
BwTree.v
BwLogic.v
BwInv.v
BwWp.v
BwLin.v
BwAlloc.v
BwGc.v
BwReclaim.v
