(* ===== verification/Prelude.v ===== *)
(** * Verification of the B-tree benchmarks

    The repository compares concurrent ordered indices: its own B-link tree, in builds
    with latches, with optimistic versions and as tasks for TBB, beside an OLC B+-tree,
    Masstree and a BwTree, which are other projects' code.  A driver reads workloads from
    files, picks sets of cores and lets workers run the operations against an index.  The
    development models the code as Rocq functions and step relations and proves what it
    means to do.  Paths below are under [src/src].

    ** Conventions

    - Code that may read through a null pointer, leave an array, divide by zero, throw or
      loop returns an [outcome]; stateful code is in the monad [ST] over its state.
      Unsigned integers are [Z] with their wrap-around written out ([u16], [u32], [u64]),
      pointers are [positive] locations of a [gmap] heap or indices into an array.
    - Loops take fuel.  Every theorem that says what a call returns also says that it
      returns: the fuel is a stated bound (the number of nodes, since no loop visits a
      node twice; the number of items; the length of the text) or any fuel from some
      bound on.
      The interleavings of the BwTree are the exception: a thread may retry for as long as
      others get in its way, so there the theorems speak of the answers that are given.
    - Concurrent code has its atomic accesses as the steps of a relation over any number of
      threads; memory orders are read as sequential consistency.  The operations of the
      BwTree are programs of a free monad over such accesses.
    - Machine and build parameters (layout sizes, latches) are classes, [Platform],
      [NodeLatch], [OlcPlatform], [NvLayout], with the values of the code as instances;
      small instances serve the concrete runs.
    - The prelude's database [blink] holds the specifications that [st_run] uses to
      execute a statement; each component adds its own.

    ** The B-link tree

    - [Prelude]: outcomes, monads, integers, arrays, [memcpy], the map of stored pairs.
      [Text]: characters, numbers and words as a stream reads them.
    - [Node] ([indices/blinktree/node.h], [node.cpp], [node_path.h], [config.h]): header
      and the two array views of a node, search, insertion, splitting copies, NodePath.
      [Tree] and [TreeFacts] ([tree.h], [tree.cpp]): heap, root, splits, new root.
    - [BlinkInv]: the invariant of a B-link tree (every level tiles the key space from left
      to right, high keys and right siblings chain the nodes, children cover their
      separators).  [ThreadTree]: what the steps of an insertion do to it.  [Capacity]:
      how many entries a tree of a given height has.
    - [LatchedTree] ([thread/latched]): insert, update and find with every latch call, for
      both latches.  They terminate, keep the invariant and the map and leave every latch
      free for the next operation, although the count of readers of a reader-writer lock is
      not back at zero; however a tree is filled, it stays low enough for the path of ten
      nodes; keys equal to the maximum and probes past a full leaf fault.
    - [OptimisticTree] ([thread/optimistic]): the same with versions; and an interleaving
      in which an insertion is lost.
    - [TbbTree], [TbbBatch] ([tbb]): the task state machine that climbs through parent
      pointers, for trees of any height; the olfit build does what the latched builds do;
      the tasks of a batch may run in any order.
    - [Checker] ([consistency_checker.cpp], [tree_statistics.h]): the checker is silent on
      well-formed trees, the statistics count every node and key once.

    ** Synchronisation

    - [Locks], [LockClaims] ([util/spinlock.h], [rw_spinlock.h],
      [indices/blinktree/optimistic_lock.h]): mutual exclusion, exclusion of readers by a
      writer through all transitions of the lock, upgrades and downgrades included, consistency of validated reads up to the wrap of the version; and that the
      latched tree's upgrade lets readers stay beside a modifier.
    - [Queues] ([util/queue.h], [mpsc_queue.h]): first-in-first-out, sequentially and for
      interleaved producers.  [Epochs] ([epoch_manager.cpp]): reclamation frees what no
      guard protects, and one interleaving in which late garbage is freed in use.

    ** The other indices

    - [OlcBTree], [OlcFacts] ([indices/olc_btree]): insert with its restarts, lookup and
      scan; both binary searches agree.
    - [Permuter], [KSearch], [NodeVersion], [MassKey] ([indices/mass_tree/thread]: the
      headers [kpermuter.hh], [ksearch.hh], [nodeversion.hh], [string_slice.hh],
      [masstree_key.hh]): the permutation packed into a word acts as a list, searches
      through it agree and find the slot of a string, unlocked readers that see an
      unchanged version have read a consistent node, whatever the lock holder wrote with and
      without a mark, and keys compare as strings, shift
      and unshift.
    - [AtomicStack], [BwSets] ([indices/bw_tree/thread]: [atomic_stack.h],
      [bloom_filter.h], [sorted_small_set.h]): the free list is a stack in every
      interleaving, the filter is exact, the small set stays sorted.

    ** Masstree ([indices/mass_tree/thread])

    - [MassBag] ([stringbag.hh], [value_bag.hh]): the bags of key suffixes with their packed
      offsets, and rows.  [MassNode] ([masstree_struct.hh], [masstree_split.hh]): leaves and
      inner nodes with every array, the slots of a leaf and the growth of its bag, the halves
      of a split.
    - [MassTree] ([masstree_struct.hh], [masstree_get.hh], [masstree_insert.hh],
      [masstree_split.hh], [btree_leaflink.hh], [mtIndexAPI.hh]): nodes and rows in one
      memory, versions and locks, the descent, cursors, insertion with splits up to a new root
      and with new layers, [put], [put_uv] and [get].
    - [MassLeaf], [MassSplit]: what the slots of a leaf hold, through the assignment of a key
      and the split of a full leaf.  [MassInv]: the invariant; every node has a layer, a
      level and a range of slices, the leaves of a layer hold its entries between them; the
      descent follows.  [MassDict]: the entries of all layers as a map of strings.
      [MassGet]: lookups.
    - [MassWrite], [MassFinish]: locking, writing and unlocking one leaf.  [MassInner],
      [MassGhost], [MassParent], [MassRound], [MassClimb]: one round of a split under a
      parent with room, a full parent or no parent, and the climb.  [MassLink], [MassGrow]:
      the leaf that was split and its neighbours, [finish_split] as a whole.  [MassLayer],
      [MassTwig], [MassPair], [MassBranch]: two keys that share a slice, the chain of layers
      they need and the leaf in which they part.
    - [MassInsert], [MassPut], [MassIndex]: [find_insert], [put] and [put_uv], and sequences
      of requests: the index refines a finite map from byte strings to values.

    ** The BwTree ([indices/bw_tree/thread/bwtree.h])

    - [BwNode]: node types, metadata, base nodes and the constructors of all deltas.
      [BwLeaf], [BwInner]: the searches through a delta chain and its consolidation, for
      chains with splits and merges of any nesting; a well-formed chain stands for a map,
      searches find its bindings and consolidation preserves it, inside the arrays.
    - [BwTree]: the mapping table and the operations as programs: traversals, the completion
      of other threads' structure modifications, consolidation, splits, removal, merges,
      [Insert], [Upsert], [Delete], [GetValue].
    - [BwLogic]: the interleavings of threads, the atomic map they are to implement, and a
      rely-guarantee logic with ghost state that connects the two.  [BwInv]: the invariant
      of a tree that grows.  [BwWp]: what every function guarantees under interference.
    - [BwLin]: all interleavings of [Insert], [Upsert] and [GetValue], the operations that
      the benchmark uses among them, are linearisable and free of undefined behaviour,
      but for one read of an uninitialised snapshot that an interleaving exhibits.
    - [BwAlloc]: the chunks in front of a base node that its deltas are allocated from;
      concurrent allocations are disjoint and never wait.  [BwGc]: epochs, garbage lists and
      the collector as a thread runs them.  [BwReclaim]: their interleavings; what is freed
      is out of the table and held by no thread.

    ** The benchmark

    - [Workload] ([benchmark/workload.cpp]): files are read back as written; what the
      phases announce.  [CoreConfig] ([util/core_configuration.cpp],
      [util/cli_arguments.h]): core sets and the option that describes them.
    - [Driver] ([benchmark/abstract_benchmark.cpp], [thread_benchmark.cpp]): the phase
      machine runs every phase for every core set and iteration; the workers execute each
      item exactly once and stop.
    - [Clients]: the class [Index] with [IndexLaws] is what a benchmark relies on; the
      latched, the optimistic and the OLC tree discharge it, and a phase run by one worker
      answers and ends as its tuples say, when they look up and update only keys that are
      there.  [MassClient] ([indices/mass_tree/thread/thread_benchmark.cpp]): the calls of
      the Masstree benchmark, with keys as strings of eight bytes, discharge it too.

    ** Bounds

    Keys are below the maximal 64-bit number, which the tree uses for infinity.  Lookups and
    updates of the B-link trees need for an absent key that the slot behind the live keys of
    its leaf exists and differs from the key ([probe_safe]); [find_past_full_leaf] shows
    that they read past a full leaf otherwise.  Trees of the thread builds hold fewer than [entry_capacity] entries, the number from which a
    path could exceed [NodePath]; the task build has no such bound.  Optimistic versions,
    node versions, epochs and versioned pointers are compared for equality: the theorems
    state how many operations may pass before they could repeat.  In the interleavings of
    the BwTree no delta chain may grow to 2^15 nodes, where its 16-bit depth overflows
    ([depths_fit]), and addresses of nodes are not used again while a thread knows them,
    which is what [BwReclaim] shows of the epochs, for fewer than 2^64 of their steps.
    Keys of Masstree have at most 2040 bytes, so that fifteen suffixes fit a bag with 16-bit
    offsets, with seven readable bytes behind them, which the comparison of suffixes may
    touch; values have less than 65530 bytes.
    Addresses of chunks are unbounded integers; [BwAlloc] bounds how far the pointer into a
    chunk runs below it.

    ** Not modelled

    Prefetching, pinning, timers, performance counters and printing have no effect on
    stored data.  TBB, argparse, libnuma and the standard allocator are not under [src].
    Of Masstree removal, scans, the static nodes of its hybrid index, the memory pools of a
    thread and its server and test programs are not modelled, and its operations are those
    of one thread, beside the step relation of [NodeVersion]; arrays that a new node leaves
    uninitialised hold zeros.  Of the BwTree the iterators, the destructor
    and [ConditionalInsert] are not modelled.  [Delete] of the BwTree is modelled
    with the removal and the merging of nodes, but its interleavings are not covered by
    the theorems.  For the other trees the interleaving of whole operations is modelled
    only where a theorem shows how it goes wrong. *)

From Stdlib Require Export ZArith Lia.
From stdpp Require Export base tactics numbers list option gmap sorting.
Open Scope Z_scope.

(** ** Faults and outcomes

    C++ code that would run into undefined behaviour, or that a fuel bound
    cuts short, ends in a [Fault]; everything else is [Ok]. *)
Inductive fault : Set :=
  | NullDeref        (* a null or dangling pointer is dereferenced *)
  | OutOfBounds      (* an array is accessed past its end *)
  | InactiveMember   (* the inactive member of a union is read *)
  | WouldBlock       (* a lock held by nobody else is waited for forever *)
  | DivideByZero     (* an integer is divided by zero *)
  | Exception        (* an exception leaves the function *)
  | Uninitialised    (* a variable that has no value is read *)
  | Unmapped         (* memory outside the mapped region is accessed *)
  | OutOfFuel.       (* the fuel of a loop was not enough *)

Inductive outcome (A : Type) : Type :=
  | Ok (a : A)
  | Fault (f : fault).
Arguments Ok {A} a.
Arguments Fault {A} f.

#[export] Instance fault_eq_dec : EqDecision fault.
Proof. solve_decision. Defined.
#[export] Instance outcome_eq_dec `{EqDecision A} : EqDecision (outcome A).
Proof. solve_decision. Defined.

#[export] Instance outcome_ret : MRet outcome := fun A a => Ok a.
#[export] Instance outcome_bind : MBind outcome := fun A B k m =>
  match m with Ok a => k a | Fault f => Fault f end.
#[export] Instance outcome_fmap : FMap outcome := fun A B g m =>
  match m with Ok a => Ok (g a) | Fault f => Fault f end.

(** A stateful computation over a state [S] that may fault. *)
Definition ST (S A : Type) : Type := S -> outcome (A * S).

#[export] Instance ST_ret {S} : MRet (ST S) := fun A a s => Ok (a, s).
#[export] Instance ST_bind {S} : MBind (ST S) := fun A B k m s =>
  match m s with Ok (a, s') => k a s' | Fault f => Fault f end.
#[export] Instance ST_fmap {S} : FMap (ST S) := fun A B g m s =>
  match m s with Ok (a, s') => Ok (g a, s') | Fault f => Fault f end.

(** Lifting a fallible pure computation into the state monad. *)
Definition lift {S A} (m : outcome A) : ST S A := fun s =>
  match m with Ok a => Ok (a, s) | Fault f => Fault f end.

Definition gets {S A} (f : S -> A) : ST S A := fun s => Ok (f s, s).
Definition modify {S} (f : S -> S) : ST S unit := fun s => Ok (tt, f s).

(** ** Machine integers *)
Definition wrap (w x : Z) : Z := x mod 2 ^ w.
Definition u8 (x : Z) : Z := wrap 8 x.
Definition u16 (x : Z) : Z := wrap 16 x.
Definition u32 (x : Z) : Z := wrap 32 x.
Definition u64 (x : Z) : Z := wrap 64 x.
Definition signed (w x : Z) : Z := (x + 2 ^ (w - 1)) mod 2 ^ w - 2 ^ (w - 1).
Definition i16 (x : Z) : Z := signed 16 x.
Definition i32 (x : Z) : Z := signed 32 x.
Definition max_u32 : Z := 2 ^ 32 - 1.
Definition max_u64 : Z := 2 ^ 64 - 1.

(** ** Arrays *)
Definition array_get {A} (l : list A) (i : Z) : outcome A :=
  if decide (0 <= i) then
    match l !! Z.to_nat i with Some x => Ok x | None => Fault OutOfBounds end
  else Fault OutOfBounds.

Definition array_set {A} (l : list A) (i : Z) (x : A) : outcome (list A) :=
  if decide (0 <= i < Z.of_nat (length l)) then Ok (<[Z.to_nat i := x]> l)
  else Fault OutOfBounds.

(** [std::memcpy(&dst[d], &src[s], n * sizeof(A))], in elements. *)
Definition memcpy {A} (dst : list A) (d : Z) (src : list A) (s n : Z) : outcome (list A) :=
  if decide (0 <= d /\ 0 <= s /\ 0 <= n /\ d + n <= Z.of_nat (length dst)
             /\ s + n <= Z.of_nat (length src)) then
    Ok (take (Z.to_nat d) dst ++ take (Z.to_nat n) (drop (Z.to_nat s) src)
        ++ drop (Z.to_nat (d + n)) dst)
  else Fault OutOfBounds.

(** [std::memmove] within one array reads all its source before it writes. *)
Definition memmove {A} (l : list A) (d s n : Z) : outcome (list A) := memcpy l d l s n.

(** [std::lower_bound(keys, keys + n, key)]: the halving loop. *)
Fixpoint lower_bound_loop (fuel : nat) (keys : list Z) (first len key : Z) : outcome Z :=
  match fuel with
  | O => Fault OutOfFuel
  | S fuel =>
      if len <=? 0 then Ok first
      else
        let half := len / 2 in
        let mid := first + half in
        k ← array_get keys mid;
        if k <? key then lower_bound_loop fuel keys (mid + 1) (len - half - 1) key
        else lower_bound_loop fuel keys first half key
  end.
Definition lower_bound (keys : list Z) (n key : Z) : outcome Z :=
  lower_bound_loop (S (Z.to_nat n)) keys 0 n key.

(** ** Automation *)
Create HintDb blink discriminated.

(** Runs the leading statement of a computation, given what it returns. *)
Lemma ST_bind_ok {S A B} (m : ST S A) (k : A -> ST S B) s a s' :
  m s = Ok (a, s') -> (m ≫= k) s = k a s'.
Proof. intros H. unfold mbind, ST_bind. by rewrite H. Qed.

Lemma lift_ok {S A} (m : outcome A) (s : S) a : m = Ok a -> lift m s = Ok (a, s).
Proof. by intros ->. Qed.

Arguments ST_bind_ok {S A B m k s a s'} _.
Arguments lift_ok {S A m s a} _.

(** Runs the leading statement when the database [blink] knows its result; the components
    add the specifications of their own operations. *)
#[export] Hint Resolve lift_ok : blink.
Ltac st_run := erewrite ST_bind_ok by (by eauto 3 with blink).

Lemma ST_bind_inv {S A B} (m : ST S A) (k : A -> ST S B) s r :
  (m ≫= k) s = Ok r -> exists a s', m s = Ok (a, s') /\ k a s' = Ok r.
Proof. unfold mbind, ST_bind. destruct (m s) as [[a s']|]; naive_solver. Qed.

Lemma outcome_bind_ok {A B} (m : outcome A) (k : A -> outcome B) a :
  m = Ok a -> (m ≫= k) = k a.
Proof. by intros ->. Qed.

(** Case analysis on the booleans of the comparison operators. *)
Ltac bool_cases :=
  repeat match goal with
  | |- context [if (?a <=? ?b)%Z then _ else _] => destruct (Z.leb_spec a b)
  | |- context [if (?a <? ?b)%Z then _ else _] => destruct (Z.ltb_spec a b)
  | |- context [if (?a =? ?b)%Z then _ else _] => destruct (Z.eqb_spec a b)
  end.

(** ** Lemmas on machine integers *)
Lemma wrap_small w x : 0 <= x < 2 ^ w -> wrap w x = x.
Proof. apply Z.mod_small. Qed.

Lemma wrap_bound w x : 0 <= w -> 0 <= wrap w x < 2 ^ w.
Proof. intros. apply Z.mod_pos_bound. by apply Z.pow_pos_nonneg. Qed.

Lemma u16_small x : 0 <= x < 65536 -> u16 x = x.
Proof. intros. by apply wrap_small. Qed.

Lemma u32_small x : 0 <= x <= max_u32 -> u32 x = x.
Proof. intros [??]. apply wrap_small. unfold max_u32 in *. lia. Qed.

Lemma u64_small x : 0 <= x <= max_u64 -> u64 x = x.
Proof. intros [??]. apply wrap_small. unfold max_u64 in *. lia. Qed.

Lemma i16_small x : -32768 <= x < 32768 -> i16 x = x.
Proof.
  intros. unfold i16, signed. change (2 ^ (16 - 1)) with 32768.
  change (2 ^ 16) with 65536. rewrite Z.mod_small; lia.
Qed.

(** ** Lemmas on arrays *)
Lemma array_get_lookup {A} (l : list A) (i : nat) x :
  l !! i = Some x -> array_get l (Z.of_nat i) = Ok x.
Proof.
  intros H. unfold array_get. rewrite decide_True by lia. by rewrite Nat2Z.id, H.
Qed.

#[export] Hint Resolve array_get_lookup : blink.

Lemma array_get_inv {A} (l : list A) (i : Z) x :
  array_get l i = Ok x -> 0 <= i /\ l !! Z.to_nat i = Some x.
Proof. unfold array_get. case_decide; [|done]. case_match; naive_solver. Qed.

Lemma array_get_oob {A} (l : list A) (i : Z) :
  Z.of_nat (length l) <= i -> array_get l i = Fault OutOfBounds.
Proof.
  intros H. unfold array_get. case_decide; [|done].
  rewrite lookup_ge_None_2; [done|lia].
Qed.

Lemma array_set_ok {A} (l : list A) (i : nat) x :
  (i < length l)%nat -> array_set l (Z.of_nat i) x = Ok (<[i := x]> l).
Proof. intros. unfold array_set. rewrite decide_True by lia. by rewrite Nat2Z.id. Qed.

Lemma array_set_app {A} (l1 l2 : list A) y x :
  array_set (l1 ++ y :: l2) (Z.of_nat (length l1)) x = Ok (l1 ++ x :: l2).
Proof.
  rewrite array_set_ok by (rewrite length_app; simpl; lia).
  rewrite insert_take_drop by (rewrite length_app; simpl; lia).
  rewrite take_app_length. replace (S (length l1)) with (length l1 + 1)%nat by lia.
  by rewrite drop_app_add.
Qed.

Lemma memcpy_nat {A} (dst : list A) (d : nat) (src : list A) (s n : nat) :
  (d + n <= length dst)%nat -> (s + n <= length src)%nat ->
  memcpy dst (Z.of_nat d) src (Z.of_nat s) (Z.of_nat n) =
  Ok (take d dst ++ take n (drop s src) ++ drop (d + n) dst).
Proof.
  intros. unfold memcpy. rewrite decide_True by lia.
  by rewrite <- Nat2Z.inj_add, !Nat2Z.id.
Qed.

(** Copying the middle of one array over the front of another. *)
Lemma memcpy_app {A} (dst src l1 l2 l3 : list A) :
  src = l1 ++ l2 ++ l3 -> (length l2 <= length dst)%nat ->
  memcpy dst 0 src (Z.of_nat (length l1)) (Z.of_nat (length l2)) =
  Ok (l2 ++ drop (length l2) dst).
Proof.
  intros -> ?. change 0 with (Z.of_nat 0).
  rewrite memcpy_nat; [|lia|rewrite !length_app; lia].
  by rewrite drop_app_length, take_app_length.
Qed.

(** Opening a gap at [length l1] by moving [l2] one slot up, then filling it. *)
Lemma memmove_gap {A} (l1 l2 t : list A) y x :
  exists l, memmove (l1 ++ l2 ++ y :: t) (Z.of_nat (length l1) + 1)
              (Z.of_nat (length l1)) (Z.of_nat (length l2)) = Ok l
    /\ length l = length (l1 ++ l2 ++ y :: t)
    /\ array_set l (Z.of_nat (length l1)) x = Ok (l1 ++ x :: l2 ++ t).
Proof.
  unfold memmove. replace (Z.of_nat (length l1) + 1) with (Z.of_nat (S (length l1))) by lia.
  rewrite memcpy_nat by (rewrite !length_app; simpl; lia).
  rewrite drop_app_length, take_app_length.
  assert (exists z r, l2 ++ y :: t = z :: r) as (z & r & Hz) by (destruct l2; simpl; eauto).
  assert (Ht : take (S (length l1)) (l1 ++ l2 ++ y :: t) = l1 ++ [z]).
  { rewrite Hz. replace (S (length l1)) with (length l1 + 1)%nat by lia.
    by rewrite take_app_add. }
  assert (Hd : drop (S (length l1) + length l2) (l1 ++ l2 ++ y :: t) = t).
  { replace (l1 ++ l2 ++ y :: t) with ((l1 ++ l2 ++ [y]) ++ t) by (by rewrite <- !app_assoc).
    apply drop_app_length'. rewrite !length_app. simpl. lia. }
  rewrite Ht, Hd. eexists. split; [done|]. split.
  - rewrite !length_app. simpl. lia.
  - rewrite <- app_assoc. simpl. apply array_set_app.
Qed.

(** ** Sorted key sequences *)
Abbreviation ksorted := (StronglySorted Z.lt).

Lemma ksorted_app ks1 ks2 :
  ksorted (ks1 ++ ks2) <->
  ksorted ks1 /\ ksorted ks2 /\ (forall x y, x ∈ ks1 -> y ∈ ks2 -> x < y).
Proof.
  induction ks1 as [|k ks1 IH]; simpl.
  - split; [|tauto]. intros. repeat split; auto using SSorted_nil. set_solver.
  - rewrite !StronglySorted_cons, IH, Forall_app, !Forall_forall. set_solver.
Qed.

Lemma ksorted_snoc ks k :
  ksorted (ks ++ [k]) <-> ksorted ks /\ (forall x, x ∈ ks -> x < k).
Proof.
  rewrite ksorted_app. split; [set_solver|].
  intros [? H]. repeat split; [done| |].
  - repeat constructor.
  - intros x y ? ->%list_elem_of_singleton. by apply H.
Qed.

Lemma ksorted_lookup ks (i j : nat) x y :
  ksorted ks -> (i < j)%nat -> ks !! i = Some x -> ks !! j = Some y -> x < y.
Proof.
  intros Hs Hij Hi Hj. rewrite <- (take_drop j ks) in Hs.
  apply ksorted_app in Hs as (_ & _ & H). apply H.
  - apply list_elem_of_lookup. exists i. by rewrite lookup_take_lt.
  - apply list_elem_of_lookup. exists 0%nat. by rewrite lookup_drop, Nat.add_0_r.
Qed.

Lemma ksorted_insert l1 l2 k :
  ksorted (l1 ++ l2) -> Forall (fun x => x < k) l1 -> Forall (fun x => k <= x) l2 ->
  k ∉ l2 -> ksorted (l1 ++ k :: l2).
Proof.
  rewrite !Forall_forall. intros (H1 & H2 & H3)%ksorted_app Hl Hr Hn.
  apply ksorted_app. split; [done|]. split.
  - apply StronglySorted_cons. split; [|done]. apply Forall_forall. intros x Hx.
    specialize (Hr x Hx). assert (k <> x) by (by intros ->). lia.
  - intros x y Hx [->|Hy]%elem_of_cons; [by apply Hl|by apply H3].
Qed.

Lemma ksorted_NoDup ks : ksorted ks -> NoDup ks.
Proof.
  induction 1 as [|k ks Hs IH Hf]; constructor; [|done].
  intros Hk. rewrite Forall_forall in Hf. specialize (Hf k Hk). lia.
Qed.

(** The halving loop finds the boundary between the keys below [key] and the
    rest of any sorted live prefix [ks] of the array. *)
Lemma lower_bound_loop_spec fuel keys ks tl l0 l1 l2 key :
  keys = ks ++ tl -> ks = l0 ++ l1 ++ l2 -> ksorted ks ->
  Forall (fun x => x < key) l0 -> Forall (fun x => key <= x) l2 ->
  (length l1 < fuel)%nat ->
  exists m1 m2, ks = m1 ++ m2 /\ Forall (fun x => x < key) m1
    /\ Forall (fun x => key <= x) m2
    /\ lower_bound_loop fuel keys (Z.of_nat (length l0)) (Z.of_nat (length l1)) key
       = Ok (Z.of_nat (length m1)).
Proof.
  intros -> -> Hs. revert l0 l1 l2 Hs. induction fuel as [|fuel IH]; [lia|].
  intros l0 l1 l2 Hs H0 H2 Hf. simpl. destruct (Z.leb_spec (Z.of_nat (length l1)) 0).
  - destruct l1; [|simpl in *; lia]. exists l0, l2. auto.
  - set (h := (length l1 / 2)%nat). assert (Hh : (h < length l1)%nat).
    { apply Nat.div_lt; lia. }
    replace (Z.of_nat (length l1) / 2) with (Z.of_nat h)
      by (unfold h; by rewrite Nat2Z.inj_div).
    destruct (lookup_lt_is_Some_2 l1 h Hh) as [z Hz].
    pose proof (take_drop_middle l1 h z Hz) as Hl1.
    assert (Hlen : length (take h l1) = h) by (rewrite length_take; lia).
    rewrite <- Nat2Z.inj_add. erewrite array_get_lookup; cycle 1.
    { rewrite <- !app_assoc, lookup_app_r by lia.
      replace (length l0 + h - length l0)%nat with h by lia.
      by apply lookup_app_l_Some. }
    cbn [mbind outcome_bind].
    assert (Hcat : l0 ++ l1 ++ l2 = l0 ++ take h l1 ++ z :: drop (S h) l1 ++ l2).
    { rewrite <- Hl1 at 1. by rewrite <- app_assoc. }
    pose proof Hs as Hs'. rewrite Hcat in Hs'.
    destruct (Z.ltb_spec z key) as [Hk|Hk].
    + replace (Z.of_nat (length l0 + h) + 1)
        with (Z.of_nat (length (l0 ++ take h l1 ++ [z]))) by (rewrite !length_app, Hlen; simpl; lia).
      replace (Z.of_nat (length l1) - Z.of_nat h - 1) with (Z.of_nat (length (drop (S h) l1)))
        by (rewrite length_drop; lia).
      replace (l0 ++ l1 ++ l2) with ((l0 ++ take h l1 ++ [z]) ++ drop (S h) l1 ++ l2) in *
        by (rewrite Hcat, <- !app_assoc; done).
      apply IH; [done| |done|rewrite length_drop; lia].
      apply Forall_app; split; [done|]. apply Forall_app; split; [|by repeat constructor].
      apply Forall_forall. intros x Hx. apply ksorted_app in Hs' as (_ & Hs' & _).
      apply ksorted_app in Hs' as (_ & _ & Hlt). specialize (Hlt x z Hx). set_solver by lia.
    + replace (Z.of_nat h) with (Z.of_nat (length (take h l1))) by lia.
      replace (l0 ++ l1 ++ l2) with (l0 ++ take h l1 ++ (z :: drop (S h) l1 ++ l2)) in *.
      apply IH; [done|done| |lia].
      apply ksorted_app in Hs' as (_ & Hs' & _). apply ksorted_app in Hs' as (_ & Hs' & _).
      apply StronglySorted_cons in Hs' as [Hz' _].
      constructor; [done|]. eapply Forall_impl; [exact Hz'|]. simpl. lia.
Qed.

Lemma lower_bound_spec keys ks tl key :
  keys = ks ++ tl -> ksorted ks ->
  exists m1 m2, ks = m1 ++ m2 /\ Forall (fun x => x < key) m1
    /\ Forall (fun x => key <= x) m2
    /\ lower_bound keys (Z.of_nat (length ks)) key = Ok (Z.of_nat (length m1)).
Proof.
  intros Hk Hs. unfold lower_bound. rewrite Nat2Z.id.
  apply (lower_bound_loop_spec _ keys ks tl [] ks [] key); auto using Forall_nil_2.
  by rewrite app_nil_r.
Qed.

(** ** Insertion into parallel sorted sequences *)

(** [ks'], [vs'] is [ks], [vs] with [key], [v] put before the first key [>= key]. *)
Definition inserted_at {V} (ks : list Z) (vs : list V) (key : Z) (v : V)
    (ks' : list Z) (vs' : list V) : Prop :=
  exists l1 l2 vs1 vs2, ks = l1 ++ l2 /\ vs = vs1 ++ vs2 /\ length vs1 = length l1
    /\ Forall (fun x => x < key) l1 /\ Forall (fun x => key <= x) l2
    /\ ks' = l1 ++ key :: l2 /\ vs' = vs1 ++ v :: vs2.

Lemma inserted_at_sorted {V} ks (vs : list V) key v ks' vs' :
  inserted_at ks vs key v ks' vs' -> ksorted ks -> key ∉ ks -> ksorted ks'.
Proof.
  intros (l1 & l2 & ? & ? & -> & _ & _ & H1 & H2 & -> & _) Hs Hn.
  apply ksorted_insert; auto. set_solver.
Qed.

Lemma inserted_at_length {V} ks (vs : list V) key v ks' vs' :
  inserted_at ks vs key v ks' vs' -> length ks' = S (length ks) /\ length vs' = S (length vs).
Proof.
  intros (l1 & l2 & v1 & v2 & -> & -> & _ & _ & _ & -> & ->).
  rewrite !length_app. simpl. lia.
Qed.

Lemma inserted_at_keys {V} ks (vs : list V) key v ks' vs' x :
  inserted_at ks vs key v ks' vs' -> x ∈ ks' <-> x = key \/ x ∈ ks.
Proof.
  intros (l1 & l2 & v1 & v2 & -> & -> & _ & _ & _ & -> & ->). set_solver.
Qed.

Lemma inserted_at_zip {V} ks (vs : list V) key v ks' vs' p :
  inserted_at ks vs key v ks' vs' ->
  p ∈ zip ks' vs' <-> p = (key, v) \/ p ∈ zip ks vs.
Proof.
  intros (l1 & l2 & v1 & v2 & -> & -> & Hl & _ & _ & -> & ->).
  rewrite !zip_with_app by done. simpl. set_solver.
Qed.

Lemma elem_of_zip_lookup {A B} (l : list A) (k : list B) x y :
  (x, y) ∈ zip l k <-> exists i, l !! i = Some x /\ k !! i = Some y.
Proof.
  rewrite list_elem_of_lookup. split; intros [i Hi]; exists i.
  - rewrite lookup_zip_with in Hi. destruct (l !! i), (k !! i); naive_solver.
  - rewrite lookup_zip_with. destruct Hi as [-> ->]. done.
Qed.

Lemma zip_functional (ks : list Z) {V} (vs : list V) k v v' :
  NoDup ks -> (k, v) ∈ zip ks vs -> (k, v') ∈ zip ks vs -> v = v'.
Proof.
  intros Hn (i & Hi & Hv)%elem_of_zip_lookup (j & Hj & Hv')%elem_of_zip_lookup.
  assert (i = j) as -> by (by eapply NoDup_lookup). congruence.
Qed.

Lemma zip_key_exists (ks : list Z) {V} (vs : list V) k :
  length vs = length ks -> k ∈ ks -> exists v, (k, v) ∈ zip ks vs.
Proof.
  intros Hl [i Hi]%list_elem_of_lookup.
  destruct (lookup_lt_is_Some_2 vs i) as [v Hv]; [rewrite Hl; by eapply lookup_lt_Some|].
  exists v. apply elem_of_zip_lookup. eauto.
Qed.

Lemma Forall2_impl_in {A B} (P Q : A -> B -> Prop) l k :
  Forall2 P l k -> (forall x y, y ∈ k -> P x y -> Q x y) -> Forall2 Q l k.
Proof.
  induction 1; intros Himp; constructor; [apply Himp; set_solver|]. apply IHForall2. intros. apply Himp; set_solver.
Qed.

(** ** Positions in sorted lists *)
Definition below (ks : list Z) (key : Z) (p : nat) : Prop := Forall (fun x => x < key) (take p ks).
Definition above (ks : list Z) (key : Z) (p : nat) : Prop := Forall (fun x => key <= x) (drop p ks).

Lemma below_S ks key m z : ksorted ks -> ks !! m = Some z -> z < key -> below ks key (S m).
Proof.
  intros Hs Hm Hz. unfold below. rewrite (take_S_r _ _ _ Hm). apply Forall_app. split; [|by repeat constructor].
  apply Forall_forall. intros x (i & Hi)%list_elem_of_lookup. apply lookup_take_Some in Hi as [Hi Hlt].
  pose proof (ksorted_lookup ks i m x z Hs Hlt Hi Hm). lia.
Qed.
Lemma above_at ks key m z : ksorted ks -> ks !! m = Some z -> key <= z -> above ks key m.
Proof.
  intros Hs Hm Hz. unfold above. rewrite (drop_S _ _ _ Hm). constructor; [done|].
  apply Forall_forall. intros x (i & Hi)%list_elem_of_lookup. rewrite lookup_drop in Hi.
  assert (Hlt : (m < S m + i)%nat) by lia. pose proof (ksorted_lookup ks m _ z x Hs Hlt Hm Hi). lia.
Qed.
Lemma above_mono ks key p q : above ks key p -> (p <= q)%nat -> above ks key q.
Proof.
  unfold above. intros H Hle. replace q with (p + (q - p))%nat by lia. rewrite <- drop_drop.
  by apply Forall_drop.
Qed.
Lemma above_end ks key p : (length ks <= p)%nat -> above ks key p.
Proof. intros. unfold above. by rewrite drop_ge. Qed.

(** A position is determined by what lies on its two sides. *)
Lemma position_unique ks key p q :
  (p <= length ks)%nat -> (q <= length ks)%nat -> below ks key p -> above ks key p ->
  below ks key q -> above ks key q -> p = q.
Proof.
  assert (Hlt : forall p q, (q <= length ks)%nat -> above ks key p -> below ks key q -> ~ (p < q)%nat).
  { unfold below, above. intros p' q' Hq Ha Hb Hlt.
    destruct (lookup_lt_is_Some_2 ks p') as [z Hz]; [lia|].
    rewrite (drop_S _ _ _ Hz) in Ha. apply Forall_cons in Ha as [Ha _].
    rewrite Forall_forall in Hb. assert (Hin : z ∈ take q' ks); [|specialize (Hb z Hin); lia].
    apply list_elem_of_lookup. exists p'. by apply lookup_take_Some. }
  intros Hp Hq Hbp Hap Hbq Haq. pose proof (Hlt p q Hq Hap Hbq). pose proof (Hlt q p Hp Haq Hbp). lia.
Qed.

(** ** The map a heap of objects stores

    [ents] lists the pairs one object holds. *)
Section Stored.
Context {N : Type} {ents : N -> list (Z * Z)}.

Definition stored (h : gmap positive N) (k v : Z) : Prop :=
  exists l n, h !! l = Some n /\ (k, v) ∈ ents n.
Definition stored_map (h : gmap positive N) : gmap Z Z :=
  map_fold (fun _ n m => list_to_map (ents n) ∪ m) ∅ h.

Lemma stored_map_spec h :
  (forall k v v', stored h k v -> stored h k v' -> v = v') ->
  forall k v, stored_map h !! k = Some v <-> stored h k v.
Proof.
  unfold stored_map.
  apply (map_fold_weak_ind (fun r m => (forall k v v', stored m k v -> stored m k v' -> v = v') ->
    forall k v, r !! k = Some v <-> stored m k v)).
  - intros _ k v. rewrite lookup_empty. split; [done|]. intros (l & n & Hl & _).
    by rewrite lookup_empty in Hl.
  - intros l n m r Hl IH Hf k v.
    assert (Hm : forall l' n', m !! l' = Some n' -> <[l := n]> m !! l' = Some n').
    { intros l' n' Hl'. rewrite lookup_insert_ne; [done|]. congruence. }
    assert (IH' : forall k v, r !! k = Some v <-> stored m k v).
    { apply IH. intros k' v1 v2 (l1 & n1 & ? & ?) (l2 & n2 & ? & ?).
      eapply Hf; [exists l1, n1|exists l2, n2]; eauto. }
    assert (Hn : forall v', (k, v') ∈ ents n -> stored (<[l := n]> m) k v').
    { intros v' Hv'. exists l, n. split; [apply lookup_insert_eq|done]. }
    rewrite lookup_union_Some_raw, IH'. split.
    + intros [Hk%elem_of_list_to_map_2|[_ (l' & n' & ? & ?)]]; [by apply Hn|].
      exists l', n'. eauto.
    + intros (l' & n' & [[??]|[??]]%lookup_insert_Some & Hk); subst.
      * left. apply elem_of_list_to_map_1'; [|done]. intros y Hy. eapply Hf; eauto.
      * destruct (list_to_map (ents n) !! k) as [y|] eqn:Hy.
        -- left. f_equal. apply elem_of_list_to_map_2 in Hy. eapply Hf; [eauto|]. exists l', n'. eauto.
        -- right. split; [done|]. exists l', n'. eauto.
Qed.

Lemma stored_update h l n n' (P : Z -> Z -> Prop) k v :
  h !! l = Some n ->
  (forall k v, (k, v) ∈ ents n' <-> P k v \/ (k, v) ∈ ents n) ->
  stored (<[l := n']> h) k v <-> P k v \/ stored h k v.
Proof.
  intros Hl He. split.
  - intros (l' & m & [[??]|[??]]%lookup_insert_Some & Hk); subst.
    + apply He in Hk as [?|?]; [by left|right]. by exists l', n.
    + right. by exists l', m.
  - intros [HP|(l' & m & Hm & Hk)].
    + exists l, n'. split; [apply lookup_insert_eq|]. apply He. by left.
    + destruct (decide (l = l')) as [->|Hne].
      * simplify_eq. exists l', n'. split; [apply lookup_insert_eq|]. apply He. by right.
      * exists l', m. by rewrite lookup_insert_ne.
Qed.

Lemma stored_fresh h r m k v :
  h !! r = None -> stored (<[r := m]> h) k v <-> (k, v) ∈ ents m \/ stored h k v.
Proof.
  intros Hr. split.
  - intros (l' & n & [[??]|[??]]%lookup_insert_Some & Hk); subst; [by left|right]. by exists l', n.
  - intros [Hk|(l' & n & Hn & Hk)].
    + exists r, m. split; [apply lookup_insert_eq|done].
    + exists l', n. rewrite lookup_insert_ne; [done|]. congruence.
Qed.

Lemma stored_split h l r n nl nr (P : Z -> Z -> Prop) k v :
  h !! l = Some n -> h !! r = None ->
  (forall k v, (k, v) ∈ ents nl ++ ents nr <-> P k v \/ (k, v) ∈ ents n) ->
  stored (<[l := nl]> (<[r := nr]> h)) k v <-> P k v \/ stored h k v.
Proof.
  intros Hl Hr He. assert (l <> r) by congruence.
  rewrite insert_insert_ne by done. rewrite stored_fresh by (by rewrite lookup_insert_ne).
  split.
  - intros [Hk|(l' & m & [[??]|[??]]%lookup_insert_Some & Hk)]; subst.
    + destruct (proj1 (He k v)) as [?|?]; [apply elem_of_app; by right|by left|].
      right. by exists l, n.
    + destruct (proj1 (He k v)) as [?|?]; [apply elem_of_app; by left|by left|].
      right. by exists l', n.
    + right. by exists l', m.
  - intros Hor. assert (Hcase : (k, v) ∈ ents nl ++ ents nr \/
      exists l' m, l' <> l /\ h !! l' = Some m /\ (k, v) ∈ ents m).
    { destruct Hor as [HP|(l' & m & Hm & Hk)]; [left; apply He; by left|].
      destruct (decide (l' = l)) as [->|]; [|right; eauto]. simplify_eq. left. apply He. by right. }
    destruct Hcase as [[Hk|Hk]%elem_of_app|(l' & m & Hne & Hm & Hk)].
    + right. exists l, nl. split; [apply lookup_insert_eq|done].
    + by left.
    + right. exists l', m. by rewrite lookup_insert_ne.
Qed.

(** No key has two values. *)
Definition stored_functional (h : gmap positive N) : Prop :=
  forall k v v', stored h k v -> stored h k v' -> v = v'.

Lemma stored_map_None h k :
  stored_functional h -> stored_map h !! k = None <-> forall v, ~ stored h k v.
Proof.
  intros Hf. split.
  - intros Hk v Hv%(stored_map_spec _ Hf). congruence.
  - intros Hk. destruct (stored_map h !! k) as [v|] eqn:E; [|done].
    apply (stored_map_spec _ Hf) in E. by apply Hk in E.
Qed.
Lemma stored_map_ext h h' :
  stored_functional h -> stored_functional h' -> (forall k v, stored h' k v <-> stored h k v) ->
  stored_map h' = stored_map h.
Proof.
  intros Hf Hf' He. apply map_eq. intros k. apply option_eq. intros v.
  by rewrite (stored_map_spec h'), (stored_map_spec h).
Qed.
Lemma stored_map_upsert h h' k v :
  stored_functional h -> stored_functional h' ->
  (forall k' v', stored h' k' v' <-> (k' = k /\ v' = v) \/ (k' <> k /\ stored h k' v')) ->
  stored_map h' = <[k := v]> (stored_map h).
Proof.
  intros Hf Hf' He. apply map_eq. intros k'. apply option_eq. intros v'.
  rewrite (stored_map_spec h'), He, lookup_insert_Some, (stored_map_spec h) by done. naive_solver.
Qed.
Lemma stored_insert_eq h l n n' : h !! l = Some n ->
  (forall k v, (k, v) ∈ ents n' <-> (k, v) ∈ ents n) ->
  forall k v, stored (<[l := n']> h) k v <-> stored h k v.
Proof.
  intros Hl He k v. rewrite (stored_update h l n n' (fun _ _ => False)); [naive_solver|done|].
  intros. rewrite He. tauto.
Qed.
(** Storing [k], [v] in the one object that may hold [k]. *)
Lemma stored_upsert h l n n' k v :
  h !! l = Some n -> (forall l' m w, h !! l' = Some m -> (k, w) ∈ ents m -> l' = l) ->
  (forall a w, (a, w) ∈ ents n' <-> (a = k /\ w = v) \/ (a <> k /\ (a, w) ∈ ents n)) ->
  forall a w, stored (<[l := n']> h) a w <-> (a = k /\ w = v) \/ (a <> k /\ stored h a w).
Proof.
  intros Hl Hone He a w. split.
  - intros (l' & m & [[<- <-]|[Hne Hm]]%lookup_insert_Some & Hin).
    + apply He in Hin as [?|[? ?]]; [by left|]. right. split; [done|]. by exists l, n.
    + right. split; [|by exists l', m]. intros ->. apply Hne. symmetry. by eapply Hone.
  - intros [[-> ->]|[Hne (l' & m & Hm & Hin)]].
    + exists l, n'. split; [apply lookup_insert_eq|]. apply He. by left.
    + destruct (decide (l = l')) as [<-|Hne'].
      * simplify_eq. exists l, n'. split; [apply lookup_insert_eq|]. apply He. by right.
      * exists l', m. by rewrite lookup_insert_ne.
Qed.

End Stored.
Arguments stored {N} ents h k v.
Arguments stored_map {N} ents h.

(** A filter only looks at the elements. *)
Lemma list_filter_ext {A} (P Q : A -> Prop) `{!forall x, Decision (P x)} `{!forall x, Decision (Q x)} (l : list A) :
  (forall x, x ∈ l -> P x <-> Q x) -> filter P l = filter Q l.
Proof.
  induction l as [|x l IH]; intros Hx; [done|]. rewrite !filter_cons, IH by set_solver.
  pose proof (Hx x ltac:(set_solver)). by repeat case_decide; naive_solver.
Qed.
