(* ===== verification/Text.v ===== *)
(** * Reading text

    What the formatted input of the standard library does to a stream of characters, as
    far as [src/src/benchmark/workload.cpp] and [src/src/util/cli_arguments.h] use it:
    [operator>>] for words and for unsigned 64-bit numbers, and decimal digits. *)

From Stdlib Require Import Ascii String.
From S2P Require Import Prelude.

(** ** Formatted input *)

(** What is left of an input stream. *)
Abbreviation stream := (list ascii).

(** [std::isspace] in the default locale. *)
Definition is_space (c : ascii) : bool :=
  let n := Z.of_nat (nat_of_ascii c) in ((9 <=? n) && (n <=? 13)) || (n =? 32).
Definition is_digit (c : ascii) : bool :=
  let n := Z.of_nat (nat_of_ascii c) in (48 <=? n) && (n <=? 57).
Definition digit_value (c : ascii) : Z := Z.of_nat (nat_of_ascii c) - 48.

(** The longest prefix of characters that satisfy [p], and the rest. *)
Fixpoint span (p : ascii -> bool) (s : stream) : stream * stream :=
  match s with
  | [] => ([], [])
  | c :: t => if p c then let '(a, b) := span p t in (c :: a, b) else ([], s)
  end.
Definition skip_spaces (s : stream) : stream := (span is_space s).2.

(** [in >> word]; [None] when the stream fails. *)
Definition read_word (s : stream) : option (stream * stream) :=
  let '(w, rest) := span (fun c => negb (is_space c)) (skip_spaces s) in
  if decide (w = []) then None else Some (w, rest).

(** [in >> key] for an unsigned 64-bit key: a negative number wraps around, a number
    that does not fit fails. *)
Definition digits_value (ds : stream) : Z := fold_left (fun a c => 10 * a + digit_value c) ds 0.
Definition read_sign (s : stream) : bool * stream :=
  match s with
  | c :: t =>
      if Ascii.eqb c "-"%char then (true, t) else if Ascii.eqb c "+"%char then (false, t) else (false, s)
  | [] => (false, s)
  end.
Definition read_u64 (s : stream) : option (Z * stream) :=
  let '(negative, s) := read_sign (skip_spaces s) in
  let '(ds, rest) := span is_digit s in
  if decide (ds = []) then None
  else
    let v := digits_value ds in
    if max_u64 <? v then None else Some (if negative then u64 (- v) else v, rest).

(** ** Lengths *)
Lemma span_length p s : (length (span p s).1 + length (span p s).2 = length s)%nat.
Proof. induction s as [|c s IH]; simpl; [done|]. destruct (p c); [|done]. destruct (span p s). simpl in *. lia. Qed.

Lemma read_word_shorter s w rest : read_word s = Some (w, rest) -> (length rest < length s)%nat.
Proof.
  unfold read_word, skip_spaces. pose proof (span_length is_space s) as H1.
  set (q := fun c => negb (is_space c)). pose proof (span_length q (span is_space s).2) as H2.
  destruct (span q (span is_space s).2) as [a b]. case_decide as Ha; intros ?; simplify_eq. simpl in *.
  destruct w; [done|]. simpl in *. lia.
Qed.
Lemma read_u64_shorter s v rest : read_u64 s = Some (v, rest) -> (length rest <= length s)%nat.
Proof.
  unfold read_u64, skip_spaces. pose proof (span_length is_space s) as H1.
  assert (H2 : (length (read_sign (span is_space s).2).2 <= length (span is_space s).2)%nat).
  { unfold read_sign. destruct (span is_space s).2 as [|c t]; [done|]. by repeat case_match; simpl; lia. }
  destruct (read_sign _) as [neg t]. pose proof (span_length is_digit t). destruct (span is_digit t) as [ds r].
  case_decide; [done|]. case_match; [done|]. intros ?. simplify_eq. simpl in *. lia.
Qed.

(** ** Decimal numbers *)
Definition digit_char (d : Z) : ascii := ascii_of_nat (Z.to_nat (48 + d)).
(** Decimal digits; twenty are enough for 64 bits. *)
Fixpoint decimal (fuel : nat) (n : Z) : stream :=
  match fuel with
  | O => []
  | S fuel => if n <? 10 then [digit_char n] else decimal fuel (n / 10) ++ [digit_char (n mod 10)]
  end.
Lemma span_app p a rest :
  forallb p a = true -> (forall c t, rest = c :: t -> p c = false) -> span p (a ++ rest) = (a, rest).
Proof.
  intros Ha Hr. induction a as [|c a IH]; simpl in *.
  - destruct rest as [|c t]; [done|]. simpl. by rewrite (Hr c t).
  - apply andb_true_iff in Ha as [-> Ha]. by rewrite IH.
Qed.

Lemma digit_char_code d : 0 <= d < 10 -> Z.of_nat (nat_of_ascii (digit_char d)) = 48 + d.
Proof. intros Hd. unfold digit_char. rewrite nat_ascii_embedding; lia. Qed.
Lemma digit_char_ok d : 0 <= d < 10 -> is_digit (digit_char d) = true /\ digit_value (digit_char d) = d.
Proof.
  intros Hd. unfold is_digit, digit_value. rewrite digit_char_code by done. split; [|lia].
  rewrite andb_true_iff, !Z.leb_le. lia.
Qed.
Lemma digit_not_space c : is_digit c = true -> is_space c = false /\ read_sign [c] = (false, [c]).
Proof.
  unfold is_digit, is_space, read_sign. rewrite andb_true_iff, !Z.leb_le. intros Hc. split.
  - rewrite orb_false_iff, andb_false_iff, !Z.leb_gt, Z.eqb_neq. lia.
  - destruct (Ascii.eqb_spec c "-"%char) as [->|]; [by destruct Hc as [[] _]|].
    destruct (Ascii.eqb_spec c "+"%char) as [->|]; [by destruct Hc as [[] _]|]. done.
Qed.
Lemma digits_value_snoc ds c : digits_value (ds ++ [c]) = 10 * digits_value ds + digit_value c.
Proof. unfold digits_value. by rewrite fold_left_app. Qed.

Lemma decimal_ok fuel : forall n, 0 <= n < 10 ^ Z.of_nat fuel ->
  forallb is_digit (decimal fuel n) = true /\ digits_value (decimal fuel n) = n
  /\ (fuel <> O -> exists c t, decimal fuel n = c :: t /\ is_digit c = true).
Proof.
  induction fuel as [|fuel IH]; intros n Hn.
  { change (10 ^ Z.of_nat 0) with 1 in Hn. split; [done|]. split; [unfold digits_value; simpl; lia|done]. }
  rewrite Nat2Z.inj_succ, Z.pow_succ_r in Hn by lia. cbn [decimal]. destruct (Z.ltb_spec n 10).
  - destruct (digit_char_ok n ltac:(lia)) as [Hd Hv]. simpl. rewrite Hd. split; [done|].
    split; [unfold digits_value; simpl; lia|]. eauto.
  - destruct (IH (n / 10)) as (Ha & Hv & _).
    { split; [apply Z.div_pos; lia|]. apply Z.div_lt_upper_bound; lia. }
    pose proof (Z.mod_pos_bound n 10 ltac:(lia)) as Hm. destruct (digit_char_ok (n mod 10) Hm) as [Hd Hdv].
    rewrite forallb_app, Ha, digits_value_snoc, Hv, Hdv. cbn [forallb]. rewrite Hd. split; [done|]. split.
    + rewrite (Z.div_mod n 10) at 3 by lia. lia.
    + intros _. destruct (decimal fuel (n / 10)) as [|c t]; simpl in *; [eauto|].
      apply andb_true_iff in Ha as [Hc _]. eauto.
Qed.

Lemma read_u64_digits c t n rest :
  forallb is_digit (c :: t) = true -> digits_value (c :: t) = n -> n <= max_u64 ->
  (forall c t, rest = c :: t -> is_digit c = false) -> read_u64 (" "%char :: (c :: t) ++ rest) = Some (n, rest).
Proof.
  intros Ha Hv Hn Hr. pose proof Ha as [Hc _]%andb_true_iff. destruct (digit_not_space c Hc) as [Hsp Hsg].
  assert (Hskip : skip_spaces (" "%char :: (c :: t) ++ rest) = (c :: t) ++ rest).
  { unfold skip_spaces. simpl. by rewrite Hsp. }
  assert (Hsign : read_sign ((c :: t) ++ rest) = (false, (c :: t) ++ rest)).
  { simpl in *. by repeat case_match. }
  unfold read_u64. rewrite Hskip, Hsign, (span_app is_digit _ _ Ha Hr), Hv, decide_False by done.
  by rewrite (proj2 (Z.ltb_ge _ _)) by lia.
Qed.
Lemma read_u64_decimal n rest :
  0 <= n <= max_u64 -> (forall c t, rest = c :: t -> is_digit c = false) ->
  read_u64 (" "%char :: decimal 20 n ++ rest) = Some (n, rest).
Proof.
  intros Hn Hr. destruct (decimal_ok 20 n) as (Ha & Hv & Hne).
  { unfold max_u64 in Hn. split; [lia|]. change (10 ^ Z.of_nat 20) with 100000000000000000000. lia. }
  destruct Hne as (c & t & Hct & _); [done|]. rewrite Hct in *. apply read_u64_digits; [done|done|lia|done].
Qed.

