(* ===== verification/Node.v ===== *)
(** * B-link tree nodes

    Models [src/src/indices/blinktree/node.h], [node.cpp] and [node_path.h]:
    the layout constants, the node with its header and its two array views, the
    methods of [Node] and the fixed-capacity [NodePath].  The methods are pure
    functions on the node they are called on; [Tree.v] puts nodes on a heap. *)

From S2P Require Import Prelude.

(** ** Layout *)

(** Addresses of allocated objects, and pointers ([None] is [nullptr]). *)
Abbreviation loc := positive.
Abbreviation ptr := (option loc).

(** [Config::node_size()]. *)
Definition node_size : Z := 1024.
Definition sizeof_key_type : Z := 8.
Definition sizeof_value_type : Z := 8.
Definition sizeof_pointer : Z := 8.

(** What the compiler and the allocator decide: the size of [NodeHeader] (it
    depends on the latch the build selects), [NODE_GARBAGE_SIZE], and the bytes
    found in freshly allocated, uninitialised memory. *)
Class Platform := {
  sizeof_NodeHeader : Z;
  node_garbage_size : Z;
  uninit_key : loc -> nat -> Z;
  uninit_value : loc -> nat -> Z;
  uninit_ptr : loc -> nat -> ptr;
  uninit_path : nat -> ptr }.

(** [InnerNode::max_keys], [InnerNode::max_separators], [LeafNode::max_items]. *)
Definition max_keys `{Platform} : Z :=
  u16 ((node_size - node_garbage_size - sizeof_NodeHeader - sizeof_pointer)
       / (sizeof_key_type + sizeof_pointer)).
Definition max_separators `{Platform} : Z := u16 (max_keys + 1).
Definition max_items `{Platform} : Z :=
  u16 ((node_size - node_garbage_size - sizeof_NodeHeader)
       / (sizeof_key_type + sizeof_value_type)).

(** The header leaves room for two entries of either kind. *)
Class PlatformOk `{Platform} : Prop := {
  header_nonneg : 0 <= sizeof_NodeHeader;
  garbage_nonneg : 0 <= node_garbage_size;
  header_fits : node_garbage_size + sizeof_NodeHeader + 40 <= node_size }.

(** ** Data *)

(** The union of [Node]: the member is fixed at construction by [is_leaf]. *)
Inductive Payload : Type :=
  | InnerNode (keys : list Z) (separators : list ptr)
  | LeafNode (keys : list Z) (values : list Z).

(** [Node] with the fields of its [NodeHeader] (the latch is in [Locks.v]). *)
Record Node : Type := mkNode {
  high_key : Z;
  right_sibling : ptr;
  parent : ptr;
  size : Z;
  payload : Payload }.

Definition is_leaf (n : Node) : bool :=
  match payload n with LeafNode _ _ => true | InnerNode _ _ => false end.
Definition is_inner (n : Node) : bool := negb (is_leaf n).

Definition set_high_key (k : Z) (n : Node) : Node :=
  mkNode k (right_sibling n) (parent n) (size n) (payload n).
Definition set_right_sibling (p : ptr) (n : Node) : Node :=
  mkNode (high_key n) p (parent n) (size n) (payload n).
Definition set_parent (p : ptr) (n : Node) : Node :=
  mkNode (high_key n) (right_sibling n) p (size n) (payload n).
Definition set_size (s : Z) (n : Node) : Node :=
  mkNode (high_key n) (right_sibling n) (parent n) s (payload n).
Definition set_payload (b : Payload) (n : Node) : Node :=
  mkNode (high_key n) (right_sibling n) (parent n) (size n) b.

(** [Node::Node(is_leaf, parent)] at address [l]: the header is initialised, the
    arrays hold whatever the memory held. *)
Definition new_node `{Platform} (l : loc) (leaf : bool) (p : ptr) : Node :=
  mkNode max_u64 None p 0
    (if leaf then
       LeafNode (uninit_key l <$> List.seq 0 (Z.to_nat max_items))
                (uninit_value l <$> List.seq 0 (Z.to_nat max_items))
     else
       InnerNode (uninit_key l <$> List.seq 0 (Z.to_nat max_keys))
                 (uninit_ptr l <$> List.seq 0 (Z.to_nat max_separators))).

(** ** Accessors *)
Definition leaf_key (n : Node) (i : Z) : outcome Z :=
  match payload n with LeafNode ks _ => array_get ks i | _ => Fault InactiveMember end.
Definition inner_key (n : Node) (i : Z) : outcome Z :=
  match payload n with InnerNode ks _ => array_get ks i | _ => Fault InactiveMember end.
Definition node_key (n : Node) (i : Z) : outcome Z :=
  if is_leaf n then leaf_key n i else inner_key n i.
Definition value (n : Node) (i : Z) : outcome Z :=
  match payload n with LeafNode _ vs => array_get vs i | _ => Fault InactiveMember end.
Definition set_value (n : Node) (i v : Z) : outcome Node :=
  match payload n with
  | LeafNode ks vs => vs' ← array_set vs i v; Ok (set_payload (LeafNode ks vs') n)
  | _ => Fault InactiveMember
  end.
Definition separator (n : Node) (i : Z) : outcome ptr :=
  match payload n with InnerNode _ ss => array_get ss i | _ => Fault InactiveMember end.
Definition set_separator (n : Node) (i : Z) (p : ptr) : outcome Node :=
  match payload n with
  | InnerNode ks ss => ss' ← array_set ss i p; Ok (set_payload (InnerNode ks ss') n)
  | _ => Fault InactiveMember
  end.
Definition is_full `{Platform} (n : Node) : bool :=
  let max_size := if is_leaf n then max_items else max_keys in max_size <=? size n.

(** ** Methods of [node.cpp] *)
Definition index (n : Node) (key : Z) : outcome Z :=
  let ks := match payload n with LeafNode ks _ => ks | InnerNode ks _ => ks end in
  i ← lower_bound ks (size n) key; Ok (u16 i).

Fixpoint child_loop (fuel : nat) (keys : list Z) (key low high : Z) : outcome Z :=
  match fuel with
  | O => Fault OutOfFuel
  | S fuel =>
      if low <=? high then
        let mid := i16 (Z.shiftr (low + high) 1) in
        k ← array_get keys mid;
        if k <=? key then child_loop fuel keys key (i16 (mid + 1)) high
        else child_loop fuel keys key low (i16 (mid - 1))
      else Ok high
  end.
Definition child (n : Node) (key : Z) : outcome ptr :=
  match payload n with
  | InnerNode ks ss =>
      high ← child_loop (S (Z.to_nat (size n))) ks key 0 (i16 (size n - 1));
      array_get ss (high + 1)
  | LeafNode _ _ => Fault InactiveMember
  end.

Definition insert_separator (n : Node) (index : Z) (sep : ptr) (key : Z) : outcome Node :=
  match payload n with
  | InnerNode ks ss =>
      '(ks, ss) ←
        (if index <? size n then
           let offset := size n - index in
           ks' ← memmove ks (index + 1) index offset;
           ss' ← memmove ss (index + 2) (index + 1) offset;
           Ok (ks', ss')
         else Ok (ks, ss));
      ks' ← array_set ks index key;
      ss' ← array_set ss (index + 1) sep;
      Ok (set_size (u16 (size n + 1)) (set_payload (InnerNode ks' ss') n))
  | LeafNode _ _ => Fault InactiveMember
  end.

Definition insert_value (n : Node) (index v key : Z) : outcome Node :=
  match payload n with
  | LeafNode ks vs =>
      '(ks, vs) ←
        (if index <? size n then
           let offset := size n - index in
           ks' ← memmove ks (index + 1) index offset;
           vs' ← memmove vs (index + 1) index offset;
           Ok (ks', vs')
         else Ok (ks, vs));
      ks' ← array_set ks index key;
      vs' ← array_set vs index v;
      Ok (set_size (u16 (size n + 1)) (set_payload (LeafNode ks' vs') n))
  | InnerNode _ _ => Fault InactiveMember
  end.

(** [this->copy(other, from_index, count)] returns the updated [other]. *)
Definition copy (this other : Node) (from_index count : Z) : outcome Node :=
  match payload this, payload other with
  | LeafNode ks vs, LeafNode ks' vs' =>
      ks'' ← memcpy ks' 0 ks from_index count;
      vs'' ← memcpy vs' 0 vs from_index count;
      Ok (set_payload (LeafNode ks'' vs'') other)
  | InnerNode ks ss, InnerNode ks' ss' =>
      ks'' ← memcpy ks' 0 ks from_index count;
      ss'' ← memcpy ss' 1 ss (from_index + 1) count;
      Ok (set_payload (InnerNode ks'' ss'') other)
  | _, _ => Fault InactiveMember
  end.

(** The loop of [contains_separator] from [i] on; [todo] counts the iterations left. *)
Fixpoint contains_separator_from (todo : nat) (n : Node) (i : Z) (sep : ptr) : outcome bool :=
  match todo with
  | O => Ok false
  | S todo =>
      p ← separator n i;
      if decide (p = sep) then Ok true else contains_separator_from todo n (i + 1) sep
  end.
Definition contains_separator (n : Node) (sep : ptr) : outcome bool :=
  contains_separator_from (Z.to_nat (size n + 1)) n 0 sep.

(** ** [NodePath<10>] *)
Definition path_capacity : Z := 10.
Record NodePath : Type := mkPath { path_data : list ptr; path_counter : Z }.

Definition path_init `{Platform} : NodePath :=
  mkPath (uninit_path <$> List.seq 0 (Z.to_nat path_capacity)) 0.
Definition path_push (p : NodePath) (n : ptr) : outcome NodePath :=
  d ← array_set (path_data p) (path_counter p) n; Ok (mkPath d (u64 (path_counter p + 1))).
Definition path_pop (p : NodePath) : outcome (ptr * NodePath) :=
  let c := u64 (path_counter p - 1) in
  n ← array_get (path_data p) c; Ok (n, mkPath (path_data p) c).
Definition path_clear (p : NodePath) : NodePath := mkPath (path_data p) 0.
Definition path_is_empty (p : NodePath) : bool := path_counter p =? 0.
Definition path_size (p : NodePath) : Z := path_counter p.

(** ** Facts about nodes *)
Section NodeFacts.
Context {PF : Platform} {PFok : PlatformOk}.

Lemma max_keys_eq :
  max_keys = (node_size - node_garbage_size - sizeof_NodeHeader - 8) / 16.
Proof.
  pose proof header_nonneg. pose proof garbage_nonneg. pose proof header_fits.
  unfold max_keys, sizeof_key_type, sizeof_pointer, node_size in *. simpl (8 + 8).
  apply u16_small. split; [apply Z.div_pos; lia|]. apply Z.div_lt_upper_bound; lia.
Qed.
Lemma max_keys_bounds : 2 <= max_keys <= 64.
Proof.
  pose proof header_nonneg. pose proof garbage_nonneg. pose proof header_fits.
  rewrite max_keys_eq. unfold node_size in *.
  split; [apply Z.div_le_lower_bound; lia|]. apply Z.div_le_upper_bound; lia.
Qed.
Lemma max_items_eq :
  max_items = (node_size - node_garbage_size - sizeof_NodeHeader) / 16.
Proof.
  pose proof header_nonneg. pose proof garbage_nonneg. pose proof header_fits.
  unfold max_items, sizeof_key_type, sizeof_value_type, node_size in *. simpl (8 + 8).
  apply u16_small. split; [apply Z.div_pos; lia|]. apply Z.div_lt_upper_bound; lia.
Qed.
Lemma max_items_bounds : 2 <= max_items <= 64.
Proof.
  pose proof header_nonneg. pose proof garbage_nonneg. pose proof header_fits.
  rewrite max_items_eq. unfold node_size in *.
  split; [apply Z.div_le_lower_bound; lia|]. apply Z.div_le_upper_bound; lia.
Qed.
Lemma max_separators_eq : max_separators = max_keys + 1.
Proof. pose proof max_keys_bounds. apply u16_small. lia. Qed.

(** The arrays of a node split into a live prefix and a stale rest. *)
Record leaf_shape (n : Node) (ks kt vs vt : list Z) : Prop := {
  leaf_payload : payload n = LeafNode (ks ++ kt) (vs ++ vt);
  leaf_size : size n = Z.of_nat (length ks);
  leaf_values : length vs = length ks;
  leaf_cap_keys : Z.of_nat (length (ks ++ kt)) = max_items;
  leaf_cap_values : Z.of_nat (length (vs ++ vt)) = max_items }.
Record inner_shape (n : Node) (ks kt : list Z) (ss st : list ptr) : Prop := {
  inner_payload : payload n = InnerNode (ks ++ kt) (ss ++ st);
  inner_size : size n = Z.of_nat (length ks);
  inner_seps : length ss = S (length ks);
  inner_cap_keys : Z.of_nat (length (ks ++ kt)) = max_keys;
  inner_cap_seps : Z.of_nat (length (ss ++ st)) = max_keys + 1 }.

Definition node_keys (n : Node) : list Z :=
  match payload n with LeafNode ks _ => ks | InnerNode ks _ => ks end.

Lemma index_spec n ks kt key :
  node_keys n = ks ++ kt -> size n = Z.of_nat (length ks) ->
  (length ks <= 64)%nat -> ksorted ks ->
  exists l1 l2, ks = l1 ++ l2 /\ Forall (fun x => x < key) l1
    /\ Forall (fun x => key <= x) l2 /\ index n key = Ok (Z.of_nat (length l1)).
Proof.
  intros Hk Hsz Hle Hs. unfold index. fold (node_keys n). rewrite Hsz.
  destruct (lower_bound_spec (node_keys n) ks kt key Hk Hs) as (l1 & l2 & Heq & H1 & H2 & Hlb).
  exists l1, l2. repeat split; [done..|]. rewrite Hlb. simpl.
  rewrite u16_small; [done|]. rewrite Heq, length_app in Hle. lia.
Qed.

(** The interval bisected by [child] always brackets the last key [<= key]. *)
Lemma child_loop_spec fuel keys tl key l0 l1 l2 :
  keys = (l0 ++ l1 ++ l2) ++ tl -> ksorted (l0 ++ l1 ++ l2) ->
  (length (l0 ++ l1 ++ l2) <= 64)%nat ->
  Forall (fun x => x <= key) l0 -> Forall (fun x => key < x) l2 ->
  (length l1 < fuel)%nat ->
  exists m1 m2, l0 ++ l1 ++ l2 = m1 ++ m2 /\ Forall (fun x => x <= key) m1
    /\ Forall (fun x => key < x) m2
    /\ child_loop fuel keys key (Z.of_nat (length l0)) (Z.of_nat (length (l0 ++ l1)) - 1)
       = Ok (Z.of_nat (length m1) - 1).
Proof.
  intros ->. revert l0 l1 l2. induction fuel as [|fuel IH]; [lia|].
  intros l0 l1 l2 Hs Hle H0 H2 Hf. cbn [child_loop].
  destruct (Z.leb_spec (Z.of_nat (length l0)) (Z.of_nat (length (l0 ++ l1)) - 1)) as [Hlt|Hge];
    rewrite length_app in *; cycle 1.
  { destruct l1; [|simpl in *; lia]. exists l0, l2. repeat split; auto.
    simpl. do 2 f_equal. lia. }
  set (h := ((length l1 - 1) / 2)%nat).
  assert (Hh : (h < length l1)%nat).
  { unfold h. apply Nat.Div0.div_lt_upper_bound. lia. }
  assert (Hmid : Z.shiftr (Z.of_nat (length l0) + (Z.of_nat (length l0 + length l1) - 1)) 1
                 = Z.of_nat (length l0 + h)).
  { rewrite Z.shiftr_div_pow2 by lia. change (2 ^ 1) with 2.
    replace (Z.of_nat (length l0) + (Z.of_nat (length l0 + length l1) - 1))
      with (Z.of_nat (length l0) * 2 + Z.of_nat (length l1 - 1)) by lia.
    rewrite Z.div_add_l by lia. unfold h. rewrite Nat2Z.inj_add, Nat2Z.inj_div. done. }
  rewrite !length_app in Hle. clearbody h.
  rewrite Hmid, (i16_small (Z.of_nat (length l0 + h))) by lia.
  destruct (lookup_lt_is_Some_2 l1 h Hh) as [z Hz].
  pose proof (take_drop_middle l1 h z Hz) as Hl1.
  assert (Hlen : length (take h l1) = h) by (rewrite length_take; lia).
  erewrite array_get_lookup; cycle 1.
  { rewrite <- !app_assoc, lookup_app_r by lia.
    replace (length l0 + h - length l0)%nat with h by lia. by apply lookup_app_l_Some. }
  cbn [mbind outcome_bind].
  assert (Hcat : l0 ++ l1 ++ l2 = l0 ++ take h l1 ++ z :: drop (S h) l1 ++ l2).
  { rewrite <- Hl1 at 1. by rewrite <- app_assoc. }
  pose proof Hs as Hs'. rewrite Hcat in Hs'.
  assert (Hleq : (length (l0 ++ l1 ++ l2) <= 64)%nat) by (rewrite !length_app in *; lia).
  destruct (Z.leb_spec z key) as [Hk|Hk].
  - rewrite i16_small by lia.
    replace (Z.of_nat (length l0 + h) + 1)
      with (Z.of_nat (length (l0 ++ take h l1 ++ [z]))) by (rewrite !length_app, Hlen; simpl; lia).
    replace (Z.of_nat (length l0 + length l1) - 1)
      with (Z.of_nat (length ((l0 ++ take h l1 ++ [z]) ++ drop (S h) l1)) - 1)
      by (rewrite !length_app, length_drop, Hlen; simpl; lia).
    replace (l0 ++ l1 ++ l2) with ((l0 ++ take h l1 ++ [z]) ++ drop (S h) l1 ++ l2) in *
      by (rewrite Hcat, <- !app_assoc; done).
    apply IH; [done|done| |done|rewrite length_drop; lia].
    apply Forall_app; split; [done|]. apply Forall_app; split; [|by repeat constructor].
    apply Forall_forall. intros x Hx. apply ksorted_app in Hs' as (_ & Hs' & _).
    apply ksorted_app in Hs' as (_ & _ & Hlt'). specialize (Hlt' x z Hx). set_solver by lia.
  - rewrite i16_small by lia.
    replace (Z.of_nat (length l0 + h) - 1) with (Z.of_nat (length (l0 ++ take h l1)) - 1)
      by (rewrite length_app, Hlen; lia).
    replace (l0 ++ l1 ++ l2) with (l0 ++ take h l1 ++ (z :: drop (S h) l1 ++ l2)) in *.
    apply IH; [done|done|done| |lia].
    apply ksorted_app in Hs' as (_ & Hs' & _). apply ksorted_app in Hs' as (_ & Hs' & _).
    apply StronglySorted_cons in Hs' as [Hz' _].
    constructor; [done|]. eapply Forall_impl; [exact Hz'|]. simpl. lia.
Qed.

Lemma child_spec n ks kt ss st key :
  inner_shape n ks kt ss st -> ksorted ks ->
  exists l1 l2 p, ks = l1 ++ l2 /\ Forall (fun x => x <= key) l1
    /\ Forall (fun x => key < x) l2 /\ ss !! length l1 = Some p /\ child n key = Ok p.
Proof.
  intros [Hp Hsz Hss Hck Hcs] Hs. pose proof max_keys_bounds as Hmax.
  unfold child. rewrite Hp, Hsz, Nat2Z.id. rewrite length_app in Hck.
  rewrite i16_small by lia.
  destruct (child_loop_spec (S (length ks)) (ks ++ kt) kt key [] ks []) as (m1 & m2 & Heq & H1 & H2 & Hc);
    cbn [app]; rewrite ?app_nil_r; auto; try lia; [constructor..|].
  cbn [app length] in Hc, Heq. rewrite app_nil_r in Heq. change (Z.of_nat 0) with 0 in Hc. rewrite Hc. cbn [mbind outcome_bind].
  destruct (lookup_lt_is_Some_2 ss (length m1)) as [p Hpp].
  { rewrite Hss, Heq, length_app. lia. }
  exists m1, m2, p. repeat split; auto.
  replace (Z.of_nat (length m1) - 1 + 1) with (Z.of_nat (length m1)) by lia.
  apply array_get_lookup. by apply lookup_app_l_Some.
Qed.

(** Shifting the tail of an array up by one and storing into the gap, the shift
    being skipped when the gap is at the end of the live part. *)
Lemma shift_insert {A} (l1 l2 t : list A) y x :
  exists l,
    (if Z.of_nat (length l1) <? Z.of_nat (length (l1 ++ l2)) then
       memmove (l1 ++ l2 ++ y :: t) (Z.of_nat (length l1) + 1) (Z.of_nat (length l1))
         (Z.of_nat (length (l1 ++ l2)) - Z.of_nat (length l1))
     else Ok (l1 ++ l2 ++ y :: t)) = Ok l
    /\ array_set l (Z.of_nat (length l1)) x = Ok (l1 ++ x :: l2 ++ t).
Proof.
  rewrite length_app. destruct (Z.ltb_spec (Z.of_nat (length l1)) (Z.of_nat (length l1 + length l2))).
  - replace (Z.of_nat (length l1 + length l2) - Z.of_nat (length l1))
      with (Z.of_nat (length l2)) by lia.
    destruct (memmove_gap l1 l2 t y x) as (l & -> & _ & ?). eauto.
  - destruct l2; [|simpl in *; lia]. simpl. eexists. split; [done|]. apply array_set_app.
Qed.

Lemma insert_value_spec n l1 l2 kt vs1 vs2 vt y z key v :
  leaf_shape n (l1 ++ l2) (y :: kt) (vs1 ++ vs2) (z :: vt) ->
  length vs1 = length l1 ->
  exists n', insert_value n (Z.of_nat (length l1)) v key = Ok n'
    /\ leaf_shape n' (l1 ++ key :: l2) kt (vs1 ++ v :: vs2) vt
    /\ high_key n' = high_key n /\ right_sibling n' = right_sibling n /\ parent n' = parent n.
Proof.
  intros [Hp Hsz Hvs Hck Hcv] Hl. pose proof max_items_bounds as Hmax.
  unfold insert_value. rewrite Hp, Hsz, <- !app_assoc.
  destruct (shift_insert l1 l2 kt y key) as (ks' & Hks & Hks').
  destruct (shift_insert vs1 vs2 vt z v) as (ws' & Hws & Hws').
  rewrite Hl, Hvs in Hws. rewrite Hl in Hws'.
  destruct (Z.of_nat (length l1) <? Z.of_nat (length (l1 ++ l2))); simplify_eq;
    rewrite ?Hks, ?Hws; cbn [mbind outcome_bind]; rewrite ?Hks, ?Hws; cbn [mbind outcome_bind];
    rewrite Hks', Hws'; cbn [mbind outcome_bind];
    (eexists; split; [done|]; split; [|done]).
  all: rewrite !length_app in *; simpl in *; rewrite ?length_app in *.
  all: constructor; simpl; rewrite ?length_app; simpl; rewrite ?u16_small by lia; try lia.
  all: rewrite <- ?app_assoc; simpl; auto; rewrite ?length_app; lia.
Qed.

Lemma insert_separator_spec n l1 l2 kt s0 ss1 ss2 st y z key sep :
  inner_shape n (l1 ++ l2) (y :: kt) (s0 :: ss1 ++ ss2) (z :: st) ->
  length ss1 = length l1 ->
  exists n', insert_separator n (Z.of_nat (length l1)) sep key = Ok n'
    /\ inner_shape n' (l1 ++ key :: l2) kt (s0 :: ss1 ++ sep :: ss2) st
    /\ high_key n' = high_key n /\ right_sibling n' = right_sibling n /\ parent n' = parent n.
Proof.
  intros [Hp Hsz Hss Hck Hcs] Hl. pose proof max_keys_bounds as Hmax.
  unfold insert_separator. rewrite Hp, Hsz, <- !app_assoc.
  destruct (shift_insert l1 l2 kt y key) as (ks' & Hks & Hks').
  destruct (shift_insert (s0 :: ss1) ss2 st z sep) as (ws' & Hws & Hws').
  assert (Hss' : length ss2 = length l2) by (simpl in Hss; rewrite !length_app in Hss; lia).
  replace (Z.of_nat (length (s0 :: ss1))) with (Z.of_nat (length l1) + 1) in * by (simpl; lia).
  replace (Z.of_nat (length ((s0 :: ss1) ++ ss2))) with (Z.of_nat (length (l1 ++ l2)) + 1) in Hws
    by (simpl; rewrite !length_app; lia).
  replace (Z.of_nat (length l1) + 1 + 1) with (Z.of_nat (length l1) + 2) in Hws by lia.
  replace (Z.of_nat (length (l1 ++ l2)) + 1 - (Z.of_nat (length l1) + 1))
    with (Z.of_nat (length (l1 ++ l2)) - Z.of_nat (length l1)) in Hws by lia.
  replace (Z.of_nat (length l1) + 1 <? Z.of_nat (length (l1 ++ l2)) + 1)
    with (Z.of_nat (length l1) <? Z.of_nat (length (l1 ++ l2))) in Hws
    by (apply eq_bool_prop_intro; rewrite !Is_true_true, !Z.ltb_lt; lia).
  replace (((s0 :: ss1 ++ ss2) ++ z :: st)) with ((s0 :: ss1) ++ ss2 ++ z :: st)
    by (simpl; by rewrite <- app_assoc).
  cbn [app] in Hws, Hws' |- *.
  destruct (Z.of_nat (length l1) <? Z.of_nat (length (l1 ++ l2))); simplify_eq;
    rewrite ?Hks; cbn [mbind outcome_bind]; rewrite ?Hws; cbn [mbind outcome_bind];
    rewrite Hks'; cbn [mbind outcome_bind]; rewrite Hws'; cbn [mbind outcome_bind];
    (eexists; split; [done|]; split; [|done]).
  all: simpl in *; rewrite !length_app in *; simpl in *; rewrite ?length_app in *.
  all: constructor; simpl; rewrite ?length_app; simpl; rewrite ?u16_small by lia; try lia.
  all: rewrite <- ?app_assoc; simpl; auto; rewrite ?length_app; lia.
Qed.

(** Looking up the position of [key] and inserting there, leaves and inner nodes. *)
Lemma leaf_insert n ks y kt vs z vt key v :
  leaf_shape n ks (y :: kt) vs (z :: vt) -> ksorted ks ->
  exists i n' ks' vs', index n key = Ok i /\ insert_value n i v key = Ok n'
    /\ leaf_shape n' ks' kt vs' vt /\ inserted_at ks vs key v ks' vs'
    /\ high_key n' = high_key n /\ right_sibling n' = right_sibling n /\ parent n' = parent n.
Proof.
  intros Hn Hs. pose proof Hn as [Hp Hsz Hvs Hck Hcv]. pose proof max_items_bounds.
  destruct (index_spec n ks (y :: kt) key) as (l1 & l2 & -> & H1 & H2 & Hi); auto.
  { unfold node_keys. by rewrite Hp. }
  { rewrite length_app in Hck. lia. }
  rewrite length_app in Hvs.
  assert (Ht : length (take (length l1) vs) = length l1) by (rewrite length_take; lia).
  rewrite <- (take_drop (length l1) vs) in Hn.
  destruct (insert_value_spec n l1 l2 kt _ _ vt y z key v Hn Ht) as (n' & Hi' & Hn' & Hh).
  exists (Z.of_nat (length l1)), n', (l1 ++ key :: l2),
    (take (length l1) vs ++ v :: drop (length l1) vs).
  repeat split; try tauto; try apply Hn'.
  exists l1, l2, (take (length l1) vs), (drop (length l1) vs). by rewrite take_drop.
Qed.

Lemma inner_insert n ks y kt s0 ss z st key sep :
  inner_shape n ks (y :: kt) (s0 :: ss) (z :: st) -> ksorted ks ->
  exists i n' ks' ss', index n key = Ok i /\ insert_separator n i sep key = Ok n'
    /\ inner_shape n' ks' kt (s0 :: ss') st /\ inserted_at ks ss key sep ks' ss'
    /\ high_key n' = high_key n /\ right_sibling n' = right_sibling n /\ parent n' = parent n.
Proof.
  intros Hn Hs. pose proof Hn as [Hp Hsz Hss Hck Hcs]. pose proof max_keys_bounds.
  destruct (index_spec n ks (y :: kt) key) as (l1 & l2 & -> & H1 & H2 & Hi); auto.
  { unfold node_keys. by rewrite Hp. }
  { rewrite length_app in Hck. lia. }
  simpl in Hss. rewrite length_app in Hss.
  assert (Ht : length (take (length l1) ss) = length l1) by (rewrite length_take; lia).
  rewrite <- (take_drop (length l1) ss) in Hn.
  destruct (insert_separator_spec n l1 l2 kt s0 _ _ st y z key sep Hn Ht) as (n' & Hi' & Hn' & Hh).
  exists (Z.of_nat (length l1)), n', (l1 ++ key :: l2),
    (take (length l1) ss ++ sep :: drop (length l1) ss).
  repeat split; try tauto; try apply Hn'.
  exists l1, l2, (take (length l1) ss), (drop (length l1) ss). by rewrite take_drop.
Qed.

Lemma copy_leaf_spec n other k1 k2 kt vs1 vs2 vt ks' vs' :
  payload n = LeafNode (k1 ++ k2 ++ kt) (vs1 ++ vs2 ++ vt) ->
  payload other = LeafNode ks' vs' ->
  length vs1 = length k1 -> length vs2 = length k2 ->
  (length k2 <= length ks')%nat -> (length k2 <= length vs')%nat ->
  copy n other (Z.of_nat (length k1)) (Z.of_nat (length k2)) =
  Ok (set_payload (LeafNode (k2 ++ drop (length k2) ks') (vs2 ++ drop (length k2) vs')) other).
Proof.
  intros Hp Ho Hl1 Hl2 Hk Hv. unfold copy. rewrite Hp, Ho.
  rewrite (memcpy_app ks' _ k1 k2 kt eq_refl) by lia. cbn [mbind outcome_bind].
  rewrite <- Hl1, <- Hl2. rewrite (memcpy_app vs' _ vs1 vs2 vt eq_refl) by lia. done.
Qed.

Lemma copy_inner_spec n other k1 k2 kt ss1 ss2 st ks' s0 ss' :
  payload n = InnerNode (k1 ++ k2 ++ kt) (ss1 ++ ss2 ++ st) ->
  payload other = InnerNode ks' (s0 :: ss') ->
  length ss1 = S (length k1) -> length ss2 = length k2 ->
  (length k2 <= length ks')%nat -> (length k2 <= length ss')%nat ->
  copy n other (Z.of_nat (length k1)) (Z.of_nat (length k2)) =
  Ok (set_payload (InnerNode (k2 ++ drop (length k2) ks')
                             (s0 :: ss2 ++ drop (length k2) ss')) other).
Proof.
  intros Hp Ho Hl1 Hl2 Hk Hv. unfold copy. rewrite Hp, Ho.
  rewrite (memcpy_app ks' _ k1 k2 kt eq_refl) by lia. cbn [mbind outcome_bind].
  replace (Z.of_nat (length k1) + 1) with (Z.of_nat (length ss1)) by lia.
  change 1 with (Z.of_nat 1). rewrite memcpy_nat; [|simpl; lia|rewrite !length_app; lia].
  rewrite drop_app_length, <- Hl2, take_app_length. done.
Qed.

Lemma contains_separator_from_spec todo n ks kt ss st i sep :
  payload n = InnerNode (ks ++ kt) (ss ++ st) -> (i + todo = length ss)%nat ->
  contains_separator_from todo n (Z.of_nat i) sep = Ok (bool_decide (sep ∈ drop i ss)).
Proof.
  intros Hp. revert i. induction todo as [|todo IH]; intros i Hi; simpl.
  - rewrite drop_ge by lia. by rewrite bool_decide_false by (apply not_elem_of_nil).
  - destruct (lookup_lt_is_Some_2 ss i) as [p Hpi]; [lia|].
    unfold separator. rewrite Hp, (array_get_lookup _ _ p) by (by apply lookup_app_l_Some).
    cbn [mbind outcome_bind]. rewrite (drop_S _ _ _ Hpi).
    case_decide; [by rewrite bool_decide_true by set_solver|].
    replace (Z.of_nat i + 1) with (Z.of_nat (S i)) by lia. rewrite IH by lia.
    f_equal. apply bool_decide_ext. set_solver.
Qed.

(** [contains_separator] decides membership among the live separators. *)
Lemma contains_separator_spec n ks kt ss st sep :
  inner_shape n ks kt ss st -> contains_separator n sep = Ok (bool_decide (sep ∈ ss)).
Proof.
  intros [Hp Hsz Hss Hck Hcs]. unfold contains_separator.
  rewrite Hsz. replace (Z.to_nat (Z.of_nat (length ks) + 1)) with (length ss) by lia.
  by rewrite (contains_separator_from_spec _ n ks kt ss st 0 sep Hp) by lia.
Qed.

(** ** The path as a stack *)
Record path_stack (p : NodePath) (stack : list loc) : Prop := {
  stack_data : exists tl, path_data p = (Some <$> rev stack) ++ tl;
  stack_cap : Z.of_nat (length (path_data p)) = path_capacity;
  stack_counter : path_counter p = Z.of_nat (length stack) }.

Lemma path_init_stack : path_stack path_init [].
Proof. split; [by eexists|done|done]. Qed.

Lemma path_push_stack p stack l :
  path_stack p stack -> (length stack < 10)%nat ->
  exists p', path_push p (Some l) = Ok p' /\ path_stack p' (l :: stack).
Proof.
  intros [[tl Hd] Hc Hn] Hlt. unfold path_capacity in Hc. unfold path_push. rewrite Hn, Hd.
  destruct tl as [|y tl].
  { exfalso. rewrite Hd, app_nil_r, length_fmap, length_rev in Hc. lia. }
  replace (Z.of_nat (length stack)) with (Z.of_nat (length (Some <$> rev stack)))
    by (by rewrite length_fmap, length_rev).
  rewrite array_set_app. cbn [mbind outcome_bind]. eexists. split; [done|].
  rewrite length_fmap, length_rev, u64_small by (unfold max_u64; lia).
  split; simpl.
  - exists tl. by rewrite fmap_app, <- app_assoc.
  - rewrite Hd in Hc. rewrite length_app in *. simpl in *. done.
  - lia.
Qed.

Lemma path_pop_stack p stack l :
  path_stack p (l :: stack) ->
  exists p', path_pop p = Ok (Some l, p') /\ path_stack p' stack.
Proof.
  intros [[tl Hd] Hc Hn]. unfold path_capacity in Hc. unfold path_pop.
  assert (Hlen : (length stack < 10)%nat).
  { rewrite Hd, length_app, length_fmap, length_rev in Hc. simpl in Hc. lia. }
  simpl in Hn. rewrite Hn. replace (Z.of_nat (S (length stack)) - 1) with (Z.of_nat (length stack)) by lia.
  rewrite u64_small by (unfold max_u64; lia).
  simpl in Hd. rewrite fmap_app, <- app_assoc in Hd.
  erewrite array_get_lookup; cycle 1.
  { rewrite Hd. replace (length stack) with (length (Some <$> rev stack))
      by (by rewrite length_fmap, length_rev). by apply list_lookup_middle. }
  cbn [mbind outcome_bind]. eexists. split; [done|]. split; simpl; [|done|done].
  rewrite Hd. by eexists.
Qed.

Lemma path_is_empty_stack p stack :
  path_stack p stack -> path_is_empty p = bool_decide (stack = []).
Proof.
  intros [_ _ Hn]. unfold path_is_empty. rewrite Hn. by destruct stack.
Qed.

(** Pushing an eleventh node writes past the end of the path's array. *)
Lemma path_push_overflow p stack n :
  path_stack p stack -> length stack = 10%nat -> path_push p n = Fault OutOfBounds.
Proof.
  intros [_ Hc Hn] Hl. unfold path_push, array_set, path_capacity in *.
  rewrite decide_False by lia. done.
Qed.

End NodeFacts.

(** ** Concrete platforms *)

(** The spinlock build on x86-64: one byte of latch, packed, [parent] 8-aligned. *)
Definition spinlock_platform : Platform := {|
  sizeof_NodeHeader := 40; node_garbage_size := 0;
  uninit_key := fun _ _ => 0; uninit_value := fun _ _ => 0;
  uninit_ptr := fun _ _ => None; uninit_path := fun _ => None |}.
(** The same with room for three items or two keys, for small examples. *)
Definition small_platform : Platform := {|
  sizeof_NodeHeader := 40; node_garbage_size := 936;
  uninit_key := fun _ _ => 0; uninit_value := fun _ _ => 0;
  uninit_ptr := fun _ _ => None; uninit_path := fun _ => None |}.
Lemma spinlock_platform_ok : @PlatformOk spinlock_platform.
Proof. split; done. Qed.
Lemma small_platform_ok : @PlatformOk small_platform.
Proof. split; done. Qed.
