(* ===== verification/Tree.v ===== *)
(** * The B-link tree: heap, root and structure modifications

    Models [src/src/indices/blinktree/tree.h] and [tree.cpp].  A [TreeState] is the
    tree object together with the heap its nodes live on; the member functions run
    in the fault-aware state monad of [Prelude.v], statement by statement. *)

From S2P Require Import Prelude Node.

(** ** State *)
Record TreeState : Type := mkTree {
  heap : gmap loc Node;
  next_loc : loc;       (* the next address [std::aligned_alloc] returns *)
  root_node : ptr;      (* [_root_node] *)
  tree_height : Z }.    (* [_height] *)
Abbreviation TM := (ST TreeState).

Definition deref (p : ptr) : TM Node := fun s =>
  match p with
  | Some l => match heap s !! l with Some n => Ok (n, s) | None => Fault NullDeref end
  | None => Fault NullDeref
  end.
(** Runs a method that changes the node at [p]. *)
Definition update (p : ptr) (f : Node -> outcome Node) : TM unit := fun s =>
  match p with
  | Some l =>
      match heap s !! l with
      | Some n =>
          match f n with
          | Ok n' => Ok (tt, mkTree (<[l := n']> (heap s)) (next_loc s) (root_node s) (tree_height s))
          | Fault e => Fault e
          end
      | None => Fault NullDeref
      end
  | None => Fault NullDeref
  end.
(** Calls a setter of the node at [p]. *)
Definition assign (p : ptr) (f : Node -> Node) : TM unit := update p (fun n => Ok (f n)).

Section TreeOps.
Context {PF : Platform}.

(** ** Construction *)

(** [Tree::create_node]: placement new on freshly allocated memory. *)
Definition create_node (leaf : bool) (par : ptr) : TM ptr := fun s =>
  let l := next_loc s in
  Ok (Some l, mkTree (<[l := new_node l leaf par]> (heap s)) (Pos.succ l) (root_node s) (tree_height s)).
Definition create_inner_node (par : ptr) : TM ptr := create_node false par.
Definition create_leaf_node (par : ptr) : TM ptr := create_node true par.

(** [Tree::Tree()] on a heap without nodes. *)
Definition new_tree : TreeState :=
  mkTree {[ 1%positive := new_node 1 true None ]} 2 (Some 1%positive) 1.

Definition root : TM ptr := gets root_node.
Definition height (s : TreeState) : Z := tree_height s.
Definition empty (s : TreeState) : outcome bool :=
  match root_node s with
  | None => Ok true
  | Some l => match heap s !! l with Some n => Ok (size n =? 0) | None => Fault NullDeref end
  end.

(** ** [Tree::create_new_root] *)
Definition create_new_root (left right : ptr) (key : Z) : TM unit :=
  root ← create_inner_node None;
  assign left (set_parent root);;
  update root (fun n => set_separator n 0 left);;
  assign right (set_parent root);;
  update root (fun n => insert_separator n 0 right key);;
  modify (fun s => mkTree (heap s) (next_loc s) root (u16 (tree_height s + 1))).

(** ** [Tree::split_inner_node] *)

(** The closing loop: every separator of [p] from [i] on gets [p] as its parent. *)
Fixpoint adopt_separators (todo : nat) (p : ptr) (i : Z) : TM unit :=
  match todo with
  | O => mret tt
  | S todo =>
      n ← deref p;
      c ← lift (separator n i);
      assign c (set_parent p);;
      adopt_separators todo p (i + 1)
  end.

Definition split_inner_node (inner_node : ptr) (key : Z) (sep : ptr) : TM (ptr * Z) :=
  let left_size := max_keys / 2 in
  let right_size := max_keys - left_size in
  n ← deref inner_node;
  new_inner_node ← create_inner_node (parent n);
  assign new_inner_node (set_high_key (high_key n));;
  k1 ← lift (inner_key n (left_size - 1));
  key_up ←
    (if key <? k1 then
       update new_inner_node (fun m => copy n m left_size right_size);;
       s0 ← lift (separator n left_size);
       update new_inner_node (fun m => set_separator m 0 s0);;
       assign new_inner_node (set_size (u16 right_size));;
       assign inner_node (set_size (u16 (left_size - 1)));;
       n' ← deref inner_node;
       i ← lift (index n' key);
       assign sep (set_parent inner_node);;
       update inner_node (fun m => insert_separator m i sep key);;
       mret k1
     else
       k2 ← lift (inner_key n left_size);
       if key <? k2 then
         update new_inner_node (fun m => copy n m left_size right_size);;
         update new_inner_node (fun m => set_separator m 0 sep);;
         assign inner_node (set_size (u16 left_size));;
         assign new_inner_node (set_size (u16 right_size));;
         mret key
       else
         update new_inner_node (fun m => copy n m (left_size + 1) (right_size - 1));;
         s0 ← lift (separator n (left_size + 1));
         update new_inner_node (fun m => set_separator m 0 s0);;
         assign inner_node (set_size (u16 left_size));;
         assign new_inner_node (set_size (u16 (right_size - 1)));;
         m ← deref new_inner_node;
         i ← lift (index m key);
         update new_inner_node (fun m => insert_separator m i sep key);;
         mret k2);
  assign new_inner_node (set_right_sibling (right_sibling n));;
  assign inner_node (set_right_sibling new_inner_node);;
  assign inner_node (set_high_key key_up);;
  m ← deref new_inner_node;
  adopt_separators (Z.to_nat (size m + 1)) new_inner_node 0;;
  mret (new_inner_node, key_up).

(** ** [Tree::split_leaf_node] *)
Definition split_leaf_node (leaf_node : ptr) (key v : Z) : TM ptr :=
  let left_size := u16 (max_items / 2) in
  let right_size := u16 (max_items - left_size) in
  n ← deref leaf_node;
  new_leaf_node ← create_leaf_node (parent n);
  update new_leaf_node (fun m => copy n m left_size right_size);;
  assign new_leaf_node (set_high_key (high_key n));;
  assign new_leaf_node (set_right_sibling (right_sibling n));;
  assign new_leaf_node (set_size right_size);;
  assign leaf_node (set_size left_size);;
  assign leaf_node (set_right_sibling new_leaf_node);;
  m ← deref new_leaf_node;
  k0 ← lift (leaf_key m 0);
  (if key <? k0 then
     n' ← deref leaf_node;
     i ← lift (index n' key);
     update leaf_node (fun n => insert_value n i v key)
   else
     i ← lift (index m key);
     update new_leaf_node (fun m => insert_value m i v key));;
  m' ← deref new_leaf_node;
  k0' ← lift (leaf_key m' 0);
  assign leaf_node (set_high_key k0');;
  mret new_leaf_node.

(** ** [TreeIterator] *)

(** [operator++] on [(_current_node, _first_node_in_level)]. *)
Definition iterator_next (it : ptr * ptr) : TM (ptr * ptr) :=
  let '(current, first) := it in
  n ← deref current;
  match right_sibling n with
  | Some r => mret (Some r, first)
  | None =>
      if is_inner n then
        f ← deref first;
        s0 ← lift (separator f 0);
        mret (s0, s0)
      else mret (None, first)
  end.

(** [for (auto node : *this) f(node)], with fuel for the number of nodes. *)
Fixpoint for_each_from {A} (fuel : nat) (f : A -> ptr -> TM A) (acc : A) (it : ptr * ptr) : TM A :=
  match it.1 with
  | None => mret acc
  | Some l =>
      match fuel with
      | O => lift (Fault OutOfFuel)
      | S fuel =>
          acc' ← f acc (Some l);
          it' ← iterator_next it;
          for_each_from fuel f acc' it'
      end
  end.
Definition for_each {A} (fuel : nat) (f : A -> ptr -> TM A) (acc : A) : TM A :=
  r ← root; for_each_from fuel f acc (r, r).

End TreeOps.

(** ** Running statements *)

Lemma deref_ok s l n : heap s !! l = Some n -> deref (Some l) s = Ok (n, s).
Proof. intros Hl. unfold deref. by rewrite Hl. Qed.
#[export] Hint Resolve deref_ok : blink.

Lemma update_ok h nx rt ht l f n n' :
  h !! l = Some n -> f n = Ok n' ->
  update (Some l) f (mkTree h nx rt ht) = Ok (tt, mkTree (<[l := n']> h) nx rt ht).
Proof. intros Hl Hf. unfold update. simpl. by rewrite Hl, Hf. Qed.

Lemma assign_ok h nx rt ht l f n :
  h !! l = Some n ->
  assign (Some l) f (mkTree h nx rt ht) = Ok (tt, mkTree (<[l := f n]> h) nx rt ht).
Proof. intros Hl. by apply update_ok with n. Qed.

Lemma assign_alter h nx rt ht l f :
  is_Some (h !! l) ->
  assign (Some l) f (mkTree h nx rt ht) = Ok (tt, mkTree (alter f l h) nx rt ht).
Proof.
  intros [n Hn]. rewrite (assign_ok _ _ _ _ _ _ _ Hn). do 2 f_equal.
  f_equal. apply map_eq. intros i. rewrite lookup_insert, lookup_alter.
  case_decide; [subst; by rewrite Hn|done].
Qed.

(** Setting the parent of every child in [cs]. *)
Definition adopt (cs : list ptr) (p : ptr) (h : gmap loc Node) : gmap loc Node :=
  map_imap (fun l n => Some (if decide (Some l ∈ cs) then set_parent p n else n)) h.

Lemma adopt_lookup cs p h l :
  adopt cs p h !! l = (fun n => if decide (Some l ∈ cs) then set_parent p n else n) <$> h !! l.
Proof. unfold adopt. rewrite map_lookup_imap. by destruct (h !! l). Qed.

Lemma adopt_nil p h : adopt [] p h = h.
Proof.
  apply map_eq. intros i. rewrite adopt_lookup. destruct (h !! i); cbn [fmap option_fmap option_map]; [|done].
  by rewrite decide_False by set_solver.
Qed.

Lemma adopt_cons c cs p h :
  adopt (Some c :: cs) p h = adopt cs p (alter (set_parent p) c h).
Proof.
  apply map_eq. intros i. rewrite !adopt_lookup, lookup_alter.
  destruct (decide (c = i)) as [->|Hne].
  - destruct (h !! i); cbn [fmap option_fmap option_map]; [|done]. rewrite decide_True by set_solver. by case_decide.
  - destruct (h !! i); cbn [fmap option_fmap option_map]; [|done]. f_equal.
    destruct (decide (Some i ∈ cs)), (decide (Some i ∈ Some c :: cs)); set_solver.
Qed.

Lemma adopt_separators_spec todo h nx rt ht r m kr kt sr st i :
  h !! r = Some m -> payload m = InnerNode (kr ++ kt) (sr ++ st) ->
  (forall p, p ∈ sr -> exists c, p = Some c /\ is_Some (h !! c)) ->
  (i + todo = length sr)%nat ->
  adopt_separators todo (Some r) (Z.of_nat i) (mkTree h nx rt ht)
  = Ok (tt, mkTree (adopt (drop i sr) (Some r) h) nx rt ht).
Proof.
  revert h m i. induction todo as [|todo IH]; intros h m i Hm Hp Hc Hi; cbn [adopt_separators].
  - by rewrite drop_ge, adopt_nil by lia.
  - st_run.
    destruct (lookup_lt_is_Some_2 sr i) as [p Hpi]; [lia|].
    erewrite ST_bind_ok; cycle 1.
    { apply lift_ok. unfold separator. rewrite Hp. apply array_get_lookup.
      by apply lookup_app_l_Some. }
    destruct (Hc p) as (c & -> & Hcs); [by eapply list_elem_of_lookup_2|].
    erewrite ST_bind_ok by (by apply assign_alter).
    replace (Z.of_nat i + 1) with (Z.of_nat (S i)) by lia.
    assert (exists m', alter (set_parent (Some r)) c h !! r = Some m' /\ payload m' = payload m)
      as (m' & Hm' & Hpm').
    { rewrite lookup_alter. case_decide; subst; rewrite Hm; (eexists; split; [reflexivity|done]). }
    rewrite (IH _ m'); [|done|congruence| |lia].
    + by rewrite (drop_S _ _ _ Hpi), adopt_cons.
    + intros q Hq. destruct (Hc q Hq) as (c' & -> & Hc'). exists c'. split; [done|].
      rewrite lookup_alter. case_decide; [subst|done]. by apply fmap_is_Some.
Qed.
