(* ===== verification/TreeFacts.v ===== *)
(** * What the structure modifications of [Tree] do to the heap

    For [create_new_root], [split_leaf_node] and [split_inner_node]: the exact heap
    they produce, with the live keys, values and separators of the nodes involved. *)

From S2P Require Import Prelude Node Tree.

(** Looks a location up through the insertions of the current heap. *)
Ltac heap_lookup :=
  repeat first
    [ apply lookup_insert_eq
    | eassumption
    | rewrite lookup_insert_ne by congruence ].

(** Runs the next statement of a [TM] computation. *)
Ltac tm_assign := erewrite ST_bind_ok by (apply assign_ok; heap_lookup).
Ltac tm_deref := erewrite ST_bind_ok by (apply deref_ok; cbn [heap]; heap_lookup).
Ltac tm_lift H := erewrite ST_bind_ok by (apply lift_ok; exact H).
Ltac tm_update H := erewrite ST_bind_ok by (eapply update_ok; [heap_lookup|exact H]).

Section TreeFacts.
Context {PF : Platform} {PFok : PlatformOk}.

Lemma new_leaf_payload l p :
  exists kt vt, payload (new_node l true p) = LeafNode kt vt
    /\ Z.of_nat (length kt) = max_items /\ Z.of_nat (length vt) = max_items.
Proof.
  pose proof max_items_bounds. do 2 eexists. split; [reflexivity|].
  rewrite !length_fmap, !length_seq. lia.
Qed.

Lemma new_inner_payload l p :
  exists kt s0 st, payload (new_node l false p) = InnerNode kt (s0 :: st)
    /\ Z.of_nat (length kt) = max_keys /\ Z.of_nat (length st) = max_keys.
Proof.
  pose proof max_keys_bounds. unfold new_node, payload. rewrite max_separators_eq.
  replace (Z.to_nat (max_keys + 1)) with (S (Z.to_nat max_keys)) by lia.
  exists (uninit_key l <$> List.seq 0 (Z.to_nat max_keys)), (uninit_ptr l 0%nat),
    (uninit_ptr l <$> List.seq 1 (Z.to_nat max_keys)).
  split; [reflexivity|]. rewrite !length_fmap, !length_seq. lia.
Qed.

(** The result of splitting a leaf: left and right halves hold, in order, the old
    entries and the new one, and the left half ends where the right one begins. *)
Record leaf_split (n : Node) (r : loc) (ks vs : list Z) (key v : Z)
    (nl nr : Node) (kl vl kr vr : list Z) : Prop := {
  ls_inserted : inserted_at ks vs key v (kl ++ kr) (vl ++ vr);
  ls_left : exists kt vt, leaf_shape nl kl kt vl vt;
  ls_right : exists kt vt, leaf_shape nr kr kt vr vt;
  ls_left_nonempty : kl <> [];
  ls_boundary : head kr = Some (high_key nl);
  ls_left_sibling : right_sibling nl = Some r;
  ls_right_sibling : right_sibling nr = right_sibling n;
  ls_right_high : high_key nr = high_key n;
  ls_left_parent : parent nl = parent n;
  ls_right_parent : parent nr = parent n;
  ls_left_fill : max_items / 2 <= Z.of_nat (length kl);
  ls_right_fill : max_items / 2 <= Z.of_nat (length kr) }.

Lemma inserted_at_app_l {V} k1 k2 (v1 v2 : list V) key v k1' v1' :
  inserted_at k1 v1 key v k1' v1' -> length v1 = length k1 ->
  Forall (fun x => key <= x) k2 -> inserted_at (k1 ++ k2) (v1 ++ v2) key v (k1' ++ k2) (v1' ++ v2).
Proof.
  intros (l1 & l2 & w1 & w2 & -> & -> & Hl & H1 & H2 & -> & ->) Hlen Hf.
  exists l1, (l2 ++ k2), w1, (w2 ++ v2). rewrite <- !app_assoc. repeat split; auto.
  by apply Forall_app.
Qed.

Lemma inserted_at_app_r {V} k1 k2 (v1 v2 : list V) key v k2' v2' :
  inserted_at k2 v2 key v k2' v2' -> length v1 = length k1 ->
  Forall (fun x => x < key) k1 -> inserted_at (k1 ++ k2) (v1 ++ v2) key v (k1 ++ k2') (v1 ++ v2').
Proof.
  intros (l1 & l2 & w1 & w2 & -> & -> & Hl & H1 & H2 & -> & ->) Hlen Hf.
  exists (k1 ++ l1), l2, (v1 ++ w1), w2. rewrite <- !app_assoc, !length_app. repeat split; auto.
  by apply Forall_app.
Qed.

(** Inserting a key above the first one keeps the first one. *)
Lemma inserted_at_head {V} k ks (vs : list V) key v ks' vs' :
  inserted_at (k :: ks) vs key v ks' vs' -> k < key -> head ks' = Some k.
Proof.
  intros (l1 & l2 & w1 & w2 & Heq & _ & _ & H1 & H2 & -> & _) Hk.
  destruct l1 as [|x l1]; [|by simplify_eq/=]. simplify_eq/=.
  apply Forall_cons in H2 as [? _]. lia.
Qed.

Lemma split_leaf_spec h nx rt ht l n ks vs key v :
  h !! l = Some n -> l <> nx -> leaf_shape n ks [] vs [] -> ksorted ks -> key ∉ ks ->
  exists nl nr kl vl kr vr,
    split_leaf_node (Some l) key v (mkTree h nx rt ht)
      = Ok (Some nx, mkTree (<[l := nl]> (<[nx := nr]> h)) (Pos.succ nx) rt ht)
    /\ leaf_split n nx ks vs key v nl nr kl vl kr vr.
Proof.
  intros Hl Hne [Hp Hsz Hvs Hck Hcv] Hs Hn. pose proof max_items_bounds as Hmax.
  rewrite !app_nil_r in *. set (lsz := (length ks / 2)%nat).
  assert (Hls : u16 (max_items / 2) = Z.of_nat lsz).
  { rewrite <- Hck. unfold lsz. rewrite Nat2Z.inj_div. apply u16_small.
    change (Z.of_nat 2) with 2.
    pose proof (Z.div_pos (Z.of_nat (length ks)) 2). 
    pose proof (Z.div_le_upper_bound (Z.of_nat (length ks)) 2 64). lia. }
  assert (Hlt : (0 < lsz < length ks)%nat).
  { unfold lsz. split; [apply Nat.div_str_pos; lia|apply Nat.div_lt; lia]. }
  assert (Hhalf : max_items / 2 = Z.of_nat lsz).
  { rewrite <- Hck. unfold lsz. by rewrite Nat2Z.inj_div. }
  assert (Hfits : Z.of_nat lsz + Z.of_nat lsz <= max_items).
  { pose proof (Z.mul_div_le max_items 2). lia. }
  clearbody lsz.
  set (k1 := take lsz ks). set (k2 := drop lsz ks). set (v1 := take lsz vs). set (v2 := drop lsz vs).
  assert (Hk : ks = k1 ++ k2) by (symmetry; apply take_drop).
  assert (Hv : vs = v1 ++ v2) by (symmetry; apply take_drop).
  assert (Hk1 : length k1 = lsz) by (unfold k1; rewrite length_take; lia).
  assert (Hv1 : length v1 = lsz) by (unfold v1; rewrite length_take; lia).
  assert (Hk2 : length k2 = (length ks - lsz)%nat) by (unfold k2; by rewrite length_drop).
  assert (Hv2 : length v2 = length k2) by (unfold v2; rewrite length_drop; lia).
  clearbody k1 k2 v1 v2. subst ks vs. 
  assert (Hrs : u16 (max_items - Z.of_nat lsz) = Z.of_nat (length k2)).
  { rewrite <- Hck, length_app. rewrite u16_small; lia. }
  destruct (new_leaf_payload nx (parent n)) as (kt & vt & Hnp & Hkt & Hvt).
  assert (Hcopy : copy n (new_node nx true (parent n)) (Z.of_nat (length k1)) (Z.of_nat (length k2))
    = Ok (set_payload (LeafNode (k2 ++ drop (length k2) kt) (v2 ++ drop (length k2) vt))
                      (new_node nx true (parent n)))).
  { apply copy_leaf_spec with (k1 := k1) (kt := []) (vs1 := v1) (vt := []); auto;
      rewrite ?app_nil_r; auto; rewrite ?length_app in *; lia. }
  unfold split_leaf_node. rewrite Hls, Hrs, <- Hk1. tm_deref.
  unfold create_leaf_node, create_node. erewrite ST_bind_ok by reflexivity. cbn [heap next_loc root_node tree_height].
  tm_update Hcopy. do 5 tm_assign. rewrite !insert_insert_eq.
  set (nr0 := set_size _ (set_right_sibling _ _)).
  set (nl0 := set_right_sibling _ (set_size _ n)).
  destruct (drop (length k2) kt) as [|y kt'] eqn:Hdk.
  { apply (f_equal length) in Hdk. rewrite length_drop in Hdk.
    rewrite !length_app in *. simpl in *. lia. }
  destruct (drop (length k2) vt) as [|z vt'] eqn:Hdv.
  { apply (f_equal length) in Hdv. rewrite length_drop in Hdv.
    rewrite !length_app in *. simpl in *. lia. }
  assert (Hcap : Z.of_nat (length (k2 ++ y :: kt')) = max_items
                 /\ Z.of_nat (length (v2 ++ z :: vt')) = max_items).
  { rewrite <- Hdk, <- Hdv, !length_app, !length_drop. rewrite !length_app in *. lia. }
  assert (Hnr : leaf_shape nr0 k2 (y :: kt') v2 (z :: vt')).
  { constructor; simpl; try done; tauto. }
  destruct k2 as [|k0 k2]; [simpl in *; lia|]. destruct v2 as [|v0 v2]; [done|].
  assert (Hnl : leaf_shape nl0 k1 (k0 :: k2) v1 (v0 :: v2)).
  { constructor; simpl; auto; lia. }
  assert (Hlk : forall m ks kt vs vt, leaf_shape m (k0 :: ks) kt vs vt -> leaf_key m 0 = Ok k0).
  { intros m ks kt0 vs vt0 [Hpm _ _ _ _]. unfold leaf_key. by rewrite Hpm. }
  apply ksorted_app in Hs as (Hs1 & Hs2 & Hs12).
  assert (Hf2 : Forall (fun x => k0 <= x) (k0 :: k2)).
  { apply StronglySorted_cons in Hs2 as [Hf _]. constructor; [lia|].
    eapply Forall_impl; [exact Hf|]. simpl. lia. }
  tm_deref. tm_lift (Hlk _ _ _ _ _ Hnr).
  destruct (Z.ltb_spec key k0) as [Hlow|Hhigh].
  - destruct (leaf_insert nl0 k1 k0 k2 v1 v0 v2 key v Hnl Hs1)
      as (i & nl & kl & vl & Hi & Hins & Hshape & Hat & Hhd).
    erewrite ST_bind_ok; cycle 1.
    { tm_deref. tm_lift Hi. eapply update_ok; [heap_lookup|exact Hins]. }
    tm_deref. tm_lift (Hlk _ _ _ _ _ Hnr). tm_assign. rewrite !insert_insert_eq.
    exists (set_high_key k0 nl), nr0, kl, vl, (k0 :: k2), (v0 :: v2). split; [done|].
    destruct Hhd as (Hh1 & Hh2 & Hh3). constructor; simpl; eauto.
    + apply inserted_at_app_l; [done|lia|]. eapply Forall_impl; [exact Hf2|]. simpl. lia.
    + destruct Hshape. do 2 eexists. constructor; simpl; eauto.
    + apply inserted_at_length in Hat. intros ->. simpl in Hat. lia.
    + apply inserted_at_length in Hat as [-> _]. lia.
    + rewrite length_app in *. simpl in *. lia.
  - assert (k0 < key) by (assert (k0 <> key) by set_solver; lia).
    destruct (leaf_insert nr0 (k0 :: k2) y kt' (v0 :: v2) z vt' key v Hnr Hs2)
      as (i & nr & kr & vr & Hi & Hins & Hshape & Hat & Hhd).
    pose proof (inserted_at_head _ _ _ _ _ _ _ Hat ltac:(done)) as Hh0.
    destruct kr as [|kr0 kr]; [done|]. simplify_eq/=.
    erewrite ST_bind_ok; cycle 1.
    { tm_lift Hi. eapply update_ok; [heap_lookup|exact Hins]. }
    tm_deref. tm_lift (Hlk _ _ _ _ _ Hshape). tm_assign.
    rewrite (insert_insert_ne _ l nx) by done. rewrite !insert_insert_eq.
    exists (set_high_key k0 nl0), nr, k1, v1, (k0 :: kr), vr. split.
    { unfold mret, ST_ret. do 3 f_equal.
      by rewrite insert_insert_ne, insert_insert_eq by done. }
    destruct Hhd as (Hh1 & Hh2 & Hh3). constructor; simpl; eauto.
    + apply inserted_at_app_r; [done|lia|]. apply Forall_forall. intros x Hx.
      specialize (Hs12 x k0 Hx). set_solver by lia.
    + destruct Hnl. do 2 eexists. constructor; simpl; eauto.
    + intros ->. simpl in *. lia.
    + lia.
    + apply inserted_at_length in Hat as [Hat _]. rewrite length_app in *. simpl in *. lia.
Qed.

(** ** Splitting inner nodes *)

(** The result of splitting an inner node: the keys of the two halves with the
    separator key between them, and their separators, are the old ones with the
    new pair inserted. *)
Record inner_split (n : Node) (r : loc) (ks : list Z) (s0 : ptr) (ss : list ptr) (key : Z) (sep : ptr)
    (nl nr : Node) (kl : list Z) (sl : list ptr) (up : Z) (kr : list Z) (sr : list ptr) : Prop := {
  is_inserted : exists ss', inserted_at ks ss key sep (kl ++ up :: kr) ss' /\ s0 :: ss' = sl ++ sr;
  is_left : exists kt st, inner_shape nl kl kt sl st;
  is_right : exists kt st, inner_shape nr kr kt sr st;
  is_boundary : high_key nl = up;
  is_left_sibling : right_sibling nl = Some r;
  is_right_sibling : right_sibling nr = right_sibling n;
  is_right_high : high_key nr = high_key n;
  is_left_parent : parent nl = parent n;
  is_right_parent : parent nr = parent n;
  is_left_fill : max_keys / 2 <= Z.of_nat (length kl);
  is_right_fill : max_keys / 2 <= Z.of_nat (length kr) }.

(** Where the halves of a full inner node meet. *)
Lemma inner_halves n ks s0 ss :
  inner_shape n ks [] (s0 :: ss) [] ->
  exists ka kx ky k3 sa sx sb s3,
    ks = ka ++ kx :: ky :: k3 /\ ss = sa ++ sx :: sb :: s3
    /\ length sa = length ka /\ length s3 = length k3
    /\ max_keys / 2 = Z.of_nat (length ka) + 1
    /\ max_keys - max_keys / 2 = Z.of_nat (length k3) + 1.
Proof.
  intros [_ _ Hss Hck _]. rewrite app_nil_r in Hck. simplify_eq/=.
  pose proof max_keys_bounds. set (lsz := (length ks / 2)%nat).
  assert (Hl : max_keys / 2 = Z.of_nat lsz) by (unfold lsz; rewrite Nat2Z.inj_div, Hck; done).
  assert (Hlt : (0 < lsz < length ks)%nat).
  { unfold lsz. split; [apply Nat.div_str_pos; lia|apply Nat.div_lt; lia]. }
  clearbody lsz. destruct lsz as [|i]; [lia|].
  destruct (lookup_lt_is_Some_2 ks i) as [kx Hx]; [lia|].
  destruct (lookup_lt_is_Some_2 ks (S i)) as [ky Hy]; [lia|].
  destruct (lookup_lt_is_Some_2 ss i) as [sx Hsx]; [lia|].
  destruct (lookup_lt_is_Some_2 ss (S i)) as [sb Hsb]; [lia|].
  exists (take i ks), kx, ky, (drop (S (S i)) ks), (take i ss), sx, sb, (drop (S (S i)) ss).
  rewrite <- (drop_S _ _ _ Hy), <- (drop_S _ _ _ Hsb), !take_drop_middle by done.
  rewrite !length_take, !length_drop. repeat split; lia.
Qed.

Lemma inner_key_shape n l k rest kt ss :
  payload n = InnerNode ((l ++ k :: rest) ++ kt) ss ->
  inner_key n (Z.of_nat (length l)) = Ok k.
Proof.
  intros Hp. unfold inner_key. rewrite Hp, <- app_assoc. apply array_get_lookup.
  by apply list_lookup_middle.
Qed.

Lemma separator_shape n ks l s rest st :
  payload n = InnerNode ks ((l ++ s :: rest) ++ st) ->
  separator n (Z.of_nat (length l)) = Ok s.
Proof.
  intros Hp. unfold separator. rewrite Hp, <- app_assoc. apply array_get_lookup.
  by apply list_lookup_middle.
Qed.

(** Re-linking the two halves and adopting the children of the right one. *)
Lemma split_inner_tail h nx nx' rt ht l n0 m0 rs up kr kt sr st :
  h !! l = Some n0 -> h !! nx = Some m0 -> l <> nx -> inner_shape m0 kr kt sr st ->
  (forall p, p ∈ sr -> exists c, p = Some c /\ is_Some (h !! c)) ->
  (assign (Some nx) (set_right_sibling rs);;
   assign (Some l) (set_right_sibling (Some nx));;
   assign (Some l) (set_high_key up);;
   m ← deref (Some nx);
   adopt_separators (Z.to_nat (size m + 1)) (Some nx) 0;;
   mret (Some nx, up)) (mkTree h nx' rt ht)
  = Ok ((Some nx, up),
        mkTree (adopt sr (Some nx)
                 (<[l := set_high_key up (set_right_sibling (Some nx) n0)]>
                   (<[nx := set_right_sibling rs m0]> h))) nx' rt ht).
Proof.
  intros Hl Hnx Hne [Hp Hsz Hss _ _] Hc. do 3 tm_assign. tm_deref. rewrite !insert_insert_eq.
  erewrite ST_bind_ok; [reflexivity|].
  cbn [size set_right_sibling]. rewrite Hsz.
  replace (Z.to_nat (Z.of_nat (length kr) + 1)) with (length sr) by lia.
  change 0 with (Z.of_nat 0). rewrite (adopt_separators_spec _ _ _ _ _ _ (set_right_sibling rs m0) kr kt sr st 0); auto.
  - heap_lookup.
  - intros p Hpr. destruct (Hc p Hpr) as (c & -> & Hcs). exists c. split; [done|].
    rewrite !lookup_insert. repeat case_decide; eauto.
Qed.

(** The three branches of [split_inner_node] share the view of the full node [n]
    and of the fresh right node. *)
Section SplitInner.
Context (h : gmap loc Node) (nx : loc) (rt : ptr) (ht : Z) (l : loc) (n : Node).
Context (ka : list Z) (kx ky : Z) (k3 : list Z) (s0 : ptr) (sa : list ptr) (sx sb : ptr) (s3 : list ptr).
Context (key : Z) (sepl : loc).
Context (Hl : h !! l = Some n) (Hlnx : l <> nx) (Hsepl : sepl <> l) (Hsepnx : sepl <> nx)
  (Hsep : is_Some (h !! sepl)).
Context (Hp : payload n = InnerNode (ka ++ kx :: ky :: k3) (s0 :: sa ++ sx :: sb :: s3)).
Context (Hsa : length sa = length ka) (Hs3 : length s3 = length k3).
Context (HL : max_keys / 2 = Z.of_nat (length ka) + 1)
  (HR : max_keys - max_keys / 2 = Z.of_nat (length k3) + 1).
Context (Hs : ksorted (ka ++ kx :: ky :: k3)) (Hn : key ∉ ka ++ kx :: ky :: k3).
Context (Hchild : forall p, p ∈ s0 :: sa ++ sx :: sb :: s3 -> exists c, p = Some c /\ is_Some (h !! c)).

Let m0 := set_high_key (high_key n) (new_node nx false (parent n)).
Let h0 := <[nx := m0]> h.

Lemma split_inner_k1 : inner_key n (max_keys / 2 - 1) = Ok kx.
Proof.
  rewrite HL. replace (Z.of_nat (length ka) + 1 - 1) with (Z.of_nat (length ka)) by lia.
  eapply (inner_key_shape n ka kx (ky :: k3) []). rewrite app_nil_r. exact Hp.
Qed.
Lemma split_inner_k2 : inner_key n (max_keys / 2) = Ok ky.
Proof.
  rewrite HL. replace (Z.of_nat (length ka) + 1) with (Z.of_nat (length (ka ++ [kx])))
    by (rewrite length_app; simpl; lia).
  eapply (inner_key_shape n (ka ++ [kx]) ky k3 []). rewrite app_nil_r, <- app_assoc. exact Hp.
Qed.
Lemma split_inner_s1 : separator n (max_keys / 2) = Ok sx.
Proof.
  rewrite HL. replace (Z.of_nat (length ka) + 1) with (Z.of_nat (length (s0 :: sa))) by (simpl; lia).
  eapply (separator_shape n _ (s0 :: sa) sx (sb :: s3) []). rewrite app_nil_r. exact Hp.
Qed.
Lemma split_inner_s2 : separator n (max_keys / 2 + 1) = Ok sb.
Proof.
  rewrite HL. replace (Z.of_nat (length ka) + 1 + 1) with (Z.of_nat (length (s0 :: sa ++ [sx])))
    by (simpl; rewrite length_app; simpl; lia).
  eapply (separator_shape n _ (s0 :: sa ++ [sx]) sb s3 []).
  rewrite app_nil_r. simpl. rewrite <- app_assoc. exact Hp.
Qed.

(** Copying the upper half, with or without the key that moves up. *)
Lemma split_inner_copy :
  exists kt st, payload m0 = InnerNode kt st /\ (exists p0 st', st = p0 :: st'
    /\ Z.of_nat (length kt) = max_keys /\ Z.of_nat (length st') = max_keys
    /\ copy n m0 (max_keys / 2) (max_keys - max_keys / 2)
       = Ok (set_payload (InnerNode (ky :: k3 ++ drop (S (length k3)) kt)
                                    (p0 :: sb :: s3 ++ drop (S (length k3)) st')) m0)
    /\ copy n m0 (max_keys / 2 + 1) (max_keys - max_keys / 2 - 1)
       = Ok (set_payload (InnerNode (k3 ++ drop (length k3) kt)
                                    (p0 :: s3 ++ drop (length k3) st')) m0)).
Proof.
  destruct (new_inner_payload nx (parent n)) as (kt & p0 & st & Hnp & Hkt & Hst).
  exists kt, (p0 :: st). split; [done|]. exists p0, st.
  split; [done|]. split; [done|]. split; [done|].
  split; rewrite HR, HL.
  - replace (Z.of_nat (length ka) + 1) with (Z.of_nat (length (ka ++ [kx])))
      by (rewrite length_app; simpl; lia).
    replace (Z.of_nat (length k3) + 1) with (Z.of_nat (length (ky :: k3))) by (simpl; lia).
    apply (copy_inner_spec n m0 (ka ++ [kx]) (ky :: k3) [] (s0 :: sa ++ [sx]) (sb :: s3) []);
      simpl; rewrite ?app_nil_r, <- ?app_assoc, ?length_app; simpl; auto; lia.
  - replace (Z.of_nat (length ka) + 1 + 1) with (Z.of_nat (length (ka ++ [kx; ky])))
      by (rewrite length_app; simpl; lia).
    replace (Z.of_nat (length k3) + 1 - 1) with (Z.of_nat (length k3)) by lia.
    apply (copy_inner_spec n m0 (ka ++ [kx; ky]) k3 [] (s0 :: sa ++ [sx; sb]) s3 []);
      simpl; rewrite ?app_nil_r, <- ?app_assoc, ?length_app; simpl; auto; lia.
Qed.

(** Final state of a split whose left half is [nl] and right half [nr]; the
    children in [pl] were re-parented to the left half. *)
Definition split_state (nl nr : Node) (pl sr : list ptr) : TreeState :=
  mkTree (adopt sr (Some nx) (adopt pl (Some l) (<[l := nl]> (<[nx := nr]> h))))
    (Pos.succ nx) rt ht.

Lemma split_inner_children (sr : list ptr) :
  (forall p, p ∈ sr -> p ∈ Some sepl :: s0 :: sa ++ sx :: sb :: s3) ->
  forall p, p ∈ sr -> exists c, p = Some c /\ is_Some (h !! c).
Proof.
  intros Hsub p Hpp. apply Hsub in Hpp as [->|Hpp]%elem_of_cons; eauto.
Qed.

Lemma lookup_insert_is_Some_2 (hh : gmap loc Node) i j x :
  is_Some (hh !! j) -> is_Some (<[i := x]> hh !! j).
Proof. rewrite lookup_insert. case_decide; eauto. Qed.

Lemma split_inner_below : kx < key -> Forall (fun x => x < key) (ka ++ [kx]).
Proof.
  intros Hk. apply Forall_forall. intros x Hx.
  apply ksorted_app in Hs as (_ & _ & Hlt). specialize (Hlt x kx).
  apply elem_of_app in Hx as [Hx| ->%list_elem_of_singleton]; [|done].
  specialize (Hlt Hx ltac:(set_solver)). lia.
Qed.
Lemma split_inner_above k rest : kx :: ky :: k3 = k :: rest \/ ky :: k3 = k :: rest ->
  key < k -> Forall (fun x => key <= x) (k :: rest).
Proof.
  intros Hor Hk. apply ksorted_app in Hs as (_ & Hs' & _). constructor; [lia|].
  assert (Hk' : ksorted (k :: rest)).
  { destruct Hor as [<-| <-]; [done|]. by apply StronglySorted_cons in Hs' as [_ ?]. }
  apply StronglySorted_cons in Hk' as [Hf _]. eapply Forall_impl; [exact Hf|]. simpl. lia.
Qed.

(** The left half keeps its arrays; only its size shrinks. *)
Lemma split_inner_left_shape n' kl kt sl st :
  payload n' = payload n -> size n' = Z.of_nat (length kl) ->
  ka ++ kx :: ky :: k3 = kl ++ kt -> s0 :: sa ++ sx :: sb :: s3 = sl ++ st ->
  length sl = S (length kl) -> inner_shape n' kl kt sl st.
Proof.
  intros Hpn Hsz Hk Hsl Hlen. rewrite Hk, Hsl in Hp. constructor; auto; try congruence.
  - rewrite <- Hk, length_app. simpl. lia.
  - rewrite <- Hsl. simpl. rewrite length_app. simpl. lia.
Qed.

Lemma split_inner_mid :
  kx <= key -> key < ky ->
  exists nl nr kl sl kr sr,
    split_inner_node (Some l) key (Some sepl) (mkTree h nx rt ht)
      = Ok ((Some nx, key), split_state nl nr [] sr)
    /\ inner_split n nx (ka ++ kx :: ky :: k3) s0 (sa ++ sx :: sb :: s3) key (Some sepl)
         nl nr kl sl key kr sr.
Proof.
  intros Hlo Hhi. assert (kx <> key) by set_solver. pose proof max_keys_bounds as Hmax.
  pose proof (Z.mul_div_le max_keys 2 ltac:(lia)) as Hhalves.
  destruct split_inner_copy as (kt & st & Hmp & p0 & st' & -> & Hkt & Hst & Hcopy & _).
  assert (HL2 : u16 (max_keys / 2) = Z.of_nat (length ka) + 1) by (rewrite HL, u16_small; lia).
  assert (HR2 : u16 (max_keys - max_keys / 2) = Z.of_nat (length k3) + 1) by (rewrite HR, u16_small; lia).
  unfold split_inner_node. tm_deref. unfold create_inner_node, create_node.
  erewrite ST_bind_ok by reflexivity. cbn [heap next_loc root_node tree_height].
  tm_assign. rewrite insert_insert_eq. fold m0. tm_lift split_inner_k1.
  rewrite (proj2 (Z.ltb_ge key kx)) by lia.
  erewrite ST_bind_ok; cycle 1.
  { tm_lift split_inner_k2. rewrite (proj2 (Z.ltb_lt key ky)) by lia. tm_update Hcopy.
    erewrite ST_bind_ok by (eapply update_ok; [heap_lookup|reflexivity]).
    tm_assign. tm_assign. reflexivity. }
  rewrite !insert_insert_eq, (insert_insert_ne _ nx l), !insert_insert_eq by done.
  rewrite HL2, HR2.
  set (m2 := set_size (Z.of_nat (length k3) + 1) _). set (n1 := set_size (Z.of_nat (length ka) + 1) n).
  assert (Hm2 : inner_shape m2 (ky :: k3) (drop (S (length k3)) kt) (Some sepl :: sb :: s3)
                  (drop (S (length k3)) st')).
  { constructor; simpl; rewrite ?length_app, ?length_drop; auto; lia. }
  erewrite (split_inner_tail (<[l := n1]> (<[nx := m2]> h)));
    [|heap_lookup|heap_lookup|done|exact Hm2|]; cycle 1.
  { intros p Hpp. destruct (split_inner_children (Some sepl :: sb :: s3)) with (p := p)
      as (c & -> & Hc); [set_solver|done|]. exists c. split; [done|].
    by repeat apply lookup_insert_is_Some_2. }
  rewrite (insert_insert_ne _ nx l), !insert_insert_eq by done.
  exists (set_high_key key (set_right_sibling (Some nx) n1)), (set_right_sibling (right_sibling n) m2),
    (ka ++ [kx]), (s0 :: sa ++ [sx]), (ky :: k3), (Some sepl :: sb :: s3).
  split; [by unfold split_state; rewrite adopt_nil|].
  constructor; simpl; eauto.
  - exists (sa ++ sx :: Some sepl :: sb :: s3). split; [|by rewrite <- app_assoc].
    exists (ka ++ [kx]), (ky :: k3), (sa ++ [sx]), (sb :: s3).
    rewrite <- !app_assoc, !length_app. simpl. repeat split; auto with lia.
    + apply split_inner_below; lia.
    + apply split_inner_above; auto.
  - exists (ky :: k3), (sb :: s3). apply split_inner_left_shape; simpl; auto;
      rewrite ?length_app, <- ?app_assoc; simpl; auto; lia.
  - destruct Hm2. do 2 eexists. constructor; simpl in *; eauto.
  - rewrite length_app. simpl. lia.
  - lia.
Qed.

Lemma adopt_single c p hh : adopt [Some c] p hh = alter (set_parent p) c hh.
Proof. by rewrite adopt_cons, adopt_nil. Qed.

Lemma split_inner_low :
  key < kx ->
  exists nl nr kl sl kr sr,
    split_inner_node (Some l) key (Some sepl) (mkTree h nx rt ht)
      = Ok ((Some nx, kx), split_state nl nr [Some sepl] sr)
    /\ inner_split n nx (ka ++ kx :: ky :: k3) s0 (sa ++ sx :: sb :: s3) key (Some sepl)
         nl nr kl sl kx kr sr.
Proof.
  intros Hlt. pose proof max_keys_bounds as Hmax.
  pose proof (Z.mul_div_le max_keys 2 ltac:(lia)) as Hhalves.
  destruct split_inner_copy as (kt & st & Hmp & p0 & st' & -> & Hkt & Hst & Hcopy & _).
  assert (HL2 : u16 (max_keys / 2 - 1) = Z.of_nat (length ka)) by (rewrite HL, u16_small; lia).
  assert (HR2 : u16 (max_keys - max_keys / 2) = Z.of_nat (length k3) + 1) by (rewrite HR, u16_small; lia).
  set (n1 := set_size (Z.of_nat (length ka)) n).
  assert (Hn1 : inner_shape n1 ka (kx :: ky :: k3) (s0 :: sa) (sx :: sb :: s3)).
  { apply split_inner_left_shape; simpl; auto. }
  destruct (inner_insert n1 _ _ _ _ _ _ _ key (Some sepl) Hn1) as
    (i & n2 & kl & sl & Hi & Hins & Hn2 & Hat & Hh1 & Hh2 & Hh3).
  { by apply ksorted_app in Hs as [? _]. }
  unfold split_inner_node. tm_deref. unfold create_inner_node, create_node.
  erewrite ST_bind_ok by reflexivity. cbn [heap next_loc root_node tree_height].
  tm_assign. rewrite insert_insert_eq. fold m0. tm_lift split_inner_k1.
  rewrite (proj2 (Z.ltb_lt key kx)) by lia.
  erewrite ST_bind_ok; cycle 1.
  { tm_update Hcopy. tm_lift split_inner_s1.
    erewrite ST_bind_ok by (eapply update_ok; [heap_lookup|reflexivity]).
    tm_assign. tm_assign. rewrite HL2. fold n1. tm_deref. tm_lift Hi.
    erewrite ST_bind_ok by (apply assign_alter; by repeat apply lookup_insert_is_Some_2).
    erewrite ST_bind_ok by (eapply update_ok;
      [rewrite lookup_alter_ne by done; heap_lookup|exact Hins]).
    reflexivity. }
  rewrite !alter_insert_ne, !insert_insert_eq by done. rewrite HR2.
  set (m2 := set_size (Z.of_nat (length k3) + 1) _).
  assert (Hm2 : inner_shape m2 (ky :: k3) (drop (S (length k3)) kt) (sx :: sb :: s3)
                  (drop (S (length k3)) st')).
  { constructor; simpl; rewrite ?length_app, ?length_drop; auto; lia. }
  erewrite split_inner_tail; [|heap_lookup|heap_lookup|done|exact Hm2|]; cycle 1.
  { intros p Hpp. destruct (split_inner_children (sx :: sb :: s3)) with (p := p)
      as (c & -> & Hc); [set_solver|done|]. exists c. split; [done|].
    repeat apply lookup_insert_is_Some_2. rewrite lookup_alter. case_decide; [subst|done].
    by apply fmap_is_Some. }
  rewrite (insert_insert_ne _ nx l), !insert_insert_eq by done.
  exists (set_high_key kx (set_right_sibling (Some nx) n2)), (set_right_sibling (right_sibling n) m2),
    kl, (s0 :: sl), (ky :: k3), (sx :: sb :: s3).
  split; [by unfold split_state; rewrite adopt_single, !alter_insert_ne by done|].
  constructor; simpl; eauto.
  - exists (sl ++ sx :: sb :: s3). split; [|done].
    apply inserted_at_app_l; [done..|]. apply split_inner_above; auto.
  - destruct Hn2. do 2 eexists. constructor; simpl in *; eauto.
  - destruct Hm2. do 2 eexists. constructor; simpl in *; eauto.
  - apply inserted_at_length in Hat as [-> _]. lia.
  - lia.
Qed.

Lemma split_inner_high :
  ky <= key ->
  exists nl nr kl sl kr sr,
    split_inner_node (Some l) key (Some sepl) (mkTree h nx rt ht)
      = Ok ((Some nx, ky), split_state nl nr [] sr)
    /\ inner_split n nx (ka ++ kx :: ky :: k3) s0 (sa ++ sx :: sb :: s3) key (Some sepl)
         nl nr kl sl ky kr sr.
Proof.
  intros Hle. assert (ky <> key) by set_solver. pose proof max_keys_bounds as Hmax.
  pose proof (Z.mul_div_le max_keys 2 ltac:(lia)) as Hhalves.
  destruct split_inner_copy as (kt & st & Hmp & p0 & st' & -> & Hkt & Hst & _ & Hcopy).
  assert (HL2 : u16 (max_keys / 2) = Z.of_nat (length ka) + 1) by (rewrite HL, u16_small; lia).
  assert (HR2 : u16 (max_keys - max_keys / 2 - 1) = Z.of_nat (length k3)) by (rewrite HR, u16_small; lia).
  pose proof Hs as (_ & Hs2 & _)%ksorted_app.
  apply StronglySorted_cons in Hs2 as [Hkx Hs2]. apply StronglySorted_cons in Hs2 as [_ Hs3'].
  apply Forall_cons in Hkx as [Hxy _].
  destruct (drop (length k3) kt) as [|y kt'] eqn:Hdk.
  { apply (f_equal length) in Hdk. rewrite length_drop in Hdk. simpl in Hdk. lia. }
  destruct (drop (length k3) st') as [|z st''] eqn:Hds.
  { apply (f_equal length) in Hds. rewrite length_drop in Hds. simpl in Hds. lia. }
  set (m1 := set_size (Z.of_nat (length k3)) (set_payload
               (InnerNode (k3 ++ y :: kt') (sb :: s3 ++ z :: st'')) m0)).
  assert (Hm1 : inner_shape m1 k3 (y :: kt') (sb :: s3) (z :: st'')).
  { constructor; simpl; auto; rewrite <- ?Hdk, <- ?Hds, ?length_app, ?length_drop; lia. }
  destruct (inner_insert m1 _ _ _ _ _ _ _ key (Some sepl) Hm1 Hs3') as
    (i & m2 & kr & sr & Hi & Hins & Hm2 & Hat & Hh1 & Hh2 & Hh3).
  unfold split_inner_node. tm_deref. unfold create_inner_node, create_node.
  erewrite ST_bind_ok by reflexivity. cbn [heap next_loc root_node tree_height].
  tm_assign. rewrite insert_insert_eq. fold m0. tm_lift split_inner_k1.
  rewrite (proj2 (Z.ltb_ge key kx)) by lia.
  erewrite ST_bind_ok; cycle 1.
  { tm_lift split_inner_k2. rewrite (proj2 (Z.ltb_ge key ky)) by lia.
    tm_update Hcopy. tm_lift split_inner_s2.
    erewrite ST_bind_ok by (eapply update_ok; [heap_lookup|reflexivity]).
    tm_assign. tm_assign. rewrite HL2, HR2.
    change (set_size (Z.of_nat (length k3)) _) with m1. tm_deref. tm_lift Hi. tm_update Hins.
    reflexivity. }
  rewrite !insert_insert_eq, (insert_insert_ne _ nx l), !insert_insert_eq by done.
  set (n1 := set_size (Z.of_nat (length ka) + 1) n).
  erewrite split_inner_tail; [|heap_lookup|heap_lookup|done|exact Hm2|]; cycle 1.
  { intros p Hpp. destruct (split_inner_children (sb :: sr)) with (p := p)
      as (c & -> & Hc); [|done|].
    - destruct Hat as (? & ? & w1 & w2 & _ & -> & _ & _ & _ & _ & ->). set_solver.
    - exists c. split; [done|]. by repeat apply lookup_insert_is_Some_2. }
  rewrite (insert_insert_ne _ nx l), !insert_insert_eq by done.
  exists (set_high_key ky (set_right_sibling (Some nx) n1)), (set_right_sibling (right_sibling n) m2),
    (ka ++ [kx]), (s0 :: sa ++ [sx]), kr, (sb :: sr).
  split; [by unfold split_state; rewrite adopt_nil|].
  constructor; simpl; eauto.
  - exists (sa ++ sx :: sb :: sr). split; [|by rewrite <- app_assoc].
    rewrite <- app_assoc. simpl.
    change (ka ++ kx :: ky :: k3) with (ka ++ [kx; ky] ++ k3).
    change (ka ++ kx :: ky :: kr) with (ka ++ [kx; ky] ++ kr).
    change (sa ++ sx :: sb :: s3) with (sa ++ [sx; sb] ++ s3).
    change (sa ++ sx :: sb :: sr) with (sa ++ [sx; sb] ++ sr).
    rewrite !app_assoc. apply inserted_at_app_r; [done|rewrite !length_app; simpl; lia|].
    replace (ka ++ [kx; ky]) with ((ka ++ [kx]) ++ [ky]) by (by rewrite <- app_assoc).
    apply Forall_app. split; [apply split_inner_below; lia|]. repeat constructor. lia.
  - exists (ky :: k3), (sb :: s3). apply split_inner_left_shape; simpl; auto;
      rewrite ?length_app, <- ?app_assoc; simpl; auto; lia.
  - destruct Hm2. do 2 eexists. constructor; simpl in *; eauto.
  - rewrite length_app. simpl. lia.
  - apply inserted_at_length in Hat as [-> _]. lia.
Qed.
End SplitInner.

Lemma split_inner_spec h nx rt ht l n ks s0 ss key sepl :
  h !! l = Some n -> l <> nx -> sepl <> l -> sepl <> nx -> is_Some (h !! sepl) ->
  inner_shape n ks [] (s0 :: ss) [] -> ksorted ks -> key ∉ ks ->
  (forall p, p ∈ s0 :: ss -> exists c, p = Some c /\ is_Some (h !! c)) ->
  exists nl nr kl sl up kr sr pl,
    split_inner_node (Some l) key (Some sepl) (mkTree h nx rt ht)
      = Ok ((Some nx, up),
            mkTree (adopt sr (Some nx) (adopt pl (Some l) (<[l := nl]> (<[nx := nr]> h))))
              (Pos.succ nx) rt ht)
    /\ inner_split n nx ks s0 ss key (Some sepl) nl nr kl sl up kr sr
    /\ (pl = [] \/ pl = [Some sepl]).
Proof.
  intros Hl H1 H2 H3 Hsep Hn Hs Hk Hc.
  destruct (inner_halves n ks s0 ss Hn)
    as (ka & kx & ky & k3 & sa & sx & sb & s3 & -> & -> & Hsa & Hs3 & HL & HR).
  destruct Hn as [Hp _ _ _ _]. rewrite !app_nil_r in Hp.
  destruct (Z.lt_ge_cases key kx) as [Hlt|Hge]; [|destruct (Z.lt_ge_cases key ky)].
  - destruct (split_inner_low h nx rt ht l n ka kx ky k3 s0 sa sx sb s3 key sepl)
      as (nl & nr & kl & sl & kr & sr & -> & ?); auto.
    exists nl, nr, kl, sl, kx, kr, sr, [Some sepl]. auto.
  - destruct (split_inner_mid h nx rt ht l n ka kx ky k3 s0 sa sx sb s3 key sepl)
      as (nl & nr & kl & sl & kr & sr & -> & ?); auto.
    exists nl, nr, kl, sl, key, kr, sr, []. auto.
  - destruct (split_inner_high h nx rt ht l n ka kx ky k3 s0 sa sx sb s3 key sepl)
      as (nl & nr & kl & sl & kr & sr & -> & ?); auto.
    exists nl, nr, kl, sl, ky, kr, sr, []. auto.
Qed.

(** ** A new root *)
Lemma create_new_root_spec h nx rt ht left right key :
  is_Some (h !! left) -> is_Some (h !! right) -> left <> nx -> right <> nx ->
  exists r kt st,
    create_new_root (Some left) (Some right) key (mkTree h nx rt ht)
      = Ok (tt, mkTree (<[nx := r]> (adopt [Some left; Some right] (Some nx) h))
                  (Pos.succ nx) (Some nx) (u16 (ht + 1)))
    /\ inner_shape r [key] kt [Some left; Some right] st
    /\ high_key r = max_u64 /\ right_sibling r = None /\ parent r = None.
Proof.
  intros Hl Hr Hnl Hnr. pose proof max_keys_bounds.
  destruct (new_inner_payload nx None) as (kt & s0 & st & Hp & Hkt & Hst).
  destruct kt as [|y kt]; [simpl in *; lia|]. destruct st as [|z st]; [simpl in *; lia|].
  set (r1 := set_payload (InnerNode (y :: kt) (Some left :: z :: st)) (new_node nx false None)).
  assert (Hset : set_separator (new_node nx false None) 0 (Some left) = Ok r1).
  { unfold set_separator. rewrite Hp. reflexivity. }
  assert (Hr1 : inner_shape r1 ([] ++ []) (y :: kt) (Some left :: [] ++ []) (z :: st)).
  { constructor; simpl in *; auto; lia. }
  destruct (insert_separator_spec r1 [] [] kt (Some left) [] [] st y z key (Some right) Hr1 eq_refl)
    as (r & Hins & Hshape & Hh1 & Hh2 & Hh3).
  exists r, kt, st. split; [|by simpl in *].
  unfold create_new_root, create_inner_node, create_node. erewrite ST_bind_ok by reflexivity.
  cbn [heap next_loc root_node tree_height].
  erewrite ST_bind_ok by (apply assign_alter; by apply lookup_insert_is_Some_2).
  erewrite ST_bind_ok by (eapply update_ok; [rewrite lookup_alter_ne by done; heap_lookup|exact Hset]).
  erewrite ST_bind_ok; cycle 1.
  { apply assign_alter. apply lookup_insert_is_Some_2. rewrite lookup_alter, lookup_insert_ne by done.
    case_decide; [subst; by apply fmap_is_Some|]. by apply lookup_insert_is_Some_2. }
  erewrite ST_bind_ok by (eapply update_ok; [rewrite lookup_alter_ne by done; heap_lookup|exact Hins]).
  unfold modify. simpl. do 3 f_equal.
  by rewrite !adopt_cons, adopt_nil, !alter_insert_ne, !insert_insert_eq by done.
Qed.

End TreeFacts.
