(* ===== verification/Locks.v ===== *)
(** * Latches

    Models [src/src/util/spinlock.h], [src/src/util/rw_spinlock.h] and
    [src/src/indices/blinktree/optimistic_lock.h] with the node bases that embed
    them.  Every atomic access is one function on the latch word (sequentially
    consistent interleaving of atomic accesses); the loops around them are step
    relations over the threads that use a latch.  [NodeLatch] is what the latched
    B-link tree asks of the latch in its nodes. *)

From S2P Require Import Prelude.

(** ** [util::Spinlock] *)
Module Spinlock.

(** The word is [_flag]; the constructor unlocks. *)
Definition spin_init : bool := false.
(** One turn of the outer loop of [lock()]: a relaxed load that finds the flag
    clear, then a weak compare-exchange, which may fail spuriously. *)
Definition load (flag : bool) : bool := flag.
Definition cas_weak (spurious : bool) (flag : bool) : bool * bool :=
  if flag then (false, flag) else if spurious then (false, flag) else (true, true).
Definition spin_unlock (flag : bool) : bool := false.
Definition spin_is_locked (flag : bool) : bool := flag.

(** Where a thread is in its use of the lock. *)
Inductive spin_pc : Set := Idle | Spinning | Swapping | Holding.
Record spin_state : Type := mkState { flag : bool; pcs : gmap positive spin_pc }.

Inductive spin_step : spin_state -> spin_state -> Prop :=
  | step_call f ps t : ps !! t = Some Idle ->
      spin_step (mkState f ps) (mkState f (<[t := Spinning]> ps))
  | step_pause f ps t : ps !! t = Some Spinning -> load f = true ->
      spin_step (mkState f ps) (mkState f ps)
  | step_seen f ps t : ps !! t = Some Spinning -> load f = false ->
      spin_step (mkState f ps) (mkState f (<[t := Swapping]> ps))
  | step_cas f ps t sp ok f' : ps !! t = Some Swapping -> cas_weak sp f = (ok, f') ->
      spin_step (mkState f ps) (mkState f' (<[t := if ok then Holding else Spinning]> ps))
  | step_unlock f ps t : ps !! t = Some Holding ->
      spin_step (mkState f ps) (mkState (spin_unlock f) (<[t := Idle]> ps)).

Definition spin_initial (s : spin_state) : Prop :=
  flag s = spin_init /\ forall t p, pcs s !! t = Some p -> p = Idle.

(** The flag is set exactly while somebody holds the lock, and nobody shares it. *)
Record spin_inv (s : spin_state) : Prop := {
  inv_flag : flag s = true <-> exists t, pcs s !! t = Some Holding;
  inv_unique : forall t1 t2, pcs s !! t1 = Some Holding -> pcs s !! t2 = Some Holding -> t1 = t2 }.

Lemma spin_initial_inv s : spin_initial s -> spin_inv s.
Proof.
  intros [Hf Hi]. split; [|intros t1 t2 H1; by apply Hi in H1].
  rewrite Hf. split; [done|]. intros [t Ht]. by apply Hi in Ht.
Qed.

(** A thread that moves between two places outside the critical section. *)
Lemma spin_inv_move f ps t p q :
  spin_inv (mkState f ps) -> ps !! t = Some p -> p <> Holding -> q <> Holding ->
  spin_inv (mkState f (<[t := q]> ps)).
Proof.
  intros [Hf Hu] Ht Hp Hq. split; simpl in *.
  - rewrite Hf. split; intros [u Hu']; exists u.
    + rewrite lookup_insert_ne; [done|]. intros ->. congruence.
    + apply lookup_insert_Some in Hu' as [[??]|[??]]; by subst.
  - intros t1 t2 [[??]|[??]]%lookup_insert_Some [[??]|[??]]%lookup_insert_Some; subst; naive_solver.
Qed.

Lemma spin_step_inv s s' : spin_step s s' -> spin_inv s -> spin_inv s'.
Proof.
  intros Hst Hi. destruct Hst as [f ps t Ht|f ps t Ht Hl|f ps t Ht Hl|f ps t sp ok f' Ht Hc|f ps t Ht].
  - by eapply spin_inv_move.
  - done.
  - by eapply spin_inv_move.
  - unfold cas_weak in Hc. destruct f; simplify_eq; [by eapply spin_inv_move|].
    destruct sp; simplify_eq; [by eapply spin_inv_move|].
    destruct Hi as [Hf Hu]. simpl in *.
    assert (Hno : forall u, ps !! u <> Some Holding) by (intros u Hu'; assert (false = true) by (apply Hf; eauto); done).
    split; simpl.
    + split; [|done]. intros _. exists t. apply lookup_insert_eq.
    + intros t1 t2 [[??]|[??]]%lookup_insert_Some [[??]|[??]]%lookup_insert_Some; subst; naive_solver.
  - destruct Hi as [Hf Hu]. simpl in *. split; simpl.
    + split; [done|]. intros [u [[??]|[? Hu']]%lookup_insert_Some]; [done|].
      exfalso. eauto.
    + intros t1 t2 [[??]|[??]]%lookup_insert_Some [[??]|[??]]%lookup_insert_Some; subst; naive_solver.
Qed.

Lemma spin_reachable_inv s0 s : spin_initial s0 -> rtc spin_step s0 s -> spin_inv s.
Proof. intros Hi Hr. apply spin_initial_inv in Hi. induction Hr; eauto using spin_step_inv. Qed.

End Spinlock.

(** ** [util::RWSpinLock] *)
Module RWSpinLock.

(** The word [bits_] is an [int32_t]. *)
Definition READER : Z := 4.
Definition UPGRADED : Z := 2.
Definition WRITER : Z := 1.
Definition rw_init : Z := 0.

Definition fetch_add (bits d : Z) : Z := i32 (bits + d).
Definition rw_try_lock (bits : Z) : bool * Z :=
  if bits =? 0 then (true, WRITER) else (false, bits).
Definition rw_unlock (bits : Z) : Z := Z.land bits (Z.lnot (Z.lor WRITER UPGRADED)).
(** [try_lock_shared] is a [fetch_add] and, when that met a writer or an upgrader,
    a second [fetch_add] that takes the reader back. *)
Definition try_lock_shared_acquire (bits : Z) : bool * Z :=
  (Z.land bits (Z.lor WRITER UPGRADED) =? 0, fetch_add bits READER).
Definition try_lock_shared_retreat (bits : Z) : Z := fetch_add bits (- READER).
Definition try_lock_shared (bits : Z) : bool * Z :=
  let '(ok, bits') := try_lock_shared_acquire bits in
  if ok then (true, bits') else (false, try_lock_shared_retreat bits').
Definition unlock_shared (bits : Z) : Z := fetch_add bits (- READER).
(** The two downgrades of a writer make two accesses each. *)
Definition unlock_and_lock_shared_count (bits : Z) : Z := fetch_add bits READER.
Definition unlock_and_lock_shared (bits : Z) : Z := rw_unlock (unlock_and_lock_shared_count bits).
Definition try_lock_upgrade (bits : Z) : bool * Z :=
  (Z.land bits (Z.lor UPGRADED WRITER) =? 0, Z.lor bits UPGRADED).
Definition unlock_upgrade (bits : Z) : Z := fetch_add bits (- UPGRADED).
Definition try_unlock_upgrade_and_lock (bits : Z) : bool * Z :=
  if bits =? UPGRADED then (true, WRITER) else (false, bits).
Definition unlock_upgrade_and_lock_shared (bits : Z) : Z := fetch_add bits (READER - UPGRADED).
Definition unlock_and_lock_upgrade_mark (bits : Z) : Z := Z.lor bits UPGRADED.
Definition unlock_and_lock_upgrade_drop (bits : Z) : Z := fetch_add bits (- WRITER).
Definition unlock_and_lock_upgrade (bits : Z) : Z := unlock_and_lock_upgrade_drop (unlock_and_lock_upgrade_mark bits).

(** The word of a lock with [r] readers (the ones about to retreat included). *)
Definition word (r : nat) (u w : bool) : Z :=
  4 * Z.of_nat r + (if u then 2 else 0) + (if w then 1 else 0).

(** Bitwise tests and updates of such a word. *)
Lemma land3 z a : 0 <= a < 4 -> Z.land (4 * z + a) 3 = a.
Proof.
  intros Ha. change 3 with (Z.ones 2). rewrite Z.land_ones by lia. change (2 ^ 2) with 4.
  rewrite Z.add_comm, Z.mul_comm, Z.mod_add by lia. by apply Z.mod_small.
Qed.

Lemma clear3 z a : 0 <= a < 4 -> Z.land (4 * z + a) (Z.lnot 3) = 4 * z.
Proof.
  intros Ha. change 3 with (Z.ones 2). rewrite <- Z.ldiff_land, Z.ldiff_ones_r by lia.
  rewrite Z.shiftr_div_pow2, Z.shiftl_mul_pow2 by lia. change (2 ^ 2) with 4.
  replace (4 * z + a) with (z * 4 + a) by lia. rewrite Z.div_add_l by lia.
  rewrite (Z.div_small a) by lia. lia.
Qed.

Lemma lor2 z a : 0 <= a < 4 -> Z.lor (4 * z + a) 2 = 4 * z + Z.lor a 2.
Proof.
  intros Ha. pose proof (Z.add_lor_land (4 * z + a) 2). pose proof (Z.add_lor_land a 2).
  assert (Z.land (4 * z + a) 2 = Z.land a 2); [|lia].
  change 2 with (Z.land 3 2). rewrite !Z.land_assoc, land3 by done.
  by rewrite <- (land3 0 a) at 1 by done.
Qed.

(** *** Threads using the lock *)

(** [Retreating]: a failed [try_lock_shared] between its two accesses.
    [ReaderUpgraded]: a reader that called [lock_upgrade], as
    [latched::ThreadTree] does before it modifies a node.  [ToReader], [ToUpgrader]: a
    writer between the two accesses of [unlock_and_lock_shared] or
    [unlock_and_lock_upgrade]. *)
Inductive rw_pc : Set := Idle | Retreating | Reader | ReaderUpgraded | Upgrader | Writer | ToReader | ToUpgrader.
#[export] Instance pc_eq_dec : EqDecision rw_pc.
Proof. solve_decision. Defined.

Record rw_state : Type := mkState { bits : Z; pcs : gmap positive rw_pc }.

(** All uses of the lock in the roles its comments describe.  A failed attempt to become a
    writer changes nothing. *)
Inductive rw_step : rw_state -> rw_state -> Prop :=
  | step_lock b ps t b' : ps !! t = Some Idle -> rw_try_lock b = (true, b') ->
      rw_step (mkState b ps) (mkState b' (<[t := Writer]> ps))
  | step_unlock b ps t : ps !! t = Some Writer ->
      rw_step (mkState b ps) (mkState (rw_unlock b) (<[t := Idle]> ps))
  | step_lock_shared b ps t ok b' : ps !! t = Some Idle -> try_lock_shared_acquire b = (ok, b') ->
      rw_step (mkState b ps) (mkState b' (<[t := if ok then Reader else Retreating]> ps))
  | step_retreat b ps t : ps !! t = Some Retreating ->
      rw_step (mkState b ps) (mkState (try_lock_shared_retreat b) (<[t := Idle]> ps))
  | step_unlock_shared b ps t : ps !! t = Some Reader ->
      rw_step (mkState b ps) (mkState (unlock_shared b) (<[t := Idle]> ps))
  | step_lock_upgrade b ps t ok b' : ps !! t = Some Idle -> try_lock_upgrade b = (ok, b') ->
      rw_step (mkState b ps) (mkState b' (<[t := if ok then Upgrader else Idle]> ps))
  | step_unlock_upgrade b ps t : ps !! t = Some Upgrader ->
      rw_step (mkState b ps) (mkState (unlock_upgrade b) (<[t := Idle]> ps))
  | step_upgrade_to_writer b ps t b' :
      ps !! t = Some Upgrader -> try_unlock_upgrade_and_lock b = (true, b') ->
      rw_step (mkState b ps) (mkState b' (<[t := Writer]> ps))
  | step_downgrade b ps t : ps !! t = Some Upgrader ->
      rw_step (mkState b ps) (mkState (unlock_upgrade_and_lock_shared b) (<[t := Reader]> ps))
  | step_to_reader_count b ps t : ps !! t = Some Writer ->
      rw_step (mkState b ps) (mkState (unlock_and_lock_shared_count b) (<[t := ToReader]> ps))
  | step_to_reader_unlock b ps t : ps !! t = Some ToReader ->
      rw_step (mkState b ps) (mkState (rw_unlock b) (<[t := Reader]> ps))
  | step_to_upgrader_mark b ps t : ps !! t = Some Writer ->
      rw_step (mkState b ps) (mkState (unlock_and_lock_upgrade_mark b) (<[t := ToUpgrader]> ps))
  | step_to_upgrader_drop b ps t : ps !! t = Some ToUpgrader ->
      rw_step (mkState b ps) (mkState (unlock_and_lock_upgrade_drop b) (<[t := Upgrader]> ps)).

(** The protocol of [latched::ThreadTree]: [lock_shared], [lock_upgrade], modify,
    [unlock]. *)
Inductive tree_step : rw_state -> rw_state -> Prop :=
  | tree_lock_shared b ps t ok b' : ps !! t = Some Idle -> try_lock_shared_acquire b = (ok, b') ->
      tree_step (mkState b ps) (mkState b' (<[t := if ok then Reader else Retreating]> ps))
  | tree_retreat b ps t : ps !! t = Some Retreating ->
      tree_step (mkState b ps) (mkState (try_lock_shared_retreat b) (<[t := Idle]> ps))
  | tree_unlock_shared b ps t : ps !! t = Some Reader ->
      tree_step (mkState b ps) (mkState (unlock_shared b) (<[t := Idle]> ps))
  | tree_upgrade b ps t ok b' : ps !! t = Some Reader -> try_lock_upgrade b = (ok, b') ->
      tree_step (mkState b ps) (mkState b' (<[t := if ok then ReaderUpgraded else Reader]> ps))
  | tree_unlock b ps t : ps !! t = Some ReaderUpgraded ->
      tree_step (mkState b ps) (mkState (rw_unlock b) (<[t := Idle]> ps)).

Definition rw_initial (s : rw_state) : Prop :=
  bits s = rw_init /\ forall t p, pcs s !! t = Some p -> p = Idle.

(** Threads whose [READER] is in the word. *)
Definition counts (p : rw_pc) : nat :=
  match p with Retreating | Reader | ReaderUpgraded | ToReader => 1 | _ => 0 end.
Definition readers (ps : gmap positive rw_pc) : nat :=
  map_fold (fun _ p n => (counts p + n)%nat) 0%nat ps.

Lemma readers_delete ps t p :
  ps !! t = Some p -> readers ps = (counts p + readers (delete t ps))%nat.
Proof.
  intros Ht. unfold readers.
  rewrite (map_fold_delete_L (fun _ p n => (counts p + n)%nat) 0%nat t p ps); [done| |done].
  intros; lia.
Qed.

Lemma readers_insert ps t p q :
  ps !! t = Some p -> (readers (<[t := q]> ps) + counts p = readers ps + counts q)%nat.
Proof.
  intros Ht. rewrite (readers_delete _ _ _ Ht), (readers_delete (<[t := q]> ps) t q)
    by apply lookup_insert_eq. rewrite delete_insert_eq. lia.
Qed.

Lemma readers_size ps : (readers ps <= base.size ps)%nat.
Proof.
  unfold readers. induction ps as [|t p ps Ht IH] using map_ind.
  - by rewrite map_fold_empty.
  - rewrite map_size_insert_None by done.
    rewrite map_fold_insert_L; [|intros; lia|done]. destruct p; simpl; lia.
Qed.

Lemma readers_zero ps t p : readers ps = 0%nat -> ps !! t = Some p -> counts p = 0%nat.
Proof. intros Hr Ht. rewrite (readers_delete _ _ _ Ht) in Hr. lia. Qed.

(** *** The word at its width *)

Definition low (u w : bool) : Z := (if u then 2 else 0) + (if w then 1 else 0).
Definition fold30 (r : Z) : Z := (r + 2 ^ 29) mod 2 ^ 30 - 2 ^ 29.

Lemma low_bound u w : 0 <= low u w < 4.
Proof. unfold low. destruct u, w; lia. Qed.

Lemma i32_split r a : 0 <= a < 4 -> i32 (4 * r + a) = 4 * fold30 r + a.
Proof.
  intros Ha. unfold i32, signed, fold30. change (32 - 1) with 31.
  change (2 ^ 31) with (4 * 2 ^ 29). change (2 ^ 32) with (4 * 2 ^ 30).
  replace (4 * r + a + 4 * 2 ^ 29) with (a + (r + 2 ^ 29) * 4) by lia.
  rewrite Z.rem_mul_r by lia. rewrite Z.mod_add, (Z.mod_small a) by lia.
  rewrite Z.div_add, Z.div_small by lia. rewrite Z.add_0_l. lia.
Qed.

Lemma word_split r u w : i32 (word r u w) = 4 * fold30 (Z.of_nat r) + low u w.
Proof.
  unfold word. rewrite <- Z.add_assoc. fold (low u w). apply i32_split, low_bound.
Qed.

Lemma fold30_zero r : 0 <= r < 2 ^ 30 -> fold30 r = 0 -> r = 0.
Proof.
  unfold fold30. intros Hr H. destruct (Z.lt_ge_cases r (2 ^ 29)) as [Hl|Hl].
  - rewrite Z.mod_small in H; lia.
  - replace (r + 2 ^ 29) with (r - 2 ^ 29 + 1 * 2 ^ 30) in H by lia.
    rewrite Z.mod_add, Z.mod_small in H; lia.
Qed.

Lemma fetch_add_word r u w d r' u' w' :
  word r u w + d = word r' u' w' -> fetch_add (i32 (word r u w)) d = i32 (word r' u' w').
Proof.
  intros <-. unfold fetch_add, i32, signed. f_equal.
  set (x := word r u w). set (m := 2 ^ 32). set (o := 2 ^ (32 - 1)).
  replace ((x + o) mod m - o + d + o) with ((x + o) mod m + d) by lia.
  rewrite Z.add_mod_idemp_l by done. f_equal. lia.
Qed.

Lemma low_mask r u w : Z.land (i32 (word r u w)) (Z.lor WRITER UPGRADED) = low u w.
Proof. rewrite word_split. apply land3, low_bound. Qed.

Lemma low_mask' r u w : Z.land (i32 (word r u w)) (Z.lor UPGRADED WRITER) = low u w.
Proof. apply low_mask. Qed.

Lemma unlock_word r u w : rw_unlock (i32 (word r u w)) = i32 (word r false false).
Proof.
  rewrite !word_split. unfold rw_unlock. change (Z.lnot (Z.lor WRITER UPGRADED)) with (Z.lnot 3).
  rewrite clear3 by apply low_bound. unfold low. lia.
Qed.

Lemma set_upgraded_word r u w : Z.lor (i32 (word r u w)) UPGRADED = i32 (word r true w).
Proof.
  rewrite !word_split. unfold UPGRADED. rewrite lor2 by apply low_bound.
  by destruct u, w.
Qed.

Lemma word_zero r u w : (Z.of_nat r < 2 ^ 30) -> i32 (word r u w) = 0 ->
  r = 0%nat /\ u = false /\ w = false.
Proof.
  intros Hr. rewrite word_split. intros H. pose proof (low_bound u w).
  assert (low u w = 0 /\ fold30 (Z.of_nat r) = 0) as [Hl Hf] by lia.
  apply fold30_zero in Hf; [|lia]. destruct u, w; try discriminate Hl; repeat split; lia.
Qed.

Lemma word_upgraded r u w : (Z.of_nat r < 2 ^ 30) -> i32 (word r u w) = UPGRADED ->
  r = 0%nat /\ u = true /\ w = false.
Proof.
  intros Hr. rewrite word_split. unfold UPGRADED. intros H. pose proof (low_bound u w).
  assert (low u w = 2 /\ fold30 (Z.of_nat r) = 0) as [Hl Hf] by lia.
  apply fold30_zero in Hf; [|lia]. destruct u, w; try discriminate Hl; repeat split; lia.
Qed.

(** *** The lock invariant *)

(** Roles in which a thread owns the [WRITER] bit, and roles that only one thread is in. *)
Definition writing (p : rw_pc) : bool := match p with Writer | ToReader | ToUpgrader => true | _ => false end.
Definition exclusive (p : rw_pc) : bool := match p with Upgrader => true | _ => writing p end.

(** [u] and [w] are the two flag bits. *)
Record lock_inv (u w : bool) (ps : gmap positive rw_pc) : Prop := {
  li_writer : w = true <-> exists t p, ps !! t = Some p /\ writing p = true;
  li_upgrader : forall t p, ps !! t = Some p -> p = Upgrader \/ p = ToUpgrader -> u = true;
  li_flag : u = true -> w = true \/ exists t, ps !! t = Some Upgrader;
  li_one : forall t1 t2 p1 p2, ps !! t1 = Some p1 -> ps !! t2 = Some p2 ->
    exclusive p1 = true -> exclusive p2 = true -> t1 = t2;
  li_no_reader : forall t, w = true -> ps !! t <> Some Reader;
  li_legal : forall t, ps !! t <> Some ReaderUpgraded }.
Definition rw_inv (s : rw_state) : Prop :=
  exists u w, bits s = i32 (word (readers (pcs s)) u w) /\ lock_inv u w (pcs s).

Ltac split_inserts :=
  repeat match goal with
  | H : <[_ := _]> _ !! _ = Some _ |- _ => apply lookup_insert_Some in H as [[??]|[??]]
  | H : exists _, _ |- _ => destruct H
  end; subst.

Lemma rw_initial_inv s : rw_initial s -> rw_inv s.
Proof.
  intros [Hb Hi]. exists false, false.
  assert (Hr : readers (pcs s) = 0%nat).
  { revert Hi. destruct s as [b ps]. simpl. clear. unfold readers.
    induction ps as [|t p ps Ht IH] using map_ind; intros Hi; [by rewrite map_fold_empty|].
    rewrite map_fold_insert_L; [|intros; lia|done]. rewrite IH.
    - by rewrite (Hi t p) by apply lookup_insert_eq.
    - intros t' p' Ht'. apply (Hi t'). rewrite lookup_insert_ne; [done|]. congruence. }
  rewrite Hr, Hb. split; [done|].
  assert (Hno : forall t p, pcs s !! t = Some p -> p <> Idle -> False) by naive_solver.
  split.
  - split; [done|]. intros (t & p & Ht & Hp). destruct (Hno _ _ Ht). by intros ->.
  - intros t p Ht Hp. destruct (Hno _ _ Ht). by destruct Hp as [->| ->].
  - done.
  - intros t1 t2 p1 p2 E1 _ X1 _. destruct (Hno _ _ E1). by intros ->.
  - done.
  - intros t Ht. by destruct (Hno _ _ Ht).
Qed.

(** A thread that is in no exclusive role changes to another such role. *)
Lemma lock_inv_shared u w ps t p q :
  lock_inv u w ps -> ps !! t = Some p -> exclusive p = false -> exclusive q = false ->
  q <> ReaderUpgraded -> (q = Reader -> w = false) -> lock_inv u w (<[t := q]> ps).
Proof.
  intros [H1 H2 H3 H4 H5 H6] Ht Hp Hq Hr Hw. assert (Hpw : writing p = false) by (by destruct p). assert (Hqw : writing q = false) by (by destruct q). split.
  - rewrite H1. split; intros (t' & p' & Ht' & Hp'); exists t', p'.
    + rewrite lookup_insert_ne; [done|]. intros <-. congruence.
    + split_inserts; [congruence|done].
  - intros t' p' Ht' Hp'. split_inserts; [by destruct Hp' as [->| ->]|by eapply H2].
  - intros Hu. destruct (H3 Hu) as [?|[t' Ht']]; [by left|right]. exists t'.
    rewrite lookup_insert_ne; [done|]. intros <-. by simplify_eq.
  - intros t1 t2 p1 p2 E1 E2 X1 X2. split_inserts; try congruence. by eapply H4.
  - intros t' Hw' Ht'. split_inserts; [by specialize (Hw eq_refl)|]. by eapply H5.
  - intros t' Ht'. split_inserts; [done|]. by eapply H6.
Qed.

(** The holder of an exclusive role gives it up. *)
Lemma lock_inv_release u w ps t p q :
  lock_inv u w ps -> ps !! t = Some p -> exclusive p = true -> q = Idle \/ q = Reader ->
  lock_inv false false (<[t := q]> ps).
Proof.
  intros [H1 H2 H3 H4 H5 H6] Ht Hp Hq.
  assert (Hno : forall t' p', <[t := q]> ps !! t' = Some p' -> exclusive p' = false).
  { intros t' p' Ht'. split_inserts; [by destruct Hq as [->| ->]|]. destruct (exclusive p') eqn:Hx; [|done]. by assert (t = t') by eauto. }
  assert (Hnw : forall t' p', <[t := q]> ps !! t' = Some p' -> writing p' = false) by (intros t' p' Ht'%Hno; by destruct p').
  split.
  - split; [done|]. intros (t' & p' & Ht' & Hp'). by rewrite (Hnw _ _ Ht') in Hp'.
  - intros t' p' Ht'%Hno Hp'. by destruct Hp' as [->| ->].
  - done.
  - intros t1 t2 p1 p2 E1%Hno E2 X1 X2. congruence.
  - done.
  - intros t' Ht'. split_inserts; [naive_solver|]. by eapply H6.
Qed.

(** A thread enters an exclusive role nobody is in. *)
Lemma lock_inv_acquire ps t q u w :
  lock_inv false false ps -> q = Writer /\ u = false /\ w = true /\ readers ps = 0%nat
    \/ q = Upgrader /\ u = true /\ w = false ->
  lock_inv u w (<[t := q]> ps).
Proof.
  intros [H1 H2 H3 H4 H5 H6] Hq.
  assert (Hnw : forall t' p', ps !! t' = Some p' -> writing p' = false).
  { intros t' p' Ht'. destruct (writing p') eqn:Hp'; [|done]. assert (false = true) by (apply H1; eauto). done. }
  assert (Hno : forall t' p', ps !! t' = Some p' -> exclusive p' = false).
  { intros t' p' Ht'. pose proof (Hnw _ _ Ht'). destruct p'; try done. by apply H2 in Ht'; [|left]. }
  destruct Hq as [(-> & -> & -> & Hr)|(-> & -> & ->)]; split; try done.
  - split; [|done]. intros _. exists t, Writer. by rewrite lookup_insert_eq.
  - intros t' p' Ht' Hp'. split_inserts; [by destruct Hp'|]. match goal with Hx : ps !! t' = Some p' |- _ => apply Hno in Hx end. by destruct Hp' as [->| ->].
  - intros t1 t2 p1 p2 E1 E2 X1 X2. split_inserts; try done; exfalso; match goal with Hx : ps !! _ = Some _ |- _ => apply Hno in Hx end; congruence.
  - intros t' _ Ht'. split_inserts; [done|].
    assert (counts Reader = 0%nat) by (by eapply readers_zero). done.
  - intros t' Ht'. split_inserts; [done|]. by eapply H6.
  - split; [done|]. intros (t' & p' & Ht' & Hp'). split_inserts; [done|]. match goal with Hx : ps !! t' = Some p' |- _ => apply Hnw in Hx end. congruence.
  - intros _. right. exists t. apply lookup_insert_eq.
  - intros t1 t2 p1 p2 E1 E2 X1 X2. split_inserts; try done; exfalso; match goal with Hx : ps !! _ = Some _ |- _ => apply Hno in Hx end; congruence.
  - intros t' Ht'. split_inserts; [done|]. by eapply H6.
Qed.

(** A writer begins to give up its role, with the [WRITER] bit still set. *)
Lemma lock_inv_writing u w ps t p q u' :
  lock_inv u w ps -> ps !! t = Some p -> writing p = true -> writing q = true ->
  u' = u \/ u' = true -> (q = ToUpgrader -> u' = true) -> w = true /\ lock_inv u' w (<[t := q]> ps).
Proof.
  intros [H1 H2 H3 H4 H5 H6] Ht Hp Hq Hu Hu'. assert (Hw : w = true) by (apply H1; eauto). split; [done|].
  assert (Hex : exclusive p = true) by (by destruct p). split.
  - split; [|done]. intros _. exists t, q. by rewrite lookup_insert_eq.
  - intros t' p' Ht' Hp'. split_inserts; [destruct Hp' as [->| ->]; [done|by apply Hu']|]. destruct Hu as [->| ->]; [by eapply H2|done].
  - intros _. by left.
  - intros t1 t2 p1 p2 E1 E2 X1 X2. split_inserts; naive_solver.
  - intros t' _ Ht'. split_inserts; [done|]. by eapply H5.
  - intros t' Ht'. split_inserts; [done|]. by eapply H6.
Qed.
(** A writer that has set the [UPGRADED] bit drops the [WRITER] bit. *)
Lemma lock_inv_drop u w ps t :
  lock_inv u w ps -> ps !! t = Some ToUpgrader -> u = true /\ w = true /\ lock_inv true false (<[t := Upgrader]> ps).
Proof.
  intros [H1 H2 H3 H4 H5 H6] Ht. split; [by eapply H2; [|right]|]. split; [apply H1; by exists t, ToUpgrader|].
  assert (Hno : forall t' p', ps !! t' = Some p' -> t' <> t -> exclusive p' = false).
  { intros t' p' Ht' Hne. destruct (exclusive p') eqn:Hx; [|done]. destruct Hne. by eapply (H4 _ _ p' ToUpgrader). }
  split.
  - split; [done|]. intros (t' & p' & Ht' & Hp'). split_inserts; [done|]. assert (exclusive p' = false) by (by eapply Hno). by destruct p'.
  - done.
  - intros _. right. exists t. apply lookup_insert_eq.
  - intros t1 t2 p1 p2 E1 E2 X1 X2. split_inserts; naive_solver.
  - done.
  - intros t' Ht'. split_inserts; [done|]. by eapply H6.
Qed.

Lemma upgrader_flags u w ps t :
  lock_inv u w ps -> ps !! t = Some Upgrader -> u = true /\ w = false.
Proof.
  intros [H1 H2 _ H4 _ _] Ht. split; [by eapply H2; [|left]|]. destruct w; [|done].
  destruct (proj1 H1 eq_refl) as (t' & p' & Ht' & Hp').
  assert (t = t') as -> by (eapply H4; eauto; by destruct p'). rewrite Ht in Ht'. by simplify_eq.
Qed.

(** Rewrites the word after a change of one thread's role. *)
Ltac word_tac :=
  first [ apply fetch_add_word; unfold word, READER, UPGRADED, WRITER; lia
        | by rewrite ?set_upgraded_word; do 2 f_equal; lia ].

Lemma rw_step_inv s s' :
  rw_step s s' -> Z.of_nat (base.size (pcs s)) < 2 ^ 30 -> rw_inv s -> rw_inv s'.
Proof.
  intros Hst Hsz (u & w & Hb & Hi). unfold rw_inv. simpl in *.
  assert (Hr : Z.of_nat (readers (pcs s)) < 2 ^ 30) by (pose proof (readers_size (pcs s)); lia).
  destruct Hst as [b ps t b' Ht Hc|b ps t Ht|b ps t ok b' Ht Hc|b ps t Ht|b ps t Ht
    |b ps t ok b' Ht Hc|b ps t Ht|b ps t b' Ht Hc|b ps t Ht|b ps t Ht|b ps t Ht|b ps t Ht|b ps t Ht]; simpl in *; subst b;
    match goal with |- context [<[t := ?q]> ps] =>
      pose proof (readers_insert ps t _ q Ht) as Hri; simpl in Hri end.
  - unfold rw_try_lock in Hc. destruct (Z.eqb_spec (i32 (word (readers ps) u w)) 0) as [E|]; [|done].
    apply word_zero in E as (Hr0 & -> & ->); [|done]. simplify_eq. exists false, true.
    split; [by replace (readers _) with 0%nat by lia|]. apply lock_inv_acquire; auto.
  - rewrite unlock_word. exists false, false. split; [do 2 f_equal; lia|].
    eapply lock_inv_release; eauto.
  - unfold try_lock_shared_acquire in Hc. rewrite low_mask in Hc. simplify_eq.
    exists u, w. destruct (Z.eqb_spec (low u w) 0) as [E|E]; simpl in Hri.
    + split; [word_tac|]. eapply lock_inv_shared; eauto; try done. intros _. by destruct u, w.
    + split; [word_tac|]. eapply lock_inv_shared; eauto; done.
  - exists u, w. split; [word_tac|]. eapply lock_inv_shared; eauto; done.
  - exists u, w. split; [word_tac|]. eapply lock_inv_shared; eauto; done.
  - unfold try_lock_upgrade in Hc. rewrite low_mask', set_upgraded_word in Hc. simplify_eq.
    destruct (Z.eqb_spec (low u w) 0) as [E|E]; simpl in Hri.
    + assert (u = false /\ w = false) as [-> ->] by (by destruct u, w).
      exists true, false. split; [do 2 f_equal; lia|]. apply lock_inv_acquire; auto.
    + exists true, w. split; [do 2 f_equal; lia|]. rewrite insert_id by done.
      assert (Hx : u = true \/ w = true) by (destruct u, w; auto).
      destruct Hi as [H1 H2 H3 H4 H5 H6]. split; auto. intros _.
      destruct Hx as [->| ->]; auto.
  - exists false, false. destruct (upgrader_flags u w ps t Hi Ht) as [-> ->].
    split; [word_tac|]. eapply lock_inv_release; eauto.
  - unfold try_unlock_upgrade_and_lock in Hc.
    destruct (Z.eqb_spec (i32 (word (readers ps) u w)) UPGRADED) as [E|]; [|done].
    apply word_upgraded in E as (Hr0 & -> & ->); [|done]. simplify_eq. exists false, true.
    split; [by replace (readers _) with 0%nat by lia|].
    rewrite <- (insert_insert_eq ps t Writer Idle). apply lock_inv_acquire.
    + eapply lock_inv_release; eauto.
    + left. repeat split. pose proof (readers_insert ps t _ Idle Ht). simpl in *. lia.
  - exists false, false. destruct (upgrader_flags u w ps t Hi Ht) as [-> ->].
    split; [word_tac|]. eapply lock_inv_release; eauto.
  - destruct (lock_inv_writing u w ps t Writer ToReader u Hi Ht eq_refl eq_refl) as [-> Hi']; [by left|done|].
    exists u, true. split; [word_tac|done].
  - rewrite unlock_word. exists false, false. split; [do 2 f_equal; lia|]. eapply lock_inv_release; eauto.
  - destruct (lock_inv_writing u w ps t Writer ToUpgrader true Hi Ht eq_refl eq_refl) as [-> Hi']; [by right|done|].
    exists true, true. split; [|done]. unfold unlock_and_lock_upgrade_mark. rewrite set_upgraded_word. do 2 f_equal. lia.
  - destruct (lock_inv_drop u w ps t Hi Ht) as (-> & -> & Hi'). exists true, false. split; [word_tac|done].
Qed.

Lemma step_size s s' : rw_step s s' -> base.size (pcs s') = base.size (pcs s).
Proof.
  intros []; simpl; apply map_size_insert_Some; eauto.
Qed.

Lemma rw_reachable_inv s0 s :
  rw_initial s0 -> Z.of_nat (base.size (pcs s0)) < 2 ^ 30 -> rtc rw_step s0 s -> rw_inv s.
Proof.
  intros Hi Hsz Hr. apply rw_initial_inv in Hi. induction Hr as [|s0 s1 s Hs Hr IH]; [done|].
  apply IH; [by eapply rw_step_inv|by rewrite (step_size _ _ Hs)].
Qed.

End RWSpinLock.

(** ** [OptimisticLock] *)
Module OptimisticLock.

(** The word is [_version], a [std::uint32_t] that starts at [0b100]. *)
Definition opt_init : Z := 4.
Definition opt_is_locked (version : Z) : bool := Z.land version 2 =? 2.
(** One turn of [read_valid()]: it returns the version unless it is locked. *)
Definition read_valid (word : Z) : option Z := if opt_is_locked word then None else Some word.
Definition is_valid (word version : Z) : bool := version =? word.
(** The compare-exchange of [try_lock()], given the version it read. *)
Definition opt_try_lock (word version : Z) : bool * Z :=
  if word =? version then (true, u32 (version + 2)) else (false, word).
Definition opt_unlock (word : Z) : Z := u32 (word + 2).

Section Protocol.
Context {D : Type}.

(** A thread is idle, holds a version it read in [lock()] or at the start of an
    optimistic read (with the lock cycle in which it read it and what it has seen
    of the protected data since), or is inside the lock. *)
Inductive opt_pc : Type :=
  | Idle
  | Acquiring (version : Z)
  | Holding
  | Reading (version cycle : Z) (seen : list D).

(** [cycles] counts the completed lock/unlock pairs. *)
Record opt_state : Type := mkState { word : Z; data : D; cycles : Z; pcs : gmap positive opt_pc }.

Inductive opt_step : opt_state -> opt_state -> Prop :=
  | step_lock_read w d c ps t v : ps !! t = Some Idle -> read_valid w = Some v ->
      opt_step (mkState w d c ps) (mkState w d c (<[t := Acquiring v]> ps))
  | step_lock_cas w d c ps t v ok w' : ps !! t = Some (Acquiring v) -> opt_try_lock w v = (ok, w') ->
      opt_step (mkState w d c ps) (mkState w' d c (<[t := if ok then Holding else Idle]> ps))
  | step_write w d d' c ps t : ps !! t = Some Holding ->
      opt_step (mkState w d c ps) (mkState w d' c ps)
  | step_unlock w d c ps t : ps !! t = Some Holding ->
      opt_step (mkState w d c ps) (mkState (opt_unlock w) d (c + 1) (<[t := Idle]> ps))
  | step_read_begin w d c ps t v : ps !! t = Some Idle -> read_valid w = Some v ->
      opt_step (mkState w d c ps) (mkState w d c (<[t := Reading v c []]> ps))
  | step_read w d c ps t v c0 seen : ps !! t = Some (Reading v c0 seen) ->
      opt_step (mkState w d c ps) (mkState w d c (<[t := Reading v c0 (d :: seen)]> ps))
  | step_read_end w d c ps t v c0 seen : ps !! t = Some (Reading v c0 seen) ->
      opt_step (mkState w d c ps) (mkState w d c (<[t := Idle]> ps)).

Definition opt_initial (s : opt_state) : Prop :=
  word s = opt_init /\ cycles s = 0 /\ forall t p, pcs s !! t = Some p -> p = Idle.

Definition held (ps : gmap positive opt_pc) : Prop := exists t, ps !! t = Some Holding.

(** The version word after [c] lock cycles. *)
Definition version_at (c : Z) (locked : bool) : Z := u32 (4 + 4 * c + if locked then 2 else 0).

(** What the invariant says of one thread; a reader's sightings are vouched for
    as long as no lock cycle began after it read its version. *)
Definition pc_inv (h : Prop) (d : D) (c : Z) (p : opt_pc) : Prop :=
  match p with
  | Idle | Holding => True
  | Acquiring v => exists c', v = version_at c' false
  | Reading v c' seen => 0 <= c' <= c /\ v = version_at c' false
      /\ (c = c' -> ~ h -> Forall (fun x => x = d) seen)
  end.

Record opt_inv (s : opt_state) : Prop := {
  inv_cycles : 0 <= cycles s;
  inv_word : exists b, word s = version_at (cycles s) b /\ (b = true <-> held (pcs s));
  inv_one : forall t1 t2, pcs s !! t1 = Some Holding -> pcs s !! t2 = Some Holding -> t1 = t2;
  inv_pcs : forall t p, pcs s !! t = Some p -> pc_inv (held (pcs s)) (data s) (cycles s) p }.

Lemma u32_split r a : 0 <= a < 4 -> u32 (4 * r + a) = 4 * (r mod 2 ^ 30) + a.
Proof.
  intros Ha. unfold u32, wrap. change (2 ^ 32) with (4 * 2 ^ 30).
  replace (4 * r + a) with (a + r * 4) by lia. rewrite Z.rem_mul_r by lia.
  rewrite Z.mod_add, Z.div_add, Z.mod_small, Z.div_small by lia. rewrite Z.add_0_l. lia.
Qed.

Lemma version_at_word c b : 0 <= (if b : bool then 2 else 0) < 4 /\
  version_at c b = 4 * ((1 + c) mod 2 ^ 30) + if b then 2 else 0.
Proof.
  assert (Hb : 0 <= (if b then 2 else 0) < 4) by (destruct b; lia). split; [done|].
  unfold version_at. rewrite <- u32_split by done. f_equal. lia.
Qed.

Lemma is_locked_version c b : opt_is_locked (version_at c b) = b.
Proof.
  destruct (version_at_word c b) as [Hb ->]. unfold opt_is_locked.
  change 2 with (Z.land 3 2) at 3. rewrite Z.land_assoc, RWSpinLock.land3 by done.
  by destruct b.
Qed.

Lemma version_at_inj c1 c2 b1 b2 :
  version_at c1 b1 = version_at c2 b2 -> b1 = b2 /\ (c1 mod 2 ^ 30 = c2 mod 2 ^ 30).
Proof.
  intros H. assert (b1 = b2) as -> by (rewrite <- (is_locked_version c1 b1), H; apply is_locked_version).
  split; [done|]. destruct (version_at_word c1 b2) as [_ E1], (version_at_word c2 b2) as [_ E2].
  rewrite E1, E2 in H. assert (Hm : (1 + c1) mod 2 ^ 30 = (1 + c2) mod 2 ^ 30) by lia.
  replace c1 with (1 + c1 - 1) by lia. replace c2 with (1 + c2 - 1) by lia.
  by rewrite Zminus_mod, Hm, <- Zminus_mod.
Qed.

Lemma version_lock c : u32 (version_at c false + 2) = version_at c true.
Proof.
  unfold version_at, u32, wrap. rewrite Z.add_mod_idemp_l by done. f_equal. lia.
Qed.
Lemma version_unlock c : opt_unlock (version_at c true) = version_at (c + 1) false.
Proof.
  unfold opt_unlock, version_at, u32, wrap. rewrite Z.add_mod_idemp_l by done. f_equal. lia.
Qed.

Lemma opt_initial_inv s : opt_initial s -> opt_inv s.
Proof.
  intros (Hw & Hc & Hi). split.
  - lia.
  - exists false. split; [by rewrite Hw, Hc|]. split; [done|]. intros [t Ht]. by apply Hi in Ht.
  - intros t1 t2 H1. by apply Hi in H1.
  - intros t p Ht. by rewrite (Hi _ _ Ht).
Qed.

Lemma held_insert ps t p q :
  ps !! t = Some p -> p <> Holding -> q <> Holding -> held (<[t := q]> ps) <-> held ps.
Proof.
  intros Ht Hp Hq. split; intros [u Hu]; exists u.
  - apply lookup_insert_Some in Hu as [[??]|[??]]; by subst.
  - rewrite lookup_insert_ne; [done|]. congruence.
Qed.

(** A thread moves outside the critical section. *)
Lemma opt_inv_move w d c ps t p q :
  opt_inv (mkState w d c ps) -> ps !! t = Some p -> p <> Holding -> q <> Holding ->
  pc_inv (held ps) d c q -> opt_inv (mkState w d c (<[t := q]> ps)).
Proof.
  intros [H0 (b & Hw & Hb) H1 H2] Ht Hp Hq Hok. simpl in *.
  assert (Hh := held_insert ps t p q Ht Hp Hq). split; simpl.
  - done.
  - exists b. by rewrite Hh.
  - intros t1 t2 [[??]|[??]]%lookup_insert_Some [[??]|[??]]%lookup_insert_Some; subst; eauto; done.
  - intros t' p' [[??]|[??]]%lookup_insert_Some; subst.
    + destruct p'; simpl in *; try done. by rewrite Hh.
    + assert (Hx : pc_inv (held ps) d c p') by eauto. destruct p'; simpl in *; try done. by rewrite Hh.
Qed.

(** Readers that started before the lock was taken vouch for nothing. *)
Lemma pc_inv_held (h h' : Prop) d d' c p : h' -> pc_inv h d c p -> pc_inv h' d' c p.
Proof. intros Hh. destruct p; simpl; tauto. Qed.

Lemma opt_step_inv s s' : opt_step s s' -> opt_inv s -> opt_inv s'.
Proof.
  intros Hst Hi. pose proof Hi as [H0 (b & Hw & Hb) H1 H2].
  destruct Hst as [w d c ps t v Ht Hr|w d c ps t v ok w' Ht Hc|w d d' c ps t Ht|w d c ps t Ht
    |w d c ps t v Ht Hr|w d c ps t v c0 seen Ht|w d c ps t v c0 seen Ht]; simpl in *; subst w.
  - unfold read_valid in Hr. rewrite is_locked_version in Hr. destruct b; [done|]. simplify_eq.
    eapply opt_inv_move; eauto; try done. by exists c.
  - unfold opt_try_lock in Hc. destruct (Z.eqb_spec (version_at c b) v) as [E|E]; simplify_eq.
    + destruct (H2 _ _ Ht) as [c' E']. apply version_at_inj in E' as [-> _].
      assert (Hno : ~ held ps) by (rewrite <- Hb; done). rewrite version_lock.
      assert (Hh : held (<[t := Holding]> ps)) by (exists t; apply lookup_insert_eq).
      split; simpl; [done|by exists true| |].
      * intros t1 t2 [[??]|[??]]%lookup_insert_Some [[??]|[??]]%lookup_insert_Some; subst; eauto;
          exfalso; apply Hno; eexists; eauto.
      * intros t' p' [[??]|[??]]%lookup_insert_Some; subst; [done|]. eapply pc_inv_held; eauto.
    + eapply opt_inv_move; eauto; done.
  - split; simpl; eauto. intros t' p' Ht'. eapply pc_inv_held; [by eexists|eauto].
  - assert (b = true) as -> by (apply Hb; by eexists). rewrite version_unlock.
    assert (Hno : ~ held (<[t := Idle]> ps)).
    { intros [u [[??]|[? Hu]]%lookup_insert_Some]; [done|]. by rewrite (H1 _ _ Hu Ht) in *. }
    split; simpl; [lia| | |].
    + exists false. naive_solver.
    + intros t1 t2 E1. exfalso. apply Hno. by eexists.
    + intros t' p' [[??]|[??]]%lookup_insert_Some; subst; [done|].
      assert (Hx : pc_inv (held ps) d c p') by eauto. destruct p'; simpl in *; try done.
      destruct Hx as (? & ? & _). split; [lia|]. split; [done|]. lia.
  - unfold read_valid in Hr. rewrite is_locked_version in Hr. destruct b; [done|]. simplify_eq.
    apply (opt_inv_move _ _ _ _ _ Idle); [done..|]. simpl. split; [lia|]. auto.
  - apply (opt_inv_move _ _ _ _ _ (Reading v c0 seen)); [done..|].
    destruct (H2 _ _ Ht) as (? & ? & Hs). simpl.
    split; [done|]. split; [done|]. intros Hcc Hh. constructor; auto.
  - eapply opt_inv_move; eauto; done.
Qed.

Lemma opt_reachable_inv s0 s : opt_initial s0 -> rtc opt_step s0 s -> opt_inv s.
Proof. intros Hi Hr. apply opt_initial_inv in Hi. induction Hr; eauto using opt_step_inv. Qed.

End Protocol.
Arguments opt_state D : clear implicits.
Arguments opt_pc D : clear implicits.
End OptimisticLock.

(** ** The latch of a node, as [latched::ThreadTree] uses it *)

(** [lock<true>], [unlock<true>], [lock<false>], [upgrade_lock] and [unlock<false>];
    an acquisition that has to go on spinning is [None]. *)
Class NodeLatch := {
  latch : Type;
  latch_init : latch;
  lock_shared : latch -> option latch;
  unlock_shared : latch -> latch;
  lock_exclusive : latch -> option latch;
  upgrade_lock : latch -> option latch;
  unlock_exclusive : latch -> latch }.

(** What the tree relies on when it runs alone: from a quiet latch it gets in, up
    and out again. *)
Class NodeLatchLaws (NL : NodeLatch) := {
  quiet : latch -> Prop;
  shared : latch -> Prop;
  upgraded : latch -> Prop;
  quiet_init : quiet latch_init;
  quiet_lock : forall x, quiet x -> exists y, lock_shared x = Some y /\ shared y;
  shared_unlock : forall x, shared x -> quiet (unlock_shared x);
  shared_upgrade : forall x, shared x -> exists y, upgrade_lock x = Some y /\ upgraded y;
  upgraded_unlock : forall x, upgraded x -> quiet (unlock_exclusive x) }.

(** [blinktree_thread_spinlock]: [SpinlockedNodeBase]; there is nothing to upgrade. *)
#[export] Instance spinlock_latch : NodeLatch := {
  latch := bool;
  latch_init := Spinlock.spin_init;
  lock_shared f := if Spinlock.load f then None else Some (Spinlock.cas_weak false f).2;
  unlock_shared := Spinlock.spin_unlock;
  lock_exclusive f := if Spinlock.load f then None else Some (Spinlock.cas_weak false f).2;
  upgrade_lock f := Some f;
  unlock_exclusive := Spinlock.spin_unlock }.

(** [blinktree_thread_rwlock]: [RWLockedNodeBase]. *)
Definition acquired {A} (r : bool * A) : option A := if r.1 then Some r.2 else None.
#[export] Instance rw_latch : NodeLatch := {
  latch := Z;
  latch_init := RWSpinLock.rw_init;
  lock_shared b := acquired (RWSpinLock.try_lock_shared b);
  unlock_shared := RWSpinLock.unlock_shared;
  lock_exclusive b := acquired (RWSpinLock.rw_try_lock b);
  upgrade_lock b := acquired (RWSpinLock.try_lock_upgrade b);
  unlock_exclusive := RWSpinLock.rw_unlock }.

#[export] Instance spinlock_latch_laws : NodeLatchLaws spinlock_latch.
Proof.
  apply (Build_NodeLatchLaws spinlock_latch (fun f => f = false) (fun f => f = true) (fun f => f = true)).
  all: simpl; try done.
  - intros x ->. eauto.
  - eauto.
Defined.

(** Leaving a modified node keeps the reader registered by [lock_shared]: the
    flag bits come back clear but the reader count does not. *)
#[export] Instance rw_latch_laws : NodeLatchLaws rw_latch.
Proof.
  apply (Build_NodeLatchLaws rw_latch
    (fun b => exists r, b = i32 (RWSpinLock.word r false false))
    (fun b => exists r, b = i32 (RWSpinLock.word (S r) false false))
    (fun b => exists r, b = i32 (RWSpinLock.word (S r) true false))).
  - by exists 0%nat.
  - intros x [r ->]. simpl. unfold RWSpinLock.try_lock_shared, RWSpinLock.try_lock_shared_acquire.
    rewrite RWSpinLock.low_mask. eexists. split; [reflexivity|]. exists r.
    apply RWSpinLock.fetch_add_word. unfold RWSpinLock.word, RWSpinLock.READER. lia.
  - intros x [r ->]. exists r. apply RWSpinLock.fetch_add_word.
    unfold RWSpinLock.word, RWSpinLock.READER. lia.
  - intros x [r ->]. simpl. unfold RWSpinLock.try_lock_upgrade. rewrite RWSpinLock.low_mask'.
    eexists. split; [reflexivity|]. exists r. apply RWSpinLock.set_upgraded_word.
  - intros x [r ->]. exists (S r). apply RWSpinLock.unlock_word.
Defined.
