(* ===== verification/LockClaims.v ===== *)
(** * What the latches guarantee

    The properties of [Spinlock], [RWSpinLock] and [OptimisticLock] over all their
    interleavings, with runs that reach the states they speak about. *)

From S2P Require Import Prelude Locks.

(** ** Exclusion *)

(** C26: in every execution of any number of threads on a [Spinlock], at most one
    thread is between [lock()] and [unlock()]. *)
Theorem spinlock_mutual_exclusion s0 s t1 t2 :
  Spinlock.spin_initial s0 -> rtc Spinlock.spin_step s0 s ->
  Spinlock.pcs s !! t1 = Some Spinlock.Holding -> Spinlock.pcs s !! t2 = Some Spinlock.Holding -> t1 = t2.
Proof.
  intros Hi Hr. apply (Spinlock.inv_unique _ (Spinlock.spin_reachable_inv s0 s Hi Hr)).
Qed.

(** C27: a thread that holds a [RWSpinLock] exclusively, from [lock] or
    [unlock_upgrade_and_lock] until the last access of [unlock], [unlock_and_lock_shared] or
    [unlock_and_lock_upgrade], excludes every reader, every upgrader and every other writer,
    in every execution of fewer than 2^30 threads that keep to the roles of the lock; a thread
    that is upgrading excludes every other upgrader and writer. *)
Theorem rw_writer_excludes s0 s t1 t2 p1 p2 :
  RWSpinLock.rw_initial s0 -> Z.of_nat (base.size (RWSpinLock.pcs s0)) < 2 ^ 30 ->
  rtc RWSpinLock.rw_step s0 s ->
  RWSpinLock.pcs s !! t1 = Some p1 -> RWSpinLock.pcs s !! t2 = Some p2 -> t1 <> t2 ->
  (RWSpinLock.writing p1 = true -> p2 = RWSpinLock.Idle \/ p2 = RWSpinLock.Retreating)
  /\ (p1 = RWSpinLock.Upgrader -> p2 = RWSpinLock.Idle \/ p2 = RWSpinLock.Retreating \/ p2 = RWSpinLock.Reader).
Proof.
  intros Hi Hsz Hr H1 H2 Hne.
  destruct (RWSpinLock.rw_reachable_inv s0 s Hi Hsz Hr) as (u & w & _ & [Hw _ _ Hone Hnr Hleg]).
  assert (Hno : RWSpinLock.exclusive p1 = true -> RWSpinLock.exclusive p2 = false).
  { intros Hp1. destruct (RWSpinLock.exclusive p2) eqn:Hp2; [|done]. destruct Hne. by eapply Hone. }
  assert (Hl : p2 <> RWSpinLock.ReaderUpgraded) by (intros ->; by eapply Hleg). split.
  - intros Hp1. assert (Hw1 : w = true) by (apply Hw; eauto). assert (Hx : RWSpinLock.exclusive p1 = true) by (by destruct p1). specialize (Hno Hx).
    assert (p2 <> RWSpinLock.Reader) by (intros ->; by eapply Hnr). destruct p2; auto; done.
  - intros ->. specialize (Hno eq_refl). destruct p2; auto; done.
Qed.

(** The way [latched::ThreadTree] uses the reader-writer lock does not exclude
    readers: [upgrade_lock] maps to [lock_upgrade], which succeeds next to a second
    reader, so a thread may modify a node while another one reads it. *)
Theorem tree_latch_admits_reader_beside_modifier :
  exists s0 s, RWSpinLock.rw_initial s0 /\ rtc RWSpinLock.tree_step s0 s
    /\ RWSpinLock.pcs s !! 1%positive = Some RWSpinLock.ReaderUpgraded
    /\ RWSpinLock.pcs s !! 2%positive = Some RWSpinLock.Reader.
Proof.
  exists (RWSpinLock.mkState 0 {[ 1%positive := RWSpinLock.Idle; 2%positive := RWSpinLock.Idle ]}).
  eexists. split; [split; [done|]|].
  { simpl. intros t p [[_ <-]|[_ [_ <-]%lookup_singleton_Some]]%lookup_insert_Some; done. }
  split; [|split].
  - eapply rtc_l; [by eapply (RWSpinLock.tree_lock_shared _ _ 1%positive)|].
    eapply rtc_l; [by eapply (RWSpinLock.tree_lock_shared _ _ 2%positive)|].
    eapply rtc_l; [by eapply (RWSpinLock.tree_upgrade _ _ 1%positive)|]. apply rtc_refl.
  - reflexivity.
  - reflexivity.
Qed.

(** [unlock<false>] after an upgrade forgets the reader that [lock<true>] added, so
    every modification of a node leaves one more reader in its latch; from then on no
    thread can take the lock exclusively. *)
Theorem tree_latch_leaks_reader r :
  Z.of_nat r + 1 < 2 ^ 30 ->
  exists b1 b2, RWSpinLock.try_lock_shared (i32 (RWSpinLock.word r false false)) = (true, b1)
    /\ RWSpinLock.try_lock_upgrade b1 = (true, b2)
    /\ RWSpinLock.rw_unlock b2 = i32 (RWSpinLock.word (S r) false false)
    /\ RWSpinLock.rw_try_lock (RWSpinLock.rw_unlock b2) = (false, RWSpinLock.rw_unlock b2).
Proof.
  intros Hr. unfold RWSpinLock.try_lock_shared, RWSpinLock.try_lock_shared_acquire, RWSpinLock.try_lock_upgrade.
  rewrite RWSpinLock.low_mask. eexists _, _. split; [reflexivity|].
  rewrite (RWSpinLock.fetch_add_word r false false _ (S r) false false)
    by (unfold RWSpinLock.word, RWSpinLock.READER; lia).
  rewrite RWSpinLock.low_mask'. split; [reflexivity|].
  rewrite RWSpinLock.set_upgraded_word, RWSpinLock.unlock_word. split; [done|].
  unfold RWSpinLock.rw_try_lock. destruct (Z.eqb_spec (i32 (RWSpinLock.word (S r) false false)) 0) as [E|E]; [|done].
  apply RWSpinLock.word_zero in E; lia.
Qed.

(** C28: an optimistic read is consistent.  A reader of an [OptimisticLock] whose final
    [is_valid] succeeds has seen one single state of the protected data throughout,
    namely the current one, unless 2^30 lock cycles have completed in the meantime. *)
Theorem optimistic_read_consistent {D} (s0 s : OptimisticLock.opt_state D) t v c seen :
  OptimisticLock.opt_initial s0 -> rtc OptimisticLock.opt_step s0 s ->
  OptimisticLock.pcs s !! t = Some (OptimisticLock.Reading v c seen) ->
  OptimisticLock.is_valid (OptimisticLock.word s) v = true ->
  OptimisticLock.cycles s - c < 2 ^ 30 ->
  Forall (fun d => d = OptimisticLock.data s) seen.
Proof.
  intros Hi Hr Ht Hv Hc. pose proof (OptimisticLock.opt_reachable_inv s0 s Hi Hr) as [H0 (b & Hw & Hb) _ Hp].
  destruct (Hp _ _ Ht) as (Hcc & -> & Hseen). unfold OptimisticLock.is_valid in Hv.
  apply Z.eqb_eq in Hv. rewrite Hw in Hv. apply OptimisticLock.version_at_inj in Hv as [Hbf Hmod].
  subst b.
  apply Hseen; [|by intros Hh%Hb].
  assert (Hz : (OptimisticLock.cycles s - c) mod 2 ^ 30 = 0).
  { by rewrite Zminus_mod, <- Hmod, Z.sub_diag. }
  rewrite Z.mod_small in Hz; lia.
Qed.

(** The bound is sharp.  After exactly 2^30 lock cycles the version word has
    returned to its value, and a reader that spans them is told its read is valid. *)
Theorem optimistic_version_wraps c :
  OptimisticLock.is_valid (OptimisticLock.version_at (c + 2 ^ 30) false) (OptimisticLock.version_at c false) = true.
Proof.
  apply Z.eqb_eq. unfold OptimisticLock.version_at, u32, wrap.
  replace (4 + 4 * (c + 2 ^ 30) + 0) with (4 + 4 * c + 0 + 1 * 2 ^ 32) by lia. by rewrite Z_mod_plus_full.
Qed.

(** ** Runs *)
Module LockExamples.

Lemma spinlock_mutual_exclusion_witness :
  exists s, rtc Spinlock.spin_step (Spinlock.mkState false {[ 1%positive := Spinlock.Idle; 2%positive := Spinlock.Idle ]}) s
    /\ Spinlock.pcs s !! 1%positive = Some Spinlock.Holding
    /\ forall t, Spinlock.pcs s !! t = Some Spinlock.Holding -> 1%positive = t.
Proof.
  eexists. split; [|split].
  - eapply rtc_l; [by eapply (Spinlock.step_call _ _ 1%positive)|].
    eapply rtc_l; [by eapply (Spinlock.step_seen _ _ 1%positive)|].
    eapply rtc_l; [by eapply (Spinlock.step_cas _ _ 1%positive false)|]. apply rtc_refl.
  - reflexivity.
  - intros t Ht.
    eapply (spinlock_mutual_exclusion
      (Spinlock.mkState false {[ 1%positive := Spinlock.Idle; 2%positive := Spinlock.Idle ]})); [| | |exact Ht].
    + split; [done|]. simpl. intros u p [[_ <-]|[_ [_ <-]%lookup_singleton_Some]]%lookup_insert_Some; done.
    + eapply rtc_l; [by eapply (Spinlock.step_call _ _ 1%positive)|].
      eapply rtc_l; [by eapply (Spinlock.step_seen _ _ 1%positive)|].
      eapply rtc_l; [by eapply (Spinlock.step_cas _ _ 1%positive false)|]. apply rtc_refl.
    + reflexivity.
Defined.

(** A writer in the middle of its downgrade, beside a reader that has to retreat. *)
Lemma rw_writer_excludes_witness :
  exists s, RWSpinLock.pcs s !! 1%positive = Some RWSpinLock.ToReader
    /\ forall p, RWSpinLock.pcs s !! 2%positive = Some p -> p = RWSpinLock.Idle \/ p = RWSpinLock.Retreating.
Proof.
  set (s0 := RWSpinLock.mkState 0 {[ 1%positive := RWSpinLock.Idle; 2%positive := RWSpinLock.Idle ]}).
  assert (Hrun : exists s, rtc RWSpinLock.rw_step s0 s /\ RWSpinLock.pcs s !! 1%positive = Some RWSpinLock.ToReader).
  { eexists. split.
    - eapply rtc_l; [by eapply (RWSpinLock.step_lock_upgrade _ _ 1%positive)|].
      eapply rtc_l; [by eapply (RWSpinLock.step_upgrade_to_writer _ _ 1%positive)|].
      eapply rtc_l; [by eapply (RWSpinLock.step_lock_shared _ _ 2%positive)|].
      eapply rtc_l; [by eapply (RWSpinLock.step_to_reader_count _ _ 1%positive)|]. apply rtc_refl.
    - reflexivity. }
  destruct Hrun as (s & Hr & H1). exists s. split; [exact H1|]. intros p H2.
  apply (rw_writer_excludes s0 s 1%positive 2%positive RWSpinLock.ToReader p); try done.
  split; [done|]. simpl. intros u q [[_ <-]|[_ [_ <-]%lookup_singleton_Some]]%lookup_insert_Some; done.
Defined.

Lemma tree_latch_leaks_reader_witness :
  exists b1 b2, RWSpinLock.try_lock_shared (i32 (RWSpinLock.word 0 false false)) = (true, b1)
    /\ RWSpinLock.try_lock_upgrade b1 = (true, b2)
    /\ RWSpinLock.rw_unlock b2 = i32 (RWSpinLock.word 1 false false)
    /\ RWSpinLock.rw_try_lock (RWSpinLock.rw_unlock b2) = (false, RWSpinLock.rw_unlock b2).
Proof. apply (tree_latch_leaks_reader 0). lia. Defined.

(** A reader that has seen the data twice, while a second thread waits. *)
Lemma optimistic_read_consistent_witness :
  exists s : OptimisticLock.opt_state Z, exists v c,
    OptimisticLock.pcs s !! 1%positive = Some (OptimisticLock.Reading v c [7; 7])
    /\ Forall (fun d => d = OptimisticLock.data s) [7; 7].
Proof.
  set (s0 := OptimisticLock.mkState 4 7 0 {[ 1%positive := OptimisticLock.Idle; 2%positive := OptimisticLock.Idle ]}).
  assert (Hrun : exists s, rtc OptimisticLock.opt_step s0 s
    /\ OptimisticLock.pcs s !! 1%positive = Some (OptimisticLock.Reading 4 0 [7; 7])
    /\ OptimisticLock.word s = 4 /\ OptimisticLock.cycles s = 0).
  { eexists. split; [|split].
    - eapply rtc_l; [by eapply (OptimisticLock.step_read_begin _ _ _ _ 1%positive)|].
      eapply rtc_l; [by eapply (OptimisticLock.step_read _ _ _ _ 1%positive)|].
      eapply rtc_l; [by eapply (OptimisticLock.step_lock_read _ _ _ _ 2%positive)|].
      eapply rtc_l; [by eapply (OptimisticLock.step_read _ _ _ _ 1%positive)|]. apply rtc_refl.
    - reflexivity.
    - done. }
  destruct Hrun as (s & Hr & Ht & Hw & Hc). exists s, 4, 0. split; [exact Ht|].
  apply (optimistic_read_consistent s0 s 1%positive 4 0); try done.
  - split; [done|]. split; [done|]. simpl.
    intros u q [[_ <-]|[_ [_ <-]%lookup_singleton_Some]]%lookup_insert_Some; done.
  - by rewrite Hw.
  - rewrite Hc. lia.
Defined.

End LockExamples.
