(* ===== verification/BlinkInv.v ===== *)
(** * The B-link invariant

    A node of a B-link tree covers a half-open key range.  Its upper end is the
    node's [high_key]; its lower end is implicit in the code and fixed for the life
    of the node, like its level.  [layout] makes both explicit.  [tree_inv] is local
    (each node against the recorded ranges of its sibling and children), so it
    survives in the middle of an insertion, when a new node is reachable through its
    left sibling only.  Then: what the heap stores as a finite map, and that the
    heap updates of the tree operations preserve the invariant. *)

From S2P Require Import Prelude Node Tree TreeFacts.

(** Lower bound and level (leaves are level 0) of every allocated node. *)
Abbreviation layout := (gmap loc (Z * nat)).

(** The pairs a leaf stores, and the pairs and the map a heap of nodes stores. *)
Definition leaf_entries (n : Node) : list (Z * Z) :=
  match payload n with
  | LeafNode ks vs => zip (take (Z.to_nat (size n)) ks) (take (Z.to_nat (size n)) vs)
  | InnerNode _ _ => []
  end.
Abbreviation entry := (stored leaf_entries).
Abbreviation contents := (stored_map leaf_entries).

Section Invariant.
Context {PF : Platform} {PFok : PlatformOk}.

(** ** Definitions *)
Definition live_keys (n : Node) : list Z := take (Z.to_nat (size n)) (node_keys n).

Definition leaf_inv (n : Node) (lo : Z) : Prop :=
  exists ks kt vs vt, leaf_shape n ks kt vs vt /\ ksorted ks
    /\ Forall (fun k => lo <= k < high_key n) ks.

(** Child [i] of an inner node starts where key [i - 1] says. *)
Definition child_at (G : layout) (lv : nat) (p : ptr) (b : Z) : Prop :=
  exists c, p = Some c /\ G !! c = Some (b, lv).
Definition inner_inv (G : layout) (n : Node) (lo : Z) (lv : nat) : Prop :=
  exists ks kt ss st, inner_shape n ks kt ss st /\ ksorted (lo :: ks)
    /\ Forall (fun k => k < high_key n) ks /\ Forall2 (child_at G lv) ss (lo :: ks).

Definition sibling_inv (G : layout) (n : Node) (lv : nat) : Prop :=
  match right_sibling n with
  | None => high_key n = max_u64
  | Some r => G !! r = Some (high_key n, lv)
  end.

Record node_inv (G : layout) (n : Node) (lo : Z) (lv : nat) : Prop := {
  ni_range : 0 <= lo < high_key n /\ high_key n <= max_u64;
  ni_sibling : sibling_inv G n lv;
  ni_body : match lv with O => leaf_inv n lo | S lv' => inner_inv G n lo lv' end }.

Record heap_inv (G : layout) (h : gmap loc Node) : Prop := {
  hi_dom : forall l, is_Some (G !! l) <-> is_Some (h !! l);
  hi_node : forall l n lo lv, h !! l = Some n -> G !! l = Some (lo, lv) -> node_inv G n lo lv;
  hi_disjoint : forall l1 l2 lo1 lo2 lv n1, l1 <> l2 ->
    G !! l1 = Some (lo1, lv) -> G !! l2 = Some (lo2, lv) -> h !! l1 = Some n1 ->
    lo1 <= lo2 -> high_key n1 <= lo2 }.

(** Half of the capacity of a node. *)
Definition half (lv : nat) : Z := match lv with O => max_items / 2 | S _ => max_keys / 2 end.
(** A node is at least half full, unless it is the only one of its level; an inner node
    has at least one key. *)
Record fill_inv (G : layout) (h : gmap loc Node) : Prop := {
  fi_half : forall l n lo lv, h !! l = Some n -> G !! l = Some (lo, lv) ->
    half lv <= size n \/ forall l' lo', G !! l' = Some (lo', lv) -> l' = l;
  fi_inner : forall l n lo lv, h !! l = Some n -> G !! l = Some (lo, S lv) -> 1 <= size n }.
(** The parent pointer leads to the level above, at or left of the actual parent; only
    the nodes of the topmost level have none. *)
Definition parent_inv (G : layout) (n : Node) (lo : Z) (lv : nat) : Prop :=
  match parent n with
  | Some p => exists lop, G !! p = Some (lop, S lv) /\ lop <= lo
  | None => forall l lo' lv', G !! l = Some (lo', lv') -> (lv' <= lv)%nat
  end.

(** The root spans the whole key space at the topmost level. *)
Record tree_inv (G : layout) (s : TreeState) : Prop := {
  ti_fill : fill_inv G (heap s);
  ti_parent : forall l n lo lv, heap s !! l = Some n -> G !! l = Some (lo, lv) -> parent_inv G n lo lv;
  ti_heap : heap_inv G (heap s);
  ti_fresh : forall l, (next_loc s <= l)%positive -> heap s !! l = None;
  ti_root : exists r lv, root_node s = Some r /\ G !! r = Some (0, lv)
    /\ tree_height s = u16 (Z.of_nat (S lv))
    /\ (forall l lo lv', G !! l = Some (lo, lv') -> (lv' <= lv)%nat) }.

(** ** The map a heap represents *)

Lemma leaf_entries_shape n ks kt vs vt :
  leaf_shape n ks kt vs vt -> leaf_entries n = zip ks vs.
Proof.
  intros [Hp Hsz Hvs _ _]. unfold leaf_entries. rewrite Hp, Hsz, Nat2Z.id.
  by rewrite take_app_length, <- Hvs, take_app_length.
Qed.

Lemma inner_entries n ks kt ss st : inner_shape n ks kt ss st -> leaf_entries n = [].
Proof. intros [Hp _ _ _ _]. unfold leaf_entries. by rewrite Hp. Qed.

Lemma live_keys_leaf n ks kt vs vt : leaf_shape n ks kt vs vt -> live_keys n = ks.
Proof.
  intros [Hp Hsz _ _ _]. unfold live_keys, node_keys. rewrite Hp, Hsz, Nat2Z.id.
  apply take_app_length.
Qed.
Lemma live_keys_inner n ks kt ss st : inner_shape n ks kt ss st -> live_keys n = ks.
Proof.
  intros [Hp Hsz _ _ _]. unfold live_keys, node_keys. rewrite Hp, Hsz, Nat2Z.id.
  apply take_app_length.
Qed.

(** ** Basic consequences *)
Lemma hi_lookup G h l lo lv :
  heap_inv G h -> G !! l = Some (lo, lv) -> exists n, h !! l = Some n /\ node_inv G n lo lv.
Proof.
  intros Hh Hl. destruct (proj1 (hi_dom _ _ Hh l)) as [n Hn]; eauto using hi_node.
Qed.

Lemma hi_layout G h l n :
  heap_inv G h -> h !! l = Some n -> exists lo lv, G !! l = Some (lo, lv) /\ node_inv G n lo lv.
Proof.
  intros Hh Hl. destruct (proj2 (hi_dom _ _ Hh l)) as [[lo lv] Hn]; eauto using hi_node.
Qed.

(** Two nodes of a level that both cover [k] are the same node. *)
Lemma hi_unique G h l1 l2 lo1 lo2 lv n1 n2 k :
  heap_inv G h -> G !! l1 = Some (lo1, lv) -> G !! l2 = Some (lo2, lv) ->
  h !! l1 = Some n1 -> h !! l2 = Some n2 ->
  lo1 <= k < high_key n1 -> lo2 <= k < high_key n2 -> l1 = l2.
Proof.
  intros Hh G1 G2 H1 H2 K1 K2. destruct (decide (l1 = l2)) as [|Hne]; [done|].
  destruct (Z.le_ge_cases lo1 lo2).
  - pose proof (hi_disjoint _ _ Hh l1 l2 lo1 lo2 lv n1 Hne G1 G2 H1 ltac:(done)). lia.
  - pose proof (hi_disjoint _ _ Hh l2 l1 lo2 lo1 lv n2 (not_eq_sym Hne) G2 G1 H2 ltac:(lia)). lia.
Qed.

(** No node of the level of [l] starts strictly inside the range of [l]. *)
Lemma hi_inside G h l n lo lv l' lo' :
  heap_inv G h -> h !! l = Some n -> G !! l = Some (lo, lv) -> G !! l' = Some (lo', lv) ->
  lo <= lo' < high_key n -> lo' = lo.
Proof.
  intros Hh Hl Gl Gl' Hin. destruct (hi_lookup _ _ _ _ _ Hh Gl') as (n' & Hn' & Hi').
  destruct (decide (l = l')) as [->|Hne]; [by simplify_eq|].
  pose proof (hi_disjoint _ _ Hh l l' lo lo' lv n Hne Gl Gl' Hl). lia.
Qed.

Lemma leaf_entry_inv G h l n k v :
  heap_inv G h -> h !! l = Some n -> (k, v) ∈ leaf_entries n ->
  exists lo, G !! l = Some (lo, 0%nat) /\ lo <= k < high_key n
    /\ exists ks kt vs vt, leaf_shape n ks kt vs vt /\ ksorted ks /\ (k, v) ∈ zip ks vs.
Proof.
  intros Hh Hl Hk. destruct (hi_layout _ _ _ _ Hh Hl) as (lo & lv & Hg & [_ _ Hb]).
  destruct lv as [|lv].
  - destruct Hb as (ks & kt & vs & vt & Hs & Hso & Hf). exists lo. split; [done|].
    rewrite (leaf_entries_shape _ _ _ _ _ Hs) in Hk. split; [|by exists ks, kt, vs, vt].
    rewrite Forall_forall in Hf. apply Hf. by apply elem_of_zip_l in Hk.
  - destruct Hb as (ks & kt & ss & st & Hs & _). rewrite (inner_entries _ _ _ _ _ Hs) in Hk.
    by apply not_elem_of_nil in Hk.
Qed.

Lemma entry_functional G h k v v' : heap_inv G h -> entry h k v -> entry h k v' -> v = v'.
Proof.
  intros Hh (l1 & n1 & H1 & E1) (l2 & n2 & H2 & E2).
  destruct (leaf_entry_inv _ _ _ _ _ _ Hh H1 E1) as (lo1 & G1 & K1 & ks & kt & vs & vt & Hs & Hso & Hz).
  destruct (leaf_entry_inv _ _ _ _ _ _ Hh H2 E2) as (lo2 & G2 & K2 & _).
  assert (l1 = l2) as -> by (by eapply (hi_unique G h l1 l2)). simplify_eq.
  rewrite (leaf_entries_shape _ _ _ _ _ Hs) in E2. eapply zip_functional; eauto using ksorted_NoDup.
Qed.

Lemma contents_spec G h k v : heap_inv G h -> contents h !! k = Some v <-> entry h k v.
Proof. intros Hh. apply stored_map_spec. intros. by eapply entry_functional. Qed.

Lemma contents_None G h k : heap_inv G h -> contents h !! k = None <-> forall v, ~ entry h k v.
Proof.
  intros Hh. split.
  - intros Hk v Hv%(contents_spec _ _ _ _ Hh). congruence.
  - intros Hk. destruct (contents h !! k) as [v|] eqn:E; [|done].
    apply (contents_spec _ _ _ _ Hh) in E. by apply Hk in E.
Qed.

(** Heaps with the same entries have the same contents. *)
Lemma contents_ext G h G' h' :
  heap_inv G h -> heap_inv G' h' -> (forall k v, entry h' k v <-> entry h k v) ->
  contents h' = contents h.
Proof.
  intros Hh Hh' He. apply map_eq. intros k. apply option_eq. intros v.
  by rewrite (contents_spec G' h'), (contents_spec G h).
Qed.
Lemma contents_insert G h G' h' k v :
  heap_inv G h -> heap_inv G' h' -> (forall w, ~ entry h k w) ->
  (forall k' v', entry h' k' v' <-> (k' = k /\ v' = v) \/ entry h k' v') ->
  contents h' = <[k := v]> (contents h).
Proof.
  intros Hh Hh' Hn He. apply map_eq. intros k'. apply option_eq. intros v'.
  rewrite (contents_spec G' h'), He, lookup_insert_Some, (contents_spec G h) by done.
  split; [|naive_solver]. intros [[-> ->]|Hk]; [by left|]. right. split; [|done].
  intros <-. by apply Hn in Hk.
Qed.

(** ** Preservation by heap updates *)
Lemma node_inv_mono (G G' : layout) n lo lv : G ⊆ G' -> node_inv G n lo lv -> node_inv G' n lo lv.
Proof.
  intros Hsub [Hr Hs Hb]. split; [done| |].
  - unfold sibling_inv in *. destruct (right_sibling n); [|done]. by eapply lookup_weaken.
  - destruct lv as [|lv]; [done|]. destruct Hb as (ks & kt & ss & st & H1 & H2 & H3 & H4).
    exists ks, kt, ss, st. repeat split; try done; try apply H1.
    eapply Forall2_impl; [exact H4|]. intros p b (c & -> & Hc). exists c.
    split; [done|]. by eapply lookup_weaken.
Qed.

Lemma leaf_shape_set_parent n p ks kt vs vt :
  leaf_shape n ks kt vs vt -> leaf_shape (set_parent p n) ks kt vs vt.
Proof. intros []. by constructor. Qed.
Lemma inner_shape_set_parent n p ks kt ss st :
  inner_shape n ks kt ss st -> inner_shape (set_parent p n) ks kt ss st.
Proof. intros []. by constructor. Qed.

Lemma node_inv_set_parent G n lo lv p : node_inv G n lo lv -> node_inv G (set_parent p n) lo lv.
Proof.
  intros [Hr Hs Hb]. split; [done|done|]. destruct lv as [|lv].
  - destruct Hb as (ks & kt & vs & vt & H1 & H2 & H3).
    exists ks, kt, vs, vt. split; [|done]. by apply leaf_shape_set_parent.
  - destruct Hb as (ks & kt & ss & st & H1 & H2 & H3 & H4). exists ks, kt, ss, st.
    split; [|done]. by apply inner_shape_set_parent.
Qed.

Lemma adopt_lookup_Some cs p h l m :
  adopt cs p h !! l = Some m -> exists n, h !! l = Some n /\ (m = n \/ m = set_parent p n).
Proof.
  rewrite adopt_lookup. intros (n & Hn & ->)%fmap_Some_1. exists n. case_decide; auto.
Qed.

Lemma adopt_is_Some cs p h l : is_Some (adopt cs p h !! l) <-> is_Some (h !! l).
Proof. rewrite adopt_lookup. by rewrite fmap_is_Some. Qed.

Lemma heap_inv_adopt G h cs p : heap_inv G h -> heap_inv G (adopt cs p h).
Proof.
  intros [H1 H2 H3]. split.
  - intros l. by rewrite H1, adopt_is_Some.
  - intros l m lo lv (n & Hn & [->| ->])%adopt_lookup_Some Hl; eauto using node_inv_set_parent.
  - intros l1 l2 lo1 lo2 lv m Hne G1 G2 (n & Hn & [->| ->])%adopt_lookup_Some Hle;
      cbn [high_key set_parent]; by eapply (H3 l1 l2).
Qed.

Lemma entry_adopt h cs p k v : entry (adopt cs p h) k v <-> entry h k v.
Proof.
  split.
  - intros (l & m & (n & Hn & [->| ->])%adopt_lookup_Some & Hk); exists l, n; auto.
  - intros (l & n & Hn & Hk).
    exists l, (if decide (Some l ∈ cs) then set_parent p n else n). split.
    + by rewrite adopt_lookup, Hn.
    + by case_decide.
Qed.

Lemma heap_inv_update G h l n n' lo lv :
  heap_inv G h -> h !! l = Some n -> G !! l = Some (lo, lv) -> node_inv G n' lo lv ->
  high_key n' = high_key n -> heap_inv G (<[l := n']> h).
Proof.
  intros [H1 H2 H3] Hl Gl Hn Hk. split.
  - intros l'. rewrite H1, lookup_insert. case_decide; subst; naive_solver.
  - intros l' m lo' lv' [[??]|[??]]%lookup_insert_Some Gl'; subst; [by simplify_eq|eauto].
  - intros l1 l2 lo1 lo2 lv1 m Hne G1 G2 [[??]|[??]]%lookup_insert_Some Hle; subst; [|eauto].
    rewrite Hk. by eapply (H3 l1 l2).
Qed.

(** Splitting [l] at [b]: the new node [r] takes the upper part of the range. *)
Lemma heap_inv_split G h l r n nl nr lo lv b :
  heap_inv G h -> h !! l = Some n -> G !! l = Some (lo, lv) -> h !! r = None ->
  lo < b < high_key n -> high_key nl = b -> high_key nr = high_key n ->
  node_inv (<[r := (b, lv)]> G) nl lo lv -> node_inv (<[r := (b, lv)]> G) nr b lv ->
  heap_inv (<[r := (b, lv)]> G) (<[l := nl]> (<[r := nr]> h)).
Proof.
  intros Hh Hl Gl Hr Hb Hkl Hkr Hnl Hnr. pose proof Hh as [H1 H2 H3].
  assert (Gr : G !! r = None).
  { destruct (G !! r) eqn:E; [|done]. destruct (proj1 (H1 r)); [by rewrite E|congruence]. }
  assert (Hne : l <> r) by congruence. split.
  - intros l'. rewrite !lookup_insert. repeat case_decide; subst; naive_solver.
  - intros l' m lo' lv' [[??]|[? [[??]|[??]]%lookup_insert_Some]]%lookup_insert_Some; subst.
    + rewrite lookup_insert_ne by done. intros Gl'. by simplify_eq.
    + rewrite lookup_insert_eq. intros ?. by simplify_eq.
    + rewrite lookup_insert_ne by done. intros Gl'.
      eapply node_inv_mono; [by apply insert_subseteq|eauto].
  - intros l1 l2 lo1 lo2 lv1 m Hne1 G1 G2.
    apply lookup_insert_Some in G1 as [[??]|[? G1]], G2 as [[??]|[? G2]]; simplify_eq;
      rewrite ?(lookup_insert_ne _ l) by done; rewrite ?lookup_insert_eq; intros Hm Hle; simplify_eq.
    + rewrite Hkr. destruct (decide (l2 = l)) as [->|]; [simplify_eq; lia|].
      eapply (H3 l l2); eauto; lia.
    + destruct (decide (l1 = l)) as [->|]; [rewrite lookup_insert_eq in Hm; simplify_eq; lia|].
      rewrite lookup_insert_ne, lookup_insert_ne in Hm by done.
      destruct (hi_lookup _ _ _ _ _ Hh G1) as (m' & Hm' & Hi'). simplify_eq.
      destruct (Z.le_gt_cases lo1 lo).
      * pose proof (H3 l1 l lo1 lo _ m ltac:(done) G1 Gl Hm ltac:(done)). lia.
      * pose proof (H3 l l1 lo lo1 _ n ltac:(done) Gl G1 Hl ltac:(lia)).
        destruct Hi' as [[? ?] _ _]. lia.
    + destruct (decide (l1 = l)) as [->|].
      * rewrite lookup_insert_eq in Hm. simplify_eq.
        pose proof (H3 l l2 lo lo2 _ n ltac:(done) Gl G2 Hl ltac:(done)). lia.
      * rewrite lookup_insert_ne, lookup_insert_ne in Hm by done. by eapply (H3 l1 l2).
Qed.

(** A new root above the topmost level. *)
Lemma heap_inv_root G h r n lv :
  heap_inv G h -> h !! r = None ->
  (forall l lo lv', G !! l = Some (lo, lv') -> (lv' < lv)%nat) ->
  node_inv (<[r := (0, lv)]> G) n 0 lv -> heap_inv (<[r := (0, lv)]> G) (<[r := n]> h).
Proof.
  intros [H1 H2 H3] Hr Htop Hn.
  assert (Gr : G !! r = None).
  { destruct (G !! r) eqn:E; [|done]. destruct (proj1 (H1 r)); [by rewrite E|congruence]. }
  split.
  - intros l'. rewrite !lookup_insert. case_decide; naive_solver.
  - intros l' m lo' lv' [[??]|[??]]%lookup_insert_Some; subst.
    + rewrite lookup_insert_eq. intros ?. by simplify_eq.
    + rewrite lookup_insert_ne by done. intros Gl'.
      eapply node_inv_mono; [by apply insert_subseteq|eauto].
  - intros l1 l2 lo1 lo2 lv1 m Hne1 G1 G2.
    apply lookup_insert_Some in G1 as [[??]|[? G1]], G2 as [[??]|[? G2]]; simplify_eq.
    + apply Htop in G2. lia.
    + apply Htop in G1. lia.
    + rewrite lookup_insert_ne by done. by eapply (H3 l1 l2).
Qed.

(** ** Navigation *)

(** Nodes still ahead of a descent at [(lo, lv)]: to the right or below. *)
Definition ahead (G : layout) (lo : Z) (lv : nat) : gset loc :=
  dom (filter (fun '(_, (lo', lv')) => (lv' < lv)%nat \/ lv' = lv /\ lo < lo') G).

Lemma elem_of_ahead G lo lv l :
  l ∈ ahead G lo lv <-> exists lo' lv', G !! l = Some (lo', lv')
    /\ ((lv' < lv)%nat \/ lv' = lv /\ lo < lo').
Proof.
  unfold ahead. rewrite elem_of_dom. unfold is_Some.
  split.
  - intros ([lo' lv'] & [Hl Hp]%map_lookup_filter_Some). eauto.
  - intros (lo' & lv' & Hl & Hp). exists (lo', lv'). by apply map_lookup_filter_Some.
Qed.

Lemma ahead_step G l lo lv lo' lv' :
  G !! l = Some (lo', lv') -> (lv' < lv)%nat \/ lv' = lv /\ lo < lo' ->
  (base.size (ahead G lo' lv') < base.size (ahead G lo lv))%nat.
Proof.
  intros Hl Hstep. apply subset_size. split.
  - intros x. rewrite !elem_of_ahead. intros (a & b & Hx & Hor). exists a, b. split; [done|]. lia.
  - intros Hsub. assert (Hin : l ∈ ahead G lo' lv') by (apply Hsub, elem_of_ahead; eauto).
    apply elem_of_ahead in Hin as (a & b & Hx & Hor). simplify_eq. lia.
Qed.

Lemma ahead_bound G lo lv : (base.size (ahead G lo lv) <= base.size G)%nat.
Proof.
  unfold ahead. rewrite size_dom. apply map_subseteq_size, map_filter_subseteq.
Qed.

(** A node that does not cover [key] has a right sibling that starts at or below it. *)
Lemma sibling_step G h l n lo lv key :
  heap_inv G h -> h !! l = Some n -> G !! l = Some (lo, lv) -> high_key n <= key -> key < max_u64 ->
  exists r, right_sibling n = Some r /\ G !! r = Some (high_key n, lv) /\ lo < high_key n.
Proof.
  intros Hh Hl Gl Hk Hm. destruct (hi_node _ _ Hh _ _ _ _ Hl Gl) as [[? ?] Hs _].
  unfold sibling_inv in Hs. destruct (right_sibling n) as [r|]; [|lia]. exists r.
  split; [done|]. split; [done|lia].
Qed.

(** [child] of an inner node that covers [key] starts at or below [key]. *)
Lemma child_step G h l n lo lv key :
  heap_inv G h -> h !! l = Some n -> G !! l = Some (lo, S lv) -> lo <= key ->
  exists c b, child n key = Ok (Some c) /\ G !! c = Some (b, lv) /\ lo <= b <= key.
Proof.
  intros Hh Hl Gl Hk. destruct (hi_node _ _ Hh _ _ _ _ Hl Gl) as [_ _ (ks & kt & ss & st & Hsh & Hso & Hf & Hc)].
  apply StronglySorted_cons in Hso as [Hlo Hso].
  destruct (child_spec n ks kt ss st key Hsh Hso) as (l1 & l2 & p & Hks & Hl1 & Hl2 & Hp & Hch).
  destruct (Forall2_lookup_l _ _ _ _ _ Hc Hp) as (b & Hb & c & -> & Hgc).
  exists c, b. split; [done|]. split; [done|].
  destruct l1 as [|x l1'] using rev_ind.
  - simpl in Hb. simplify_eq. lia.
  - rewrite length_app, Nat.add_comm in Hb. simpl in Hb.
    rewrite Hks, <- app_assoc in Hb. cbn [app] in Hb.
    rewrite list_lookup_middle in Hb by done. simplify_eq.
    rewrite Forall_app in Hl1. destruct Hl1 as [_ [Hb _]%Forall_cons].
    rewrite Forall_forall in Hlo. split; [|done]. apply Z.lt_le_incl, Hlo. set_solver.
Qed.

Lemma level_is_leaf G h l n lo lv :
  heap_inv G h -> h !! l = Some n -> G !! l = Some (lo, lv) -> is_leaf n = bool_decide (lv = 0%nat).
Proof.
  intros Hh Hl Gl. destruct (hi_node _ _ Hh _ _ _ _ Hl Gl) as [_ _ Hb]. unfold is_leaf.
  destruct lv.
  - destruct Hb as (? & ? & ? & ? & [-> _ _ _ _] & _). done.
  - destruct Hb as (? & ? & ? & ? & [-> _ _ _ _] & _). done.
Qed.

(** ** Nodes no parent knows yet *)

(** No inner node above level [lv] has a separator that starts at [b]. *)
Definition unlinked (G : layout) (h : gmap loc Node) (b : Z) (lv : nat) : Prop :=
  forall p n lo, h !! p = Some n -> G !! p = Some (lo, S lv) -> b ∉ lo :: live_keys n.

Lemma separators_start G h p n lo lv b :
  heap_inv G h -> h !! p = Some n -> G !! p = Some (lo, S lv) -> b ∈ lo :: live_keys n ->
  exists c, G !! c = Some (b, lv).
Proof.
  intros Hh Hp Gp Hb. destruct (hi_node _ _ Hh _ _ _ _ Hp Gp) as [_ _ (ks & kt & ss & st & Hsh & _ & _ & Hc)].
  rewrite (live_keys_inner _ _ _ _ _ Hsh) in Hb. apply list_elem_of_lookup in Hb as [i Hi].
  destruct (Forall2_lookup_r _ _ _ _ _ Hc Hi) as (q & _ & c & _ & Hgc). eauto.
Qed.

(** A split point inside the range of an existing node is unlinked. *)
Lemma unlinked_inside G h l n lo lv b :
  heap_inv G h -> h !! l = Some n -> G !! l = Some (lo, lv) -> lo < b < high_key n ->
  unlinked G h b lv.
Proof.
  intros Hh Hl Gl Hb p np lop Hp Gp Hin.
  destruct (separators_start _ _ _ _ _ _ _ Hh Hp Gp Hin) as [c Hc].
  pose proof (hi_inside _ _ _ _ _ _ _ _ Hh Hl Gl Hc). lia.
Qed.

Lemma unlinked_split G h l r n nl nr lo lv b :
  unlinked G h b lv -> h !! l = Some n -> G !! l = Some (lo, lv) -> h !! r = None ->
  unlinked (<[r := (b, lv)]> G) (<[l := nl]> (<[r := nr]> h)) b lv.
Proof.
  intros Hu Hl Gl Hr p np lop Hp Gp. apply lookup_insert_Some in Gp as [[??]|[? Gp]].
  { simplify_eq. lia. }
  apply lookup_insert_Some in Hp as [[??]|[? Hp]]; [simplify_eq; lia|].
  rewrite lookup_insert_ne in Hp by done. eauto.
Qed.

Lemma unlinked_adopt G h b lv cs q : unlinked G h b lv -> unlinked G (adopt cs q h) b lv.
Proof.
  intros Hu p np lop (n & Hn & [->| ->])%adopt_lookup_Some Gp; [eauto|]. by apply (Hu p n).
Qed.

(** ** What one insertion into a node leaves behind *)

(** [up] is null or the new right sibling of a node at [(lo, lv)]. *)
Record grown (G : layout) (s : TreeState) (lo : Z) (lv : nat) (up : ptr * Z)
    (G' : layout) (s' : TreeState) : Prop := {
  gr_inv : tree_inv G' s';
  gr_sub : G ⊆ G';
  gr_root : root_node s' = root_node s;
  gr_size : (base.size (heap s') <= S (base.size (heap s)))%nat;
  gr_new : forall l x, G' !! l = Some x -> G !! l = Some x \/ exists b, up = (Some l, b) /\ x = (b, lv);
  gr_up : up = (None, 0) \/ exists m b, up = (Some m, b) /\ G' !! m = Some (b, lv) /\ lo < b
    /\ unlinked G' (heap s') b lv;
  gr_beyond : forall m b c b', up = (Some m, b) -> G !! c = Some (b', lv) -> lo < b' -> b < b' }.

Lemma fresh_next G s : tree_inv G s -> heap s !! next_loc s = None.
Proof. intros Hi. apply (ti_fresh _ _ Hi). lia. Qed.

Lemma fresh_after {A} (h : gmap loc A) nx x l :
  (forall l, (nx <= l)%positive -> h !! l = None) -> (Pos.succ nx <= l)%positive ->
  <[nx := x]> h !! l = None.
Proof. intros Hf Hl. rewrite lookup_insert_ne by lia. apply Hf. lia. Qed.

(** ** Fill and parent pointers *)
Lemma half_pos lv : 1 <= half lv.
Proof.
  pose proof max_items_bounds. pose proof max_keys_bounds.
  destruct lv; simpl; apply Z.div_le_lower_bound; lia.
Qed.
Lemma fill_inv_adopt G h cs p : fill_inv G h -> fill_inv G (adopt cs p h).
Proof.
  intros [H1 H2]. split.
  - intros l m lo lv (n & Hn & [->| ->])%adopt_lookup_Some Hl; exact (H1 _ _ _ _ Hn Hl).
  - intros l m lo lv (n & Hn & [->| ->])%adopt_lookup_Some Hl; exact (H2 _ _ _ _ Hn Hl).
Qed.
Lemma fill_inv_update G h l n n' :
  fill_inv G h -> h !! l = Some n -> size n <= size n' -> fill_inv G (<[l := n']> h).
Proof.
  intros [H1 H2] Hl Hs. split.
  - intros l' m lo lv [[<- <-]|[_ Hm]]%lookup_insert_Some Gl'; [|exact (H1 _ _ _ _ Hm Gl')].
    destruct (H1 _ _ _ _ Hl Gl') as [?|?]; [left; lia|by right].
  - intros l' m lo lv [[<- <-]|[_ Hm]]%lookup_insert_Some Gl'; [|exact (H2 _ _ _ _ Hm Gl')].
    pose proof (H2 _ _ _ _ Hl Gl'). lia.
Qed.
Lemma fill_inv_split G h l r n nl nr lo lv b :
  fill_inv G h -> h !! l = Some n -> G !! l = Some (lo, lv) -> h !! r = None -> G !! r = None ->
  half lv <= size nl -> half lv <= size nr ->
  fill_inv (<[r := (b, lv)]> G) (<[l := nl]> (<[r := nr]> h)).
Proof.
  intros [H1 H2] Hl Gl Hr Gr Hnl Hnr. pose proof (half_pos lv). assert (Hne : l <> r) by congruence. split.
  - intros l' m lo' lv' Hm Gl'.
    apply lookup_insert_Some in Hm as [[<- <-]|[Hl' [[<- <-]|[Hr' Hm]]%lookup_insert_Some]].
    + rewrite lookup_insert_ne in Gl' by done. simplify_eq. by left.
    + rewrite lookup_insert_eq in Gl'. simplify_eq. by left.
    + rewrite lookup_insert_ne in Gl' by done. destruct (H1 _ _ _ _ Hm Gl') as [?|Hsole]; [by left|].
      destruct (decide (lv' = lv)) as [->|Hlv]; [by pose proof (Hsole _ _ Gl)|]. right.
      intros l'' lo'' [[_ ?]|[_ Gl'']]%lookup_insert_Some; [congruence|exact (Hsole _ _ Gl'')].
  - intros l' m lo' lv' Hm Gl'.
    apply lookup_insert_Some in Hm as [[<- <-]|[Hl' [[<- <-]|[Hr' Hm]]%lookup_insert_Some]].
    + rewrite lookup_insert_ne in Gl' by done. simplify_eq. lia.
    + rewrite lookup_insert_eq in Gl'. simplify_eq. lia.
    + rewrite lookup_insert_ne in Gl' by done. exact (H2 _ _ _ _ Hm Gl').
Qed.
(** Adding a node at an existing level keeps parents where they are. *)
Lemma parent_inv_split G n lo lv r b lvr l lol :
  parent_inv G n lo lv -> G !! r = None -> G !! l = Some (lol, lvr) -> parent_inv (<[r := (b, lvr)]> G) n lo lv.
Proof.
  unfold parent_inv. intros Hp Hr Hl. destruct (parent n) as [p|].
  - destruct Hp as (lop & Gp & ?). exists lop. rewrite lookup_insert_ne by congruence. done.
  - intros l' lo' lv' [[_ [= <- <-]]|[_ Gl']]%lookup_insert_Some; [exact (Hp _ _ _ Hl)|exact (Hp _ _ _ Gl')].
Qed.
(** [q] is a parent for the nodes in [cs]. *)
Definition adopters (G : layout) (cs : list ptr) (q : ptr) : Prop :=
  forall c lo lv, Some c ∈ cs -> G !! c = Some (lo, lv) ->
    exists p lop, q = Some p /\ G !! p = Some (lop, S lv) /\ lop <= lo.
Lemma parent_inv_adopt G h cs q :
  adopters G cs q ->
  (forall l n lo lv, h !! l = Some n -> G !! l = Some (lo, lv) -> parent_inv G n lo lv) ->
  forall l n lo lv, adopt cs q h !! l = Some n -> G !! l = Some (lo, lv) -> parent_inv G n lo lv.
Proof.
  intros Ha Hp l m lo lv Hm Gl. rewrite adopt_lookup in Hm. apply fmap_Some_1 in Hm as (n & Hn & ->).
  case_decide as Hin; [|exact (Hp _ _ _ _ Hn Gl)]. destruct (Ha _ _ _ Hin Gl) as (p & lop & -> & Gp & ?).
  unfold parent_inv. simpl. eauto.
Qed.

(** The root condition only looks at the layout. *)
Lemma tree_inv_node_update G h nx rt ht l n n' lo lv :
  tree_inv G (mkTree h nx rt ht) -> h !! l = Some n -> G !! l = Some (lo, lv) ->
  node_inv G n' lo lv -> high_key n' = high_key n -> size n <= size n' -> parent n' = parent n ->
  tree_inv G (mkTree (<[l := n']> h) nx rt ht).
Proof.
  intros [Hfi Hpa Hh Hf Hr] Hl Gl Hn Hk Hsz Hpar. split; simpl in *; [by eapply fill_inv_update| |by eapply heap_inv_update| |done].
  - intros l' m lo' lv' [[<- <-]|[_ Hm]]%lookup_insert_Some Gl'; [|exact (Hpa _ _ _ _ Hm Gl')].
    pose proof (Hpa _ _ _ _ Hl Gl') as Hp. unfold parent_inv in *. by rewrite Hpar.
  - intros l' Hl'. rewrite lookup_insert_ne; [by apply Hf|]. intros ->. rewrite Hf in Hl; done.
Qed.

Lemma tree_inv_split G h nx rt ht l n nl nr lo lv b cs1 q1 cs2 q2 :
  tree_inv G (mkTree h nx rt ht) -> h !! l = Some n -> G !! l = Some (lo, lv) ->
  lo < b < high_key n -> high_key nl = b -> high_key nr = high_key n ->
  node_inv (<[nx := (b, lv)]> G) nl lo lv -> node_inv (<[nx := (b, lv)]> G) nr b lv ->
  half lv <= size nl -> half lv <= size nr -> parent nl = parent n -> parent nr = parent n ->
  adopters (<[nx := (b, lv)]> G) cs1 q1 -> adopters (<[nx := (b, lv)]> G) cs2 q2 ->
  grown G (mkTree h nx rt ht) lo lv (Some nx, b) (<[nx := (b, lv)]> G)
    (mkTree (adopt cs2 q2 (adopt cs1 q1 (<[l := nl]> (<[nx := nr]> h)))) (Pos.succ nx) rt ht).
Proof.
  intros Hi Hl Gl Hb Hkl Hkr Hnl Hnr Hsl Hsr Hpl Hpr Ha1 Ha2. pose proof (fresh_next _ _ Hi) as Hr. simpl in Hr.
  destruct Hi as [Hfi Hpa Hh Hf (r & lv' & Hroot & Gr & Hht & Htop)]. simpl in *.
  assert (Gnx : G !! nx = None).
  { destruct (G !! nx) eqn:E; [|done]. destruct (proj1 (hi_dom _ _ Hh nx)); [by rewrite E|congruence]. }
  assert (l <> nx) by congruence.
  split.
  - split; simpl.
    + do 2 apply fill_inv_adopt. by eapply fill_inv_split.
    + do 2 (apply parent_inv_adopt; [done|]). intros l' m lo' lv'' Hm Gl'.
      apply lookup_insert_Some in Hm as [[<- <-]|[Hl' [[<- <-]|[Hr' Hm]]%lookup_insert_Some]].
      * rewrite lookup_insert_ne, Gl in Gl' by done. injection Gl' as <- <-.
        assert (Hp : parent_inv (<[nx := (b, lv)]> G) n lo lv) by (eapply parent_inv_split; eauto).
        unfold parent_inv in *. by rewrite Hpl.
      * rewrite lookup_insert_eq in Gl'. injection Gl' as <- <-.
        assert (Hp : parent_inv (<[nx := (b, lv)]> G) n lo lv) by (eapply parent_inv_split; eauto).
        unfold parent_inv in *. rewrite Hpr. destruct (parent n); [|done].
        destruct Hp as (lop & ? & ?). exists lop. split; [done|lia].
      * rewrite lookup_insert_ne in Gl' by done. eapply parent_inv_split; eauto.
    + do 2 apply heap_inv_adopt. eapply heap_inv_split; eauto.
    + intros l' Hl'. assert (Hnone : <[l := nl]> (<[nx := nr]> h) !! l' = None).
      { rewrite lookup_insert_ne; [by apply fresh_after|]. intros ->. rewrite Hf in Hl; [done|lia]. }
      by rewrite !adopt_lookup, Hnone.
    + exists r, lv'. split; [done|]. split; [by rewrite lookup_insert_ne by congruence|].
      split; [done|]. intros l' lo' lv'' [[??]|[??]]%lookup_insert_Some; simplify_eq; eauto.
  - by apply insert_subseteq.
  - done.
  - simpl. rewrite <- !(size_dom (D := gset loc)).
    assert (Hd : dom (adopt cs2 q2 (adopt cs1 q1 (<[l := nl]> (<[nx := nr]> h)))) ⊆ {[nx]} ∪ dom h).
    { intros x. rewrite elem_of_dom, !adopt_is_Some, <- elem_of_dom. rewrite !dom_insert_L.
      apply elem_of_dom_2 in Hl. set_solver. }
    apply subseteq_size in Hd. etransitivity; [exact Hd|].
    pose proof (size_union_alt {[nx]} (dom h)) as Hs. rewrite size_singleton in Hs.
    pose proof (subseteq_size (dom h ∖ {[nx]}) (dom h)). simpl in *. set_solver by lia.
  - intros l' x [[<- <-]|[_ Hx]]%lookup_insert_Some; [right; eauto|by left].
  - right. exists nx, b. split; [done|]. split; [apply lookup_insert_eq|]. split; [lia|].
    simpl. do 2 apply unlinked_adopt. eapply unlinked_split; eauto using unlinked_inside.
  - intros m b'' c b' [= <- <-] Gc Hlt. destruct (Z.lt_ge_cases b b') as [|Hge]; [done|].
    assert (b' = lo) by (by eapply (hi_inside G h l n lo lv c b'); eauto; lia). lia.
Qed.

End Invariant.
