(* ===== verification/ThreadTree.v ===== *)
(** * Inserting into one node

    Models [ThreadTree::insert_into_leaf] and [ThreadTree::insert_into_inner], which
    [src/src/indices/blinktree/thread/latched/thread_tree.cpp] and
    [.../optimistic/thread_tree.cpp] both contain, and proves that each of them, run
    while its node is latched, preserves the B-link invariant.  Nothing here assumes
    that the rest of an insertion has run: the lemmas are the steps that both the
    sequential and the interleaved executions are made of. *)

From S2P Require Import Prelude Node Tree TreeFacts BlinkInv.

Section ThreadTree.
Context {PF : Platform}.

Definition insert_into_leaf (leaf_node : ptr) (key v : Z) : TM (ptr * Z) :=
  n ← deref leaf_node;
  i ← lift (index n key);
  found ← (if i <? size n then k ← lift (leaf_key n i); mret (k =? key) else mret false);
  if found : bool then mret (None, 0)
  else if negb (is_full n) then
    update leaf_node (fun n => insert_value n i v key);;
    mret (None, 0)
  else
    right_leaf ← split_leaf_node leaf_node key v;
    m ← deref right_leaf;
    k ← lift (leaf_key m 0);
    mret (right_leaf, k).

Definition insert_into_inner (inner_node : ptr) (key : Z) (sep : ptr) : TM (ptr * Z) :=
  n ← deref inner_node;
  if negb (is_full n) then
    i ← lift (index n key);
    update inner_node (fun n => insert_separator n i sep key);;
    mret (None, 0)
  else split_inner_node inner_node key sep.

Context {PFok : PlatformOk}.

(** ** Positions in a leaf *)

(** The slot [index] reports holds [key] exactly when [key] is live. *)
Lemma index_found n ks kt vs vt key i :
  leaf_shape n ks kt vs vt -> ksorted ks -> index n key = Ok i ->
  exists b : bool,
    (forall (S : Type) (s : S), (if i <? size n then k ← lift (leaf_key n i); mret (k =? key) else mret false) s
      = Ok (b, s)) /\ (b = true <-> key ∈ ks)
    /\ (b = true -> exists v, (key, v) ∈ zip ks vs /\ leaf_key n i = Ok key /\ value n i = Ok v).
Proof.
  intros Hn Hs Hi. pose proof Hn as [Hp Hsz Hvs Hck _]. pose proof max_items_bounds.
  destruct (index_spec n ks kt key) as (l1 & l2 & Hks & H1 & H2 & Hi'); auto.
  { unfold node_keys. by rewrite Hp. }
  { rewrite length_app in Hck. lia. }
  assert (i = Z.of_nat (length l1)) as -> by congruence. rewrite Hsz, Hks, length_app.
  destruct l2 as [|x l2].
  { exists false. rewrite (proj2 (Z.ltb_ge _ _)) by (simpl; lia). split; [done|].
    split; [|done]. split; [done|]. rewrite app_nil_r. intros Hin. exfalso.
    rewrite Forall_forall in H1. specialize (H1 _ Hin). lia. }
  rewrite (proj2 (Z.ltb_lt _ _)) by (simpl; lia).
  assert (Hk : leaf_key n (Z.of_nat (length l1)) = Ok x).
  { unfold leaf_key. rewrite Hp, Hks, <- app_assoc. apply array_get_lookup. by apply list_lookup_middle. }
  exists (x =? key). rewrite Hk. split; [done|].
  rewrite Hks in Hs. apply ksorted_app in Hs as (_ & Hs & _). apply StronglySorted_cons in Hs as [Hx _].
  apply Forall_cons in H2 as [Hxk H2]. rewrite Forall_forall in H1, Hx. split.
  - rewrite Z.eqb_eq. split; [intros ->; set_solver|].
    intros [Hin|[->|Hin]%elem_of_cons]%elem_of_app; [|done|].
    + specialize (H1 _ Hin). lia.
    + specialize (Hx _ Hin). simpl in Hx. lia.
  - rewrite Z.eqb_eq. intros ->.
    destruct (lookup_lt_is_Some_2 vs (length l1)) as [v Hv]; [rewrite Hvs, Hks, length_app; simpl; lia|].
    exists v. split; [|split; [done|]].
    + apply elem_of_zip_lookup. exists (length l1). rewrite list_lookup_middle by done. done.
    + unfold value. rewrite Hp. apply array_get_lookup. by apply lookup_app_l_Some.
Qed.

Lemma is_full_leaf n ks kt vs vt :
  leaf_shape n ks kt vs vt -> is_full n = bool_decide (kt = []).
Proof.
  intros [Hp Hsz _ Hck _]. unfold is_full, is_leaf. rewrite Hp, Hsz, <- Hck, length_app.
  destruct kt; simpl; [apply Z.leb_le|apply Z.leb_gt]; lia.
Qed.
Lemma is_full_inner n ks kt ss st :
  inner_shape n ks kt ss st -> is_full n = bool_decide (kt = []).
Proof.
  intros [Hp Hsz _ Hck _]. unfold is_full, is_leaf. rewrite Hp, Hsz, <- Hck, length_app.
  destruct kt; simpl; [apply Z.leb_le|apply Z.leb_gt]; lia.
Qed.

(** The leaf that covers [key] holds every entry of [key]. *)
Lemma entry_covering G h l n lo ks kt vs vt key v :
  heap_inv G h -> h !! l = Some n -> G !! l = Some (lo, 0%nat) -> lo <= key < high_key n ->
  leaf_shape n ks kt vs vt -> entry h key v <-> (key, v) ∈ zip ks vs.
Proof.
  intros Hh Hl Gl Hk Hs. rewrite <- (leaf_entries_shape _ _ _ _ _ Hs). split.
  - intros (l' & n' & Hl' & Hin). destruct (leaf_entry_inv _ _ _ _ _ _ Hh Hl' Hin) as (lo' & Gl' & Hk' & _).
    assert (l = l') as -> by (eapply (hi_unique G h l l'); eauto). by simplify_eq.
  - intros Hin. by exists l, n.
Qed.

(** ** [insert_into_leaf] *)

(** Either the key was there, and nothing changes, or it is added. *)
Record leaf_inserted (G : layout) (s : TreeState) (lo key v : Z) (up : ptr * Z)
    (G' : layout) (s' : TreeState) : Prop := {
  li_grown : grown G s lo 0 up G' s';
  li_entries :
    (s' = s /\ exists w, entry (heap s) key w)
    \/ ((forall w, ~ entry (heap s) key w)
        /\ forall k' v', entry (heap s') k' v' <-> (k' = key /\ v' = v) \/ entry (heap s) k' v') }.

Lemma grown_refl G s lo lv : tree_inv G s -> grown G s lo lv (None, 0) G s.
Proof. intros Hi. split; auto. done. Qed.

Lemma leaf_node_inv G n ks kt vs vt lo :
  leaf_shape n ks kt vs vt -> ksorted ks -> Forall (fun k => lo <= k < high_key n) ks ->
  0 <= lo < high_key n -> high_key n <= max_u64 -> sibling_inv G n 0 -> node_inv G n lo 0.
Proof. intros. split; [done|done|]. exists ks, kt, vs, vt. done. Qed.

(** Splitting the covering leaf. *)
Lemma split_leaf_grown G h nx rt ht l n lo ks vs key v :
  tree_inv G (mkTree h nx rt ht) -> h !! l = Some n -> G !! l = Some (lo, 0%nat) ->
  lo <= key < high_key n -> leaf_shape n ks [] vs [] -> ksorted ks ->
  Forall (fun k => lo <= k < high_key n) ks -> key ∉ ks ->
  exists r k0 G' s',
    (right_leaf ← split_leaf_node (Some l) key v;
     m ← deref right_leaf; k ← lift (leaf_key m 0); mret (right_leaf, k)) (mkTree h nx rt ht)
      = Ok ((r, k0), s')
    /\ grown G (mkTree h nx rt ht) lo 0 (r, k0) G' s'
    /\ forall k' v', entry (heap s') k' v' <-> (k' = key /\ v' = v) \/ entry h k' v'.
Proof.
  intros Hi Hl Gl Hk Hsh Hso Hf Hn. pose proof (fresh_next _ _ Hi) as Hr. simpl in Hr.
  assert (Hne : l <> nx) by congruence.
  destruct (split_leaf_spec h nx rt ht l n ks vs key v Hl Hne Hsh Hso Hn)
    as (nl & nr & kl & vl & kr & vr & Hrun & Hsp).
  destruct Hsp as [Hat (ktl & vtl & Hsl) (ktr & vtr & Hsr) Hkl Hb Hs1 Hs2 Hhr Hpl Hpr Hfl Hfr].
  assert (Hso' := inserted_at_sorted _ _ _ _ _ _ Hat Hso Hn).
  assert (Hf' : forall k, k ∈ kl ++ kr -> lo <= k < high_key n).
  { rewrite Forall_forall in Hf. intros k Hin. apply (inserted_at_keys _ _ _ _ _ _ k Hat) in Hin as [->|]; auto. }
  destruct kr as [|b kr]; [done|]. simpl in Hb. simplify_eq.
  apply ksorted_app in Hso' as (Hsol & Hsor & Hlr).
  assert (Hbr : lo < high_key nl < high_key n).
  { destruct kl as [|x kl]; [done|]. pose proof (Hf' x ltac:(set_solver)).
    pose proof (Hf' (high_key nl) ltac:(set_solver)). pose proof (Hlr x (high_key nl)). set_solver by lia. }
  destruct (hi_node _ _ (ti_heap _ _ Hi) _ _ _ _ Hl Gl) as [[Hlo Hhi] Hsib _].
  erewrite ST_bind_ok by exact Hrun.
  erewrite ST_bind_ok by (apply deref_ok; simpl; rewrite lookup_insert_ne by done; apply lookup_insert_eq).
  assert (Hk0 : leaf_key nr 0 = Ok (high_key nl)).
  { unfold leaf_key. destruct Hsr as [-> _ _ _ _]. done. }
  erewrite ST_bind_ok by (apply lift_ok; exact Hk0).
  exists (Some nx), (high_key nl). do 2 eexists. split; [reflexivity|]. split.
  - rewrite <- (adopt_nil None (<[l := nl]> _)), <- (adopt_nil None (adopt [] _ _)).
    eapply tree_inv_split; eauto.
    + eapply leaf_node_inv; eauto; [|lia|lia|].
      * apply Forall_forall. intros k Hin. pose proof (Hf' k ltac:(set_solver)).
        pose proof (Hlr k (high_key nl) Hin ltac:(set_solver)). lia.
      * unfold sibling_inv. rewrite Hs1. apply lookup_insert_eq.
    + eapply leaf_node_inv; eauto; rewrite ?Hhr; [|lia|lia|].
      * apply StronglySorted_cons in Hsor as [Hge _]. rewrite Forall_forall in Hge.
        apply Forall_forall. intros k Hin. pose proof (Hf' k ltac:(set_solver)).
        apply elem_of_cons in Hin as [->|Hin]; [lia|]. specialize (Hge k Hin). simpl in Hge. lia.
      * unfold sibling_inv in *. rewrite Hs2, Hhr. destruct (right_sibling n); [|done].
        rewrite lookup_insert_ne; [done|]. intros <-.
        destruct (hi_lookup _ _ _ _ _ (ti_heap _ _ Hi) Hsib) as (? & ? & _). simpl in *. congruence.
    + rewrite (leaf_size _ _ _ _ _ Hsl). done.
    + rewrite (leaf_size _ _ _ _ _ Hsr). done.
    + intros c ? ? Hin. set_solver.
    + intros c ? ? Hin. set_solver.
  - intros k' v'. simpl.
    rewrite (stored_split h l nx n nl nr (fun k' v' => k' = key /\ v' = v)); [done|done|done|].
    intros k w. rewrite (leaf_entries_shape _ _ _ _ _ Hsl), (leaf_entries_shape _ _ _ _ _ Hsr),
      (leaf_entries_shape _ _ _ _ _ Hsh).
    destruct Hsl as [_ _ Hvl _ _].
    rewrite <- zip_with_app, (inserted_at_zip _ _ _ _ _ _ _ Hat) by done. naive_solver.
Qed.

Lemma insert_into_leaf_inserted G s l n lo key v :
  tree_inv G s -> heap s !! l = Some n -> G !! l = Some (lo, 0%nat) -> lo <= key < high_key n ->
  exists up G' s', insert_into_leaf (Some l) key v s = Ok (up, s')
    /\ leaf_inserted G s lo key v up G' s'.
Proof.
  intros Hi Hl Gl Hk. pose proof (ti_heap _ _ Hi) as Hh. pose proof max_items_bounds.
  destruct (hi_node _ _ Hh _ _ _ _ Hl Gl) as [[Hlo Hhi] Hsib (ks & kt & vs & vt & Hsh & Hso & Hf)].
  pose proof Hsh as [Hp Hsz Hvs Hck Hcv].
  destruct (index_spec n ks kt key) as (l1 & l2 & _ & _ & _ & Hidx); auto.
  { unfold node_keys. by rewrite Hp. }
  { rewrite length_app in Hck. lia. }
  set (i := Z.of_nat (length l1)) in Hidx. clearbody i.
  destruct (index_found n ks kt vs vt key i Hsh Hso Hidx) as (b & Hb & Hbin & _).
  unfold insert_into_leaf. st_run.
  erewrite ST_bind_ok by (apply lift_ok; exact Hidx). erewrite ST_bind_ok by apply Hb.
  assert (Hcov := fun w => entry_covering G (heap s) l n lo ks kt vs vt key w Hh Hl Gl Hk Hsh).
  destruct b.
  { exists (None, 0), G, s. split; [done|]. split; [by apply grown_refl|]. left. split; [done|].
    destruct (zip_key_exists ks vs key Hvs) as [w Hw]; [tauto|]. exists w. by apply Hcov. }
  assert (Hnk : key ∉ ks) by (intros ?%Hbin; done).
  assert (Hno : forall w, ~ entry (heap s) key w).
  { intros w Hw%Hcov. by apply elem_of_zip_l in Hw. }
  rewrite (is_full_leaf _ _ _ _ _ Hsh). destruct s as [h nx rt ht]. simpl in *.
  destruct kt as [|y kt]; simpl.
  - destruct vt as [|z vt]; [|rewrite !length_app in *; simpl in *; lia].
    destruct (split_leaf_grown G h nx rt ht l n lo ks vs key v) as (r & k0 & G' & s' & Hrun & Hg & He); auto.
    exists (r, k0), G', s'. split; [exact Hrun|]. split; [done|]. by right.
  - destruct vt as [|z vt]; [rewrite !length_app in *; simpl in *; lia|].
    destruct (leaf_insert n ks y kt vs z vt key v Hsh Hso)
      as (i' & n' & ks' & vs' & Hidx' & Hins & Hsh' & Hat & Hh1 & Hh2 & Hh3).
    assert (i' = i) as -> by congruence.
    erewrite ST_bind_ok by (eapply update_ok; eauto). do 3 eexists. split; [reflexivity|].
    assert (Hn' : node_inv G n' lo 0).
    { eapply leaf_node_inv; eauto; rewrite ?Hh1; [eapply inserted_at_sorted; eauto| |lia|lia|].
      - apply Forall_forall. rewrite Forall_forall in Hf. intros k Hin.
        apply (inserted_at_keys _ _ _ _ _ _ k Hat) in Hin as [->|]; auto.
      - unfold sibling_inv in *. by rewrite Hh1, Hh2. }
    split; [|right; split; [done|]].
    + split; simpl; eauto.
      * eapply tree_inv_node_update; eauto. rewrite Hsz, (leaf_size _ _ _ _ _ Hsh').
        apply inserted_at_length in Hat. lia.
      * rewrite map_size_insert_Some by eauto. lia.
      * done.
    + intros k' v'. simpl. apply (stored_update h l n n' (fun k' v' => k' = key /\ v' = v)); [done|]. intros k w.
      rewrite (leaf_entries_shape _ _ _ _ _ Hsh'), (leaf_entries_shape _ _ _ _ _ Hsh).
      rewrite (inserted_at_zip _ _ _ _ _ _ _ Hat). naive_solver.
Qed.

(** ** [insert_into_inner] *)
Lemma inner_node_inv G n ks kt ss st lo lv :
  inner_shape n ks kt ss st -> ksorted (lo :: ks) -> Forall (fun k => k < high_key n) ks ->
  Forall2 (child_at G lv) ss (lo :: ks) ->
  0 <= lo < high_key n -> high_key n <= max_u64 -> sibling_inv G n (S lv) -> node_inv G n lo (S lv).
Proof. intros. split; [done|done|]. exists ks, kt, ss, st. done. Qed.

Lemma child_at_mono (G G' : layout) lv ss bs :
  G ⊆ G' -> Forall2 (child_at G lv) ss bs -> Forall2 (child_at G' lv) ss bs.
Proof.
  intros Hsub HF. eapply Forall2_impl; [exact HF|]. intros p b (c & -> & Hc).
  exists c. split; [done|]. by eapply lookup_weaken.
Qed.

(** Inserting a key and its child keeps children and keys aligned. *)
Lemma inserted_at_children (G : layout) lv ks s0 ss key sep ks' ss' lo :
  inserted_at ks ss key sep ks' ss' -> Forall2 (child_at G lv) (s0 :: ss) (lo :: ks) ->
  child_at G lv sep key -> Forall2 (child_at G lv) (s0 :: ss') (lo :: ks').
Proof.
  intros (l1 & l2 & w1 & w2 & -> & -> & Hlen & _ & _ & -> & ->) HF Hc.
  apply Forall2_cons in HF as [H0 HF].
  apply Forall2_app_inv in HF as [HF1 HF2]; [|done].
  constructor; [done|]. apply Forall2_app; [done|]. by constructor.
Qed.

Lemma children_allocated G h lv ss bs :
  heap_inv G h -> Forall2 (child_at G lv) ss bs ->
  forall p, p ∈ ss -> exists c, p = Some c /\ is_Some (h !! c).
Proof.
  intros Hh HF p [i Hi]%list_elem_of_lookup.
  destruct (Forall2_lookup_l _ _ _ _ _ HF Hi) as (b & _ & c & -> & Hc). exists c. split; [done|].
  apply (hi_dom _ _ Hh). eauto.
Qed.

Lemma split_inner_grown G h nx rt ht p n lo lv ks s0 ss key m :
  tree_inv G (mkTree h nx rt ht) -> h !! p = Some n -> G !! p = Some (lo, S lv) ->
  lo <= key < high_key n -> G !! m = Some (key, lv) -> key ∉ lo :: ks ->
  inner_shape n ks [] (s0 :: ss) [] -> ksorted (lo :: ks) -> Forall (fun k => k < high_key n) ks ->
  Forall2 (child_at G lv) (s0 :: ss) (lo :: ks) ->
  exists r up G' s', split_inner_node (Some p) key (Some m) (mkTree h nx rt ht) = Ok ((Some r, up), s')
    /\ grown G (mkTree h nx rt ht) lo (S lv) (Some r, up) G' s'
    /\ forall k' v', entry (heap s') k' v' <-> entry h k' v'.
Proof.
  intros Hi Hp Gp Hk Gm Hn Hsh Hso Hf Hc. pose proof (ti_heap _ _ Hi) as Hh.
  pose proof (fresh_next _ _ Hi) as Hr. simpl in *.
  destruct (hi_lookup _ _ _ _ _ Hh Gm) as (nm & Hm & _).
  destruct (hi_node _ _ Hh _ _ _ _ Hp Gp) as [[Hlo Hhi] Hsib _].
  pose proof Hso as [Hlok Hsok]%StronglySorted_cons.
  destruct (split_inner_spec h nx rt ht p n ks s0 ss key m)
    as (nl & nr & kl & sl & up & kr & sr & pl & Hrun & Hsp & Hplc);
    eauto using children_allocated; try congruence; [|set_solver|].
  { intros ->. simplify_eq. lia. }
  destruct Hsp as [(ss' & Hat & Hss) (ktl & stl & Hsl) (ktr & str & Hsr) Hup Hs1 Hs2 Hhr Hpl Hpr Hfl Hfr].
  assert (Hall := inserted_at_children G lv _ _ _ _ _ _ _ lo Hat Hc ltac:(by exists m)).
  rewrite Hss in Hall. change (lo :: kl ++ up :: kr) with ((lo :: kl) ++ up :: kr) in Hall.
  apply Forall2_app_inv in Hall as [Hcl Hcr]; [|destruct Hsl; simpl; lia].
  assert (Hso' : ksorted (lo :: kl ++ up :: kr)).
  { apply StronglySorted_cons. split; [|eapply inserted_at_sorted; eauto; set_solver].
    rewrite Forall_forall in Hlok |- *. intros x Hx.
    apply (inserted_at_keys _ _ _ _ _ _ x Hat) in Hx as [->|]; [|auto].
    assert (lo <> key) by set_solver. lia. }
  assert (Hf' : forall x, x ∈ kl ++ up :: kr -> x < high_key n).
  { rewrite Forall_forall in Hf. intros x Hx.
    apply (inserted_at_keys _ _ _ _ _ _ x Hat) in Hx as [->|]; [lia|auto]. }
  change (lo :: kl ++ up :: kr) with ((lo :: kl) ++ up :: kr) in Hso'.
  apply ksorted_app in Hso' as (Hsol & Hsor & Hlt).
  assert (Hb : lo < up < high_key n).
  { split; [apply Hlt; set_solver|apply Hf'; set_solver]. }
  assert (Hsub : G ⊆ <[nx := (up, S lv)]> G).
  { apply insert_subseteq. destruct (G !! nx) eqn:E; [|done].
    destruct (proj1 (hi_dom _ _ Hh nx)); [by rewrite E|congruence]. }
  exists nx, up. do 2 eexists. split; [exact Hrun|]. split.
  - eapply tree_inv_split; eauto.
    + eapply inner_node_inv; eauto using child_at_mono; rewrite ?Hup; [|lia|lia|].
      * apply Forall_forall. intros x Hx. apply Hlt; set_solver.
      * unfold sibling_inv. rewrite Hs1, Hup. apply lookup_insert_eq.
    + eapply inner_node_inv; eauto using child_at_mono; rewrite ?Hhr; [|lia|lia|].
      * apply Forall_forall. intros x Hx. apply Hf'. set_solver.
      * unfold sibling_inv in *. rewrite Hs2, Hhr. destruct (right_sibling n); [|done].
        by eapply lookup_weaken.
    + rewrite (inner_size _ _ _ _ _ Hsl). done.
    + rewrite (inner_size _ _ _ _ _ Hsr). done.
    + intros c lo' lv' Hin Gc. destruct Hplc as [->| ->]; [set_solver|].
      apply list_elem_of_singleton in Hin as [= ->]. exists p, lo. split; [done|].
      assert (Gm' : <[nx := (up, S lv)]> G !! m = Some (key, lv)) by (by eapply lookup_weaken).
      assert (Gp' : <[nx := (up, S lv)]> G !! p = Some (lo, S lv)) by (by eapply lookup_weaken).
      rewrite Gc in Gm'. injection Gm' as -> ->. split; [done|lia].
    + intros c lo' lv' (i & Hci)%list_elem_of_lookup Gc.
      destruct (Forall2_lookup_l _ _ _ _ _ Hcr Hci) as (b & Hbi & c' & [= <-] & Gc').
      assert (Gc'' : <[nx := (up, S lv)]> G !! c = Some (b, lv)) by (by eapply lookup_weaken).
      rewrite Gc in Gc''. injection Gc'' as -> ->. exists nx, up. split; [done|]. split; [apply lookup_insert_eq|].
      apply StronglySorted_cons in Hsor as [Hge _]. rewrite Forall_forall in Hge.
      destruct i as [|i]; simpl in Hbi; [injection Hbi as <-; lia|].
      apply Z.lt_le_incl, Hge. by eapply list_elem_of_lookup_2.
  - intros k' v'. simpl. rewrite !entry_adopt.
    rewrite (stored_split h p nx n nl nr (fun _ _ => False)); [naive_solver|done|done|].
    intros k w. rewrite (inner_entries _ _ _ _ _ Hsl), (inner_entries _ _ _ _ _ Hsr),
      (inner_entries _ _ _ _ _ Hsh). set_solver.
Qed.

Lemma insert_into_inner_inserted G s p n lo lv key m :
  tree_inv G s -> heap s !! p = Some n -> G !! p = Some (lo, S lv) -> lo <= key < high_key n ->
  G !! m = Some (key, lv) -> unlinked G (heap s) key lv ->
  exists up G' s', insert_into_inner (Some p) key (Some m) s = Ok (up, s')
    /\ grown G s lo (S lv) up G' s'
    /\ (forall k' v', entry (heap s') k' v' <-> entry (heap s) k' v')
    /\ (is_full n = true -> is_Some up.1).
Proof.
  intros Hi Hp Gp Hk Gm Hu. pose proof (ti_heap _ _ Hi) as Hh.
  destruct (hi_node _ _ Hh _ _ _ _ Hp Gp) as [[Hlo Hhi] Hsib (ks & kt & ss & st & Hsh & Hso & Hf & Hc)].
  assert (Hn := Hu _ _ _ Hp Gp). rewrite (live_keys_inner _ _ _ _ _ Hsh) in Hn.
  destruct ss as [|s0 ss]; [by apply Forall2_nil_cons_inv in Hc|].
  unfold insert_into_inner. st_run.
  rewrite (is_full_inner _ _ _ _ _ Hsh). destruct s as [h nx rt ht]. simpl in *.
  pose proof Hsh as [_ _ Hlen Hck Hcs].
  destruct kt as [|y kt]; simpl.
  - destruct st as [|z st]; [|simpl in *; rewrite !length_app in *; simpl in *; lia].
    destruct (split_inner_grown G h nx rt ht p n lo lv ks s0 ss key m)
      as (r & up & G' & s' & Hrun & Hg & He); auto.
    exists (Some r, up), G', s'. split_and!; done || by eexists.
  - destruct st as [|z st]; [simpl in *; rewrite !length_app in *; simpl in *; lia|].
    pose proof Hso as [Hlok Hsok]%StronglySorted_cons.
    destruct (inner_insert n ks y kt s0 ss z st key (Some m) Hsh Hsok)
      as (i & n' & ks' & ss' & Hidx & Hins & Hsh' & Hat & Hh1 & Hh2 & Hh3).
    erewrite ST_bind_ok by (apply lift_ok; exact Hidx).
    erewrite ST_bind_ok by (eapply update_ok; eauto).
    exists (None, 0), G. eexists. split; [reflexivity|]. split; [|split; [|done]].
    + assert (Hn' : node_inv G n' lo (S lv)).
      { eapply inner_node_inv; eauto; rewrite ?Hh1; try lia.
        - apply StronglySorted_cons. split; [|eapply inserted_at_sorted; eauto; set_solver].
          rewrite Forall_forall in Hlok |- *. intros x Hx.
          apply (inserted_at_keys _ _ _ _ _ _ x Hat) in Hx as [->|]; [|auto].
          assert (lo <> key) by set_solver. lia.
        - rewrite Forall_forall in Hf |- *. intros x Hx.
          apply (inserted_at_keys _ _ _ _ _ _ x Hat) in Hx as [->|]; [lia|auto].
        - eapply inserted_at_children; eauto. by exists m.
        - unfold sibling_inv in *. by rewrite Hh1, Hh2. }
      split; simpl; eauto.
      * eapply tree_inv_node_update; eauto. rewrite (inner_size _ _ _ _ _ Hsh), (inner_size _ _ _ _ _ Hsh').
        apply inserted_at_length in Hat. lia.
      * rewrite map_size_insert_Some by eauto. lia.
      * done.
    + intros k' v'. simpl. rewrite (stored_update h p n n' (fun _ _ => False)); [naive_solver|done|].
      intros k w. rewrite (inner_entries _ _ _ _ _ Hsh'), (inner_entries _ _ _ _ _ Hsh). set_solver.
Qed.

(** ** Probing and overwriting a leaf *)

(** The slot after the live keys of a leaf, which [find] and [update] read when every
    live key is smaller than the one they look for. *)
Definition slot_past_end (n : Node) : option Z := node_keys n !! Z.to_nat (size n).

(** [leaf_key(index(key))] reads the key, a bigger live key, or the slot past the end. *)
Lemma leaf_probe n ks kt vs vt key :
  leaf_shape n ks kt vs vt -> ksorted ks ->
  exists i, index n key = Ok i /\
    ((exists v, (key, v) ∈ zip ks vs /\ leaf_key n i = Ok key /\ value n i = Ok v
        /\ 0 <= i < size n)
     \/ (key ∉ ks) /\ ((exists k, k ∈ ks /\ key < k /\ leaf_key n i = Ok k)
        \/ Forall (fun x => x < key) ks /\ i = size n
           /\ leaf_key n i = match slot_past_end n with Some k => Ok k | None => Fault OutOfBounds end)).
Proof.
  intros Hn Hs. pose proof Hn as [Hp Hsz Hvs Hck _]. pose proof max_items_bounds.
  destruct (index_spec n ks kt key) as (l1 & l2 & Hks & H1 & H2 & Hi); auto.
  { unfold node_keys. by rewrite Hp. }
  { rewrite length_app in Hck. lia. }
  exists (Z.of_nat (length l1)). split; [done|].
  destruct (index_found n ks kt vs vt key _ Hn Hs Hi) as (b & Hb & Hbin & Hbv).
  specialize (Hb unit tt).
  assert (Hlen : size n = Z.of_nat (length l1) + Z.of_nat (length l2))
    by (rewrite Hsz, Hks, length_app; lia).
  destruct l2 as [|x l2]; simpl in Hlen.
  - rewrite (proj2 (Z.ltb_ge _ _)) in Hb by (simpl; lia).
    destruct b; [done|]. right. split; [intros Hin%Hbin; done|]. right.
    rewrite app_nil_r in Hks. subst l1. split; [done|]. split; [done|].
    unfold leaf_key, slot_past_end, node_keys, array_get. rewrite Hp, Hsz.
    rewrite decide_True by lia. done.
  - rewrite (proj2 (Z.ltb_lt _ _)) in Hb by (simpl; lia).
    assert (Hk : leaf_key n (Z.of_nat (length l1)) = Ok x).
    { unfold leaf_key. rewrite Hp, Hks, <- app_assoc. apply array_get_lookup. by apply list_lookup_middle. }
    rewrite Hk in Hb. unfold mbind, ST_bind, lift, mret, ST_ret in Hb. simplify_eq.
    destruct (Z.eqb_spec x key) as [->|Hne].
    + left. destruct (Hbv eq_refl) as (v & Hz & Hk' & Hv). exists v.
      split; [done|]. split; [done|]. split; [done|]. simpl. lia.
    + right. split; [intros Hin%Hbin; done|]. left. exists x. apply Forall_cons in H2 as [? _].
      split; [set_solver|]. split; [lia|done].
Qed.

(** [value(index, v)] replaces the value of the key at [index]. *)
Lemma leaf_overwrite n ks kt vs vt i key v :
  leaf_shape n ks kt vs vt -> ksorted ks -> leaf_key n i = Ok key -> 0 <= i < size n ->
  exists n' vs', set_value n i v = Ok n' /\ leaf_shape n' ks kt vs' vt
    /\ high_key n' = high_key n /\ right_sibling n' = right_sibling n /\ parent n' = parent n
    /\ forall k' v', (k', v') ∈ zip ks vs' <-> (k' = key /\ v' = v) \/ (k' <> key /\ (k', v') ∈ zip ks vs).
Proof.
  intros [Hp Hsz Hvs Hck Hcv] Hs Hk Hi. unfold leaf_key in Hk. rewrite Hp in Hk.
  apply array_get_inv in Hk as [_ Hk]. rewrite lookup_app_l in Hk by lia.
  assert (Hlt : (Z.to_nat i < length vs)%nat) by lia.
  unfold set_value. rewrite Hp. rewrite <- (Z2Nat.id i) by lia.
  rewrite array_set_ok by (rewrite length_app; lia). rewrite insert_app_l by done.
  cbn [mbind outcome_bind]. set (j := Z.to_nat i) in *. clearbody j.
  exists (set_payload (LeafNode (ks ++ kt) (<[j := v]> vs ++ vt)) n), (<[j := v]> vs).
  split; [done|]. split.
  { split; simpl; try done; rewrite ?length_app, ?length_insert in *; done. }
  split; [done|]. split; [done|]. split; [done|]. intros k' v'. rewrite !elem_of_zip_lookup.
  assert (Hinj : forall a b k, ks !! a = Some k -> ks !! b = Some k -> a = b).
  { intros a b k Ha Hb. by eapply NoDup_lookup; eauto using ksorted_NoDup. }
  split.
  - intros (a & Ha & [(<- & -> & _)|[Hne Hv]]%list_lookup_insert_Some).
    + left. by simplify_eq.
    + right. split; [|eauto]. intros ->. by rewrite (Hinj _ _ _ Hk Ha) in Hne.
  - intros [[-> ->]|[Hne (a & Ha & Hv)]].
    + exists j. split; [done|]. by apply list_lookup_insert_eq.
    + exists a. split; [done|]. rewrite list_lookup_insert_ne; [done|]. intros ->. congruence.
Qed.

(** ** A new root over the old one *)
Lemma create_new_root_inv G s r lv m b :
  tree_inv G s -> root_node s = Some r -> G !! r = Some (0, lv) -> G !! m = Some (b, lv) ->
  0 < b -> (forall l lo, G !! l = Some (lo, lv) -> l = r \/ l = m) ->
  exists G' s', create_new_root (Some r) (Some m) b s = Ok (tt, s')
    /\ tree_inv G' s' /\ (exists r', root_node s' = Some r' /\ G' !! r' = Some (0, S lv)
      /\ forall l lo, G' !! l = Some (lo, S lv) -> l = r')
    /\ forall k' v', entry (heap s') k' v' <-> entry (heap s) k' v'.
Proof.
  intros Hi Hroot Gr Gm Hb Honly. pose proof (fresh_next _ _ Hi) as Hnx.
  destruct s as [h nx rt ht]. destruct Hi as [[Hfi1 Hfi2] Hpa Hh Hf (r0 & lv0 & Hr0 & Gr0 & Hht & Htop)].
  simpl in *. rewrite Hroot in Hr0. injection Hr0 as <-. subst ht rt.
  assert (lv0 = lv) as -> by congruence.
  destruct (hi_lookup _ _ _ _ _ Hh Gm) as (nm & Hm & [[Hmb Hmh] _ _]).
  destruct (hi_lookup _ _ _ _ _ Hh Gr) as (nr & Hr & _).
  destruct (create_new_root_spec h nx (Some r) (u16 (Z.of_nat (S lv))) r m b)
    as (root & kt & st & Hrun & Hsh & Hhk & Hsib & Hrp); eauto; try congruence.
  assert (Gnx : G !! nx = None).
  { destruct (G !! nx) eqn:E; [|done]. destruct (proj1 (hi_dom _ _ Hh nx)); [by rewrite E|congruence]. }
  assert (Hsub : G ⊆ <[nx := (0, S lv)]> G).
  { apply insert_subseteq. destruct (G !! nx) eqn:E; [|done].
    destruct (proj1 (hi_dom _ _ Hh nx)); [by rewrite E|congruence]. }
  exists (<[nx := (0, S lv)]> G). eexists. split; [exact Hrun|]. split; [|split].
  - split; simpl.
    + assert (Hnr : forall l n lo lv', <[nx := root]> (adopt [Some r; Some m] (Some nx) h) !! l = Some n ->
        <[nx := (0, S lv)]> G !! l = Some (lo, lv') ->
        (l = nx /\ n = root /\ lv' = S lv) \/ (G !! l = Some (lo, lv') /\ exists n0, h !! l = Some n0 /\ size n = size n0)).
      { intros l n lo lv' [[<- <-]|[Hl Hn]]%lookup_insert_Some Gl.
        - rewrite lookup_insert_eq in Gl. simplify_eq. by left.
        - rewrite lookup_insert_ne in Gl by done. right. split; [done|].
          apply adopt_lookup_Some in Hn as (n0 & Hn0 & [->| ->]); eauto. }
      split.
      * intros l n lo lv' Hn Gl. destruct (Hnr _ _ _ _ Hn Gl) as [(-> & -> & ->)|(Gl' & n0 & Hn0 & ->)].
        -- right. intros l' lo' [[<- _]|[_ Gl']]%lookup_insert_Some; [done|]. apply Htop in Gl'. lia.
        -- destruct (Hfi1 _ _ _ _ Hn0 Gl') as [?|Hsole]; [by left|]. right.
           intros l' lo' [[<- [= _ <-]]|[_ Gl'']]%lookup_insert_Some; [apply Htop in Gl'; lia|exact (Hsole _ _ Gl'')].
      * intros l n lo lv' Hn Gl. destruct (Hnr _ _ _ _ Hn Gl) as [(-> & -> & _)|(Gl' & n0 & Hn0 & ->)].
        -- rewrite (inner_size _ _ _ _ _ Hsh). done.
        -- exact (Hfi2 _ _ _ _ Hn0 Gl').
    + intros l n lo lv' [[<- <-]|[Hl Hn]]%lookup_insert_Some Gl.
      * rewrite lookup_insert_eq in Gl. injection Gl as <- <-. unfold parent_inv. rewrite Hrp.
        intros l lo' lv' [[<- [= _ <-]]|[_ Gl']]%lookup_insert_Some; [lia|]. apply Htop in Gl'. lia.
      * rewrite lookup_insert_ne in Gl by done. rewrite adopt_lookup in Hn.
        apply fmap_Some_1 in Hn as (n0 & Hn0 & ->). case_decide as Hin.
        -- unfold parent_inv. simpl. exists 0. split.
           ++ destruct (decide (lv' = lv)) as [->|Hlv]; [apply lookup_insert_eq|].
              exfalso. apply Hlv. assert (l = r \/ l = m) as [->| ->] by set_solver; congruence.
           ++ destruct (hi_lookup _ _ _ _ _ Hh Gl) as (? & ? & [[? ?] _ _]). lia.
        -- pose proof (Hpa _ _ _ _ Hn0 Gl) as Hp0. unfold parent_inv in *. destruct (parent n0) as [p|] eqn:Hpn.
           ++ destruct Hp0 as (lop & Gp & ?). exists lop. split; [by eapply lookup_weaken|done].
           ++ exfalso. assert (lv' = lv) as -> by (apply Htop in Gl as ?; apply Hp0 in Gr; lia).
              destruct (Honly _ _ Gl) as [->| ->]; set_solver.
    + apply heap_inv_root.
      * by apply heap_inv_adopt.
      * by rewrite adopt_lookup, Hnx.
      * intros l lo lv' Hl. apply Htop in Hl. lia.
      * eapply inner_node_inv; [exact Hsh| | | |rewrite Hhk; unfold max_u64; lia|lia|].
        -- repeat constructor; done.
        -- repeat constructor. lia.
        -- repeat constructor; eexists; (split; [done|]); by eapply lookup_weaken.
        -- unfold sibling_inv. by rewrite Hsib.
    + intros l Hl. rewrite lookup_insert_ne by lia. rewrite adopt_lookup, Hf; [done|lia].
    + exists nx, (S lv). split; [done|]. split; [apply lookup_insert_eq|]. split.
      * unfold u16, wrap. rewrite Z.add_mod_idemp_l by done. f_equal. lia.
      * intros l lo lv' [[??]|[? Hl]]%lookup_insert_Some; simplify_eq; [lia|]. apply Htop in Hl. lia.
  - exists nx. split; [done|]. split; [apply lookup_insert_eq|].
    intros l lo [[<- _]|[_ Gl]]%lookup_insert_Some; [done|]. apply Htop in Gl. lia.
  - intros k' v'. simpl. rewrite stored_fresh by (by rewrite adopt_lookup, Hnx).
    rewrite entry_adopt, (inner_entries _ _ _ _ _ Hsh). set_solver.
Qed.

(** ** The path a descent remembers *)

(** The nodes on the stack are ancestors-or-left-of-ancestors of a node at [(lo, lv)],
    one per level up to [top]. *)
Fixpoint path_ok (G : layout) (lo : Z) (lv : nat) (stack : list loc) (top : nat) : Prop :=
  match stack with
  | [] => lv = top
  | p :: stack => exists lo', G !! p = Some (lo', S lv) /\ lo' <= lo /\ path_ok G lo' (S lv) stack top
  end.

Lemma path_ok_mono G G' lo lo' lv stack top :
  G ⊆ G' -> lo <= lo' -> path_ok G lo lv stack top -> path_ok G' lo' lv stack top.
Proof.
  intros Hsub. revert lo lo' lv. induction stack as [|p stack IH]; intros lo lo' lv Hle; [done|].
  intros (lo1 & Hp & Hle1 & Hok). exists lo1. split; [by eapply lookup_weaken|]. split; [lia|].
  by eapply IH.
Qed.
Lemma path_ok_length G lo lv stack top : path_ok G lo lv stack top -> top = (length stack + lv)%nat.
Proof.
  revert lo lv. induction stack as [|p stack IH]; simpl; [done|].
  intros lo lv (lo' & _ & _ & Hok). apply IH in Hok. lia.
Qed.

(** What the optional path of [locate_leaf] remembers. *)
Definition remembers (path : option NodePath) (G : layout) (lo : Z) (lv top : nat) : Prop :=
  match path with
  | Some p => exists stack, path_stack p stack /\ path_ok G lo lv stack top
  | None => True
  end.

Lemma remembers_mono path G lo lo' lv top :
  lo <= lo' -> remembers path G lo lv top -> remembers path G lo' lv top.
Proof.
  intros Hle. destruct path as [p|]; [|done]. intros (stack & Hst & Hok). exists stack.
  split; [done|]. by eapply path_ok_mono.
Qed.

Lemma remembers_push G path l lo lv lo' top :
  remembers path G lo (S lv) top -> G !! l = Some (lo, S lv) -> lo <= lo' -> (top <= 10)%nat ->
  exists path', (forall S (s : S), (match path with
                | Some p => p' ← lift (path_push p (Some l)); mret (Some p')
                | None => mret None
                end) s = Ok (path', s))
    /\ remembers path' G lo' lv top /\ (is_Some path -> is_Some path').
Proof.
  intros Hr Gl Hle Htop. destruct path as [p|].
  - destruct Hr as (stack & Hst & Hok). pose proof (path_ok_length _ _ _ _ _ Hok).
    destruct (path_push_stack p stack l Hst) as (p' & Hp & Hst'); [lia|].
    exists (Some p'). split; [intros S s; st_run; done|].
    split; [|done]. exists (l :: stack). split; [done|]. by exists lo.
  - by exists None.
Qed.

Lemma layout_size G h : heap_inv G h -> base.size G = base.size h.
Proof.
  intros Hh. rewrite <- !(size_dom (D := gset loc)). f_equal. apply set_eq. intros l.
  rewrite !elem_of_dom. apply (hi_dom _ _ Hh).
Qed.

(** ** What the operations do to the stored map *)

(** The map after inserting; a key that is there keeps its value. *)
Definition insert_new (key v : Z) (m : gmap Z Z) : gmap Z Z :=
  match m !! key with Some _ => m | None => <[key := v]> m end.
Lemma insert_new_size k v m : (base.size (insert_new k v m) <= S (base.size m))%nat.
Proof.
  unfold insert_new. destruct (m !! k) eqn:E; [lia|]. by rewrite map_size_insert_None.
Qed.
(** The map after updating; only a key that is there gets the value. *)
Definition update_present (key v : Z) (m : gmap Z Z) : gmap Z Z :=
  match m !! key with Some _ => <[key := v]> m | None => m end.

Lemma leaf_inserted_contents G t lo key v up G' t' :
  tree_inv G t -> leaf_inserted G t lo key v up G' t' ->
  contents (heap t') = insert_new key v (contents (heap t)).
Proof.
  intros Hi [Hg He]. pose proof (ti_heap _ _ Hi) as Hh.
  pose proof (ti_heap _ _ (gr_inv _ _ _ _ _ _ _ Hg)) as Hh'. unfold insert_new.
  destruct He as [[-> [w Hw%(contents_spec _ _ _ _ Hh)]]|[Hno He]]; [by rewrite Hw|].
  rewrite (proj2 (contents_None _ _ key Hh)) by done. by eapply contents_insert.
Qed.

(** [find] and [update] compare with the slot at [index(key)] even when it lies past the
    live keys.  On this leaf that slot exists and does not hold [key]. *)
Definition probe_safe_leaf (key : Z) (n : Node) : bool :=
  if is_leaf n && forallb (fun k => k <? key) (live_keys n) && (key <? high_key n)
  then match slot_past_end n with Some k => negb (k =? key) | None => false end
  else true.

(** What the leaf that covers [key] says about it. *)
Lemma covering_probe G t l n lo key :
  tree_inv G t -> heap t !! l = Some n -> G !! l = Some (lo, 0%nat) -> lo <= key < high_key n ->
  exists ks kt vs vt i, leaf_shape n ks kt vs vt /\ ksorted ks /\ Forall (fun k => lo <= k < high_key n) ks
    /\ index n key = Ok i
    /\ match contents (heap t) !! key with
       | Some v => leaf_key n i = Ok key /\ value n i = Ok v /\ 0 <= i < size n
       | None => probe_safe_leaf key n = true -> exists k w, k <> key /\ leaf_key n i = Ok k /\ value n i = Ok w
       end.
Proof.
  intros Hi Hn Gl Hkn. pose proof (ti_heap _ _ Hi) as Hh.
  destruct (hi_node _ _ Hh _ _ _ _ Hn Gl) as [_ _ (ks & kt & vs & vt & Hsh & Hso & Hall)].
  destruct (leaf_probe n ks kt vs vt key Hsh Hso) as (i & Hidx & Hcase).
  exists ks, kt, vs, vt, i. do 4 (split; [done|]).
  assert (Hcov := fun w => entry_covering G _ l n lo ks kt vs vt key w Hh Hn Gl Hkn Hsh).
  assert (Hval : forall k, leaf_key n i = Ok k -> exists w, value n i = Ok w).
  { intros k. unfold leaf_key, value. destruct Hsh as [-> _ _ Hc1 Hc2]. unfold array_get.
    case_decide; [|done]. intros Hk. destruct ((ks ++ kt) !! Z.to_nat i) eqn:E; [|done].
    apply lookup_lt_Some in E. destruct (lookup_lt_is_Some_2 (vs ++ vt) (Z.to_nat i)) as [w ->]; [lia|]. eauto. }
  destruct Hcase as [(v & Hz & Hlk' & Hv & Hb)|[Hnot Hcase]].
  - rewrite (proj2 (contents_spec _ _ key v Hh)); [done|]. by apply Hcov.
  - rewrite (proj2 (contents_None _ _ key Hh)).
    2: { intros w Hw'%Hcov. by apply elem_of_zip_l in Hw'. }
    intros Hsafe. destruct Hcase as [(k & _ & ? & Hk)|(Hlt & Hi' & Hlk')].
    { destruct (Hval k Hk) as [w Hw]. exists k, w. split; [lia|done]. }
    unfold probe_safe_leaf in Hsafe.
    assert (Hcond : is_leaf n && forallb (fun k => k <? key) (live_keys n) && (key <? high_key n) = true).
    { rewrite (level_is_leaf _ _ _ _ _ _ Hh Hn Gl), (live_keys_leaf _ _ _ _ _ Hsh). simpl.
      rewrite (proj2 (Z.ltb_lt _ _)) by lia. rewrite andb_true_r. apply Is_true_true, forallb_True.
      eapply Forall_impl; [exact Hlt|]. intros x Hx. by apply Is_true_true, Z.ltb_lt. }
    rewrite Hcond in Hsafe. destruct (slot_past_end n) as [k|]; [|done].
    destruct (Hval k Hlk') as [w Hw]. exists k, w. split; [|done]. apply Z.eqb_neq. by destruct (k =? key).
Qed.

(** Overwriting the value of a live key. *)
Lemma overwrite_contents G t l n lo ks kt vs vt key v i :
  tree_inv G t -> heap t !! l = Some n -> G !! l = Some (lo, 0%nat) -> lo <= key < high_key n ->
  leaf_shape n ks kt vs vt -> ksorted ks -> Forall (fun k => lo <= k < high_key n) ks ->
  leaf_key n i = Ok key -> 0 <= i < size n ->
  exists t', update (Some l) (fun n => set_value n i v) t = Ok (tt, t') /\ tree_inv G t' /\ root_node t' = root_node t
    /\ (exists n', heap t' !! l = Some n') /\ contents (heap t') = <[key := v]> (contents (heap t)).
Proof.
  intros Hi Hn Gl Hkn Hsh Hso Hall Hlk Hb. pose proof (ti_heap _ _ Hi) as Hh.
  destruct (leaf_overwrite n ks kt vs vt i key v Hsh Hso Hlk Hb) as (n' & vs' & Hset & Hsh' & Hhk & Hrs & Hpr & Hz).
  destruct (hi_node _ _ Hh _ _ _ _ Hn Gl) as [[Hlo Hhi] Hsib _].
  destruct t as [h nx rt ht]. simpl in *. eexists. split; [by eapply update_ok|].
  assert (Hi' : tree_inv G (mkTree (<[l := n']> h) nx rt ht)).
  { eapply tree_inv_node_update; eauto.
    - eapply leaf_node_inv; eauto; rewrite ?Hhk; auto. unfold sibling_inv in *. by rewrite Hhk, Hrs.
    - by rewrite (leaf_size _ _ _ _ _ Hsh), (leaf_size _ _ _ _ _ Hsh'). }
  split; [done|]. split; [done|]. split; [eexists; apply lookup_insert_eq|].
  assert (Hone : forall l' m w, h !! l' = Some m -> (key, w) ∈ leaf_entries m -> l' = l).
  { intros l' m w Hm Hin. destruct (leaf_entry_inv _ _ _ _ _ _ Hh Hm Hin) as (lo' & Gl' & Hk' & _).
    by eapply (hi_unique G h l' l). }
  apply stored_map_upsert; [intros ???; by apply (entry_functional G)|intros ???; by apply (entry_functional G _ _ _ _ (ti_heap _ _ Hi'))|].
  apply (stored_upsert h l n n' key v); [done|done|]. intros a w.
  by rewrite (leaf_entries_shape _ _ _ _ _ Hsh'), (leaf_entries_shape _ _ _ _ _ Hsh).
Qed.

(** [up] is null or a node at [lv], right of one at [lo], that no parent knows. *)
Definition pending (G : layout) (h : gmap loc Node) (lo : Z) (lv : nat) (up : ptr * Z) : Prop :=
  up = (None, 0) \/ exists m b, up = (Some m, b) /\ G !! m = Some (b, lv) /\ lo < b /\ unlinked G h b lv.

(** ** The empty tree *)
Lemma new_tree_inv : tree_inv {[ 1%positive := (0, 0%nat) ]} new_tree.
Proof.
  destruct (new_leaf_payload 1 None) as (kt & vt & Hp & Hk & Hv).
  assert (Hone : forall l x, ({[ 1%positive := (0, 0%nat) ]} : layout) !! l = Some x -> l = 1%positive /\ x = (0, 0%nat)).
  { intros l x Hl. apply lookup_singleton_Some in Hl as [<- <-]. done. }
  split.
  - split; simpl; intros l n lo lv Hn Gl; apply Hone in Gl as [-> ?]; [|simplify_eq].
    right. intros l' lo' Gl'. by apply Hone in Gl' as [-> _].
  - simpl. intros l n lo lv Hn Gl. apply Hone in Gl as [-> ?]. apply lookup_singleton_Some in Hn as [_ <-].
    unfold parent_inv. simpl. simplify_eq. intros l lo lv Gl. apply Hone in Gl as [_ ?]. simplify_eq. lia.
  - split; simpl.
    + intros l. destruct (decide (l = 1%positive)) as [->|Hne].
      * rewrite !lookup_singleton_eq. split; eauto.
      * rewrite !lookup_singleton_ne by done. done.
    + intros l n lo lv Hn Hl. apply lookup_singleton_Some in Hn as [<- <-].
      rewrite lookup_singleton_eq in Hl. simplify_eq.
      by apply (leaf_node_inv _ _ [] kt [] vt); simpl; auto using SSorted_nil.
    + intros l1 l2 lo1 lo2 lv n1 Hne H1 H2. apply lookup_singleton_Some in H1 as [<- _], H2 as [<- _]. done.
  - intros l Hl. simpl in *. apply lookup_singleton_ne. lia.
  - exists 1%positive, 0%nat. split; [done|]. split; [apply lookup_singleton_eq|]. split; [done|].
    intros l lo lv Hl. apply lookup_singleton_Some in Hl as [_ ?]. simplify_eq. lia.
Qed.

Lemma new_tree_entries k v : ~ entry (heap new_tree) k v.
Proof.
  intros (l & n & Hl & Hk). unfold new_tree, heap in Hl.
  apply lookup_singleton_Some in Hl as [<- <-].
  unfold leaf_entries in Hk. by apply not_elem_of_nil in Hk.
Qed.

End ThreadTree.
