(* ===== verification/Capacity.v ===== *)
(** * How many entries a tree of a given height holds

    [NodePath] has room for ten nodes, so the operations that remember their path rely
    on the tree having at most eleven levels.  Nodes are half full (except for a lone
    root), so a tree of twelve levels stores a number of entries no memory holds: this
    file counts the entries and the nodes of each level and derives the bound. *)

From S2P Require Import Prelude Node Tree TreeFacts BlinkInv.

(** ** Sums over nodes *)
Section Capacity.
Context {PF : Platform} {PFok : PlatformOk}.

Definition total (f : Node -> Z) (ns : list Node) : Z := foldr (fun n a => f n + a) 0 ns.

#[export] Instance total_perm f : Proper ((≡ₚ) ==> eq) (total f).
Proof. intros ns ns' Hp. induction Hp; simpl; lia. Qed.
Lemma node_total_bound f c ns : (forall n, n ∈ ns -> 0 <= f n <= c) -> 0 <= total f ns <= c * Z.of_nat (length ns).
Proof.
  induction ns as [|n ns IH]; intros Hf; simpl; [lia|].
  pose proof (Hf n ltac:(set_solver)). specialize (IH ltac:(set_solver)). lia.
Qed.
Lemma total_ext f f' ns : (forall n, n ∈ ns -> f n = f' n) -> total f ns = total f' ns.
Proof. induction ns as [|n ns IH]; intros Hf; simpl; [done|]. rewrite Hf, IH by set_solver. done. Qed.

Definition inner_one (n : Node) : Z := Z.b2z (is_inner n).
Definition leaf_one (n : Node) : Z := Z.b2z (is_leaf n).
Definition inner_keys_of (n : Node) : Z := Z.b2z (is_inner n) * size n.
Definition leaf_keys_of (n : Node) : Z := Z.b2z (is_leaf n) * size n.

(** ** The number of stored keys *)
Lemma node_size_bounds G h l n : heap_inv G h -> h !! l = Some n ->
  0 <= size n <= 64 /\ Z.of_nat (length (leaf_entries n)) = leaf_keys_of n /\ NoDup (leaf_entries n).*1.
Proof.
  intros Hh Hl. destruct (hi_layout _ _ _ _ Hh Hl) as (lo & lv & _ & [_ _ Hb]).
  pose proof max_items_bounds. pose proof max_keys_bounds. unfold leaf_keys_of, is_leaf. destruct lv.
  - destruct Hb as (ks & kt & vs & vt & Hs & Hso & _). rewrite (leaf_entries_shape _ _ _ _ _ Hs).
    destruct Hs as [Hp Hsz Hvs Hck _]. rewrite length_app in Hck. rewrite Hp, length_zip_with, Hsz, Hvs, Nat.min_id.
    cbn [Z.b2z]. split; [lia|]. split; [lia|]. rewrite fst_zip by lia. by apply ksorted_NoDup.
  - destruct Hb as (ks & kt & ss & st & Hs & _). rewrite (inner_entries _ _ _ _ _ Hs).
    destruct Hs as [Hp Hsz Hss Hck _]. rewrite length_app in Hck. rewrite Hp, Hsz. split; [lia|]. split; [done|].
    apply NoDup_nil_2.
Qed.

Lemma entries_NoDup G h (ps : list (loc * Node)) :
  heap_inv G h -> NoDup ps.*1 -> (forall l n, (l, n) ∈ ps -> h !! l = Some n) ->
  NoDup (mjoin (leaf_entries <$> ps.*2)).*1.
Proof.
  intros Hh. induction ps as [|[l n] ps IH]; intros Hnd Hin; [apply NoDup_nil_2|].
  rewrite !fmap_cons in *. apply NoDup_cons in Hnd as [Hl Hnd]. cbn [snd].
  change (mjoin (leaf_entries n :: (leaf_entries <$> ps.*2)))
    with (leaf_entries n ++ mjoin (leaf_entries <$> ps.*2)). rewrite fmap_app. apply NoDup_app. split; [|split].
  - eapply (node_size_bounds G h l n); [done|]. apply Hin. set_solver.
  - intros k Hk1 Hk2. apply list_elem_of_fmap in Hk1 as ([k1 v1] & -> & Hk1), Hk2 as ([k2 v2] & Heq & Hk2). simpl in *. subst k2.
    apply list_elem_of_join in Hk2 as (es & Hk2 & Hes). apply list_elem_of_fmap in Hes as (n2 & -> & Hn2).
    apply list_elem_of_fmap in Hn2 as ([l2 n2'] & -> & Hp2). simpl in *.
    pose proof (Hin l n ltac:(set_solver)) as H1. pose proof (Hin l2 n2' ltac:(set_solver)) as H2.
    destruct (leaf_entry_inv _ _ _ _ _ _ Hh H1 Hk1) as (lo1 & G1 & K1 & _).
    destruct (leaf_entry_inv _ _ _ _ _ _ Hh H2 Hk2) as (lo2 & G2 & K2 & _).
    assert (l = l2) as -> by (by eapply (hi_unique G h l l2)). apply Hl. apply list_elem_of_fmap. by exists (l2, n2').
  - apply IH; [done|]. intros. apply Hin. set_solver.
Qed.

Lemma contents_size G h :
  heap_inv G h -> Z.of_nat (base.size (contents h)) = total leaf_keys_of (map_to_list h).*2.
Proof.
  intros Hh. set (es := mjoin (leaf_entries <$> (map_to_list h).*2)).
  assert (Hnd : NoDup es.*1).
  { eapply entries_NoDup; [done|apply NoDup_fst_map_to_list|]. intros l n. apply elem_of_map_to_list. }
  assert (Hc : contents h = list_to_map es).
  { apply map_eq. intros k. apply option_eq. intros v. rewrite (contents_spec G h) by done.
    rewrite <- elem_of_list_to_map by done. unfold es. rewrite list_elem_of_join. split.
    - intros (l & n & Hl & Hk). exists (leaf_entries n). split; [done|]. apply list_elem_of_fmap. exists n. split; [done|].
      apply list_elem_of_fmap. exists (l, n). split; [done|]. by apply elem_of_map_to_list.
    - intros (e & Hk & (n & -> & ([l n'] & -> & Hin)%list_elem_of_fmap)%list_elem_of_fmap).
      exists l, n'. split; [by apply elem_of_map_to_list|done]. }
  rewrite Hc, map_size_list_to_map by done. unfold es.
  assert (Hsz : forall n, n ∈ (map_to_list h).*2 -> Z.of_nat (length (leaf_entries n)) = leaf_keys_of n).
  { intros n ([l n'] & -> & Hin)%list_elem_of_fmap. eapply node_size_bounds; [done|]. by apply elem_of_map_to_list. }
  revert Hsz. generalize ((map_to_list h).*2). intros ns. induction ns as [|n ns IH]; intros Hsz; [done|].
  rewrite fmap_cons. change (mjoin (leaf_entries n :: (leaf_entries <$> ns))) with (leaf_entries n ++ mjoin (leaf_entries <$> ns)).
  cbn [total foldr].
  rewrite length_app, <- (Hsz n) by set_solver. rewrite Nat2Z.inj_add, IH by set_solver. done.
Qed.

(** ** The number of nodes of a level *)
Definition level_set (G : layout) (lv : nat) : gset loc := dom (filter (fun p => p.2.2 = lv) G).
Definition level_count (G : layout) (lv : nat) : nat := base.size (level_set G lv).

Lemma elem_of_level G lv l : l ∈ level_set G lv <-> exists lo, G !! l = Some (lo, lv).
Proof.
  unfold level_set. rewrite elem_of_dom. split.
  - intros ([lo lv'] & [Hl Hp]%map_lookup_filter_Some). simpl in Hp. subst. eauto.
  - intros (lo & Hl). exists (lo, lv). by apply map_lookup_filter_Some.
Qed.

(** The children of an inner node. *)
Definition children_of (n : Node) : list ptr :=
  match payload n with InnerNode _ ss => take (Z.to_nat (size n + 1)) ss | LeafNode _ _ => [] end.

Lemma children_of_ok G n lo lv :
  node_inv G n lo (S lv) ->
  Z.of_nat (length (children_of n)) = size n + 1 /\ NoDup (children_of n)
  /\ forall p, p ∈ children_of n -> exists c b, p = Some c /\ G !! c = Some (b, lv) /\ lo <= b < high_key n.
Proof.
  intros [[Hlo _] _ (ks & kt & ss & st & [Hp Hsz Hss _ _] & Hso & Hr & Hc)].
  unfold children_of. rewrite Hp, Hsz. replace (Z.to_nat (Z.of_nat (length ks) + 1)) with (length ss) by lia.
  rewrite take_app_length. split; [lia|]. split.
  - apply NoDup_alt. intros i j p Hi Hj. destruct (Forall2_lookup_l _ _ _ _ _ Hc Hi) as (b & Hb & c & -> & Gc).
    destruct (Forall2_lookup_l _ _ _ _ _ Hc Hj) as (b' & Hb' & c' & [= <-] & Gc'). simplify_eq.
    eapply NoDup_lookup; [by apply ksorted_NoDup|done|done].
  - intros p (i & Hi)%list_elem_of_lookup. destruct (Forall2_lookup_l _ _ _ _ _ Hc Hi) as (b & Hb & c & -> & Gc).
    exists c, b. split; [done|]. split; [done|]. apply StronglySorted_cons in Hso as [Hlow _].
    rewrite Forall_forall in Hlow, Hr. destruct i as [|i]; simpl in Hb; [simplify_eq; lia|].
    assert (Hin : b ∈ ks) by (by eapply list_elem_of_lookup_2). specialize (Hlow b Hin). specialize (Hr b Hin). simpl in *. lia.
Qed.

(** Distinct nodes of a level have distinct children, all on the level below. *)
Lemma children_disjoint G h lv (ps : list loc) :
  heap_inv G h -> NoDup ps -> (forall p, p ∈ ps -> exists lo, G !! p = Some (lo, S lv)) ->
  exists cs, NoDup cs /\ (forall c, c ∈ cs -> c ∈ level_set G lv)
    /\ (forall c, c ∈ cs -> exists p n, p ∈ ps /\ h !! p = Some n /\ Some c ∈ children_of n)
    /\ (forall k, (forall p n, p ∈ ps -> h !! p = Some n -> k <= size n + 1) ->
          k * Z.of_nat (length ps) <= Z.of_nat (length cs)).
Proof.
  intros Hh. induction ps as [|p ps IH]; intros Hnd Hlv.
  { exists []. split; [apply NoDup_nil_2|]. split; [set_solver|]. split; [set_solver|]. intros. simpl. lia. }
  apply NoDup_cons in Hnd as [Hp Hnd]. destruct (Hlv p ltac:(set_solver)) as (lo & Gp).
  destruct (IH Hnd ltac:(set_solver)) as (cs & Hcs & Hin & Hpar & Hlen).
  destruct (hi_lookup _ _ _ _ _ Hh Gp) as (n & Hn & Hni). destruct (children_of_ok _ _ _ _ Hni) as (Hl & Hndc & Hch).
  assert (Hsome : forall q, q ∈ children_of n -> exists c, q = Some c) by (intros q Hq; destruct (Hch q Hq) as (c & ? & ? & _); eauto).
  assert (exists ds, children_of n = Some <$> ds) as (ds & Hds).
  { clear -Hsome. induction (children_of n) as [|q qs IH]; [by exists []|].
    destruct (Hsome q ltac:(set_solver)) as (c & ->). destruct IH as (ds & ->); [set_solver|]. by exists (c :: ds). }
  assert (Hdlv : forall c, c ∈ ds -> exists b, G !! c = Some (b, lv) /\ lo <= b < high_key n).
  { intros c Hc. destruct (Hch (Some c)) as (c' & b & [= <-] & ? & ?); [rewrite Hds; set_solver|]. eauto. }
  exists (ds ++ cs). split; [|split; [|split]].
  - apply NoDup_app. split; [|split; [|done]].
    + rewrite Hds in Hndc. by apply NoDup_fmap_1 in Hndc.
    + intros c Hc Hc'. destruct (Hdlv c Hc) as (b & Gc & Hb). destruct (Hpar c Hc') as (p' & n' & Hp' & Hn' & Hc'').
      destruct (Hlv p' ltac:(set_solver)) as (lo' & Gp'). pose proof (hi_node _ _ Hh _ _ _ _ Hn' Gp') as Hni'.
      destruct (children_of_ok _ _ _ _ Hni') as (_ & _ & Hch'). destruct (Hch' _ Hc'') as (c0 & b0 & [= <-] & Gc0 & Hb0).
      simplify_eq. assert (p = p') as -> by (eapply (hi_unique G h p p'); eauto). done.
  - intros c [Hc|Hc]%elem_of_app; [|by apply Hin]. destruct (Hdlv c Hc) as (b & Gc & _). apply elem_of_level. eauto.
  - intros c [Hc|Hc]%elem_of_app.
    + exists p, n. split; [set_solver|]. split; [done|]. rewrite Hds. set_solver.
    + destruct (Hpar c Hc) as (p' & n' & ? & ? & ?). exists p', n'. split; [set_solver|done].
  - intros k Hk. rewrite length_app. cbn [length]. specialize (Hlen k ltac:(intros; eapply Hk; set_solver)).
    pose proof (Hk p n ltac:(set_solver) Hn). rewrite Hds, length_fmap in Hl. lia.
Qed.
Lemma level_count_step G h lv k :
  heap_inv G h -> (forall p n lo, G !! p = Some (lo, S lv) -> h !! p = Some n -> k <= size n + 1) ->
  k * Z.of_nat (level_count G (S lv)) <= Z.of_nat (level_count G lv).
Proof.
  intros Hh Hk. destruct (children_disjoint G h lv (elements (level_set G (S lv))) Hh) as (cs & Hnd & Hin & _ & Hlen).
  { apply NoDup_elements. }
  { intros p Hp%elem_of_elements%elem_of_level. done. }
  specialize (Hlen k). unfold level_count at 1.
  assert (Hle : (length cs <= level_count G lv)%nat).
  { unfold level_count. rewrite <- (size_list_to_set (C := gset loc) cs) by done. apply subseteq_size.
    intros c Hc%elem_of_list_to_set. by apply Hin. }
  change (length (elements (level_set G (S lv)))) with (base.size (level_set G (S lv))) in Hlen.
  transitivity (Z.of_nat (length cs)); [|lia]. apply Hlen.
  intros p n Hp%elem_of_elements%elem_of_level Hn. destruct Hp as (lo & Gp). by eapply Hk.
Qed.

(** ** Height and size *)

(** The root is the only node of its level, as it is between operations. *)
Definition root_sole (G : layout) (s : TreeState) : Prop :=
  forall r top, root_node s = Some r -> G !! r = Some (0, top) -> forall l lo, G !! l = Some (lo, top) -> l = r.

Lemma root_sole_intro G s r lv :
  root_node s = Some r -> G !! r = Some (0, lv) -> (forall l lo, G !! l = Some (lo, lv) -> l = r) -> root_sole G s.
Proof.
  intros Hr Gr Hone r' top Hr' Gr' l lo Hl. rewrite Hr in Hr'. injection Hr' as <-.
  rewrite Gr in Gr'. injection Gr' as <-. exact (Hone _ _ Hl).
Qed.
(** While a split travels up, the topmost level holds the root and possibly the node
    [up] that no parent knows. *)
Definition top_known (G : layout) (r : loc) (top lv : nat) (up : ptr * Z) : Prop :=
  forall l lo, G !! l = Some (lo, top) -> l = r \/ lv = top /\ up.1 = Some l.
Lemma top_known_grown G s lo lv up G' s' r top :
  grown G s lo lv up G' s' -> (forall l lo, G !! l = Some (lo, top) -> l = r) -> top_known G' r top lv up.
Proof.
  intros Hg Hsole l lo' Hl. destruct (gr_new _ _ _ _ _ _ _ Hg _ _ Hl) as [Gl|(b & -> & [= -> ->])]; [left|by right].
  exact (Hsole _ _ Gl).
Qed.
Lemma top_known_below G r top lv up :
  top_known G r top lv up -> (lv < top)%nat -> forall l lo, G !! l = Some (lo, top) -> l = r.
Proof. intros Hk Hlt l lo Hl. destruct (Hk _ _ Hl) as [|[-> _]]; [done|lia]. Qed.
Lemma top_known_none G r top lv b s :
  top_known G r top lv (None, b) -> root_node s = Some r -> G !! r = Some (0, top) -> root_sole G s.
Proof.
  intros Hk Hr Gr. eapply root_sole_intro; [done..|]. intros l lo Hl. by destruct (Hk _ _ Hl) as [|[_ ?]].
Qed.

(** Entries a tree with [levels] inner levels has at least. *)
Definition least_entries (levels : nat) : Z :=
  match levels with O => 0 | S k => 2 * (max_keys / 2 + 1) ^ Z.of_nat k * (max_items / 2) end.

Lemma level_count_below G s r k i :
  tree_inv G s -> root_node s = Some r -> G !! r = Some (0, S k) -> (i <= k)%nat ->
  2 * (max_keys / 2 + 1) ^ Z.of_nat i <= Z.of_nat (level_count G (k - i)).
Proof.
  intros [Hfi _ Hh _ _] Hr Gr. pose proof (half_pos 1) as Hhp. simpl in Hhp.
  induction i as [|i IH]; intros Hi.
  - rewrite Nat.sub_0_r. simpl Z.of_nat. rewrite Z.pow_0_r, Z.mul_1_r.
    assert (1 <= Z.of_nat (level_count G (S k))).
    { unfold level_count. assert (r ∈ level_set G (S k)) by (apply elem_of_level; eauto).
      assert (base.size (level_set G (S k)) <> 0%nat); [|lia]. intros He%size_empty_inv. set_solver. }
    pose proof (level_count_step G (heap s) k 2 Hh) as Hstep.
    assert (Hk : forall p n lo, G !! p = Some (lo, S k) -> heap s !! p = Some n -> 2 <= size n + 1).
    { intros p n lo Gp Hp. pose proof (fi_inner _ _ Hfi _ _ _ _ Hp Gp). lia. }
    specialize (Hstep Hk). lia.
  - specialize (IH ltac:(lia)). replace (k - i)%nat with (S (k - S i)) in IH by lia.
    pose proof (level_count_step G (heap s) (k - S i) (max_keys / 2 + 1) Hh) as Hstep.
    assert (H2 : 2 <= Z.of_nat (level_count G (S (k - S i)))).
    { assert (1 <= (max_keys / 2 + 1) ^ Z.of_nat i) by (assert (0 < (max_keys / 2 + 1) ^ Z.of_nat i) by (apply Z.pow_pos_nonneg; lia); lia). lia. }
    assert (Hk : forall p n lo, G !! p = Some (lo, S (k - S i)) -> heap s !! p = Some n -> max_keys / 2 + 1 <= size n + 1).
    { intros p n lo Gp Hp. destruct (fi_half _ _ Hfi _ _ _ _ Hp Gp) as [Hhalf|Hsole]; [simpl in Hhalf; lia|].
      exfalso. assert (Hsub : level_set G (S (k - S i)) ⊆ {[ p ]}).
      { intros c (lo' & Gc)%elem_of_level. apply Hsole in Gc. set_solver. }
      apply subseteq_size in Hsub. rewrite size_singleton in Hsub. unfold level_count in H2. lia. }
    specialize (Hstep Hk). rewrite Nat2Z.inj_succ, Z.pow_succ_r by lia.
    transitivity ((max_keys / 2 + 1) * Z.of_nat (level_count G (S (k - S i)))); [|done]. nia.
Qed.

(** Leaves with at least [c] entries each. *)
Lemma leaves_total G h c :
  heap_inv G h -> 0 <= c ->
  (forall l n lo, h !! l = Some n -> G !! l = Some (lo, 0%nat) -> c <= leaf_keys_of n) ->
  c * Z.of_nat (level_count G 0) <= total leaf_keys_of (map_to_list h).*2.
Proof.
  intros Hh Hc Hleaf. set (leaves := filter (fun p => p.1 ∈ level_set G 0) (map_to_list h)).
  assert (Hcnt : (level_count G 0 <= length leaves)%nat).
  { unfold level_count. rewrite <- (length_fmap fst leaves).
    rewrite <- (size_list_to_set (C := gset loc) leaves.*1).
    - apply subseteq_size. intros l Hl. apply elem_of_list_to_set, list_elem_of_fmap.
      pose proof Hl as (lo & Gl)%elem_of_level. destruct (hi_lookup _ _ _ _ _ Hh Gl) as (n & Hn & _).
      exists (l, n). split; [done|]. apply list_elem_of_filter. split; [done|]. by apply elem_of_map_to_list.
    - eapply sublist_NoDup; [apply (NoDup_fst_map_to_list h)|]. apply fmap_sublist, sublist_filter. }
  assert (Hsum : c * Z.of_nat (length leaves) <= total leaf_keys_of (map_to_list h).*2); [|nia].
  unfold leaves. assert (Hall : forall l n, (l, n) ∈ map_to_list h -> h !! l = Some n) by (intros l n; apply elem_of_map_to_list).
  revert Hall. generalize (map_to_list h). intros ps Hall. induction ps as [|[l n] ps IH]; [simpl; lia|].
  rewrite fmap_cons. cbn [total foldr snd]. specialize (IH ltac:(intros; apply Hall; set_solver)).
  pose proof (Hall l n ltac:(set_solver)) as Hl. rewrite filter_cons. case_decide as Hin; simpl in Hin.
  - apply elem_of_level in Hin as (lo & Gl). pose proof (Hleaf _ _ _ Hl Gl). cbn [length]. unfold total in IH. lia.
  - destruct (node_size_bounds _ _ _ _ Hh Hl) as (? & Hsz & _). unfold total in IH. lia.
Qed.

Lemma height_needs_entries G s r top :
  tree_inv G s -> root_node s = Some r -> G !! r = Some (0, top) ->
  least_entries top <= Z.of_nat (base.size (contents (heap s))).
Proof.
  intros Hi Hr Gr. destruct top as [|k]; [simpl; lia|]. pose proof Hi as [Hfi _ Hh _ _].
  pose proof (level_count_below G s r k k Hi Hr Gr ltac:(lia)) as Hn. rewrite Nat.sub_diag in Hn.
  rewrite (contents_size G) by done. pose proof (half_pos 0) as Hh0. simpl in Hh0. pose proof (half_pos 1) as Hh1. simpl in Hh1.
  assert (Hleaves : max_items / 2 * Z.of_nat (level_count G 0) <= total leaf_keys_of (map_to_list (heap s)).*2).
  { assert (H2 : 2 <= Z.of_nat (level_count G 0)).
    { assert (0 < (max_keys / 2 + 1) ^ Z.of_nat k) by (apply Z.pow_pos_nonneg; lia). lia. }
    assert (Hleaf : forall l n lo, heap s !! l = Some n -> G !! l = Some (lo, 0%nat) -> max_items / 2 <= leaf_keys_of n).
    { intros l n lo Hl Gl. unfold leaf_keys_of. rewrite (level_is_leaf _ _ _ _ _ _ Hh Hl Gl). cbn [bool_decide decide Z.b2z].
      destruct (fi_half _ _ Hfi _ _ _ _ Hl Gl) as [Hhalf|Hsole]; [simpl in *; lia|].
      exfalso. assert (Hsub : level_set G 0 ⊆ {[ l ]}).
      { intros c (lo' & Gc)%elem_of_level. apply Hsole in Gc. set_solver. }
      apply subseteq_size in Hsub. rewrite size_singleton in Hsub. unfold level_count in H2. lia. }
    apply leaves_total; [done|lia|done]. }
  unfold least_entries. nia.
Qed.

(** A tree with fewer entries has at most ten inner levels, as many as [NodePath] holds. *)
Definition entry_capacity : Z := least_entries 11.
Lemma least_entries_mono a b : (a <= b)%nat -> least_entries a <= least_entries b.
Proof.
  intros Hab. pose proof (half_pos 0) as H0. pose proof (half_pos 1) as H1. simpl in H0, H1.
  destruct a as [|a]; simpl.
  - destruct b as [|b]; simpl; [done|].
    assert (0 < (max_keys / 2 + 1) ^ Z.of_nat b) by (apply Z.pow_pos_nonneg; lia). nia.
  - destruct b as [|b]; [lia|]. simpl.
    assert ((max_keys / 2 + 1) ^ Z.of_nat a <= (max_keys / 2 + 1) ^ Z.of_nat b) by (apply Z.pow_le_mono_r; lia). nia.
Qed.
Lemma levels_bounded G s r top :
  tree_inv G s -> root_node s = Some r -> G !! r = Some (0, top) ->
  Z.of_nat (base.size (contents (heap s))) < entry_capacity -> (top <= 10)%nat.
Proof.
  intros Hi Hr Gr Hsz. destruct (decide (top <= 10)%nat) as [|Hgt]; [done|].
  pose proof (height_needs_entries _ _ _ _ Hi Hr Gr). pose proof (least_entries_mono 11 top ltac:(lia)).
  unfold entry_capacity in Hsz. lia.
Qed.

End Capacity.
