(* ===== verification/LatchedTree.v ===== *)
(** * The latched thread tree

    Models [src/src/indices/blinktree/thread/latched/thread_tree.h] and
    [thread_tree.cpp], generic in the node latch ([NodeLatch], instantiated by
    [Spinlock] and [RWSpinLock]).  Run from a tree nobody else holds a latch of, every
    operation terminates without a fault, releases every latch it took, keeps the
    B-link invariant and acts on the stored map as its name says. *)

From S2P Require Import Prelude Node Tree TreeFacts BlinkInv ThreadTree Capacity Locks.

Section LatchedTree.
Context {PF : Platform} {NL : NodeLatch}.

(** ** State and latching *)

(** The tree, the latch words of its nodes (a fresh node has a fresh latch) and the
    spinlock [_lock] of the tree object. *)
Record LatchedState : Type := mkLatched {
  l_tree : TreeState;
  l_latches : gmap loc latch;
  l_lock : bool }.
Abbreviation LM := (ST LatchedState).

Definition latch_of (s : LatchedState) (l : loc) : latch := default latch_init (l_latches s !! l).

Definition on_tree {A} (m : TM A) : LM A := fun s =>
  match m (l_tree s) with
  | Ok (a, t) => Ok (a, mkLatched t (l_latches s) (l_lock s))
  | Fault f => Fault f
  end.
Definition on_latch (f : latch -> option latch) (p : ptr) : LM unit := fun s =>
  match p with
  | Some l =>
      match heap (l_tree s) !! l with
      | Some _ =>
          match f (latch_of s l) with
          | Some x => Ok (tt, mkLatched (l_tree s) (<[l := x]> (l_latches s)) (l_lock s))
          | None => Fault WouldBlock
          end
      | None => Fault NullDeref
      end
  | None => Fault NullDeref
  end.

Definition lock (SHARED : bool) (node : ptr) : LM unit :=
  on_latch (if SHARED then lock_shared else lock_exclusive) node.
Definition unlock (SHARED : bool) (node : ptr) : LM unit :=
  on_latch (fun x => Some (if SHARED then unlock_shared x else unlock_exclusive x)) node.
Definition upgrade (node : ptr) : LM unit := on_latch upgrade_lock node.

Definition lock_tree : LM unit := fun s =>
  if Spinlock.load (l_lock s) then Fault WouldBlock
  else Ok (tt, mkLatched (l_tree s) (l_latches s) (Spinlock.cas_weak false (l_lock s)).2).
Definition unlock_tree : LM unit := fun s =>
  Ok (tt, mkLatched (l_tree s) (l_latches s) (Spinlock.spin_unlock (l_lock s))).

(** ** Operations *)

(** The loops [while (node->high_key() <= key)] that follow right siblings. *)
Fixpoint move_right (fuel : nat) (current : ptr) (key : Z) : LM ptr :=
  match fuel with
  | O => lift (Fault OutOfFuel)
  | S fuel =>
      n ← on_tree (deref current);
      if high_key n <=? key then
        let right := right_sibling n in
        unlock true current;;
        lock true right;;
        move_right fuel right key
      else mret current
  end.

Fixpoint locate_leaf_from (fuel : nat) (current : ptr) (key : Z) (path : option NodePath) :
    LM (ptr * option NodePath) :=
  match fuel with
  | O => lift (Fault OutOfFuel)
  | S fuel' =>
      n ← on_tree (deref current);
      if is_inner n then
        lock true current;;
        current ← move_right fuel current key;
        path ← (match path with
                | Some p => p' ← lift (path_push p current); mret (Some p')
                | None => mret None
                end);
        n ← on_tree (deref current);
        c ← lift (child n key);
        unlock true current;;
        locate_leaf_from fuel' c key path
      else
        lock true current;;
        current ← move_right fuel current key;
        mret (current, path)
  end.
Definition locate_leaf (fuel : nat) (key : Z) (path : option NodePath) : LM (ptr * option NodePath) :=
  r ← on_tree root; locate_leaf_from fuel r key path.

(** [while (up.first && path.is_empty() == false)]; a path holds at most ten nodes. *)
Fixpoint propagate (todo fuel : nat) (up : ptr * Z) (path : NodePath) : LM (ptr * Z) :=
  match up.1 with
  | None => mret up
  | Some _ =>
      if path_is_empty path then mret up
      else
        match todo with
        | O => lift (Fault OutOfFuel)
        | S todo =>
            '(parent, path) ← lift (path_pop path);
            lock true parent;;
            parent ← move_right fuel parent up.2;
            upgrade parent;;
            up ← on_tree (insert_into_inner parent up.2 up.1);
            unlock false parent;;
            propagate todo fuel up path
        end
  end.

Definition insert (fuel : nat) (key v : Z) : LM unit :=
  '(leaf, path) ← locate_leaf fuel key (Some path_init);
  upgrade leaf;;
  up ← on_tree (insert_into_leaf leaf key v);
  unlock false leaf;;
  up ← propagate 10 fuel up (default path_init path);
  match up.1 with
  | None => mret tt
  | Some _ =>
      lock_tree;;
      r ← on_tree root;
      on_tree (create_new_root r up.1 up.2);;
      unlock_tree
  end.

Definition tree_update (fuel : nat) (key v : Z) : LM unit :=
  '(leaf, _) ← locate_leaf fuel key (Some path_init);
  n ← on_tree (deref leaf);
  i ← lift (index n key);
  k ← lift (node_key n i);
  if k =? key then
    upgrade leaf;;
    on_tree (update leaf (fun n => set_value n i v));;
    unlock false leaf
  else unlock true leaf.

Definition find (fuel : nat) (key : Z) : LM Z :=
  '(leaf, _) ← locate_leaf fuel key None;
  n ← on_tree (deref leaf);
  i ← lift (index n key);
  found_key ← lift (leaf_key n i);
  if found_key =? key then
    v ← lift (value n i);
    unlock true leaf;;
    mret v
  else
    unlock true leaf;;
    mret 0.

(** [ThreadTree()] *)
Definition new_latched : LatchedState := mkLatched new_tree ∅ Spinlock.spin_init.

(** ** Latches of a tree that one thread works on *)
Context {PFok : PlatformOk} {NLok : NodeLatchLaws NL}.

Definition all_quiet (s : LatchedState) : Prop := forall l, quiet (latch_of s l).
(** The latch of [l] satisfies [P]; nobody holds another one. *)
Definition only_latched (P : latch -> Prop) (l : loc) (s : LatchedState) : Prop :=
  P (latch_of s l) /\ forall l', l' <> l -> quiet (latch_of s l').
(** Nothing but latches changed. *)
Definition same_tree (s s' : LatchedState) : Prop := l_tree s' = l_tree s /\ l_lock s' = l_lock s.

Lemma latch_of_insert t w b l x l' :
  latch_of (mkLatched t (<[l := x]> w) b) l' = if decide (l = l') then x else latch_of (mkLatched t w b) l'.
Proof. unfold latch_of. simpl. rewrite lookup_insert. by case_decide. Qed.

Lemma on_latch_ok (P Q : latch -> Prop) f s l n x :
  heap (l_tree s) !! l = Some n -> f (latch_of s l) = Some x -> Q x ->
  (forall l', l' <> l -> quiet (latch_of s l')) ->
  exists s', on_latch f (Some l) s = Ok (tt, s') /\ same_tree s s' /\ only_latched Q l s'.
Proof.
  intros Hl Hf Hx Hq. unfold on_latch. rewrite Hl, Hf. eexists. split; [done|]. split; [done|]. split.
  - rewrite latch_of_insert. by rewrite decide_True.
  - intros l' Hne. rewrite latch_of_insert. rewrite decide_False by done. destruct s. by apply Hq.
Qed.

Lemma lock_ok s l n :
  heap (l_tree s) !! l = Some n -> all_quiet s ->
  exists s', lock true (Some l) s = Ok (tt, s') /\ same_tree s s' /\ only_latched shared l s'.
Proof.
  intros Hl Hq. destruct (quiet_lock (latch_of s l)) as (x & Hx & Hs); [auto|].
  by eapply (on_latch_ok quiet); eauto.
Qed.
Lemma upgrade_ok s l n :
  heap (l_tree s) !! l = Some n -> only_latched shared l s ->
  exists s', upgrade (Some l) s = Ok (tt, s') /\ same_tree s s' /\ only_latched upgraded l s'.
Proof.
  intros Hl [Hs Hq]. destruct (shared_upgrade (latch_of s l)) as (x & Hx & Hu); [auto|].
  by eapply (on_latch_ok shared); eauto.
Qed.
Lemma only_quiet l s : only_latched quiet l s -> all_quiet s.
Proof. intros [Hl Ho] l'. destruct (decide (l' = l)) as [->|]; auto. Qed.
Lemma unlock_ok s l n :
  heap (l_tree s) !! l = Some n -> only_latched shared l s ->
  exists s', unlock true (Some l) s = Ok (tt, s') /\ same_tree s s' /\ all_quiet s'.
Proof.
  intros Hl [Hs Hq].
  destruct (on_latch_ok shared quiet (fun x => Some (unlock_shared x)) s l n _ Hl eq_refl)
    as (s' & ? & ? & ?%only_quiet); eauto using shared_unlock.
Qed.
Lemma unlock_upgraded_ok s l n :
  heap (l_tree s) !! l = Some n -> only_latched upgraded l s ->
  exists s', unlock false (Some l) s = Ok (tt, s') /\ same_tree s s' /\ all_quiet s'.
Proof.
  intros Hl [Hs Hq].
  destruct (on_latch_ok upgraded quiet (fun x => Some (unlock_exclusive x)) s l n _ Hl eq_refl)
    as (s' & ? & ? & ?%only_quiet); eauto using upgraded_unlock.
Qed.

Lemma on_tree_ok {A} (m : TM A) s a t :
  m (l_tree s) = Ok (a, t) -> on_tree m s = Ok (a, mkLatched t (l_latches s) (l_lock s)).
Proof. intros H. unfold on_tree. by rewrite H. Qed.
Lemma on_tree_read {A} (m : TM A) s a :
  m (l_tree s) = Ok (a, l_tree s) -> on_tree m s = Ok (a, s).
Proof. intros H. unfold on_tree. rewrite H. by destruct s. Qed.
Lemma latched_deref s l n :
  heap (l_tree s) !! l = Some n -> on_tree (deref (Some l)) s = Ok (n, s).
Proof. intros H. by apply on_tree_read, deref_ok. Qed.

(** ** Moving right *)
Lemma move_right_ok G key fuel : forall s l lo lv,
  heap_inv G (heap (l_tree s)) -> G !! l = Some (lo, lv) -> lo <= key < max_u64 ->
  only_latched shared l s -> (base.size (ahead G lo lv) < fuel)%nat ->
  exists l' n lo' s', move_right fuel (Some l) key s = Ok (Some l', s') /\ same_tree s s'
    /\ only_latched shared l' s' /\ heap (l_tree s) !! l' = Some n
    /\ G !! l' = Some (lo', lv) /\ lo <= lo' <= key /\ key < high_key n.
Proof.
  induction fuel as [|fuel IH]; [lia|]. intros s l lo lv Hh Gl Hk Hs Hf. cbn [move_right].
  destruct (hi_lookup _ _ _ _ _ Hh Gl) as (n & Hl & _).
  erewrite ST_bind_ok by (by apply latched_deref).
  destruct (Z.leb_spec (high_key n) key) as [Hle|Hgt].
  2: { exists l, n, lo, s. repeat split; try done; try apply Hs. lia. }
  destruct (sibling_step _ _ _ _ _ _ key Hh Hl Gl Hle) as (r & Hr & Gr & Hlt); [lia|]. rewrite Hr.
  destruct (unlock_ok s l n Hl Hs) as (s1 & Hrun1 & [Ht1 Hl1] & Hq).
  erewrite ST_bind_ok by exact Hrun1. rewrite <- Ht1 in Hh.
  destruct (hi_lookup _ _ _ _ _ Hh Gr) as (m & Hm & _).
  destruct (lock_ok s1 r m Hm Hq) as (s2 & Hrun2 & [Ht2 Hl2] & Hs2).
  erewrite ST_bind_ok by exact Hrun2. rewrite <- Ht2 in Hh.
  destruct (IH s2 r (high_key n) lv Hh Gr) as (l' & n' & lo' & s' & Hrun & [Ht Hl'] & ?); auto; [lia| |].
  { pose proof (ahead_step G r lo lv (high_key n) lv Gr ltac:(auto)). lia. }
  exists l', n', lo', s'. rewrite Ht2, Ht1 in *. split; [done|]. split; [|intuition lia].
  split; congruence.
Qed.

(** ** Descending *)

Lemma locate_leaf_from_ok G key top fuel : forall lv s l lo path,
  heap_inv G (heap (l_tree s)) -> G !! l = Some (lo, lv) -> lo <= key < max_u64 -> all_quiet s ->
  (base.size (ahead G lo lv) < fuel)%nat -> (top <= 10)%nat -> remembers path G lo lv top ->
  exists l' n lo' path' s', locate_leaf_from fuel (Some l) key path s = Ok ((Some l', path'), s')
    /\ same_tree s s' /\ only_latched shared l' s' /\ heap (l_tree s) !! l' = Some n
    /\ G !! l' = Some (lo', 0%nat) /\ lo' <= key < high_key n
    /\ remembers path' G lo' 0 top /\ (is_Some path -> is_Some path').
Proof.
  induction fuel as [|fuel IH]; [lia|]. intros lv s l lo path Hh Gl Hk Hq Hf Htop Hr.
  cbn [locate_leaf_from].
  destruct (hi_lookup _ _ _ _ _ Hh Gl) as (n & Hl & _).
  erewrite ST_bind_ok by (by apply latched_deref).
  unfold is_inner. rewrite (level_is_leaf _ _ _ _ _ _ Hh Hl Gl).
  destruct (lock_ok s l n Hl Hq) as (s1 & Hrun1 & [Ht1 Hl1] & Hs1). rewrite <- Ht1 in Hh.
  destruct (move_right_ok G key (S fuel) s1 l lo lv)
    as (l2 & n2 & lo2 & s2 & Hrun2 & [Ht2 Hl2] & Hs2 & Hn2 & G2 & Hb & Hhk); auto.
  destruct lv as [|lv]; simpl; rewrite (ST_bind_ok Hrun1), (ST_bind_ok Hrun2).
  { exists l2, n2, lo2, path, s2. rewrite Ht1 in *. split; [done|]. split; [split; congruence|].
    repeat split; try done; try apply Hs2; try lia. eapply remembers_mono; [|exact Hr]; lia. }
  destruct (child_step _ _ _ _ _ _ key Hh Hn2 G2) as (c & b & Hc & Gc & Hbk); [lia|].
  destruct (remembers_push G path l2 lo2 lv b top) as (path' & Hpush & Hr' & Hsome); auto; [|lia|].
  { eapply remembers_mono; [|exact Hr]; lia. }
  rewrite (ST_bind_ok (Hpush _ _)).
  rewrite <- Ht2 in Hh, Hn2. rewrite (ST_bind_ok (latched_deref _ _ _ Hn2)).
  erewrite ST_bind_ok by (apply lift_ok; exact Hc).
  destruct (unlock_ok s2 l2 n2 Hn2 Hs2) as (s3 & Hrun3 & [Ht3 Hl3] & Hq3).
  rewrite (ST_bind_ok Hrun3). rewrite <- Ht3 in Hh.
  destruct (IH lv s3 c b path' Hh Gc) as (l' & n' & lo' & path'' & s' & Hrun & [Ht Hl'] & H'); auto; [lia| |].
  { pose proof (ahead_step G c lo (S lv) b lv Gc ltac:(lia)). lia. }
  exists l', n', lo', path'', s'. rewrite Ht3, Ht2, Ht1 in *. split; [done|].
  split; [split; congruence|]. naive_solver.
Qed.

(** ** Whole trees *)

(** The tree is a B-link tree that nobody works on. *)
Definition well_formed (s : LatchedState) : Prop :=
  (exists G, tree_inv G (l_tree s) /\ root_sole G (l_tree s)) /\ all_quiet s /\ l_lock s = false.
(** The map the tree stores. *)
Definition map_of (s : LatchedState) : gmap Z Z := contents (heap (l_tree s)).
(** Few enough entries for a path to the root to fit into [NodePath]. *)
Definition within_capacity (s : LatchedState) : Prop := Z.of_nat (base.size (map_of s)) < entry_capacity.
(** Fuel that suffices: no loop visits a node twice. *)
Definition enough_fuel (s : LatchedState) : nat := base.size (heap (l_tree s)) + 12.

Lemma locate_leaf_ok G s key fuel path top r :
  tree_inv G (l_tree s) -> all_quiet s -> 0 <= key < max_u64 -> (enough_fuel s <= fuel)%nat ->
  root_node (l_tree s) = Some r -> G !! r = Some (0, top) -> (top <= 10)%nat ->
  path = Some path_init \/ path = None ->
  exists l' n lo' path' s', locate_leaf fuel key path s = Ok ((Some l', path'), s')
    /\ same_tree s s' /\ only_latched shared l' s' /\ heap (l_tree s) !! l' = Some n
    /\ G !! l' = Some (lo', 0%nat) /\ lo' <= key < high_key n
    /\ remembers path' G lo' 0 top /\ (is_Some path -> is_Some path').
Proof.
  intros Hi Hq Hk Hf Hr Gr Htop Hp. pose proof (ti_heap _ _ Hi) as Hh. unfold locate_leaf.
  erewrite ST_bind_ok by (apply on_tree_read; unfold root, gets; by rewrite Hr).
  eapply locate_leaf_from_ok; eauto.
  - pose proof (ahead_bound G 0 top). rewrite (layout_size _ _ Hh) in *. unfold enough_fuel in Hf. lia.
  - destruct Hp as [->| ->]; [|done]. exists []. split; [apply path_init_stack|done].
Qed.

(** ** Propagating splits *)

(** One step of the loop. *)
Lemma propagate_step G s p stack path lo lv top m b todo fuel :
  tree_inv G (l_tree s) -> all_quiet s -> path_stack path (p :: stack) ->
  path_ok G lo lv (p :: stack) top -> (base.size (heap (l_tree s)) < fuel)%nat -> 0 <= lo ->
  G !! m = Some (b, lv) -> lo < b -> unlinked G (heap (l_tree s)) b lv ->
  exists up' path' G' s' lo', propagate (S todo) fuel (Some m, b) path s = propagate todo fuel up' path' s'
    /\ path_stack path' stack /\ path_ok G' lo' (S lv) stack top /\ 0 <= lo'
    /\ grown G (l_tree s) lo' (S lv) up' G' (l_tree s')
    /\ all_quiet s' /\ l_lock s' = l_lock s
    /\ forall k v, entry (heap (l_tree s')) k v <-> entry (heap (l_tree s)) k v.
Proof.
  intros Hi Hq Hst (lo1 & Gp & Hle & Hok) Hf Hlo Gm Hb Hu. pose proof (ti_heap _ _ Hi) as Hh.
  cbn [propagate fst snd]. rewrite (path_is_empty_stack _ _ Hst), bool_decide_false by done.
  destruct (path_pop_stack _ _ _ Hst) as (path' & Hpop & Hst').
  erewrite ST_bind_ok by (apply lift_ok; exact Hpop). cbn beta iota.
  destruct (hi_lookup _ _ _ _ _ Hh Gp) as (np & Hp & [[Hlo1 _] _ _]).
  destruct (hi_lookup _ _ _ _ _ Hh Gm) as (nm & Hm & [Hbm _ _]).
  destruct (lock_ok s p np Hp Hq) as (s1 & Hrun1 & [Ht1 Hl1] & Hs1). rewrite (ST_bind_ok Hrun1).
  destruct (move_right_ok G b fuel s1 p lo1 (S lv))
    as (q & nq & lo2 & s2 & Hrun2 & [Ht2 Hl2] & Hs2 & Hnq & Gq & Hb2 & Hhk); rewrite ?Ht1; auto; [lia| |].
  { pose proof (ahead_bound G lo1 (S lv)). rewrite (layout_size _ _ Hh) in *. lia. }
  rewrite (ST_bind_ok Hrun2). rewrite <- Ht2 in Hnq.
  destruct (upgrade_ok s2 q nq Hnq Hs2) as (s3 & Hrun3 & [Ht3 Hl3] & Hs3). rewrite (ST_bind_ok Hrun3).
  assert (Ht : l_tree s3 = l_tree s) by congruence. rewrite <- Ht3, Ht in Hnq.
  destruct (insert_into_inner_inserted G (l_tree s) q nq lo2 lv b m) as (up' & G' & t' & Hins & Hg & He & _); auto.
  { lia. }
  rewrite <- Ht in Hins. rewrite (ST_bind_ok (on_tree_ok _ _ _ _ Hins)).
  set (s4 := mkLatched t' (l_latches s3) (l_lock s3)).
  destruct (hi_lookup G' (heap t') q lo2 (S lv)) as (nq' & Hnq' & _).
  { apply (ti_heap _ _ (gr_inv _ _ _ _ _ _ _ Hg)). }
  { eapply lookup_weaken; [exact Gq|]. apply (gr_sub _ _ _ _ _ _ _ Hg). }
  destruct (unlock_upgraded_ok s4 q nq' Hnq' Hs3) as (s5 & Hrun5 & [Ht5 Hl5] & Hq5).
  rewrite (ST_bind_ok Hrun5).
  exists up', path', G', s5, lo2. rewrite Ht5. split; [done|]. split; [done|]. split.
  { eapply path_ok_mono; [apply (gr_sub _ _ _ _ _ _ _ Hg)| |exact Hok]. lia. }
  split; [lia|]. split; [done|]. split; [done|]. split; [simpl in *; congruence|done].
Qed.

Lemma propagate_ok fuel r : forall stack todo G s path lo lv top up,
  tree_inv G (l_tree s) -> all_quiet s -> path_stack path stack -> path_ok G lo lv stack top ->
  (length stack <= todo)%nat -> (base.size (heap (l_tree s)) + length stack < fuel)%nat -> 0 <= lo ->
  pending G (heap (l_tree s)) lo lv up -> top_known G r top lv up ->
  exists up' G' s', propagate todo fuel up path s = Ok (up', s')
    /\ tree_inv G' (l_tree s') /\ G ⊆ G' /\ root_node (l_tree s') = root_node (l_tree s)
    /\ all_quiet s' /\ l_lock s' = l_lock s
    /\ (forall k v, entry (heap (l_tree s')) k v <-> entry (heap (l_tree s)) k v)
    /\ (up' = (None, 0) \/ exists m b, up' = (Some m, b) /\ G' !! m = Some (b, top) /\ 0 < b)
    /\ top_known G' r top top up'.
Proof.
  induction stack as [|p stack IH]; intros todo G s path lo lv top up Hi Hq Hst Hok Htodo Hf Hlo Hup Htk.
  { exists up, G, s. split.
    - destruct todo, up as [[m|] b]; cbn [propagate fst]; rewrite ?(path_is_empty_stack _ _ Hst); done.
    - repeat (split; [done|]). simpl in Hok. subst. split; [|done].
      destruct Hup as [|(m & b & -> & Gm & Hb & _)]; [by left|right]. exists m, b. split; [done|]. split; [done|lia]. }
  destruct Hup as [->|(m & b & -> & Gm & Hb & Hu)].
  { exists (None, 0), G, s. split; [by destruct todo|]. repeat (split; [done|]). split; [by left|].
    intros l lo' Hl. destruct (Htk _ _ Hl) as [?|[_ ?]]; [by left|done]. }
  destruct todo as [|todo]; [simpl in *; lia|]. simpl in Htodo, Hf.
  pose proof (path_ok_length _ _ _ _ _ Hok) as Hlen. simpl in Hlen.
  destruct (propagate_step G s p stack path lo lv top m b todo fuel)
    as (up1 & path1 & G1 & s1 & lo1 & -> & Hst1 & Hok1 & Hlo1 & Hg & Hq1 & Hl1 & He1); auto; [lia|].
  pose proof (top_known_grown _ _ _ _ _ _ _ r top Hg (top_known_below _ _ _ _ _ Htk ltac:(lia))) as Htk1.
  destruct Hg as [Hi1 Hsub1 Hr1 Hsz1 _ Hup1 _].
  destruct (IH todo G1 s1 path1 lo1 (S lv) top up1) as (up' & G' & s' & Hrun & Hi' & Hsub & Hr & Hq' & Hl' & He & Hup');
    auto; try lia.
  exists up', G', s'. split; [done|]. split; [done|]. split; [by transitivity G1|].
  split; [congruence|]. split; [done|]. split; [congruence|]. split; [|done].
  intros k v. by rewrite He, He1.
Qed.

(** ** Operations on a well-formed tree *)

Lemma well_formed_root s :
  well_formed s -> exists G r top, tree_inv G (l_tree s) /\ root_sole G (l_tree s)
    /\ root_node (l_tree s) = Some r /\ G !! r = Some (0, top) /\ all_quiet s /\ l_lock s = false
    /\ (within_capacity s -> (top <= 10)%nat).
Proof.
  intros ((G & Hi & Hd) & Hq & Hl). pose proof Hi as [_ _ _ _ (r & top & Hr & Gr & _ & _)].
  exists G, r, top. split_and!; try done. intros Hc. by eapply levels_bounded.
Qed.

(** Everything [insert] does before it grows a root. *)
Lemma insert_below_root s key v fuel :
  well_formed s -> within_capacity s -> 0 <= key < max_u64 -> (enough_fuel s <= fuel)%nat ->
  exists G s1 up r top,
    insert fuel key v s = (match up.1 with
      | None => mret tt
      | Some _ => lock_tree;; r ← on_tree root; on_tree (create_new_root r up.1 up.2);; unlock_tree
      end) s1
    /\ tree_inv G (l_tree s1) /\ all_quiet s1 /\ l_lock s1 = false
    /\ map_of s1 = insert_new key v (map_of s)
    /\ root_node (l_tree s1) = Some r /\ G !! r = Some (0, top)
    /\ (up = (None, 0) \/ exists m b, up = (Some m, b) /\ G !! m = Some (b, top) /\ 0 < b)
    /\ top_known G r top top up.
Proof.
  intros Hw Hd Hk Hf. destruct (well_formed_root _ Hw) as (G & r & top & Hi & Hsole & Hr & Gr & Hq & Hlk & Htop).
  specialize (Htop Hd).
  destruct (locate_leaf_ok G s key fuel (Some path_init) top r)
    as (l & n & lo & path & s1 & Hrun1 & [Ht1 Hl1] & Hs1 & Hn & Gl & Hkn & Hrem & Hsome); auto.
  destruct (Hsome ltac:(eauto)) as [p ->]. destruct Hrem as (stack & Hst & Hok).
  unfold insert. rewrite (ST_bind_ok Hrun1). cbn beta iota.
  rewrite <- Ht1 in Hn. destruct (upgrade_ok s1 l n Hn Hs1) as (s2 & Hrun2 & [Ht2 Hl2] & Hs2).
  rewrite (ST_bind_ok Hrun2). assert (Ht : l_tree s2 = l_tree s) by congruence.
  rewrite Ht1 in Hn.
  destruct (insert_into_leaf_inserted G (l_tree s) l n lo key v Hi Hn Gl Hkn) as (up & G1 & t1 & Hins & Hli).
  rewrite <- Ht in Hins. rewrite (ST_bind_ok (on_tree_ok _ _ _ _ Hins)).
  pose proof (leaf_inserted_contents _ _ _ _ _ _ _ _ Hi Hli) as Hc.
  destruct Hli as [Hg _]. pose proof (top_known_grown _ _ _ _ _ _ _ r top Hg (Hsole _ _ Hr Gr)) as Htk.
  destruct Hg as [Hi1 Hsub1 Hr1 Hsz1 _ Hup1 _].
  destruct (hi_node _ _ (ti_heap _ _ Hi) _ _ _ _ Hn Gl) as [[[Hlo _] _] _ _].
  destruct (hi_lookup G1 (heap t1) l lo 0) as (n1 & Hn1 & _); [apply Hi1|by eapply lookup_weaken|].
  set (s3 := mkLatched t1 (l_latches s2) (l_lock s2)).
  destruct (unlock_upgraded_ok s3 l n1 Hn1 Hs2) as (s4 & Hrun4 & [Ht4 Hl4] & Hq4).
  rewrite (ST_bind_ok Hrun4). pose proof (path_ok_length _ _ _ _ _ Hok) as Hlen.
  unfold enough_fuel in Hf.
  destruct (propagate_ok fuel r stack 10 G1 s4 p lo 0 top up)
    as (up' & G' & s' & Hrun & Hi' & Hsub & Hr' & Hq' & Hl' & He & Hup');
    rewrite ?Ht4; simpl; auto; try lia; [by eapply path_ok_mono; [..|exact Hok]|].
  rewrite (ST_bind_ok Hrun). rewrite Ht4 in *. simpl in *.
  exists G', s', up', r, top. split; [done|]. split; [done|]. split; [done|].
  split; [congruence|]. split.
  { unfold map_of. rewrite <- Hc. eapply contents_ext; [apply Hi1|apply Hi'|done]. }
  split; [congruence|]. split; [|done].
  eapply lookup_weaken; [exact Gr|]. by transitivity G1.
Qed.

Lemma insert_refines s key v fuel :
  well_formed s -> within_capacity s -> 0 <= key < max_u64 -> (enough_fuel s <= fuel)%nat ->
  exists s', insert fuel key v s = Ok (tt, s') /\ well_formed s'
    /\ map_of s' = insert_new key v (map_of s).
Proof.
  intros Hw Hd Hk Hf.
  destruct (insert_below_root s key v fuel Hw Hd Hk Hf)
    as (G & s1 & up & r & top & -> & Hi & Hq & Hl & Hm & Hr & Gr & Hup & Htk).
  destruct Hup as [->|(m & b & -> & Gm & Hb)]; cbn [fst snd].
  { exists s1. split; [done|]. split; [|done]. split; [|done]. exists G. split; [done|].
    by eapply top_known_none. }
  destruct (create_new_root_inv G (l_tree s1) r top m b Hi Hr Gr Gm Hb)
    as (G' & t' & Hrun & Hi' & (r' & Hr' & Gr' & Hone) & He).
  { intros l lo Hl'. destruct (Htk _ _ Hl') as [|[_ [= ->]]]; auto. }
  unfold lock_tree. unfold mbind at 1, ST_bind at 1. rewrite Hl. simpl.
  erewrite ST_bind_ok by (apply on_tree_read; unfold root, gets; simpl; by rewrite Hr).
  erewrite ST_bind_ok by (apply on_tree_ok; simpl; exact Hrun). eexists. split; [done|]. split.
  - split; [|done]. exists G'. split; [done|]. by eapply root_sole_intro.
  - rewrite <- Hm. unfold map_of. simpl. eapply contents_ext; [apply Hi|apply Hi'|done].
Qed.

(** ** Lookups and updates *)

Definition probe_safe (key : Z) (s : LatchedState) : Prop :=
  map_Forall (fun _ n => probe_safe_leaf key n = true) (heap (l_tree s)).

(** Where [locate_leaf] ends, and what the leaf says about [key]. *)
Lemma locate_probe s key fuel path :
  well_formed s -> within_capacity s -> 0 <= key < max_u64 -> (enough_fuel s <= fuel)%nat ->
  path = Some path_init \/ path = None ->
  exists G l n lo path' s1 ks kt vs vt i,
    locate_leaf fuel key path s = Ok ((Some l, path'), s1) /\ same_tree s s1
    /\ only_latched shared l s1 /\ heap (l_tree s1) !! l = Some n
    /\ tree_inv G (l_tree s) /\ root_sole G (l_tree s)
    /\ G !! l = Some (lo, 0%nat) /\ lo <= key < high_key n /\ leaf_shape n ks kt vs vt /\ ksorted ks
    /\ Forall (fun k => lo <= k < high_key n) ks
    /\ index n key = Ok i
    /\ match map_of s !! key with
       | Some v => leaf_key n i = Ok key /\ value n i = Ok v /\ 0 <= i < size n
       | None => (exists k, k <> key /\ leaf_key n i = Ok k)
           \/ (is_leaf n && forallb (fun k => k <? key) (live_keys n) && (key <? high_key n) = true
              /\ leaf_key n i = match slot_past_end n with Some k => Ok k | None => Fault OutOfBounds end)
       end.
Proof.
  intros Hw Hd Hk Hf Hp.
  destruct (well_formed_root _ Hw) as (G & r & top & Hi & Hsole & Hr & Gr & Hq & Hlk & Htop).
  destruct (locate_leaf_ok G s key fuel path top r)
    as (l & n & lo & path' & s1 & Hrun1 & [Ht1 Hl1] & Hs1 & Hn & Gl & Hkn & _); auto.
  pose proof (ti_heap _ _ Hi) as Hh.
  destruct (hi_node _ _ Hh _ _ _ _ Hn Gl) as [_ _ (ks & kt & vs & vt & Hsh & Hso & Hall)].
  destruct (leaf_probe n ks kt vs vt key Hsh Hso) as (i & Hidx & Hcase).
  exists G, l, n, lo, path', s1, ks, kt, vs, vt, i. rewrite Ht1.
  split_and!; try done; try lia.
  assert (Hcov := fun w => entry_covering G _ l n lo ks kt vs vt key w Hh Hn Gl Hkn Hsh).
  destruct Hcase as [(v & Hz & Hlk' & Hv & Hb)|[Hnot Hcase]].
  - unfold map_of. rewrite (proj2 (contents_spec _ _ key v Hh)); [done|]. by apply Hcov.
  - unfold map_of. rewrite (proj2 (contents_None _ _ key Hh)).
    2: { intros w Hw'%Hcov. by apply elem_of_zip_l in Hw'. }
    destruct Hcase as [(k & _ & ? & ?)|(Hlt & Hi' & Hlk')]; [left; exists k; split; [lia|done]|right]. split; [|done].
    rewrite (level_is_leaf _ _ _ _ _ _ Hh Hn Gl), (live_keys_leaf _ _ _ _ _ Hsh). simpl.
    rewrite (proj2 (Z.ltb_lt _ _)) by lia. rewrite andb_true_r. apply Is_true_true, forallb_True.
    eapply Forall_impl; [exact Hlt|]. intros x Hx. by apply Is_true_true, Z.ltb_lt.
Qed.

Lemma same_tree_well_formed s s' :
  same_tree s s' -> well_formed s -> all_quiet s' -> well_formed s'.
Proof. intros [Ht Hl] (HG & _ & Hlk) Hq. split; [by rewrite Ht|]. split; congruence || done. Qed.

Lemma find_refines s key fuel :
  well_formed s -> within_capacity s -> 0 <= key < max_u64 -> (enough_fuel s <= fuel)%nat ->
  is_Some (map_of s !! key) \/ probe_safe key s ->
  exists s', find fuel key s = Ok (default 0 (map_of s !! key), s')
    /\ well_formed s' /\ map_of s' = map_of s.
Proof.
  intros Hw Hd Hk Hf Hsafe.
  destruct (locate_probe s key fuel None Hw Hd Hk Hf ltac:(auto)) as (G & l & n & lo & path' & s1 & ks & kt
    & vs & vt & i & Hrun1 & Hsame & Hs1 & Hn & _ & _ & _ & _ & _ & _ & _ & Hidx & Hcase).
  unfold find. rewrite (ST_bind_ok Hrun1). cbn beta iota.
  rewrite (ST_bind_ok (latched_deref _ _ _ Hn)).
  rewrite (ST_bind_ok (lift_ok Hidx)).
  destruct (unlock_ok s1 l n Hn Hs1) as (s2 & Hrun2 & Hsame2 & Hq2).
  assert (Hst : same_tree s s2) by (destruct Hsame, Hsame2; split; congruence).
  assert (Hm : map_of s2 = map_of s) by (unfold map_of; by destruct Hst as [-> _]).
  assert (Hmiss : forall k, leaf_key n i = Ok k -> map_of s !! key = None -> k <> key ->
    (found_key ← lift (leaf_key n i);
     if found_key =? key then v ← lift (value n i); unlock true (Some l);; mret v
     else unlock true (Some l);; mret 0) s1 = Ok (0, s2)).
  { intros k Hlk _ Hne. rewrite (ST_bind_ok (lift_ok Hlk)).
    rewrite (proj2 (Z.eqb_neq _ _)) by done. by rewrite (ST_bind_ok Hrun2). }
  exists s2. split; [|split; [by eapply same_tree_well_formed|done]].
  destruct (map_of s !! key) as [v|] eqn:E.
  - destruct Hcase as (Hlk & Hv & _). rewrite (ST_bind_ok (lift_ok Hlk)), Z.eqb_refl.
    rewrite (ST_bind_ok (lift_ok Hv)). by rewrite (ST_bind_ok Hrun2).
  - destruct Hcase as [(k & Hne & Hlk)|[Hcov Hlk]]; [by eapply Hmiss|].
    destruct Hsafe as [[? ?]|Hsafe]; [done|]. destruct Hsame as [Ht1 _]. rewrite Ht1 in Hn.
    specialize (Hsafe l n Hn). simpl in Hsafe. unfold probe_safe_leaf in Hsafe. rewrite Hcov in Hsafe.
    destruct (slot_past_end n) as [k|]; [|done]. eapply Hmiss; eauto.
    apply Z.eqb_neq. by destruct (k =? key).
Qed.

Lemma update_refines s key v fuel :
  well_formed s -> within_capacity s -> 0 <= key < max_u64 -> (enough_fuel s <= fuel)%nat ->
  is_Some (map_of s !! key) \/ probe_safe key s ->
  exists s', tree_update fuel key v s = Ok (tt, s') /\ well_formed s'
    /\ map_of s' = update_present key v (map_of s).
Proof.
  intros Hw Hd Hk Hf Hsafe. pose proof Hw as (_ & _ & Hlock).
  destruct (locate_probe s key fuel (Some path_init) Hw Hd Hk Hf ltac:(auto)) as (G & l & n & lo & path' & s1
    & ks & kt & vs & vt & i & Hrun1 & Hsame & Hs1 & Hn & Hi & Hsole & Gl & Hkn & Hsh & Hso & Hall & Hidx & Hcase).
  pose proof Hsame as [Ht1 Hl1]. assert (Hnt := Hn). rewrite Ht1 in Hnt.
  unfold tree_update. rewrite (ST_bind_ok Hrun1). cbn beta iota.
  rewrite (ST_bind_ok (latched_deref _ _ _ Hn)).
  rewrite (ST_bind_ok (lift_ok Hidx)).
  unfold node_key. rewrite (level_is_leaf _ _ _ _ _ _ (ti_heap _ _ Hi) Hnt Gl). simpl.
  unfold update_present. destruct (map_of s !! key) as [w|] eqn:E.
  - destruct Hcase as (Hlk & _ & Hb). rewrite (ST_bind_ok (lift_ok Hlk)), Z.eqb_refl.
    destruct (upgrade_ok s1 l n Hn Hs1) as (s2 & Hrun2 & [Ht2 Hl2] & Hs2). rewrite (ST_bind_ok Hrun2).
    destruct (overwrite_contents G (l_tree s) l n lo ks kt vs vt key v i)
      as (t' & Hrun3 & Hi' & Hrt & [n' Hn'] & Hc); auto.
    rewrite <- Ht1, <- Ht2 in Hrun3. rewrite (ST_bind_ok (on_tree_ok _ _ _ _ Hrun3)).
    destruct (unlock_upgraded_ok (mkLatched t' (l_latches s2) (l_lock s2)) l n' Hn' Hs2)
      as (s4 & Hrun4 & [Ht4 Hl4] & Hq4).
    exists s4. split; [done|]. simpl in *. split; [|unfold map_of; by rewrite Ht4].
    split; [exists G; rewrite Ht4; split; [done|]; unfold root_sole; by rewrite Hrt|]. split; congruence || done.
  - destruct (unlock_ok s1 l n Hn Hs1) as (s2 & Hrun2 & Hsame2 & Hq2).
    assert (Hst : same_tree s s2) by (destruct Hsame, Hsame2; split; congruence).
    assert (Hm : map_of s2 = map_of s) by (unfold map_of; by destruct Hst as [-> _]).
    assert (Hmiss : exists k, k <> key /\ leaf_key n i = Ok k).
    { destruct Hcase as [?|[Hcov Hlk]]; [done|]. destruct Hsafe as [[? ?]|Hsafe]; [done|].
      specialize (Hsafe l n Hnt). simpl in Hsafe. unfold probe_safe_leaf in Hsafe. rewrite Hcov in Hsafe.
      destruct (slot_past_end n) as [k|]; [|done]. exists k. split; [|done].
      apply Z.eqb_neq. by destruct (k =? key). }
    destruct Hmiss as (k & Hne & Hlk). rewrite (ST_bind_ok (lift_ok Hlk)).
    rewrite (proj2 (Z.eqb_neq _ _)) by done.
    exists s2. split; [done|]. split; [by eapply same_tree_well_formed|done].
Qed.

(** ** Keys no node covers, slots no leaf has *)

(** Nothing covers the largest key: the rightmost node of a level has it as its high
    key and no right sibling. *)
Lemma move_right_max G fuel : forall s l lo lv,
  heap_inv G (heap (l_tree s)) -> G !! l = Some (lo, lv) -> only_latched shared l s ->
  (base.size (ahead G lo lv) < fuel)%nat -> move_right fuel (Some l) max_u64 s = Fault NullDeref.
Proof.
  induction fuel as [|fuel IH]; [lia|]. intros s l lo lv Hh Gl Hs Hf. cbn [move_right].
  destruct (hi_lookup _ _ _ _ _ Hh Gl) as (n & Hl & [[Hlo Hhi] Hsib _]).
  rewrite (ST_bind_ok (latched_deref _ _ _ Hl)), (proj2 (Z.leb_le _ _)) by done.
  destruct (unlock_ok s l n Hl Hs) as (s1 & Hrun1 & [Ht1 Hl1] & Hq). rewrite (ST_bind_ok Hrun1).
  unfold sibling_inv in Hsib. destruct (right_sibling n) as [r|]; [|done].
  rewrite <- Ht1 in Hh. destruct (hi_lookup _ _ _ _ _ Hh Hsib) as (m & Hm & _).
  destruct (lock_ok s1 r m Hm Hq) as (s2 & Hrun2 & [Ht2 Hl2] & Hs2). rewrite (ST_bind_ok Hrun2).
  rewrite <- Ht2 in Hh. eapply IH; eauto.
  pose proof (ahead_step G r lo lv (high_key n) lv Hsib ltac:(lia)). lia.
Qed.

Lemma locate_leaf_max s fuel path :
  well_formed s -> (enough_fuel s <= fuel)%nat -> locate_leaf fuel max_u64 path s = Fault NullDeref.
Proof.
  intros Hw Hf. destruct (well_formed_root _ Hw) as (G & r & top & Hi & _ & Hr & Gr & Hq & _).
  pose proof (ti_heap _ _ Hi) as Hh. unfold locate_leaf.
  erewrite ST_bind_ok by (apply on_tree_read; unfold root, gets; by rewrite Hr).
  unfold enough_fuel in Hf. destruct fuel as [|fuel]; [lia|]. cbn [locate_leaf_from].
  destruct (hi_lookup _ _ _ _ _ Hh Gr) as (n & Hl & _).
  rewrite (ST_bind_ok (latched_deref _ _ _ Hl)).
  destruct (lock_ok s r n Hl Hq) as (s1 & Hrun1 & [Ht1 Hl1] & Hs1).
  assert (Hmr : move_right (S fuel) (Some r) max_u64 s1 = Fault NullDeref).
  { eapply move_right_max; eauto; [by rewrite Ht1|].
    pose proof (ahead_bound G 0 top). rewrite (layout_size _ _ Hh) in *. lia. }
  destruct (is_inner n); rewrite (ST_bind_ok Hrun1); unfold mbind at 1, ST_bind at 1;
    by rewrite Hmr.
Qed.

(** A full leaf whose keys are all smaller makes the probe run off the array. *)
Lemma full_leaf_probe G t key l n :
  tree_inv G t -> heap t !! l = Some n -> is_leaf n = true ->
  live_keys n <> [] -> Forall (fun k => k < key) (live_keys n) -> is_full n = true ->
  exists lo i, G !! l = Some (lo, 0%nat) /\ lo <= key
    /\ index n key = Ok i /\ leaf_key n i = Fault OutOfBounds.
Proof.
  intros Hi Hl Hleaf Hne Hlt Hfull. pose proof (ti_heap _ _ Hi) as Hh.
  destruct (hi_layout _ _ _ _ Hh Hl) as (lo & lv & Gl & [Hr _ Hb]).
  rewrite (level_is_leaf _ _ _ _ _ _ Hh Hl Gl) in Hleaf. apply bool_decide_eq_true in Hleaf as ->.
  destruct Hb as (ks & kt & vs & vt & Hsh & Hso & Hall). rewrite (is_full_leaf _ _ _ _ _ Hsh) in Hfull.
  apply bool_decide_eq_true in Hfull as ->. rewrite (live_keys_leaf _ _ _ _ _ Hsh) in *.
  destruct (leaf_probe n ks [] vs vt key Hsh Hso) as (i & Hidx & Hcase). exists lo, i.
  split; [done|]. rewrite Forall_forall in Hlt. split; [|split; [done|]].
  - destruct ks as [|k ks]; [done|]. apply Forall_cons in Hall as [? _]. specialize (Hlt k). set_solver by lia.
  - destruct Hcase as [(v & Hz%elem_of_zip_l & _)|[_ [(k & Hin & ? & _)|(_ & _ & ->)]]].
    + specialize (Hlt _ Hz). lia.
    + specialize (Hlt _ Hin). lia.
    + unfold slot_past_end, node_keys. destruct Hsh as [-> -> _ _ _].
      rewrite app_nil_r, Nat2Z.id, lookup_ge_None_2; [done|lia].
Qed.

(** ** What the operations guarantee *)

(** The probe of a key above all keys of a full leaf. *)
Lemma locate_full s key fuel path l n :
  well_formed s -> within_capacity s -> 0 <= key < max_u64 -> (enough_fuel s <= fuel)%nat -> path = Some path_init \/ path = None ->
  heap (l_tree s) !! l = Some n -> is_leaf n = true -> is_full n = true ->
  live_keys n <> [] -> Forall (fun k => k < key) (live_keys n) -> key < high_key n ->
  exists path' s1 i, locate_leaf fuel key path s = Ok ((Some l, path'), s1) /\ heap (l_tree s1) !! l = Some n
    /\ index n key = Ok i /\ leaf_key n i = Fault OutOfBounds.
Proof.
  intros Hw Hd Hk Hf Hpath Hl Hleaf Hfull Hne Hlt Hhk.
  destruct (locate_probe s key fuel path Hw Hd Hk Hf Hpath) as (G & l' & n' & lo' & path' & s1 & ks & kt
    & vs & vt & i & Hrun1 & [Ht1 _] & _ & Hn & Hi & _ & Gl' & Hkn & _ & _ & _ & Hidx & _).
  destruct (full_leaf_probe G (l_tree s) key l n) as (lo & i' & Gl & Hlo & Hidx' & Hbad); auto.
  assert (Hn' := Hn). rewrite Ht1 in Hn'.
  assert (l' = l) as -> by (eapply (hi_unique G (heap (l_tree s)) l' l); eauto; apply Hi).
  simplify_eq. by exists path', s1, i'.
Qed.

(** C1: [insert] on a tree nobody else works on terminates without a fault (fuel
    proportional to the number of nodes is enough for every loop), keeps the tree a
    well-formed B-link tree and adds the pair to the stored map unless the key is there
    already.  A well-formed tree has every latch [quiet]: a spinlock is free, and a
    reader-writer lock has neither its writer nor its upgrade bit set, so that the next
    operation gets in; its count of readers is not back at zero, since [unlock] after an
    upgrade forgets one (see [tree_latch_leaks_reader]).  The only bound is that of
    [NodePath]: the tree must not store more entries than a tree of ten inner levels may
    have to. *)
Theorem insert_correct s key v fuel :
  well_formed s -> within_capacity s -> 0 <= key < max_u64 -> (enough_fuel s <= fuel)%nat ->
  exists s', insert fuel key v s = Ok (tt, s') /\ well_formed s'
    /\ map_of s' = insert_new key v (map_of s).
Proof. apply insert_refines. Qed.

(** C19: [find] returns the value the stored map has for the key, and 0 for a key that
    is not there, and keeps the map; [update] replaces the value of a key that is there
    and otherwise keeps the map; both terminate and leave every latch [quiet], as [insert]
    does.  For an absent key both need that the probe is safe ([probe_safe]): the slot that
    is read when all live keys of the leaf are smaller must exist, so the leaf is not full,
    and what is left in it must differ from the key; [find_past_full_leaf] shows what
    happens otherwise. *)
Theorem find_update_correct s key v fuel :
  well_formed s -> within_capacity s -> 0 <= key < max_u64 -> (enough_fuel s <= fuel)%nat ->
  is_Some (map_of s !! key) \/ probe_safe key s ->
  (exists s', find fuel key s = Ok (default 0 (map_of s !! key), s') /\ well_formed s' /\ map_of s' = map_of s)
  /\ exists s', tree_update fuel key v s = Ok (tt, s') /\ well_formed s' /\ map_of s' = update_present key v (map_of s).
Proof. intros. split; [by apply find_refines|by apply update_refines]. Qed.

(** How many inner levels a tree has, and how many entries that takes. *)
Lemma height_needs s :
  well_formed s ->
  exists levels, height (l_tree s) = u16 (Z.of_nat (S levels))
    /\ least_entries levels <= Z.of_nat (base.size (map_of s))
    /\ (within_capacity s -> (levels <= 10)%nat).
Proof.
  intros ((G & Hi & _) & _). pose proof (ti_root _ _ Hi) as (r & top & Hr & Gr & Hh & _). exists top.
  split; [done|]. split; [by eapply height_needs_entries|]. intros Hc. by eapply levels_bounded.
Qed.

(** C31: the proviso of [find] and [update] is needed.  On a key above all keys of a full leaf,
    but below its high key, both read past the end of the leaf's key array. *)
Theorem find_past_full_leaf s key v l n fuel :
  well_formed s -> within_capacity s -> 0 <= key < max_u64 -> (enough_fuel s <= fuel)%nat ->
  heap (l_tree s) !! l = Some n -> is_leaf n = true -> is_full n = true ->
  live_keys n <> [] -> Forall (fun k => k < key) (live_keys n) -> key < high_key n ->
  find fuel key s = Fault OutOfBounds /\ tree_update fuel key v s = Fault OutOfBounds.
Proof.
  intros Hw Hd Hk Hf Hl Hleaf Hfull Hne Hlt Hhk. split.
  - destruct (locate_full s key fuel None l n Hw Hd Hk Hf) as (path & s1 & i & Hrun & Hn & Hidx & Hbad); auto.
    unfold find. rewrite (ST_bind_ok Hrun). cbn beta iota.
    rewrite (ST_bind_ok (latched_deref _ _ _ Hn)), (ST_bind_ok (lift_ok Hidx)).
    unfold mbind, ST_bind, lift. by rewrite Hbad.
  - destruct (locate_full s key fuel (Some path_init) l n Hw Hd Hk Hf) as (path & s1 & i & Hrun & Hn & Hidx & Hbad); auto.
    unfold tree_update. rewrite (ST_bind_ok Hrun). cbn beta iota.
    rewrite (ST_bind_ok (latched_deref _ _ _ Hn)), (ST_bind_ok (lift_ok Hidx)).
    unfold node_key. rewrite Hleaf. unfold mbind, ST_bind, lift. by rewrite Hbad.
Qed.

(** No operation accepts the key [UINT64_MAX]: the search for its leaf follows the
    null right sibling of the rightmost node. *)
Theorem max_key_null_deref s v fuel :
  well_formed s -> (enough_fuel s <= fuel)%nat ->
  insert fuel max_u64 v s = Fault NullDeref /\ find fuel max_u64 s = Fault NullDeref
  /\ tree_update fuel max_u64 v s = Fault NullDeref.
Proof.
  intros Hw Hf. unfold insert, find, tree_update, mbind, ST_bind.
  by rewrite !(locate_leaf_max s fuel _ Hw Hf).
Qed.

(** ** The tree starts out well formed *)
Lemma new_latched_well_formed : well_formed new_latched.
Proof.
  split; [|split; [|done]].
  - eexists. split; [apply new_tree_inv|]. intros r top Hr Gr l lo Hl.
    apply lookup_singleton_Some in Gr as [<- _], Hl as [<- _]. done.
  - intros l. unfold latch_of, new_latched. simpl. apply quiet_init.
Qed.
Lemma new_latched_map : map_of new_latched = ∅.
Proof.
  apply map_empty. intros k. unfold map_of. apply (contents_None _ _ k (ti_heap _ _ new_tree_inv)).
  apply new_tree_entries.
Qed.

(** Insertions one after the other, each with as much fuel as the tree of the moment calls
    for. *)
Fixpoint insert_all (kvs : list (Z * Z)) : LM unit :=
  match kvs with [] => mret tt | (k, v) :: kvs => (fun s => insert (enough_fuel s) k v s);; insert_all kvs end.
Lemma insert_all_ok kvs : forall s,
  well_formed s -> Z.of_nat (base.size (map_of s) + length kvs) <= entry_capacity ->
  Forall (fun kv => 0 <= kv.1 < max_u64) kvs ->
  exists s', insert_all kvs s = Ok (tt, s') /\ well_formed s'
    /\ map_of s' = fold_left (fun m kv => insert_new kv.1 kv.2 m) kvs (map_of s).
Proof.
  induction kvs as [|[k v] kvs IH]; intros s Hw Hd Hall; cbn [insert_all fold_left]; [by exists s|].
  apply Forall_cons in Hall as [Hk Hall]. simpl in *.
  destruct (insert_refines s k v (enough_fuel s) Hw) as (s' & Hrun & Hw' & Hm); [unfold within_capacity; lia|done|lia|].
  rewrite (ST_bind_ok (m := fun s => insert (enough_fuel s) k v s) Hrun), <- Hm. apply IH; [done| |done].
  rewrite Hm. pose proof (insert_new_size k v (map_of s)). lia.
Qed.
(** C30: the tree stays low however it is filled.  From a new tree, any sequence of fewer
    than [entry_capacity] insertions runs without a fault (the path to the root, which a
    descent records, fits into the ten slots of [NodePath], whose overflow is a fault) and
    stores what it inserted; the tree then has at most ten inner levels, and for the height
    that it reports, as a 16-bit number, at least
    [2 * (max_keys / 2 + 1) ^ (levels - 1) * (max_items / 2)] entries. *)
Theorem inserts_stay_low kvs :
  Z.of_nat (length kvs) < entry_capacity -> Forall (fun kv => 0 <= kv.1 < max_u64) kvs ->
  exists s' levels, insert_all kvs new_latched = Ok (tt, s') /\ map_of s' = fold_left (fun m kv => insert_new kv.1 kv.2 m) kvs ∅
    /\ height (l_tree s') = u16 (Z.of_nat (S levels)) /\ (levels <= 10)%nat /\ least_entries levels <= Z.of_nat (base.size (map_of s')).
Proof.
  intros Hlen Hall. destruct (insert_all_ok kvs new_latched new_latched_well_formed) as (s' & Hrun & Hw & Hm); [rewrite new_latched_map, map_size_empty; lia|done|].
  rewrite new_latched_map in Hm. destruct (height_needs s' Hw) as (levels & Hh & Hl & Hc). exists s', levels. split_and!; try done. apply Hc. unfold within_capacity. rewrite Hm.
  assert (Hsz : forall kvs (m : gmap Z Z), (base.size (fold_left (fun m kv => insert_new kv.1 kv.2 m) kvs m) <= base.size m + length kvs)%nat).
  { clear. induction kvs as [|[k v] kvs IH]; intros m; cbn [fold_left length]; [lia|]. specialize (IH (insert_new k v m)). pose proof (insert_new_size k v m). simpl in *. lia. }
  specialize (Hsz kvs ∅). rewrite map_size_empty in Hsz. lia.
Qed.

End LatchedTree.

(** ** Concrete runs *)
Module LatchedExamples.
Section Run.
Context {PF : Platform} {NL : NodeLatch}.

(** [insert] with as much fuel as the tree of the moment calls for. *)
Definition insert_now (key v : Z) : ST LatchedState unit := fun s => insert (enough_fuel s) key v s.
Definition after (m : ST LatchedState unit) (s : LatchedState) : LatchedState :=
  match m s with Ok (_, s') => s' | Fault _ => s end.
Fixpoint filled (kvs : list (Z * Z)) (s : LatchedState) : LatchedState :=
  match kvs with [] => s | (k, v) :: kvs => filled kvs (after (insert_now k v) s) end.

Context {PFok : PlatformOk} {NLok : NodeLatchLaws NL}.

Lemma filled_well_formed kvs : forall s,
  well_formed s -> Z.of_nat (base.size (map_of s) + length kvs) <= entry_capacity ->
  Forall (fun kv => 0 <= kv.1 < max_u64) kvs ->
  well_formed (filled kvs s)
  /\ map_of (filled kvs s) = fold_left (fun m kv => insert_new kv.1 kv.2 m) kvs (map_of s).
Proof.
  induction kvs as [|[k v] kvs IH]; intros s Hw Hd Hall; cbn [filled fold_left]; [done|].
  apply Forall_cons in Hall as [Hk Hall]. simpl in *.
  destruct (insert_refines s k v (enough_fuel s) Hw) as (s' & Hrun & Hw' & Hm); [unfold within_capacity; lia|done|lia|].
  unfold after, insert_now. rewrite Hrun, <- Hm. apply IH; [done| |done].
  rewrite Hm. pose proof (insert_new_size k v (map_of s)). lia.
Qed.
End Run.

#[local] Existing Instance small_platform.
#[local] Existing Instance small_platform_ok.

(** Nodes of three items or two keys, latched by reader-writer locks. *)
Definition two_levels : LatchedState (NL := rw_latch) :=
  filled (NL := rw_latch) [(10, 1); (20, 2); (30, 3); (40, 4); (5, 5); (6, 6); (50, 7)] (new_latched (NL := rw_latch)).

Lemma two_levels_ok : well_formed (NL := rw_latch) two_levels.
Proof.
  refine (proj1 (filled_well_formed (NL := rw_latch) _ _ _ _ _)); [apply new_latched_well_formed|by vm_compute|].
  repeat constructor; simpl; unfold max_u64; lia.
Qed.

(** This insertion splits a leaf, then the root, and grows a new root. *)
Lemma insert_correct_witness :
  exists s', insert (NL := rw_latch) 40 7 8 two_levels = Ok (tt, s') /\ well_formed (NL := rw_latch) s'
    /\ map_of s' = insert_new 7 8 (map_of two_levels).
Proof.
  apply (insert_correct (NL := rw_latch) two_levels 7 8 40 two_levels_ok); [by vm_compute|unfold max_u64; lia|].
  apply Nat.leb_le. vm_compute. reflexivity.
Defined.

Lemma find_update_correct_witness :
  ((exists s', find (NL := rw_latch) 40 30 two_levels
     = Ok (default 0 (map_of two_levels !! 30), s') /\ well_formed (NL := rw_latch) s' /\ map_of s' = map_of two_levels)
   /\ exists s', tree_update (NL := rw_latch) 40 30 99 two_levels = Ok (tt, s') /\ well_formed (NL := rw_latch) s'
        /\ map_of s' = update_present 30 99 (map_of two_levels))
  /\ exists s', find (NL := rw_latch) 40 25 two_levels
       = Ok (default 0 (map_of two_levels !! 25), s') /\ well_formed (NL := rw_latch) s' /\ map_of s' = map_of two_levels.
Proof.
  split; [apply (find_update_correct (NL := rw_latch) two_levels 30 99 40 two_levels_ok)
         |refine (proj1 (find_update_correct (NL := rw_latch) two_levels 25 0 40 two_levels_ok _ _ _ _))];
    try (by vm_compute); try (unfold max_u64; lia); try (apply Nat.leb_le; vm_compute; reflexivity).
  - left. vm_compute. by eexists.
  - right. apply (bool_decide_unpack _). vm_compute. done.
Defined.

Lemma inserts_stay_low_witness :
  exists s' levels, insert_all (NL := rw_latch) [(10, 1); (20, 2); (30, 3); (40, 4); (5, 5); (6, 6); (50, 7)] (new_latched (NL := rw_latch)) = Ok (tt, s')
    /\ height (l_tree s') = u16 (Z.of_nat (S levels)) /\ (levels <= 10)%nat /\ least_entries levels <= Z.of_nat (base.size (map_of s')).
Proof.
  destruct (inserts_stay_low (NL := rw_latch) [(10, 1); (20, 2); (30, 3); (40, 4); (5, 5); (6, 6); (50, 7)]) as (s' & levels & Hrun & _ & Hrest); [by vm_compute|repeat constructor; simpl; unfold max_u64; lia|].
  exists s', levels. split; [exact Hrun|exact Hrest].
Defined.

(** Three keys fill the root leaf; 40 lies above all of them. *)
Definition full_root : LatchedState (NL := spinlock_latch) :=
  filled (NL := spinlock_latch) [(10, 1); (20, 2); (30, 3)] (new_latched (NL := spinlock_latch)).
Lemma full_root_ok : well_formed (NL := spinlock_latch) full_root.
Proof.
  refine (proj1 (filled_well_formed (NL := spinlock_latch) _ _ _ _ _)); [apply new_latched_well_formed|by vm_compute|].
  repeat constructor; simpl; unfold max_u64; lia.
Qed.

Lemma find_past_full_leaf_witness : find (NL := spinlock_latch) 40 40 full_root = Fault OutOfBounds /\ tree_update (NL := spinlock_latch) 40 40 9 full_root = Fault OutOfBounds.
Proof.
  eapply (find_past_full_leaf (NL := spinlock_latch) full_root 40 9 1%positive _ 40 full_root_ok);
    try (by vm_compute); try (unfold max_u64; lia); try (apply Nat.leb_le; vm_compute; reflexivity); try (vm_compute; reflexivity).
  - vm_compute. repeat constructor.
Defined.

Lemma max_key_null_deref_witness :
  insert (NL := rw_latch) 40 max_u64 1 two_levels = Fault NullDeref
  /\ find (NL := rw_latch) 40 max_u64 two_levels = Fault NullDeref
  /\ tree_update (NL := rw_latch) 40 max_u64 1 two_levels = Fault NullDeref.
Proof.
  apply (max_key_null_deref (NL := rw_latch) two_levels 1 40 two_levels_ok).
  apply Nat.leb_le. vm_compute. reflexivity.
Defined.

End LatchedExamples.
