(* ===== verification/OptimisticTree.v ===== *)
(** * The optimistic thread tree

    Models [src/src/indices/blinktree/thread/optimistic/thread_tree.h] and
    [thread_tree.cpp] with [optimistic_node_base.h]: readers validate the version of a
    node instead of latching it, and only writers take the [OptimisticLock].  The
    descent does not follow right siblings above the leaves; the loops at the leaf level
    do.  [EpochGuard] is modelled in [Epochs.v]. *)

From S2P Require Import Prelude Node Tree TreeFacts BlinkInv ThreadTree Capacity Locks.

Section OptimisticTree.
Context {PF : Platform}.

(** The tree, the version words of its nodes and the spinlock of the tree object. *)
Record VersionedState : Type := mkVersioned {
  v_tree : TreeState;
  v_words : gmap loc Z;
  v_lock : bool }.
Abbreviation VM := (ST VersionedState).

Definition word_of (s : VersionedState) (l : loc) : Z :=
  default OptimisticLock.opt_init (v_words s !! l).
Definition on_vtree {A} (m : TM A) : VM A := fun s =>
  match m (v_tree s) with
  | Ok (a, t) => Ok (a, mkVersioned t (v_words s) (v_lock s))
  | Fault f => Fault f
  end.
(** The word of an allocated node. *)
Definition header_word (p : ptr) : VM Z := fun s =>
  match p with
  | Some l => match heap (v_tree s) !! l with Some _ => Ok (word_of s l, s) | None => Fault NullDeref end
  | None => Fault NullDeref
  end.
Definition set_header_word (p : ptr) (w : Z) : VM unit := fun s =>
  match p with
  | Some l => Ok (tt, mkVersioned (v_tree s) (<[l := w]> (v_words s)) (v_lock s))
  | None => Fault NullDeref
  end.

(** [version()], [is_valid()], [acquire()] and [release()] of [OptimisticNodeBase]. *)
Definition node_version (p : ptr) : VM Z :=
  w ← header_word p;
  match OptimisticLock.read_valid w with Some v => mret v | None => lift (Fault WouldBlock) end.
Definition node_is_valid (p : ptr) (version : Z) : VM bool :=
  w ← header_word p; mret (OptimisticLock.is_valid w version).
Definition node_acquire (p : ptr) : VM unit :=
  v ← node_version p;
  w ← header_word p;
  let '(ok, w') := OptimisticLock.opt_try_lock w v in
  if ok : bool then set_header_word p w' else lift (Fault WouldBlock).
Definition node_release (p : ptr) : VM unit :=
  w ← header_word p; set_header_word p (OptimisticLock.opt_unlock w).

(** ** Operations *)
Fixpoint vlocate_from (fuel : nat) (current : ptr) (version key : Z) (path : option NodePath) :
    VM (ptr * option NodePath) :=
  match fuel with
  | O => lift (Fault OutOfFuel)
  | S fuel =>
      n ← on_vtree (deref current);
      if is_inner n then
        let right := right_sibling n in
        next ← lift (child n key);
        valid ← node_is_valid current version;
        '(current, path) ←
          (if valid : bool then
             path ← (match path with
                     | Some p => if decide (next <> right)
                                 then p' ← lift (path_push p current); mret (Some p')
                                 else mret path
                     | None => mret path
                     end);
             mret (next, path)
           else mret (current, path));
        version ← node_version current;
        vlocate_from fuel current version key path
      else mret (current, path)
  end.
Definition vlocate_leaf (fuel : nat) (key : Z) (path : option NodePath) : VM (ptr * option NodePath) :=
  current ← on_vtree root;
  version ← node_version current;
  vlocate_from fuel current version key path.

(** [while (key >= leaf->high_key() && leaf->right_sibling())] *)
Fixpoint vmove_right (fuel : nat) (leaf : ptr) (version key : Z) : VM (ptr * Z) :=
  match fuel with
  | O => lift (Fault OutOfFuel)
  | S fuel =>
      n ← on_vtree (deref leaf);
      if (high_key n <=? key) && bool_decide (right_sibling n <> None) then
        let next := right_sibling n in
        valid ← node_is_valid leaf version;
        let leaf := if valid : bool then next else leaf in
        version ← node_version leaf;
        vmove_right fuel leaf version key
      else mret (leaf, version)
  end.

(** The loop of the parents, which are acquired before they are compared. *)
Fixpoint vmove_right_locked (fuel : nat) (parent : ptr) (key : Z) : VM ptr :=
  match fuel with
  | O => lift (Fault OutOfFuel)
  | S fuel =>
      n ← on_vtree (deref parent);
      if high_key n <=? key then
        let right := right_sibling n in
        node_release parent;;
        node_acquire right;;
        vmove_right_locked fuel right key
      else mret parent
  end.
Fixpoint vpropagate (todo fuel : nat) (up : ptr * Z) (path : NodePath) : VM (ptr * Z) :=
  match up.1 with
  | None => mret up
  | Some _ =>
      if path_is_empty path then mret up
      else
        match todo with
        | O => lift (Fault OutOfFuel)
        | S todo =>
            '(parent, path) ← lift (path_pop path);
            node_acquire parent;;
            parent ← vmove_right_locked fuel parent up.2;
            up ← on_vtree (insert_into_inner parent up.2 up.1);
            node_release parent;;
            vpropagate todo fuel up path
        end
  end.

Definition vlock_tree : VM unit := fun s =>
  if Spinlock.load (v_lock s) then Fault WouldBlock
  else Ok (tt, mkVersioned (v_tree s) (v_words s) (Spinlock.cas_weak false (v_lock s)).2).
Definition vunlock_tree : VM unit := fun s =>
  Ok (tt, mkVersioned (v_tree s) (v_words s) (Spinlock.spin_unlock (v_lock s))).

(** [insert] in its two parts: the leaf is found and validated ([retries] bounds the [do]
    loop), then acquired and changed. *)
Fixpoint vinsert_seek (retries fuel : nat) (leaf : ptr) (key : Z) : VM ptr :=
  match retries with
  | O => lift (Fault OutOfFuel)
  | S retries =>
      version ← node_version leaf;
      valid ← node_is_valid leaf version;
      if valid : bool then '(leaf, _) ← vmove_right fuel leaf version key; mret leaf
      else vinsert_seek retries fuel leaf key
  end.
Definition vinsert_locate (fuel : nat) (key : Z) : VM (ptr * NodePath) :=
  '(leaf, path) ← vlocate_leaf fuel key (Some path_init);
  leaf ← vinsert_seek fuel fuel leaf key;
  mret (leaf, default path_init path).
Definition vinsert_finish (fuel : nat) (leaf : ptr) (path : NodePath) (key v : Z) : VM unit :=
  node_acquire leaf;;
  up ← on_vtree (insert_into_leaf leaf key v);
  node_release leaf;;
  up ← vpropagate 10 fuel up path;
  match up.1 with
  | None => mret tt
  | Some _ =>
      vlock_tree;;
      r ← on_vtree root;
      on_vtree (create_new_root r up.1 up.2);;
      vunlock_tree
  end.
Definition vinsert (fuel : nat) (key v : Z) : VM unit :=
  '(leaf, path) ← vinsert_locate fuel key;
  vinsert_finish fuel leaf path key v.

Fixpoint vupdate_at (retries fuel : nat) (leaf : ptr) (key v : Z) : VM unit :=
  match retries with
  | O => lift (Fault OutOfFuel)
  | S retries =>
      version ← node_version leaf;
      '(leaf, version) ← vmove_right fuel leaf version key;
      valid ← node_is_valid leaf version;
      if valid : bool then
        node_acquire leaf;;
        n ← on_vtree (deref leaf);
        i ← lift (index n key);
        k ← lift (node_key n i);
        (if k =? key then on_vtree (update leaf (fun n => set_value n i v)) else mret tt);;
        node_release leaf
      else vupdate_at retries fuel leaf key v
  end.
Definition vupdate (fuel : nat) (key v : Z) : VM unit :=
  '(leaf, _) ← vlocate_leaf fuel key (Some path_init);
  vupdate_at fuel fuel leaf key v.

Fixpoint vfind_at (retries fuel : nat) (leaf : ptr) (key : Z) : VM Z :=
  match retries with
  | O => lift (Fault OutOfFuel)
  | S retries =>
      version ← node_version leaf;
      '(leaf, version) ← vmove_right fuel leaf version key;
      n ← on_vtree (deref leaf);
      i ← lift (index n key);
      found_key ← lift (leaf_key n i);
      v ← lift (value n i);
      valid ← node_is_valid leaf version;
      if valid : bool then mret (if found_key =? key then v else 0)
      else vfind_at retries fuel leaf key
  end.
Definition vfind (fuel : nat) (key : Z) : VM Z :=
  '(leaf, _) ← vlocate_leaf fuel key None;
  vfind_at fuel fuel leaf key.

(** [reclaim_node] of the destructor: the nodes in the order they are handed to
    [add_to_garbage], children before their parent. *)
Fixpoint reclaim_node (fuel : nat) (node : ptr) : VM (list ptr) :=
  match fuel with
  | O => lift (Fault OutOfFuel)
  | S fuel =>
      n ← on_vtree (deref node);
      below ← (if is_inner n then
                 (fix go (todo : nat) (i : Z) : VM (list ptr) :=
                    match todo with
                    | O => mret []
                    | S todo =>
                        c ← lift (separator n i);
                        xs ← reclaim_node fuel c;
                        ys ← go todo (i + 1);
                        mret (xs ++ ys)
                    end) (Z.to_nat (size n + 1)) 0
               else mret []);
      mret (below ++ [node])
  end.

Definition new_versioned : VersionedState := mkVersioned new_tree ∅ Spinlock.spin_init.

(** ** Version words of a tree that one thread works on *)
Context {PFok : PlatformOk}.

Definition free_word (w : Z) : Prop := exists c, w = OptimisticLock.version_at c false.
Definition held_word (w : Z) : Prop := exists c, w = OptimisticLock.version_at c true.
Definition all_free (s : VersionedState) : Prop := forall l, free_word (word_of s l).
Definition only_held (l : loc) (s : VersionedState) : Prop :=
  held_word (word_of s l) /\ forall l', l' <> l -> free_word (word_of s l').
Definition same_vtree (s s' : VersionedState) : Prop := v_tree s' = v_tree s /\ v_lock s' = v_lock s.

Lemma word_of_insert t w b l x l' :
  word_of (mkVersioned t (<[l := x]> w) b) l' = if decide (l = l') then x else word_of (mkVersioned t w b) l'.
Proof. unfold word_of. simpl. rewrite lookup_insert. by case_decide. Qed.

Lemma header_word_ok s l n : heap (v_tree s) !! l = Some n -> header_word (Some l) s = Ok (word_of s l, s).
Proof. intros Hl. unfold header_word. by rewrite Hl. Qed.
Lemma node_version_ok s l n :
  heap (v_tree s) !! l = Some n -> free_word (word_of s l) -> node_version (Some l) s = Ok (word_of s l, s).
Proof.
  intros Hl [c Hc]. unfold node_version. rewrite (ST_bind_ok (header_word_ok _ _ _ Hl)).
  unfold OptimisticLock.read_valid. by rewrite Hc, OptimisticLock.is_locked_version.
Qed.
Lemma node_is_valid_ok s l n :
  heap (v_tree s) !! l = Some n -> node_is_valid (Some l) (word_of s l) s = Ok (true, s).
Proof.
  intros Hl. unfold node_is_valid. rewrite (ST_bind_ok (header_word_ok _ _ _ Hl)).
  unfold OptimisticLock.is_valid. by rewrite Z.eqb_refl.
Qed.
Lemma node_acquire_ok s l n :
  heap (v_tree s) !! l = Some n -> all_free s ->
  exists s', node_acquire (Some l) s = Ok (tt, s') /\ same_vtree s s' /\ only_held l s'.
Proof.
  intros Hl Hf. unfold node_acquire. rewrite (ST_bind_ok (node_version_ok _ _ _ Hl (Hf l))).
  rewrite (ST_bind_ok (header_word_ok _ _ _ Hl)). unfold OptimisticLock.opt_try_lock. rewrite Z.eqb_refl.
  destruct (Hf l) as [c Hc]. rewrite Hc, OptimisticLock.version_lock. eexists. split; [reflexivity|].
  split; [done|]. split.
  - rewrite word_of_insert, decide_True by done. by exists c.
  - intros l' Hne. rewrite word_of_insert, decide_False by done. destruct s. apply Hf.
Qed.
Lemma node_release_ok s l n :
  heap (v_tree s) !! l = Some n -> only_held l s ->
  exists s', node_release (Some l) s = Ok (tt, s') /\ same_vtree s s' /\ all_free s'.
Proof.
  intros Hl [[c Hc] Ho]. unfold node_release. rewrite (ST_bind_ok (header_word_ok _ _ _ Hl)).
  rewrite Hc, OptimisticLock.version_unlock. eexists. split; [reflexivity|]. split; [done|].
  intros l'. rewrite word_of_insert. case_decide; [by eexists|]. destruct s. by apply Ho.
Qed.
Lemma on_vtree_ok {A} (m : TM A) s a t :
  m (v_tree s) = Ok (a, t) -> on_vtree m s = Ok (a, mkVersioned t (v_words s) (v_lock s)).
Proof. intros H. unfold on_vtree. by rewrite H. Qed.
Lemma on_vtree_read {A} (m : TM A) s a : m (v_tree s) = Ok (a, v_tree s) -> on_vtree m s = Ok (a, s).
Proof. intros H. unfold on_vtree. rewrite H. by destruct s. Qed.
Lemma vderef_ok s l n : heap (v_tree s) !! l = Some n -> on_vtree (deref (Some l)) s = Ok (n, s).
Proof. intros H. by apply on_vtree_read, deref_ok. Qed.

(** ** Descending and moving right *)
Lemma vlocate_from_ok G key top fuel : forall lv s l lo path,
  heap_inv G (heap (v_tree s)) -> G !! l = Some (lo, lv) -> lo <= key -> all_free s ->
  (lv < fuel)%nat -> (top <= 10)%nat -> remembers path G lo lv top ->
  exists l' lo' path', vlocate_from fuel (Some l) (word_of s l) key path s = Ok ((Some l', path'), s)
    /\ G !! l' = Some (lo', 0%nat) /\ lo' <= key
    /\ remembers path' G lo' 0 top /\ (is_Some path -> is_Some path').
Proof.
  induction fuel as [|fuel IH]; [lia|]. intros lv s l lo path Hh Gl Hk Hf Hlv Htop Hr. cbn [vlocate_from].
  destruct (hi_lookup _ _ _ _ _ Hh Gl) as (n & Hl & Hn).
  rewrite (ST_bind_ok (vderef_ok _ _ _ Hl)).
  unfold is_inner. rewrite (level_is_leaf _ _ _ _ _ _ Hh Hl Gl).
  destruct lv as [|lv]; simpl; [by exists l, lo, path|].
  destruct (child_step _ _ _ _ _ _ key Hh Hl Gl Hk) as (c & b & Hc & Gc & Hb).
  rewrite (ST_bind_ok (lift_ok Hc)).
  rewrite (ST_bind_ok (node_is_valid_ok _ _ _ Hl)). cbn beta iota.
  assert (Hne : Some c <> right_sibling n).
  { intros E. destruct Hn as [_ Hs _]. unfold sibling_inv in Hs. rewrite <- E in Hs.
    assert (lv = S lv) by congruence. lia. }
  destruct (remembers_push G path l lo lv b top) as (path' & Hpush & Hr' & Hsome); auto; [lia|].
  assert (Hstep : (path ← (match path with
       | Some p => if decide (Some c <> right_sibling n)
                   then p' ← lift (path_push p (Some l)); mret (Some p') else mret path
       | None => mret path end); mret (Some c, path)) s = Ok ((Some c, path'), s)).
  { destruct path as [p|]; [rewrite decide_True by done|]; by rewrite (ST_bind_ok (Hpush _ s)). }
  rewrite (ST_bind_ok Hstep). cbn beta iota.
  destruct (hi_lookup _ _ _ _ _ Hh Gc) as (nc & Hnc & _).
  rewrite (ST_bind_ok (node_version_ok _ _ _ Hnc (Hf c))).
  destruct (IH lv s c b path') as (l' & lo' & path'' & ? & ? & ? & ? & ?); auto; [lia|lia|].
  exists l', lo', path''. split_and!; auto.
Qed.

Lemma vmove_right_ok G key fuel : forall s l lo,
  heap_inv G (heap (v_tree s)) -> G !! l = Some (lo, 0%nat) -> lo <= key < max_u64 -> all_free s ->
  (base.size (ahead G lo 0) < fuel)%nat ->
  exists l' n lo', vmove_right fuel (Some l) (word_of s l) key s = Ok ((Some l', word_of s l'), s)
    /\ heap (v_tree s) !! l' = Some n /\ G !! l' = Some (lo', 0%nat) /\ lo <= lo' <= key /\ key < high_key n.
Proof.
  induction fuel as [|fuel IH]; [lia|]. intros s l lo Hh Gl Hk Hf Hfuel. cbn [vmove_right].
  destruct (hi_lookup _ _ _ _ _ Hh Gl) as (n & Hl & _).
  rewrite (ST_bind_ok (vderef_ok _ _ _ Hl)).
  destruct (Z.leb_spec (high_key n) key) as [Hle|Hgt]; simpl.
  2: { exists l, n, lo. split; [done|]. split; [done|]. split; [done|]. lia. }
  destruct (sibling_step _ _ _ _ _ _ key Hh Hl Gl Hle) as (r & Hr & Gr & Hlt); [lia|]. rewrite Hr.
  rewrite bool_decide_true by done. rewrite (ST_bind_ok (node_is_valid_ok _ _ _ Hl)). cbn beta iota.
  destruct (hi_lookup _ _ _ _ _ Hh Gr) as (m & Hm & _).
  rewrite (ST_bind_ok (node_version_ok _ _ _ Hm (Hf r))).
  destruct (IH s r (high_key n)) as (l' & n' & lo' & Hrun & ? & ? & ? & ?); auto; [lia| |].
  { pose proof (ahead_step G r lo 0 (high_key n) 0 Gr ltac:(auto)). lia. }
  exists l', n', lo'. split; [done|]. split; [done|]. split; [done|]. lia.
Qed.

Lemma vmove_right_locked_ok G key fuel : forall s l lo lv,
  heap_inv G (heap (v_tree s)) -> G !! l = Some (lo, lv) -> lo <= key < max_u64 ->
  only_held l s -> (base.size (ahead G lo lv) < fuel)%nat ->
  exists l' n lo' s', vmove_right_locked fuel (Some l) key s = Ok (Some l', s') /\ same_vtree s s'
    /\ only_held l' s' /\ heap (v_tree s) !! l' = Some n
    /\ G !! l' = Some (lo', lv) /\ lo <= lo' <= key /\ key < high_key n.
Proof.
  induction fuel as [|fuel IH]; [lia|]. intros s l lo lv Hh Gl Hk Hs Hf. cbn [vmove_right_locked].
  destruct (hi_lookup _ _ _ _ _ Hh Gl) as (n & Hl & _).
  rewrite (ST_bind_ok (vderef_ok _ _ _ Hl)).
  destruct (Z.leb_spec (high_key n) key) as [Hle|Hgt].
  2: { exists l, n, lo, s. repeat split; try done; try apply Hs. lia. }
  destruct (sibling_step _ _ _ _ _ _ key Hh Hl Gl Hle) as (r & Hr & Gr & Hlt); [lia|]. rewrite Hr.
  destruct (node_release_ok s l n Hl Hs) as (s1 & Hrun1 & [Ht1 Hl1] & Hq).
  rewrite (ST_bind_ok Hrun1). rewrite <- Ht1 in Hh.
  destruct (hi_lookup _ _ _ _ _ Hh Gr) as (m & Hm & _).
  destruct (node_acquire_ok s1 r m Hm Hq) as (s2 & Hrun2 & [Ht2 Hl2] & Hs2).
  rewrite (ST_bind_ok Hrun2). rewrite <- Ht2 in Hh.
  destruct (IH s2 r (high_key n) lv Hh Gr) as (l' & n' & lo' & s' & Hrun & [Ht Hl'] & ?); auto; [lia| |].
  { pose proof (ahead_step G r lo lv (high_key n) lv Gr ltac:(auto)). lia. }
  exists l', n', lo', s'. rewrite Ht2, Ht1 in *. split; [done|]. split; [|intuition lia].
  split; congruence.
Qed.

(** ** Propagating splits *)
Lemma vpropagate_step G s p stack path lo lv top m b todo fuel :
  tree_inv G (v_tree s) -> all_free s -> path_stack path (p :: stack) ->
  path_ok G lo lv (p :: stack) top -> (base.size (heap (v_tree s)) < fuel)%nat -> 0 <= lo ->
  G !! m = Some (b, lv) -> lo < b -> unlinked G (heap (v_tree s)) b lv ->
  exists up' path' G' s' lo', vpropagate (S todo) fuel (Some m, b) path s = vpropagate todo fuel up' path' s'
    /\ path_stack path' stack /\ path_ok G' lo' (S lv) stack top /\ 0 <= lo'
    /\ grown G (v_tree s) lo' (S lv) up' G' (v_tree s')
    /\ all_free s' /\ v_lock s' = v_lock s
    /\ forall k v, entry (heap (v_tree s')) k v <-> entry (heap (v_tree s)) k v.
Proof.
  intros Hi Hq Hst (lo1 & Gp & Hle & Hok) Hf Hlo Gm Hb Hu. pose proof (ti_heap _ _ Hi) as Hh.
  cbn [vpropagate fst snd]. rewrite (path_is_empty_stack _ _ Hst), bool_decide_false by done.
  destruct (path_pop_stack _ _ _ Hst) as (path' & Hpop & Hst').
  rewrite (ST_bind_ok (lift_ok Hpop)). cbn beta iota.
  destruct (hi_lookup _ _ _ _ _ Hh Gp) as (np & Hp & [[Hlo1 _] _ _]).
  destruct (hi_lookup _ _ _ _ _ Hh Gm) as (nm & Hm & [Hbm _ _]).
  destruct (node_acquire_ok s p np Hp Hq) as (s1 & Hrun1 & [Ht1 Hl1] & Hs1). rewrite (ST_bind_ok Hrun1).
  destruct (vmove_right_locked_ok G b fuel s1 p lo1 (S lv))
    as (q & nq & lo2 & s2 & Hrun2 & [Ht2 Hl2] & Hs2 & Hnq & Gq & Hb2 & Hhk); rewrite ?Ht1; auto; [lia| |].
  { pose proof (ahead_bound G lo1 (S lv)). rewrite (layout_size _ _ Hh) in *. lia. }
  rewrite (ST_bind_ok Hrun2).
  assert (Ht : v_tree s2 = v_tree s) by congruence. rewrite Ht1 in Hnq.
  destruct (insert_into_inner_inserted G (v_tree s) q nq lo2 lv b m) as (up' & G' & t' & Hins & Hg & He & _); auto.
  { lia. }
  rewrite <- Ht in Hins. rewrite (ST_bind_ok (on_vtree_ok _ _ _ _ Hins)).
  set (s4 := mkVersioned t' (v_words s2) (v_lock s2)).
  destruct (hi_lookup G' (heap t') q lo2 (S lv)) as (nq' & Hnq' & _).
  { apply (ti_heap _ _ (gr_inv _ _ _ _ _ _ _ Hg)). }
  { eapply lookup_weaken; [exact Gq|]. apply (gr_sub _ _ _ _ _ _ _ Hg). }
  destruct (node_release_ok s4 q nq' Hnq' Hs2) as (s5 & Hrun5 & [Ht5 Hl5] & Hq5).
  rewrite (ST_bind_ok Hrun5).
  exists up', path', G', s5, lo2. rewrite Ht5. split; [done|]. split; [done|]. split.
  { eapply path_ok_mono; [apply (gr_sub _ _ _ _ _ _ _ Hg)| |exact Hok]. lia. }
  split; [lia|]. split; [done|]. split; [done|]. split; [simpl in *; congruence|done].
Qed.

Lemma vpropagate_ok fuel r : forall stack todo G s path lo lv top up,
  tree_inv G (v_tree s) -> all_free s -> path_stack path stack -> path_ok G lo lv stack top ->
  (length stack <= todo)%nat -> (base.size (heap (v_tree s)) + length stack < fuel)%nat -> 0 <= lo ->
  pending G (heap (v_tree s)) lo lv up -> top_known G r top lv up ->
  exists up' G' s', vpropagate todo fuel up path s = Ok (up', s')
    /\ tree_inv G' (v_tree s') /\ G ⊆ G' /\ root_node (v_tree s') = root_node (v_tree s)
    /\ all_free s' /\ v_lock s' = v_lock s
    /\ (forall k v, entry (heap (v_tree s')) k v <-> entry (heap (v_tree s)) k v)
    /\ (up' = (None, 0) \/ exists m b, up' = (Some m, b) /\ G' !! m = Some (b, top) /\ 0 < b)
    /\ top_known G' r top top up'.
Proof.
  induction stack as [|p stack IH]; intros todo G s path lo lv top up Hi Hq Hst Hok Htodo Hf Hlo Hup Htk.
  { exists up, G, s. split.
    - destruct todo, up as [[m|] b]; cbn [vpropagate fst]; rewrite ?(path_is_empty_stack _ _ Hst); done.
    - repeat (split; [done|]). simpl in Hok. subst. split; [|done].
      destruct Hup as [|(m & b & -> & Gm & Hb & _)]; [by left|right]. exists m, b. split; [done|]. split; [done|lia]. }
  destruct Hup as [->|(m & b & -> & Gm & Hb & Hu)].
  { exists (None, 0), G, s. split; [by destruct todo|]. repeat (split; [done|]). split; [by left|].
    intros l lo' Hl. destruct (Htk _ _ Hl) as [?|[_ ?]]; [by left|done]. }
  destruct todo as [|todo]; [simpl in *; lia|]. simpl in Htodo, Hf.
  pose proof (path_ok_length _ _ _ _ _ Hok) as Hlen. simpl in Hlen.
  destruct (vpropagate_step G s p stack path lo lv top m b todo fuel)
    as (up1 & path1 & G1 & s1 & lo1 & -> & Hst1 & Hok1 & Hlo1 & Hg & Hq1 & Hl1 & He1); auto; [lia|].
  pose proof (top_known_grown _ _ _ _ _ _ _ r top Hg (top_known_below _ _ _ _ _ Htk ltac:(lia))) as Htk1.
  destruct Hg as [Hi1 Hsub1 Hr1 Hsz1 _ Hup1 _].
  destruct (IH todo G1 s1 path1 lo1 (S lv) top up1) as (up' & G' & s' & Hrun & Hi' & Hsub & Hr & Hq' & Hl' & He & Hup');
    auto; try lia.
  exists up', G', s'. split; [done|]. split; [done|]. split; [by transitivity G1|].
  split; [congruence|]. split; [done|]. split; [congruence|]. split; [|done].
  intros k v. by rewrite He, He1.
Qed.

(** ** Whole trees *)
Definition vwell_formed (s : VersionedState) : Prop :=
  (exists G, tree_inv G (v_tree s) /\ root_sole G (v_tree s)) /\ all_free s /\ v_lock s = false.
Definition vmap_of (s : VersionedState) : gmap Z Z := contents (heap (v_tree s)).
Definition vwithin_capacity (s : VersionedState) : Prop := Z.of_nat (base.size (vmap_of s)) < entry_capacity.
Definition venough_fuel (s : VersionedState) : nat := base.size (heap (v_tree s)) + 12.
Definition vprobe_safe (key : Z) (s : VersionedState) : Prop :=
  map_Forall (fun _ n => probe_safe_leaf key n = true) (heap (v_tree s)).

(** Where the descent and the walk along the leaves end. *)
Lemma vlocate_covering s key fuel path :
  vwell_formed s -> vwithin_capacity s -> 0 <= key < max_u64 -> (venough_fuel s <= fuel)%nat ->
  path = Some path_init \/ path = None ->
  exists G r top l1 path' l n lo,
    tree_inv G (v_tree s) /\ root_sole G (v_tree s) /\ root_node (v_tree s) = Some r /\ G !! r = Some (0, top) /\ (top <= 10)%nat
    /\ vlocate_leaf fuel key path s = Ok ((Some l1, path'), s)
    /\ node_version (Some l1) s = Ok (word_of s l1, s) /\ node_is_valid (Some l1) (word_of s l1) s = Ok (true, s)
    /\ vmove_right fuel (Some l1) (word_of s l1) key s = Ok ((Some l, word_of s l), s)
    /\ heap (v_tree s) !! l = Some n /\ G !! l = Some (lo, 0%nat) /\ 0 <= lo <= key /\ key < high_key n
    /\ remembers path' G lo 0 top /\ (is_Some path -> is_Some path').
Proof.
  intros ((G & Hi & Hsole) & Hq & _) Hd Hk Hf Hp. pose proof (ti_heap _ _ Hi) as Hh.
  pose proof (ti_root _ _ Hi) as (r & top & Hr & Gr & _ & Htop).
  assert (Htd : (top <= 10)%nat) by (by eapply levels_bounded). unfold venough_fuel in Hf.
  destruct (hi_lookup _ _ _ _ _ Hh Gr) as (nr & Hnr & _).
  destruct (vlocate_from_ok G key top fuel top s r 0 path) as (l1 & lo1 & path' & Hrun & Gl1 & Hlo1 & Hrem & Hsome);
    auto; [lia|lia| |].
  { destruct Hp as [->| ->]; [|done]. exists []. split; [apply path_init_stack|done]. }
  destruct (hi_lookup _ _ _ _ _ Hh Gl1) as (n1 & Hn1 & [[? _] _ _]).
  destruct (vmove_right_ok G key fuel s l1 lo1) as (l & n & lo & Hmove & Hl & Gl & Hlo & Hhk); auto; [lia| |].
  { pose proof (ahead_bound G lo1 0). rewrite (layout_size _ _ Hh) in *. lia. }
  exists G, r, top, l1, path', l, n, lo. split_and!; auto; try lia.
  - unfold vlocate_leaf. rewrite (@ST_bind_ok _ _ _ _ _ _ (Some r) s) by (apply on_vtree_read; unfold root, gets; by rewrite Hr).
    by rewrite (ST_bind_ok (node_version_ok _ _ _ Hnr (Hq r))).
  - by eapply node_version_ok.
  - by eapply node_is_valid_ok.
  - eapply remembers_mono; [|exact Hrem]. lia.
Qed.

Lemma vinsert_below_root s key v fuel :
  vwell_formed s -> vwithin_capacity s -> 0 <= key < max_u64 -> (venough_fuel s <= fuel)%nat ->
  exists G s1 up r top,
    vinsert fuel key v s = (match up.1 with
      | None => mret tt
      | Some _ => vlock_tree;; r ← on_vtree root; on_vtree (create_new_root r up.1 up.2);; vunlock_tree
      end) s1
    /\ tree_inv G (v_tree s1) /\ all_free s1 /\ v_lock s1 = false
    /\ vmap_of s1 = insert_new key v (vmap_of s)
    /\ root_node (v_tree s1) = Some r /\ G !! r = Some (0, top)
    /\ (up = (None, 0) \/ exists m b, up = (Some m, b) /\ G !! m = Some (b, top) /\ 0 < b)
    /\ top_known G r top top up.
Proof.
  intros Hw Hd Hk Hf. pose proof Hw as (_ & Hq & Hlk).
  destruct (vlocate_covering s key fuel (Some path_init) Hw Hd Hk Hf ltac:(auto)) as (G & r & top & l1 & path & l & n & lo
    & Hi & Hsole & Hr & Gr & Htop & Hrun & Hver & Hval & Hmove & Hn & Gl & Hlo & Hhk & Hrem & Hsome).
  destruct (Hsome ltac:(eauto)) as [p ->]. destruct Hrem as (stack & Hst & Hok).
  unfold venough_fuel in Hf. destruct fuel as [|f]; [lia|].
  assert (Hloc : vinsert_locate (S f) key s = Ok ((Some l, p), s)).
  { unfold vinsert_locate. rewrite (ST_bind_ok Hrun). cbn beta iota. cbn [vinsert_seek].
    erewrite ST_bind_ok; [reflexivity|].
    rewrite (ST_bind_ok Hver), (ST_bind_ok Hval). by rewrite (ST_bind_ok Hmove). }
  unfold vinsert. rewrite (ST_bind_ok Hloc). cbn beta iota. unfold vinsert_finish.
  destruct (node_acquire_ok s l n Hn Hq) as (s2 & Hrun2 & [Ht2 Hl2] & Hs2). rewrite (ST_bind_ok Hrun2).
  destruct (insert_into_leaf_inserted G (v_tree s) l n lo key v Hi Hn Gl ltac:(lia)) as (up & G1 & t1 & Hins & Hli).
  rewrite <- Ht2 in Hins. rewrite (ST_bind_ok (on_vtree_ok _ _ _ _ Hins)).
  pose proof (leaf_inserted_contents _ _ _ _ _ _ _ _ Hi Hli) as Hc.
  destruct Hli as [Hg _]. pose proof (top_known_grown _ _ _ _ _ _ _ r top Hg (Hsole _ _ Hr Gr)) as Htk.
  destruct Hg as [Hi1 Hsub1 Hr1 Hsz1 _ Hup1 _].
  destruct (hi_lookup G1 (heap t1) l lo 0) as (n1 & Hn1 & _); [apply Hi1|by eapply lookup_weaken|].
  destruct (node_release_ok (mkVersioned t1 (v_words s2) (v_lock s2)) l n1 Hn1 Hs2) as (s4 & Hrun4 & [Ht4 Hl4] & Hq4).
  rewrite (ST_bind_ok Hrun4). pose proof (path_ok_length _ _ _ _ _ Hok) as Hlen.
  destruct (vpropagate_ok (S f) r stack 10 G1 s4 p lo 0 top up)
    as (up' & G' & s' & Hrunp & Hi' & Hsub & Hr' & Hq' & Hl' & He & Hup');
    rewrite ?Ht4; simpl; auto; try lia; [by eapply path_ok_mono; [..|exact Hok]|].
  simpl. rewrite (ST_bind_ok Hrunp). rewrite Ht4 in *. simpl in *.
  exists G', s', up', r, top. split; [done|]. split; [done|]. split; [done|].
  split; [congruence|]. split.
  { unfold vmap_of. rewrite <- Hc. eapply contents_ext; [apply Hi1|apply Hi'|done]. }
  split; [congruence|]. split; [|done].
  eapply lookup_weaken; [exact Gr|]. by transitivity G1.
Qed.

(** ** What the operations guarantee *)

Lemma vinsert_refines s key v fuel :
  vwell_formed s -> vwithin_capacity s -> 0 <= key < max_u64 -> (venough_fuel s <= fuel)%nat ->
  exists s', vinsert fuel key v s = Ok (tt, s') /\ vwell_formed s'
    /\ vmap_of s' = insert_new key v (vmap_of s).
Proof.
  intros Hw Hd Hk Hf.
  destruct (vinsert_below_root s key v fuel Hw Hd Hk Hf)
    as (G & s1 & up & r & top & -> & Hi & Hq & Hl & Hm & Hr & Gr & Hup & Htk).
  destruct Hup as [->|(m & b & -> & Gm & Hb)]; cbn [fst snd].
  { exists s1. split; [done|]. split; [|done]. split; [|done]. exists G. split; [done|].
    by eapply top_known_none. }
  destruct (create_new_root_inv G (v_tree s1) r top m b Hi Hr Gr Gm Hb)
    as (G' & t' & Hrun & Hi' & (r' & Hr' & Gr' & Hone) & He).
  { intros l lo Hl'. destruct (Htk _ _ Hl') as [|[_ [= ->]]]; auto. }
  unfold vlock_tree. unfold mbind at 1, ST_bind at 1. rewrite Hl. simpl.
  erewrite ST_bind_ok by (apply on_vtree_read; unfold root, gets; simpl; by rewrite Hr).
  erewrite ST_bind_ok by (apply on_vtree_ok; simpl; exact Hrun). eexists. split; [done|]. split.
  - split; [|done]. exists G'. split; [done|]. by eapply root_sole_intro.
  - rewrite <- Hm. unfold vmap_of. simpl. eapply contents_ext; [apply Hi|apply Hi'|done].
Qed.

(** C20: [insert] of the optimistic tree, run alone, terminates, leaves every version
    unlocked, keeps the B-link tree well formed and adds the pair unless the key is
    there: the same contract as the latched tree, although its descent never follows a
    right sibling above the leaves. *)
Theorem vinsert_correct s key v fuel :
  vwell_formed s -> vwithin_capacity s -> 0 <= key < max_u64 -> (venough_fuel s <= fuel)%nat ->
  exists s', vinsert fuel key v s = Ok (tt, s') /\ vwell_formed s'
    /\ vmap_of s' = insert_new key v (vmap_of s).
Proof. apply vinsert_refines. Qed.

Lemma vfind_refines s key fuel :
  vwell_formed s -> vwithin_capacity s -> 0 <= key < max_u64 -> (venough_fuel s <= fuel)%nat ->
  is_Some (vmap_of s !! key) \/ vprobe_safe key s ->
  vfind fuel key s = Ok (default 0 (vmap_of s !! key), s).
Proof.
  intros Hw Hd Hk Hf Hsafe.
  destruct (vlocate_covering s key fuel None Hw Hd Hk Hf ltac:(auto)) as (G & r & top & l1 & path & l & n & lo
    & Hi & Hsole & Hr & Gr & Htop & Hrun & Hver & Hval & Hmove & Hn & Gl & Hlo & Hhk & _).
  destruct (covering_probe G (v_tree s) l n lo key Hi Hn Gl ltac:(lia)) as (ks & kt & vs & vt & i & _ & _ & _ & Hidx & Hcase).
  unfold vfind. rewrite (ST_bind_ok Hrun). cbn beta iota. unfold venough_fuel in Hf.
  destruct fuel as [|f]; [lia|]. cbn [vfind_at].
  rewrite (ST_bind_ok Hver), (ST_bind_ok Hmove). cbn beta iota.
  rewrite (ST_bind_ok (vderef_ok _ _ _ Hn)), (ST_bind_ok (lift_ok Hidx)).
  unfold vmap_of in *. destruct (contents (heap (v_tree s)) !! key) as [v|] eqn:E.
  - destruct Hcase as (Hlk & Hv & _). rewrite (ST_bind_ok (lift_ok Hlk)).
    rewrite (ST_bind_ok (lift_ok Hv)), (ST_bind_ok (node_is_valid_ok _ _ _ Hn)).
    by rewrite Z.eqb_refl.
  - destruct Hsafe as [[? ?]|Hsafe]; [done|].
    destruct (Hcase (Hsafe l n Hn)) as (k & w & Hne & Hlk & Hv). rewrite (ST_bind_ok (lift_ok Hlk)).
    rewrite (ST_bind_ok (lift_ok Hv)), (ST_bind_ok (node_is_valid_ok _ _ _ Hn)).
    by rewrite (proj2 (Z.eqb_neq _ _)).
Qed.
Lemma vupdate_refines s key v fuel :
  vwell_formed s -> vwithin_capacity s -> 0 <= key < max_u64 -> (venough_fuel s <= fuel)%nat ->
  is_Some (vmap_of s !! key) \/ vprobe_safe key s ->
  exists s', vupdate fuel key v s = Ok (tt, s') /\ vwell_formed s'
    /\ vmap_of s' = update_present key v (vmap_of s).
Proof.
  intros Hw Hd Hk Hf Hsafe. pose proof Hw as ((G0 & Hi0 & Hlv0) & Hq & Hlk).
  destruct (vlocate_covering s key fuel (Some path_init) Hw Hd Hk Hf ltac:(auto)) as (G & r & top & l1 & path & l & n & lo
    & Hi & Hsole & Hr & Gr & Htop & Hrun & Hver & Hval & Hmove & Hn & Gl & Hlo & Hhk & _).
  destruct (covering_probe G (v_tree s) l n lo key Hi Hn Gl ltac:(lia)) as (ks & kt & vs & vt & i & Hsh & Hso & Hall & Hidx & Hcase).
  unfold vupdate. rewrite (ST_bind_ok Hrun). cbn beta iota. unfold venough_fuel in Hf.
  destruct fuel as [|f]; [lia|]. cbn [vupdate_at].
  rewrite (ST_bind_ok Hver), (ST_bind_ok Hmove). cbn beta iota.
  rewrite (ST_bind_ok (node_is_valid_ok _ _ _ Hn)). cbn beta iota.
  destruct (node_acquire_ok s l n Hn Hq) as (s2 & Hrun2 & [Ht2 Hl2] & Hs2). rewrite (ST_bind_ok Hrun2).
  assert (Hn2 := Hn). rewrite <- Ht2 in Hn2.
  rewrite (ST_bind_ok (vderef_ok _ _ _ Hn2)), (ST_bind_ok (lift_ok Hidx)).
  unfold node_key. rewrite (level_is_leaf _ _ _ _ _ _ (ti_heap _ _ Hi) Hn Gl). simpl.
  unfold vmap_of, update_present in *. destruct (contents (heap (v_tree s)) !! key) as [w|] eqn:E.
  - destruct Hcase as (Hlk' & _ & Hb). rewrite (ST_bind_ok (lift_ok Hlk')), Z.eqb_refl.
    destruct (overwrite_contents G (v_tree s) l n lo ks kt vs vt key v i)
      as (t' & Hrun3 & Hi' & Hrt & [n' Hn'] & Hc); auto; [lia|].
    rewrite <- Ht2 in Hrun3. rewrite (ST_bind_ok (on_vtree_ok _ _ _ _ Hrun3)).
    destruct (node_release_ok (mkVersioned t' (v_words s2) (v_lock s2)) l n' Hn' Hs2)
      as (s4 & Hrun4 & [Ht4 Hl4] & Hq4).
    exists s4. split; [done|]. simpl in *. split; [|by rewrite Ht4].
    split; [exists G; rewrite Ht4; split; [done|]; unfold root_sole; by rewrite Hrt|]. split; congruence || done.
  - destruct Hsafe as [[? ?]|Hsafe]; [done|].
    destruct (Hcase (Hsafe l n Hn)) as (k & w & Hne & Hlk' & _). rewrite (ST_bind_ok (lift_ok Hlk')).
    rewrite (proj2 (Z.eqb_neq _ _)) by done. rewrite (ST_bind_ok eq_refl).
    destruct (node_release_ok s2 l n Hn2 Hs2) as (s3 & Hrun3 & [Ht3 Hl3] & Hq3).
    exists s3. split; [done|]. rewrite Ht3, Ht2. split; [|done].
    split; [exists G; by rewrite Ht3, Ht2|]. split; congruence || done.
Qed.
(** C21: [find] of the optimistic tree returns the stored value, and 0 for an absent key,
    and changes nothing, not even a version; [update] replaces the value of a key that is
    there and otherwise leaves the stored map alone; both terminate and leave every node
    unlocked.  For an absent key both need that the probe is safe ([vprobe_safe]): when all
    live keys of the leaf are smaller, the slot behind them is read all the same, so it must
    exist (the leaf is not full) and what is left in it must differ from the key; on a full
    leaf this is the read past the array of [find_past_full_leaf]. *)
Theorem vfind_update_correct s key v fuel :
  vwell_formed s -> vwithin_capacity s -> 0 <= key < max_u64 -> (venough_fuel s <= fuel)%nat ->
  is_Some (vmap_of s !! key) \/ vprobe_safe key s ->
  vfind fuel key s = Ok (default 0 (vmap_of s !! key), s)
  /\ exists s', vupdate fuel key v s = Ok (tt, s') /\ vwell_formed s' /\ vmap_of s' = update_present key v (vmap_of s).
Proof. intros. split; [by apply vfind_refines|by apply vupdate_refines]. Qed.

Lemma new_versioned_well_formed : vwell_formed new_versioned.
Proof.
  split; [|split; [|done]].
  - eexists. split; [apply new_tree_inv|]. intros r top Hr Gr l lo Hl.
    apply lookup_singleton_Some in Gr as [<- _], Hl as [<- _]. done.
  - intros l. by exists 0.
Qed.

End OptimisticTree.

(** ** Concrete runs *)
Module OptimisticExamples.
#[local] Existing Instance small_platform.
#[local] Existing Instance small_platform_ok.

Definition vafter (kv : Z * Z) (s : VersionedState) : VersionedState :=
  match vinsert (venough_fuel s) kv.1 kv.2 s with Ok (_, s') => s' | Fault _ => s end.
Definition vfilled (kvs : list (Z * Z)) (s : VersionedState) : VersionedState :=
  fold_left (fun s kv => vafter kv s) kvs s.

Lemma vfilled_well_formed kvs : forall s,
  vwell_formed s -> Z.of_nat (base.size (vmap_of s) + length kvs) <= entry_capacity ->
  Forall (fun kv => 0 <= kv.1 < max_u64) kvs -> vwell_formed (vfilled kvs s).
Proof.
  induction kvs as [|[k v] kvs IH]; intros s Hw Hd Hall; [done|]. cbn [vfilled fold_left].
  apply Forall_cons in Hall as [Hk Hall]. cbn [length] in Hd.
  destruct (vinsert_refines s k v (venough_fuel s) Hw) as (s' & Hrun & Hw' & Hm); [unfold vwithin_capacity; lia|done|lia|].
  unfold vafter. cbn [fst snd]. rewrite Hrun. apply IH; [done| |done].
  rewrite Hm. pose proof (insert_new_size k v (vmap_of s)). lia.
Qed.

Definition two_vlevels : VersionedState :=
  vfilled [(10, 1); (20, 2); (30, 3); (40, 4); (5, 5); (6, 6); (50, 7)] new_versioned.
Lemma two_vlevels_ok : vwell_formed two_vlevels.
Proof.
  refine (vfilled_well_formed _ _ _ _ _); [apply new_versioned_well_formed|by vm_compute|].
  repeat constructor; simpl; unfold max_u64; lia.
Qed.

Lemma vinsert_correct_witness :
  exists s', vinsert 40 7 8 two_vlevels = Ok (tt, s') /\ vwell_formed s'
    /\ vmap_of s' = insert_new 7 8 (vmap_of two_vlevels).
Proof.
  apply (vinsert_correct two_vlevels 7 8 40 two_vlevels_ok); [by vm_compute|unfold max_u64; lia|].
  apply Nat.leb_le. vm_compute. reflexivity.
Defined.
Lemma vfind_update_correct_witness :
  (vfind 40 30 two_vlevels = Ok (default 0 (vmap_of two_vlevels !! 30), two_vlevels)
   /\ exists s', vupdate 40 30 99 two_vlevels = Ok (tt, s') /\ vwell_formed s'
        /\ vmap_of s' = update_present 30 99 (vmap_of two_vlevels))
  /\ vfind 40 25 two_vlevels = Ok (default 0 (vmap_of two_vlevels !! 25), two_vlevels).
Proof.
  split; [apply (vfind_update_correct two_vlevels 30 99 40 two_vlevels_ok)
         |refine (proj1 (vfind_update_correct two_vlevels 25 0 40 two_vlevels_ok _ _ _ _))];
    try (by vm_compute); try (unfold max_u64; lia); try (apply Nat.leb_le; vm_compute; reflexivity).
  - left. vm_compute. by eexists.
  - right. apply (bool_decide_unpack _). vm_compute. done.
Defined.

(** A root leaf filled with 10, 20, 30. *)
Definition full_vroot : VersionedState := vfilled [(10, 1); (20, 2); (30, 3)] new_versioned.

(** Thread A inserts [a], but thread B inserts [b] between the two parts of A's call;
    then [a] is looked up. *)
Definition interleaved_inserts (fuel : nat) (a va b vb : Z) : ST VersionedState Z :=
  '(leaf, path) ← vinsert_locate fuel a;
  vinsert fuel b vb;;
  vinsert_finish fuel leaf path a va;;
  vfind fuel a.

(** The optimistic [insert] loses keys under concurrency: the leaf is validated and then
    acquired, but not looked at again.  Thread A looks for the leaf of 27, thread B inserts
    25, which splits this leaf; A then acquires the leaf it found and puts 27 into it,
    although the key now belongs to the right sibling.  Both calls return and a later
    [find] of 27 returns 0; without the interleaving it returns the value inserted. *)
Theorem interleaved_vinsert_lost :
  fst <$> interleaved_inserts 20 27 7 25 5 full_vroot = Ok 0
  /\ fst <$> (vinsert 20 27 7;; vinsert 20 25 5;; vfind 20 27) full_vroot = Ok 7.
Proof. split; vm_compute; reflexivity. Qed.

End OptimisticExamples.
