(* ===== verification/OlcBTree.v ===== *)
(** * The B+-tree with optimistic lock coupling

    Models [src/src/indices/olc_btree/thread/btree_olc.h]: the version lock
    [OptLock], the leaf and inner pages with their searches, insertions and splits,
    and [BTree] with [makeRoot], [insert], [lookup], [scan] and its destructor.
    [OlcFacts.v] proves what they do. *)

From S2P Require Import Prelude Node.

(** ** [OptLock] *)
Module OptLock.
(** [std::atomic<uint64_t> typeVersionLockObsolete{0b100}] *)
Definition olc_init : Z := 4.

Definition isLocked (version : Z) : bool := Z.land version 2 =? 2.
Definition isObsolete (version : Z) : bool := Z.land version 1 =? 1.

(** Each operation takes the word; the ones that may restart return [needRestart]. *)
Definition readLockOrRestart (word : Z) : Z * bool :=
  (word, isLocked word || isObsolete word).
(** Returns the new word, the caller's [version] after the call, and [needRestart]. *)
Definition upgradeToWriteLockOrRestart (word version : Z) : Z * Z * bool :=
  if word =? version then (u64 (version + 2), u64 (version + 2), false)
  else (word, word, true).
Definition writeLockOrRestart (word : Z) : Z * bool :=
  let '(version, needRestart) := readLockOrRestart word in
  if needRestart then (word, true)
  else let '(word', _, needRestart) := upgradeToWriteLockOrRestart word version in (word', needRestart).
Definition writeUnlock (word : Z) : Z := u64 (word + 2).
Definition readUnlockOrRestart (startRead word : Z) : bool := negb (startRead =? word).
Definition checkOrRestart (startRead word : Z) : bool := readUnlockOrRestart startRead word.
Definition writeUnlockObsolete (word : Z) : Z := u64 (word + 3).
End OptLock.

(** ** Pages *)

(** [sizeof(NodeBase)], the content of fresh memory, and the value of the local
    variable [success] that [lookup] leaves uninitialised. *)
Class OlcPlatform := {
  sizeof_NodeBase : Z;
  olc_uninit_key : loc -> nat -> Z;
  olc_uninit_payload : loc -> nat -> Z;
  olc_uninit_child : loc -> nat -> ptr;
  uninit_success : bool }.
Class OlcPlatformOk `{OlcPlatform} : Prop := {
  base_nonneg : 0 <= sizeof_NodeBase;
  base_fits : sizeof_NodeBase + 80 <= node_size }.

(** [BTreeLeaf::maxEntries] and [BTreeInner::maxEntries]. *)
Definition maxEntries `{OlcPlatform} : Z := (node_size - sizeof_NodeBase) / (8 + 8).

(** [type] tells which of the two pages it is. *)
Inductive Page : Type :=
  | BTreeInner (children : list ptr) (keys : list Z)
  | BTreeLeaf (keys : list Z) (payloads : list Z).
(** [NodeBase] with its page. *)
Record ONode : Type := mkONode { word : Z; count : Z; page : Page }.

Definition is_BTreeInner (n : ONode) : bool :=
  match page n with BTreeInner _ _ => true | BTreeLeaf _ _ => false end.
Definition page_keys (n : ONode) : list Z :=
  match page n with BTreeInner _ ks => ks | BTreeLeaf ks _ => ks end.

Section Pages.
Context {PF : OlcPlatform}.

Definition new_BTreeLeaf (l : loc) : ONode :=
  mkONode OptLock.olc_init 0 (BTreeLeaf (olc_uninit_key l <$> List.seq 0 (Z.to_nat maxEntries))
                            (olc_uninit_payload l <$> List.seq 0 (Z.to_nat maxEntries))).
Definition new_BTreeInner (l : loc) : ONode :=
  mkONode OptLock.olc_init 0 (BTreeInner (olc_uninit_child l <$> List.seq 0 (Z.to_nat maxEntries))
                            (olc_uninit_key l <$> List.seq 0 (Z.to_nat maxEntries))).

Definition leaf_isFull (n : ONode) : bool := count n =? maxEntries.
Definition inner_isFull (n : ONode) : bool := count n =? maxEntries - 1.

(** [lowerBound]: the loop tests its condition at the end, so it always reads once. *)
Fixpoint lowerBound_loop (fuel : nat) (keys : list Z) (k lower upper : Z) : outcome Z :=
  match fuel with
  | O => Fault OutOfFuel
  | S fuel =>
      let mid := (upper - lower) / 2 + lower in
      km ← array_get keys mid;
      let next lower upper :=
        if lower <? upper then lowerBound_loop fuel keys k lower upper else Ok lower in
      if k <? km then next lower mid
      else if km <? k then next (mid + 1) upper
      else Ok mid
  end.
Definition lowerBound (n : ONode) (k : Z) : outcome Z :=
  lowerBound_loop (S (Z.to_nat (count n))) (page_keys n) k 0 (count n).

(** [lowerBoundBF]: the branch-free search; [base] is the offset of the pointer. *)
Fixpoint lowerBoundBF_loop (fuel : nat) (keys : list Z) (k base n : Z) : outcome Z :=
  match fuel with
  | O => Fault OutOfFuel
  | S fuel =>
      if 1 <? n then
        let half := n / 2 in
        kh ← array_get keys (base + half);
        lowerBoundBF_loop fuel keys k (if kh <? k then base + half else base) (n - half)
      else Ok base
  end.
Definition lowerBoundBF (n : ONode) (k : Z) : outcome Z :=
  base ← lowerBoundBF_loop (S (Z.to_nat (count n))) (page_keys n) k 0 (count n);
  kb ← array_get (page_keys n) base;
  Ok ((if kb <? k then 1 else 0) + base).

(** [BTreeLeaf::insert] *)
Definition BTreeLeaf_insert (n : ONode) (k p : Z) : outcome ONode :=
  match page n with
  | BTreeLeaf keys payloads =>
      if negb (count n =? 0) then
        pos ← lowerBound n k;
        found ← (if pos <? count n then kp ← array_get keys pos; Ok (kp =? k) else Ok false);
        if found : bool then
          payloads' ← array_set payloads pos p;
          Ok (mkONode (word n) (count n) (BTreeLeaf keys payloads'))
        else
          keys' ← memmove keys (pos + 1) pos (count n - pos);
          payloads' ← memmove payloads (pos + 1) pos (count n - pos);
          keys'' ← array_set keys' pos k;
          payloads'' ← array_set payloads' pos p;
          Ok (mkONode (word n) (u16 (count n + 1)) (BTreeLeaf keys'' payloads''))
      else
        keys' ← array_set keys 0 k;
        payloads' ← array_set payloads 0 p;
        Ok (mkONode (word n) (u16 (count n + 1)) (BTreeLeaf keys' payloads'))
  | BTreeInner _ _ => Fault InactiveMember
  end.

(** [BTreeLeaf::split] into the fresh leaf [newLeaf]: this page, the new one, [sep]. *)
Definition BTreeLeaf_split (n newLeaf : ONode) : outcome (ONode * ONode * Z) :=
  match page n, page newLeaf with
  | BTreeLeaf keys payloads, BTreeLeaf keys' payloads' =>
      let new_count := u16 (count n - count n / 2) in
      let this_count := u16 (count n - new_count) in
      keys'' ← memcpy keys' 0 keys this_count new_count;
      payloads'' ← memcpy payloads' 0 payloads this_count new_count;
      sep ← array_get keys (this_count - 1);
      Ok (mkONode (word n) this_count (BTreeLeaf keys payloads),
          mkONode (word newLeaf) new_count (BTreeLeaf keys'' payloads''), sep)
  | _, _ => Fault InactiveMember
  end.

(** [BTreeInner::split] into the fresh page [newInner]. *)
Definition BTreeInner_split (n newInner : ONode) : outcome (ONode * ONode * Z) :=
  match page n, page newInner with
  | BTreeInner children keys, BTreeInner children' keys' =>
      let new_count := u16 (count n - count n / 2) in
      let this_count := u16 (count n - new_count - 1) in
      sep ← array_get keys this_count;
      keys'' ← memcpy keys' 0 keys (this_count + 1) (new_count + 1);
      children'' ← memcpy children' 0 children (this_count + 1) (new_count + 1);
      Ok (mkONode (word n) this_count (BTreeInner children keys),
          mkONode (word newInner) new_count (BTreeInner children'' keys''), sep)
  | _, _ => Fault InactiveMember
  end.

(** [BTreeInner::insert]: the new child goes right of the one it was split from. *)
Definition BTreeInner_insert (n : ONode) (k : Z) (child : ptr) : outcome ONode :=
  match page n with
  | BTreeInner children keys =>
      pos ← lowerBound n k;
      keys' ← memmove keys (pos + 1) pos (count n - pos + 1);
      children' ← memmove children (pos + 1) pos (count n - pos + 1);
      keys'' ← array_set keys' pos k;
      children'' ← array_set children' pos child;
      a ← array_get children'' pos;
      b ← array_get children'' (pos + 1);
      c1 ← array_set children'' pos b;
      c2 ← array_set c1 (pos + 1) a;
      Ok (mkONode (word n) (u16 (count n + 1)) (BTreeInner c2 keys''))
  | BTreeLeaf _ _ => Fault InactiveMember
  end.

(** ** [BTree] *)
Record OlcState : Type := mkOlc { o_heap : gmap loc ONode; o_next : loc; o_root : ptr }.
Abbreviation OM := (ST OlcState).

Definition o_deref (p : ptr) : OM ONode := fun s =>
  match p with
  | Some l => match o_heap s !! l with Some n => Ok (n, s) | None => Fault NullDeref end
  | None => Fault NullDeref
  end.
Definition o_update (p : ptr) (f : ONode -> outcome ONode) : OM unit := fun s =>
  match p with
  | Some l =>
      match o_heap s !! l with
      | Some n => match f n with
                  | Ok n' => Ok (tt, mkOlc (<[l := n']> (o_heap s)) (o_next s) (o_root s))
                  | Fault e => Fault e
                  end
      | None => Fault NullDeref
      end
  | None => Fault NullDeref
  end.
Definition o_new (mk : loc -> ONode) : OM ptr := fun s =>
  Ok (Some (o_next s),
      mkOlc (<[o_next s := mk (o_next s)]> (o_heap s)) (Pos.succ (o_next s)) (o_root s)).
Definition o_get_root : OM ptr := gets o_root.
Definition o_set_root (p : ptr) : OM unit := modify (fun s => mkOlc (o_heap s) (o_next s) p).

(** [BTree()] *)
Definition new_btree : OlcState := mkOlc {[ 1%positive := new_BTreeLeaf 1 ]} 2 (Some 1%positive).

Definition makeRoot (k : Z) (leftChild rightChild : ptr) : OM unit :=
  inner ← o_new new_BTreeInner;
  o_update inner (fun n =>
    match page n with
    | BTreeInner children keys =>
        keys' ← array_set keys 0 k;
        c1 ← array_set children 0 leftChild;
        c2 ← array_set c1 1 rightChild;
        Ok (mkONode (word n) 1 (BTreeInner c2 keys'))
    | BTreeLeaf _ _ => Fault InactiveMember
    end);;
  o_set_root inner.

(** [None] is [goto restart]. *)
Definition attempt {A B} (m : OM (option A)) (k : A -> OM (option B)) : OM (option B) :=
  r ← m; match r with Some a => k a | None => mret None end.
Definition restart_if (needRestart : bool) : OM (option unit) :=
  mret (if needRestart then None else Some tt).

(** The lock operations on a page of the tree. *)
Definition o_readLock (p : ptr) : OM (Z * bool) :=
  n ← o_deref p; mret (OptLock.readLockOrRestart (word n)).
Definition o_upgrade (p : ptr) (version : Z) : OM bool :=
  n ← o_deref p;
  let '(w, _, needRestart) := OptLock.upgradeToWriteLockOrRestart (word n) version in
  o_update p (fun n => Ok (mkONode w (count n) (page n)));;
  mret needRestart.
Definition o_writeUnlock (p : ptr) : OM unit :=
  o_update p (fun n => Ok (mkONode (OptLock.writeUnlock (word n)) (count n) (page n))).
Definition o_readUnlock (p : ptr) (version : Z) : OM bool :=
  n ← o_deref p; mret (OptLock.readUnlockOrRestart version (word n)).

(** [if (parent) { parent->readUnlockOrRestart(...); if (needRestart) goto restart; }] *)
Definition release_parent (parent : ptr) (versionParent : Z) : OM (option unit) :=
  match parent with
  | Some _ => r ← o_readUnlock parent versionParent; restart_if r
  | None => mret (Some tt)
  end.

(** The lock phase that [insert] runs before it splits [node] (for an inner page and
    for a leaf the same lines). *)
Definition lock_for_split (node : ptr) (versionNode : Z) (parent : ptr) (versionParent : Z) :
    OM (option unit) :=
  attempt (match parent with
           | Some _ => r ← o_upgrade parent versionParent; restart_if r
           | None => mret (Some tt)
           end) (fun _ =>
  needRestart ← o_upgrade node versionNode;
  if needRestart : bool then
    (match parent with Some _ => o_writeUnlock parent | None => mret tt end);;
    mret None
  else
    root ← o_get_root;
    if decide (parent = None /\ node <> root) then o_writeUnlock node;; mret None
    else mret (Some tt)).

(** Split [node] with [split] into a page built by [mk], publish the new page in the
    parent (or in a new root), unlock. *)
Definition split_node (mk : loc -> ONode) (split : ONode -> ONode -> outcome (ONode * ONode * Z))
    (node parent : ptr) : OM unit :=
  new ← o_new mk;
  n ← o_deref node;
  m ← o_deref new;
  '(n', m', sep) ← lift (split n m);
  o_update new (fun _ => Ok m');;
  o_update node (fun _ => Ok n');;
  (match parent with
   | Some _ => o_update parent (fun p => BTreeInner_insert p sep new)
   | None => makeRoot sep node new
   end);;
  o_writeUnlock node;;
  match parent with Some _ => o_writeUnlock parent | None => mret tt end.

(** The descent of [insert] from [node] on, up to its [return] or [goto restart]. *)
Fixpoint insert_from (fuel : nat) (k v : Z) (node : ptr) (versionNode : Z) (parent : ptr)
    (versionParent : Z) : OM (option unit) :=
  match fuel with
  | O => lift (Fault OutOfFuel)
  | S fuel =>
      n ← o_deref node;
      if is_BTreeInner n then
        if inner_isFull n then
          attempt (lock_for_split node versionNode parent versionParent) (fun _ =>
          split_node new_BTreeInner BTreeInner_split node parent;;
          mret None)
        else
          attempt (release_parent parent versionParent) (fun _ =>
          let parent := node in
          let versionParent := versionNode in
          pos ← lift (lowerBound n k);
          child ← lift (match page n with
                        | BTreeInner children _ => array_get children pos
                        | BTreeLeaf _ _ => Fault InactiveMember
                        end);
          r ← o_readUnlock node versionNode;
          attempt (restart_if r) (fun _ =>
          '(versionNode, r) ← o_readLock child;
          attempt (restart_if r) (fun _ =>
          insert_from fuel k v child versionNode parent versionParent)))
      else if leaf_isFull n then
        attempt (lock_for_split node versionNode parent versionParent) (fun _ =>
        split_node new_BTreeLeaf BTreeLeaf_split node parent;;
        mret None)
      else
        r ← o_upgrade node versionNode;
        attempt (restart_if r) (fun _ =>
        needRestart ← (match parent with
                       | Some _ => o_readUnlock parent versionParent
                       | None => mret false
                       end);
        if needRestart : bool then o_writeUnlock node;; mret None
        else
          o_update node (fun n => BTreeLeaf_insert n k v);;
          o_writeUnlock node;;
          mret (Some tt))
  end.

(** What every operation does after [restart:]: read the root and its version. *)
Definition BTree_start : OM (option (ptr * Z)) :=
  node ← o_get_root;
  '(versionNode, needRestart) ← o_readLock node;
  root ← o_get_root;
  if needRestart || bool_decide (node <> root) then mret None else mret (Some (node, versionNode)).

Definition insert_once (fuel : nat) (k v : Z) : OM (option unit) :=
  attempt BTree_start (fun '(node, versionNode) => insert_from fuel k v node versionNode None 0).
(** [BTree::insert]: [tries] bounds the restarts, [fuel] the descent of each. *)
Fixpoint BTree_insert (tries fuel : nat) (k v : Z) : OM unit :=
  match tries with
  | O => lift (Fault OutOfFuel)
  | S tries =>
      r ← insert_once fuel k v;
      match r with Some _ => mret tt | None => BTree_insert tries fuel k v end
  end.

(** The descent of [lookup] and [scan]. *)
Fixpoint descend (fuel : nat) (k : Z) (node : ptr) (versionNode : Z) (parent : ptr)
    (versionParent : Z) : OM (option (ptr * Z * ptr * Z)) :=
  match fuel with
  | O => lift (Fault OutOfFuel)
  | S fuel =>
      n ← o_deref node;
      if is_BTreeInner n then
        attempt (release_parent parent versionParent) (fun _ =>
        pos ← lift (lowerBound n k);
        child ← lift (match page n with
                      | BTreeInner children _ => array_get children pos
                      | BTreeLeaf _ _ => Fault InactiveMember
                      end);
        r ← o_readUnlock node versionNode;
        attempt (restart_if r) (fun _ =>
        '(versionChild, r) ← o_readLock child;
        attempt (restart_if r) (fun _ =>
        descend fuel k child versionChild node versionNode)))
      else mret (Some (node, versionNode, parent, versionParent))
  end.

(** The leaf parts of [lookup] and [scan]. *)
Definition leaf_lookup (n : ONode) (k result : Z) : outcome (bool * Z) :=
  match page n with
  | BTreeLeaf keys payloads =>
      pos ← lowerBound n k;
      found ← (if pos <? count n then kp ← array_get keys pos; Ok (kp =? k) else Ok false);
      if found : bool then p ← array_get payloads pos; Ok (true, p) else Ok (uninit_success, result)
  | BTreeInner _ _ => Fault InactiveMember
  end.
Fixpoint scan_loop (todo : nat) (payloads : list Z) (i : Z) (range cnt : Z) (output : list Z) :
    outcome (list Z) :=
  match todo with
  | O => Ok output
  | S todo =>
      if cnt =? range then Ok output
      else p ← array_get payloads i; scan_loop todo payloads (i + 1) range (cnt + 1) (output ++ [p])
  end.
(** [output[0 .. count)] after the loop. *)
Definition leaf_scan (n : ONode) (k range : Z) : outcome (list Z) :=
  match page n with
  | BTreeLeaf _ payloads =>
      pos ← lowerBound n k;
      scan_loop (Z.to_nat (count n - pos)) payloads pos range 0 []
  | BTreeInner _ _ => Fault InactiveMember
  end.

(** One attempt of [lookup] or [scan]: descend, read the leaf, validate. *)
Definition read_once {A} (read : ONode -> outcome A) (fuel : nat) (k : Z) : OM (option A) :=
  attempt BTree_start (fun '(node, versionNode) =>
  attempt (descend fuel k node versionNode None 0) (fun '(node, versionNode, parent, versionParent) =>
  n ← o_deref node;
  a ← lift (read n);
  attempt (release_parent parent versionParent) (fun _ =>
  r ← o_readUnlock node versionNode;
  attempt (restart_if r) (fun _ => mret (Some a))))).
Fixpoint read_loop {A} (read : ONode -> outcome A) (tries fuel : nat) (k : Z) : OM A :=
  match tries with
  | O => lift (Fault OutOfFuel)
  | S tries =>
      r ← read_once read fuel k;
      match r with Some a => mret a | None => read_loop read tries fuel k end
  end.
Definition BTree_lookup (tries fuel : nat) (k result : Z) : OM (bool * Z) :=
  read_loop (fun n => leaf_lookup n k result) tries fuel k.
Definition BTree_scan (tries fuel : nat) (k range : Z) : OM (list Z) :=
  read_loop (fun n => leaf_scan n k range) tries fuel k.

(** [~BTreeInner] deletes every child that is not null, then the page itself goes. *)
Fixpoint delete_node (fuel : nat) (p : ptr) : OM unit :=
  match fuel with
  | O => lift (Fault OutOfFuel)
  | S fuel =>
      n ← o_deref p;
      (match page n with
       | BTreeInner children _ =>
           (fix go (cs : list ptr) : OM unit :=
              match cs with
              | [] => mret tt
              | Some c :: cs => delete_node fuel (Some c);; go cs
              | None :: cs => go cs
              end) (take (Z.to_nat (count n + 1)) children)
       | BTreeLeaf _ _ => mret tt
       end);;
      modify (fun s => mkOlc (match p with Some l => delete l (o_heap s) | None => o_heap s end)
                             (o_next s) (o_root s))
  end.

End Pages.
