(* ===== verification/OlcFacts.v ===== *)
(** * Correctness of the optimistic-lock-coupling B+-tree

    The two binary searches of the pages agree; splits and insertions keep pages
    sorted; and, run from a tree nobody else works on, [BTree::insert], [lookup] and
    [scan] terminate (each restart of [insert] has split a full page) and act on the
    stored map as an upsert, a lookup and a range read of one leaf. *)

From S2P Require Import Prelude Node OlcBTree.

(** The pairs a page stores, and the map a heap of pages stores. *)
Definition oleaf_entries (n : ONode) : list (Z * Z) :=
  match page n with
  | BTreeLeaf ks vs => zip (take (Z.to_nat (count n)) ks) (take (Z.to_nat (count n)) vs)
  | BTreeInner _ _ => []
  end.
Abbreviation ostored := (stored oleaf_entries).

Section OlcFacts.
Context {PF : OlcPlatform} {PFok : OlcPlatformOk}.

Lemma maxEntries_bounds : 5 <= maxEntries <= 64.
Proof.
  pose proof base_nonneg. pose proof base_fits. unfold maxEntries, node_size in *.
  split; [apply Z.div_le_lower_bound; lia|]. apply Z.div_le_upper_bound; lia.
Qed.

(** ** Searching a page *)
Lemma lowerBound_loop_spec keys ks tl k : forall fuel lower upper,
  keys = ks ++ tl -> ksorted ks -> (lower < upper <= length ks)%nat -> (upper - lower < fuel)%nat ->
  below ks k lower -> above ks k upper ->
  exists p, lowerBound_loop fuel keys k (Z.of_nat lower) (Z.of_nat upper) = Ok (Z.of_nat p)
    /\ (p <= length ks)%nat /\ below ks k p /\ above ks k p.
Proof.
  intros fuel lower upper -> Hs. revert lower upper.
  induction fuel as [|fuel IH]; intros lower upper Hr Hf Hb Ha; [lia|]. cbn [lowerBound_loop].
  set (m := ((upper - lower) / 2 + lower)%nat).
  assert (Hm : (lower <= m < upper)%nat).
  { unfold m. split; [lia|]. pose proof (Nat.div_lt (upper - lower) 2 ltac:(lia) ltac:(lia)). lia. }
  replace ((Z.of_nat upper - Z.of_nat lower) / 2 + Z.of_nat lower) with (Z.of_nat m)
    by (unfold m; rewrite <- Nat2Z.inj_sub, Nat2Z.inj_add, Nat2Z.inj_div by lia; done).
  clearbody m. destruct (lookup_lt_is_Some_2 ks m) as [z Hz]; [lia|].
  rewrite (array_get_lookup _ m z) by (by apply lookup_app_l_Some). cbn [mbind outcome_bind].
  destruct (Z.ltb_spec k z) as [Hk|Hk].
  - destruct (Z.ltb_spec (Z.of_nat lower) (Z.of_nat m)).
    + apply IH; [lia|lia|done|]. eapply above_at; eauto. lia.
    + exists lower. split; [done|]. split; [lia|]. split; [done|].
      replace lower with m by lia. eapply above_at; eauto. lia.
  - destruct (Z.ltb_spec z k) as [Hk'|Hk'].
    + replace (Z.of_nat m + 1) with (Z.of_nat (S m)) by lia.
      destruct (Z.ltb_spec (Z.of_nat (S m)) (Z.of_nat upper)).
      * apply IH; [lia|lia|by eapply below_S|done].
      * exists (S m). split; [done|]. split; [lia|]. split; [by eapply below_S|].
        eapply above_mono; [exact Ha|lia].
    + exists m. split; [done|]. split; [lia|]. split; [|eapply above_at; eauto; lia].
      unfold below. apply Forall_forall. intros x (i & Hi)%list_elem_of_lookup.
      apply lookup_take_Some in Hi as [Hi Hlt]. pose proof (ksorted_lookup ks i m x z Hs Hlt Hi Hz). lia.
Qed.

Lemma lowerBound_spec n ks tl k :
  page_keys n = ks ++ tl -> count n = Z.of_nat (length ks) -> ksorted ks -> ks <> [] ->
  exists p, lowerBound n k = Ok (Z.of_nat p) /\ (p <= length ks)%nat /\ below ks k p /\ above ks k p.
Proof.
  intros Hk Hc Hs Hne. unfold lowerBound. rewrite Hc, Nat2Z.id.
  destruct ks as [|x ks]; [done|].
  apply (lowerBound_loop_spec _ (x :: ks) tl k _ 0 (length (x :: ks)) Hk Hs); simpl; [lia|lia| |].
  - by constructor.
  - apply above_end. simpl. lia.
Qed.

Lemma lowerBoundBF_loop_spec keys ks tl k : forall fuel base n,
  keys = ks ++ tl -> ksorted ks -> (1 <= n)%nat -> (base + n <= length ks)%nat -> (n <= fuel)%nat ->
  (base = 0%nat \/ exists z, ks !! base = Some z /\ z < k) -> above ks k (base + n) ->
  exists b, lowerBoundBF_loop fuel keys k (Z.of_nat base) (Z.of_nat n) = Ok (Z.of_nat b)
    /\ (S b <= length ks)%nat /\ (b = 0%nat \/ exists z, ks !! b = Some z /\ z < k) /\ above ks k (S b).
Proof.
  intros fuel base n -> Hs. revert base n.
  induction fuel as [|fuel IH]; intros base n Hn Hr Hf Hb Ha; [lia|]. cbn [lowerBoundBF_loop].
  destruct (Z.ltb_spec 1 (Z.of_nat n)).
  2: { exists base. split; [done|]. replace n with 1%nat in * by lia.
       replace (base + 1)%nat with (S base) in * by lia. auto. }
  set (h := (n / 2)%nat).
  assert (Hh : (1 <= h < n /\ h <= n - h)%nat).
  { unfold h. pose proof (Nat.div_lt n 2 ltac:(lia) ltac:(lia)). pose proof (Nat.div_mod_eq n 2).
    pose proof (Nat.mod_upper_bound n 2 ltac:(lia)). lia. }
  replace (Z.of_nat n / 2) with (Z.of_nat h) by (unfold h; by rewrite Nat2Z.inj_div).
  clearbody h. rewrite <- Nat2Z.inj_add. destruct (lookup_lt_is_Some_2 ks (base + h)) as [z Hz]; [lia|].
  rewrite (array_get_lookup _ (base + h) z) by (by apply lookup_app_l_Some). cbn [mbind outcome_bind].
  replace (Z.of_nat n - Z.of_nat h) with (Z.of_nat (n - h)) by lia.
  destruct (Z.ltb_spec z k).
  - apply IH; [lia|lia|lia|right; eauto|]. eapply above_mono; [exact Ha|lia].
  - apply IH; [lia|lia|lia|done|]. eapply above_mono; [eapply above_at; eauto|lia].
Qed.

Lemma lowerBoundBF_spec n ks tl k :
  page_keys n = ks ++ tl -> count n = Z.of_nat (length ks) -> ksorted ks -> ks <> [] ->
  exists p, lowerBoundBF n k = Ok (Z.of_nat p) /\ (p <= length ks)%nat /\ below ks k p /\ above ks k p.
Proof.
  intros Hk Hc Hs Hne. unfold lowerBoundBF. rewrite Hc, Nat2Z.id.
  assert (Hl : (1 <= length ks)%nat) by (destruct ks; [done|simpl; lia]).
  destruct (lowerBoundBF_loop_spec _ ks tl k (S (length ks)) 0 (length ks) Hk Hs)
    as (b & Hrun & Hb & Hor & Ha); auto; [by apply above_end|].
  change 0 with (Z.of_nat 0). rewrite Hrun. cbn [mbind outcome_bind].
  destruct (lookup_lt_is_Some_2 ks b) as [z Hz]; [lia|].
  rewrite Hk, (array_get_lookup _ b z) by (by apply lookup_app_l_Some). cbn [mbind outcome_bind].
  destruct (Z.ltb_spec z k).
  - exists (S b). split; [f_equal; lia|]. split; [lia|]. split; [by eapply below_S|done].
  - exists b. split; [done|]. split; [lia|]. split; [|by eapply above_at].
    destruct Hor as [->|(z' & Hz' & ?)]; [by constructor|]. simplify_eq. lia.
Qed.

(** The same position as a splitting of the live keys. *)
Lemma lowerBound_split n ks tl k :
  page_keys n = ks ++ tl -> count n = Z.of_nat (length ks) -> ksorted ks -> ks <> [] ->
  exists l1 l2, ks = l1 ++ l2 /\ lowerBound n k = Ok (Z.of_nat (length l1))
    /\ Forall (fun x => x < k) l1 /\ Forall (fun x => k <= x) l2.
Proof.
  intros Hk Hc Hs Hne. destruct (lowerBound_spec n ks tl k Hk Hc Hs Hne) as (p & Hrun & Hp & Hb & Ha).
  exists (take p ks), (drop p ks). rewrite take_drop, length_take. split; [done|].
  split; [rewrite Hrun; do 2 f_equal; lia|done].
Qed.

(** ** Shapes of pages: live prefix and stale rest *)
Record oleaf_shape (n : ONode) (ks kt vs vt : list Z) : Prop := {
  ol_page : page n = BTreeLeaf (ks ++ kt) (vs ++ vt);
  ol_count : count n = Z.of_nat (length ks);
  ol_values : length vs = length ks;
  ol_cap_keys : Z.of_nat (length (ks ++ kt)) = maxEntries;
  ol_cap_values : Z.of_nat (length (vs ++ vt)) = maxEntries }.
Record oinner_shape (n : ONode) (ks kt : list Z) (ss st : list ptr) : Prop := {
  oi_page : page n = BTreeInner (ss ++ st) (ks ++ kt);
  oi_count : count n = Z.of_nat (length ks);
  oi_children : length ss = S (length ks);
  oi_cap_keys : Z.of_nat (length (ks ++ kt)) = maxEntries;
  oi_cap_children : Z.of_nat (length (ss ++ st)) = maxEntries }.

Lemma oleaf_page_keys n ks kt vs vt : oleaf_shape n ks kt vs vt -> page_keys n = ks ++ kt.
Proof. intros [Hp _ _ _ _]. unfold page_keys. by rewrite Hp. Qed.
Lemma oinner_page_keys n ks kt ss st : oinner_shape n ks kt ss st -> page_keys n = ks ++ kt.
Proof. intros [Hp _ _ _ _]. unfold page_keys. by rewrite Hp. Qed.
Lemma leaf_isFull_shape n ks kt vs vt :
  oleaf_shape n ks kt vs vt -> leaf_isFull n = bool_decide (kt = []).
Proof.
  intros [_ Hc _ Hk _]. unfold leaf_isFull. rewrite Hc, <- Hk, length_app.
  destruct kt; simpl; [apply Z.eqb_eq|apply Z.eqb_neq]; lia.
Qed.
Lemma inner_isFull_shape n ks kt ss st :
  oinner_shape n ks kt ss st -> inner_isFull n = bool_decide (st = []).
Proof.
  intros [_ Hc Hl _ Hk]. unfold inner_isFull. rewrite Hc, <- Hk, length_app, Hl.
  destruct st; simpl; [apply Z.eqb_eq|apply Z.eqb_neq]; lia.
Qed.

(** ** [BTreeLeaf::insert] *)

(** What the leaf holds afterwards. *)
Definition upserted (ks vs : list Z) (k v : Z) (ks' vs' : list Z) : Prop :=
  ksorted ks' /\ (forall x, x ∈ ks' <-> x = k \/ x ∈ ks)
  /\ forall k' v', (k', v') ∈ zip ks' vs' <-> (k' = k /\ v' = v) \/ (k' <> k /\ (k', v') ∈ zip ks vs).

Lemma inserted_upserted ks vs k v ks' vs' :
  inserted_at ks vs k v ks' vs' -> ksorted ks -> k ∉ ks -> length vs = length ks ->
  upserted ks vs k v ks' vs'.
Proof.
  intros Hat Hs Hn Hl. split; [by eapply inserted_at_sorted|]. split; [intros x; by eapply inserted_at_keys|].
  intros k' v'. rewrite (inserted_at_zip _ _ _ _ _ _ _ Hat). split; [|naive_solver].
  intros [?|Hin]; [naive_solver|]. right. split; [|done]. intros ->. by apply elem_of_zip_l in Hin.
Qed.

Lemma overwritten_upserted l1 l2 v1 w v2 k v :
  ksorted (l1 ++ k :: l2) -> length v1 = length l1 ->
  upserted (l1 ++ k :: l2) (v1 ++ w :: v2) k v (l1 ++ k :: l2) (v1 ++ v :: v2).
Proof.
  intros Hs Hl. split; [done|]. split; [set_solver|]. intros k' v'.
  apply ksorted_NoDup in Hs. apply NoDup_app in Hs as (_ & Hd & [Hk _]%NoDup_cons).
  specialize (Hd k). rewrite !zip_with_app by done. simpl.
  assert (H1 : forall v', (k, v') ∉ zip l1 v1) by (intros v0 Hin%elem_of_zip_l; set_solver).
  assert (H2 : forall v', (k, v') ∉ zip l2 v2) by (intros v0 Hin%elem_of_zip_l; set_solver).
  rewrite !elem_of_app, !elem_of_cons. destruct (decide (k' = k)) as [->|]; naive_solver.
Qed.

Lemma split_values {A B} (vs : list A) (l1 l2 : list B) :
  length vs = (length l1 + length l2)%nat ->
  exists v1 v2, vs = v1 ++ v2 /\ length v1 = length l1 /\ length v2 = length l2.
Proof.
  intros. exists (take (length l1) vs), (drop (length l1) vs).
  rewrite take_drop, length_take, length_drop. split; [done|lia].
Qed.

Lemma BTreeLeaf_insert_spec n ks y kt vs z vt k v :
  oleaf_shape n ks (y :: kt) vs (z :: vt) -> ksorted ks ->
  exists n' ks' kt' vs' vt', BTreeLeaf_insert n k v = Ok n' /\ oleaf_shape n' ks' kt' vs' vt'
    /\ word n' = word n /\ upserted ks vs k v ks' vs'.
Proof.
  intros Hsh Hs. pose proof Hsh as [Hp Hc Hv Hk1 Hk2]. pose proof maxEntries_bounds as Hm.
  assert (Hlen : (length ks < 64)%nat) by (rewrite length_app in Hk1; simpl in *; lia).
  unfold BTreeLeaf_insert. rewrite Hp, Hc. destruct (Z.eqb_spec (Z.of_nat (length ks)) 0) as [E|E]; simpl.
  { destruct ks; [|simpl in E; lia]. destruct vs; [|simpl in Hv; lia]. simpl in *.
    eexists _, [k], kt, [v], vt. split; [reflexivity|]. split.
    { split; done. }
    split; [done|]. split; [repeat constructor|]. split; [set_solver|]. intros k' v'. simpl. set_solver. }
  destruct (lowerBound_split n ks (y :: kt) k (oleaf_page_keys _ _ _ _ _ Hsh) Hc Hs) as (l1 & l2 & -> & Hlb & H1 & H2).
  { intros ->. by simpl in E. }
  rewrite Hlb. cbn [mbind outcome_bind]. rewrite length_app in Hv.
  destruct (split_values vs l1 l2) as (v1 & v2 & -> & Hv1 & Hv2); [done|].
  assert (Hcase : (exists x l2', l2 = x :: l2' /\ x = k) \/ k ∉ l1 ++ l2).
  { destruct l2 as [|x l2].
    - right. rewrite app_nil_r. intros Hin. rewrite Forall_forall in H1. specialize (H1 _ Hin). lia.
    - destruct (decide (x = k)); [eauto|right]. apply ksorted_app in Hs as (_ & Hs & _).
      apply StronglySorted_cons in Hs as [Hx _]. apply Forall_cons in H2 as [Hxk _].
      rewrite Forall_forall in H1, Hx. intros [Hin|[->|Hin]%elem_of_cons]%elem_of_app; [|done|].
      + specialize (H1 _ Hin). lia.
      + specialize (Hx _ Hin). simpl in Hx. lia. }
  destruct Hcase as [(x & l2' & -> & ->)|Hnot].
  - rewrite length_app. rewrite (proj2 (Z.ltb_lt _ _)) by (simpl; lia).
    erewrite array_get_lookup by (rewrite <- app_assoc; by apply list_lookup_middle).
    cbn [mbind outcome_bind]. rewrite Z.eqb_refl. destruct v2 as [|w v2]; [done|].
    rewrite <- !app_assoc, <- Hv1. simpl app. rewrite array_set_app. cbn [mbind outcome_bind].
    eexists _, (l1 ++ k :: l2'), (y :: kt), (v1 ++ v :: v2), (z :: vt). split; [reflexivity|].
    split; [|split; [done|by apply overwritten_upserted]].
    rewrite !length_app in *. simpl in *. split; simpl; rewrite <- ?app_assoc; try done;
      rewrite ?length_app; simpl; rewrite ?length_app; simpl in *; try lia; done.
  - assert (Hf : (if Z.of_nat (length l1) <? Z.of_nat (length (l1 ++ l2))
        then kp ← array_get ((l1 ++ l2) ++ y :: kt) (Z.of_nat (length l1)); Ok (kp =? k) else Ok false) = Ok false).
    { destruct l2 as [|x l2].
      - rewrite app_nil_r, Z.ltb_irrefl. done.
      - rewrite length_app. rewrite (proj2 (Z.ltb_lt _ _)) by (simpl; lia).
        erewrite array_get_lookup by (rewrite <- app_assoc; by apply list_lookup_middle).
        cbn [mbind outcome_bind]. rewrite (proj2 (Z.eqb_neq _ _)); [done|]. set_solver. }
    rewrite Hf. cbn [mbind outcome_bind]. rewrite length_app.
    replace (Z.of_nat (length l1 + length l2) - Z.of_nat (length l1)) with (Z.of_nat (length l2)) by lia.
    destruct (memmove_gap l1 l2 kt y k) as (ks' & Hkm & _ & Hks).
    destruct (memmove_gap v1 v2 vt z v) as (vs' & Hvm & _ & Hvs). rewrite Hv1, Hv2 in Hvm. rewrite Hv1 in Hvs.
    rewrite <- !app_assoc. rewrite Hkm. cbn [mbind outcome_bind]. rewrite Hvm. cbn [mbind outcome_bind].
    rewrite Hks. cbn [mbind outcome_bind]. rewrite Hvs. cbn [mbind outcome_bind].
    eexists _, (l1 ++ k :: l2), kt, (v1 ++ v :: v2), vt. split; [reflexivity|].
    split; [|split; [done|apply inserted_upserted; [|done|done|rewrite !length_app; lia]]].
    + rewrite !length_app in *. simpl in *. split; simpl; rewrite <- ?app_assoc; try done;
        rewrite ?length_app; simpl; rewrite ?length_app; rewrite ?u16_small; lia.
    + by exists l1, l2, v1, v2.
Qed.

(** ** Splits *)
Lemma split_at {A} (l : list A) (i : nat) :
  (i <= length l)%nat -> exists l1 l2, l = l1 ++ l2 /\ length l1 = i /\ length l2 = (length l - i)%nat.
Proof.
  intros. exists (take i l), (drop i l). rewrite take_drop, length_take, length_drop. split; [done|lia].
Qed.

Lemma memcpy_tail {A} (dst src l1 l2 : list A) a b :
  src = l1 ++ l2 -> a = Z.of_nat (length l1) -> b = Z.of_nat (length l2) ->
  (length l2 <= length dst)%nat -> memcpy dst 0 src a b = Ok (l2 ++ drop (length l2) dst).
Proof. intros -> -> -> ?. eapply memcpy_app; [|done]. by rewrite app_nil_r. Qed.

(** A full leaf keeps its lower half; the separator is the largest key it keeps. *)
Lemma BTreeLeaf_split_spec n ks vs l :
  oleaf_shape n ks [] vs [] ->
  exists nl nr kl sep vl kr vr kt vt,
    BTreeLeaf_split n (new_BTreeLeaf l) = Ok (nl, nr, sep)
    /\ ks = (kl ++ [sep]) ++ kr /\ vs = vl ++ vr /\ kr <> []
    /\ oleaf_shape nl (kl ++ [sep]) kr vl vr /\ oleaf_shape nr kr kt vr vt
    /\ word nl = word n /\ word nr = OptLock.olc_init
    /\ count nl + 2 <= count n /\ count nr + 2 <= count n.
Proof.
  intros [Hp Hc Hv Hk1 Hk2]. pose proof maxEntries_bounds as Hm. rewrite !app_nil_r in *.
  set (m := length ks) in *. assert (Hm2 : 5 <= Z.of_nat m <= 64) by lia.
  assert (Hdiv : Z.of_nat m / 2 = Z.of_nat (m / 2)) by (by rewrite Nat2Z.inj_div).
  assert (Hh : (2 <= m / 2 /\ m / 2 + 2 <= m /\ m <= 2 * (m / 2) + 1)%nat).
  { pose proof (Nat.div_mod_eq m 2). pose proof (Nat.mod_upper_bound m 2). lia. }
  destruct (split_at ks (m / 2)) as (ka & kr & Hks & Hka & Hkr); [lia|].
  destruct (split_at vs (m / 2)) as (vl & vr & Hvs & Hvl & Hvr); [lia|].
  destruct (exists_last (l := ka)) as (kl & sep & ->); [by intros ->; simpl in *; lia|].
  unfold BTreeLeaf_split, new_BTreeLeaf. cbn [page word]. rewrite Hp, Hc, Hdiv. cbv zeta.
  rewrite (u16_small (Z.of_nat m - Z.of_nat (m / 2))) by lia.
  replace (Z.of_nat m - (Z.of_nat m - Z.of_nat (m / 2))) with (Z.of_nat (m / 2)) by lia.
  rewrite u16_small by lia. fold m in Hkr. rewrite Hv in Hvr.
  replace (Z.of_nat m - Z.of_nat (m / 2)) with (Z.of_nat (length kr)) by lia.
  rewrite (memcpy_tail _ ks (kl ++ [sep]) kr) by (rewrite ?length_fmap, ?length_seq; done || lia).
  cbn [mbind outcome_bind].
  rewrite (memcpy_tail _ vs vl vr) by (rewrite ?length_fmap, ?length_seq; done || lia).
  cbn [mbind outcome_bind].
  replace (Z.of_nat (m / 2) - 1) with (Z.of_nat (length kl)) by (rewrite length_app in Hka; simpl in *; lia).
  rewrite (array_get_lookup ks (length kl) sep); [|rewrite Hks, <- app_assoc; by apply list_lookup_middle].
  cbn [mbind outcome_bind].
  exists (mkONode (word n) (Z.of_nat (m / 2)) (BTreeLeaf ks vs)). eexists _, kl, sep, vl, kr, vr, _, _.
  split; [reflexivity|]. split; [done|]. split; [done|]. split; [by intros ->; simpl in *; lia|].
  split; [|split; [|cbn [word count]; split_and!; done || lia]];
    split; cbn [page count]; rewrite <- ?Hks, <- ?Hvs; try reflexivity; try lia.
  all: rewrite length_app, length_drop, length_fmap, length_seq; lia.
Qed.

(** A full inner page keeps its lower half, hands out the key in between. *)
Lemma BTreeInner_split_spec n ks kt ss l :
  oinner_shape n ks kt ss [] ->
  exists nl nr kl sep sl kr sr ktl stl ktr str,
    BTreeInner_split n (new_BTreeInner l) = Ok (nl, nr, sep)
    /\ ks = kl ++ sep :: kr /\ ss = sl ++ sr /\ kl <> [] /\ kr <> []
    /\ oinner_shape nl kl ktl sl stl /\ oinner_shape nr kr ktr sr str
    /\ word nl = word n /\ word nr = OptLock.olc_init
    /\ count nl + 2 <= count n /\ count nr + 2 <= count n.
Proof.
  intros [Hp Hc Hv Hk1 Hk2]. pose proof maxEntries_bounds as Hm. rewrite app_nil_r in *.
  set (m := length ks) in *. assert (Hm2 : 4 <= Z.of_nat m <= 63) by lia.
  assert (Hdiv : Z.of_nat m / 2 = Z.of_nat (m / 2)) by (by rewrite Nat2Z.inj_div).
  assert (Hh : (2 <= m / 2 /\ m / 2 + 2 <= m /\ m <= 2 * (m / 2) + 1)%nat).
  { pose proof (Nat.div_mod_eq m 2). pose proof (Nat.mod_upper_bound m 2). lia. }
  destruct kt as [|y kt]; [rewrite app_nil_r in Hk1; lia|].
  destruct kt; [|rewrite length_app in Hk1; simpl in *; lia].
  destruct (split_at ks (m / 2 - 1)) as (kl & ka & Hks & Hkl & Hka); [lia|]. fold m in Hka.
  destruct ka as [|sep kr]; cbn [length] in Hka; [lia|].
  destruct (split_at ss (m / 2)) as (sl & sr & Hss & Hsl & Hsr); [lia|].
  unfold BTreeInner_split, new_BTreeInner. cbn [page word]. rewrite Hp, Hc, Hdiv. cbv zeta.
  rewrite (u16_small (Z.of_nat m - Z.of_nat (m / 2))) by lia.
  replace (Z.of_nat m - (Z.of_nat m - Z.of_nat (m / 2)) - 1) with (Z.of_nat (length kl)) by lia.
  rewrite u16_small by lia.
  rewrite (array_get_lookup (ks ++ [y]) (length kl) sep)
    by (rewrite Hks, <- app_assoc; by apply list_lookup_middle). cbn [mbind outcome_bind].
  replace (Z.of_nat m - Z.of_nat (m / 2)) with (Z.of_nat (length kr)) by lia.
  rewrite (memcpy_tail _ (ks ++ [y]) (kl ++ [sep]) (kr ++ [y]))
    by (rewrite ?Hks, ?length_fmap, ?length_seq, <- ?app_assoc, ?length_app; simpl; done || lia).
  cbn [mbind outcome_bind].
  rewrite (memcpy_tail _ ss sl sr) by (rewrite ?length_fmap, ?length_seq; done || lia).
  cbn [mbind outcome_bind].
  exists (mkONode (word n) (Z.of_nat (length kl)) (BTreeInner ss (ks ++ [y]))).
  eexists _, kl, sep, sl, kr, sr, (sep :: kr ++ [y]), sr, _, _.
  split; [reflexivity|]. split; [done|]. split; [done|].
  split; [by intros ->; simpl in *; lia|]. split; [by intros ->; simpl in *; lia|].
  assert (Hks' : kl ++ sep :: kr ++ [y] = ks ++ [y]) by (by rewrite Hks, <- app_assoc).
  split; [|split; [|cbn [word count]; split_and!; done || lia]];
    split; cbn [page count]; rewrite ?Hks', <- ?Hss; try rewrite <- (app_assoc kr);
    try reflexivity; try lia.
  all: rewrite ?length_app, ?length_drop, ?length_fmap, ?length_seq, ?length_app; simpl; lia.
Qed.

(** [BTreeInner::insert] next to the child that was split. *)
Lemma BTreeInner_insert_spec n l1 l2 kt s1 c s2 z st k child :
  oinner_shape n (l1 ++ l2) kt (s1 ++ c :: s2) (z :: st) -> length s1 = length l1 ->
  ksorted (l1 ++ l2) -> l1 ++ l2 <> [] -> Forall (fun x => x < k) l1 -> Forall (fun x => k <= x) l2 ->
  exists n' kt', BTreeInner_insert n k child = Ok n'
    /\ oinner_shape n' (l1 ++ k :: l2) kt' (s1 ++ c :: child :: s2) st /\ word n' = word n.
Proof.
  intros Hsh Hl Hs Hne H1 H2. pose proof Hsh as [Hp Hc Hv Hk1 Hk2]. pose proof maxEntries_bounds as Hm.
  rewrite !length_app in *. simpl in *.
  destruct kt as [|y1 kt]; [simpl in *; lia|]. destruct kt as [|y2 kt]; [simpl in *; lia|].
  cbn [length] in Hk1. unfold BTreeInner_insert. rewrite Hp, Hc.
  destruct (lowerBound_spec n (l1 ++ l2) (y1 :: y2 :: kt) k (oinner_page_keys _ _ _ _ _ Hsh)) as (p & Hrun & Hle & Hb & Ha);
    auto; [by rewrite length_app|].
  assert (p = length l1) as ->.
  { eapply (position_unique (l1 ++ l2) k); eauto; rewrite ?length_app; try lia; unfold below, above.
    - by rewrite take_app_length.
    - by rewrite drop_app_length. }
  rewrite Hrun. cbn [mbind outcome_bind].
  replace (Z.of_nat (length l1 + length l2) - Z.of_nat (length l1) + 1) with (Z.of_nat (length (l2 ++ [y1])))
    by (rewrite length_app; simpl; lia).
  replace ((l1 ++ l2) ++ y1 :: y2 :: kt) with (l1 ++ (l2 ++ [y1]) ++ y2 :: kt) by (by rewrite <- !app_assoc).
  destruct (memmove_gap l1 (l2 ++ [y1]) kt y2 k) as (ks' & Hkm & _ & Hks).
  destruct (memmove_gap s1 (c :: s2) st z child) as (ss' & Hsm & _ & Hss).
  rewrite Hkm. cbn [mbind outcome_bind].
  replace (Z.of_nat (length (l2 ++ [y1]))) with (Z.of_nat (length (c :: s2))) by (rewrite length_app; simpl; lia).
  rewrite <- Hl, <- app_assoc. rewrite Hsm. cbn [mbind outcome_bind]. rewrite Hl, Hks. cbn [mbind outcome_bind].
  rewrite <- Hl, Hss. cbn [mbind outcome_bind].
  rewrite (array_get_lookup _ (length s1) child) by (by apply list_lookup_middle). cbn [mbind outcome_bind].
  replace (Z.of_nat (length s1) + 1) with (Z.of_nat (length (s1 ++ [child]))) by (rewrite length_app; simpl; lia).
  replace (s1 ++ child :: (c :: s2) ++ st) with ((s1 ++ [child]) ++ c :: (s2 ++ st)) by (by rewrite <- app_assoc).
  rewrite (array_get_lookup _ (length (s1 ++ [child])) c) by (by apply list_lookup_middle). cbn [mbind outcome_bind].
  replace ((s1 ++ [child]) ++ c :: s2 ++ st) with (s1 ++ child :: c :: s2 ++ st) by (by rewrite <- app_assoc).
  rewrite array_set_app. cbn [mbind outcome_bind].
  replace (Z.of_nat (length (s1 ++ [child]))) with (Z.of_nat (length (s1 ++ [c]))) by (rewrite !length_app; simpl; lia).
  replace (s1 ++ c :: c :: s2 ++ st) with ((s1 ++ [c]) ++ c :: (s2 ++ st)) by (by rewrite <- app_assoc).
  rewrite array_set_app. cbn [mbind outcome_bind].
  eexists _, (y1 :: kt). split; [reflexivity|]. split; [|done].
  split; simpl; rewrite <- ?app_assoc; simpl; rewrite <- ?app_assoc; rewrite ?length_app; simpl;
    rewrite ?length_app; simpl; rewrite ?u16_small; try done; lia.
Qed.

(** ** The invariant

    Every page covers a half-open range [(lo, hi]] of keys at a level; the layout
    records both. *)
Abbreviation span := (Z * Z * nat)%type.
Abbreviation olayout := (gmap loc span).

(** The ranges of the children of a page that covers [(lo, hi]]. *)
Fixpoint bounds (lo : Z) (ks : list Z) (hi : Z) : list (Z * Z) :=
  match ks with [] => [(lo, hi)] | k :: ks => (lo, k) :: bounds k ks hi end.

Definition ochild (G : olayout) (lv : nat) (p : ptr) (b : Z * Z) : Prop :=
  exists c, p = Some c /\ G !! c = Some (b.1, b.2, lv).
Definition oleaf_inv (n : ONode) (lo hi : Z) : Prop :=
  exists ks kt vs vt, oleaf_shape n ks kt vs vt /\ ksorted ks /\ Forall (fun k => lo < k <= hi) ks.
Definition oinner_inv (G : olayout) (n : ONode) (lo hi : Z) (lv : nat) : Prop :=
  exists ks kt ss st, oinner_shape n ks kt ss st /\ ksorted (lo :: ks ++ [hi]) /\ ks <> []
    /\ Forall2 (ochild G lv) ss (bounds lo ks hi).
Definition onode_inv (G : olayout) (n : ONode) (lo hi : Z) (lv : nat) : Prop :=
  lo < hi /\ match lv with O => oleaf_inv n lo hi | S lv => oinner_inv G n lo hi lv end.

Definition apart (a b : Z * Z) : Prop := a.2 <= b.1 \/ b.2 <= a.1.
Record oheap_inv (G : olayout) (h : gmap loc ONode) : Prop := {
  oh_dom : forall l, is_Some (G !! l) <-> is_Some (h !! l);
  oh_node : forall l n lo hi lv, h !! l = Some n -> G !! l = Some (lo, hi, lv) -> onode_inv G n lo hi lv;
  oh_apart : forall l1 l2 lo1 hi1 lo2 hi2 lv, l1 <> l2 ->
    G !! l1 = Some (lo1, hi1, lv) -> G !! l2 = Some (lo2, hi2, lv) -> apart (lo1, hi1) (lo2, hi2) }.
Record otree_inv (G : olayout) (s : OlcState) : Prop := {
  ot_heap : oheap_inv G (o_heap s);
  ot_fresh : forall l, (o_next s <= l)%positive -> o_heap s !! l = None;
  ot_root : exists r lv, o_root s = Some r /\ G !! r = Some (-1, max_u64, lv)
    /\ forall l lo hi lv', G !! l = Some (lo, hi, lv') -> (lv' <= lv)%nat }.

Lemma bounds_app lo l1 k l2 hi : bounds lo (l1 ++ k :: l2) hi = bounds lo l1 k ++ bounds k l2 hi.
Proof. revert lo. induction l1 as [|x l1 IH]; intros lo; simpl; [done|]. by rewrite IH. Qed.

Lemma bounds_length lo ks hi : length (bounds lo ks hi) = S (length ks).
Proof. revert lo. induction ks as [|k ks IH]; intros lo; simpl; [done|]. by rewrite IH. Qed.

Lemma bounds_inside lo ks hi b : ksorted (lo :: ks ++ [hi]) -> b ∈ bounds lo ks hi ->
  lo <= b.1 /\ b.1 < b.2 /\ b.2 <= hi.
Proof.
  revert lo. induction ks as [|k ks IH]; intros lo Hs Hin; simpl in *.
  - apply list_elem_of_singleton in Hin as ->. apply StronglySorted_cons in Hs as [Hs _].
    apply Forall_cons in Hs as [? _]. simpl. lia.
  - apply StronglySorted_cons in Hs as [Hlo Hs]. apply Forall_cons in Hlo as [Hk Hlo].
    apply elem_of_cons in Hin as [->|Hin].
    + simpl. apply StronglySorted_cons in Hs as [Hs _]. apply Forall_app in Hs as [_ [? _]%Forall_cons]. lia.
    + specialize (IH k Hs Hin). lia.
Qed.

(** The range at position [length l1], and what becomes of it when it is cut. *)
Lemma last_cons (a b : Z) l : List.last (a :: l) b = List.last l a.
Proof.
  revert a b. induction l as [|c l IHl]; intros a b; [done|].
  change (List.last (c :: l) b = List.last (c :: l) a). by rewrite !IHl.
Qed.
Lemma bounds_middle lo l1 l2 hi : ksorted (lo :: (l1 ++ l2) ++ [hi]) -> exists pre post,
  length pre = length l1
  /\ bounds lo (l1 ++ l2) hi = pre ++ (List.last l1 lo, List.hd hi l2) :: post
  /\ (forall sep, bounds lo (l1 ++ sep :: l2) hi
       = pre ++ (List.last l1 lo, sep) :: (sep, List.hd hi l2) :: post)
  /\ (forall b, b ∈ pre -> b.2 <= List.last l1 lo) /\ (forall b, b ∈ post -> List.hd hi l2 <= b.1)
  /\ (forall x, x ∈ lo :: l1 -> x <= List.last l1 lo) /\ (forall y, y ∈ l2 ++ [hi] -> List.hd hi l2 <= y).
Proof.
  revert lo. induction l1 as [|x l1 IH]; intros lo Hs; simpl in Hs.
  - apply StronglySorted_cons in Hs as [_ Hs]. destruct l2 as [|y l2]; simpl.
    { exists [], []. split_and!; try done; set_solver. }
    exists [], (bounds y l2 hi). split_and!; try done; [set_solver| | |].
    + intros b Hb. eapply bounds_inside in Hb; [lia|done].
    + set_solver.
    + apply StronglySorted_cons in Hs as [Hy _]. rewrite Forall_forall in Hy.
      intros z [->|Hz]%elem_of_cons; [lia|]. apply Z.lt_le_incl. by apply Hy.
  - apply StronglySorted_cons in Hs as [Hlo Hs].
    destruct (IH x Hs) as (pre & post & Hlen & Hb & Hsep & Hpre & Hpost & Hle & Hge).
    exists ((lo, x) :: pre), post. cbn [length app bounds]. rewrite last_cons, Hlen, Hb.
    split_and!; try done.
    + intros sep. by rewrite Hsep.
    + intros b [->|Hin]%elem_of_cons; [|by apply Hpre]. apply Hle. set_solver.
    + assert (lo < x) by (by apply Forall_cons in Hlo as [? _]). pose proof (Hle x ltac:(set_solver)).
      intros y [->|Hy]%elem_of_cons; [lia|by apply Hle].
Qed.

Lemma oh_lookup G h l lo hi lv :
  oheap_inv G h -> G !! l = Some (lo, hi, lv) -> exists n, h !! l = Some n /\ onode_inv G n lo hi lv.
Proof. intros Hh Hl. destruct (proj1 (oh_dom _ _ Hh l)) as [n Hn]; eauto using oh_node. Qed.

(** Two pages of a level that cover the same key are the same page. *)
Lemma oh_unique G h l1 l2 lo1 hi1 lo2 hi2 lv k :
  oheap_inv G h -> G !! l1 = Some (lo1, hi1, lv) -> G !! l2 = Some (lo2, hi2, lv) ->
  lo1 < k <= hi1 -> lo2 < k <= hi2 -> l1 = l2.
Proof.
  intros Hh H1 H2 K1 K2. destruct (decide (l1 = l2)) as [|Hne]; [done|].
  destruct (oh_apart _ _ Hh l1 l2 _ _ _ _ _ Hne H1 H2); simpl in *; lia.
Qed.

(** Where [lowerBound] sends a search for a covered key. *)
Lemma child_covers G n ks kt ss st lo hi lv k :
  oinner_shape n ks kt ss st -> ksorted (lo :: ks ++ [hi]) -> ks <> [] ->
  Forall2 (ochild G lv) ss (bounds lo ks hi) -> lo < k <= hi ->
  exists l1 l2 s1 c s2, ks = l1 ++ l2 /\ ss = s1 ++ Some c :: s2 /\ length s1 = length l1
    /\ lowerBound n k = Ok (Z.of_nat (length l1))
    /\ array_get (ss ++ st) (Z.of_nat (length l1)) = Ok (Some c)
    /\ G !! c = Some (List.last l1 lo, List.hd hi l2, lv)
    /\ List.last l1 lo < k <= List.hd hi l2.
Proof.
  intros Hsh Hso Hne Hch Hk.
  assert (Hso1 : ksorted ks).
  { apply StronglySorted_cons in Hso as [_ Hso]. apply ksorted_app in Hso. tauto. }
  destruct (lowerBound_split n ks kt k (oinner_page_keys _ _ _ _ _ Hsh) (oi_count _ _ _ _ _ Hsh) Hso1 Hne)
    as (l1 & l2 & -> & Hrun & H1 & H2).
  destruct (bounds_middle lo l1 l2 hi Hso) as (pre & post & Hlen & Hb & _). rewrite Hb in Hch.
  apply Forall2_app_inv_r in Hch as (s1 & s2' & Hf1 & Hf2 & ->).
  apply Forall2_cons_inv_r in Hf2 as (c' & s2 & (c & -> & Hc) & _ & ->). simpl in Hc.
  apply Forall2_length in Hf1. rewrite Hlen in Hf1.
  exists l1, l2, s1, c, s2. split; [done|]. split; [done|]. split; [done|]. split; [done|]. split.
  { rewrite <- Hf1, <- app_assoc. apply array_get_lookup. by apply list_lookup_middle. }
  split; [done|]. split.
  - destruct (exists_last (l := lo :: l1)) as (a & b & Hab); [done|].
    assert (List.last l1 lo = List.last (lo :: l1) lo) as -> by (by destruct l1).
    rewrite Hab, List.last_last. assert (Hin : b ∈ lo :: l1) by (rewrite Hab; set_solver).
    rewrite Forall_forall in H1. apply elem_of_cons in Hin as [->|Hin]; [lia|auto].
  - destruct l2 as [|y l2]; simpl; [lia|]. by apply Forall_cons in H2 as [? _].
Qed.

(** ** Preservation *)

(** Only the layout entries of its children matter to a page. *)
Lemma onode_inv_layout G G' n lo hi lv :
  (forall c b b' lv', lv = S lv' -> lo <= b -> b < b' -> b' <= hi -> G !! c = Some (b, b', lv') ->
     G' !! c = Some (b, b', lv')) ->
  onode_inv G n lo hi lv -> onode_inv G' n lo hi lv.
Proof.
  intros Hsub [Hlt Hb]. split; [done|]. destruct lv as [|lv]; [done|].
  destruct Hb as (ks & kt & ss & st & Hsh & Hso & Hne & Hch). exists ks, kt, ss, st.
  split; [done|]. split; [done|]. split; [done|].
  eapply Forall2_impl_in; [exact Hch|]. intros p b Hb (c & -> & Hc). exists c. split; [done|].
  destruct (bounds_inside lo ks hi b Hso Hb) as (? & ? & ?). by eapply Hsub.
Qed.

Lemma apart_sym a b : apart a b -> apart b a.
Proof. unfold apart. tauto. Qed.

(** Page [l] is cut at [sep], its upper part goes to the fresh page [r], and [q] (its
    parent, or a new root) gets the content [nq]. *)
Section Split.
Context (G : olayout) (h : gmap loc ONode) (l r q : loc) (lo hi sep qlo qhi : Z) (lv : nat).
Context (n nl nr nq : ONode).
Let G' : olayout := <[q := (qlo, qhi, S lv)]> (<[l := (lo, sep, lv)]> (<[r := (sep, hi, lv)]> G)).
Let h' : gmap loc ONode := <[q := nq]> (<[l := nl]> (<[r := nr]> h)).
Hypothesis Hh : oheap_inv G h.
Hypothesis Hl : h !! l = Some n.
Hypothesis Gl : G !! l = Some (lo, hi, lv).
Hypothesis Hr : h !! r = None.
Hypothesis Hsep : lo < sep < hi.
Hypothesis Hql : q <> l.
Hypothesis Hqr : q <> r.
Hypothesis Gq : G !! q = Some (qlo, qhi, S lv) \/ h !! q = None.
Hypothesis Hq : qlo <= lo /\ hi <= qhi.
Hypothesis Hothers : forall x xlo xhi, x <> q -> G !! x = Some (xlo, xhi, S lv) -> apart (qlo, qhi) (xlo, xhi).

Lemma split_absent x : h !! x = None -> G !! x = None.
Proof.
  intros Hx. destruct (G !! x) eqn:E; [|done].
  destruct (proj1 (oh_dom _ _ Hh x)); [by rewrite E|congruence].
Qed.

Lemma split_lookup x : G' !! x = if decide (x = q) then Some (qlo, qhi, S lv)
  else if decide (x = l) then Some (lo, sep, lv) else if decide (x = r) then Some (sep, hi, lv) else G !! x.
Proof. unfold G'. rewrite !lookup_insert. repeat case_decide; congruence. Qed.

(** No page but [q] has [l] as a child. *)
Lemma split_other_children x xlo xhi c b b' lv' :
  x <> q -> G !! x = Some (xlo, xhi, S lv') -> xlo <= b -> b < b' -> b' <= xhi ->
  G !! c = Some (b, b', lv') -> G' !! c = Some (b, b', lv').
Proof.
  intros Hx Gx H1 H2 H3 Gc. rewrite split_lookup. repeat case_decide; subst; auto.
  - destruct Gq as [Gq'|Hq']; [congruence|]. by rewrite (split_absent _ Hq') in Gc.
  - exfalso. simplify_eq. destruct (Hothers x xlo xhi Hx Gx); simpl in *; lia.
  - by rewrite (split_absent _ Hr) in Gc.
Qed.

Lemma split_leaf_level_apart x xlo xhi :
  x <> l -> G !! x = Some (xlo, xhi, lv) -> apart (lo, hi) (xlo, xhi).
Proof. intros Hx Gx. by eapply (oh_apart _ _ Hh l x). Qed.

Lemma oheap_split :
  onode_inv G' nl lo sep lv -> onode_inv G' nr sep hi lv -> onode_inv G' nq qlo qhi (S lv) ->
  oheap_inv G' h'.
Proof.
  intros Hnl Hnr Hnq. assert (Hne : l <> r) by congruence. split.
  - intros x. rewrite split_lookup. unfold h'. rewrite !lookup_insert.
    pose proof (oh_dom _ _ Hh x). repeat case_decide; subst; naive_solver.
  - intros x m xlo xhi xlv Hm. rewrite split_lookup. unfold h' in Hm. rewrite !lookup_insert in Hm.
    repeat case_decide; intros; simplify_eq; auto.
    eapply onode_inv_layout; [|by eapply oh_node].
    intros c b b' lv' -> ? ? ? ?. by eapply split_other_children.
  - intros l1 l2 lo1 hi1 lo2 hi2 lv1 Hne12 G1 G2. rewrite split_lookup in G1, G2.
    assert (Hx : forall x xlo xhi, x <> l -> G !! x = Some (xlo, xhi, lv) -> xhi <= lo \/ hi <= xlo).
    { intros x xlo xhi Hx Gx. destruct (split_leaf_level_apart x xlo xhi Hx Gx); simpl in *; auto. }
    repeat case_decide; simplify_eq; try lia; unfold apart; simpl;
      try (left; simpl; lia); try (right; simpl; lia).
    all: try (match goal with
      | H : G !! ?x = Some _ |- _ => destruct (Hothers x _ _ ltac:(done) H); simpl in *; lia
      | H : G !! ?x = Some _ |- _ => destruct (Hx x _ _ ltac:(done) H); simpl in *; lia
      end).
    eapply (oh_apart _ _ Hh l1 l2); eauto.
Qed.
End Split.

(** ** What the tree stores *)
Lemma oleaf_entries_shape n ks kt vs vt :
  oleaf_shape n ks kt vs vt -> oleaf_entries n = zip ks vs.
Proof.
  intros [Hp Hc Hv _ _]. unfold oleaf_entries. rewrite Hp, Hc, Nat2Z.id, take_app_length.
  by rewrite <- Hv, take_app_length.
Qed.
Lemma oinner_entries n ks kt ss st : oinner_shape n ks kt ss st -> oleaf_entries n = [].
Proof. intros [Hp _ _ _ _]. unfold oleaf_entries. by rewrite Hp. Qed.

(** A stored key lies in a leaf that covers it. *)
Lemma ostored_inv G h l n k v :
  oheap_inv G h -> h !! l = Some n -> (k, v) ∈ oleaf_entries n ->
  exists lo hi, G !! l = Some (lo, hi, 0%nat) /\ lo < k <= hi
    /\ exists ks kt vs vt, oleaf_shape n ks kt vs vt /\ ksorted ks /\ (k, v) ∈ zip ks vs.
Proof.
  intros Hh Hl Hk. destruct (proj2 (oh_dom _ _ Hh l)) as [[[lo hi] lv] Gl]; [eauto|].
  destruct (oh_node _ _ Hh _ _ _ _ _ Hl Gl) as [_ Hb]. exists lo, hi. destruct lv as [|lv].
  - destruct Hb as (ks & kt & vs & vt & Hsh & Hso & Hall). rewrite (oleaf_entries_shape _ _ _ _ _ Hsh) in Hk.
    split; [done|]. split; [|by exists ks, kt, vs, vt]. rewrite Forall_forall in Hall.
    apply Hall. by apply elem_of_zip_l in Hk.
  - destruct Hb as (ks & kt & ss & st & Hsh & _). rewrite (oinner_entries _ _ _ _ _ Hsh) in Hk.
    by apply not_elem_of_nil in Hk.
Qed.

Lemma ostored_functional G h : oheap_inv G h -> stored_functional (ents := oleaf_entries) h.
Proof.
  intros Hh k v v' (l1 & n1 & H1 & E1) (l2 & n2 & H2 & E2).
  destruct (ostored_inv _ _ _ _ _ _ Hh H1 E1) as (lo1 & hi1 & G1 & K1 & ks & kt & vs & vt & Hsh & Hso & Hz).
  destruct (ostored_inv _ _ _ _ _ _ Hh H2 E2) as (lo2 & hi2 & G2 & K2 & _).
  assert (l1 = l2) as -> by (by eapply (oh_unique G h l1 l2)). simplify_eq.
  rewrite (oleaf_entries_shape _ _ _ _ _ Hsh) in E2. eapply zip_functional; eauto using ksorted_NoDup.
Qed.

(** ** Lock words *)
Definition unlocked (w : Z) : Prop := exists c, w = u64 (4 * c).
Definition set_word (w : Z) (n : ONode) : ONode := mkONode w (count n) (page n).

Lemma u64_mod4 x m : 0 <= m < 4 -> Z.land (u64 x) m = Z.land (x mod 4) m.
Proof.
  intros Hm. assert (Hm' : m = Z.land 3 m).
  { assert (m = 0 \/ m = 1 \/ m = 2 \/ m = 3) as [->|[->|[->| ->]]] by lia; done. }
  assert (H3 : forall y, Z.land y 3 = y mod 4) by (intros y; apply (Z.land_ones y 2); lia).
  rewrite Hm' at 1. rewrite Z.land_assoc, H3. f_equal. unfold u64, wrap.
  change (2 ^ 64) with (4 * 2 ^ 62). by rewrite Z.rem_mul_r, Z.add_mod, Z.mul_comm, Z_mod_mult, Z.add_0_r, !Z.mod_mod by lia.
Qed.
Lemma unlocked_read w : unlocked w -> OptLock.readLockOrRestart w = (w, false).
Proof.
  intros [c ->]. unfold OptLock.readLockOrRestart, OptLock.isLocked, OptLock.isObsolete.
  rewrite !u64_mod4 by lia. replace (4 * c) with (c * 4) by lia. by rewrite Z_mod_mult.
Qed.
Lemma unlocked_init : unlocked OptLock.olc_init.
Proof. by exists 1. Qed.
Lemma olc_unlock_word w : unlocked w -> unlocked (OptLock.writeUnlock (u64 (w + 2))).
Proof.
  intros [c ->]. exists (c + 1). unfold OptLock.writeUnlock, u64, wrap.
  rewrite Z.add_mod_idemp_l, <- Z.add_assoc, Z.add_mod_idemp_l by lia. f_equal. lia.
Qed.
Lemma upgrade_word w : OptLock.upgradeToWriteLockOrRestart w w = (u64 (w + 2), u64 (w + 2), false).
Proof. unfold OptLock.upgradeToWriteLockOrRestart. by rewrite Z.eqb_refl. Qed.
Lemma readUnlock_word w : OptLock.readUnlockOrRestart w w = false.
Proof. unfold OptLock.readUnlockOrRestart. by rewrite Z.eqb_refl. Qed.

Lemma oleaf_shape_word n w ks kt vs vt : oleaf_shape n ks kt vs vt -> oleaf_shape (set_word w n) ks kt vs vt.
Proof. intros []. by constructor. Qed.
Lemma oinner_shape_word n w ks kt ss st : oinner_shape n ks kt ss st -> oinner_shape (set_word w n) ks kt ss st.
Proof. intros []. by constructor. Qed.
Lemma onode_inv_word G n w lo hi lv : onode_inv G n lo hi lv -> onode_inv G (set_word w n) lo hi lv.
Proof.
  intros [Hlt Hb]. split; [done|]. destruct lv.
  - destruct Hb as (ks & kt & vs & vt & Hsh & Hr). exists ks, kt, vs, vt. auto using oleaf_shape_word.
  - destruct Hb as (ks & kt & ss & st & Hsh & Hr). exists ks, kt, ss, st. auto using oinner_shape_word.
Qed.

(** ** The weight of a search path

    The number of keys in the pages that cover [k].  A split of one of them
    decreases it. *)
Definition share (k : Z) (x : span * Z) : Z :=
  let '((lo, hi, _), c) := x in if decide (lo < k <= hi) then c else 0.
Definition total (k : Z) (M : gmap loc (span * Z)) : Z := map_fold (fun _ x acc => share k x + acc) 0 M.
Definition weight (G : olayout) (h : gmap loc ONode) (k : Z) : Z :=
  total k (map_zip_with (fun s n => (s, count n)) G h).

Lemma total_fresh k M i x : M !! i = None -> total k (<[i := x]> M) = share k x + total k M.
Proof. intros Hi. unfold total. rewrite map_fold_insert_L; [done| |done]. intros. lia. Qed.
Lemma total_update k M i x y : M !! i = Some y -> total k (<[i := x]> M) = total k M - share k y + share k x.
Proof.
  intros Hi. rewrite <- (insert_delete_id M i y Hi) at 2. rewrite <- insert_delete_eq.
  rewrite !total_fresh by (apply lookup_delete_eq). lia.
Qed.
Lemma total_bound k M b : 0 <= b -> (forall i s c, M !! i = Some (s, c) -> 0 <= c <= b) ->
  0 <= total k M <= b * Z.of_nat (base.size M).
Proof.
  intros Hb. induction M as [|i [[[lo hi] lv] c] M Hi IH] using map_ind; intros Hall.
  { unfold total. rewrite map_fold_empty, map_size_empty. lia. }
  rewrite total_fresh, map_size_insert_None by done.
  assert (Hc : 0 <= c <= b) by (eapply (Hall i); apply lookup_insert_eq).
  destruct IH as [? ?].
  { intros j s c' Hj. eapply (Hall j). rewrite lookup_insert_ne; [done|congruence]. }
  unfold share. case_decide; lia.
Qed.

(** ** Splitting one page *)
Record page_cut (G : olayout) (n : ONode) (lo hi : Z) (lv : nat) (nl nr : ONode) (sep : Z) : Prop := {
  pc_sep : lo < sep < hi;
  pc_left : onode_inv G nl lo sep lv;
  pc_right : onode_inv G nr sep hi lv;
  pc_words : word nl = word n /\ word nr = OptLock.olc_init;
  pc_counts : count nl + 2 <= count n /\ count nr + 2 <= count n;
  pc_entries : forall x, x ∈ oleaf_entries nl ++ oleaf_entries nr <-> x ∈ oleaf_entries n }.

Lemma leaf_page_cut G n lo hi r :
  onode_inv G n lo hi 0 -> leaf_isFull n = true ->
  exists nl nr sep, BTreeLeaf_split n (new_BTreeLeaf r) = Ok (nl, nr, sep) /\ page_cut G n lo hi 0 nl nr sep.
Proof.
  intros [Hlt (ks & kt & vs & vt & Hsh & Hso & Hall)] Hfull. pose proof maxEntries_bounds.
  rewrite (leaf_isFull_shape _ _ _ _ _ Hsh) in Hfull. apply bool_decide_eq_true in Hfull as ->.
  destruct vt; [|destruct Hsh; rewrite !length_app in *; simpl in *; lia].
  destruct (BTreeLeaf_split_spec n ks vs r Hsh)
    as (nl & nr & kl & sep & vl & kr & vr & kt & vt & Hrun & -> & -> & Hne & Hl & Hr & Hw1 & Hw2 & Hcnt).
  exists nl, nr, sep. split; [done|]. rewrite Forall_forall in Hall.
  pose proof (Hall sep ltac:(set_solver)). apply ksorted_app in Hso as (Hsl & Hsr & Hlr).
  destruct kr as [|x kr]; [done|]. pose proof (Hall x ltac:(set_solver)).
  pose proof (Hlr sep x ltac:(set_solver) ltac:(set_solver)).
  pose proof Hl as [_ Hcl Hvl _ _]. pose proof Hr as [_ Hcr Hvr _ _]. pose proof Hsh as [_ Hc _ Hk _].
  split; try done; [lia| | |].
  - split; [lia|]. exists (kl ++ [sep]), (x :: kr), vl, vr. split; [done|]. split; [done|].
    apply Forall_forall. intros y Hy. pose proof (Hall y ltac:(set_solver)).
    apply ksorted_snoc in Hsl as [_ Hmax]. apply elem_of_app in Hy as [Hy| ->%list_elem_of_singleton]; [|lia].
    specialize (Hmax y Hy). lia.
  - split; [lia|]. exists (x :: kr), kt, vr, vt. split; [done|]. split; [done|].
    apply Forall_forall. intros y Hy. pose proof (Hall y ltac:(set_solver)).
    pose proof (Hlr sep y ltac:(set_solver) Hy). lia.
  - intros y. rewrite (oleaf_entries_shape _ _ _ _ _ Hl), (oleaf_entries_shape _ _ _ _ _ Hr),
      (oleaf_entries_shape _ _ _ _ _ Hsh). by rewrite zip_with_app.
Qed.

Lemma inner_page_cut G n lo hi lv r :
  onode_inv G n lo hi (S lv) -> inner_isFull n = true ->
  exists nl nr sep, BTreeInner_split n (new_BTreeInner r) = Ok (nl, nr, sep)
    /\ page_cut G n lo hi (S lv) nl nr sep.
Proof.
  intros [Hlt (ks & kt & ss & st & Hsh & Hso & Hne & Hch)] Hfull.
  rewrite (inner_isFull_shape _ _ _ _ _ Hsh) in Hfull. apply bool_decide_eq_true in Hfull as ->.
  destruct (BTreeInner_split_spec n ks kt ss r Hsh) as (nl & nr & kl & sep & sl & kr & sr & ktl & stl & ktr & str
    & Hrun & -> & -> & Hkl & Hkr & Hl & Hr & Hw1 & Hw2 & Hcnt).
  exists nl, nr, sep. split; [done|]. rewrite bounds_app in Hch.
  apply Forall2_app_inv in Hch as [Hc1 Hc2]; [|rewrite bounds_length; by destruct Hl].
  assert (Hso' : ksorted ((lo :: kl) ++ sep :: kr ++ [hi])) by (by rewrite <- app_assoc in Hso).
  pose proof Hso' as (_ & Hs2 & Hlr)%ksorted_app.
  replace ((lo :: kl) ++ sep :: kr ++ [hi]) with ((lo :: kl ++ [sep]) ++ kr ++ [hi]) in Hso'
    by (simpl; by rewrite <- app_assoc).
  apply ksorted_app in Hso' as (Hs1 & _ & _).
  pose proof (Hlr lo sep ltac:(set_solver) ltac:(set_solver)).
  apply StronglySorted_cons in Hs2 as Hs2'. destruct Hs2' as [Hge _]. rewrite Forall_forall in Hge.
  pose proof (Hge hi ltac:(set_solver)).
  split; try done; [split; [lia|]; by exists kl, ktl, sl, stl|split; [lia|]; by exists kr, ktr, sr, str|].
  intros x. by rewrite (oinner_entries _ _ _ _ _ Hl), (oinner_entries _ _ _ _ _ Hr), (oinner_entries _ _ _ _ _ Hsh).
Qed.

(** ** Running the lock phases and the split *)
Definition with_heap (h : gmap loc ONode) (s : OlcState) : OlcState := mkOlc h (o_next s) (o_root s).
Definition locked (n : ONode) : ONode := set_word (u64 (word n + 2)) n.
Definition released (n : ONode) : ONode := set_word (OptLock.writeUnlock (word n)) n.

Lemma o_deref_ok s l n : o_heap s !! l = Some n -> o_deref (Some l) s = Ok (n, s).
Proof. intros H. unfold o_deref. by rewrite H. Qed.
Lemma o_update_ok s l n f n' :
  o_heap s !! l = Some n -> f n = Ok n' -> o_update (Some l) f s = Ok (tt, with_heap (<[l := n']> (o_heap s)) s).
Proof. intros H Hf. unfold o_update. by rewrite H, Hf. Qed.
Lemma o_upgrade_ok s l n :
  o_heap s !! l = Some n ->
  o_upgrade (Some l) (word n) s = Ok (false, with_heap (<[l := locked n]> (o_heap s)) s).
Proof.
  intros H. unfold o_upgrade. rewrite (ST_bind_ok (o_deref_ok _ _ _ H)), upgrade_word.
  by rewrite (ST_bind_ok (o_update_ok _ _ _ _ (locked n) H eq_refl)).
Qed.
Lemma o_writeUnlock_ok s l n :
  o_heap s !! l = Some n ->
  o_writeUnlock (Some l) s = Ok (tt, with_heap (<[l := released n]> (o_heap s)) s).
Proof. intros H. by eapply o_update_ok. Qed.
Lemma o_readUnlock_ok s l n :
  o_heap s !! l = Some n -> o_readUnlock (Some l) (word n) s = Ok (false, s).
Proof.
  intros H. unfold o_readUnlock. rewrite (ST_bind_ok (o_deref_ok _ _ _ H)).
  by rewrite readUnlock_word.
Qed.
Lemma o_readLock_ok s l n :
  o_heap s !! l = Some n -> unlocked (word n) -> o_readLock (Some l) s = Ok ((word n, false), s).
Proof.
  intros H Hu. unfold o_readLock. rewrite (ST_bind_ok (o_deref_ok _ _ _ H)).
  by rewrite unlocked_read.
Qed.

Lemma lock_for_split_parent s l n p np :
  o_heap s !! l = Some n -> o_heap s !! p = Some np -> l <> p ->
  lock_for_split (Some l) (word n) (Some p) (word np) s
  = Ok (Some tt, with_heap (<[l := locked n]> (<[p := locked np]> (o_heap s))) s).
Proof.
  intros Hl Hp Hne. unfold lock_for_split, attempt. erewrite ST_bind_ok by (by rewrite (ST_bind_ok (o_upgrade_ok _ _ _ Hp))).
  cbn beta iota.
  rewrite (ST_bind_ok (o_upgrade_ok (with_heap (<[p := locked np]> (o_heap s)) s) l n
    ltac:(simpl; by rewrite lookup_insert_ne))).
  unfold o_get_root. rewrite (ST_bind_ok eq_refl). by rewrite decide_False by naive_solver.
Qed.
Lemma lock_for_split_root s l n w :
  o_heap s !! l = Some n -> o_root s = Some l ->
  lock_for_split (Some l) (word n) None w s = Ok (Some tt, with_heap (<[l := locked n]> (o_heap s)) s).
Proof.
  intros Hl Hr. unfold lock_for_split, attempt. erewrite ST_bind_ok by reflexivity. cbn beta iota.
  rewrite (ST_bind_ok (o_upgrade_ok _ _ _ Hl)).
  unfold o_get_root. rewrite (ST_bind_ok eq_refl). simpl. rewrite Hr.
  by rewrite decide_False by naive_solver.
Qed.

(** Nested updates of three pages, in any order. *)
Ltac o_lookup :=
  simpl; rewrite ?lookup_insert_eq; repeat (rewrite lookup_insert_ne by congruence);
  rewrite ?lookup_insert_eq; first [done | eassumption].

Lemma split_node_parent mk split s l n p np nl nr sep np' :
  o_heap s !! l = Some n -> o_heap s !! p = Some np -> l <> p -> o_heap s !! o_next s = None ->
  split n (mk (o_next s)) = Ok (nl, nr, sep) -> BTreeInner_insert np sep (Some (o_next s)) = Ok np' ->
  split_node mk split (Some l) (Some p) s
  = Ok (tt, mkOlc (<[p := released np']> (<[l := released nl]> (<[o_next s := nr]> (o_heap s))))
              (Pos.succ (o_next s)) (o_root s)).
Proof.
  intros Hl Hp Hne Hr Hs Hi. unfold split_node. set (r := o_next s) in *.
  assert (r <> l /\ r <> p) as [? ?] by (split; congruence).
  rewrite (ST_bind_ok eq_refl). fold r.
  erewrite ST_bind_ok by (apply o_deref_ok; o_lookup).
  erewrite ST_bind_ok by (apply o_deref_ok; o_lookup).
  erewrite ST_bind_ok by (apply lift_ok; exact Hs). cbn beta iota.
  erewrite ST_bind_ok by (eapply o_update_ok; [o_lookup|reflexivity]).
  erewrite ST_bind_ok by (eapply o_update_ok; [o_lookup|reflexivity]).
  erewrite ST_bind_ok by (eapply o_update_ok; [o_lookup|exact Hi]).
  erewrite ST_bind_ok by (apply o_writeUnlock_ok; o_lookup).
  erewrite o_writeUnlock_ok by o_lookup. unfold with_heap. simpl. do 3 f_equal.
  apply map_eq. intros x. rewrite !lookup_insert. repeat case_decide; congruence.
Qed.

Lemma array_set_0 {A} (x y : A) l : array_set (x :: l) 0 y = Ok (y :: l).
Proof. apply (array_set_app [] l x y). Qed.
Lemma array_set_1 {A} (x z y : A) l : array_set (x :: z :: l) 1 y = Ok (x :: y :: l).
Proof. apply (array_set_app [x] l z y). Qed.

(** The page [makeRoot] builds. *)
Lemma makeRoot_page l k a b :
  exists nq kt st, (match page (new_BTreeInner l) with
    | BTreeInner children keys =>
        keys' ← array_set keys 0 k; c1 ← array_set children 0 a; c2 ← array_set c1 1 b;
        Ok (mkONode (word (new_BTreeInner l)) 1 (BTreeInner c2 keys'))
    | BTreeLeaf _ _ => Fault InactiveMember
    end) = Ok nq /\ oinner_shape nq [k] kt [a; b] st /\ word nq = OptLock.olc_init.
Proof.
  pose proof maxEntries_bounds. unfold new_BTreeInner. cbn [page word].
  destruct (Z.to_nat maxEntries) as [|[|m]] eqn:E; [lia..|].
  cbn [List.seq fmap list_fmap]. rewrite array_set_0. cbn [mbind outcome_bind].
  rewrite array_set_0. cbn [mbind outcome_bind]. rewrite array_set_1. cbn [mbind outcome_bind].
  eexists _, (olc_uninit_key l <$> List.seq 1 (S m)), (olc_uninit_child l <$> List.seq 2 m).
  split; [reflexivity|]. split; [|done].
  split; cbn [page count]; try done; cbn [length app]; rewrite ?length_app, ?length_fmap, ?length_seq; simpl; lia.
Qed.

Lemma split_node_root mk split s l n nl nr sep :
  o_heap s !! l = Some n -> o_heap s !! o_next s = None -> o_heap s !! Pos.succ (o_next s) = None ->
  split n (mk (o_next s)) = Ok (nl, nr, sep) ->
  exists nq kt st, split_node mk split (Some l) None s
    = Ok (tt, mkOlc (<[Pos.succ (o_next s) := nq]> (<[l := released nl]> (<[o_next s := nr]> (o_heap s))))
                (Pos.succ (Pos.succ (o_next s))) (Some (Pos.succ (o_next s))))
    /\ oinner_shape nq [sep] kt [Some l; Some (o_next s)] st /\ word nq = OptLock.olc_init.
Proof.
  intros Hl Hr Hq Hs. set (r := o_next s) in *. set (q := Pos.succ r) in *.
  assert (r <> l /\ q <> l /\ r <> q) as (? & ? & ?) by (split_and!; [congruence|congruence|unfold q; lia]).
  destruct (makeRoot_page q sep (Some l) (Some r)) as (nq & kt & st & Hpage & Hsh & Hw).
  exists nq, kt, st. split; [|done]. unfold split_node, makeRoot.
  rewrite (ST_bind_ok eq_refl). fold r.
  erewrite ST_bind_ok by (apply o_deref_ok; o_lookup).
  erewrite ST_bind_ok by (apply o_deref_ok; o_lookup).
  erewrite ST_bind_ok by (apply lift_ok; exact Hs). cbn beta iota.
  erewrite ST_bind_ok by (eapply o_update_ok; [o_lookup|reflexivity]).
  erewrite ST_bind_ok by (eapply o_update_ok; [o_lookup|reflexivity]).
  erewrite ST_bind_ok; cycle 1.
  { rewrite (ST_bind_ok eq_refl). cbn [o_next with_heap]. fold q.
    erewrite ST_bind_ok by (eapply o_update_ok; [o_lookup|exact Hpage]). reflexivity. }
  erewrite ST_bind_ok by (apply o_writeUnlock_ok; o_lookup).
  unfold with_heap, mret, ST_ret. simpl. do 3 f_equal.
  apply map_eq. intros x. rewrite !lookup_insert. repeat case_decide; congruence.
Qed.

(** ** One split keeps the invariant and makes progress *)
Definition all_unlocked (h : gmap loc ONode) : Prop := map_Forall (fun _ n => unlocked (word n)) h.

(** What a restart of [insert] has done: the tree stores the same map, is at most one
    level higher and the search path for [k] has become lighter. *)
Record split_done (G : olayout) (s : OlcState) (k : Z) (top : nat) (s' : OlcState) : Prop := {
  sd_ex : exists G', otree_inv G' s' /\ weight G' (o_heap s') k < weight G (o_heap s) k
    /\ (forall l lo hi lv, G' !! l = Some (lo, hi, lv) -> (lv <= S top)%nat);
  sd_unlocked : all_unlocked (o_heap s');
  sd_entries : forall a v, ostored (o_heap s') a v <-> ostored (o_heap s) a v }.

Lemma weight_split G h l r q lo hi sep lv n nl nr nq qspan k :
  oheap_inv G h -> h !! l = Some n -> G !! l = Some (lo, hi, lv) -> h !! r = None -> q <> l -> q <> r ->
  lo < sep < hi -> lo < k <= hi -> count nl + 2 <= count n -> count nr + 2 <= count n ->
  (G !! q = None /\ share k (qspan, count nq) <= 1
   \/ exists nq0, h !! q = Some nq0 /\ G !! q = Some qspan /\ share k (qspan, count nq) <= share k (qspan, count nq0) + 1) ->
  weight (<[q := qspan]> (<[l := (lo, sep, lv)]> (<[r := (sep, hi, lv)]> G)))
    (<[q := nq]> (<[l := nl]> (<[r := nr]> h))) k < weight G h k.
Proof.
  intros Hh Hl Gl Hr Hql Hqr Hsep Hk Hc1 Hc2 Hq. assert (l <> r) by congruence.
  assert (Hnone : forall x, G !! x = None -> map_zip_with (fun s n => (s, count n)) G h !! x = None).
  { intros x Hx. apply map_lookup_zip_with_None. by left. }
  assert (Gr : G !! r = None) by (by eapply split_absent).
  unfold weight. rewrite <- !map_insert_zip_with.
  set (M := map_zip_with (fun s n => (s, count n)) G h) in *.
  assert (Hl' : <[r := ((sep, hi, lv), count nr)]> M !! l = Some ((lo, hi, lv), count n)).
  { rewrite lookup_insert_ne by done. apply map_lookup_zip_with_Some. eauto. }
  assert (Hone : share k ((lo, sep, lv), count nl) + share k ((sep, hi, lv), count nr)
    - share k ((lo, hi, lv), count n) <= -2).
  { unfold share. repeat case_decide; lia. }
  assert (Hbase : total k (<[l := ((lo, sep, lv), count nl)]> (<[r := ((sep, hi, lv), count nr)]> M))
    = total k M + share k ((lo, sep, lv), count nl) + share k ((sep, hi, lv), count nr) - share k ((lo, hi, lv), count n)).
  { rewrite (total_update _ _ _ _ _ Hl'), total_fresh by (by apply Hnone). lia. }
  destruct Hq as [[Gq Hs]|(nq0 & Hq0 & Gq & Hs)].
  - rewrite total_fresh, Hbase; [lia|]. rewrite !lookup_insert_ne by done. by apply Hnone.
  - erewrite total_update, Hbase; [|rewrite !lookup_insert_ne by done; apply map_lookup_zip_with_Some; eauto]. lia.
Qed.

(** [l], which covers [(lo, hi]] at level [lv], is a child of the page [np] at [p],
    which has room for one more. *)
Record child_of (G : olayout) (h : gmap loc ONode) (p : loc) (np : ONode) (l : loc) (lo hi : Z) (lv : nat)
    (plo phi : Z) (l1 l2 kt : list Z) (s1 s2 : list ptr) (z : ptr) (st : list ptr) : Prop := {
  co_heap : h !! p = Some np;
  co_span : G !! p = Some (plo, phi, S lv);
  co_shape : oinner_shape np (l1 ++ l2) kt (s1 ++ Some l :: s2) (z :: st);
  co_sorted : ksorted (plo :: (l1 ++ l2) ++ [phi]);
  co_nonempty : l1 ++ l2 <> [];
  co_children : Forall2 (ochild G lv) (s1 ++ Some l :: s2) (bounds plo (l1 ++ l2) phi);
  co_length : length s1 = length l1;
  co_range : lo = List.last l1 plo /\ hi = List.hd phi l2 }.

(** The parent after the new page went in right of [l]. *)
Lemma child_of_insert G h p np l lo hi lv plo phi l1 l2 kt s1 s2 z st r sep w :
  child_of G h p np l lo hi lv plo phi l1 l2 kt s1 s2 z st -> oheap_inv G h ->
  G !! l = Some (lo, hi, lv) -> h !! r = None -> lo < sep < hi ->
  exists np', BTreeInner_insert (set_word w np) sep (Some r) = Ok np' /\ word np' = w
    /\ count np' = count np + 1 /\ oleaf_entries np' = [] /\ oleaf_entries np = []
    /\ onode_inv (<[p := (plo, phi, S lv)]> (<[l := (lo, sep, lv)]> (<[r := (sep, hi, lv)]> G))) np' plo phi (S lv).
Proof.
  intros [Hp Gp Hsh Hso Hne Hch Hlen [Hlo Hhi]] Hh Gl Hr Hsep.
  destruct (bounds_middle plo l1 l2 phi Hso) as (pre & post & Hpl & Hb & Hbs & Hpre & Hpost & Hle & Hge).
  rewrite <- Hlo, <- Hhi in *. clear Hlo Hhi.
  assert (Hso' : ksorted ((plo :: l1) ++ (l2 ++ [phi]))) by (simpl; by rewrite app_assoc).
  assert (Hks : ksorted (l1 ++ l2)).
  { apply StronglySorted_cons in Hso as [_ Hs]. apply ksorted_app in Hs. tauto. }
  assert (Hnew : ksorted (plo :: (l1 ++ sep :: l2) ++ [phi])).
  { replace (plo :: (l1 ++ sep :: l2) ++ [phi]) with ((plo :: l1) ++ sep :: (l2 ++ [phi]))
      by (simpl; by rewrite <- app_assoc).
    apply ksorted_insert; [done| | |].
    - apply Forall_forall. intros x Hx%Hle. lia.
    - apply Forall_forall. intros x Hx%Hge. lia.
    - intros Hx%Hge. lia. }
  destruct (BTreeInner_insert_spec (set_word w np) l1 l2 kt s1 (Some l) s2 z st sep (Some r))
    as (np' & kt' & Hrun & Hsh' & Hw); auto using oinner_shape_word.
  { apply Forall_forall. intros x Hx. specialize (Hle x ltac:(set_solver)). lia. }
  { apply Forall_forall. intros x Hx. specialize (Hge x ltac:(set_solver)). lia. }
  exists np'. split; [done|]. split; [done|]. split.
  { rewrite (oi_count _ _ _ _ _ Hsh'), (oi_count _ _ _ _ _ Hsh), !length_app. simpl. lia. }
  split; [by eapply oinner_entries|]. split; [by eapply oinner_entries|].
  assert (plo < phi) by (apply (oh_node _ _ Hh _ _ _ _ _ Hp Gp)).
  split; [done|]. exists (l1 ++ sep :: l2), kt', (s1 ++ Some l :: Some r :: s2), st.
  split; [done|]. split; [done|]. split; [by destruct l1|]. rewrite Hbs. rewrite Hb in Hch.
  apply Forall2_app_inv in Hch as [Hc1 Hc2]; [|lia]. apply Forall2_cons in Hc2 as [_ Hc2].
  assert (Hlp : l <> p) by (intros ->; simplify_eq; lia).
  assert (Gr : G !! r = None) by (by eapply split_absent).
  assert (Hlr : l <> r) by congruence. assert (Hpr : p <> r) by congruence.
  assert (Hkeep : forall x b, b.2 <= lo \/ hi <= b.1 -> ochild G lv x b ->
    ochild (<[p := (plo, phi, S lv)]> (<[l := (lo, sep, lv)]> (<[r := (sep, hi, lv)]> G))) lv x b).
  { intros x b Hor (c & -> & Hc). exists c. split; [done|].
    assert (c <> p) by (intros ->; simplify_eq; lia). assert (c <> r) by congruence.
    assert (c <> l).
    { intros ->. rewrite Gl in Hc. injection Hc as ? ?. destruct b as [b1 b2]. simpl in *. lia. }
    by rewrite !lookup_insert_ne. }
  apply Forall2_app; [|constructor; [|constructor]].
  - eapply Forall2_impl_in; [exact Hc1|]. intros x b Hin Hx. apply Hkeep; auto.
  - exists l. split; [done|]. rewrite lookup_insert_ne by done. apply lookup_insert_eq.
  - exists r. split; [done|]. rewrite !lookup_insert_ne by done. apply lookup_insert_eq.
  - eapply Forall2_impl_in; [exact Hc2|]. intros x b Hin Hx. apply Hkeep; auto.
Qed.

Lemma olayout_lower (G : olayout) l r q lo sep hi lv qs c b b' lv' :
  G !! l = Some (lo, hi, lv) -> G !! r = None -> (G !! q = None \/ exists a b, G !! q = Some (a, b, S lv)) ->
  lv = S lv' -> G !! c = Some (b, b', lv') ->
  <[q := qs]> (<[l := (lo, sep, lv)]> (<[r := (sep, hi, lv)]> G)) !! c = Some (b, b', lv').
Proof.
  intros Gl Gr Gq -> Gc. rewrite !lookup_insert_ne; [done|..].
  - congruence.
  - intros ->. simplify_eq. lia.
  - intros ->. destruct Gq as [?|(? & ? & ?)]; simplify_eq. lia.
Qed.

(** What both kinds of split leave behind. *)
Lemma cut_done G s k l n lo hi lv r q qlo qhi nl nr nq :
  otree_inv G s -> all_unlocked (o_heap s) -> o_heap s !! l = Some n -> G !! l = Some (lo, hi, lv) ->
  lo < k <= hi -> o_heap s !! r = None -> q <> l -> q <> r ->
  forall sep, page_cut G (locked n) lo hi lv nl nr sep ->
  let G' := <[q := (qlo, qhi, S lv)]> (<[l := (lo, sep, lv)]> (<[r := (sep, hi, lv)]> G)) in
  let h' := <[q := nq]> (<[l := released nl]> (<[r := nr]> (o_heap s))) in
  onode_inv G' nq qlo qhi (S lv) -> qlo <= lo /\ hi <= qhi -> unlocked (word nq) -> oleaf_entries nq = [] ->
  (forall x xlo xhi, x <> q -> G !! x = Some (xlo, xhi, S lv) -> apart (qlo, qhi) (xlo, xhi)) ->
  (G !! q = None /\ o_heap s !! q = None /\ count nq <= 1 \/
   exists nq0, o_heap s !! q = Some nq0 /\ G !! q = Some (qlo, qhi, S lv) /\ count nq <= count nq0 + 1
     /\ oleaf_entries nq0 = []) ->
  oheap_inv G' h' /\ weight G' h' k < weight G (o_heap s) k /\ all_unlocked h'
  /\ forall a v, ostored h' a v <-> ostored (o_heap s) a v.
Proof.
  intros Hi Hu Hl Gl Hk Hr Hql Hqr sep [Hsep Hnl Hnr [Hw1 Hw2] [Hc1 Hc2] He] G' h' Hnq Hqr' Huq Heq Hoth Hq.
  pose proof (ot_heap _ _ Hi) as Hh. assert (Gr : G !! r = None) by (by eapply split_absent).
  assert (Hlow : forall m a b, onode_inv G m a b lv -> onode_inv G' m a b lv).
  { intros m a b. apply onode_inv_layout. intros c b0 b1 lv' Hlv _ _ _ Gc.
    eapply olayout_lower; eauto. destruct Hq as [[? _]|(? & _ & ? & _)]; eauto. }
  split_and!.
  - apply (oheap_split G (o_heap s) l r q lo hi sep qlo qhi lv n (released nl) nr nq); auto.
    + destruct Hq as [(_ & ? & _)|(? & _ & ? & _)]; auto.
    + apply onode_inv_word. auto.
  - apply (weight_split G (o_heap s) l r q lo hi sep lv n (released nl) nr nq (qlo, qhi, S lv) k); auto.
    destruct Hq as [(? & _ & ?)|(nq0 & ? & ? & ? & _)].
    + left. split; [done|]. unfold share. case_decide; lia.
    + right. exists nq0. split; [done|]. split; [done|]. unfold share. case_decide; lia.
  - intros x m [[<- <-]|[_ [[<- <-]|[_ [[<- <-]|[_ Hm]]%lookup_insert_Some]]%lookup_insert_Some]]%lookup_insert_Some.
    + done.
    + simpl. rewrite Hw1. simpl. apply olc_unlock_word. by apply (Hu l).
    + rewrite Hw2. apply unlocked_init.
    + by apply (Hu x).
  - intros a v. assert (Hne : l <> r) by congruence.
    assert (Hbase : forall a v, ostored (<[l := released nl]> (<[r := nr]> (o_heap s))) a v <-> ostored (o_heap s) a v).
    { intros a' v'. rewrite (stored_split _ l r n (released nl) nr (fun _ _ => False)); [naive_solver|done|done|].
      intros k0 w. change (oleaf_entries (released nl)) with (oleaf_entries nl). rewrite (He (k0, w)).
      change (oleaf_entries (locked n)) with (oleaf_entries n). tauto. }
    unfold h'. rewrite <- Hbase. destruct Hq as [(_ & Hq & _)|(nq0 & Hq & _ & _ & He0)].
    + rewrite stored_fresh by (by rewrite !lookup_insert_ne). rewrite Heq. set_solver.
    + rewrite (stored_insert_eq _ q nq0); [done|by rewrite !lookup_insert_ne|]. intros. by rewrite Heq, He0.
Qed.

Section SplitNode.
Context (G : olayout) (s : OlcState) (k : Z) (top : nat) (l : loc) (n : ONode) (lo hi : Z) (lv : nat).
Context (mk : loc -> ONode) (split : ONode -> ONode -> outcome (ONode * ONode * Z)).
Hypothesis Hi : otree_inv G s.
Hypothesis Hu : all_unlocked (o_heap s).
Hypothesis Hl : o_heap s !! l = Some n.
Hypothesis Gl : G !! l = Some (lo, hi, lv).
Hypothesis Hk : lo < k <= hi.
Hypothesis Htop : forall l lo hi lv, G !! l = Some (lo, hi, lv) -> (lv <= top)%nat.
Hypothesis Hcut : exists nl nr sep, split (locked n) (mk (o_next s)) = Ok (nl, nr, sep)
  /\ page_cut G (locked n) lo hi lv nl nr sep.

Lemma fresh_o_next : o_heap s !! o_next s = None.
Proof. apply (ot_fresh _ _ Hi). lia. Qed.

Lemma split_under_parent p np plo phi l1 l2 kt s1 s2 z st :
  child_of G (o_heap s) p np l lo hi lv plo phi l1 l2 kt s1 s2 z st ->
  exists s', attempt (lock_for_split (Some l) (word n) (Some p) (word np))
      (fun _ => split_node mk split (Some l) (Some p);; mret (M := ST OlcState) (@None unit)) s = Ok (None, s')
    /\ split_done G s k top s'.
Proof.
  intros Hco. pose proof Hco as [Hp Gp _ Hso _ _ _ Hrange]. pose proof fresh_o_next as Hr.
  pose proof (ot_heap _ _ Hi) as Hh.
  assert (Hlp : l <> p) by (intros ->; simplify_eq; lia).
  destruct Hcut as (nl & nr & sep & Hsplit & Hpc). pose proof Hpc as [Hsep _ _ _ _ _].
  destruct (child_of_insert _ _ _ _ _ _ _ _ _ _ _ _ _ _ _ _ _ (o_next s) sep (u64 (word np + 2)) Hco Hh Gl Hr Hsep)
    as (np' & Hins & Hw' & Hc' & He' & He & Hnp').
  unfold attempt at 1. rewrite (ST_bind_ok (lock_for_split_parent s l n p np Hl Hp Hlp)).
  set (h1 := <[l := locked n]> (<[p := locked np]> (o_heap s))).
  assert (Hrl : o_next s <> l) by congruence. assert (Hrp : o_next s <> p) by congruence.
  erewrite ST_bind_ok; cycle 1.
  { apply (split_node_parent mk split (with_heap h1 s) l (locked n) p (locked np) nl nr sep np'); unfold h1; simpl.
    - apply lookup_insert_eq.
    - rewrite lookup_insert_ne by done. apply lookup_insert_eq.
    - done.
    - by rewrite !lookup_insert_ne.
    - done.
    - exact Hins. }
  eexists. split; [reflexivity|]. simpl.
  assert (Hheap : <[p := released np']> (<[l := released nl]> (<[o_next s := nr]> h1))
    = <[p := released np']> (<[l := released nl]> (<[o_next s := nr]> (o_heap s)))).
  { apply map_eq. intros x. unfold h1. rewrite !lookup_insert. repeat case_decide; congruence. }
  rewrite Hheap.
  destruct (bounds_middle plo l1 l2 phi Hso) as (pre & post & _ & Hb & _ & _ & _ & Hle & Hge).
  destruct Hrange as [Hlo Hhi].
  destruct (cut_done G s k l n lo hi lv (o_next s) p plo phi nl nr (released np') Hi Hu Hl Gl Hk Hr
    (not_eq_sym Hlp) (not_eq_sym Hrp) sep Hpc) as (Hh' & Hwt & Hu' & He2); auto.
  - by apply onode_inv_word.
  - rewrite Hlo, Hhi. split; [apply Hle|apply Hge]; set_solver.
  - simpl. rewrite Hw'. apply olc_unlock_word. by apply (Hu p).
  - intros x xlo xhi Hx Gx. eapply (oh_apart _ _ Hh p x); eauto.
  - right. exists np. simpl. rewrite Hc'. auto with lia.
  - split; [|done|done].
    exists (<[p := (plo, phi, S lv)]> (<[l := (lo, sep, lv)]> (<[o_next s := (sep, hi, lv)]> G))).
    assert (Hlv : forall x a b c, <[p := (plo, phi, S lv)]> (<[l := (lo, sep, lv)]> (<[o_next s := (sep, hi, lv)]> G)) !! x
        = Some (a, b, c) -> exists y a' b', G !! y = Some (a', b', c)).
    { intros x a b c. rewrite !lookup_insert. repeat case_decide; intros; simplify_eq; eauto. }
    split_and!; [split; simpl|done|].
    + done.
    + intros x Hx. rewrite !lookup_insert_ne; [apply (ot_fresh _ _ Hi); lia|lia|..].
      * intros ->. rewrite (ot_fresh _ _ Hi) in Hl; [done|lia].
      * intros ->. rewrite (ot_fresh _ _ Hi) in Hp; [done|lia].
    + destruct (ot_root _ _ Hi) as (rt & tl & Hrt & Grt & Hall). exists rt, tl. split; [done|]. split.
      * rewrite lookup_insert. case_decide; [subst; congruence|]. rewrite !lookup_insert_ne; [done| |].
        -- intros <-. rewrite (split_absent _ _ Hh _ Hr) in Grt. done.
        -- intros <-. simplify_eq. apply Hall in Gp. lia.
      * intros x a b c (y & a' & b' & Hy)%Hlv. eauto.
    + intros x a b c (y & a' & b' & Hy%Htop)%Hlv. lia.
Qed.

Lemma split_root_page w :
  o_root s = Some l -> G !! l = Some (-1, max_u64, top) ->
  exists s', attempt (lock_for_split (Some l) (word n) None w)
      (fun _ => split_node mk split (Some l) None;; mret (M := ST OlcState) (@None unit)) s = Ok (None, s')
    /\ split_done G s k top s'.
Proof.
  intros Hroot Gl'. assert (lo = -1 /\ hi = max_u64 /\ lv = top) as (-> & -> & ->) by (split_and!; congruence).
  pose proof fresh_o_next as Hr. pose proof (ot_heap _ _ Hi) as Hh. set (r := o_next s) in *.
  assert (Hq : o_heap s !! Pos.succ r = None) by (apply (ot_fresh _ _ Hi); lia).
  destruct Hcut as (nl & nr & sep & Hsplit & Hpc). pose proof Hpc as [Hsep _ _ _ _ _].
  unfold attempt at 1. rewrite (ST_bind_ok (lock_for_split_root s l n w Hl Hroot)).
  assert (Hrl : r <> l) by congruence. assert (Hql : Pos.succ r <> l) by congruence.
  destruct (split_node_root mk split (with_heap (<[l := locked n]> (o_heap s)) s) l (locked n) nl nr sep)
    as (nq & kt & st & Hrun & Hsh & Hw); simpl; try (by rewrite lookup_insert_ne); try done.
  { apply lookup_insert_eq. }
  rewrite (ST_bind_ok Hrun). eexists. split; [reflexivity|]. simpl in *. fold r in Hsh |- *.
  set (q := Pos.succ r) in *. assert (Hqr : q <> r) by (unfold q; lia).
  assert (Gr : G !! r = None) by (by eapply split_absent). assert (Gq : G !! q = None) by (by eapply split_absent).
  assert (Hheap : <[q := nq]> (<[l := released nl]> (<[r := nr]> (<[l := locked n]> (o_heap s))))
    = <[q := nq]> (<[l := released nl]> (<[r := nr]> (o_heap s)))).
  { apply map_eq. intros x. rewrite !lookup_insert. repeat case_decide; congruence. }
  rewrite Hheap. set (G' := <[q := (-1, max_u64, S top)]> (<[l := (-1, sep, top)]> (<[r := (sep, max_u64, top)]> G))).
  assert (Hnq : onode_inv G' nq (-1) max_u64 (S top)).
  { split; [unfold max_u64; lia|]. exists [sep], kt, [Some l; Some r], st. split; [done|]. split.
    { repeat constructor; lia. }
    split; [done|]. unfold G'. repeat constructor; eexists; (split; [done|]); simpl.
    - rewrite lookup_insert_ne by done. apply lookup_insert_eq.
    - rewrite !lookup_insert_ne by done. apply lookup_insert_eq. }
  assert (Hnone : forall x a b, G !! x = Some (a, b, S top) -> False) by (intros x a b Hx%Htop; lia).
  destruct (cut_done G s k l n (-1) max_u64 top r q (-1) max_u64 nl nr nq Hi Hu Hl Gl Hk Hr
    Hql Hqr sep Hpc) as (Hh' & Hwt & Hu' & He2); auto.
  - lia.
  - rewrite Hw. apply unlocked_init.
  - by eapply oinner_entries.
  - intros x a b _ Hx. by apply Hnone in Hx.
  - left. rewrite (oi_count _ _ _ _ _ Hsh). simpl. auto with lia.
  - split; [|done|done]. exists G'.
    assert (Hlv : forall x a b c, G' !! x = Some (a, b, c) -> (c <= S top)%nat).
    { intros x a b c. unfold G'. rewrite !lookup_insert. repeat case_decide; intros; simplify_eq; try lia.
      assert (c <= top)%nat by eauto. lia. }
    split_and!; [split; simpl|done|done].
    + done.
    + intros x Hx. rewrite !lookup_insert_ne; [apply (ot_fresh _ _ Hi); fold r; lia|lia| |lia].
      intros ->. rewrite (ot_fresh _ _ Hi) in Hl; [done|fold r; lia].
    + exists q, (S top). split; [done|]. split; [apply lookup_insert_eq|done].
Qed.
End SplitNode.

(** ** The descent of [insert] *)

(** How the caller of the descent holds on to the parent of [l]. *)
Definition parent_held (G : olayout) (s : OlcState) (top : nat) (l : loc) (lo hi : Z) (lv : nat)
    (parent : ptr) (versionParent : Z) : Prop :=
  match parent with
  | None => o_root s = Some l /\ G !! l = Some (-1, max_u64, top)
  | Some p => exists np plo phi l1 l2 kt s1 s2 z st,
      child_of G (o_heap s) p np l lo hi lv plo phi l1 l2 kt s1 s2 z st /\ versionParent = word np
  end.

Record leaf_done (G : olayout) (s : OlcState) (k v : Z) (s' : OlcState) : Prop := {
  ld_inv : otree_inv G s';
  ld_unlocked : all_unlocked (o_heap s');
  ld_entries : forall a w, ostored (o_heap s') a w <-> (a = k /\ w = v) \/ (a <> k /\ ostored (o_heap s) a w) }.

Lemma parent_held_validates G s top l lo hi lv parent vp :
  parent_held G s top l lo hi lv parent vp -> release_parent parent vp s = Ok (Some tt, s).
Proof.
  intros Hp. destruct parent as [p|]; [|done]. destruct Hp as (np & ? & ? & ? & ? & ? & ? & ? & ? & ? & [Hp _ _ _ _ _ _ _] & ->).
  unfold release_parent. by rewrite (ST_bind_ok (o_readUnlock_ok _ _ _ Hp)).
Qed.

Lemma otree_inv_page G s l n n' lo hi lv :
  otree_inv G s -> o_heap s !! l = Some n -> G !! l = Some (lo, hi, lv) -> onode_inv G n' lo hi lv ->
  otree_inv G (with_heap (<[l := n']> (o_heap s)) s).
Proof.
  intros [[Hd Hn Ha] Hf Hr] Hl Gl Hn'. split; [split|..]; simpl; [| |done| |done].
  - intros x. rewrite Hd, lookup_insert. case_decide; subst; naive_solver.
  - intros x m a b c [[??]|[??]]%lookup_insert_Some Gx; subst; [by simplify_eq|eauto].
  - intros x Hx. rewrite lookup_insert_ne; [by apply Hf|]. intros ->. rewrite Hf in Hl; done.
Qed.

Lemma insert_at_leaf G s top l n lo hi k v parent vp fuel :
  otree_inv G s -> all_unlocked (o_heap s) -> o_heap s !! l = Some n -> G !! l = Some (lo, hi, 0%nat) ->
  lo < k <= hi -> parent_held G s top l lo hi 0 parent vp -> leaf_isFull n = false ->
  exists s', insert_from (S fuel) k v (Some l) (word n) parent vp s = Ok (Some tt, s') /\ leaf_done G s k v s'.
Proof.
  intros Hi Hu Hl Gl Hk Hp Hfull. pose proof (ot_heap _ _ Hi) as Hh.
  destruct (oh_node _ _ Hh _ _ _ _ _ Hl Gl) as [Hlt (ks & kt & vs & vt & Hsh & Hso & Hall)].
  cbn [insert_from]. rewrite (ST_bind_ok (o_deref_ok _ _ _ Hl)).
  assert (Hleaf : is_BTreeInner n = false) by (unfold is_BTreeInner; by rewrite (ol_page _ _ _ _ _ Hsh)).
  rewrite Hleaf, Hfull. rewrite (leaf_isFull_shape _ _ _ _ _ Hsh) in Hfull. apply bool_decide_eq_false in Hfull.
  destruct kt as [|y kt]; [done|].
  destruct vt as [|z vt]; [destruct Hsh; rewrite !length_app in *; simpl in *; lia|].
  rewrite (ST_bind_ok (o_upgrade_ok _ _ _ Hl)). unfold attempt.
  rewrite (ST_bind_ok eq_refl). cbn beta iota.
  set (s1 := with_heap (<[l := locked n]> (o_heap s)) s).
  assert (Hpar : (match parent with Some _ => o_readUnlock parent vp | None => mret false end) s1 = Ok (false, s1)).
  { destruct parent as [p|]; [|done]. destruct Hp as (np & ? & ? & ? & ? & ? & ? & ? & ? & ? & [Hp Gp _ _ _ _ _ _] & ->).
    apply o_readUnlock_ok. simpl. rewrite lookup_insert_ne; [done|]. intros ->. simplify_eq. }
  rewrite (ST_bind_ok Hpar).
  destruct (BTreeLeaf_insert_spec (locked n) ks y kt vs z vt k v) as (n' & ks' & kt' & vs' & vt' & Hins & Hsh' & Hw & Hso' & Hkeys & Hz);
    [by apply oleaf_shape_word|done|].
  erewrite ST_bind_ok by (eapply o_update_ok; [apply lookup_insert_eq|exact Hins]).
  erewrite ST_bind_ok by (apply o_writeUnlock_ok; apply lookup_insert_eq).
  assert (Hheap : with_heap (<[l := released n']> (<[l := n']> (<[l := locked n]> (o_heap s)))) s
    = with_heap (<[l := released n']> (o_heap s)) s) by (by rewrite !insert_insert_eq).
  exists (with_heap (<[l := released n']> (o_heap s)) s). split; [by rewrite <- Hheap|]. split.
  - eapply otree_inv_page; eauto. apply onode_inv_word. split; [done|]. exists ks', kt', vs', vt'.
    split; [done|]. split; [done|]. rewrite Forall_forall in Hall. apply Forall_forall. intros x [->|Hx]%Hkeys; auto.
  - intros x m Hm. simpl in Hm. apply lookup_insert_Some in Hm as [[<- <-]|[_ Hm]]; [|by apply (Hu x)].
    simpl. rewrite Hw. apply olc_unlock_word. by apply (Hu l).
  - simpl. apply (stored_upsert (o_heap s) l n (released n') k v); [done| |].
    + intros l' m w Hm Hin. destruct (ostored_inv _ _ _ _ _ _ Hh Hm Hin) as (lo' & hi' & Gl' & Hk' & _).
      by eapply (oh_unique G (o_heap s) l' l).
    + intros a w. change (oleaf_entries (released n')) with (oleaf_entries n').
      by rewrite (oleaf_entries_shape _ _ _ _ _ Hsh'), (oleaf_entries_shape _ _ _ _ _ Hsh).
Qed.

(** One step down an inner page that is not full. *)
Lemma descend_child G s top l n lo hi lv k :
  otree_inv G s -> all_unlocked (o_heap s) -> o_heap s !! l = Some n -> G !! l = Some (lo, hi, S lv) ->
  lo < k <= hi ->
  exists pos children keys c nc clo chi, is_BTreeInner n = true /\ page n = BTreeInner children keys
    /\ lowerBound n k = Ok pos /\ array_get children pos = Ok (Some c)
    /\ o_heap s !! c = Some nc /\ G !! c = Some (clo, chi, lv) /\ clo < k <= chi
    /\ unlocked (word nc)
    /\ (inner_isFull n = false -> parent_held G s top c clo chi lv (Some l) (word n)).
Proof.
  intros Hi Hu Hl Gl Hk. pose proof (ot_heap _ _ Hi) as Hh.
  destruct (oh_node _ _ Hh _ _ _ _ _ Hl Gl) as [Hlt (ks & kt & ss & st & Hsh & Hso & Hne & Hch)].
  destruct (child_covers G n ks kt ss st lo hi lv k Hsh Hso Hne Hch Hk)
    as (l1 & l2 & s1 & c & s2 & Hks & Hss & Hlen & Hlb & Hget & Gc & Hck).
  destruct (oh_lookup _ _ _ _ _ _ Hh Gc) as (nc & Hc & _).
  exists (Z.of_nat (length l1)), (ss ++ st), (ks ++ kt), c, nc, (List.last l1 lo), (List.hd hi l2).
  split; [unfold is_BTreeInner; by rewrite (oi_page _ _ _ _ _ Hsh)|]. split; [by destruct Hsh|].
  split_and!; try done; [lia|lia|by apply (Hu c)|].
  intros Hfull. rewrite (inner_isFull_shape _ _ _ _ _ Hsh) in Hfull. apply bool_decide_eq_false in Hfull.
  destruct st as [|z st]; [done|]. subst ks ss.
  exists n, lo, hi, l1, l2, kt, s1, s2, z, st. split; [|done]. by split.
Qed.

Lemma insert_from_ok G s k v top fuel : forall lv l n lo hi parent vp,
  otree_inv G s -> all_unlocked (o_heap s) ->
  (forall l lo hi lv, G !! l = Some (lo, hi, lv) -> (lv <= top)%nat) ->
  o_heap s !! l = Some n -> G !! l = Some (lo, hi, lv) -> lo < k <= hi ->
  parent_held G s top l lo hi lv parent vp -> (lv < fuel)%nat ->
  (exists s', insert_from fuel k v (Some l) (word n) parent vp s = Ok (Some tt, s') /\ leaf_done G s k v s')
  \/ (exists s', insert_from fuel k v (Some l) (word n) parent vp s = Ok (None, s') /\ split_done G s k top s').
Proof.
  induction fuel as [|fuel IH]; intros lv l n lo hi parent vp Hi Hu Htop Hl Gl Hk Hp Hf; [lia|].
  pose proof (oh_node _ _ (ot_heap _ _ Hi) _ _ _ _ _ Hl Gl) as Hn.
  assert (Hsplit : forall mk split, (exists nl nr sep, split (locked n) (mk (o_next s)) = Ok (nl, nr, sep)
      /\ page_cut G (locked n) lo hi lv nl nr sep) ->
    exists s', attempt (lock_for_split (Some l) (word n) parent vp)
      (fun _ => split_node mk split (Some l) parent;; mret (M := ST OlcState) (@None unit)) s = Ok (None, s')
      /\ split_done G s k top s').
  { intros mk split Hcut. destruct parent as [p|].
    - destruct Hp as (np & plo & phi & l1 & l2 & kt & s1 & s2 & z & st & Hco & ->).
      by eapply (split_under_parent G s k top l n lo hi lv).
    - destruct Hp as [Hroot Gr]. by eapply (split_root_page G s k top l n lo hi lv). }
  destruct lv as [|lv].
  - destruct (leaf_isFull n) eqn:Hfull; [right|left; by eapply insert_at_leaf].
    assert (Hleaf : is_BTreeInner n = false).
    { destruct Hn as [_ (ks & kt & vs & vt & Hsh & _)]. unfold is_BTreeInner. by rewrite (ol_page _ _ _ _ _ Hsh). }
    destruct (Hsplit new_BTreeLeaf BTreeLeaf_split) as (s' & Hrun & Hd).
    { apply leaf_page_cut; [by apply onode_inv_word|done]. }
    exists s'. split; [|done]. cbn [insert_from]. rewrite (ST_bind_ok (o_deref_ok _ _ _ Hl)).
    by rewrite Hleaf, Hfull.
  - destruct (descend_child G s top l n lo hi lv k Hi Hu Hl Gl Hk)
      as (pos & children & keys & c & nc & clo & chi & Hin & Hpage & Hlb & Hget & Hc & Gc & Hck & Huc & Hheld).
    destruct (inner_isFull n) eqn:Hfull.
    + right. destruct (Hsplit new_BTreeInner BTreeInner_split) as (s' & Hrun & Hd).
      { apply inner_page_cut; [by apply onode_inv_word|done]. }
      exists s'. split; [|done]. cbn [insert_from]. rewrite (ST_bind_ok (o_deref_ok _ _ _ Hl)).
      by rewrite Hin, Hfull.
    + assert (Hstep : insert_from (S fuel) k v (Some l) (word n) parent vp s
        = insert_from fuel k v (Some c) (word nc) (Some l) (word n) s).
      { cbn [insert_from]. rewrite (ST_bind_ok (o_deref_ok _ _ _ Hl)), Hin, Hfull. unfold attempt.
        rewrite (ST_bind_ok (parent_held_validates _ _ _ _ _ _ _ _ _ Hp)).
        rewrite (ST_bind_ok (lift_ok Hlb)), Hpage.
        rewrite (ST_bind_ok (lift_ok Hget)), (ST_bind_ok (o_readUnlock_ok _ _ _ Hl)).
        rewrite (ST_bind_ok eq_refl). cbn beta iota.
        rewrite (ST_bind_ok (o_readLock_ok _ _ _ Hc Huc)). cbn beta iota.
        by rewrite (ST_bind_ok eq_refl). }
      rewrite Hstep. apply (IH lv c nc clo chi); auto. lia.
Qed.

(** ** [BTree::insert] *)
Definition owell_formed (s : OlcState) : Prop := exists G, otree_inv G s /\ all_unlocked (o_heap s).
(** The map the tree stores. *)
Definition omap (s : OlcState) : gmap Z Z := stored_map oleaf_entries (o_heap s).

Lemma counts_bounded G h i sp c :
  oheap_inv G h -> map_zip_with (fun s n => (s, count n)) G h !! i = Some (sp, c) -> 0 <= c <= 64.
Proof.
  intros Hh Hi. apply map_lookup_zip_with_Some in Hi as ([[lo hi] lv] & n & [= -> ->] & Gi & Hn).
  pose proof maxEntries_bounds. destruct (oh_node _ _ Hh _ _ _ _ _ Hn Gi) as [_ Hb]. destruct lv as [|lv].
  - destruct Hb as (ks & kt & vs & vt & [_ -> _ Hc _] & _). rewrite length_app in Hc. lia.
  - destruct Hb as (ks & kt & ss & st & [_ -> _ Hc _] & _). rewrite length_app in Hc. lia.
Qed.
Lemma weight_bound G h k : oheap_inv G h -> 0 <= weight G h k <= 64 * Z.of_nat (base.size h).
Proof.
  intros Hh. unfold weight. set (M := map_zip_with _ G h).
  destruct (total_bound k M 64) as [H1 H2]; [lia|intros i sp c Hi; by eapply counts_bounded|].
  split; [done|]. etransitivity; [exact H2|]. apply Z.mul_le_mono_nonneg_l; [lia|]. apply inj_le.
  rewrite <- !(size_dom (D := gset loc)). apply subseteq_size. unfold M. rewrite dom_map_zip_with_L. set_solver.
Qed.

(** Every level below the root has a page, so there are more pages than levels. *)
Lemma level_inhabited G s r top j :
  otree_inv G s -> o_root s = Some r -> G !! r = Some (-1, max_u64, top) -> (j <= top)%nat ->
  exists l lo hi, G !! l = Some (lo, hi, j).
Proof.
  intros Hi Hr Gr Hj. pose proof (ot_heap _ _ Hi) as Hh.
  replace j with (top - (top - j))%nat by lia. assert (Hd : (top - j <= top)%nat) by lia.
  induction (top - j)%nat as [|d IH]; [rewrite Nat.sub_0_r; eauto|].
  destruct IH as (l & lo & hi & Gl); [lia|]. replace (top - d)%nat with (S (top - S d)) in Gl by lia.
  destruct (oh_lookup _ _ _ _ _ _ Hh Gl) as (n & Hl & [_ (ks & kt & ss & st & _ & _ & _ & Hch)]).
  assert (Hb : exists b bs, bounds lo ks hi = b :: bs) by (destruct ks; simpl; eauto).
  destruct Hb as (b & bs & Hb). rewrite Hb in Hch. apply Forall2_cons_inv_r in Hch as (x & xs & (c & -> & Gc) & _).
  eauto.
Qed.
Lemma levels_pages G s r top :
  otree_inv G s -> o_root s = Some r -> G !! r = Some (-1, max_u64, top) ->
  (S top <= base.size (o_heap s))%nat.
Proof.
  intros Hi Hr Gr.
  assert (Hls : forall m, (m <= S top)%nat -> exists X : gset loc, base.size X = m /\ X ⊆ dom (o_heap s)
    /\ forall l, l ∈ X -> exists lo hi j, G !! l = Some (lo, hi, j) /\ (j < m)%nat).
  { induction m as [|m IH]; intros Hm.
    { exists ∅. rewrite size_empty. set_solver. }
    destruct IH as (X & Hsz & Hsub & Hlv); [lia|].
    destruct (level_inhabited G s r top m Hi Hr Gr) as (l & lo & hi & Gl); [lia|].
    exists ({[l]} ∪ X). split_and!.
    - rewrite size_union, size_singleton, Hsz; [lia|]. intros x -> %elem_of_singleton Hx.
      destruct (Hlv _ Hx) as (? & ? & j & Gx & ?). simplify_eq. lia.
    - apply union_subseteq. split; [|done]. apply singleton_subseteq_l, elem_of_dom.
      apply (oh_dom _ _ (ot_heap _ _ Hi)). eauto.
    - intros x [->%elem_of_singleton|Hx]%elem_of_union; [eauto with lia|].
      destruct (Hlv _ Hx) as (a & b & j & Gx & ?). exists a, b, j. split; [done|lia]. }
  destruct (Hls (S top)) as (X & Hsz & Hsub & _); [lia|].
  apply subseteq_size in Hsub. rewrite size_dom in Hsub. lia.
Qed.

Lemma start_ok G s r top n :
  otree_inv G s -> all_unlocked (o_heap s) -> o_root s = Some r -> G !! r = Some (-1, max_u64, top) ->
  o_heap s !! r = Some n -> BTree_start s = Ok (Some (Some r, word n), s).
Proof.
  intros Hi Hu Hr Gr Hn. unfold BTree_start, o_get_root. rewrite (ST_bind_ok eq_refl), Hr.
  rewrite (ST_bind_ok (o_readLock_ok _ _ _ Hn (Hu r _ Hn))). cbn beta iota.
  rewrite (ST_bind_ok eq_refl), Hr. by rewrite bool_decide_false by naive_solver.
Qed.

Lemma insert_once_ok G s k v top r fuel :
  otree_inv G s -> all_unlocked (o_heap s) -> o_root s = Some r -> G !! r = Some (-1, max_u64, top) ->
  (forall l lo hi lv, G !! l = Some (lo, hi, lv) -> (lv <= top)%nat) ->
  0 <= k <= max_u64 -> (top < fuel)%nat ->
  (exists s', insert_once fuel k v s = Ok (Some tt, s') /\ leaf_done G s k v s')
  \/ (exists s', insert_once fuel k v s = Ok (None, s') /\ split_done G s k top s').
Proof.
  intros Hi Hu Hr Gr Htop Hk Hf. destruct (oh_lookup _ _ _ _ _ _ (ot_heap _ _ Hi) Gr) as (n & Hn & _).
  unfold insert_once, attempt. rewrite (ST_bind_ok (start_ok G s r top n Hi Hu Hr Gr Hn)).
  apply (insert_from_ok G s k v top fuel top r n (-1) max_u64); auto; [lia|]. done.
Qed.

Lemma BTree_insert_terminates k v fuel : 0 <= k <= max_u64 -> forall tries G s top r,
  otree_inv G s -> all_unlocked (o_heap s) -> o_root s = Some r -> G !! r = Some (-1, max_u64, top) ->
  (forall l lo hi lv, G !! l = Some (lo, hi, lv) -> (lv <= top)%nat) ->
  weight G (o_heap s) k < Z.of_nat tries -> Z.of_nat top + weight G (o_heap s) k < Z.of_nat fuel ->
  exists s', BTree_insert tries fuel k v s = Ok (tt, s') /\ owell_formed s'
    /\ omap s' = <[k := v]> (omap s).
Proof.
  intros Hk. induction tries as [|tries IH]; intros G s top r Hi Hu Hr Gr Htop Ht Hf;
    pose proof (weight_bound _ _ k (ot_heap _ _ Hi)); [lia|]. cbn [BTree_insert].
  destruct (insert_once_ok G s k v top r fuel) as [(s' & Hrun & [Hi' Hu' He])|(s' & Hrun & [(G' & Hi' & Hw & Htop') Hu' He])];
    auto; [lia| |]; rewrite (ST_bind_ok Hrun).
  - exists s'. split; [done|]. split; [by exists G|]. apply stored_map_upsert; [..|done];
      eapply ostored_functional; by apply ot_heap.
  - destruct (ot_root _ _ Hi') as (r' & top' & Hr' & Gr' & Hall). pose proof (Htop' _ _ _ _ Gr').
    destruct (IH G' s' top' r') as (s2 & Hrun2 & Hw2 & Hm); auto; [lia|lia|].
    exists s2. split; [done|]. split; [done|]. rewrite Hm. f_equal.
    apply stored_map_ext; [..|done]; eapply ostored_functional; by apply ot_heap.
Qed.

(** ** [BTree::lookup] and [BTree::scan] *)
Lemma descend_ok G s k fuel : forall lv l n lo hi parent vp,
  otree_inv G s -> all_unlocked (o_heap s) -> o_heap s !! l = Some n -> G !! l = Some (lo, hi, lv) ->
  lo < k <= hi -> release_parent parent vp s = Ok (Some tt, s) -> (lv < fuel)%nat ->
  exists l' n' lo' hi' parent' vp',
    descend fuel k (Some l) (word n) parent vp s = Ok (Some (Some l', word n', parent', vp'), s)
    /\ o_heap s !! l' = Some n' /\ G !! l' = Some (lo', hi', 0%nat) /\ lo' < k <= hi'
    /\ release_parent parent' vp' s = Ok (Some tt, s).
Proof.
  induction fuel as [|fuel IH]; intros lv l n lo hi parent vp Hi Hu Hl Gl Hk Hp Hf; [lia|].
  cbn [descend]. rewrite (ST_bind_ok (o_deref_ok _ _ _ Hl)). destruct lv as [|lv].
  - destruct (oh_node _ _ (ot_heap _ _ Hi) _ _ _ _ _ Hl Gl) as [_ (ks & kt & vs & vt & Hsh & _)].
    unfold is_BTreeInner. rewrite (ol_page _ _ _ _ _ Hsh).
    exists l, n, lo, hi, parent, vp. done.
  - destruct (descend_child G s 0 l n lo hi lv k Hi Hu Hl Gl Hk)
      as (pos & children & keys & c & nc & clo & chi & Hin & Hpage & Hlb & Hget & Hc & Gc & Hck & Huc & _).
    rewrite Hin. unfold attempt. rewrite (ST_bind_ok Hp).
    rewrite (ST_bind_ok (lift_ok Hlb)), Hpage, (ST_bind_ok (lift_ok Hget)).
    rewrite (ST_bind_ok (o_readUnlock_ok _ _ _ Hl)), (ST_bind_ok eq_refl). cbn beta iota.
    rewrite (ST_bind_ok (o_readLock_ok _ _ _ Hc Huc)). cbn beta iota.
    rewrite (ST_bind_ok eq_refl).
    apply (IH lv c nc clo chi); auto; [|lia]. unfold release_parent.
    by rewrite (ST_bind_ok (o_readUnlock_ok _ _ _ Hl)).
Qed.

(** A read-only operation returns what its leaf part says about the leaf that covers [k]. *)
Lemma read_loop_ok {A} (read : ONode -> outcome A) s k tries fuel :
  owell_formed s -> 0 <= k <= max_u64 -> (base.size (o_heap s) <= fuel)%nat ->
  exists G l n lo hi, oheap_inv G (o_heap s) /\ o_heap s !! l = Some n /\ G !! l = Some (lo, hi, 0%nat)
    /\ lo < k <= hi /\ forall a, read n = Ok a -> read_loop read (S tries) fuel k s = Ok (a, s).
Proof.
  intros (G & Hi & Hu) Hk Hf. destruct (ot_root _ _ Hi) as (r & top & Hr & Gr & Htop).
  pose proof (levels_pages G s r top Hi Hr Gr).
  destruct (oh_lookup _ _ _ _ _ _ (ot_heap _ _ Hi) Gr) as (n & Hn & _).
  destruct (descend_ok G s k fuel top r n (-1) max_u64 None 0) as (l & n' & lo & hi & parent & vp & Hrun & Hl & Gl & Hkl & Hp);
    auto; [lia|lia|].
  exists G, l, n', lo, hi. split; [by apply ot_heap|]. split_and!; try done; [lia|lia|].
  intros a Ha. cbn [read_loop].
  assert (Honce : read_once read fuel k s = Ok (Some a, s)); [|by rewrite (ST_bind_ok Honce)].
  unfold read_once, attempt.
  rewrite (ST_bind_ok (start_ok G s r top n Hi Hu Hr Gr Hn)).
  rewrite (ST_bind_ok Hrun). cbn beta iota.
  rewrite (ST_bind_ok (o_deref_ok _ _ _ Hl)), (ST_bind_ok (lift_ok Ha)).
  rewrite (ST_bind_ok Hp), (ST_bind_ok (o_readUnlock_ok _ _ _ Hl)).
  by rewrite (ST_bind_ok eq_refl).
Qed.

(** On an empty page the search reads the first, stale slot and stays out of range. *)
Lemma lowerBound_empty n kt k :
  page_keys n = kt -> count n = 0 -> kt <> [] -> exists pos, lowerBound n k = Ok pos /\ 0 <= pos.
Proof.
  intros Hk Hc Hne. unfold lowerBound. rewrite Hk, Hc. destruct kt as [|y kt]; [done|].
  cbn [lowerBound_loop Z.to_nat]. change (array_get (y :: kt) ((0 - 0) / 2 + 0)) with (Ok y). cbn [mbind outcome_bind].
  destruct (k <? y); [by exists 0|]. destruct (y <? k); [by exists 1|by exists 0].
Qed.

Lemma leaf_lookup_ok n ks kt vs vt k result :
  oleaf_shape n ks kt vs vt -> ksorted ks ->
  leaf_lookup n k result = Ok (match (list_to_map (zip ks vs) : gmap Z Z) !! k with
                               | Some v => (true, v) | None => (uninit_success, result) end).
Proof.
  intros Hsh Hso. pose proof Hsh as [Hp Hc Hv Hk1 Hk2]. pose proof maxEntries_bounds.
  unfold leaf_lookup. rewrite Hp. destruct ks as [|x0 ks0] eqn:Eks.
  { destruct (lowerBound_empty n kt k) as (pos & Hlb & Hpos).
    { by rewrite (oleaf_page_keys _ _ _ _ _ Hsh). }
    { done. }
    { intros ->. simpl in *. lia. }
    rewrite Hlb. cbn [mbind outcome_bind]. rewrite Hc. simpl (Z.of_nat _).
    rewrite (proj2 (Z.ltb_ge _ _)) by lia. done. }
  rewrite <- Eks in *. destruct (lowerBound_split n ks kt k (oleaf_page_keys _ _ _ _ _ Hsh) Hc Hso) as (l1 & l2 & Hks & Hlb & H1 & H2).
  { by rewrite Eks. }
  rewrite Hlb. cbn [mbind outcome_bind]. clear x0 ks0 Eks. subst ks. rewrite Hc, length_app in *.
  destruct (split_values vs l1 l2 Hv) as (v1 & v2 & -> & Hv1 & Hv2).
  assert (Hnodup := ksorted_NoDup _ Hso).
  destruct l2 as [|x l2].
  - rewrite (proj2 (Z.ltb_ge _ _)) by (simpl; lia). cbn [mbind outcome_bind]. rewrite not_elem_of_list_to_map_1; [done|].
    rewrite fst_zip by (rewrite !length_app; simpl in *; lia). rewrite app_nil_r. intros Hin.
    rewrite Forall_forall in H1. specialize (H1 _ Hin). lia.
  - rewrite (proj2 (Z.ltb_lt _ _)) by (simpl; lia).
    rewrite (array_get_lookup ((l1 ++ x :: l2) ++ kt) _ x) by (rewrite <- app_assoc; by apply list_lookup_middle).
    cbn [mbind outcome_bind]. destruct v2 as [|w v2]; [done|]. destruct (Z.eqb_spec x k) as [->|Hne].
    + rewrite <- Hv1. erewrite array_get_lookup by (rewrite <- app_assoc; by apply list_lookup_middle).
      cbn [mbind outcome_bind]. erewrite elem_of_list_to_map_1; [done| |].
      * rewrite fst_zip by (rewrite !length_app; simpl in *; lia). done.
      * rewrite zip_with_app by done. simpl. set_solver.
    + rewrite not_elem_of_list_to_map_1; [done|]. rewrite fst_zip by (rewrite !length_app; simpl in *; lia).
      apply ksorted_app in Hso as (_ & Hs2 & _). apply StronglySorted_cons in Hs2 as [Hx _].
      apply Forall_cons in H2 as [Hxk _]. rewrite Forall_forall in H1, Hx.
      intros [Hin|[->|Hin]%elem_of_cons]%elem_of_app; [|done|].
      * specialize (H1 _ Hin). lia.
      * specialize (Hx _ Hin). simpl in Hx. lia.
Qed.

Lemma scan_loop_ok payloads range : forall b a c cnt out,
  payloads = a ++ b ++ c -> 0 <= cnt <= range ->
  scan_loop (length b) payloads (Z.of_nat (length a)) range cnt out = Ok (out ++ take (Z.to_nat (range - cnt)) b).
Proof.
  induction b as [|x b IH]; intros a c cnt out Hp Hr; simpl.
  { by rewrite take_nil, app_nil_r. }
  destruct (Z.eqb_spec cnt range) as [->|Hne].
  { by rewrite Z.sub_diag, app_nil_r. }
  rewrite (array_get_lookup _ (length a) x) by (rewrite Hp; by apply list_lookup_middle). cbn [mbind outcome_bind].
  replace (Z.of_nat (length a) + 1) with (Z.of_nat (length (a ++ [x]))) by (rewrite length_app; simpl; lia).
  rewrite (IH (a ++ [x]) c (cnt + 1) (out ++ [x])); [|by rewrite Hp, <- app_assoc|lia].
  replace (Z.to_nat (range - cnt)) with (S (Z.to_nat (range - (cnt + 1)))) by lia. by rewrite <- app_assoc.
Qed.

(** The values of the keys from [k] on, in key order. *)
Definition values_from (k : Z) (es : list (Z * Z)) : list Z := (filter (fun e => k <= e.1) es).*2.

Lemma values_below k l v : Forall (fun x => x < k) l -> values_from k (zip l v) = [].
Proof.
  revert v. induction l as [|x l IH]; intros [|w v] Hf; simpl; try done.
  apply Forall_cons in Hf as [Hx Hf]. unfold values_from. rewrite filter_cons_False by (simpl; lia). by apply IH.
Qed.
Lemma values_above k l v : length v = length l -> Forall (fun x => k <= x) l -> values_from k (zip l v) = v.
Proof.
  revert v. induction l as [|x l IH]; intros [|w v] Hl Hf; simpl in *; try done.
  apply Forall_cons in Hf as [Hx Hf]. unfold values_from. rewrite filter_cons_True by (simpl; lia).
  simpl. f_equal. apply IH; [lia|done].
Qed.
Lemma values_from_split k l1 l2 v1 v2 :
  length v1 = length l1 -> length v2 = length l2 ->
  Forall (fun x => x < k) l1 -> Forall (fun x => k <= x) l2 ->
  values_from k (zip (l1 ++ l2) (v1 ++ v2)) = v2.
Proof.
  intros Hv1 Hv2 H1 H2. rewrite zip_with_app by done.
  assert (Happ : forall a b, values_from k (a ++ b) = values_from k a ++ values_from k b).
  { intros a b. unfold values_from. by rewrite filter_app, fmap_app. }
  by rewrite Happ, values_below, values_above.
Qed.

Lemma leaf_scan_ok n ks kt vs vt k range :
  oleaf_shape n ks kt vs vt -> ksorted ks -> 0 <= range ->
  leaf_scan n k range = Ok (take (Z.to_nat range) (values_from k (zip ks vs))).
Proof.
  intros Hsh Hso Hr. pose proof Hsh as [Hp Hc Hv Hk1 Hk2]. pose proof maxEntries_bounds.
  unfold leaf_scan. rewrite Hp. destruct ks as [|x0 ks0] eqn:Eks.
  { destruct (lowerBound_empty n kt k) as (pos & Hlb & Hpos).
    { by rewrite (oleaf_page_keys _ _ _ _ _ Hsh). }
    { done. }
    { intros ->. simpl in *. lia. }
    rewrite Hlb. cbn [mbind outcome_bind]. rewrite Hc.
    replace (Z.to_nat (Z.of_nat (length []) - pos)) with 0%nat by (simpl; lia). change (values_from k (zip [] vs)) with (@nil Z).
    by rewrite take_nil. }
  rewrite <- Eks in *. destruct (lowerBound_split n ks kt k (oleaf_page_keys _ _ _ _ _ Hsh) Hc Hso) as (l1 & l2 & Hks & Hlb & H1 & H2).
  { by rewrite Eks. }
  rewrite Hlb. cbn [mbind outcome_bind]. clear x0 ks0 Eks. subst ks. rewrite length_app in Hv.
  destruct (split_values vs l1 l2 Hv) as (v1 & v2 & -> & Hv1 & Hv2).
  rewrite values_from_split by done. rewrite Hc, length_app.
  replace (Z.to_nat (Z.of_nat (length l1 + length l2) - Z.of_nat (length l1))) with (length v2) by lia.
  rewrite <- Hv1, (scan_loop_ok _ range v2 v1 vt 0 []) by (by rewrite ?app_assoc || lia).
  by rewrite Z.sub_0_r.
Qed.

(** ** What the operations guarantee *)

(** The branch-free search [lowerBoundBF] and the early-exit search [lowerBound]
    of a page return the same position on every non-empty page with sorted keys. *)
Theorem lowerBound_agree n ks tl k :
  page_keys n = ks ++ tl -> count n = Z.of_nat (length ks) -> ksorted ks -> ks <> [] ->
  lowerBoundBF n k = lowerBound n k.
Proof.
  intros Hk Hc Hs Hne. destruct (lowerBound_spec n ks tl k Hk Hc Hs Hne) as (p & -> & Hp & Hb & Ha).
  destruct (lowerBoundBF_spec n ks tl k Hk Hc Hs Hne) as (q & -> & Hq & Hbq & Haq).
  do 2 f_equal. by eapply position_unique.
Qed.

Lemma BTree_insert_refines s k v tries fuel :
  owell_formed s -> 0 <= k <= max_u64 ->
  64 * Z.of_nat (base.size (o_heap s)) < Z.of_nat tries ->
  65 * Z.of_nat (base.size (o_heap s)) < Z.of_nat fuel ->
  exists s', BTree_insert tries fuel k v s = Ok (tt, s') /\ owell_formed s'
    /\ omap s' = <[k := v]> (omap s).
Proof.
  intros (G & Hi & Hu) Hk Ht Hf. destruct (ot_root _ _ Hi) as (r & top & Hr & Gr & Htop).
  pose proof (levels_pages G s r top Hi Hr Gr). pose proof (weight_bound G (o_heap s) k (ot_heap _ _ Hi)).
  apply (BTree_insert_terminates k v fuel Hk tries G s top r); auto; lia.
Qed.
(** C2: [BTree::insert] on a tree nobody else works on terminates: it restarts only
    after it has split a full page, at most 64 times per page of the tree.  It leaves
    every page unlocked, keeps the tree a well-formed B+-tree and binds the key to the
    value, whether the key was there before or not. *)
Theorem BTree_insert_correct s k v tries fuel :
  owell_formed s -> 0 <= k <= max_u64 ->
  64 * Z.of_nat (base.size (o_heap s)) < Z.of_nat tries ->
  65 * Z.of_nat (base.size (o_heap s)) < Z.of_nat fuel ->
  exists s', BTree_insert tries fuel k v s = Ok (tt, s') /\ owell_formed s'
    /\ omap s' = <[k := v]> (omap s).
Proof. apply BTree_insert_refines. Qed.

Lemma BTree_lookup_refines s k result tries fuel :
  owell_formed s -> 0 <= k <= max_u64 -> (1 <= tries)%nat -> (base.size (o_heap s) <= fuel)%nat ->
  BTree_lookup tries fuel k result s
  = Ok (match omap s !! k with Some v => (true, v) | None => (uninit_success, result) end, s).
Proof.
  intros Hw Hk Ht Hf. destruct tries as [|tries]; [lia|].
  destruct (read_loop_ok (fun n => leaf_lookup n k result) s k tries fuel Hw Hk Hf)
    as (G & l & n & lo & hi & Hh & Hl & Gl & Hkl & Hread).
  destruct (oh_node _ _ Hh _ _ _ _ _ Hl Gl) as [_ (ks & kt & vs & vt & Hsh & Hso & Hall)].
  unfold BTree_lookup. rewrite (Hread _ (leaf_lookup_ok n ks kt vs vt k result Hsh Hso)). do 3 f_equal.
  assert (Heq : (list_to_map (zip ks vs) : gmap Z Z) !! k = omap s !! k); [|by rewrite Heq].
  apply option_eq. intros v. unfold omap. rewrite (stored_map_spec _ (ostored_functional _ _ Hh)).
  rewrite <- elem_of_list_to_map by (rewrite fst_zip by (destruct Hsh; lia); by apply ksorted_NoDup).
  rewrite <- (oleaf_entries_shape _ _ _ _ _ Hsh). split; [intros Hin; by exists l, n|].
  intros (l' & n' & Hl' & Hin). destruct (ostored_inv _ _ _ _ _ _ Hh Hl' Hin) as (lo' & hi' & Gl' & Hk' & _).
  assert (l' = l) as -> by (by eapply (oh_unique G (o_heap s) l' l)). by simplify_eq.
Qed.
(** C25: [BTree::lookup] returns [true] and the value for a key that is there.  For a
    key that is not there it leaves [result] alone and returns the uninitialised
    variable [success], whatever that holds. *)
Theorem BTree_lookup_correct s k result tries fuel :
  owell_formed s -> 0 <= k <= max_u64 -> (1 <= tries)%nat -> (base.size (o_heap s) <= fuel)%nat ->
  BTree_lookup tries fuel k result s
  = Ok (match omap s !! k with Some v => (true, v) | None => (uninit_success, result) end, s).
Proof. apply BTree_lookup_refines. Qed.

(** [BTree::scan] returns the values of the stored keys from [k] on, in key order and
    at most [range] of them, of the one leaf that covers [k]: it never moves on to the
    next leaf. *)
Theorem BTree_scan_correct s k range tries fuel :
  owell_formed s -> 0 <= k <= max_u64 -> 0 <= range -> (1 <= tries)%nat -> (base.size (o_heap s) <= fuel)%nat ->
  exists l n, o_heap s !! l = Some n /\ (forall v, omap s !! k = Some v -> (k, v) ∈ oleaf_entries n)
    /\ ksorted (oleaf_entries n).*1
    /\ BTree_scan tries fuel k range s = Ok (take (Z.to_nat range) (values_from k (oleaf_entries n)), s).
Proof.
  intros Hw Hk Hr Ht Hf. destruct tries as [|tries]; [lia|].
  destruct (read_loop_ok (fun n => leaf_scan n k range) s k tries fuel Hw Hk Hf)
    as (G & l & n & lo & hi & Hh & Hl & Gl & Hkl & Hread).
  destruct (oh_node _ _ Hh _ _ _ _ _ Hl Gl) as [_ (ks & kt & vs & vt & Hsh & Hso & Hall)].
  exists l, n. split; [done|]. split.
  { intros v (l' & n' & Hl' & Hin)%(stored_map_spec _ (ostored_functional _ _ Hh)).
    destruct (ostored_inv _ _ _ _ _ _ Hh Hl' Hin) as (lo' & hi' & Gl' & Hk' & _).
    assert (l' = l) as -> by (by eapply (oh_unique G (o_heap s) l' l)). by simplify_eq. }
  rewrite (oleaf_entries_shape _ _ _ _ _ Hsh), fst_zip by (destruct Hsh; lia). split; [done|].
  apply Hread. by eapply leaf_scan_ok.
Qed.

(** ** The empty tree *)
Lemma new_btree_well_formed : owell_formed new_btree.
Proof.
  exists {[ 1%positive := (-1, max_u64, 0%nat) ]}. split; [split|]; simpl.
  - split.
    + intros l. destruct (decide (l = 1%positive)) as [->|Hne].
      * rewrite !lookup_singleton_eq. split; eauto.
      * rewrite !lookup_singleton_ne by done. done.
    + intros l n lo hi lv Hn Hl. apply lookup_singleton_Some in Hn as [<- <-].
      rewrite lookup_singleton_eq in Hl. simplify_eq. split; [unfold max_u64; lia|].
      pose proof maxEntries_bounds. exists [], (olc_uninit_key 1 <$> List.seq 0 (Z.to_nat maxEntries)),
        [], (olc_uninit_payload 1 <$> List.seq 0 (Z.to_nat maxEntries)). split; [|by split; constructor].
      split; try reflexivity; rewrite app_nil_l, length_fmap, length_seq; lia.
    + intros l1 l2 lo1 hi1 lo2 hi2 lv Hne H1 H2. apply lookup_singleton_Some in H1 as [<- _], H2 as [<- _]. done.
  - intros l Hl. apply lookup_singleton_ne. lia.
  - exists 1%positive, 0%nat. split; [done|]. split; [apply lookup_singleton_eq|].
    intros l lo hi lv Hl. apply lookup_singleton_Some in Hl as [_ ?]. simplify_eq. lia.
  - intros l n Hl. simpl in Hl. apply lookup_singleton_Some in Hl as [<- <-]. apply unlocked_init.
Qed.

Lemma new_btree_empty : omap new_btree = ∅.
Proof.
  unfold omap, stored_map, new_btree. simpl. rewrite map_fold_singleton. simpl. apply map_empty. intros k.
  done.
Qed.

End OlcFacts.

(** ** Concrete runs *)
Module OlcExamples.
(** Pages of five entries. *)
#[local] Instance five_entries : OlcPlatform := {|
  sizeof_NodeBase := 944; olc_uninit_key := fun _ _ => 0; olc_uninit_payload := fun _ _ => 0;
  olc_uninit_child := fun _ _ => None; uninit_success := true |}.
#[local] Instance five_entries_ok : OlcPlatformOk.
Proof. split; done. Qed.

Definition olc_insert_now (kv : Z * Z) (s : OlcState) : OlcState :=
  match BTree_insert (64 * base.size (o_heap s) + 1) (65 * base.size (o_heap s) + 1) kv.1 kv.2 s with
  | Ok (_, s') => s'
  | Fault _ => s
  end.
Definition olc_filled (kvs : list (Z * Z)) : OlcState := fold_left (fun s kv => olc_insert_now kv s) kvs new_btree.

Lemma olc_insert_now_well_formed s kv :
  owell_formed s -> 0 <= kv.1 <= max_u64 -> owell_formed (olc_insert_now kv s).
Proof.
  intros (G & Hi & Hu) Hk. destruct (ot_root _ _ Hi) as (r & top & Hr & Gr & Htop).
  pose proof (levels_pages G s r top Hi Hr Gr). pose proof (weight_bound G (o_heap s) kv.1 (ot_heap _ _ Hi)).
  unfold olc_insert_now.
  edestruct (BTree_insert_terminates kv.1 kv.2 (65 * base.size (o_heap s) + 1) Hk (64 * base.size (o_heap s) + 1) G s top r)
    as (s' & -> & Hw & _); auto; lia.
Qed.
Lemma olc_filled_well_formed kvs : Forall (fun kv => 0 <= kv.1 <= max_u64) kvs -> owell_formed (olc_filled kvs).
Proof.
  unfold olc_filled. assert (Hgen : forall s, owell_formed s -> Forall (fun kv => 0 <= kv.1 <= max_u64) kvs ->
    owell_formed (fold_left (fun s kv => olc_insert_now kv s) kvs s)).
  { induction kvs as [|kv kvs IH]; intros s Hs Hall; [done|]. apply Forall_cons in Hall as [Hk Hall].
    simpl. apply IH; [|done]. by apply olc_insert_now_well_formed. }
  intros Hall. apply Hgen; [apply new_btree_well_formed|done].
Qed.

(** Three levels: the next insertion has to split a leaf and restart. *)
Definition grown_tree : OlcState := olc_filled ((fun i => (Z.of_nat i * 10, Z.of_nat i)) <$> List.seq 1 26).
Lemma grown_tree_ok : owell_formed grown_tree.
Proof. apply olc_filled_well_formed. repeat constructor; simpl; unfold max_u64; lia. Qed.

Lemma lowerBound_agree_witness :
  let n := mkONode 4 3 (BTreeLeaf [10; 20; 30; 0; 0] [1; 2; 3; 0; 0]) in
  lowerBoundBF n 25 = lowerBound n 25 /\ lowerBound n 25 = Ok 2.
Proof.
  split; [|reflexivity].
  apply (lowerBound_agree _ [10; 20; 30] [0; 0] 25); [reflexivity|reflexivity| |discriminate].
  repeat constructor.
Defined.

Lemma BTree_insert_correct_witness :
  exists s', BTree_insert 2000 2000 275 99 grown_tree = Ok (tt, s') /\ owell_formed s'
    /\ omap s' = <[275 := 99]> (omap grown_tree).
Proof.
  apply (BTree_insert_correct grown_tree 275 99 2000 2000 grown_tree_ok); [unfold max_u64; lia|..];
    apply Z.ltb_lt; vm_compute; reflexivity.
Defined.

Lemma BTree_lookup_correct_witness :
  BTree_lookup 1 50 130 0 grown_tree
    = Ok (match omap grown_tree !! 130 with Some v => (true, v) | None => (uninit_success, 0) end, grown_tree)
  /\ BTree_lookup 1 50 135 7 grown_tree
    = Ok (match omap grown_tree !! 135 with Some v => (true, v) | None => (uninit_success, 7) end, grown_tree).
Proof.
  split; apply (BTree_lookup_correct grown_tree _ _ 1 50 grown_tree_ok); try (unfold max_u64; lia);
    apply Nat.leb_le; vm_compute; reflexivity.
Defined.

Lemma BTree_scan_correct_witness :
  exists l n, o_heap grown_tree !! l = Some n /\ (forall v, omap grown_tree !! 130 = Some v -> (130, v) ∈ oleaf_entries n)
    /\ ksorted (oleaf_entries n).*1
    /\ BTree_scan 1 50 130 3 grown_tree = Ok (take (Z.to_nat 3) (values_from 130 (oleaf_entries n)), grown_tree).
Proof.
  apply (BTree_scan_correct grown_tree 130 3 1 50 grown_tree_ok); try (unfold max_u64; lia).
  apply Nat.leb_le; vm_compute; reflexivity.
Defined.

End OlcExamples.
