(* ===== verification/Queues.v ===== *)
(** * Intrusive queues

    Models [src/src/util/queue_item.h], [queue.h], [mpsc_queue.h] and [mpsc_queue.cpp]:
    the items are objects on a heap that hold the link to the next one.  [Queue] is the
    sequential queue, [MPSCQueue] the one that any number of producers share with one
    consumer.  Both are shown to be first-in-first-out queues; for [MPSCQueue] also
    under every interleaving of the atomic accesses of its producers with its consumer. *)

From S2P Require Import Prelude Node.

(** ** Items and links *)

(** The [_next] field of every item. *)
Abbreviation items := (gmap loc ptr).

Definition item_next (p : ptr) (h : items) : outcome ptr :=
  match p with
  | Some l => match h !! l with Some q => Ok q | None => Fault NullDeref end
  | None => Fault NullDeref
  end.
Definition set_item_next (p : ptr) (q : ptr) (h : items) : outcome items :=
  match p with
  | Some l => match h !! l with Some _ => Ok (<[l := q]> h) | None => Fault NullDeref end
  | None => Fault NullDeref
  end.

(** [chain h p ns]: following links from [p] visits [ns] and ends at null. *)
Fixpoint chain (h : items) (p : ptr) (ns : list loc) : Prop :=
  match ns with
  | [] => p = None
  | x :: ns => p = Some x /\ exists q, h !! x = Some q /\ chain h q ns
  end.

(** ** [util::Queue] *)
Record Queue : Type := mkQueue { q_items : items; q_head : ptr; q_tail : ptr }.

Definition queue_push_back (item : ptr) (s : Queue) : outcome Queue :=
  h ← set_item_next item None (q_items s);
  match q_tail s with
  | Some _ => h ← set_item_next (q_tail s) item h; Ok (mkQueue h (q_head s) item)
  | None => Ok (mkQueue h item item)
  end.
Definition queue_begin (s : Queue) : ptr := q_head s.
Definition queue_end (s : Queue) : ptr := q_tail s.
Definition queue_empty (s : Queue) : bool := bool_decide (q_head s = None).
Definition queue_pop_front (s : Queue) : outcome (ptr * Queue) :=
  match q_head s with
  | None => Ok (None, s)
  | Some _ =>
      let head := q_head s in
      new_head ← item_next head (q_items s);
      Ok (head, mkQueue (q_items s) new_head (match new_head with None => None | _ => q_tail s end))
  end.

(** ** [util::MPSCQueue] *)
Record MPSCQueue : Type := mkMpsc { m_items : items; m_head : ptr; m_tail : ptr; m_end : ptr }.

(** A queue whose [_stub] is at [stub]. *)
Definition mpsc_init (h : items) (stub : loc) : MPSCQueue :=
  mkMpsc (<[stub := None]> h) (Some stub) (Some stub) (Some stub).

(** The exchange of [_head], the two stores around it. *)
Definition exchange_head (item : ptr) (s : MPSCQueue) : ptr * MPSCQueue :=
  (m_head s, mkMpsc (m_items s) item (m_tail s) (m_end s)).
Definition mpsc_set_next (p q : ptr) (s : MPSCQueue) : outcome MPSCQueue :=
  h ← set_item_next p q (m_items s); Ok (mkMpsc h (m_head s) (m_tail s) (m_end s)).
Definition mpsc_push_back (item : ptr) (s : MPSCQueue) : outcome MPSCQueue :=
  s ← mpsc_set_next item None s;
  let '(prev, s) := exchange_head item s in
  mpsc_set_next prev item s.
Definition mpsc_push_range (first last : ptr) (s : MPSCQueue) : outcome MPSCQueue :=
  s ← mpsc_set_next last None s;
  let '(old_head, s) := exchange_head last s in
  mpsc_set_next old_head first s.
Definition mpsc_empty (s : MPSCQueue) : outcome bool :=
  n ← item_next (m_end s) (m_items s);
  Ok (bool_decide (m_tail s = m_end s) && bool_decide (n = None)).
Definition set_tail (p : ptr) (s : MPSCQueue) : MPSCQueue := mkMpsc (m_items s) (m_head s) p (m_end s).

Definition mpsc_pop_front (s : MPSCQueue) : outcome (ptr * MPSCQueue) :=
  let tail := m_tail s in
  next ← item_next tail (m_items s);
  (* the part after the stub has been stepped over *)
  let rest (tail next : ptr) (s : MPSCQueue) : outcome (ptr * MPSCQueue) :=
    match next with
    | Some _ => Ok (tail, set_tail next s)
    | None =>
        if decide (tail <> m_head s) then Ok (None, s)
        else
          s ← mpsc_push_back (m_end s) s;
          next ← item_next tail (m_items s);
          match next with
          | Some _ => Ok (tail, set_tail next s)
          | None => Ok (None, s)
          end
    end in
  if decide (tail = m_end s) then
    match next with
    | None => Ok (None, s)
    | Some _ => next' ← item_next next (m_items s); rest next next' (set_tail next s)
    end
  else rest tail next s.

(** ** Facts about chains *)
Lemma item_next_ok l h q : h !! l = Some q -> item_next (Some l) h = Ok q.
Proof. intros H. unfold item_next. by rewrite H. Qed.
Lemma chain_functional h p ns1 ns2 : chain h p ns1 -> chain h p ns2 -> ns1 = ns2.
Proof.
  revert p ns2. induction ns1 as [|x ns1 IH]; intros p ns2 H1 H2.
  - simpl in H1. subst. destruct ns2; [done|]. by destruct H2.
  - destruct H1 as (-> & q & Hq & H1). destruct ns2 as [|y ns2]; [done|].
    destruct H2 as ([= <-] & q' & Hq' & H2). simplify_eq. f_equal. by eapply IH.
Qed.
Lemma chain_insert h p ns x q : x ∉ ns -> chain h p ns -> chain (<[x := q]> h) p ns.
Proof.
  revert p. induction ns as [|y ns IH]; intros p Hx; [done|]. intros (-> & r & Hr & Hc).
  split; [done|]. exists r. rewrite lookup_insert_ne by set_solver. split; [done|]. apply IH; set_solver.
Qed.
Lemma chain_elem h p ns x : chain h p ns -> x ∈ ns -> is_Some (h !! x).
Proof.
  revert p. induction ns as [|y ns IH]; intros p; [set_solver|]. intros (-> & q & Hq & Hc).
  intros [->|Hx]%elem_of_cons; eauto.
Qed.
(** Linking [ys] behind the last item of [xs ++ [a]]. *)
Lemma chain_append h p xs a b ys :
  chain h p (xs ++ [a]) -> a ∉ xs -> a ∉ b :: ys -> (forall x, x ∈ xs -> x ∉ b :: ys) ->
  chain h (Some b) (b :: ys) -> chain (<[a := Some b]> h) p (xs ++ a :: b :: ys).
Proof.
  revert p. induction xs as [|x xs IH]; intros p.
  - intros (-> & q & Hq & ->) _ Ha _ Hb. split; [done|]. exists (Some b). split; [apply lookup_insert_eq|].
    by apply chain_insert.
  - intros (-> & q & Hq & Hc) Hax Ha Hd Hb. split; [done|]. exists q.
    rewrite lookup_insert_ne by set_solver. split; [done|].
    apply IH; [done|set_solver|done| |done]. intros y Hy. apply Hd. set_solver.
Qed.

(** ** [Queue] is a list *)
Definition queue_holds (s : Queue) (l : list loc) : Prop :=
  chain (q_items s) (q_head s) l /\ NoDup l /\ q_tail s = last l.

Lemma queue_push_back_ok s l x :
  queue_holds s l -> is_Some (q_items s !! x) -> x ∉ l ->
  exists s', queue_push_back (Some x) s = Ok s' /\ queue_holds s' (l ++ [x])
    /\ dom (q_items s') = dom (q_items s).
Proof.
  intros (Hc & Hnd & Ht) [q Hx] Hn. unfold queue_push_back, set_item_next. rewrite Hx. cbn [mbind outcome_bind].
  rewrite Ht. destruct l as [|a l _] using rev_ind.
  { simpl. eexists. split; [reflexivity|]. split; [|simpl; rewrite dom_insert_L; apply elem_of_dom_2 in Hx; set_solver].
    split; [|split; [apply NoDup_singleton|done]]. split; [done|]. exists None. split; [apply lookup_insert_eq|done]. }
  rewrite last_snoc. simpl. apply NoDup_app in Hnd as (Hl & Hd & _).
  assert (Hax : a <> x) by set_solver.
  destruct (chain_elem _ _ _ a Hc) as [qa Ha]; [set_solver|].
  rewrite lookup_insert_ne by done. rewrite Ha. eexists. split; [reflexivity|]. split.
  - split; simpl; [|split; [|by rewrite last_snoc]].
    + rewrite <- app_assoc. simpl. apply chain_append.
      * by apply chain_insert.
      * intros Hin. apply (Hd a Hin). set_solver.
      * set_solver.
      * intros y Hy. set_solver.
      * split; [done|]. exists None. split; [apply lookup_insert_eq|done].
    + apply NoDup_app. split; [|split; [set_solver|apply NoDup_singleton]].
      apply NoDup_app. split; [done|]. split; [done|apply NoDup_singleton].
  - simpl. rewrite !dom_insert_L. apply elem_of_dom_2 in Hx, Ha. set_solver.
Qed.

Lemma queue_pop_front_ok s l :
  queue_holds s l ->
  exists s', queue_pop_front s = Ok (head l, s') /\ queue_holds s' (tail l) /\ q_items s' = q_items s.
Proof.
  intros (Hc & Hnd & Ht). unfold queue_pop_front. destruct l as [|x l].
  { simpl in Hc. rewrite Hc. eexists. split; [reflexivity|]. split; [|done]. by split. }
  destruct Hc as (Hh & q & Hq & Hc). rewrite Hh. simpl. rewrite Hq. cbn [mbind outcome_bind].
  eexists. split; [reflexivity|]. split; [|done]. apply NoDup_cons in Hnd as [_ Hnd].
  split; [done|]. split; [done|]. simpl. destruct l as [|y l]; [by rewrite Hc|].
  destruct Hc as (-> & _). by rewrite Ht.
Qed.

(** [util::Queue] is a first-in-first-out queue: [push_back] of a fresh item appends
    it and [pop_front] takes the oldest one, null when there is none. *)
Theorem queue_fifo s l x :
  queue_holds s l -> is_Some (q_items s !! x) -> x ∉ l ->
  (exists s', queue_push_back (Some x) s = Ok s' /\ queue_holds s' (l ++ [x]))
  /\ (exists s', queue_pop_front s = Ok (head l, s') /\ queue_holds s' (tail l)).
Proof.
  intros Hs Hx Hn. split.
  - destruct (queue_push_back_ok s l x Hs Hx Hn) as (s' & ? & ? & _). eauto.
  - destruct (queue_pop_front_ok s l Hs) as (s' & ? & ? & _). eauto.
Qed.

(** ** [MPSCQueue] run by one thread is a list *)

(** [ns] are the items from [_tail] to [_head], the stub possibly among them. *)
Record mpsc_links (s : MPSCQueue) (stub : loc) (ns : list loc) : Prop := {
  ml_end : m_end s = Some stub;
  ml_stub : is_Some (m_items s !! stub);
  ml_chain : chain (m_items s) (m_tail s) ns;
  ml_nodup : NoDup ns;
  ml_head : m_head s = last ns;
  ml_some : ns <> [] }.
(** The items it holds. *)
Definition without (stub : loc) (ns : list loc) : list loc := filter (fun x => x <> stub) ns.

Lemma without_stub stub ns : without stub (stub :: ns) = without stub ns.
Proof. unfold without. by rewrite filter_cons_False by naive_solver. Qed.
Lemma without_other stub x ns : x <> stub -> without stub (x :: ns) = x :: without stub ns.
Proof. intros. unfold without. by rewrite filter_cons_True. Qed.

Lemma mpsc_push_range_links s stub ns b ms a :
  mpsc_links s stub ns -> chain (m_items s) (Some b) (b :: ms) -> NoDup (b :: ms) ->
  (forall x, x ∈ ns -> x ∉ b :: ms) -> last (b :: ms) = Some a ->
  exists s', mpsc_push_range (Some b) (Some a) s = Ok s' /\ mpsc_links s' stub (ns ++ b :: ms)
    /\ m_tail s' = m_tail s /\ dom (m_items s') = dom (m_items s).
Proof.
  intros [He Hst Hc Hnd Hh Hne] Hb Hndb Hd Hlast.
  destruct (chain_elem _ _ _ a Hb) as [qa Ha]; [by apply last_Some_elem_of|].
  assert (Hba : chain (<[a := None]> (m_items s)) (Some b) (b :: ms)).
  { destruct (exists_last (l := b :: ms)) as (pre & a' & Hpre); [done|]. rewrite Hpre in *.
    rewrite last_snoc in Hlast. simplify_eq. apply NoDup_app in Hndb as (_ & Hda & _).
    assert (Hn : a ∉ pre) by (intros Hin; apply (Hda a Hin); set_solver).
    clear -Hb Hn. revert Hb. generalize (Some b) as p. induction pre as [|x pre IH]; intros p; simpl.
    - intros (-> & q & Hq & ->). split; [done|]. exists None. split; [apply lookup_insert_eq|done].
    - intros (-> & q & Hq & Hc). split; [done|]. exists q. rewrite lookup_insert_ne by set_solver.
      split; [done|]. apply IH; [set_solver|done]. }
  destruct (exists_last Hne) as (pre & z & ->). rewrite last_snoc in Hh.
  assert (Haz : a <> z). { intros ->. apply (Hd z); [set_solver|]. by apply last_Some_elem_of. }
  destruct (chain_elem _ _ _ z Hc) as [qz Hz]; [set_solver|].
  unfold mpsc_push_range, mpsc_set_next, exchange_head, set_item_next. rewrite Ha. cbn [mbind outcome_bind m_items m_head m_tail m_end].
  rewrite Hh, lookup_insert_ne, Hz by done. cbn [mbind outcome_bind].
  apply NoDup_app in Hnd as (Hndp & Hdp & _).
  eexists. split; [reflexivity|]. split; [split; simpl|split; [done|]].
  - done.
  - destruct Hst as [q Hq]. destruct (decide (stub = z)) as [->|]; [rewrite lookup_insert_eq; eauto|].
    rewrite lookup_insert_ne by done. destruct (decide (stub = a)) as [->|]; [rewrite lookup_insert_eq; eauto|].
    rewrite lookup_insert_ne by done. eauto.
  - rewrite <- app_assoc. apply chain_append.
    + apply chain_insert; [|done]. intros Hin. apply (Hd a Hin). by apply last_Some_elem_of.
    + intros Hin. apply (Hdp z Hin). set_solver.
    + apply Hd. set_solver.
    + intros x Hx. apply Hd. set_solver.
    + done.
  - rewrite <- app_assoc. apply NoDup_app. split; [done|]. split.
    + intros x Hx [->|Hin]%elem_of_cons; [apply (Hdp z Hx); set_solver|]. apply (Hd x); [set_solver|done].
    + apply NoDup_cons. split; [apply Hd; set_solver|done].
  - symmetry. apply last_app_Some. by left.
  - by destruct pre.
  - simpl. rewrite !dom_insert_L. apply elem_of_dom_2 in Ha, Hz. set_solver.
Qed.

Lemma mpsc_push_back_links s stub ns x :
  mpsc_links s stub ns -> is_Some (m_items s !! x) -> x ∉ ns ->
  exists s', mpsc_push_back (Some x) s = Ok s' /\ mpsc_links s' stub (ns ++ [x])
    /\ m_tail s' = m_tail s /\ dom (m_items s') = dom (m_items s).
Proof.
  intros Hl [q Hx] Hn.
  set (s0 := mkMpsc (<[x := None]> (m_items s)) (m_head s) (m_tail s) (m_end s)).
  destruct (mpsc_push_range_links s0 stub ns x [] x) as (s' & Hrun & Hl' & Ht' & Hd').
  - destruct Hl as [He [qs Hst] Hc Hnd Hh Hne]. split; simpl; auto.
    + destruct (decide (stub = x)) as [->|]; [rewrite lookup_insert_eq|rewrite lookup_insert_ne by done]; eauto.
    + by apply chain_insert.
  - simpl. split; [done|]. exists None. split; [apply lookup_insert_eq|done].
  - apply NoDup_singleton.
  - intros y Hy. set_solver.
  - done.
  - exists s'. split; [|split; [done|split; [done|]]].
    + revert Hrun. unfold mpsc_push_range, mpsc_push_back, mpsc_set_next, set_item_next. simpl.
      rewrite lookup_insert_eq, Hx. cbn [mbind outcome_bind m_items]. by rewrite insert_insert_eq.
    + rewrite Hd'. simpl. rewrite dom_insert_L. apply elem_of_dom_2 in Hx. set_solver.
Qed.

(** Popping once the stub is out of the way. *)
Lemma mpsc_pop_rest s stub x ns :
  mpsc_links s stub (x :: ns) -> x <> stub -> stub ∉ x :: ns \/ ns <> [] ->
  exists s' ms, (match head ns with
    | Some _ => Ok (Some x, set_tail (head ns) s)
    | None =>
        if decide (Some x <> m_head s) then Ok (None, s)
        else
          s ← mpsc_push_back (m_end s) s;
          next ← item_next (Some x) (m_items s);
          match next with Some _ => Ok (Some x, set_tail next s) | None => Ok (None, s) end
    end) = Ok (Some x, s') /\ mpsc_links s' stub ms /\ without stub ms = without stub ns
    /\ dom (m_items s') = dom (m_items s).
Proof.
  intros Hl Hx Hst. pose proof Hl as [He Hs Hc Hnd Hh Hne]. destruct ns as [|y ns]; simpl.
  - rewrite decide_False by (rewrite Hh; naive_solver). rewrite He.
    destruct (mpsc_push_back_links s stub [x] stub Hl Hs) as (s1 & -> & Hl1 & Ht1 & Hd1).
    { destruct Hst; [done|done]. }
    cbn [mbind outcome_bind]. pose proof Hl1 as [He1 Hs1 (Hx1 & q & Hq & Hc1) Hnd1 Hh1 _].
    destruct Hc1 as (-> & Hc1). rewrite Hq. cbn [mbind outcome_bind].
    eexists _, [stub]. split; [reflexivity|]. split; [|split; [|done]].
    + split; simpl; try done. apply NoDup_singleton.
    + unfold without. by rewrite filter_cons_False by naive_solver.
  - eexists _, (y :: ns). split; [reflexivity|]. split; [|done].
    destruct Hc as (_ & q & Hq & Hc). apply NoDup_cons in Hnd as [_ Hnd]. split; simpl; auto.
    destruct Hc as (-> & Hc). by split.
Qed.

Lemma mpsc_pop_front_links s stub ns :
  mpsc_links s stub ns ->
  exists s' ms, mpsc_pop_front s = Ok (head (without stub ns), s') /\ mpsc_links s' stub ms
    /\ without stub ms = tail (without stub ns) /\ dom (m_items s') = dom (m_items s).
Proof.
  intros Hl. pose proof Hl as [He Hs Hc Hnd Hh Hne]. destruct ns as [|x ns]; [done|].
  destruct Hc as (Ht & q & Hq & Hc). unfold mpsc_pop_front. cbv zeta. rewrite Ht, He, (item_next_ok _ _ _ Hq).
  cbn [mbind outcome_bind]. assert (Hqh : q = head ns) by (destruct ns; simpl in Hc; [done|naive_solver]).
  destruct (decide (Some x = Some stub)) as [[= ->]|Hx].
  - rewrite without_stub. destruct ns as [|y ns].
    + subst q. exists s, [stub]. split; [done|]. split; [done|]. split; [|done]. by rewrite without_stub.
    + destruct Hc as (-> & q' & Hq' & Hc). rewrite (item_next_ok _ _ _ Hq'). cbn [mbind outcome_bind].
      apply NoDup_cons in Hnd as [Hn Hnd].
      assert (Hl' : mpsc_links (set_tail (Some y) s) stub (y :: ns)).
      { split; simpl; auto. split; [done|eauto]. }
      assert (Hq'h : q' = head ns) by (destruct ns; simpl in Hc; [done|naive_solver]). subst q'.
      destruct (mpsc_pop_rest _ stub y ns Hl') as (s' & ms & Hrun & Hl2 & Hms & Hd); [set_solver|by left|].
      exists s', ms. rewrite without_other by set_solver. split; [exact Hrun|]. done.
  - destruct (mpsc_pop_rest s stub x ns Hl) as (s' & ms & Hrun & Hl2 & Hms & Hd); [congruence| |].
    { destruct ns as [|y ns]; [left; set_solver|by right]. }
    exists s', ms. rewrite without_other by congruence. rewrite Hqh. rewrite He in Hrun. split; [exact Hrun|]. done.
Qed.

(** Run by one thread, [MPSCQueue] is a first-in-first-out queue as well: pushing an
    item (or a linked range) appends it, [pop_front] takes the oldest item and returns
    null exactly when there is none.  The stub never comes out. *)
Theorem mpsc_fifo s stub ns x :
  mpsc_links s stub ns -> is_Some (m_items s !! x) -> x ∉ ns -> x <> stub ->
  (exists s' ms, mpsc_push_back (Some x) s = Ok s' /\ mpsc_links s' stub ms
     /\ without stub ms = without stub ns ++ [x])
  /\ (exists s' ms, mpsc_pop_front s = Ok (head (without stub ns), s') /\ mpsc_links s' stub ms
     /\ without stub ms = tail (without stub ns)).
Proof.
  intros Hl Hx Hn Hne. split.
  - destruct (mpsc_push_back_links s stub ns x Hl Hx Hn) as (s' & Hrun & Hl' & _).
    exists s', (ns ++ [x]). split; [done|]. split; [done|]. unfold without. rewrite filter_app.
    f_equal. by rewrite filter_cons_True.
  - destruct (mpsc_pop_front_links s stub ns Hl) as (s' & ms & ? & ? & ? & _). eauto.
Qed.

(** ** Any number of producers, one consumer *)

(** A producer is between its exchange and the store that links the previous item to
    its own; the consumer is somewhere in [pop_front]. *)
Inductive consumer : Type :=
  | CIdle
  | CStart (tail : loc)                (* [_tail] read, [tail->next()] not yet *)
  | CSkip (next : loc)                 (* stepped over the stub, [next->next()] not yet read *)
  | CLast (tail : loc)                 (* [next] was null, [_head] not yet read *)
  | CPush (tail : loc)                 (* [tail == head], about to push the stub *)
  | CLink (tail prev : loc)            (* the stub is exchanged in, not yet linked *)
  | CRetry (tail : loc)                (* the stub is linked, [tail->next()] to be read again *)
  | CDone (r : ptr).

(** An item enters when [_head] is exchanged and leaves when [pop_front] returns it. *)
Inductive mpsc_event : Type := Pushed (x : loc) | Popped (x : loc).

Record mpsc_state : Type := mkMS {
  ms_items : items; ms_head : loc; ms_tail : loc;
  ms_links : list (loc * loc);         (* exchanges whose link is still to be stored *)
  ms_consumer : consumer }.

Section Mpsc.
Context (stub : loc).

Inductive mpsc_step : mpsc_state -> list mpsc_event -> mpsc_state -> Prop :=
  (* a producer pushes an item nobody else refers to *)
  | ms_exchange h hd tl ps c x :
      h !! x = None -> x <> stub ->
      mpsc_step (mkMS h hd tl ps c) [Pushed x] (mkMS (<[x := None]> h) x tl ((hd, x) :: ps) c)
  | ms_link h hd tl ps1 ps2 c prev x :
      mpsc_step (mkMS h hd tl (ps1 ++ (prev, x) :: ps2) c) []
        (mkMS (<[prev := Some x]> h) hd tl (ps1 ++ ps2) c)
  (* the consumer *)
  | ms_begin h hd tl ps :
      mpsc_step (mkMS h hd tl ps CIdle) [] (mkMS h hd tl ps (CStart tl))
  | ms_stub_empty h hd tl ps :
      h !! stub = Some None ->
      mpsc_step (mkMS h hd tl ps (CStart stub)) [] (mkMS h hd tl ps (CDone None))
  | ms_stub_skip h hd tl ps next :
      h !! stub = Some (Some next) ->
      mpsc_step (mkMS h hd tl ps (CStart stub)) [] (mkMS h hd next ps (CSkip next))
  | ms_take h hd tl ps t c next :
      c = CStart t \/ c = CSkip t \/ c = CRetry t -> t <> stub -> h !! t = Some (Some next) ->
      mpsc_step (mkMS h hd tl ps c) [Popped t] (mkMS h hd next ps (CDone (Some t)))
  | ms_null h hd tl ps t c :
      c = CStart t \/ c = CSkip t -> t <> stub -> h !! t = Some None ->
      mpsc_step (mkMS h hd tl ps c) [] (mkMS h hd tl ps (CLast t))
  | ms_behind h hd tl ps t :
      t <> hd -> mpsc_step (mkMS h hd tl ps (CLast t)) [] (mkMS h hd tl ps (CDone None))
  | ms_alone h tl ps t :
      mpsc_step (mkMS h t tl ps (CLast t)) [] (mkMS h t tl ps (CPush t))
  | ms_push_stub h hd tl ps t :
      mpsc_step (mkMS h hd tl ps (CPush t)) [] (mkMS (<[stub := None]> h) stub tl ps (CLink t hd))
  | ms_link_stub h hd tl ps t prev :
      mpsc_step (mkMS h hd tl ps (CLink t prev)) [] (mkMS (<[prev := Some stub]> h) hd tl ps (CRetry t))
  | ms_retry_null h hd tl ps t :
      h !! t = Some None -> mpsc_step (mkMS h hd tl ps (CRetry t)) [] (mkMS h hd tl ps (CDone None))
  | ms_return h hd tl ps r :
      mpsc_step (mkMS h hd tl ps (CDone r)) [] (mkMS h hd tl ps CIdle).

(** Executions, with what happened in them. *)
Inductive mpsc_run (s0 : mpsc_state) : list mpsc_event -> mpsc_state -> Prop :=
  | run_start : mpsc_run s0 [] s0
  | run_step evs s ev s' : mpsc_run s0 evs s -> mpsc_step s ev s' -> mpsc_run s0 (evs ++ ev) s'.
Definition mpsc_start : mpsc_state := mkMS {[ stub := None ]} stub stub [] CIdle.

Definition pushed (evs : list mpsc_event) : list loc :=
  omap (fun e => match e with Pushed x => Some x | Popped _ => None end) evs.
Definition popped (evs : list mpsc_event) : list loc :=
  omap (fun e => match e with Popped x => Some x | Pushed _ => None end) evs.

(** *** The invariant *)
Definition next_to (ns : list loc) (a b : loc) : Prop :=
  exists i, ns !! i = Some a /\ ns !! S i = Some b.

Lemma next_to_fun ns a b b' : NoDup ns -> next_to ns a b -> next_to ns a b' -> b = b'.
Proof.
  intros Hnd (i & Hi & Hb) (j & Hj & Hb'). assert (i = j) as -> by (by eapply NoDup_lookup). congruence.
Qed.
Lemma next_to_snoc ns x a b :
  next_to (ns ++ [x]) a b <-> next_to ns a b \/ (last ns = Some a /\ b = x).
Proof.
  split.
  - intros (i & Hi & Hb). destruct (decide (S i < length ns)%nat).
    + left. exists i. rewrite lookup_app_l in Hi, Hb by lia. done.
    + assert (S i = length ns) as Hlen.
      { apply lookup_lt_Some in Hb. rewrite length_app in Hb. simpl in Hb. lia. }
      right. rewrite lookup_app_l in Hi by lia. rewrite lookup_app_r, Hlen, Nat.sub_diag in Hb by lia.
      simpl in Hb. rewrite last_lookup, <- Hlen. simpl. split; congruence.
  - intros [(i & Hi & Hb)|[Hl ->]].
    + exists i. split; by apply lookup_app_l_Some.
    + rewrite last_lookup in Hl. exists (pred (length ns)). split; [by apply lookup_app_l_Some|].
      apply lookup_lt_Some in Hl. rewrite lookup_app_r by lia. by replace (S (pred (length ns)) - length ns)%nat with 0%nat by lia.
Qed.
Lemma next_to_tail x ns a b : next_to ns a b -> next_to (x :: ns) a b.
Proof. intros (i & ? & ?). by exists (S i). Qed.
Lemma next_to_last ns a b : NoDup ns -> last ns = Some a -> ~ next_to ns a b.
Proof.
  intros Hnd Hl (i & Hi & Hb). rewrite last_lookup in Hl.
  assert (i = pred (length ns)) as -> by (by eapply NoDup_lookup).
  apply lookup_lt_Some in Hb. lia.
Qed.
Lemma next_to_elem ns a b : next_to ns a b -> a ∈ ns /\ b ∈ ns.
Proof. intros (i & Hi & Hb). split; by eapply list_elem_of_lookup_2. Qed.

(** Links exchanged in but not stored. *)
Definition open_links (ps : list (loc * loc)) (c : consumer) : list (loc * loc) :=
  match c with CLink _ prev => (prev, stub) :: ps | _ => ps end.
(** What the consumer relies on. *)
Definition consumer_inv (ns : list loc) (tl : loc) (c : consumer) : Prop :=
  match c with
  | CIdle | CDone _ => True
  | CStart t => t = tl
  | CSkip t | CLast t | CLink t _ | CRetry t => t = tl /\ t <> stub
  | CPush t => t = tl /\ t <> stub /\ stub ∉ ns
  end.
Record mpsc_inv (s : mpsc_state) (ns : list loc) : Prop := {
  mi_nodup : NoDup ns;
  mi_tail : head ns = Some (ms_tail s);
  mi_head : last ns = Some (ms_head s);
  mi_last : ms_items s !! ms_head s = Some None;
  mi_links : forall a b, next_to ns a b -> ms_items s !! a = Some (Some b)
    \/ ms_items s !! a = Some None /\ (a, b) ∈ open_links (ms_links s) (ms_consumer s);
  mi_open : forall a b, (a, b) ∈ open_links (ms_links s) (ms_consumer s) ->
    next_to ns a b /\ ms_items s !! a = Some None;
  mi_open_nodup : NoDup (open_links (ms_links s) (ms_consumer s));
  mi_dom : forall x, x ∈ stub :: ns -> is_Some (ms_items s !! x);
  mi_consumer : consumer_inv ns (ms_tail s) (ms_consumer s) }.

Lemma mpsc_start_inv : mpsc_inv mpsc_start [stub].
Proof.
  split; simpl; try done.
  - apply NoDup_singleton.
  - apply lookup_singleton_eq.
  - intros a b (i & Hi & Hb). destruct i; simpl in *; done.
  - intros a b Hin. by apply not_elem_of_nil in Hin.
  - apply NoDup_nil_2.
  - intros x Hx. assert (x = stub) as -> by set_solver. rewrite lookup_singleton_eq. eauto.
Qed.

(** Storing a link that was open. *)
Lemma mpsc_inv_link h hd tl ps c ps' c' ns a b :
  mpsc_inv (mkMS h hd tl ps c) ns -> Permutation (open_links ps c) ((a, b) :: open_links ps' c') ->
  consumer_inv ns tl c' -> mpsc_inv (mkMS (<[a := Some b]> h) hd tl ps' c') ns.
Proof.
  intros [Hnd Ht Hh Hl Hlk Hop Hopn Hd _] Hperm Hc. simpl in *.
  destruct (Hop a b) as [Hab Ha]; [rewrite Hperm; set_solver|].
  rewrite Hperm in Hopn. apply NoDup_cons in Hopn as [Hnin Hopn]. split; simpl; auto.
  - rewrite lookup_insert_ne; [done|]. intros ->. by eapply next_to_last.
  - intros x y Hxy. destruct (decide (a = x)) as [<-|Hne].
    + rewrite (next_to_fun _ _ _ _ Hnd Hxy Hab). left. apply lookup_insert_eq.
    + rewrite lookup_insert_ne by done. destruct (Hlk x y Hxy) as [?|[? Hin]]; [by left|right].
      split; [done|]. rewrite Hperm in Hin. set_solver.
  - intros x y Hin. destruct (Hop x y) as [Hxy Hx]; [rewrite Hperm; set_solver|]. split; [done|].
    rewrite lookup_insert_ne; [done|]. intros <-. rewrite (next_to_fun _ _ _ _ Hnd Hxy Hab) in Hin. done.
  - intros x Hx. destruct (Hd x Hx) as [q Hq]. destruct (decide (a = x)) as [<-|].
    + rewrite lookup_insert_eq. eauto.
    + rewrite lookup_insert_ne by done. eauto.
Qed.

(** Exchanging an item in: it becomes the last one. *)
Lemma mpsc_inv_exchange h hd tl ps c ps' c' ns x :
  mpsc_inv (mkMS h hd tl ps c) ns -> x ∉ ns -> Permutation (open_links ps' c') ((hd, x) :: open_links ps c) ->
  consumer_inv (ns ++ [x]) tl c' -> mpsc_inv (mkMS (<[x := None]> h) x tl ps' c') (ns ++ [x]).
Proof.
  intros [Hnd Ht Hh Hl Hlk Hop Hopn Hd _] Hx Hperm Hc. simpl in *.
  assert (Hhd : hd ∈ ns) by (by apply last_Some_elem_of).
  assert (Hnew : (hd, x) ∉ open_links ps c).
  { intros Hin. destruct (Hop hd x Hin) as [Hn _]. by eapply next_to_last. }
  split; simpl; auto.
  - apply NoDup_app. split; [done|]. split; [set_solver|apply NoDup_singleton].
  - by destruct ns.
  - by rewrite last_snoc.
  - apply lookup_insert_eq.
  - intros a b [Hab|[Hla ->]]%next_to_snoc.
    + destruct (next_to_elem _ _ _ Hab) as [Ha _]. rewrite lookup_insert_ne by set_solver.
      destruct (Hlk a b Hab) as [?|[? ?]]; [by left|right]. split; [done|]. rewrite Hperm. set_solver.
    + rewrite Hh in Hla. injection Hla as ->. right. rewrite lookup_insert_ne by set_solver.
      split; [done|]. rewrite Hperm. set_solver.
  - intros a b Hin. rewrite Hperm in Hin. rewrite next_to_snoc. apply elem_of_cons in Hin as [[= -> ->]|Hin].
    + split; [by right|]. by rewrite lookup_insert_ne by set_solver.
    + destruct (Hop a b Hin) as [Hab Ha]. split; [by left|]. destruct (next_to_elem _ _ _ Hab) as [? _].
      by rewrite lookup_insert_ne by set_solver.
  - rewrite Hperm. apply NoDup_cons. done.
  - intros y Hy. destruct (decide (x = y)) as [<-|]; [rewrite lookup_insert_eq; eauto|].
    rewrite lookup_insert_ne by done. apply Hd. set_solver.
Qed.

(** Moving [_tail] past an item whose link is stored. *)
Lemma mpsc_inv_advance h hd tl ps c c' ns next :
  mpsc_inv (mkMS h hd tl ps c) ns -> h !! tl = Some (Some next) -> open_links ps c' = open_links ps c ->
  exists ns', ns = tl :: ns' /\ (consumer_inv ns' next c' -> mpsc_inv (mkMS h hd next ps c') ns').
Proof.
  intros [Hnd Ht Hh Hl Hlk Hop Hopn Hd _] Hnext Hopen. simpl in *.
  destruct ns as [|t ns]; [done|]. injection Ht as ->. exists ns. split; [done|]. intros Hc.
  destruct ns as [|y ns]; [simpl in Hh; congruence|].
  assert (y = next) as ->.
  { destruct (Hlk tl y) as [?|[? _]]; [by exists 0%nat|congruence|congruence]. }
  pose proof Hnd as [Hn Hnd']%NoDup_cons. split; simpl; auto.
  - intros a b Hab. rewrite Hopen. apply Hlk. by apply next_to_tail.
  - intros a b Hin. rewrite Hopen in Hin. destruct (Hop a b Hin) as [Hab Ha]. split; [|done].
    destruct Hab as (i & Hi & Hb). destruct i as [|i]; [simpl in *; congruence|]. by exists i.
  - by rewrite Hopen.
  - intros x Hx. apply Hd. set_solver.
Qed.

(** The consumer moves without touching the queue. *)
Lemma mpsc_inv_consumer h hd tl ps c c' ns :
  mpsc_inv (mkMS h hd tl ps c) ns -> open_links ps c' = open_links ps c -> consumer_inv ns tl c' ->
  mpsc_inv (mkMS h hd tl ps c') ns.
Proof. intros [] Ho Hc. split; simpl in *; rewrite ?Ho; auto. Qed.

Lemma mpsc_step_inv s ev s' ns :
  mpsc_step s ev s' -> mpsc_inv s ns ->
  exists ns', mpsc_inv s' ns' /\ without stub ns ++ pushed ev = popped ev ++ without stub ns'.
Proof.
  intros Hst Hi. pose proof Hi as [Hnd Ht Hh Hl Hlk Hop Hopn Hd Hc].
  destruct Hst as [h hd tl ps c x Hx Hxs|h hd tl ps1 ps2 c prev x|h hd tl ps|h hd tl ps Hs|h hd tl ps next Hs
    |h hd tl ps t c next Hct Hts Hs|h hd tl ps t c Hct Hts Hs|h hd tl ps t Hne|h tl ps t|h hd tl ps t|h hd tl ps t prev
    |h hd tl ps t Hs|h hd tl ps r]; simpl in *; rewrite ?app_nil_r.
  - exists (ns ++ [x]). split.
    + apply (mpsc_inv_exchange h hd tl ps c); [done| | |].
      * intros Hin. destruct (Hd x) as [? ?]; [set_solver|congruence].
      * destruct c; simpl; try done. apply Permutation_swap.
      * destruct c; simpl in *; try done. destruct Hc as (? & ? & ?). split_and!; set_solver.
    + unfold without. rewrite filter_app. simpl. by rewrite filter_cons_True.
  - exists ns. split; [|done]. eapply mpsc_inv_link; [exact Hi| |done].
    destruct c; simpl; rewrite <- ?Permutation_middle; try done. apply Permutation_swap.
  - exists ns. split; [|done]. by eapply mpsc_inv_consumer.
  - exists ns. split; [|done]. by eapply mpsc_inv_consumer.
  - subst tl. destruct (mpsc_inv_advance _ _ _ _ _ (CSkip next) _ _ Hi Hs eq_refl) as (ns' & -> & Hinv).
    exists ns'. rewrite without_stub. split; [|done]. apply Hinv. split; [done|]. intros ->.
    apply NoDup_cons in Hnd as [Hn _]. destruct ns' as [|y ns']; [simpl in *; congruence|].
    destruct (Hlk stub y) as [?|[? _]]; [by exists 0%nat|simplify_eq; set_solver|congruence].
  - assert (t = tl) as -> by (destruct Hct as [->|[->| ->]]; simpl in Hc; tauto).
    destruct (mpsc_inv_advance _ _ _ _ _ (CDone (Some tl)) _ _ Hi Hs) as (ns' & -> & Hinv).
    { destruct Hct as [->|[->| ->]]; done. }
    exists ns'. rewrite without_other by done. split; [by apply Hinv|done].
  - exists ns. split; [|done]. eapply mpsc_inv_consumer; [exact Hi| |].
    + destruct Hct as [->| ->]; done.
    + destruct Hct as [->| ->]; simpl in *; [split; congruence|done].
  - exists ns. split; [|done]. by eapply mpsc_inv_consumer.
  - exists ns. split; [|done]. eapply mpsc_inv_consumer; [exact Hi|done|]. destruct Hc as [-> Hts].
    split; [done|]. split; [done|]. destruct ns as [|y ns]; [done|]. injection Ht as ->.
    destruct ns as [|z ns]; [set_solver|]. apply NoDup_cons in Hnd as [Hn _]. exfalso. apply Hn.
    change (last (tl :: z :: ns)) with (last (z :: ns)) in Hh. by apply last_Some_elem_of.
  - destruct Hc as (-> & Hts & Hns). exists (ns ++ [stub]). split.
    + by apply (mpsc_inv_exchange h hd tl ps (CPush tl)).
    + unfold without. rewrite filter_app. rewrite filter_cons_False by naive_solver. by rewrite app_nil_r.
  - exists ns. split; [|done]. by eapply mpsc_inv_link.
  - exists ns. split; [|done]. by eapply mpsc_inv_consumer.
  - exists ns. split; [|done]. by eapply mpsc_inv_consumer.
Qed.

Lemma mpsc_run_inv evs s :
  mpsc_run mpsc_start evs s -> exists ns, mpsc_inv s ns /\ pushed evs = popped evs ++ without stub ns.
Proof.
  induction 1 as [|evs s ev s' Hr (ns & Hi & Heq) Hs].
  - exists [stub]. split; [apply mpsc_start_inv|]. by rewrite without_stub.
  - destruct (mpsc_step_inv _ _ _ _ Hs Hi) as (ns' & Hi' & Heq'). exists ns'. split; [done|].
    unfold pushed, popped in *. rewrite !omap_app, Heq, <- !app_assoc. by rewrite Heq'.
Qed.

End Mpsc.

(** C8: in every interleaving of any number of producers with the one consumer, the
    items [pop_front] has returned are a prefix of the items that were pushed, in the
    order in which the producers exchanged [_head]: nothing is lost, duplicated or
    reordered, although a producer may be suspended between its exchange and the
    store that links its item. *)
Theorem mpsc_linearizable stub evs s :
  mpsc_run stub (mpsc_start stub) evs s -> exists rest, pushed evs = popped evs ++ rest.
Proof. intros Hr. destruct (mpsc_run_inv stub evs s Hr) as (ns & _ & ->). eauto. Qed.

(** ** Concrete queues *)
Module QueueExamples.

Definition two_items : Queue := mkQueue {[ 1%positive := Some 2%positive; 2%positive := None; 3%positive := None ]}
  (Some 1%positive) (Some 2%positive).
Lemma two_items_holds : queue_holds two_items [1%positive; 2%positive].
Proof.
  split; [|split; [|done]].
  - split; [done|]. eexists. split; [reflexivity|]. split; [done|]. eexists. split; reflexivity.
  - by repeat constructor; set_solver.
Qed.
Lemma queue_fifo_witness :
  (exists s', queue_push_back (Some 3%positive) two_items = Ok s'
     /\ queue_holds s' [1%positive; 2%positive; 3%positive])
  /\ (exists s', queue_pop_front two_items = Ok (Some 1%positive, s') /\ queue_holds s' [2%positive]).
Proof.
  apply (queue_fifo two_items [1%positive; 2%positive] 3%positive).
  - apply two_items_holds.
  - by eexists.
  - set_solver.
Defined.

Definition stub_first : MPSCQueue := mkMpsc
  {[ 1%positive := Some 2%positive; 2%positive := None; 3%positive := None ]}
  (Some 2%positive) (Some 1%positive) (Some 1%positive).
Lemma stub_first_links : mpsc_links stub_first 1%positive [1%positive; 2%positive].
Proof.
  split; simpl; try done.
  - split; [done|]. eexists. split; [reflexivity|]. split; [done|]. eexists. split; reflexivity.
  - by repeat constructor; set_solver.
Qed.
Lemma mpsc_fifo_witness :
  (exists s' ms, mpsc_push_back (Some 3%positive) stub_first = Ok s' /\ mpsc_links s' 1%positive ms
     /\ without 1%positive ms = [2%positive; 3%positive])
  /\ (exists s' ms, mpsc_pop_front stub_first = Ok (Some 2%positive, s') /\ mpsc_links s' 1%positive ms
     /\ without 1%positive ms = []).
Proof.
  apply (mpsc_fifo stub_first 1%positive [1%positive; 2%positive] 3%positive).
  - apply stub_first_links.
  - by eexists.
  - set_solver.
  - done.
Defined.

(** Items 2 and 3 are exchanged in by two producers, who store their links in the
    opposite order; then [pop_front] takes item 2. *)
Lemma overtaken_run : exists s, mpsc_run 1%positive (mpsc_start 1%positive)
  ([] ++ [Pushed 2%positive] ++ [Pushed 3%positive] ++ [] ++ [] ++ [] ++ [] ++ [Popped 2%positive]) s.
Proof.
  eexists. rewrite !app_assoc.
  eapply run_step; [eapply run_step; [eapply run_step; [eapply run_step; [eapply run_step;
    [eapply run_step; [eapply run_step; [apply run_start|]|]|]|]|]|]|].
  - by apply ms_exchange.
  - apply ms_exchange; [by vm_compute|done].
  - apply (ms_link 1%positive _ _ _ [] _).
  - apply (ms_link 1%positive _ _ _ [] []).
  - apply ms_begin.
  - apply ms_stub_skip. by vm_compute.
  - eapply ms_take; [right; left; reflexivity|done|by vm_compute].
Qed.
Lemma mpsc_linearizable_witness :
  exists rest, pushed [Pushed 2%positive; Pushed 3%positive; Popped 2%positive]
    = popped [Pushed 2%positive; Pushed 3%positive; Popped 2%positive] ++ rest.
Proof.
  destruct overtaken_run as [s Hrun].
  apply (mpsc_linearizable 1%positive [Pushed 2%positive; Pushed 3%positive; Popped 2%positive] s Hrun).
Defined.

End QueueExamples.
