(* ===== verification/Epochs.v ===== *)
(** * Epoch-based reclamation

    Models [src/src/indices/blinktree/epoch_manager.h] and [epoch_manager.cpp].  The
    first part is the manager as one thread runs it, on the queues of [Queues.v]: a
    reclamation frees exactly the nodes removed before the oldest local epoch and keeps
    the others in their order.  The second part interleaves the worker threads with the
    epoch thread at the granularity of the atomic accesses. *)

From S2P Require Import Prelude Node Queues.

(** ** The manager *)
Record EpochManager : Type := mkEM {
  em_registered : Z;          (* [_registered_threads], 16 bits *)
  em_local : list Z;          (* [_local_epochs], one per thread *)
  em_global : Z;              (* [_global_epoch], 32 bits *)
  em_running : bool;          (* [_is_running] *)
  em_queue : MPSCQueue;       (* [_garbage_queue] *)
  em_removed : gmap loc Z;    (* [remove_epoch()] in the header of every node *)
  em_freed : list loc }.      (* what was passed to [std::free] *)

Definition set_local (ls : list Z) (s : EpochManager) : EpochManager :=
  mkEM (em_registered s) ls (em_global s) (em_running s) (em_queue s) (em_removed s) (em_freed s).
Definition set_global (g : Z) (s : EpochManager) : EpochManager :=
  mkEM (em_registered s) (em_local s) g (em_running s) (em_queue s) (em_removed s) (em_freed s).
Definition set_running (b : bool) (s : EpochManager) : EpochManager :=
  mkEM (em_registered s) (em_local s) (em_global s) b (em_queue s) (em_removed s) (em_freed s).
Definition set_registered (r : Z) (s : EpochManager) : EpochManager :=
  mkEM r (em_local s) (em_global s) (em_running s) (em_queue s) (em_removed s) (em_freed s).
Definition set_queue (q : MPSCQueue) (s : EpochManager) : EpochManager :=
  mkEM (em_registered s) (em_local s) (em_global s) (em_running s) q (em_removed s) (em_freed s).
Definition set_removed (l : loc) (e : Z) (s : EpochManager) : EpochManager :=
  mkEM (em_registered s) (em_local s) (em_global s) (em_running s) (em_queue s)
    (<[l := e]> (em_removed s)) (em_freed s).

(** [EpochManager(count_threads)], its queue's stub at [stub] beside the nodes [h]. *)
Definition em_init (count_threads : nat) (h : items) (stub : loc) : EpochManager :=
  mkEM 0 (replicate count_threads 0) 0 false (mpsc_init h stub) ∅ [].

Definition em_start (s : EpochManager) : EpochManager := set_running true (set_registered 0 s).
(** The thread's id is the number of threads registered before it. *)
Definition register_thread (s : EpochManager) : Z * EpochManager :=
  (em_registered s, set_registered (u16 (em_registered s + 1)) s).
Definition join_epoch (thread_id : Z) (s : EpochManager) : outcome EpochManager :=
  ls ← array_set (em_local s) thread_id (em_global s); Ok (set_local ls s).
Definition leave_epoch (thread_id : Z) (s : EpochManager) : outcome EpochManager :=
  ls ← array_set (em_local s) thread_id max_u32; Ok (set_local ls s).
Definition add_to_garbage (garbage : ptr) (s : EpochManager) : outcome EpochManager :=
  match garbage with
  | None => Fault NullDeref
  | Some l =>
      let s := set_removed l (em_global s) s in
      q ← mpsc_push_back garbage (em_queue s); Ok (set_queue q s)
  end.

Fixpoint min_loop (todo : nat) (i min_epoch : Z) (ls : list Z) : outcome Z :=
  match todo with
  | O => Ok min_epoch
  | S todo => e ← array_get ls i; min_loop todo (i + 1) (Z.min min_epoch e) ls
  end.
Definition min_local_epoch (s : EpochManager) : outcome Z :=
  e ← array_get (em_local s) 0;
  min_loop (length (em_local s) - 1) 1 e (em_local s).

(** [std::free]: the item is gone, a later access to it faults. *)
Definition free_node (p : ptr) (s : EpochManager) : outcome EpochManager :=
  match p with
  | None => Ok s
  | Some l =>
      match m_items (em_queue s) !! l with
      | None => Fault NullDeref
      | Some _ =>
          let q := em_queue s in
          Ok (mkEM (em_registered s) (em_local s) (em_global s) (em_running s)
                (mkMpsc (delete l (m_items q)) (m_head q) (m_tail q) (m_end q))
                (em_removed s) (em_freed s ++ [l]))
      end
  end.
(** [header().remove_epoch()]: zero until [add_to_garbage] sets it. *)
Definition remove_epoch (l : loc) (s : EpochManager) : Z := default 0 (em_removed s !! l).

(** The deferred queue links the same items. *)
Definition deferred : Type := ptr * ptr.
Definition defer (p : ptr) (d : deferred) (s : EpochManager) : outcome (deferred * EpochManager) :=
  let q := em_queue s in
  dq ← queue_push_back p (mkQueue (m_items q) d.1 d.2);
  Ok ((q_head dq, q_tail dq), set_queue (mkMpsc (q_items dq) (m_head q) (m_tail q) (m_end q)) s).

Fixpoint reclaim_loop (fuel : nat) (min_epoch : Z) (d : deferred) (s : EpochManager) :
    outcome (deferred * EpochManager) :=
  match fuel with
  | O => Fault OutOfFuel
  | S fuel =>
      '(garbage, q) ← mpsc_pop_front (em_queue s);
      let s := set_queue q s in
      match garbage with
      | None => Ok (d, s)
      | Some l =>
          if remove_epoch l s <? min_epoch then
            s ← free_node garbage s; reclaim_loop fuel min_epoch d s
          else '(d, s) ← defer garbage d s; reclaim_loop fuel min_epoch d s
      end
  end.
Definition reclaim_epoch_garbage (fuel : nat) (s : EpochManager) : outcome EpochManager :=
  min_epoch ← min_local_epoch s;
  '(d, s) ← reclaim_loop fuel min_epoch (None, None) s;
  let dq := mkQueue (m_items (em_queue s)) d.1 d.2 in
  if queue_empty dq then Ok s
  else q ← mpsc_push_range (queue_begin dq) (queue_end dq) (em_queue s); Ok (set_queue q s).

(** One round of the loop of [enter_epoch_periodically]. *)
Definition epoch_round (fuel : nat) (s : EpochManager) : outcome EpochManager :=
  reclaim_epoch_garbage fuel (set_global (u32 (em_global s + 1)) s).
(** The loop that empties the queue in [stop] and in the destructor. *)
Fixpoint drain (fuel : nat) (s : EpochManager) : outcome EpochManager :=
  match fuel with
  | O => Fault OutOfFuel
  | S fuel =>
      '(garbage, q) ← mpsc_pop_front (em_queue s);
      let s := set_queue q s in
      match garbage with
      | None => Ok s
      | Some _ => s ← free_node garbage s; drain fuel s
      end
  end.
(** [stop]: the epoch thread sees the flag, leaves its loop and is joined. *)
Definition em_stop (fuel : nat) (s : EpochManager) : outcome EpochManager := drain fuel (set_running false s).

(** ** What the manager holds *)

(** [l] are the removed nodes that wait to be freed, oldest entry first. *)
Definition garbage_is (s : EpochManager) (stub : loc) (l : list loc) : Prop :=
  exists ns, mpsc_links (em_queue s) stub ns /\ without stub ns = l.

Lemma without_elem stub ns x : x ∈ without stub ns <-> x <> stub /\ x ∈ ns.
Proof. unfold without. by rewrite list_elem_of_filter. Qed.
Lemma without_NoDup stub ns : NoDup ns -> NoDup (without stub ns).
Proof. apply NoDup_filter. Qed.

Lemma without_id stub l : (forall x, x ∈ l -> x <> stub) -> without stub l = l.
Proof.
  induction l as [|x l IH]; intros Hl; [done|]. rewrite without_other by (apply Hl; set_solver).
  f_equal. apply IH. set_solver.
Qed.

Lemma chain_ext h h' p ns :
  (forall x, x ∈ ns -> h' !! x = h !! x) -> chain h p ns -> chain h' p ns.
Proof.
  revert p. induction ns as [|y ns IH]; intros p Heq; [done|]. intros (-> & q & Hq & Hc).
  split; [done|]. exists q. rewrite Heq by set_solver. split; [done|]. apply IH; [set_solver|done].
Qed.
Lemma mpsc_links_ext s stub ns h' :
  mpsc_links s stub ns -> (forall x, x = stub \/ x ∈ ns -> h' !! x = m_items s !! x) ->
  mpsc_links (mkMpsc h' (m_head s) (m_tail s) (m_end s)) stub ns.
Proof.
  intros [He Hs Hc Hnd Hh Hne] Heq. split; simpl; auto.
  - rewrite Heq by auto. done.
  - eapply chain_ext; [|done]. auto.
Qed.

(** What the operations leave alone. *)
Lemma set_item_next_inv p q h h' :
  set_item_next p q h = Ok h' -> exists l, p = Some l /\ h' = <[l := q]> h.
Proof. unfold set_item_next. destruct p as [l|]; [|done]. destruct (h !! l); [|done]. intros [= <-]. eauto. Qed.
Lemma mpsc_push_range_frame first last s s' y :
  mpsc_push_range first last s = Ok s' -> last <> Some y -> m_head s <> Some y ->
  m_items s' !! y = m_items s !! y.
Proof.
  unfold mpsc_push_range, mpsc_set_next, exchange_head. intros Hrun Hl Hh.
  destruct (set_item_next last None (m_items s)) as [h1|] eqn:H1; [|done].
  apply set_item_next_inv in H1 as (a & -> & ->). cbn [mbind outcome_bind m_items m_head] in Hrun.
  destruct (set_item_next (m_head s) first _) as [h2|] eqn:H2; [|done].
  apply set_item_next_inv in H2 as (b & Hb & ->). cbn [mbind outcome_bind m_items] in Hrun.
  injection Hrun as <-. simpl. by rewrite !lookup_insert_ne by congruence.
Qed.
Lemma mpsc_push_back_range x s : mpsc_push_back x s = mpsc_push_range x x s.
Proof. done. Qed.
Lemma mpsc_pop_front_frame s r s' y :
  mpsc_pop_front s = Ok (r, s') -> m_end s <> Some y -> m_head s <> Some y ->
  m_items s' !! y = m_items s !! y.
Proof.
  intros Hrun He Hh. unfold mpsc_pop_front in Hrun.
  assert (Hpush : forall t x r' s1, m_end t = m_end s -> m_head t = m_head s -> m_items t = m_items s ->
    (s2 ← mpsc_push_back (m_end t) t; next ← item_next x (m_items s2);
     match next with Some _ => Ok (x, set_tail next s2) | None => Ok (None, s2) end) = Ok (r', s1) ->
    m_items s1 !! y = m_items s !! y).
  { intros t x r' s1 Hte Hth Hti Hr. rewrite mpsc_push_back_range in Hr.
    destruct (mpsc_push_range (m_end t) (m_end t) t) as [s2|] eqn:H2; [|done].
    apply (mpsc_push_range_frame _ _ _ _ y) in H2; [|congruence|congruence].
    cbn [mbind outcome_bind] in Hr. destruct (item_next x (m_items s2)) as [n|]; [|done].
    cbn [mbind outcome_bind] in Hr. destruct n; simplify_eq; simpl; congruence. }
  destruct (item_next (m_tail s) (m_items s)) as [n|]; [|done]. cbn [mbind outcome_bind] in Hrun.
  destruct (decide (m_tail s = m_end s)).
  - destruct n as [n|]; [|by simplify_eq].
    destruct (item_next (Some n) (m_items s)) as [n'|]; [|done]. cbn [mbind outcome_bind] in Hrun.
    destruct n'; [by simplify_eq|]. case_decide; [by simplify_eq|]. by eapply Hpush in Hrun.
  - destruct n as [n|]; [by simplify_eq|]. case_decide; [by simplify_eq|]. by eapply Hpush in Hrun.
Qed.
Lemma queue_push_back_frame x s s' y :
  queue_push_back x s = Ok s' -> x <> Some y -> q_tail s <> Some y -> q_items s' !! y = q_items s !! y.
Proof.
  unfold queue_push_back. intros Hrun Hx Ht.
  destruct (set_item_next x None (q_items s)) as [h1|] eqn:H1; [|done].
  apply set_item_next_inv in H1 as (a & -> & ->). cbn [mbind outcome_bind] in Hrun.
  destruct (q_tail s) as [t|].
  - destruct (set_item_next (Some t) (Some a) _) as [h2|] eqn:H2; [|done].
    apply set_item_next_inv in H2 as (b & [= <-] & ->). cbn [mbind outcome_bind] in Hrun. injection Hrun as <-.
    simpl. by rewrite !lookup_insert_ne by congruence.
  - injection Hrun as <-. simpl. by rewrite lookup_insert_ne by congruence.
Qed.

(** ** A reclamation *)

(** In the middle of a reclamation: [ns] still in the queue, [dl] deferred. *)
Record sweeping (s : EpochManager) (stub : loc) (ns : list loc) (d : deferred) (dl : list loc) : Prop := {
  sw_links : mpsc_links (em_queue s) stub ns;
  sw_deferred : queue_holds (mkQueue (m_items (em_queue s)) d.1 d.2) dl;
  sw_disjoint : forall x, x ∈ dl -> x <> stub /\ x ∉ ns }.

(** The parts of the manager that a reclamation does not touch. *)
Definition same_epochs (s s' : EpochManager) : Prop :=
  em_registered s' = em_registered s /\ em_local s' = em_local s /\ em_global s' = em_global s
  /\ em_running s' = em_running s /\ em_removed s' = em_removed s.

Lemma sweep_pop s stub ns d dl :
  sweeping s stub ns d dl ->
  exists q ms, mpsc_pop_front (em_queue s) = Ok (head (without stub ns), q)
    /\ sweeping (set_queue q s) stub ms d dl /\ without stub ms = tail (without stub ns)
    /\ (forall x, head (without stub ns) = Some x ->
          is_Some (m_items q !! x) /\ x <> stub /\ (x ∉ ms) /\ (x ∉ dl)).
Proof.
  intros [Hl Hd Hdis]. destruct (mpsc_pop_front_links _ _ _ Hl) as (q & ms & Hrun & Hl' & Hms & Hdom).
  pose proof Hl as [He Hs Hc Hnd Hh Hne]. exists q, ms. split; [done|].
  assert (Hsub : forall x, x ∈ ms -> x = stub \/ x ∈ tail (without stub ns)).
  { intros x Hx. destruct (decide (x = stub)); [by left|right]. rewrite <- Hms. by apply without_elem. }
  assert (Htl : forall x, x ∈ tail (without stub ns) -> x <> stub /\ x ∈ ns).
  { intros x Hx. apply without_elem. destruct (without stub ns); [done|set_solver]. }
  split; [split; simpl; auto|split; [done|]].
  - destruct Hd as (Hdc & Hdn & Hdt). split; [|split; done]. simpl in *.
    eapply chain_ext; [|exact Hdc]. intros x Hx. destruct (Hdis x Hx) as [Hxs Hxn].
    eapply mpsc_pop_front_frame; [exact Hrun|congruence|]. rewrite Hh. intros Hlast.
    apply Hxn. by apply last_Some_elem_of.
  - intros x Hx. destruct (Hdis x Hx) as [Hxs Hxn]. split; [done|]. intros Hin.
    destruct (Hsub x Hin) as [?|?%Htl]; naive_solver.
  - intros x Hx. pose proof (without_NoDup stub ns Hnd) as Hnw.
    destruct (without stub ns) as [|x' l] eqn:Hw; [done|]. simpl in Hx, Hsub, Htl. simplify_eq.
    destruct (proj1 (without_elem stub ns x)) as [Hxs Hxn]; [rewrite Hw; set_solver|].
    apply NoDup_cons in Hnw as [Hnl _]. split_and!.
    + apply elem_of_dom. rewrite Hdom. apply elem_of_dom. by eapply chain_elem.
    + done.
    + intros Hin. by destruct (Hsub x Hin).
    + intros Hin. by destruct (Hdis x Hin).
Qed.

Lemma sweep_free s stub ns d dl x :
  sweeping s stub ns d dl -> is_Some (m_items (em_queue s) !! x) -> x <> stub -> x ∉ ns -> x ∉ dl ->
  exists s', free_node (Some x) s = Ok s' /\ sweeping s' stub ns d dl /\ same_epochs s s'
    /\ em_freed s' = em_freed s ++ [x].
Proof.
  intros [Hl (Hdc & Hdn & Hdt) Hdis] [q Hx] Hxs Hxn Hxd. unfold free_node. rewrite Hx.
  eexists. split; [reflexivity|]. split; [|done]. split; simpl; auto.
  - apply mpsc_links_ext; [done|]. intros y Hy. rewrite lookup_delete_ne; [done|]. intros <-. naive_solver.
  - split; [|done]. simpl in *. eapply chain_ext; [|exact Hdc]. intros y Hy.
    rewrite lookup_delete_ne; [done|]. by intros <-.
Qed.

Lemma sweep_defer s stub ns d dl x :
  sweeping s stub ns d dl -> is_Some (m_items (em_queue s) !! x) -> x <> stub -> x ∉ ns -> x ∉ dl ->
  exists d' s', defer (Some x) d s = Ok (d', s') /\ sweeping s' stub ns d' (dl ++ [x]) /\ same_epochs s s'
    /\ em_freed s' = em_freed s.
Proof.
  intros [Hl Hd Hdis] Hx Hxs Hxn Hxd. unfold defer.
  destruct (queue_push_back_ok _ _ x Hd Hx Hxd) as (dq & Hrun & Hd' & _). rewrite Hrun. cbn [mbind outcome_bind].
  eexists _, _. split; [reflexivity|]. split; [|done]. split; simpl.
  - apply mpsc_links_ext; [done|]. intros y Hy.
    apply (queue_push_back_frame _ _ _ y) in Hrun; [done| |].
    + intros [= ->]. naive_solver.
    + simpl. destruct Hd as (_ & _ & Hdt). simpl in Hdt. rewrite Hdt. intros Hin%last_Some_elem_of.
      destruct (Hdis y Hin). naive_solver.
  - by destruct dq.
  - intros y Hy. apply elem_of_app in Hy as [Hy| ->%list_elem_of_singleton]; [by apply Hdis|done].
Qed.

Definition expired (min_epoch : Z) (s : EpochManager) (x : loc) : Prop := remove_epoch x s < min_epoch.
#[export] Instance expired_dec m s x : Decision (expired m s x).
Proof. unfold expired. apply _. Defined.

(** The loop goes through the queue once. *)
Lemma reclaim_loop_ok fuel min_epoch s stub ns d dl :
  sweeping s stub ns d dl -> (length (without stub ns) < fuel)%nat ->
  exists d' s' ms, reclaim_loop fuel min_epoch d s = Ok (d', s') /\ without stub ms = []
    /\ sweeping s' stub ms d' (dl ++ filter (fun x => ~ expired min_epoch s x) (without stub ns))
    /\ same_epochs s s'
    /\ em_freed s' = em_freed s ++ filter (expired min_epoch s) (without stub ns).
Proof.
  revert s ns d dl. induction fuel as [|fuel IH]; intros s ns d dl Hsw Hf; [lia|].
  cbn [reclaim_loop]. destruct (sweep_pop _ _ _ _ _ Hsw) as (q & ms & -> & Hsw1 & Hms & Hx). cbn [mbind outcome_bind].
  destruct (without stub ns) as [|x l] eqn:Hw.
  { simpl. exists d, (set_queue q s), ms. rewrite !app_nil_r. done. }
  simpl in Hms, Hf. cbn [head]. cbv zeta. destruct (Hx x eq_refl) as (Hsome & Hxs & Hxm & Hxd).
  change (remove_epoch x (set_queue q s)) with (remove_epoch x s).
  assert (Hsame : forall s', same_epochs (set_queue q s) s' -> same_epochs s s'
    /\ forall y, remove_epoch y s' = remove_epoch y s).
  { intros s' Hs'. split; [done|]. intros y. unfold remove_epoch. destruct Hs' as (_ & _ & _ & _ & ->). done. }
  assert (Hflt : forall s' (ys : list loc), (forall y, remove_epoch y s' = remove_epoch y s) ->
    filter (expired min_epoch s') ys = filter (expired min_epoch s) ys
    /\ filter (fun x => ~ expired min_epoch s' x) ys = filter (fun x => ~ expired min_epoch s x) ys).
  { intros s' ys Heq. unfold expired. split; apply list_filter_iff; intros y; by rewrite Heq. }
  destruct (Z.ltb_spec (remove_epoch x s) min_epoch) as [Hlt|Hge].
  - destruct (sweep_free _ _ _ _ _ x Hsw1 Hsome Hxs Hxm Hxd) as (s1 & Hr1 & Hsw2 & Hs1 & Hfr).
    rewrite Hr1. cbn [mbind outcome_bind].
    destruct (IH s1 ms d dl Hsw2) as (d' & s' & ms' & Hr & Hms' & Hsw' & Hs' & Hfr'); [rewrite Hms; lia|].
    destruct (Hsame _ Hs1) as [Hs Hrm]. destruct (Hflt s1 l Hrm) as [Hf1 Hf2].
    exists d', s', ms'. rewrite Hr, filter_cons_False, filter_cons_True by (unfold expired; tauto).
    rewrite Hms, Hf1, Hf2, Hfr in *. split; [done|]. split; [done|]. split; [done|].
    split; [unfold same_epochs in *; naive_solver congruence|]. by rewrite Hfr', <- app_assoc.
  - destruct (sweep_defer _ _ _ _ _ x Hsw1 Hsome Hxs Hxm Hxd) as (d1 & s1 & Hr1 & Hsw2 & Hs1 & Hfr).
    rewrite Hr1. cbn [mbind outcome_bind].
    destruct (IH s1 ms d1 _ Hsw2) as (d' & s' & ms' & Hr & Hms' & Hsw' & Hs' & Hfr'); [rewrite Hms; lia|].
    destruct (Hsame _ Hs1) as [Hs Hrm]. destruct (Hflt s1 l Hrm) as [Hf1 Hf2].
    exists d', s', ms'. rewrite Hr, filter_cons_True, filter_cons_False by (unfold expired; lia).
    rewrite Hms, Hf1, Hf2, Hfr in *. rewrite <- app_assoc in Hsw'. simpl in Hsw'.
    split; [done|]. split; [done|]. split; [done|]. split; [unfold same_epochs in *; naive_solver congruence|done].
Qed.

Lemma min_loop_ok todo i m ls :
  (i + todo = length ls)%nat ->
  exists m', min_loop todo (Z.of_nat i) m ls = Ok m' /\ (m' = m \/ m' ∈ drop i ls) /\ m' <= m
    /\ Forall (fun e => m' <= e) (drop i ls).
Proof.
  revert i m. induction todo as [|todo IH]; intros i m Hlen; simpl.
  - exists m. rewrite drop_ge by lia. split; [done|]. split; [by left|]. by split.
  - destruct (lookup_lt_is_Some_2 ls i) as [e He]; [lia|]. rewrite (array_get_lookup _ _ _ He). cbn [mbind outcome_bind].
    replace (Z.of_nat i + 1) with (Z.of_nat (S i)) by lia.
    destruct (IH (S i) (Z.min m e)) as (m' & Hr & Hin & Hle & Hall); [lia|]. exists m'.
    rewrite (drop_S _ _ _ He). split; [done|]. split; [|split; [lia|constructor; [lia|done]]].
    destruct Hin as [->|Hin]; [|set_solver]. destruct (Z.min_spec m e) as [[_ ->]|[_ ->]]; set_solver.
Qed.
Lemma min_local_epoch_ok s :
  em_local s <> [] ->
  exists m, min_local_epoch s = Ok m /\ m ∈ em_local s /\ Forall (fun e => m <= e) (em_local s).
Proof.
  intros Hne. destruct (em_local s) as [|e ls] eqn:Hls; [done|]. unfold min_local_epoch. rewrite Hls. simpl.
  rewrite Nat.sub_0_r. destruct (min_loop_ok (length ls) 1 e (e :: ls) eq_refl) as (m & Hr & Hin & Hle & Hall).
  exists m. split; [exact Hr|]. simpl in *. rewrite drop_0 in *. split; [set_solver|]. by constructor.
Qed.

(** The whole of a reclamation, given the oldest local epoch. *)
Lemma reclaim_ok fuel s stub l m :
  garbage_is s stub l -> min_local_epoch s = Ok m -> (length l < fuel)%nat ->
  exists s', reclaim_epoch_garbage fuel s = Ok s' /\ same_epochs s s'
    /\ garbage_is s' stub (filter (fun x => ~ expired m s x) l)
    /\ em_freed s' = em_freed s ++ filter (expired m s) l.
Proof.
  intros (ns & Hl & <-) Hm Hf. unfold reclaim_epoch_garbage. rewrite Hm. cbn [mbind outcome_bind].
  destruct (reclaim_loop_ok fuel m s stub ns (None, None) []) as (d & s' & ms & Hr & Hms & Hsw & Hs & Hfr); [|done|].
  { split; [done| |set_solver]. repeat split. apply NoDup_nil_2. }
  rewrite Hr. cbn [mbind outcome_bind]. rewrite app_nil_l in Hsw. destruct Hsw as [Hl' (Hdc & Hdn & Hdt) Hdis].
  unfold queue_empty, queue_begin, queue_end. simpl in *.
  destruct (filter (fun x => ~ expired m s x) (without stub ns)) as [|b bs] eqn:Hflt.
  - simpl in Hdc. rewrite Hdc. rewrite bool_decide_true by done. exists s'. split; [done|]. split; [done|].
    split; [by exists ms|done].
  - pose proof Hdc as [Hd1 _]. rewrite bool_decide_false by congruence. rewrite Hd1 in Hdc |- *.
    rewrite Hdt. destruct (exists_last (l := b :: bs)) as (pre & a & Hpre); [done|].
    assert (Ha : last (b :: bs) = Some a) by (rewrite Hpre; apply last_snoc).
    rewrite Ha. destruct (mpsc_push_range_links _ _ _ b bs a Hl' Hdc Hdn) as (q & Hq & Hlq & _).
    { intros x Hx Hin. by destruct (Hdis x Hin). }
    { done. }
    rewrite Hq. cbn [mbind outcome_bind]. eexists. split; [reflexivity|]. split; [done|]. split; [|done].
    exists (ms ++ b :: bs). split; [done|]. unfold without in Hms |- *. rewrite filter_app, Hms, app_nil_l.
    apply (without_id stub (b :: bs)). by intros x [? _]%Hdis.
Qed.

(** [reclaim_epoch_garbage] terminates and passes to [std::free] exactly the queued
    nodes whose [remove_epoch] is smaller than every thread's local epoch, oldest first;
    all others stay queued in their order, and no node is freed that is not queued. *)
Theorem reclaim_frees_expired fuel s stub l :
  garbage_is s stub l -> em_local s <> [] -> (length l < fuel)%nat ->
  exists m s', min_local_epoch s = Ok m /\ m ∈ em_local s /\ Forall (fun e => m <= e) (em_local s)
    /\ reclaim_epoch_garbage fuel s = Ok s' /\ same_epochs s s'
    /\ garbage_is s' stub (filter (fun x => ~ expired m s x) l)
    /\ em_freed s' = em_freed s ++ filter (expired m s) l.
Proof.
  intros Hg Hne Hf. destruct (min_local_epoch_ok s Hne) as (m & Hm & Hin & Hall).
  destruct (reclaim_ok fuel s stub l m Hg Hm Hf) as (s' & ? & ? & ? & ?). exists m, s'. done.
Qed.

Lemma drain_ok fuel s stub l :
  garbage_is s stub l -> (length l < fuel)%nat ->
  exists s', drain fuel s = Ok s' /\ garbage_is s' stub [] /\ em_freed s' = em_freed s ++ l.
Proof.
  revert s l. induction fuel as [|fuel IH]; intros s l (ns & Hl & <-) Hf; [lia|]. cbn [drain].
  assert (Hsw : sweeping s stub ns (None, None) []).
  { split; [done| |set_solver]. repeat split. apply NoDup_nil_2. }
  destruct (sweep_pop _ _ _ _ _ Hsw) as (q & ms & -> & Hsw1 & Hms & Hx). cbn [mbind outcome_bind].
  destruct (without stub ns) as [|x l] eqn:Hw.
  { simpl. exists (set_queue q s). split; [done|]. split; [|by rewrite app_nil_r]. exists ms. split; [apply Hsw1|done]. }
  simpl in Hms, Hf. cbn [head]. cbv zeta. destruct (Hx x eq_refl) as (Hsome & Hxs & Hxm & Hxd).
  destruct (sweep_free _ _ _ _ _ x Hsw1 Hsome Hxs Hxm Hxd) as (s1 & -> & Hsw2 & _ & Hfr). cbn [mbind outcome_bind].
  destruct (IH s1 l) as (s' & -> & Hg & Hfr'); [|lia|].
  { exists ms. split; [apply Hsw2|done]. }
  exists s'. split; [done|]. split; [done|]. rewrite Hfr', Hfr. simpl. by rewrite <- app_assoc.
Qed.

(** A node handed to [add_to_garbage] is freed once: [stop] terminates and frees
    everything that is still queued, each node once and in order, and leaves the queue
    empty for the destructor. *)
Theorem stop_frees_all fuel s stub l :
  garbage_is s stub l -> (length l < fuel)%nat ->
  exists s', em_stop fuel s = Ok s' /\ garbage_is s' stub [] /\ em_freed s' = em_freed s ++ l /\ NoDup l.
Proof.
  intros Hg Hf. pose proof Hg as (ns & [_ _ _ Hnd _ _] & Hl).
  destruct (drain_ok fuel (set_running false s) stub l Hg Hf) as (s' & ? & ? & ?).
  exists s'. split; [done|]. split; [done|]. split; [done|]. rewrite <- Hl. by apply without_NoDup.
Qed.

Lemma add_to_garbage_ok s stub l x :
  garbage_is s stub l -> is_Some (m_items (em_queue s) !! x) -> x ∉ l -> x <> stub ->
  exists s', add_to_garbage (Some x) s = Ok s' /\ garbage_is s' stub (l ++ [x])
    /\ remove_epoch x s' = em_global s /\ (forall y, y <> x -> remove_epoch y s' = remove_epoch y s).
Proof.
  intros (ns & Hl & <-) Hx Hn Hne. unfold add_to_garbage. simpl.
  destruct (mpsc_push_back_links _ _ _ x Hl Hx) as (q & -> & Hl' & _).
  { intros Hin. apply Hn. by apply without_elem. }
  cbn [mbind outcome_bind]. eexists. split; [reflexivity|]. split; [|split].
  - exists (ns ++ [x]). split; [done|]. unfold without. rewrite filter_app. f_equal. by rewrite filter_cons_True.
  - unfold remove_epoch. simpl. by rewrite lookup_insert_eq.
  - intros y Hy. unfold remove_epoch. simpl. by rewrite lookup_insert_ne.
Qed.

(** While a thread is inside an [EpochGuard], a node removed since it joined survives
    every reclamation: [join_epoch] by thread [t], then [add_to_garbage] of [x], then any
    round of the epoch thread keeps [x] queued and does not free it. *)
Theorem guard_protects fuel s stub l t x s1 s2 :
  garbage_is s stub l -> (0 <= t < Z.of_nat (length (em_local s))) ->
  is_Some (m_items (em_queue s) !! x) -> x ∉ l -> x <> stub -> (S (length l) < fuel)%nat ->
  join_epoch t s = Ok s1 -> add_to_garbage (Some x) s1 = Ok s2 ->
  exists s3 l', epoch_round fuel s2 = Ok s3 /\ garbage_is s3 stub (l' ++ [x])
    /\ exists fr, em_freed s3 = em_freed s ++ fr /\ x ∉ fr.
Proof.
  intros Hg Ht Hx Hn Hne Hf Hj Ha. unfold join_epoch in Hj.
  rewrite <- (Z2Nat.id t), array_set_ok in Hj by lia. cbn [mbind outcome_bind] in Hj. injection Hj as <-.
  set (s0 := set_local (<[Z.to_nat t := em_global s]> (em_local s)) s) in *.
  destruct (add_to_garbage_ok s0 stub l x Hg Hx Hn Hne) as (s2' & Ha' & Hg2 & Hr & _).
  rewrite Ha' in Ha. injection Ha as ->.
  assert (Hs2 : em_local s2 = em_local s0 /\ em_freed s2 = em_freed s).
  { revert Ha'. unfold add_to_garbage. destruct (mpsc_push_back _ _); [|done]. intros [= <-]. done. }
  destruct Hs2 as [Hloc Hfr]. set (s3 := set_global (u32 (em_global s2 + 1)) s2).
  assert (Hlt : (Z.to_nat t < length (em_local s))%nat) by lia.
  destruct (min_local_epoch_ok s3) as (m & Hm & _ & Hall).
  { simpl. rewrite Hloc. simpl. intros He%(f_equal length). rewrite length_insert in He. simpl in He. lia. }
  assert (Hmg : m <= em_global s).
  { rewrite Forall_forall in Hall. apply Hall. simpl. rewrite Hloc. simpl.
    apply list_elem_of_lookup. exists (Z.to_nat t). by apply list_lookup_insert_eq. }
  destruct (reclaim_ok fuel s3 stub (l ++ [x]) m Hg2 Hm) as (s4 & Hrun & _ & Hg4 & Hfr4).
  { rewrite length_app. simpl. lia. }
  assert (Hkeep : ~ expired m s3 x) by (unfold expired; change (remove_epoch x s3) with (remove_epoch x s2); rewrite Hr; simpl; lia).
  exists s4, (filter (fun x => ~ expired m s3 x) l). split; [done|]. split.
  - rewrite filter_app in Hg4. by rewrite filter_cons_True in Hg4.
  - exists (filter (expired m s3) (l ++ [x])). split; [rewrite Hfr4; simpl; by rewrite Hfr|].
    rewrite list_elem_of_filter. tauto.
Qed.

(** ** Workers and the epoch thread, interleaved

    The atomic accesses of [join_epoch] (a load, then a store), [leave_epoch],
    [add_to_garbage] (a load, then a push) and [reclaim_epoch_garbage] (one load per
    thread, then one pop per node) are steps of their own.  The garbage queue is the
    list of [Queues.v], each node with its [remove_epoch]. *)
Inductive worker_pc : Type :=
  | WIdle
  | WLoaded (epoch : Z)                (* [_global_epoch] loaded, not yet stored *)
  | WJoined.
Record worker : Type := mkWorker {
  w_pc : worker_pc;
  w_local : Z;                         (* [_local_epochs[t]] *)
  w_held : gset loc }.                 (* nodes it has read a pointer to *)
Inductive reclaimer : Type :=
  | RIdle
  | RScan (i : nat) (min_epoch : Z)    (* [min_local_epoch], thread [i] next *)
  | RSweep (min_epoch : Z) (deferred : list (loc * Z))
  | RPut (deferred : list (loc * Z)).  (* about to push the deferred garbage back *)
Record epoch_state : Type := mkES {
  es_ticks : Z;                        (* how often the epoch was advanced *)
  es_global : Z;
  es_workers : list worker;
  es_linked : gset loc;                (* nodes reachable in the tree *)
  es_unlinked : gset loc;              (* unlinked, [add_to_garbage] still to load the epoch *)
  es_stamped : list (loc * Z);         (* epoch stored, not yet pushed *)
  es_garbage : list (loc * Z);
  es_reclaimer : reclaimer;
  es_late : gset loc }.                (* pushed since the current reclamation began *)

Inductive epoch_event : Type := Freed (x : loc) | Other.

(** Garbage anywhere between its stamp and [std::free]. *)
Definition deferred_of (r : reclaimer) : list (loc * Z) :=
  match r with RSweep _ d | RPut d => d | _ => [] end.
Definition queued (s : epoch_state) : list (loc * Z) := es_garbage s ++ deferred_of (es_reclaimer s).
Definition waiting (s : epoch_state) : list (loc * Z) := es_stamped s ++ queued s.

Inductive epoch_step : epoch_state -> epoch_event -> epoch_state -> Prop :=
  | es_load n g ws li un st q rc la t l :
      ws !! t = Some (mkWorker WIdle l ∅) ->
      epoch_step (mkES n g ws li un st q rc la) Other
        (mkES n g (<[t := mkWorker (WLoaded g) l ∅]> ws) li un st q rc la)
  | es_store n g ws li un st q rc la t l e :
      ws !! t = Some (mkWorker (WLoaded e) l ∅) ->
      epoch_step (mkES n g ws li un st q rc la) Other
        (mkES n g (<[t := mkWorker WJoined e ∅]> ws) li un st q rc la)
  | es_leave n g ws li un st q rc la t l h :
      ws !! t = Some (mkWorker WJoined l h) ->
      epoch_step (mkES n g ws li un st q rc la) Other
        (mkES n g (<[t := mkWorker WIdle max_u32 ∅]> ws) li un st q rc la)
  (* a worker follows a pointer to a node of the tree *)
  | es_reach n g ws li un st q rc la t l h x :
      ws !! t = Some (mkWorker WJoined l h) -> x ∈ li ->
      epoch_step (mkES n g ws li un st q rc la) Other
        (mkES n g (<[t := mkWorker WJoined l ({[ x ]} ∪ h)]> ws) li un st q rc la)
  (* a node is allocated and linked, unlinked, and handed to [add_to_garbage] *)
  | es_link n g ws li un st q rc la x :
      x ∉ un -> (forall r, (x, r) ∉ waiting (mkES n g ws li un st q rc la)) ->
      epoch_step (mkES n g ws li un st q rc la) Other (mkES n g ws ({[ x ]} ∪ li) un st q rc la)
  | es_unlink n g ws li un st q rc la x :
      x ∈ li ->
      epoch_step (mkES n g ws li un st q rc la) Other
        (mkES n g ws (li ∖ {[ x ]}) ({[ x ]} ∪ un) st q rc la)
  | es_stamp n g ws li un st q rc la x :
      x ∈ un ->
      epoch_step (mkES n g ws li un st q rc la) Other
        (mkES n g ws li (un ∖ {[ x ]}) ((x, g) :: st) q rc la)
  | es_push n g ws li un st1 st2 q rc la x r :
      epoch_step (mkES n g ws li un (st1 ++ (x, r) :: st2) q rc la) Other
        (mkES n g ws li un (st1 ++ st2) (q ++ [(x, r)]) rc ({[ x ]} ∪ la))
  (* the epoch thread *)
  | es_tick n g ws li un st q la :
      epoch_step (mkES n g ws li un st q RIdle la) Other
        (mkES (n + 1) (u32 (g + 1)) ws li un st q (RScan 0 0) ∅)
  | es_scan n g ws li un st q la i m w :
      ws !! i = Some w ->
      epoch_step (mkES n g ws li un st q (RScan i m) la) Other
        (mkES n g ws li un st q
           (RScan (S i) (if decide (i = 0%nat) then w_local w else Z.min m (w_local w))) la)
  | es_scanned n g ws li un st q la i m :
      i = length ws ->
      epoch_step (mkES n g ws li un st q (RScan i m) la) Other
        (mkES n g ws li un st q (RSweep m []) la)
  | es_free n g ws li un st q la m d x r :
      r < m ->
      epoch_step (mkES n g ws li un st ((x, r) :: q) (RSweep m d) la) (Freed x)
        (mkES n g ws li un st q (RSweep m d) la)
  | es_defer n g ws li un st q la m d x r :
      m <= r ->
      epoch_step (mkES n g ws li un st ((x, r) :: q) (RSweep m d) la) Other
        (mkES n g ws li un st q (RSweep m (d ++ [(x, r)])) la)
  (* [pop_front] returned null, because the queue is empty or a push is half done *)
  | es_finish n g ws li un st q la m d :
      epoch_step (mkES n g ws li un st q (RSweep m d) la) Other
        (mkES n g ws li un st q (RPut d) la)
  | es_put n g ws li un st q la d :
      epoch_step (mkES n g ws li un st q (RPut d) la) Other
        (mkES n g ws li un st (q ++ d) RIdle la).

Inductive epoch_reaches (s0 : epoch_state) : epoch_state -> Prop :=
  | er_start : epoch_reaches s0 s0
  | er_step s ev s' : epoch_reaches s0 s -> epoch_step s ev s' -> epoch_reaches s0 s'.
(** [count_threads] workers that have not joined yet, a tree with nodes [li]. *)
Definition epoch_start (count_threads : nat) (li : gset loc) : epoch_state :=
  mkES 0 0 (replicate count_threads (mkWorker WIdle 0 ∅)) li ∅ [] [] RIdle ∅.

(** *** The invariant *)
Definition scanned (r : reclaimer) (t : nat) : option Z :=
  match r with
  | RScan i m => if decide (t < i)%nat then Some m else None
  | RSweep m _ => Some m
  | _ => None
  end.
Record worker_ok (s : epoch_state) (t : nat) (w : worker) : Prop := {
  wo_loaded : forall e, w_pc w = WLoaded e -> e <= es_global s;
  wo_joined : w_pc w = WJoined -> w_local w <= es_global s;
  wo_outside : w_pc w <> WJoined -> w_held w = ∅;
  wo_stamp : forall x r, x ∈ w_held w -> (x, r) ∈ waiting s -> w_local w <= r;
  wo_scan : forall x r m, x ∈ w_held w -> (x, r) ∈ queued s -> x ∉ es_late s ->
    scanned (es_reclaimer s) t = Some m -> m <= r }.
Record epoch_inv (s : epoch_state) : Prop := {
  ei_clock : es_global s = es_ticks s;
  ei_workers : forall t w, es_workers s !! t = Some w -> worker_ok s t w;
  ei_linked : forall x, x ∈ es_linked s -> (x ∉ es_unlinked s) /\ forall r, (x, r) ∉ waiting s }.

Lemma worker_ok_step s s' t w :
  worker_ok s t w -> es_global s <= es_global s' ->
  (forall x r, (x, r) ∈ waiting s' -> (x, r) ∈ waiting s \/ r = es_global s) ->
  (forall x r m, x ∈ w_held w -> (x, r) ∈ queued s' -> x ∉ es_late s' -> scanned (es_reclaimer s') t = Some m ->
     (x, r) ∈ queued s /\ (x ∉ es_late s) /\ scanned (es_reclaimer s) t = Some m \/ m <= r) ->
  worker_ok s' t w.
Proof.
  intros [Hl Hj Ho Hst Hsc] Hg Hw Hq. split; auto.
  - intros e He. specialize (Hl e He). lia.
  - intros Hjo. specialize (Hj Hjo). lia.
  - intros x r Hx Hr. destruct (Hw x r Hr) as [?| ->]; [by eapply Hst|]. apply Hj.
    destruct (w_pc w); [|..|done]; rewrite Ho in Hx by done; set_solver.
  - intros x r m Hx Hr Hla Hm. destruct (Hq x r m Hx Hr Hla Hm) as [(?&?&?)|?]; [|done]. by eapply Hsc.
Qed.
(** A worker moves, nothing else does. *)
Lemma epoch_inv_worker n g ws li un st q rc la t w :
  epoch_inv (mkES n g ws li un st q rc la) -> worker_ok (mkES n g ws li un st q rc la) t w ->
  epoch_inv (mkES n g (<[t := w]> ws) li un st q rc la).
Proof.
  intros [Hc Hw Hl] Hok. split; [done| |done]. simpl in *.
  intros t' w' [(<- & <- & _)|[_ Hw']]%list_lookup_insert_Some.
  - by destruct Hok; split.
  - by destruct (Hw t' w' Hw'); split.
Qed.
(** Only the garbage and the epoch thread move. *)
Lemma epoch_inv_garbage s s' :
  epoch_inv s -> es_workers s' = es_workers s -> es_global s' = es_ticks s' -> es_global s <= es_global s' ->
  (forall x, x ∈ es_linked s' -> (x ∉ es_unlinked s') /\ forall r, (x, r) ∉ waiting s') ->
  (forall x r, (x, r) ∈ waiting s' -> (x, r) ∈ waiting s \/ r = es_global s) ->
  (forall t w x r m, es_workers s !! t = Some w -> x ∈ w_held w -> (x, r) ∈ queued s' -> x ∉ es_late s' ->
     scanned (es_reclaimer s') t = Some m ->
     (x, r) ∈ queued s /\ (x ∉ es_late s) /\ scanned (es_reclaimer s) t = Some m \/ m <= r) ->
  epoch_inv s'.
Proof.
  intros [Hc Hw Hl] Hws Hck Hg Hli Hwt Hsc. split; [done| |done]. rewrite Hws. intros t w Ht.
  eapply worker_ok_step; eauto.
Qed.
Lemma worker_ok_empty s t pc l :
  (forall e, pc = WLoaded e -> e <= es_global s) -> (pc = WJoined -> l <= es_global s) ->
  worker_ok s t (mkWorker pc l ∅).
Proof. intros H1 H2. split; simpl; auto; set_solver. Qed.

Lemma epoch_start_inv n li : epoch_inv (epoch_start n li).
Proof.
  split; simpl; [done| |].
  - intros t w [-> _]%lookup_replicate. by apply worker_ok_empty.
  - intros x Hx. split; [set_solver|]. intros r. apply not_elem_of_nil.
Qed.

Ltac garbage_step := eapply epoch_inv_garbage; [eassumption|reflexivity|simpl in *; lia|simpl; lia|..]; simpl;
  unfold waiting, queued in *; simpl in *.
Lemma epoch_step_inv s ev s' :
  epoch_step s ev s' -> es_ticks s' <= max_u32 -> 0 <= es_ticks s -> epoch_inv s -> epoch_inv s'.
Proof.
  intros Hst Hmax H0 Hi. pose proof Hi as [Hck Hws Hli].
  destruct Hst as [n g ws li un st q rc la t l Ht|n g ws li un st q rc la t l e Ht|n g ws li un st q rc la t l h Ht
    |n g ws li un st q rc la t l h x Ht Hx|n g ws li un st q rc la x Hu Hw|n g ws li un st q rc la x Hx
    |n g ws li un st q rc la x Hx|n g ws li un st1 st2 q rc la x r|n g ws li un st q la|n g ws li un st q la i m w Ht
    |n g ws li un st q la i m ->|n g ws li un st q la m d x r Hr|n g ws li un st q la m d x r Hr|n g ws li un st q la m d
    |n g ws li un st q la d]; simpl in *.
  - apply epoch_inv_worker; [done|]. apply worker_ok_empty; [|done]. intros e [= <-]. done.
  - apply epoch_inv_worker; [done|]. destruct (Hws t _ Ht) as [Hl _ _ _ _]. apply worker_ok_empty; [done|].
    intros _. by apply Hl.
  - apply epoch_inv_worker; [done|]. by apply worker_ok_empty.
  - apply epoch_inv_worker; [done|]. destruct (Hws t _ Ht) as [Hl Hj Ho Hs Hc].
    destruct (Hli x Hx) as [_ Hxw]. unfold waiting in *.
    split; simpl in *; auto; [done|..].
    + intros y r [->%elem_of_singleton|Hy]%elem_of_union Hr; [by apply Hxw in Hr|by eapply Hs].
    + intros y r m [->%elem_of_singleton|Hy]%elem_of_union Hr; [|by eapply Hc].
      exfalso. apply (Hxw r). apply elem_of_app. by right.
  - garbage_step; [|by auto|by auto]. intros y [->%elem_of_singleton|Hy]%elem_of_union; [done|by apply Hli].
  - garbage_step; [|by auto|by auto]. intros y [Hy Hn]%elem_of_difference. destruct (Hli y Hy). set_solver.
  - garbage_step; [| |by auto].
    + intros y Hy. destruct (Hli y Hy) as [Hyu Hyw]. split; [set_solver|]. intros r [[= -> _]|Hr]%elem_of_cons; [done|].
      by apply (Hyw r).
    + intros y r [[= -> ->]|Hr]%elem_of_cons; [by right|by left].
  - garbage_step.
    + intros y Hy. destruct (Hli y Hy) as [Hyu Hyw]. split; [done|]. intros r' Hr. apply (Hyw r'). set_solver.
    + intros y r' Hr. left. set_solver.
    + intros t w y r' m Hw Hy Hr Hla Hm. left. set_solver.
  - rewrite u32_small by lia. garbage_step; [done|by auto|]. done.
  - garbage_step; [done|by auto|]. intros t w' x r m' Hw Hx Hr Hla Hm.
    destruct (decide (t < S i)%nat) as [Hlt|]; [|done]. injection Hm as <-.
    destruct (decide (t = i)) as [->|Hne].
    + right. assert (w' = w) as -> by congruence.
      destruct (Hws i w Ht) as [_ _ _ Hs _]. assert (w_local w <= r) by (eapply Hs; [done|]; unfold waiting, queued; set_solver).
      case_decide; lia.
    + right. destruct (Hws t w' Hw) as [_ _ _ _ Hc].
      assert (m <= r). { eapply Hc; [done|unfold queued; simpl; done|done|]. simpl. by rewrite decide_True by lia. }
      rewrite decide_False by lia. lia.
  - garbage_step; [done|by auto|]. intros t w x r m' Hw Hx Hr Hla [= <-]. left. split; [done|]. split; [done|].
    rewrite decide_True; [done|]. by eapply lookup_lt_Some.
  - garbage_step; [set_solver| |].
    + intros y r' Hy. left. set_solver.
    + intros t w y r' m' Hw Hy Hr' Hla Hm. left. set_solver.
  - garbage_step; [set_solver| |].
    + intros y r' Hy. left. set_solver.
    + intros t w y r' m' Hw Hy Hr' Hla Hm. left. set_solver.
  - garbage_step; [done|by auto|done].
  - garbage_step; [set_solver| |done]. intros y r' Hy. left. set_solver.
Qed.

Lemma epoch_reaches_inv s0 s :
  epoch_inv s0 -> es_ticks s0 = 0 -> epoch_reaches s0 s ->
  0 <= es_ticks s /\ (es_ticks s <= max_u32 -> epoch_inv s).
Proof.
  intros Hi H0. induction 1 as [|s ev s' Hr [Hn IH] Hst]; [rewrite H0; split; [done|by intros]|].
  assert (es_ticks s <= es_ticks s') by (destruct Hst; simpl; lia). split; [lia|]. intros Hmax.
  eapply epoch_step_inv; [done|done|done|]. apply IH. lia.
Qed.

(** C7: epoch-based reclamation is safe for garbage that was queued before the
    reclamation began: as long as the 32-bit epoch has not wrapped around, no
    interleaving of workers with the epoch thread frees such a node while a thread inside
    its [EpochGuard] holds a pointer to it.  This covers a worker that is suspended
    between the load and the store of [join_epoch]. *)
Theorem epoch_reclamation_safe count_threads li s s' x t w :
  epoch_reaches (epoch_start count_threads li) s -> es_ticks s <= max_u32 ->
  epoch_step s (Freed x) s' -> x ∉ es_late s -> es_workers s !! t = Some w -> x ∉ w_held w.
Proof.
  intros Hr Hmax Hst Hla Hw Hx.
  destruct (epoch_reaches_inv _ _ (epoch_start_inv count_threads li) eq_refl Hr) as [_ Hi].
  destruct (Hi Hmax) as [_ Hws _]. inversion Hst as [| | | | | | | | | | |n g ws li' un st q la m d y r Hrm| | |]; subst.
  simpl in *. destruct (Hws t w Hw) as [_ _ _ _ Hc].
  assert (m <= r) by (eapply Hc; [done|unfold queued; simpl; set_solver|done|done]). lia.
Qed.

Tactic Notation "forward" hyp(H) uconstr(stp) :=
  eapply er_step in H; [|eapply stp; first [reflexivity|set_solver]]; cbn in H.

(** Garbage queued during a reclamation is not protected: [min_local_epoch] is read
    before the queue is, so with every thread outside a guard at that moment (each local
    epoch is the maximum) a thread that then joins, reaches a node and has it removed
    under it sees this node freed while it still holds the pointer. *)
Theorem late_garbage_freed_in_use :
  exists s s' x w, epoch_reaches (epoch_start 1 {[ 7%positive ]}) s /\ epoch_step s (Freed x) s'
    /\ es_workers s !! 0%nat = Some w /\ w_pc w = WJoined /\ x ∈ w_held w.
Proof.
  pose proof (er_start (epoch_start 1 {[ 7%positive ]})) as H. unfold epoch_start in H.
  forward H (es_load _ _ _ _ _ _ _ _ _ 0%nat).
  forward H (es_store _ _ _ _ _ _ _ _ _ 0%nat).
  forward H (es_leave _ _ _ _ _ _ _ _ _ 0%nat).
  forward H (es_tick _ _ _ _ _ _ _ _).
  forward H (es_scan _ _ _ _ _ _ _ _ 0%nat).
  forward H (es_scanned _ _ _ _ _ _ _ _ _ _).
  forward H (es_load _ _ _ _ _ _ _ _ _ 0%nat).
  forward H (es_store _ _ _ _ _ _ _ _ _ 0%nat).
  forward H (es_reach _ _ _ _ _ _ _ _ _ 0%nat _ _ 7%positive).
  forward H (es_unlink _ _ _ _ _ _ _ _ _ 7%positive).
  forward H (es_stamp _ _ _ _ _ _ _ _ _ 7%positive).
  forward H (es_push _ _ _ _ _ [] [] _ _ _ _ _).
  eexists _, _, 7%positive, _. split; [exact H|]. split; [by apply es_free|].
  split; [reflexivity|]. split; [reflexivity|]. simpl. set_solver.
Qed.

(** ** Concrete managers *)
Module EpochExamples.

(** Nodes 2 and 3 were removed in epochs 3 and 6; the threads joined in 5 and 7; node 4
    is still in the tree. *)
Definition two_queued : EpochManager := mkEM 2 [5; 7] 8 true
  (mkMpsc {[ 1%positive := Some 2%positive; 2%positive := Some 3%positive; 3%positive := None; 4%positive := None ]}
     (Some 3%positive) (Some 1%positive) (Some 1%positive))
  {[ 2%positive := 3; 3%positive := 6 ]} [].
Lemma two_queued_garbage : garbage_is two_queued 1%positive [2%positive; 3%positive].
Proof.
  exists [1%positive; 2%positive; 3%positive]. split; [|reflexivity]. split; simpl; try done.
  - split; [done|]. eexists. split; [reflexivity|]. split; [done|]. eexists. split; [reflexivity|].
    split; [done|]. eexists. split; reflexivity.
  - by repeat constructor; set_solver.
Qed.
Lemma reclaim_frees_expired_witness :
  exists m s', min_local_epoch two_queued = Ok m /\ m ∈ em_local two_queued
    /\ Forall (fun e => m <= e) (em_local two_queued)
    /\ reclaim_epoch_garbage 3 two_queued = Ok s' /\ same_epochs two_queued s'
    /\ garbage_is s' 1%positive (filter (fun x => ~ expired m two_queued x) [2%positive; 3%positive])
    /\ em_freed s' = em_freed two_queued ++ filter (expired m two_queued) [2%positive; 3%positive].
Proof.
  apply (reclaim_frees_expired 3 two_queued 1%positive [2%positive; 3%positive]).
  - apply two_queued_garbage.
  - done.
  - simpl. lia.
Defined.
(** Evaluated: node 2 is freed, node 3 is not. *)
Example two_queued_freed : exists s', reclaim_epoch_garbage 3 two_queued = Ok s' /\ em_freed s' = [2%positive].
Proof. eexists. split; vm_compute; reflexivity. Qed.

Lemma stop_frees_all_witness :
  exists s', em_stop 3 two_queued = Ok s' /\ garbage_is s' 1%positive []
    /\ em_freed s' = [2%positive; 3%positive] /\ NoDup [2%positive; 3%positive].
Proof.
  apply (stop_frees_all 3 two_queued 1%positive [2%positive; 3%positive]).
  - apply two_queued_garbage.
  - simpl. lia.
Defined.

Definition joined : EpochManager := set_local [8; 7] two_queued.
Definition removed_four : EpochManager :=
  set_queue (mkMpsc (<[3%positive := Some 4%positive]> (<[4%positive := None]> (m_items (em_queue two_queued))))
      (Some 4%positive) (Some 1%positive) (Some 1%positive))
    (set_removed 4%positive 8 joined).
Lemma guard_protects_witness :
  exists s3 l', epoch_round 4 removed_four = Ok s3 /\ garbage_is s3 1%positive (l' ++ [4%positive])
    /\ exists fr, em_freed s3 = em_freed two_queued ++ fr /\ 4%positive ∉ fr.
Proof.
  apply (guard_protects 4 two_queued 1%positive [2%positive; 3%positive] 0 4%positive joined removed_four).
  - apply two_queued_garbage.
  - simpl. lia.
  - by eexists.
  - set_solver.
  - done.
  - simpl. lia.
  - reflexivity.
  - reflexivity.
Defined.

(** Node 7 is queued, then the only thread joins and leaves, then a reclamation runs. *)
Lemma old_garbage_run : exists s s' w, epoch_reaches (epoch_start 1 {[ 7%positive ]}) s /\ es_ticks s <= max_u32
  /\ epoch_step s (Freed 7%positive) s' /\ 7%positive ∉ es_late s /\ es_workers s !! 0%nat = Some w.
Proof.
  pose proof (er_start (epoch_start 1 {[ 7%positive ]})) as H. unfold epoch_start in H.
  forward H (es_unlink _ _ _ _ _ _ _ _ _ 7%positive).
  forward H (es_stamp _ _ _ _ _ _ _ _ _ 7%positive).
  forward H (es_push _ _ _ _ _ [] [] _ _ _ _ _).
  forward H (es_load _ _ _ _ _ _ _ _ _ 0%nat).
  forward H (es_store _ _ _ _ _ _ _ _ _ 0%nat).
  forward H (es_leave _ _ _ _ _ _ _ _ _ 0%nat).
  forward H (es_tick _ _ _ _ _ _ _ _).
  forward H (es_scan _ _ _ _ _ _ _ _ 0%nat).
  forward H (es_scanned _ _ _ _ _ _ _ _ _ _).
  eexists _, _, _. split; [exact H|]. split; [simpl; unfold max_u32; lia|]. split; [by apply es_free|].
  split; [simpl; set_solver|reflexivity].
Qed.
Lemma epoch_reclamation_safe_witness :
  exists s w, epoch_reaches (epoch_start 1 {[ 7%positive ]}) s /\ es_workers s !! 0%nat = Some w
    /\ 7%positive ∉ w_held w.
Proof.
  destruct old_garbage_run as (s & s' & w & Hr & Hm & Hst & Hla & Hw).
  exists s, w. split; [done|]. split; [done|].
  apply (epoch_reclamation_safe 1 {[ 7%positive ]} s s' 7%positive 0 w); done.
Defined.

End EpochExamples.
