(* ===== verification/Checker.v ===== *)
(** * Walking the tree: consistency checker and statistics

    Models [src/src/indices/blinktree/consistency_checker.{h,cpp}],
    [tree_statistics.{h,cpp}], the loops [Tree::check] and [Tree::print_statistics] of
    [tree.cpp] over the iterator of [tree.h], and the destructors of [Node] and [Tree].
    On a tree that satisfies the invariant of [BlinkInv.v] the iterator visits every
    node once, the structural checks report nothing and the statistics are exact. *)

From S2P Require Import Prelude Node Tree TreeFacts BlinkInv Capacity Locks ThreadTree LatchedTree.

(** ** [ConsistencyChecker] *)

(** The messages of [check_node_and_print_errors]. *)
Inductive check_error : Set :=
  | WrongHighKey | WrongKeyOrder | NullSeparator | WrongChildren | WrongLevel
  | WrongParent1 | WrongParent2 | WrongParent3.
(** What was written to the stream, with the node each message names. *)
Abbreviation report := (list (check_error * ptr)).

Section Checks.
Context {PF : Platform}.

(** [leaf_key(size() - 1)] or [inner_key(size() - 1)]: the index is a 16-bit number. *)
Definition last_key (n : Node) : outcome Z :=
  if is_leaf n then leaf_key n (u16 (size n - 1)) else inner_key n (u16 (size n - 1)).

Definition is_high_key_valid (node : ptr) : TM bool :=
  n ← deref node;
  k ← lift (last_key n);
  mret (k <? high_key n).

(** The loop of [is_key_order_valid] from [index] on. *)
Fixpoint key_order_from (todo : nat) (index : Z) (n : Node) : outcome bool :=
  match todo with
  | O => Ok true
  | S todo =>
      a ← node_key n (index - 1);
      b ← node_key n index;
      if b <=? a then Ok false else key_order_from todo (index + 1) n
  end.
Definition is_key_order_valid (node : ptr) : TM bool :=
  n ← deref node;
  lift (key_order_from (Z.to_nat (size n - 1)) 1 n).

Fixpoint no_null_from (todo : nat) (index : Z) (n : Node) : outcome bool :=
  match todo with
  | O => Ok true
  | S todo =>
      p ← separator n index;
      match p with None => Ok false | Some _ => no_null_from todo (index + 1) n end
  end.
Definition is_no_null_separator (node : ptr) : TM bool :=
  n ← deref node;
  if is_inner n then lift (no_null_from (Z.to_nat (size n + 1)) 0 n) else mret true.

Fixpoint children_order_from (todo : nat) (index : Z) (n : Node) : TM bool :=
  match todo with
  | O => mret true
  | S todo =>
      c ← lift (separator n index);
      child ← deref c;
      child_last_key ← lift (last_key child);
      k ← lift (inner_key n index);
      if k <=? child_last_key then mret false else children_order_from todo (index + 1) n
  end.
Definition is_children_order_valid (node : ptr) : TM bool :=
  n ← deref node;
  if is_inner n then children_order_from (Z.to_nat (size n)) 0 n else mret true.

Fixpoint level_from (todo : nat) (index : Z) (n : Node) : TM bool :=
  match todo with
  | O => mret true
  | S todo =>
      p ← lift (separator n index);
      a ← deref p;
      q ← lift (separator n (index + 1));
      b ← deref q;
      if decide (is_leaf a = is_leaf b) then level_from todo (index + 1) n else mret false
  end.
Definition is_level_valid (node : ptr) : TM bool :=
  n ← deref node;
  siblings ← (match right_sibling n with
              | None => mret true
              | Some r => m ← deref (Some r); mret (bool_decide (is_leaf n = is_leaf m))
              end);
  if negb siblings then mret false
  else if is_inner n then level_from (Z.to_nat (size n)) 0 n else mret true.

(** The first index whose separator is [sep]; [size() + 1] when there is none. *)
Fixpoint separator_index (todo : nat) (index : Z) (n : Node) (sep : ptr) : outcome Z :=
  match todo with
  | O => Ok index
  | S todo =>
      p ← separator n index;
      if decide (p = sep) then Ok index else separator_index todo (index + 1) n sep
  end.
Definition check_and_print_parent (node : ptr) : TM report :=
  n ← deref node;
  match parent n with
  | None => mret []
  | Some _ =>
      par ← deref (parent n);
      contained ← lift (contains_separator par node);
      if negb contained then mret [(WrongParent1, node)]
      else
        index ← lift (separator_index (Z.to_nat (size par + 1)) 0 par node);
        if index <? size par then
          k ← lift (node_key n (u16 (size n - 1)));
          pk ← lift (inner_key par index);
          mret (if k <? pk then [] else [(WrongParent2, node)])
        else
          k ← lift (node_key n 0);
          pk ← lift (inner_key par (u16 (index - 1)));
          mret (if pk <=? k then [] else [(WrongParent3, node)])
  end.

Definition complain (ok : bool) (e : check_error) (node : ptr) : report :=
  if ok then [] else [(e, node)].
(** The five checks of the node and its children, without the parent. *)
Definition check_node_structure (node : ptr) : TM report :=
  b1 ← is_high_key_valid node;
  b2 ← is_key_order_valid node;
  b3 ← is_no_null_separator node;
  b4 ← is_children_order_valid node;
  b5 ← is_level_valid node;
  mret (complain b1 WrongHighKey node ++ complain b2 WrongKeyOrder node ++ complain b3 NullSeparator node
        ++ complain b4 WrongChildren node ++ complain b5 WrongLevel node).
Definition check_node_and_print_errors (node : ptr) : TM report :=
  structure ← check_node_structure node;
  par ← check_and_print_parent node;
  mret (structure ++ par).

(** [Tree::check]. *)
Definition check (fuel : nat) : TM report :=
  for_each fuel (fun acc node => r ← check_node_and_print_errors node; mret (acc ++ r)) [].

(** ** [TreeStatistics] *)
Record TreeStatistics : Type := mkStats {
  count_inner_nodes : Z;
  count_leaf_nodes : Z;
  count_inner_node_keys : Z;
  count_leaf_node_keys : Z;
  stat_height : Z }.
Definition new_statistics (s : TreeState) : TreeStatistics := mkStats 0 0 0 0 (height s).

(** What [collect_node_statistics] adds for a node, to 64-bit counters. *)
Definition count_node (st : TreeStatistics) (n : Node) : TreeStatistics :=
  mkStats (u64 (count_inner_nodes st + Z.b2z (is_inner n)))
    (u64 (count_leaf_nodes st + Z.b2z (is_leaf n)))
    (u64 (count_inner_node_keys st + Z.b2z (is_inner n) * size n))
    (u64 (count_leaf_node_keys st + Z.b2z (is_leaf n) * size n))
    (stat_height st).
Definition collect_node_statistics (st : TreeStatistics) (node : ptr) : TM TreeStatistics :=
  n ← deref node; mret (count_node st n).

(** The numbers [print_statistics] prints. *)
Definition print_statistics (fuel : nat) : TM TreeStatistics :=
  st ← gets new_statistics;
  for_each fuel collect_node_statistics st.

(** ** Destructors *)

(** [delete] of a node: [~Node] deletes every separator that is not null, then the node
    itself is gone. *)
Fixpoint delete_tree_node (fuel : nat) (p : ptr) : TM unit :=
  match fuel with
  | O => lift (Fault OutOfFuel)
  | S fuel =>
      n ← deref p;
      (match payload n with
       | InnerNode _ separators =>
           (fix go (todo : nat) (i : Z) : TM unit :=
              match todo with
              | O => mret tt
              | S todo =>
                  c ← lift (array_get separators i);
                  (match c with Some _ => delete_tree_node fuel c | None => mret tt end);;
                  go todo (i + 1)
              end) (Z.to_nat (size n + 1)) 0
       | LeafNode _ _ => mret tt
       end);;
      modify (fun s => mkTree (match p with Some l => delete l (heap s) | None => heap s end)
                              (next_loc s) (root_node s) (tree_height s))
  end.
(** [Tree::~Tree]. *)
Definition delete_tree (fuel : nat) : TM unit := r ← root; delete_tree_node fuel r.

End Checks.

(** ** The iterator visits every node once *)
Section Walk.
Context {PF : Platform} {PFok : PlatformOk}.

Lemma ahead_sibling G h l n lo lv r x :
  heap_inv G h -> h !! l = Some n -> G !! l = Some (lo, lv) -> right_sibling n = Some r ->
  x ∈ ahead G lo lv <-> x = r \/ x ∈ ahead G (high_key n) lv.
Proof.
  intros Hh Hl Gl Hr. destruct (hi_node _ _ Hh _ _ _ _ Hl Gl) as [[Hlo Hhi] Hs _].
  unfold sibling_inv in Hs. rewrite Hr in Hs. rewrite !elem_of_ahead. split.
  - intros (lo' & lv' & Gx & [Hlt|[-> Hlt]]); [right; eauto|].
    destruct (Z.lt_ge_cases lo' (high_key n)) as [Hin|Hge].
    { pose proof (hi_inside _ _ _ _ _ _ _ _ Hh Hl Gl Gx). lia. }
    destruct (decide (lo' = high_key n)) as [->|Hne]; [left|right; exists lo', lv; split; [done|right; lia]].
    destruct (hi_lookup _ _ _ _ _ Hh Gx) as (nx & Hx & [[? ?] _ _]).
    destruct (hi_lookup _ _ _ _ _ Hh Hs) as (nr & Hnr & [[? ?] _ _]).
    eapply (hi_unique G h x r _ _ lv nx nr (high_key n)); eauto; lia.
  - intros [->|(lo' & lv' & Gx & Hlt)]; [exists (high_key n), lv; split; [done|right; lia]|].
    exists lo', lv'. split; [done|lia].
Qed.
Lemma ahead_below G h l n lo lv c x :
  heap_inv G h -> h !! l = Some n -> G !! l = Some (lo, S lv) -> right_sibling n = None ->
  G !! c = Some (0, lv) -> x ∈ ahead G lo (S lv) <-> x = c \/ x ∈ ahead G 0 lv.
Proof.
  intros Hh Hl Gl Hr Gc. destruct (hi_node _ _ Hh _ _ _ _ Hl Gl) as [[Hlo Hhi] Hs _].
  unfold sibling_inv in Hs. rewrite Hr in Hs. rewrite !elem_of_ahead. split.
  - intros (lo' & lv' & Gx & Hor). destruct (hi_lookup _ _ _ _ _ Hh Gx) as (nx & Hx & [[? ?] _ _]).
    destruct Hor as [Hlt|[-> Hlt]].
    + destruct (decide (lv' = lv)) as [->|]; [|right; exists lo', lv'; split; [done|left; lia]].
      destruct (decide (lo' = 0)) as [->|]; [left|right; exists lo', lv; split; [done|right; lia]].
      destruct (hi_lookup _ _ _ _ _ Hh Gc) as (nc & Hc & [[? ?] _ _]).
      eapply (hi_unique G h x c _ _ lv nx nc 0); eauto; lia.
    + pose proof (hi_inside _ _ _ _ _ _ _ _ Hh Hl Gl Gx). lia.
  - intros [->|(lo' & lv' & Gx & Hlt)]; [exists 0, lv; split; [done|left; lia]|].
    exists lo', lv'. split; [done|left; lia].
Qed.
Lemma ahead_end G h l n lo x :
  heap_inv G h -> h !! l = Some n -> G !! l = Some (lo, 0%nat) -> right_sibling n = None ->
  x ∉ ahead G lo 0.
Proof.
  intros Hh Hl Gl Hr. destruct (hi_node _ _ Hh _ _ _ _ Hl Gl) as [[Hlo Hhi] Hs _].
  unfold sibling_inv in Hs. rewrite Hr in Hs. rewrite elem_of_ahead.
  intros (lo' & lv' & Gx & [Hlt|[-> Hlt]]); [lia|].
  destruct (hi_lookup _ _ _ _ _ Hh Gx) as (nx & Hx & [[? ?] _ _]).
  pose proof (hi_inside _ _ _ _ _ _ _ _ Hh Hl Gl Gx). lia.
Qed.
Lemma not_ahead G l lo lv : G !! l = Some (lo, lv) -> l ∉ ahead G lo lv.
Proof. rewrite elem_of_ahead. intros Hl (? & ? & ? & ?). simplify_eq. lia. Qed.
(** The first separator of the leftmost node of a level leads to the leftmost node below. *)
Lemma leftmost_below G h f n lv :
  heap_inv G h -> h !! f = Some n -> G !! f = Some (0, S lv) ->
  exists c, separator n 0 = Ok (Some c) /\ G !! c = Some (0, lv).
Proof.
  intros Hh Hf Gf. destruct (hi_node _ _ Hh _ _ _ _ Hf Gf) as [_ _ (ks & kt & ss & st & [Hp _ _ _ _] & _ & _ & Hc)].
  destruct ss as [|p ss]; inversion Hc as [|? ? ? ? (c & -> & Hg) _]; subst. exists c.
  unfold separator. rewrite Hp. done.
Qed.

Section ForEach.
Context {A : Type} (f : A -> ptr -> TM A) (g : A -> Node -> A).
Context (G : layout) (s : TreeState) (Hi : tree_inv G s).
Context (Hf : forall acc l n, heap s !! l = Some n -> f acc (Some l) s = Ok (g acc n, s)).

Lemma for_each_from_visits fuel acc l first lo lv :
  G !! l = Some (lo, lv) -> G !! first = Some (0, lv) -> (base.size (ahead G lo lv) < fuel)%nat ->
  exists ls ns, for_each_from fuel f acc (Some l, Some first) s = Ok (foldl g acc ns, s)
    /\ NoDup ls /\ (forall x, x ∈ ls <-> x = l \/ x ∈ ahead G lo lv)
    /\ Forall2 (fun x n => heap s !! x = Some n) ls ns.
Proof.
  pose proof (ti_heap _ _ Hi) as Hh. revert acc l first lo lv. induction fuel as [|fuel IH]; [lia|].
  intros acc l first lo lv Gl Gf Hfuel. destruct (hi_lookup _ _ _ _ _ Hh Gl) as (n & Hn & Hni).
  cbn [for_each_from fst]. erewrite ST_bind_ok by (by apply Hf).
  assert (Hcons : forall it l' first' lo' lv', iterator_next (Some l, Some first) s = Ok (it, s) ->
    it = (Some l', Some first') -> G !! l' = Some (lo', lv') -> G !! first' = Some (0, lv') ->
    (lv' < lv)%nat \/ lv' = lv /\ lo < lo' -> (forall x, x ∈ ahead G lo lv <-> x = l' \/ x ∈ ahead G lo' lv') ->
    exists ls ns, (it' ← iterator_next (Some l, Some first); for_each_from fuel f (g acc n) it') s
        = Ok (foldl g acc ns, s)
      /\ NoDup ls /\ (forall x, x ∈ ls <-> x = l \/ x ∈ ahead G lo lv)
      /\ Forall2 (fun x n => heap s !! x = Some n) ls ns).
  { intros it l' first' lo' lv' Hnext -> Gl' Gf' Hstep Hsplit.
    pose proof (ahead_step _ _ _ _ _ _ Gl' Hstep).
    destruct (IH (g acc n) l' first' lo' lv' Gl' Gf') as (ls & ns & Hrun & Hnd & Hls & Hns); [lia|].
    exists (l :: ls), (n :: ns). erewrite ST_bind_ok by exact Hnext. split; [done|]. split.
    - apply NoDup_cons. split; [|done]. rewrite Hls, <- Hsplit. by apply not_ahead.
    - split; [|by constructor]. intros x. rewrite elem_of_cons, Hls, Hsplit. done. }
  destruct (right_sibling n) as [r|] eqn:Hr.
  - destruct Hni as [[? ?] Hs _]. unfold sibling_inv in Hs. rewrite Hr in Hs.
    apply (Hcons (Some r, Some first) r first (high_key n) lv); try done.
    + unfold iterator_next. st_run. by rewrite Hr.
    + right. lia.
    + intros x. by eapply ahead_sibling.
  - destruct lv as [|lv].
    + exists [l], [n]. assert (Hleaf : is_inner n = false).
      { unfold is_inner. by rewrite (level_is_leaf _ _ _ _ _ _ Hh Hn Gl). }
      erewrite ST_bind_ok; cycle 1.
      { unfold iterator_next. st_run. rewrite Hr, Hleaf. done. }
      split; [by destruct fuel|]. split; [apply NoDup_singleton|]. split; [|by repeat constructor].
      intros x. pose proof (ahead_end _ _ _ _ _ x Hh Hn Gl Hr). set_solver.
    + destruct (hi_lookup _ _ _ _ _ Hh Gf) as (m & Hm & _).
      destruct (leftmost_below _ _ _ _ _ Hh Hm Gf) as (c & Hsep & Gc).
      apply (Hcons (Some c, Some c) c c 0 lv); try done.
      * unfold iterator_next. st_run. rewrite Hr.
        assert (is_inner n = true) as -> by (unfold is_inner; by rewrite (level_is_leaf _ _ _ _ _ _ Hh Hn Gl)).
        st_run. st_run. done.
      * left. lia.
      * intros x. by apply (ahead_below G (heap s) l n lo lv c x).
Qed.

Lemma for_each_visits fuel acc :
  (base.size (heap s) < fuel)%nat ->
  exists ns, for_each fuel f acc s = Ok (foldl g acc ns, s) /\ ns ≡ₚ (map_to_list (heap s)).*2.
Proof.
  intros Hfuel. pose proof (ti_heap _ _ Hi) as Hh. destruct (ti_root _ _ Hi) as (r & lv & Hr & Gr & _ & Htop).
  assert (Hdom : base.size G = base.size (heap s)).
  { rewrite <- !(size_dom (D := gset loc)). f_equal. apply set_eq. intros x. rewrite !elem_of_dom. apply (hi_dom _ _ Hh). }
  pose proof (ahead_bound G 0 lv).
  destruct (for_each_from_visits fuel acc r r 0 lv Gr Gr) as (ls & ns & Hrun & Hnd & Hls & Hns); [lia|].
  exists ns. split.
  { unfold for_each. erewrite ST_bind_ok by reflexivity. by rewrite Hr. }
  assert (Hperm : zip ls ns ≡ₚ map_to_list (heap s)).
  { apply NoDup_Permutation; [|apply NoDup_map_to_list|].
    - apply (NoDup_fmap_1 fst). by rewrite fst_zip by (by rewrite (Forall2_length _ _ _ Hns)).
    - intros [x n]. rewrite elem_of_map_to_list, elem_of_zip_lookup. split.
      + intros (i & Hx & Hn). by eapply Forall2_lookup_lr in Hns.
      + intros Hx. destruct (hi_layout _ _ _ _ Hh Hx) as (lo & lv' & Gx & [[? ?] _ _]).
        assert (Hin : x ∈ ls).
        { apply Hls. rewrite elem_of_ahead. pose proof (Htop _ _ _ Gx).
          destruct (decide (lv' = lv)) as [->|]; [|right; exists lo, lv'; split; [done|left; lia]].
          destruct (decide (lo = 0)) as [->|]; [left|right; exists lo, lv; split; [done|right; lia]].
          destruct (hi_lookup _ _ _ _ _ Hh Gr) as (nr & Hnr & [[? ?] _ _]).
          eapply (hi_unique G (heap s) x r _ _ lv n nr 0); eauto; lia. }
        apply list_elem_of_lookup in Hin as [i Hxi]. exists i. split; [done|].
        destruct (Forall2_lookup_l _ _ _ _ _ Hns Hxi) as (n' & Hn' & Hx'). congruence. }
  rewrite <- Hperm. by rewrite snd_zip by (by rewrite (Forall2_length _ _ _ Hns)).
Qed.

End ForEach.
End Walk.

(** ** The statistics are exact *)
Section Statistics.
Context {PF : Platform} {PFok : PlatformOk}.

(** Below the 64-bit bound the counters are sums. *)
Lemma count_nodes_total st ns :
  (forall n, n ∈ ns -> 0 <= size n) ->
  0 <= count_inner_nodes st -> count_inner_nodes st + total inner_one ns <= max_u64 ->
  0 <= count_leaf_nodes st -> count_leaf_nodes st + total leaf_one ns <= max_u64 ->
  0 <= count_inner_node_keys st -> count_inner_node_keys st + total inner_keys_of ns <= max_u64 ->
  0 <= count_leaf_node_keys st -> count_leaf_node_keys st + total leaf_keys_of ns <= max_u64 ->
  foldl count_node st ns
  = mkStats (count_inner_nodes st + total inner_one ns) (count_leaf_nodes st + total leaf_one ns)
      (count_inner_node_keys st + total inner_keys_of ns) (count_leaf_node_keys st + total leaf_keys_of ns)
      (stat_height st).
Proof.
  revert st. induction ns as [|n ns IH]; intros st Hsz H1 B1 H2 B2 H3 B3 H4 B4; simpl in *.
  { destruct st; simpl. by rewrite !Z.add_0_r. }
  assert (Hone : forall f c, (forall m, 0 <= size m -> 0 <= f m) -> 0 <= c -> c + (f n + total f ns) <= max_u64 ->
    u64 (c + f n) = c + f n /\ 0 <= c + f n /\ c + f n + total f ns <= max_u64).
  { intros f c Hf Hc Hb. pose proof (Hf n (Hsz n ltac:(set_solver))).
    assert (0 <= total f ns).
    { assert (Hns : forall m, m ∈ ns -> 0 <= size m) by (intros; apply Hsz; set_solver). clear -Hns Hf.
      induction ns as [|m ns IH]; simpl; [done|]. pose proof (Hf m (Hns m ltac:(set_solver))).
      specialize (IH ltac:(set_solver)). lia. }
    rewrite u64_small by lia. lia. }
  destruct (Hone inner_one (count_inner_nodes st)) as (E1 & P1 & Q1); [unfold inner_one; intros m ?; destruct (is_inner m); simpl; lia|done|done|].
  destruct (Hone leaf_one (count_leaf_nodes st)) as (E2 & P2 & Q2); [unfold leaf_one; intros m ?; destruct (is_leaf m); simpl; lia|done|done|].
  destruct (Hone inner_keys_of (count_inner_node_keys st)) as (E3 & P3 & Q3); [unfold inner_keys_of; intros m ?; destruct (is_inner m); simpl; lia|done|done|].
  destruct (Hone leaf_keys_of (count_leaf_node_keys st)) as (E4 & P4 & Q4); [unfold leaf_keys_of; intros m ?; destruct (is_leaf m); simpl; lia|done|done|].
  replace (count_node st n) with (mkStats (count_inner_nodes st + inner_one n) (count_leaf_nodes st + leaf_one n)
    (count_inner_node_keys st + inner_keys_of n) (count_leaf_node_keys st + leaf_keys_of n) (stat_height st))
    by (rewrite <- E1, <- E2, <- E3, <- E4; done).
  rewrite IH; cbn [count_inner_nodes count_leaf_nodes count_inner_node_keys count_leaf_node_keys stat_height];
    [f_equal; lia|set_solver|done..].
Qed.

Lemma total_split ns : total inner_one ns + total leaf_one ns = Z.of_nat (length ns).
Proof.
  induction ns as [|n ns IH]; simpl; [done|]. unfold inner_one, leaf_one, is_inner in *.
  destruct (is_leaf n); simpl; lia.
Qed.

(** The statistics of a well-formed tree are exact: the walk terminates, every node is
    counted once, as a leaf or as an inner node, and the number of leaf entries is the
    number of keys the tree stores. *)
Theorem print_statistics_exact fuel G s :
  tree_inv G s -> (base.size (heap s) < fuel)%nat -> 64 * Z.of_nat (base.size (heap s)) <= max_u64 ->
  exists st, print_statistics fuel s = Ok (st, s)
    /\ count_inner_nodes st + count_leaf_nodes st = Z.of_nat (base.size (heap s))
    /\ count_leaf_nodes st = total leaf_one (map_to_list (heap s)).*2
    /\ count_inner_node_keys st = total inner_keys_of (map_to_list (heap s)).*2
    /\ count_leaf_node_keys st = Z.of_nat (base.size (contents (heap s)))
    /\ stat_height st = height s.
Proof.
  intros Hi Hfuel Hmax. pose proof (ti_heap _ _ Hi) as Hh.
  destruct (for_each_visits collect_node_statistics count_node G s Hi) with (fuel := fuel) (acc := new_statistics s)
    as (ns & Hrun & Hns); [|done|].
  { intros acc l n Hl. unfold collect_node_statistics. by st_run. }
  assert (Hsz : forall n, n ∈ ns -> 0 <= size n <= 64).
  { intros n. rewrite Hns. intros ([l n'] & -> & Hin)%list_elem_of_fmap.
    eapply node_size_bounds; [done|]. by apply elem_of_map_to_list. }
  assert (Hlen : length ns = base.size (heap s)).
  { rewrite (Permutation_length Hns), length_fmap. by rewrite length_map_to_list. }
  assert (Hb : forall f, (forall n, 0 <= size n <= 64 -> 0 <= f n <= 64) -> total f ns <= max_u64).
  { intros f Hf. pose proof (node_total_bound f 64 ns ltac:(auto)). rewrite Hlen in *. lia. }
  rewrite count_nodes_total in Hrun; simpl; try done.
  - eexists. split.
    { unfold print_statistics. erewrite ST_bind_ok by reflexivity. exact Hrun. }
    cbn [count_inner_nodes count_leaf_nodes count_inner_node_keys count_leaf_node_keys stat_height new_statistics].
    rewrite (contents_size G) by done. rewrite !Z.add_0_l, total_split, Hlen. rewrite Hns. done.
  - intros n Hn. by apply Hsz.
  - apply Hb. unfold inner_one. intros n ?. destruct (is_inner n); simpl; lia.
  - apply Hb. unfold leaf_one. intros n ?. destruct (is_leaf n); simpl; lia.
  - apply Hb. unfold inner_keys_of. intros n ?. destruct (is_inner n); simpl; lia.
  - apply Hb. unfold leaf_keys_of. intros n ?. destruct (is_leaf n); simpl; lia.
Qed.

End Statistics.

(** ** The checks on well-formed nodes *)
Section Silent.
Context {PF : Platform} {PFok : PlatformOk}.

(** [is_key_order_valid] decides whether the live keys are strictly increasing. *)
Lemma key_order_from_spec n ks i todo :
  (forall j k, ks !! j = Some k -> node_key n (Z.of_nat j) = Ok k) ->
  (1 <= i)%nat -> (i + todo = length ks)%nat ->
  exists b, key_order_from todo (Z.of_nat i) n = Ok b /\ (b = true <-> ksorted (drop (i - 1) ks)).
Proof.
  intros Hk. revert i. induction todo as [|todo IH]; intros i Hi Hlen.
  - exists true. split; [done|]. split; [|done]. intros _.
    destruct (lookup_lt_is_Some_2 ks (i - 1)) as [k Hki]; [lia|]. rewrite (drop_S _ _ _ Hki), drop_ge by lia.
    repeat constructor.
  - destruct (lookup_lt_is_Some_2 ks (i - 1)) as [a Ha]; [lia|]. destruct (lookup_lt_is_Some_2 ks i) as [b Hb]; [lia|].
    cbn [key_order_from]. replace (Z.of_nat i - 1) with (Z.of_nat (i - 1)) by lia.
    rewrite (Hk _ _ Ha), (Hk _ _ Hb). cbn [mbind outcome_bind].
    rewrite (drop_S _ _ _ Ha). replace (S (i - 1)) with i by lia.
    replace (Z.of_nat i + 1) with (Z.of_nat (S i)) by lia.
    destruct (IH (S i)) as (c & Hc & Hiff); [lia|lia|]. replace (S i - 1)%nat with i in Hiff by lia.
    rewrite (drop_S _ _ _ Hb) in Hiff |- *. 
    assert (Hcons : ksorted (a :: b :: drop (S i) ks) <-> a < b /\ ksorted (b :: drop (S i) ks)).
    { rewrite StronglySorted_cons, Forall_cons, StronglySorted_cons. split; [tauto|]. intros (Hab & Hs & ?).
      split; [|done]. split; [done|]. eapply Forall_impl; [exact Hs|]. simpl. lia. }
    destruct (Z.leb_spec b a).
    + exists false. split; [done|]. rewrite Hcons. split; [done|lia].
    + exists c. split; [done|]. rewrite Hcons, Hiff. split; [|tauto]. done.
Qed.

(** What the invariant of a node says about its live keys. *)
Record keys_ok (n : Node) (lo : Z) (ks : list Z) : Prop := {
  ko_size : size n = Z.of_nat (length ks);
  ko_small : (length ks <= 64)%nat;
  ko_sorted : ksorted ks;
  ko_range : Forall (fun k => lo <= k < high_key n) ks;
  ko_get : forall i k, ks !! i = Some k -> node_key n (Z.of_nat i) = Ok k }.
Lemma node_keys_ok G n lo lv : node_inv G n lo lv -> exists ks, keys_ok n lo ks.
Proof.
  intros [_ _ Hb]. pose proof max_items_bounds. pose proof max_keys_bounds. destruct lv.
  - destruct Hb as (ks & kt & vs & vt & [Hp Hsz _ Hck _] & Hso & Hr). exists ks. rewrite length_app in Hck.
    split; [done|lia|done|done|]. intros i k Hi. unfold node_key, is_leaf, leaf_key. rewrite Hp.
    apply array_get_lookup. by apply lookup_app_l_Some.
  - destruct Hb as (ks & kt & ss & st & [Hp Hsz _ Hck _] & Hso & Hr & _). exists ks. rewrite length_app in Hck.
    apply StronglySorted_cons in Hso as [Hlo Hso]. split; [done|lia|done| |].
    + rewrite !Forall_forall in *. intros k Hk. specialize (Hlo k Hk). specialize (Hr k Hk). lia.
    + intros i k Hi. unfold node_key, is_leaf, inner_key. rewrite Hp. apply array_get_lookup. by apply lookup_app_l_Some.
Qed.
(** The separators of an inner node, child [i] starting at bound [i]. *)
Record seps_ok (G : layout) (n : Node) (lo : Z) (lv : nat) (ks : list Z) (cs : list loc) : Prop := {
  so_keys : keys_ok n lo ks;
  so_lower : Forall (fun k => lo < k) ks;
  so_inner : forall i k, ks !! i = Some k -> inner_key n (Z.of_nat i) = Ok k;
  so_length : length cs = S (length ks);
  so_get : forall i c, cs !! i = Some c -> separator n (Z.of_nat i) = Ok (Some c);
  so_contains : forall p, contains_separator n p = Ok (bool_decide (p ∈ Some <$> cs));
  so_child : forall i c, cs !! i = Some c -> exists b, (lo :: ks) !! i = Some b /\ G !! c = Some (b, lv) }.
Lemma node_seps_ok G n lo lv : node_inv G n lo (S lv) -> exists ks cs, seps_ok G n lo lv ks cs.
Proof.
  intros [_ _ (ks & kt & ss & st & Hs & Hso & Hr & Hc)]. pose proof max_keys_bounds. exists ks.
  assert (Hcs : exists cs, ss = Some <$> cs /\ Forall2 (fun c b => G !! c = Some (b, lv)) cs (lo :: ks)).
  { clear -Hc. induction Hc as [|p b ss bs (c & -> & Hg) _ (cs & -> & IH)]; [by exists []|]. exists (c :: cs). by split; [|constructor]. }
  destruct Hcs as (cs & -> & Hcs). exists cs. pose proof Hs as [Hp Hsz Hss Hck _]. rewrite length_app in Hck.
  apply StronglySorted_cons in Hso as [Hlo Hso]. rewrite length_fmap in Hss. split; [split; [done|lia|done| |]|done| |done| | |].
  - rewrite !Forall_forall in *. intros k Hk. specialize (Hlo k Hk). specialize (Hr k Hk). lia.
  - intros i k Hi. unfold node_key, is_leaf, inner_key. rewrite Hp. apply array_get_lookup. by apply lookup_app_l_Some.
  - intros i k Hi. unfold inner_key. rewrite Hp. apply array_get_lookup. by apply lookup_app_l_Some.
  - intros i c Hi. unfold separator. rewrite Hp. apply array_get_lookup. apply lookup_app_l_Some.
    by rewrite list_lookup_fmap, Hi.
  - intros p. by apply (contains_separator_spec n ks kt (Some <$> cs) st).
  - intros i c Hi. destruct (Forall2_lookup_l _ _ _ _ _ Hcs Hi) as (b & Hb & Hg). eauto.
Qed.

Lemma last_key_ok n lo ks :
  keys_ok n lo ks -> 1 <= size n -> exists k, last_key n = Ok k /\ lo <= k < high_key n
    /\ node_key n (u16 (size n - 1)) = Ok k.
Proof.
  intros [Hsz Hle _ Hr Hg] H1. destruct (lookup_lt_is_Some_2 ks (length ks - 1)) as [k Hk]; [lia|]. exists k.
  assert (Hu : u16 (size n - 1) = Z.of_nat (length ks - 1)) by (rewrite u16_small by lia; lia).
  assert (Hget : node_key n (u16 (size n - 1)) = Ok k) by (rewrite Hu; by apply Hg).
  split; [exact Hget|]. split; [|done]. rewrite Forall_forall in Hr. apply Hr. by eapply list_elem_of_lookup_2.
Qed.

Context (G : layout) (s : TreeState) (Hi : tree_inv G s).
(** No node is empty. *)
Definition populated (s : TreeState) : Prop := forall l n, heap s !! l = Some n -> 1 <= size n.
(** A parent pointer leads to a node with this separator. *)
Definition parents_linked (s : TreeState) : Prop :=
  forall l n, heap s !! l = Some n -> forall p, parent n = Some p ->
    exists m, heap s !! p = Some m /\ is_leaf m = false /\ contains_separator m (Some l) = Ok true.
Context (Hpop : populated s).

Lemma separator_between n lo lv ks cs i c k :
  seps_ok G n lo lv ks cs -> ks !! i = Some k -> cs !! i = Some c ->
  exists m b, heap s !! c = Some m /\ node_inv G m b lv /\ high_key m <= k.
Proof.
  intros [Hko Hlow _ Hlen _ _ Hch] Hk Hc. pose proof (ti_heap _ _ Hi) as Hh.
  destruct (Hch i c Hc) as (b & Hb & Gc). destruct (hi_lookup _ _ _ _ _ Hh Gc) as (m & Hm & Hmi).
  destruct (lookup_lt_is_Some_2 cs (S i)) as [c' Hc']; [apply lookup_lt_Some in Hk; lia|].
  destruct (Hch (S i) c' Hc') as (b' & Hb' & Gc'). simpl in Hb'. assert (b' = k) as -> by congruence.
  exists m, b. split; [done|]. split; [done|]. assert (Hbk : b < k).
  { destruct i as [|i]; simpl in Hb.
    - injection Hb as <-. rewrite Forall_forall in Hlow. apply Hlow. by eapply list_elem_of_lookup_2.
    - eapply (ksorted_lookup ks i (S i)); eauto using ko_sorted. }
  destruct (decide (c = c')) as [->|Hne]; [simplify_eq; lia|].
  apply (hi_disjoint _ _ Hh c c' b k lv m Hne Gc Gc' Hm). lia.
Qed.

Section Node.
Context (l : loc) (n : Node) (lo : Z) (lv : nat) (Hl : heap s !! l = Some n) (Gl : G !! l = Some (lo, lv)).

Lemma high_key_silent : is_high_key_valid (Some l) s = Ok (true, s).
Proof.
  destruct (node_keys_ok _ _ _ _ (hi_node _ _ (ti_heap _ _ Hi) _ _ _ _ Hl Gl)) as [ks Hks].
  destruct (last_key_ok _ _ _ Hks (Hpop _ _ Hl)) as (k & Hk & ? & _). unfold is_high_key_valid.
  st_run. st_run.
  rewrite (proj2 (Z.ltb_lt _ _)) by lia. done.
Qed.
Lemma key_order_silent : is_key_order_valid (Some l) s = Ok (true, s).
Proof.
  destruct (node_keys_ok _ _ _ _ (hi_node _ _ (ti_heap _ _ Hi) _ _ _ _ Hl Gl)) as [ks [Hsz Hle Hso _ Hg]].
  pose proof (Hpop _ _ Hl). unfold is_key_order_valid. st_run.
  apply lift_ok. replace (Z.to_nat (size n - 1)) with (length ks - 1)%nat by lia.
  destruct (key_order_from_spec n ks 1 (length ks - 1)) as (b & Hb & Hiff); [done|lia|lia|].
  rewrite drop_0 in Hiff. change (Z.of_nat 1) with 1 in Hb. rewrite Hb. f_equal. by apply Hiff.
Qed.
Lemma inner_level : is_inner n = true -> exists lv', lv = S lv' /\ exists ks cs, seps_ok G n lo lv' ks cs.
Proof.
  intros Hin. pose proof (hi_node _ _ (ti_heap _ _ Hi) _ _ _ _ Hl Gl) as Hni. destruct lv as [|lv'].
  - unfold is_inner in Hin. by rewrite (level_is_leaf _ _ _ _ _ _ (ti_heap _ _ Hi) Hl Gl) in Hin.
  - exists lv'. split; [done|]. by apply node_seps_ok.
Qed.
Lemma no_null_silent : is_no_null_separator (Some l) s = Ok (true, s).
Proof.
  unfold is_no_null_separator. st_run. destruct (is_inner n) eqn:Hin; [|done].
  destruct (inner_level Hin) as (lv' & -> & ks & cs & Hso). apply lift_ok.
  assert (Hgo : forall todo i, (i + todo = length cs)%nat -> no_null_from todo (Z.of_nat i) n = Ok true).
  { induction todo as [|todo IH]; intros i Hlen; [done|]. cbn [no_null_from].
    destruct (lookup_lt_is_Some_2 cs i) as [c Hc]; [lia|]. rewrite (so_get _ _ _ _ _ _ Hso _ _ Hc). cbn [mbind outcome_bind].
    replace (Z.of_nat i + 1) with (Z.of_nat (S i)) by lia. apply IH. lia. }
  apply (Hgo _ 0%nat). rewrite (so_length _ _ _ _ _ _ Hso), (ko_size _ _ _ (so_keys _ _ _ _ _ _ Hso)). lia.
Qed.
Lemma children_silent : is_children_order_valid (Some l) s = Ok (true, s).
Proof.
  unfold is_children_order_valid. st_run. destruct (is_inner n) eqn:Hin; [|done].
  destruct (inner_level Hin) as (lv' & -> & ks & cs & Hso). pose proof (so_length _ _ _ _ _ _ Hso) as Hlen.
  assert (Hgo : forall todo i, (i + todo = length ks)%nat -> children_order_from todo (Z.of_nat i) n s = Ok (true, s)).
  { induction todo as [|todo IH]; intros i Hlen'; [done|]. cbn [children_order_from].
    destruct (lookup_lt_is_Some_2 cs i) as [c Hc]; [lia|]. destruct (lookup_lt_is_Some_2 ks i) as [k Hk]; [lia|].
    destruct (separator_between _ _ _ _ _ _ _ _ Hso Hk Hc) as (m & b & Hm & Hmi & Hmk).
    destruct (node_keys_ok _ _ _ _ Hmi) as [mks Hmks].
    destruct (last_key_ok _ _ _ Hmks (Hpop _ _ Hm)) as (k' & Hk' & ? & _).
    erewrite ST_bind_ok by (apply lift_ok; by apply (so_get _ _ _ _ _ _ Hso)).
    st_run. st_run.
    erewrite ST_bind_ok by (apply lift_ok; by apply (so_inner _ _ _ _ _ _ Hso)).
    rewrite (proj2 (Z.leb_gt _ _)) by lia. replace (Z.of_nat i + 1) with (Z.of_nat (S i)) by lia. apply IH. lia. }
  rewrite (ko_size _ _ _ (so_keys _ _ _ _ _ _ Hso)), Nat2Z.id. by apply (Hgo _ 0%nat).
Qed.
Lemma level_silent : is_level_valid (Some l) s = Ok (true, s).
Proof.
  pose proof (ti_heap _ _ Hi) as Hh. unfold is_level_valid. st_run.
  assert (Hsib : (match right_sibling n with
    | None => mret true
    | Some r => m ← deref (Some r); mret (bool_decide (is_leaf n = is_leaf m)) end : TM bool) s = Ok (true, s)).
  { destruct (hi_node _ _ Hh _ _ _ _ Hl Gl) as [_ Hs _]. unfold sibling_inv in Hs.
    destruct (right_sibling n) as [r|]; [|done]. destruct (hi_lookup _ _ _ _ _ Hh Hs) as (m & Hm & _).
    st_run. rewrite bool_decide_true; [done|].
    by rewrite (level_is_leaf _ _ _ _ _ _ Hh Hl Gl), (level_is_leaf _ _ _ _ _ _ Hh Hm Hs). }
  erewrite ST_bind_ok by exact Hsib. cbn [negb]. destruct (is_inner n) eqn:Hin; [|done].
  destruct (inner_level Hin) as (lv' & -> & ks & cs & Hso). pose proof (so_length _ _ _ _ _ _ Hso) as Hlen.
  assert (Hgo : forall todo i, (i + todo = length ks)%nat -> level_from todo (Z.of_nat i) n s = Ok (true, s)).
  { induction todo as [|todo IH]; intros i Hlen'; [done|]. cbn [level_from].
    destruct (lookup_lt_is_Some_2 cs i) as [c Hc]; [lia|]. destruct (lookup_lt_is_Some_2 cs (S i)) as [c' Hc']; [lia|].
    destruct (so_child _ _ _ _ _ _ Hso _ _ Hc) as (b & _ & Gc). destruct (so_child _ _ _ _ _ _ Hso _ _ Hc') as (b' & _ & Gc').
    destruct (hi_lookup _ _ _ _ _ Hh Gc) as (m & Hm & _). destruct (hi_lookup _ _ _ _ _ Hh Gc') as (m' & Hm' & _).
    replace (Z.of_nat i + 1) with (Z.of_nat (S i)) by lia.
    erewrite ST_bind_ok by (apply lift_ok; by apply (so_get _ _ _ _ _ _ Hso)).
    st_run.
    erewrite ST_bind_ok by (apply lift_ok; by apply (so_get _ _ _ _ _ _ Hso)).
    st_run.
    rewrite decide_True; [apply IH; lia|].
    by rewrite (level_is_leaf _ _ _ _ _ _ Hh Hm Gc), (level_is_leaf _ _ _ _ _ _ Hh Hm' Gc'). }
  rewrite (ko_size _ _ _ (so_keys _ _ _ _ _ _ Hso)), Nat2Z.id. by apply (Hgo _ 0%nat).
Qed.
Lemma structure_silent : check_node_structure (Some l) s = Ok ([], s).
Proof.
  unfold check_node_structure. erewrite ST_bind_ok by apply high_key_silent.
  erewrite ST_bind_ok by apply key_order_silent. erewrite ST_bind_ok by apply no_null_silent.
  erewrite ST_bind_ok by apply children_silent. by erewrite ST_bind_ok by apply level_silent.
Qed.

Lemma separator_index_ok m lom lvm ks cs todo i :
  seps_ok G m lom lvm ks cs -> (i + todo = length cs)%nat -> l ∈ drop i cs ->
  exists j, separator_index todo (Z.of_nat i) m (Some l) = Ok (Z.of_nat j) /\ cs !! j = Some l.
Proof.
  intros Hso. revert i. induction todo as [|todo IH]; intros i Hlen Hin.
  { rewrite drop_ge in Hin by lia. set_solver. }
  cbn [separator_index]. destruct (lookup_lt_is_Some_2 cs i) as [c Hc]; [lia|].
  rewrite (so_get _ _ _ _ _ _ Hso _ _ Hc). cbn [mbind outcome_bind]. destruct (decide (Some c = Some l)) as [Heq|Hne].
  - exists i. split; [done|congruence].
  - replace (Z.of_nat i + 1) with (Z.of_nat (S i)) by lia. apply IH; [lia|].
    rewrite (drop_S _ _ _ Hc) in Hin. set_solver.
Qed.
Lemma parent_silent : parents_linked s -> check_and_print_parent (Some l) s = Ok ([], s).
Proof.
  intros Hpar. pose proof (ti_heap _ _ Hi) as Hh. unfold check_and_print_parent.
  st_run. destruct (parent n) as [p|] eqn:Hp; [|done].
  destruct (Hpar _ _ Hl _ Hp) as (m & Hm & Hml & Hcont). st_run.
  st_run. cbn [negb].
  destruct (hi_layout _ _ _ _ Hh Hm) as (lom & lvm & Gm & Hmi).
  rewrite (level_is_leaf _ _ _ _ _ _ Hh Hm Gm) in Hml. destruct lvm as [|lvm]; [done|].
  destruct (node_seps_ok _ _ _ _ Hmi) as (ks & cs & Hso). pose proof (so_length _ _ _ _ _ _ Hso) as Hlen.
  pose proof (so_keys _ _ _ _ _ _ Hso) as [Hsz Hle _ _ _]. pose proof (Hpop _ _ Hm) as Hm1.
  rewrite (so_contains _ _ _ _ _ _ Hso) in Hcont. injection Hcont as Hcont%bool_decide_eq_true.
  apply list_elem_of_fmap in Hcont as (l' & [= <-] & Hcont).
  destruct (separator_index_ok m lom lvm ks cs (length cs) 0 Hso) as (j & Hj & Hjl); [done|done|].
  replace (Z.to_nat (size m + 1)) with (length cs) by lia. st_run.
  destruct (node_keys_ok _ _ _ _ (hi_node _ _ Hh _ _ _ _ Hl Gl)) as [nks Hnks].
  destruct (last_key_ok _ _ _ Hnks (Hpop _ _ Hl)) as (k & _ & Hk & Hkn).
  destruct (so_child _ _ _ _ _ _ Hso _ _ Hjl) as (b & Hb & Gb). assert (b = lo /\ lvm = lv) as [-> ->] by (by simplify_eq).
  destruct (Z.ltb_spec (Z.of_nat j) (size m)) as [Hlt|Hge].
  - destruct (lookup_lt_is_Some_2 ks j) as [kj Hkj]; [lia|].
    destruct (separator_between _ _ _ _ _ _ _ _ Hso Hkj Hjl) as (n' & b' & Hn' & _ & Hmk). simplify_eq.
    st_run.
    erewrite ST_bind_ok by (apply lift_ok; by apply (so_inner _ _ _ _ _ _ Hso)).
    rewrite (proj2 (Z.ltb_lt _ _)) by lia. done.
  - pose proof (lookup_lt_Some _ _ _ Hjl). destruct j as [|j]; [lia|]. simpl in Hb.
    destruct (lookup_lt_is_Some_2 nks 0) as [k0 Hk0]; [pose proof (Hpop _ _ Hl); rewrite (ko_size _ _ _ Hnks) in *; lia|].
    erewrite ST_bind_ok by (apply lift_ok; by apply (ko_get _ _ _ Hnks 0%nat)).
    replace (u16 (Z.of_nat (S j) - 1)) with (Z.of_nat j) by (rewrite u16_small by lia; lia).
    erewrite ST_bind_ok by (apply lift_ok; by apply (so_inner _ _ _ _ _ _ Hso)).
    pose proof (ko_range _ _ _ Hnks) as Hr. rewrite Forall_forall in Hr.
    pose proof (Hr k0 ltac:(by eapply list_elem_of_lookup_2)). rewrite (proj2 (Z.leb_le _ _)) by lia. done.
Qed.

End Node.

Lemma check_node_silent l n :
  parents_linked s -> heap s !! l = Some n -> check_node_and_print_errors (Some l) s = Ok ([], s).
Proof.
  intros Hpar Hl. destruct (hi_layout _ _ _ _ (ti_heap _ _ Hi) Hl) as (lo & lv & Gl & _).
  unfold check_node_and_print_errors. erewrite ST_bind_ok by (by eapply structure_silent).
  by erewrite ST_bind_ok by (by eapply parent_silent).
Qed.

End Silent.

(** C32: [Tree::check] is silent on a well-formed tree: when no node is empty and every
    parent pointer leads to a node that has the child among its separators, the walk
    terminates and none of the eight messages is printed for any node. *)
Theorem check_silent `{PlatformOk} fuel G s :
  tree_inv G s -> populated s -> parents_linked s -> (base.size (heap s) < fuel)%nat ->
  check fuel s = Ok ([], s).
Proof.
  intros Hi Hpop Hpar Hfuel.
  destruct (for_each_visits (fun acc node => r ← check_node_and_print_errors node; mret (acc ++ r))
    (fun acc _ => acc) G s Hi) with (fuel := fuel) (acc := @nil (check_error * ptr)) as (ns & Hrun & _); [|done|].
  - intros acc l n Hl. erewrite ST_bind_ok by (by eapply check_node_silent). by rewrite app_nil_r.
  - unfold check. rewrite Hrun. do 2 f_equal. clear. induction ns; simpl; done.
Qed.

(** The checker itself is not total: on the tree [Tree()] constructs, whose root is an
    empty leaf, [is_high_key_valid] reads the key at index [size() - 1], which is 65535 in
    the 16-bit index type. *)
Theorem check_fresh_tree_out_of_bounds `{PlatformOk} fuel : (0 < fuel)%nat -> check fuel new_tree = Fault OutOfBounds.
Proof.
  intros Hf. destruct fuel as [|fuel]; [lia|]. unfold check, for_each. erewrite ST_bind_ok by reflexivity.
  cbn [for_each_from fst new_tree root_node]. unfold mbind, ST_bind at 1.
  assert (Hfault : check_node_and_print_errors (Some 1%positive) new_tree = Fault OutOfBounds).
  { unfold check_node_and_print_errors, check_node_structure, is_high_key_valid, mbind, ST_bind.
    unfold deref, new_tree. simpl heap. rewrite lookup_singleton_eq. unfold last_key, leaf_key. simpl.
    pose proof max_items_bounds.
    rewrite array_get_oob; [done|]. rewrite length_fmap, length_seq.
    change (u16 (0 - 1)) with 65535. lia. }
  unfold mbind, ST_bind. by rewrite Hfault.
Qed.

(** ** A concrete walk *)
Module CheckerExamples.

#[local] Existing Instance small_platform.
#[local] Existing Instance small_platform_ok.

Definition grown_tree : TreeState := l_tree LatchedExamples.two_levels.

(** Both conditions evaluated on every node. *)
Definition node_linked (s : TreeState) (p : loc * Node) : bool :=
  (1 <=? size p.2) && match parent p.2 with
  | None => true
  | Some q =>
      match heap s !! q with
      | Some m => negb (is_leaf m) && bool_decide (contains_separator m (Some p.1) = Ok true)
      | None => false
      end
  end.
Lemma nodes_linked s :
  forallb (node_linked s) (map_to_list (heap s)) = true -> populated s /\ parents_linked s.
Proof.
  intros Hall. rewrite forallb_forall in Hall.
  assert (Hn : forall l n, heap s !! l = Some n -> node_linked s (l, n) = true).
  { intros l n Hl%elem_of_map_to_list. apply Hall. by apply list_elem_of_In. }
  split.
  - intros l n Hl. apply Hn in Hl. apply andb_prop in Hl as [Hl%Z.leb_le _]. exact Hl.
  - intros l n Hl p Hp. apply Hn, andb_prop in Hl as [_ Hl]. simpl in Hl. rewrite Hp in Hl.
    destruct (heap s !! p) as [m|]; [|done]. exists m. apply andb_prop in Hl as [Hl1%negb_true_iff Hl2%bool_decide_eq_true].
    done.
Qed.
Lemma grown_tree_linked : populated grown_tree /\ parents_linked grown_tree.
Proof. apply nodes_linked. vm_compute. reflexivity. Qed.
Lemma check_silent_witness : check 20 grown_tree = Ok ([], grown_tree).
Proof.
  destruct LatchedExamples.two_levels_ok as ((G & Hi & _) & _).
  apply (check_silent 20 G grown_tree Hi (proj1 grown_tree_linked) (proj2 grown_tree_linked)).
  vm_compute. lia.
Defined.
Lemma print_statistics_exact_witness :
  exists st, print_statistics 20 grown_tree = Ok (st, grown_tree)
    /\ count_leaf_node_keys st = Z.of_nat (base.size (contents (heap grown_tree))).
Proof.
  destruct LatchedExamples.two_levels_ok as ((G & Hi & _) & _).
  destruct (print_statistics_exact 20 G grown_tree Hi) as (st & Hrun & _ & _ & _ & Hk & _).
  - vm_compute. lia.
  - vm_compute. discriminate.
  - exists st. split; [exact Hrun|exact Hk].
Defined.
Lemma check_fresh_tree_out_of_bounds_witness : check 1 new_tree = Fault OutOfBounds.
Proof. apply check_fresh_tree_out_of_bounds. lia. Defined.

End CheckerExamples.
