(* ===== verification/Workload.v ===== *)
(** * Workloads and their files

    Models [src/src/benchmark/workload.h], [workload.cpp], [workload_tuple.h] and
    [workload_type.h]: the two phases of a benchmark, the tuples of each and their
    counters, and the reader of workload files.  The values of inserted tuples come from
    [std::rand], whose sequence is a parameter. *)

From Stdlib Require Import Ascii String.
From S2P Require Import Prelude Text.

(** ** Tuples and workloads *)
Module WorkloadTuple.
Inductive Operation : Set := Insert | Lookup | Update.
#[global] Instance Operation_eq_dec : EqDecision Operation.
Proof. solve_decision. Defined.

Record t : Type := mk { operation : Operation; key : Z; value : Z }.
End WorkloadTuple.

Inductive WorkloadPhase : Set := Fill | Benchmark.
#[export] Instance WorkloadPhase_eq_dec : EqDecision WorkloadPhase.
Proof. solve_decision. Defined.

Record Workload : Type := mkWorkload {
  phase : WorkloadPhase;
  fill_inserts : Z;
  inserts : Z;
  lookups : Z;
  updates : Z;
  fill_phase_tuples : list WorkloadTuple.t;
  workload_phase_tuples : list WorkloadTuple.t }.

(** [Workload() = default] *)
Definition new_workload : Workload := mkWorkload Fill 0 0 0 0 [] [].

Definition set_phase (p : WorkloadPhase) (w : Workload) : Workload :=
  mkWorkload p (fill_inserts w) (inserts w) (lookups w) (updates w) (fill_phase_tuples w) (workload_phase_tuples w).
Definition count_fill_inserts (w : Workload) : Z := fill_inserts w.
Definition count_benchmark_workload (w : Workload) : Z := u64 (u64 (lookups w + inserts w) + updates w).
Definition count_current_phase (w : Workload) : Z :=
  if decide (phase w = Fill) then count_fill_inserts w else count_benchmark_workload w.
Definition count_current_inserts (w : Workload) : Z :=
  if decide (phase w = Fill) then count_fill_inserts w else inserts w.
Definition count_current_lookups (w : Workload) : Z := if decide (phase w = Fill) then 0 else lookups w.
Definition count_current_updates (w : Workload) : Z := if decide (phase w = Fill) then 0 else updates w.
Definition has_benchmark (w : Workload) : bool := 0 <? count_benchmark_workload w.
Definition current_workload (w : Workload) : list WorkloadTuple.t :=
  if decide (phase w = Fill) then fill_phase_tuples w else workload_phase_tuples w.

(** ** Reading files *)
Section Parse.

(** The values [std::rand()] returns after [std::srand(1337)], one after the other. *)
Context (rand : nat -> Z).

(** What [parse_file] fills: the tuples, its three counters, and the number of calls of
    [std::rand] so far. *)
Record Parsed : Type := mkParsed {
  p_tuples : list WorkloadTuple.t;
  p_inserts : Z;
  p_lookups : Z;
  p_updates : Z;
  p_rands : nat }.

(** The body of the loop. *)
Definition parse_tuple (operation_name : stream) (key : Z) (p : Parsed) : Parsed :=
  if decide (operation_name = list_ascii_of_string "INSERT") then
    mkParsed (p_tuples p ++ [WorkloadTuple.mk WorkloadTuple.Insert key (rand (p_rands p))])
      (u64 (p_inserts p + 1)) (p_lookups p) (p_updates p) (S (p_rands p))
  else if decide (operation_name = list_ascii_of_string "READ") then
    mkParsed (p_tuples p ++ [WorkloadTuple.mk WorkloadTuple.Lookup key 0])
      (p_inserts p) (u64 (p_lookups p + 1)) (p_updates p) (p_rands p)
  else if decide (operation_name = list_ascii_of_string "UPDATE") then
    mkParsed (p_tuples p ++ [WorkloadTuple.mk WorkloadTuple.Update key (rand (p_rands p))])
      (p_inserts p) (p_lookups p) (u64 (p_updates p + 1)) (S (p_rands p))
  else p.

(** [while (in_stream >> operation_name >> key)]: each round takes a character at least. *)
Fixpoint parse_loop (fuel : nat) (s : stream) (p : Parsed) : outcome Parsed :=
  match fuel with
  | O => Fault OutOfFuel
  | S fuel =>
      match read_word s with
      | None => Ok p
      | Some (operation_name, s) =>
          match read_u64 s with
          | None => Ok p
          | Some (key, s) => parse_loop fuel s (parse_tuple operation_name key p)
          end
      end
  end.
Definition parse_file (s : stream) (tuples : list WorkloadTuple.t) (insert_counter lookup_counter update_counter : Z) :
    outcome Parsed :=
  parse_loop (S (length s)) s (mkParsed tuples insert_counter lookup_counter update_counter 0).

(** [load(fill_file_name, workload_file_name)], given what the files hold. *)
Definition load (fill_file workload_file : stream) (w : Workload) : outcome Workload :=
  f ← parse_file fill_file (fill_phase_tuples w) (fill_inserts w) 0 0;
  b ← parse_file workload_file (workload_phase_tuples w) (inserts w) (lookups w) (updates w);
  Ok (mkWorkload (phase w) (p_inserts f) (p_inserts b) (p_lookups b) (p_updates b) (p_tuples f) (p_tuples b)).

End Parse.

(** ** The reader terminates *)
(** Whatever the tuples keep, the loop keeps, and it ends. *)
Lemma parse_loop_ok rand (P : Parsed -> Prop) fuel : forall s p,
  (forall op key p, P p -> P (parse_tuple rand op key p)) -> P p -> (length s < fuel)%nat ->
  exists p', parse_loop rand fuel s p = Ok p' /\ P p'.
Proof.
  induction fuel as [|fuel IH]; [lia|]. intros s p HP Hp Hf. cbn [parse_loop].
  destruct (read_word s) as [[op s1]|] eqn:E1; [|eauto]. apply read_word_shorter in E1.
  destruct (read_u64 s1) as [[key s2]|] eqn:E2; [|eauto]. apply read_u64_shorter in E2.
  apply IH; [done|by apply HP|lia].
Qed.

(** ** What is counted *)
Definition count_of (op : WorkloadTuple.Operation) (ts : list WorkloadTuple.t) : Z :=
  Z.of_nat (length (filter (fun t => WorkloadTuple.operation t = op) ts)).

Lemma count_of_snoc op ts t :
  count_of op (ts ++ [t]) = count_of op ts + Z.b2z (bool_decide (WorkloadTuple.operation t = op)).
Proof.
  unfold count_of. rewrite filter_app, length_app, filter_cons, filter_nil, Nat2Z.inj_add. f_equal.
  by case_decide; case_bool_decide.
Qed.
Lemma count_of_total ts :
  count_of WorkloadTuple.Insert ts + count_of WorkloadTuple.Lookup ts + count_of WorkloadTuple.Update ts
  = Z.of_nat (length ts).
Proof.
  induction ts as [|t ts IH] using rev_ind; [done|]. rewrite !count_of_snoc, length_app. simpl length.
  destruct (WorkloadTuple.operation t); simpl; lia.
Qed.

(** Each counter counts its tuples, modulo the width of [std::size_t]. *)
Definition counted (p : Parsed) : Prop :=
  p_inserts p = u64 (count_of WorkloadTuple.Insert (p_tuples p))
  /\ p_lookups p = u64 (count_of WorkloadTuple.Lookup (p_tuples p))
  /\ p_updates p = u64 (count_of WorkloadTuple.Update (p_tuples p)).

Lemma u64_add_l a b : u64 (u64 a + b) = u64 (a + b).
Proof. unfold u64, wrap. apply Zplus_mod_idemp_l. Qed.
Lemma parse_tuple_counted rand op key p : counted p -> counted (parse_tuple rand op key p).
Proof.
  intros (H1 & H2 & H3). unfold parse_tuple, counted.
  repeat case_decide; cbn [p_tuples p_inserts p_lookups p_updates]; rewrite ?count_of_snoc; cbn [WorkloadTuple.operation];
    repeat case_bool_decide; try done; cbn [Z.b2z]; rewrite ?H1, ?H2, ?H3, ?u64_add_l, ?Z.add_0_r; done.
Qed.
Lemma parse_file_counted rand s :
  exists p, parse_file rand s [] 0 0 0 = Ok p /\ counted p.
Proof. apply parse_loop_ok; [apply parse_tuple_counted|done|lia]. Qed.

(** No more tuples than characters. *)
Lemma parse_tuple_length rand op key p :
  (length (p_tuples (parse_tuple rand op key p)) <= S (length (p_tuples p)))%nat.
Proof. unfold parse_tuple. repeat case_decide; cbn [p_tuples]; rewrite ?length_app; simpl; lia. Qed.
Lemma parse_loop_length rand fuel : forall s p p',
  parse_loop rand fuel s p = Ok p' -> (length (p_tuples p') <= length (p_tuples p) + length s)%nat.
Proof.
  induction fuel as [|fuel IH]; [done|]. intros s p p'. cbn [parse_loop].
  destruct (read_word s) as [[op s1]|] eqn:E1; [|intros [= <-]; lia]. apply read_word_shorter in E1.
  destruct (read_u64 s1) as [[key s2]|] eqn:E2; [|intros [= <-]; lia]. apply read_u64_shorter in E2.
  intros Hr%IH. pose proof (parse_tuple_length rand op key p). lia.
Qed.
Lemma count_of_bound op ts : 0 <= count_of op ts <= Z.of_nat (length ts).
Proof. unfold count_of. pose proof (length_filter (fun t => WorkloadTuple.operation t = op) ts). lia. Qed.

(** ** Reading what was written *)
Definition operation_word (op : WorkloadTuple.Operation) : stream :=
  list_ascii_of_string match op with
  | WorkloadTuple.Insert => "INSERT" | WorkloadTuple.Lookup => "READ" | WorkloadTuple.Update => "UPDATE" end.
(** One line per operation, the way the workload generator writes them. *)
Definition render_line (l : WorkloadTuple.Operation * Z) : stream :=
  operation_word l.1 ++ [" "%char] ++ decimal 20 l.2 ++ [ascii_of_nat 10].
Definition render (ls : list (WorkloadTuple.Operation * Z)) : stream := mjoin (render_line <$> ls).

Lemma read_word_line sp op rest :
  forallb is_space sp = true -> read_word (sp ++ operation_word op ++ " "%char :: rest) = Some (operation_word op, " "%char :: rest).
Proof.
  intros Hsp. unfold read_word, skip_spaces. rewrite (span_app is_space sp); [|done|].
  2: { destruct op; simpl; intros c t [= <- _]; done. }
  cbn [snd]. rewrite (span_app (fun c => negb (is_space c)) (operation_word op)).
  - by rewrite decide_False by (by destruct op).
  - by destruct op.
  - by intros c t [= <- _].
Qed.

Lemma parse_loop_render rand fuel : forall sp ls p,
  forallb is_space sp = true -> Forall (fun l => 0 <= l.2 <= max_u64) ls -> (length ls < fuel)%nat ->
  parse_loop rand fuel (sp ++ render ls) p
  = Ok (fold_left (fun p l => parse_tuple rand (operation_word l.1) l.2 p) ls p).
Proof.
  induction fuel as [|fuel IH]; [lia|]. intros sp ls p Hsp Hall Hf. cbn [parse_loop]. destruct ls as [|[op n] ls].
  { simpl. unfold render. simpl. rewrite app_nil_r. unfold read_word, skip_spaces.
    rewrite <- (app_nil_r sp), (span_app is_space sp []) by done. by simpl. }
  apply Forall_cons in Hall as [Hn Hall]. cbn [length fst snd] in *.
  change (render ((op, n) :: ls)) with (render_line (op, n) ++ render ls). unfold render_line. cbn [fst snd].
  rewrite <- !app_assoc. cbn [app].
  rewrite (read_word_line sp op _ Hsp), (read_u64_decimal n _ Hn).
  2: { by intros c t [= <- _]. }
  change (ascii_of_nat 10 :: render ls) with ([ascii_of_nat 10] ++ render ls). rewrite IH; [done|done|done|lia].
Qed.

(** The tuples of rendered lines. *)
Definition tuple_line (t : WorkloadTuple.t) : WorkloadTuple.Operation * Z := (WorkloadTuple.operation t, WorkloadTuple.key t).
Lemma parse_tuple_line rand op key p :
  tuple_line <$> p_tuples (parse_tuple rand (operation_word op) key p) = (tuple_line <$> p_tuples p) ++ [(op, key)].
Proof. by destruct op; simpl; rewrite fmap_app. Qed.
Lemma parse_lines_tuples rand ls : forall p,
  tuple_line <$> p_tuples (fold_left (fun p l => parse_tuple rand (operation_word l.1) l.2 p) ls p)
  = (tuple_line <$> p_tuples p) ++ ls.
Proof.
  induction ls as [|[op k] ls IH]; intros p; cbn [fold_left fst snd]; [by rewrite app_nil_r|].
  by rewrite IH, parse_tuple_line, <- app_assoc.
Qed.
Lemma render_length ls : (length ls <= length (render ls))%nat.
Proof.
  induction ls as [|l ls IH]; [done|]. change (render (l :: ls)) with (render_line l ++ render ls).
  rewrite length_app. unfold render_line. rewrite !length_app. simpl. lia.
Qed.

(** C40: reading a workload file gives back what was written into it: for every list of
    operations with 64-bit keys, [parse_file] on the text with one [INSERT], [READ] or
    [UPDATE] line per operation terminates and yields tuples with these operations and
    keys in this order, and its counters count them. *)
Theorem parse_render rand ls :
  Forall (fun l => 0 <= l.2 <= max_u64) ls ->
  exists p, parse_file rand (render ls) [] 0 0 0 = Ok p /\ tuple_line <$> p_tuples p = ls /\ counted p.
Proof.
  intros Hall. destruct (parse_file_counted rand (render ls)) as (p & Hp & Hc). exists p. split; [done|]. split; [|done].
  unfold parse_file in Hp. pose proof (render_length ls).
  rewrite (parse_loop_render rand (S (length (render ls))) [] ls _ eq_refl Hall ltac:(lia)) in Hp. injection Hp as <-.
  by rewrite parse_lines_tuples.
Qed.

(** After [load] the counters fit the tuples.  Both files are always read to an end.
    The benchmark phase announces exactly as many operations as it has tuples.  The fill
    phase announces only its inserts: every other line of the fill file makes it stop one
    tuple earlier. *)
Theorem load_counts rand fill_file workload_file :
  Z.of_nat (length fill_file) <= max_u64 -> Z.of_nat (length workload_file) <= max_u64 ->
  exists w, load rand fill_file workload_file new_workload = Ok w /\ phase w = Fill
    /\ count_current_phase (set_phase Benchmark w) = Z.of_nat (length (current_workload (set_phase Benchmark w)))
    /\ count_current_phase w + (count_of WorkloadTuple.Lookup (current_workload w)
       + count_of WorkloadTuple.Update (current_workload w)) = Z.of_nat (length (current_workload w)).
Proof.
  intros Hf Hb. destruct (parse_file_counted rand fill_file) as (f & Hrf & Hcf & _).
  destruct (parse_file_counted rand workload_file) as (b & Hrb & Hcb & Hlb & Hub).
  pose proof (parse_loop_length _ _ _ _ _ Hrf) as Hlf. pose proof (parse_loop_length _ _ _ _ _ Hrb) as Hlw.
  simpl in Hlf, Hlw. unfold load, new_workload. cbn [fill_phase_tuples fill_inserts workload_phase_tuples inserts lookups updates].
  rewrite (outcome_bind_ok _ _ _ Hrf), (outcome_bind_ok _ _ _ Hrb). eexists. split; [done|]. split; [done|].
  pose proof (count_of_total (p_tuples f)). pose proof (count_of_total (p_tuples b)).
  pose proof (fun op => count_of_bound op (p_tuples f)) as Hbf. pose proof (fun op => count_of_bound op (p_tuples b)) as Hbb.
  pose proof (Hbf WorkloadTuple.Insert). pose proof (Hbf WorkloadTuple.Lookup). pose proof (Hbf WorkloadTuple.Update).
  pose proof (Hbb WorkloadTuple.Insert). pose proof (Hbb WorkloadTuple.Lookup). pose proof (Hbb WorkloadTuple.Update).
  unfold count_current_phase, current_workload, count_fill_inserts, count_benchmark_workload, set_phase. simpl.
  rewrite Hcf, Hcb, Hlb, Hub. rewrite !(u64_small (count_of _ _)) by lia.
  rewrite (u64_small (count_of _ _ + _)) by lia. rewrite u64_small by lia. lia.
Qed.

(** ** Concrete files *)
Module WorkloadExamples.

Lemma parse_render_witness :
  exists p, parse_file Z.of_nat (render [(WorkloadTuple.Insert, 7); (WorkloadTuple.Lookup, max_u64)]) [] 0 0 0 = Ok p
    /\ tuple_line <$> p_tuples p = [(WorkloadTuple.Insert, 7); (WorkloadTuple.Lookup, max_u64)] /\ counted p.
Proof. apply (parse_render Z.of_nat). repeat constructor; done. Defined.

(** A fill file with a lookup in it, and a workload file that ends in the middle of a line. *)
Definition mixed_fill : stream := list_ascii_of_string "INSERT 7 READ 7 INSERT 8 "%string.
Definition cut_workload : stream := list_ascii_of_string "READ 8 UPDATE 7 READ"%string.
Lemma load_counts_witness :
  exists w, load Z.of_nat mixed_fill cut_workload new_workload = Ok w /\ phase w = Fill
    /\ count_current_phase (set_phase Benchmark w) = Z.of_nat (length (current_workload (set_phase Benchmark w)))
    /\ count_current_phase w + (count_of WorkloadTuple.Lookup (current_workload w)
       + count_of WorkloadTuple.Update (current_workload w)) = Z.of_nat (length (current_workload w)).
Proof. apply (load_counts Z.of_nat); vm_compute; discriminate. Defined.

Example mixed_fill_loaded :
  (fun w => (count_current_phase w, length (current_workload w), count_current_phase (set_phase Benchmark w)))
    <$> load Z.of_nat mixed_fill cut_workload new_workload = Ok (2, 3%nat, 2).
Proof. vm_compute. reflexivity. Qed.

End WorkloadExamples.
