(* ===== verification/CoreConfig.v ===== *)
(** * Core configurations

    Models [src/src/util/core_configuration.h], [core_configuration.cpp], [core_set.h],
    the functions of [src/src/hardware/system.h] they call, and [parse_cores] of
    [src/src/util/cli_arguments.h]: which numbers of cores a benchmark runs with, and
    which cores these are. *)

From Stdlib Require Import Ascii String.
From S2P Require Import Prelude Text.

(** The build defines [NDEBUG], so assertions are not evaluated. *)
Definition remainder (a b : Z) : outcome Z := if b =? 0 then Fault DivideByZero else Ok (a mod b).

(** ** The machine *)
Section CoreConfiguration.

(** [std::thread::hardware_concurrency] and libnuma's [numa_node_of_cpu]. *)
Context (hardware_concurrency : Z) (numa_node_of_cpu : Z -> Z).

Definition count_cores : Z := u16 hardware_concurrency.
Definition physical_core_id (logical_core_id : Z) : outcome Z :=
  remainder logical_core_id count_cores.
Definition numa_id (core_id : Z) : outcome Z :=
  c ← physical_core_id core_id; Ok (u8 (numa_node_of_cpu c)).

(** ** Core sets *)
Inductive Type_ : Set := Logical | NumaAscending.

(** [generate_core_set]; a [CoreSet] is the vector of its cores. *)
Fixpoint pick_cores (todo : nat) (core_index : Z) (ordered_physical_cores : list Z) : outcome (list Z) :=
  match todo with
  | O => Ok []
  | S todo =>
      physical_core ← array_get ordered_physical_cores core_index;
      cores ← pick_cores todo (core_index + 1) ordered_physical_cores;
      Ok (physical_core :: cores)
  end.
Definition generate_core_set (count : Z) (ordered_physical_cores : list Z) : outcome (list Z) :=
  pick_cores (Z.to_nat count) 0 ordered_physical_cores.

(** [node_cores[numa_id].push_back(core_id)] on a [std::map], which is kept in ascending
    order of its keys. *)
Fixpoint push_core (node core : Z) (node_cores : list (Z * list Z)) : list (Z * list Z) :=
  match node_cores with
  | [] => [(node, [core])]
  | (n, cores) :: rest =>
      if node <? n then (node, [core]) :: node_cores
      else if node =? n then (n, cores ++ [core]) :: rest
      else (n, cores) :: push_core node core rest
  end.
Fixpoint group_cores (cores : list Z) (node_cores : list (Z * list Z)) : outcome (list (Z * list Z)) :=
  match cores with
  | [] => Ok node_cores
  | core :: cores =>
      node ← numa_id core;
      group_cores cores (push_core node core node_cores)
  end.
(** The two nested loops that write the cores into [core_order]. *)
Fixpoint place_cores (cores : list Z) (index : Z) (core_order : list Z) : outcome (list Z) :=
  match cores with
  | [] => Ok core_order
  | core :: cores =>
      core_order ← array_set core_order index core;
      if index + 1 =? Z.of_nat (length core_order) then Ok core_order
      else place_cores cores (index + 1) core_order
  end.
Definition real_max_cores (max_cores : Z) : Z := Z.max max_cores count_cores.
Definition generate_core_order (type : Type_) (max_cores : Z) : outcome (list Z) :=
  let ids := seqZ 0 (real_max_cores max_cores) in
  match type with
  | Logical => Ok ids
  | NumaAscending =>
      node_cores ← group_cores ids [];
      place_cores (mjoin (snd <$> node_cores)) 0 (replicate (Z.to_nat (real_max_cores max_cores)) 0)
  end.

(** ** The configuration *)
Record CoreConfiguration : Type := mkCoreConfiguration {
  core_sets : list (list Z);
  index : Z }.

(** [for (auto count_cores = min_cores; count_cores <= max_cores; count_cores++)], over
    16-bit numbers. *)
Fixpoint core_steps (fuel : nat) (count max_cores core_step : Z) (order : list Z) (sets : list (list Z)) :
    outcome (list (list Z)) :=
  match fuel with
  | O => Fault OutOfFuel
  | S fuel =>
      if count <=? max_cores then
        r ← remainder count core_step;
        sets ← (if r =? 0
                then s ← generate_core_set count order; Ok (sets ++ [s]) else Ok sets);
        core_steps fuel (u16 (count + 1)) max_cores core_step order sets
      else Ok sets
  end.
Definition new_core_configuration (fuel : nat) (type : Type_) (min_cores max_cores core_step : Z) :
    outcome CoreConfiguration :=
  ordered_cores ← generate_core_order type max_cores;
  if (min_cores =? 0) || (min_cores =? max_cores) then
    s ← generate_core_set max_cores ordered_cores; Ok (mkCoreConfiguration [s] 0)
  else
    r ← remainder min_cores core_step;
    '(sets, min_cores) ← (if negb (r =? 0)
      then s ← generate_core_set min_cores ordered_cores; Ok ([s], u16 (min_cores + 1))
      else Ok ([], min_cores));
    sets ← core_steps fuel min_cores max_cores core_step ordered_cores sets;
    r ← remainder max_cores core_step;
    sets ← (if negb (r =? 0)
      then s ← generate_core_set max_cores ordered_cores; Ok (sets ++ [s]) else Ok sets);
    Ok (mkCoreConfiguration sets 0).

(** [operator bool], [current], [reset] and [operator++]. *)
Definition configured (c : CoreConfiguration) : bool :=
  negb (bool_decide (core_sets c = [])) && (index c <? Z.of_nat (length (core_sets c))).
Definition current (c : CoreConfiguration) : outcome (list Z) := array_get (core_sets c) (index c).
Definition reset (c : CoreConfiguration) : CoreConfiguration := mkCoreConfiguration (core_sets c) 0.
Definition advance (c : CoreConfiguration) : CoreConfiguration := mkCoreConfiguration (core_sets c) (u64 (index c + 1)).

(** ** The argument [cores] *)

(** [std::getline(stream, token, ';')] until it fails. *)
Fixpoint tokens (s token : stream) : list stream :=
  match s with
  | [] => if decide (token = []) then [] else [token]
  | c :: s => if Ascii.eqb c ";"%char then token :: tokens s [] else tokens s (token ++ [c])
  end.
Definition int_max : Z := 2 ^ 31 - 1.
(** [std::uint16_t(std::stoi(...))] of a string of digits. *)
Definition stoi16 (ds : stream) : outcome Z :=
  if int_max <? digits_value ds then Fault Exception else Ok (u16 (digits_value ds)).
(** The three regular expressions, each of which has to match the whole token. *)
Definition match_cores (token : stream) : option (outcome (Z * Z)) :=
  let '(ds, rest) := span is_digit token in
  if decide (ds = []) then None
  else
    match rest with
    | [] => Some (core ← stoi16 ds; Ok (core, core))
    | c :: rest =>
        if Ascii.eqb c ":"%char then
          match rest with
          | [] => Some (core ← stoi16 ds; Ok (core, count_cores))
          | _ =>
              let '(es, rest) := span is_digit rest in
              if decide (es <> [] /\ rest = []) then Some (a ← stoi16 ds; b ← stoi16 es; Ok (a, b)) else None
          end
        else None
    end.
Definition parse_cores (cores : stream) : outcome (Z * Z) :=
  foldr (fun token others => match match_cores token with Some r => r | None => others end)
    (Ok (0, 0)) (tokens cores []).

(** ** Core sets are prefixes of the core order *)
Lemma pick_cores_ok order todo : forall pre post,
  order = pre ++ post -> (todo <= length post)%nat -> pick_cores todo (Z.of_nat (length pre)) order = Ok (take todo post).
Proof.
  induction todo as [|todo IH]; intros pre post -> Hl; [done|]. destruct post as [|c post]; [simpl in Hl; lia|].
  cbn [pick_cores take]. unfold array_get. rewrite decide_True by lia. rewrite Nat2Z.id, list_lookup_middle by done.
  simpl. replace (Z.of_nat (length pre) + 1) with (Z.of_nat (length (pre ++ [c]))) by (rewrite length_app; simpl; lia).
  rewrite (IH (pre ++ [c]) post); [done|by rewrite <- app_assoc|simpl in Hl; lia].
Qed.
Lemma generate_core_set_ok count order :
  0 <= count <= Z.of_nat (length order) -> generate_core_set count order = Ok (take (Z.to_nat count) order).
Proof. intros Hc. apply (pick_cores_ok order (Z.to_nat count) [] order); [done|lia]. Qed.

(** The numbers of cores the constructor asks for. *)
Definition core_counts (min_cores max_cores core_step : Z) : list Z :=
  filter (fun c => c mod core_step = 0 \/ c = min_cores \/ c = max_cores) (seqZ min_cores (max_cores - min_cores + 1)).

Lemma seqZ_head a n : 0 < n -> seqZ a n = a :: seqZ (a + 1) (n - 1).
Proof. intros Hn. rewrite (seqZ_cons a n) by done. f_equal; f_equal; lia. Qed.

Lemma core_steps_ok max_cores core_step order fuel : forall count sets,
  0 < core_step -> 0 <= count -> max_cores < 65535 -> max_cores <= Z.of_nat (length order) ->
  (Z.to_nat (max_cores - count + 1) < fuel)%nat ->
  core_steps fuel count max_cores core_step order sets
  = Ok (sets ++ ((fun c => take (Z.to_nat c) order) <$>
          filter (fun c => c mod core_step = 0) (seqZ count (max_cores - count + 1)))).
Proof.
  induction fuel as [|fuel IH]; intros count sets Hs Hc Hm Ho Hf; [lia|]. cbn [core_steps].
  destruct (Z.leb_spec count max_cores).
  2: { rewrite seqZ_nil by lia. by rewrite app_nil_r. }
  unfold remainder. rewrite (proj2 (Z.eqb_neq core_step 0)) by lia. rewrite (seqZ_head count) by lia.
  rewrite u16_small by lia. rewrite filter_cons.
  replace (max_cores - count + 1 - 1) with (max_cores - (count + 1) + 1) by lia.
  rewrite (outcome_bind_ok _ _ _ eq_refl). case_decide as Hmod.
  - rewrite (proj2 (Z.eqb_eq _ _) Hmod), (outcome_bind_ok (generate_core_set _ _) _ _ (generate_core_set_ok count order ltac:(lia))).
    rewrite (outcome_bind_ok _ _ _ eq_refl), IH by lia. by rewrite <- app_assoc.
  - rewrite (proj2 (Z.eqb_neq _ _) Hmod), (outcome_bind_ok _ _ _ eq_refl), IH by lia. done.
Qed.

(** Both ends of the range, taken out of the filter. *)
Lemma multiples_split a b step :
  a < b -> filter (fun c => c mod step = 0) (seqZ (a + 1) (b - (a + 1) + 1))
    = filter (fun c => c mod step = 0) (seqZ (a + 1) (b - a - 1)) ++ (if decide (b mod step = 0) then [b] else []).
Proof.
  intros Hab. replace (b - (a + 1) + 1) with (b - a - 1 + 1) by lia. rewrite seqZ_app, filter_app by lia. f_equal.
  replace (a + 1 + (b - a - 1)) with b by lia. rewrite (seqZ_head b), seqZ_nil, filter_cons by lia. by case_decide.
Qed.
Lemma core_counts_split a b step :
  a < b -> core_counts a b step = a :: filter (fun c => c mod step = 0) (seqZ (a + 1) (b - a - 1)) ++ [b].
Proof.
  intros Hab. unfold core_counts. rewrite (seqZ_head a) by lia. rewrite filter_cons, decide_True by auto. f_equal.
  replace (b - a + 1 - 1) with (b - a - 1 + 1) by lia. rewrite seqZ_app, filter_app by lia. f_equal.
  - apply list_filter_ext. intros c Hc%elem_of_seqZ. naive_solver lia.
  - replace (a + 1 + (b - a - 1)) with b by lia. rewrite (seqZ_head b) by lia.
    rewrite seqZ_nil by lia. rewrite filter_cons, decide_True by auto. done.
Qed.

Lemma new_core_configuration_sets fuel type min_cores max_cores core_step order :
  generate_core_order type max_cores = Ok order -> max_cores <= Z.of_nat (length order) ->
  0 < core_step -> 1 <= min_cores <= max_cores -> max_cores < 65535 -> (Z.to_nat max_cores < fuel)%nat ->
  new_core_configuration fuel type min_cores max_cores core_step
  = Ok (mkCoreConfiguration ((fun c => take (Z.to_nat c) order) <$> core_counts min_cores max_cores core_step) 0).
Proof.
  intros Hord Hlen Hs Hmin Hmax Hf. unfold new_core_configuration. rewrite (outcome_bind_ok _ _ _ Hord).
  pose proof (fun c H => generate_core_set_ok c order H) as Hset. rewrite (proj2 (Z.eqb_neq min_cores 0)) by lia.
  cbn [orb]. destruct (Z.eqb_spec min_cores max_cores) as [->|Hne].
  { rewrite (outcome_bind_ok _ _ _ (Hset max_cores ltac:(lia))). unfold core_counts.
    replace (max_cores - max_cores + 1) with 1 by lia. rewrite (seqZ_head max_cores), seqZ_nil, filter_cons, decide_True by auto with lia.
    done. }
  rewrite core_counts_split by lia. unfold remainder. rewrite (proj2 (Z.eqb_neq core_step 0)) by lia.
  rewrite (outcome_bind_ok _ _ _ eq_refl), fmap_cons, fmap_app.
  set (mids := filter (fun c => c mod core_step = 0) (seqZ (min_cores + 1) (max_cores - min_cores - 1))).
  assert (Hsteps : forall sets, core_steps fuel (min_cores + 1) max_cores core_step order sets
    = Ok (sets ++ ((fun c => take (Z.to_nat c) order) <$>
            mids ++ (if decide (max_cores mod core_step = 0) then [max_cores] else [])))).
  { intros sets. rewrite core_steps_ok, multiples_split by lia. done. }
  assert (Htail : forall sets, (sets ← Ok (sets ++ ((fun c => take (Z.to_nat c) order) <$>
            mids ++ (if decide (max_cores mod core_step = 0) then [max_cores] else [])));
    r ← Ok (max_cores mod core_step);
    sets ← (if negb (r =? 0) then s ← generate_core_set max_cores order; Ok (sets ++ [s]) else Ok sets);
    Ok (mkCoreConfiguration sets 0))
    = Ok (mkCoreConfiguration (sets ++ ((fun c => take (Z.to_nat c) order) <$> mids) ++ [take (Z.to_nat max_cores) order]) 0)).
  { intros sets. rewrite !(outcome_bind_ok _ _ _ eq_refl). case_decide as Hm.
    - rewrite (proj2 (Z.eqb_eq _ _) Hm). simpl. by rewrite fmap_app.
    - rewrite (proj2 (Z.eqb_neq _ _) Hm). cbn [negb]. rewrite (outcome_bind_ok _ _ _ (Hset max_cores ltac:(lia))).
      simpl. by rewrite app_nil_r, <- app_assoc. }
  destruct (Z.eqb_spec (min_cores mod core_step) 0) as [Hz|Hz]; cbn [negb].
  - rewrite (outcome_bind_ok _ _ _ eq_refl). cbn beta iota. rewrite core_steps_ok by lia.
    rewrite (seqZ_head min_cores) by lia. rewrite filter_cons, decide_True by done.
    replace (max_cores - min_cores + 1 - 1) with (max_cores - (min_cores + 1) + 1) by lia.
    rewrite multiples_split by lia. exact (Htail [take (Z.to_nat min_cores) order]).
  - rewrite (outcome_bind_ok (generate_core_set min_cores order) _ _ (Hset min_cores ltac:(lia))), (outcome_bind_ok _ _ _ eq_refl).
    cbn beta iota. rewrite u16_small, Hsteps by lia. exact (Htail [take (Z.to_nat min_cores) order]).
Qed.

(** ** The order of the cores *)
Definition node_of (core : Z) : Z := u8 (numa_node_of_cpu (core mod count_cores)).
Lemma numa_id_ok core : count_cores <> 0 -> numa_id core = Ok (node_of core).
Proof. intros Hc. unfold numa_id, physical_core_id, remainder. by rewrite (proj2 (Z.eqb_neq _ _) Hc). Qed.

(** Cores of lower NUMA nodes first, and in ascending order within a node. *)
Definition numa_before (a b : Z) : Prop := node_of a < node_of b \/ node_of a = node_of b /\ a < b.

Definition bucket_ok (p : Z * list Z) : Prop := Forall (fun c => node_of c = p.1) p.2 /\ StronglySorted Z.lt p.2.
Definition all_cores (m : list (Z * list Z)) : list Z := mjoin (snd <$> m).
Lemma all_cores_cons n cs m : all_cores ((n, cs) :: m) = cs ++ all_cores m.
Proof. done. Qed.

Lemma bucket_snoc n cs c : bucket_ok (n, cs) -> node_of c = n -> Forall (fun x => x < c) cs -> bucket_ok (n, cs ++ [c]).
Proof.
  intros [Hn Hs] Hc Hlt. split; simpl in *; [by rewrite Forall_app, Forall_singleton|].
  clear Hn. induction cs as [|x cs IH]; simpl; [repeat constructor|].
  apply StronglySorted_cons in Hs as [Hx Hs]. apply Forall_cons in Hlt as [Hxc Hlt].
  constructor; [by apply IH|]. by rewrite Forall_app, Forall_singleton.
Qed.
Lemma push_core_ok c m :
  StronglySorted Z.lt m.*1 -> Forall bucket_ok m -> Forall (fun x => x < c) (all_cores m) ->
  StronglySorted Z.lt (push_core (node_of c) c m).*1 /\ Forall bucket_ok (push_core (node_of c) c m)
  /\ all_cores (push_core (node_of c) c m) ≡ₚ c :: all_cores m
  /\ forall n, n ∈ (push_core (node_of c) c m).*1 -> n = node_of c \/ n ∈ m.*1.
Proof.
  assert (Hnew : bucket_ok (node_of c, [c])) by (split; simpl; repeat constructor).
  induction m as [|[n cs] m IH]; intros Hk Hb Hlt; simpl.
  { split; [repeat constructor|]. split; [by constructor|]. split; [done|]. set_solver. }
  rewrite all_cores_cons, Forall_app in Hlt. destruct Hlt as [Hlc Hlt]. pose proof Hk as [Hh Hk']%StronglySorted_cons.
  pose proof Hb as [Hb1 Hb']%Forall_cons. destruct (Z.ltb_spec (node_of c) n).
  - rewrite !all_cores_cons. split_and!; [|by constructor|done|set_solver].
    rewrite fmap_cons. constructor; [done|]. simpl. constructor; [done|].
    eapply Forall_impl; [exact Hh|]. simpl. lia.
  - destruct (Z.eqb_spec (node_of c) n) as [<-|Hne].
    + rewrite !all_cores_cons. split_and!; [done|constructor; [by apply bucket_snoc|done]| |set_solver].
      rewrite <- app_assoc. simpl. by rewrite Permutation_middle.
    + destruct (IH Hk' Hb' Hlt) as (H1 & H2 & H3 & H4). rewrite !all_cores_cons, !fmap_cons. split_and!.
      * constructor; [done|]. apply Forall_forall. intros x [->|Hx]%H4; simpl; [lia|]. rewrite Forall_forall in Hh. by apply Hh.
      * by constructor.
      * rewrite H3. by rewrite Permutation_middle.
      * set_solver.
Qed.

Lemma group_cores_ok ids : forall m,
  count_cores <> 0 -> StronglySorted Z.lt ids -> StronglySorted Z.lt m.*1 -> Forall bucket_ok m ->
  (forall x c, x ∈ all_cores m -> c ∈ ids -> x < c) ->
  exists m', group_cores ids m = Ok m' /\ StronglySorted Z.lt m'.*1 /\ Forall bucket_ok m'
    /\ all_cores m' ≡ₚ ids ++ all_cores m.
Proof.
  induction ids as [|c ids IH]; intros m Hc Hs Hk Hb Hlt; [by exists m|]. cbn [group_cores].
  rewrite (outcome_bind_ok _ _ _ (numa_id_ok c Hc)). apply StronglySorted_cons in Hs as [Hh Hs].
  destruct (push_core_ok c m Hk Hb) as (H1 & H2 & H3 & _).
  { apply Forall_forall. intros x Hx. apply Hlt; set_solver. }
  destruct (IH _ Hc Hs H1 H2) as (m' & Hr & Hk' & Hb' & Hp).
  { intros x d Hx Hd. rewrite H3 in Hx. rewrite Forall_forall in Hh. set_solver. }
  exists m'. split; [done|]. split; [done|]. split; [done|]. rewrite Hp, H3. simpl. by rewrite Permutation_middle.
Qed.

Lemma all_cores_sorted m :
  StronglySorted Z.lt m.*1 -> Forall bucket_ok m -> StronglySorted numa_before (all_cores m).
Proof.
  induction m as [|[n cs] m IH]; intros Hk Hb; [constructor|]. rewrite all_cores_cons.
  rewrite fmap_cons in Hk. apply StronglySorted_cons in Hk as [Hh Hk]. apply Forall_cons in Hb as [[Hn Hs] Hb]. simpl in *.
  assert (Hlow : forall x, x ∈ all_cores m -> n < node_of x).
  { intros x Hx. unfold all_cores in Hx. apply list_elem_of_join in Hx as (l & Hx & Hl).
    apply list_elem_of_fmap in Hl as ([n' l'] & -> & Hin). rewrite !Forall_forall in *. simpl in *.
    pose proof (Hb _ Hin) as [Hn' _]. rewrite Forall_forall in Hn'. simpl in Hn'. rewrite (Hn' x Hx).
    apply Hh. apply list_elem_of_fmap. by exists (n', l'). }
  specialize (IH Hk Hb). clear Hk Hb Hh. induction cs as [|c cs IHc]; [done|]. simpl.
  apply StronglySorted_cons in Hs as [Hc Hs]. apply Forall_cons in Hn as [Hnc Hn]. constructor; [by apply IHc|].
  apply Forall_app. split; apply Forall_forall.
  - intros x Hx. rewrite !Forall_forall in *. right. split; [|by apply Hc]. rewrite (Hn x Hx). done.
  - intros x Hx. left. rewrite Hnc. by apply Hlow.
Qed.

Lemma place_cores_ok cs : forall pre post,
  length cs = length post -> place_cores cs (Z.of_nat (length pre)) (pre ++ post) = Ok (pre ++ cs).
Proof.
  induction cs as [|c cs IH]; intros pre post Hl; [by destruct post|]. destruct post as [|p post]; [done|].
  cbn [place_cores]. unfold array_set. rewrite decide_True by (rewrite length_app; simpl; lia).
  rewrite Nat2Z.id, insert_app_r_alt, Nat.sub_diag by lia. cbn [insert list_insert].
  rewrite (outcome_bind_ok _ _ _ eq_refl). simpl in Hl.
  destruct (Z.eqb_spec (Z.of_nat (length pre) + 1) (Z.of_nat (length (pre ++ c :: post)))) as [Heq|Hne].
  - rewrite length_app in Heq. simpl in Heq. destruct post, cs; simpl in *; (done || lia).
  - replace (Z.of_nat (length pre) + 1) with (Z.of_nat (length (pre ++ [c]))) by (rewrite length_app; simpl; lia).
    replace (pre ++ c :: post) with ((pre ++ [c]) ++ post) by (by rewrite <- app_assoc).
    rewrite IH by lia. by rewrite <- app_assoc.
Qed.

Lemma seqZ_sorted a n : StronglySorted Z.lt (seqZ a n).
Proof.
  destruct (Z.le_gt_cases 0 n) as [Hn|]; [|rewrite seqZ_nil by lia; constructor].
  revert a. pattern n. apply natlike_ind; [..|done].
  - intros a. rewrite seqZ_nil by lia. constructor.
  - intros x Hx IH a. rewrite (seqZ_head a) by lia. replace (Z.succ x - 1) with x by lia. constructor; [apply IH|].
    apply Forall_forall. intros y Hy%elem_of_seqZ. lia.
Qed.

(** The order both kinds of configuration use. *)
Definition core_order_ok (type : Type_) (max_cores : Z) (order : list Z) : Prop :=
  order ≡ₚ seqZ 0 (real_max_cores max_cores)
  /\ StronglySorted (match type with Logical => Z.lt | NumaAscending => numa_before end) order.
Lemma generate_core_order_ok type max_cores :
  count_cores <> 0 -> exists order, generate_core_order type max_cores = Ok order /\ core_order_ok type max_cores order.
Proof.
  intros Hc. destruct type; simpl; [eexists; split; [done|]; split; [done|apply seqZ_sorted]|].
  destruct (group_cores_ok (seqZ 0 (real_max_cores max_cores)) [] Hc (seqZ_sorted _ _)) as (m & Hg & Hk & Hb & Hp);
    [constructor|constructor|set_solver|].
  rewrite app_nil_r in Hp. rewrite (outcome_bind_ok _ _ _ Hg). exists (all_cores m).
  split; [|split; [done|by apply all_cores_sorted]].
  apply (place_cores_ok (all_cores m) []). rewrite (Permutation_length Hp), length_seqZ, length_replicate. done.
Qed.

(** The constructor of [CoreConfiguration] terminates and sets up one core set for
    the least and the greatest number of cores and for every multiple of the step in
    between, in ascending order, each the prefix of that length of one order of all
    cores: a permutation of the cores, in ascending order or grouped by NUMA node. *)
Theorem core_configuration_correct fuel type min_cores max_cores core_step :
  count_cores <> 0 -> 0 < core_step -> 1 <= min_cores <= max_cores -> max_cores < 65535 ->
  (Z.to_nat max_cores < fuel)%nat ->
  exists order, core_order_ok type max_cores order
    /\ new_core_configuration fuel type min_cores max_cores core_step
       = Ok (mkCoreConfiguration ((fun c => take (Z.to_nat c) order) <$> core_counts min_cores max_cores core_step) 0).
Proof.
  intros Hc Hs Hmin Hmax Hf. destruct (generate_core_order_ok type max_cores Hc) as (order & Ho & Hok).
  exists order. split; [done|]. apply new_core_configuration_sets; auto.
  destruct Hok as [Hp _]. rewrite (Permutation_length Hp), length_seqZ. unfold real_max_cores. lia.
Qed.

(** ** Ranges of cores *)
Lemma tokens_plain s : forall token, forallb (fun c => negb (Ascii.eqb c ";"%char)) s = true ->
  token ++ s <> [] -> tokens s token = [token ++ s].
Proof.
  induction s as [|c s IH]; intros token Hs Hne; cbn [tokens].
  - rewrite app_nil_r in *. by rewrite decide_False.
  - simpl in Hs. apply andb_true_iff in Hs as [Hc Hs]. destruct (Ascii.eqb c ";"%char); [done|].
    rewrite IH by (try done; by destruct token). by rewrite <- app_assoc.
Qed.
Lemma digits_no_separator ds : forallb is_digit ds = true -> forallb (fun c => negb (Ascii.eqb c ";"%char)) ds = true.
Proof.
  intros Hd. apply forallb_forall. intros c Hc. rewrite forallb_forall in Hd. specialize (Hd c Hc).
  destruct (Ascii.eqb_spec c ";"%char) as [->|]; [done|done].
Qed.
(** Five digits are enough for 16 bits. *)
Lemma cores_decimal a : 0 <= a < 65536 ->
  forallb is_digit (decimal 5 a) = true /\ stoi16 (decimal 5 a) = Ok a /\ decimal 5 a <> [].
Proof.
  intros Ha. destruct (decimal_ok 5 a) as (Hd & Hv & Hne); [change (10 ^ Z.of_nat 5) with 100000; lia|].
  split; [done|]. split.
  - unfold stoi16. rewrite Hv. rewrite (proj2 (Z.ltb_ge _ _)) by (unfold int_max; lia). by rewrite u16_small.
  - destruct Hne as (c & t & -> & _); done.
Qed.
Lemma parse_cores_token s r :
  forallb (fun c => negb (Ascii.eqb c ";"%char)) s = true -> s <> [] -> match_cores s = Some r -> parse_cores s = r.
Proof. intros Hs Hne Hm. unfold parse_cores. rewrite (tokens_plain s [] Hs Hne). simpl. by rewrite Hm. Qed.

(** The command line argument for the cores is read as its help text says: [a] means
    [a] cores, [a:] from [a] to all cores of the machine, [a:b] from [a] to [b], for
    all 16-bit numbers. *)
Theorem parse_cores_correct a b :
  0 <= a < 65536 -> 0 <= b < 65536 ->
  parse_cores (decimal 5 a) = Ok (a, a)
  /\ parse_cores (decimal 5 a ++ [":"%char]) = Ok (a, count_cores)
  /\ parse_cores (decimal 5 a ++ ":"%char :: decimal 5 b) = Ok (a, b).
Proof.
  intros (Hda & Hsa & Hna)%cores_decimal (Hdb & Hsb & Hnb)%cores_decimal.
  revert Hda Hsa Hna Hdb Hsb Hnb. generalize (decimal 5 a) (decimal 5 b). intros da db Hda Hsa Hna Hdb Hsb Hnb.
  pose proof (digits_no_separator _ Hda) as Ha. pose proof (digits_no_separator _ Hdb) as Hb.
  assert (Hcolon : forall (c : ascii) rest t, ":"%char :: rest = c :: t -> is_digit c = false) by (by intros c rest t [= <- _]).
  split_and!.
  - apply parse_cores_token; [done|done|]. unfold match_cores.
    rewrite <- (app_nil_r da), (span_app is_digit da []) by done. rewrite decide_False by done. by rewrite Hsa.
  - apply parse_cores_token; [by rewrite forallb_app, Ha|by destruct da|]. unfold match_cores.
    rewrite (span_app is_digit da) by eauto. rewrite decide_False by done. simpl. by rewrite Hsa.
  - apply parse_cores_token; [rewrite forallb_app, Ha; done|by destruct da|]. unfold match_cores.
    rewrite (span_app is_digit da) by eauto. rewrite decide_False by done. cbn [Ascii.eqb Bool.eqb].
    pose proof (span_app is_digit db [] Hdb ltac:(done)) as Hspan. rewrite app_nil_r in Hspan.
    destruct db as [|d db]; [done|]. rewrite Hspan, decide_True by done. by rewrite Hsa, Hsb.
Qed.

End CoreConfiguration.

(** ** Concrete configurations *)
Module CoreExamples.

(** A machine with eight cores; even and odd ones are on different NUMA nodes. *)
Definition nodes (core : Z) : Z := core mod 2.

Lemma core_configuration_correct_witness :
  exists order, core_order_ok 8 nodes NumaAscending 7 order
    /\ new_core_configuration 8 nodes 20 NumaAscending 1 7 2
       = Ok (mkCoreConfiguration ((fun c => take (Z.to_nat c) order) <$> core_counts 1 7 2) 0).
Proof. apply (core_configuration_correct 8 nodes 20 NumaAscending 1 7 2); vm_compute; (done || lia || by split). Defined.

Example eight_cores :
  core_sets <$> new_core_configuration 8 nodes 20 NumaAscending 1 7 3
  = Ok [[0]; [0; 2; 4]; [0; 2; 4; 6; 1; 3]; [0; 2; 4; 6; 1; 3; 5]].
Proof. vm_compute. reflexivity. Qed.

Lemma parse_cores_correct_witness :
  parse_cores 8 (decimal 5 2) = Ok (2, 2)
  /\ parse_cores 8 (decimal 5 2 ++ [":"%char]) = Ok (2, count_cores 8)
  /\ parse_cores 8 (decimal 5 2 ++ ":"%char :: decimal 5 6) = Ok (2, 6).
Proof. apply (parse_cores_correct 8 2 6); lia. Defined.

End CoreExamples.
