(* ===== verification/Driver.v ===== *)
(** * The benchmark driver

    Models [src/src/benchmark/abstract_benchmark.h], [abstract_benchmark.cpp] (the phase
    machine [is_finished]) and the loops of [thread_benchmark.cpp] of both thread-based
    indices: [execute], which creates and deletes trees around the runs, and the workers
    of [execute_iteration], which fetch batches of the workload from a shared counter.
    Timers, counters of the processor and pinning to cores have no effect on either. *)

From S2P Require Import Prelude Workload CoreConfig.

(** ** The phase machine *)
Inductive FinishedRunStatus : Set := NextPhase | NextRun | NextCoreConfiguration | Finished.
#[export] Instance FinishedRunStatus_eq_dec : EqDecision FinishedRunStatus.
Proof. solve_decision. Defined.

Record AbstractBenchmark : Type := mkBenchmark {
  core_config : CoreConfiguration;
  workload : Workload;
  current_iteration : Z }.

(** What happens to the tree: [_tree = new ...], one call of [execute_iteration] (with
    the phase, the cores and the iteration it runs with), [delete _tree]. *)
Inductive event : Type :=
  | NewTree
  | RunIteration (p : WorkloadPhase) (cores : list Z) (iteration : Z)
  | DeleteTree.

Definition is_fill_phase (b : AbstractBenchmark) : bool := bool_decide (phase (workload b) = Fill).

Definition restart (use_fill_phase : bool) (w : Workload) : Workload * list event :=
  if use_fill_phase then (set_phase Fill w, [DeleteTree]) else (w, []).

Definition is_finished (iterations : Z) (use_fill_phase : bool) (b : AbstractBenchmark) :
    FinishedRunStatus * AbstractBenchmark * list event :=
  if is_fill_phase b && has_benchmark (workload b) then
    (NextPhase, mkBenchmark (core_config b) (set_phase Benchmark (workload b)) (current_iteration b), [])
  else
    let iteration := u16 (current_iteration b + 1) in
    let '(w, evs) := restart use_fill_phase (workload b) in
    if iteration <? iterations then (NextRun, mkBenchmark (core_config b) w iteration, evs)
    else
      let cc := advance (core_config b) in
      if configured cc then (NextCoreConfiguration, mkBenchmark cc w 0, evs)
      else (Finished, mkBenchmark cc w 0, evs).

(** [execute]: [do { ... } while (this->is_finished() == false)]. *)
Fixpoint execute (fuel : nat) (iterations : Z) (b : AbstractBenchmark) : outcome (AbstractBenchmark * list event) :=
  match fuel with
  | O => Fault OutOfFuel
  | S fuel =>
      cores ← current (core_config b);
      let evs := (if is_fill_phase b then [NewTree] else [])
                 ++ [RunIteration (phase (workload b)) cores (current_iteration b)] in
      match is_finished iterations true b with
      | (Finished, b, evs') => Ok (b, evs ++ evs')
      | (_, b, evs') => '(b, evs'') ← execute fuel iterations b; Ok (b, evs ++ evs' ++ evs'')
      end
  end.

(** ** Workers *)

(** A worker is about to fetch a batch, works on item [i] of the batch at [p], or has
    left its loop. *)
Inductive worker : Type := Fetching | Working (p i : Z) | Done.
#[export] Instance worker_eq_dec : EqDecision worker.
Proof. solve_decision. Defined.

Record Dispatch : Type := mkDispatch {
  workload_pointer : Z;
  workers : list worker;
  executed : list Z }.

(** [execute_iteration] with [count_items] items and the batch size of the command line. *)
Section Dispatch.
Context (count_items batch_size : Z).

Definition items_to_execute (p : Z) : Z := Z.min batch_size (count_items - p).

(** The next step of worker [t]: the atomic [fetch_add] with the loop condition, one item
    ([items[p + i]] is noted in [executed]), or the end of the inner loop. *)
Definition worker_step (t : nat) (d : Dispatch) : option Dispatch :=
  match workers d !! t with
  | Some Fetching =>
      let p := workload_pointer d in
      Some (mkDispatch (u64 (p + batch_size))
              (<[t := if p <? count_items then Working p 0 else Done]> (workers d)) (executed d))
  | Some (Working p i) =>
      if i <? items_to_execute p then
        Some (mkDispatch (workload_pointer d) (<[t := Working p (u32 (i + 1))]> (workers d)) (executed d ++ [p + i]))
      else Some (mkDispatch (workload_pointer d) (<[t := Fetching]> (workers d)) (executed d))
  | Some Done | None => None
  end.
Definition dispatch_step (d d' : Dispatch) : Prop := exists t, worker_step t d = Some d'.
Definition dispatch_start (threads : nat) : Dispatch := mkDispatch 0 (replicate threads Fetching) [].
Definition all_done (d : Dispatch) : Prop := Forall (fun w => w = Done) (workers d).

End Dispatch.

(** ** The schedule of a benchmark *)

(** What one iteration on [cores] does: a tree is filled, worked on and deleted. *)
Definition block (w : Workload) (cores : list Z) (iteration : Z) : list event :=
  [NewTree; RunIteration Fill cores iteration]
  ++ (if has_benchmark w then [RunIteration Benchmark cores iteration] else []) ++ [DeleteTree].
Definition rounds (w : Workload) (iterations : Z) (cores : list Z) : list event :=
  mjoin (block w cores <$> seqZ 0 (Z.max 1 iterations)).
Definition schedule (w : Workload) (iterations : Z) (sets : list (list Z)) : list event :=
  mjoin (rounds w iterations <$> sets).

Definition runs_per_block (w : Workload) : nat := if has_benchmark w then 2 else 1.
Definition runs_needed (w : Workload) (iterations : Z) (sets : list (list Z)) : nat :=
  length sets * (Z.to_nat (Z.max 1 iterations) * runs_per_block w).

(** Events that happened before the rest of an execution. *)
Definition preceded (evs : list event) (m : outcome (AbstractBenchmark * list event)) :
    outcome (AbstractBenchmark * list event) := '(b, e) ← m; Ok (b, evs ++ e).
Lemma preceded_preceded e1 e2 m : preceded e1 (preceded e2 m) = preceded (e1 ++ e2) m.
Proof. destruct m as [[b e]|]; simpl; [|done]. by rewrite app_assoc. Qed.

Definition at_round (cc : CoreConfiguration) (w : Workload) (it : Z) : AbstractBenchmark := mkBenchmark cc (set_phase Fill w) it.
Lemma has_benchmark_phase p w : has_benchmark (set_phase p w) = has_benchmark w.
Proof. done. Qed.
Lemma set_phase_twice p q w : set_phase p (set_phase q w) = set_phase p w.
Proof. done. Qed.

(** One block, and where the machine goes from there. *)
Lemma execute_block fuel its cc w it cores :
  current cc = Ok cores -> 0 <= it < 65535 ->
  execute (runs_per_block w + fuel) its (at_round cc w it)
  = if it + 1 <? its then preceded (block w cores it) (execute fuel its (at_round cc w (it + 1)))
    else if configured (advance cc) then preceded (block w cores it) (execute fuel its (at_round (advance cc) w 0))
    else Ok (at_round (advance cc) w 0, block w cores it).
Proof.
  intros Hc Hit. unfold runs_per_block, block. assert (Hu : u16 (it + 1) = it + 1) by (apply u16_small; lia).
  destruct (has_benchmark w) eqn:Hb; cbn [Nat.add execute];
    repeat (cbn [at_round core_config workload current_iteration phase]; rewrite ?Hc;
            unfold is_finished, is_fill_phase, restart, at_round; cbn [set_phase phase workload core_config current_iteration];
            rewrite ?(outcome_bind_ok _ _ _ eq_refl); rewrite ?has_benchmark_phase, ?Hb, ?Hu;
            rewrite ?bool_decide_true, ?bool_decide_false by done; cbn [andb]).
  - destruct (it + 1 <? its).
    + destruct (execute fuel its _) as [[b e]|]; done.
    + destruct (configured (advance cc)); [|done]. destruct (execute fuel its _) as [[b e]|]; done.
  - destruct (it + 1 <? its).
    + destruct (execute fuel its _) as [[b e]|]; done.
    + destruct (configured (advance cc)); [|done]. destruct (execute fuel its _) as [[b e]|]; done.
Qed.

(** All iterations from [it] on for the current core set. *)
Lemma execute_rounds its cc w cores fuel (r : nat) : forall it,
  current cc = Ok cores -> 0 <= it -> it + Z.of_nat (S r) = Z.max 1 its -> its < 65536 ->
  execute (S r * runs_per_block w + fuel) its (at_round cc w it)
  = let evs := mjoin (block w cores <$> seqZ it (Z.of_nat (S r))) in
    if configured (advance cc) then preceded evs (execute fuel its (at_round (advance cc) w 0))
    else Ok (at_round (advance cc) w 0, evs).
Proof.
  induction r as [|r IH]; intros it Hc Hit Hr Hits.
  - rewrite Nat.mul_1_l, (execute_block fuel its cc w it cores) by (try done; lia).
    rewrite (proj2 (Z.ltb_ge _ _)) by lia. cbn zeta. change (Z.of_nat 1) with 1.
    rewrite (seqZ_head it), seqZ_nil by lia. cbn [fmap list_fmap mjoin list_join]. by rewrite app_nil_r.
  - replace (S (S r) * runs_per_block w + fuel)%nat with (runs_per_block w + (S r * runs_per_block w + fuel))%nat by lia.
    rewrite (execute_block _ its cc w it cores) by (try done; lia). rewrite (proj2 (Z.ltb_lt _ _)) by lia.
    rewrite (IH (it + 1)) by (try done; lia). cbn zeta. rewrite (seqZ_head it) by lia.
    replace (Z.of_nat (S (S r)) - 1) with (Z.of_nat (S r)) by lia. cbn [fmap list_fmap mjoin list_join].
    destruct (configured (advance cc)); [by rewrite preceded_preceded|done].
Qed.

Lemma execute_schedule its w fuel post : forall pre,
  post <> [] -> its < 65536 -> Z.of_nat (length (pre ++ post)) <= max_u64 ->
  execute (runs_needed w its post + fuel) its (at_round (mkCoreConfiguration (pre ++ post) (Z.of_nat (length pre))) w 0)
  = Ok (at_round (mkCoreConfiguration (pre ++ post) (Z.of_nat (length (pre ++ post)))) w 0, schedule w its post).
Proof.
  induction post as [|cores post IH]; intros pre Hne Hits Hlen; [done|].
  set (cc := mkCoreConfiguration (pre ++ cores :: post) (Z.of_nat (length pre))).
  assert (Hcur : current cc = Ok cores).
  { unfold current, cc. simpl. apply array_get_lookup. by rewrite list_lookup_middle. }
  rewrite length_app in Hlen. simpl in Hlen.
  assert (Hadv : advance cc = mkCoreConfiguration ((pre ++ [cores]) ++ post) (Z.of_nat (length (pre ++ [cores])))).
  { unfold advance, cc. simpl. rewrite u64_small, <- app_assoc, length_app by lia. simpl. f_equal. lia. }
  set (k := Z.to_nat (Z.max 1 its) ). assert (exists r, k = S r) as [r Hk] by (exists (pred k); lia).
  unfold runs_needed. cbn [length]. fold k.
  replace (S (length post) * (k * runs_per_block w) + fuel)%nat
    with (k * runs_per_block w + (runs_needed w its post + fuel))%nat by (unfold runs_needed; fold k; lia).
  rewrite Hk, (execute_rounds its cc w cores _ r 0) by (try done; lia). cbn zeta.
  assert (Hrounds : mjoin (block w cores <$> seqZ 0 (Z.of_nat (S r))) = rounds w its cores).
  { unfold rounds. do 3 f_equal. lia. }
  rewrite Hrounds, Hadv. unfold configured. cbn [core_sets index]. rewrite <- app_assoc. cbn [app].
  destruct post as [|c2 post].
  - rewrite (proj2 (Z.ltb_ge _ _)) by (rewrite !length_app; simpl; lia). rewrite andb_false_r.
    unfold schedule. cbn [fmap list_fmap mjoin list_join]. by rewrite app_nil_r.
  - rewrite bool_decide_false by (by destruct pre). rewrite (proj2 (Z.ltb_lt _ _)) by (rewrite !length_app; simpl; lia).
    cbn [andb negb].
    replace (pre ++ cores :: c2 :: post) with ((pre ++ [cores]) ++ c2 :: post) by (by rewrite <- app_assoc).
    rewrite IH; [done|done|done|]. rewrite !length_app. cbn [length] in *. lia.
Qed.

(** A benchmark terminates, and its schedule is the intended one: for every core set
    in turn and for every iteration (at least one), a new tree is filled, the benchmark
    phase, if there is one, runs on it, and the tree is deleted; no run is without a tree
    and no tree is deleted twice. *)
Theorem execute_correct fuel iterations w cc :
  core_sets cc <> [] -> index cc = 0 -> iterations < 65536 -> Z.of_nat (length (core_sets cc)) <= max_u64 ->
  (runs_needed w iterations (core_sets cc) <= fuel)%nat -> phase w = Fill ->
  exists b, execute fuel iterations (mkBenchmark cc w 0) = Ok (b, schedule w iterations (core_sets cc))
    /\ configured (core_config b) = false.
Proof.
  intros Hne Hidx Hits Hlen Hf Hph. destruct cc as [sets idx]. simpl in *. subst idx.
  replace fuel with (runs_needed w iterations sets + (fuel - runs_needed w iterations sets))%nat by lia.
  assert (Hst : mkBenchmark (mkCoreConfiguration sets 0) w 0 = at_round (mkCoreConfiguration sets 0) w 0).
  { unfold at_round. destruct w. simpl in *. by subst. }
  rewrite Hst. eexists. split; [apply (execute_schedule iterations w _ sets []); done|].
  unfold configured. simpl. rewrite Z.ltb_irrefl. apply andb_false_r.
Qed.

(** ** The distribution of the work *)
Section DispatchFacts.
Context (count_items batch_size : Z) (threads : nat).
Context (Hcount : 0 <= count_items) (Hbatch : 0 < batch_size <= 65535).
Context (Hwide : count_items + batch_size * (Z.of_nat threads + 2) <= max_u64).

#[local] Abbreviation step := (worker_step count_items batch_size).
#[local] Abbreviation todo := (items_to_execute count_items batch_size).

(** Items a worker has fetched and not executed, and items nobody has fetched. *)
Definition claimed (w : worker) : list Z :=
  match w with Working p i => seqZ (p + i) (todo p - i) | _ => [] end.
Definition unclaimed (ptr : Z) : list Z := seqZ ptr (count_items - ptr).
Definition worker_ok (w : worker) : Prop :=
  match w with Working p i => 0 <= p < count_items /\ 0 <= i <= todo p | _ => True end.
Definition is_done (w : worker) : Z := if decide (w = Done) then 1 else 0.
Definition effort (w : worker) : nat := match w with Fetching => 1 | Working _ _ => 2 | Done => 0 end.
Definition sum_of {A} (f : A -> Z) (l : list A) : Z := foldr (fun x a => f x + a) 0 l.
Lemma sum_of_app {A} (f : A -> Z) l1 l2 : sum_of f (l1 ++ l2) = sum_of f l1 + sum_of f l2.
Proof. induction l1; simpl; lia. Qed.

Record dispatch_inv (d : Dispatch) : Prop := {
  di_perm : executed d ++ mjoin (claimed <$> workers d) ++ unclaimed (workload_pointer d) ≡ₚ seqZ 0 count_items;
  di_workers : Forall worker_ok (workers d);
  di_pointer : 0 <= workload_pointer d <= count_items + batch_size * (1 + sum_of is_done (workers d));
  di_done : Done ∈ workers d -> count_items <= workload_pointer d;
  di_threads : length (workers d) = threads }.

(** Steps left at most. *)
Definition effort_left (d : Dispatch) : Z :=
  sum_of (fun w => Z.of_nat (effort w + length (claimed w))) (workers d)
  + 3 * Z.of_nat (length (unclaimed (workload_pointer d))).

Lemma is_done_bound ws : 0 <= sum_of is_done ws <= Z.of_nat (length ws).
Proof. induction ws as [|w ws IH]; simpl; [lia|]. unfold is_done at 1 3. case_decide; lia. Qed.

(** What a step does to the worker that makes it. *)
Inductive worker_move (ptr : Z) : worker -> worker -> Z -> list Z -> Prop :=
  | move_fetch : ptr < count_items -> worker_move ptr Fetching (Working ptr 0) (ptr + batch_size) []
  | move_leave : count_items <= ptr -> worker_move ptr Fetching Done (ptr + batch_size) []
  | move_item p i : i < todo p -> worker_move ptr (Working p i) (Working p (i + 1)) ptr [p + i]
  | move_next p i : todo p <= i -> worker_move ptr (Working p i) Fetching ptr [].

Lemma step_move t d d' :
  dispatch_inv d -> step t d = Some d' ->
  exists l1 w l2 w' out, workers d = l1 ++ w :: l2 /\ worker_ok w
    /\ worker_move (workload_pointer d) w w' (workload_pointer d') out
    /\ workers d' = l1 ++ w' :: l2 /\ executed d' = executed d ++ out.
Proof.
  intros [_ Hw Hp _ Hl]. unfold worker_step. destruct (workers d !! t) as [w|] eqn:E; [|done].
  destruct (list_elem_of_split_length _ _ _ E) as (l1 & l2 & Hws & Ht). subst t.
  assert (Hok : worker_ok w) by (rewrite Forall_forall in Hw; apply Hw; rewrite Hws; set_solver).
  pose proof (is_done_bound (workers d)). rewrite Hws.
  assert (Hins : forall w', <[length l1 := w']> (l1 ++ w :: l2) = l1 ++ w' :: l2).
  { intros w'. rewrite insert_app_r_alt, Nat.sub_diag by lia. done. }
  rewrite !Hins. destruct w as [|p i|]; [| |done].
  - intros [= <-]. simpl. rewrite u64_small by nia.
    exists l1, Fetching, l2, (if workload_pointer d <? count_items then Working (workload_pointer d) 0 else Done), [].
    rewrite app_nil_r. split_and!; try done. destruct (Z.ltb_spec (workload_pointer d) count_items); by constructor.
  - destruct Hok as [Hp1 Hi]. destruct (Z.ltb_spec i (todo p)) as [Hlt|Hge]; intros [= <-]; simpl.
    + exists l1, (Working p i), l2, (Working p (i + 1)), [p + i]. rewrite u32_small.
      * split_and!; try done; by constructor.
      * unfold items_to_execute in *. unfold max_u32. lia.
    + exists l1, (Working p i), l2, Fetching, []. rewrite app_nil_r. split_and!; try done; by constructor.
Qed.

Lemma join_claimed l1 w l2 :
  mjoin (claimed <$> l1 ++ w :: l2) ≡ₚ claimed w ++ mjoin (claimed <$> l1 ++ l2).
Proof.
  rewrite !fmap_app, fmap_cons.
  assert (Hj : forall a b : list (list Z), mjoin (a ++ b) = mjoin a ++ mjoin b) by (apply join_app).
  rewrite !Hj. change (mjoin (claimed w :: (claimed <$> l2))) with (claimed w ++ mjoin (claimed <$> l2)).
  by rewrite !app_assoc, (Permutation_app_comm _ (claimed w)).
Qed.

(** The item a worker executes next comes off its claim; a fetch moves items from the
    unclaimed ones to the worker. *)
Lemma move_items ptr w w' ptr' out :
  0 <= ptr -> worker_ok w -> worker_move ptr w w' ptr' out ->
  claimed w ++ unclaimed ptr = out ++ claimed w' ++ unclaimed ptr' /\ worker_ok w'
  /\ (effort w' + length (claimed w') + 3 * length (unclaimed ptr') < effort w + length (claimed w) + 3 * length (unclaimed ptr))%nat.
Proof.
  intros Hp Hok Hmv. revert Hok. destruct Hmv; intros Hok; simpl in *; unfold unclaimed, items_to_execute in *; rewrite !length_seqZ.
  - split; [|split; lia]. rewrite Z.add_0_r, Z.sub_0_r. destruct (Z.le_gt_cases (ptr + batch_size) count_items).
    + rewrite Z.min_l by lia. rewrite <- seqZ_app by lia. f_equal. lia.
    + rewrite Z.min_r by lia. rewrite (seqZ_nil (ptr + batch_size)) by lia. by rewrite app_nil_r.
  - split; [|split; [done|lia]]. by rewrite !seqZ_nil by lia.
  - split; [|split; lia]. rewrite (seqZ_head (p + i)) by lia. replace (p + (i + 1)) with (p + i + 1) by lia.
    by replace (batch_size `min` (count_items - p) - (i + 1)) with (batch_size `min` (count_items - p) - i - 1) by lia.
  - split; [|split; [done|lia]]. by rewrite (seqZ_nil (p + i)) by lia.
Qed.

Lemma dispatch_inv_step t d d' : dispatch_inv d -> step t d = Some d' -> dispatch_inv d' /\ effort_left d' < effort_left d.
Proof.
  intros Hi Hst. destruct (step_move _ _ _ Hi Hst) as (l1 & w & l2 & w' & out & Hws & Hok & Hmv & Hws' & Hex).
  destruct Hi as [Hperm Hall Hptr Hdone Hlen]. destruct (move_items _ _ _ _ _ (proj1 Hptr) Hok Hmv) as (Hitems & Hok' & Heff).
  pose proof (is_done_bound (workers d)) as Hdb. rewrite Hws in Hperm, Hall, Hptr, Hdone, Hlen, Hdb.
  rewrite Forall_app, Forall_cons in Hall. destruct Hall as (Ha1 & _ & Ha2). split; [split|].
  - rewrite Hex, Hws', <- Hperm, !join_claimed. rewrite <- (app_assoc (executed d)). f_equiv.
    rewrite <- !(app_assoc (claimed _)), !(Permutation_app_comm (mjoin _)), !(app_assoc (claimed _)), Hitems.
    by rewrite !app_assoc.
  - rewrite Hws', Forall_app, Forall_cons. done.
  - rewrite Hws', sum_of_app. rewrite sum_of_app in Hptr.
    change (sum_of is_done (w' :: l2)) with (is_done w' + sum_of is_done l2).
    change (sum_of is_done (w :: l2)) with (is_done w + sum_of is_done l2) in Hptr.
    pose proof (is_done_bound l1). pose proof (is_done_bound l2). revert Hptr.
    destruct Hmv; unfold is_done at 2 5; repeat (case_decide; try done); nia.
  - rewrite Hws', elem_of_app, elem_of_cons. intros Hin.
    assert (Done ∈ l1 \/ Done ∈ l2 -> count_items <= workload_pointer d) by (intros; apply Hdone; set_solver).
    destruct Hmv; destruct Hin as [?|[?|?]]; (done || lia || (assert (count_items <= workload_pointer d) by auto; lia)).
  - rewrite Hws', length_app in *. simpl in *. lia.
  - unfold effort_left. rewrite Hws, Hws', !sum_of_app. cbn [sum_of foldr].
    change (foldr (fun x a => Z.of_nat (effort x + length (claimed x)) + a) 0 l2)
      with (sum_of (fun w => Z.of_nat (effort w + length (claimed w))) l2). lia.
Qed.

Lemma dispatch_start_inv : dispatch_inv (dispatch_start threads) /\ effort_left (dispatch_start threads) = 3 * count_items + Z.of_nat threads.
Proof.
  unfold effort_left, unclaimed. simpl. rewrite Z.sub_0_r, length_seqZ.
  assert (Hj : mjoin (claimed <$> replicate threads Fetching) = []) by (clear; by induction threads).
  assert (Hs : sum_of (fun w => Z.of_nat (effort w + length (claimed w))) (replicate threads Fetching) = Z.of_nat threads).
  { clear. induction threads as [|n IH]; [done|]. cbn [replicate sum_of foldr] in *. unfold sum_of in IH. rewrite IH. simpl. lia. }
  split; [|rewrite Hs; lia]. split; simpl.
  - rewrite Hj. simpl. unfold unclaimed. by rewrite Z.sub_0_r.
  - apply Forall_replicate. done.
  - pose proof (is_done_bound (replicate threads Fetching)). nia.
  - intros [? _]%elem_of_replicate. done.
  - apply length_replicate.
Qed.

Lemma dispatch_steps n d d' : dispatch_inv d -> nsteps (dispatch_step count_items batch_size) n d d' ->
  dispatch_inv d' /\ effort_left d' + Z.of_nat n <= effort_left d.
Proof.
  intros Hi Hn. induction Hn as [d|n d1 d2 d3 [t Hst] Hn IH]; [split; [done|lia]|].
  destruct (dispatch_inv_step _ _ _ Hi Hst) as [Hi2 Heff]. destruct (IH Hi2). split; [done|lia].
Qed.

Lemma effort_nonneg d : 0 <= effort_left d.
Proof.
  unfold effort_left. induction (workers d) as [|w ws IH]; [simpl; lia|].
  change (sum_of (fun w => Z.of_nat (effort w + length (claimed w))) (w :: ws))
    with (Z.of_nat (effort w + length (claimed w)) + sum_of (fun w => Z.of_nat (effort w + length (claimed w))) ws). lia.
Qed.

Lemma dispatch_finished d : threads <> O -> dispatch_inv d -> all_done d -> executed d ≡ₚ seqZ 0 count_items.
Proof.
  intros Ht [Hperm _ _ Hdone Hlen] Hall. unfold all_done in Hall.
  assert (Hj : mjoin (claimed <$> workers d) = []).
  { clear -Hall. induction (workers d) as [|w ws IH]; [done|]. apply Forall_cons in Hall as [-> Hall]. by apply IH. }
  rewrite Hj in Hperm. simpl in Hperm. unfold unclaimed in Hperm. rewrite seqZ_nil, app_nil_r in Hperm; [done|].
  assert (Hin : Done ∈ workers d).
  { destruct (workers d) as [|w ws]; [by simpl in Hlen; lia|]. apply Forall_cons in Hall as [-> _]. set_solver. }
  specialize (Hdone Hin). lia.
Qed.

Lemma dispatch_progress d : all_done d \/ exists d', dispatch_step count_items batch_size d d'.
Proof.
  destruct (decide (Forall (fun w => w = Done) (workers d))) as [|Hn]; [by left|right].
  apply not_Forall_Exists in Hn; [|solve_decision]. apply Exists_exists in Hn as (w & Hin & Hw).
  apply list_elem_of_lookup in Hin as [t Ht]. unfold dispatch_step, worker_step.
  destruct w as [|p i|]; [eexists; exists t; by rewrite Ht| |by destruct Hw].
  destruct (i <? todo p) eqn:E; eexists; exists t; by rewrite Ht, E.
Qed.

End DispatchFacts.

(** C38: the work is distributed exactly once.  However the workers of
    [execute_iteration] interleave, no item of the workload is executed twice, no item
    beyond its end is touched, and when all workers are done every item has been
    executed. *)
Theorem dispatch_exactly_once count_items batch_size threads d :
  0 <= count_items -> 0 < batch_size <= 65535 -> threads <> O ->
  count_items + batch_size * (Z.of_nat threads + 2) <= max_u64 ->
  rtc (dispatch_step count_items batch_size) (dispatch_start threads) d ->
  NoDup (executed d) /\ Forall (fun i => 0 <= i < count_items) (executed d)
  /\ (all_done d -> executed d ≡ₚ seqZ 0 count_items).
Proof.
  intros Hc Hb Ht Hw [n Hn]%rtc_nsteps. destruct (dispatch_start_inv count_items batch_size threads Hc Hb) as [Hi0 _].
  destruct (dispatch_steps count_items batch_size threads Hc Hb Hw n _ _ Hi0 Hn) as [Hi _].
  pose proof (di_perm _ _ _ _ Hi) as Hp.
  assert (Hnd : NoDup (executed d ++ mjoin (claimed count_items batch_size <$> workers d)
                        ++ unclaimed count_items (workload_pointer d))) by (rewrite Hp; apply NoDup_seqZ).
  split; [by apply NoDup_app in Hnd as [? _]|]. split.
  - apply Forall_forall. intros i Hin. apply (elem_of_seqZ 0 count_items). rewrite <- Hp. set_solver.
  - intros Hd. by apply (dispatch_finished count_items batch_size threads).
Qed.

(** C39: with a batch size that is not zero, [execute_iteration] terminates under every
    schedule of its workers: no sequence of steps is longer than three per item plus one per
    worker, and until all workers are done one of them can move.  The shared counter must not
    wrap: the items and two batches, and one more for every worker, are fewer than [2^64].
    [zero_batch_loops] shows that a batch size of zero has to be excluded. *)
Theorem dispatch_terminates count_items batch_size threads n d :
  0 <= count_items -> 0 < batch_size <= 65535 ->
  count_items + batch_size * (Z.of_nat threads + 2) <= max_u64 ->
  nsteps (dispatch_step count_items batch_size) n (dispatch_start threads) d ->
  Z.of_nat n <= 3 * count_items + Z.of_nat threads
  /\ (all_done d \/ exists d', dispatch_step count_items batch_size d d').
Proof.
  intros Hc Hb Hw Hn. destruct (dispatch_start_inv count_items batch_size threads Hc Hb) as [Hi0 He0].
  destruct (dispatch_steps count_items batch_size threads Hc Hb Hw n _ _ Hi0 Hn) as [Hi He].
  assert (0 <= effort_left count_items batch_size d) by (by eapply effort_nonneg). split; [lia|by eapply dispatch_progress].
Qed.

(** A batch size of zero is accepted by the command line: the workers then fetch the same
    empty batch again and again. *)
Lemma zero_batch_loops count_items : 0 < count_items -> forall n,
  nsteps (dispatch_step count_items 0) (n + n) (dispatch_start 1) (dispatch_start 1).
Proof.
  intros Hc n. induction n as [|n IH]; [apply nsteps_O|]. replace (S n + S n)%nat with (S (S (n + n))) by lia.
  eapply nsteps_l; [|eapply nsteps_l; [|exact IH]].
  - exists O. unfold worker_step. simpl. by rewrite (proj2 (Z.ltb_lt _ _) Hc).
  - exists O. unfold worker_step. simpl. unfold items_to_execute. rewrite Z.min_l by lia. done.
Qed.

(** One worker executes the items in their order. *)
Lemma single_worker_order count_items batch_size d :
  0 <= count_items -> 0 < batch_size <= 65535 -> count_items + batch_size * 3 <= max_u64 ->
  rtc (dispatch_step count_items batch_size) (dispatch_start 1) d -> all_done d -> executed d = seqZ 0 count_items.
Proof.
  intros Hc Hb Hw Hr Hd. assert (Hw' : count_items + batch_size * (Z.of_nat 1 + 2) <= max_u64) by (simpl; lia).
  assert (Hinv : dispatch_inv count_items batch_size 1 d
    /\ executed d ++ mjoin (claimed count_items batch_size <$> workers d) ++ unclaimed count_items (workload_pointer d)
       = seqZ 0 count_items).
  { clear Hd. revert d Hr. refine (rtc_ind_r _ _ _ _); [|intros d d' _ [t Hst] [Hi Heq]].
    - split; [by apply dispatch_start_inv|]. simpl. unfold unclaimed. by rewrite Z.sub_0_r.
    - pose proof (dispatch_inv_step _ _ _ Hc Hb Hw' _ _ _ Hi Hst) as [Hi' _]. split; [done|].
      destruct (step_move _ _ _ Hc Hb Hw' _ _ _ Hi Hst) as (l1 & w & l2 & w' & out & Hws & Hok & Hmv & Hws' & Hex).
      pose proof (di_threads _ _ _ _ Hi) as Hlen. rewrite Hws, length_app in Hlen. simpl in Hlen.
      destruct l1, l2; simpl in Hlen; try lia. rewrite Hws in Heq. rewrite Hws', Hex, <- Heq.
      destruct (move_items _ _ 1 Hb _ _ _ _ _ (proj1 (di_pointer _ _ _ _ Hi)) Hok Hmv) as (Hitems & _).
      cbn [fmap list_fmap mjoin list_join app]. rewrite !app_nil_r, <- app_assoc. by rewrite Hitems. }
  destruct Hinv as [Hi Heq]. assert (Hlen := di_threads _ _ _ _ Hi).
  destruct (workers d) as [|w [|]] eqn:E; simpl in Hlen; try lia. unfold all_done in Hd. rewrite E in Hd.
  apply Forall_cons in Hd as [-> _]. simpl in Heq. unfold unclaimed in Heq.
  rewrite seqZ_nil, app_nil_r in Heq; [done|]. pose proof (di_done _ _ _ _ Hi) as Hdn. rewrite E in Hdn.
  specialize (Hdn ltac:(set_solver)). lia.
Qed.

(** ** Concrete runs *)
Module DriverExamples.

Definition two_phases : Workload := mkWorkload Fill 1 0 1 0 [WorkloadTuple.mk WorkloadTuple.Insert 7 1] [WorkloadTuple.mk WorkloadTuple.Lookup 7 0].
Definition two_sets : CoreConfiguration := mkCoreConfiguration [[0]; [0; 2]] 0.

Lemma execute_correct_witness :
  exists b, execute 10 2 (mkBenchmark two_sets two_phases 0) = Ok (b, schedule two_phases 2 (core_sets two_sets))
    /\ configured (core_config b) = false.
Proof. apply (execute_correct 10 2 two_phases two_sets); try done; try lia. vm_compute. lia. Defined.

Example two_sets_schedule :
  schedule two_phases 1 (core_sets two_sets)
  = [NewTree; RunIteration Fill [0] 0; RunIteration Benchmark [0] 0; DeleteTree;
     NewTree; RunIteration Fill [0; 2] 0; RunIteration Benchmark [0; 2] 0; DeleteTree].
Proof. reflexivity. Qed.

(** Five items in batches of two, two workers, step by step. *)
Fixpoint run_workers (ts : list nat) (d : Dispatch) : option Dispatch :=
  match ts with [] => Some d | t :: ts => d ← worker_step 5 2 t d; run_workers ts d end.
Lemma run_workers_steps ts : forall d d', run_workers ts d = Some d' -> nsteps (dispatch_step 5 2) (length ts) d d'.
Proof.
  induction ts as [|t ts IH]; intros d d'; cbn [run_workers length].
  - intros [= ->]. apply nsteps_O.
  - destruct (worker_step 5 2 t d) as [d1|] eqn:E; [|done]. intros Hr. eapply nsteps_l; [by exists t|by apply IH].
Qed.
Definition turns : list nat := [0; 1; 0; 1; 1; 1; 0; 0; 1; 1; 0; 1; 1]%nat.
Definition five_done : Dispatch := mkDispatch 10 [Done; Done] [0; 2; 3; 1; 4].
Lemma five_done_steps : nsteps (dispatch_step 5 2) (length turns) (dispatch_start 2) five_done.
Proof. apply run_workers_steps. vm_compute. reflexivity. Qed.

Lemma dispatch_exactly_once_witness :
  NoDup (executed five_done) /\ Forall (fun i => 0 <= i < 5) (executed five_done)
  /\ (all_done five_done -> executed five_done ≡ₚ seqZ 0 5).
Proof.
  apply (dispatch_exactly_once 5 2 2 five_done); try lia; [unfold max_u64; lia|].
  eapply rtc_nsteps_2, five_done_steps.
Defined.

Lemma dispatch_terminates_witness :
  Z.of_nat (length turns) <= 3 * 5 + Z.of_nat 2 /\ (all_done five_done \/ exists d', dispatch_step 5 2 five_done d').
Proof. apply (dispatch_terminates 5 2 2 _ five_done); try lia; [unfold max_u64; lia|apply five_done_steps]. Defined.

End DriverExamples.
