(* ===== verification/Clients.v ===== *)
(** * What a benchmark relies on an index for

    The interface between the benchmark drivers and the indices: the class [Index] has
    the calls that a worker of [thread_benchmark.cpp] makes for the operations of its
    tuples, [IndexLaws] what it may expect.  The latched and the optimistic B-link tree
    and the OLC B+-tree discharge the laws here, Masstree in [MassClient]; the theorem on
    workloads uses nothing else. *)

From S2P Require Import Prelude Node Tree BlinkInv ThreadTree Capacity Locks LatchedTree OptimisticTree OlcBTree OlcFacts.
From S2P Require Import Workload CoreConfig Driver.

(** ** The interface *)
Class Index (St : Type) : Type := {
  idx_insert : Z -> Z -> ST St unit;
  idx_update : Z -> Z -> ST St unit;
  idx_find : Z -> ST St Z }.

(** The loop body of a worker: one tuple.  A lookup hands the value it found to
    [DoNotOptimize]; [perform] returns it. *)
Definition perform {St} `{!Index St} (t : WorkloadTuple.t) : ST St (option Z) :=
  match WorkloadTuple.operation t with
  | WorkloadTuple.Insert => idx_insert (WorkloadTuple.key t) (WorkloadTuple.value t);; mret None
  | WorkloadTuple.Update => idx_update (WorkloadTuple.key t) (WorkloadTuple.value t);; mret None
  | WorkloadTuple.Lookup => v ← idx_find (WorkloadTuple.key t); mret (Some v)
  end.
(** The items a worker executes, by their index, and what each of them gave. *)
Fixpoint perform_all {St} `{!Index St} (items : list WorkloadTuple.t) (idxs : list Z) : ST St (list (option Z)) :=
  match idxs with
  | [] => mret []
  | i :: idxs => t ← lift (array_get items i); a ← perform t; l ← perform_all items idxs; mret (a :: l)
  end.

(** What the calls promise about the map that an index stands for.  An index decides
    whether inserting a key twice keeps the first value or takes the second ([idx_put]),
    which values it can hold and how many entries it has room for. *)
Class IndexLaws (St : Type) `{!Index St} : Type := {
  idx_rep : St -> gmap Z Z -> Prop;
  idx_room : Z -> Prop;
  idx_value : Z -> Prop;
  idx_put : Z -> Z -> gmap Z Z -> gmap Z Z;
  put_dom k v m : dom (idx_put k v m) = {[k]} ∪ dom m;
  room_le a b : a <= b -> idx_room b -> idx_room a;
  insert_law s m k v : idx_rep s m -> idx_room (Z.of_nat (base.size m)) -> 0 <= k < max_u64 -> idx_value v ->
    exists s', idx_insert k v s = Ok (tt, s') /\ idx_rep s' (idx_put k v m);
  update_law s m k v : idx_rep s m -> idx_room (Z.of_nat (base.size m)) -> 0 <= k < max_u64 -> idx_value v ->
    is_Some (m !! k) -> exists s', idx_update k v s = Ok (tt, s') /\ idx_rep s' (<[k := v]> m);
  find_law s m k v : idx_rep s m -> idx_room (Z.of_nat (base.size m)) -> 0 <= k < max_u64 ->
    m !! k = Some v -> exists s', idx_find k s = Ok (v, s') /\ idx_rep s' m }.

(** ** Workloads *)
Section Workload.
Context {St : Type} `{IndexLaws St}.

(** What a tuple means for the map, and what it gives. *)
Definition effect (t : WorkloadTuple.t) (m : gmap Z Z) : gmap Z Z :=
  match WorkloadTuple.operation t with
  | WorkloadTuple.Insert => idx_put (WorkloadTuple.key t) (WorkloadTuple.value t) m
  | WorkloadTuple.Update => <[WorkloadTuple.key t := WorkloadTuple.value t]> m
  | WorkloadTuple.Lookup => m
  end.
Definition gives (t : WorkloadTuple.t) (m : gmap Z Z) : option Z :=
  match WorkloadTuple.operation t with WorkloadTuple.Lookup => m !! WorkloadTuple.key t | _ => None end.
(** The tuples one after the other on a map: the answers and the map at the end. *)
Fixpoint run_spec (ts : list WorkloadTuple.t) (m : gmap Z Z) : list (option Z) * gmap Z Z :=
  match ts with
  | [] => ([], m)
  | t :: ts => let (l, m') := run_spec ts (effect t m) in (gives t m :: l, m')
  end.
(** Lookups and updates only concern keys inserted before. *)
Fixpoint prepared (ts : list WorkloadTuple.t) (keys : gset Z) : bool :=
  match ts with
  | [] => true
  | t :: ts =>
      match WorkloadTuple.operation t with
      | WorkloadTuple.Insert => prepared ts ({[WorkloadTuple.key t]} ∪ keys)
      | _ => bool_decide (WorkloadTuple.key t ∈ keys) && prepared ts keys
      end
  end.
(** Keys below the maximum, and values that the index can hold. *)
Definition tuple_ok (t : WorkloadTuple.t) : Prop := 0 <= WorkloadTuple.key t < max_u64 /\ idx_value (WorkloadTuple.value t).

Lemma effect_dom t m :
  dom (effect t m) = match WorkloadTuple.operation t with WorkloadTuple.Lookup => dom m | _ => {[WorkloadTuple.key t]} ∪ dom m end.
Proof. unfold effect. destruct (WorkloadTuple.operation t); [apply put_dom|done|apply dom_insert_L]. Qed.
Lemma effect_size t m : (base.size (effect t m) <= base.size m + 1)%nat.
Proof.
  rewrite <- !(size_dom (D := gset Z)), effect_dom. destruct (WorkloadTuple.operation t); [|lia|];
    rewrite size_union_alt, size_singleton; pose proof (subseteq_size (dom m ∖ {[WorkloadTuple.key t]}) (dom m) ltac:(set_solver)); lia.
Qed.
(** What [prepared] says of the first tuple, and of those behind it. *)
Lemma prepared_cons t ts m :
  prepared (t :: ts) (dom m) = true ->
  (WorkloadTuple.operation t <> WorkloadTuple.Insert -> WorkloadTuple.key t ∈ dom m) /\ prepared ts (dom (effect t m)) = true.
Proof.
  rewrite effect_dom. simpl. destruct (WorkloadTuple.operation t); [done| |]; intros [Hb Hp]%andb_true_iff; apply bool_decide_eq_true in Hb; [done|].
  by replace ({[WorkloadTuple.key t]} ∪ dom m) with (dom m) by set_solver.
Qed.

Lemma perform_ok t s m :
  idx_rep s m -> idx_room (Z.of_nat (base.size m)) -> tuple_ok t ->
  (WorkloadTuple.operation t <> WorkloadTuple.Insert -> WorkloadTuple.key t ∈ dom m) ->
  exists s', perform t s = Ok (gives t m, s') /\ idx_rep s' (effect t m).
Proof.
  intros Hs Hroom [Hk Hval] Hin. unfold perform, effect, gives. destruct (WorkloadTuple.operation t).
  - destruct (insert_law s m _ _ Hs Hroom Hk Hval) as (s' & Hrun & ?). exists s'. by rewrite (ST_bind_ok Hrun).
  - specialize (Hin ltac:(done)). apply elem_of_dom in Hin as [v Hv].
    destruct (find_law s m _ v Hs Hroom Hk Hv) as (s' & Hrun & ?). exists s'. by rewrite (ST_bind_ok Hrun), Hv.
  - specialize (Hin ltac:(done)). apply elem_of_dom in Hin.
    destruct (update_law s m _ _ Hs Hroom Hk Hval Hin) as (s' & Hrun & ?). exists s'. by rewrite (ST_bind_ok Hrun).
Qed.

Lemma perform_all_ok items post : forall pre s m,
  items = pre ++ post -> idx_rep s m -> idx_room (Z.of_nat (base.size m + length post)) ->
  Forall tuple_ok post -> prepared post (dom m) = true ->
  exists s', perform_all items (seqZ (Z.of_nat (length pre)) (Z.of_nat (length post))) s = Ok ((run_spec post m).1, s')
    /\ idx_rep s' (run_spec post m).2.
Proof.
  induction post as [|t post IH]; intros pre s m Hitems Hs Hroom Hk Hp; [by exists s|].
  apply Forall_cons in Hk as [Hkt Hk]. cbn [length] in *. rewrite (seqZ_head (Z.of_nat (length pre))) by lia.
  cbn [perform_all run_spec]. apply prepared_cons in Hp as [Hin Hp].
  assert (Hget : array_get items (Z.of_nat (length pre)) = Ok t).
  { apply array_get_lookup. rewrite Hitems. by rewrite list_lookup_middle. }
  rewrite (ST_bind_ok (lift_ok (s := s) Hget)).
  destruct (perform_ok t s m Hs) as (s1 & Hrun & Hs1); [|done|done|].
  { eapply room_le; [|exact Hroom]. lia. }
  rewrite (ST_bind_ok Hrun). pose proof (effect_size t m).
  destruct (IH (pre ++ [t]) s1 (effect t m)) as (s' & Hrun' & Hs'); [by rewrite <- app_assoc|done| |done|done|].
  { eapply room_le; [|exact Hroom]. lia. }
  destruct (run_spec post (effect t m)) as [l m']. exists s'. split; [|exact Hs'].
  replace (seqZ (Z.succ (Z.of_nat (length pre))) _) with (seqZ (Z.of_nat (length (pre ++ [t]))) (Z.of_nat (length post)))
    by (f_equal; [rewrite length_app; simpl; lia|lia]).
  by rewrite (ST_bind_ok Hrun').
Qed.

(** C37: a benchmark phase run by one worker does what its tuples say.  For every index
    that keeps the laws, every workload whose lookups and updates concern keys that are
    there ([prepared]), whose keys are below the maximum and for which the index has room,
    and every batch size that is not zero, the items the worker executes, in the order in
    which it executes them, run without a fault; every lookup gives the value that the
    tuples before it left for its key, and the map at the end is the one that the effects
    of the tuples make in order. *)
Theorem single_worker_correct items batch_size d s m :
  0 < batch_size <= 65535 -> Z.of_nat (length items) + batch_size * 3 <= max_u64 ->
  rtc (dispatch_step (Z.of_nat (length items)) batch_size) (dispatch_start 1) d -> all_done d ->
  idx_rep s m -> idx_room (Z.of_nat (base.size m + length items)) ->
  Forall tuple_ok items -> prepared items (dom m) = true ->
  exists s', perform_all items (executed d) s = Ok ((run_spec items m).1, s') /\ idx_rep s' (run_spec items m).2.
Proof.
  intros Hb Hw Hr Hd Hs Hroom Hk Hp. rewrite (single_worker_order (Z.of_nat (length items)) batch_size d) by (done || lia).
  by apply (perform_all_ok items items []).
Qed.

End Workload.

(** ** The indices keep the laws *)
Lemma insert_new_dom k v (m : gmap Z Z) : dom (insert_new k v m) = {[k]} ∪ dom m.
Proof.
  unfold insert_new. destruct (m !! k) eqn:E; [|apply dom_insert_L]. apply elem_of_dom_2 in E. set_solver.
Qed.
Lemma update_present_insert k v (m : gmap Z Z) : is_Some (m !! k) -> update_present k v m = <[k := v]> m.
Proof. intros [w Hw]. unfold update_present. by rewrite Hw. Qed.

Section Latched.
Context {PF : Platform} {NL : NodeLatch} {PFok : PlatformOk} {NLok : NodeLatchLaws NL}.

#[export] Instance latched_index : Index LatchedState := {
  idx_insert k v := fun s => LatchedTree.insert (enough_fuel s) k v s;
  idx_update k v := fun s => tree_update (enough_fuel s) k v s;
  idx_find k := fun s => LatchedTree.find (enough_fuel s) k s }.
#[export] Program Instance latched_laws : IndexLaws LatchedState := {
  idx_rep s m := well_formed s /\ map_of s = m; idx_room n := n < entry_capacity; idx_value v := True; idx_put := insert_new }.
Next Obligation. apply insert_new_dom. Qed.
Next Obligation. simpl. lia. Qed.
Next Obligation.
  intros s m k v [Hw <-] Hc Hk _. destruct (insert_refines s k v (enough_fuel s) Hw Hc Hk (le_n _)) as (s' & ? & ? & ?).
  by exists s'.
Qed.
Next Obligation.
  intros s m k v [Hw <-] Hc Hk _ Hin. destruct (update_refines s k v (enough_fuel s) Hw Hc Hk) as (s' & ? & ? & Hm); [lia|by left|].
  exists s'. by rewrite <- update_present_insert.
Qed.
Next Obligation.
  intros s m k v [Hw <-] Hc Hk Hv. destruct (find_refines s k (enough_fuel s) Hw Hc Hk) as (s' & Hrun & ? & Hm); [lia|left; eauto|].
  exists s'. split; [|done]. simpl. by rewrite Hrun, Hv.
Qed.
End Latched.

Section Optimistic.
Context {PF : Platform} {PFok : PlatformOk}.

#[export] Instance optimistic_index : Index VersionedState := {
  idx_insert k v := fun s => vinsert (venough_fuel s) k v s;
  idx_update k v := fun s => vupdate (venough_fuel s) k v s;
  idx_find k := fun s => vfind (venough_fuel s) k s }.
#[export] Program Instance optimistic_laws : IndexLaws VersionedState := {
  idx_rep s m := vwell_formed s /\ vmap_of s = m; idx_room n := n < entry_capacity; idx_value v := True; idx_put := insert_new }.
Next Obligation. apply insert_new_dom. Qed.
Next Obligation. simpl. lia. Qed.
Next Obligation.
  intros s m k v [Hw <-] Hc Hk _. destruct (vinsert_refines s k v (venough_fuel s) Hw Hc Hk (le_n _)) as (s' & ? & ? & ?).
  by exists s'.
Qed.
Next Obligation.
  intros s m k v [Hw <-] Hc Hk _ Hin. destruct (vupdate_refines s k v (venough_fuel s) Hw Hc Hk) as (s' & ? & ? & Hm); [lia|by left|].
  exists s'. by rewrite <- update_present_insert.
Qed.
Next Obligation.
  intros s m k v [Hw <-] Hc Hk Hv. pose proof (vfind_refines s k (venough_fuel s) Hw Hc Hk ltac:(lia) ltac:(left; eauto)) as Hrun.
  exists s. split; [|done]. simpl. by rewrite Hrun, Hv.
Qed.
End Optimistic.

(** The OLC benchmark inserts for updates too, and hands [lookup] an uninitialised
    variable for the value. *)
Section Olc.
Context {PF : OlcPlatform} {PFok : OlcPlatformOk} (uninit_result : Z).

Definition olc_put (k v : Z) : ST OlcState unit := fun s =>
  BTree_insert (64 * base.size (o_heap s) + 1) (65 * base.size (o_heap s) + 1) k v s.
#[export] Instance olc_index : Index OlcState := {
  idx_insert := olc_put;
  idx_update := olc_put;
  idx_find k := fun s => ('(_, value) ← BTree_lookup 1 (base.size (o_heap s)) k uninit_result; mret value) s }.
Lemma olc_put_ok s k v : owell_formed s -> 0 <= k < max_u64 ->
  exists s', olc_put k v s = Ok (tt, s') /\ owell_formed s' /\ omap s' = <[k := v]> (omap s).
Proof. intros Hw Hk. apply BTree_insert_refines; [done|lia|lia|lia]. Qed.
#[export] Program Instance olc_laws : IndexLaws OlcState := {
  idx_rep s m := owell_formed s /\ omap s = m; idx_room n := True; idx_value v := True; idx_put k v m := <[k := v]> m }.
Next Obligation. intros. apply dom_insert_L. Qed.
Next Obligation. done. Qed.
Next Obligation. intros s m k v [Hw <-] _ Hk _. destruct (olc_put_ok s k v Hw Hk) as (s' & ? & ? & ?). by exists s'. Qed.
Next Obligation. intros s m k v [Hw <-] _ Hk _ _. destruct (olc_put_ok s k v Hw Hk) as (s' & ? & ? & ?). by exists s'. Qed.
Next Obligation.
  intros s m k v [Hw <-] _ Hk Hv. exists s. split; [|done]. simpl in *.
  rewrite (ST_bind_ok (BTree_lookup_refines s k uninit_result 1 (base.size (o_heap s)) Hw ltac:(lia) ltac:(lia) ltac:(lia))).
  by rewrite Hv.
Qed.
End Olc.

(** ** A run on all three indices *)
Module ClientExamples.
#[local] Existing Instance small_platform.
#[local] Existing Instance small_platform_ok.

Definition five_tuples : list WorkloadTuple.t :=
  [WorkloadTuple.mk WorkloadTuple.Insert 7 1; WorkloadTuple.mk WorkloadTuple.Insert 8 2;
   WorkloadTuple.mk WorkloadTuple.Lookup 7 0; WorkloadTuple.mk WorkloadTuple.Update 8 3;
   WorkloadTuple.mk WorkloadTuple.Insert 7 9].
Definition one_done : Dispatch := mkDispatch 8 [Done] [0; 1; 2; 3; 4].
Lemma one_done_steps : rtc (dispatch_step 5 2) (dispatch_start 1) one_done.
Proof. eapply rtc_nsteps_2, (DriverExamples.run_workers_steps (replicate 12 O)). vm_compute. reflexivity. Qed.

Lemma five_ok : Forall (tuple_ok (St := LatchedState (NL := rw_latch))) five_tuples.
Proof. repeat constructor; unfold max_u64; simpl; lia. Qed.

Lemma single_worker_correct_witness :
  exists s', perform_all five_tuples (executed one_done) (new_latched (NL := rw_latch)) = Ok ([None; None; Some 1; None; None], s')
    /\ idx_rep s' {[7 := 1; 8 := 3]}.
Proof.
  destruct (single_worker_correct (St := LatchedState (NL := rw_latch)) five_tuples 2 one_done new_latched ∅) as (s' & Hrun & Hs').
  - lia.
  - unfold max_u64. simpl. lia.
  - apply one_done_steps.
  - repeat constructor.
  - split; [apply new_latched_well_formed|apply new_latched_map].
  - vm_compute. reflexivity.
  - apply five_ok.
  - vm_compute. reflexivity.
  - exists s'. split; [exact Hrun|].
    replace {[7 := 1; 8 := 3]} with (run_spec (St := LatchedState (NL := rw_latch)) five_tuples ∅).2 by (vm_compute; reflexivity).
    exact Hs'.
Defined.

End ClientExamples.
