(* ===== verification/TbbTree.v ===== *)
(** * The task-based tree

    Models the tasks of [src/src/indices/blinktree/tbb]: [NodeTask::execute] of
    [node_task.h] runs a task on one node after the other until there is no next node,
    [TreeTask] of [tree_task.h] starts at the root, and [insert_task.cpp],
    [lookup_task.cpp] and [update_task.cpp] say what a task does with a node.  In the
    builds with latches a task holds the latch of its node while it executes, so that
    its call is one step here; the mutexes themselves are part of TBB.  The olfit build
    validates versions instead, as the optimistic thread tree does. *)

From S2P Require Import Prelude Node Tree TreeFacts BlinkInv ThreadTree Capacity Locks OptimisticTree.

Section TbbTree.
Context {PF : Platform}.

(** ** [NodeTask] *)

(** [execute()] until [execute(node)] returns no node. *)
Fixpoint run_task {St T} (execute : T -> ptr -> ST St (ptr * T)) (fuel : nat) (task : T) (node : ptr) : ST St T :=
  match fuel with
  | O => lift (Fault OutOfFuel)
  | S fuel =>
      '(next, task) ← execute task node;
      match next with
      | Some _ => run_task execute fuel task next
      | None => mret task
      end
  end.

(** ** [InsertTask] *)
Record InsertTask : Type := mkInsertTask {
  it_key : Z;
  it_value : Z;
  separator_key : Z;
  task_separator : ptr }.
Definition new_insert_task (key v : Z) : InsertTask := mkInsertTask key v 0 None.
Definition is_for_leaf (t : InsertTask) : bool := bool_decide (task_separator t = None).

(** The end of both insertions: a split goes to the parent, or makes a new root. *)
Definition after_split (task : InsertTask) (node : ptr) (sep : ptr) (sep_key : Z) : TM (ptr * InsertTask) :=
  let task := mkInsertTask (it_key task) (it_value task) sep_key sep in
  n ← deref node;
  match parent n with
  | None => create_new_root node sep sep_key;; mret (None, task)
  | Some _ => mret (parent n, task)
  end.
Definition insert_into_leaf_node (task : InsertTask) (node : ptr) (key v : Z) : TM (ptr * InsertTask) :=
  n ← deref node;
  i ← lift (index n key);
  found ← (if i <? size n then k ← lift (leaf_key n i); mret (k =? key) else mret false);
  if found : bool then mret (None, task)
  else if negb (is_full n) then
    update node (fun n => insert_value n i v key);;
    mret (None, task)
  else
    right_leaf ← split_leaf_node node key v;
    m ← deref right_leaf;
    k ← lift (leaf_key m 0);
    after_split task node right_leaf k.
Definition insert_into_inner_node (task : InsertTask) (node : ptr) (key : Z) (sep : ptr) : TM (ptr * InsertTask) :=
  n ← deref node;
  if negb (is_full n) then
    i ← lift (index n key);
    update node (fun n => insert_separator n i sep key);;
    assign sep (set_parent node);;
    mret (None, task)
  else
    '(next_separator, next_key) ← split_inner_node node key sep;
    after_split task node next_separator next_key.

(** [InsertTask::execute(node)] with latches. *)
Definition insert_task_execute (task : InsertTask) (node : ptr) : TM (ptr * InsertTask) :=
  n ← deref node;
  if high_key n <=? it_key task then mret (right_sibling n, task)
  else if is_for_leaf task then
    if is_inner n then c ← lift (child n (it_key task)); mret (c, task)
    else insert_into_leaf_node task node (it_key task) (it_value task)
  else insert_into_inner_node task node (separator_key task) (task_separator task).
Definition tbb_insert (fuel : nat) (key v : Z) : TM unit :=
  r ← root; run_task insert_task_execute fuel (new_insert_task key v) r;; mret tt.

(** ** [LookupTask] and [UpdateTask] *)

(** The key and the member [_value]. *)
Record KeyTask : Type := mkKeyTask { kt_key : Z; kt_value : Z }.

Definition lookup_task_execute (task : KeyTask) (node : ptr) : TM (ptr * KeyTask) :=
  n ← deref node;
  if high_key n <=? kt_key task then mret (right_sibling n, task)
  else if negb (is_leaf n) then c ← lift (child n (kt_key task)); mret (c, task)
  else
    i ← lift (index n (kt_key task));
    found_key ← lift (leaf_key n i);
    if found_key =? kt_key task then v ← lift (value n i); mret (None, mkKeyTask (kt_key task) v)
    else mret (None, task).
Definition tbb_lookup (fuel : nat) (key initial : Z) : TM Z :=
  r ← root; t ← run_task lookup_task_execute fuel (mkKeyTask key initial) r; mret (kt_value t).

Definition update_task_execute (task : KeyTask) (node : ptr) : TM (ptr * KeyTask) :=
  n ← deref node;
  if high_key n <=? kt_key task then mret (right_sibling n, task)
  else if negb (is_leaf n) then c ← lift (child n (kt_key task)); mret (c, task)
  else
    i ← lift (index n (kt_key task));
    found_key ← lift (leaf_key n i);
    (if found_key =? kt_key task then update node (fun n => set_value n i (kt_value task)) else mret tt);;
    mret (None, task).
Definition tbb_update (fuel : nat) (key v : Z) : TM unit :=
  r ← root; run_task update_task_execute fuel (mkKeyTask key v) r;; mret tt.

(** ** The olfit build *)
Fixpoint olfit_insert_read (fuel : nat) (task : InsertTask) (node : ptr) : ST VersionedState (option ptr) :=
  match fuel with
  | O => lift (Fault OutOfFuel)
  | S fuel =>
      version ← node_version node;
      n ← on_vtree (deref node);
      if high_key n <=? it_key task then
        let right := right_sibling n in
        valid ← node_is_valid node version;
        if valid : bool then mret (Some right) else olfit_insert_read fuel task node
      else if is_for_leaf task && is_inner n then
        c ← lift (child n (it_key task));
        valid ← node_is_valid node version;
        if valid : bool then mret (Some c) else olfit_insert_read fuel task node
      else
        valid ← node_is_valid node version;
        if valid : bool then mret None else olfit_insert_read fuel task node
  end.
Definition olfit_insert_execute (fuel : nat) (task : InsertTask) (node : ptr) : ST VersionedState (ptr * InsertTask) :=
  next ← olfit_insert_read fuel task node;
  match next with
  | Some next => mret (next, task)
  | None =>
      node_acquire node;;
      n ← on_vtree (deref node);
      r ← on_vtree (if is_leaf n then insert_into_leaf_node task node (it_key task) (it_value task)
                    else insert_into_inner_node task node (separator_key task) (task_separator task));
      node_release node;;
      mret r
  end.

(** [LookupTask::execute]: when a child or sibling does not validate, the code goes on
    to probe the node as if it were a leaf. *)
Fixpoint olfit_lookup_execute (fuel : nat) (task : KeyTask) (node : ptr) : ST VersionedState (ptr * KeyTask) :=
  match fuel with
  | O => lift (Fault OutOfFuel)
  | S fuel =>
      version ← node_version node;
      n ← on_vtree (deref node);
      moved ← (if high_key n <=? kt_key task then
                 let right := right_sibling n in
                 valid ← node_is_valid node version;
                 mret (if valid : bool then Some right else None)
               else if is_inner n then
                 c ← lift (child n (kt_key task));
                 valid ← node_is_valid node version;
                 mret (if valid : bool then Some c else None)
               else mret None);
      match moved with
      | Some next => mret (next, task)
      | None =>
          i ← lift (index n (kt_key task));
          found_key ← lift (leaf_key n i);
          task ← (if found_key =? kt_key task then v ← lift (value n i); mret (mkKeyTask (kt_key task) v) else mret task);
          valid ← node_is_valid node version;
          if valid : bool then mret (None, task) else olfit_lookup_execute fuel task node
      end
  end.
Fixpoint olfit_update_read (fuel : nat) (task : KeyTask) (node : ptr) : ST VersionedState (option ptr) :=
  match fuel with
  | O => lift (Fault OutOfFuel)
  | S fuel =>
      version ← node_version node;
      n ← on_vtree (deref node);
      if high_key n <=? kt_key task then
        let right := right_sibling n in
        valid ← node_is_valid node version;
        if valid : bool then mret (Some right) else olfit_update_read fuel task node
      else if is_inner n then
        c ← lift (child n (kt_key task));
        valid ← node_is_valid node version;
        if valid : bool then mret (Some c) else olfit_update_read fuel task node
      else
        valid ← node_is_valid node version;
        if valid : bool then mret None else olfit_update_read fuel task node
  end.
Definition olfit_update_execute (fuel : nat) (task : KeyTask) (node : ptr) : ST VersionedState (ptr * KeyTask) :=
  next ← olfit_update_read fuel task node;
  match next with
  | Some next => mret (next, task)
  | None =>
      node_acquire node;;
      n ← on_vtree (deref node);
      i ← lift (index n (kt_key task));
      found_key ← lift (leaf_key n i);
      (if found_key =? kt_key task then on_vtree (update node (fun n => set_value n i (kt_value task))) else mret tt);;
      node_release node;;
      mret (None, task)
  end.

End TbbTree.

Section TbbFacts.
Context {PF : Platform} {PFok : PlatformOk}.

(** ** Walking to the node that covers the key *)

(** What all three tasks do with a node that does not cover the key, and with inner
    nodes on the way down. *)
Record follows {T} (execute : T -> ptr -> TM (ptr * T)) (task : T) (key : Z) (s : TreeState) : Prop := {
  fo_right l n : heap s !! l = Some n -> high_key n <= key -> execute task (Some l) s = Ok ((right_sibling n, task), s);
  fo_down l n c : heap s !! l = Some n -> key < high_key n -> is_inner n = true -> child n key = Ok c ->
    execute task (Some l) s = Ok ((c, task), s) }.

Lemma run_task_step {St T} (execute : T -> ptr -> ST St (ptr * T)) f task task' l l' s s' :
  execute task l s = Ok ((Some l', task'), s') -> run_task execute (S f) task l s = run_task execute f task' (Some l') s'.
Proof. intros H. cbn [run_task]. by rewrite (ST_bind_ok H). Qed.
Lemma run_task_last {St T} (execute : T -> ptr -> ST St (ptr * T)) f task task' l s s' :
  execute task l s = Ok ((None, task'), s') -> run_task execute (S f) task l s = Ok (task', s').
Proof. intros H. cbn [run_task]. by rewrite (ST_bind_ok H). Qed.

Section Walk.
Context {T : Type} (execute : T -> ptr -> TM (ptr * T)) (task : T) (key : Z) (G : layout) (s : TreeState).
Context (Hh : heap_inv G (heap s)) (Hkey : key < max_u64).

Lemma walk_right (sz : nat) : forall l lo lv,
  (forall l n, heap s !! l = Some n -> high_key n <= key -> execute task (Some l) s = Ok ((right_sibling n, task), s)) ->
  G !! l = Some (lo, lv) -> lo <= key -> (base.size (ahead G lo lv) <= sz)%nat ->
  exists k l' n lo', (k + base.size (ahead G lo' lv) <= base.size (ahead G lo lv))%nat
    /\ (forall f, run_task execute (k + f) task (Some l) s = run_task execute f task (Some l') s)
    /\ heap s !! l' = Some n /\ G !! l' = Some (lo', lv) /\ lo <= lo' <= key /\ key < high_key n.
Proof.
  induction sz as [|sz IH]; intros l lo lv Hr Gl Hlo Hsz;
    destruct (hi_lookup _ _ _ _ _ Hh Gl) as (n & Hn & _);
    (destruct (Z.le_gt_cases (high_key n) key) as [Hle|Hgt];
     [|exists O, l, n, lo; split_and!; (done || lia)]);
    destruct (sibling_step _ _ _ _ _ _ key Hh Hn Gl Hle Hkey) as (r & Hrs & Gr & Hlt);
    pose proof (ahead_step G r lo lv (high_key n) lv Gr ltac:(auto)) as Hstep; [lia|].
  destruct (IH r (high_key n) lv Hr Gr Hle ltac:(lia)) as (k & l' & n' & lo' & Hk & Hrun & ? & ? & ? & ?).
  exists (S k), l', n', lo'. split; [lia|]. split; [|split_and!; (done || lia)].
  intros f. rewrite <- Hrun. cbn [Nat.add]. apply run_task_step. rewrite <- Hrs. by apply Hr.
Qed.

Lemma walk_down (lv : nat) : forall l lo,
  follows execute task key s -> G !! l = Some (lo, lv) -> lo <= key ->
  exists k l' n lo', (k <= base.size (ahead G lo lv))%nat
    /\ (forall f, run_task execute (k + f) task (Some l) s = run_task execute f task (Some l') s)
    /\ heap s !! l' = Some n /\ G !! l' = Some (lo', 0%nat) /\ lo' <= key < high_key n.
Proof.
  induction lv as [|lv IH]; intros l lo Hfo Gl Hlo;
    destruct (walk_right _ l lo _ (fo_right _ _ _ _ Hfo) Gl Hlo (le_n _))
      as (k & l1 & n1 & lo1 & Hk & Hrun & Hn1 & G1 & Hlo1 & Hhk).
  { exists k, l1, n1, lo1. split_and!; (done || lia). }
  destruct (child_step _ _ _ _ _ _ key Hh Hn1 G1 ltac:(lia)) as (c & b & Hc & Gc & Hb).
  assert (Hin : is_inner n1 = true) by (unfold is_inner; by rewrite (level_is_leaf _ _ _ _ _ _ Hh Hn1 G1)).
  pose proof (fo_down _ _ _ _ Hfo l1 n1 _ Hn1 Hhk Hin Hc) as Hdown.
  destruct (IH c b Hfo Gc ltac:(lia)) as (k2 & l' & n' & lo' & Hk2 & Hrun2 & ? & ? & ?).
  pose proof (ahead_step G c lo1 (S lv) b lv Gc ltac:(lia)).
  exists (k + S k2)%nat, l', n', lo'. split; [lia|]. split; [|split_and!; (done || lia)].
  intros f. rewrite <- Nat.add_assoc, Hrun. cbn [Nat.add]. rewrite (run_task_step _ _ _ _ _ _ _ _ Hdown). apply Hrun2.
Qed.
End Walk.

Lemma insert_follows key v s : follows insert_task_execute (new_insert_task key v) key s.
Proof.
  split; intros l n; intros; unfold insert_task_execute; rewrite (ST_bind_ok (deref_ok _ _ _ H)); simpl.
  - by rewrite (proj2 (Z.leb_le _ _)).
  - rewrite (proj2 (Z.leb_gt _ _)) by done. rewrite H1. by erewrite ST_bind_ok by (apply lift_ok; eauto).
Qed.
Lemma lookup_follows t s : follows lookup_task_execute t (kt_key t) s.
Proof.
  split; intros l n; intros; unfold lookup_task_execute; rewrite (ST_bind_ok (deref_ok _ _ _ H)); simpl.
  - by rewrite (proj2 (Z.leb_le _ _)).
  - rewrite (proj2 (Z.leb_gt _ _)) by done. unfold is_inner in H1. rewrite H1. by erewrite ST_bind_ok by (apply lift_ok; eauto).
Qed.
Lemma update_follows t s : follows update_task_execute t (kt_key t) s.
Proof.
  split; intros l n; intros; unfold update_task_execute; rewrite (ST_bind_ok (deref_ok _ _ _ H)); simpl.
  - by rewrite (proj2 (Z.leb_le _ _)).
  - rewrite (proj2 (Z.leb_gt _ _)) by done. unfold is_inner in H1. rewrite H1. by erewrite ST_bind_ok by (apply lift_ok; eauto).
Qed.

(** ** Lookup and update *)
Definition tbb_well_formed (s : TreeState) : Prop := exists G, tree_inv G s /\ root_sole G s.
Definition tbb_map (s : TreeState) : gmap Z Z := contents (heap s).
Definition tbb_probe_safe (key : Z) (s : TreeState) : Prop :=
  map_Forall (fun _ n => probe_safe_leaf key n = true) (heap s).

(** A task from the root, at the leaf that covers its key. *)
Lemma task_at_leaf {T} (execute : T -> ptr -> TM (ptr * T)) task key s fuel :
  tbb_well_formed s -> 0 <= key < max_u64 -> follows execute task key s -> (base.size (heap s) < fuel)%nat ->
  exists G r f l n lo, tree_inv G s /\ root_sole G s /\ root s = Ok (Some r, s)
    /\ run_task execute fuel task (Some r) s = run_task execute (S f) task (Some l) s
    /\ heap s !! l = Some n /\ G !! l = Some (lo, 0%nat) /\ lo <= key < high_key n.
Proof.
  intros (G & Hi & Hsole) Hk Hfo Hf. pose proof (ti_root _ _ Hi) as (r & top & Hr & Gr & _ & _).
  pose proof (ti_heap _ _ Hi) as Hh.
  destruct (walk_down execute task key G s Hh ltac:(lia) top r 0 Hfo Gr ltac:(lia)) as (k & l & n & lo & Hk' & Hrun & ? & ? & ?).
  pose proof (ahead_bound G 0 top) as Hb. rewrite (layout_size _ _ Hh) in Hb.
  exists G, r, (fuel - k - 1)%nat, l, n, lo. split_and!; try done; try lia.
  - unfold root, gets. by rewrite Hr.
  - rewrite <- Hrun. f_equal. lia.
Qed.

Lemma tbb_lookup_refines s key initial fuel :
  tbb_well_formed s -> 0 <= key < max_u64 -> (base.size (heap s) < fuel)%nat ->
  is_Some (tbb_map s !! key) \/ tbb_probe_safe key s ->
  tbb_lookup fuel key initial s = Ok (default initial (tbb_map s !! key), s).
Proof.
  intros Hw Hk Hf Hsafe.
  destruct (task_at_leaf lookup_task_execute (mkKeyTask key initial) key s fuel Hw Hk (lookup_follows _ _) Hf)
    as (G & r & f & l & n & lo & Hi & _ & Hroot & Hrun & Hn & Gl & Hkn).
  destruct (covering_probe G s l n lo key Hi Hn Gl Hkn) as (ks & kt & vs & vt & i & _ & _ & _ & Hidx & Hcase).
  unfold tbb_lookup. rewrite (ST_bind_ok Hroot).
  assert (Hlast : lookup_task_execute (mkKeyTask key initial) (Some l) s
    = Ok ((None, mkKeyTask key (default initial (tbb_map s !! key))), s)).
  { unfold lookup_task_execute. rewrite (ST_bind_ok (deref_ok _ _ _ Hn)). simpl.
    rewrite (proj2 (Z.leb_gt _ _)), (level_is_leaf _ _ _ _ _ _ (ti_heap _ _ Hi) Hn Gl) by lia. simpl.
    rewrite (ST_bind_ok (lift_ok Hidx)). unfold tbb_map in *. destruct (contents (heap s) !! key) as [v|].
    - destruct Hcase as (Hlk & Hv & _). rewrite (ST_bind_ok (lift_ok Hlk)), Z.eqb_refl.
      by rewrite (ST_bind_ok (lift_ok Hv)).
    - destruct Hsafe as [[? ?]|Hsafe]; [done|]. destruct (Hcase (Hsafe l n Hn)) as (k & w & Hne & Hlk & _).
      rewrite (ST_bind_ok (lift_ok Hlk)). by rewrite (proj2 (Z.eqb_neq _ _)). }
  rewrite (run_task_last _ _ _ _ _ _ _ Hlast) in Hrun. by rewrite (ST_bind_ok Hrun).
Qed.

Lemma tbb_update_refines s key v fuel :
  tbb_well_formed s -> 0 <= key < max_u64 -> (base.size (heap s) < fuel)%nat ->
  is_Some (tbb_map s !! key) \/ tbb_probe_safe key s ->
  exists s', tbb_update fuel key v s = Ok (tt, s') /\ tbb_well_formed s' /\ tbb_map s' = update_present key v (tbb_map s).
Proof.
  intros Hw Hk Hf Hsafe.
  destruct (task_at_leaf update_task_execute (mkKeyTask key v) key s fuel Hw Hk (update_follows _ _) Hf)
    as (G & r & f & l & n & lo & Hi & Hsole & Hroot & Hrun & Hn & Gl & Hkn).
  destruct (covering_probe G s l n lo key Hi Hn Gl Hkn) as (ks & kt & vs & vt & i & Hsh & Hso & Hall & Hidx & Hcase).
  assert (Hlast : exists s', update_task_execute (mkKeyTask key v) (Some l) s = Ok ((None, mkKeyTask key v), s')
    /\ tbb_well_formed s' /\ tbb_map s' = update_present key v (tbb_map s)).
  { unfold update_task_execute. rewrite (ST_bind_ok (deref_ok _ _ _ Hn)). simpl.
    rewrite (proj2 (Z.leb_gt _ _)), (level_is_leaf _ _ _ _ _ _ (ti_heap _ _ Hi) Hn Gl) by lia. simpl.
    rewrite (ST_bind_ok (lift_ok Hidx)). unfold tbb_map, update_present in *.
    destruct (contents (heap s) !! key) as [w|].
    - destruct Hcase as (Hlk & _ & Hb). rewrite (ST_bind_ok (lift_ok Hlk)), Z.eqb_refl.
      destruct (overwrite_contents G s l n lo ks kt vs vt key v i) as (t' & Hup & Hi' & Hrt & _ & Hc); auto.
      exists t'. rewrite (ST_bind_ok Hup). split; [done|]. split; [|done].
      exists G. split; [done|]. unfold root_sole. by rewrite Hrt.
    - destruct Hsafe as [[? ?]|Hsafe]; [done|]. destruct (Hcase (Hsafe l n Hn)) as (k & w & Hne & Hlk & _).
      rewrite (ST_bind_ok (lift_ok Hlk)). rewrite (proj2 (Z.eqb_neq _ _)) by done. by exists s. }
  destruct Hlast as (s' & Hlast & Hw' & Hm). exists s'. split; [|done].
  unfold tbb_update. rewrite (ST_bind_ok Hroot). rewrite (run_task_last _ _ _ _ _ _ _ Hlast) in Hrun.
  by rewrite (ST_bind_ok Hrun).
Qed.

(** ** Insertion *)

(** The insertions of the task are those of the thread trees, followed by what the task
    does with a split. *)
Lemma leaf_node_step task l key v s up s' :
  insert_into_leaf (Some l) key v s = Ok (up, s') ->
  insert_into_leaf_node task (Some l) key v s
  = (match up.1 with None => mret (None, task) | Some _ => after_split task (Some l) up.1 up.2 end) s'.
Proof.
  unfold insert_into_leaf, insert_into_leaf_node. intros H.
  apply ST_bind_inv in H as (n & s1 & H1 & H). rewrite (ST_bind_ok H1).
  apply ST_bind_inv in H as (i & s2 & H2 & H). rewrite (ST_bind_ok H2).
  apply ST_bind_inv in H as (found & s3 & H3 & H). rewrite (ST_bind_ok H3).
  destruct found; [by injection H as <- <-|]. destruct (negb (is_full n)).
  - apply ST_bind_inv in H as (u & s4 & H4 & H). rewrite (ST_bind_ok H4). by injection H as <- <-.
  - apply ST_bind_inv in H as (r & s4 & H4 & H). rewrite (ST_bind_ok H4).
    apply ST_bind_inv in H as (m & s5 & H5 & H). rewrite (ST_bind_ok H5).
    apply ST_bind_inv in H as (k & s6 & H6 & H). rewrite (ST_bind_ok H6).
    injection H as <- <-. destruct r; [done|]. unfold deref in H5. done.
Qed.
Lemma inner_node_step task q nq b sep s up s' :
  heap s !! q = Some nq -> insert_into_inner (Some q) b sep s = Ok (up, s') ->
  insert_into_inner_node task (Some q) b sep s
  = (if is_full nq then after_split task (Some q) up.1 up.2
     else assign sep (set_parent (Some q));; mret (None, task)) s'.
Proof.
  unfold insert_into_inner, insert_into_inner_node. intros Hq H.
  rewrite (ST_bind_ok (deref_ok _ _ _ Hq)) in H. rewrite (ST_bind_ok (deref_ok _ _ _ Hq)).
  destruct (is_full nq); simpl in *.
  - rewrite (ST_bind_ok H). by destruct up.
  - apply ST_bind_inv in H as (i & s1 & H1 & H). rewrite (ST_bind_ok H1).
    apply ST_bind_inv in H as (u & s2 & H2 & H). rewrite (ST_bind_ok H2). by injection H as <- <-.
Qed.

(** No node of the level of [lo] starts between [lo] and [b] or, apart from the one at
    [b], between [lo] and [key]. *)
Definition clear_between (G : layout) (lo : Z) (lv : nat) (b key : Z) : Prop :=
  forall c b', G !! c = Some (b', lv) -> lo < b' -> b' <= key \/ b' < b -> b' = b.

Lemma clear_between_grown G s l n lo lv m b G' s' key :
  heap_inv G (heap s) -> heap s !! l = Some n -> G !! l = Some (lo, lv) -> lo <= key < high_key n ->
  grown G s lo lv (Some m, b) G' s' -> clear_between G' lo lv b key.
Proof.
  intros Hh Hl Gl Hk Hg c b' Gc Hlt Hor. destruct (gr_new _ _ _ _ _ _ _ Hg _ _ Gc) as [Gc'|(b0 & [= <- <-] & [= <-])]; [|done].
  pose proof (gr_beyond _ _ _ _ _ _ _ Hg m b c b' eq_refl Gc' Hlt).
  destruct Hor as [Hle|]; [|lia]. assert (b' = lo); [|lia]. eapply (hi_inside G (heap s) l n lo lv c b'); eauto. lia.
Qed.

(** Every node of an inner level is where one of the level below starts. *)
Lemma first_child G h q nq loq lv :
  heap_inv G h -> h !! q = Some nq -> G !! q = Some (loq, S lv) -> exists c, G !! c = Some (loq, lv).
Proof. intros Hh Hq Gq. eapply separators_start; eauto. set_solver. Qed.

(** The node above that covers [key] is also where the pending separator belongs. *)
Lemma covering_parent G h q nq loq lo lv b key :
  heap_inv G h -> h !! q = Some nq -> G !! q = Some (loq, S lv) -> loq <= key < high_key nq ->
  lo <= key -> lo < b < max_u64 -> unlinked G h b lv -> clear_between G lo lv b key ->
  loq <= b < high_key nq.
Proof.
  intros Hh Hq Gq Hk Hlo Hb Hu Hcl. split.
  - destruct (Z.le_gt_cases loq b) as [|Hgt]; [done|]. destruct (first_child _ _ _ _ _ _ Hh Hq Gq) as (c & Gc).
    pose proof (Hcl _ _ Gc ltac:(lia) ltac:(lia)). lia.
  - destruct (Z.lt_ge_cases b (high_key nq)) as [|Hge]; [done|].
    destruct (sibling_step _ _ _ _ _ _ b Hh Hq Gq ltac:(lia) ltac:(lia)) as (r & Hrs & Gr & _).
    destruct (hi_lookup _ _ _ _ _ Hh Gr) as (nr & Hr & _).
    destruct (decide (high_key nq = b)) as [Heq|Hne].
    + exfalso. apply (Hu r nr (high_key nq) Hr Gr). rewrite Heq. set_solver.
    + destruct (first_child _ _ _ _ _ _ Hh Hr Gr) as (c & Gc). pose proof (Hcl _ _ Gc ltac:(lia) ltac:(lia)). lia.
Qed.

(** [separator->parent(node)] keeps the tree in order. *)
Lemma set_separator_parent G s q loq lv m b :
  tree_inv G s -> G !! q = Some (loq, S lv) -> G !! m = Some (b, lv) -> loq <= b ->
  exists s', assign (Some m) (set_parent (Some q)) s = Ok (tt, s') /\ tree_inv G s' /\ root_node s' = root_node s
    /\ forall k v, entry (heap s') k v <-> entry (heap s) k v.
Proof.
  intros [Hfi Hpa Hh Hf Hr] Gq Gm Hle. destruct s as [h nx rt ht]. simpl in *.
  destruct (hi_lookup _ _ _ _ _ Hh Gm) as (nm & Hm & _).
  assert (Ha : alter (set_parent (Some q)) m h = adopt [Some m] (Some q) h) by (by rewrite adopt_cons, adopt_nil).
  eexists. split; [apply assign_alter; eauto|]. rewrite Ha. split; [split; simpl|split; [done|intros; apply entry_adopt]].
  - by apply fill_inv_adopt.
  - apply parent_inv_adopt; [|done]. intros c lo lv' Hc Gc. apply list_elem_of_singleton in Hc as [= ->].
    rewrite Gm in Gc. injection Gc as <- <-. exists q, loq. done.
  - by apply heap_inv_adopt.
  - intros l Hl. rewrite adopt_lookup, Hf by done. done.
  - done.
Qed.

(** A split on its way up, at a node [l] that starts at [lo]. *)
Record rising (G : layout) (s : TreeState) (r : loc) (top : nat) (key : Z) (l : loc) (lo : Z) (lv : nat) (m : loc) (b : Z) :
    Prop := {
  rs_inv : tree_inv G s;
  rs_root : root_node s = Some r;
  rs_top : G !! r = Some (0, top);
  rs_node : G !! l = Some (lo, lv);
  rs_new : G !! m = Some (b, lv);
  rs_range : 0 <= lo <= key;
  rs_key : lo < b;
  rs_unlinked : unlinked G (heap s) b lv;
  rs_clear : clear_between G lo lv b key;
  rs_known : top_known G r top lv (Some m, b) }.

(** The rest of a task after a split. *)
Definition rest_of_task (fuel : nat) (task : InsertTask) (node sep : ptr) (sep_key : Z) : TM InsertTask :=
  '(next, task) ← after_split task node sep sep_key;
  match next with Some _ => run_task insert_task_execute fuel task next | None => mret task end.
Lemma run_task_split f task node sep sep_key s s' :
  insert_task_execute task node s = after_split task node sep sep_key s' ->
  run_task insert_task_execute (S f) task node s = rest_of_task f task node sep sep_key s'.
Proof. intros H. unfold rest_of_task, mbind, ST_bind. cbn [run_task]. unfold mbind, ST_bind. by rewrite H. Qed.

Definition completes (task : InsertTask) (node sep : ptr) (sep_key : Z) (s : TreeState) : Prop :=
  exists k t s', (forall f, rest_of_task (k + f) task node sep sep_key s = Ok (t, s'))
    /\ tbb_well_formed s' /\ forall k v, entry (heap s') k v <-> entry (heap s) k v.

(** At the top a new root is made. *)
Lemma rising_at_top G s r top key l lo lv m b n task :
  rising G s r top key l lo lv m b -> heap s !! l = Some n -> parent n = None -> completes task (Some l) (Some m) b s.
Proof.
  intros [Hi Hr Gr Gl Gm Hlo Hb Hu Hcl Htk] Hl Hpar.
  assert (Hlv : lv = top).
  { pose proof (ti_parent _ _ Hi _ _ _ _ Hl Gl) as Hp. unfold parent_inv in Hp. rewrite Hpar in Hp.
    pose proof (Hp _ _ _ Gr). pose proof (ti_root _ _ Hi) as (r' & top' & Hr' & Gr' & _ & Htop).
    rewrite Hr in Hr'. injection Hr' as <-. rewrite Gr in Gr'. injection Gr' as <-. pose proof (Htop _ _ _ Gl). lia. }
  subst lv. assert (l = r) as ->.
  { destruct (Htk _ _ Gl) as [|[_ [= ->]]]; [done|]. rewrite Gl in Gm. injection Gm as ->. lia. }
  rewrite Gr in Gl. injection Gl as <-.
  destruct (create_new_root_inv G s r top m b Hi Hr Gr Gm Hb) as (G' & s' & Hrun & Hi' & (r' & Hr' & Gr' & Hone) & He).
  { intros c lo Gc. destruct (Htk _ _ Gc) as [|[_ [= ->]]]; auto. }
  exists O, (mkInsertTask (it_key task) (it_value task) b (Some m)), s'. split; [|split; [|exact He]].
  - intros f. unfold rest_of_task, after_split.
    erewrite (@ST_bind_ok _ _ _ _ _ s (None, mkInsertTask (it_key task) (it_value task) b (Some m)) s'); [reflexivity|].
    rewrite (ST_bind_ok (deref_ok _ _ _ Hl)), Hpar. by rewrite (ST_bind_ok Hrun).
  - exists G'. split; [done|]. by eapply root_sole_intro.
Qed.

Lemma moved_right task s l n :
  heap s !! l = Some n -> high_key n <= it_key task -> insert_task_execute task (Some l) s = Ok ((right_sibling n, task), s).
Proof.
  intros Hl Hk. unfold insert_task_execute. rewrite (ST_bind_ok (deref_ok _ _ _ Hl)).
  by rewrite (proj2 (Z.leb_le _ _)).
Qed.

(** Below the top, the separator goes into the node above that covers the key. *)
Lemma rising_step G s r top key l lo lv m b n p task :
  rising G s r top key l lo lv m b -> key < max_u64 -> it_key task = key ->
  heap s !! l = Some n -> parent n = Some p ->
  completes task (Some l) (Some m) b s
  \/ exists k q loq m' b' G' s',
       rising G' s' r top key q loq (S lv) m' b' /\ (forall k v, entry (heap s') k v <-> entry (heap s) k v)
       /\ forall f, rest_of_task (k + f) task (Some l) (Some m) b s
           = rest_of_task f (mkInsertTask key (it_value task) b (Some m)) (Some q) (Some m') b' s'.
Proof.
  intros [Hi Hr Gr Gl Gm Hlo Hb Hu Hcl Htk] Hmax Hkey Hl Hpar. pose proof (ti_heap _ _ Hi) as Hh.
  pose proof (ti_parent _ _ Hi _ _ _ _ Hl Gl) as Hp. unfold parent_inv in Hp. rewrite Hpar in Hp.
  destruct Hp as (lop & Gp & Hlop). set (task' := mkInsertTask key (it_value task) b (Some m)).
  assert (Hrest : forall f, rest_of_task f task (Some l) (Some m) b s = run_task insert_task_execute f task' (Some p) s).
  { intros f. unfold rest_of_task, after_split. erewrite (@ST_bind_ok _ _ _ _ _ s (Some p, task') s); [reflexivity|].
    rewrite (ST_bind_ok (deref_ok _ _ _ Hl)), Hpar. unfold task'. by rewrite Hkey. }
  destruct (walk_right insert_task_execute task' key G s Hh Hmax _ p lop (S lv) (moved_right task' s) Gp ltac:(lia) (le_n _))
    as (k & q & nq & loq & _ & Hwalk & Hq & Gq & Hloq & Hhq).
  destruct (hi_lookup _ _ _ _ _ Hh Gm) as (nm & Hm & [Hbm _ _]).
  assert (Hcov : loq <= b < high_key nq) by (eapply (covering_parent G (heap s) q nq loq lo lv b key); eauto; lia).
  destruct (insert_into_inner_inserted G s q nq loq lv b m Hi Hq Gq Hcov Gm Hu) as (up & G' & s1 & Hins & Hg & He & Hfull).
  assert (Hex : insert_task_execute task' (Some q) s = insert_into_inner_node task' (Some q) b (Some m) s).
  { unfold insert_task_execute. rewrite (ST_bind_ok (deref_ok _ _ _ Hq)). simpl.
    by rewrite (proj2 (Z.leb_gt _ _)). }
  rewrite (inner_node_step _ _ _ _ _ _ _ _ Hq Hins) in Hex.
  assert (Hlow : forall c lo', G !! c = Some (lo', top) -> c = r).
  { apply (top_known_below _ _ _ _ _ Htk). pose proof (ti_root _ _ Hi) as (r' & top' & Hr' & Gr' & _ & Htop).
    rewrite Hr in Hr'. injection Hr' as <-. rewrite Gr in Gr'. injection Gr' as <-. pose proof (Htop _ _ _ Gp). lia. }
  pose proof (top_known_grown _ _ _ _ _ _ _ r top Hg Hlow) as Htk'. pose proof (gr_sub _ _ _ _ _ _ _ Hg) as Hsub.
  assert (Gr' : G' !! r = Some (0, top)) by (by eapply lookup_weaken).
  assert (Hr1 : root_node s1 = Some r) by (rewrite (gr_root _ _ _ _ _ _ _ Hg); done).
  assert (Gq' : G' !! q = Some (loq, S lv)) by (by eapply lookup_weaken).
  assert (Gm' : G' !! m = Some (b, lv)) by (by eapply lookup_weaken).
  destruct (is_full nq) eqn:Hf.
  - right. destruct (Hfull eq_refl) as [m' Hm']. pose proof (gr_up _ _ _ _ _ _ _ Hg) as [->|Hup]; [done|].
    destruct Hup as (m0 & b' & -> & Gm0 & Hlt & Hu'). exists (k + 1)%nat, q, loq, m0, b', G', s1.
    split; [|split; [done|]].
    + destruct (hi_node _ _ Hh _ _ _ _ Hq Gq) as [[? _] _ _].
      split; try done; [apply (gr_inv _ _ _ _ _ _ _ Hg)|lia|].
      eapply (clear_between_grown G s q nq loq (S lv) m0 b' G' s1 key); eauto; lia.
    + intros f. rewrite Hrest, <- Nat.add_assoc, Hwalk. cbn [Nat.add]. by apply run_task_split.
  - left. destruct (set_separator_parent G' s1 q loq lv m b (gr_inv _ _ _ _ _ _ _ Hg) Gq' Gm' ltac:(lia))
      as (s2 & Has & Hi2 & Hr2 & He2).
    exists (k + 1)%nat, task', s2. split; [|split].
    + intros f. rewrite Hrest, <- Nat.add_assoc, Hwalk. cbn [Nat.add]. apply (run_task_last _ _ _ task').
      rewrite Hex. by rewrite (ST_bind_ok Has).
    + exists G'. split; [done|]. eapply root_sole_intro; [by rewrite Hr2|exact Gr'|].
      intros c lo' Gc. destruct (gr_new _ _ _ _ _ _ _ Hg _ _ Gc) as [Gc'|(b0 & Hup & _)]; [by eapply Hlow|].
      assert (Hno : up = (None, 0)); [|by rewrite Hno in Hup].
      unfold insert_into_inner in Hins. rewrite (ST_bind_ok (deref_ok _ _ _ Hq)), Hf in Hins. simpl in Hins.
      apply ST_bind_inv in Hins as (i & s3 & _ & Hins). apply ST_bind_inv in Hins as (u & s4 & _ & Hins). by injection Hins.
    + intros k' v'. by rewrite He2, He.
Qed.

Lemma rising_completes d : forall G s r top key l lo lv m b task,
  rising G s r top key l lo lv m b -> key < max_u64 -> it_key task = key -> (top - lv <= d)%nat ->
  completes task (Some l) (Some m) b s.
Proof.
  induction d as [|d IH]; intros G s r top key l lo lv m b task Hrs Hmax Hkey Hd;
    destruct (hi_lookup _ _ _ _ _ (ti_heap _ _ (rs_inv _ _ _ _ _ _ _ _ _ _ Hrs)) (rs_node _ _ _ _ _ _ _ _ _ _ Hrs)) as (n & Hl & _);
    destruct (parent n) as [p|] eqn:Hpar; try (by eapply rising_at_top).
  - exfalso. pose proof Hrs as [Hi Hr Gr Gl _ _ _ _ _ _]. pose proof (ti_parent _ _ Hi _ _ _ _ Hl Gl) as Hp.
    unfold parent_inv in Hp. rewrite Hpar in Hp. destruct Hp as (lop & Gp & _).
    pose proof (ti_root _ _ Hi) as (r' & top' & Hr' & Gr' & _ & Htop). rewrite Hr in Hr'. injection Hr' as <-.
    rewrite Gr in Gr'. injection Gr' as <-. pose proof (Htop _ _ _ Gp). lia.
  - destruct (rising_step _ _ _ _ _ _ _ _ _ _ _ _ task Hrs Hmax Hkey Hl Hpar)
      as [|(k & q & loq & m' & b' & G' & s' & Hrs' & He & Hrun)]; [done|].
    destruct (IH _ _ _ _ _ _ _ _ _ _ (mkInsertTask key (it_value task) b (Some m)) Hrs' Hmax eq_refl ltac:(lia))
      as (k2 & t & s2 & Hrun2 & Hw & He2).
    exists (k + k2)%nat, t, s2. split; [|split; [done|]].
    + intros f. rewrite <- Nat.add_assoc, Hrun. apply Hrun2.
    + intros x y. by rewrite He2, He.
Qed.

Lemma tbb_insert_refines s key v :
  tbb_well_formed s -> 0 <= key < max_u64 ->
  exists bound s', (forall fuel, (bound <= fuel)%nat -> tbb_insert fuel key v s = Ok (tt, s'))
    /\ tbb_well_formed s' /\ tbb_map s' = insert_new key v (tbb_map s).
Proof.
  intros Hw Hk. pose proof (insert_follows key v s) as Hfo. pose proof Hw as (G & Hi & Hsole).
  pose proof (ti_heap _ _ Hi) as Hh. pose proof (ti_root _ _ Hi) as (r & top & Hr & Gr & _ & Htop).
  destruct (walk_down insert_task_execute (new_insert_task key v) key G s Hh ltac:(lia) top r 0 Hfo Gr ltac:(lia))
    as (k & l & n & lo & _ & Hwalk & Hn & Gl & Hkn).
  destruct (insert_into_leaf_inserted G s l n lo key v Hi Hn Gl Hkn) as (up & G1 & s1 & Hins & Hli).
  pose proof (leaf_inserted_contents _ _ _ _ _ _ _ _ Hi Hli) as Hc. destruct Hli as [Hg _].
  assert (Hroot : root s = Ok (Some r, s)) by (unfold root, gets; by rewrite Hr).
  pose proof (top_known_grown _ _ _ _ _ _ _ r top Hg (Hsole _ _ Hr Gr)) as Htk.
  assert (Hsub := gr_sub _ _ _ _ _ _ _ Hg). assert (Gr1 : G1 !! r = Some (0, top)) by (by eapply lookup_weaken).
  assert (Hr1 : root_node s1 = Some r) by (rewrite (gr_root _ _ _ _ _ _ _ Hg); done).
  assert (Hex : insert_task_execute (new_insert_task key v) (Some l) s
                = insert_into_leaf_node (new_insert_task key v) (Some l) key v s).
  { unfold insert_task_execute. rewrite (ST_bind_ok (deref_ok _ _ _ Hn)). simpl.
    rewrite (proj2 (Z.leb_gt _ _)) by lia. unfold is_inner. by rewrite (level_is_leaf _ _ _ _ _ _ Hh Hn Gl). }
  rewrite (leaf_node_step _ _ _ _ _ _ _ Hins) in Hex.
  destruct (hi_node _ _ Hh _ _ _ _ Hn Gl) as [[[Hlo _] _] _ _].
  pose proof (gr_up _ _ _ _ _ _ _ Hg) as [->|(m & b & -> & Gm & Hb & Hu)]; simpl in Hex.
  - exists (k + 1)%nat, s1. split; [|split; [|done]].
    + intros fuel Hf. unfold tbb_insert. rewrite (ST_bind_ok Hroot).
      replace fuel with (k + S (fuel - k - 1))%nat by lia.
      by erewrite ST_bind_ok by (rewrite Hwalk; by apply run_task_last).
    + exists G1. split; [apply (gr_inv _ _ _ _ _ _ _ Hg)|]. by eapply top_known_none.
  - destruct (rising_completes top G1 s1 r top key l lo 0 m b (new_insert_task key v)) as (k2 & t & s2 & Hrun & Hw2 & He2);
      [|lia|done|lia|].
    { split; try done; [apply (gr_inv _ _ _ _ _ _ _ Hg)|by eapply lookup_weaken|lia|].
      eapply (clear_between_grown G s l n lo 0 m b G1 s1 key); eauto. }
    exists (k + S k2)%nat, s2. split; [|split; [done|]].
    + intros fuel Hf. unfold tbb_insert. rewrite (ST_bind_ok Hroot).
      replace fuel with (k + S (k2 + (fuel - k - k2 - 1)))%nat by lia.
      by erewrite ST_bind_ok by (rewrite Hwalk, (run_task_split _ _ _ _ _ _ _ Hex); apply Hrun).
    + unfold tbb_map. rewrite <- Hc. destruct Hw2 as (G2 & Hi2 & _).
      eapply contents_ext; [apply (gr_inv _ _ _ _ _ _ _ Hg)|apply Hi2|done].
Qed.

End TbbFacts.

(** ** Operations that keep every node *)
Class Keeps {A} (m : TM A) : Prop :=
  keeps s a s' l : m s = Ok (a, s') -> is_Some (heap s !! l) -> is_Some (heap s' !! l).

Section Keeps.
Context {PF : Platform}.

#[export] Instance keeps_ret {A} (a : A) : Keeps (mret a).
Proof. by intros s a' s' l [= <- <-]. Qed.
#[export] Instance keeps_lift {A} (m : outcome A) : Keeps (lift m).
Proof. intros s a s' l. unfold lift. destruct m; [|done]. by intros [= <- <-]. Qed.
#[export] Instance keeps_bind {A B} (m : TM A) (k : A -> TM B) : Keeps m -> (forall a, Keeps (k a)) -> Keeps (m ≫= k).
Proof. intros Hm Hk s b s' l (a & s1 & H1 & H2)%ST_bind_inv Hl. eapply Hk; [exact H2|]. by eapply Hm. Qed.
#[export] Instance keeps_if {A} (b : bool) (m1 m2 : TM A) : Keeps m1 -> Keeps m2 -> Keeps (if b then m1 else m2).
Proof. by destruct b. Qed.
#[export] Instance keeps_deref p : Keeps (deref p).
Proof. intros s a s' l. unfold deref. destruct p; [|done]. destruct (heap s !! _); [|done]. by intros [= <- <-]. Qed.
#[export] Instance keeps_update p f : Keeps (update p f).
Proof.
  intros s a s' l. unfold update. destruct p as [q|]; [|done]. destruct (heap s !! q); [|done].
  destruct (f n); [|done]. intros [= <- <-] Hl. simpl. rewrite lookup_insert. by case_decide.
Qed.
#[export] Instance keeps_assign p f : Keeps (assign p f).
Proof. apply keeps_update. Qed.
#[export] Instance keeps_create leaf p : Keeps (create_node leaf p).
Proof.
  intros s a s' l. unfold create_node. intros [= <- <-] Hl. simpl. rewrite lookup_insert. by case_decide.
Qed.
#[export] Instance keeps_modify f : (forall s, heap (f s) = heap s) -> Keeps (modify f).
Proof. intros Hf s a s' l [= <- <-]. by rewrite Hf. Qed.
#[export] Instance keeps_adopt todo p : forall i, Keeps (adopt_separators todo p i).
Proof. induction todo; intros i; simpl; apply _. Qed.
#[export] Instance keeps_split_leaf p key v : Keeps (split_leaf_node p key v).
Proof. unfold split_leaf_node, create_leaf_node. apply _. Qed.
#[export] Instance keeps_split_inner p key sep : Keeps (split_inner_node p key sep).
Proof. unfold split_inner_node, create_inner_node. apply _. Qed.
#[export] Instance keeps_new_root l r k : Keeps (create_new_root l r k).
Proof. unfold create_new_root, create_inner_node. repeat (apply keeps_bind; [apply _|intros]). by apply keeps_modify. Qed.
#[export] Instance keeps_after_split task node sep k : Keeps (after_split task node sep k).
Proof. unfold after_split. apply keeps_bind; [apply _|]. intros n. destruct (parent n); apply _. Qed.
#[export] Instance keeps_leaf_node task node k v : Keeps (insert_into_leaf_node task node k v).
Proof. unfold insert_into_leaf_node. apply _. Qed.
#[export] Instance keeps_inner_node task node k sep : Keeps (insert_into_inner_node task node k sep).
Proof.
  unfold insert_into_inner_node. apply keeps_bind; [apply _|]. intros n. apply keeps_if; [apply _|].
  apply keeps_bind; [apply _|]. intros []. apply _.
Qed.
End Keeps.

(** ** The olfit build on unlocked nodes *)
Section Olfit.
Context {PF : Platform} {PFok : PlatformOk}.

(** [run] does to the versioned tree what [run'] does to the tree, and leaves every
    version unlocked. *)
Definition same_step {A} (run : ST VersionedState A) (run' : TM A) (s : VersionedState) : Prop :=
  forall a t, run' (v_tree s) = Ok (a, t) -> exists s', run s = Ok (a, s') /\ v_tree s' = t /\ all_free s'.

(** A write under the lock of [l] to a node that was looked up again. *)
Lemma same_write {A} (run' : Node -> TM A) l s n :
  (forall n, Keeps (run' n)) -> all_free s -> heap (v_tree s) !! l = Some n ->
  same_step (node_acquire (Some l);; n ← on_vtree (deref (Some l)); r ← on_vtree (run' n); node_release (Some l);; mret r)
    (run' n) s.
Proof.
  intros Hkeep Hf Hn a t Hrun. destruct (node_acquire_ok s l n Hn Hf) as (s1 & H1 & [Ht1 Hl1] & Hh1).
  rewrite (ST_bind_ok H1). assert (Hn1 := Hn). rewrite <- Ht1 in Hn1.
  rewrite (ST_bind_ok (vderef_ok _ _ _ Hn1)).
  rewrite <- Ht1 in Hrun. rewrite (ST_bind_ok (on_vtree_ok _ _ _ _ Hrun)).
  rewrite Ht1 in Hrun. destruct (Hkeep n _ _ _ l Hrun) as [n' Hn']; [eauto|].
  destruct (node_release_ok (mkVersioned t (v_words s1) (v_lock s1)) l n' Hn' Hh1) as (s2 & H2 & [Ht2 Hl2] & Hh2).
  exists s2. by rewrite (ST_bind_ok H2).
Qed.

Lemma olfit_insert_read_ok fuel task l n s :
  all_free s -> heap (v_tree s) !! l = Some n ->
  let run := olfit_insert_read (S fuel) task (Some l) s in
  if high_key n <=? it_key task then run = Ok (Some (right_sibling n), s)
  else if is_for_leaf task && is_inner n then forall c, child n (it_key task) = Ok c -> run = Ok (Some c, s)
  else run = Ok (None, s).
Proof.
  intros Hf Hn. cbn [olfit_insert_read]. cbn zeta.
  rewrite (ST_bind_ok (node_version_ok _ _ _ Hn (Hf l))), (ST_bind_ok (vderef_ok _ _ _ Hn)).
  assert (Hvalid := node_is_valid_ok _ _ _ Hn). destruct (high_key n <=? it_key task).
  { by rewrite (ST_bind_ok Hvalid). }
  destruct (is_for_leaf task && is_inner n); [|by rewrite (ST_bind_ok Hvalid)].
  intros c Hc. by rewrite (ST_bind_ok (lift_ok Hc)), (ST_bind_ok Hvalid).
Qed.
Lemma olfit_insert_same fuel task l n s :
  all_free s -> heap (v_tree s) !! l = Some n -> (is_for_leaf task = false -> is_leaf n = false) ->
  same_step (olfit_insert_execute (S fuel) task (Some l)) (insert_task_execute task (Some l)) s.
Proof.
  intros Hf Hn Hkind a t. unfold insert_task_execute, olfit_insert_execute.
  rewrite (ST_bind_ok (deref_ok _ _ _ Hn)).
  pose proof (olfit_insert_read_ok fuel task l n s Hf Hn) as Hread. cbn zeta in Hread.
  destruct (high_key n <=? it_key task).
  { rewrite (ST_bind_ok Hread). intros [= <- <-]. by exists s. }
  set (write := fun n => if is_leaf n then insert_into_leaf_node task (Some l) (it_key task) (it_value task)
      else insert_into_inner_node task (Some l) (separator_key task) (task_separator task)).
  destruct (is_for_leaf task) eqn:Hfl; [destruct (is_inner n) eqn:Hin|]; cbn [andb] in Hread.
  - intros (c & t1 & Hc & Hr)%ST_bind_inv. unfold lift in Hc. destruct (child n (it_key task)) as [c'|]; [|done].
    injection Hc as <- <-. injection Hr as <- <-. rewrite (ST_bind_ok (Hread _ eq_refl)). by exists s.
  - rewrite (ST_bind_ok Hread). unfold is_inner in Hin. apply negb_false_iff in Hin.
    intros Hrun. apply (same_write write l s n); [apply _|done|done|]. unfold write. by rewrite Hin.
  - rewrite (ST_bind_ok Hread). specialize (Hkind eq_refl).
    intros Hrun. apply (same_write write l s n); [apply _|done|done|]. unfold write. by rewrite Hkind.
Qed.

Lemma olfit_lookup_same fuel task l n s :
  all_free s -> heap (v_tree s) !! l = Some n ->
  same_step (olfit_lookup_execute (S fuel) task (Some l)) (lookup_task_execute task (Some l)) s.
Proof.
  intros Hf Hn a t. unfold lookup_task_execute. cbn [olfit_lookup_execute].
  assert (Hv := node_version_ok _ _ _ Hn (Hf l)). assert (Hvalid := node_is_valid_ok _ _ _ Hn).
  rewrite (ST_bind_ok (deref_ok _ _ _ Hn)), (ST_bind_ok Hv), (ST_bind_ok (vderef_ok _ _ _ Hn)).
  destruct (high_key n <=? kt_key task).
  { erewrite ST_bind_ok by (by rewrite (ST_bind_ok Hvalid)). intros [= <- <-]. by exists s. }
  unfold is_inner. destruct (is_leaf n); cbn [negb].
  - rewrite (@ST_bind_ok _ _ _ _ _ s None s) by done. cbn beta iota. intros (i & t1 & Hi & Hr)%ST_bind_inv. unfold lift in Hi.
    destruct (index n (kt_key task)) as [i'|]; [|done]. injection Hi as <- <-.
    rewrite (@ST_bind_ok _ _ _ _ _ s i' s) by done. apply ST_bind_inv in Hr as (k & t1 & Hk & Hr).
    unfold lift in Hk. destruct (leaf_key n i') as [k'|]; [|done]. injection Hk as <- <-.
    rewrite (@ST_bind_ok _ _ _ _ _ s k' s) by done. destruct (k' =? kt_key task).
    + apply ST_bind_inv in Hr as (v & t1 & Hv' & Hr). unfold lift in Hv'.
      destruct (value n i') as [v'|]; [|done]. injection Hv' as <- <-. injection Hr as <- <-. exists s.
      rewrite (@ST_bind_ok _ _ _ _ _ s (mkKeyTask (kt_key task) v') s) by done.
      by rewrite (ST_bind_ok Hvalid).
    + injection Hr as <- <-. exists s. rewrite (@ST_bind_ok _ _ _ _ _ s task s) by done. by rewrite (ST_bind_ok Hvalid).
  - intros (c & t1 & Hc & Hr)%ST_bind_inv. unfold lift in Hc. destruct (child n (kt_key task)) as [c'|]; [|done].
    injection Hc as <- <-. injection Hr as <- <-. exists s.
    rewrite (@ST_bind_ok _ _ _ _ _ s (Some c') s); [done|]. rewrite (@ST_bind_ok _ _ _ _ _ s c' s) by done. by rewrite (ST_bind_ok Hvalid).
Qed.

Lemma olfit_update_read_ok fuel task l n s :
  all_free s -> heap (v_tree s) !! l = Some n ->
  let run := olfit_update_read (S fuel) task (Some l) s in
  if high_key n <=? kt_key task then run = Ok (Some (right_sibling n), s)
  else if is_inner n then forall c, child n (kt_key task) = Ok c -> run = Ok (Some c, s)
  else run = Ok (None, s).
Proof.
  intros Hf Hn. cbn [olfit_update_read]. cbn zeta.
  rewrite (ST_bind_ok (node_version_ok _ _ _ Hn (Hf l))), (ST_bind_ok (vderef_ok _ _ _ Hn)).
  assert (Hvalid := node_is_valid_ok _ _ _ Hn). destruct (high_key n <=? kt_key task).
  { by rewrite (ST_bind_ok Hvalid). }
  destruct (is_inner n); [|by rewrite (ST_bind_ok Hvalid)].
  intros c Hc. by rewrite (ST_bind_ok (lift_ok Hc)), (ST_bind_ok Hvalid).
Qed.
Lemma olfit_update_same fuel task l n s :
  all_free s -> heap (v_tree s) !! l = Some n ->
  same_step (olfit_update_execute (S fuel) task (Some l)) (update_task_execute task (Some l)) s.
Proof.
  intros Hf Hn a t. unfold update_task_execute, olfit_update_execute.
  rewrite (ST_bind_ok (deref_ok _ _ _ Hn)).
  pose proof (olfit_update_read_ok fuel task l n s Hf Hn) as Hread. cbn zeta in Hread.
  destruct (high_key n <=? kt_key task).
  { rewrite (ST_bind_ok Hread). intros [= <- <-]. by exists s. }
  unfold is_inner in *. destruct (is_leaf n); cbn [negb] in *.
  2: { intros (c & t1 & Hc & Hr)%ST_bind_inv. unfold lift in Hc. destruct (child n (kt_key task)) as [c'|]; [|done].
    injection Hc as <- <-. injection Hr as <- <-. rewrite (ST_bind_ok (Hread _ eq_refl)). by exists s. }
  rewrite (ST_bind_ok Hread). intros (i & t1 & Hi & Hr)%ST_bind_inv. unfold lift in Hi.
  destruct (index n (kt_key task)) as [i'|] eqn:Ei; [|done]. injection Hi as <- <-.
  apply ST_bind_inv in Hr as (k & t1 & Hk & Hr). unfold lift in Hk.
  destruct (leaf_key n i') as [k'|] eqn:Ek; [|done]. injection Hk as <- <-.
  apply ST_bind_inv in Hr as (u & t1 & Hup & Hr). injection Hr as <- <-.
  destruct (node_acquire_ok s l n Hn Hf) as (s1 & H1 & [Ht1 Hl1] & Hh1). assert (Hn1 := Hn). rewrite <- Ht1 in Hn1.
  rewrite (ST_bind_ok H1), (ST_bind_ok (vderef_ok _ _ _ Hn1)), (ST_bind_ok (lift_ok (s := s1) Ei)).
  rewrite (ST_bind_ok (lift_ok (s := s1) Ek)).
  assert (Hw : (if k' =? kt_key task then on_vtree (update (Some l) (fun n => set_value n i' (kt_value task))) else mret tt) s1
    = Ok (u, mkVersioned t1 (v_words s1) (v_lock s1))).
  { destruct (k' =? kt_key task); [apply on_vtree_ok; by rewrite Ht1|].
    injection Hup as <- <-. rewrite <- Ht1. by destruct s1. }
  rewrite (ST_bind_ok Hw).
  assert (Hkeep : is_Some (heap t1 !! l)).
  { destruct (k' =? kt_key task); [eapply keeps_update; [exact Hup|eauto]|]. injection Hup as _ <-. eauto. }
  destruct Hkeep as [n' Hn']. destruct (node_release_ok (mkVersioned t1 (v_words s1) (v_lock s1)) l n' Hn' Hh1)
    as (s2 & H2 & [Ht2 _] & Hh2).
  exists s2. by rewrite (ST_bind_ok H2).
Qed.

(** C24: the olfit build of the tasks, which validates versions and locks only to write,
    does with a node of a tree whose nodes are unlocked exactly what the builds with
    latches do: the same next node, the same task, the same tree; and it leaves every
    node unlocked.  (An insert task on its way up only meets inner nodes.) *)
Theorem olfit_equals_latched fuel itask ktask l n s :
  all_free s -> heap (v_tree s) !! l = Some n -> (is_for_leaf itask = false -> is_leaf n = false) ->
  same_step (olfit_insert_execute (S fuel) itask (Some l)) (insert_task_execute itask (Some l)) s
  /\ same_step (olfit_lookup_execute (S fuel) ktask (Some l)) (lookup_task_execute ktask (Some l)) s
  /\ same_step (olfit_update_execute (S fuel) ktask (Some l)) (update_task_execute ktask (Some l)) s.
Proof.
  intros Hf Hn Hk. split_and!; [by eapply olfit_insert_same|by eapply olfit_lookup_same|by eapply olfit_update_same].
Qed.

End Olfit.

(** ** What the tasks guarantee *)
Section TbbClaims.
Context {PF : Platform} {PFok : PlatformOk}.

(** C22: an insert task that runs alone terminates, keeps the tree a well-formed B-link
    tree and adds the pair to the stored map unless the key is there already, for trees
    of any height.  The task finds the way up through the parent pointers, which may
    point too far left, and looks for the place of the separator with the key it
    inserts; both turn out to lead to the right node. *)
Theorem tbb_insert_correct s key v :
  tbb_well_formed s -> 0 <= key < max_u64 ->
  exists bound s', (forall fuel, (bound <= fuel)%nat -> tbb_insert fuel key v s = Ok (tt, s'))
    /\ tbb_well_formed s' /\ tbb_map s' = insert_new key v (tbb_map s).
Proof. apply tbb_insert_refines. Qed.

(** C23: lookup and update tasks that run alone terminate within as many task executions as
    the tree has nodes, and one more: the lookup leaves the stored value in its member, which keeps its
    initial value for an absent key, the update overwrites the value of a key that is there
    and otherwise keeps the map.  For an absent key both need that the probe is safe
    ([tbb_probe_safe]): when all live keys of the leaf are smaller, the slot behind them is
    read all the same, so it must exist (the leaf is not full) and what is left in it must
    differ from the key. *)
Theorem tbb_lookup_update_correct s key v fuel :
  tbb_well_formed s -> 0 <= key < max_u64 -> (base.size (heap s) < fuel)%nat ->
  is_Some (tbb_map s !! key) \/ tbb_probe_safe key s ->
  tbb_lookup fuel key v s = Ok (default v (tbb_map s !! key), s)
  /\ exists s', tbb_update fuel key v s = Ok (tt, s') /\ tbb_well_formed s'
       /\ tbb_map s' = update_present key v (tbb_map s).
Proof. intros. split; [by apply tbb_lookup_refines|by apply tbb_update_refines]. Qed.

Lemma new_tree_tbb : tbb_well_formed new_tree.
Proof.
  eexists. split; [apply new_tree_inv|]. intros r top Hr Gr l lo Hl.
  apply lookup_singleton_Some in Gr as [<- _], Hl as [<- _]. done.
Qed.
End TbbClaims.

(** ** Concrete runs *)
Module TbbExamples.
#[local] Existing Instance small_platform.
#[local] Existing Instance small_platform_ok.
Import OptimisticExamples.

(** The tree that the thread tree built from seven inserts: two levels, three leaves. *)
Definition two_levels : TreeState := v_tree two_vlevels.
Lemma tbb_two_levels_ok : tbb_well_formed two_levels.
Proof. exact (proj1 two_vlevels_ok). Qed.

Lemma tbb_insert_correct_witness :
  exists bound s', (forall fuel, (bound <= fuel)%nat -> tbb_insert fuel 7 8 two_levels = Ok (tt, s'))
    /\ tbb_well_formed s' /\ tbb_map s' = insert_new 7 8 (tbb_map two_levels).
Proof. apply (tbb_insert_correct two_levels 7 8 tbb_two_levels_ok). unfold max_u64. lia. Defined.

Lemma tbb_lookup_update_correct_witness :
  (tbb_lookup 40 30 0 two_levels = Ok (default 0 (tbb_map two_levels !! 30), two_levels)
   /\ exists s', tbb_update 40 30 0 two_levels = Ok (tt, s') /\ tbb_well_formed s'
        /\ tbb_map s' = update_present 30 0 (tbb_map two_levels))
  /\ tbb_lookup 40 25 0 two_levels = Ok (0, two_levels).
Proof.
  split; [|refine (proj1 (tbb_lookup_update_correct two_levels 25 0 40 tbb_two_levels_ok _ _ _))].
  1: apply (tbb_lookup_update_correct two_levels 30 0 40 tbb_two_levels_ok).
  all: try (unfold max_u64; lia); try (apply Nat.ltb_lt; vm_compute; reflexivity).
  - left. vm_compute. by eexists.
  - right. apply (bool_decide_unpack _). vm_compute. done.
Defined.

(** The root of the two levels, met by an insert task for a leaf. *)
Definition two_levels_root : loc := match root two_levels with Ok (Some l, _) => l | _ => 1%positive end.
Lemma olfit_equals_latched_witness :
  same_step (olfit_insert_execute 1 (new_insert_task 7 8) (Some two_levels_root))
    (insert_task_execute (new_insert_task 7 8) (Some two_levels_root)) two_vlevels
  /\ same_step (olfit_lookup_execute 1 (mkKeyTask 7 8) (Some two_levels_root))
       (lookup_task_execute (mkKeyTask 7 8) (Some two_levels_root)) two_vlevels
  /\ same_step (olfit_update_execute 1 (mkKeyTask 7 8) (Some two_levels_root))
       (update_task_execute (mkKeyTask 7 8) (Some two_levels_root)) two_vlevels.
Proof.
  assert (exists n, heap (v_tree two_vlevels) !! two_levels_root = Some n) as [n Hn]
    by (vm_compute; by eexists).
  refine (olfit_equals_latched 0 (new_insert_task 7 8) (mkKeyTask 7 8) two_levels_root n two_vlevels
            (proj1 (proj2 two_vlevels_ok)) Hn _).
  intros H. discriminate H.
Defined.

(** The insert task splits the leaf of 5 and 6 and 10 and reports to the root. *)
Example tbb_insert_runs :
  match tbb_insert 40 7 8 two_levels with Ok (_, s') => tbb_lookup 40 7 0 s' | Fault f => Fault f end
  = match tbb_insert 40 7 8 two_levels with Ok (_, s') => Ok (8, s') | Fault f => Fault f end.
Proof. vm_compute. reflexivity. Qed.
End TbbExamples.
