(* ===== verification/TbbBatch.v ===== *)
(** * Batches of tasks

    Models [BatchTask::execute] of [src/src/indices/blinktree/tbb/tbb_benchmark.cpp]: a
    batch task takes the next items of the workload, spawns an insert, update or lookup
    task for each, waits for all of them and runs again.  TBB may run the spawned tasks in
    any order; the interleaving of tasks inside TBB is not modelled, each runs alone. *)

From S2P Require Import Prelude Node Tree BlinkInv ThreadTree Capacity LatchedTree OptimisticTree TbbTree.
From S2P Require Import Workload.

(** ** [BatchTask] *)
Inductive spawned : Type :=
  | SpawnInsert (key v : Z)
  | SpawnUpdate (key v : Z)
  | SpawnLookup (key : Z).
Definition spawn_for (t : WorkloadTuple.t) : spawned :=
  match WorkloadTuple.operation t with
  | WorkloadTuple.Insert => SpawnInsert (WorkloadTuple.key t) (WorkloadTuple.value t)
  | WorkloadTuple.Update => SpawnUpdate (WorkloadTuple.key t) (WorkloadTuple.value t)
  | WorkloadTuple.Lookup => SpawnLookup (WorkloadTuple.key t)
  end.
Fixpoint spawn_items (tuples : list WorkloadTuple.t) (items : list Z) : outcome (list spawned) :=
  match items with
  | [] => Ok []
  | i :: items => t ← array_get tuples i; rest ← spawn_items tuples items; Ok (spawn_for t :: rest)
  end.
(** The shared index after the call, and the tasks it spawns, or [None] when the workload
    is used up and the task ends. *)
Definition BatchTask_execute (tuples : list WorkloadTuple.t) (batch_size workload_index : Z) : outcome (Z * option (list spawned)) :=
  let count_items := Z.of_nat (length tuples) in
  let next := u64 (workload_index + batch_size) in
  if count_items <=? workload_index then Ok (next, None)
  else
    let batch := Z.min batch_size (count_items - workload_index) in
    tasks ← spawn_items tuples (seqZ workload_index batch);
    Ok (next, Some tasks).

Lemma spawn_items_ok tuples : forall items, Forall (fun i => 0 <= i < Z.of_nat (length tuples)) items ->
  exists ts, spawn_items tuples items = Ok (spawn_for <$> ts)
    /\ Forall2 (fun i t => tuples !! Z.to_nat i = Some t) items ts.
Proof.
  induction 1 as [|i items Hi _ (ts & Hrun & Hts)]; [by exists []|]. cbn [spawn_items].
  destruct (lookup_lt_is_Some_2 tuples (Z.to_nat i)) as [t Ht]; [lia|].
  pose proof (array_get_lookup tuples (Z.to_nat i) t Ht) as Hget. rewrite Z2Nat.id in Hget by lia. rewrite Hget.
  cbn [mbind outcome_bind]. rewrite Hrun. exists (t :: ts). split; [done|]. by constructor.
Qed.
(** A batch task never reads past the workload, and spawns one task per item of its batch. *)
Lemma batch_execute_ok tuples batch_size p :
  0 <= p -> 0 < batch_size ->
  (p < Z.of_nat (length tuples) -> exists ts, BatchTask_execute tuples batch_size p = Ok (u64 (p + batch_size), Some (spawn_for <$> ts))
     /\ ts = take (Z.to_nat batch_size) (drop (Z.to_nat p) tuples))
  /\ (Z.of_nat (length tuples) <= p -> BatchTask_execute tuples batch_size p = Ok (u64 (p + batch_size), None)).
Proof.
  intros Hp Hb. unfold BatchTask_execute. split; intros Hlt.
  - rewrite (proj2 (Z.leb_gt _ _)) by lia.
    destruct (spawn_items_ok tuples (seqZ p (Z.min batch_size (Z.of_nat (length tuples) - p)))) as (ts & Hrun & Hts).
    { apply Forall_forall. intros i Hi%elem_of_seqZ. lia. }
    rewrite Hrun. exists ts. split; [done|]. apply list_eq. intros k. rewrite lookup_take, lookup_drop.
    pose proof (Forall2_length _ _ _ Hts) as Hlen. rewrite length_seqZ in Hlen. case_decide as Hk.
    + destruct (decide (k < length ts)%nat) as [Hin|Hout].
      * destruct (lookup_lt_is_Some_2 ts k Hin) as [t Ht]. rewrite Ht.
        destruct (Forall2_lookup_r _ _ _ _ _ Hts Ht) as (i & Hi & Hti). apply lookup_seqZ in Hi as [-> Hi].
        symmetry. rewrite <- Hti. f_equal. lia.
      * rewrite !lookup_ge_None_2; [done|lia|lia].
    + rewrite lookup_ge_None_2; [done|lia].
  - by rewrite (proj2 (Z.leb_le _ _)).
Qed.

(** ** Running the spawned tasks *)
Section Batch.
Context {PF : Platform} {PFok : PlatformOk}.

Definition run_spawned (fuel : nat) (t : spawned) : TM unit :=
  match t with
  | SpawnInsert key v => tbb_insert fuel key v
  | SpawnUpdate key v => tbb_update fuel key v
  | SpawnLookup key => tbb_lookup fuel key 0;; mret tt
  end.
Fixpoint run_batch (fuel : nat) (ts : list spawned) : TM unit :=
  match ts with [] => mret tt | t :: ts => run_spawned fuel t;; run_batch fuel ts end.

Definition spawned_key (t : spawned) : Z := match t with SpawnInsert k _ | SpawnUpdate k _ | SpawnLookup k => k end.
Definition spawned_effect (m : gmap Z Z) (t : spawned) : gmap Z Z :=
  match t with
  | SpawnInsert k v => insert_new k v m
  | SpawnUpdate k v => update_present k v m
  | SpawnLookup _ => m
  end.
(** Keys below the maximum; updates and lookups only for keys that are there. *)
Definition spawned_ok (m : gmap Z Z) (t : spawned) : Prop :=
  0 <= spawned_key t < max_u64 /\ match t with SpawnInsert _ _ => True | _ => is_Some (m !! spawned_key t) end.

(** More fuel does not change the result. *)
Lemma run_task_more {St T} (execute : T -> ptr -> ST St (ptr * T)) f : forall f' task node s r,
  (f <= f')%nat -> run_task execute f task node s = Ok r -> run_task execute f' task node s = Ok r.
Proof.
  induction f as [|f IH]; intros f' task node s r Hf Hrun; [done|]. destruct f' as [|f']; [lia|]. cbn [run_task] in *.
  apply ST_bind_inv in Hrun as ([next task'] & s1 & Hex & Hrest). rewrite (ST_bind_ok Hex).
  destruct next; [|done]. apply IH; [lia|done].
Qed.
Lemma run_spawned_ok s t : tbb_well_formed s -> spawned_ok (tbb_map s) t ->
  exists bound s', (forall fuel, (bound <= fuel)%nat -> run_spawned fuel t s = Ok (tt, s'))
    /\ tbb_well_formed s' /\ tbb_map s' = spawned_effect (tbb_map s) t.
Proof.
  intros Hw [Hk Hp]. destruct t as [k v|k v|k]; simpl in *.
  - by apply tbb_insert_refines.
  - destruct (tbb_update_refines s k v (S (base.size (heap s))) Hw Hk) as (s' & Hrun & Hw' & Hm); [lia|by left|].
    exists (S (base.size (heap s))), s'. split; [|done]. intros fuel Hf. unfold tbb_update in *.
    apply ST_bind_inv in Hrun as (r & s1 & Hr & Hrun). rewrite (ST_bind_ok Hr).
    apply ST_bind_inv in Hrun as (task & s2 & Ht & Hret). by rewrite (ST_bind_ok (run_task_more _ _ _ _ _ _ _ Hf Ht)).
  - exists (S (base.size (heap s))), s. split; [|done]. intros fuel Hf.
    by rewrite (ST_bind_ok (tbb_lookup_refines s k 0 fuel Hw Hk ltac:(lia) (or_introl Hp))).
Qed.
Lemma effect_other m t k : spawned_key t <> k -> spawned_effect m t !! k = m !! k.
Proof.
  destruct t as [k' v|k' v|k']; simpl; intros Hne; [| |done]; unfold insert_new, update_present; case_match; try done;
    by rewrite lookup_insert_ne.
Qed.
Lemma effect_keeps m t k : is_Some (m !! k) -> is_Some (spawned_effect m t !! k).
Proof.
  intros Hk. destruct (decide (spawned_key t = k)) as [<-|Hne]; [|by rewrite effect_other].
  destruct t as [k' v|k' v|k']; simpl in *; [| |done]; unfold insert_new, update_present; destruct Hk as [w Hk]; rewrite Hk; [by eexists|].
  rewrite lookup_insert_eq. by eexists.
Qed.
Lemma run_batch_ok ts : forall s, tbb_well_formed s -> Forall (spawned_ok (tbb_map s)) ts ->
  exists bound s', (forall fuel, (bound <= fuel)%nat -> run_batch fuel ts s = Ok (tt, s'))
    /\ tbb_well_formed s' /\ tbb_map s' = fold_left spawned_effect ts (tbb_map s).
Proof.
  induction ts as [|t ts IH]; intros s Hw Hok; [by exists O, s|]. apply Forall_cons in Hok as [Ht Hok].
  destruct (run_spawned_ok s t Hw Ht) as (b1 & s1 & Hrun1 & Hw1 & Hm1). destruct (IH s1 Hw1) as (b2 & s2 & Hrun2 & Hw2 & Hm2).
  { eapply Forall_impl; [exact Hok|]. intros u [Hk Hu]. split; [done|]. rewrite Hm1. destruct u; [done| |]; by apply effect_keeps. }
  exists (Nat.max b1 b2), s2. split; [|split; [done|by rewrite Hm2, Hm1]]. intros fuel Hf. cbn [run_batch].
  rewrite (ST_bind_ok (Hrun1 fuel ltac:(lia))). apply Hrun2. lia.
Qed.

(** Tasks with different keys commute. *)
Lemma effects_commute m t u : spawned_key t <> spawned_key u ->
  spawned_effect (spawned_effect m t) u = spawned_effect (spawned_effect m u) t.
Proof.
  intros Hne. destruct t as [k v|k v|k], u as [k' v'|k' v'|k']; simpl in *; try done;
    unfold insert_new, update_present; destruct (m !! k) eqn:E, (m !! k') eqn:E';
    rewrite ?E, ?E', ?lookup_insert_ne, ?E, ?E' by done; try done; by apply insert_insert_ne.
Qed.
Lemma effects_permute ts us : ts ≡ₚ us -> NoDup (spawned_key <$> ts) -> forall m,
  fold_left spawned_effect ts m = fold_left spawned_effect us m.
Proof.
  induction 1 as [|t ts us Hp IH|t u ts|ts us vs Hp1 IH1 Hp2 IH2]; intros Hnd m; [done| | |].
  - apply NoDup_cons in Hnd as [_ Hnd]. simpl. by apply IH.
  - simpl. f_equal. apply effects_commute. apply NoDup_cons in Hnd as [Hnd _]. simpl in Hnd. set_solver.
  - rewrite IH1 by done. apply IH2. by rewrite <- Hp1.
Qed.

(** The order in which TBB runs the tasks of a batch does not matter when their keys
    differ: every order terminates and leaves a well-formed tree with the same entries. *)
Lemma batch_any_order s ts order : tbb_well_formed s -> Forall (spawned_ok (tbb_map s)) ts ->
  NoDup (spawned_key <$> ts) -> order ≡ₚ ts ->
  exists bound s', (forall fuel, (bound <= fuel)%nat -> run_batch fuel order s = Ok (tt, s'))
    /\ tbb_well_formed s' /\ tbb_map s' = fold_left spawned_effect ts (tbb_map s).
Proof.
  intros Hw Hok Hnd Hord. destruct (run_batch_ok order s Hw) as (b & s' & Hrun & Hw' & Hm); [by rewrite Hord|].
  exists b, s'. split; [done|]. split; [done|]. rewrite Hm. apply effects_permute; [done|]. by rewrite Hord.
Qed.
End Batch.
