(* ===== verification/Permuter.v ===== *)
(** * Masstree's permuters

    Models [src/src/indices/mass_tree/thread/kpermuter.hh].  A leaf of Masstree keeps
    its keys unsorted and the order in one word: [kpermuter<width>] packs a size and a
    permutation of the slots into nibbles, so that a store of the word publishes an
    insertion.  The operations are shifts and masks; they are written here as in the
    code, at the width of its [value_type], and proved to be the list operations their
    comments describe. *)

From S2P Require Import Prelude.

(** ** The class [kpermuter<width>] *)
Section Kpermuter.
Context (width : Z).

(** [sized_kpermuter_info]: the index of the specialisation, [sizeof] of its storage in
    bytes, the bits of [value_type] and the two constants. *)
Record permuter_info : Type := mkInfo { storage_bytes : Z; value_bits : Z; initial_value : Z; full_value : Z }.
Definition sized_kpermuter_info (c : Z) : permuter_info :=
  if c =? 0 then mkInfo 2 32 0x0120 0x2100
  else if c =? 1 then mkInfo 4 32 0x01234560 0x65432100
  else mkInfo 8 64 0x0123456789ABCDE0 0xEDCBA98765432100.
Definition info : permuter_info := sized_kpermuter_info (Z.b2z (3 <? width) + Z.b2z (7 <? width) + Z.b2z (15 <? width)).
Definition max_width : Z := storage_bytes info * 2 - 1.

(** Arithmetic of [value_type]. *)
Definition val (x : Z) : Z := wrap (value_bits info) x.
Definition vshl (a k : Z) : Z := val (Z.shiftl a k).
Definition vnot (a : Z) : Z := val (Z.lnot a).

Definition make_empty : Z :=
  let p := Z.shiftr (initial_value info) (Z.shiftl (max_width - width) 2) in
  Z.land p (vnot 15).
Definition make_sorted (n : Z) : Z :=
  let mask := val ((if n =? width then 0 else vshl 16 (Z.shiftl n 2)) - 1) in
  Z.lor (Z.lor (vshl make_empty (Z.shiftl n 2)) (Z.land (full_value info) mask)) n.

Definition psize (x : Z) : Z := Z.land x 15.
Definition element (x i : Z) : Z := Z.land (Z.shiftr x (Z.shiftl i 2 + 4)) 15.
Definition back (x : Z) : Z := element x (width - 1).
Definition value_from (x i : Z) : Z := Z.shiftr x (Z.shiftl (i + 1) 2).
Definition set_size (n x : Z) : Z := Z.lor (Z.land x (vnot 15)) n.

(** The new word and the element that was allocated. *)
Definition insert_from_back (i x : Z) : Z * Z :=
  let value := back x in
  (Z.lor (Z.lor (Z.land (val (x + 1)) (val (vshl 16 (Z.shiftl i 2) - 1)))
                (vshl value (Z.shiftl i 2 + 4)))
         (Z.land (vshl x 4) (vnot (val (vshl 256 (Z.shiftl i 2) - 1)))),
   value).
Definition insert_selected (di si x : Z) : Z :=
  let value := element x si in
  let mask := val (vshl 256 (Z.shiftl si 2) - 1) in
  Z.lor (Z.lor (Z.lor (Z.land (val (x + 1)) (val (vshl 16 (Z.shiftl di 2) - 1)))
                      (vshl value (Z.shiftl di 2 + 4)))
               (Z.land (Z.land (vshl x 4) mask) (vnot (val (vshl 256 (Z.shiftl di 2) - 1)))))
        (Z.land x (vnot mask)).
Definition remove (i x : Z) : Z :=
  if psize x =? i + 1 then val (x - 1)
  else
    let rot_amount := Z.shiftl (psize x - i - 1) 2 in
    let rot_mask := vshl (val (vshl 16 rot_amount - 1)) (Z.shiftl (i + 1) 2) in
    Z.lor (Z.lor (Z.land (val (x - 1)) (vnot rot_mask))
                 (Z.land (Z.shiftr (Z.land x rot_mask) 4) rot_mask))
          (Z.land (vshl (Z.land x rot_mask) rot_amount) rot_mask).
Definition remove_to_back (i x : Z) : Z :=
  let mask := vnot (val (vshl 16 (Z.shiftl i 2) - 1)) in
  let x := Z.land x (val (vshl 16 (Z.shiftl width 2) - 1)) in
  Z.lor (Z.lor (Z.land (val (x - 1)) (vnot mask)) (Z.land (Z.shiftr x 4) mask))
        (vshl (Z.land x mask) (Z.shiftl (width - i - 1) 2)).
Definition rotate (i j x : Z) : Z :=
  let mask := val ((if i =? width then 0 else vshl 16 (Z.shiftl i 2)) - 1) in
  let x := Z.land x (val (vshl 16 (Z.shiftl width 2) - 1)) in
  Z.lor (Z.lor (Z.land x mask) (Z.land (Z.shiftr x (Z.shiftl (j - i) 2)) (vnot mask)))
        (vshl (Z.land x (vnot mask)) (Z.shiftl (width - j) 2)).
Definition exchange (i j x : Z) : Z :=
  let diff := Z.land (Z.lxor (Z.shiftr x (Z.shiftl i 2)) (Z.shiftr x (Z.shiftl j 2))) 240 in
  Z.lxor x (Z.lor (vshl diff (Z.shiftl i 2)) (vshl diff (Z.shiftl j 2))).
(** The loop of [exchange_values] over [i], with the local variables [diff] and [p]. *)
Fixpoint exchange_values_loop (n : nat) (a b diff p : Z) : Z :=
  match n with
  | O => diff
  | S n =>
      let v := Z.land (Z.shiftr p (Z.shiftl width 2)) 15 in
      let diff := Z.lxor diff (if (v =? a) || (v =? b) then Z.lxor a b else 0) in
      exchange_values_loop n a b (vshl diff 4) (vshl p 4)
  end.
Definition exchange_values (a b x : Z) : Z := Z.lxor x (exchange_values_loop (Z.to_nat width) a b 0 x).

(** [unparse]: the loop over [i], with [p] and [seen]; it ends at [width]. *)
Fixpoint unparse_loop (fuel : nat) (n i p seen : Z) : list Z * Z :=
  match fuel with
  | O => ([], seen)
  | S fuel =>
      let colon := if i =? n then [58] else [] in
      if i =? width then (colon, seen)
      else
        let d := Z.land p 15 in
        let c := if d <? 10 then 48 + d else 97 + d - 10 in
        let '(s, seen) := unparse_loop fuel n (i + 1) (Z.shiftr p 4) (Z.lor seen (Z.shiftl 1 d)) in
        (colon ++ c :: s, seen)
  end.
Definition unparse (x : Z) : list Z :=
  let '(s, seen) := unparse_loop (S (Z.to_nat width)) (Z.land x 15) 0 (Z.shiftr x 4) 0 in
  s ++ (if seen =? Z.shiftl 1 width - 1 then [] else [63; 33]).

End Kpermuter.

(** ** Nibbles *)
Definition nib (x k : Z) : Z := Z.land (Z.shiftr x (4 * k)) 15.

Lemma nib_bits x k b : 0 <= k -> Z.testbit (nib x k) b = (0 <=? b) && (b <? 4) && Z.testbit x (4 * k + b).
Proof.
  intros Hk. unfold nib. destruct (Z.leb_spec 0 b) as [Hb|Hb]; [|by rewrite Z.testbit_neg_r].
  rewrite Z.land_spec, Z.shiftr_spec by lia. change 15 with (Z.ones 4). rewrite Z.testbit_ones by lia.
  rewrite (proj2 (Z.leb_le 0 b) Hb). simpl. rewrite andb_comm. f_equal. f_equal. lia.
Qed.
Lemma nib_ext a b j k : 0 <= j -> 0 <= k ->
  (forall n, 0 <= n < 4 -> Z.testbit a (4 * j + n) = Z.testbit b (4 * k + n)) -> nib a j = nib b k.
Proof.
  intros Hj Hk H. apply Z.bits_inj'. intros n Hn. rewrite !nib_bits by lia.
  destruct (Z.ltb_spec n 4); [by rewrite H by lia|by rewrite !andb_false_r].
Qed.
Lemma nib_zero a k : 0 <= k -> (forall n, 0 <= n < 4 -> Z.testbit a (4 * k + n) = false) -> nib a k = 0.
Proof. intros Hk H. change 0 with (nib 0 0). apply nib_ext; [lia|lia|]. intros m Hm. by rewrite H, Z.bits_0. Qed.
Lemma nib_bound x k : 0 <= nib x k < 16.
Proof. unfold nib. change 15 with (Z.ones 4). rewrite Z.land_ones by lia. apply Z.mod_pos_bound. lia. Qed.
Lemma nib_mod x : nib x 0 = x mod 16.
Proof. unfold nib. rewrite Z.mul_0_r, Z.shiftr_0_r. change 15 with (Z.ones 4). by rewrite Z.land_ones by lia. Qed.

Lemma nib_lor a b k : nib (Z.lor a b) k = Z.lor (nib a k) (nib b k).
Proof. unfold nib. by rewrite Z.shiftr_lor, Z.land_lor_distr_l. Qed.
Lemma nib_lxor a b k : nib (Z.lxor a b) k = Z.lxor (nib a k) (nib b k).
Proof.
  apply Z.bits_inj'. intros n Hn. unfold nib.
  rewrite Z.land_spec, !Z.lxor_spec, !Z.land_spec, Z.shiftr_lxor, Z.lxor_spec. by destruct (Z.testbit 15 n); rewrite ?andb_true_r, ?andb_false_r.
Qed.
Lemma nib_shiftr a j k : 0 <= j -> 0 <= k -> nib (Z.shiftr a (4 * j)) k = nib a (k + j).
Proof. intros Hj Hk. apply nib_ext; [lia|lia|]. intros n Hn. rewrite Z.shiftr_spec by lia. f_equal. lia. Qed.
Lemma nib_shiftl a j k : 0 <= j -> 0 <= k -> nib (Z.shiftl a (4 * j)) k = if k <? j then 0 else nib a (k - j).
Proof.
  intros Hj Hk. destruct (Z.ltb_spec k j).
  - apply nib_zero; [lia|]. intros n Hn. by rewrite Z.shiftl_spec_low by lia.
  - apply nib_ext; [lia|lia|]. intros n Hn. rewrite Z.shiftl_spec by lia. f_equal. lia.
Qed.
Lemma nib_land a b k : nib (Z.land a b) k = Z.land (nib a k) (nib b k).
Proof.
  apply Z.bits_inj'. intros n Hn. unfold nib.
  rewrite !Z.land_spec, Z.shiftr_land, Z.land_spec. by destruct (Z.testbit 15 n); rewrite ?andb_true_r, ?andb_false_r.
Qed.
Lemma land_nib_15 x k : Z.land (nib x k) 15 = nib x k.
Proof. unfold nib. by rewrite <- Z.land_assoc. Qed.
Lemma nib_ones j k : 0 <= j -> 0 <= k -> nib (Z.ones (4 * j)) k = if k <? j then 15 else 0.
Proof.
  intros Hj Hk. destruct (Z.ltb_spec k j).
  - change 15 with (nib 15 0). apply nib_ext; [lia|lia|]. intros n Hn. change 15 with (Z.ones 4).
    rewrite !Z.testbit_ones by lia. bool_cases; lia || done.
  - apply nib_zero; [lia|]. intros n Hn. rewrite Z.testbit_ones by lia. bool_cases; lia || done.
Qed.
Lemma nib_small v k : 0 <= v < 16 -> nib v k = if k =? 0 then v else 0.
Proof.
  intros Hv. destruct (Z.eqb_spec k 0) as [->|Hne]; [rewrite nib_mod; apply Z.mod_small; lia|].
  destruct (Z.lt_ge_cases k 0).
  - unfold nib. rewrite <- (Z.opp_involutive (4 * k)), Z.shiftr_opp_r, Z.shiftl_mul_pow2 by lia.
    change 15 with (Z.ones 4). rewrite Z.land_ones by lia. replace (- (4 * k)) with (4 * (- k - 1) + 4) by lia.
    rewrite Z.pow_add_r, Z.mul_assoc by lia. by apply Z_mod_mult.
  - apply nib_zero; [lia|]. intros m Hm. apply Z.bits_above_log2; [lia|].
    apply Z.le_lt_trans with 3; [|lia]. change 3 with (Z.log2 15). apply Z.log2_le_mono. lia.
Qed.

(** Carries and borrows that stay inside the lowest nibble. *)
Lemma nib_low_change x d k : 0 <= nib x 0 + d < 16 -> 0 <= k -> nib (x + d) k = if k =? 0 then nib x 0 + d else nib x k.
Proof.
  intros Hd Hk. rewrite nib_mod in *.
  assert (Hq : (x + d) / 16 = x / 16 /\ (x + d) mod 16 = x mod 16 + d).
  { pose proof (Z.div_mod x 16). split; symmetry; [apply Z.div_unique_pos with (x mod 16 + d)|apply Z.mod_unique_pos with (x / 16)]; lia. }
  destruct (Z.eqb_spec k 0) as [->|]; [rewrite !nib_mod; apply Hq|].
  unfold nib. f_equal. rewrite !Z.shiftr_div_pow2 by lia.
  replace (2 ^ (4 * k)) with (16 * 2 ^ (4 * (k - 1))).
  - rewrite <- !Z.div_div by lia. by rewrite (proj1 Hq).
  - change 16 with (2 ^ 4). rewrite <- Z.pow_add_r by lia. f_equal. lia.
Qed.

#[local] Lemma ones_wrap w m : 0 <= m <= w -> wrap w (wrap w (2 ^ m) - 1) = Z.ones m.
Proof.
  intros Hm. rewrite Z.ones_equiv. unfold wrap. rewrite Zminus_mod_idemp_l.
  pose proof (Z.pow_le_mono_r 2 m w). pose proof (Z.pow_pos_nonneg 2 m). rewrite <- Z.sub_1_r. apply Z.mod_small. lia.
Qed.

Lemma times4 i : Z.shiftl i 2 = 4 * i.
Proof. rewrite Z.shiftl_mul_pow2 by lia. change (2 ^ 2) with 4. lia. Qed.

(** Words of a whole number of nibbles. *)
Section Words.
Context (width : Z) (Hwidth : 1 <= width <= 15).

Definition nibbles : Z := value_bits (info width) / 4.
Lemma info_cases :
  (width <= 3 /\ info width = mkInfo 2 32 0x0120 0x2100)
  \/ (3 < width <= 7 /\ info width = mkInfo 4 32 0x01234560 0x65432100)
  \/ (7 < width /\ info width = mkInfo 8 64 0x0123456789ABCDE0 0xEDCBA98765432100).
Proof.
  unfold info. destruct (Z.ltb_spec 3 width), (Z.ltb_spec 7 width), (Z.ltb_spec 15 width); try lia; simpl; auto.
Qed.
Lemma word_bits : value_bits (info width) = 4 * nibbles /\ width < nibbles <= 16.
Proof.
  unfold nibbles. destruct info_cases as [[? ->]|[[? ->]|[? ->]]]; cbn [value_bits];
    (change (32 / 4) with 8 || change (64 / 4) with 16); lia.
Qed.

Lemma nib_val a k : 0 <= k -> nib (val width a) k = if k <? nibbles then nib a k else 0.
Proof.
  intros Hk. destruct word_bits as [Hb Hn]. unfold val, wrap. rewrite Hb, <- Z.land_ones by lia.
  rewrite nib_land, nib_ones by lia. case_match; [apply land_nib_15|apply Z.land_0_r].
Qed.
Lemma nib_vshl a j k : 0 <= j -> 0 <= k ->
  nib (vshl width a (4 * j)) k = if (j <=? k) && (k <? nibbles) then nib a (k - j) else 0.
Proof.
  intros Hj Hk. unfold vshl. rewrite nib_val, nib_shiftl by lia.
  destruct (Z.ltb_spec k nibbles), (Z.ltb_spec k j), (Z.leb_spec j k); done || lia.
Qed.
Lemma nib_vnot a k : 0 <= k -> nib (vnot width a) k = if k <? nibbles then Z.lxor (nib a k) 15 else 0.
Proof.
  intros Hk. unfold vnot. rewrite nib_val by lia. case_match; [|done]. apply Z.bits_inj'. intros n Hn.
  rewrite Z.lxor_spec, !nib_bits, Z.lnot_spec by lia. change 15 with (Z.ones 4). rewrite Z.testbit_ones by lia.
  destruct (0 <=? n), (n <? 4), (Z.testbit a (4 * k + n)); done.
Qed.

(** The masks of the code. *)
Lemma mask16 i : 0 <= i < nibbles -> val width (vshl width 16 (Z.shiftl i 2) - 1) = Z.ones (4 * (i + 1)).
Proof.
  intros Hi. destruct word_bits as [Hb Hn]. unfold vshl, val. rewrite times4, Z.shiftl_mul_pow2 by lia. change 16 with (2 ^ 4).
  rewrite <- Z.pow_add_r by lia. rewrite Hb, ones_wrap by lia. f_equal. lia.
Qed.
Lemma mask256 i : 0 <= i < nibbles - 1 -> val width (vshl width 256 (Z.shiftl i 2) - 1) = Z.ones (4 * (i + 2)).
Proof.
  intros Hi. destruct word_bits as [Hb Hn]. unfold vshl, val. rewrite times4, Z.shiftl_mul_pow2 by lia. change 256 with (2 ^ 8).
  rewrite <- Z.pow_add_r by lia. rewrite Hb, ones_wrap by lia. f_equal. lia.
Qed.
Lemma val_minus_1 : val width (0 - 1) = Z.ones (4 * nibbles).
Proof.
  destruct word_bits as [Hb Hn]. unfold val, wrap. rewrite Hb, Z.ones_equiv, <- Z.sub_1_r.
  pose proof (Z.pow_pos_nonneg 2 (4 * nibbles)). symmetry. apply Z.mod_unique_pos with (-1); lia.
Qed.
End Words.

(** ** What the operations mean for the list of slots *)

(** The slot at position [s] moves to position [d], the ones between make room. *)
Definition move_down {A} (d s : nat) (l : list A) : list A :=
  take d l ++ take 1 (drop s l) ++ drop d (take s l) ++ drop (S s) l.
Definition move_up {A} (s d : nat) (l : list A) : list A :=
  take s l ++ drop (S s) (take (S d) l) ++ take 1 (drop s l) ++ drop (S d) l.
Definition rotated {A} (i j : nat) (l : list A) : list A :=
  take i l ++ drop j l ++ drop i (take j l).
Definition swapped {A} (i j : nat) (l : list A) : list A :=
  imap (fun k v => if decide (k = i) then default v (l !! j) else if decide (k = j) then default v (l !! i) else v) l.
Definition renamed (a b : Z) (l : list Z) : list Z :=
  (fun v => if v =? a then b else if v =? b then a else v) <$> l.

Inductive permuter_op : Type :=
  | InsertFromBack (i : Z) | InsertSelected (di si : Z) | Remove (i : Z) | RemoveToBack (i : Z)
  | Rotate (i j : Z) | Exchange (i j : Z) | ExchangeValues (a b : Z) | SetSize (n : Z).

Section Spec.
Context (width : Z).

Definition elements (x : Z) : list Z := element x <$> seqZ 0 width.

Definition apply_op (op : permuter_op) (x : Z) : Z :=
  match op with
  | InsertFromBack i => (insert_from_back width i x).1
  | InsertSelected di si => insert_selected width di si x
  | Remove i => remove width i x
  | RemoveToBack i => remove_to_back width i x
  | Rotate i j => rotate width i j x
  | Exchange i j => exchange width i j x
  | ExchangeValues a b => exchange_values width a b x
  | SetSize n => set_size width n x
  end.
Definition spec_op (op : permuter_op) (s : Z * list Z) : Z * list Z :=
  let '(n, l) := s in
  match op with
  | InsertFromBack i => (n + 1, move_down (Z.to_nat i) (Z.to_nat (width - 1)) l)
  | InsertSelected di si => (n + 1, move_down (Z.to_nat di) (Z.to_nat si) l)
  | Remove i => (n - 1, move_up (Z.to_nat i) (Z.to_nat (n - 1)) l)
  | RemoveToBack i => (n - 1, move_up (Z.to_nat i) (Z.to_nat (width - 1)) l)
  | Rotate i j => (n, rotated (Z.to_nat i) (Z.to_nat j) l)
  | Exchange i j => (n, swapped (Z.to_nat i) (Z.to_nat j) l)
  | ExchangeValues a b => (n, renamed a b l)
  | SetSize m => (m, l)
  end.
(** The preconditions of the comments in the code, with two differences: [insert_selected]
    also needs [di <= si], without which its masks overlap, and [rotate], which acts on all
    slots, needs [j <= width] only. *)
Definition op_pre (op : permuter_op) (n : Z) : bool :=
  match op with
  | InsertFromBack i => (0 <=? i) && (i <? width) && (n <? width)
  | InsertSelected di si => (0 <=? di) && (di <=? si) && (n <=? si) && (si <? width)
  | Remove i | RemoveToBack i => (0 <=? i) && (i <? n)
  | Rotate i j => (0 <=? i) && (i <=? j) && (j <=? width)
  | Exchange i j => (0 <=? i) && (i <? width) && (0 <=? j) && (j <? width)
  | ExchangeValues a b => (0 <=? a) && (a <? width) && (0 <=? b) && (b <? width)
  | SetSize m => (0 <=? m) && (m <=? width)
  end.

(** A word of [value_type] whose slots are a permutation. *)
Definition permuter_ok (x : Z) : Prop :=
  val width x = x /\ psize x <= width /\ elements x ≡ₚ seqZ 0 width.
End Spec.

Section SlotLists.
Context {A : Type}.
Implicit Types l : list A.

Lemma lookup_take_1_drop s l k : take 1 (drop s l) !! k = if decide (k = 0%nat) then l !! s else None.
Proof.
  destruct (decide (k = 0%nat)) as [->|]; [|apply lookup_ge_None_2; rewrite length_take; lia].
  rewrite lookup_take_lt by lia. rewrite lookup_drop. f_equal. lia.
Qed.
Lemma move_down_lookup d s l k : (d <= s < length l)%nat ->
  move_down d s l !! k = if decide (k < d)%nat then l !! k else if decide (k = d) then l !! s
                         else if decide (k <= s)%nat then l !! (k - 1)%nat else l !! k.
Proof.
  intros Hd. unfold move_down.
  assert (H1 : length (take 1 (drop s l)) = 1%nat) by (rewrite length_take, length_drop; lia).
  case_decide; [rewrite lookup_app_l by (rewrite length_take; lia); by apply lookup_take_lt|].
  rewrite lookup_app_r, length_take by (rewrite length_take; lia). rewrite (Nat.min_l d) by lia.
  case_decide; [rewrite lookup_app_l by lia; rewrite lookup_take_1_drop, decide_True by lia; done|].
  rewrite lookup_app_r, H1 by lia. case_decide.
  - rewrite lookup_app_l by (rewrite length_drop, length_take; lia). rewrite lookup_drop, lookup_take_lt by lia. f_equal. lia.
  - rewrite lookup_app_r, length_drop, length_take by (rewrite length_drop, length_take; lia). rewrite lookup_drop. f_equal. lia.
Qed.
Lemma move_up_lookup s d l k : (s <= d < length l)%nat ->
  move_up s d l !! k = if decide (k < s)%nat then l !! k else if decide (k < d)%nat then l !! S k
                       else if decide (k = d) then l !! s else l !! k.
Proof.
  intros Hd. unfold move_up.
  assert (H1 : length (take 1 (drop s l)) = 1%nat) by (rewrite length_take, length_drop; lia).
  case_decide; [rewrite lookup_app_l by (rewrite length_take; lia); by apply lookup_take_lt|].
  rewrite lookup_app_r, length_take by (rewrite length_take; lia). rewrite (Nat.min_l s) by lia. case_decide.
  - rewrite lookup_app_l by (rewrite length_drop, length_take; lia). rewrite lookup_drop, lookup_take_lt by lia. f_equal. lia.
  - rewrite lookup_app_r, length_drop, length_take by (rewrite length_drop, length_take; lia). case_decide.
    + rewrite lookup_app_l by lia. rewrite lookup_take_1_drop, decide_True by lia. done.
    + rewrite lookup_app_r, H1 by lia. rewrite lookup_drop. f_equal. lia.
Qed.
Lemma rotated_lookup i j l k : (i <= j <= length l)%nat -> (k < length l)%nat ->
  rotated i j l !! k = if decide (k < i)%nat then l !! k
                       else if decide (k + (j - i) < length l)%nat then l !! (k + (j - i))%nat
                       else l !! (k + j - length l)%nat.
Proof.
  intros Hj Hk. unfold rotated.
  case_decide; [rewrite lookup_app_l by (rewrite length_take; lia); by apply lookup_take_lt|].
  rewrite lookup_app_r, length_take by (rewrite length_take; lia). rewrite (Nat.min_l i) by lia. case_decide.
  - rewrite lookup_app_l by (rewrite length_drop; lia). rewrite lookup_drop. f_equal. lia.
  - rewrite lookup_app_r, length_drop by (rewrite length_drop; lia). rewrite lookup_drop, lookup_take_lt by lia. f_equal. lia.
Qed.

Lemma split_at_slot s l : (s < length l)%nat -> l = take s l ++ take 1 (drop s l) ++ drop (S s) l.
Proof.
  intros Hs. rewrite <- (take_drop s l) at 1. f_equal. rewrite <- (take_drop 1 (drop s l)) at 1. f_equal.
  rewrite drop_drop. f_equal. lia.
Qed.
Lemma move_down_perm d s l : (d <= s < length l)%nat -> move_down d s l ≡ₚ l.
Proof.
  intros Hd. rewrite (split_at_slot s l) at 2 by lia. unfold move_down. rewrite <- (take_drop d (take s l)) at 2.
  rewrite take_take, Nat.min_l by lia. rewrite <- (app_assoc (take d l)). f_equiv.
  rewrite !app_assoc. f_equiv. apply Permutation_app_comm.
Qed.
Lemma move_up_perm s d l : (s <= d < length l)%nat -> move_up s d l ≡ₚ l.
Proof.
  intros Hd. rewrite (split_at_slot s l) at 2 by lia. unfold move_up. f_equiv.
  rewrite <- (take_drop (d - s) (drop (S s) l)) at 1. rewrite drop_drop.
  replace (S s + (d - s))%nat with (S d) by lia. rewrite (take_drop_commute l (d - s) (S s)).
  replace (S s + (d - s))%nat with (S d) by lia. rewrite !app_assoc. f_equiv. apply Permutation_app_comm.
Qed.
Lemma rotated_perm i j l : (i <= j)%nat -> rotated i j l ≡ₚ l.
Proof.
  intros Hj. rewrite <- (take_drop j l) at 2. rewrite <- (take_drop i (take j l)) at 1. unfold rotated.
  rewrite take_take, Nat.min_l by lia. rewrite <- app_assoc. f_equiv. apply Permutation_app_comm.
Qed.
End SlotLists.

(** ** The words do what the lists do *)
Section Refinement.
Context (width : Z) (Hwidth : 1 <= width <= 15).
#[local] Abbreviation nibs := (nibbles width).

Lemma element_nib x i : 0 <= i -> element x i = nib x (i + 1).
Proof. intros Hi. unfold element, nib. rewrite times4. do 2 f_equal. lia. Qed.
Lemma psize_nib x : psize x = nib x 0.
Proof. unfold psize, nib. by rewrite Z.shiftr_0_r. Qed.

(** The shift amounts of the code. *)
Lemma nib_vshl_slots a j k : 0 <= j -> 0 <= k ->
  nib (vshl width a (Z.shiftl j 2)) k = if (j <=? k) && (k <? nibs) then nib a (k - j) else 0.
Proof. rewrite times4. by apply nib_vshl. Qed.
Lemma nib_vshl_slot a j k : 0 <= j -> 0 <= k ->
  nib (vshl width a (Z.shiftl j 2 + 4)) k = if (j + 1 <=? k) && (k <? nibs) then nib a (k - (j + 1)) else 0.
Proof. intros. rewrite times4. replace (4 * j + 4) with (4 * (j + 1)) by lia. apply nib_vshl; lia. Qed.
Lemma nib_vshl_one a k : 0 <= k -> nib (vshl width a 4) k = if (1 <=? k) && (k <? nibs) then nib a (k - 1) else 0.
Proof. intros. change 4 with (4 * 1). apply nib_vshl; lia. Qed.
Lemma nib_shiftr_slots a j k : 0 <= j -> 0 <= k -> nib (Z.shiftr a (Z.shiftl j 2)) k = nib a (k + j).
Proof. rewrite times4. apply nib_shiftr. Qed.
Lemma nib_shiftr_one a k : 0 <= k -> nib (Z.shiftr a 4) k = nib a (k + 1).
Proof. intros. change 4 with (4 * 1). apply nib_shiftr; lia. Qed.
End Refinement.

(** Pushes [nib] to the words an operation starts from; the masks have been rewritten to
    [Z.ones] before. *)
Ltac nib_push :=
  repeat first
    [ rewrite nib_lor | rewrite nib_land | rewrite nib_lxor
    | rewrite nib_vnot by lia | rewrite nib_vshl_slots by lia | rewrite nib_vshl_slot by lia | rewrite nib_vshl_one by lia
    | rewrite nib_shiftr_slots by lia | rewrite nib_shiftr_one by lia | rewrite nib_ones by lia | rewrite nib_val by lia ].
(** Decides the positions of the masks. *)
Ltac nib_cases :=
  repeat match goal with
  | |- context [(?a <=? ?b)%Z] => destruct (Z.leb_spec a b); try lia
  | |- context [(?a <? ?b)%Z] => destruct (Z.ltb_spec a b); try lia
  | |- context [(?a =? ?b)%Z] => destruct (Z.eqb_spec a b); try lia
  end; cbn [andb];
  change (Z.lxor 15 15) with 0; change (Z.lxor 0 15) with 15; change (Z.lxor 15 0) with 15;
  rewrite ?Z.land_0_r, ?Z.land_0_l, ?land_nib_15, ?(Z.land_comm 15), ?land_nib_15, ?Z.lor_0_r, ?Z.lor_0_l.
Lemma land_15 v : 0 <= v < 16 -> Z.land v 15 = v.
Proof. intros. change 15 with (Z.ones 4). rewrite Z.land_ones by lia. by apply Z.mod_small. Qed.

Ltac nib_solve :=
  do 3 (nib_push; nib_cases); subst; rewrite ?(Z.land_comm 15);
  first [done | (f_equal; lia) | (rewrite land_15; lia) | (rewrite !land_15; lia)].

Section Operations.
Context (width : Z) (Hwidth : 1 <= width <= 15).
#[local] Abbreviation nibs := (nibbles width).

Lemma nib_insert_selected di si x k : 0 <= di <= si -> si < width -> psize x < 15 -> 0 <= k <= width ->
  nib (insert_selected width di si x) k
  = if k =? 0 then nib x 0 + 1 else if k <? di + 1 then nib x k else if k =? di + 1 then nib x (si + 1)
    else if k <=? si + 1 then nib x (k - 1) else nib x k.
Proof.
  intros Hd Hs Hn Hk. rewrite psize_nib in Hn. destruct (word_bits width Hwidth) as [_ Hw].
  pose proof (nib_bound x 0). pose proof (nib_bound x (si + 1)). unfold insert_selected.
  rewrite !mask256, mask16 by lia. nib_push. rewrite nib_low_change by lia. rewrite element_nib by lia.
  rewrite (nib_small (nib x (si + 1))) by lia. nib_solve.
Qed.
Lemma nib_insert_from_back i x k : 0 <= i < width -> psize x < 15 -> 0 <= k <= width ->
  nib (insert_from_back width i x).1 k
  = if k =? 0 then nib x 0 + 1 else if k <? i + 1 then nib x k else if k =? i + 1 then nib x width else nib x (k - 1).
Proof.
  intros Hi Hn Hk. rewrite psize_nib in Hn. destruct (word_bits width Hwidth) as [_ Hw].
  pose proof (nib_bound x 0). pose proof (nib_bound x width). unfold insert_from_back, back. cbn [fst].
  rewrite mask256, mask16 by lia. nib_push. rewrite nib_low_change by lia. rewrite element_nib by lia.
  replace (width - 1 + 1) with width by lia.
  rewrite (nib_small (nib x width)) by lia. nib_solve.
Qed.
Lemma nib_remove i x k : 0 <= i < psize x -> psize x <= width -> 0 <= k <= width ->
  nib (remove width i x) k
  = if k =? 0 then nib x 0 - 1 else if k <? i + 1 then nib x k else if k <? nib x 0 then nib x (k + 1)
    else if k =? nib x 0 then nib x (i + 1) else nib x k.
Proof.
  intros Hi Hn Hk. unfold remove. rewrite psize_nib in *. destruct (word_bits width Hwidth) as [_ Hw].
  pose proof (nib_bound x 0). destruct (Z.eqb_spec (nib x 0) (i + 1)) as [He|He].
  - rewrite nib_val by lia. change (x - 1) with (x + -1). rewrite nib_low_change by lia. nib_solve.
  - rewrite mask16 by lia. nib_push. change (x - 1) with (x + -1). rewrite nib_low_change by lia.
    nib_solve.
Qed.
Lemma nib_remove_to_back i x k : 0 <= i < psize x -> psize x <= width -> 0 <= k <= width ->
  nib (remove_to_back width i x) k
  = if k =? 0 then nib x 0 - 1 else if k <? i + 1 then nib x k else if k <? width then nib x (k + 1) else nib x (i + 1).
Proof.
  intros Hi Hn Hk. unfold remove_to_back. rewrite psize_nib in *. destruct (word_bits width Hwidth) as [_ Hw].
  pose proof (nib_bound x 0). rewrite !mask16 by lia.
  assert (Hx0 : nib (Z.land x (Z.ones (4 * (width + 1)))) 0 = nib x 0) by nib_solve.
  change (Z.land x (Z.ones (4 * (width + 1))) - 1) with (Z.land x (Z.ones (4 * (width + 1))) + -1).
  nib_push. rewrite nib_low_change by (rewrite ?Hx0; lia). rewrite Hx0. nib_solve.
Qed.
Lemma nib_rotate i j x k : 0 <= i <= j -> j <= width -> 0 <= k <= width ->
  nib (rotate width i j x) k
  = if k <? i + 1 then nib x k else if k + (j - i) <=? width then nib x (k + (j - i)) else nib x (k + j - width).
Proof.
  intros Hi Hj Hk. unfold rotate. destruct (word_bits width Hwidth) as [_ Hw]. rewrite (mask16 width Hwidth width) by lia.
  assert (Hmask : exists m, i + 1 <= m /\ (i < width -> m = i + 1) /\ m <= nibs
            /\ val width ((if i =? width then 0 else vshl width 16 (Z.shiftl i 2)) - 1) = Z.ones (4 * m)).
  { destruct (Z.eqb_spec i width).
    - exists nibs. rewrite val_minus_1 by done. split_and!; lia || done.
    - exists (i + 1). rewrite mask16 by lia. split_and!; lia || done. }
  destruct Hmask as (m & Hm1 & Hm2 & Hm3 & ->). nib_solve.
Qed.
Lemma nib_240 k : 0 <= k -> nib 240 k = if k =? 1 then 15 else 0.
Proof. intros Hk. change 240 with (Z.shiftl 15 (4 * 1)). rewrite nib_shiftl, nib_small by lia. nib_cases; done. Qed.
Lemma lxor_nib_bound a b i j : 0 <= i -> 0 <= j -> Z.land (Z.lxor (nib a i) (nib b j)) 15 = Z.lxor (nib a i) (nib b j).
Proof.
  intros Hi Hj. change 15 with (Z.ones 4). apply Z.bits_inj'. intros n Hn.
  rewrite Z.land_spec, Z.lxor_spec, !nib_bits, Z.testbit_ones by lia. by destruct (0 <=? n), (n <? 4); rewrite ?andb_true_r.
Qed.
Lemma lxor_swap a b : Z.lxor a (Z.lxor a b) = b.
Proof. by rewrite <- Z.lxor_assoc, Z.lxor_nilpotent. Qed.
Lemma nib_exchange i j x k : 0 <= i < width -> 0 <= j < width -> 0 <= k <= width ->
  nib (exchange width i j x) k = if k =? i + 1 then nib x (j + 1) else if k =? j + 1 then nib x (i + 1) else nib x k.
Proof.
  intros Hi Hj Hk. unfold exchange. destruct (word_bits width Hwidth) as [_ Hw].
  set (d := Z.land (Z.lxor (Z.shiftr x (Z.shiftl i 2)) (Z.shiftr x (Z.shiftl j 2))) 240).
  assert (Hd : forall k, 0 <= k -> nib d k = if k =? 1 then Z.lxor (nib x (i + 1)) (nib x (j + 1)) else 0).
  { clear k Hk. intros k Hk. unfold d. nib_push. rewrite nib_240 by lia. nib_cases; [|done]. subst.
    rewrite (Z.add_comm 1 i), (Z.add_comm 1 j). apply lxor_nib_bound; lia. }
  nib_push. nib_cases; subst; rewrite ?Hd by lia; nib_cases; subst; rewrite ?Z.lor_0_r, ?Z.lor_0_l, ?Z.lor_diag, ?Z.lxor_0_r;
    first [done | apply lxor_swap | rewrite (Z.lxor_comm (nib x (i + 1))); apply lxor_swap].
Qed.

Definition rename_diff (a b v : Z) : Z := if (v =? a) || (v =? b) then Z.lxor a b else 0.
Lemma rename_diff_bound a b v : 0 <= a < 16 -> 0 <= b < 16 -> 0 <= rename_diff a b v < 16.
Proof.
  intros Ha Hb. unfold rename_diff. case_match; [|lia]. pose proof (lxor_nib_bound a b 0 0 ltac:(lia) ltac:(lia)) as Hx.
  rewrite !nib_small in Hx by lia. simpl in Hx. rewrite <- Hx. change 15 with (Z.ones 4). rewrite Z.land_ones by lia.
  apply Z.mod_pos_bound. lia.
Qed.
(** After [n] rounds the difference of slot [k] has moved to nibble [k]. *)
Lemma nib_exchange_loop a b n : 0 <= a < 16 -> 0 <= b < 16 -> Z.of_nat n <= width -> forall diff p k, 0 <= k <= width ->
  nib (exchange_values_loop width n a b diff p) k
  = Z.lxor (if Z.of_nat n <=? k then nib diff (k - Z.of_nat n) else 0)
           (if (1 <=? k) && (k <=? Z.of_nat n) then rename_diff a b (nib p (width - Z.of_nat n + k)) else 0).
Proof.
  intros Ha Hb. destruct (word_bits width Hwidth) as [_ Hw]. induction n as [|n IH]; intros Hn diff p k Hk.
  - cbn [exchange_values_loop]. rewrite Z.sub_0_r. nib_cases; by rewrite Z.lxor_0_r.
  - cbn [exchange_values_loop]. fold (rename_diff a b (Z.land (Z.shiftr p (Z.shiftl width 2)) 15)).
    rewrite times4. fold (nib p width). pose proof (rename_diff_bound a b (nib p width) Ha Hb) as Hd. rewrite IH by lia.
    rewrite Nat2Z.inj_succ. destruct (Z.leb_spec (Z.of_nat n) k).
    + rewrite nib_vshl_one, nib_lxor, (nib_small (rename_diff _ _ _)) by lia.
      nib_cases; rewrite ?Z.lxor_0_r, ?Z.lxor_0_l; try done.
      * replace (k - Z.of_nat n - 1) with (k - Z.succ (Z.of_nat n)) by lia. do 3 f_equal. lia.
      * f_equal. lia.
      * f_equal. rewrite nib_vshl_one by lia. nib_cases. f_equal. lia.
    + nib_cases; rewrite ?Z.lxor_0_r, ?Z.lxor_0_l; try done.
      f_equal. rewrite nib_vshl_one by lia. nib_cases. f_equal. lia.
Qed.
Lemma nib_exchange_values a b x k : 0 <= a < 16 -> 0 <= b < 16 -> 0 <= k <= width ->
  nib (exchange_values width a b x) k
  = if k =? 0 then nib x 0 else if nib x k =? a then b else if nib x k =? b then a else nib x k.
Proof.
  intros Ha Hb Hk. unfold exchange_values. rewrite nib_lxor, nib_exchange_loop by lia.
  rewrite Z2Nat.id by lia. replace (width - width + k) with k by lia. rewrite (nib_small 0) by lia.
  unfold rename_diff. nib_cases; cbn [orb]; subst; rewrite ?Z.lxor_0_r, ?Z.lxor_0_l; try done.
  all: first [apply lxor_swap | rewrite (Z.lxor_comm a); apply lxor_swap].
Qed.
Lemma nib_set_size n x k : 0 <= n < 16 -> 0 <= k <= width -> nib (set_size width n x) k = if k =? 0 then n else nib x k.
Proof.
  intros Hn Hk. unfold set_size. destruct (word_bits width Hwidth) as [_ Hw]. change 15 with (Z.ones (4 * 1)).
  rewrite nib_lor, (nib_small n) by lia. nib_solve.
Qed.
End Operations.

(** Words stay inside [value_type]. *)
Section InWord.
Context (width : Z) (Hwidth : 1 <= width <= 15).
#[local] Abbreviation word x := (val width x%Z = x%Z).

Lemma word_land_ones x : val width x = Z.land x (Z.ones (4 * nibbles width)).
Proof. destruct (word_bits width Hwidth) as [Hb ?]. unfold val, wrap. rewrite Hb, Z.land_ones by lia. done. Qed.
Lemma word_val x : word (val width x).
Proof. rewrite !word_land_ones, <- Z.land_assoc. by rewrite Z.land_diag. Qed.
Lemma word_lor a b : word a -> word b -> word (Z.lor a b).
Proof. rewrite !word_land_ones, Z.land_lor_distr_l. by intros -> ->. Qed.
Lemma word_lxor a b : word a -> word b -> word (Z.lxor a b).
Proof.
  rewrite !word_land_ones. intros Ha Hb. apply Z.bits_inj'. intros n Hn. rewrite Z.land_spec, Z.lxor_spec.
  rewrite <- Ha, <- Hb, !Z.land_spec. by destruct (Z.testbit (Z.ones _) n); rewrite ?andb_true_r, ?andb_false_r.
Qed.
Lemma word_land_l a b : word a -> word (Z.land a b).
Proof. rewrite !word_land_ones. intros Ha. rewrite (Z.land_comm a b), <- Z.land_assoc. by rewrite Ha. Qed.
Lemma word_land_r a b : word b -> word (Z.land a b).
Proof. rewrite Z.land_comm. apply word_land_l. Qed.
Lemma word_small n : 0 <= n < 16 -> word n.
Proof.
  intros Hn. destruct (word_bits width Hwidth) as [Hb ?]. apply wrap_small. rewrite Hb.
  pose proof (Z.pow_le_mono_r 2 4 (4 * nibbles width)). lia.
Qed.
Lemma word_nonneg x : word x -> 0 <= x.
Proof. destruct (word_bits width Hwidth) as [Hb ?]. intros <-. unfold val. apply wrap_bound. lia. Qed.

Lemma exchange_loop_word n a b : 0 <= a < 16 -> 0 <= b < 16 -> forall diff p, word diff ->
  word (exchange_values_loop width n a b diff p).
Proof.
  intros Ha Hb. induction n as [|n IH]; intros diff p Hd; [done|]. cbn [exchange_values_loop]. apply IH, word_val.
Qed.
Lemma apply_op_word op x : word x -> psize x <= width -> op_pre width op (psize x) = true -> word (apply_op width op x).
Proof.
  intros Hx Hn Hp. destruct op; cbn [apply_op]; unfold op_pre in Hp; rewrite ?andb_true_iff, ?Z.leb_le, ?Z.ltb_lt in Hp.
  - unfold insert_from_back. cbn [fst]. repeat apply word_lor; try apply word_val; apply word_land_l, word_val.
  - unfold insert_selected. repeat apply word_lor; try apply word_val; try (by apply word_land_l); repeat apply word_land_l; apply word_val.
  - unfold remove. case_match; [apply word_val|]. repeat apply word_lor; first [apply word_land_l, word_val|apply word_land_r, word_val].
  - unfold remove_to_back. repeat apply word_lor; try apply word_val; first [apply word_land_l, word_val|apply word_land_r, word_val].
  - unfold rotate. repeat apply word_lor; try apply word_val; first [apply word_land_r, word_val].
  - unfold exchange. apply word_lxor; [done|]. apply word_lor; apply word_val.
  - apply word_lxor; [done|]. apply exchange_loop_word; [lia|lia|]. apply word_small. lia.
  - unfold set_size. apply word_lor; [by apply word_land_l|apply word_small; lia].
Qed.
End InWord.

Section ListRefinement.
Context (width : Z) (Hwidth : 1 <= width <= 15).
#[local] Abbreviation elems := (elements width).

Lemma elements_length x : length (elems x) = Z.to_nat width.
Proof. unfold elements. by rewrite length_fmap, length_seqZ. Qed.
Lemma elements_lookup x k : (k < Z.to_nat width)%nat -> elems x !! k = Some (nib x (Z.of_nat k + 1)).
Proof.
  intros Hk. unfold elements. rewrite list_lookup_fmap. rewrite (proj2 (lookup_seqZ 0 width k (Z.of_nat k))) by lia.
  simpl. by rewrite element_nib by lia.
Qed.
Lemma elements_are y l : length l = Z.to_nat width ->
  (forall k : nat, (k < Z.to_nat width)%nat -> l !! k = Some (nib y (Z.of_nat k + 1))) -> elems y = l.
Proof.
  intros Hl H. apply list_eq. intros k. destruct (decide (k < Z.to_nat width)%nat).
  - by rewrite elements_lookup, H by lia.
  - rewrite !lookup_ge_None_2; [done|lia|rewrite elements_length; lia].
Qed.
Lemma swapped_lookup {A} i j (l : list A) k : (i < length l)%nat -> (j < length l)%nat ->
  swapped i j l !! k = if decide (k = i) then l !! j else if decide (k = j) then l !! i else l !! k.
Proof.
  intros Hi Hj. unfold swapped. rewrite list_lookup_imap.
  destruct (lookup_lt_is_Some_2 l i Hi) as [vi Hvi], (lookup_lt_is_Some_2 l j Hj) as [vj Hvj].
  repeat case_decide; subst; rewrite ?Hvi, ?Hvj; simpl; try done.
  destruct (l !! k); simpl; [|done]. repeat case_decide; done.
Qed.

Lemma move_down_elements y di si x : 0 <= di <= si -> si < width ->
  (forall k, 1 <= k <= width -> nib y k = if k <? di + 1 then nib x k else if k =? di + 1 then nib x (si + 1)
                                        else if k <=? si + 1 then nib x (k - 1) else nib x k) ->
  elems y = move_down (Z.to_nat di) (Z.to_nat si) (elems x).
Proof.
  intros Hd Hs Hy. pose proof (elements_length x). apply elements_are; [rewrite move_down_perm; lia|]. intros k Hk.
  rewrite move_down_lookup by lia. rewrite Hy by lia.
  repeat case_decide; rewrite ?elements_lookup by lia; f_equal; nib_cases; f_equal; lia.
Qed.
Lemma move_up_elements y i d x : 0 <= i <= d -> d < width ->
  (forall k, 1 <= k <= width -> nib y k = if k <? i + 1 then nib x k else if k <? d + 1 then nib x (k + 1)
                                        else if k =? d + 1 then nib x (i + 1) else nib x k) ->
  elems y = move_up (Z.to_nat i) (Z.to_nat d) (elems x).
Proof.
  intros Hd Hs Hy. pose proof (elements_length x). apply elements_are; [rewrite move_up_perm; lia|]. intros k Hk.
  rewrite move_up_lookup by lia. rewrite Hy by lia.
  repeat case_decide; rewrite ?elements_lookup by lia; f_equal; nib_cases; f_equal; lia.
Qed.

(** Size and slots of the word an operation leaves. *)
Lemma apply_op_decodes op x : psize x <= width -> op_pre width op (psize x) = true ->
  (psize (apply_op width op x), elems (apply_op width op x)) = spec_op width op (psize x, elems x).
Proof.
  intros Hn Hp. pose proof (elements_length x) as Hl. pose proof (nib_bound x 0) as H0.
  assert (Hsz : 0 <= psize x) by (rewrite psize_nib; lia).
  destruct op; cbn [apply_op spec_op]; unfold op_pre in Hp; rewrite ?andb_true_iff, ?Z.leb_le, ?Z.ltb_lt in Hp; f_equal.
  all: try (rewrite !psize_nib;
    first [rewrite nib_insert_from_back|rewrite nib_insert_selected|rewrite nib_remove|rewrite nib_remove_to_back|rewrite nib_rotate
          |rewrite nib_exchange|rewrite nib_exchange_values|rewrite nib_set_size]; try lia; nib_cases; done).
  - apply move_down_elements; [lia|lia|]. intros k Hk. rewrite nib_insert_from_back by lia. nib_cases; f_equal; lia.
  - apply move_down_elements; [lia|lia|]. intros k Hk. rewrite nib_insert_selected by lia. nib_cases; f_equal; lia.
  - apply move_up_elements; [lia|lia|]. intros k Hk. rewrite nib_remove by lia. rewrite psize_nib. nib_cases; f_equal; lia.
  - apply move_up_elements; [lia|lia|]. intros k Hk. rewrite nib_remove_to_back by lia. nib_cases; f_equal; lia.
  - apply elements_are; [rewrite rotated_perm; lia|]. intros k Hk. rewrite rotated_lookup, nib_rotate by lia.
    repeat case_decide; rewrite ?elements_lookup by lia; f_equal; nib_cases; f_equal; lia.
  - apply elements_are; [unfold swapped; by rewrite length_imap|]. intros k Hk. rewrite swapped_lookup, nib_exchange by lia.
    repeat case_decide; rewrite ?elements_lookup by lia; f_equal; nib_cases; f_equal; lia.
  - apply elements_are; [unfold renamed; by rewrite length_fmap|]. intros k Hk. unfold renamed.
    rewrite list_lookup_fmap, elements_lookup, nib_exchange_values by lia. simpl. f_equal. nib_cases; done.
  - apply elements_are; [done|]. intros k Hk. rewrite elements_lookup, nib_set_size by lia. f_equal. nib_cases; done.
Qed.

(** Exchanging two slots is moving one up and the other down. *)
Lemma swapped_comm {A} i j (l : list A) : swapped i j l = swapped j i l.
Proof. unfold swapped. apply imap_ext. intros k v Hk. simpl. repeat case_decide; by subst. Qed.
Lemma swapped_moves {A} i j (l : list A) : (i < j < length l)%nat -> swapped i j l = move_down i (j - 1) (move_up i j l).
Proof.
  intros Hj. assert (Hlen : length (move_up i j l) = length l) by (apply Permutation_length, move_up_perm; lia).
  apply list_eq. intros k. rewrite swapped_lookup, move_down_lookup, !move_up_lookup by lia.
  repeat case_decide; subst; try lia; try done; f_equal; lia.
Qed.
Lemma swapped_perm {A} i j (l : list A) : (i < length l)%nat -> (j < length l)%nat -> swapped i j l ≡ₚ l.
Proof.
  intros Hi Hj. destruct (Nat.lt_trichotomy i j) as [Hlt|[->|Hgt]].
  - rewrite swapped_moves by lia. assert (Hm : move_up i j l ≡ₚ l) by (apply move_up_perm; lia).
    rewrite move_down_perm, Hm; [done|]. rewrite (Permutation_length Hm). lia.
  - assert (swapped j j l = l) as ->; [|done]. apply list_eq. intros k. rewrite swapped_lookup by lia. repeat case_decide; by subst.
  - rewrite swapped_comm, swapped_moves by lia. assert (Hm : move_up j i l ≡ₚ l) by (apply move_up_perm; lia).
    rewrite move_down_perm, Hm; [done|]. rewrite (Permutation_length Hm). lia.
Qed.
Lemma renamed_perm a b l : 0 <= a < width -> 0 <= b < width -> l ≡ₚ seqZ 0 width -> renamed a b l ≡ₚ seqZ 0 width.
Proof.
  intros Ha Hb Hl. unfold renamed. rewrite Hl. apply NoDup_Permutation; [|apply NoDup_seqZ|].
  - apply NoDup_fmap_2; [|apply NoDup_seqZ]. intros u v. bool_cases; lia.
  - intros v. rewrite list_elem_of_fmap. setoid_rewrite elem_of_seqZ. split; [intros (u & -> & Hu); bool_cases; lia|].
    intros Hv. exists (if v =? a then b else if v =? b then a else v). bool_cases; lia.
Qed.
Lemma spec_op_perm op n l : 0 <= n <= width -> op_pre width op n = true -> l ≡ₚ seqZ 0 width ->
  0 <= (spec_op width op (n, l)).1 <= width /\ (spec_op width op (n, l)).2 ≡ₚ seqZ 0 width.
Proof.
  intros Hn Hp Hl. assert (Hlen : length l = Z.to_nat width) by (rewrite Hl; apply length_seqZ).
  destruct op; unfold op_pre in Hp; rewrite ?andb_true_iff, ?Z.leb_le, ?Z.ltb_lt in Hp; cbn [spec_op fst snd]; (split; [lia|]).
  - rewrite move_down_perm by lia. done.
  - rewrite move_down_perm by lia. done.
  - rewrite move_up_perm by lia. done.
  - rewrite move_up_perm by lia. done.
  - rewrite rotated_perm by lia. done.
  - rewrite swapped_perm by lia. done.
  - apply renamed_perm; [lia|lia|done].
  - done.
Qed.
Lemma apply_op_refines op x : permuter_ok width x -> op_pre width op (psize x) = true ->
  permuter_ok width (apply_op width op x)
  /\ (psize (apply_op width op x), elems (apply_op width op x)) = spec_op width op (psize x, elems x).
Proof.
  intros (Hx & Hn & Hp) Hpre. pose proof (apply_op_decodes op x Hn Hpre) as Hd.
  assert (0 <= psize x) by (rewrite psize_nib; apply nib_bound).
  destruct (spec_op_perm op (psize x) (elems x) ltac:(lia) Hpre Hp) as [Hs Hperm]. rewrite <- Hd in Hs, Hperm.
  simpl in Hs, Hperm. split; [|done]. split; [by apply apply_op_word|]. split; [lia|done].
Qed.

Lemma back_is_free x : permuter_ok width x -> psize x < width -> back width x ∉ take (Z.to_nat (psize x)) (elems x).
Proof.
  intros (_ & _ & Hp) Hn [k Hk]%list_elem_of_lookup. assert (0 <= psize x) by (rewrite psize_nib; apply nib_bound).
  apply lookup_take_Some in Hk as [Hk Hlt].
  assert (Hb : elems x !! Z.to_nat (width - 1) = Some (back width x)).
  { rewrite elements_lookup by lia. unfold back. rewrite element_nib by lia. do 2 f_equal. lia. }
  assert (Hnd : NoDup (elems x)) by (rewrite Hp; apply NoDup_seqZ).
  pose proof (NoDup_lookup _ _ _ _ Hnd Hk Hb). lia.
Qed.

(** The words a leaf starts with, for all widths and sizes. *)
Lemma make_sorted_decodes n : 0 <= n <= width ->
  val width (make_sorted width n) = make_sorted width n /\ psize (make_sorted width n) = n
  /\ elems (make_sorted width n) = seqZ 0 n ++ reverse (seqZ n (width - n)).
Proof.
  intros Hn. set (P w m := bool_decide (val w (make_sorted w m) = make_sorted w m /\ psize (make_sorted w m) = m
    /\ elements w (make_sorted w m) = seqZ 0 m ++ reverse (seqZ m (w - m)))).
  assert (Hall : forallb (fun w => forallb (P w) (seqZ 0 (w + 1))) (seqZ 1 15) = true) by (vm_compute; reflexivity).
  rewrite forallb_forall in Hall. specialize (Hall width).
  assert (Hin : forall v a m, a <= v < a + m -> In v (seqZ a m)) by (intros; apply list_elem_of_In, elem_of_seqZ; lia).
  specialize (Hall (Hin width 1 15 ltac:(lia))). rewrite forallb_forall in Hall.
  specialize (Hall n (Hin n 0 (width + 1) ltac:(lia))). by apply bool_decide_eq_true in Hall.
Qed.
Lemma make_sorted_ok n : 0 <= n <= width -> permuter_ok width (make_sorted width n).
Proof.
  intros Hn. destruct (make_sorted_decodes n Hn) as (Hw & Hs & He). split; [done|]. split; [lia|].
  rewrite He, reverse_Permutation. rewrite <- (Z.add_0_l n) at 2. rewrite <- seqZ_app by lia. by replace (n + (width - n)) with width by lia.
Qed.
Lemma make_empty_sorted : make_empty width = make_sorted width 0.
Proof.
  set (P w := make_empty w =? make_sorted w 0). assert (Hall : forallb P (seqZ 1 15) = true) by (vm_compute; reflexivity).
  rewrite forallb_forall in Hall. apply Z.eqb_eq, (Hall width), list_elem_of_In, elem_of_seqZ. lia.
Qed.
End ListRefinement.

(** ** [unparse] *)
Section Unparse.
Context (width : Z) (Hwidth : 1 <= width <= 15).

Definition digit (d : Z) : Z := if d <? 10 then 48 + d else 97 + d - 10.
(** The slots from position [i] on, with a colon where the used ones end. *)
Definition printed (n i : Z) (l : list Z) : list Z :=
  mjoin (imap (fun k d => (if i + Z.of_nat k =? n then [58] else []) ++ [digit d]) l)
  ++ (if i + Z.of_nat (length l) =? n then [58] else []).
Definition seen_slots (l : list Z) (seen : Z) : Z := fold_left (fun s d => Z.lor s (Z.shiftl 1 d)) l seen.

Lemma printed_cons n i d l : printed n i (d :: l) = (if i =? n then [58] else []) ++ digit d :: printed n (i + 1) l.
Proof.
  unfold printed. rewrite imap_cons. simpl. rewrite Z.add_0_r, <- app_assoc, <- app_assoc. do 2 f_equal. simpl.
  assert (Hs : forall k, i + Z.of_nat (S k) = i + 1 + Z.of_nat k) by lia. f_equal.
  - f_equal. apply imap_ext. intros k v _. simpl. by rewrite Hs.
  - by rewrite Hs.
Qed.
Lemma unparse_loop_S fuel n i p seen :
  unparse_loop width (S fuel) n i p seen
  = if i =? width then (if i =? n then [58] else [], seen)
    else let '(s, seen) := unparse_loop width fuel n (i + 1) (Z.shiftr p 4) (Z.lor seen (Z.shiftl 1 (Z.land p 15))) in
         ((if i =? n then [58] else []) ++ digit (Z.land p 15) :: s, seen).
Proof. done. Qed.
Lemma unparse_loop_prints n x m : forall i seen, 0 <= i -> i + Z.of_nat m = width ->
  unparse_loop width (S m) n i (Z.shiftr x (4 * (i + 1))) seen
  = (printed n i (element x <$> seqZ i (Z.of_nat m)), seen_slots (element x <$> seqZ i (Z.of_nat m)) seen).
Proof.
  induction m as [|m IH]; intros i seen Hi Hm.
  - rewrite unparse_loop_S, (proj2 (Z.eqb_eq i width)) by lia. unfold printed. simpl. by rewrite Z.add_0_r.
  - rewrite unparse_loop_S, (proj2 (Z.eqb_neq i width)) by lia.
    rewrite Z.shiftr_shiftr by lia. replace (4 * (i + 1) + 4) with (4 * (i + 1 + 1)) by lia.
    fold (nib x (i + 1)). rewrite <- (element_nib x i) by lia. rewrite IH by lia.
    rewrite (seqZ_cons i) by lia. replace (Z.pred (Z.of_nat (S m))) with (Z.of_nat m) by lia.
    change (Z.succ i) with (i + 1). rewrite fmap_cons, printed_cons. done.
Qed.
Lemma seen_slots_testbit l : Forall (fun d => 0 <= d) l -> forall seen k, 0 <= k ->
  Z.testbit (seen_slots l seen) k = Z.testbit seen k || bool_decide (k ∈ l).
Proof.
  induction 1 as [|d l Hd Hl IH]; intros seen k Hk; [by rewrite orb_false_r|]. unfold seen_slots. simpl.
  fold (seen_slots l (Z.lor seen (Z.shiftl 1 d))). rewrite IH, Z.lor_spec, Z.shiftl_spec by lia.
  rewrite <- orb_assoc. f_equal. destruct (decide (k = d)) as [->|Hne].
  - rewrite Z.sub_diag. symmetry. apply bool_decide_eq_true_2, elem_of_cons. by left.
  - rewrite (bool_decide_ext (k ∈ d :: l) (k ∈ l)) by set_solver.
    destruct (Z.lt_ge_cases k d); [by rewrite Z.testbit_neg_r by lia|].
    rewrite (Z.bits_above_log2 1) by (simpl; lia). done.
Qed.

(** A permuter prints its slots, the used ones before the colon, and never the marks for
    a word that is not a permutation. *)
Lemma unparse_prints x : permuter_ok width x -> unparse width x = printed (psize x) 0 (elements width x).
Proof.
  intros (Hx & Hn & Hp). unfold unparse. fold (psize x). change 4 with (4 * (0 + 1)).
  rewrite (unparse_loop_prints (psize x) x (Z.to_nat width) 0 0) by lia. rewrite Z2Nat.id by lia. fold (elements width x).
  assert (seen_slots (elements width x) 0 = Z.shiftl 1 width - 1) as ->; [|by rewrite Z.eqb_refl, app_nil_r].
  rewrite Z.shiftl_1_l, Z.sub_1_r, <- Z.ones_equiv. apply Z.bits_inj'. intros k Hk. rewrite seen_slots_testbit.
  - rewrite Z.bits_0, Z.testbit_ones by lia. simpl. apply eq_true_iff_eq. rewrite bool_decide_eq_true, Hp, elem_of_seqZ.
    rewrite andb_true_iff, Z.leb_le, Z.ltb_lt. lia.
  - rewrite Hp. apply Forall_forall. intros d Hd%elem_of_seqZ. lia.
  - done.
Qed.
End Unparse.

(** ** What a permuter guarantees *)

(** C33: a permuter word is the list of its slots.  For every width, every operation whose
    precondition holds leaves a word of the type's range whose slots are a permutation,
    and it changes size and slots as the operation [spec_op] on lists: [insert_from_back] and
    [insert_selected] move a free slot to the insertion point, [remove] and
    [remove_to_back] move a slot behind the used ones or to the back, [rotate] rotates all
    slots from a position on, the free ones included (its comment speaks of the used ones
    only), [exchange] and [exchange_values] permute, [set_size] keeps the slots; the element
    that [insert_from_back] hands out is the last one and was not in use. *)
Theorem permuter_refines width op x :
  1 <= width <= 15 -> permuter_ok width x -> op_pre width op (psize x) = true ->
  permuter_ok width (apply_op width op x)
  /\ (psize (apply_op width op x), elements width (apply_op width op x)) = spec_op width op (psize x, elements width x)
  /\ forall i, (insert_from_back width i x).2 = back width x
       /\ (psize x < width -> back width x ∉ take (Z.to_nat (psize x)) (elements width x)).
Proof.
  intros Hw Hok Hpre. split; [by apply apply_op_refines|]. split; [by apply apply_op_refines|]. intros i. split; [done|].
  intros Hn. by apply back_is_free.
Qed.

(** ** Concrete runs *)
Module PermuterExamples.

(** The first steps of [test_kpermuter] in [test_atomics.cc]. *)
Definition test_ops : list permuter_op :=
  [InsertFromBack 0; InsertFromBack 0; InsertFromBack 2; Remove 1; Remove 1; InsertFromBack 0; InsertSelected 0 3; InsertSelected 2 11].
Definition run_ops (width : Z) (ops : list permuter_op) (x : Z) : Z := fold_left (fun x op => apply_op width op x) ops x.
Example test_kpermuter :
  let k := run_ops 15 test_ops (make_empty 15) in
  psize k = 4 /\ take 6 (elements 15 k) = [0; 3; 7; 1; 2; 14] /\ element k 11 = 8 /\ element k 12 = 6.
Proof. vm_compute. done. Qed.

Lemma permuter_refines_witness :
  let x := make_sorted 15 4 in let op := InsertFromBack 2 in
  permuter_ok 15 (apply_op 15 op x)
  /\ (psize (apply_op 15 op x), elements 15 (apply_op 15 op x)) = spec_op 15 op (psize x, elements 15 x)
  /\ forall i, (insert_from_back 15 i x).2 = back 15 x
       /\ (psize x < 15 -> back 15 x ∉ take (Z.to_nat (psize x)) (elements 15 x)).
Proof.
  apply (permuter_refines 15 (InsertFromBack 2) (make_sorted 15 4)); [lia|apply make_sorted_ok; lia|vm_compute; reflexivity].
Defined.

(** The comment of [rotate] takes positions modulo [size() - i]; the code rotates all
    slots, the free ones included. *)
Lemma rotate_includes_free_slots :
  let p := make_sorted 15 4 in let q := rotate 15 1 3 p in
  element q 2 = 14 /\ element p (1 + (2 - 1 + 3 - 1) mod (psize p - 1)) = 1.
Proof. vm_compute. done. Qed.
End PermuterExamples.
