(* ===== verification/KSearch.v ===== *)
(** * Searching a node of Masstree

    Models [src/src/indices/mass_tree/thread/ksearch.hh]: upper and lower bounds of a key
    in a node, by bisection and by a linear scan, through the permutation of the node
    ([key_permuter] of [kpermuter.hh]).  The comparator is an argument of the searches in
    the code and here; [MassKey] instantiates it with the comparison of keys. *)

From S2P Require Import Prelude Permuter.

(** ** [key_permuter]: the permuter of a leaf, or the identity for other nodes *)
Inductive key_permuter : Type :=
  | kpermuter_word (x : Z)
  | identity_kpermuter (size : Z).
Definition kp_size (p : key_permuter) : Z :=
  match p with kpermuter_word x => psize x | identity_kpermuter n => n end.
Definition kp_at (p : key_permuter) (i : Z) : Z :=
  match p with kpermuter_word x => element x i | identity_kpermuter _ => i end.

(** ** The searches *)
Section Search.
Context (perm : key_permuter) (comparator : Z -> Z).

Fixpoint upper_bound_loop (fuel : nat) (l r : Z) : outcome Z :=
  match fuel with
  | O => Fault OutOfFuel
  | S fuel =>
      if l <? r then
        let m := Z.shiftr (l + r) 1 in
        let mp := kp_at perm m in
        let cmp := comparator mp in
        if cmp <? 0 then upper_bound_loop fuel l m
        else if cmp =? 0 then Ok (m + 1)
        else upper_bound_loop fuel (m + 1) r
      else Ok l
  end.
Definition key_upper_bound_by (fuel : nat) : outcome Z := upper_bound_loop fuel 0 (kp_size perm).

Fixpoint lower_bound_loop (fuel : nat) (l r : Z) : outcome Z :=
  match fuel with
  | O => Fault OutOfFuel
  | S fuel =>
      if l <? r then
        let m := Z.shiftr (l + r) 1 in
        let mp := kp_at perm m in
        let cmp := comparator mp in
        if cmp <? 0 then lower_bound_loop fuel l m
        else if cmp =? 0 then Ok m
        else lower_bound_loop fuel (m + 1) r
      else Ok l
  end.
Definition key_lower_bound_by (fuel : nat) : outcome Z := lower_bound_loop fuel 0 (kp_size perm).

(** The result and the reference argument [position]. *)
Fixpoint lower_bound_position_loop (fuel : nat) (l r : Z) : outcome (Z * Z) :=
  match fuel with
  | O => Fault OutOfFuel
  | S fuel =>
      if l <? r then
        let m := Z.shiftr (l + r) 1 in
        let mp := kp_at perm m in
        let cmp := comparator mp in
        if cmp <? 0 then lower_bound_position_loop fuel l m
        else if cmp =? 0 then Ok (m, mp)
        else lower_bound_position_loop fuel (m + 1) r
      else Ok (l, -1)
  end.
Definition key_lower_bound_with_position_by (fuel : nat) : outcome (Z * Z) :=
  lower_bound_position_loop fuel 0 (kp_size perm).

Fixpoint find_upper_loop (fuel : nat) (l r : Z) : outcome Z :=
  match fuel with
  | O => Fault OutOfFuel
  | S fuel =>
      if l <? r then
        let cmp := comparator (kp_at perm l) in
        if cmp <? 0 then Ok l else find_upper_loop fuel (l + 1) r
      else Ok l
  end.
Definition key_find_upper_bound_by (fuel : nat) : outcome Z := find_upper_loop fuel 0 (kp_size perm).

Fixpoint find_lower_loop (fuel : nat) (l r : Z) : outcome Z :=
  match fuel with
  | O => Fault OutOfFuel
  | S fuel =>
      if l <? r then
        let cmp := comparator (kp_at perm l) in
        if cmp <=? 0 then Ok l else find_lower_loop fuel (l + 1) r
      else Ok l
  end.
Definition key_find_lower_bound_by (fuel : nat) : outcome Z := find_lower_loop fuel 0 (kp_size perm).

Fixpoint find_lower_position_loop (fuel : nat) (l r : Z) : outcome (Z * Z) :=
  match fuel with
  | O => Fault OutOfFuel
  | S fuel =>
      if l <? r then
        let lp := kp_at perm l in
        let cmp := comparator lp in
        if cmp <? 0 then Ok (l, -1)
        else if cmp =? 0 then Ok (l, lp)
        else find_lower_position_loop fuel (l + 1) r
      else Ok (l, -1)
  end.
Definition key_find_lower_bound_with_position_by (fuel : nat) : outcome (Z * Z) :=
  find_lower_position_loop fuel 0 (kp_size perm).

(** [key_bound<max_size, method>]: the searches a node uses. *)
Inductive bound_method : Set := bound_method_fast | bound_method_binary | bound_method_linear.
Definition is_binary (max_size : Z) (method : bound_method) : bool :=
  match method with
  | bound_method_binary => true
  | bound_method_linear => false
  | bound_method_fast => 16 <? max_size
  end.
Definition key_bound_upper (max_size : Z) (method : bound_method) (fuel : nat) : outcome Z :=
  if is_binary max_size method then key_upper_bound_by fuel else key_find_upper_bound_by fuel.
Definition key_bound_lower (max_size : Z) (method : bound_method) (fuel : nat) : outcome Z :=
  if is_binary max_size method then key_lower_bound_by fuel else key_find_lower_bound_by fuel.
Definition key_bound_lower_with_position (max_size : Z) (method : bound_method) (fuel : nat) : outcome (Z * Z) :=
  if is_binary max_size method then key_lower_bound_with_position_by fuel else key_find_lower_bound_with_position_by fuel.

(** ** Reference *)

(** The keys of the node are in strictly increasing order along the permutation: the
    comparison falls from positive over at most one zero to negative. *)
Definition keys_sorted : Prop :=
  forall i j, 0 <= i < j -> j < kp_size perm -> comparator (kp_at perm i) <= 0 -> comparator (kp_at perm j) < 0.
Definition cmps : list Z := (fun i => comparator (kp_at perm i)) <$> seqZ 0 (kp_size perm).
(** The numbers of smaller, and of smaller or equal, keys. *)
Definition lower_index : Z := Z.of_nat (length (filter (fun c => 0 < c) cmps)).
Definition upper_index : Z := Z.of_nat (length (filter (fun c => 0 <= c) cmps)).
Definition position_of : Z :=
  if (lower_index <? kp_size perm) && (comparator (kp_at perm lower_index) =? 0) then kp_at perm lower_index else -1.
End Search.

Section SearchFacts.
Context (perm : key_permuter) (comparator : Z -> Z).
Context (Hsize : 0 <= kp_size perm) (Hsorted : keys_sorted perm comparator).
#[local] Abbreviation n := (kp_size perm).
#[local] Abbreviation c i := (comparator (kp_at perm i%Z)).

Lemma filter_split (P : Z -> Prop) `{!forall z, Decision (P z)} l1 l2 :
  Forall P l1 -> Forall (fun z => ~ P z) l2 -> filter P (l1 ++ l2) = l1.
Proof.
  intros H1 H2. rewrite filter_app. induction H1 as [|z l Hz Hl IH]; simpl.
  - induction H2 as [|z l Hz Hl IH]; [done|]. by rewrite filter_cons_False.
  - by rewrite filter_cons_True, <- app_comm_cons, IH.
Qed.
(** A bound splits the positions; it is the count of the keys below it. *)
Lemma count_split (P : Z -> Prop) `{!forall z, Decision (P z)} b : 0 <= b <= n ->
  (forall i, 0 <= i < b -> P (c i)) -> (forall i, b <= i < n -> ~ P (c i)) ->
  Z.of_nat (length (filter P (cmps perm comparator))) = b.
Proof.
  intros Hb Hlo Hhi. unfold cmps. replace n with (b + (n - b)) by lia. rewrite seqZ_app, fmap_app by lia.
  rewrite filter_split.
  - rewrite length_fmap, length_seqZ. lia.
  - apply Forall_fmap, Forall_forall. intros i [??]%elem_of_seqZ. apply Hlo. lia.
  - apply Forall_fmap, Forall_forall. intros i [??]%elem_of_seqZ. apply Hhi. lia.
Qed.

Record splits (low : Z -> Prop) (b : Z) : Prop := {
  sp_range : 0 <= b <= n;
  sp_low i : 0 <= i < b -> low (c i);
  sp_high i : b <= i < n -> ~ low (c i) }.
Definition position_at (b : Z) : Z := if (b <? n) && (c b =? 0) then kp_at perm b else -1.

Lemma half l r : l < r -> l <= Z.shiftr (l + r) 1 < r.
Proof.
  intros. rewrite Z.shiftr_div_pow2 by lia. change (2 ^ 1) with 2.
  pose proof (Z.div_mod (l + r) 2). pose proof (Z.mod_pos_bound (l + r) 2). lia.
Qed.

(** The invariant of all loops: keys left of [l] are below, keys from [r] on above. *)
Lemma position_loop_ok fuel : forall l r, 0 <= l <= r -> r <= n -> r - l < Z.of_nat fuel ->
  (forall i, 0 <= i < l -> 0 < c i) -> (forall i, r <= i < n -> c i < 0) ->
  exists b, lower_bound_position_loop perm comparator fuel l r = Ok (b, position_at b) /\ splits (fun z => 0 < z) b.
Proof.
  induction fuel as [|fuel IH]; intros l r Hl Hr Hf Hlo Hhi; [lia|]. cbn [lower_bound_position_loop].
  destruct (Z.ltb_spec l r) as [Hlt|Hge].
  - pose proof (half l r Hlt) as Hm. set (m := Z.shiftr (l + r) 1) in *. destruct (Z.ltb_spec (c m) 0) as [Hneg|Hpos].
    + apply IH; try lia; [done|]. intros i Hi. destruct (decide (i = m)) as [->|]; [done|]. apply (Hsorted m i); lia.
    + destruct (Z.eqb_spec (c m) 0) as [Hz|Hnz].
      * exists m. split; [|split; [lia|..]].
        -- unfold position_at. by rewrite (proj2 (Z.ltb_lt m n)), Hz by lia.
        -- intros i Hi. destruct (Z.le_gt_cases (c i) 0); [|lia]. pose proof (Hsorted i m). lia.
        -- intros i Hi. destruct (decide (i = m)) as [->|]; [lia|]. pose proof (Hsorted m i). lia.
      * apply IH; try lia; [|done]. intros i Hi. destruct (decide (i = m)) as [->|]; [lia|].
        destruct (Z.le_gt_cases (c i) 0); [|lia]. pose proof (Hsorted i m). lia.
  - assert (l = r) as -> by lia. exists r. split; [|split; [lia|done|]].
    + unfold position_at. destruct (Z.ltb_spec r n); [|done]. pose proof (Hhi r). destruct (Z.eqb_spec (c r) 0); [lia|done].
    + intros i Hi. pose proof (Hhi i). lia.
Qed.
Lemma upper_loop_ok fuel : forall l r, 0 <= l <= r -> r <= n -> r - l < Z.of_nat fuel ->
  (forall i, 0 <= i < l -> 0 < c i) -> (forall i, r <= i < n -> c i < 0) ->
  exists b, upper_bound_loop perm comparator fuel l r = Ok b /\ splits (fun z => 0 <= z) b.
Proof.
  induction fuel as [|fuel IH]; intros l r Hl Hr Hf Hlo Hhi; [lia|]. cbn [upper_bound_loop].
  destruct (Z.ltb_spec l r) as [Hlt|Hge].
  - pose proof (half l r Hlt) as Hm. set (m := Z.shiftr (l + r) 1) in *. destruct (Z.ltb_spec (c m) 0) as [Hneg|Hpos].
    + apply IH; try lia; [done|]. intros i Hi. destruct (decide (i = m)) as [->|]; [done|]. apply (Hsorted m i); lia.
    + assert (Hlow : forall i, 0 <= i < m -> 0 < c i).
      { intros i Hi. destruct (Z.le_gt_cases (c i) 0); [|lia]. pose proof (Hsorted i m). lia. }
      destruct (Z.eqb_spec (c m) 0) as [Hz|Hnz].
      * exists (m + 1). split; [done|split; [lia|..]].
        -- intros i Hi. destruct (decide (i = m)) as [->|]; [lia|]. pose proof (Hlow i). lia.
        -- intros i Hi. pose proof (Hsorted m i). lia.
      * apply IH; try lia; [|done]. intros i Hi. destruct (decide (i = m)) as [->|]; [lia|]. apply Hlow. lia.
  - assert (l = r) as -> by lia. exists r. split; [done|split; [lia|..]].
    + intros i Hi. pose proof (Hlo i). lia.
    + intros i Hi. pose proof (Hhi i). lia.
Qed.
Lemma find_position_loop_ok fuel : forall l, 0 <= l <= n -> n - l < Z.of_nat fuel -> (forall i, 0 <= i < l -> 0 < c i) ->
  exists b, find_lower_position_loop perm comparator fuel l n = Ok (b, position_at b) /\ splits (fun z => 0 < z) b.
Proof.
  induction fuel as [|fuel IH]; intros l Hl Hf Hlo; [lia|]. cbn [find_lower_position_loop].
  destruct (Z.ltb_spec l n) as [Hlt|Hge].
  - assert (Hhi : c l <= 0 -> splits (fun z => 0 < z) l).
    { intros Hc. split; [lia|done|]. intros i Hi. destruct (decide (i = l)) as [->|]; [lia|]. pose proof (Hsorted l i). lia. }
    assert (Hpos : position_at l = if c l =? 0 then kp_at perm l else -1).
    { unfold position_at. by rewrite (proj2 (Z.ltb_lt l n)). }
    destruct (Z.ltb_spec (c l) 0) as [Hneg|Hnn].
    + exists l. rewrite Hpos, (proj2 (Z.eqb_neq (c l) 0)) by lia. split; [done|apply Hhi; lia].
    + destruct (Z.eqb_spec (c l) 0) as [Hz|Hnz]; [exists l; rewrite Hpos; split; [done|apply Hhi; lia]|].
      apply IH; [lia|lia|]. intros i Hi. destruct (decide (i = l)) as [->|]; [lia|]. apply Hlo. lia.
  - assert (l = n) as -> by lia. exists n. split; [|split; [lia|done|lia]]. unfold position_at. by rewrite Z.ltb_irrefl.
Qed.
Lemma find_upper_loop_ok fuel : forall l, 0 <= l <= n -> n - l < Z.of_nat fuel -> (forall i, 0 <= i < l -> 0 <= c i) ->
  exists b, find_upper_loop perm comparator fuel l n = Ok b /\ splits (fun z => 0 <= z) b.
Proof.
  induction fuel as [|fuel IH]; intros l Hl Hf Hlo; [lia|]. cbn [find_upper_loop].
  destruct (Z.ltb_spec l n) as [Hlt|Hge].
  - destruct (Z.ltb_spec (c l) 0) as [Hneg|Hnn].
    + exists l. split; [done|split; [lia|done|]]. intros i Hi. destruct (decide (i = l)) as [->|]; [lia|].
      pose proof (Hsorted l i). lia.
    + apply IH; [lia|lia|]. intros i Hi. destruct (decide (i = l)) as [->|]; [done|]. apply Hlo. lia.
  - assert (l = n) as -> by lia. exists n. split; [done|split; [lia|done|lia]].
Qed.

(** The searches without a position make the same decisions. *)
Lemma lower_loop_fst fuel : forall l r,
  lower_bound_loop perm comparator fuel l r = ('(b, _) ← lower_bound_position_loop perm comparator fuel l r; mret b).
Proof.
  induction fuel as [|fuel IH]; intros l r; [done|]. cbn [lower_bound_loop lower_bound_position_loop].
  destruct (l <? r); [|done]. cbn zeta.
  destruct (comparator _ <? 0); [apply IH|]. destruct (comparator _ =? 0); [done|apply IH].
Qed.
Lemma find_lower_loop_fst fuel : forall l r,
  find_lower_loop perm comparator fuel l r = ('(b, _) ← find_lower_position_loop perm comparator fuel l r; mret b).
Proof.
  induction fuel as [|fuel IH]; intros l r; [done|]. cbn [find_lower_loop find_lower_position_loop].
  destruct (Z.ltb_spec l r); [|done].
  destruct (Z.leb_spec (c l) 0), (Z.ltb_spec (c l) 0), (Z.eqb_spec (c l) 0); try lia; done || apply IH.
Qed.

Lemma splits_lower b : splits (fun z => 0 < z) b -> lower_index perm comparator = b.
Proof. intros [Hb Hlo Hhi]. by apply count_split. Qed.
Lemma splits_upper b : splits (fun z => 0 <= z) b -> upper_index perm comparator = b.
Proof. intros [Hb Hlo Hhi]. by apply count_split. Qed.

Context (fuel : nat) (Hfuel : n < Z.of_nat fuel) (max_size : Z) (method : bound_method).
Lemma position_search_ok :
  key_bound_lower_with_position perm comparator max_size method fuel = Ok (lower_index perm comparator, position_of perm comparator).
Proof.
  assert (Hall : forall b, splits (fun z => 0 < z) b -> (b, position_at b) = (lower_index perm comparator, position_of perm comparator)).
  { intros b Hb. unfold position_of. by rewrite (splits_lower b Hb). }
  unfold key_bound_lower_with_position. case_match.
  - destruct (position_loop_ok fuel 0 n) as (b & Hrun & Hb); [lia..|]. rewrite <- (Hall b Hb). exact Hrun.
  - destruct (find_position_loop_ok fuel 0) as (b & Hrun & Hb); [lia..|]. rewrite <- (Hall b Hb). exact Hrun.
Qed.
Lemma lower_search_ok : key_bound_lower perm comparator max_size method fuel = Ok (lower_index perm comparator).
Proof.
  pose proof position_search_ok as Hp. unfold key_bound_lower, key_bound_lower_with_position in *. case_match.
  - unfold key_lower_bound_by. rewrite lower_loop_fst. unfold key_lower_bound_with_position_by in Hp. by rewrite Hp.
  - unfold key_find_lower_bound_by. rewrite find_lower_loop_fst. unfold key_find_lower_bound_with_position_by in Hp. by rewrite Hp.
Qed.
Lemma upper_search_ok : key_bound_upper perm comparator max_size method fuel = Ok (upper_index perm comparator).
Proof.
  unfold key_bound_upper. case_match.
  - destruct (upper_loop_ok fuel 0 n) as (b & Hrun & Hb); [lia..|]. rewrite (splits_upper b Hb). exact Hrun.
  - destruct (find_upper_loop_ok fuel 0) as (b & Hrun & Hb); [lia..|]. rewrite (splits_upper b Hb). exact Hrun.
Qed.
End SearchFacts.

(** The searches agree.  On a node whose keys increase along its permutation,
    bisection and linear scan, whichever [key_bound] selects, terminate and return the
    same indices: the lower bound is the number of smaller keys, the upper bound the
    number of smaller or equal ones, and [position] is the slot of the key itself or -1
    when the key is absent. *)
Theorem searches_agree perm comparator fuel max_size method :
  0 <= kp_size perm < Z.of_nat fuel -> keys_sorted perm comparator ->
  key_bound_upper perm comparator max_size method fuel = Ok (upper_index perm comparator)
  /\ key_bound_lower perm comparator max_size method fuel = Ok (lower_index perm comparator)
  /\ key_bound_lower_with_position perm comparator max_size method fuel
     = Ok (lower_index perm comparator, position_of perm comparator).
Proof. intros Hn Hs. split_and!; [apply upper_search_ok|apply lower_search_ok|apply position_search_ok]; done || lia. Qed.

(** ** A concrete search *)
Module SearchExamples.
Import PermuterExamples.

(** Three keys inserted as 20, 10, 30: slot 1 comes first. *)
Definition three_slots : Z := run_ops 15 [InsertFromBack 0; InsertFromBack 0; InsertFromBack 2] (make_empty 15).
Definition slot_key (s : Z) : Z := if s =? 0 then 20 else if s =? 1 then 10 else 30.
Definition look_for (k s : Z) : Z := k - slot_key s.

Lemma look_for_sorted k : keys_sorted (kpermuter_word three_slots) (look_for k).
Proof.
  intros i j Hi Hj. assert (Hn : kp_size (kpermuter_word three_slots) = 3) by (vm_compute; reflexivity). rewrite Hn in Hj.
  assert (Hat : forall m, 0 <= m < 3 -> slot_key (kp_at (kpermuter_word three_slots) m) = 10 * (m + 1)).
  { intros m Hm. assert (m = 0 \/ m = 1 \/ m = 2) as [->|[->| ->]] by lia; vm_compute; reflexivity. }
  unfold look_for. rewrite !Hat by lia. lia.
Qed.
Lemma searches_agree_witness :
  key_bound_upper (kpermuter_word three_slots) (look_for 20) 15 bound_method_fast 16 = Ok 2
  /\ key_bound_lower (kpermuter_word three_slots) (look_for 20) 15 bound_method_binary 16 = Ok 1
  /\ key_bound_lower_with_position (kpermuter_word three_slots) (look_for 20) 15 bound_method_binary 16 = Ok (1, 0).
Proof.
  assert (Hn : 0 <= kp_size (kpermuter_word three_slots) < Z.of_nat 16) by (vm_compute; done).
  split_and!; [refine (proj1 (searches_agree _ _ 16 15 bound_method_fast Hn (look_for_sorted 20)))
    |refine (proj1 (proj2 (searches_agree _ _ 16 15 bound_method_binary Hn (look_for_sorted 20))))
    |refine (proj2 (proj2 (searches_agree _ _ 16 15 bound_method_binary Hn (look_for_sorted 20))))].
Defined.
End SearchExamples.
