(* ===== verification/NodeVersion.v ===== *)
(** * The versions of Masstree's nodes

    Models [src/src/indices/mass_tree/thread/nodeversion.hh]: one word holds the lock
    bit, the bits that announce an insertion or a split, two counters and the flags of a
    node.  Readers do not lock: they take a [stable] version, read, and ask
    [has_changed] and [has_split] whether they have to read again.  The operations are
    functions on the word at its width, for both parameter structs; a step relation
    interleaves a writer with the readers.  [basic_singlethreaded_nodeversion] keeps only
    the flags. *)

From S2P Require Import Prelude.

(** ** The parameter structs *)
Record nv_parameters : Type := mkNvParameters {
  value_width : Z;
  lock_bit : Z;
  inserting_shift : Z;
  inserting_bit : Z;
  splitting_bit : Z;
  dirty_mask : Z;
  vinsert_lowbit : Z;
  vsplit_lowbit : Z;
  unused1_bit : Z;
  deleted_bit : Z;
  root_bit : Z;
  isleaf_bit : Z;
  split_unlock_mask : Z;
  unlock_mask : Z }.
Definition nodeversion32_parameters : nv_parameters := {|
  value_width := 32;
  lock_bit := Z.shiftl 1 0;
  inserting_shift := 1;
  inserting_bit := Z.shiftl 1 1;
  splitting_bit := Z.shiftl 1 2;
  dirty_mask := Z.lor (Z.shiftl 1 1) (Z.shiftl 1 2);
  vinsert_lowbit := Z.shiftl 1 3;
  vsplit_lowbit := Z.shiftl 1 9;
  unused1_bit := Z.shiftl 1 28;
  deleted_bit := Z.shiftl 1 29;
  root_bit := Z.shiftl 1 30;
  isleaf_bit := Z.shiftl 1 31;
  split_unlock_mask := u32 (Z.lnot (Z.lor (Z.lor (Z.shiftl 1 30) (Z.shiftl 1 28)) (Z.shiftl 1 9 - 1)));
  unlock_mask := u32 (Z.lnot (Z.lor (Z.shiftl 1 28) (Z.shiftl 1 3 - 1))) |}.
Definition nodeversion64_parameters : nv_parameters := {|
  value_width := 64;
  lock_bit := Z.shiftl 1 8;
  inserting_shift := 9;
  inserting_bit := Z.shiftl 1 9;
  splitting_bit := Z.shiftl 1 10;
  dirty_mask := Z.lor (Z.shiftl 1 9) (Z.shiftl 1 10);
  vinsert_lowbit := Z.shiftl 1 11;
  vsplit_lowbit := Z.shiftl 1 27;
  unused1_bit := Z.shiftl 1 60;
  deleted_bit := Z.shiftl 1 61;
  root_bit := Z.shiftl 1 62;
  isleaf_bit := Z.shiftl 1 63;
  split_unlock_mask := u64 (Z.lnot (Z.lor (Z.lor (Z.shiftl 1 62) (Z.shiftl 1 60)) (Z.shiftl 1 27 - 1)));
  unlock_mask := u64 (Z.lnot (Z.lor (Z.shiftl 1 60) (Z.shiftl 1 11 - 1))) |}.

(** ** [basic_nodeversion<P>] *)
Section Nodeversion.
Context (P : nv_parameters).
#[local] Abbreviation wrapv x := (wrap (value_width P) x%Z).
Definition has_bits (v m : Z) : bool := negb (Z.land v m =? 0).

Definition new_nodeversion (isleaf : bool) : Z := if isleaf then isleaf_bit P else 0.
Definition nv_isleaf (v : Z) : bool := has_bits v (isleaf_bit P).
(** One round of [stable]: the version, unless the node is being changed. *)
Definition stable (v : Z) : option Z := if has_bits v (dirty_mask P) then None else Some v.
Definition nv_locked (v : Z) : bool := has_bits v (lock_bit P).
Definition nv_inserting (v : Z) : bool := has_bits v (inserting_bit P).
Definition nv_splitting (v : Z) : bool := has_bits v (splitting_bit P).
Definition nv_deleted (v : Z) : bool := has_bits v (deleted_bit P).
Definition has_changed (v x : Z) : bool := lock_bit P <? Z.lxor x v.
Definition has_split (v : Z) : bool := negb (has_bits v (root_bit P)).
Definition has_split_since (v x : Z) : bool := vsplit_lowbit P <=? Z.lxor x v.
(** One round of [lock]: the compare-and-swap from [expected]. *)
Definition nv_try_lock (v expected : Z) : option Z :=
  if negb (has_bits expected (lock_bit P)) && (v =? expected) then Some (Z.lor expected (lock_bit P)) else None.
Definition nv_unlock (x : Z) : Z :=
  if has_bits x (splitting_bit P) then Z.land (wrapv (x + vsplit_lowbit P)) (split_unlock_mask P)
  else Z.land (wrapv (x + Z.shiftl (Z.land x (inserting_bit P)) 2)) (unlock_mask P).
Definition mark_insert (v : Z) : Z := Z.lor v (inserting_bit P).
Definition mark_split (v : Z) : Z := Z.lor v (splitting_bit P).
Definition mark_change (is_split : bool) (v : Z) : Z := Z.lor v (Z.shiftl (Z.b2z is_split + 1) (inserting_shift P)).
Definition mark_deleted (v : Z) : Z := Z.lor v (Z.lor (deleted_bit P) (splitting_bit P)).
Definition mark_deleted_tree (v : Z) : Z := Z.lor v (deleted_bit P).
Definition mark_root (v : Z) : Z := Z.lor v (root_bit P).
Definition mark_nonroot (v : Z) : Z := Z.land v (wrapv (Z.lnot (root_bit P))).
Definition unlocked_version_value (v : Z) : Z := Z.land v (unlock_mask P).

(** [basic_singlethreaded_nodeversion<P>]: no locks and no counters. *)
Definition st_mark_split (v : Z) : Z := Z.land v (wrapv (Z.lnot (root_bit P))).
Definition st_mark_change (is_split : bool) (v : Z) : Z := if is_split then st_mark_split v else v.

(** ** A node under a writer and readers

    What a node holds for its readers: the slots in use in their order (the permutation of a
    leaf), the key and the value of every slot, whether the leaf has last been removed from
    ([modstate_]), and everything else (the arrays of an inner node).  [changes] and [splits]
    count the unlocks that ended a change and a split; the code has no such variables, the
    claims use them to say how long a reader may take. *)
Record node_data : Type := mkData {
  d_order : list Z;
  d_keys : gmap Z Z;
  d_values : gmap Z Z;
  d_removing : bool;
  d_other : Z }.
Record VersionedNode : Type := mkVersionedNode {
  word : Z;
  owner : option nat;
  contents_of : node_data;
  changes : nat;
  splits : nat }.
Definition nv_dirty (v : Z) : bool := has_bits v (dirty_mask P).

(** What the holder of the lock writes without a mark: [assign] fills a slot that is not in
    use, [finish_insert] and [finish_remove] publish another permutation, and an update
    replaces a value.  Slots that have been removed are not filled again before [modstate_]
    changes, which takes a mark. *)
Inductive unmarked_write : node_data -> node_data -> Prop :=
  | uw_assign d p k x : d_removing d = false -> p ∉ d_order d ->
      unmarked_write d (mkData (d_order d) (<[p := k]> (d_keys d)) (<[p := x]> (d_values d)) (d_removing d) (d_other d))
  | uw_finish_insert d p l1 l2 : d_removing d = false -> d_order d = l1 ++ l2 -> p ∉ d_order d ->
      unmarked_write d (mkData (l1 ++ p :: l2) (d_keys d) (d_values d) (d_removing d) (d_other d))
  | uw_finish_remove d p l1 l2 : d_removing d = true -> d_order d = l1 ++ p :: l2 ->
      unmarked_write d (mkData (l1 ++ l2) (d_keys d) (d_values d) (d_removing d) (d_other d))
  | uw_value d p x : p ∈ d_order d ->
      unmarked_write d (mkData (d_order d) (d_keys d) (<[p := x]> (d_values d)) (d_removing d) (d_other d)).

Inductive node_step : VersionedNode -> VersionedNode -> Prop :=
  | ns_lock t s w : owner s = None -> nv_try_lock (word s) (word s) = Some w ->
      node_step s (mkVersionedNode w (Some t) (contents_of s) (changes s) (splits s))
  | ns_mark t s f : owner s = Some t ->
      f ∈ [mark_insert; mark_split; mark_change false; mark_change true; mark_deleted; mark_deleted_tree; mark_root; mark_nonroot] ->
      node_step s (mkVersionedNode (f (word s)) (Some t) (contents_of s) (changes s) (splits s))
  | ns_unmarked t s d : owner s = Some t -> unmarked_write (contents_of s) d ->
      node_step s (mkVersionedNode (word s) (Some t) d (changes s) (splits s))
  | ns_write t s d : owner s = Some t -> nv_dirty (word s) = true ->
      node_step s (mkVersionedNode (word s) (Some t) d (changes s) (splits s))
  | ns_unlock t s : owner s = Some t ->
      node_step s (mkVersionedNode (nv_unlock (word s)) None (contents_of s)
        (if nv_dirty (word s) then S (changes s) else changes s)
        (if nv_splitting (word s) then S (splits s) else splits s)).
Definition fresh_node (isleaf : bool) (d : node_data) : VersionedNode := mkVersionedNode (new_nodeversion isleaf) None d 0 0.
(** What a reader may count on while no change is marked: the slots that were in use keep
    their keys and their order, and slots are only added, or only taken away. *)
Record vouched (d0 d : node_data) : Prop := {
  vo_removing : d_removing d = d_removing d0;
  vo_other : d_other d = d_other d0;
  vo_keys p : p ∈ d_order d0 -> d_keys d !! p = d_keys d0 !! p;
  vo_order : if d_removing d0 then d_order d `sublist_of` d_order d0 else d_order d0 `sublist_of` d_order d }.
End Nodeversion.

(** ** The layout of the word *)

(** Positions: the lock bit, the split counter, the unused bit above the counters. *)
Class NvLayout (P : nv_parameters) : Type := {
  lock_pos : Z;
  vsplit_pos : Z;
  unused_pos : Z;
  pos_order : 0 <= lock_pos /\ lock_pos + 3 < vsplit_pos /\ vsplit_pos < unused_pos /\ unused_pos + 4 = value_width P;
  lock_eq : lock_bit P = 2 ^ lock_pos;
  ishift_eq : inserting_shift P = lock_pos + 1;
  ins_eq : inserting_bit P = 2 ^ (lock_pos + 1);
  split_eq : splitting_bit P = 2 ^ (lock_pos + 2);
  dirty_eq : dirty_mask P = Z.lor (2 ^ (lock_pos + 1)) (2 ^ (lock_pos + 2));
  vsplit_eq : vsplit_lowbit P = 2 ^ vsplit_pos;
  deleted_eq : deleted_bit P = 2 ^ (unused_pos + 1);
  root_eq : root_bit P = 2 ^ (unused_pos + 2);
  leaf_eq : isleaf_bit P = 2 ^ (unused_pos + 3);
  split_mask_eq : split_unlock_mask P
    = wrap (value_width P) (Z.lnot (Z.lor (Z.lor (2 ^ (unused_pos + 2)) (2 ^ unused_pos)) (Z.ones vsplit_pos)));
  unlock_mask_eq : unlock_mask P = wrap (value_width P) (Z.lnot (Z.lor (2 ^ unused_pos) (Z.ones (lock_pos + 3)))) }.
#[export] Program Instance layout32 : NvLayout nodeversion32_parameters := {| lock_pos := 0; vsplit_pos := 9; unused_pos := 28 |}.
Solve All Obligations with (vm_compute; intuition congruence).
#[export] Program Instance layout64 : NvLayout nodeversion64_parameters := {| lock_pos := 8; vsplit_pos := 27; unused_pos := 60 |}.
Solve All Obligations with (vm_compute; intuition congruence).

Section Layout.
Context (P : nv_parameters) {NL : NvLayout P}.
#[local] Abbreviation L := (lock_pos (P := P)).
#[local] Abbreviation S' := (vsplit_pos (P := P)).
#[local] Abbreviation U := (unused_pos (P := P)).

(** The two counters read as one, the number of values it has, and the weight of a split. *)
Definition counter (v : Z) : Z := Z.shiftr v (L + 3) mod 2 ^ (U - L - 3).
Definition counter_mod : Z := 2 ^ (U - L - 3).
Definition split_weight : Z := 2 ^ (S' - L - 3).
Definition split_mod : Z := 2 ^ (U - S').

Lemma weights : counter_mod = split_weight * split_mod /\ 0 < split_weight /\ 0 < split_mod.
Proof.
  pose proof (pos_order (P := P)). unfold counter_mod, split_weight, split_mod. rewrite <- Z.pow_add_r by lia.
  split; [f_equal; lia|]. split; apply Z.pow_pos_nonneg; lia.
Qed.
Lemma counter_bits v i : 0 <= i -> Z.testbit (counter v) i = (i <? U - L - 3) && Z.testbit v (i + L + 3).
Proof.
  intros Hi. pose proof (pos_order (P := P)). unfold counter. destruct (Z.ltb_spec i (U - L - 3)).
  - rewrite Z.mod_pow2_bits_low, Z.shiftr_spec by lia. simpl. f_equal. lia.
  - by rewrite Z.mod_pow2_bits_high by lia.
Qed.
Lemma counter_same v w : (forall i, L + 3 <= i < U -> Z.testbit v i = Z.testbit w i) -> counter v = counter w.
Proof.
  intros H. apply Z.bits_inj'. intros i Hi. rewrite !counter_bits by lia.
  destruct (Z.ltb_spec i (U - L - 3)); [|done]. simpl. apply H. lia.
Qed.
Lemma counter_range v : 0 <= counter v < counter_mod.
Proof. apply Z.mod_pos_bound, Z.pow_pos_nonneg; pose proof (pos_order (P := P)); lia. Qed.
Lemma counter_div v : counter v = v / 2 ^ (L + 3) mod counter_mod.
Proof. unfold counter. by rewrite Z.shiftr_div_pow2 by (pose proof (pos_order (P := P)); lia). Qed.

Lemma has_bit v p : 0 <= p -> has_bits v (2 ^ p) = Z.testbit v p.
Proof.
  intros Hp. unfold has_bits. destruct (Z.testbit v p) eqn:E.
  - destruct (Z.eqb_spec (Z.land v (2 ^ p)) 0) as [H0|]; [|done]. exfalso.
    assert (Hb : Z.testbit (Z.land v (2 ^ p)) p = true) by (by rewrite Z.land_spec, Z.pow2_bits_true, E by lia).
    by rewrite H0, Z.bits_0 in Hb.
  - assert (Z.land v (2 ^ p) = 0) as ->; [|done]. apply Z.bits_inj'. intros i Hi.
    rewrite Z.land_spec, Z.pow2_bits_eqb, Z.bits_0 by lia. destruct (Z.eqb_spec p i) as [<-|]; [by rewrite E|apply andb_false_r].
Qed.
Lemma dirty_bits v : nv_dirty P v = Z.testbit v (L + 1) || Z.testbit v (L + 2).
Proof.
  pose proof (pos_order (P := P)). unfold nv_dirty. rewrite dirty_eq. rewrite <- !has_bit by lia.
  unfold has_bits. rewrite Z.land_lor_distr_r. rewrite <- negb_andb. f_equal. apply eq_true_iff_eq.
  rewrite andb_true_iff, !Z.eqb_eq. apply Z.lor_eq_0_iff.
Qed.
Lemma splitting_bit_eq v : nv_splitting P v = Z.testbit v (L + 2).
Proof. unfold nv_splitting. rewrite split_eq. apply has_bit. pose proof (pos_order (P := P)). lia. Qed.

(** Bits of the masks. *)
Lemma split_mask_bits i : 0 <= i < value_width P ->
  Z.testbit (split_unlock_mask P) i = negb ((i =? U + 2) || (i =? U) || (i <? S')).
Proof.
  intros Hi. pose proof (pos_order (P := P)). rewrite split_mask_eq. unfold wrap.
  rewrite Z.mod_pow2_bits_low, Z.lnot_spec, !Z.lor_spec, !Z.pow2_bits_eqb, Z.testbit_ones by lia.
  rewrite (Z.eqb_sym i), (Z.eqb_sym i). by rewrite (proj2 (Z.leb_le 0 i)) by lia.
Qed.
Lemma unlock_mask_bits i : 0 <= i < value_width P -> Z.testbit (unlock_mask P) i = negb ((i =? U) || (i <? L + 3)).
Proof.
  intros Hi. pose proof (pos_order (P := P)). rewrite unlock_mask_eq. unfold wrap.
  rewrite Z.mod_pow2_bits_low, Z.lnot_spec, Z.lor_spec, Z.pow2_bits_eqb, Z.testbit_ones by lia.
  rewrite (Z.eqb_sym i). by rewrite (proj2 (Z.leb_le 0 i)) by lia.
Qed.
Lemma mask_nonneg : 0 <= split_unlock_mask P /\ 0 <= unlock_mask P.
Proof.
  pose proof (pos_order (P := P)). rewrite split_mask_eq, unlock_mask_eq. split; apply wrap_bound; lia.
Qed.
Lemma counter_wrap y : counter (wrap (value_width P) y) = counter y.
Proof.
  pose proof (pos_order (P := P)). apply counter_same. intros i Hi. unfold wrap. apply Z.mod_pow2_bits_low. lia.
Qed.
Lemma counter_unlock_mask y : counter (Z.land y (unlock_mask P)) = counter y.
Proof.
  pose proof (pos_order (P := P)). apply counter_same. intros i Hi. rewrite Z.land_spec, unlock_mask_bits by lia.
  bool_cases; lia || (by destruct (Z.eqb_spec i U), (Z.ltb_spec i (L + 3)); try lia; rewrite andb_true_r).
Qed.
Lemma counter_split_mask y : counter (Z.land y (split_unlock_mask P)) = split_weight * (counter y / split_weight).
Proof.
  pose proof (pos_order (P := P)). unfold split_weight. rewrite Z.mul_comm, <- Z.shiftr_div_pow2, <- Z.shiftl_mul_pow2 by lia.
  apply Z.bits_inj'. intros i Hi. rewrite counter_bits, Z.land_spec by lia. destruct (Z.lt_ge_cases i (S' - L - 3)).
  - rewrite Z.shiftl_spec_low by lia. destruct (Z.ltb_spec i (U - L - 3)); [|done]. rewrite split_mask_bits by lia.
    rewrite (proj2 (Z.ltb_lt (i + L + 3) S')) by lia. by rewrite orb_true_r, !andb_false_r.
  - rewrite Z.shiftl_spec, Z.shiftr_spec, counter_bits by lia.
    replace (i - (S' - L - 3) + (S' - L - 3)) with i by lia. destruct (Z.ltb_spec i (U - L - 3)); [|done].
    rewrite split_mask_bits by lia. destruct (Z.eqb_spec (i + L + 3) (U + 2)), (Z.eqb_spec (i + L + 3) U), (Z.ltb_spec (i + L + 3) S'); try lia.
    by rewrite andb_true_r.
Qed.
Lemma counter_add y k : 0 <= k -> counter (y + k * 2 ^ (L + 3)) = (counter y + k) mod counter_mod.
Proof.
  intros Hk. pose proof (pos_order (P := P)). rewrite !counter_div. rewrite Z.div_add by (apply Z.pow_nonzero; lia).
  by rewrite Zplus_mod_idemp_l.
Qed.

(** How far an unlock moves the counter. *)
Definition unlock_delta (v : Z) : Z :=
  if nv_splitting P v then split_weight - counter v mod split_weight else if nv_dirty P v then 1 else 0.
Lemma land_pow2 v p : 0 <= p -> Z.land v (2 ^ p) = if Z.testbit v p then 2 ^ p else 0.
Proof.
  intros Hp. apply Z.bits_inj'. intros i Hi. rewrite Z.land_spec, Z.pow2_bits_eqb by lia.
  destruct (Z.eqb_spec p i) as [<-|]; [|rewrite andb_false_r]; destruct (Z.testbit v p); rewrite ?Z.bits_0, ?Z.pow2_bits_eqb by lia; try done.
  - by rewrite Z.eqb_refl.
  - by rewrite (proj2 (Z.eqb_neq p i)).
Qed.
Lemma floor_next c : 0 <= c < counter_mod ->
  split_weight * (((c + split_weight) mod counter_mod) / split_weight) = (c + (split_weight - c mod split_weight)) mod counter_mod.
Proof.
  intros Hc. destruct weights as (HM & HK & HQ).
  pose proof (Z.div_mod c split_weight ltac:(lia)) as Hd. pose proof (Z.mod_pos_bound c split_weight HK) as Hb.
  set (a := c / split_weight) in *. set (b := c mod split_weight) in *.
  replace (c + (split_weight - b)) with (split_weight * (a + 1)) by lia.
  replace (c + split_weight) with (b + split_weight * (a + 1)) by lia. rewrite HM, Zmult_mod_distr_l. f_equal.
  assert (Hq : (b + split_weight * (a + 1)) / split_weight = a + 1 /\ (b + split_weight * (a + 1)) mod split_weight = b).
  { rewrite (Z.mul_comm split_weight (a + 1)), Z.div_add, Z_mod_plus_full, Z.div_small, Z.mod_small by lia. lia. }
  rewrite Z.rem_mul_r, (proj1 Hq), (proj2 Hq) by lia.
  rewrite (Z.mul_comm split_weight), Z.div_add, Z.div_small by lia. lia.
Qed.
Lemma counter_unlock v : counter (nv_unlock P v) = (counter v + unlock_delta v) mod counter_mod.
Proof.
  pose proof (pos_order (P := P)). destruct weights as (HM & HK & HQ). unfold nv_unlock, unlock_delta. fold (nv_splitting P v).
  destruct (nv_splitting P v) eqn:Hs.
  - rewrite counter_split_mask, counter_wrap, vsplit_eq. rewrite <- floor_next by apply counter_range.
    do 2 f_equal. rewrite <- counter_add by lia. f_equal. f_equal. unfold split_weight. rewrite <- Z.pow_add_r by lia. f_equal. lia.
  - rewrite counter_unlock_mask, counter_wrap, ins_eq, land_pow2, dirty_bits by lia.
    rewrite splitting_bit_eq in Hs. rewrite Hs, orb_false_r. destruct (Z.testbit v (L + 1)).
    + rewrite Z.shiftl_mul_pow2, <- Z.pow_add_r by lia. rewrite <- counter_add by lia. do 2 f_equal. rewrite Z.mul_1_l. f_equal. lia.
    + rewrite Z.shiftl_0_l, !Z.add_0_r. symmetry. apply Z.mod_small, counter_range.
Qed.
Lemma unlock_clean v : nv_dirty P (nv_unlock P v) = false /\ 0 <= nv_unlock P v.
Proof.
  pose proof (pos_order (P := P)). destruct mask_nonneg as [Hm1 Hm2]. rewrite dirty_bits. unfold nv_unlock.
  case_match; rewrite !Z.land_spec, ?split_mask_bits, ?unlock_mask_bits by lia; (split; [|apply Z.land_nonneg; by right]).
  - rewrite !(proj2 (Z.ltb_lt _ S')) by lia. by rewrite !orb_true_r, !andb_false_r.
  - rewrite !(proj2 (Z.ltb_lt _ (L + 3))) by lia. by rewrite !orb_true_r, !andb_false_r.
Qed.
Lemma unlock_delta_bound v : (nv_dirty P v = true -> 1 <= unlock_delta v) /\ 0 <= unlock_delta v
  /\ (nv_dirty P v = false -> unlock_delta v = 0) /\ unlock_delta v <= split_weight.
Proof.
  destruct weights as (HM & HK & HQ). unfold unlock_delta. pose proof (Z.mod_pos_bound (counter v) split_weight HK).
  rewrite dirty_bits, splitting_bit_eq. destruct (Z.testbit v (L + 2)), (Z.testbit v (L + 1)); simpl; split_and!; intros; lia || done.
Qed.

(** The marks touch neither the counter nor, except for announcing, the dirty bits. *)
Record mark_ok (f : Z -> Z) : Prop := {
  mk_counter v : counter (f v) = counter v;
  mk_nonneg v : 0 <= v -> 0 <= f v;
  mk_dirty v : nv_dirty P v = true -> nv_dirty P (f v) = true }.
Lemma lor_mark f m : 0 <= m -> (forall i, L + 3 <= i < U -> Z.testbit m i = false) -> (forall v, f v = Z.lor v m) -> mark_ok f.
Proof.
  intros Hm Hb Hf. split; intros v; rewrite Hf.
  - apply counter_same. intros i Hi. by rewrite Z.lor_spec, Hb, orb_false_r.
  - intros Hv. by apply Z.lor_nonneg.
  - rewrite !dirty_bits, !Z.lor_spec. intros [-> | ->]%orb_true_iff; simpl; by rewrite ?orb_true_r.
Qed.
Lemma lor_mark_pow2 f p : 0 <= p -> p < L + 3 \/ U <= p -> (forall v, f v = Z.lor v (2 ^ p)) -> mark_ok f.
Proof.
  intros Hp Hpos Hf. apply (lor_mark f (2 ^ p)); [apply Z.pow_nonneg; lia| |done]. intros i Hi.
  rewrite Z.pow2_bits_eqb by lia. apply Z.eqb_neq. lia.
Qed.
Lemma marks_ok f :
  f ∈ [mark_insert P; mark_split P; mark_change P false; mark_change P true; mark_deleted P; mark_deleted_tree P; mark_root P; mark_nonroot P] ->
  mark_ok f.
Proof.
  pose proof (pos_order (P := P)) as Hpos. rewrite !elem_of_cons, elem_of_nil. intros [->|[->|[->|[->|[->|[->|[->|[->|[]]]]]]]]].
  - apply (lor_mark_pow2 _ (L + 1)); [lia|lia|]. intros v. unfold mark_insert. by rewrite ins_eq.
  - apply (lor_mark_pow2 _ (L + 2)); [lia|lia|]. intros v. unfold mark_split. by rewrite split_eq.
  - apply (lor_mark_pow2 _ (L + 1)); [lia|lia|]. intros v. unfold mark_change. simpl. by rewrite ishift_eq, Z.shiftl_1_l.
  - apply (lor_mark_pow2 _ (L + 2)); [lia|lia|]. intros v. unfold mark_change. simpl. rewrite ishift_eq, Z.shiftl_mul_pow2 by lia.
    replace (L + 2) with (1 + (L + 1)) by lia. by rewrite (Z.pow_add_r 2 1) by lia.
  - apply (lor_mark _ (Z.lor (deleted_bit P) (splitting_bit P))); [| |done].
    + rewrite deleted_eq, split_eq. apply Z.lor_nonneg. split; apply Z.pow_nonneg; lia.
    + intros i Hi. rewrite deleted_eq, split_eq, Z.lor_spec, !Z.pow2_bits_eqb by lia.
      apply orb_false_iff. split; apply Z.eqb_neq; lia.
  - apply (lor_mark_pow2 _ (U + 1)); [lia|lia|]. intros v. unfold mark_deleted_tree. by rewrite deleted_eq.
  - apply (lor_mark_pow2 _ (U + 2)); [lia|lia|]. intros v. unfold mark_root. by rewrite root_eq.
  - assert (Hbit : forall v i, 0 <= i < U -> Z.testbit (mark_nonroot P v) i = Z.testbit v i).
    { intros v i Hi. unfold mark_nonroot, wrap. rewrite Z.land_spec, Z.mod_pow2_bits_low, Z.lnot_spec, root_eq, Z.pow2_bits_eqb by lia.
      rewrite (proj2 (Z.eqb_neq (U + 2) i)) by lia. apply andb_true_r. }
    split; intros v.
    + apply counter_same. intros i Hi. apply Hbit. lia.
    + intros Hv. apply Z.land_nonneg. by left.
    + by rewrite !dirty_bits, !Hbit by lia.
Qed.

(** ** What a reader may conclude from an unchanged word *)
Lemma unchanged_bits v x i : 0 <= v -> 0 <= x -> has_changed P v x = false -> L < i -> Z.testbit v i = Z.testbit x i.
Proof.
  intros Hv Hx Hc Hi. pose proof (pos_order (P := P)). unfold has_changed in Hc. rewrite lock_eq in Hc. apply Z.ltb_ge in Hc.
  assert (H0 : Z.testbit (Z.lxor x v) i = false).
  { assert (0 <= Z.lxor x v) by (by apply Z.lxor_nonneg). destruct (decide (Z.lxor x v = 0)) as [->|]; [apply Z.bits_0|].
    apply Z.bits_above_log2; [done|]. apply Z.le_lt_trans with L; [|done].
    rewrite <- (Z.log2_pow2 L) by lia. by apply Z.log2_le_mono. }
  rewrite Z.lxor_spec in H0. by destruct (Z.testbit v i), (Z.testbit x i).
Qed.
Lemma unsplit_bits v x i : 0 <= v -> 0 <= x -> has_split_since P v x = false -> S' <= i -> Z.testbit v i = Z.testbit x i.
Proof.
  intros Hv Hx Hc Hi. pose proof (pos_order (P := P)). unfold has_split_since in Hc. rewrite vsplit_eq in Hc. apply Z.leb_gt in Hc.
  assert (H0 : Z.testbit (Z.lxor x v) i = false).
  { assert (0 <= Z.lxor x v) by (by apply Z.lxor_nonneg). destruct (decide (Z.lxor x v = 0)) as [->|]; [apply Z.bits_0|].
    apply Z.bits_above_log2; [done|]. apply Z.lt_le_trans with S'; [|done]. apply Z.log2_lt_pow2; lia. }
  rewrite Z.lxor_spec in H0. by destruct (Z.testbit v i), (Z.testbit x i).
Qed.
Lemma unsplit_counter v x : 0 <= v -> 0 <= x -> has_split_since P v x = false -> counter v / split_weight = counter x / split_weight.
Proof.
  intros Hv Hx Hs. pose proof (pos_order (P := P)). unfold split_weight. rewrite <- !Z.shiftr_div_pow2 by lia.
  apply Z.bits_inj'. intros i Hi. rewrite !Z.shiftr_spec, !counter_bits by lia. f_equal. apply unsplit_bits; lia || done.
Qed.

(** Unmarked writes keep what a reader counts on. *)
Lemma vouched_refl d : vouched d d.
Proof. split; try done. by destruct (d_removing d). Qed.
Lemma vouched_unmarked d0 d d' : vouched d0 d -> unmarked_write d d' -> vouched d0 d'.
Proof.
  intros [Hr Ho Hk Hs] Hw. destruct Hw as [d p k x Hi Hp|d p l1 l2 Hi He Hp|d p l1 l2 Hi He|d p x Hp].
  - split; try done. cbn [d_keys d_order]. intros q Hq. rewrite Hr in Hi. rewrite Hi in Hs. rewrite lookup_insert_ne; [by apply Hk|]. intros ->. apply Hp. by eapply sublist_subseteq.
  - split; try done. cbn [d_order]. rewrite Hr in Hi. rewrite Hi in *. etrans; [exact Hs|]. rewrite He. apply sublist_app; [done|]. by apply sublist_cons.
  - split; try done. cbn [d_order]. rewrite Hr in Hi. rewrite Hi in *. etrans; [|exact Hs]. rewrite He. apply sublist_app; [done|]. by apply sublist_cons.
  - by split.
Qed.
(** What has happened since a reader took the version of [s0]. *)
Record since (s0 s : VersionedNode) (T : Z) : Prop := {
  si_nonneg : 0 <= word s;
  si_counter : counter (word s) = (counter (word s0) + T) mod counter_mod;
  si_changes : Z.of_nat (changes s) - Z.of_nat (changes s0) <= T <= split_weight * (Z.of_nat (changes s) - Z.of_nat (changes s0));
  si_splits : Z.of_nat (splits s) - Z.of_nat (splits s0)
      <= (counter (word s0) + T) / split_weight - counter (word s0) / split_weight
      <= Z.of_nat (changes s) - Z.of_nat (changes s0);
  si_order : (splits s0 <= splits s)%nat;
  si_contents : (changes s0 < changes s)%nat \/ nv_dirty P (word s) = true \/ vouched (contents_of s0) (contents_of s) }.
Lemma since_refl s : 0 <= word s -> since s s 0.
Proof.
  intros Hv. split; rewrite ?Z.add_0_r, ?Z.sub_diag, ?Z.mul_0_r; try lia; [symmetry; apply Z.mod_small, counter_range|]. right; right. apply vouched_refl.
Qed.
(** The split counter after the counter has moved by [d]. *)
Lemma splits_move c d : 0 <= d <= split_weight -> c / split_weight <= (c + d) / split_weight <= c / split_weight + 1.
Proof.
  intros Hd. destruct weights as (HM & HK & HQ). split; [apply Z.div_le_mono; lia|].
  rewrite <- (Z.div_add c 1 split_weight) by lia. apply Z.div_le_mono; lia.
Qed.
Lemma since_word s0 s T w o d c : since s0 s T -> 0 <= w -> counter w = counter (word s) -> c = contents_of s ->
  (nv_dirty P (word s) = true -> nv_dirty P w = true) -> d = (changes s, splits s) ->
  since s0 (mkVersionedNode w o c d.1 d.2) T.
Proof.
  intros [Hn Hc Hch Hsp Ho Hd] Hw Hcw -> Hdirty ->. split; simpl; try done; [by rewrite Hcw|].
  destruct Hd as [?|[?|?]]; auto.
Qed.
Lemma next_split X : (X + (split_weight - X mod counter_mod mod split_weight)) / split_weight = X / split_weight + 1.
Proof.
  destruct weights as (HM & HK & HQ). rewrite HM, Z.rem_mul_r by lia.
  rewrite (Z.mul_comm split_weight ((_ / _) mod _)), Z_mod_plus_full, Zmod_mod. pose proof (Z.div_mod X split_weight ltac:(lia)).
  replace (X + (split_weight - X mod split_weight)) with ((X / split_weight + 1) * split_weight) by lia. by apply Z.div_mul, Z.neq_sym, Z.lt_neq.
Qed.
Lemma since_unlock s0 s T o : since s0 s T -> 0 <= T ->
  since s0 (mkVersionedNode (nv_unlock P (word s)) o (contents_of s)
    (if nv_dirty P (word s) then S (changes s) else changes s)
    (if nv_splitting P (word s) then S (splits s) else splits s)) (T + unlock_delta (word s)).
Proof.
  intros [Hn Hc Hch Hsp Ho Hd] HT. destruct (unlock_delta_bound (word s)) as (Hd1 & Hd2 & Hd3 & Hd4).
  destruct (unlock_clean (word s)) as [Hcl Hnn]. destruct weights as (HM & HK & HQ).
  pose proof (splits_move (counter (word s0) + T) (unlock_delta (word s)) ltac:(lia)) as Hmove. rewrite <- Z.add_assoc in Hmove.
  assert (Hsplit : nv_splitting P (word s) = true -> nv_dirty P (word s) = true
    /\ (counter (word s0) + (T + unlock_delta (word s))) / split_weight = (counter (word s0) + T) / split_weight + 1).
  { intros Hs. split; [rewrite dirty_bits; rewrite splitting_bit_eq in Hs; by rewrite Hs, orb_true_r|].
    unfold unlock_delta. rewrite Hs, Hc, Z.add_assoc. apply next_split. }
  split; cbn [word changes splits contents_of].
  - done.
  - rewrite counter_unlock, Hc, Zplus_mod_idemp_l. f_equal. lia.
  - destruct (nv_dirty P (word s)); [|rewrite Hd3 by done]; lia.
  - destruct (nv_splitting P (word s)); [destruct (Hsplit eq_refl) as [-> Heq]; lia|].
    destruct (nv_dirty P (word s)); [lia|]. rewrite Hd3 in * by done. rewrite Z.add_0_r in *. lia.
  - destruct (nv_splitting P (word s)); lia.
  - destruct Hd as [Hlt|[Hdirty|Hvo]]; [left; destruct (nv_dirty P (word s)); lia|left; rewrite Hdirty; lia|by right; right].
Qed.
Lemma lock_mark_ok : mark_ok (fun v => Z.lor v (lock_bit P)).
Proof. pose proof (pos_order (P := P)). apply (lor_mark_pow2 _ L); [lia|lia|]. intros v. by rewrite lock_eq. Qed.
Lemma since_step s0 s s' T : since s0 s T -> 0 <= T -> node_step P s s' -> exists T', 0 <= T' /\ since s0 s' T'.
Proof.
  intros Hs HT Hst. destruct Hst as [t s w Ho Hl|t s f Ho Hf|t s d Ho Hw|t s d Ho Hdirty|t s Ho].
  - exists T. split; [done|]. unfold nv_try_lock in Hl. case_match; [|done]. injection Hl as <-.
    destruct lock_mark_ok as [Hc Hn Hd]. apply (since_word s0 s T _ _ (changes s, splits s)); auto. apply Hn. apply Hs.
  - exists T. split; [done|]. destruct (marks_ok f Hf) as [Hc Hn Hd].
    apply (since_word s0 s T _ _ (changes s, splits s)); auto. apply Hn. apply Hs.
  - exists T. split; [done|]. destruct Hs as [Hn Hc Hch Hsp Hord Hd]. split; try done. simpl. destruct Hd as [?|[?|Hvo]]; [by left|by right; left|]. right; right. by eapply vouched_unmarked.
  - exists T. split; [done|]. destruct Hs as [Hn Hc Hch Hsp Hord Hd]. split; try done. simpl. by right; left.
  - exists (T + unlock_delta (word s)). destruct (unlock_delta_bound (word s)) as (_ & Hd & _).
    split; [lia|by apply since_unlock].
Qed.
Lemma since_steps s0 s : 0 <= word s0 -> rtc (node_step P) s0 s -> exists T, 0 <= T /\ since s0 s T.
Proof.
  intros Hv Hr. revert s Hr. apply (rtc_ind_r (fun s => exists T, 0 <= T /\ since s0 s T)).
  - exists 0. split; [done|by apply since_refl].
  - intros s s' Hr Hst (T & HT & Hs). by eapply since_step.
Qed.
Lemma fresh_steps_nonneg isleaf d s : rtc (node_step P) (fresh_node P isleaf d) s -> 0 <= word s.
Proof.
  intros Hr. destruct (since_steps (fresh_node P isleaf d) s) as (T & _ & Hs); [|done|apply Hs].
  simpl. unfold new_nodeversion. destruct isleaf; [|done]. pose proof (pos_order (P := P)). rewrite leaf_eq. apply Z.pow_nonneg. lia.
Qed.
Lemma modulus_same a T m : 0 <= a < m -> 0 <= T < m -> (a + T) mod m = a -> T = 0.
Proof.
  intros Ha HT H. destruct (Z.lt_ge_cases (a + T) m); [rewrite Z.mod_small in H by lia; lia|].
  assert ((a + T) mod m = a + T - m) by (symmetry; apply Z.mod_unique_pos with 1; lia). lia.
Qed.
(** A change that has begun ends with an unlock that counts it. *)
Lemma change_lasts m s : rtc (node_step P) m s -> (changes m <= changes s)%nat /\ (nv_dirty P (word m) = true -> (changes m < changes s)%nat \/ nv_dirty P (word s) = true).
Proof.
  revert s. apply rtc_ind_r; [by auto|]. intros s s' _ Hst [Hle Hd]. destruct Hst as [t s w Ho Hl|t s f Ho Hf|t s d Ho Hw|t s d Ho Hdirty|t s Ho]; cbn [changes word].
  - split; [done|]. intros [?|Hs]%Hd; [by left|right]. unfold nv_try_lock in Hl. case_match; [|done]. injection Hl as <-. by apply (mk_dirty _ lock_mark_ok).
  - split; [done|]. intros [?|Hs]%Hd; [by left|right]. by apply (mk_dirty _ (marks_ok f Hf)).
  - by split.
  - by split.
  - split; [destruct (nv_dirty P (word s)); lia|]. intros [?|Hs]%Hd; [left; destruct (nv_dirty P (word s)); lia|left; rewrite Hs; lia].
Qed.
Lemma reader_unchanged s0 m s : 0 <= word s0 -> rtc (node_step P) s0 m -> rtc (node_step P) m s -> nv_dirty P (word s0) = false ->
  Z.of_nat (changes s) < Z.of_nat (changes s0) + split_mod ->
  (has_changed P (word s) (word s0) = false -> vouched (contents_of s0) (contents_of m))
  /\ (has_split_since P (word s) (word s0) = false -> splits s = splits s0).
Proof.
  intros Hv Hr0 Hr1 Hcl Hlim. pose proof (pos_order (P := P)) as Hpos. destruct weights as (HM & HK & HQ). assert (Hr : rtc (node_step P) s0 s) by (by etrans).
  destruct (since_steps s0 s Hv Hr) as (T & HT & [Hn Hc Hch Hsp Hord _]). pose proof (counter_range (word s0)) as Hr00. split.
  - intros Hu. assert (Hsame : counter (word s) = counter (word s0)).
    { apply counter_same. intros i Hi. apply unchanged_bits; lia || done. }
    assert (T < counter_mod) by (rewrite HM; nia). rewrite Hc in Hsame. apply modulus_same in Hsame; [|done|lia].
    assert (Hnd : nv_dirty P (word s) = false).
    { rewrite <- Hcl, !dirty_bits. f_equal; apply unchanged_bits; lia || done. }
    destruct (since_steps s0 m Hv Hr0) as (Tm & _ & Hm). destruct (change_lasts m s Hr1) as [Hle Hla].
    destruct (si_contents _ _ _ Hm) as [Hlt|[Hdirty|Hvo]]; [lia| |done]. destruct (Hla Hdirty); [|congruence]. destruct (change_lasts s0 m Hr0) as [? _]. lia.
  - intros Hu. apply unsplit_counter in Hu; [|done|done]. rewrite Hc, HM in Hu.
    rewrite Z.rem_mul_r, (Z.mul_comm split_weight), Z.div_add, Z.div_small, Z.add_0_l in Hu by (try apply Z.mod_pos_bound; lia).
    set (a := counter (word s0) / split_weight) in *.
    assert (Ha : 0 <= a < split_mod).
    { split; [apply Z.div_pos; lia|]. apply Z.div_lt_upper_bound; lia. }
    replace ((counter (word s0) + T) / split_weight) with (a + ((counter (word s0) + T) / split_weight - a)) in Hu by lia.
    apply modulus_same in Hu; [|done|]; [lia|]. split; [|lia].
    enough (a <= (counter (word s0) + T) / split_weight) by lia. apply Z.div_le_mono; lia.
Qed.
End Layout.


(** ** Concrete runs *)
Module NodeVersionExamples.
#[local] Abbreviation P := nodeversion32_parameters.

(** A writer locks, announces an insertion, writes and unlocks. *)
Definition leaf_data : node_data := mkData [0] {[0 := 7]} {[0 := 70]} false 0.
Definition before : VersionedNode := fresh_node P true leaf_data.
Definition during : VersionedNode := mkVersionedNode (mark_insert P (Z.lor (isleaf_bit P) 1)) (Some 1%nat) (mkData [] ∅ ∅ false 0) 0 0.
Definition after : VersionedNode := mkVersionedNode (nv_unlock P (word during)) None (mkData [] ∅ ∅ false 0) 1 0.
Lemma locks_and_writes : rtc (node_step P) before during.
Proof.
  eapply rtc_l; [apply (ns_lock P 1 before); [done|vm_compute; reflexivity]|].
  eapply rtc_l; [apply (ns_mark P 1 _ (mark_insert P)); [done|apply elem_of_cons; by left]|].
  eapply rtc_l; [apply (ns_write P 1 _ (mkData [] ∅ ∅ false 0)); [done|vm_compute; reflexivity]|]. apply rtc_refl.
Qed.
Lemma writes_and_unlocks : rtc (node_step P) before after.
Proof. eapply rtc_r; [apply locks_and_writes|]. by apply (ns_unlock P 1 during). Qed.
Example readers_notice : has_changed P (word during) (word before) = true /\ has_changed P (word after) (word before) = true
  /\ has_split_since P (word after) (word before) = false /\ stable P (word during) = None.
Proof. vm_compute. done. Qed.
(** A writer fills slot 1, lets it enter behind slot 0 and unlocks, all without a mark: the
    version is as before, and a reader may see the leaf without or with the new key. *)
Definition filled_slot : VersionedNode := mkVersionedNode (Z.lor (isleaf_bit P) 1) (Some 1%nat) (mkData [0] {[1 := 9; 0 := 7]} {[1 := 90; 0 := 70]} false 0) 0 0.
Definition entered : VersionedNode := mkVersionedNode (isleaf_bit P) None (mkData [0; 1] {[1 := 9; 0 := 7]} {[1 := 90; 0 := 70]} false 0) 0 0.
Lemma fills_slot : rtc (node_step P) before filled_slot.
Proof.
  eapply rtc_l; [apply (ns_lock P 1 before); [done|vm_compute; reflexivity]|].
  eapply rtc_l; [apply (ns_unmarked P 1); [done|apply (uw_assign leaf_data 1 9 90); [done|set_solver]]|]. apply rtc_refl.
Qed.
Lemma slot_enters : rtc (node_step P) filled_slot entered.
Proof.
  eapply rtc_l; [apply (ns_unmarked P 1); [done|apply (uw_finish_insert _ 1 [0] []); [done|done|cbn; set_solver]]|].
  eapply rtc_l; [apply (ns_unlock P 1); done|]. apply rtc_refl.
Qed.


(** 64 insertions carry into the split counter: a reader then takes them for a split. *)
Fixpoint insertions (n : nat) (v : Z) : Z :=
  match n with O => v | S n => insertions n (nv_unlock P (mark_insert P (Z.lor v (lock_bit P)))) end.
Example insertions_look_like_split :
  has_split_since P (insertions 63 (word before)) (word before) = false
  /\ has_split_since P (insertions 64 (word before)) (word before) = true.
Proof. vm_compute. done. Qed.
End NodeVersionExamples.
