(* ===== verification/MassKey.v ===== *)
(** * Keys of Masstree

    Models [string_slice.hh] and [masstree_key.hh] of
    [src/src/indices/mass_tree/thread] for 64-bit slices on a little-endian machine with
    unaligned access, as [config.h] configures it.  A key is a slice of a string as a
    byte-swapped integer, the length of the rest, and a pointer into the string; shifting
    moves it to the next layer of the tree.  A string is a list of bytes in memory, a
    pointer an index into it. *)

From S2P Require Import Prelude Permuter KSearch.

(** ** Words and bytes *)
Definition byte_ok (b : Z) : Prop := 0 <= b < 256.
Definition le_word (bs : list Z) : Z := foldr (fun b a => b + 256 * a) 0 bs.
Fixpoint le_bytes (n : nat) (x : Z) : list Z :=
  match n with O => [] | S n => x mod 256 :: le_bytes n (x / 256) end.
(** [net_to_host_order] and [host_to_net_order] of [compiler.hh] on a little-endian machine. *)
Definition byteswap (x : Z) : Z := le_word (reverse (le_bytes 8 x)).
(** The [n] bytes at [s]. *)
Definition load (mem : list Z) (s n : Z) : outcome (list Z) :=
  if decide (0 <= s /\ 0 <= n /\ s + n <= Z.of_nat (length mem)) then Ok (take (Z.to_nat n) (drop (Z.to_nat s) mem))
  else Fault OutOfBounds.

(** ** [string_slice<uint64_t>] *)
Definition slice_size : Z := 8.
Definition slice_make (mem : list Z) (s len : Z) : outcome Z :=
  if len <=? 0 then Ok 0
  else if slice_size <=? len then bs ← load mem s slice_size; Ok (le_word bs)
  else bs ← load mem s (Z.min len slice_size); Ok (le_word (bs ++ replicate (Z.to_nat (slice_size - Z.min len slice_size)) 0)).
Definition slice_make_comparable (mem : list Z) (s len : Z) : outcome Z :=
  x ← slice_make mem s len; Ok (byteswap x).
Definition slice_make_sloppy (mem : list Z) (s len : Z) : outcome Z :=
  if len <=? 0 then Ok 0
  else if slice_size <=? len then bs ← load mem s slice_size; Ok (le_word bs)
  else bs ← load mem (s - (slice_size - len)) slice_size; Ok (Z.shiftr (le_word bs) (8 * (slice_size - len))).
Definition slice_make_comparable_sloppy (mem : list Z) (s len : Z) : outcome Z :=
  x ← slice_make_sloppy mem s len; Ok (byteswap x).
(** The bytes written to the buffer. *)
Definition unparse_comparable (buflen value len : Z) : list Z :=
  let u := le_bytes 8 (byteswap value) in
  take (Z.to_nat (Z.min (Z.min len slice_size) buflen)) u.
Definition equals_sloppy (ma : list Z) (a : Z) (mb : list Z) (b len : Z) : outcome bool :=
  if len <=? slice_size then
    x ← load ma a slice_size; y ← load mb b slice_size;
    let delta := Z.lxor (le_word x) (le_word y) in
    if len <=? 0 then Ok true else Ok (u64 (Z.shiftl delta (8 * (slice_size - len))) =? 0)
  else x ← load ma a len; y ← load mb b len; Ok (bool_decide (x = y)).

(** ** [key<uint64_t>] *)
Definition ikey_size : Z := 8.
Record key : Type := mkKey { k_mem : list Z; ikey0 : Z; klen : Z; k_s : Z; k_first : Z }.
Definition key_of_string (mem : list Z) (s len : Z) : outcome key :=
  x ← slice_make_comparable mem s len; Ok (mkKey mem x len s s).
Definition key_of_ikey_len (ikey len : Z) : key := mkKey [] ikey (Z.min len ikey_size) 0 0.

Definition key_empty (k : key) : bool := (ikey0 k =? 0) && (klen k =? 0).
Definition ikeylen (k : key) : Z := Z.min (klen k) (ikey_size + 1).
Definition has_suffix (k : key) : bool := ikey_size <? klen k.
Definition key_suffix (k : key) : Z * Z := (k_s k + ikey_size, klen k - ikey_size).
Definition suffix_length (k : key) : Z := klen k - ikey_size.
Definition key_shift (k : key) : outcome key :=
  x ← slice_make_comparable_sloppy (k_mem k) (k_s k + ikey_size) (klen k - ikey_size);
  Ok (mkKey (k_mem k) x (klen k - ikey_size) (k_s k + ikey_size) (k_first k)).
Definition is_shifted (k : key) : bool := negb (k_first k =? k_s k).
Definition unshift_all (k : key) : outcome key :=
  if negb (k_s k =? k_first k) then
    let len := klen k + (k_s k - k_first k) in
    x ← slice_make_comparable (k_mem k) (k_first k) len;
    Ok (mkKey (k_mem k) x len (k_first k) (k_first k))
  else Ok k.

(** [::compare] of [compiler.hh]. *)
Definition compare (a b : Z) : Z := if a =? b then 0 else if a <? b then -1 else 1.
Definition key_compare (k : key) (ikey keylenx : Z) : Z :=
  let cmp := compare (ikey0 k) ikey in
  if cmp =? 0 then
    let al := klen k in
    if ikey_size <? al then Z.b2z (keylenx <=? ikey_size) else al - keylenx
  else cmp.
Definition compare_ikey (k : key) (ikey : Z) : Z := compare (ikey0 k) ikey.
Definition compare_len (k : key) (keylenx : Z) : Z :=
  let al := klen k in if ikey_size <? al then Z.b2z (keylenx <=? ikey_size) else al - keylenx.

Definition key_unparse (k : key) (datalen : Z) : outcome (list Z) :=
  let cplen := Z.min (klen k) datalen in
  let data := unparse_comparable cplen (ikey0 k) ikey_size in
  if ikey_size <? cplen then rest ← load (k_mem k) (k_s k + ikey_size) (cplen - ikey_size); Ok (data ++ rest)
  else Ok data.
Definition prefix_length (k : key) : Z := k_s k - k_first k.
Definition full_string (k : key) : Z * Z := (k_first k, k_s k + klen k - k_first k).
(** The key after [increment] and whether it wrapped. *)
Definition key_increment (k : key) : key * bool :=
  if has_suffix k then
    let x := u64 (ikey0 k + 1) in (mkKey (k_mem k) x 1 (k_s k) (k_first k), x =? 0)
  else (mkKey (k_mem k) (ikey0 k) (klen k + 1) (k_s k) (k_first k), false).
Definition key_unshift (k : key) : outcome key :=
  let s := k_s k - ikey_size in
  x ← slice_make_comparable_sloppy (k_mem k) s ikey_size;
  Ok (mkKey (k_mem k) x (ikey_size + 1) s (k_first k)).
Definition shift_clear (k : key) : key := mkKey (k_mem k) 0 0 (k_s k + ikey_size) (k_first k).
Definition shift_clear_reverse (k : key) : key := mkKey (k_mem k) (u64 (Z.lnot 0)) (ikey_size + 1) (k_s k + ikey_size) (k_first k).

(** [key_compare] with a slot of a leaf, whose arrays hold slices and lengths, and with a
    [massnode_multivalue], which drops the second comparison. *)
Definition key_compare_leaf (k : key) (ikeys keylenxs : Z -> Z) (p : Z) : Z := key_compare k (ikeys p) (keylenxs p).
Definition key_compare_massnode (k : key) (ikeys keylenxs : Z -> Z) (p : Z) : Z :=
  let cmp := compare_ikey k (ikeys p) in
  if cmp =? 0 then compare_len k (keylenxs p) else cmp.
Definition key_compare_multivalue (k : key) (ikeys keylenxs : Z -> Z) (p : Z) : Z := compare_ikey k (ikeys p).

(** ** Reference: lexicographic order *)
Fixpoint lex_compare (a b : list Z) : Z :=
  match a, b with
  | [], [] => 0
  | [], _ => -1
  | _, [] => 1
  | x :: a, y :: b => if x =? y then lex_compare a b else if x <? y then -1 else 1
  end.
(** What a layer sees of a string: eight bytes, and whether there is more. *)
Definition layer_string (l : list Z) : list Z := take 8 l ++ (if (8 <? length l)%nat then [256] else []).

(** ** Bytes and words *)
Lemma le_word_app a b : le_word (a ++ b) = le_word a + 256 ^ Z.of_nat (length a) * le_word b.
Proof.
  induction a as [|x a IH]; [simpl; lia|]. cbn [le_word foldr app length] in *. fold (le_word (a ++ b)). fold (le_word a).
  rewrite Nat2Z.inj_succ, Z.pow_succ_r by lia. rewrite IH. lia.
Qed.
Lemma le_word_range l : Forall byte_ok l -> 0 <= le_word l < 256 ^ Z.of_nat (length l).
Proof.
  induction 1 as [|x l Hx Hl IH]; [done|]. cbn [le_word foldr length]. fold (le_word l). rewrite Nat2Z.inj_succ, Z.pow_succ_r by lia.
  unfold byte_ok in Hx. lia.
Qed.
Lemma le_bytes_word l : Forall byte_ok l -> le_bytes (length l) (le_word l) = l.
Proof.
  induction 1 as [|x l Hx Hl IH]; [done|]. cbn [le_word foldr length le_bytes]. fold (le_word l). unfold byte_ok in Hx.
  rewrite (Z.mul_comm 256), Z_mod_plus_full, Z.div_add, Z.mod_small, Z.div_small by lia. f_equal. exact IH.
Qed.
Lemma le_word_zeros n : le_word (replicate n 0) = 0.
Proof. induction n as [|n IH]; [done|]. cbn [replicate le_word foldr]. fold (le_word (replicate n 0)). lia. Qed.
Lemma byteswap_word l : length l = 8%nat -> Forall byte_ok l -> byteswap (le_word l) = le_word (reverse l).
Proof. intros Hl Hb. unfold byteswap. rewrite <- Hl. by rewrite le_bytes_word. Qed.

(** Eight bytes, filled up with zeros. *)
Definition padded (l : list Z) : list Z := take 8 l ++ replicate (8 - length l) 0.
Lemma padded_length l : length (padded l) = 8%nat.
Proof. unfold padded. rewrite length_app, length_take, length_replicate. lia. Qed.
Lemma padded_ok l : Forall byte_ok l -> Forall byte_ok (padded l).
Proof. intros. apply Forall_app. split; [by apply Forall_take|]. apply Forall_replicate. unfold byte_ok. lia. Qed.
Definition slice_of (l : list Z) : Z := le_word (reverse (padded l)).

(** The string of a pointer and a length. *)
Definition string_at (mem : list Z) (s len : Z) : list Z := take (Z.to_nat len) (drop (Z.to_nat s) mem).
Lemma string_at_length mem s len : 0 <= s -> 0 <= len -> s + len <= Z.of_nat (length mem) -> length (string_at mem s len) = Z.to_nat len.
Proof. intros. unfold string_at. rewrite length_take, length_drop. lia. Qed.
Lemma load_ok mem s n : 0 <= s -> 0 <= n -> s + n <= Z.of_nat (length mem) -> load mem s n = Ok (string_at mem s n).
Proof. intros. unfold load. by rewrite decide_True. Qed.

Section Slices.
Context (mem : list Z) (s len : Z).
Context (Hmem : Forall byte_ok mem) (Hs : 0 <= s) (Hlen : 0 <= len) (Hin : s + len <= Z.of_nat (length mem)).

Lemma string_at_ok : Forall byte_ok (string_at mem s len).
Proof. by apply Forall_take, Forall_drop. Qed.
Lemma slice_make_padded : slice_make mem s len = Ok (le_word (padded (string_at mem s len))).
Proof.
  pose proof (string_at_length mem s len Hs Hlen Hin) as Hl. unfold slice_make, slice_size, padded. rewrite Hl.
  destruct (Z.leb_spec len 0).
  - assert (len = 0) as -> by lia. simpl. done.
  - destruct (Z.leb_spec 8 len).
    + rewrite load_ok by lia. cbn [mbind outcome_bind]. replace (8 - Z.to_nat len)%nat with 0%nat by lia. rewrite app_nil_r.
      unfold string_at. rewrite take_take, Nat.min_l by lia. done.
    + rewrite Z.min_l, load_ok by lia. cbn [mbind outcome_bind]. rewrite (take_ge (string_at mem s len)) by lia.
      by replace (Z.to_nat (8 - len)) with (8 - Z.to_nat len)%nat by lia.
Qed.
Lemma slice_make_comparable_ok : slice_make_comparable mem s len = Ok (slice_of (string_at mem s len)).
Proof.
  unfold slice_make_comparable. rewrite slice_make_padded. cbn [mbind outcome_bind].
  rewrite byteswap_word; [done|apply padded_length|apply padded_ok, string_at_ok].
Qed.
(** The reads before the string, shifted out, do not matter. *)
Lemma slice_make_sloppy_ok : len < 8 -> 8 - len <= s -> slice_make_sloppy mem s len = slice_make mem s len.
Proof.
  intros Hshort Hbefore. rewrite slice_make_padded. pose proof (string_at_length mem s len Hs Hlen Hin) as Hl.
  unfold slice_make_sloppy, slice_size. destruct (Z.leb_spec len 0).
  - assert (len = 0) as -> by lia. unfold padded. rewrite Hl. done.
  - rewrite (proj2 (Z.leb_gt 8 len)), load_ok by lia. cbn [mbind outcome_bind]. f_equal. unfold padded. rewrite Hl, take_ge by lia.
    rewrite le_word_app, le_word_zeros, Z.mul_0_r, Z.add_0_r.
    assert (Hsplit : string_at mem (s - (8 - len)) 8 = string_at mem (s - (8 - len)) (8 - len) ++ string_at mem s len).
    { unfold string_at. replace (Z.to_nat 8) with (Z.to_nat (8 - len) + Z.to_nat len)%nat by lia.
      rewrite <- take_take_drop, drop_drop. do 3 f_equal. lia. }
    rewrite Hsplit, le_word_app, string_at_length by lia.
    pose proof (le_word_range (string_at mem (s - (8 - len)) (8 - len)) ltac:(by apply Forall_take, Forall_drop)) as Hr.
    rewrite string_at_length, Z2Nat.id in Hr by lia.
    rewrite Z2Nat.id, Z.shiftr_div_pow2 by lia. rewrite (Z.pow_mul_r 2 8) by lia. change (2 ^ 8) with 256.
    rewrite Z.mul_comm, Z.div_add, Z.div_small by lia. lia.
Qed.
End Slices.

(** ** Lexicographic order and integers *)
Lemma compare_sgn a b : compare a b = Z.sgn (a - b).
Proof.
  unfold compare. destruct (Z.eqb_spec a b) as [->|]; [by rewrite Z.sub_diag|].
  destruct (Z.ltb_spec a b); symmetry; [apply Z.sgn_neg|apply Z.sgn_pos]; lia.
Qed.
Lemma lex_compare_values a : forall b, Z.sgn (lex_compare a b) = lex_compare a b.
Proof. induction a as [|x a IH]; intros [|y b]; simpl; try done. destruct (x =? y); [apply IH|by destruct (x <? y)]. Qed.
Lemma lex_compare_eq a : forall b, lex_compare a b = 0 -> a = b.
Proof.
  induction a as [|x a IH]; intros [|y b]; simpl; try done. destruct (Z.eqb_spec x y) as [->|].
  - intros H. f_equal. by apply IH.
  - case_match; done.
Qed.
Lemma lex_compare_prefix a x y : lex_compare (a ++ x) (a ++ y) = lex_compare x y.
Proof. induction a as [|z a IH]; simpl; [done|]. by rewrite Z.eqb_refl. Qed.
Lemma lex_compare_refl a : lex_compare a a = 0.
Proof. rewrite <- (app_nil_r a). apply lex_compare_prefix. Qed.
Lemma lex_compare_nil x a : lex_compare (x :: a) [] = 1 /\ lex_compare [] (x :: a) = -1.
Proof. done. Qed.
(** What follows two strings does not matter once they differ. *)
Lemma lex_compare_app x y : forall a b, lex_compare a b <> 0 -> x = [] \/ (length b <= length a)%nat -> y = [] \/ (length a <= length b)%nat ->
  lex_compare (a ++ x) (b ++ y) = lex_compare a b.
Proof.
  induction a as [|u a IH]; intros [|v b]; simpl; try done.
  - intros _ [->|] _; [done|lia].
  - intros _ _ [->|]; [done|lia].
  - destruct (u =? v); [|done]. intros Hne Hx Hy. apply IH; [done|destruct Hx; [by left|right; lia]|destruct Hy; [by left|right; lia]].
Qed.
Lemma big_endian_compare a : forall b, length a = length b -> Forall byte_ok a -> Forall byte_ok b ->
  compare (le_word (reverse a)) (le_word (reverse b)) = lex_compare a b.
Proof.
  induction a as [|x a IH]; intros [|y b] Hl Ha Hb; simpl in Hl; try lia; [done|].
  apply Forall_cons in Ha as [Hx Ha]. apply Forall_cons in Hb as [Hy Hb]. rewrite !reverse_cons, !le_word_app, !length_reverse.
  replace (length b) with (length a) by lia. cbn [lex_compare].
  assert (Hra : 0 <= le_word (reverse a) < 256 ^ Z.of_nat (length a)).
  { rewrite <- (length_reverse a). by apply le_word_range, Forall_reverse. }
  assert (Hrb : 0 <= le_word (reverse b) < 256 ^ Z.of_nat (length a)).
  { replace (length a) with (length (reverse b)) by (rewrite length_reverse; lia). by apply le_word_range, Forall_reverse. }
  replace (le_word [x]) with x by (cbn; lia). replace (le_word [y]) with y by (cbn; lia).
  destruct (Z.eqb_spec x y) as [->|Hne].
  - rewrite <- IH by (done || lia). rewrite !compare_sgn. f_equal. lia.
  - unfold compare. destruct (Z.ltb_spec x y).
    + rewrite (proj2 (Z.eqb_neq _ _)), (proj2 (Z.ltb_lt _ _)) by nia. done.
    + rewrite (proj2 (Z.eqb_neq _ _)), (proj2 (Z.ltb_ge _ _)) by nia. done.
Qed.

(** Zeros fill up: they order strings unless one is the other with zeros behind it. *)
Definition fill (n : nat) (a : list Z) : list Z := a ++ replicate (n - length a) 0.
Lemma fill_nil n : fill (S n) [] = 0 :: fill n [].
Proof. unfold fill. simpl. by rewrite Nat.sub_0_r. Qed.
Lemma lex_compare_cons x a y b : lex_compare (x :: a) (y :: b) = if x =? y then lex_compare a b else if x <? y then -1 else 1.
Proof. done. Qed.
Lemma lex_compare_fill n : forall a b, (length a <= n)%nat -> (length b <= n)%nat -> Forall byte_ok a -> Forall byte_ok b ->
  lex_compare a b = if lex_compare (fill n a) (fill n b) =? 0 then Z.sgn (Z.of_nat (length a) - Z.of_nat (length b))
                    else lex_compare (fill n a) (fill n b).
Proof.
  assert (Hempty : forall b, lex_compare [] b = if lex_compare [] b =? 0 then 0 else -1) by (by intros [|]).
  assert (Hempty' : forall a, lex_compare a [] = if lex_compare a [] =? 0 then 0 else 1) by (by intros [|]).
  induction n as [|n IH]; intros a b Hla Hlb Ha Hb; [destruct a, b; simpl in *; lia || done|].
  destruct a as [|x a], b as [|y b]; cbn [length] in *.
  - by rewrite !lex_compare_refl.
  - apply Forall_cons in Hb as [Hy Hb]. unfold byte_ok in Hy. change (fill (S n) (y :: b)) with (y :: fill n b).
    rewrite fill_nil, lex_compare_cons. specialize (IH [] b ltac:(simpl; lia) ltac:(lia) ltac:(done) Hb). specialize (Hempty b).
    destruct (Z.eqb_spec 0 y); [|by rewrite (proj2 (Z.ltb_lt 0 y)) by lia].
    destruct (Z.eqb_spec (lex_compare (fill n []) (fill n b)) 0); [symmetry; apply Z.sgn_neg; lia|].
    rewrite <- IH in *. rewrite Hempty. by rewrite (proj2 (Z.eqb_neq _ _)).
  - apply Forall_cons in Ha as [Hx Ha]. unfold byte_ok in Hx. change (fill (S n) (x :: a)) with (x :: fill n a).
    rewrite fill_nil, lex_compare_cons. specialize (IH a [] ltac:(lia) ltac:(simpl; lia) Ha ltac:(done)). specialize (Hempty' a).
    destruct (Z.eqb_spec x 0); [|by rewrite (proj2 (Z.ltb_ge x 0)) by lia].
    destruct (Z.eqb_spec (lex_compare (fill n a) (fill n [])) 0); [symmetry; apply Z.sgn_pos; lia|].
    rewrite <- IH in *. rewrite Hempty'. by rewrite (proj2 (Z.eqb_neq _ _)).
  - apply Forall_cons in Ha as [Hx Ha]. apply Forall_cons in Hb as [Hy Hb].
    change (fill (S n) (x :: a)) with (x :: fill n a). change (fill (S n) (y :: b)) with (y :: fill n b). rewrite !lex_compare_cons.
    destruct (Z.eqb_spec x y); [|by destruct (x <? y)]. rewrite (IH a b) by (done || lia).
    destruct (lex_compare (fill n a) (fill n b) =? 0); [|done]. f_equal. lia.
Qed.
Lemma padded_fill l : padded l = fill 8 (take 8 l).
Proof. unfold padded, fill. rewrite length_take. do 2 f_equal. lia. Qed.

(** The comparison of a key with the slice and the length of another. *)
Lemma key_compare_layers k a b : Forall byte_ok a -> Forall byte_ok b -> ikey0 k = slice_of a -> klen k = Z.of_nat (length a) ->
  Z.sgn (key_compare k (slice_of b) (Z.of_nat (length b))) = lex_compare (layer_string a) (layer_string b).
Proof.
  intros Ha Hb Hk Hl. unfold key_compare, slice_of in *. rewrite Hk, Hl.
  rewrite big_endian_compare by (by rewrite ?padded_length || by apply padded_ok). rewrite !padded_fill.
  assert (Hab : lex_compare (take 8 a) (take 8 b)
    = if lex_compare (fill 8 (take 8 a)) (fill 8 (take 8 b)) =? 0 then Z.sgn (Z.of_nat (length (take 8 a)) - Z.of_nat (length (take 8 b)))
      else lex_compare (fill 8 (take 8 a)) (fill 8 (take 8 b))).
  { apply lex_compare_fill; try (rewrite length_take; lia); by apply Forall_take. }
  set (c := lex_compare (fill 8 (take 8 a)) (fill 8 (take 8 b))) in *. unfold layer_string, ikey_size.
  destruct (Z.eqb_spec c 0) as [Hc|Hc].
  - rewrite !length_take in Hab.
    destruct (Z.ltb_spec 8 (Z.of_nat (length a))), (Nat.ltb_spec 8 (length a)), (Nat.ltb_spec 8 (length b)); try lia.
    + rewrite (proj2 (Z.leb_gt _ _)) by lia. rewrite !Nat.min_l, Z.sub_diag in Hab by lia. apply lex_compare_eq in Hab as ->.
      by rewrite lex_compare_prefix.
    + rewrite (proj2 (Z.leb_le _ _)) by lia. destruct (Nat.eq_dec (length b) 8%nat) as [H8|H8].
      * rewrite H8, Nat.min_l, Z.sub_diag in Hab by lia. apply lex_compare_eq in Hab as ->. by rewrite lex_compare_prefix.
      * rewrite Z.sgn_pos in Hab by lia. rewrite lex_compare_app; [by rewrite Hab|by rewrite Hab|right; rewrite !length_take; lia|by left].
    + rewrite Z.sgn_neg by lia. destruct (Nat.eq_dec (length a) 8%nat) as [H8|H8].
      * replace (8 `min` length b)%nat with 8%nat in Hab by lia. rewrite H8, Z.sub_diag in Hab. apply lex_compare_eq in Hab as ->.
        by rewrite lex_compare_prefix.
      * rewrite (Z.sgn_neg) in Hab by lia. rewrite lex_compare_app; [by rewrite Hab|by rewrite Hab|by left|right; rewrite !length_take; lia].
    + rewrite !app_nil_r, Hab. f_equal. lia.
  - rewrite lex_compare_app; [| |destruct (Nat.ltb_spec 8 (length a))|destruct (Nat.ltb_spec 8 (length b))];
      rewrite ?length_take; try (left; done); try (right; lia).
    + rewrite Hab. apply lex_compare_values.
    + congruence.
Qed.

(** ** Shifting *)
Fixpoint shifts (n : nat) (k : key) : outcome key :=
  match n with O => Ok k | S n => k ← key_shift k; shifts n k end.
(** The key of the string at [s], in the tree of a string that starts at [first]. *)
Definition key_at (mem : list Z) (first s len : Z) : key := mkKey mem (slice_of (string_at mem s len)) len s first.

Section Shifting.
Context (mem : list Z) (s len : Z).
Context (Hmem : Forall byte_ok mem) (Hs : 0 <= s) (Hlen : 0 <= len) (Hin : s + len <= Z.of_nat (length mem)).

Lemma key_of_string_ok : key_of_string mem s len = Ok (key_at mem s s len).
Proof. unfold key_of_string. by rewrite slice_make_comparable_ok. Qed.
Lemma key_shift_ok first d : 0 <= d -> d + 8 < len ->
  key_shift (key_at mem first (s + d) (len - d)) = Ok (key_at mem first (s + (d + 8)) (len - (d + 8))).
Proof.
  intros Hd Hd'. unfold key_shift, key_at, ikey_size, slice_make_comparable_sloppy. cbn [k_mem k_s klen k_first].
  replace (s + d + 8) with (s + (d + 8)) by lia. replace (len - d - 8) with (len - (d + 8)) by lia.
  assert (Hsl : slice_make_sloppy mem (s + (d + 8)) (len - (d + 8)) = slice_make mem (s + (d + 8)) (len - (d + 8))).
  { destruct (Z.lt_ge_cases (len - (d + 8)) 8); [apply slice_make_sloppy_ok; done || lia|].
    unfold slice_make_sloppy, slice_make, slice_size. rewrite (proj2 (Z.leb_le 8 (len - (d + 8)))) by lia. done. }
  rewrite Hsl. pose proof (slice_make_comparable_ok mem (s + (d + 8)) (len - (d + 8)) Hmem ltac:(lia) ltac:(lia) ltac:(lia)) as Hc.
  unfold slice_make_comparable in Hc. destruct (slice_make mem (s + (d + 8)) (len - (d + 8))); [|done]. cbn [mbind outcome_bind] in *. congruence.
Qed.
Lemma shifts_ok n : forall d, 0 <= d -> d + 8 * Z.of_nat n < len \/ n = O ->
  shifts n (key_at mem s (s + d) (len - d)) = Ok (key_at mem s (s + (d + 8 * Z.of_nat n)) (len - (d + 8 * Z.of_nat n))).
Proof.
  induction n as [|n IH]; intros d Hd Hn; [by rewrite Z.add_0_r|]. cbn [shifts]. rewrite key_shift_ok by lia.
  cbn [mbind outcome_bind]. rewrite IH by lia. do 2 f_equal; lia.
Qed.
Lemma unshift_all_ok d : 0 <= d <= len -> unshift_all (key_at mem s (s + d) (len - d)) = Ok (key_at mem s s len).
Proof.
  intros Hd. unfold unshift_all, key_at. cbn [k_mem k_s klen k_first]. destruct (Z.eqb_spec (s + d) s) as [He|He]; cbn [negb].
  - assert (d = 0) as -> by lia. by rewrite Z.add_0_r, Z.sub_0_r.
  - replace (len - d + (s + d - s)) with len by lia. by rewrite slice_make_comparable_ok.
Qed.
Lemma key_unparse_ok first datalen : len <= datalen -> key_unparse (key_at mem first s len) datalen = Ok (string_at mem s len).
Proof.
  intros Hd. unfold key_unparse, key_at, unparse_comparable, ikey_size, slice_size. cbn [k_mem k_s klen ikey0]. rewrite Z.min_l by lia.
  pose proof (string_at_length mem s len Hs Hlen Hin) as Hl. pose proof (string_at_ok mem s len Hmem) as Hok.
  assert (Hb : le_bytes 8 (byteswap (slice_of (string_at mem s len))) = padded (string_at mem s len)).
  { unfold slice_of. rewrite byteswap_word, reverse_involutive; [|by rewrite length_reverse, padded_length|by apply Forall_reverse, padded_ok].
    rewrite <- (padded_length (string_at mem s len)). by apply le_bytes_word, padded_ok. }
  rewrite Hb. destruct (Z.ltb_spec 8 len).
  - rewrite load_ok by lia. cbn [mbind outcome_bind]. f_equal. rewrite Z.min_id, Z.min_l by lia. unfold padded. rewrite Hl.
    replace (8 - Z.to_nat len)%nat with 0%nat by lia. rewrite app_nil_r, take_take. simpl.
    rewrite <- (take_drop 8 (string_at mem s len)) at 2. f_equal. unfold string_at. rewrite skipn_firstn_comm, drop_drop. f_equal; [lia|f_equal; lia].
  - f_equal. rewrite (Z.min_l 8 8), Z.min_r by lia. unfold padded. rewrite (take_ge (string_at mem s len)) by lia. rewrite take_app_le by lia.
    apply take_ge. lia.
Qed.
End Shifting.

(** C36: the comparison of keys is the lexicographic order of their strings, as far as one
    layer of the tree sees them.  For strings in memory, constructing keys succeeds, and
    the sign of [compare] is that of the lexicographic comparison of the first eight
    bytes, where a prefix is smaller and a string that goes on behind eight bytes is
    greater than one that ends there; two that go on are equal in this layer. *)
Theorem key_compare_lexicographic ma sa la mb sb lb :
  Forall byte_ok ma -> Forall byte_ok mb -> 0 <= sa -> 0 <= la -> sa + la <= Z.of_nat (length ma) ->
  0 <= sb -> 0 <= lb -> sb + lb <= Z.of_nat (length mb) ->
  exists ka kb, key_of_string ma sa la = Ok ka /\ key_of_string mb sb lb = Ok kb
    /\ Z.sgn (key_compare ka (ikey0 kb) (klen kb))
       = lex_compare (layer_string (string_at ma sa la)) (layer_string (string_at mb sb lb)).
Proof.
  intros Hma Hmb Hsa Hla Hia Hsb Hlb Hib. exists (key_at ma sa sa la), (key_at mb sb sb lb).
  split_and!; [by apply key_of_string_ok|by apply key_of_string_ok|]. unfold key_at at 2 3. cbn [ikey0 klen].
  pose proof (string_at_length mb sb lb Hsb Hlb Hib) as Hl. pose proof (string_at_length ma sa la Hsa Hla Hia) as Hl'.
  rewrite <- (Z2Nat.id lb) at 2 by done. rewrite <- Hl.
  apply key_compare_layers; [by apply string_at_ok|by apply string_at_ok|done|]. simpl. lia.
Qed.

(** Shifting a key walks along its string and can be undone.  After [n] shifts of the
    key of a string longer than [8 * n] bytes, the key is that of the rest of the string
    (slice, length and printed form), although its slice is read with the access that may
    touch bytes in front of a short rest; [unshift_all] returns the original key, and
    printing a key gives its string back. *)
Theorem key_shift_roundtrip mem s len n :
  Forall byte_ok mem -> 0 <= s -> 0 <= len -> s + len <= Z.of_nat (length mem) -> 8 * Z.of_nat n < len ->
  exists k k', key_of_string mem s len = Ok k /\ shifts n k = Ok k'
    /\ ikey0 k' = slice_of (string_at mem (s + 8 * Z.of_nat n) (len - 8 * Z.of_nat n)) /\ klen k' = len - 8 * Z.of_nat n
    /\ key_unparse k' (klen k') = Ok (string_at mem (s + 8 * Z.of_nat n) (len - 8 * Z.of_nat n))
    /\ unshift_all k' = Ok k /\ key_unparse k len = Ok (string_at mem s len).
Proof.
  intros Hm Hs Hl Hin Hn. exists (key_at mem s s len), (key_at mem s (s + 8 * Z.of_nat n) (len - 8 * Z.of_nat n)).
  pose proof (shifts_ok mem s len Hm Hs Hin n 0 ltac:(lia) ltac:(left; lia)) as Hsh. rewrite Z.add_0_r, Z.sub_0_r, Z.add_0_l in Hsh.
  split_and!; [by apply key_of_string_ok|done|done|done| | |].
  - apply key_unparse_ok; simpl; done || lia.
  - apply unshift_all_ok; done || lia.
  - apply key_unparse_ok; done || lia.
Qed.

(** ** Searching a leaf *)
Lemma lex_compare_trans a : forall b c, lex_compare a b <= 0 -> lex_compare b c < 0 -> lex_compare a c < 0.
Proof.
  induction a as [|x a IH]; intros [|y b] [|z c]; cbn [lex_compare]; try lia.
  destruct (Z.eqb_spec x y) as [->|]; destruct (Z.eqb_spec y z) as [->|].
  - rewrite ?Z.eqb_refl. apply IH.
  - destruct (Z.eqb_spec y z); [done|]. by destruct (y <? z).
  - destruct (Z.eqb_spec x z); [done|]. destruct (x <? z); lia.
  - destruct (Z.ltb_spec x y), (Z.ltb_spec y z), (Z.eqb_spec x z), (Z.ltb_spec x z); lia.
Qed.

Section LeafSearch.
(** A leaf: the string of each slot, its arrays of slices and lengths, and the order of
    the slots. *)
Context (perm : key_permuter) (slot_string : Z -> list Z).
Context (Hbytes : forall p, Forall byte_ok (slot_string p)).
Definition leaf_ikey (p : Z) : Z := slice_of (slot_string p).
Definition leaf_keylenx (p : Z) : Z := Z.of_nat (length (slot_string p)).
Definition leaf_sorted : Prop := forall i j, 0 <= i < j -> j < kp_size perm ->
  lex_compare (layer_string (slot_string (kp_at perm i))) (layer_string (slot_string (kp_at perm j))) < 0.

(** The comparison with the slots of a sorted leaf is what the searches need, so a search
    for a string finds the slot that holds it, or says that there is none. *)
Lemma leaf_search_finds mem s len fuel max_size method :
  Forall byte_ok mem -> 0 <= s -> 0 <= len -> s + len <= Z.of_nat (length mem) ->
  0 <= kp_size perm < Z.of_nat fuel -> leaf_sorted ->
  exists i p, key_bound_lower_with_position perm (key_compare_leaf (key_at mem s s len) leaf_ikey leaf_keylenx) max_size method fuel = Ok (i, p)
    /\ ((0 <= i < kp_size perm /\ p = kp_at perm i /\ layer_string (slot_string p) = layer_string (string_at mem s len))
        \/ (p = -1 /\ forall j, 0 <= j < kp_size perm -> layer_string (slot_string (kp_at perm j)) <> layer_string (string_at mem s len))).
Proof.
  intros Hm Hs Hl Hin Hn Hsorted. set (cmp := key_compare_leaf (key_at mem s s len) leaf_ikey leaf_keylenx).
  set (a := string_at mem s len).
  assert (Hcmp : forall p, Z.sgn (cmp p) = lex_compare (layer_string a) (layer_string (slot_string p))).
  { intros p. apply key_compare_layers; [by apply string_at_ok|done|done|]. simpl. unfold a. rewrite string_at_length by done. lia. }
  assert (Hks : keys_sorted perm cmp).
  { intros i j Hi Hj Hc. specialize (Hsorted i j Hi Hj).
    assert (Ha : lex_compare (layer_string a) (layer_string (slot_string (kp_at perm i))) <= 0)
      by (rewrite <- Hcmp; by apply Z.sgn_nonpos).
    pose proof (lex_compare_trans _ _ _ Ha Hsorted) as Hlt. rewrite <- Hcmp in Hlt.
    destruct (Z.lt_ge_cases (cmp (kp_at perm j)) 0) as [|Hge]; [done|]. apply Z.sgn_nonneg in Hge. lia. }
  assert (Hzero : forall j, layer_string (slot_string (kp_at perm j)) = layer_string a -> cmp (kp_at perm j) = 0).
  { intros j Hj. apply Z.sgn_null_iff. by rewrite Hcmp, Hj, lex_compare_refl. }
  rewrite (position_search_ok perm cmp (proj1 Hn) Hks fuel (proj2 Hn)). do 2 eexists. split; [done|].
  destruct (position_loop_ok perm cmp Hks fuel 0 (kp_size perm)) as (b & _ & Hb); [lia..|].
  unfold position_of. rewrite (splits_lower perm cmp b Hb). destruct Hb as [Hr Hlo Hhi].
  destruct (Z.ltb_spec b (kp_size perm)) as [Hlt|Hge]; cbn [andb].
  - destruct (Z.eqb_spec (cmp (kp_at perm b)) 0) as [He|He].
    + left. split_and!; [lia|lia|done|]. symmetry. apply lex_compare_eq. by rewrite <- Hcmp, He.
    + right. split; [done|]. intros j Hj Hcj%Hzero. destruct (Z.lt_trichotomy j b) as [|[->|]].
      * specialize (Hlo j ltac:(lia)). simpl in Hlo. lia.
      * done.
      * specialize (Hhi b ltac:(lia)). simpl in Hhi. pose proof (Hks b j). lia.
  - right. split; [done|]. intros j Hj Hcj%Hzero.
    specialize (Hlo j ltac:(lia)). simpl in Hlo. lia.
Qed.
End LeafSearch.

(** ** Concrete keys *)
Module KeyExamples.
(** "masstree" and "masstreekey", and "mass" with a zero byte behind it. *)
Definition masstree : list Z := [109; 97; 115; 115; 116; 114; 101; 101].
Definition masstreekey : list Z := masstree ++ [107; 101; 121].
Lemma bytes_ok : Forall byte_ok masstreekey.
Proof. repeat constructor; unfold byte_ok; lia. Qed.
Lemma key_compare_lexicographic_witness :
  exists ka kb, key_of_string masstreekey 0 8 = Ok ka /\ key_of_string masstreekey 0 11 = Ok kb
    /\ Z.sgn (key_compare ka (ikey0 kb) (klen kb)) = -1.
Proof.
  exact (key_compare_lexicographic masstreekey 0 8 masstreekey 0 11 bytes_ok bytes_ok ltac:(lia) ltac:(lia) ltac:(vm_compute; done)
           ltac:(lia) ltac:(lia) ltac:(vm_compute; done)).
Defined.
Lemma key_shift_roundtrip_witness :
  exists k k', key_of_string masstreekey 0 11 = Ok k /\ shifts 1 k = Ok k'
    /\ ikey0 k' = slice_of (string_at masstreekey (0 + 8 * Z.of_nat 1) (11 - 8 * Z.of_nat 1)) /\ klen k' = 11 - 8 * Z.of_nat 1
    /\ key_unparse k' (klen k') = Ok (string_at masstreekey (0 + 8 * Z.of_nat 1) (11 - 8 * Z.of_nat 1))
    /\ unshift_all k' = Ok k /\ key_unparse k 11 = Ok (string_at masstreekey 0 11).
Proof.
  apply (key_shift_roundtrip masstreekey 0 11 1 bytes_ok); [lia|lia|vm_compute; done|lia].
Defined.

(** The comparison of a [massnode_multivalue] takes "mass" and "mass" with a zero byte for
    equal: the result of [compare_len] is dropped. *)
Lemma multivalue_ignores_length :
  let ikeys := fun _ => slice_of [109; 97; 115; 115] in let lens := fun _ => 4 in
  let k := key_at [109; 97; 115; 115; 0] 0 0 5 in
  key_compare_massnode k ikeys lens 0 = 1 /\ key_compare_multivalue k ikeys lens 0 = 0.
Proof. vm_compute. done. Qed.
End KeyExamples.
