(* ===== verification/MassBag.v ===== *)
(** * String bags and rows of Masstree

    Models [src/src/indices/mass_tree/thread/stringbag.hh], the compact array of key
    suffixes of a leaf, and the parts of [value_bag.hh] that the index uses: rows of one
    column. *)

From S2P Require Import Prelude MassKey.

(** ** Comparing strings eight bytes at a time *)
Lemma le_word_take n l : (n <= length l)%nat -> Forall byte_ok l -> le_word l mod 2 ^ (8 * Z.of_nat n) = le_word (take n l).
Proof.
  intros Hn Hl. rewrite <- (take_drop n l) at 1. rewrite le_word_app, length_take, Nat.min_l by done.
  replace (2 ^ (8 * Z.of_nat n)) with (256 ^ Z.of_nat n) by (change 256 with (2 ^ 8); by rewrite <- Z.pow_mul_r by lia).
  rewrite Z.mul_comm, Z_mod_plus_full. apply Z.mod_small. pose proof (le_word_range (take n l) ltac:(by apply Forall_take)) as Hr.
  by rewrite length_take, Nat.min_l in Hr by done.
Qed.
Lemma le_word_inj a b : length a = length b -> Forall byte_ok a -> Forall byte_ok b -> le_word a = le_word b -> a = b.
Proof. intros Hl Ha Hb H. rewrite <- (le_bytes_word a Ha), <- (le_bytes_word b Hb), Hl. by rewrite H. Qed.
Lemma low_bits_equal x y len : 0 <= x < 2 ^ 64 -> 0 <= y < 2 ^ 64 -> 0 < len <= 8 ->
  (u64 (Z.shiftl (Z.lxor x y) (8 * (8 - len))) =? 0) = bool_decide (x mod 2 ^ (8 * len) = y mod 2 ^ (8 * len)).
Proof.
  intros Hx Hy Hl. assert (Hbit : forall i, 0 <= i < 64 -> Z.testbit (u64 (Z.shiftl (Z.lxor x y) (8 * (8 - len)))) i
    = (8 * (8 - len) <=? i) && xorb (Z.testbit x (i - 8 * (8 - len))) (Z.testbit y (i - 8 * (8 - len)))).
  { intros i Hi. unfold u64, wrap. rewrite Z.mod_pow2_bits_low by lia. destruct (Z.leb_spec (8 * (8 - len)) i).
    - by rewrite Z.shiftl_spec_high, Z.lxor_spec by lia.
    - by rewrite Z.shiftl_spec_low by lia. }
  destruct (Z.eqb_spec (u64 (Z.shiftl (Z.lxor x y) (8 * (8 - len)))) 0) as [H|H]; symmetry; [apply bool_decide_eq_true|apply bool_decide_eq_false].
  - apply Z.bits_inj'. intros i Hi. destruct (Z.lt_ge_cases i (8 * len)); [|by rewrite !Z.mod_pow2_bits_high by lia].
    rewrite !Z.mod_pow2_bits_low by lia. pose proof (Hbit (i + 8 * (8 - len)) ltac:(lia)) as Hb. rewrite H, Z.bits_0 in Hb.
    replace (8 * (8 - len) <=? i + 8 * (8 - len)) with true in Hb by (symmetry; apply Z.leb_le; lia).
    replace (i + 8 * (8 - len) - 8 * (8 - len)) with i in Hb by lia. simpl in Hb. by destruct (Z.testbit x i), (Z.testbit y i).
  - intros He. apply H. apply Z.bits_inj'. intros i Hi. rewrite Z.bits_0. destruct (Z.lt_ge_cases i 64) as [Hi'|Hi'].
    + rewrite Hbit by lia. destruct (Z.leb_spec (8 * (8 - len)) i); [|done]. simpl.
      rewrite <- (Z.mod_pow2_bits_low x (8 * len)), <- (Z.mod_pow2_bits_low y (8 * len)), He by lia. apply xorb_nilpotent.
    + unfold u64, wrap. by rewrite Z.mod_pow2_bits_high by lia.
Qed.
Lemma equals_sloppy_ok ma a mb b len : Forall byte_ok ma -> Forall byte_ok mb -> 0 <= a -> 0 <= b -> 0 < len ->
  a + Z.max len 8 <= Z.of_nat (length ma) -> b + Z.max len 8 <= Z.of_nat (length mb) ->
  equals_sloppy ma a mb b len = Ok (bool_decide (string_at ma a len = string_at mb b len)).
Proof.
  intros Hma Hmb Ha Hb Hl Hina Hinb. unfold equals_sloppy, slice_size. destruct (Z.leb_spec len 8).
  - rewrite !load_ok by lia. cbn [mbind outcome_bind]. destruct (Z.leb_spec len 0); [lia|]. f_equal.
    set (x := string_at ma a 8). set (y := string_at mb b 8).
    assert (Hx : length x = 8%nat) by (unfold x; rewrite string_at_length by lia; done). assert (Hy : length y = 8%nat) by (unfold y; rewrite string_at_length by lia; done).
    assert (Hxb : Forall byte_ok x) by (by apply string_at_ok). assert (Hyb : Forall byte_ok y) by (by apply string_at_ok).
    pose proof (le_word_range x Hxb) as Hrx. pose proof (le_word_range y Hyb) as Hry. rewrite Hx in Hrx. rewrite Hy in Hry.
    change (256 ^ Z.of_nat 8) with (2 ^ 64) in *. rewrite low_bits_equal by lia.
    replace (8 * len) with (8 * Z.of_nat (Z.to_nat len)) by lia. rewrite !le_word_take by (try done; lia).
    assert (Htx : take (Z.to_nat len) x = string_at ma a len) by (unfold x, string_at; rewrite take_take; f_equal; lia).
    assert (Hty : take (Z.to_nat len) y = string_at mb b len) by (unfold y, string_at; rewrite take_take; f_equal; lia).
    rewrite Htx, Hty. apply bool_decide_ext. split; [|by intros ->].
    apply le_word_inj; [by rewrite !string_at_length by lia|by apply string_at_ok|by apply string_at_ok].
  - rewrite !load_ok by lia. done.
Qed.

(** ** Writing into memory *)
Lemma string_at_zero mem s : string_at mem s 0 = [].
Proof. done. Qed.
Lemma memcpy_string mem s len d pos : Forall byte_ok mem -> Forall byte_ok d -> 0 <= pos -> 0 <= s -> 0 <= len ->
  pos + len <= Z.of_nat (length d) -> s + len <= Z.of_nat (length mem) ->
  exists d', memcpy d pos mem s len = Ok d' /\ length d' = length d /\ Forall byte_ok d' /\ string_at d' pos len = string_at mem s len
    /\ forall q l, 0 <= q -> 0 <= l -> q + l <= pos \/ pos + len <= q -> string_at d' q l = string_at d q l.
Proof.
  intros Hmem Hd Hp Hs Hl Hin Hin'. unfold memcpy. rewrite decide_True by lia. eexists. split; [done|].
  change (take (Z.to_nat len) (drop (Z.to_nat s) mem)) with (string_at mem s len).
  pose proof (string_at_length mem s len Hs Hl Hin') as Hlen. split_and!.
  - rewrite !length_app, Hlen, length_take, length_drop. lia.
  - repeat (apply Forall_app; split); [by apply Forall_take|by apply string_at_ok|by apply Forall_drop].
  - unfold string_at at 1. rewrite drop_app_length' by (rewrite length_take; lia). by rewrite take_app_length' by lia.
  - intros q l Hq Hl' [?|?]; unfold string_at at 1 3.
    + apply list_eq. intros i. destruct (decide (i < Z.to_nat l)%nat); [|by rewrite !lookup_take_ge by lia].
      rewrite !lookup_take_lt, !lookup_drop by lia. rewrite lookup_app_l by (rewrite length_take; lia). by rewrite lookup_take_lt by lia.
    + f_equal. rewrite drop_app_ge by (rewrite length_take; lia). rewrite drop_app_ge by (rewrite Hlen, length_take; lia).
      rewrite Hlen, length_take, drop_drop. f_equal. lia.
Qed.

(** ** [stringbag<T>], whose offsets have [T] bits *)
Section Stringbag.
Context (T : Z).

(** [info_] and [s_] share memory in the code: the strings start behind the header.  Bytes
    that were never written are zero here. *)
Record stringbag : Type := mkBag { size_ : Z; capacity_ : Z; info_ : list (Z * Z); s_ : list Z }.
Definition max_size : Z := 2 ^ T.
Definition overhead (width : Z) : Z := 2 * (T / 8) + width * (2 * (T / 8)).
Definition safe_size (width len : Z) : Z := overhead width + len + slice_size - 1.
Definition new_stringbag (width capacity : Z) : stringbag :=
  mkBag (wrap T (overhead width)) (wrap T (capacity - 1)) (replicate (Z.to_nat width) (0, 0)) (replicate (Z.to_nat capacity) 0).
Definition bag_capacity (b : stringbag) : Z := capacity_ b + 1.
Definition used_capacity (b : stringbag) : Z := size_ b.
(** The position and the length of a string in [s_]. *)
Definition bag_get (b : stringbag) (p : Z) : outcome (Z * Z) := array_get (info_ b) p.
Definition bag_equals (b : stringbag) (p : Z) (mem : list Z) (s len : Z) : outcome bool :=
  '(pos, l) ← bag_get b p;
  if l =? len then x ← load (s_ b) pos len; y ← load mem s len; Ok (bool_decide (x = y)) else Ok false.
Definition bag_equals_sloppy (b : stringbag) (p : Z) (mem : list Z) (s len : Z) : outcome bool :=
  '(pos, l) ← bag_get b p;
  if negb (l =? len) then Ok false else equals_sloppy mem s (s_ b) pos len.
Definition bag_compare (b : stringbag) (p : Z) (mem : list Z) (s len : Z) : outcome Z :=
  '(pos, l) ← bag_get b p;
  let minlen := Z.min len l in
  x ← load (s_ b) pos minlen; y ← load mem s minlen;
  let cmp := lex_compare x y in
  Ok (if negb (cmp =? 0) then cmp else compare l len).
(** A string written over the header would change [info_]: a fault. *)
Definition bag_store (b : stringbag) (p pos size : Z) (mem : list Z) (s len : Z) : outcome (bool * stringbag) :=
  if (0 <? len) && (pos <? overhead (Z.of_nat (length (info_ b)))) then Fault OutOfBounds
  else
    d ← memcpy (s_ b) pos mem s len;
    i ← array_set (info_ b) p (wrap T pos, wrap T len);
    Ok (true, mkBag size (capacity_ b) i d).
Definition bag_assign (b : stringbag) (p : Z) (mem : list Z) (s len : Z) : outcome (bool * stringbag) :=
  '(ppos, mylen) ← bag_get b p;
  if len <=? mylen then bag_store b p ppos (size_ b) mem s len
  else if size_ b + Z.max len slice_size <=? bag_capacity b then bag_store b p (size_ b) (wrap T (size_ b + len)) mem s len
  else Ok (false, b).

(** ** What a bag holds *)
Definition bag_string (b : stringbag) (p : Z) : list Z :=
  match info_ b !! Z.to_nat p with Some (pos, len) => string_at (s_ b) pos len | None => [] end.
Definition bag_len (b : stringbag) (p : Z) : Z := match info_ b !! Z.to_nat p with Some (_, len) => len | None => 0 end.
Record bag_ok (width : Z) (b : stringbag) : Prop := {
  bk_width : Z.of_nat (length (info_ b)) = width;
  bk_mem : Z.of_nat (length (s_ b)) = bag_capacity b;
  bk_size : overhead width <= size_ b <= bag_capacity b;
  bk_small : bag_capacity b < max_size;
  bk_bytes : Forall byte_ok (s_ b);
  bk_info i pos len : info_ b !! i = Some (pos, len) -> 0 <= len /\ (len = 0 \/ (overhead width <= pos /\ pos + len <= size_ b /\ pos + slice_size <= bag_capacity b));
  bk_apart i j pi li pj lj : info_ b !! i = Some (pi, li) -> info_ b !! j = Some (pj, lj) -> i <> j -> li = 0 \/ lj = 0 \/ pi + li <= pj \/ pj + lj <= pi }.

Context (HT : T = 8 \/ T = 16).
Lemma overhead_pos width : 0 <= width -> 0 < overhead width.
Proof. intros. unfold overhead. destruct HT as [-> | ->]; [change (8 / 8) with 1|change (16 / 8) with 2]; lia. Qed.
Lemma new_bag_ok width capacity : 0 <= width -> overhead width <= capacity < max_size -> bag_ok width (new_stringbag width capacity).
Proof.
  intros Hw Hc. pose proof (overhead_pos width Hw). unfold max_size in *.
  assert (Hcap : bag_capacity (new_stringbag width capacity) = capacity) by (unfold bag_capacity; simpl; rewrite wrap_small; lia).
  assert (Hinfo : forall i x, info_ (new_stringbag width capacity) !! i = Some x -> x = (0, 0)) by (by intros i x [-> _]%lookup_replicate).
  split; rewrite ?Hcap.
  - simpl. rewrite length_replicate. lia.
  - simpl. rewrite length_replicate. lia.
  - simpl. rewrite wrap_small; lia.
  - unfold max_size. lia.
  - simpl. apply Forall_replicate. unfold byte_ok. lia.
  - intros i pos len [= -> ->]%Hinfo. lia.
  - intros i j pi li pj lj [= -> ->]%Hinfo. by left.
Qed.
Lemma new_bag_string width capacity p : bag_string (new_stringbag width capacity) p = [].
Proof. unfold bag_string. simpl. destruct (replicate _ _ !! _) as [[pos len]|] eqn:H; [|done]. apply lookup_replicate in H as [[= -> ->] _]. done. Qed.

Section Bags.
Context (width : Z) (b : stringbag) (Hb : bag_ok width b).
Lemma info_at p : 0 <= p < width -> exists pos len, info_ b !! Z.to_nat p = Some (pos, len) /\ bag_get b p = Ok (pos, len).
Proof.
  intros Hp. destruct (lookup_lt_is_Some_2 (info_ b) (Z.to_nat p)) as [[pos len] Hi]; [pose proof (bk_width _ _ Hb); lia|].
  exists pos, len. split; [done|]. unfold bag_get, array_get. rewrite decide_True by lia. by rewrite Hi.
Qed.
Lemma string_in_bag p pos len : info_ b !! p = Some (pos, len) -> len = 0 \/ (0 <= pos /\ pos + len <= Z.of_nat (length (s_ b)) /\ pos + 8 <= Z.of_nat (length (s_ b))).
Proof.
  intros Hi. pose proof (overhead_pos width ltac:(pose proof (bk_width _ _ Hb); lia)). destruct (bk_info _ _ Hb _ _ _ Hi) as [Hl [?|(? & ? & ?)]]; [by left|].
  right. rewrite (bk_mem _ _ Hb). destruct (bk_size _ _ Hb). unfold slice_size in *. lia.
Qed.
Lemma bag_string_length p : 0 <= p < width -> Z.of_nat (length (bag_string b p)) = bag_len b p.
Proof.
  intros Hp. destruct (info_at p Hp) as (pos & len & Hi & _). unfold bag_string, bag_len. rewrite Hi.
  destruct (bk_info _ _ Hb _ _ _ Hi) as [Hl _]. destruct (string_in_bag _ _ _ Hi) as [->|(? & ? & ?)]; [done|].
  rewrite string_at_length by lia. lia.
Qed.
Lemma bag_string_bytes p : Forall byte_ok (bag_string b p).
Proof. unfold bag_string. destruct (info_ b !! _) as [[pos len]|]; [|constructor]. apply string_at_ok, Hb. Qed.
(** Storing a string at a free place leaves the others alone. *)
Lemma bag_store_ok p pos size mem s len : 0 <= p < width -> 0 < len -> Forall byte_ok mem -> 0 <= s -> s + len <= Z.of_nat (length mem) ->
  overhead width <= pos -> pos + len <= size -> size_ b <= size <= bag_capacity b -> pos + slice_size <= bag_capacity b ->
  (forall i pi li, info_ b !! i = Some (pi, li) -> i <> Z.to_nat p -> li = 0 \/ pi + li <= pos \/ pos + len <= pi) ->
  exists b', bag_store b p pos size mem s len = Ok (true, b') /\ bag_ok width b' /\ bag_string b' p = string_at mem s len
    /\ (forall q, 0 <= q -> q <> p -> bag_string b' q = bag_string b q) /\ size_ b' = size /\ capacity_ b' = capacity_ b.
Proof.
  intros Hp Hl Hmem Hs Hin Ho Hps Hsize Hsl Hfree. pose proof (bk_width _ _ Hb) as Hw. pose proof (bk_mem _ _ Hb) as Hm. pose proof (bk_small _ _ Hb) as Hsm. unfold max_size in Hsm.
  pose proof (overhead_pos width ltac:(lia)).
  unfold bag_store. rewrite Hw. rewrite (proj2 (Z.ltb_ge pos (overhead width))), andb_false_r by lia.
  destruct (memcpy_string mem s len (s_ b) pos) as (d' & Hcp & Hld & Hbd & Hstr & Hoth); [done|apply Hb|lia..|].
  rewrite Hcp. cbn [mbind outcome_bind]. unfold array_set. rewrite decide_True by lia. cbn [mbind outcome_bind]. rewrite !wrap_small by lia.
  eexists. split; [done|]. set (b' := mkBag _ _ _ _).
  assert (Hip : info_ b' !! Z.to_nat p = Some (pos, len)) by (apply list_lookup_insert_eq; lia).
  assert (Hiq : forall i, i <> Z.to_nat p -> info_ b' !! i = info_ b !! i) by (intros i Hi; by apply list_lookup_insert_ne).
  split_and!; try done.
  - split; try done; [by rewrite <- Hw; simpl; rewrite length_insert|change (bag_capacity b') with (bag_capacity b); rewrite <- Hm; simpl; by rewrite Hld| | |].
    + destruct (bk_size _ _ Hb). change (bag_capacity b') with (bag_capacity b). simpl. lia.
    + intros i pi li Hi. destruct (decide (i = Z.to_nat p)) as [->|Hne].
      * rewrite Hip in Hi. injection Hi as <- <-. split; [lia|]. right. change (bag_capacity b') with (bag_capacity b). simpl. lia.
      * rewrite Hiq in Hi by done. destruct (bk_info _ _ Hb _ _ _ Hi) as [? [?|(? & ? & ?)]]; (split; [done|]); [by left|right]. change (bag_capacity b') with (bag_capacity b). simpl. lia.
    + intros i j pi li pj lj Hi Hj Hne. destruct (decide (i = Z.to_nat p)) as [->|Hip'].
      * rewrite Hip in Hi. injection Hi as <- <-. rewrite Hiq in Hj by done. destruct (Hfree _ _ _ Hj ltac:(done)) as [?|[?|?]]; lia.
      * rewrite Hiq in Hi by done. destruct (decide (j = Z.to_nat p)) as [->|Hjp].
        -- rewrite Hip in Hj. injection Hj as <- <-. destruct (Hfree _ _ _ Hi ltac:(done)) as [?|[?|?]]; lia.
        -- rewrite Hiq in Hj by done. by eapply (bk_apart _ _ Hb).
  - unfold bag_string. rewrite Hip. done.
  - intros q Hq Hne. unfold bag_string. rewrite Hiq by lia. destruct (info_ b !! Z.to_nat q) as [[pq lq]|] eqn:Hi; [|done].
    destruct (bk_info _ _ Hb _ _ _ Hi) as [Hlq Hpos]. destruct (Hfree _ _ _ Hi ltac:(lia)) as [->|Hap]; [by rewrite !string_at_zero|].
    destruct Hpos as [->|(? & ? & ?)]; [by rewrite !string_at_zero|]. apply Hoth; lia.
Qed.
(** [assign] stores the string, or fails and changes nothing; it fails only if the rest of
    the bag is too small. *)
Lemma bag_assign_ok p mem s len : 0 <= p < width -> 0 < len -> Forall byte_ok mem -> 0 <= s -> s + len <= Z.of_nat (length mem) ->
  (exists b', bag_assign b p mem s len = Ok (true, b') /\ bag_ok width b' /\ bag_string b' p = string_at mem s len
    /\ (forall q, 0 <= q -> q <> p -> bag_string b' q = bag_string b q) /\ size_ b' <= size_ b + len /\ capacity_ b' = capacity_ b)
  \/ (bag_assign b p mem s len = Ok (false, b) /\ bag_capacity b < size_ b + Z.max len 8).
Proof.
  intros Hp Hl Hmem Hs Hin. destruct (info_at p Hp) as (pos & l & Hi & Hget). unfold bag_assign. rewrite Hget. cbn [mbind outcome_bind].
  destruct (bk_info _ _ Hb _ _ _ Hi) as [Hlp Hpos]. pose proof (bk_size _ _ Hb) as Hsz. pose proof (bk_small _ _ Hb) as Hsm. unfold max_size in Hsm. unfold slice_size in *.
  destruct (Z.leb_spec len l).
  - left. destruct Hpos as [?|(? & ? & ?)]; [lia|]. destruct (bag_store_ok p pos (size_ b) mem s len) as (b' & ? & ? & ? & ? & ? & ?); try done; try (unfold slice_size; lia).
    { intros i pi li Hi' Hne. pose proof (bk_apart _ _ Hb _ _ _ _ _ _ Hi Hi' ltac:(done)). lia. }
    exists b'. split_and!; try done. lia.
  - destruct (Z.leb_spec (size_ b + Z.max len 8) (bag_capacity b)); [left|right; split; [done|lia]].
    pose proof (overhead_pos width ltac:(lia)). rewrite wrap_small by lia.
    destruct (bag_store_ok p (size_ b) (size_ b + len) mem s len) as (b' & ? & ? & ? & ? & ? & ?); try done; try (unfold slice_size; lia).
    { intros i pi li Hi' Hne. destruct (bk_info _ _ Hb _ _ _ Hi') as [_ [?|(? & ? & ?)]]; lia. }
    exists b'. split_and!; try done. lia.
Qed.
Lemma bag_equals_sloppy_ok p mem s len : 0 <= p < width -> 0 < len -> Forall byte_ok mem -> 0 <= s -> s + Z.max len 8 <= Z.of_nat (length mem) ->
  bag_equals_sloppy b p mem s len = Ok (bool_decide (string_at mem s len = bag_string b p)).
Proof.
  intros Hp Hl Hmem Hs Hin. destruct (info_at p Hp) as (pos & l & Hi & Hget). pose proof (bag_string_length p Hp) as Hlen. unfold bag_len in Hlen.
  unfold bag_equals_sloppy. rewrite Hget. cbn [mbind outcome_bind]. rewrite Hi in Hlen. destruct (Z.eqb_spec l len) as [->|Hne]; cbn [negb].
  - unfold bag_string. rewrite Hi. destruct (string_in_bag _ _ _ Hi) as [?|(? & ? & ?)]; [lia|]. apply equals_sloppy_ok; try done; try lia. apply Hb.
  - f_equal. symmetry. apply bool_decide_eq_false. intros H. rewrite <- H, string_at_length in Hlen; lia.
Qed.
End Bags.
End Stringbag.

(** With a capacity of [max_size], which the constructor allows, the size of a bag that is
    filled to its last byte wraps to zero; the next string is written over the header. *)
Lemma full_bag_wraps : exists b, bag_assign 8 (new_stringbag 8 2 256) 0 (replicate 250 7) 0 250 = Ok (true, b)
  /\ size_ b = 0 /\ bag_assign 8 b 1 (replicate 250 7) 0 8 = Fault OutOfBounds.
Proof. eexists. split; [vm_compute; reflexivity|]. vm_compute. done. Qed.

(** ** [value_bag<uint16_t>] *)
Record value_bag : Type := mkRow { row_ts : Z; ncol_ : Z; pos_ : list Z; d_s : list Z }.
Definition sizeof_bagdata : Z := 4.
Definition column_length (r : value_bag) (i : Z) : outcome Z :=
  a ← array_get (pos_ r) (i + 1); b ← array_get (pos_ r) i; Ok (u16 (a - b)).
Definition row_col (r : value_bag) (i : Z) : outcome (list Z) :=
  if u32 i <? ncol_ r then pos ← array_get (pos_ r) i; len ← column_length r i; load (d_s r) pos len else Ok [].
(** The header of a row is not part of its strings. *)
Definition create1 (str : list Z) (ts : Z) : value_bag :=
  let start := sizeof_bagdata + 2 in
  mkRow ts 1 [start; u16 (start + Z.of_nat (length str))] (replicate (Z.to_nat start) 0 ++ str).
Lemma create1_col str ts : Z.of_nat (length str) < 65530 -> row_col (create1 str ts) 0 = Ok str.
Proof.
  intros Hl. unfold row_col, create1, column_length, sizeof_bagdata. cbn [ncol_ pos_ d_s]. change (u32 0 <? 1) with true. cbn iota.
  change (array_get [4 + 2; u16 (4 + 2 + Z.of_nat (length str))] 0) with (Ok 6). cbn [mbind outcome_bind].
  change (array_get [4 + 2; u16 (4 + 2 + Z.of_nat (length str))] (0 + 1)) with (Ok (u16 (4 + 2 + Z.of_nat (length str)))). cbn [mbind outcome_bind].
  rewrite !u16_small by (rewrite ?u16_small; lia). replace (4 + 2 + Z.of_nat (length str) - 6) with (Z.of_nat (length str)) by lia.
  rewrite load_ok by (rewrite ?length_app, ?length_replicate; lia). f_equal. unfold string_at. rewrite drop_app_length' by done. apply take_ge. lia.
Qed.
