(* ===== verification/MassNode.v ===== *)
(** * Nodes of Masstree

    Models the leaves and inner nodes of [src/src/indices/mass_tree/thread/masstree_struct.hh],
    their splits in [masstree_split.hh] and the list of leaves in [btree_leaflink.hh], for
    the parameters of [default_query_table_params]: 15 slots, binary searches, 32-bit node
    versions.  Prefetching, event counters and statistics are left out, and the fences,
    which one thread does not need. *)

From S2P Require Import Prelude Permuter KSearch NodeVersion MassKey MassBag.

(** ** Nodes *)
#[local] Abbreviation P := nodeversion32_parameters.
Definition node_width : Z := 15.
(** [sizeof(leaf<P>)]. *)
Definition sizeof_leaf : Z := 312.
Definition layer_keylenx : Z := 8 + 1 + 128.
Definition modstate_insert : Z := 0.
Definition modstate_remove : Z := 1.
Definition modstate_deleted_layer : Z := 2.

(** [leafvalue]: a pointer to a row, null when empty, or to the root of a layer. *)
Inductive leafvalue : Type := LvValue (row : Z) | LvLayer (n : Z).
Definition lv_make_empty : leafvalue := LvValue 0.
(** [ksuf_] is the bag outside the leaf, [iksuf_] the one at its end. *)
Record leaf : Type := mkLeaf {
  l_version : Z;
  extrasize64_ : Z;
  modstate_ : Z;
  keylenx_ : list Z;
  permutation_ : Z;
  l_ikey0_ : list Z;
  lv_ : list leafvalue;
  ksuf_ : option stringbag;
  l_next_ : Z;
  l_prev_ : Z;
  l_parent_ : Z;
  node_ts_ : Z;
  iksuf_ : stringbag }.
Record internode : Type := mkInternode { i_version : Z; nkeys_ : Z; i_ikey0_ : list Z; child_ : list Z; i_parent_ : Z }.
Inductive node : Type := NLeaf (l : leaf) | NInner (i : internode).

Definition set_l_version (x : Z) (l : leaf) : leaf := mkLeaf x (extrasize64_ l) (modstate_ l) (keylenx_ l) (permutation_ l) (l_ikey0_ l) (lv_ l) (ksuf_ l) (l_next_ l) (l_prev_ l) (l_parent_ l) (node_ts_ l) (iksuf_ l).
Definition set_modstate (x : Z) (l : leaf) : leaf := mkLeaf (l_version l) (extrasize64_ l) x (keylenx_ l) (permutation_ l) (l_ikey0_ l) (lv_ l) (ksuf_ l) (l_next_ l) (l_prev_ l) (l_parent_ l) (node_ts_ l) (iksuf_ l).
Definition set_permutation (x : Z) (l : leaf) : leaf := mkLeaf (l_version l) (extrasize64_ l) (modstate_ l) (keylenx_ l) x (l_ikey0_ l) (lv_ l) (ksuf_ l) (l_next_ l) (l_prev_ l) (l_parent_ l) (node_ts_ l) (iksuf_ l).
Definition set_slots (ks iks : list Z) (vs : list leafvalue) (l : leaf) : leaf := mkLeaf (l_version l) (extrasize64_ l) (modstate_ l) ks (permutation_ l) iks vs (ksuf_ l) (l_next_ l) (l_prev_ l) (l_parent_ l) (node_ts_ l) (iksuf_ l).
Definition set_bags (e : Z) (k : option stringbag) (i : stringbag) (l : leaf) : leaf := mkLeaf (l_version l) e (modstate_ l) (keylenx_ l) (permutation_ l) (l_ikey0_ l) (lv_ l) k (l_next_ l) (l_prev_ l) (l_parent_ l) (node_ts_ l) i.
Definition set_next (x : Z) (l : leaf) : leaf := mkLeaf (l_version l) (extrasize64_ l) (modstate_ l) (keylenx_ l) (permutation_ l) (l_ikey0_ l) (lv_ l) (ksuf_ l) x (l_prev_ l) (l_parent_ l) (node_ts_ l) (iksuf_ l).
Definition set_prev (x : Z) (l : leaf) : leaf := mkLeaf (l_version l) (extrasize64_ l) (modstate_ l) (keylenx_ l) (permutation_ l) (l_ikey0_ l) (lv_ l) (ksuf_ l) (l_next_ l) x (l_parent_ l) (node_ts_ l) (iksuf_ l).
Definition set_l_parent (x : Z) (l : leaf) : leaf := mkLeaf (l_version l) (extrasize64_ l) (modstate_ l) (keylenx_ l) (permutation_ l) (l_ikey0_ l) (lv_ l) (ksuf_ l) (l_next_ l) (l_prev_ l) x (node_ts_ l) (iksuf_ l).
Definition node_version (n : node) : Z := match n with NLeaf l => l_version l | NInner i => i_version i end.
Definition set_version (x : Z) (n : node) : node :=
  match n with NLeaf l => NLeaf (set_l_version x l) | NInner i => NInner (mkInternode x (nkeys_ i) (i_ikey0_ i) (child_ i) (i_parent_ i)) end.
Definition node_parent (n : node) : Z := match n with NLeaf l => l_parent_ l | NInner i => i_parent_ i end.
Definition set_node_parent (x : Z) (n : node) : node :=
  match n with NLeaf l => NLeaf (set_l_parent x l) | NInner i => NInner (mkInternode (i_version i) (nkeys_ i) (i_ikey0_ i) (child_ i) x) end.

(** ** Leaves *)
Definition keylenx_is_layer (keylenx : Z) : bool := 63 <? keylenx.
Definition keylenx_has_ksuf (keylenx : Z) : bool := keylenx =? 8 + 1.
Definition leaf_size (l : leaf) : Z := psize (permutation_ l).
Definition ikey_bound (l : leaf) : outcome Z := array_get (l_ikey0_ l) 0.
Definition safe_next (l : leaf) : Z := Z.land (l_next_ l) (u64 (Z.lnot 1)).

Definition new_leaf (sz node_ts : Z) : leaf :=
  let extrasize64 := Z.shiftr sz 6 - Z.shiftr (sizeof_leaf + 63) 6 in
  mkLeaf (new_nodeversion P true) extrasize64 modstate_insert (replicate 15 0) (make_empty node_width) (replicate 15 0) (replicate 15 lv_make_empty)
    None 0 0 0 node_ts (if 0 <? extrasize64 then new_stringbag 8 node_width (sz - sizeof_leaf) else mkBag 0 0 [] []).
Definition iceil (x y : Z) : Z := let m := x mod y in x + (if m =? 0 then 0 else y - m).
(** [iceil_log2] of a number that is not zero. *)
Definition iceil_log2 (x : Z) : Z := 2 ^ Z.log2_up x.
Definition leaf_alloc_size (ksufsize : Z) : Z := iceil (sizeof_leaf + Z.min ksufsize 128) 64.

(** [ksuf]: the memory, the position and the length of the suffix of a slot. *)
Definition leaf_bag (l : leaf) : stringbag := match ksuf_ l with Some b => b | None => iksuf_ l end.
Definition leaf_ksuf (l : leaf) (p : Z) : outcome (list Z * Z * Z) :=
  '(pos, len) ← bag_get (leaf_bag l) p; Ok (s_ (leaf_bag l), pos, len).
Definition ksuf_equals (l : leaf) (p : Z) (ka : key) (keylenx : Z) : outcome bool :=
  if negb (keylenx_has_ksuf keylenx) then Ok true
  else let '(s, len) := key_suffix ka in bag_equals_sloppy (leaf_bag l) p (k_mem ka) s len.
Definition ksuf_used_capacity (l : leaf) : Z :=
  match ksuf_ l with Some b => used_capacity b | None => if 0 <? extrasize64_ l then used_capacity (iksuf_ l) else 0 end.

(** [assign_ksuf].  The slots whose suffixes move to a new bag, and the two loops over them. *)
Definition live_slots (l : leaf) (p : Z) (initializing : bool) : list Z :=
  if initializing then seqZ 0 p else take (Z.to_nat (leaf_size l)) (elements node_width (permutation_ l)).
Fixpoint ksuf_total (l : leaf) (p : Z) (slots : list Z) (csz : Z) : outcome Z :=
  match slots with
  | [] => Ok csz
  | mp :: slots =>
      kl ← array_get (keylenx_ l) mp;
      if negb (mp =? p) && keylenx_has_ksuf kl then '(_, _, len) ← leaf_ksuf l mp; ksuf_total l p slots (csz + len)
      else ksuf_total l p slots csz
  end.
Fixpoint ksuf_copy (l : leaf) (p : Z) (slots : list Z) (nksuf : stringbag) : outcome stringbag :=
  match slots with
  | [] => Ok nksuf
  | mp :: slots =>
      kl ← array_get (keylenx_ l) mp;
      if negb (mp =? p) && keylenx_has_ksuf kl then
        '(mem, pos, len) ← leaf_ksuf l mp; '(_, nksuf) ← bag_assign 16 nksuf mp mem pos len; ksuf_copy l p slots nksuf
      else ksuf_copy l p slots nksuf
  end.
(** [ksuf_ && ksuf_->assign(p, s) || extrasize64_ > 0 && iksuf_[0].assign(p, s)]. *)
Definition assign_internal (l : leaf) (p : Z) (mem : list Z) (s len : Z) : outcome (option leaf) :=
  if 0 <? extrasize64_ l then
    '(ok, b) ← bag_assign 8 (iksuf_ l) p mem s len;
    Ok (if ok : bool then Some (set_bags (extrasize64_ l) (ksuf_ l) b l) else None)
  else Ok None.
Definition assign_in_place (l : leaf) (p : Z) (mem : list Z) (s len : Z) : outcome (option leaf) :=
  match ksuf_ l with
  | Some b =>
      '(ok, b) ← bag_assign 16 b p mem s len;
      if ok : bool then Ok (Some (set_bags (extrasize64_ l) (Some b) (iksuf_ l) l)) else assign_internal l p mem s len
  | None => assign_internal l p mem s len
  end.
Definition assign_ksuf (l : leaf) (p : Z) (mem : list Z) (s len : Z) (initializing : bool) : outcome leaf :=
  done ← assign_in_place l p mem s len;
  match done with
  | Some l => Ok l
  | None =>
      let slots := live_slots l p initializing in
      csz ← ksuf_total l p slots 0;
      let sz := iceil_log2 (safe_size 16 node_width (csz + len)) in
      let sz := match ksuf_ l with Some b => Z.max sz (bag_capacity b) | None => sz end in
      nksuf ← ksuf_copy l p slots (new_stringbag 16 node_width sz);
      '(_, nksuf) ← bag_assign 16 nksuf p mem s len;
      Ok (set_bags (if 0 <=? extrasize64_ l then - extrasize64_ l - 1 else extrasize64_ l) (Some nksuf) (iksuf_ l) l)
  end.
Definition set_slot (l : leaf) (p : Z) (v : leafvalue) (ikey keylenx : Z) : outcome leaf :=
  vs ← array_set (lv_ l) p v; iks ← array_set (l_ikey0_ l) p ikey; ks ← array_set (keylenx_ l) p keylenx;
  Ok (set_slots ks iks vs l).
Definition leaf_assign_key (l : leaf) (p : Z) (ka : key) (initializing : bool) : outcome leaf :=
  l ← (if has_suffix ka then let '(s, len) := key_suffix ka in assign_ksuf l p (k_mem ka) s len initializing else Ok l);
  set_slot l p lv_make_empty (ikey0 ka) (ikeylen ka).
Definition assign (l : leaf) (p : Z) (ka : key) : outcome leaf := leaf_assign_key l p ka false.
Definition assign_initialize (l : leaf) (p : Z) (ka : key) : outcome leaf := leaf_assign_key l p ka true.
Definition assign_initialize_slot (l : leaf) (p : Z) (x : leaf) (xp : Z) : outcome leaf :=
  v ← array_get (lv_ x) xp; kl ← array_get (keylenx_ x) xp; ik ← array_get (l_ikey0_ x) xp;
  l ← (if keylenx_has_ksuf kl then '(mem, s, len) ← leaf_ksuf x xp; assign_ksuf l p mem s len true else Ok l);
  set_slot l p v ik kl.
Definition assign_initialize_for_layer (l : leaf) (p : Z) (ka : key) : outcome leaf :=
  iks ← array_set (l_ikey0_ l) p (ikey0 ka); ks ← array_set (keylenx_ l) p layer_keylenx;
  Ok (set_slots ks iks (lv_ l) l).

(** The slices and lengths of the slots, for the searches. *)
Definition slot_ikey (l : leaf) (p : Z) : Z := l_ikey0_ l !!! Z.to_nat p.
Definition slot_keylenx (l : leaf) (p : Z) : Z := keylenx_ l !!! Z.to_nat p.
Definition search_fuel : nat := 17.
Definition leaf_lower_with_position (ka : key) (l : leaf) : outcome (Z * Z) :=
  key_bound_lower_with_position (kpermuter_word (permutation_ l)) (key_compare_leaf ka (slot_ikey l) (slot_keylenx l)) node_width bound_method_binary search_fuel.
Definition internode_upper (ikey : Z) (i : internode) : outcome Z :=
  key_bound_upper (identity_kpermuter (nkeys_ i)) (fun p => compare ikey (i_ikey0_ i !!! Z.to_nat p)) node_width bound_method_binary search_fuel.

(** ** Splitting a leaf *)
Definition ikey_after_insert (l : leaf) (perm i : Z) (ka : key) (ka_i : Z) : outcome Z :=
  if i <? ka_i then array_get (l_ikey0_ l) (element perm i)
  else if i =? ka_i then Ok (ikey0 ka)
  else array_get (l_ikey0_ l) (element perm (i - 1)).
(** The loop that looks for a place between keys with different slices. *)
Fixpoint mid_loop (fuel : nat) (l : leaf) (perm width mid_ikey midl midr : Z) (ka : key) (p : Z) : outcome Z :=
  match fuel with
  | O => Fault OutOfFuel
  | S fuel =>
      right_differs ← (if midr <=? width then k ← ikey_after_insert l perm midr ka p; Ok (negb (mid_ikey =? k)) else Ok false);
      if right_differs : bool then Ok midr
      else
        left_differs ← (if 0 <=? midl then k ← ikey_after_insert l perm midl ka p; Ok (negb (mid_ikey =? k)) else Ok false);
        if left_differs : bool then Ok (midl + 1)
        else mid_loop fuel l perm width mid_ikey (midl - 1) (midr + 1) ka p
  end.
Definition split_mid (l : leaf) (p : Z) (ka : key) : outcome Z :=
  let width := leaf_size l in
  let mid := node_width / 2 + 1 in
  let mid := if (p =? 0) && (l_prev_ l =? 0) then 1 else if (p =? width) && (l_next_ l =? 0) then width else mid in
  let perml := permutation_ l in
  mid_ikey ← ikey_after_insert l perml mid ka p;
  k ← ikey_after_insert l perml (mid - 1) ka p;
  if mid_ikey =? k then mid_loop 16 l perml width mid_ikey (mid - 2) (mid + 1) ka p else Ok mid.
(** [for (int x = mid; x <= width; ++x)], [n] rounds of it. *)
Fixpoint split_move (n : nat) (l nr : leaf) (x mid p pv : Z) (ka : key) : outcome leaf :=
  match n with
  | O => Ok nr
  | S n =>
      if x =? p then nr ← assign_initialize nr (x - mid) ka; split_move n l nr (x + 1) mid p pv ka
      else nr ← assign_initialize_slot nr (x - mid) l (Z.land pv 15); split_move n l nr (x + 1) mid p (Z.shiftr pv 4) ka
  end.
(** The new right leaf, before it is linked, the position of the split, the separator and the split type. *)
Definition leaf_split_into (l nr : leaf) (p : Z) (ka : key) : outcome (leaf * Z * Z) :=
  let width := leaf_size l in
  mid ← split_mid l p ka;
  let pv := value_from (permutation_ l) (mid - Z.b2z (p <? mid)) in
  nr ← split_move (Z.to_nat (width + 1 - mid)) l nr mid mid p pv ka;
  let permr := make_sorted node_width (width + 1 - mid) in
  let permr := if mid <=? p then remove_to_back node_width (p - mid) permr else permr in
  split_ikey ← array_get (l_ikey0_ nr) 0;
  Ok (set_permutation permr nr, split_ikey, if mid <=? p then 1 + Z.b2z (mid =? width) else 0).

(** ** Inner nodes *)
Definition new_internode : internode := mkInternode (new_nodeversion P false) 0 (replicate 15 0) (replicate 16 0) 0.
Definition set_keys (n : Z) (ks cs : list Z) (i : internode) : internode := mkInternode (i_version i) n ks cs (i_parent_ i).
(** [assign] without the parent of the child. *)
Definition inner_assign (i : internode) (p ikey child : Z) : outcome internode :=
  cs ← array_set (child_ i) (p + 1) child; ks ← array_set (i_ikey0_ i) p ikey; Ok (set_keys (nkeys_ i) ks cs i).
Definition shift_from (i : internode) (p : Z) (x : internode) (xp n : Z) : outcome internode :=
  if n =? 0 then Ok i
  else ks ← memcpy (i_ikey0_ i) p (i_ikey0_ x) xp n; cs ← memcpy (child_ i) (p + 1) (child_ x) (xp + 1) n; Ok (set_keys (nkeys_ i) ks cs i).
Definition shift_up (i : internode) (p xp n : Z) : outcome internode :=
  ks ← memmove (i_ikey0_ i) p xp n; cs ← memmove (child_ i) (p + 1) (xp + 1) n; Ok (set_keys (nkeys_ i) ks cs i).
(** [split_into] without the parents of the children: the new right node, its left
    neighbour, the separator and the position at which to insert on the left, or -1. *)
Definition inner_split_into (i nr : internode) (p ka value split_type : Z) : outcome (internode * internode * Z * Z) :=
  let mid := if split_type =? 2 then node_width else (node_width + 1) / 2 in
  let nr := set_keys (node_width + 1 - (mid + 1)) (i_ikey0_ nr) (child_ nr) nr in
  '(nr, split_ikey) ←
    (if p <? mid then
       c ← array_get (child_ i) mid; cs ← array_set (child_ nr) 0 c;
       nr ← shift_from (set_keys (nkeys_ nr) (i_ikey0_ nr) cs nr) 0 i mid (node_width - mid);
       k ← array_get (i_ikey0_ i) (mid - 1); Ok (nr, k)
     else if p =? mid then
       cs ← array_set (child_ nr) 0 value;
       nr ← shift_from (set_keys (nkeys_ nr) (i_ikey0_ nr) cs nr) 0 i mid (node_width - mid); Ok (nr, ka)
     else
       c ← array_get (child_ i) (mid + 1); cs ← array_set (child_ nr) 0 c;
       nr ← shift_from (set_keys (nkeys_ nr) (i_ikey0_ nr) cs nr) 0 i (mid + 1) (p - (mid + 1));
       nr ← inner_assign nr (p - (mid + 1)) ka value;
       nr ← shift_from nr (p + 1 - (mid + 1)) i p (node_width - p);
       k ← array_get (i_ikey0_ i) mid; Ok (nr, k));
  let i := mkInternode (mark_split P (i_version i)) (if p <? mid then mid - 1 else mid) (i_ikey0_ i) (child_ i) (i_parent_ i) in
  Ok (nr, i, split_ikey, if p <? mid then p else -1).
