(* ===== verification/MassTree.v ===== *)
(** * The operations of Masstree

    Models [masstree_struct.hh], [masstree_get.hh], [masstree_insert.hh], [masstree_split.hh]
    and [mtIndexAPI.hh] of [src/src/indices/mass_tree/thread] as one thread runs them: the
    descent through a layer, the cursors, insertion with its splits and new layers, and
    [put], [put_uv] and [get] of the index.  A wait for a lock that nobody else holds is a
    fault.  The versions a cursor records for transactions ([original_v_], [updated_v_],
    [new_nodes_]) are read by nothing in the repository and left out. *)

From S2P Require Import Prelude Permuter KSearch NodeVersion MassKey MassBag MassNode.
#[local] Abbreviation P := nodeversion32_parameters.

(** ** Memory *)
(** Nodes and rows by address, the next free address, the root of the table and the
    timestamp of the thread.  Addresses are multiples of 64. *)
Record mass : Type := mkMass { mnodes : gmap Z node; mrows : gmap Z value_bag; mbrk : Z; mroot : Z; ti_ts : Z }.
Abbreviation MM := (ST mass).
Definition on_nodes (f : gmap Z node -> gmap Z node) (s : mass) : mass := mkMass (f (mnodes s)) (mrows s) (mbrk s) (mroot s) (ti_ts s).
Definition get_node (p : Z) : MM node := fun s => match mnodes s !! p with Some n => Ok (n, s) | None => Fault NullDeref end.
Definition put_node (p : Z) (n : node) : MM unit := modify (on_nodes (insert p n)).
Definition stop {A} (f : fault) : MM A := fun _ => Fault f.
(** [static_cast] to a leaf or an inner node. *)
Definition get_leaf (p : Z) : MM leaf := n ← get_node p; match n with NLeaf l => mret l | NInner _ => stop InactiveMember end.
Definition get_inner (p : Z) : MM internode := n ← get_node p; match n with NInner i => mret i | NLeaf _ => stop InactiveMember end.
Definition put_leaf (p : Z) (l : leaf) : MM unit := put_node p (NLeaf l).
Definition put_inner (p : Z) (i : internode) : MM unit := put_node p (NInner i).
Definition allocate_node (n : node) : MM Z := fun s => Ok (mbrk s, mkMass (<[mbrk s := n]> (mnodes s)) (mrows s) (mbrk s + 64) (mroot s) (ti_ts s)).
Definition allocate_row (r : value_bag) : MM Z := fun s => Ok (mbrk s, mkMass (mnodes s) (<[mbrk s := r]> (mrows s)) (mbrk s + 64) (mroot s) (ti_ts s)).
Definition get_row (p : Z) : MM value_bag := fun s => match mrows s !! p with Some r => Ok (r, s) | None => Fault NullDeref end.
Definition deallocate_row (p : Z) : MM unit := fun s =>
  match mrows s !! p with Some _ => Ok (tt, mkMass (mnodes s) (delete p (mrows s)) (mbrk s) (mroot s) (ti_ts s)) | None => Fault NullDeref end.

(** ** Node versions of a node in memory *)
Definition version_of (p : Z) : MM Z := n ← get_node p; mret (node_version n).
Definition write_version (p v : Z) : MM unit := n ← get_node p; put_node p (set_version v n).
Definition nb_stable (p : Z) : MM Z := v ← version_of p; match stable P v with Some x => mret x | None => stop WouldBlock end.
Definition nb_lock (p expected : Z) : MM Z :=
  v ← version_of p;
  match nv_try_lock P v expected with
  | Some w => write_version p w;; mret w
  | None => match nv_try_lock P v v with Some w => write_version p w;; mret w | None => stop WouldBlock end
  end.
Definition nb_unlock (p v : Z) : MM unit := write_version p (nv_unlock P v).
Definition nb_unlock_this (p : Z) : MM unit := v ← version_of p; nb_unlock p v.
Definition nb_mark_insert (p v : Z) : MM Z := write_version p (mark_insert P v);; mret (mark_insert P v).
Definition update_version (p : Z) (f : Z -> Z) : MM unit := v ← version_of p; write_version p (f v).
Definition set_parent (p q : Z) : MM unit := n ← get_node p; put_node p (set_node_parent q n).

Fixpoint unsplit_ancestor (fuel : nat) (x : Z) : MM Z :=
  match fuel with
  | O => stop OutOfFuel
  | S fuel =>
      n ← get_node x;
      if has_split P (node_version n) && negb (node_parent n =? 0) then unsplit_ancestor fuel (node_parent n) else mret x
  end.
Definition fix_root (fuel : nat) : MM Z :=
  root ← gets mroot;
  v ← version_of root;
  if has_split P v then
    r ← unsplit_ancestor fuel root; modify (fun s => mkMass (mnodes s) (mrows s) (mbrk s) r (ti_ts s));; mret r
  else mret root.
Definition leaf_make (ksufsize node_ts : Z) : MM Z := allocate_node (NLeaf (new_leaf (leaf_alloc_size ksufsize) node_ts)).
Definition leaf_make_root (ksufsize parent : Z) : MM Z :=
  ts ← (if negb (parent =? 0) then l ← get_leaf parent; mret (node_ts_ l) else mret 0);
  n ← leaf_make ksufsize ts;
  l ← get_leaf n;
  put_leaf n (set_l_version (mark_root P (l_version l)) (set_l_parent 0 (set_prev 0 (set_next 0 l))));;
  mret n.
Definition table_initialize : MM unit :=
  r ← leaf_make_root 0 0; modify (fun s => mkMass (mnodes s) (mrows s) (mbrk s) r (ti_ts s)).

(** [locked_parent]: the parent cannot change meanwhile. *)
Definition locked_parent (n : Z) : MM Z :=
  x ← get_node n;
  let p := node_parent x in
  if p =? 0 then mret 0 else pv ← version_of p; nb_lock p pv;; mret p.

(** ** The descent through a layer *)
Fixpoint reach_root (fuel : nat) (n : Z) : MM (Z * Z) :=
  match fuel with
  | O => stop OutOfFuel
  | S fuel => v ← nb_stable n; if negb (has_split P v) then mret (n, v) else n ← unsplit_ancestor fuel n; reach_root fuel n
  end.
Definition changed (n v : Z) : MM bool := w ← version_of n; mret (has_changed P w v).
(** [stable_last_key_compare] of an inner node and of a leaf. *)
Fixpoint inner_last_key_compare (fuel : nat) (ka : key) (n v : Z) : MM Z :=
  match fuel with
  | O => stop OutOfFuel
  | S fuel =>
      i ← get_inner n;
      k ← lift (array_get (i_ikey0_ i) (nkeys_ i - 1));
      ch ← changed n v;
      if negb ch then mret (compare (ikey0 ka) k) else v ← nb_stable n; inner_last_key_compare fuel ka n v
  end.
Fixpoint leaf_last_key_compare (fuel : nat) (ka : key) (n v : Z) : MM Z :=
  match fuel with
  | O => stop OutOfFuel
  | S fuel =>
      l ← get_leaf n;
      let p := element (permutation_ l) (leaf_size l - 1) in
      let cmp := key_compare_leaf ka (slot_ikey l) (slot_keylenx l) p in
      ch ← changed n v;
      if negb ch then mret cmp else v ← nb_stable n; leaf_last_key_compare fuel ka n v
  end.
(** The loop over inner nodes; [goto retry] starts again at [root]. *)
Fixpoint reach_loop (fuel : nat) (root : Z) (ka : key) (n v : Z) : MM (Z * Z) :=
  match fuel with
  | O => stop OutOfFuel
  | S fuel =>
      let retry := '(n, v) ← reach_root fuel root; reach_loop fuel root ka n v in
      if nv_isleaf P v then mret (n, v)
      else
        i ← get_inner n;
        kp ← lift (internode_upper (ikey0 ka) i);
        c ← lift (array_get (child_ i) kp);
        if c =? 0 then retry
        else
          w ← nb_stable c;
          ch ← changed n v;
          if negb ch then reach_loop fuel root ka c w
          else
            v' ← nb_stable n;
            cmp ← (if has_split_since P v v' then inner_last_key_compare fuel ka n v' else mret 0);
            if 0 <? cmp then retry else reach_loop fuel root ka n v'
  end.
Definition reach_leaf (fuel : nat) (root : Z) (ka : key) : MM (Z * Z) :=
  '(n, v) ← reach_root fuel root; reach_loop fuel root ka n v.
(** [advance_to_key]: along the list of leaves while they start at or before the key. *)
Fixpoint advance_loop (fuel : nat) (ka : key) (n v : Z) : MM (Z * Z) :=
  match fuel with
  | O => stop OutOfFuel
  | S fuel =>
      l ← get_leaf n;
      let next := safe_next l in
      if nv_deleted P v || (next =? 0) then mret (n, v)
      else
        nl ← get_leaf next; b ← lift (ikey_bound nl);
        if 0 <=? compare (ikey0 ka) b then v ← nb_stable next; advance_loop fuel ka next v else mret (n, v)
  end.
Definition advance_to_key (fuel : nat) (ka : key) (n oldv : Z) : MM (Z * Z) :=
  v ← nb_stable n;
  cmp ← (if has_split_since P v oldv then leaf_last_key_compare fuel ka n v else mret 0);
  if 0 <? cmp then advance_loop fuel ka n v else mret (n, v).

(** ** Lookups *)
Fixpoint lower_bound_binary_loop (fuel : nat) (ka : key) (l : leaf) (perm a b : Z) : outcome Z :=
  match fuel with
  | O => Fault OutOfFuel
  | S fuel =>
      if a <? b then
        let m := Z.shiftr (a + b) 1 in
        let mp := element perm m in
        let cmp := key_compare_leaf ka (slot_ikey l) (slot_keylenx l) mp in
        if cmp <? 0 then lower_bound_binary_loop fuel ka l perm a m
        else if cmp =? 0 then Ok mp
        else lower_bound_binary_loop fuel ka l perm (m + 1) b
      else Ok (-1)
  end.
Definition lower_bound_binary (ka : key) (l : leaf) (perm : Z) : outcome Z := lower_bound_binary_loop search_fuel ka l perm 0 (psize perm).
(** [find_unlocked]: whether the key was found, and the value of the cursor.  [at_leaf] is
    the leaf of the label [forward], if there is one; otherwise the round begins at [retry]. *)
Fixpoint find_unlocked_loop (fuel : nat) (levels : nat) (root : Z) (ka : key) (lv : leafvalue) (at_leaf : option (Z * Z)) : MM (bool * leafvalue) :=
  match fuel with
  | O => stop OutOfFuel
  | S fuel =>
      '(n, v) ← match at_leaf with Some x => mret x | None => reach_leaf levels root ka end;
      if nv_deleted P v then find_unlocked_loop fuel levels root ka lv None
      else
        l ← get_leaf n;
        kp ← lift (lower_bound_binary ka l (permutation_ l));
        '(keylenx, lv, ksuf_match) ←
          (if 0 <=? kp then
             keylenx ← lift (array_get (keylenx_ l) kp);
             lv ← lift (array_get (lv_ l) kp);
             ksuf_match ← lift (ksuf_equals l kp ka keylenx);
             mret (keylenx, lv, ksuf_match)
           else mret (0, lv, false));
        ch ← changed n v;
        if ch : bool then x ← advance_to_key levels ka n v; find_unlocked_loop fuel levels root ka lv (Some x)
        else if kp <? 0 then mret (false, lv)
        else if keylenx_is_layer keylenx then
          ka ← lift (key_shift ka);
          match lv with LvLayer r => find_unlocked_loop fuel levels r ka lv None | LvValue _ => stop InactiveMember end
        else mret (ksuf_match, lv)
  end.

(** ** Cursors *)
Record tcursor : Type := mkCursor { n_ : Z; ka_ : key; ki_ : Z; kp_ : Z; root_ : Z; state_ : Z }.
Definition with_position (ki kp : Z) (c : tcursor) : tcursor := mkCursor (n_ c) (ka_ c) ki kp (root_ c) (state_ c).
Definition with_node (n : Z) (c : tcursor) : tcursor := mkCursor n (ka_ c) (ki_ c) (kp_ c) (root_ c) (state_ c).
Definition with_key (ka : key) (c : tcursor) : tcursor := mkCursor (n_ c) ka (ki_ c) (kp_ c) (root_ c) (state_ c).
(** What [check_leaf_insert] returns: the two markers, or a root to go on with. *)
Inductive next_step : Type := FoundMarker | InsertMarker | NextRoot (root : Z).

Definition is_layer (l : leaf) (p : Z) : outcome bool := k ← array_get (keylenx_ l) p; Ok (keylenx_is_layer k).
Definition layer_at (l : leaf) (p : Z) : MM Z :=
  v ← lift (array_get (lv_ l) p); match v with LvLayer n => mret n | LvValue _ => stop InactiveMember end.
(** The label [found] of [get_leaf_locked], which returns the root of the next layer or null. *)
Definition locked_found (fuel : nat) (c : tcursor) (v : Z) : MM (Z * Z * tcursor) :=
  l ← get_leaf (n_ c);
  layer ← (if 0 <=? kp_ c then lift (is_layer l (kp_ c)) else mret false);
  if layer : bool then
    root ← layer_at l (kp_ c);
    rv ← version_of root;
    root ← (if has_split P rv then
              r ← unsplit_ancestor fuel root;
              vs ← lift (array_set (lv_ l) (kp_ c) (LvLayer r)); put_leaf (n_ c) (set_slots (keylenx_ l) (l_ikey0_ l) vs l);; mret r
            else mret root);
    nb_unlock (n_ c) v;;
    ka ← lift (key_shift (ka_ c));
    mret (root, v, with_key ka c)
  else mret (0, v, c).
(** [do ... while]: to the last leaf that starts at or before the key. *)
Fixpoint walk_stable (fuel : nat) (ka : key) (n : Z) : MM (Z * Z) :=
  match fuel with
  | O => stop OutOfFuel
  | S fuel =>
      oldv ← nb_stable n;
      l ← get_leaf n;
      if nv_deleted P oldv || (safe_next l =? 0) then mret (n, oldv)
      else
        nl ← get_leaf (safe_next l); b ← lift (ikey_bound nl);
        if 0 <=? compare (ikey0 ka) b then walk_stable fuel ka (safe_next l) else mret (n, oldv)
  end.
(** The loop [while (1)] along the leaves. *)
Fixpoint walk_leaves (fuel levels : nat) (c : tcursor) (root oldv v : Z) : MM (Z * Z * tcursor) :=
  match fuel with
  | O => stop OutOfFuel
  | S fuel =>
      if nv_deleted P v then nb_unlock (n_ c) v;; mret (root, v, c)
      else
        l ← get_leaf (n_ c);
        '(ki, kp) ← lift (leaf_lower_with_position (ka_ c) l);
        let c := with_position ki kp c in
        stay ← (if (0 <=? kp) || negb (ki =? leaf_size l) || negb (has_split_since P v oldv) || (safe_next l =? 0) then mret true
                else nl ← get_leaf (safe_next l); b ← lift (ikey_bound nl); mret (compare (ikey0 (ka_ c)) b <? 0));
        if stay : bool then locked_found levels c v
        else
          nb_unlock (n_ c) v;;
          '(n, oldv) ← walk_stable levels (ka_ c) (safe_next l);
          v ← nb_lock n oldv;
          walk_leaves fuel levels (with_node n c) root oldv v
  end.
(** [has_changed(oldv, oldperm)] of a leaf: [w] and [l'] are its version and contents now. *)
Definition leaf_has_changed (w oldv : Z) (l l' : leaf) : bool := has_changed P w oldv || negb (permutation_ l =? permutation_ l').
Definition get_leaf_locked (fuel levels : nat) (c : tcursor) (root oldv : Z) : MM (Z * Z * tcursor) :=
  if negb (has_suffix (ka_ c)) then v ← nb_lock (n_ c) oldv; walk_leaves fuel levels c root oldv v
  else
    l ← get_leaf (n_ c);
    '(ki, kp) ← lift (leaf_lower_with_position (ka_ c) l);
    let c := with_position ki kp c in
    layer ← (if 0 <=? kp then lift (is_layer l kp) else mret false);
    next ← (if layer : bool then
              entry ← layer_at l kp;
              rv ← version_of entry;
              w ← version_of (n_ c);
              l' ← get_leaf (n_ c);
              mret (if negb (nv_deleted P oldv) && negb (leaf_has_changed w oldv l l') && negb (has_split P rv) then entry else 0)
            else mret 0);
    if negb (next =? 0) then ka ← lift (key_shift (ka_ c)); mret (next, oldv, with_key ka c)
    else
      v ← nb_lock (n_ c) oldv;
      w ← version_of (n_ c);
      l' ← get_leaf (n_ c);
      if negb (nv_deleted P v) && negb (leaf_has_changed w oldv l l') then locked_found levels c v
      else walk_leaves fuel levels c root oldv v.
Definition reset_retry (c : tcursor) : outcome (next_step * tcursor) :=
  ka ← unshift_all (ka_ c); Ok (NextRoot (root_ c), with_key ka c).

(** ** Splitting *)
(** [lock_next] and [link_split] of [btree_leaflink<N, true>]: the lowest bit of a pointer
    marks it. *)
Definition lock_next (n : Z) : MM Z :=
  l ← get_leaf n;
  let next := l_next_ l in
  if next =? 0 then mret next
  else if Z.testbit next 0 then stop WouldBlock
  else put_leaf n (set_next (next + 1) l);; mret next.
Definition link_split (n nr : Z) : MM unit :=
  r ← get_leaf nr;
  put_leaf nr (set_prev n r);;
  next ← lock_next n;
  r ← get_leaf nr;
  put_leaf nr (set_next next r);;
  (if negb (next =? 0) then x ← get_leaf next; put_leaf next (set_prev nr x) else mret tt);;
  l ← get_leaf n;
  put_leaf n (set_next nr l).
(** [leaf<P>::split_into] of two leaves in memory: the separator and the split type. *)
Definition split_leaf (n nr p : Z) (ka : key) : MM (Z * Z) :=
  l ← get_leaf n; r ← get_leaf nr;
  '(r, split_ikey, split_type) ← lift (leaf_split_into l r p ka);
  put_leaf nr r;;
  link_split n nr;;
  mret (split_ikey, split_type).
(** [for (int i = 0; i <= nr->nkeys_; ++i) nr->child_[i]->set_parent(nr)] *)
Fixpoint set_parents (cs : list Z) (nr : Z) : MM unit :=
  match cs with [] => mret tt | c :: cs => set_parent c nr;; set_parents cs nr end.
(** [internode<P>::split_into]: the separator and the position on the left, or -1. *)
Definition split_inner (n nr p ka value split_type : Z) : MM (Z * Z) :=
  i ← get_inner n; r ← get_inner nr;
  '(r, i, split_ikey, kp) ← lift (inner_split_into i r p ka value split_type);
  put_inner nr r;;
  set_parents (take (Z.to_nat (nkeys_ r + 1)) (child_ r)) nr;;
  put_inner n i;;
  mret (split_ikey, kp).
(** [p->assign(kp, ikey, child)]. *)
Definition assign_child (p kp ikey child : Z) : MM unit :=
  set_parent child p;; i ← get_inner p; i ← lift (inner_assign i kp ikey child); put_inner p i.
(** The first part of a round of [finish_split]: [child] and its separator go into the parent
    [p] of [n], if there is one: the node that [p] was split into, or null, and its separator. *)
Definition insert_into_parent (p n child xikey split_type : Z) : MM (Z * Z) :=
  if p =? 0 then
    nn ← allocate_node (NInner new_internode);
    i ← get_inner nn;
    cs ← lift (array_set (child_ i) 0 n);
    put_inner nn (set_keys (nkeys_ i) (i_ikey0_ i) cs i);;
    assign_child nn 0 xikey child;;
    i ← get_inner nn;
    put_inner nn (mkInternode (mark_root P (i_version i)) 1 (i_ikey0_ i) (child_ i) p);;
    set_parent n nn;;
    mret (0, 0)
  else
    i ← get_inner p;
    kp ← lift (internode_upper xikey i);
    '(next_child, next_ikey, kp) ←
      (if nkeys_ i <? node_width then update_version p (mark_insert P);; mret (0, 0, kp)
       else
         nc ← allocate_node (NInner new_internode);
         v ← version_of p;
         write_version nc (mark_nonroot P v);;
         '(split_ikey, kp) ← split_inner p nc kp xikey child split_type;
         mret (nc, split_ikey, kp));
    (if 0 <=? kp then
       i ← get_inner p;
       i ← lift (shift_up i (kp + 1) kp (nkeys_ i - kp));
       put_inner p i;;
       assign_child p kp xikey child;;
       i ← get_inner p;
       put_inner p (set_keys (u8 (nkeys_ i + 1)) (i_ikey0_ i) (child_ i) i)
     else mret tt);;
    mret (next_child, next_ikey).
(** The second part, for a leaf: the moved slots leave its permutation, and the cursor moves
    to where its key goes. *)
Definition finish_leaf_split (nl nr split_type : Z) (c : tcursor) : MM tcursor :=
  l ← get_leaf nl; r ← get_leaf nr;
  let perml := permutation_ l in
  let width := psize perml in
  let perml := set_size node_width (width - leaf_size r) perml in
  let perml := if negb (width =? node_width) then exchange node_width (psize perml) (node_width - 1) perml else perml in
  put_leaf nl (set_permutation perml (set_l_version (mark_split P (l_version l)) l));;
  if split_type =? 0 then
    let kp := back node_width perml in
    l ← get_leaf nl;
    l ← lift (assign l kp (ka_ c));
    put_leaf nl l;;
    mret (with_position (ki_ c) kp c)
  else mret (with_node nr (with_position (ki_ c - psize perml) (ki_ c - psize perml) c)).
Fixpoint split_loop (fuel : nat) (n child xikey split_type : Z) (c : tcursor) : MM tcursor :=
  match fuel with
  | O => stop OutOfFuel
  | S fuel =>
      p ← locked_parent n;
      '(next_child, next_ikey) ← insert_into_parent p n child xikey split_type;
      v ← version_of n;
      c ← (if nv_isleaf P v then finish_leaf_split n child split_type c else mret c);
      (if negb (n =? n_ c) then nb_unlock_this n else mret tt);;
      (if negb (child =? n_ c) then nb_unlock_this child else mret tt);;
      if negb (next_child =? 0) then split_loop fuel p next_child next_ikey split_type c
      else if negb (p =? 0) then nb_unlock_this p;; mret c
      else mret c
  end.
Definition finish_split (fuel : nat) (c : tcursor) : MM (next_step * tcursor) :=
  l ← get_leaf (n_ c);
  let perm := exchange node_width (leaf_size l) (node_width - 1) (permutation_ l) in
  if (leaf_size l <? node_width) && negb (back node_width perm =? 0) then
    let kp := back node_width perm in
    let l := set_permutation perm l in
    put_leaf (n_ c) l;;
    l ← lift (assign l kp (ka_ c));
    put_leaf (n_ c) l;;
    mret (InsertMarker, with_position (ki_ c) kp c)
  else
    let c := if leaf_size l <? node_width then with_position (ki_ c) (back node_width perm) c else c in
    child ← leaf_make (ksuf_used_capacity l) (node_ts_ l);
    write_version child (l_version l);;
    '(xikey, split_type) ← split_leaf (n_ c) child (ki_ c) (ka_ c);
    c ← split_loop fuel (n_ c) child xikey split_type c;
    mret (InsertMarker, c).

(** ** Insertion *)
(** The loop of [check_leaf_new_layer] that creates a node for every slice the two keys
    share; [n] is the leaf it started from. *)
Fixpoint twig_loop (fuel : nat) (n twig_head twig_tail : Z) (oka ka : key) : MM (Z * Z * key * key) :=
  match fuel with
  | O => stop OutOfFuel
  | S fuel =>
      if key_compare oka (ikey0 ka) (klen ka) =? 0 then
        nl ← leaf_make_root 0 twig_tail;
        l ← get_leaf nl;
        l ← lift (assign_initialize_for_layer l 0 oka);
        put_leaf nl l;;
        twig_head ← (if negb (twig_head =? n) then
                       t ← get_leaf twig_tail;
                       vs ← lift (array_set (lv_ t) 0 (LvLayer nl)); put_leaf twig_tail (set_slots (keylenx_ t) (l_ikey0_ t) vs t);; mret twig_head
                     else mret nl);
        l ← get_leaf nl;
        put_leaf nl (set_permutation (make_sorted node_width 1) l);;
        oka ← lift (key_shift oka);
        ka ← lift (key_shift ka);
        twig_loop fuel n twig_head nl oka ka
      else mret (twig_head, twig_tail, oka, ka)
  end.
Definition set_lv (n p : Z) (v : leafvalue) : MM unit :=
  l ← get_leaf n; vs ← lift (array_set (lv_ l) p v); put_leaf n (set_slots (keylenx_ l) (l_ikey0_ l) vs l).
(** The part behind the loop: the leaf in which the two keys part, and the links to it. *)
Definition new_layer_leaf (c : tcursor) (v twig_head twig_tail : Z) (oka ka : key) : MM (next_step * tcursor) :=
  let n := n_ c in
  let kc := key_compare oka (ikey0 ka) (klen ka) in
  let ksufsize := if has_suffix ka || has_suffix oka
                  then (Z.max 0 (suffix_length ka) + Z.max 0 (suffix_length oka)) * (node_width / 2) + overhead 8 node_width else 0 in
  nl ← leaf_make_root ksufsize twig_tail;
  x ← get_leaf nl;
  x ← lift (assign_initialize x 0 (if kc <? 0 then oka else ka));
  x ← lift (assign_initialize x 1 (if kc <? 0 then ka else oka));
  put_leaf nl x;;
  l ← get_leaf n;
  old ← lift (array_get (lv_ l) (kp_ c));
  set_lv nl (Z.b2z (0 <? kc)) old;;
  w ← version_of nl;
  nb_lock nl w;;
  x ← get_leaf nl;
  put_leaf nl (set_permutation (if kc <? 0 then make_sorted node_width 1 else remove_to_back node_width 0 (make_sorted node_width 2)) x);;
  v ← nb_mark_insert n v;
  (if negb (twig_tail =? n) then set_lv twig_tail 0 (LvLayer nl) else mret tt);;
  set_lv n (kp_ c) (LvLayer (if negb (twig_head =? n) then twig_head else nl));;
  l ← get_leaf n;
  ks ← lift (array_set (keylenx_ l) (kp_ c) layer_keylenx);
  put_leaf n (set_slots ks (l_ikey0_ l) (lv_ l) l);;
  nb_unlock n v;;
  let k := Z.b2z (kc <? 0) in
  mret (InsertMarker, with_node nl (with_position k k (with_key ka c))).
Definition check_leaf_new_layer (fuel : nat) (c : tcursor) (v : Z) : MM (next_step * tcursor) :=
  let n := n_ c in
  l ← get_leaf n;
  '(mem, pos, len) ← lift (leaf_ksuf l (kp_ c));
  oka ← lift (key_of_string mem pos len);
  ka ← lift (key_shift (ka_ c));
  '(twig_head, twig_tail, oka, ka) ← twig_loop fuel n n n oka ka;
  new_layer_leaf c v twig_head twig_tail oka ka.

Definition check_leaf_insert (fuel levels : nat) (c : tcursor) (root oldv : Z) : MM (next_step * tcursor) :=
  '(next_root, v, c) ← get_leaf_locked fuel levels c root oldv;
  if negb (next_root =? 0) then mret (NextRoot next_root, c)
  else
    l ← get_leaf (n_ c);
    if 0 <=? kp_ c then
      kl ← lift (array_get (keylenx_ l) (kp_ c));
      same ← lift (ksuf_equals l (kp_ c) (ka_ c) kl);
      if same : bool then mret (FoundMarker, c) else check_leaf_new_layer fuel c v
    else if modstate_ l =? modstate_deleted_layer then nb_unlock (n_ c) v;; lift (reset_retry c)
    else
      (if negb (modstate_ l =? modstate_insert) then
         nb_mark_insert (n_ c) v;; l ← get_leaf (n_ c); put_leaf (n_ c) (set_modstate modstate_insert l)
       else mret tt);;
      l ← get_leaf (n_ c);
      bound ← lift (ikey_bound l);
      let kp := back node_width (permutation_ l) in
      if (leaf_size l <? node_width) && (negb (kp =? 0) || (l_prev_ l =? 0) || (bound =? ikey0 (ka_ c))) then
        l ← lift (assign l kp (ka_ c));
        put_leaf (n_ c) l;;
        mret (InsertMarker, with_position (ki_ c) kp c)
      else finish_split levels (if leaf_size l <? node_width then with_position (ki_ c) kp c else c).
(** [find_insert]: whether the key is there; the leaf is locked. *)
Fixpoint find_insert_loop (fuel levels : nat) (c : tcursor) (root : Z) : MM (bool * tcursor) :=
  match fuel with
  | O => stop OutOfFuel
  | S fuel =>
      '(n, v) ← reach_leaf levels root (ka_ c);
      '(r, c) ← check_leaf_insert fuel levels (with_node n c) root v;
      match r with
      | FoundMarker => mret (true, mkCursor (n_ c) (ka_ c) (ki_ c) (kp_ c) (root_ c) 3)
      | InsertMarker => mret (false, mkCursor (n_ c) (ka_ c) (ki_ c) (kp_ c) (root_ c) 2)
      | NextRoot root => find_insert_loop fuel levels c root
      end
  end.
Definition find_insert (fuel levels : nat) (c : tcursor) : MM (bool * tcursor) := find_insert_loop fuel levels c (root_ c).
Definition finish_insert (c : tcursor) : MM unit :=
  l ← get_leaf (n_ c);
  put_leaf (n_ c) (set_permutation (insert_from_back node_width (ki_ c) (permutation_ l)).1 l).
(** [finish] for a state that is not negative. *)
Definition finish (state : Z) (c : tcursor) : MM unit :=
  (if (0 <? state) && (state_ c =? 2) then finish_insert c else mret tt);;
  nb_unlock_this (n_ c).

(** [find_locked]. *)
Definition check_leaf_locked (fuel levels : nat) (c : tcursor) (root oldv : Z) : MM (option Z * tcursor) :=
  '(next_root, v, c) ← get_leaf_locked fuel levels c root oldv;
  if negb (next_root =? 0) then mret (Some next_root, c)
  else
    l ← get_leaf (n_ c);
    if 0 <=? kp_ c then
      kl ← lift (array_get (keylenx_ l) (kp_ c));
      same ← lift (ksuf_equals l (kp_ c) (ka_ c) kl);
      mret (None, if same : bool then c else with_position (ki_ c) (-1) c)
    else if (ki_ c =? 0) && (modstate_ l =? modstate_deleted_layer) then
      nb_unlock_this (n_ c);; ka ← lift (unshift_all (ka_ c)); mret (Some (root_ c), with_key ka c)
    else mret (None, c).
Fixpoint find_locked_loop (fuel levels : nat) (c : tcursor) (root : Z) : MM (bool * tcursor) :=
  match fuel with
  | O => stop OutOfFuel
  | S fuel =>
      '(n, v) ← reach_leaf levels root (ka_ c);
      '(r, c) ← check_leaf_locked fuel levels (with_node n c) root v;
      match r with
      | None => mret (0 <=? kp_ c, mkCursor (n_ c) (ka_ c) (ki_ c) (kp_ c) (root_ c) (Z.b2z (0 <=? kp_ c)))
      | Some root => find_locked_loop fuel levels c root
      end
  end.

(** ** The index *)
Definition circular_less (a b : Z) : bool := signed 64 (a - b) <? 0.
Definition circular_less_equal (a b : Z) : bool := signed 64 (a - b) <=? 0.
Definition set_ts (x : Z) (s : mass) : mass := mkMass (mnodes s) (mrows s) (mbrk s) (mroot s) x.
Definition advance_timestamp (x : Z) : MM unit := modify (fun s => if circular_less (ti_ts s) x then set_ts x s else s).
Definition update_timestamp_to (x : Z) : MM Z := fun s =>
  let s := if circular_less_equal (ti_ts s) x then set_ts (u64 (Z.lor x 1 + 1)) s else s in Ok (ti_ts s, s).
Definition update_timestamp : MM Z := gets ti_ts.
Definition new_cursor (levels : nat) (mem : list Z) (s len : Z) : MM tcursor :=
  ka ← lift (key_of_string mem s len); r ← fix_root levels; mret (mkCursor 0 ka 0 0 r 0).
(** [lp.value()] is a reference to the value of the slot. *)
Definition cursor_value (c : tcursor) : MM Z :=
  l ← get_leaf (n_ c); v ← lift (array_get (lv_ l) (kp_ c)); match v with LvValue r => mret r | LvLayer _ => stop InactiveMember end.
Definition set_cursor_value (c : tcursor) (row : Z) : MM unit := set_lv (n_ c) (kp_ c) (LvValue row).
Definition put (fuel levels : nat) (mem : list Z) (s len : Z) (value : list Z) : MM unit :=
  lp ← new_cursor levels mem s len;
  '(found, lp) ← find_insert fuel levels lp;
  ts ← (if negb found then
          l ← get_leaf (n_ lp); advance_timestamp (node_ts_ l);; update_timestamp
        else
          r ← cursor_value lp; row ← get_row r; ts ← update_timestamp_to (row_ts row); deallocate_row r;; mret ts);
  row ← allocate_row (create1 value ts);
  set_cursor_value lp row;;
  finish 1 lp.
Definition put_uv (fuel levels : nat) (mem : list Z) (s len : Z) (value : list Z) : MM bool :=
  lp ← new_cursor levels mem s len;
  '(found, lp) ← find_insert fuel levels lp;
  if found : bool then finish 1 lp;; mret false
  else
    l ← get_leaf (n_ lp);
    advance_timestamp (node_ts_ l);;
    ts ← update_timestamp;
    row ← allocate_row (create1 value ts);
    set_cursor_value lp row;;
    finish 1 lp;;
    mret true.
(** [dynamic_get]: the value, if the key was found.  [lookup_row] is the part before the row is read. *)
Definition lookup_row (fuel levels : nat) (mem : list Z) (s len : Z) : MM (option Z) :=
  ka ← lift (key_of_string mem s len);
  root ← fix_root levels;
  '(found, lv) ← find_unlocked_loop fuel levels root ka lv_make_empty None;
  if found : bool then match lv with LvValue r => mret (Some r) | LvLayer _ => stop InactiveMember end else mret None.
Definition mt_get (fuel levels : nat) (mem : list Z) (s len : Z) : MM (option (list Z)) :=
  r ← lookup_row fuel levels mem s len;
  match r with Some r => row ← get_row r; v ← lift (row_col row 0); mret (Some v) | None => mret None end.
Definition new_table : mass := mkMass ∅ ∅ 64 0 0.
