(* ===== verification/MassLeaf.v ===== *)
(** * What a Masstree leaf holds

    A leaf as a sorted list of slots: the order of keys within a layer, the searches, the
    suffixes in their bags, and what filling a slot and splitting do to them. *)

From S2P Require Import Prelude Permuter KSearch NodeVersion MassKey MassBag MassNode MassTree.

(** ** Keys within a layer *)
(** A slice and a length; 9 stands for every length above 8. *)
Abbreviation akey := (Z * Z)%type.
Definition akey_lt (a b : akey) : Prop := a.1 < b.1 \/ (a.1 = b.1 /\ a.2 < b.2).
Definition akey_of (s : list Z) : akey := (slice_of s, Z.min (Z.of_nat (length s)) 9).
Lemma akey_eq a b c d : ((a, b) : akey) = (c, d) <-> a = c /\ b = d.
Proof. split; [by intros [= -> ->]|by intros [-> ->]]. Qed.
Lemma akey_lt_trans a b c : akey_lt a b -> akey_lt b c -> akey_lt a c.
Proof. unfold akey_lt. lia. Qed.
Lemma akey_lt_irrefl a : ~ akey_lt a a.
Proof. unfold akey_lt. lia. Qed.
Lemma akey_trichotomy a b : akey_lt a b \/ a = b \/ akey_lt b a.
Proof. destruct a as [x m], b as [y n]. unfold akey_lt. simpl. destruct (Z.lt_trichotomy x y) as [|[->|]], (Z.lt_trichotomy m n) as [|[->|]]; auto 6. Qed.

(** The key [ka] of a cursor stands for the string [str]; [slack] bytes behind it can be read. *)
Record key_repr (slack : Z) (ka : key) (str : list Z) : Prop := {
  kr_bytes : Forall byte_ok (k_mem ka);
  kr_start : 0 <= k_s ka;
  kr_len : klen ka = Z.of_nat (length str);
  kr_room : k_s ka + klen ka + slack <= Z.of_nat (length (k_mem ka));
  kr_str : string_at (k_mem ka) (k_s ka) (klen ka) = str;
  kr_ikey : ikey0 ka = slice_of str }.
Lemma kr_ok slack ka str : key_repr slack ka str -> Forall byte_ok str.
Proof. intros []. subst. by apply string_at_ok. Qed.
Lemma key_repr_at slack ka str : 0 <= slack -> key_repr slack ka str -> ka = key_at (k_mem ka) (k_first ka) (k_s ka) (klen ka).
Proof. intros ? [? ? ? ? Hs Hi]. unfold key_at. rewrite Hs, <- Hi. by destruct ka. Qed.
Lemma key_repr_string slack mem s len : 0 <= slack -> Forall byte_ok mem -> 0 <= s -> 0 <= len -> s + len + slack <= Z.of_nat (length mem) ->
  exists ka, key_of_string mem s len = Ok ka /\ key_repr slack ka (string_at mem s len).
Proof.
  intros ? Hm Hs Hl Hin. eexists. split; [apply key_of_string_ok; done || lia|].
  split; simpl; try done. rewrite string_at_length; lia.
Qed.
Lemma key_repr_shift slack ka str : 0 <= slack -> key_repr slack ka str -> (8 < length str)%nat ->
  exists ka', key_shift ka = Ok ka' /\ key_repr slack ka' (drop 8 str).
Proof.
  intros Hsl Hk Hl. pose proof (key_repr_at _ _ _ Hsl Hk) as Hat. destruct Hk as [Hb Hs Hlen Hroom Hstr Hi].
  pose proof (key_shift_ok (k_mem ka) (k_s ka) (klen ka) Hb Hs ltac:(lia) (k_first ka) 0 ltac:(lia) ltac:(lia)) as Hsh.
  rewrite Z.add_0_r, Z.sub_0_r, <- Hat in Hsh. eexists. split; [exact Hsh|].
  assert (Hd : string_at (k_mem ka) (k_s ka + 8) (klen ka - 8) = drop 8 str).
  { rewrite <- Hstr. unfold string_at. rewrite skipn_firstn_comm, drop_drop. f_equal; [lia|]. f_equal. lia. }
  split; cbn [k_mem k_s klen k_first ikey0 key_at]; change (0 + 8) with 8; try done; [lia|rewrite length_drop; lia|lia|by rewrite Hd].
Qed.
Lemma key_repr_suffix slack ka str : 0 <= slack -> key_repr slack ka str -> (8 < length str)%nat ->
  has_suffix ka = true /\ key_suffix ka = (k_s ka + 8, klen ka - 8) /\ string_at (k_mem ka) (k_s ka + 8) (klen ka - 8) = drop 8 str.
Proof.
  intros Hsl [Hb Hs Hlen Hroom Hstr Hi] Hl. split_and!; [apply Z.ltb_lt; unfold ikey_size; lia|done|].
  rewrite <- Hstr. unfold string_at. rewrite skipn_firstn_comm, drop_drop. f_equal; [lia|]. f_equal. lia.
Qed.

(** *** Slices of strings *)
Lemma slice_range s : Forall byte_ok s -> 0 <= slice_of s < 2 ^ 64.
Proof.
  intros Hs. unfold slice_of. pose proof (le_word_range (reverse (padded s))) as H. rewrite length_reverse, padded_length in H.
  change (256 ^ Z.of_nat 8) with (2 ^ 64) in H. apply H. apply Forall_reverse. by apply padded_ok.
Qed.
Lemma slice_inj a b : Forall byte_ok a -> Forall byte_ok b -> (8 <= length a)%nat -> (8 <= length b)%nat -> slice_of a = slice_of b -> take 8 a = take 8 b.
Proof.
  intros Ha Hb Hla Hlb H. apply le_word_inj in H; [|by rewrite !length_reverse, !padded_length|by apply Forall_reverse, padded_ok..].
  apply (inj reverse) in H. unfold padded in H. replace (8 - length a)%nat with 0%nat in H by lia. replace (8 - length b)%nat with 0%nat in H by lia.
  by rewrite !app_nil_r in H.
Qed.
(** Two short strings with one slice and one length are equal. *)
Lemma akey_short a b : Forall byte_ok a -> Forall byte_ok b -> (length a <= 8)%nat -> akey_of a = akey_of b -> a = b.
Proof.
  intros Ha Hb Hl [= Hs Hn]. assert (length a = length b) by lia.
  apply le_word_inj in Hs; [|by rewrite !length_reverse, !padded_length|by apply Forall_reverse, padded_ok..].
  apply (inj reverse) in Hs. unfold padded in Hs. rewrite !take_ge in Hs by lia. apply app_inj_1 in Hs; [apply Hs|done].
Qed.
Lemma akey_long a b : Forall byte_ok a -> Forall byte_ok b -> (8 < length a)%nat -> akey_of a = akey_of b -> (8 < length b)%nat /\ take 8 a = take 8 b.
Proof. intros Ha Hb Hl [= Hs Hn]. assert (8 < length b)%nat by lia. split; [done|]. apply slice_inj; try done; lia. Qed.

(** ** Slots *)
Inductive content : Type := CVal (suffix : list Z) (row : Z) | CLayer (link : Z).
Definition norm_len (keylenx : Z) : Z := Z.min keylenx 9.
Definition slot_key (l : leaf) (p : Z) : akey := (slot_ikey l p, norm_len (slot_keylenx l p)).
Definition slot_content (l : leaf) (p : Z) : option content :=
  match lv_ l !! Z.to_nat p with
  | Some (LvLayer n) => if keylenx_is_layer (slot_keylenx l p) then Some (CLayer n) else None
  | Some (LvValue r) => if keylenx_is_layer (slot_keylenx l p) then None
                        else Some (CVal (if keylenx_has_ksuf (slot_keylenx l p) then bag_string (leaf_bag l) p else []) r)
  | None => None
  end.
Definition live (l : leaf) : list Z := take (Z.to_nat (leaf_size l)) (elements node_width (permutation_ l)).
Definition max_suffix : Z := 2040.
(** A slot whose key can be compared and whose suffix is in the bag. *)
Record slot_ok (l : leaf) (p : Z) : Prop := {
  so_range : 0 <= p < 15;
  so_ikey : 0 <= slot_ikey l p < 2 ^ 64;
  so_len : 0 <= slot_keylenx l p <= 9 \/ slot_keylenx l p = layer_keylenx;
  so_suffix : slot_keylenx l p = 9 -> 0 < Z.of_nat (length (bag_string (leaf_bag l) p)) <= max_suffix /\ (is_Some (ksuf_ l) \/ 0 < extrasize64_ l);
  so_content : is_Some (slot_content l p) }.
Definition bags_ok (l : leaf) : Prop :=
  match ksuf_ l with Some b => bag_ok 16 15 b /\ extrasize64_ l < 0 | None => 0 < extrasize64_ l -> bag_ok 8 15 (iksuf_ l) end.
Record shape_ok (l : leaf) : Prop := {
  sh_keylenx : length (keylenx_ l) = 15%nat;
  sh_ikey0 : length (l_ikey0_ l) = 15%nat;
  sh_lv : length (lv_ l) = 15%nat;
  sh_bags : bags_ok l }.
Definition sorted_slots (l : leaf) (ps : list Z) : Prop := forall i j p q, ps !! i = Some p -> ps !! j = Some q -> (i < j)%nat -> akey_lt (slot_key l p) (slot_key l q).
Record leaf_ok (l : leaf) : Prop := {
  lo_shape : shape_ok l;
  lo_perm : permuter_ok node_width (permutation_ l);
  lo_slots : forall p, p ∈ live l -> slot_ok l p;
  lo_sorted : sorted_slots l (live l) }.

Lemma psize_nonneg x : 0 <= psize x.
Proof. rewrite psize_nib. apply nib_bound. Qed.
Lemma size_range l : permuter_ok node_width (permutation_ l) -> 0 <= leaf_size l <= 15.
Proof. intros (_ & ? & _). pose proof (psize_nonneg (permutation_ l)). unfold leaf_size, node_width in *. lia. Qed.
Lemma live_length l : permuter_ok node_width (permutation_ l) -> length (live l) = Z.to_nat (leaf_size l).
Proof. intros H. pose proof (size_range l H). unfold live. rewrite length_take, elements_length by (unfold node_width; lia). unfold node_width. lia. Qed.
Lemma live_lookup l i p : permuter_ok node_width (permutation_ l) -> live l !! i = Some p -> (i < Z.to_nat (leaf_size l))%nat /\ p = element (permutation_ l) (Z.of_nat i).
Proof.
  intros H Hi. pose proof (size_range l H). unfold live in Hi. apply lookup_take_Some in Hi as [Hi Hlt]. split; [done|].
  rewrite elements_lookup in Hi by (unfold node_width; lia). injection Hi as <-. by rewrite element_nib by lia.
Qed.
Lemma element_live l i : permuter_ok node_width (permutation_ l) -> 0 <= i < leaf_size l -> live l !! Z.to_nat i = Some (element (permutation_ l) i).
Proof.
  intros H Hi. destruct (lookup_lt_is_Some_2 (live l) (Z.to_nat i)) as [p Hp]; [rewrite live_length by done; lia|].
  destruct (live_lookup l _ _ H Hp) as [_ ->]. by rewrite Z2Nat.id in * by lia.
Qed.
Lemma live_nodup l : permuter_ok node_width (permutation_ l) -> NoDup (live l).
Proof. intros (_ & _ & Hp). apply (sublist_NoDup _ (elements node_width (permutation_ l))); [|by apply sublist_take]. rewrite Hp. apply NoDup_seqZ. Qed.
Lemma live_range l p : permuter_ok node_width (permutation_ l) -> p ∈ live l -> 0 <= p < 15.
Proof.
  intros (_ & _ & Hp) H. assert (Hin : p ∈ elements node_width (permutation_ l)) by (unfold live in H; by apply elem_of_take in H as (? & ?%list_elem_of_lookup_2 & _)).
  rewrite Hp in Hin. apply elem_of_seqZ in Hin. unfold node_width in Hin. lia.
Qed.

(** ** Searching *)
Lemma key_compare_akey slack ka str x kx : key_repr slack ka str -> 0 <= kx <= 9 \/ kx = layer_keylenx ->
  (key_compare ka x kx < 0 <-> akey_lt (akey_of str) (x, norm_len kx)) /\ (key_compare ka x kx = 0 <-> akey_of str = (x, norm_len kx)).
Proof.
  intros Hk Hx. unfold key_compare, akey_of, akey_lt, norm_len. rewrite (kr_ikey _ _ _ Hk), (kr_len _ _ _ Hk). cbn [fst snd]. unfold layer_keylenx, ikey_size in *.
  rewrite compare_sgn. destruct (Z.lt_trichotomy (slice_of str) x) as [Hlt|[->|Hgt]].
  - rewrite Z.sgn_neg by lia. simpl. split; split; intros; try lia; simplify_eq; lia.
  - rewrite Z.sub_diag. cbn [Z.sgn Z.eqb]. rewrite akey_eq. destruct (Z.ltb_spec 8 (Z.of_nat (length str))), (Z.leb_spec kx 8); simpl; lia.
  - rewrite Z.sgn_pos by lia. simpl. split; split; intros; try lia; simplify_eq; lia.
Qed.
Record search_split (l : leaf) (k : akey) (A B : list Z) : Prop := {
  ss_live : live l = A ++ B;
  ss_low : forall p, p ∈ A -> akey_lt (slot_key l p) k;
  ss_high : forall p, p ∈ B -> slot_key l p = k \/ akey_lt k (slot_key l p) }.
(** The slot that holds the key, or -1. *)
Definition found_slot (l : leaf) (k : akey) (B : list Z) : Z :=
  match B with p :: _ => if decide (slot_key l p = k) then p else -1 | [] => -1 end.
Section LeafSearches.
Context (l : leaf) (slack : Z) (ka : key) (str : list Z) (Hl : leaf_ok l) (Hk : key_repr slack ka str).
#[local] Abbreviation cmp := (key_compare_leaf ka (slot_ikey l) (slot_keylenx l)).
#[local] Abbreviation perm := (kpermuter_word (permutation_ l)).
Lemma leaf_keys_sorted : keys_sorted perm cmp.
Proof.
  intros i j Hi Hj Hc. cbn [kp_size kp_at] in *. pose proof (lo_perm _ Hl) as Hp.
  pose proof (element_live l i Hp ltac:(unfold leaf_size; lia)) as Ei. pose proof (element_live l j Hp ltac:(unfold leaf_size; lia)) as Ej.
  pose proof (so_len _ _ (lo_slots _ Hl _ (list_elem_of_lookup_2 _ _ _ Ei))) as Li. pose proof (so_len _ _ (lo_slots _ Hl _ (list_elem_of_lookup_2 _ _ _ Ej))) as Lj.
  pose proof (lo_sorted _ Hl _ _ _ _ Ei Ej ltac:(lia)) as Hs.
  destruct (key_compare_akey slack ka str (slot_ikey l (element (permutation_ l) i)) _ Hk Li) as [H1 H2].
  apply (key_compare_akey slack ka str _ _ Hk Lj). unfold key_compare_leaf in Hc.
  destruct (Z.eq_dec (key_compare ka (slot_ikey l (element (permutation_ l) i)) (slot_keylenx l (element (permutation_ l) i))) 0) as [He|Hne].
  - apply H2 in He. rewrite He. exact Hs.
  - eapply akey_lt_trans; [|exact Hs]. apply H1. lia.
Qed.
Lemma leaf_search : exists A B, search_split l (akey_of str) A B /\
  leaf_lower_with_position ka l = Ok (Z.of_nat (length A), found_slot l (akey_of str) B).
Proof.
  pose proof (lo_perm _ Hl) as Hp. pose proof (size_range l Hp) as Hsz.
  destruct (position_loop_ok perm cmp leaf_keys_sorted search_fuel 0 (psize (permutation_ l))) as (b & Hrun & Hb).
  1-5: unfold leaf_size, search_fuel in *; cbn [kp_size]; lia.
  destruct Hb as [Hr Hlo Hhi]. cbn [kp_size kp_at] in *. fold (leaf_size l) in *.
  assert (Hcmp : forall i p, live l !! i = Some p -> (cmp p < 0 <-> akey_lt (akey_of str) (slot_key l p)) /\ (cmp p = 0 <-> akey_of str = slot_key l p)).
  { intros i p Hi. apply (key_compare_akey slack); [done|]. apply (lo_slots _ Hl). by eapply list_elem_of_lookup_2. }
  exists (take (Z.to_nat b) (live l)), (drop (Z.to_nat b) (live l)). split; [split|].
  - by rewrite take_drop.
  - intros p [i [Hi Hlt]%lookup_take_Some]%list_elem_of_lookup. destruct (live_lookup l i p Hp Hi) as [? Hel].
    specialize (Hlo (Z.of_nat i) ltac:(lia)). rewrite <- Hel in Hlo. destruct (Hcmp i p Hi) as [H1 H2].
    destruct (akey_trichotomy (slot_key l p) (akey_of str)) as [?|[He|Hgt]]; [done|symmetry in He; apply H2 in He; lia|apply H1 in Hgt; lia].
  - intros p [i Hi]%list_elem_of_lookup. rewrite lookup_drop in Hi. destruct (live_lookup l _ p Hp Hi) as [? Hel].
    specialize (Hhi (Z.of_nat (Z.to_nat b + i)) ltac:(lia)). rewrite <- Hel in Hhi. destruct (Hcmp _ p Hi) as [H1 H2].
    destruct (Z.eq_dec (cmp p) 0) as [He|Hne]; [left; symmetry; by apply H2|right; apply H1; lia].
  - unfold leaf_lower_with_position, key_bound_lower_with_position. cbn [is_binary]. unfold key_lower_bound_with_position_by. cbn [kp_size]. fold (leaf_size l). rewrite Hrun.
    do 2 f_equal; [rewrite length_take, live_length by done; lia|]. unfold position_at, found_slot. cbn [kp_size kp_at]. fold (leaf_size l).
    destruct (Z.ltb_spec b (leaf_size l)); cbn [andb].
    + pose proof (element_live l b Hp ltac:(lia)) as Eb. rewrite (drop_S _ _ _ Eb). destruct (Hcmp _ _ Eb) as [_ H2].
      destruct (Z.eqb_spec (cmp (element (permutation_ l) b)) 0) as [He|Hne]; [rewrite decide_True; [done|symmetry; by apply H2]|rewrite decide_False; [done|]].
      intros He. apply Hne, H2. done.
    + rewrite drop_ge; [done|]. rewrite live_length by done. lia.
Qed.
(** The search of a lookup finds the same slot. *)
Lemma binary_search_position fuel : forall a b,
  lower_bound_binary_loop fuel ka l (permutation_ l) a b = ('(_, p) ← lower_bound_position_loop perm cmp fuel a b; mret p).
Proof.
  induction fuel as [|fuel IH]; intros a b; [done|]. cbn [lower_bound_binary_loop lower_bound_position_loop kp_at].
  destruct (a <? b); [|done]. destruct (cmp _ <? 0); [apply IH|]. destruct (cmp _ =? 0); [done|apply IH].
Qed.
Lemma binary_search_ok i p : leaf_lower_with_position ka l = Ok (i, p) -> lower_bound_binary ka l (permutation_ l) = Ok p.
Proof.
  unfold leaf_lower_with_position, key_bound_lower_with_position, lower_bound_binary. cbn [is_binary]. unfold key_lower_bound_with_position_by. cbn [kp_size].
  rewrite binary_search_position. by intros ->.
Qed.
End LeafSearches.

(** ** Suffixes *)
Lemma leaf_bag_ok l : bags_ok l -> is_Some (ksuf_ l) \/ 0 < extrasize64_ l -> exists T, (T = 8 \/ T = 16) /\ bag_ok T 15 (leaf_bag l).
Proof.
  unfold bags_ok, leaf_bag. destruct (ksuf_ l) as [b|]; [intros [Hb _] _; exists 16; auto|]. intros Hb [[? ?]|He]; [done|]. exists 8. auto.
Qed.
Lemma leaf_ksuf_ok l p : shape_ok l -> slot_ok l p -> slot_keylenx l p = 9 ->
  exists pos len, leaf_ksuf l p = Ok (s_ (leaf_bag l), pos, len) /\ Forall byte_ok (s_ (leaf_bag l)) /\ 0 <= pos /\ pos + len <= Z.of_nat (length (s_ (leaf_bag l)))
    /\ string_at (s_ (leaf_bag l)) pos len = bag_string (leaf_bag l) p /\ len = Z.of_nat (length (bag_string (leaf_bag l) p)) /\ 0 < len <= max_suffix.
Proof.
  intros Hs Hp Hk. destruct (so_suffix _ _ Hp Hk) as [Hl Hpr]. destruct (leaf_bag_ok l (sh_bags _ Hs) Hpr) as (T & HT & Hb). pose proof (so_range _ _ Hp) as Hr.
  destruct (info_at T 15 _ Hb p Hr) as (pos & len & Hi & Hg). pose proof (bag_string_length T HT 15 _ Hb p Hr) as Hlen. unfold bag_len in Hlen. rewrite Hi in Hlen.
  destruct (string_in_bag T HT 15 _ Hb _ _ _ Hi) as [?|(? & ? & ?)]; [lia|]. exists pos, len. unfold leaf_ksuf. rewrite Hg.
  split; [done|]. split; [apply Hb|]. split_and!; try lia. unfold bag_string. by rewrite Hi.
Qed.
Definition moved_len (l : leaf) (p q : Z) : Z :=
  if negb (q =? p) && keylenx_has_ksuf (slot_keylenx l q) then Z.of_nat (length (bag_string (leaf_bag l) q)) else 0.
Definition total_len (l : leaf) (p : Z) (S : list Z) : Z := foldr (fun q a => moved_len l p q + a) 0 S.
Section AssignSuffix.
Context (l : leaf) (p : Z) (Hsh : shape_ok l).
Lemma keylenx_get q : 0 <= q < 15 -> array_get (keylenx_ l) q = Ok (slot_keylenx l q).
Proof.
  intros Hq. unfold array_get, slot_keylenx. rewrite decide_True by lia. destruct (lookup_lt_is_Some_2 (keylenx_ l) (Z.to_nat q)) as [x Hx]; [rewrite (sh_keylenx _ Hsh); lia|].
  rewrite Hx. f_equal. symmetry. by apply list_lookup_total_correct.
Qed.
Definition slots_ok (S : list Z) : Prop := forall q, q ∈ S -> 0 <= q < 15 /\ (q <> p -> slot_ok l q).
Lemma total_len_bound S : slots_ok S -> 0 <= total_len l p S <= max_suffix * Z.of_nat (length S).
Proof.
  induction S as [|q S IH]; intros HS; [simpl; lia|]. cbn [total_len foldr length]. fold (total_len l p S).
  destruct IH as [? ?]; [intros x Hx; apply HS; by right|]. assert (0 <= moved_len l p q <= max_suffix).
  { unfold moved_len. destruct (Z.eqb_spec q p) as [|Hne]; [simpl; unfold max_suffix; lia|]. unfold keylenx_has_ksuf. cbn [negb andb].
    destruct (Z.eqb_spec (slot_keylenx l q) (8 + 1)) as [Hk|]; [|unfold max_suffix; lia]. destruct (HS q ltac:(by left)) as [_ Hok]. destruct (so_suffix _ _ (Hok Hne) Hk). lia. }
  lia.
Qed.
Lemma ksuf_total_ok S : slots_ok S -> forall csz, ksuf_total l p S csz = Ok (csz + total_len l p S).
Proof.
  induction S as [|q S IH]; intros HS csz; [simpl; by rewrite Z.add_0_r|]. destruct (HS q ltac:(by left)) as [Hq Hok].
  assert (HS' : slots_ok S) by (intros x Hx; apply HS; by right). cbn [ksuf_total total_len foldr]. fold (total_len l p S). rewrite keylenx_get by done. cbn [mbind outcome_bind].
  unfold moved_len. destruct (Z.eqb_spec q p) as [|Hne]; cbn [negb andb]; [by rewrite IH|].
  destruct (keylenx_has_ksuf (slot_keylenx l q)) eqn:Hk; [|by rewrite IH]. apply Z.eqb_eq in Hk.
  destruct (leaf_ksuf_ok l q Hsh (Hok Hne) Hk) as (pos & len & -> & _ & _ & _ & _ & Hlen & _). cbn [mbind outcome_bind]. rewrite IH by done. f_equal. lia.
Qed.
Lemma ksuf_copy_ok S : slots_ok S -> NoDup S -> forall b rest, bag_ok 16 15 b -> 0 <= rest -> size_ b + total_len l p S + rest + 7 <= bag_capacity b ->
  exists b', ksuf_copy l p S b = Ok b' /\ bag_ok 16 15 b' /\ size_ b' <= size_ b + total_len l p S /\ capacity_ b' = capacity_ b
    /\ (forall q, q ∈ S -> q <> p -> slot_keylenx l q = 9 -> bag_string b' q = bag_string (leaf_bag l) q)
    /\ (forall q, 0 <= q -> q ∉ S -> bag_string b' q = bag_string b q).
Proof.
  induction S as [|q S IH]; intros HS Hnd b rest Hb Hrest Hcap.
  { exists b. simpl. rewrite Z.add_0_r. split_and!; try done. by intros q ?%elem_of_nil. }
  destruct (HS q ltac:(by left)) as [Hq Hok]. assert (HS' : slots_ok S) by (intros x Hx; apply HS; by right).
  apply NoDup_cons in Hnd as [Hnq Hnd]. pose proof (total_len_bound S HS') as Htb. cbn [ksuf_copy total_len foldr] in *. fold (total_len l p S) in *.
  rewrite keylenx_get by done. cbn [mbind outcome_bind]. unfold moved_len in *.
  destruct (negb (q =? p) && keylenx_has_ksuf (slot_keylenx l q)) eqn:Hc.
  - apply andb_prop in Hc as [Hne%negb_true_iff%Z.eqb_neq Hk]. pose proof Hk as Hk9. apply Z.eqb_eq in Hk9.
    destruct (leaf_ksuf_ok l q Hsh (Hok Hne) Hk9) as (pos & len & -> & Hbytes & Hpos & Hin & Hstr & Hlen & Hlr). cbn [mbind outcome_bind].
    destruct (bag_assign_ok 16 ltac:(by right) 15 b Hb q (s_ (leaf_bag l)) pos len Hq ltac:(lia) Hbytes Hpos Hin) as [(b1 & -> & Hb1 & Hs1 & Ho1 & Hz1 & Hc1)|[_ Hf]].
    + cbn [mbind outcome_bind]. destruct (IH HS' Hnd b1 rest Hb1 Hrest) as (b' & -> & Hb' & Hz' & Hc' & Hin' & Hout').
      { unfold bag_capacity in *. rewrite Hc1. lia. }
      exists b'. split_and!; try done; [lia|by rewrite Hc'| |].
      * intros x [->|Hx]%elem_of_cons Hxp Hkx; [by rewrite Hout', Hs1 by (done || lia)|by apply Hin'].
      * intros x Hx0 Hx. rewrite Hout' by (done || set_solver). apply Ho1; [done|]. set_solver.
    + exfalso. lia.
  - destruct (IH HS' Hnd b rest Hb Hrest ltac:(lia)) as (b' & -> & Hb' & Hz' & Hc' & Hin' & Hout'). exists b'. split_and!; try done.
    + intros x [->|Hx]%elem_of_cons Hxp Hkx; [|by apply Hin']. unfold keylenx_has_ksuf in Hc. rewrite Hkx in Hc. apply Z.eqb_neq in Hxp. by rewrite Hxp in Hc.
    + intros x Hx0 Hx. apply Hout'; [done|set_solver].
Qed.
Lemma iceil_log2_bounds x : 1 < x <= 32768 -> x <= iceil_log2 x <= 32768.
Proof.
  intros Hx. unfold iceil_log2. pose proof (Z.log2_up_spec x ltac:(lia)). pose proof (Z.log2_up_le_mono x 32768 ltac:(lia)).
  change (Z.log2_up 32768) with 15 in *. pose proof (Z.pow_le_mono_r 2 (Z.log2_up x) 15). change (2 ^ 15) with 32768 in *. lia.
Qed.
Context (mem : list Z) (s len : Z) (Hp : 0 <= p < 15) (Hlen : 0 < len <= max_suffix) (Hmem : Forall byte_ok mem) (Hs : 0 <= s) (Hin : s + len <= Z.of_nat (length mem)).
(** The leaf after its bags have been changed so that slot [p] has the suffix. *)
Record assigned (S : list Z) (l' : leaf) : Prop := {
  as_leaf : exists e k i, l' = set_bags e k i l;
  as_bags : bags_ok l';
  as_present : is_Some (ksuf_ l') \/ 0 < extrasize64_ l';
  as_string : bag_string (leaf_bag l') p = string_at mem s len;
  as_others q : q ∈ S -> q <> p -> slot_keylenx l q = 9 -> bag_string (leaf_bag l') q = bag_string (leaf_bag l) q }.
Lemma assign_in_place_ok S : slots_ok S -> exists r, assign_in_place l p mem s len = Ok r /\ forall l', r = Some l' -> assigned S l'.
Proof.
  intros HS. unfold assign_in_place, assign_internal. pose proof (sh_bags _ Hsh) as Hb. unfold bags_ok in Hb. destruct (ksuf_ l) as [b|] eqn:Hk.
  - destruct Hb as [Hb He]. replace (0 <? extrasize64_ l) with false by (symmetry; apply Z.ltb_ge; lia).
    destruct (bag_assign_ok 16 ltac:(by right) 15 b Hb p mem s len Hp ltac:(lia) Hmem Hs Hin) as [(b1 & -> & Hb1 & Hs1 & Ho1 & _)|[-> _]]; cbn [mbind outcome_bind]; eexists; (split; [done|]); [|done].
    intros l' [= <-]. split; [by do 3 eexists|done|left; simpl; eauto|done|]. intros q Hq Hne _. unfold leaf_bag. simpl. rewrite Hk. apply Ho1; [apply HS in Hq; lia|done].
  - destruct (Z.ltb_spec 0 (extrasize64_ l)) as [He|]; [|eexists; split; [done|done]].
    destruct (bag_assign_ok 8 ltac:(by left) 15 _ (Hb He) p mem s len Hp ltac:(lia) Hmem Hs Hin) as [(b1 & -> & Hb1 & Hs1 & Ho1 & _)|[-> _]]; cbn [mbind outcome_bind]; eexists; (split; [done|]); [|done].
    intros l' [= <-]. split; [by do 3 eexists|by intros _|by right|done|]. intros q Hq Hne _. unfold leaf_bag. simpl. rewrite Hk. apply Ho1; [apply HS in Hq; lia|done].
Qed.
Lemma assign_ksuf_ok initializing : let S := live_slots l p initializing in slots_ok S -> NoDup S -> (length S <= 15)%nat ->
  exists l', assign_ksuf l p mem s len initializing = Ok l' /\ assigned S l'.
Proof.
  intros S HS Hnd HlS. unfold assign_ksuf. destruct (assign_in_place_ok S HS) as ([l'|] & -> & Hr); cbn [mbind outcome_bind]; [by exists l'; split; [|apply Hr]|].
  fold S. rewrite ksuf_total_ok by done. cbn [mbind outcome_bind]. rewrite Z.add_0_l. pose proof (total_len_bound S HS) as Htb.
  change (safe_size 16 node_width (total_len l p S + len)) with (64 + (total_len l p S + len) + 8 - 1).
  set (x := 64 + (total_len l p S + len) + 8 - 1). pose proof (iceil_log2_bounds x ltac:(unfold x, max_suffix in *; lia)) as Hx.
  set (sz := match ksuf_ l with Some b => Z.max (iceil_log2 x) (bag_capacity b) | None => iceil_log2 x end).
  assert (Hsz : x <= sz < 65536).
  { unfold sz. destruct (ksuf_ l) as [b|] eqn:Hk; [|lia]. pose proof (sh_bags _ Hsh) as Hb. unfold bags_ok in Hb. rewrite Hk in Hb. destruct Hb as [Hb _]. pose proof (bk_small _ _ _ Hb) as Hsm. unfold max_size in Hsm. lia. }
  assert (Hn : bag_ok 16 15 (new_stringbag 16 node_width sz)) by (apply (new_bag_ok 16 ltac:(by right) 15 sz); [lia|change (overhead 16 15) with 64; unfold max_size, x in *; lia]).
  assert (Hcap : bag_capacity (new_stringbag 16 node_width sz) = sz) by (unfold bag_capacity; simpl; rewrite wrap_small; lia).
  assert (Hsize : size_ (new_stringbag 16 node_width sz) = 64) by done.
  destruct (ksuf_copy_ok S HS Hnd _ len Hn ltac:(lia)) as (b1 & -> & Hb1 & Hz1 & Hc1 & Hin1 & Hout1); [rewrite Hcap, Hsize; unfold x in Hsz; lia|].
  cbn [mbind outcome_bind]. assert (Hcap1 : bag_capacity b1 = sz) by (rewrite <- Hcap; unfold bag_capacity; by rewrite Hc1).
  destruct (bag_assign_ok 16 ltac:(by right) 15 b1 Hb1 p mem s len Hp ltac:(lia) Hmem Hs Hin) as [(b2 & -> & Hb2 & Hs2 & Ho2 & _)|[_ Hf]]; [|exfalso; unfold x in Hsz; lia].
  cbn [mbind outcome_bind]. eexists. split; [done|]. split; [by do 3 eexists|split; [done|simpl; destruct (Z.leb_spec 0 (extrasize64_ l)); lia]|left; simpl; eauto|done|].
  intros q Hq Hne Hk. unfold leaf_bag at 1. simpl. rewrite Ho2; [by apply Hin1|apply HS in Hq; lia|done].
Qed.
End AssignSuffix.

(** ** Filling a slot *)
Lemma lookup_total_insert_eq {A} `{Inhabited A} (l : list A) i x : (i < length l)%nat -> <[i := x]> l !!! i = x.
Proof. intros. apply list_lookup_total_correct. by apply list_lookup_insert_eq. Qed.
Lemma lookup_total_insert_other {A} `{Inhabited A} (l : list A) i j x : i <> j -> <[i := x]> l !!! j = l !!! j.
Proof. intros. rewrite !list_lookup_total_alt. by rewrite list_lookup_insert_ne. Qed.
(** What does not belong to the slots and bags of a leaf. *)
Definition same_frame (l l' : leaf) : Prop :=
  l_version l' = l_version l /\ modstate_ l' = modstate_ l /\ permutation_ l' = permutation_ l /\ l_next_ l' = l_next_ l /\ l_prev_ l' = l_prev_ l
  /\ l_parent_ l' = l_parent_ l /\ node_ts_ l' = node_ts_ l.
Record filled (S : list Z) (l l' : leaf) (p : Z) (k : akey) (c : content) : Prop := {
  fi_frame : same_frame l l';
  fi_shape : shape_ok l';
  fi_ok : slot_ok l' p;
  fi_key : slot_key l' p = k;
  fi_content : slot_content l' p = Some c;
  fi_keys q : 0 <= q -> q <> p -> slot_key l' q = slot_key l q;
  fi_slots q : q ∈ S -> q <> p -> slot_ok l q -> slot_ok l' q /\ slot_content l' q = slot_content l q }.
Lemma set_slot_filled S l l1 p v ik kl c : shape_ok l -> (exists e k i, l1 = set_bags e k i l) -> bags_ok l1 -> 0 <= p < 15 ->
  (forall q, q ∈ S -> q <> p -> slot_keylenx l q = 9 -> bag_string (leaf_bag l1) q = bag_string (leaf_bag l) q /\ (is_Some (ksuf_ l1) \/ 0 < extrasize64_ l1)) ->
  0 <= ik < 2 ^ 64 -> 0 <= kl <= 9 \/ kl = layer_keylenx ->
  (kl = 9 -> 0 < Z.of_nat (length (bag_string (leaf_bag l1) p)) <= max_suffix /\ (is_Some (ksuf_ l1) \/ 0 < extrasize64_ l1)) ->
  match v with LvLayer n => kl = layer_keylenx /\ c = CLayer n | LvValue r => kl <= 9 /\ c = CVal (if kl =? 9 then bag_string (leaf_bag l1) p else []) r end ->
  exists l', set_slot l1 p v ik kl = Ok l' /\ filled S l l' p (ik, norm_len kl) c.
Proof.
  intros Hsh (e & kk & ii & ->) Hbags Hp Hoth Hik Hkl Hsuf Hc. set (l1 := set_bags e kk ii l) in *. assert (Hsh1 : shape_ok l1) by (split; [apply Hsh..|done]).
  assert (Hset : forall A (x : list A) y, length x = 15%nat -> array_set x p y = Ok (<[Z.to_nat p := y]> x)) by (intros A x y Hx; unfold array_set; rewrite decide_True by lia; done).
  unfold set_slot. rewrite (Hset _ (lv_ l1)), (Hset _ (l_ikey0_ l1)), (Hset _ (keylenx_ l1)) by apply Hsh. cbn [mbind outcome_bind].
  set (l' := set_slots _ _ _ l1). exists l'. split; [done|].
  assert (Hikp : slot_ikey l' p = ik) by (apply lookup_total_insert_eq; rewrite (sh_ikey0 _ Hsh1); lia).
  assert (Hklp : slot_keylenx l' p = kl) by (apply lookup_total_insert_eq; rewrite (sh_keylenx _ Hsh1); lia).
  assert (Hikq : forall q, 0 <= q -> q <> p -> slot_ikey l' q = slot_ikey l q) by (intros q ? ?; apply lookup_total_insert_other; lia).
  assert (Hklq : forall q, 0 <= q -> q <> p -> slot_keylenx l' q = slot_keylenx l q) by (intros q ? ?; apply lookup_total_insert_other; lia).
  assert (Hcp : slot_content l' p = Some c).
  { unfold slot_content. rewrite Hklp. cbn [lv_ l' set_slots]. rewrite list_lookup_insert_eq by (rewrite (sh_lv _ Hsh1); lia).
    unfold keylenx_is_layer, keylenx_has_ksuf, layer_keylenx in *. destruct v as [r|n]; destruct Hc as [Hl ->].
    - destruct (Z.ltb_spec 63 kl); [lia|]. change (8 + 1) with 9. done.
    - rewrite Hl. done. }
  split; try done.
  - split; [simpl; rewrite length_insert; apply Hsh..|done].
  - split; [done|by rewrite Hikp|by rewrite Hklp|rewrite Hklp; exact Hsuf|by rewrite Hcp].
  - unfold slot_key. by rewrite Hikp, Hklp.
  - intros q Hq Hne. unfold slot_key. by rewrite Hikq, Hklq.
  - intros q Hq Hne [Hr Hi Hl Hs Hcq]. apply and_wlog_l; [intros Hsame|].
    + split; [done|by rewrite Hikq by lia|by rewrite Hklq by lia| |by rewrite Hsame]. rewrite Hklq by lia. intros H9. destruct (Hoth q Hq Hne H9) as [Hst Hpr].
      destruct (Hs H9) as [Hls _]. change (leaf_bag l') with (leaf_bag l1). rewrite Hst. split; [done|exact Hpr].
    + unfold slot_content. rewrite Hklq by lia. cbn [lv_ l' set_slots l1 set_bags]. rewrite list_lookup_insert_ne by lia.
      destruct (lv_ l !! Z.to_nat q) as [[r|n]|]; try done. destruct (keylenx_is_layer _); [done|]. do 2 f_equal.
      unfold keylenx_has_ksuf. destruct (Z.eqb_spec (slot_keylenx l q) (8 + 1)) as [H9|]; [|done]. by apply Hoth.
Qed.
(** [assign] and [assign_initialize] of a key. *)
Lemma leaf_assign_key_ok slack l p ka str initializing : let S := live_slots l p initializing in
  0 <= slack -> shape_ok l -> key_repr slack ka str -> 0 <= p < 15 -> Z.of_nat (length str) <= max_suffix -> slots_ok l p S -> NoDup S -> (length S <= 15)%nat ->
  exists l', leaf_assign_key l p ka initializing = Ok l' /\ filled S l l' p (akey_of str) (CVal (drop 8 str) 0).
Proof.
  intros S Hsl Hsh Hk Hp Hlen HS Hnd HlS. pose proof (kr_ok _ _ _ Hk) as Hbytes. pose proof (slice_range str Hbytes) as Hik.
  assert (Hikl : ikeylen ka = Z.min (Z.of_nat (length str)) 9) by (unfold ikeylen, ikey_size; by rewrite (kr_len _ _ _ Hk)).
  unfold leaf_assign_key. rewrite (kr_ikey _ _ _ Hk), Hikl. replace (akey_of str) with (slice_of str, norm_len (Z.min (Z.of_nat (length str)) 9)) by (unfold akey_of, norm_len; f_equal; lia).
  destruct (decide (8 < length str)%nat) as [Hlong|Hshort].
  - destruct (key_repr_suffix slack ka str Hsl Hk Hlong) as (-> & -> & Hsuf). pose proof (kr_room _ _ _ Hk). pose proof (kr_len _ _ _ Hk). pose proof (kr_start _ _ _ Hk).
    destruct (assign_ksuf_ok l p Hsh (k_mem ka) (k_s ka + 8) (klen ka - 8) Hp ltac:(lia) (kr_bytes _ _ _ Hk) ltac:(lia) ltac:(lia) initializing HS Hnd HlS) as (l1 & -> & Ha).
    cbn [mbind outcome_bind]. apply set_slot_filled; try done; try lia.
    + apply Ha.
    + apply Ha.
    + intros q Hq Hne H9. split; [by apply Ha|apply Ha].
    + intros _. rewrite (as_string _ _ _ _ _ _ _ Ha), Hsuf. split; [rewrite length_drop; lia|apply Ha].
    + split; [lia|]. rewrite Z.min_r by lia. simpl. by rewrite (as_string _ _ _ _ _ _ _ Ha), Hsuf.
  - assert (has_suffix ka = false) as -> by (apply Z.ltb_ge; unfold ikey_size; rewrite (kr_len _ _ _ Hk); lia). cbn [mbind outcome_bind].
    apply set_slot_filled; try done; try lia.
    + by exists (extrasize64_ l), (ksuf_ l), (iksuf_ l); destruct l.
    + apply Hsh.
    + intros q Hq Hne H9. split; [done|]. apply HS in Hq as [_ Hq]. apply (so_suffix _ _ (Hq Hne) H9).
    + split; [lia|]. rewrite Z.min_l by lia. destruct (Z.eqb_spec (Z.of_nat (length str)) 9); [lia|]. by rewrite drop_ge by lia.
Qed.
(** Copying a slot of another leaf. *)
Lemma assign_slot_ok l p x xp c : let S := live_slots l p true in
  shape_ok l -> shape_ok x -> slot_ok x xp -> slot_content x xp = Some c -> 0 <= p < 15 -> slots_ok l p S -> NoDup S -> (length S <= 15)%nat ->
  exists l', assign_initialize_slot l p x xp = Ok l' /\ filled S l l' p (slot_key x xp) c.
Proof.
  intros S Hsh Hx Hxp Hc Hp HS Hnd HlS. pose proof (so_range _ _ Hxp) as Hr. pose proof (so_len _ _ Hxp) as Hxl. unfold assign_initialize_slot.
  destruct (lookup_lt_is_Some_2 (lv_ x) (Z.to_nat xp)) as [v Hv]; [rewrite (sh_lv _ Hx); lia|].
  assert (array_get (lv_ x) xp = Ok v) as -> by (unfold array_get; rewrite decide_True by lia; by rewrite Hv). cbn [mbind outcome_bind].
  rewrite (keylenx_get x Hx) by done. cbn [mbind outcome_bind].
  assert (array_get (l_ikey0_ x) xp = Ok (slot_ikey x xp)) as ->.
  { unfold array_get, slot_ikey. rewrite decide_True by lia. destruct (lookup_lt_is_Some_2 (l_ikey0_ x) (Z.to_nat xp)) as [y Hy]; [rewrite (sh_ikey0 _ Hx); lia|].
    rewrite Hy. f_equal. symmetry. by apply list_lookup_total_correct. }
  cbn [mbind outcome_bind]. unfold slot_content in Hc. rewrite Hv in Hc. unfold slot_key. unfold keylenx_is_layer, layer_keylenx in *.
  destruct (keylenx_has_ksuf (slot_keylenx x xp)) eqn:H9.
  - pose proof H9 as Hk9. apply Z.eqb_eq in Hk9. destruct (leaf_ksuf_ok x xp Hx Hxp Hk9) as (pos & len & -> & Hb & Hpos & Hin & Hstr & Hlen & Hlr). cbn [mbind outcome_bind].
    destruct (assign_ksuf_ok l p Hsh _ pos len Hp Hlr Hb Hpos Hin true HS Hnd HlS) as (l1 & -> & Ha). cbn [mbind outcome_bind].
    pose proof (as_string _ _ _ _ _ _ _ Ha) as Hs1. rewrite Hstr in Hs1.
    apply set_slot_filled; try done; try (apply Ha); try (apply Hxp).
    + intros q Hq Hne Hq9. split; [by apply Ha|apply Ha].
    + intros _. rewrite Hs1, <- Hlen. split; [done|apply Ha].
    + rewrite Hk9 in *. destruct v as [r|n]; simpl in Hc; [|done]. injection Hc as <-. split; [lia|]. simpl. by rewrite Hs1.
  - apply Z.eqb_neq in H9. apply set_slot_filled; try done; try (apply Hxp).
    + by exists (extrasize64_ l), (ksuf_ l), (iksuf_ l); destruct l.
    + apply Hsh.
    + intros q Hq Hne Hq9. split; [done|]. apply HS in Hq as [_ Hq]. apply (so_suffix _ _ (Hq Hne) Hq9).
    + destruct v as [r|n]; destruct (Z.ltb_spec 63 (slot_keylenx x xp)); try done; injection Hc as <-; (split; [unfold layer_keylenx; lia|]); [|done].
      destruct (Z.eqb_spec (slot_keylenx x xp) 9); [lia|done].
Qed.
