(* ===== verification/MassSplit.v ===== *)
(** * Inserting into and splitting a Masstree leaf

    The leaf operations of an insertion on the view of [MassLeaf]: a slot that has been
    prepared enters the permutation at its place, and a full leaf is split, with the new
    key, between two keys of different slices. *)

From S2P Require Import Prelude Permuter KSearch NodeVersion MassKey MassBag MassNode MassTree MassLeaf.

(** ** Sorted lists of keys *)
Definition sorted_keys (ks : list akey) : Prop := forall i j a b, ks !! i = Some a -> ks !! j = Some b -> (i < j)%nat -> akey_lt a b.
Lemma sorted_slots_keys l ps : sorted_slots l ps <-> sorted_keys (slot_key l <$> ps).
Proof.
  split.
  - intros H i j a b Ha Hb Hij. rewrite list_lookup_fmap in Ha, Hb. apply fmap_Some in Ha as (p & Hp & ->). apply fmap_Some in Hb as (q & Hq & ->). by eapply H.
  - intros H i j p q Hp Hq Hij. apply (H i j); [by rewrite list_lookup_fmap, Hp|by rewrite list_lookup_fmap, Hq|done].
Qed.
Lemma sorted_keys_insert A B k : sorted_keys (A ++ B) -> (forall a, a ∈ A -> akey_lt a k) -> (forall b, b ∈ B -> akey_lt k b) -> sorted_keys (A ++ k :: B).
Proof.
  intros Hs Hlo Hhi i j a b Ha Hb Hij. apply lookup_app_Some in Ha as [Ha|[Hil Ha]]; apply lookup_app_Some in Hb as [Hb|[Hjl Hb]].
  - apply (Hs i j); [by apply lookup_app_l_Some|by apply lookup_app_l_Some|done].
  - destruct (j - length A)%nat as [|j'] eqn:Hj'; simpl in Hb.
    + injection Hb as <-. apply Hlo. by eapply list_elem_of_lookup_2.
    + apply (Hs i (length A + j')%nat); [by apply lookup_app_l_Some| |apply lookup_lt_Some in Ha; lia].
      rewrite lookup_app_r by lia. by replace (length A + j' - length A)%nat with j' by lia.
  - apply lookup_lt_Some in Hb. lia.
  - destruct (i - length A)%nat as [|i'] eqn:Hi', (j - length A)%nat as [|j'] eqn:Hj'; simpl in Ha, Hb; try lia.
    + injection Ha as <-. apply Hhi. by eapply list_elem_of_lookup_2.
    + apply (Hs (length A + i')%nat (length A + j')%nat); [..|lia]; rewrite lookup_app_r by lia;
        [by replace (length A + i' - length A)%nat with i' by lia|by replace (length A + j' - length A)%nat with j' by lia].
Qed.
(** Keys with the same slice differ in their lengths: there are at most ten of them. *)
Lemma run_length ks : sorted_keys ks -> forall d i a b, ks !! i = Some a -> ks !! (i + d)%nat = Some b -> a.1 = b.1 -> a.2 + Z.of_nat d <= b.2.
Proof.
  intros Hs. induction d as [|d IH]; intros i a b Ha Hb He; [rewrite Nat.add_0_r, Ha in Hb; injection Hb as <-; lia|].
  destruct (lookup_lt_is_Some_2 ks (i + d)%nat) as [c Hc]; [apply lookup_lt_Some in Hb; lia|].
  pose proof (Hs _ _ _ _ Hc Hb ltac:(lia)) as Hcb. assert (Hac : a = c \/ akey_lt a c).
  { destruct d; [left; rewrite Nat.add_0_r in Hc; congruence|right; apply (Hs _ _ _ _ Ha Hc); lia]. }
  assert (a.1 = c.1) by (destruct Hac as [->|Hac]; [done|unfold akey_lt in *; lia]). specialize (IH i a c Ha Hc ltac:(done)). unfold akey_lt in Hcb. lia.
Qed.

(** ** What a leaf maps keys to *)
Definition holds (l : leaf) (k : akey) (c : content) : Prop := exists p, p ∈ live l /\ slot_key l p = k /\ slot_content l p = Some c.
Lemma sorted_key_inj l p q : leaf_ok l -> p ∈ live l -> q ∈ live l -> slot_key l p = slot_key l q -> p = q.
Proof.
  intros Hl [i Hi]%list_elem_of_lookup [j Hj]%list_elem_of_lookup He. destruct (Nat.lt_trichotomy i j) as [Hlt|[->|Hgt]]; [|congruence|];
    exfalso; [pose proof (lo_sorted _ Hl _ _ _ _ Hi Hj Hlt) as H|pose proof (lo_sorted _ Hl _ _ _ _ Hj Hi Hgt) as H]; rewrite He in H; by apply akey_lt_irrefl in H.
Qed.
Lemma holds_fun l k c c' : leaf_ok l -> holds l k c -> holds l k c' -> c = c'.
Proof. intros Hl (p & Hp & Hk & Hc) (q & Hq & Hk' & Hc'). assert (p = q) as -> by (eapply sorted_key_inj; try done; congruence). congruence. Qed.
(** When the search finds no slot, the key is not there. *)
Lemma search_absent l k A B : leaf_ok l -> search_split l k A B -> found_slot l k B = -1 -> forall p, p ∈ live l -> slot_key l p <> k.
Proof.
  intros Hl [Hlive Hlo Hhi] Hf p Hp He. rewrite Hlive in Hp. apply elem_of_app in Hp as [Hp|Hp].
  - apply Hlo in Hp. rewrite He in Hp. by apply akey_lt_irrefl in Hp.
  - destruct B as [|q B]; [by apply elem_of_nil in Hp|]. simpl in Hf. assert (Hq : q ∈ live l) by (rewrite Hlive; set_solver).
    case_decide as Hd.
    + pose proof (so_range _ _ (lo_slots _ Hl _ Hq)). lia.
    + apply elem_of_cons in Hp as [->|Hp]; [done|]. destruct (Hhi q ltac:(by left)) as [?|Hlt]; [done|].
      apply list_elem_of_lookup in Hp as [i Hi]. pose proof (lo_sorted _ Hl (length A) (length A + S i)%nat q p) as Hs.
      rewrite Hlive, lookup_app_r, Nat.sub_diag in Hs by lia. rewrite lookup_app_r in Hs by lia. replace (length A + S i - length A)%nat with (S i) in Hs by lia.
      specialize (Hs eq_refl Hi ltac:(lia)). rewrite He in Hs. eapply akey_lt_irrefl, akey_lt_trans; [exact Hlt|exact Hs].
Qed.
Lemma search_found l k A B p : leaf_ok l -> search_split l k A B -> found_slot l k B = p -> 0 <= p -> p ∈ live l /\ slot_key l p = k.
Proof.
  intros Hl [Hlive _ _] Hf Hp. destruct B as [|q B]; simpl in Hf; [lia|]. case_decide; [|lia]. subst. split; [|done]. rewrite Hlive. set_solver.
Qed.

(** ** A prepared slot enters the permutation *)
Record ready (l : leaf) (ki kp : Z) (k : akey) (suffix : list Z) (A B : list Z) : Prop := {
  rd_leaf : leaf_ok l;
  rd_size : leaf_size l < 15;
  rd_back : kp = back node_width (permutation_ l);
  rd_slot : slot_ok l kp;
  rd_key : slot_key l kp = k;
  rd_content : exists r, slot_content l kp = Some (CVal suffix r);
  rd_split : search_split l k A B;
  rd_ki : ki = Z.of_nat (length A);
  rd_absent p : p ∈ live l -> slot_key l p <> k }.
Definition with_value (l : leaf) (p : Z) (v : leafvalue) : leaf := set_slots (keylenx_ l) (l_ikey0_ l) (<[Z.to_nat p := v]> (lv_ l)) l.
Lemma with_value_ok l p v : shape_ok l -> shape_ok (with_value l p v).
Proof. intros []. split; try done. simpl. by rewrite length_insert. Qed.
Lemma with_value_slot l p v q : slot_ok l q -> is_Some (slot_content (with_value l p v) q) -> slot_ok (with_value l p v) q.
Proof. by intros []. Qed.
Lemma set_perm_ok l x : shape_ok l -> shape_ok (set_permutation x l).
Proof. by intros []. Qed.
Lemma set_perm_slot l x q : slot_ok l q -> slot_ok (set_permutation x l) q.
Proof. by intros []. Qed.
Lemma with_value_content l p v q : 0 <= p -> 0 <= q -> q <> p -> slot_content (with_value l p v) q = slot_content l q.
Proof. intros. unfold slot_content. simpl. rewrite list_lookup_insert_ne by lia. done. Qed.
Lemma with_value_content_eq l p suffix r r' : shape_ok l -> 0 <= p < 15 -> slot_content l p = Some (CVal suffix r) -> slot_content (with_value l p (LvValue r')) p = Some (CVal suffix r').
Proof.
  intros Hs Hp. unfold slot_content. simpl. rewrite list_lookup_insert_eq by (rewrite (sh_lv _ Hs); lia). fold (slot_keylenx l p).
  change (slot_keylenx (with_value l p (LvValue r')) p) with (slot_keylenx l p). change (leaf_bag (with_value l p (LvValue r'))) with (leaf_bag l).
  destruct (lv_ l !! Z.to_nat p) as [[x|x]|]; destruct (keylenx_is_layer (slot_keylenx l p)); try done. by intros [= -> ->].
Qed.
Lemma move_down_last {A} (l : list A) i n b : l !! (n - 1)%nat = Some b -> length l = n -> (i < n)%nat -> move_down i (n - 1) l = take i l ++ b :: drop i (take (n - 1) l).
Proof.
  intros Hb Hl Hi. unfold move_down. f_equal. rewrite (drop_S _ _ _ Hb). cbn [take app]. f_equal. rewrite (drop_ge l) by lia. by rewrite app_nil_r.
Qed.
Lemma insert_back_live l ki A B : permuter_ok node_width (permutation_ l) -> leaf_size l < 15 -> live l = A ++ B -> ki = Z.of_nat (length A) ->
  let x := (insert_from_back node_width ki (permutation_ l)).1 in
  permuter_ok node_width x /\ psize x = leaf_size l + 1 /\ live (set_permutation x l) = A ++ back node_width (permutation_ l) :: B.
Proof.
  intros Hp Hsz Hlive -> x. pose proof (size_range l Hp) as Hr. pose proof (live_length l Hp) as Hll. rewrite Hlive, length_app in Hll.
  set (y := permutation_ l) in *. assert (Hpre : op_pre node_width (InsertFromBack (Z.of_nat (length A))) (psize y) = true).
  { unfold op_pre, node_width. fold (leaf_size l). change (psize y) with (leaf_size l). rewrite !andb_true_iff, Z.leb_le, !Z.ltb_lt. lia. }
  destruct (apply_op_refines node_width ltac:(unfold node_width; lia) _ y Hp Hpre) as [Hok Hd]. cbn [apply_op spec_op] in Hok, Hd. fold x in Hok, Hd.
  change (psize y) with (leaf_size l) in Hd. injection Hd as Hs He. split; [done|]. split; [done|].
  unfold live, leaf_size. cbn [permutation_ set_permutation]. rewrite Hs, He.
  assert (Hlen : length (elements node_width y) = 15%nat) by (rewrite elements_length by (unfold node_width; lia); done).
  assert (Hb : elements node_width y !! (15 - 1)%nat = Some (back node_width y)).
  { rewrite elements_lookup by (unfold node_width; lia). unfold back. rewrite element_nib by (unfold node_width; lia). done. }
  change (Z.to_nat (node_width - 1)) with (15 - 1)%nat. rewrite Nat2Z.id, (move_down_last _ (length A) 15 _ Hb Hlen) by lia.
  unfold live in Hlive. change (permutation_ l) with y in Hlive. rewrite take_app, length_take, Hlen. rewrite (take_ge (take (length A) _)) by (rewrite length_take; lia).
  replace (Z.to_nat (leaf_size l + 1) - length A `min` 15)%nat with (S (Z.to_nat (leaf_size l) - length A)) by lia. rewrite firstn_cons.
  assert (HA : take (length A) (elements node_width y) = A).
  { replace (length A) with (length A `min` Z.to_nat (leaf_size l))%nat at 1 by lia. rewrite <- take_take, Hlive. apply take_app_length. }
  f_equal; [exact HA|]. f_equal. rewrite take_drop_commute, take_take.
  replace ((length A + (Z.to_nat (leaf_size l) - length A)) `min` (15 - 1))%nat with (Z.to_nat (leaf_size l)) by lia. rewrite Hlive. apply drop_app_length.
Qed.
Lemma ready_insert l ki kp k suffix A B r : ready l ki kp k suffix A B ->
  let l' := set_permutation (insert_from_back node_width ki (permutation_ l)).1 (with_value l kp (LvValue r)) in
  leaf_ok l' /\ live l' = A ++ kp :: B /\ (forall p, slot_key l' p = slot_key l p)
  /\ slot_content l' kp = Some (CVal suffix r) /\ (forall p, p ∈ live l -> slot_content l' p = slot_content l p).
Proof.
  intros [Hl Hsz -> Hok Hkey [r0 Hc] [Hlive Hlo Hhi] -> Habs] l'. set (kp := back node_width (permutation_ l)) in *.
  destruct (insert_back_live l _ A B (lo_perm _ Hl) Hsz Hlive eq_refl) as (Hp' & Hs' & Hlive').
  assert (Hll : live l' = A ++ kp :: B) by exact Hlive'. assert (Hsk : forall p, slot_key l' p = slot_key l p) by done.
  assert (Hne : forall p, p ∈ live l -> p <> kp).
  { intros p Hpl ->. unfold kp in Hpl. revert Hpl. apply back_is_free; [unfold node_width; lia|apply Hl|unfold leaf_size, node_width in *; lia]. }
  assert (Hckp : slot_content (with_value l kp (LvValue r)) kp = Some (CVal suffix r)) by (by apply (with_value_content_eq l kp suffix r0); [apply Hl|apply Hok|]).
  assert (Hcp : forall p, p ∈ live l -> slot_content (with_value l kp (LvValue r)) p = slot_content l p).
  { intros p Hpl. apply with_value_content; [apply Hok|by apply live_range in Hpl; [lia|apply Hl]|by apply Hne]. }
  split_and!; try done. split.
  - by apply set_perm_ok, with_value_ok, Hl.
  - exact Hp'.
  - intros p Hpl. rewrite Hll in Hpl. apply set_perm_slot. assert (p = kp \/ p ∈ live l) as [->|Hin] by (rewrite Hlive; set_solver).
    + apply with_value_slot; [done|by rewrite Hckp].
    + apply with_value_slot; [by apply (lo_slots _ Hl)|]. rewrite Hcp by done. by apply (lo_slots _ Hl).
  - rewrite Hll. apply sorted_slots_keys. change (slot_key l' <$> A ++ kp :: B) with (slot_key l <$> A ++ kp :: B). rewrite fmap_app, fmap_cons, Hkey. apply sorted_keys_insert.
    + rewrite <- fmap_app, <- Hlive. apply sorted_slots_keys, Hl.
    + intros a (q & -> & Hq)%list_elem_of_fmap. by apply Hlo.
    + intros b (q & -> & Hq)%list_elem_of_fmap. destruct (Hhi q Hq) as [He|?]; [|done]. destruct (Habs q); [rewrite Hlive; set_solver|done].
Qed.

(** ** Permutations after a split *)
Lemma right_perm_all n : 1 <= n <= 15 -> let x := make_sorted node_width n in
  permuter_ok node_width x /\ psize x = n /\ take (Z.to_nat n) (elements node_width x) = seqZ 0 n.
Proof.
  intros Hn x. split; [apply make_sorted_ok; unfold node_width; lia|]. destruct (make_sorted_decodes node_width ltac:(unfold node_width; lia) n ltac:(unfold node_width; lia)) as (_ & Hs & He).
  split; [done|]. unfold x. rewrite He. apply take_app_length'. rewrite length_seqZ. lia.
Qed.
Lemma right_perm_less n i : 0 <= i < n -> n <= 15 -> let x := remove_to_back node_width i (make_sorted node_width n) in
  permuter_ok node_width x /\ psize x = n - 1 /\ take (Z.to_nat (n - 1)) (elements node_width x) = seqZ 0 i ++ seqZ (i + 1) (n - 1 - i) /\ back node_width x = i.
Proof.
  intros Hi Hn x. split.
  - apply (apply_op_refines node_width ltac:(unfold node_width; lia) (RemoveToBack i)); [apply make_sorted_ok; unfold node_width; lia|].
    destruct (make_sorted_decodes node_width ltac:(unfold node_width; lia) n ltac:(unfold node_width; lia)) as (_ & Hs & _). unfold op_pre. rewrite Hs, andb_true_iff, Z.leb_le, Z.ltb_lt. lia.
  - set (P n i := let x := remove_to_back node_width i (make_sorted node_width n) in
      bool_decide (psize x = n - 1 /\ take (Z.to_nat (n - 1)) (elements node_width x) = seqZ 0 i ++ seqZ (i + 1) (n - 1 - i) /\ back node_width x = i)).
    assert (Hall : forallb (fun n => forallb (P n) (seqZ 0 n)) (seqZ 1 15) = true) by (vm_compute; reflexivity).
    assert (Hin : forall v a m, a <= v < a + m -> In v (seqZ a m)) by (intros; apply list_elem_of_In, elem_of_seqZ; lia).
    rewrite forallb_forall in Hall. specialize (Hall n (Hin n 1 15 ltac:(lia))). rewrite forallb_forall in Hall. specialize (Hall i (Hin i 0 n ltac:(lia))).
    by apply bool_decide_eq_true in Hall.
Qed.
(** Truncating the permutation keeps the first slots. *)
Lemma truncate_ok l n : leaf_ok l -> 0 <= n <= leaf_size l -> let l1 := set_permutation (set_size node_width n (permutation_ l)) l in
  leaf_ok l1 /\ leaf_size l1 = n /\ live l1 = take (Z.to_nat n) (live l).
Proof.
  intros Hl Hn l1. pose proof (size_range l (lo_perm _ Hl)) as Hr.
  assert (Hpre : op_pre node_width (SetSize n) (psize (permutation_ l)) = true) by (unfold op_pre, node_width; rewrite andb_true_iff, !Z.leb_le; lia).
  destruct (apply_op_refines node_width ltac:(unfold node_width; lia) (SetSize n) _ (lo_perm _ Hl) Hpre) as [Hok Hd]. cbn [apply_op spec_op] in Hok, Hd. apply pair_equal_spec in Hd as [Hs He].
  assert (Hlive : live l1 = take (Z.to_nat n) (live l)).
  { unfold live, leaf_size. cbn [permutation_ l1 set_permutation]. rewrite Hs, He, take_take. f_equal. unfold leaf_size in *. lia. }
  split; [|done]. split; [by apply set_perm_ok, Hl|done| |].
  - intros p Hp. apply set_perm_slot, (lo_slots _ Hl). rewrite Hlive in Hp. by apply elem_of_take in Hp as (i & Hi%list_elem_of_lookup_2 & _).
  - intros i j p q Hi Hj Hij. rewrite Hlive in Hi, Hj. apply lookup_take_Some in Hi as [Hi _]. apply lookup_take_Some in Hj as [Hj _]. by apply (lo_sorted _ Hl i j).
Qed.

(** ** Preparing a slot *)
(** [assign] at the last position of the permutation of a leaf that does not hold the key. *)
Lemma assign_ready slack l1 ka str A B : 0 <= slack -> leaf_ok l1 -> leaf_size l1 < 15 -> key_repr slack ka str -> Z.of_nat (length str) <= max_suffix ->
  search_split l1 (akey_of str) A B -> (forall p, p ∈ live l1 -> slot_key l1 p <> akey_of str) ->
  exists l2, assign l1 (back node_width (permutation_ l1)) ka = Ok l2 /\ same_frame l1 l2 /\ (forall p, p ∈ live l1 -> slot_key l2 p = slot_key l1 p /\ slot_content l2 p = slot_content l1 p)
    /\ live l2 = live l1 /\ ready l2 (Z.of_nat (length A)) (back node_width (permutation_ l1)) (akey_of str) (drop 8 str) A B.
Proof.
  intros Hsl Hl1 Hsz Hk Hmax Hss Habs. pose proof (size_range l1 (lo_perm _ Hl1)) as Hr. set (kp := back node_width (permutation_ l1)).
  assert (Hkp : kp ∉ live l1) by (apply back_is_free; [unfold node_width; lia|apply Hl1|unfold leaf_size, node_width in *; lia]).
  assert (Hkr : 0 <= kp < 15). { unfold kp, back. rewrite element_nib by (unfold node_width; lia). pose proof (lo_perm _ Hl1) as (_ & _ & Hperm).
    assert (Hin : nib (permutation_ l1) (node_width - 1 + 1) ∈ elements node_width (permutation_ l1)) by (eapply (list_elem_of_lookup_2 _ 14); rewrite elements_lookup by (unfold node_width; lia); done).
    rewrite Hperm in Hin. apply elem_of_seqZ in Hin. unfold node_width in *. lia. }
  destruct (leaf_assign_key_ok slack l1 kp ka str false) as (l2 & Hrun & Hfi); try done; [apply Hl1| |by apply live_nodup, Hl1|change (length (live l1) <= 15)%nat; rewrite live_length by apply Hl1; lia|].
  { intros q Hq. split; [eapply live_range; [apply Hl1|done]|]. intros _. by apply (lo_slots _ Hl1). }
  change (live_slots l1 kp false) with (live l1) in Hfi. destruct Hfi as [Ff Fs Fo Fk Fc Fq Fsl]. pose proof Ff as (_ & _ & Hperm & _).
  assert (Hlive2 : live l2 = live l1) by (unfold live, leaf_size; by rewrite Hperm).
  assert (Hkeep : forall p, p ∈ live l1 -> slot_key l2 p = slot_key l1 p /\ slot_content l2 p = slot_content l1 p).
  { intros p Hp. assert (p <> kp) by (intros ->; done). split; [apply Fq; [by apply live_range in Hp; [lia|apply Hl1]|done]|]. apply Fsl; [done..|]. by apply (lo_slots _ Hl1). }
  exists l2. split; [exact Hrun|]. split; [done|]. split; [done|]. split; [done|]. split; try done.
  - split; [done|by rewrite Hperm; apply Hl1| |].
    + intros p Hp. rewrite Hlive2 in Hp. apply Fsl; [done|intros ->; done|by apply (lo_slots _ Hl1)].
    + rewrite Hlive2. intros i j p q Hi Hj Hij. rewrite (proj1 (Hkeep p ltac:(by eapply list_elem_of_lookup_2))), (proj1 (Hkeep q ltac:(by eapply list_elem_of_lookup_2))).
      by apply (lo_sorted _ Hl1 i j p q).
  - unfold leaf_size. by rewrite Hperm.
  - unfold kp. by rewrite Hperm.
  - by exists 0.
  - pose proof (ss_live _ _ _ _ Hss) as HAB. split; [by rewrite Hlive2| |]; intros p Hp; rewrite (proj1 (Hkeep p ltac:(rewrite HAB; set_solver))); by apply Hss.
  - intros p Hp. rewrite Hlive2 in Hp. rewrite (proj1 (Hkeep p Hp)). by apply Habs.
Qed.

(** ** Splitting a full leaf *)
Section LeafSplit.
Context (l : leaf) (slack : Z) (ka : key) (str : list Z) (A B : list Z).
Context (Hsl : 0 <= slack) (Hl : leaf_ok l) (Hk : key_repr slack ka str) (Hss : search_split l (akey_of str) A B) (Habs : forall p, p ∈ live l -> slot_key l p <> akey_of str).
Context (Hfull : leaf_size l = 15) (Hlen : Z.of_nat (length str) <= max_suffix).
(** The sixteen entries: the slots in order, and the new one. *)
Definition entries : list (option Z) := (Some <$> A) ++ None :: (Some <$> B).
Definition ekey (e : option Z) : akey := match e with Some q => slot_key l q | None => akey_of str end.
Definition econtent (e : option Z) : option content := match e with Some q => slot_content l q | None => Some (CVal (drop 8 str) 0) end.
#[local] Abbreviation pos := (Z.of_nat (length A)).
Lemma entries_length : length entries = 16%nat /\ 0 <= pos <= 15.
Proof.
  pose proof (live_length l (lo_perm _ Hl)) as H. rewrite (ss_live _ _ _ _ Hss), length_app, Hfull in H. unfold entries. rewrite length_app, !length_fmap. simpl. rewrite length_fmap. lia.
Qed.
Lemma entries_sorted : sorted_keys (ekey <$> entries).
Proof.
  unfold entries. rewrite fmap_app, fmap_cons, <- !list_fmap_compose. change (ekey None) with (akey_of str). apply sorted_keys_insert.
  - change (ekey ∘ Some <$> A) with (slot_key l <$> A). change (ekey ∘ Some <$> B) with (slot_key l <$> B). rewrite <- fmap_app, <- (ss_live _ _ _ _ Hss). apply sorted_slots_keys, Hl.
  - intros a (q & -> & Hq)%list_elem_of_fmap. by apply (ss_low _ _ _ _ Hss).
  - intros b (q & -> & Hq)%list_elem_of_fmap. destruct (ss_high _ _ _ _ Hss q Hq) as [He|?]; [|done]. destruct (Habs q); [rewrite (ss_live _ _ _ _ Hss); set_solver|done].
Qed.
Lemma entry_range i e : entries !! i = Some e -> 0 <= (ekey e).1 < 2 ^ 64 /\ 0 <= (ekey e).2 <= 9.
Proof.
  intros He. assert (Hin : e ∈ entries) by (by eapply list_elem_of_lookup_2). unfold entries in Hin. destruct e as [q|]; simpl.
  - assert (Hq : q ∈ live l) by (rewrite (ss_live _ _ _ _ Hss); set_solver). destruct (lo_slots _ Hl q Hq) as [_ ? Hl9 _]. unfold norm_len, layer_keylenx in *. lia.
  - pose proof (slice_range str (kr_ok _ _ _ Hk)). lia.
Qed.
(** The entry at a position, in terms of the slots. *)
Lemma entry_at i e : entries !! i = Some e -> e = (if decide (i < length A)%nat then live l !! i else if decide (i = length A) then None else live l !! (i - 1)%nat).
Proof.
  unfold entries. rewrite (ss_live _ _ _ _ Hss). intros [Hi|[Hge Hi]]%lookup_app_Some; rewrite ?length_fmap in *.
  - rewrite list_lookup_fmap in Hi. apply fmap_Some in Hi as (q & Hq & ->). rewrite decide_True by (by eapply lookup_lt_Some). by rewrite (lookup_app_l_Some _ _ _ _ Hq).
  - rewrite decide_False by lia. destruct (i - length A)%nat as [|j] eqn:Hj; simpl in Hi; [injection Hi as <-; by rewrite decide_True by lia|].
    rewrite decide_False by lia. rewrite list_lookup_fmap in Hi. apply fmap_Some in Hi as (q & Hq & ->). rewrite lookup_app_r by lia. by replace (i - 1 - length A)%nat with j by lia.
Qed.
Lemma ikey_get q : 0 <= q < 15 -> array_get (l_ikey0_ l) q = Ok (slot_ikey l q).
Proof.
  intros Hq. unfold array_get, slot_ikey. rewrite decide_True by lia. destruct (lookup_lt_is_Some_2 (l_ikey0_ l) (Z.to_nat q)) as [y Hy]; [rewrite (sh_ikey0 _ (lo_shape _ Hl)); lia|].
  rewrite Hy. f_equal. symmetry. by apply list_lookup_total_correct.
Qed.
Lemma ikey_after_insert_ok i e : entries !! Z.to_nat i = Some e -> 0 <= i -> ikey_after_insert l (permutation_ l) i ka pos = Ok (ekey e).1.
Proof.
  intros He Hi. pose proof (entry_at _ _ He) as Hat. pose proof entries_length as [Hel ?]. pose proof (lookup_lt_Some _ _ _ He) as Hlt. unfold ikey_after_insert.
  assert (Hget : forall j, 0 <= j < 15 -> array_get (l_ikey0_ l) (element (permutation_ l) j) = Ok (ekey (live l !! Z.to_nat j)).1).
  { intros j Hj. pose proof (element_live l j (lo_perm _ Hl) ltac:(lia)) as Hej. rewrite Hej, ikey_get; [done|]. apply (live_range l); [apply Hl|by eapply list_elem_of_lookup_2]. }
  destruct (Z.ltb_spec i pos); [rewrite decide_True in Hat by lia; rewrite Hat; apply Hget; lia|]. rewrite decide_False in Hat by lia.
  destruct (Z.eqb_spec i pos) as [->|]; [rewrite decide_True in Hat by lia; rewrite Hat; simpl; by rewrite (kr_ikey _ _ _ Hk)|].
  rewrite decide_False in Hat by lia. rewrite Hat, Hget by lia. repeat f_equal. lia.
Qed.
Lemma entry_exists i : 0 <= i <= 15 -> exists e, entries !! Z.to_nat i = Some e.
Proof. intros Hi. apply lookup_lt_is_Some_2. pose proof entries_length as [-> _]. lia. Qed.
Definition eik (i : Z) : Z := match entries !! Z.to_nat i with Some e => (ekey e).1 | None => 0 end.
Lemma eik_get i : 0 <= i <= 15 -> ikey_after_insert l (permutation_ l) i ka pos = Ok (eik i).
Proof. intros Hi. destruct (entry_exists i Hi) as [e He]. unfold eik. rewrite He. apply ikey_after_insert_ok; [done|lia]. Qed.
Lemma eik_mono i j : 0 <= i <= j -> j <= 15 -> eik i <= eik j.
Proof.
  intros Hi Hj. destruct (entry_exists i ltac:(lia)) as [e He], (entry_exists j ltac:(lia)) as [f Hf]. unfold eik. rewrite He, Hf.
  destruct (Z.eq_dec i j) as [->|]; [rewrite He in Hf; injection Hf as <-; lia|].
  pose proof (entries_sorted (Z.to_nat i) (Z.to_nat j) (ekey e) (ekey f)) as H. rewrite !list_lookup_fmap, He, Hf in H. specialize (H eq_refl eq_refl ltac:(lia)). unfold akey_lt in H. lia.
Qed.
Lemma eik_not_all : eik 0 <> eik 15.
Proof.
  intros H. destruct (entry_exists 0 ltac:(lia)) as [e He], (entry_exists 15 ltac:(lia)) as [f Hf]. unfold eik in H. rewrite He, Hf in H.
  pose proof (run_length _ entries_sorted 15 0 (ekey e) (ekey f)) as Hr. rewrite !list_lookup_fmap in Hr. change (0 + 15)%nat with (Z.to_nat 15) in Hr. change 0%nat with (Z.to_nat 0) in Hr.
  rewrite He, Hf in Hr. specialize (Hr eq_refl eq_refl H). destruct (entry_range _ _ He), (entry_range _ _ Hf). lia.
Qed.
Lemma mid_loop_ok fuel : forall midl midr y, (forall i, midl < i < midr -> 0 <= i <= 15 -> eik i = y) -> midl + 2 < midr -> midl <= 13 -> 2 <= midr ->
  18 <= Z.of_nat fuel + midr -> midl + 3 <= Z.of_nat fuel ->
  exists mid, mid_loop fuel l (permutation_ l) 15 y midl midr ka pos = Ok mid /\ 1 <= mid <= 15 /\ eik (mid - 1) <> eik mid.
Proof.
  induction fuel as [|fuel IH]; intros midl midr y Heq Hd Hml Hmr Hr Hll.
  { destruct eik_not_all. rewrite !Heq by lia. done. }
  cbn [mid_loop]. assert (Hright : exists rd, (if midr <=? 15 then k ← ikey_after_insert l (permutation_ l) midr ka pos; Ok (negb (y =? k)) else Ok false) = Ok rd
    /\ (rd = true -> midr <= 15 /\ y <> eik midr) /\ (rd = false -> midr <= 15 -> y = eik midr)).
  { destruct (Z.leb_spec midr 15); [|exists false; split_and!; [done|done|lia]]. rewrite eik_get by lia. cbn [mbind outcome_bind]. eexists. split; [done|]. destruct (Z.eqb_spec y (eik midr)); naive_solver. }
  assert (Hleft : exists ld, (if 0 <=? midl then k ← ikey_after_insert l (permutation_ l) midl ka pos; Ok (negb (y =? k)) else Ok false) = Ok ld
    /\ (ld = true -> 0 <= midl /\ y <> eik midl) /\ (ld = false -> 0 <= midl -> y = eik midl)).
  { destruct (Z.leb_spec 0 midl); [|exists false; split_and!; [done|done|lia]]. rewrite eik_get by lia. cbn [mbind outcome_bind]. eexists. split; [done|]. destruct (Z.eqb_spec y (eik midl)); naive_solver. }
  destruct Hright as (rd & -> & Hrt & Hrf), Hleft as (ld & -> & Hlt & Hlf). cbn [mbind outcome_bind]. destruct rd.
  - destruct Hrt as [? Hne]; [done|]. exists midr. split; [done|]. split; [lia|]. rewrite (Heq (midr - 1)) by lia. done.
  - destruct ld.
    + destruct Hlt as [? Hne]; [done|]. exists (midl + 1). split; [done|]. split; [lia|]. rewrite (Heq (midl + 1)) by lia. replace (midl + 1 - 1) with midl by lia. congruence.
    + apply IH; try lia. intros i Hi Hin. destruct (Z.eq_dec i midr) as [->|]; [symmetry; apply Hrf; [done|lia]|]. destruct (Z.eq_dec i midl) as [->|]; [symmetry; apply Hlf; [done|lia]|]. apply Heq; lia.
Qed.
(** The split separates two different slices. *)
Lemma split_mid_ok : exists mid, split_mid l pos ka = Ok mid /\ 1 <= mid <= 15 /\ eik (mid - 1) <> eik mid.
Proof.
  unfold split_mid. rewrite Hfull. change (node_width / 2 + 1) with 8. set (mid := if (pos =? 0) && (l_prev_ l =? 0) then 1 else _).
  assert (Hmid : 1 <= mid <= 15) by (unfold mid; destruct (_ && _); [lia|]; destruct (_ && _); lia).
  rewrite !eik_get by lia. cbn [mbind outcome_bind]. destruct (Z.eqb_spec (eik mid) (eik (mid - 1))) as [He|Hne].
  - apply mid_loop_ok; try lia. intros i Hi Hin. destruct (Z.eq_dec i mid) as [->|]; [done|]. by assert (i = mid - 1) as -> by lia.
  - exists mid. split; [done|]. split; [lia|]. congruence.
Qed.
(** The entries that have been moved to the new leaf. *)
Record moved (mid j : Z) (nr0 nr : leaf) : Prop := {
  mv_frame : same_frame nr0 nr;
  mv_shape : shape_ok nr;
  mv_slots i : 0 <= i < j -> exists e, entries !! Z.to_nat (mid + i) = Some e /\ slot_ok nr i /\ slot_key nr i = ekey e /\ slot_content nr i = econtent e }.
Lemma value_from_element x i : 0 <= i -> Z.land (value_from x i) 15 = element x i /\ Z.shiftr (value_from x i) 4 = value_from x (i + 1).
Proof.
  intros Hi. unfold value_from, element. rewrite !Z.shiftl_mul_pow2 by lia. change (2 ^ 2) with 4. split; [do 2 f_equal; lia|]. rewrite Z.shiftr_shiftr by lia. f_equal. lia.
Qed.
Lemma same_frame_trans a b c : same_frame a b -> same_frame b c -> same_frame a c.
Proof. unfold same_frame. intuition congruence. Qed.
Lemma fill_moved mid j nr0 nr nr' e c : moved mid j nr0 nr -> 0 <= mid -> 0 <= j -> entries !! Z.to_nat (mid + j) = Some e -> econtent e = Some c ->
  filled (seqZ 0 j) nr nr' j (ekey e) c -> moved mid (j + 1) nr0 nr'.
Proof.
  intros [Hf Hs Hi] Hmid Hj He Hc [Ff Fs Fo Fk Fc Fq Fs']. split; [by eapply same_frame_trans|done|].
  intros i Hi'. destruct (Z.eq_dec i j) as [->|]; [exists e; by rewrite Hc|]. destruct (Hi i ltac:(lia)) as (f & Hf' & Hok & Hkey & Hcont). exists f. split; [done|].
  destruct (Fs' i) as [Hok' Hc']; [apply elem_of_seqZ; lia|done|done|]. split; [done|]. split; [by rewrite Fq by lia|by rewrite Hc'].
Qed.
Lemma split_move_ok mid nr0 n : 1 <= mid -> forall j nr, moved mid j nr0 nr -> 0 <= j -> mid + j + Z.of_nat n = 16 ->
  exists nr', split_move n l nr (mid + j) mid pos (value_from (permutation_ l) (mid + j - Z.b2z (pos <? mid + j))) ka = Ok nr' /\ moved mid (16 - mid) nr0 nr'.
Proof.
  intros Hmid. induction n as [|n IH]; intros j nr Hmv Hj Hn; [exists nr; split; [done|]; by replace (16 - mid) with j by lia|].
  pose proof entries_length as [_ Hpos]. destruct (entry_exists (mid + j) ltac:(lia)) as [e He]. pose proof (entry_at _ _ He) as Hat.
  assert (HS : slots_ok nr j (seqZ 0 j)).
  { intros q Hq%elem_of_seqZ. split; [lia|]. intros _. destruct (mv_slots _ _ _ _ Hmv q ltac:(lia)) as (f & _ & Hok & _). done. }
  cbn [split_move]. replace (mid + j - mid) with j by lia. destruct (Z.eqb_spec (mid + j) pos) as [Heq|Hne].
  - assert (e = None) as -> by (rewrite Hat, decide_False, decide_True by lia; done).
    destruct (leaf_assign_key_ok slack nr j ka str true) as (nr' & Hrun & Hfi); try done; [apply Hmv|lia|apply NoDup_seqZ|simpl; rewrite length_seqZ; lia|].
    unfold assign_initialize. rewrite Hrun. cbn [mbind outcome_bind]. pose proof (fill_moved mid j nr0 nr nr' None _ Hmv ltac:(lia) Hj He eq_refl Hfi) as Hmv'.
    destruct (IH (j + 1) nr' Hmv' ltac:(lia) ltac:(lia)) as (nr'' & Hrun' & ?). exists nr''. split; [|done].
    rewrite <- Hrun'. replace (mid + (j + 1)) with (mid + j + 1) by lia. f_equal. f_equal. destruct (Z.ltb_spec pos (mid + j)), (Z.ltb_spec pos (mid + j + 1)); simpl; lia.
  - set (i := mid + j - Z.b2z (pos <? mid + j)). assert (Hi : 0 <= i < 15) by (unfold i; destruct (Z.ltb_spec pos (mid + j)); simpl; lia).
    destruct (value_from_element (permutation_ l) i ltac:(lia)) as [-> ->]. pose proof (element_live l i (lo_perm _ Hl) ltac:(lia)) as Hel. set (q := element (permutation_ l) i) in *.
    assert (e = Some q) as ->.
    { rewrite Hat, <- Hel. unfold i in *. destruct (Z.ltb_spec pos (mid + j)); simpl in *; [rewrite !decide_False by lia|rewrite decide_True by lia]; f_equal; lia. }
    assert (Hq : q ∈ live l) by (by eapply list_elem_of_lookup_2). destruct (so_content _ _ (lo_slots _ Hl q Hq)) as [c Hc].
    destruct (assign_slot_ok nr j l q c) as (nr' & Hrun & Hfi); try done; [apply Hmv|apply Hl|by apply (lo_slots _ Hl)|lia|apply NoDup_seqZ|simpl; rewrite length_seqZ; lia|].
    rewrite Hrun. cbn [mbind outcome_bind]. pose proof (fill_moved mid j nr0 nr nr' (Some q) c Hmv ltac:(lia) Hj He Hc Hfi) as Hmv'.
    destruct (IH (j + 1) nr' Hmv' ltac:(lia) ltac:(lia)) as (nr'' & Hrun' & ?). exists nr''. split; [|done].
    rewrite <- Hrun'. replace (mid + (j + 1)) with (mid + j + 1) by lia. f_equal. f_equal. unfold i. destruct (Z.ltb_spec pos (mid + j)), (Z.ltb_spec pos (mid + j + 1)); simpl; lia.
Qed.
Lemma eik_entry i e : entries !! Z.to_nat i = Some e -> (ekey e).1 = eik i.
Proof. intros He. unfold eik. by rewrite He. Qed.
(** The slots of the leaf below and from [mid] on. *)
Lemma live_entry q : q ∈ live l -> exists i, 0 <= i <= 15 /\ entries !! Z.to_nat i = Some (Some q).
Proof.
  intros Hq. assert (Hin : Some q ∈ entries) by (unfold entries; rewrite (ss_live _ _ _ _ Hss) in Hq; apply elem_of_app in Hq as [Hq|Hq]; set_solver).
  apply list_elem_of_lookup in Hin as [i Hi]. pose proof (lookup_lt_Some _ _ _ Hi) as Hlt. pose proof entries_length as [Hel _]. exists (Z.of_nat i). rewrite Nat2Z.id. split; [lia|done].
Qed.
Lemma entry_live i q : entries !! i = Some (Some q) -> q ∈ live l.
Proof. intros Hi. apply list_elem_of_lookup_2 in Hi. unfold entries in Hi. rewrite (ss_live _ _ _ _ Hss). set_solver. Qed.
Lemma below_mid mid i : 1 <= mid <= 15 -> eik (mid - 1) <> eik mid -> 0 <= i <= 15 -> eik i < eik mid <-> i < mid.
Proof.
  intros Hm Hne Hi. pose proof (eik_mono (mid - 1) mid ltac:(lia) ltac:(lia)). destruct (Z.lt_ge_cases i mid).
  - pose proof (eik_mono i (mid - 1) ltac:(lia) ltac:(lia)). lia.
  - pose proof (eik_mono mid i ltac:(lia) ltac:(lia)). lia.
Qed.
Lemma entry_key_lt i j e f : 0 <= i < j -> j <= 15 -> entries !! Z.to_nat i = Some e -> entries !! Z.to_nat j = Some f -> akey_lt (ekey e) (ekey f).
Proof.
  intros Hi Hj He Hf. apply (entries_sorted (Z.to_nat i) (Z.to_nat j)); [by rewrite list_lookup_fmap, He|by rewrite list_lookup_fmap, Hf|lia].
Qed.

(** *** The right leaf *)
Section Right.
Context (mid : Z) (nr0 nr : leaf) (Hmid : 1 <= mid <= 15) (Hdiff : eik (mid - 1) <> eik mid) (Hmv : moved mid (16 - mid) nr0 nr).
(** A permutation of increasing slots that leaves out the new entry at most. *)
Lemma right_leaf_ok x ps : permuter_ok node_width x -> take (Z.to_nat (psize x)) (elements node_width x) = ps -> (forall p, p ∈ ps -> 0 <= p < 16 - mid) ->
  (forall i j p q, ps !! i = Some p -> ps !! j = Some q -> (i < j)%nat -> p < q) -> leaf_ok (set_permutation x nr).
Proof.
  intros Hx Hps Hr Hinc. assert (Hlive : live (set_permutation x nr) = ps) by exact Hps. split; [apply set_perm_ok, Hmv|done| |].
  - intros p Hp. rewrite Hlive in Hp. apply set_perm_slot. destruct (mv_slots _ _ _ _ Hmv p (Hr p Hp)) as (e & _ & Hok & _). done.
  - intros i j p q Hi Hj Hij. rewrite Hlive in Hi, Hj. pose proof (Hr p ltac:(by eapply list_elem_of_lookup_2)). pose proof (Hr q ltac:(by eapply list_elem_of_lookup_2)).
    destruct (mv_slots _ _ _ _ Hmv p ltac:(lia)) as (e & He & _ & Hkp & _). destruct (mv_slots _ _ _ _ Hmv q ltac:(lia)) as (f & Hf & _ & Hkq & _).
    change (slot_key (set_permutation x nr) p) with (slot_key nr p). change (slot_key (set_permutation x nr) q) with (slot_key nr q). rewrite Hkp, Hkq.
    pose proof (Hinc i j p q Hi Hj Hij). apply (entry_key_lt (mid + p) (mid + q)); lia || done.
Qed.
Lemma right_holds x ps k c : take (Z.to_nat (psize x)) (elements node_width x) = ps -> (forall p, p ∈ ps <-> 0 <= p < 16 - mid /\ mid + p <> pos) ->
  holds (set_permutation x nr) k c <-> holds l k c /\ eik mid <= k.1.
Proof.
  intros Hps Hmem. assert (Hlive : live (set_permutation x nr) = ps) by exact Hps. pose proof entries_length as [_ Hpos]. split.
  - intros (p & Hp & Hkey & Hc). rewrite Hlive, Hmem in Hp. destruct Hp as [Hp Hnp]. destruct (mv_slots _ _ _ _ Hmv p Hp) as (e & He & _ & Hkp & Hcp).
    change (slot_key nr p = k) in Hkey. change (slot_content nr p = Some c) in Hc. destruct e as [q|].
    + split; [exists q; split; [by eapply entry_live|]; cbn [ekey econtent] in Hkp, Hcp; split; congruence|]. rewrite <- Hkey, Hkp, (eik_entry _ _ He). apply eik_mono; lia.
    + pose proof (entry_at _ _ He) as Hat. case_decide; [symmetry in Hat; apply lookup_ge_None in Hat; rewrite live_length, Hfull in Hat by apply Hl; lia|].
      case_decide; [lia|]. symmetry in Hat. apply lookup_ge_None in Hat. rewrite live_length, Hfull in Hat by apply Hl. lia.
  - intros [(q & Hq & Hkey & Hc) Hge]. destruct (live_entry q Hq) as (i & Hi & He). assert (Him : mid <= i).
    { destruct (Z.lt_ge_cases i mid) as [Hlt|]; [|done]. apply (below_mid mid i Hmid Hdiff Hi) in Hlt. rewrite <- (eik_entry _ _ He) in Hlt. cbn [ekey] in Hlt. rewrite Hkey in Hlt. lia. }
    destruct (mv_slots _ _ _ _ Hmv (i - mid) ltac:(lia)) as (e & He' & _ & Hkp & Hcp). replace (mid + (i - mid)) with i in He' by lia. rewrite He in He'. injection He' as <-.
    exists (i - mid). split; [|cbn [ekey econtent] in Hkp, Hcp; split; [by transitivity (slot_key l q)|by transitivity (slot_content l q)]].
    rewrite Hlive. apply Hmem. split; [lia|]. intros Hp. pose proof (entry_at _ _ He) as Hat. rewrite decide_False, decide_True in Hat by lia. done.
Qed.
End Right.
Lemma eik_pos : eik pos = slice_of str.
Proof. unfold eik, entries. rewrite Nat2Z.id, lookup_app_r by (rewrite length_fmap; lia). by rewrite length_fmap, Nat.sub_diag. Qed.
Definition same_links (l l' : leaf) : Prop :=
  l_version l' = l_version l /\ modstate_ l' = modstate_ l /\ l_next_ l' = l_next_ l /\ l_prev_ l' = l_prev_ l /\ l_parent_ l' = l_parent_ l /\ node_ts_ l' = node_ts_ l.
(** [split_into] moves the entries from some position on, keeps equal slices together and
    fills the slot of the new key if it is among them. *)
Lemma leaf_split_into_ok nr0 : shape_ok nr0 -> exists mid nr, 1 <= mid <= 15 /\ eik (mid - 1) <> eik mid
  /\ leaf_split_into l nr0 pos ka = Ok (nr, eik mid, if mid <=? pos then 1 + Z.b2z (mid =? 15) else 0)
  /\ same_links nr0 nr /\ slot_ikey nr 0 = eik mid /\ leaf_ok nr /\ leaf_size nr = 16 - mid - Z.b2z (mid <=? pos)
  /\ (forall k c, holds nr k c <-> holds l k c /\ eik mid <= k.1) /\ (mid <> pos -> 0 ∈ live nr)
  /\ (mid <= pos -> exists A' B', ready nr (pos - mid) (pos - mid) (akey_of str) (drop 8 str) A' B').
Proof.
  intros Hnr0. pose proof entries_length as [_ Hpos]. destruct split_mid_ok as (mid & Hrun & Hmid & Hdiff). unfold leaf_split_into. rewrite Hfull, Hrun. cbn [mbind outcome_bind].
  destruct (split_move_ok mid nr0 (Z.to_nat (15 + 1 - mid)) ltac:(lia) 0 nr0) as (nr & Hmove & Hmv); [split; [done|done|lia]|lia|lia|].
  rewrite Z.add_0_r in Hmove. rewrite Hmove. cbn [mbind outcome_bind].
  destruct (mv_slots _ _ _ _ Hmv 0 ltac:(lia)) as (e & He & Hok0 & Hk0 & _). rewrite Z.add_0_r in He.
  assert (Hs0 : slot_ikey nr 0 = eik mid) by (change (slot_ikey nr 0) with (slot_key nr 0).1; rewrite Hk0; by apply eik_entry).
  assert (array_get (l_ikey0_ nr) 0 = Ok (eik mid)) as ->.
  { rewrite <- Hs0. unfold array_get, slot_ikey. rewrite decide_True by lia. destruct (lookup_lt_is_Some_2 (l_ikey0_ nr) (Z.to_nat 0)) as [y Hy]; [rewrite (sh_ikey0 _ (mv_shape _ _ _ _ Hmv)); lia|].
    rewrite Hy. f_equal. symmetry. by apply list_lookup_total_correct. }
  cbn [mbind outcome_bind]. replace (15 + 1 - mid) with (16 - mid) by lia. set (x := if mid <=? pos then _ else _).
  exists mid, (set_permutation x nr). assert (Hlinks : same_links nr0 (set_permutation x nr)) by (destruct (mv_frame _ _ _ _ Hmv) as (? & ? & ? & ? & ? & ? & ?); by split_and!).
  do 5 (split; [done|]). unfold x in *. clear x. destruct (Z.leb_spec mid pos) as [Hge|Hlt].
  - destruct (right_perm_less (16 - mid) (pos - mid) ltac:(lia) ltac:(lia)) as (Hx & Hsz & Hlv & Hback). set (x := remove_to_back _ _ _) in *.
    rewrite <- Hsz in Hlv at 1. assert (Hmem : forall p, p ∈ seqZ 0 (pos - mid) ++ seqZ (pos - mid + 1) (16 - mid - 1 - (pos - mid)) <-> 0 <= p < 16 - mid /\ mid + p <> pos).
    { intros p. rewrite elem_of_app, !elem_of_seqZ. lia. }
    assert (Hlok : leaf_ok (set_permutation x nr)).
    { apply (right_leaf_ok mid nr0 nr Hmid Hmv x _ Hx Hlv); [intros p Hp; apply Hmem in Hp; lia|].
      intros i j p q Hi Hj Hij. apply lookup_app_Some in Hi as [Hi|[Hi1 Hi]]; apply lookup_app_Some in Hj as [Hj|[Hj1 Hj]]; rewrite ?length_seqZ in *;
        apply lookup_seqZ in Hi as [-> ?]; apply lookup_seqZ in Hj as [-> ?]; lia. }
    split; [done|]. split; [unfold leaf_size; simpl; lia|]. split; [intros k c; by eapply (right_holds mid nr0 nr)|]. split; [intros Hne; change (0 ∈ take (Z.to_nat (psize x)) (elements node_width x)); rewrite Hlv, Hmem; lia|].
    intros _. exists (seqZ 0 (pos - mid)), (seqZ (pos - mid + 1) (16 - mid - 1 - (pos - mid))).
    destruct (mv_slots _ _ _ _ Hmv (pos - mid) ltac:(lia)) as (f & Hf & Hokf & Hkf & Hcf). replace (mid + (pos - mid)) with pos in Hf by lia.
    assert (f = None) as ->. { unfold entries in Hf. rewrite Nat2Z.id, lookup_app_r, length_fmap, Nat.sub_diag in Hf by (rewrite length_fmap; lia). by injection Hf as <-. }
    assert (Hlive : live (set_permutation x nr) = seqZ 0 (pos - mid) ++ seqZ (pos - mid + 1) (16 - mid - 1 - (pos - mid))) by exact Hlv.
    assert (Hord : forall p, 0 <= p < 16 - mid -> p <> pos - mid -> (p < pos - mid /\ akey_lt (slot_key nr p) (akey_of str)) \/ (pos - mid < p /\ akey_lt (akey_of str) (slot_key nr p))).
    { intros p Hp Hne. destruct (mv_slots _ _ _ _ Hmv p Hp) as (g & Hg & _ & -> & _). destruct (Z.lt_ge_cases p (pos - mid)); [left|right]; (split; [lia|]).
      - apply (entry_key_lt (mid + p) pos g None); lia || done.
      - apply (entry_key_lt pos (mid + p) None g); lia || done. }
    split; try done.
    + unfold leaf_size. simpl. rewrite Hsz. lia.
    + by apply set_perm_slot.
    + exists 0. exact Hcf.
    + split; [done|intros p Hp%elem_of_seqZ; destruct (Hord p ltac:(lia) ltac:(lia)) as [[_ ?]|[? _]]; [done|lia]|].
      intros p Hp%elem_of_seqZ. right. destruct (Hord p ltac:(lia) ltac:(lia)) as [[? _]|[_ ?]]; [lia|done].
    + rewrite length_seqZ. lia.
    + intros p Hp. rewrite Hlive, Hmem in Hp. destruct (Hord p ltac:(lia) ltac:(lia)) as [[_ H]|[_ H]]; intros He'; change (slot_key (set_permutation x nr) p) with (slot_key nr p) in He'; rewrite He' in H; by apply akey_lt_irrefl in H.
  - destruct (right_perm_all (16 - mid) ltac:(lia)) as (Hx & Hsz & Hlv). set (x := make_sorted _ _) in *. rewrite <- Hsz in Hlv at 1.
    split; [apply (right_leaf_ok mid nr0 nr Hmid Hmv x _ Hx Hlv); [intros p Hp%elem_of_seqZ; lia|intros i j p q [-> ?]%lookup_seqZ [-> ?]%lookup_seqZ ?; lia]|].
    split; [unfold leaf_size; simpl; rewrite Hsz; simpl; lia|]. split; [intros k c; eapply (right_holds mid nr0 nr); try done; intros p; rewrite elem_of_seqZ; lia|]. split; [|lia].
    intros _. change (0 ∈ take (Z.to_nat (psize x)) (elements node_width x)). rewrite Hlv, elem_of_seqZ. lia.
Qed.
(** What stays in the left leaf, and the new key in it. *)
Lemma left_split_ok mid : 1 <= mid <= 15 -> eik (mid - 1) <> eik mid -> let l1 := set_permutation (set_size node_width (mid - Z.b2z (pos <? mid)) (permutation_ l)) l in
  leaf_ok l1 /\ (forall k c, holds l1 k c <-> holds l k c /\ k.1 < eik mid) /\ leaf_size l1 = mid - Z.b2z (pos <? mid) /\ (forall p, p ∈ live l1 <-> p ∈ live l /\ slot_ikey l p < eik mid)
  /\ (pos < mid -> exists l2 B', assign l1 (back node_width (permutation_ l1)) ka = Ok l2 /\ same_frame l1 l2 /\ (forall p, p ∈ live l1 -> slot_key l2 p = slot_key l1 p /\ slot_content l2 p = slot_content l1 p)
        /\ live l2 = live l1 /\ ready l2 pos (back node_width (permutation_ l1)) (akey_of str) (drop 8 str) A B').
Proof.
  intros Hmid Hdiff l1. pose proof entries_length as [_ Hpos]. set (n := mid - Z.b2z (pos <? mid)) in *.
  assert (Hn : 0 <= n <= 15) by (unfold n; destruct (Z.ltb_spec pos mid); simpl; lia).
  destruct (truncate_ok l n Hl ltac:(lia)) as (Hl1 & Hsz & Hlive). fold l1 in Hl1, Hsz, Hlive. assert (Hstay : forall q i, entries !! Z.to_nat i = Some (Some q) -> 0 <= i <= 15 -> q ∈ live l1 <-> i < mid).
  { intros q i He Hi. pose proof (entry_at _ _ He) as Hat. assert (Hidx : exists j, live l !! j = Some q /\ Z.of_nat j = i - Z.b2z (pos <? i) /\ i <> pos).
    { case_decide; [exists (Z.to_nat i); rewrite <- Hat; split; [done|]; destruct (Z.ltb_spec pos i); simpl; lia|]. case_decide; [done|].
      exists (Z.to_nat i - 1)%nat. rewrite <- Hat. split; [done|]. destruct (Z.ltb_spec pos i); simpl; lia. }
    destruct Hidx as (j & Hj & Hji & Hip). rewrite Hlive. rewrite elem_of_take. split.
    - intros (j' & Hj' & Hlt). pose proof (NoDup_lookup _ _ _ _ (live_nodup l (lo_perm _ Hl)) Hj Hj') as <-. unfold n in *. destruct (Z.ltb_spec pos i), (Z.ltb_spec pos mid); simpl in *; lia.
    - intros Hlt. exists j. split; [done|]. unfold n. destruct (Z.ltb_spec pos i), (Z.ltb_spec pos mid); simpl in *; lia. }
  split; [done|]. split.
  { intros k c. split.
    - intros (q & Hq & Hkey & Hc). assert (Hql : q ∈ live l) by (rewrite Hlive in Hq; by apply elem_of_take in Hq as (? & ?%list_elem_of_lookup_2 & _)).
      split; [by exists q|]. destruct (live_entry q Hql) as (i & Hi & He). apply (Hstay q i He Hi) in Hq. apply (below_mid mid i Hmid Hdiff Hi) in Hq. rewrite <- (eik_entry _ _ He) in Hq. cbn [ekey] in Hq. by rewrite <- Hkey.
    - intros [(q & Hq & Hkey & Hc) Hlt]. exists q. split; [|done]. destruct (live_entry q Hq) as (i & Hi & He). apply (Hstay q i He Hi), (below_mid mid i Hmid Hdiff Hi). rewrite <- (eik_entry _ _ He). cbn [ekey]. by rewrite Hkey. }
  split; [done|]. split.
  { intros p. split.
    - intros Hp. assert (Hpl : p ∈ live l) by (rewrite Hlive in Hp; by apply elem_of_take in Hp as (? & ?%list_elem_of_lookup_2 & _)). split; [done|]. destruct (live_entry p Hpl) as (i & Hi & He). apply (Hstay p i He Hi) in Hp. apply (below_mid mid i Hmid Hdiff Hi) in Hp. by rewrite <- (eik_entry _ _ He) in Hp.
    - intros [Hp Hlt]. destruct (live_entry p Hp) as (i & Hi & He). apply (Hstay p i He Hi), (below_mid mid i Hmid Hdiff Hi). by rewrite <- (eik_entry _ _ He). }
  intros Hlt. assert (Hnm : n = mid - 1) by (unfold n; destruct (Z.ltb_spec pos mid); simpl; lia).
  assert (HlA : live l1 = A ++ take (Z.to_nat n - length A) B).
  { rewrite Hlive, (ss_live _ _ _ _ Hss), take_app. f_equal. rewrite take_ge by lia. done. }
  destruct (assign_ready slack l1 ka str A (take (Z.to_nat n - length A) B)) as (l2 & Hrun & Hfr & Hkeep & Hlv & Hrd); try done; [lia| | |by exists l2, (take (Z.to_nat n - length A) B)].
  - split; [done|exact (ss_low _ _ _ _ Hss)|]. intros p (? & ?%list_elem_of_lookup_2 & _)%elem_of_take. by apply (ss_high _ _ _ _ Hss).
  - intros p Hp. apply Habs. rewrite Hlive in Hp. by apply elem_of_take in Hp as (? & ?%list_elem_of_lookup_2 & _).
Qed.
End LeafSplit.
