(* ===== verification/MassInv.v ===== *)
(** * The invariant of a Masstree

    What the nodes of a Masstree in memory stand for between the steps of one thread: every
    node belongs to a layer (the slices that lead to it), has a level and a range of slices;
    the leaves of a layer hold the entries of the layer between them.  The descent through a
    layer follows from the invariant. *)

From S2P Require Import Prelude Permuter KSearch NodeVersion MassKey MassBag MassNode MassTree MassLeaf MassSplit.
#[local] Abbreviation P := nodeversion32_parameters.

(** ** Versions of nodes *)
(** The version of a node: whether it is a leaf, the root bit it will have when it is unlocked,
    and whether it is locked. *)
Record ver (v : Z) (lf rt lk : bool) : Prop := {
  vr_range : 0 <= v < 2 ^ 32;
  vr_lock : Z.testbit v 0 = lk;
  vr_unused : Z.testbit v 28 = false;
  vr_deleted : Z.testbit v 29 = false;
  vr_root : Z.testbit v 30 && negb (Z.testbit v 2) = rt;
  vr_leaf : Z.testbit v 31 = lf;
  vr_clean : lk = false -> Z.testbit v 1 = false /\ Z.testbit v 2 = false }.
Lemma bits_add v k i : 0 <= v -> Z.testbit v 28 = false -> 0 <= k < 2 ^ 28 -> 29 <= i -> Z.testbit (v + k) i = Z.testbit v i.
Proof.
  intros Hv Hb Hk Hi. assert (Hq : (v + k) / 2 ^ 29 = v / 2 ^ 29).
  { pose proof (Z.div_mod v (2 ^ 29) ltac:(lia)) as Hd. assert (v mod 2 ^ 29 < 2 ^ 28).
    { destruct (Z.lt_ge_cases (v mod 2 ^ 29) (2 ^ 28)) as [|Hge]; [done|exfalso]. pose proof (Z.mod_pos_bound v (2 ^ 29) ltac:(lia)).
      assert (Ht : Z.testbit (v mod 2 ^ 29) 28 = true).
      { apply Z.testbit_true; [lia|]. replace (v mod 2 ^ 29 / 2 ^ 28) with 1; [done|]. apply Z.div_unique with (r := v mod 2 ^ 29 - 2 ^ 28); lia. }
      rewrite Z.mod_pow2_bits_low in Ht by lia. congruence. }
    replace (v + k) with (v mod 2 ^ 29 + k + v / 2 ^ 29 * 2 ^ 29) by lia. rewrite Z.div_add by lia. rewrite (Z.div_small (v mod 2 ^ 29 + k)); [lia|].
    pose proof (Z.mod_pos_bound v (2 ^ 29) ltac:(lia)). lia. }
  replace i with (i - 29 + 29) by lia. rewrite <- !Z.div_pow2_bits by lia. by rewrite Hq.
Qed.
Lemma bits_below v w : 0 <= v < 2 ^ 32 -> 0 <= w < 2 ^ 32 -> 0 <= Z.lor v w < 2 ^ 32 /\ 0 <= Z.land v w < 2 ^ 32.
Proof.
  assert (Hb : forall x, 0 <= x -> (forall i, 32 <= i -> Z.testbit x i = false) -> 0 <= x < 2 ^ 32).
  { intros x Hx Hi. split; [done|]. destruct (Z.eq_dec x 0) as [->|]; [lia|]. apply Z.log2_lt_pow2; [lia|].
    destruct (Z.lt_ge_cases (Z.log2 x) 32) as [|Hge]; [done|]. specialize (Hi _ Hge). rewrite Z.bit_log2 in Hi by lia. done. }
  intros Hv Hw. assert (forall x i, 0 <= x < 2 ^ 32 -> 32 <= i -> Z.testbit x i = false) as Hz.
  { intros x i Hx Hi. destruct (Z.eq_dec x 0) as [->|]; [apply Z.bits_0|]. apply Z.bits_above_log2; [lia|]. assert (Z.log2 x < 32) by (apply Z.log2_lt_pow2; lia). lia. }
  split; apply Hb.
  - apply Z.lor_nonneg. lia.
  - intros i Hi. by rewrite Z.lor_spec, !Hz by (done || lia).
  - apply Z.land_nonneg. lia.
  - intros i Hi. by rewrite Z.land_spec, !Hz by (done || lia).
Qed.
#[local] Ltac pbits := rewrite ?Z.lor_spec, ?Z.land_spec, ?Z.pow2_bits_eqb by lia; cbn [Z.eqb Pos.eqb]; rewrite ?orb_false_r, ?orb_true_r, ?andb_true_r, ?andb_false_r.
Section Versions.
Context {v : Z} {lf rt lk : bool} (Hv : ver v lf rt lk).
Lemma ver_isleaf : nv_isleaf P v = lf.
Proof. unfold nv_isleaf. change (isleaf_bit P) with (2 ^ 31). rewrite has_bit by lia. apply Hv. Qed.
Lemma ver_not_deleted : nv_deleted P v = false.
Proof. unfold nv_deleted. change (deleted_bit P) with (2 ^ 29). rewrite has_bit by lia. apply Hv. Qed.
Lemma ver_has_split : lk = false -> has_split P v = negb rt.
Proof. intros Hl. unfold has_split. change (root_bit P) with (2 ^ 30). rewrite has_bit by lia. rewrite <- (vr_root _ _ _ _ Hv). destruct (vr_clean _ _ _ _ Hv Hl) as [_ ->]. by rewrite andb_true_r. Qed.
Lemma ver_stable : lk = false -> stable P v = Some v.
Proof.
  intros Hl. unfold stable. change (has_bits v (dirty_mask P)) with (nv_dirty P v). rewrite (dirty_bits P). destruct (vr_clean _ _ _ _ Hv Hl) as [H1 H2].
  change (lock_pos (P := P) + 1) with 1. change (lock_pos (P := P) + 2) with 2. by rewrite H1, H2.
Qed.
Lemma ver_try_lock : lk = false -> nv_try_lock P v v = Some (Z.lor v 1).
Proof. intros Hl. unfold nv_try_lock. change (lock_bit P) with (2 ^ 0). rewrite has_bit by lia. rewrite (vr_lock _ _ _ _ Hv), Hl, Z.eqb_refl. done. Qed.
Lemma ver_lock : lk = false -> ver (Z.lor v 1) lf rt true.
Proof.
  intros Hl. destruct (vr_clean _ _ _ _ Hv Hl) as [H1 H2]. change 1 with (2 ^ 0). destruct Hv. split; try (pbits; done).
  apply bits_below; [done|lia].
Qed.
Lemma locked_unchanged : lk = false -> has_changed P (Z.lor v 1) v = false /\ has_split_since P (Z.lor v 1) v = false.
Proof.
  intros Hl. assert (Z.lxor v (Z.lor v 1) = 1) as Hx.
  { apply Z.bits_inj'. intros i Hi. change 1 with (2 ^ 0). rewrite Z.lxor_spec, Z.lor_spec, Z.pow2_bits_eqb by lia. destruct (Z.eqb_spec 0 i) as [<-|].
    - rewrite (vr_lock _ _ _ _ Hv), Hl. done.
    - by rewrite orb_false_r, xorb_nilpotent. }
  unfold has_changed, has_split_since. by rewrite Hx.
Qed.
Lemma ver_mark_insert : lk = true -> ver (mark_insert P v) lf rt true.
Proof.
  intros ->. unfold mark_insert. change (inserting_bit P) with (2 ^ 1). destruct Hv. split; try (pbits; done). apply bits_below; [done|lia].
Qed.
Lemma ver_mark_split : lk = true -> ver (mark_split P v) lf false true.
Proof.
  intros ->. unfold mark_split. change (splitting_bit P) with (2 ^ 2). destruct Hv. split; try (pbits; done). apply bits_below; [done|lia].
Qed.
Lemma ver_nonroot : lk = true -> ver (mark_nonroot P v) lf false true.
Proof.
  intros ->. unfold mark_nonroot. set (m := wrap _ _). assert (Hm : forall i, 0 <= i < 32 -> Z.testbit m i = negb (30 =? i)).
  { intros i Hi. unfold m. change (value_width P) with 32. change (root_bit P) with (2 ^ 30). unfold wrap. by rewrite Z.mod_pow2_bits_low, Z.lnot_spec, Z.pow2_bits_eqb by lia. }
  destruct Hv. split; try (rewrite ?Z.land_spec, ?Hm by lia; cbn [Z.eqb Pos.eqb negb]; rewrite ?andb_true_r, ?andb_false_r; done).
  apply bits_below; [done|]. apply wrap_bound. done.
Qed.
Lemma ver_unlock : lk = true -> ver (nv_unlock P v) lf rt false.
Proof.
  intros ->. destruct Hv as [Hr Hl Hu Hd Hrt Hlf _]. unfold nv_unlock. change (splitting_bit P) with (2 ^ 2). rewrite has_bit by lia. change (value_width P) with 32.
  assert (Hm : forall i, 0 <= i < 32 -> Z.testbit (split_unlock_mask P) i = negb ((i =? 30) || (i =? 28) || (i <? 9)) /\ Z.testbit (unlock_mask P) i = negb ((i =? 28) || (i <? 3))).
  { intros i Hi. split; [rewrite (split_mask_bits P i Hi)|rewrite (unlock_mask_bits P i Hi)]; reflexivity. }
  assert (Hw : forall k i, 0 <= k < 2 ^ 28 -> 29 <= i < 32 -> Z.testbit (wrap 32 (v + k)) i = Z.testbit v i).
  { intros k i Hk Hi. unfold wrap. rewrite Z.mod_pow2_bits_low by lia. apply bits_add; done || lia. }
  destruct (Z.testbit v 2) eqn:H2.
  - change (vsplit_lowbit P) with (2 ^ 9). rewrite andb_false_r in Hrt. subst rt.
    split; rewrite ?Z.land_spec, ?(proj1 (Hm _ _)), ?Hw by lia; cbn [Z.eqb Pos.eqb Z.ltb Z.compare Pos.compare Pos.compare_cont orb negb];
      rewrite ?andb_true_r, ?andb_false_r; try done. apply bits_below; [apply wrap_bound; lia|]. by vm_compute.
  - rewrite andb_true_r in Hrt. set (k := Z.shiftl _ _). assert (Hk : 0 <= k < 2 ^ 28).
    { unfold k. change (inserting_bit P) with (2 ^ 1). rewrite land_pow2 by lia. destruct (Z.testbit v 1); vm_compute; split; congruence. }
    split; rewrite ?Z.land_spec, ?(proj2 (Hm _ _)), ?Hw by lia; cbn [Z.eqb Pos.eqb Z.ltb Z.compare Pos.compare Pos.compare_cont orb negb];
      rewrite ?andb_true_r, ?andb_false_r; try done; [|by rewrite andb_true_r]. apply bits_below; [apply wrap_bound; lia|]. by vm_compute.
Qed.
End Versions.
Lemma unchanged v : has_changed P v v = false /\ has_split_since P v v = false.
Proof. unfold has_changed, has_split_since. by rewrite Z.lxor_nilpotent. Qed.
Lemma ver_new lf : ver (new_nodeversion P lf) lf false false.
Proof. by destruct lf; split; vm_compute. Qed.
Lemma ver_new_root lf : ver (mark_root P (new_nodeversion P lf)) lf true false.
Proof. by destruct lf; split; vm_compute. Qed.

(** ** Layers, levels and ranges *)
(** What a node stands for: the slices that lead to its layer, its level in it, the slices
    it is responsible for, and its parent. *)
Record ghost : Type := mkG { layer : list Z; level : nat; lo : Z; hi : Z; up : Z }.
Abbreviation ghosts := (gmap Z ghost).
Abbreviation dict := (gmap (list Z * akey) content).
Abbreviation memory := (gmap Z node).
Definition covers (g : ghost) (x : Z) : Prop := lo g <= x < hi g.

(** The children [cs] of the node [q], with the bounds [B] around them. *)
Record family (V : ghosts) (pi : list Z) (lv : nat) (q : Z) (B cs : list Z) : Prop := {
  fm_length : length B = S (length cs);
  fm_sorted : ksorted B;
  fm_child i c a b : cs !! i = Some c -> B !! i = Some a -> B !! S i = Some b -> V !! c = Some (mkG pi lv a b q) }.
Definition inner_arrays (i : internode) (ks cs : list Z) : Prop :=
  exists kt ct, i_ikey0_ i = ks ++ kt /\ child_ i = cs ++ ct /\ length (i_ikey0_ i) = 15%nat /\ length (child_ i) = 16%nat /\ nkeys_ i = Z.of_nat (length ks).
Definition inner_content (V : ghosts) (p : Z) (g : ghost) (i : internode) : Prop :=
  exists lv ks cs, level g = S lv /\ inner_arrays i ks cs /\ family V (layer g) lv p (lo g :: ks ++ [hi g]) cs.
(** The entries of a leaf.  Slot 0 of a leaf that is not the first keeps the lowest slice; it
    is free only while the leaf is locked and its first key is about to enter. *)
Record leaf_content (E : dict) (L : gset Z) (p : Z) (g : ghost) (l : leaf) : Prop := {
  lc_ok : leaf_ok l;
  lc_holds k c : holds l k c <-> E !! (layer g, k) = Some c /\ covers g k.1;
  lc_first : lo g <> 0 -> slot_ikey l 0 = lo g /\ (0 ∈ live l \/ (p ∈ L /\ back node_width (permutation_ l) = 0)) }.
Record leaf_frame (G : ghosts) (g : ghost) (l : leaf) : Prop := {
  lf_level : level g = 0%nat;
  lf_mod : modstate_ l = modstate_insert;
  lf_prev : l_prev_ l = 0 <-> lo g = 0;
  lf_next : (l_next_ l = 0 /\ hi g = 2 ^ 64) \/ exists gq, G !! l_next_ l = Some gq /\ layer gq = layer g /\ level gq = 0%nat /\ lo gq = hi g }.
Definition leaf_node (n : node) : bool := match n with NLeaf _ => true | NInner _ => false end.
(** [X]: leaves in the middle of a split; [L]: locked nodes. *)
Record node_ok (G V : ghosts) (E : dict) (X L : gset Z) (p : Z) (g : ghost) (n : node) : Prop := {
  nk_ver : exists rt, ver (node_version n) (leaf_node n) rt (bool_decide (p ∈ L)) /\ (p ∉ X -> lo g = 0 -> rt = bool_decide (up g = 0));
  nk_up : node_parent n = up g;
  nk_content : match n with NLeaf l => leaf_frame G g l /\ (p ∉ X -> leaf_content E L p g l) | NInner i => inner_content V p g i end }.
(** The nodes in memory.  [G] gives what every node stands for; [V] is what their parents know:
    [G] without a node that has just been split off, whose range still belongs to its left
    neighbour. *)
Record tree_ok (N : memory) (G V : ghosts) (E : dict) (X L : gset Z) : Prop := {
  to_dom p : is_Some (N !! p) <-> is_Some (G !! p);
  to_addr p : is_Some (G !! p) -> 0 < p /\ p mod 64 = 0;
  to_node p g n : G !! p = Some g -> N !! p = Some n -> node_ok G V E X L p g n;
  to_span p g : G !! p = Some g -> 0 <= lo g /\ lo g < hi g /\ hi g <= 2 ^ 64;
  to_disj p q g h x : G !! p = Some g -> G !! q = Some h -> layer g = layer h -> level g = level h -> covers g x -> covers h x -> p = q;
  to_view p g : V !! p = Some g -> exists h, G !! p = Some h /\ layer h = layer g /\ level h = level g /\ lo h = lo g /\ up h = up g /\ hi h <= hi g;
  to_up p g : V !! p = Some g -> if decide (up g = 0) then lo g = 0 /\ hi g = 2 ^ 64
    else exists h, G !! up g = Some h /\ layer h = layer g /\ level h = S (level g) /\ lo h <= lo g /\ hi g <= hi h;
  to_layer p g pi x : G !! p = Some g -> layer g = pi ++ [x] -> exists link, E !! (pi, (x, 9)) = Some (CLayer link);
  to_link pi k r : E !! (pi, k) = Some (CLayer r) -> k.2 = 9 /\ exists g, V !! r = Some g /\ layer g = pi ++ [k.1] /\ lo g = 0;
  to_entry pi k c : E !! (pi, k) = Some c -> exists p g, G !! p = Some g /\ layer g = pi /\ level g = 0%nat /\ covers g k.1 }.
Abbreviation settled N G E L := (tree_ok N G G E ∅ L).

Lemma tree_node N G V E X L p g : tree_ok N G V E X L -> G !! p = Some g -> exists n, N !! p = Some n /\ node_ok G V E X L p g n.
Proof. intros Ht Hg. destruct (proj2 (to_dom _ _ _ _ _ _ Ht p) ltac:(eauto)) as [n Hn]. exists n. split; [done|by apply Ht]. Qed.
Lemma node_leaf G V E X L p g n : node_ok G V E X L p g n -> level g = 0%nat -> exists l, n = NLeaf l.
Proof. intros [_ _ Hc] Hl. destruct n as [l|i]; [eauto|]. destruct Hc as (lv & _ & _ & Hlv & _). lia. Qed.
Lemma node_inner G V E X L p g n lv : node_ok G V E X L p g n -> level g = S lv -> exists i, n = NInner i /\ inner_content V p g i.
Proof. intros [_ _ Hc] Hl. destruct n as [l|i]; [destruct Hc as [[Hlv _ _ _] _]; lia|eauto]. Qed.

(** *** How high a tree is *)
Lemma family_inhabited V pi lv q B cs : family V pi lv q B cs -> (2 <= length B)%nat -> exists c a b, cs !! 0%nat = Some c /\ V !! c = Some (mkG pi lv a b q).
Proof.
  intros [Hl _ Hc] HB. destruct (lookup_lt_is_Some_2 cs 0) as [c Hcs]; [lia|]. destruct (lookup_lt_is_Some_2 B 0) as [a Ha]; [lia|]. destruct (lookup_lt_is_Some_2 B 1) as [b Hb]; [lia|].
  exists c, a, b. split; [done|]. by eapply Hc.
Qed.
Lemma level_path N G E L : settled N G E L -> forall lv p g, G !! p = Some g -> level g = lv ->
  exists ps, NoDup ps /\ length ps = S lv /\ forall q, q ∈ ps -> exists h, G !! q = Some h /\ (level h <= lv)%nat.
Proof.
  intros Ht. induction lv as [|lv IH]; intros p g Hg Hl.
  - exists [p]. split; [apply NoDup_singleton|]. split; [done|]. intros q ->%list_elem_of_singleton. exists g. split; [done|lia].
  - destruct (tree_node _ _ _ _ _ _ _ _ Ht Hg) as (n & Hn & Hok). destruct (node_inner _ _ _ _ _ _ _ _ _ Hok Hl) as (i & _ & (lv' & ks & cs & Hlv' & _ & Hf)).
    assert (lv' = lv) as -> by lia. destruct (family_inhabited _ _ _ _ _ _ Hf) as (c & a & b & _ & Hc); [simpl; rewrite length_app; simpl; lia|].
    destruct (IH c _ Hc eq_refl) as (ps & Hnd & Hlen & Hin). exists (p :: ps). split; [|split; [simpl; lia|]].
    + apply NoDup_cons. split; [|done]. intros (h & Hh & Hle)%Hin. rewrite Hg in Hh. injection Hh as <-. lia.
    + intros q [->|Hq]%elem_of_cons; [exists g; split; [done|lia]|]. destruct (Hin q Hq) as (h & Hh & Hle). exists h. split; [done|lia].
Qed.
Lemma level_bound N G E L p g : settled N G E L -> G !! p = Some g -> (level g < base.size N)%nat.
Proof.
  intros Ht Hg. destruct (level_path _ _ _ _ Ht _ _ _ Hg eq_refl) as (ps & Hnd & Hlen & Hin).
  rewrite <- size_dom. assert (Hsub : list_to_set (C := gset Z) ps ⊆ dom N).
  { intros q Hq%elem_of_list_to_set. destruct (Hin q Hq) as (h & Hh & _). apply elem_of_dom, (to_dom _ _ _ _ _ _ Ht). eauto. }
  apply subseteq_size in Hsub. rewrite size_list_to_set in Hsub by done. lia.
Qed.

(** ** Reading nodes *)
Lemma run_node s p n : mnodes s !! p = Some n -> get_node p s = Ok (n, s).
Proof. intros H. unfold get_node. by rewrite H. Qed.
Lemma run_leaf s p l : mnodes s !! p = Some (NLeaf l) -> get_leaf p s = Ok (l, s).
Proof. intros H. unfold get_leaf. by erewrite ST_bind_ok by (by apply run_node). Qed.
Lemma run_inner s p i : mnodes s !! p = Some (NInner i) -> get_inner p s = Ok (i, s).
Proof. intros H. unfold get_inner. by erewrite ST_bind_ok by (by apply run_node). Qed.
Lemma run_version s p n : mnodes s !! p = Some n -> version_of p s = Ok (node_version n, s).
Proof. intros H. unfold version_of. by erewrite ST_bind_ok by (by apply run_node). Qed.
#[export] Hint Resolve run_node run_leaf run_inner run_version : blink.

Section Reading.
Context (s : mass) (G : ghosts) (E : dict) (L : gset Z) (Ht : settled (mnodes s) G E L).
Lemma read_node p g : G !! p = Some g -> p ∉ L -> exists n, mnodes s !! p = Some n /\ node_ok G G E ∅ L p g n
  /\ nb_stable p s = Ok (node_version n, s) /\ nv_isleaf P (node_version n) = leaf_node n /\ nv_deleted P (node_version n) = false
  /\ (lo g = 0 -> has_split P (node_version n) = negb (bool_decide (up g = 0))).
Proof.
  intros Hg HpL. destruct (tree_node _ _ _ _ _ _ _ _ Ht Hg) as (n & Hn & Hok). exists n. split; [done|]. split; [done|].
  destruct (nk_ver _ _ _ _ _ _ _ _ Hok) as (rt & Hv & Hrt). rewrite bool_decide_eq_false_2 in Hv by done. split_and!.
  - unfold nb_stable. erewrite ST_bind_ok by (by apply run_version). by rewrite (ver_stable Hv).
  - apply (ver_isleaf Hv).
  - apply (ver_not_deleted Hv).
  - intros Hlo. rewrite (ver_has_split Hv) by done. by rewrite Hrt by set_solver.
Qed.
Context (H : nat) (HH : forall p g, G !! p = Some g -> (level g < H)%nat).
Definition unlocked_layer (pi : list Z) : Prop := forall q h, G !! q = Some h -> layer h = pi -> q ∉ L.
Lemma unsplit_ancestor_ok fuel : forall p g, G !! p = Some g -> unlocked_layer (layer g) -> lo g = 0 -> (H - level g <= fuel)%nat ->
  exists q h, unsplit_ancestor fuel p s = Ok (q, s) /\ G !! q = Some h /\ layer h = layer g /\ lo h = 0 /\ hi h = 2 ^ 64 /\ up h = 0.
Proof.
  induction fuel as [|fuel IH]; intros p g Hg HL Hlo Hf; [specialize (HH p g Hg); lia|].
  destruct (read_node p g Hg (HL p g Hg eq_refl)) as (n & Hn & Hok & _ & _ & _ & Hs). cbn [unsplit_ancestor]. erewrite ST_bind_ok by (by apply run_node).
  rewrite Hs, (nk_up _ _ _ _ _ _ _ _ Hok) by done. pose proof (to_up _ _ _ _ _ _ Ht p g Hg) as Hup. case_decide as Hu.
  - rewrite bool_decide_eq_true_2 by done. cbn [negb andb]. exists p, g. by destruct Hup.
  - rewrite bool_decide_eq_false_2 by done. rewrite (proj2 (Z.eqb_neq _ _) Hu). cbn [negb andb]. destruct Hup as (h & Hh & Hla & Hlv & Hlo' & _).
    pose proof (to_span _ _ _ _ _ _ Ht _ _ Hh). rewrite <- Hla in HL. destruct (IH (up g) h Hh HL ltac:(lia) ltac:(lia)) as (q & h' & Hrun & Hq & Hl & Hr). exists q, h'. split; [done|]. split; [done|]. by rewrite Hl.
Qed.
Definition is_top (pi : list Z) (p : Z) (n : node) : Prop :=
  mnodes s !! p = Some n /\ exists g, G !! p = Some g /\ layer g = pi /\ lo g = 0 /\ hi g = 2 ^ 64.
Lemma reach_root_ok fuel p g : L = ∅ -> G !! p = Some g -> lo g = 0 -> (H + 2 <= fuel)%nat ->
  exists q n, reach_root fuel p s = Ok ((q, node_version n), s) /\ is_top (layer g) q n.
Proof.
  intros HL Hg Hlo Hf. assert (Hno : forall q, q ∉ L) by (rewrite HL; set_solver). assert (Htop : forall fuel q h, (1 <= fuel)%nat -> G !! q = Some h -> lo h = 0 -> up h = 0 ->
    exists n, reach_root fuel q s = Ok ((q, node_version n), s) /\ mnodes s !! q = Some n).
  { intros [|fuel'] q h Hf' Hq Hlq Huq; [lia|]. destruct (read_node q h Hq (Hno _)) as (n & Hn & _ & Hst & _ & _ & Hs). exists n. cbn [reach_root].
    erewrite ST_bind_ok by exact Hst. rewrite Hs by done. rewrite bool_decide_eq_true_2 by done. done. }
  destruct (decide (up g = 0)) as [Hu|Hu].
  - destruct (Htop fuel p g ltac:(lia) Hg Hlo Hu) as (n & Hrun & Hn). exists p, n. split; [done|]. split; [done|]. exists g. pose proof (to_up _ _ _ _ _ _ Ht p g Hg) as Hup. rewrite decide_True in Hup by done. naive_solver.
  - destruct fuel as [|fuel]; [lia|]. destruct (unsplit_ancestor_ok fuel p g Hg ltac:(by intros ? ? _ _) Hlo ltac:(lia)) as (q & h & Hrun & Hq & Hl & Hlq & Hhq & Huq).
    destruct (Htop fuel q h ltac:(lia) Hq Hlq Huq) as (n & Hrun' & Hn). exists q, n. split; [|split; [done|by exists h]]. cbn [reach_root].
    destruct (read_node p g Hg (Hno _)) as (n' & _ & _ & Hst & _ & _ & Hs). erewrite ST_bind_ok by exact Hst. rewrite Hs by done. rewrite bool_decide_eq_false_2 by done. cbn [negb].
    by erewrite ST_bind_ok by exact Hrun.
Qed.
End Reading.

(** *** The child to follow *)
Lemma internode_upper_ok i ks cs x : inner_arrays i ks cs -> ksorted ks ->
  exists j, internode_upper x i = Ok (Z.of_nat j) /\ (j <= length ks)%nat /\ (forall m k, ks !! m = Some k -> (m < j)%nat -> k <= x) /\ (forall m k, ks !! m = Some k -> (j <= m)%nat -> x < k).
Proof.
  intros (kt & ct & Hk & _ & Hl & _ & Hn) Hs. set (c := fun p => compare x (i_ikey0_ i !!! Z.to_nat p)).
  assert (Hlen : (length ks <= 15)%nat) by (rewrite Hk, length_app in Hl; lia).
  assert (Hc : forall m k, ks !! m = Some k -> c (Z.of_nat m) = Z.sgn (x - k)).
  { intros m k Hm. unfold c. rewrite compare_sgn, Nat2Z.id. do 2 f_equal. apply list_lookup_total_correct. rewrite Hk. by apply lookup_app_l_Some. }
  assert (Hks : keys_sorted (identity_kpermuter (nkeys_ i)) c).
  { intros a b Ha Hb. cbn [kp_size kp_at] in *. rewrite Hn in *. destruct (lookup_lt_is_Some_2 ks (Z.to_nat a)) as [ka Hka]; [lia|]. destruct (lookup_lt_is_Some_2 ks (Z.to_nat b)) as [kb Hkb]; [lia|].
    pose proof (ksorted_lookup ks (Z.to_nat a) (Z.to_nat b) ka kb Hs ltac:(lia) Hka Hkb). pose proof (Hc _ _ Hka) as Ea. pose proof (Hc _ _ Hkb) as Eb. rewrite Z2Nat.id in Ea, Eb by lia. rewrite Ea, Eb.
    intros. rewrite Z.sgn_neg; [lia|]. destruct (Z.sgn_spec (x - ka)) as [[? E1]|[[? E1]|[? E1]]]; rewrite E1 in *; lia. }
  destruct (upper_loop_ok (identity_kpermuter (nkeys_ i)) c Hks search_fuel 0 (nkeys_ i)) as (b & Hrun & Hb).
  1-5: cbn [kp_size]; unfold search_fuel; lia.
  destruct Hb as [Hr Hlo Hhi]. cbn [kp_size kp_at] in *. exists (Z.to_nat b). rewrite Z2Nat.id by lia. split; [exact Hrun|]. split; [lia|]. split.
  - intros m k Hm Hlt. specialize (Hlo (Z.of_nat m) ltac:(lia)). rewrite (Hc _ _ Hm) in Hlo. destruct (Z.sgn_spec (x - k)) as [[? E1]|[[? E1]|[? E1]]]; rewrite E1 in *; lia.
  - intros m k Hm Hge. pose proof (lookup_lt_Some _ _ _ Hm). specialize (Hhi (Z.of_nat m) ltac:(lia)). rewrite (Hc _ _ Hm) in Hhi. destruct (Z.sgn_spec (x - k)) as [[? E1]|[[? E1]|[? E1]]]; rewrite E1 in *; lia.
Qed.
Lemma child_to_follow V pi lv q l ks h cs i x : inner_arrays i ks cs -> family V pi lv q (l :: ks ++ [h]) cs -> l <= x < h ->
  exists j c a b, internode_upper x i = Ok (Z.of_nat j) /\ cs !! j = Some c /\ (l :: ks ++ [h]) !! j = Some a /\ (l :: ks ++ [h]) !! S j = Some b /\ a <= x < b.
Proof.
  intros Ha [Hl Hs _] Hx. apply StronglySorted_cons in Hs as [_ Hs]. apply ksorted_app in Hs as (Hs & _ & _).
  destruct (internode_upper_ok i ks cs x Ha Hs) as (j & Hrun & Hj & Hlo & Hhi). exists j. simpl in Hl. rewrite length_app in Hl. simpl in Hl.
  destruct (lookup_lt_is_Some_2 cs j) as [c Hc]; [lia|]. exists c. assert (Ea : exists a, (l :: ks ++ [h]) !! j = Some a /\ a <= x).
  { destruct j as [|j]; [exists l; split; [done|lia]|]. destruct (lookup_lt_is_Some_2 ks j) as [k Hk]; [lia|]. exists k. split; [|apply (Hlo j); done || lia]. simpl. by apply lookup_app_l_Some. }
  assert (Eb : exists b, (l :: ks ++ [h]) !! S j = Some b /\ x < b).
  { simpl. destruct (decide (j < length ks)%nat) as [Hlt|Hge].
    - destruct (lookup_lt_is_Some_2 ks j Hlt) as [k Hk]. exists k. split; [by apply lookup_app_l_Some|apply (Hhi j); done || lia].
    - exists h. split; [|lia]. rewrite lookup_app_r by lia. by replace (j - length ks)%nat with 0%nat by lia. }
  destruct Ea as (a & Ea & ?), Eb as (b & Eb & ?). exists a, b. done.
Qed.
Section Descent.
Context (s : mass) (G : ghosts) (E : dict) (Ht : settled (mnodes s) G E ∅).
Context (H : nat) (HH : forall p g, G !! p = Some g -> (level g < H)%nat).
(** The leaf of a layer that is responsible for a slice. *)
Definition leaf_for (pi : list Z) (x : Z) (p : Z) (g : ghost) (l : leaf) : Prop :=
  G !! p = Some g /\ mnodes s !! p = Some (NLeaf l) /\ layer g = pi /\ level g = 0%nat /\ covers g x.
Lemma reach_loop_ok root ka fuel : forall lv p g n, G !! p = Some g -> level g = lv -> mnodes s !! p = Some n -> covers g (ikey0 ka) -> (lv < fuel)%nat ->
  exists q h l, reach_loop fuel root ka p (node_version n) s = Ok ((q, l_version l), s) /\ leaf_for (layer g) (ikey0 ka) q h l.
Proof.
  induction fuel as [|fuel IH]; intros lv p g n Hg Hlv Hn Hx Hf; [lia|]. cbn [reach_loop].
  destruct (read_node s G E ∅ Ht p g Hg ltac:(set_solver)) as (n' & Hn' & Hok & _ & Hlf & _). assert (n' = n) as -> by congruence. rewrite Hlf. destruct lv as [|lv].
  - destruct (node_leaf _ _ _ _ _ _ _ _ Hok Hlv) as [l ->]. exists p, g, l. done.
  - destruct (node_inner _ _ _ _ _ _ _ _ _ Hok Hlv) as (i & -> & (lv' & ks & cs & Hlv' & Ha & Hfam)). assert (lv' = lv) as -> by lia. cbn [leaf_node].
    destruct (child_to_follow _ _ _ _ _ _ _ _ _ _ Ha Hfam Hx) as (j & c & a & b & Hup & Hc & Hja & Hjb & Hab).
    pose proof (fm_child _ _ _ _ _ _ Hfam j c a b Hc Hja Hjb) as Hgc. erewrite ST_bind_ok by (by apply run_inner). erewrite ST_bind_ok by (apply lift_ok; exact Hup).
    pose proof Ha as (kt & ct & _ & Hch & _ & _ & _). erewrite ST_bind_ok by (apply lift_ok, array_get_lookup; rewrite Hch; by apply lookup_app_l_Some).
    pose proof (to_addr _ _ _ _ _ _ Ht c ltac:(eauto)) as [Hc0 _]. rewrite (proj2 (Z.eqb_neq c 0)) by lia.
    destruct (read_node s G E ∅ Ht c _ Hgc ltac:(set_solver)) as (nc & Hnc & Hokc & Hst & _). erewrite ST_bind_ok by exact Hst. unfold changed. rewrite (ST_bind_ok (a := has_changed P (i_version i) (i_version i)) (s' := s)) by (by erewrite ST_bind_ok by (by apply run_version)).
    rewrite (proj1 (unchanged _)). cbn [negb]. destruct (IH lv c _ nc Hgc eq_refl Hnc Hab ltac:(lia)) as (q & h & l & Hrun & Hres). exists q, h, l. split; [exact Hrun|exact Hres].
Qed.
Lemma reach_leaf_ok root ka fuel g : G !! root = Some g -> lo g = 0 -> 0 <= ikey0 ka < 2 ^ 64 -> (H + 2 <= fuel)%nat ->
  exists q h l, reach_leaf fuel root ka s = Ok ((q, l_version l), s) /\ leaf_for (layer g) (ikey0 ka) q h l.
Proof.
  intros Hg Hlo Hx Hf. destruct (reach_root_ok s G E ∅ Ht H HH fuel root g eq_refl Hg Hlo Hf) as (q & n & Hrun & Hn & h & Hh & Hl & Hlh & Hhh).
  destruct (reach_loop_ok root ka fuel (level h) q h n Hh eq_refl Hn) as (q' & h' & l & Hrun' & Hres); [unfold covers; lia|specialize (HH q h Hh); lia|].
  exists q', h', l. rewrite Hl in Hres. split; [|done]. unfold reach_leaf. by erewrite ST_bind_ok by exact Hrun.
Qed.
End Descent.
