(* ===== verification/MassDict.v ===== *)
(** * The entries of a Masstree and the strings they stand for

    An entry of a layer is a slice and a length with a row, and the rest of a longer key, or a
    link to the next layer.  [found] follows a string through the layers; the changes an
    insertion makes to the entries are changes of one string. *)

From S2P Require Import Prelude Permuter KSearch NodeVersion MassKey MassBag MassNode MassTree MassLeaf MassSplit MassInv.

Inductive found (E : dict) : list Z -> list Z -> Z -> Prop :=
  | found_here pi t r : E !! (pi, akey_of t) = Some (CVal (drop 8 t) r) -> found E pi t r
  | found_below pi t link r : E !! (pi, akey_of t) = Some (CLayer link) -> found E (pi ++ [slice_of t]) (drop 8 t) r -> found E pi t r.
(** [reach E pi0 s0 pi s]: the string [s0], looked up in the layer [pi0], gets to the layer
    [pi] with [s] left of it. *)
Inductive reach (E : dict) : list Z -> list Z -> list Z -> list Z -> Prop :=
  | reach_refl pi s : reach E pi s pi s
  | reach_step pi s link pi' s' : E !! (pi, akey_of s) = Some (CLayer link) -> reach E (pi ++ [slice_of s]) (drop 8 s) pi' s' -> reach E pi s pi' s'.
Definition links_long (E : dict) : Prop := forall pi k r, E !! (pi, k) = Some (CLayer r) -> k.2 = 9.

Lemma same_string a b : Forall byte_ok a -> Forall byte_ok b -> akey_of a = akey_of b -> drop 8 a = drop 8 b -> a = b.
Proof.
  intros Ha Hb Hk Hd. destruct (decide (length a <= 8)%nat) as [Hs|Hl]; [by apply akey_short|].
  destruct (akey_long a b Ha Hb ltac:(lia) Hk) as [_ Ht]. rewrite <- (take_drop 8 a), <- (take_drop 8 b). by rewrite Ht, Hd.
Qed.
Lemma akey_slice a b : (akey_of a).2 = 9 -> (akey_of b).2 = 9 -> slice_of a = slice_of b -> akey_of a = akey_of b.
Proof. unfold akey_of. simpl. intros -> -> ->. done. Qed.
Lemma found_local E E' pi t r : (forall pi' k, pi `prefix_of` pi' -> E' !! (pi', k) = E !! (pi', k)) -> found E pi t r -> found E' pi t r.
Proof.
  intros Hsame Hf. induction Hf as [pi t r He|pi t link r He Hf IH].
  - apply found_here. by rewrite Hsame.
  - apply (found_below _ _ _ link); [by rewrite Hsame|]. apply IH. intros pi' k Hp. apply Hsame. etrans; [|exact Hp]. by apply prefix_app_r.
Qed.
Lemma reach_prefix E pi0 s0 pi s : reach E pi0 s0 pi s -> pi0 `prefix_of` pi.
Proof. induction 1 as [|pi0 s0 link pi s He Hr IH]; [done|]. etrans; [|exact IH]. by apply prefix_app_r. Qed.
Lemma reach_snoc E pi0 s0 pi s link : reach E pi0 s0 pi s -> E !! (pi, akey_of s) = Some (CLayer link) -> reach E pi0 s0 (pi ++ [slice_of s]) (drop 8 s).
Proof. induction 1 as [|pi0 s0 link0 pi s He Hr IH]; intros Hl; eapply reach_step; eauto using reach_refl. Qed.
Lemma prefix_snoc_not {A} (l : list A) x : ~ (l ++ [x]) `prefix_of` l.
Proof. intros [z Hz%(f_equal length)]. rewrite !length_app in Hz. simpl in Hz. lia. Qed.

(** One entry for one string. *)
Section Insert.
Context (E : dict) (HE : links_long E) (r : Z).
#[local] Abbreviation with_entry pi s := (<[(pi, akey_of s) := CVal (drop 8 s) r]> E).
Lemma insert_above pi s pi0 : ~ pi0 `prefix_of` pi -> forall t r', found (with_entry pi s) pi0 t r' <-> found E pi0 t r'.
Proof. intros Hn t r'. split; apply found_local; intros pi' k Hp; rewrite lookup_insert_ne; try done; intros [= <- _]; done. Qed.
Lemma found_insert pi0 s0 pi s : reach E pi0 s0 pi s -> E !! (pi, akey_of s) = None \/ (exists r0, E !! (pi, akey_of s) = Some (CVal (drop 8 s) r0)) ->
  Forall byte_ok s0 -> forall t r', Forall byte_ok t -> found (with_entry pi s) pi0 t r' <-> (t = s0 /\ r' = r) \/ (t <> s0 /\ found E pi0 t r').
Proof.
  induction 1 as [pi s|pi0 s0 link pi s He Hr IH]; intros Hold Hs0 t r' Ht.
  - destruct (decide (akey_of t = akey_of s)) as [Hk|Hk].
    + split.
      * intros Hf. left. inversion Hf as [? ? ? He|? ? ? ? He]; subst; rewrite Hk, lookup_insert_eq in He; [|done]. injection He as Hd <-. split; [|done]. by apply same_string.
      * intros [[-> ->]|[Hne Hf]]; [apply found_here; by rewrite lookup_insert_eq|exfalso]. destruct Hold as [Ho|[r0 Ho]]; inversion Hf as [? ? ? He|? ? ? ? He]; subst; rewrite Hk, Ho in He; try done.
        injection He as Hd _. apply Hne. by apply same_string.
    + assert (Hl : with_entry pi s !! (pi, akey_of t) = E !! (pi, akey_of t)) by (apply lookup_insert_ne; congruence). assert (Hn : ~ (pi ++ [slice_of t]) `prefix_of` pi) by apply prefix_snoc_not.
      assert (t <> s) by congruence. split.
      * intros Hf. right. split; [done|]. inversion Hf as [? ? ? He|? ? link ? He Hf']; subst; rewrite Hl in He; [by apply found_here|]. apply (found_below _ _ _ link); [done|]. by apply insert_above in Hf'.
      * intros [[-> _]|[_ Hf]]; [done|]. inversion Hf as [? ? ? He|? ? link ? He Hf']; subst; [apply found_here; by rewrite Hl|]. apply (found_below _ _ _ link); [by rewrite Hl|]. by apply insert_above.
  - specialize (IH Hold (Forall_drop _ _ _ Hs0)). pose proof (reach_prefix _ _ _ _ _ Hr) as Hpre. pose proof (HE _ _ _ He) as H9.
    assert (Hne : forall k, (pi0, k) <> (pi, akey_of s)) by (intros k [= -> _]; by apply prefix_snoc_not in Hpre).
    assert (Hl : with_entry pi s !! (pi0, akey_of t) = E !! (pi0, akey_of t)) by (apply lookup_insert_ne; congruence). destruct (decide (akey_of t = akey_of s0)) as [Hk|Hk].
    + assert (slice_of t = slice_of s0) as Hsl by (by injection Hk). specialize (IH (drop 8 t) r' (Forall_drop _ _ _ Ht)).
      assert (Hiff : forall X, X !! (pi0, akey_of t) = E !! (pi0, akey_of t) -> found X pi0 t r' <-> found X (pi0 ++ [slice_of s0]) (drop 8 t) r').
      { intros X HX. rewrite Hk, He in HX. split; [|intros Hf; apply (found_below _ _ _ link); [by rewrite Hk|by rewrite Hsl]].
        intros Hf. inversion Hf as [? ? ? He'|? ? ? ? He' Hf']; subst; rewrite Hk, HX in He'; [done|]. by rewrite Hsl in Hf'. }
      rewrite (Hiff (with_entry pi s) Hl), (Hiff E eq_refl), IH. assert (drop 8 t = drop 8 s0 <-> t = s0) as Hd by (split; [intros; by apply same_string|by intros ->]). by rewrite Hd.
    + assert (t <> s0) by congruence. assert (Habove : forall link', E !! (pi0, akey_of t) = Some (CLayer link') -> ~ (pi0 ++ [slice_of t]) `prefix_of` pi).
      { intros link' Hlt Hp. destruct Hp as [z1 Hz1], Hpre as [z2 Hz2]. rewrite Hz1 in Hz2. rewrite <- !app_assoc in Hz2. apply app_inv_head in Hz2. injection Hz2 as Hsl _. apply Hk. apply akey_slice; [by eapply HE|done|done]. }
      split.
      * intros Hf. right. split; [done|]. inversion Hf as [? ? ? He'|? ? link' ? He' Hf']; subst; rewrite Hl in He'; [by apply found_here|]. apply (found_below _ _ _ link'); [done|]. by apply insert_above in Hf'; [|eapply Habove].
      * intros [[-> _]|[_ Hf]]; [done|]. inversion Hf as [? ? ? He'|? ? link' ? He' Hf']; subst; [apply found_here; by rewrite Hl|]. apply (found_below _ _ _ link'); [by rewrite Hl|]. by apply insert_above; [eapply Habove|].
Qed.
End Insert.

(** A new layer for a value with a suffix. *)
Definition deepen (E : dict) (pi : list Z) (x : Z) (suf : list Z) (r link : Z) : dict :=
  <[(pi, (x, 9)) := CLayer link]> (<[(pi ++ [x], akey_of suf) := CVal (drop 8 suf) r]> E).
Section Deepen.
Context (E : dict) (HE : links_long E) (pi : list Z) (x : Z) (suf : list Z) (r link : Z).
Context (Hval : E !! (pi, (x, 9)) = Some (CVal suf r)) (Hnew : forall pi' k, (pi ++ [x]) `prefix_of` pi' -> E !! (pi', k) = None) (Hsuf : Forall byte_ok suf).
#[local] Abbreviation E1 := (deepen E pi x suf r link).
Lemma snoc_ne : pi ++ [x] <> pi.
Proof. intros He%(f_equal length). rewrite length_app in He. simpl in He. lia. Qed.
Lemma deepen_link : E1 !! (pi, (x, 9)) = Some (CLayer link).
Proof. apply lookup_insert_eq. Qed.
Lemma deepen_value : E1 !! (pi ++ [x], akey_of suf) = Some (CVal (drop 8 suf) r).
Proof. unfold deepen. rewrite lookup_insert_ne by (intros [= H _]; by apply eq_sym, snoc_ne in H). apply lookup_insert_eq. Qed.
Lemma deepen_other pi' k : (pi', k) <> (pi, (x, 9)) -> pi' <> pi ++ [x] -> E1 !! (pi', k) = E !! (pi', k).
Proof. intros H1 H2. unfold deepen. rewrite !lookup_insert_ne; [done|intros [= <- _]; done|done]. Qed.
Lemma deepen_new k c : E1 !! (pi ++ [x], k) = Some c -> k = akey_of suf /\ c = CVal (drop 8 suf) r.
Proof.
  intros H. destruct (decide (k = akey_of suf)) as [->|Hne]; [rewrite deepen_value in H; by injection H as <-|]. unfold deepen in H.
  rewrite !lookup_insert_ne in H; [by rewrite Hnew in H|intros [= ?]; done|intros [= Hs _]; by apply eq_sym, snoc_ne in Hs].
Qed.
Lemma deepen_below pi' k : (pi ++ [x]) `prefix_of` pi' -> pi' <> pi ++ [x] -> E1 !! (pi', k) = None.
Proof. intros Hp Hne. rewrite deepen_other; [by apply Hnew| |done]. intros [= -> _]. by apply prefix_snoc_not in Hp. Qed.
Lemma found_new_layer t r' : Forall byte_ok t -> found E1 (pi ++ [x]) t r' <-> t = suf /\ r' = r.
Proof.
  intros Ht. split; [|intros [-> ->]; apply found_here, deepen_value].
  intros Hf. inversion Hf as [? ? ? He|? ? ? ? He]; subst; apply deepen_new in He as [Hk He]; [|done]. injection He as Hd ->. split; [|done]. by apply same_string.
Qed.
Lemma descend_outside pi0 t : ~ (pi ++ [x]) `prefix_of` pi0 -> (akey_of t).2 = 9 -> (pi0, akey_of t) <> (pi, (x, 9)) -> ~ (pi ++ [x]) `prefix_of` (pi0 ++ [slice_of t]).
Proof.
  intros Hn H9 Hne [z Hz]. destruct z as [|y z] using rev_ind.
  - rewrite app_nil_r in Hz. apply app_inj_tail in Hz as [-> Hx]. apply Hne. f_equal. unfold akey_of in *. simpl in H9. by rewrite H9, Hx.
  - rewrite app_assoc in Hz. apply app_inj_tail in Hz as [-> _]. apply Hn. by exists z.
Qed.
Lemma found_deepen pi0 t r' : Forall byte_ok t -> ~ (pi ++ [x]) `prefix_of` pi0 -> found E1 pi0 t r' <-> found E pi0 t r'.
Proof.
  intros Ht Hn. split; intros Hf.
  - revert Ht Hn. induction Hf as [pi0 t r' He|pi0 t link' r' He Hf IH]; intros Ht Hn.
    + apply found_here. rewrite deepen_other in He; [done| |intros ->; by apply Hn]. intros Heq. by rewrite Heq, deepen_link in He.
    + destruct (decide ((pi0, akey_of t) = (pi, (x, 9)))) as [Heq|Hne].
      * apply pair_equal_spec in Heq as [-> Hk]. assert (slice_of t = x) as Hx by (by unfold akey_of in Hk; injection Hk). rewrite Hx in Hf. apply found_new_layer in Hf as [Hd ->]; [|by apply Forall_drop].
        apply found_here. by rewrite Hk, Hval, Hd.
      * rewrite deepen_other in He; [|done|intros ->; by apply Hn]. apply (found_below _ _ _ link'); [done|]. apply IH; [by apply Forall_drop|]. apply descend_outside; try done. by apply HE in He.
  - revert Ht Hn. induction Hf as [pi0 t r' He|pi0 t link' r' He Hf IH]; intros Ht Hn.
    + destruct (decide ((pi0, akey_of t) = (pi, (x, 9)))) as [Heq|Hne]; [|apply found_here; rewrite deepen_other; [done|done|intros ->; by apply Hn]].
      apply pair_equal_spec in Heq as [-> Hk]. rewrite Hk, Hval in He. injection He as Hd <-. apply (found_below _ _ _ link); [rewrite Hk; apply deepen_link|].
      assert (slice_of t = x) as -> by (by unfold akey_of in Hk; injection Hk). apply found_new_layer; [by apply Forall_drop|done].
    + assert (Hne : (pi0, akey_of t) <> (pi, (x, 9))) by (intros Heq; by rewrite Heq, Hval in He).
      apply (found_below _ _ _ link'); [rewrite deepen_other; [done|done|intros ->; by apply Hn]|]. apply IH; [by apply Forall_drop|]. apply descend_outside; try done. by apply HE in He.
Qed.
End Deepen.
(** Another link to the same layer. *)
Lemma found_relink E pi k r0 r1 pi0 t r : E !! (pi, k) = Some (CLayer r0) -> found (<[(pi, k) := CLayer r1]> E) pi0 t r <-> found E pi0 t r.
Proof.
  intros Hl. assert (Hgo : forall E E' : dict, (forall a c, E !! a = Some c -> match c with CVal _ _ => E' !! a = Some c | CLayer _ => exists link, E' !! a = Some (CLayer link) end) -> forall pi0 t r, found E pi0 t r -> found E' pi0 t r).
  { intros X X' HX pi1 t1 r2 Hf. induction Hf as [? ? ? He|? ? ? ? He Hf IH]; [apply found_here; by apply HX in He|]. apply HX in He as [link2 He]. by eapply found_below. }
  split; apply Hgo; intros a c Ha; destruct (decide (a = (pi, k))) as [->|Hne]; rewrite ?lookup_insert_eq, ?lookup_insert_ne in * by done.
  - injection Ha as <-. eauto.
  - destruct c; eauto.
  - rewrite Hl in Ha. injection Ha as <-. eauto.
  - destruct c; eauto.
Qed.
