(* ===== verification/MassGet.v ===== *)
(** * Lookups in a Masstree

    The index as a map from byte strings to values, and [get] on it. *)

From S2P Require Import Prelude Permuter KSearch NodeVersion MassKey MassBag MassNode MassTree MassLeaf MassSplit MassInv MassDict.
#[local] Abbreviation P := nodeversion32_parameters.

(** ** The index as a map *)
Record mass_ok (s : mass) (G : ghosts) (E : dict) (L : gset Z) : Prop := {
  ms_tree : settled (mnodes s) G E L;
  ms_root : exists g, G !! mroot s = Some g /\ layer g = [] /\ lo g = 0;
  ms_brk : 0 < mbrk s /\ mbrk s mod 64 = 0;
  ms_fresh p : mbrk s <= p -> mnodes s !! p = None /\ mrows s !! p = None;
  ms_rows pi k suf r : E !! (pi, k) = Some (CVal suf r) -> exists row v, mrows s !! r = Some row /\ row_col row 0 = Ok v;
  ms_inj a b suf suf' r : E !! a = Some (CVal suf r) -> E !! b = Some (CVal suf' r) -> a = b }.
Definition stands (s : mass) (E : dict) (M : gmap (list Z) (list Z)) : Prop := forall str v,
  M !! str = Some v <-> Forall byte_ok str /\ exists r row, found E [] str r /\ mrows s !! r = Some row /\ row_col row 0 = Ok v.
(** A Masstree that nobody has locked, and the map it stands for. *)
Definition masstree (s : mass) (M : gmap (list Z) (list Z)) : Prop := exists G E, mass_ok s G E ∅ /\ stands s E M.

Lemma settled_links N G V E X L : tree_ok N G V E X L -> links_long E.
Proof. intros Ht pi k r Hl. by apply (to_link _ _ _ _ _ _ Ht) in Hl as [? _]. Qed.
Lemma found_fun E pi t r r' : found E pi t r -> found E pi t r' -> r = r'.
Proof. intros Hf. induction Hf as [? ? ? He|? ? ? ? He Hf IH]; intros Hf'; inversion Hf' as [? ? ? He'|? ? ? ? He' Hf'']; subst; rewrite He in He'; simplify_eq; [done|by apply IH]. Qed.
Lemma found_entry E pi t r : found E pi t r -> exists pi' k suf, E !! (pi', k) = Some (CVal suf r).
Proof. induction 1; eauto. Qed.

(** ** Reading a slot *)
Lemma slot_read l p ka str : leaf_ok l -> p ∈ live l -> slot_key l p = akey_of str -> key_repr 7 ka str ->
  exists c kl v, slot_content l p = Some c /\ holds l (akey_of str) c /\ array_get (keylenx_ l) p = Ok kl /\ array_get (lv_ l) p = Ok v
    /\ match c with
       | CLayer n => v = LvLayer n /\ keylenx_is_layer kl = true /\ ksuf_equals l p ka kl = Ok true
       | CVal suf r => v = LvValue r /\ keylenx_is_layer kl = false /\ ksuf_equals l p ka kl = Ok (bool_decide (suf = drop 8 str))
       end.
Proof.
  intros Hl Hp Hk Hka. pose proof (lo_slots _ Hl p Hp) as Hok. pose proof (so_range _ _ Hok) as Hr. destruct (so_content _ _ Hok) as [c Hc].
  destruct (lookup_lt_is_Some_2 (lv_ l) (Z.to_nat p)) as [v Hv]; [rewrite (sh_lv _ (lo_shape _ Hl)); lia|].
  exists c, (slot_keylenx l p), v. split; [done|]. split; [by exists p|]. split; [apply keylenx_get; [apply Hl|done]|].
  split; [unfold array_get; rewrite decide_True by lia; by rewrite Hv|]. unfold slot_content in Hc. rewrite Hv in Hc. unfold ksuf_equals.
  destruct v as [r|n], (keylenx_is_layer (slot_keylenx l p)) eqn:Hlay; try done; injection Hc as <-.
  - split; [done|]. split; [done|]. destruct (keylenx_has_ksuf (slot_keylenx l p)) eqn:H9; cbn [negb].
    + apply Z.eqb_eq in H9. destruct (so_suffix _ _ Hok H9) as [Hlen Hpr]. destruct (leaf_bag_ok l (sh_bags _ (lo_shape _ Hl)) Hpr) as (T & HT & Hb).
      assert (Hlong : (8 < length str)%nat) by (unfold slot_key, akey_of, norm_len in Hk; injection Hk as _ Hk; rewrite H9 in Hk; lia).
      destruct (key_repr_suffix 7 ka str ltac:(lia) Hka Hlong) as (_ & -> & Hsuf). pose proof (kr_room _ _ _ Hka). pose proof (kr_len _ _ _ Hka). pose proof (kr_start _ _ _ Hka).
      rewrite (bag_equals_sloppy_ok T HT 15 _ Hb) by (apply Hka || lia). rewrite Hsuf. f_equal. by apply bool_decide_ext.
    + f_equal. symmetry. apply bool_decide_eq_true. apply Z.eqb_neq in H9. rewrite drop_ge; [done|]. unfold keylenx_is_layer in Hlay. apply Z.ltb_ge in Hlay.
      destruct (so_len _ _ Hok) as [?|He]; [|unfold layer_keylenx in He; lia]. unfold slot_key, akey_of, norm_len in Hk. injection Hk as _ Hk. lia.
  - split; [done|]. split; [done|]. unfold keylenx_is_layer, keylenx_has_ksuf in *. apply Z.ltb_lt in Hlay. destruct (Z.eqb_spec (slot_keylenx l p) (8 + 1)); [lia|done].
Qed.
(** A search in the leaf that is responsible for a key. *)
Lemma leaf_lookup E L p g l ka str : leaf_content E L p g l -> key_repr 7 ka str -> covers g (slice_of str) ->
  exists A B, search_split l (akey_of str) A B /\ leaf_lower_with_position ka l = Ok (Z.of_nat (length A), found_slot l (akey_of str) B)
    /\ lower_bound_binary ka l (permutation_ l) = Ok (found_slot l (akey_of str) B)
    /\ ((found_slot l (akey_of str) B = -1 /\ E !! (layer g, akey_of str) = None /\ forall q, q ∈ live l -> slot_key l q <> akey_of str)
        \/ (0 <= found_slot l (akey_of str) B /\ found_slot l (akey_of str) B ∈ live l /\ slot_key l (found_slot l (akey_of str) B) = akey_of str)).
Proof.
  intros Hlc Hka Hx. pose proof (lc_ok _ _ _ _ _ Hlc) as Hl. destruct (leaf_search l 7 ka str Hl Hka) as (A & B & Hss & Hrun). exists A, B. split; [done|]. split; [done|].
  split; [by eapply binary_search_ok|]. destruct (Z.lt_ge_cases (found_slot l (akey_of str) B) 0) as [Hneg|Hge].
  - left. assert (Hm1 : found_slot l (akey_of str) B = -1).
    { unfold found_slot in *. destruct B as [|q B]; [done|]. case_decide; [|done]. assert (q ∈ live l) as Hq by (rewrite (ss_live _ _ _ _ Hss); set_solver). apply (live_range l q (lo_perm _ Hl)) in Hq. lia. }
    pose proof (search_absent l _ A B Hl Hss Hm1) as Habs. split; [done|]. split; [|done]. destruct (E !! (layer g, akey_of str)) as [c|] eqn:He; [|done]. exfalso.
    destruct (proj2 (lc_holds _ _ _ _ _ Hlc (akey_of str) c)) as (q & Hq & Hk & _); [by split|]. by apply (Habs q).
  - right. split; [done|]. eapply search_found; done.
Qed.

Section Get.
Context (s : mass) (G : ghosts) (E : dict) (Ht : settled (mnodes s) G E ∅) (levels : nat) (Hlv : (base.size (mnodes s) + 2 <= levels)%nat).
Lemma levels_enough p g : G !! p = Some g -> (level g < base.size (mnodes s))%nat.
Proof. intros Hg. by eapply level_bound. Qed.
Lemma find_unlocked_ok fuel : forall root ka str lv g, G !! root = Some g -> lo g = 0 -> key_repr 7 ka str -> (length str < fuel)%nat ->
  exists b v, find_unlocked_loop fuel levels root ka lv None s = Ok ((b, v), s)
    /\ (b = true -> exists r, v = LvValue r /\ found E (layer g) str r) /\ (b = false -> forall r, ~ found E (layer g) str r).
Proof.
  induction fuel as [|fuel IH]; intros root ka str lv g Hg Hlo Hka Hf; [lia|]. cbn [find_unlocked_loop]. pose proof (slice_range str (kr_ok _ _ _ Hka)) as Hsr.
  pose proof (kr_ikey _ _ _ Hka) as Hik. destruct (reach_leaf_ok s G E Ht _ levels_enough root ka levels g Hg Hlo ltac:(lia) Hlv) as (p & h & l & Hrun & Hh & Hn & Hla & Hl0 & Hx).
  erewrite ST_bind_ok by exact Hrun. destruct (read_node s G E ∅ Ht p h Hh ltac:(set_solver)) as (n & Hn' & Hok & _ & _ & Hdel & _). rewrite Hn in Hn'. injection Hn' as <-. cbn [node_version] in Hdel. rewrite Hdel.
  destruct (nk_content _ _ _ _ _ _ _ _ Hok) as [_ Hlc]. specialize (Hlc ltac:(set_solver)). rewrite Hik in Hx. erewrite ST_bind_ok by (by apply run_leaf).
  destruct (leaf_lookup _ _ _ _ _ _ _ Hlc Hka Hx) as (A & B & Hss & _ & Hbin & Hcase). erewrite ST_bind_ok by (apply lift_ok; exact Hbin). rewrite <- Hla.
  assert (Hch : changed p (l_version l) s = Ok (false, s)).
  { unfold changed. erewrite ST_bind_ok by (by apply run_version). cbn [node_version]. by rewrite (proj1 (unchanged _)). }
  destruct Hcase as [(Hm & He & _)|(Hge & Hin & Hk)].
  - rewrite Hm. change (0 <=? -1) with false. cbn iota. erewrite ST_bind_ok by reflexivity. cbn iota beta. erewrite ST_bind_ok by exact Hch. cbn iota. change (-1 <? 0) with true. cbn iota.
    eexists _, _. split; [reflexivity|]. split; [done|]. intros _ r Hf'. inversion Hf' as [? ? ? He'|? ? ? ? He']; subst; by rewrite He in He'.
  - set (kp := found_slot l (akey_of str) B) in *. rewrite (proj2 (Z.leb_le 0 kp)) by lia.
    destruct (slot_read l kp ka str (lc_ok _ _ _ _ _ Hlc) Hin Hk Hka) as (c & kl & v & Hc & Hholds & Hkl & Hv & Hcase). apply (lc_holds _ _ _ _ _ Hlc) in Hholds as [He _].
    assert (exists m, ksuf_equals l kp ka kl = Ok m) as [m Hm] by (destruct c; destruct Hcase as (_ & _ & ->); eauto).
    rewrite (ST_bind_ok (a := (kl, v, m)) (s' := s)).
    2:{ erewrite ST_bind_ok by (apply lift_ok; exact Hkl). erewrite ST_bind_ok by (apply lift_ok; exact Hv). erewrite ST_bind_ok by (apply lift_ok; exact Hm). done. }
    erewrite ST_bind_ok by exact Hch. cbn iota. rewrite (proj2 (Z.ltb_ge kp 0)) by lia. cbn iota. destruct c as [suf r|n]; destruct Hcase as (-> & -> & Hm'); rewrite Hm in Hm'; injection Hm' as ->.
    + cbn iota. eexists _, _. split; [reflexivity|]. split.
      * intros ->%bool_decide_eq_true. exists r. split; [done|]. by apply found_here.
      * intros Hne%bool_decide_eq_false r' Hf'. inversion Hf' as [? ? ? He'|? ? ? ? He']; subst; rewrite He in He'; [|done]. injection He' as Hs' _. done.
    + cbn iota. destruct (to_link _ _ _ _ _ _ Ht _ _ _ He) as [H9 (gn & Hgn & Hlan & Hlon)]. assert (Hlong : (8 < length str)%nat) by (unfold akey_of in H9; simpl in H9; lia).
      destruct (key_repr_shift 7 ka str ltac:(lia) Hka Hlong) as (ka' & Hsh & Hka'). erewrite ST_bind_ok by (apply lift_ok; exact Hsh).
      destruct (IH n ka' (drop 8 str) (LvLayer n) gn Hgn Hlon Hka' ltac:(rewrite length_drop; lia)) as (b & v & Hrun' & Hb1 & Hb2). exists b, v. split; [exact Hrun'|].
      rewrite Hlan in Hb1, Hb2. cbn [fst akey_of] in Hb1, Hb2. split.
      * intros Hb. destruct (Hb1 Hb) as (r & -> & Hfd). exists r. split; [done|]. by eapply found_below.
      * intros Hb r Hf'. specialize (Hb2 Hb r). inversion Hf' as [? ? ? He'|? ? ? ? He' Hf'']; subst; rewrite He in He'; [done|]. by apply Hb2.
Qed.
End Get.

(** ** The root of the table *)
Definition with_root (r : Z) (s : mass) : mass := mkMass (mnodes s) (mrows s) (mbrk s) r (ti_ts s).
Lemma with_root_ok s G E L r g : mass_ok s G E L -> G !! r = Some g -> layer g = [] -> lo g = 0 -> mass_ok (with_root r s) G E L.
Proof. intros [] Hr Hla Hlo. split; try done. by exists g. Qed.
Lemma fix_root_ok s G E levels : mass_ok s G E ∅ -> (base.size (mnodes s) + 2 <= levels)%nat ->
  exists r g, fix_root levels s = Ok (r, with_root r s) /\ G !! r = Some g /\ layer g = [] /\ lo g = 0.
Proof.
  intros Hs Hlv. destruct (ms_root _ _ _ _ Hs) as (g & Hg & Hla & Hlo). pose proof (ms_tree _ _ _ _ Hs) as Ht. destruct (read_node s G E ∅ Ht _ g Hg ltac:(set_solver)) as (n & Hn & _ & _ & _ & _ & Hsp).
  unfold fix_root. erewrite ST_bind_ok by reflexivity. cbv beta. erewrite ST_bind_ok by (by apply run_version). rewrite Hsp by done. case_bool_decide; cbn [negb].
  - exists (mroot s), g. split; [|done]. by destruct s.
  - destruct (unsplit_ancestor_ok s G E ∅ Ht _ (levels_enough s G E Ht) levels _ g Hg ltac:(by intros ? ? _ _; apply not_elem_of_empty) Hlo ltac:(lia)) as (q & h & Hrun & Hq & Hl & Hlq & _). exists q, h. erewrite ST_bind_ok by exact Hrun. split; [done|]. by rewrite Hl.
Qed.
Lemma new_cursor_ok s G E levels mem p len : mass_ok s G E ∅ -> (base.size (mnodes s) + 2 <= levels)%nat -> Forall byte_ok mem -> 0 <= p -> 0 <= len -> p + len + 7 <= Z.of_nat (length mem) ->
  exists r g ka, fix_root levels s = Ok (r, with_root r s) /\ mass_ok (with_root r s) G E ∅ /\ G !! r = Some g /\ layer g = [] /\ lo g = 0
    /\ key_of_string mem p len = Ok ka /\ key_repr 7 ka (string_at mem p len).
Proof.
  intros Hs Hlv Hm Hp Hl Hr. destruct (fix_root_ok s G E levels Hs Hlv) as (r & g & Hrun & Hg & Hla & Hlo). destruct (key_repr_string 7 mem p len ltac:(lia) Hm Hp Hl Hr) as (ka & Hka & Hkr).
  exists r, g, ka. split_and!; try done. by eapply with_root_ok.
Qed.

Lemma mt_get_ok s M mem p len fuel levels : masstree s M -> Forall byte_ok mem -> 0 <= p -> 0 <= len -> p + len + 7 <= Z.of_nat (length mem) ->
  len < Z.of_nat fuel -> (base.size (mnodes s) + 2 <= levels)%nat ->
  exists r, mt_get fuel levels mem p len s = Ok (M !! string_at mem p len, with_root r s) /\ masstree (with_root r s) M.
Proof.
  intros (G & E & Hs & HM) Hm Hp Hl Hr Hf Hlv. destruct (new_cursor_ok s G E levels mem p len Hs Hlv Hm Hp Hl Hr) as (r & g & ka & Hfix & Hs' & Hg & Hla & Hlo & Hka & Hkr).
  exists r. split; [|by exists G, E]. assert (Hstr : Z.of_nat (length (string_at mem p len)) = len) by (rewrite string_at_length; lia).
  destruct (find_unlocked_ok (with_root r s) G E (ms_tree _ _ _ _ Hs') levels Hlv fuel r ka _ lv_make_empty g Hg Hlo Hkr ltac:(lia)) as (b & v & Hrun & Hb1 & Hb2). rewrite Hla in Hb1, Hb2.
  unfold mt_get. rewrite (ST_bind_ok (a := match b, v with true, LvValue x => Some x | _, _ => None end) (s' := with_root r s)).
  2:{ unfold lookup_row. erewrite ST_bind_ok by (apply lift_ok; exact Hka). erewrite ST_bind_ok by exact Hfix. erewrite ST_bind_ok by exact Hrun. destruct b; [|done]. by destruct (Hb1 eq_refl) as (x & -> & _). }
  destruct b.
  - destruct (Hb1 eq_refl) as (x & -> & Hfd). destruct (found_entry _ _ _ _ Hfd) as (pi & k & suf & He). destruct (ms_rows _ _ _ _ Hs _ _ _ _ He) as (row & val & Hrow & Hcol).
    rewrite (ST_bind_ok (a := row) (s' := with_root r s)) by (unfold get_row; cbn [mrows with_root]; by rewrite Hrow). erewrite ST_bind_ok by (apply lift_ok; exact Hcol).
    assert (M !! string_at mem p len = Some val) as ->; [|done]. apply HM. split; [by apply string_at_ok|]. eauto.
  - assert (M !! string_at mem p len = None) as ->; [|done]. apply eq_None_not_Some. intros [val (_ & x & row & Hfd & _)%HM]. by apply (Hb2 eq_refl x).
Qed.
(** C6: [get] of the index, called by one thread on a key that has seven readable bytes behind
    it, terminates without a fault and returns what the map holds for the key, if it holds
    anything; it changes the table at most in the pointer to its root.  The number of nodes
    bounds the loops of the descent, the length of the key those over the layers. *)
Theorem mt_get_correct s M mem p len fuel levels : masstree s M -> Forall byte_ok mem -> 0 <= p -> 0 <= len -> p + len + 7 <= Z.of_nat (length mem) ->
  len < Z.of_nat fuel -> (base.size (mnodes s) + 2 <= levels)%nat ->
  exists r, mt_get fuel levels mem p len s = Ok (M !! string_at mem p len, with_root r s) /\ masstree (with_root r s) M.
Proof. exact (mt_get_ok s M mem p len fuel levels). Qed.
