(* ===== verification/MassWrite.v ===== *)
(** * Writing nodes of a Masstree

    How the invariant of [MassInv] survives the writes of one thread: locking and unlocking a
    node, changing an entry of a leaf, and going to the leaf that an insertion changes. *)

From S2P Require Import Prelude Permuter KSearch NodeVersion MassKey MassBag MassNode MassTree MassLeaf MassSplit MassInv MassDict MassGet.
#[local] Abbreviation P := nodeversion32_parameters.

(** ** Nodes that a step leaves alone *)
Lemma node_ok_transport G V E X L G' V' E' X' L' p g n : node_ok G V E X L p g n -> (p ∈ L <-> p ∈ L') -> (p ∉ X' -> p ∉ X) ->
  (forall q gq, G !! q = Some gq -> level gq = 0%nat -> exists gq', G' !! q = Some gq' /\ layer gq' = layer gq /\ level gq' = 0%nat /\ lo gq' = lo gq) ->
  (forall c gc, V !! c = Some gc -> up gc = p -> V' !! c = Some gc) ->
  (level g = 0%nat -> forall k, covers g k.1 -> E' !! (layer g, k) = E !! (layer g, k)) -> node_ok G' V' E' X' L' p g n.
Proof.
  intros [(rt & Hv & Hrt) Hup Hc] HL HX HG HV HE. split; [|done|].
  - exists rt. rewrite (bool_decide_ext _ _ HL) in Hv. split; [done|]. intros Hp. by apply Hrt, HX.
  - destruct n as [l|i].
    + destruct Hc as [[Hlv Hm Hpr Hnx] Hlc]. split.
      * split; try done. destruct Hnx as [?|(gq & Hq & H1 & H2 & H3)]; [by left|]. right. destruct (HG _ _ Hq H2) as (gq' & Hq' & ? & ? & ?). exists gq'. split_and!; congruence.
      * intros Hp. destruct (Hlc (HX Hp)) as [Hok Hh Hf]. split; [done| |].
        -- intros k c. rewrite Hh. split; intros [He Hcv]; (split; [|done]); [by rewrite HE|by rewrite <- HE].
        -- intros Hlo. destruct (Hf Hlo) as [? [?|[? ?]]]; (split; [done|]); [by left|right; split; [by apply HL|done]].
    + destruct Hc as (lv & ks & cs & Hlv & Ha & [Hl Hs Hch]). exists lv, ks, cs. split; [done|]. split; [done|]. split; [done|done|].
      intros j c a b Hc Ha' Hb. apply HV; [by eapply Hch|done].
Qed.
(** A change of at most one entry that the node with the ghost [g] is responsible for. *)
Definition entry_change (V : ghosts) (g : ghost) (E E' : dict) : Prop :=
  E' = E \/ exists k c, level g = 0%nat /\ covers g k.1 /\ E' = <[(layer g, k) := c]> E /\
    match c with
    | CVal _ _ => forall r, E !! (layer g, k) <> Some (CLayer r)
    | CLayer r => k.2 = 9 /\ exists gr, V !! r = Some gr /\ layer gr = layer g ++ [k.1] /\ lo gr = 0
    end.
Lemma tree_write N G V E E' X X' L L' p g n' : tree_ok N G V E X L -> G !! p = Some g -> (forall q, q <> p -> (q ∈ L <-> q ∈ L') /\ (q ∈ X <-> q ∈ X')) ->
  entry_change V g E E' -> node_ok G V E' X' L' p g n' -> tree_ok (<[p := n']> N) G V E' X' L'.
Proof.
  intros Ht Hg HLX HE Hn. pose proof (tree_node _ _ _ _ _ _ _ _ Ht Hg) as (n & HNp & _). split; try (apply Ht).
  - intros q. rewrite <- (to_dom _ _ _ _ _ _ Ht q). destruct (decide (q = p)) as [->|]; [rewrite lookup_insert_eq, HNp|rewrite lookup_insert_ne by done]; split; eauto.
  - intros q h m Hh Hm. destruct (decide (q = p)) as [->|Hne].
    + rewrite lookup_insert_eq in Hm. injection Hm as <-. congruence.
    + rewrite lookup_insert_ne in Hm by done. eapply node_ok_transport; [by apply (to_node _ _ _ _ _ _ Ht)|by apply HLX|intros ?; by rewrite (proj2 (HLX q Hne))|by eauto|done|].
      intros Hlv k Hk. destruct HE as [->|(k' & c & Hl & Hc & -> & _)]; [done|]. apply lookup_insert_ne. intros [= Hla <-]. apply Hne. symmetry. apply (to_disj _ _ _ _ _ _ Ht p q g h k'.1); done || congruence.
  - intros q h pi x Hh Hla. destruct (to_layer _ _ _ _ _ _ Ht q h pi x Hh Hla) as [link Hl]. destruct HE as [->|(k & c & _ & _ & -> & Hc)]; [eauto|].
    destruct (decide ((layer g, k) = (pi, (x, 9)))) as [Heq|]; [rewrite Heq, lookup_insert_eq; rewrite Heq in Hc; destruct c; [by apply Hc in Hl|eauto]|rewrite lookup_insert_ne by done; eauto].
  - intros pi k r Hl. destruct HE as [->|(k' & c & _ & _ & -> & Hc)]; [by apply (to_link _ _ _ _ _ _ Ht)|]. destruct (decide ((layer g, k') = (pi, k))) as [Heq|].
    + rewrite Heq, lookup_insert_eq in Hl. injection Hl as ->. by simplify_eq.
    + rewrite lookup_insert_ne in Hl by done. by apply (to_link _ _ _ _ _ _ Ht).
  - intros pi k c Hk. destruct HE as [->|(k' & c' & Hl & Hc & -> & _)]; [by apply (to_entry _ _ _ _ _ _ Ht) in Hk|]. destruct (decide ((layer g, k') = (pi, k))) as [Heq|].
    + simplify_eq. by exists p, g.
    + rewrite lookup_insert_ne in Hk by done. by apply (to_entry _ _ _ _ _ _ Ht) in Hk.
Qed.

(** ** Frames of leaves *)
Definition reframe (v m nx pv pa ts : Z) (l : leaf) : leaf := mkLeaf v (extrasize64_ l) m (keylenx_ l) (permutation_ l) (l_ikey0_ l) (lv_ l) (ksuf_ l) nx pv pa ts (iksuf_ l).
Lemma leaf_ok_reframe v m nx pv pa ts l : leaf_ok l -> leaf_ok (reframe v m nx pv pa ts l).
Proof. intros [[] Hp Hs Ho]. split; [by split|done| |done]. intros p Hq. by destruct (Hs p Hq). Qed.
Lemma leaf_content_reframe v m nx pv pa ts E L L' p g l : leaf_content E L p g l -> (p ∈ L -> p ∈ L') -> leaf_content E L' p g (reframe v m nx pv pa ts l).
Proof.
  intros [Hok Hh Hf] HL. split; [by apply leaf_ok_reframe|done|]. intros Hlo. destruct (Hf Hlo) as [? [?|[? ?]]]; (split; [done|]); [by left|right; auto].
Qed.
Lemma node_ok_version G V E X L L' p g n v rt : node_ok G V E X L p g n -> ver v (leaf_node n) rt (bool_decide (p ∈ L')) -> (p ∉ X -> lo g = 0 -> rt = bool_decide (up g = 0)) ->
  (p ∈ L -> p ∈ L') -> node_ok G V E X L' p g (set_version v n).
Proof.
  intros [_ Hup Hc] Hv Hrt HL. split; [exists rt; by destruct n|by destruct n|]. destruct n as [l|i]; [|done]. destruct Hc as [[] Hlc]. split; [by split|]. intros Hp.
  by eapply (leaf_content_reframe v (modstate_ l) (l_next_ l) (l_prev_ l) (l_parent_ l) (node_ts_ l)); [apply Hlc|].
Qed.

Lemma search_version ka v l : leaf_lower_with_position ka (set_l_version v l) = leaf_lower_with_position ka l.
Proof. unfold leaf_lower_with_position. reflexivity. Qed.

(** ** Memory *)
Definition upd (p : Z) (n : node) (s : mass) : mass := on_nodes (insert p n) s.
Lemma run_put s p n : put_node p n s = Ok (tt, upd p n s).
Proof. done. Qed.
Lemma upd_at s p n : mnodes (upd p n s) !! p = Some n.
Proof. apply lookup_insert_eq. Qed.
Lemma upd_other s p q n : q <> p -> mnodes (upd p n s) !! q = mnodes s !! q.
Proof. intros. by apply lookup_insert_ne. Qed.
Lemma upd_upd s p n m : upd p m (upd p n s) = upd p m s.
Proof. unfold upd, on_nodes. simpl. by rewrite insert_insert_eq. Qed.
Lemma upd_size s p n m : mnodes s !! p = Some m -> base.size (mnodes (upd p n s)) = base.size (mnodes s).
Proof. intros Hp. unfold upd, on_nodes. simpl. by apply map_size_insert_Some; rewrite Hp. Qed.
Lemma run_write_version s p n v : mnodes s !! p = Some n -> write_version p v s = Ok (tt, upd p (set_version v n) s).
Proof. intros Hn. unfold write_version. by erewrite ST_bind_ok by (by apply run_node). Qed.
(** What is outside the nodes. *)
Record heap_ok (s : mass) (G : ghosts) (E : dict) : Prop := {
  hp_root : exists g, G !! mroot s = Some g /\ layer g = [] /\ lo g = 0;
  hp_brk : 0 < mbrk s /\ mbrk s mod 64 = 0;
  hp_fresh p : mbrk s <= p -> mnodes s !! p = None /\ mrows s !! p = None;
  hp_rows pi k suf r : E !! (pi, k) = Some (CVal suf r) -> exists row v, mrows s !! r = Some row /\ row_col row 0 = Ok v;
  hp_inj a b suf suf' r : E !! a = Some (CVal suf r) -> E !! b = Some (CVal suf' r) -> a = b }.
Lemma mass_heap s G E L : mass_ok s G E L <-> settled (mnodes s) G E L /\ heap_ok s G E.
Proof. split; [by intros []|by intros [? []]]. Qed.
Lemma heap_upd s G E p n m : heap_ok s G E -> mnodes s !! p = Some m -> heap_ok (upd p n s) G E.
Proof.
  intros [] Hp. split; try done. intros q Hq. destruct (hp_fresh0 q Hq) as [Hn Hr]. split; [|done]. rewrite upd_other; [done|]. intros ->. congruence.
Qed.

(** ** Locking and unlocking *)
Lemma node_lock_ok s G V E X L p g n : tree_ok (mnodes s) G V E X L -> G !! p = Some g -> mnodes s !! p = Some n -> p ∉ L ->
  nb_lock p (node_version n) s = Ok (Z.lor (node_version n) 1, upd p (set_version (Z.lor (node_version n) 1) n) s)
  /\ tree_ok (mnodes (upd p (set_version (Z.lor (node_version n) 1) n) s)) G V E X ({[p]} ∪ L).
Proof.
  intros Ht Hg Hn HL. pose proof (to_node _ _ _ _ _ _ Ht p g n Hg Hn) as Hok. destruct (nk_ver _ _ _ _ _ _ _ _ Hok) as (rt & Hv & Hrt). rewrite bool_decide_eq_false_2 in Hv by done. split.
  - unfold nb_lock. erewrite ST_bind_ok by (by apply run_version). rewrite (ver_try_lock Hv) by done. by erewrite ST_bind_ok by (by apply run_write_version).
  - eapply tree_write; [done|done|intros q Hq; set_solver|by left|]. eapply node_ok_version; [done|rewrite bool_decide_eq_true_2 by set_solver; by apply (ver_lock Hv)|done|set_solver].
Qed.
Lemma node_unlock_ok s G V E X L p g n : tree_ok (mnodes s) G V E X L -> G !! p = Some g -> mnodes s !! p = Some n -> p ∈ L -> (forall l, n = NLeaf l -> p ∉ X -> lo g <> 0 -> 0 ∈ live l) ->
  nb_unlock p (node_version n) s = Ok (tt, upd p (set_version (nv_unlock P (node_version n)) n) s)
  /\ tree_ok (mnodes (upd p (set_version (nv_unlock P (node_version n)) n) s)) G V E X (L ∖ {[p]}).
Proof.
  intros Ht Hg Hn HL H0. pose proof (to_node _ _ _ _ _ _ Ht p g n Hg Hn) as Hok. destruct (nk_ver _ _ _ _ _ _ _ _ Hok) as (rt & Hv & Hrt). rewrite bool_decide_eq_true_2 in Hv by done. split.
  - unfold nb_unlock. by apply run_write_version.
  - eapply tree_write; [done|done|intros q Hq; set_solver|by left|]. split.
    + exists rt. rewrite bool_decide_eq_false_2 by set_solver. split; [|done]. destruct n; by apply (ver_unlock Hv).
    + destruct n; apply Hok.
    + destruct Hok as [_ _ Hc]. destruct n as [l|i]; [|done]. destruct Hc as [[] Hlc]. split; [by split|]. intros Hp. destruct (Hlc Hp) as [Hlok Hh Hf].
      split; [by apply (leaf_ok_reframe _ (modstate_ l) (l_next_ l) (l_prev_ l) (l_parent_ l) (node_ts_ l))|done|]. intros Hlo. split; [by apply Hf|]. left. by apply (H0 l).
Qed.

(** ** To the leaf that an insertion changes *)
Definition relink (E E' : dict) : Prop := E' = E \/ exists a r0 r1, E !! a = Some (CLayer r0) /\ E' = <[a := CLayer r1]> E.
Lemma relink_found E E' pi t r : relink E E' -> found E' pi t r <-> found E pi t r.
Proof. intros [->|([pi0 k] & r0 & r1 & He & ->)]; [done|by eapply found_relink]. Qed.
Lemma relink_reach E E' pi s pi' s' : relink E E' -> reach E pi s pi' s' -> reach E' pi s pi' s'.
Proof.
  intros [->|(a & r0 & r1 & He & ->)] Hr; [done|]. induction Hr as [|pi s link pi' s' Hl Hr IH]; [apply reach_refl|].
  destruct (decide (a = (pi, akey_of s))) as [->|Hne]; eapply reach_step; [apply lookup_insert_eq|done|by rewrite lookup_insert_ne|done].
Qed.
Lemma stands_same s s' E E' M : stands s E M -> mrows s' = mrows s -> (forall t r, found E' [] t r <-> found E [] t r) -> stands s' E' M.
Proof. intros HM Hr Hf str v. rewrite (HM str v), Hr. split; intros (Hb & r & row & Hfd & Hx); (split; [done|]); exists r, row; (split; [by apply Hf|done]). Qed.
Lemma heap_relink s G E E' : heap_ok s G E -> relink E E' -> heap_ok s G E'.
Proof.
  intros [] [->|(a & r0 & r1 & He & ->)]; [done|]. assert (Hv : forall b suf r, <[a := CLayer r1]> E !! b = Some (CVal suf r) -> E !! b = Some (CVal suf r)).
  { intros b suf r. destruct (decide (a = b)) as [->|]; [by rewrite lookup_insert_eq|by rewrite lookup_insert_ne]. }
  split; try done; [intros pi k suf r ?%Hv; by eapply hp_rows0|intros b c suf suf' r ?%Hv ?%Hv; by eapply hp_inj0].
Qed.
(** Another value for a live slot. *)
Lemma holds_set l p k v c : leaf_ok l -> p ∈ live l -> slot_key l p = k -> slot_content (with_value l p v) p = Some c ->
  leaf_ok (with_value l p v) /\ forall k' c', holds (with_value l p v) k' c' <-> if decide (k' = k) then c' = c else holds l k' c'.
Proof.
  intros Hl Hp Hk Hcp. pose proof (live_range l p (lo_perm _ Hl) Hp) as Hr. set (l' := with_value l p v) in *.
  assert (Hcq : forall q, q ∈ live l -> q <> p -> slot_content l' q = slot_content l q) by (intros q Hq Hne; apply with_value_content; [lia|by apply live_range in Hq; [lia|apply Hl]|done]).
  split.
  - split; [by apply with_value_ok, Hl|apply Hl| |exact (lo_sorted _ Hl)]. intros q Hq. apply with_value_slot; [by apply (lo_slots _ Hl)|]. change (is_Some (slot_content l' q)). destruct (decide (q = p)) as [->|Hne]; [by rewrite Hcp|].
    rewrite Hcq by done. by apply (lo_slots _ Hl).
  - intros k' c'. case_decide as Hd.
    + subst k'. split; [|intros ->; by exists p]. intros (q & Hq & Hkq & Hcq'). change (slot_key l q = k) in Hkq. assert (q = p) as -> by (eapply (sorted_key_inj l); [done|done|done|congruence]).
      change (slot_content l' p = Some c') in Hcq'. congruence.
    + split; intros (q & Hq & Hkq & Hcq'); exists q; (split; [done|]); (split; [done|]); (assert (q <> p) by (intros ->; apply Hd; rewrite <- Hkq; exact Hk)).
      * rewrite <- (Hcq q Hq) by done. exact Hcq'.
      * transitivity (slot_content l q); [by apply Hcq|done].
Qed.
Lemma set_layer_content l p r0 r1 : shape_ok l -> 0 <= p < 15 -> slot_content l p = Some (CLayer r0) -> slot_content (with_value l p (LvLayer r1)) p = Some (CLayer r1).
Proof.
  intros Hs Hp. unfold slot_content. simpl. rewrite list_lookup_insert_eq by (rewrite (sh_lv _ Hs); lia). change (slot_keylenx (with_value l p (LvLayer r1)) p) with (slot_keylenx l p).
  destruct (lv_ l !! Z.to_nat p) as [[x|x]|]; destruct (keylenx_is_layer (slot_keylenx l p)); done.
Qed.

Section Locate.
Context (s : mass) (G : ghosts) (E : dict) (Hs : mass_ok s G E ∅) (levels : nat) (Hlv : (base.size (mnodes s) + 2 <= levels)%nat).
Context (p : Z) (g : ghost) (l : leaf) (ka : key) (str : list Z) (Hleaf : leaf_for s G (layer g) (slice_of str) p g l) (Hka : key_repr 7 ka str).
#[local] Abbreviation v := (Z.lor (l_version l) 1).
Definition locked_leaf : leaf := set_l_version v l.
Definition locked_state : mass := upd p (NLeaf locked_leaf) s.
Lemma found_content : leaf_content E ∅ p g l.
Proof. destruct Hleaf as (Hg & Hn & _). destruct (to_node _ _ _ _ _ _ (ms_tree _ _ _ _ Hs) _ _ _ Hg Hn) as [_ _ [_ Hlc]]. apply Hlc. set_solver. Qed.
Lemma locate_lock : nb_lock p (l_version l) s = Ok (v, locked_state) /\ mass_ok locked_state G E {[p]}.
Proof.
  destruct Hleaf as (Hg & Hn & _). apply mass_heap in Hs as [Ht Hh]. destruct (node_lock_ok s G G E ∅ ∅ p g _ Ht Hg Hn ltac:(set_solver)) as [Hrun Ht']. rewrite union_empty_r_L in Ht'. split; [exact Hrun|]. apply mass_heap. split; [exact Ht'|]. by eapply heap_upd.
Qed.
(** How [get_leaf_locked] ends: at the next layer, with nothing locked, or with the leaf locked
    and the cursor at the place of the key. *)
Definition next_layer (res : Z * Z * tcursor) (c : tcursor) (s' : mass) : Prop := exists E' r w ka' gr,
  res = (r, w, with_key ka' c) /\ r <> 0 /\ mass_ok s' G E' ∅ /\ mrows s' = mrows s /\ base.size (mnodes s') = base.size (mnodes s) /\ relink E E'
  /\ G !! r = Some gr /\ layer gr = layer g ++ [slice_of str] /\ lo gr = 0 /\ key_repr 7 ka' (drop 8 str)
  /\ (8 < length str)%nat /\ exists link, E !! (layer g, akey_of str) = Some (CLayer link).
Lemma layer_link kp : kp ∈ live l -> slot_key l kp = akey_of str -> forall r, slot_content l kp = Some (CLayer r) ->
  E !! (layer g, akey_of str) = Some (CLayer r) /\ (8 < length str)%nat /\ r <> 0 /\ (exists gr, G !! r = Some gr /\ layer gr = layer g ++ [slice_of str] /\ lo gr = 0)
  /\ exists ka', key_shift ka = Ok ka' /\ key_repr 7 ka' (drop 8 str).
Proof.
  intros Hin Hk r Hc. assert (He : E !! (layer g, akey_of str) = Some (CLayer r)) by (apply (lc_holds _ _ _ _ _ found_content); by exists kp).
  destruct (to_link _ _ _ _ _ _ (ms_tree _ _ _ _ Hs) _ _ _ He) as [H9 (gr & Hgr & Hla & Hlo)]. assert (Hlong : (8 < length str)%nat) by (unfold akey_of in H9; simpl in H9; lia).
  split; [done|]. split; [done|]. split; [|split; [by exists gr|by apply (key_repr_shift 7)]]. destruct (to_addr _ _ _ _ _ _ (ms_tree _ _ _ _ Hs) r ltac:(eauto)). lia.
Qed.
Lemma layer_read l' kp r : kp ∈ live l -> slot_content l kp = Some (CLayer r) -> keylenx_ l' = keylenx_ l -> lv_ l' = lv_ l ->
  is_layer l' kp = Ok true /\ forall s', layer_at l' kp s' = Ok (r, s').
Proof.
  intros Hin Hc Hkx Hlvx. pose proof (lc_ok _ _ _ _ _ found_content) as Hl. pose proof (live_range l kp (lo_perm _ Hl) Hin) as Hr. unfold slot_content in Hc.
  destruct (lv_ l !! Z.to_nat kp) as [w|] eqn:Hv; [|done]. destruct w as [w|w], (keylenx_is_layer (slot_keylenx l kp)) eqn:Hkl; try done. injection Hc as ->. split.
  - unfold is_layer. rewrite Hkx, (keylenx_get l (lo_shape _ Hl) kp Hr). cbn [mbind outcome_bind]. by rewrite Hkl.
  - intros s'. unfold layer_at. rewrite Hlvx, (ST_bind_ok (a := LvLayer r) (s' := s')); [done|]. apply lift_ok. unfold array_get. rewrite decide_True by lia. by rewrite Hv.
Qed.
Lemma value_read l' kp suf r : kp ∈ live l -> slot_content l kp = Some (CVal suf r) -> keylenx_ l' = keylenx_ l -> is_layer l' kp = Ok false.
Proof.
  intros Hin Hc Hkx. pose proof (lc_ok _ _ _ _ _ found_content) as Hl. pose proof (live_range l kp (lo_perm _ Hl) Hin) as Hr. unfold slot_content in Hc.
  destruct (lv_ l !! Z.to_nat kp) as [[w|w]|], (keylenx_is_layer (slot_keylenx l kp)) eqn:Hkl; try done. unfold is_layer. rewrite Hkx, (keylenx_get l (lo_shape _ Hl) kp Hr). cbn [mbind outcome_bind]. by rewrite Hkl.
Qed.
Lemma locate_unlock n' E' : settled (mnodes (upd p n' s)) G E' {[p]} -> (exists l', n' = NLeaf l' /\ l_version l' = v /\ permutation_ l' = permutation_ l) -> relink E E' -> exists s', nb_unlock p v (upd p n' s) = Ok (tt, s')
  /\ mass_ok s' G E' ∅ /\ mrows s' = mrows s /\ base.size (mnodes s') = base.size (mnodes s).
Proof.
  intros Ht (l' & -> & Hv & Hperm) Hre. destruct Hleaf as (Hg & Hn & _). destruct (node_unlock_ok (upd p (NLeaf l') s) G G E' ∅ {[p]} p g (NLeaf l') Ht Hg (upd_at _ _ _) ltac:(set_solver)) as [Hrun Ht'].
  { intros x [= <-] _ Hlo. destruct (lc_first _ _ _ _ _ found_content Hlo) as [_ [H0|[H0 _]]]; [|set_solver]. unfold live, leaf_size in *. by rewrite Hperm. }
  cbn [node_version] in Hrun, Ht'. rewrite Hv in Hrun, Ht'. eexists. split; [exact Hrun|]. rewrite upd_upd in *. split; [|split; [done|by eapply upd_size]]. apply mass_heap. split; [by rewrite difference_diag_L in Ht'|].
  eapply heap_upd; [|exact Hn]. eapply heap_relink; [|exact Hre]. by apply mass_heap in Hs as [_ ?].
Qed.
Lemma locked_found_ok c : n_ c = p -> ka_ c = ka -> kp_ c = -1 \/ (0 <= kp_ c /\ kp_ c ∈ live l /\ slot_key l (kp_ c) = akey_of str) ->
  exists res s', locked_found levels c v locked_state = Ok (res, s') /\ (next_layer res c s' \/ (res = (0, v, c) /\ s' = locked_state /\ forall r, 0 <= kp_ c -> slot_content l (kp_ c) <> Some (CLayer r))).
Proof.
  intros Hc Hkac Hkp. unfold locked_found. rewrite Hc. erewrite ST_bind_ok by (apply run_leaf, upd_at). destruct Hkp as [Hm|(Hge & Hin & Hk)].
  { rewrite Hm. change (0 <=? -1) with false. cbn iota. erewrite ST_bind_ok by reflexivity. cbn iota. eexists _, _. split; [reflexivity|]. right. split; [done|]. split; [done|]. lia. }
  rewrite (proj2 (Z.leb_le 0 (kp_ c))) by lia. pose proof (lc_ok _ _ _ _ _ found_content) as Hl. destruct (so_content _ _ (lo_slots _ Hl _ Hin)) as [[suf r|r] Hcont].
  { erewrite ST_bind_ok by (apply lift_ok; eapply value_read; done). cbn iota. eexists _, _. split; [reflexivity|]. right. split; [done|]. split; [done|]. intros r'. rewrite Hcont. done. }
  destruct (layer_read locked_leaf (kp_ c) r Hin Hcont eq_refl eq_refl) as [Hisl Hat]. erewrite ST_bind_ok by (apply lift_ok; exact Hisl). cbn iota. erewrite ST_bind_ok by apply Hat.
  destruct (layer_link (kp_ c) Hin Hk r Hcont) as (He & Hlong & Hr0 & (gr & Hgr & Hlar & Hlor) & ka' & Hsh & Hka').
  destruct locate_lock as [_ Hs1]. apply mass_heap in Hs1 as [Ht1 Hh1]. destruct Hleaf as (Hg & Hn & _ & Hl0 & Hx).
  assert (Hunl : unlocked_layer G {[p]} (layer gr)). { intros q h Hq Hlq Hqp%elem_of_singleton. subst q. rewrite Hg in Hq. injection Hq as <-. rewrite Hlar in Hlq. apply (f_equal length) in Hlq. rewrite length_app in Hlq. simpl in Hlq. lia. }
  destruct (read_node locked_state G E {[p]} Ht1 r gr Hgr (Hunl r gr Hgr eq_refl)) as (nr & Hnr & _ & _ & _ & _ & Hsp). erewrite ST_bind_ok by (by apply run_version). rewrite Hsp by done.
  assert (Hdone : forall n' E' r' gr', settled (mnodes (upd p n' s)) G E' {[p]} -> (exists l', n' = NLeaf l' /\ l_version l' = v /\ permutation_ l' = permutation_ l) -> relink E E' -> G !! r' = Some gr' -> layer gr' = layer gr -> lo gr' = 0 ->
    exists res s', (nb_unlock p v;; ka0 ← lift (key_shift (ka_ c)); mret (r', v, with_key ka0 c)) (upd p n' s) = Ok (res, s') /\ (next_layer res c s' \/ (res = (0, v, c) /\ s' = locked_state /\ forall r, 0 <= kp_ c -> slot_content l (kp_ c) <> Some (CLayer r)))).
  { intros n' E' r' gr' Ht' Hn' Hre Hgr' Hlar' Hlor'. destruct (locate_unlock n' E' Ht' Hn' Hre) as (s' & Hun & Hs' & Hrows & Hsz). erewrite ST_bind_ok by exact Hun. rewrite Hkac. erewrite ST_bind_ok by (apply lift_ok; exact Hsh).
    eexists _, _. split; [reflexivity|]. left. exists E', r', v, ka', gr'. destruct (to_addr _ _ _ _ _ _ (ms_tree _ _ _ _ Hs) r' ltac:(eauto)). split_and!; try done; [lia|by rewrite Hlar', Hlar|by exists r]. }
  case_bool_decide as Hup; cbn [negb].
  - erewrite ST_bind_ok by reflexivity. eapply (Hdone (NLeaf locked_leaf) E r gr); try done; [|by left]. by exists locked_leaf.
  - destruct (unsplit_ancestor_ok locked_state G E {[p]} Ht1 (base.size (mnodes s)) (levels_enough s G E (ms_tree _ _ _ _ Hs)) levels r gr Hgr Hunl Hlor ltac:(lia)) as (r' & gr' & Hun & Hgr' & Hlar' & Hlor' & _).
    pose proof (live_range l _ (lo_perm _ Hl) Hin) as Hrange. set (l2 := with_value locked_leaf (kp_ c) (LvLayer r')).
    rewrite (ST_bind_ok (a := r') (s' := upd p (NLeaf l2) s)).
    2:{ erewrite ST_bind_ok by exact Hun. rewrite (ST_bind_ok (a := <[Z.to_nat (kp_ c) := LvLayer r']> (lv_ locked_leaf)) (s' := locked_state)).
        - unfold put_leaf. rewrite (ST_bind_ok (run_put _ _ _)). unfold locked_state. by rewrite upd_upd.
        - apply lift_ok. unfold array_set. rewrite decide_True; [done|]. change (lv_ locked_leaf) with (lv_ l). rewrite (sh_lv _ (lo_shape _ Hl)). lia. }
    eapply (Hdone (NLeaf l2) (<[(layer g, akey_of str) := CLayer r']> E) r' gr'); try done; [|by exists l2|right; by exists (layer g, akey_of str), r, r'].
    assert (Hok2 : leaf_content (<[(layer g, akey_of str) := CLayer r']> E) {[p]} p g l2).
    { destruct found_content as [_ Hho Hfi]. destruct (holds_set l (kp_ c) (akey_of str) (LvLayer r') (CLayer r') Hl Hin Hk (set_layer_content l (kp_ c) r r' (lo_shape _ Hl) Hrange Hcont)) as [Hok' Hho']. split.
      - exact (leaf_ok_reframe v (modstate_ l) (l_next_ l) (l_prev_ l) (l_parent_ l) (node_ts_ l) _ Hok').
      - intros k cc. change (holds l2 k cc) with (holds (with_value l (kp_ c) (LvLayer r')) k cc). rewrite Hho'. case_decide as Hd.
        + subst k. rewrite lookup_insert_eq. split; [intros ->; done|by intros [[= ->] _]].
        + rewrite lookup_insert_ne by (intros [_ ?]%pair_equal_spec; congruence). apply Hho.
      - intros Hlo. destruct (Hfi Hlo) as [? [?|[? _]]]; [|set_solver]. split; [done|by left]. }
    rewrite <- (upd_upd s p (NLeaf locked_leaf)). eapply (tree_write _ _ _ E _ ∅ ∅ {[p]} {[p]}); [exact Ht1|exact Hg|done| |].
    + right. exists (akey_of str), (CLayer r'). split; [done|]. split; [done|]. split; [done|]. split; [unfold akey_of; simpl; lia|]. exists gr'. split; [done|]. by rewrite Hlar'.
    + destruct (to_node _ _ _ _ _ _ Ht1 p g _ Hg (upd_at _ _ _)) as [Hv2 Hup2 [Hfr2 _]]. split; [done|done|]. split; [|done]. by destruct Hfr2.
Qed.
Definition at_place (c : tcursor) (A B : list Z) : Prop := search_split l (akey_of str) A B /\ ki_ c = Z.of_nat (length A) /\ kp_ c = found_slot l (akey_of str) B
  /\ ((kp_ c = -1 /\ E !! (layer g, akey_of str) = None /\ forall q, q ∈ live l -> slot_key l q <> akey_of str)
      \/ (0 <= kp_ c /\ kp_ c ∈ live l /\ slot_key l (kp_ c) = akey_of str)).
Definition place_locked (res : Z * Z * tcursor) (c : tcursor) (s' : mass) : Prop :=
  res = (0, v, c) /\ s' = locked_state /\ forall r, 0 <= kp_ c -> slot_content l (kp_ c) <> Some (CLayer r).
Lemma get_leaf_locked_ok c root fuel : n_ c = p -> ka_ c = ka -> (1 <= fuel)%nat ->
  exists res s' A B, let c' := with_position (Z.of_nat (length A)) (found_slot l (akey_of str) B) c in
    get_leaf_locked fuel levels c root (l_version l) s = Ok (res, s') /\ at_place c' A B /\ (next_layer res c' s' \/ place_locked res c' s').
Proof.
  intros Hc Hkac Hfuel. pose proof Hleaf as (Hg & Hn & _ & Hl0 & Hx). destruct (leaf_lookup _ _ _ _ _ _ _ found_content Hka Hx) as (A & B & Hss & Hrun & _ & Hcase). set (kp := found_slot l (akey_of str) B) in *.
  set (c' := with_position (Z.of_nat (length A)) kp c). assert (Hat : at_place c' A B) by (by split_and!).
  destruct locate_lock as [Hlock Hs1]. destruct (nk_ver _ _ _ _ _ _ _ _ (to_node _ _ _ _ _ _ (ms_tree _ _ _ _ Hs) p g _ Hg Hn)) as (rt & Hv & _). rewrite bool_decide_eq_false_2 in Hv by set_solver. cbn [node_version leaf_node] in Hv.
  destruct (locked_unchanged Hv eq_refl) as [Huc Hus]. pose proof (ver_not_deleted (ver_lock Hv eq_refl)) as Hnd.
  assert (Hkp' : kp_ c' = -1 \/ (0 <= kp_ c' /\ kp_ c' ∈ live l /\ slot_key l (kp_ c') = akey_of str)) by (destruct Hcase as [(? & _)|?]; [by left|by right]).
  destruct (locked_found_ok c' Hc Hkac Hkp') as (res & s' & Hlf & Hres). unfold get_leaf_locked. rewrite Hkac, Hc. destruct (has_suffix ka) eqn:Hsuf; cbn [negb].
  - erewrite ST_bind_ok by (by apply run_leaf). erewrite ST_bind_ok by (apply lift_ok; exact Hrun). cbn iota beta. fold c'.
    assert (Hslow : exists res s', (v0 ← nb_lock (n_ c') (l_version l); w ← version_of (n_ c'); l' ← get_leaf (n_ c'); if negb (nv_deleted P v0) && negb (leaf_has_changed w (l_version l) l l') then locked_found levels c' v0 else walk_leaves fuel levels c' root (l_version l) v0) s = Ok (res, s') /\ (next_layer res c' s' \/ place_locked res c' s')).
    { change (n_ c') with (n_ c). rewrite Hc. erewrite ST_bind_ok by exact Hlock. erewrite ST_bind_ok by (apply run_version, upd_at). erewrite ST_bind_ok by (apply run_leaf, upd_at). cbn [node_version]. unfold leaf_has_changed.
      change (l_version locked_leaf) with v. rewrite Hnd, Huc. change (permutation_ locked_leaf) with (permutation_ l). rewrite Z.eqb_refl. cbn [negb orb andb]. exists res, s'. split; [exact Hlf|exact Hres]. }
    destruct Hkp' as [Hm|(Hge & Hin & Hk)].
    + change (kp_ c') with kp in Hm. replace (0 <=? kp) with false by (symmetry; apply Z.leb_gt; lia). erewrite ST_bind_ok by reflexivity. cbn iota. erewrite ST_bind_ok by reflexivity. cbn [negb Z.eqb].
      destruct Hslow as (res1 & s1 & Hr1 & Hres1). exists res1, s1, A, B. split; [exact Hr1|]. done.
    + change (kp_ c') with kp in Hge, Hin, Hk. rewrite (proj2 (Z.leb_le 0 kp)) by lia. pose proof (lc_ok _ _ _ _ _ found_content) as Hl. destruct (so_content _ _ (lo_slots _ Hl _ Hin)) as [[suf r|r] Hcont].
      * erewrite ST_bind_ok by (apply lift_ok; eapply value_read; done). cbn iota. erewrite ST_bind_ok by reflexivity. cbn [negb Z.eqb]. destruct Hslow as (res1 & s1 & Hr1 & Hres1). by exists res1, s1, A, B.
      * destruct (layer_read l kp r Hin Hcont eq_refl eq_refl) as [Hisl Hlat]. erewrite ST_bind_ok by (apply lift_ok; exact Hisl). cbn iota.
        destruct (layer_link kp Hin Hk r Hcont) as (He & Hlong & Hr0 & (gr & Hgr & Hlar & Hlor) & ka' & Hsh & Hka').
        destruct (read_node s G E ∅ (ms_tree _ _ _ _ Hs) r gr Hgr ltac:(set_solver)) as (nr & Hnr & _ & _ & _ & _ & Hsp).
        rewrite (ST_bind_ok (a := if bool_decide (up gr = 0) then r else 0) (s' := s)).
        2:{ change (n_ c') with (n_ c). rewrite Hc. erewrite ST_bind_ok by apply Hlat. erewrite ST_bind_ok by (by apply run_version). erewrite ST_bind_ok by (by apply run_version). erewrite ST_bind_ok by (by apply run_leaf). cbn [node_version].
            unfold leaf_has_changed. rewrite Hsp by done. rewrite (proj1 (unchanged _)), Z.eqb_refl, (ver_not_deleted Hv), negb_involutive. cbn [negb orb andb]. done. }
        case_bool_decide as Hup.
        -- rewrite (proj2 (Z.eqb_neq r 0)) by done. cbn [negb]. erewrite ST_bind_ok by (apply lift_ok; change (ka_ c') with (ka_ c); rewrite Hkac; exact Hsh). eexists _, s, A, B. split; [reflexivity|]. split; [done|]. left.
           exists E, r, (l_version l), ka', gr. split_and!; try done; [by left|by exists r].
        -- cbn [negb Z.eqb]. destruct Hslow as (res1 & s1 & Hr1 & Hres1). by exists res1, s1, A, B.
  - erewrite ST_bind_ok by exact Hlock. destruct fuel as [|fuel]; [lia|]. cbn [walk_leaves]. rewrite Hnd, Hc. erewrite ST_bind_ok by (apply run_leaf, upd_at). rewrite Hkac.
    rewrite (ST_bind_ok (a := (Z.of_nat (length A), kp)) (s' := locked_state)) by (apply lift_ok; unfold locked_leaf; rewrite search_version; exact Hrun). cbn iota beta. fold c'. rewrite Hus. cbn [negb]. rewrite orb_true_r. cbn [orb]. erewrite ST_bind_ok by reflexivity. cbn iota.
    exists res, s', A, B. split; [exact Hlf|]. split; [done|exact Hres].
Qed.
End Locate.
