(* ===== verification/MassFinish.v ===== *)
(** * The end of an insertion into a Masstree

    Once the cursor of [find_insert] holds the locked leaf, [put] and [put_uv] store the row,
    let a new slot enter the permutation and unlock the leaf: one string changes. *)

From S2P Require Import Prelude Permuter KSearch NodeVersion MassKey MassBag MassNode MassTree MassLeaf MassSplit MassInv MassDict MassGet MassWrite.
#[local] Abbreviation P := nodeversion32_parameters.

(** An entry with a row stands for one string. *)
Lemma found_deep E pi t r : found E pi t r -> exists pi' k suf, E !! (pi', k) = Some (CVal suf r) /\ pi `prefix_of` pi'.
Proof. induction 1 as [|pi t link r He Hf IH]; [by eauto 6|]. destruct IH as (pi' & k & suf & He' & Hp). exists pi', k, suf. split; [done|]. etrans; [|exact Hp]. by apply prefix_app_r. Qed.
Lemma found_inj E pi t t' r : links_long E -> (forall a b suf suf' r, E !! a = Some (CVal suf r) -> E !! b = Some (CVal suf' r) -> a = b) ->
  Forall byte_ok t -> Forall byte_ok t' -> found E pi t r -> found E pi t' r -> t = t'.
Proof.
  intros HE Hinj Ht Ht' Hf. revert t' Ht Ht'. assert (Hcross : forall pi k suf r x, E !! (pi, k) = Some (CVal suf r) -> forall t, ~ found E (pi ++ [x]) t r).
  { intros pi0 k suf r0 x He u (pi' & k' & suf' & He' & Hp)%found_deep. pose proof (Hinj _ _ _ _ _ He He') as [= <- _]. by apply prefix_snoc_not in Hp. }
  induction Hf as [pi t r He|pi t link r He Hf IH]; intros t' Ht Ht' Hf'; inversion Hf' as [? ? ? He'|? ? ? ? He' Hf'']; subst.
  - pose proof (Hinj _ _ _ _ _ He He') as [_ Hk]%pair_equal_spec. rewrite Hk, He' in He. injection He as Hd. by apply same_string.
  - by apply (Hcross _ _ _ _ _ He) in Hf''.
  - by apply (Hcross _ _ _ _ _ He') in Hf.
  - assert (slice_of t = slice_of t') as Hsl.
    { destruct (found_deep _ _ _ _ Hf) as (p1 & k1 & s1 & E1 & [z1 Hz1]), (found_deep _ _ _ _ Hf'') as (p2 & k2 & s2 & E2 & [z2 Hz2]). pose proof (Hinj _ _ _ _ _ E1 E2) as [Hp _]%pair_equal_spec.
      rewrite Hz1, Hz2, <- !app_assoc in Hp. apply app_inv_head in Hp. by injection Hp. }
    rewrite <- Hsl in Hf''. apply same_string; [done|done|apply akey_slice; [by eapply HE|by eapply HE|done]|]. by apply IH; [apply Forall_drop..|].
Qed.

(** ** The cursor of [find_insert] *)
Record placed (s : mass) (G : ghosts) (E : dict) (c : tcursor) (fnd : bool) (str : list Z) (g : ghost) (l : leaf) (rest : list Z) : Prop := {
  pl_mass : mass_ok s G E {[n_ c]};
  pl_ghost : G !! n_ c = Some g;
  pl_leaf : mnodes s !! n_ c = Some (NLeaf l);
  pl_covers : covers g (slice_of rest);
  pl_reach : reach E [] str (layer g) rest;
  pl_state : state_ c = if fnd then 3 else 2;
  pl_slot : if fnd then kp_ c ∈ live l /\ slot_key l (kp_ c) = akey_of rest /\ (lo g <> 0 -> 0 ∈ live l) /\ exists r, slot_content l (kp_ c) = Some (CVal (drop 8 rest) r)
            else exists A B, ready l (ki_ c) (kp_ c) (akey_of rest) (drop 8 rest) A B }.
(** The leaf when the row [r] has been stored. *)
Definition stored_leaf (c : tcursor) (fnd : bool) (r : Z) (l : leaf) : leaf :=
  let l' := with_value l (kp_ c) (LvValue r) in if fnd then l' else set_permutation (insert_from_back node_width (ki_ c) (permutation_ l)).1 l'.
Section Store.
Context (s : mass) (G : ghosts) (E : dict) (c : tcursor) (fnd : bool) (str : list Z) (g : ghost) (l : leaf) (rest : list Z) (Hp : placed s G E c fnd str g l rest) (Hbytes : Forall byte_ok str).
#[local] Abbreviation a := (layer g, akey_of rest).
#[local] Abbreviation with_row r := (<[a := CVal (drop 8 rest) r]> E).
Lemma placed_node : node_ok G G E ∅ {[n_ c]} (n_ c) g (NLeaf l).
Proof. apply (to_node _ _ _ _ _ _ (ms_tree _ _ _ _ (pl_mass _ _ _ _ _ _ _ _ _ Hp))); apply Hp. Qed.
Lemma placed_content : leaf_content E {[n_ c]} (n_ c) g l.
Proof. destruct placed_node as [_ _ [_ Hlc]]. apply Hlc. set_solver. Qed.
Lemma placed_level : level g = 0%nat.
Proof. by destruct placed_node as [_ _ [[] _]]. Qed.
Lemma placed_entry : if fnd then exists r, E !! a = Some (CVal (drop 8 rest) r) /\ slot_content l (kp_ c) = Some (CVal (drop 8 rest) r) else E !! a = None.
Proof.
  pose proof (pl_slot _ _ _ _ _ _ _ _ _ Hp) as Hsl. pose proof (lc_holds _ _ _ _ _ placed_content (akey_of rest)) as Hh. pose proof (pl_covers _ _ _ _ _ _ _ _ _ Hp) as Hcov. destruct fnd.
  - destruct Hsl as (Hin & Hk & _ & r & Hc). exists r. split; [|done]. apply Hh. by exists (kp_ c).
  - destruct Hsl as (A & B & Hr). destruct (E !! a) as [x|] eqn:He; [|done]. destruct (proj2 (Hh x)) as (q & Hq & Hk & _); [by split|]. by apply (rd_absent _ _ _ _ _ _ _ Hr) in Hk.
Qed.
Lemma stored_content r : leaf_content (with_row r) ∅ (n_ c) g (stored_leaf c fnd r l).
Proof.
  destruct placed_content as [Hok Hh Hf]. pose proof (pl_slot _ _ _ _ _ _ _ _ _ Hp) as Hsl. pose proof (pl_covers _ _ _ _ _ _ _ _ _ Hp) as Hcov. unfold stored_leaf. destruct fnd.
  - destruct Hsl as (Hin & Hk & H0 & r0 & Hc). pose proof (live_range l _ (lo_perm _ Hok) Hin) as Hr. pose proof (with_value_content_eq l (kp_ c) _ r0 r (lo_shape _ Hok) Hr Hc) as Hc'.
    destruct (holds_set l (kp_ c) (akey_of rest) (LvValue r) _ Hok Hin Hk Hc') as [Hok' Hh']. split; [done| |].
    + intros k x. rewrite Hh'. case_decide as Hd; [subst k; rewrite lookup_insert_eq; split; [by intros ->|by intros [[= ->] _]]|].
      rewrite lookup_insert_ne by (intros [_ ?]%pair_equal_spec; congruence). apply Hh.
    + intros Hlo. destruct (Hf Hlo) as [H1 _]. split; [done|left; by apply H0].
  - destruct Hsl as (A & B & Hr). destruct (ready_insert _ _ _ _ _ _ _ r Hr) as (Hok' & Hlive & Hkeys & Hc & Hcs). set (l' := set_permutation _ _) in *. split; [done| |].
    + intros k x. assert (Hin : forall q, q ∈ live l' <-> q = kp_ c \/ q ∈ live l) by (intros q; rewrite Hlive, (ss_live _ _ _ _ (rd_split _ _ _ _ _ _ _ Hr)); set_solver).
      destruct (decide (k = akey_of rest)) as [->|Hne].
      * rewrite lookup_insert_eq. split.
        -- intros (q & Hq & Hkq & Hcq). rewrite Hkeys in Hkq. apply Hin in Hq as [->|Hq]; [rewrite Hc in Hcq; injection Hcq as <-; done|]. by apply (rd_absent _ _ _ _ _ _ _ Hr) in Hkq.
        -- intros [[= <-] _]. exists (kp_ c). split; [apply Hin; by left|]. rewrite Hkeys. split; [apply Hr|done].
      * rewrite lookup_insert_ne by (intros [_ ?]%pair_equal_spec; congruence). rewrite <- Hh. split; intros (q & Hq & Hkq & Hcq); exists q.
        -- rewrite Hkeys in Hkq. apply Hin in Hq as [->|Hq]; [rewrite (rd_key _ _ _ _ _ _ _ Hr) in Hkq; congruence|]. rewrite Hcs in Hcq by done. done.
        -- split; [apply Hin; by right|]. rewrite Hkeys, Hcs by done. done.
    + intros Hlo. destruct (Hf Hlo) as [H1 H2]. split; [done|left]. rewrite Hlive. rewrite (ss_live _ _ _ _ (rd_split _ _ _ _ _ _ _ Hr)), <- (rd_back _ _ _ _ _ _ _ Hr) in H2. set_solver.
Qed.
Lemma slot_in_range : 0 <= kp_ c < 15 /\ length (lv_ l) = 15%nat.
Proof.
  pose proof (pl_slot _ _ _ _ _ _ _ _ _ Hp) as Hsl. pose proof (lc_ok _ _ _ _ _ placed_content) as Hok. split; [|exact (sh_lv _ (lo_shape _ Hok))].
  destruct fnd; [destruct Hsl as (Hin & _); by apply (live_range l _ (lo_perm _ Hok))|destruct Hsl as (A & B & Hr); exact (so_range _ _ (rd_slot _ _ _ _ _ _ _ Hr))].
Qed.
Definition final_leaf (r : Z) : leaf := set_l_version (nv_unlock P (l_version l)) (stored_leaf c fnd r l).
Lemma store_run s2 r : mnodes s2 !! n_ c = Some (NLeaf l) -> (set_cursor_value c r;; finish 1 c) s2 = Ok (tt, upd (n_ c) (NLeaf (final_leaf r)) s2).
Proof.
  intros Hn. destruct slot_in_range as [Hr Hlen]. rewrite (ST_bind_ok (a := tt) (s' := upd (n_ c) (NLeaf (with_value l (kp_ c) (LvValue r))) s2)).
  2:{ unfold set_cursor_value, set_lv. erewrite ST_bind_ok by (by apply run_leaf). rewrite (ST_bind_ok (a := <[Z.to_nat (kp_ c) := LvValue r]> (lv_ l)) (s' := s2)); [done|]. apply lift_ok. unfold array_set. rewrite decide_True by lia. done. }
  unfold finish. change (0 <? 1) with true. cbn [andb]. rewrite (pl_state _ _ _ _ _ _ _ _ _ Hp). rewrite (ST_bind_ok (a := tt) (s' := upd (n_ c) (NLeaf (stored_leaf c fnd r l)) s2)).
  2:{ unfold stored_leaf. destruct fnd; [done|]. cbn [Z.eqb Pos.eqb]. unfold finish_insert. erewrite ST_bind_ok by (apply run_leaf, upd_at). unfold put_leaf. rewrite run_put. by rewrite upd_upd. }
  unfold nb_unlock_this. erewrite ST_bind_ok by (apply run_version, upd_at). unfold nb_unlock. erewrite run_write_version by apply upd_at. rewrite upd_upd. unfold final_leaf, stored_leaf. by destruct fnd.
Qed.
Lemma store_tree r : settled (<[n_ c := NLeaf (final_leaf r)]> (mnodes s)) G (with_row r) ∅.
Proof.
  destruct placed_node as [(rt & Hv & Hrt) Hup [Hfr _]]. rewrite bool_decide_eq_true_2 in Hv by set_solver. eapply (tree_write _ _ _ E _ ∅ ∅ {[n_ c]} ∅); [apply Hp|apply Hp|intros q Hq; set_solver| |].
  - right. exists (akey_of rest), (CVal (drop 8 rest) r). split; [apply placed_level|]. split; [apply Hp|]. split; [done|]. intros r'. pose proof placed_entry as He. destruct fnd; [destruct He as (r0 & -> & _); done|by rewrite He].
  - split.
    + exists rt. rewrite bool_decide_eq_false_2 by set_solver. split; [by apply (ver_unlock Hv)|done].
    + unfold final_leaf, stored_leaf. by destruct fnd.
    + split; [unfold final_leaf, stored_leaf; destruct Hfr, fnd; by split|]. intros _.
      exact (leaf_content_reframe (nv_unlock P (l_version l)) (modstate_ (stored_leaf c fnd r l)) (l_next_ (stored_leaf c fnd r l)) (l_prev_ (stored_leaf c fnd r l)) (l_parent_ (stored_leaf c fnd r l)) (node_ts_ (stored_leaf c fnd r l)) _ ∅ ∅ _ _ _ (stored_content r) (fun H => H)).
Qed.
Lemma reach_found pi0 s0 pi t r : reach E pi0 s0 pi t -> found E pi t r -> found E pi0 s0 r.
Proof. induction 1; [done|]. intros Hf. eapply found_below; [done|by auto]. Qed.
Lemma other_row t r b suf : Forall byte_ok t -> t <> str -> found E [] t r -> E !! b = Some (CVal suf r) -> b <> a.
Proof.
  intros Ht Hne Hf Hb ->. apply Hne. pose proof (pl_mass _ _ _ _ _ _ _ _ _ Hp) as Hm. eapply found_inj; [by eapply settled_links, Hm|by apply Hm|done|done|exact Hf|].
  eapply reach_found; [apply Hp|]. apply found_here. pose proof placed_entry as He. destruct fnd; [|congruence]. destruct He as (r0 & He & _). rewrite He in Hb. injection Hb as <- <-. done.
Qed.
(** The row is allocated and stored. *)
Lemma store_ok s1 M value ts : stands s E M -> mnodes s1 = mnodes s -> mbrk s1 = mbrk s -> mroot s1 = mroot s -> (forall x, mbrk s <= x -> mrows s1 !! x = None) ->
  (forall b suf r, E !! b = Some (CVal suf r) -> b <> a -> mrows s1 !! r = mrows s !! r) -> Z.of_nat (length value) < 65530 ->
  exists s', (row ← allocate_row (create1 value ts); set_cursor_value c row;; finish 1 c) s1 = Ok (tt, s') /\ masstree s' (<[str := value]> M).
Proof.
  intros HM Hn Hb Hrt Hfresh Hrows Hval. pose proof (pl_mass _ _ _ _ _ _ _ _ _ Hp) as Hm. pose proof (settled_links _ _ _ _ _ _ (ms_tree _ _ _ _ Hm)) as HE.
  set (r := mbrk s1). set (s2 := mkMass (mnodes s1) (<[r := create1 value ts]> (mrows s1)) (mbrk s1 + 64) (mroot s1) (ti_ts s1)). rewrite (ST_bind_ok (a := r) (s' := s2)) by done.
  rewrite (store_run s2 r) by (simpl; rewrite Hn; apply Hp). eexists. split; [done|]. exists G, (with_row r).
  assert (Hold : forall b suf x, E !! b = Some (CVal suf x) -> b <> a -> x <> r /\ <[r := create1 value ts]> (mrows s1) !! x = mrows s !! x).
  { intros b suf x Hx Hne. assert (x <> r) as Hxr.
    { intros ->. destruct b as [pi k]. destruct (ms_rows _ _ _ _ Hm _ _ _ _ Hx) as (row & v & Hrow & _). destruct (ms_fresh _ _ _ _ Hm r) as [_ Hnone]; [unfold r; lia|]. congruence. }
    split; [done|]. rewrite lookup_insert_ne by done. by eapply Hrows. }
  split.
  - apply mass_heap. split; [cbn [mnodes upd on_nodes s2]; rewrite Hn; apply store_tree|]. split.
    + cbn [mroot upd on_nodes s2]. rewrite Hrt. apply Hm.
    + cbn [mbrk upd on_nodes s2]. destruct (ms_brk _ _ _ _ Hm). rewrite Hb. split; [lia|]. by rewrite Z.add_mod, H0 by lia.
    + intros q Hq. cbn [mbrk mnodes mrows upd on_nodes s2] in *. rewrite Hn. destruct (ms_fresh _ _ _ _ Hm q ltac:(lia)) as [Hq1 _]. split.
      * rewrite lookup_insert_ne; [done|]. intros <-. rewrite (pl_leaf _ _ _ _ _ _ _ _ _ Hp) in Hq1. done.
      * rewrite lookup_insert_ne by (unfold r; lia). apply Hfresh. lia.
    + intros pi k suf x Hx. cbn [mrows upd on_nodes s2]. destruct (decide ((pi, k) = a)) as [Heq|Hne].
      * rewrite Heq, lookup_insert_eq in Hx. injection Hx as <- <-. exists (create1 value ts), value. rewrite lookup_insert_eq. split; [done|by apply create1_col].
      * rewrite lookup_insert_ne in Hx by done. destruct (Hold _ _ _ Hx Hne) as [_ ->]. by apply (ms_rows _ _ _ _ Hm) in Hx.
    + intros b1 b2 suf1 suf2 x H1 H2. destruct (decide (b1 = a)) as [->|Hn1], (decide (b2 = a)) as [->|Hn2]; [done|..].
      * rewrite lookup_insert_eq in H1. injection H1 as _ <-. rewrite lookup_insert_ne in H2 by done. by destruct (Hold _ _ _ H2 Hn2).
      * rewrite lookup_insert_eq in H2. injection H2 as _ <-. rewrite lookup_insert_ne in H1 by done. by destruct (Hold _ _ _ H1 Hn1).
      * rewrite lookup_insert_ne in H1, H2 by done. by eapply (ms_inj _ _ _ _ Hm).
  - assert (Hins : forall t x, Forall byte_ok t -> found (with_row r) [] t x <-> (t = str /\ x = r) \/ (t <> str /\ found E [] t x)).
    { intros t x Ht. apply found_insert; [done|apply Hp| |done|done]. pose proof placed_entry as He. destruct fnd; [right; destruct He as (r0 & He & _); eauto|by left]. }
    intros t v. cbn [mrows upd on_nodes s2]. destruct (decide (t = str)) as [->|Hne].
    + rewrite lookup_insert_eq. split.
      * intros [= <-]. split; [done|]. exists r, (create1 value ts). split; [by apply Hins; [|left]|]. rewrite lookup_insert_eq. split; [done|by apply create1_col].
      * intros (_ & x & row & Hf & Hrow & Hcol). apply Hins in Hf as [[_ ->]|[? _]]; [|done|done]. rewrite lookup_insert_eq in Hrow. injection Hrow as <-. rewrite create1_col in Hcol by done. by injection Hcol as <-.
    + rewrite lookup_insert_ne by done. rewrite (HM t v). split; intros (Ht & x & row & Hf & Hrow & Hcol); (split; [done|]); exists x, row.
      * destruct (found_entry _ _ _ _ Hf) as (pi & k & suf & He). destruct (Hold _ _ _ He ltac:(by eapply other_row)) as [_ ->]. split; [|done]. apply Hins; [done|by right].
      * apply Hins in Hf as [[-> _]|[_ Hf]]; [done| |done]. destruct (found_entry _ _ _ _ Hf) as (pi & k & suf & He). destruct (Hold _ _ _ He ltac:(by eapply other_row)) as [_ Hx]. rewrite Hx in Hrow. done.
Qed.
End Store.
