(* ===== verification/MassInner.v ===== *)
(** * Inserting into and splitting an inner node of a Masstree

    The arrays of an inner node as the lists of its separators and children. *)

From S2P Require Import Prelude Permuter KSearch NodeVersion MassKey MassBag MassNode MassTree MassLeaf MassSplit MassInv.
#[local] Abbreviation P := nodeversion32_parameters.

(** ** Lists with an element put in *)
Lemma drop_past {A} (l1 l2 : list A) x m : (length l1 <= m)%nat -> drop (S m) (l1 ++ x :: l2) = drop m (l1 ++ l2).
Proof. intros Hm. rewrite !drop_app. rewrite !(drop_ge l1) by lia. simpl. by replace (S m - length l1)%nat with (S (m - length l1)) by lia. Qed.
Lemma take_past {A} (l1 l2 : list A) x m : (length l1 <= m)%nat -> take (S m) (l1 ++ x :: l2) = l1 ++ x :: take (m - length l1) l2.
Proof. intros Hm. rewrite take_app, take_ge by lia. by replace (S m - length l1)%nat with (S (m - length l1)) by lia. Qed.
Lemma take_before {A} (l1 l2 l3 : list A) m : (m <= length l1)%nat -> take m (l1 ++ l2) = take m (l1 ++ l3).
Proof. intros Hm. rewrite !take_app. replace (m - length l1)%nat with 0%nat by lia. done. Qed.

(** ** Insertion *)
Lemma internode_insert_ok i l1 l2 c1 c2 x c : inner_arrays i (l1 ++ l2) (c1 ++ c2) -> length c1 = S (length l1) -> length c2 = length l2 -> (length (l1 ++ l2) < 15)%nat ->
  exists i1 i2, shift_up i (Z.of_nat (length l1) + 1) (Z.of_nat (length l1)) (nkeys_ i - Z.of_nat (length l1)) = Ok i1 /\ inner_assign i1 (Z.of_nat (length l1)) x c = Ok i2
    /\ inner_arrays (set_keys (u8 (nkeys_ i2 + 1)) (i_ikey0_ i2) (child_ i2) i2) (l1 ++ x :: l2) (c1 ++ c :: c2) /\ i_version i1 = i_version i /\ i_parent_ i1 = i_parent_ i /\ i_version i2 = i_version i /\ i_parent_ i2 = i_parent_ i.
Proof.
  intros (kt & ct & Hk & Hc & Hlk & Hlc & Hn) Hc1 Hc2 Hlt. rewrite length_app in *. destruct kt as [|ky kt]; [rewrite Hk, app_nil_r, length_app in Hlk; lia|].
  destruct ct as [|cy ct]; [rewrite Hc, app_nil_r, length_app in Hlc; lia|].
  destruct (memmove_gap l1 l2 kt ky x) as (ks1 & Hm1 & Hl1 & Hs1). destruct (memmove_gap c1 c2 ct cy c) as (cs1 & Hm2 & Hl2 & Hs2).
  rewrite app_assoc, <- Hk in Hm1, Hl1. rewrite app_assoc, <- Hc in Hm2, Hl2.
  exists (set_keys (nkeys_ i) ks1 cs1 i), (set_keys (nkeys_ i) (l1 ++ x :: l2 ++ kt) (c1 ++ c :: c2 ++ ct) i). split.
  { unfold shift_up. rewrite Hn. replace (Z.of_nat (length l1 + length l2) - Z.of_nat (length l1)) with (Z.of_nat (length l2)) by lia. rewrite Hm1. cbn [mbind outcome_bind].
    replace (Z.of_nat (length l1) + 1 + 1) with (Z.of_nat (length c1) + 1) by lia. replace (Z.of_nat (length l1) + 1) with (Z.of_nat (length c1)) by lia. rewrite <- Hc2, Hm2. done. }
  split.
  { unfold inner_assign. cbn [child_ i_ikey0_ set_keys]. replace (Z.of_nat (length l1) + 1) with (Z.of_nat (length c1)) by lia. rewrite Hs2. cbn [mbind outcome_bind]. by rewrite Hs1. }
  split; [|done]. exists kt, ct. cbn [child_ i_ikey0_ nkeys_ set_keys]. rewrite <- !app_assoc. split; [done|]. split; [done|]. rewrite Hk in Hlk. rewrite Hc in Hlc. rewrite !length_app in *. simpl in *.
  rewrite !length_app. split_and!; [lia|lia|]. unfold u8. rewrite wrap_small; lia.
Qed.

(** ** Splitting *)
Lemma array_get_nat {A} (l : list A) (z : Z) (i : nat) x : z = Z.of_nat i -> l !! i = Some x -> array_get l z = Ok x.
Proof. intros ->. apply array_get_lookup. Qed.
Lemma memcpy_to {A} (dst src : list A) (d s n : nat) zd zs zn : zd = Z.of_nat d -> zs = Z.of_nat s -> zn = Z.of_nat n -> (d + n <= length dst)%nat -> (s + n <= length src)%nat ->
  memcpy dst zd src zs zn = Ok (take d dst ++ take n (drop s src) ++ drop (d + n) dst).
Proof. intros -> -> ->. apply memcpy_nat. Qed.
(** The lists of the right node after [shift_from] behind the lists [ks] and [cs]. *)
Lemma shift_from_ok (nr i : internode) ks cs xp n : (length ks + n <= 15)%nat -> length (i_ikey0_ nr) = 15%nat -> length (child_ nr) = 16%nat -> take (length ks) (i_ikey0_ nr) = ks -> take (S (length ks)) (child_ nr) = cs ->
  (xp + n <= length (i_ikey0_ i))%nat -> (S xp + n <= length (child_ i))%nat -> exists nr', shift_from nr (Z.of_nat (length ks)) i (Z.of_nat xp) (Z.of_nat n) = Ok nr'
    /\ i_version nr' = i_version nr /\ i_parent_ nr' = i_parent_ nr /\ nkeys_ nr' = nkeys_ nr /\ length (i_ikey0_ nr') = 15%nat /\ length (child_ nr') = 16%nat
    /\ take (length ks + n) (i_ikey0_ nr') = ks ++ take n (drop xp (i_ikey0_ i)) /\ take (S (length ks + n)) (child_ nr') = cs ++ take n (drop (S xp) (child_ i)).
Proof.
  intros Hn Hlk Hlc Hks Hcs Hik Hic. unfold shift_from. destruct (Z.eqb_spec (Z.of_nat n) 0) as [H0|H0].
  { assert (n = 0)%nat as -> by lia. exists nr. rewrite Nat.add_0_r. split_and!; try done; by rewrite take_0, app_nil_r. }
  rewrite (memcpy_to (i_ikey0_ nr) (i_ikey0_ i) (length ks) xp n) by lia. cbn [mbind outcome_bind]. rewrite (memcpy_to (child_ nr) (child_ i) (S (length ks)) (S xp) n) by lia. cbn [mbind outcome_bind]. eexists. split; [done|]. rewrite Hks, Hcs. cbn [i_version i_parent_ nkeys_ i_ikey0_ child_ set_keys].
  assert (Hlcs : length cs = S (length ks)) by (rewrite <- Hcs, length_take; lia). assert (Ht1 : length (take n (drop xp (i_ikey0_ i))) = n) by (rewrite length_take, length_drop; lia). assert (Ht2 : length (take n (drop (S xp) (child_ i))) = n) by (rewrite length_take, length_drop; lia).
  split; [done|]. split; [done|]. split; [done|]. rewrite !length_app, Ht1, Ht2, !length_drop. split; [lia|]. split; [lia|]. rewrite !app_assoc. split; apply take_app_length'; rewrite length_app; lia.
Qed.
Lemma arrays_of_take i ks cs : length (i_ikey0_ i) = 15%nat -> length (child_ i) = 16%nat -> nkeys_ i = Z.of_nat (length ks) -> take (length ks) (i_ikey0_ i) = ks -> take (length cs) (child_ i) = cs -> inner_arrays i ks cs.
Proof.
  intros Hk Hc Hn Htk Htc. pose proof (take_drop (length ks) (i_ikey0_ i)) as H1. pose proof (take_drop (length cs) (child_ i)) as H2. rewrite Htk in H1. rewrite Htc in H2.
  by exists (drop (length ks) (i_ikey0_ i)), (drop (length cs) (child_ i)).
Qed.
Lemma array_set_nat {A} (l : list A) (z : Z) (i : nat) x : z = Z.of_nat i -> (i < length l)%nat -> array_set l z x = Ok (<[i := x]> l).
Proof. intros ->. apply array_set_ok. Qed.
Lemma take_insert_next {A} (l : list A) i x : (i < length l)%nat -> take (S i) (<[i := x]> l) = take i l ++ [x].
Proof. intros Hi. rewrite (take_S_r _ _ x) by (by apply list_lookup_insert_eq). by rewrite take_insert_ge by lia. Qed.
Lemma set_keys_keys n ks cs n' ks' cs' i : set_keys n ks cs (set_keys n' ks' cs' i) = set_keys n ks cs i.
Proof. done. Qed.
Section InnerSplit.
Context (i nr : internode) (l1 l2 c1 c2 : list Z) (x c st : Z).
Context (Hk : i_ikey0_ i = l1 ++ l2) (Hc : child_ i = c1 ++ c2) (Hlen : (length l1 + length l2 = 15)%nat) (Hc1 : length c1 = S (length l1)) (Hc2 : length c2 = length l2).
Context (Hnk : length (i_ikey0_ nr) = 15%nat) (Hnc : length (child_ nr) = 16%nat).
Definition mid_of : nat := if st =? 2 then 15 else 8.
#[local] Abbreviation mid := mid_of.
Lemma mid_range : (8 <= mid <= 15)%nat.
Proof. unfold mid_of. destruct (st =? 2); lia. Qed.
(** The right node and the separator, in the three cases of [split_into]. *)
Definition right_of (n : internode) : Prop := i_version n = i_version nr /\ i_parent_ n = i_parent_ nr /\ inner_arrays n (drop (S mid) (l1 ++ x :: l2)) (drop (S mid) (c1 ++ c :: c2)).
Lemma child_first (d : Z) : array_set (child_ nr) 0 d = Ok (<[0%nat := d]> (child_ nr)) /\ take 1 (<[0%nat := d]> (child_ nr)) = [d].
Proof. split; [apply array_set_nat; [done|lia]|]. by rewrite take_insert_next by lia. Qed.
#[local] Abbreviation nr0 d := (set_keys (Z.of_nat (15 - mid)) (i_ikey0_ nr) (<[0%nat := d]> (child_ nr)) nr).
Lemma split_right_low : (length l1 <= mid)%nat -> forall d,
  exists n, shift_from (nr0 d) 0 i (Z.of_nat mid) (15 - Z.of_nat mid) = Ok n /\ (drop (S mid) (c1 ++ c :: c2) = d :: drop (S mid) (c1 ++ c2) -> right_of n).
Proof.
  intros Hp d. pose proof mid_range as Hm. destruct (shift_from_ok (nr0 d) i [] [d] mid (15 - mid)) as (n & Hrun & Hv & Hpa & Hn & Hl1 & Hl2 & Ht1 & Ht2); simpl; try done; try lia.
  - by rewrite length_insert.
  - by apply child_first.
  - rewrite Hk, length_app. lia.
  - rewrite Hc, length_app. lia.
  - exists n. split; [by replace (15 - Z.of_nat mid) with (Z.of_nat (15 - mid)) by lia|]. intros Hch. split; [done|]. split; [done|]. cbn [app length] in Ht1, Ht2. rewrite Hk, (take_ge (drop mid (l1 ++ l2))) in Ht1 by (rewrite length_drop, length_app; lia). rewrite Hc, (take_ge (drop (S mid) (c1 ++ c2))) in Ht2 by (rewrite length_drop, length_app; lia).
    rewrite drop_past by lia. rewrite Hch. assert (Hlk : length (drop mid (l1 ++ l2)) = (15 - mid)%nat) by (rewrite length_drop, length_app; lia). assert (Hlc : length (d :: drop (S mid) (c1 ++ c2)) = S (15 - mid)) by (simpl; rewrite length_drop, length_app; lia).
    apply arrays_of_take; [done|done|by rewrite Hn, Hlk|by rewrite Hlk|by rewrite Hlc].
Qed.
Lemma split_right_high d : (mid < length l1)%nat -> c1 !! S mid = Some d -> exists n1 n2 n3,
  shift_from (nr0 d) 0 i (Z.of_nat mid + 1) (Z.of_nat (length l1) - (Z.of_nat mid + 1)) = Ok n1 /\ inner_assign n1 (Z.of_nat (length l1) - (Z.of_nat mid + 1)) x c = Ok n2
  /\ shift_from n2 (Z.of_nat (length l1) + 1 - (Z.of_nat mid + 1)) i (Z.of_nat (length l1)) (15 - Z.of_nat (length l1)) = Ok n3 /\ right_of n3.
Proof.
  intros Hp Hd. pose proof mid_range as Hm. set (q := (length l1 - S mid)%nat). set (k1 := drop (S mid) l1). set (d1 := drop (S mid) c1).
  assert (Hlk1 : length k1 = q) by (unfold k1; rewrite length_drop; lia). assert (Hld1 : length d1 = S q) by (unfold d1; rewrite length_drop; lia).
  destruct (shift_from_ok (nr0 d) i [] [d] (S mid) q) as (n1 & Hr1 & Hv1 & Hp1 & Hn1 & Hlk & Hlc & Ht1 & Ht2); simpl; try done; try lia.
  { by rewrite length_insert. } { by apply child_first. } { rewrite Hk, length_app. lia. } { rewrite Hc, length_app. lia. }
  cbn [app length] in Ht1, Ht2. assert (Ht1' : take q (i_ikey0_ n1) = k1).
  { etrans; [exact Ht1|]. rewrite Hk, drop_app_le by lia. by apply take_app_length'. }
  assert (Ht2' : take (S q) (child_ n1) = d1).
  { etrans; [exact Ht2|]. unfold d1. rewrite (drop_S _ _ _ Hd). f_equal. rewrite Hc, drop_app_le by lia. apply take_app_length'. rewrite length_drop. lia. }
  set (n2 := set_keys (nkeys_ n1) (<[q := x]> (i_ikey0_ n1)) (<[S q := c]> (child_ n1)) n1).
  destruct (shift_from_ok n2 i (k1 ++ [x]) (d1 ++ [c]) (length l1) (15 - length l1)) as (n3 & Hr3 & Hv3 & Hp3 & Hn3 & Hlk3 & Hlc3 & Ht31 & Ht32).
  { rewrite length_app. simpl. lia. } { simpl. by rewrite length_insert. } { simpl. by rewrite length_insert. }
  { rewrite length_app, Hlk1. simpl. rewrite Nat.add_1_r, take_insert_next by lia. by rewrite Ht1'. }
  { rewrite length_app, Hlk1. cbn [length child_ n2 set_keys]. rewrite Nat.add_1_r, take_insert_next by lia. by rewrite Ht2'. }
  { rewrite Hk, length_app. lia. } { rewrite Hc, length_app. lia. }
  exists n1, n2, n3. split.
  { replace (Z.of_nat mid + 1) with (Z.of_nat (S mid)) by lia. replace (Z.of_nat (length l1) - Z.of_nat (S mid)) with (Z.of_nat q) by lia. exact Hr1. }
  split.
  { replace (Z.of_nat (length l1) - (Z.of_nat mid + 1)) with (Z.of_nat q) by lia. unfold inner_assign. rewrite (array_set_nat (child_ n1) _ (S q)) by lia. cbn [mbind outcome_bind]. rewrite (array_set_nat (i_ikey0_ n1) _ q) by lia. done. }
  split.
  { rewrite length_app, Hlk1 in Hr3. simpl in Hr3. replace (Z.of_nat (length l1) + 1 - (Z.of_nat mid + 1)) with (Z.of_nat (q + 1)) by lia. by replace (15 - Z.of_nat (length l1)) with (Z.of_nat (15 - length l1)) by lia. }
  assert (Hks : drop (S mid) (l1 ++ x :: l2) = (k1 ++ [x]) ++ l2) by (rewrite drop_app_le by lia; by rewrite <- app_assoc).
  assert (Hcs : drop (S mid) (c1 ++ c :: c2) = (d1 ++ [c]) ++ c2) by (rewrite drop_app_le by lia; by rewrite <- app_assoc).
  rewrite Hk, drop_app_length, (take_ge l2) in Ht31 by lia. rewrite Hc, (drop_app_length' c1 c2), (take_ge c2) in Ht32 by lia. unfold right_of. rewrite Hks, Hcs.
  assert (Hl31 : length ((k1 ++ [x]) ++ l2) = (length (k1 ++ [x]) + (15 - length l1))%nat) by (rewrite (length_app (k1 ++ [x])); lia).
  assert (Hl32 : length ((d1 ++ [c]) ++ c2) = S (length (k1 ++ [x]) + (15 - length l1))) by (rewrite !length_app; simpl; lia).
  split; [rewrite Hv3; exact Hv1|]. split; [rewrite Hp3; exact Hp1|]. apply arrays_of_take; [done|done| |by rewrite Hl31|by rewrite Hl32].
  rewrite Hn3. cbn [nkeys_ n2 set_keys]. rewrite Hn1. cbn [nkeys_ set_keys]. rewrite Hl31, length_app. simpl. lia.
Qed.
(** What [split_into] makes of a full node. *)
Lemma internode_split_ok : exists n i' sep, inner_split_into i nr (Z.of_nat (length l1)) x c st = Ok (n, i', sep, if decide (length l1 < mid)%nat then Z.of_nat (length l1) else -1)
  /\ (l1 ++ x :: l2) !! mid = Some sep /\ right_of n /\ i_version i' = mark_split P (i_version i) /\ i_parent_ i' = i_parent_ i
  /\ if decide (length l1 < mid)%nat then inner_arrays i' (l1 ++ take (mid - S (length l1)) l2) (c1 ++ take (mid - S (length l1)) c2)
     else inner_arrays i' (take mid (l1 ++ x :: l2)) (take (S mid) (c1 ++ c :: c2)).
Proof.
  pose proof mid_range as Hm. unfold inner_split_into. assert ((if st =? 2 then node_width else (node_width + 1) / 2) = Z.of_nat mid) as -> by (unfold mid_of; by destruct (st =? 2)).
  replace (node_width + 1 - (Z.of_nat mid + 1)) with (Z.of_nat (15 - mid)) by (unfold node_width; lia). change (node_width - Z.of_nat mid) with (15 - Z.of_nat mid). cbn [i_ikey0_ child_ nkeys_ set_keys].
  assert (Harr : forall n ks' cs' kt ct, l1 ++ l2 = ks' ++ kt -> c1 ++ c2 = cs' ++ ct -> n = Z.of_nat (length ks') -> inner_arrays (mkInternode (mark_split P (i_version i)) n (i_ikey0_ i) (child_ i) (i_parent_ i)) ks' cs').
  { intros n ks' cs' kt ct H1 H2 ->. exists kt, ct. cbn [i_ikey0_ child_ nkeys_]. rewrite Hk, Hc. split; [done|]. split; [done|]. rewrite !length_app. lia. }
  destruct (Z.ltb_spec (Z.of_nat (length l1)) (Z.of_nat mid)) as [Hlt|Hge].
  - destruct (decide (length l1 < mid)%nat) as [_|]; [|lia]. destruct (lookup_lt_is_Some_2 (c1 ++ c2) mid) as [d Hd]; [rewrite length_app; lia|]. rewrite (array_get_nat (child_ i) _ mid d) by (done || by rewrite Hc). cbn [mbind outcome_bind]. rewrite (proj1 (child_first d)). cbn [mbind outcome_bind]. rewrite set_keys_keys.
    destruct (split_right_low ltac:(lia) d) as (n & Hrun & Hright). rewrite Hrun. cbn [mbind outcome_bind].
    destruct (lookup_lt_is_Some_2 (l1 ++ l2) (mid - 1)) as [sep Hsep]; [rewrite length_app; lia|]. rewrite (array_get_nat (i_ikey0_ i) _ (mid - 1) sep) by (lia || by rewrite Hk). cbn [mbind outcome_bind].
    eexists n, _, sep. split; [done|]. split; [|split; [|split; [done|split; [done|]]]].
    + rewrite <- Hsep. rewrite !lookup_app_r by lia. by replace (mid - length l1)%nat with (S (mid - 1 - length l1)) by lia.
    + apply Hright. rewrite drop_past by lia. by apply drop_S.
    + apply (Harr _ _ _ (drop (mid - S (length l1)) l2) (drop (mid - S (length l1)) c2)); [by rewrite <- app_assoc, take_drop..|]. rewrite length_app, length_take. lia.
  - destruct (decide (length l1 < mid)%nat) as [|_]; [lia|]. destruct (Z.eqb_spec (Z.of_nat (length l1)) (Z.of_nat mid)) as [He|Hne].
    + rewrite (proj1 (child_first c)). cbn [mbind outcome_bind]. rewrite set_keys_keys. destruct (split_right_low ltac:(lia) c) as (n & Hrun & Hright). rewrite Hrun. cbn [mbind outcome_bind]. eexists n, _, x. split; [done|]. assert (length l1 = mid) as Hl by lia.
      split; [by apply list_lookup_middle|]. split; [|split; [done|split; [done|]]].
      * apply Hright. rewrite <- Hl. rewrite !drop_app_length' by lia. done.
      * rewrite <- Hl. rewrite take_app_length, take_app_length' by lia. by apply (Harr _ _ _ l2 c2).
    + destruct (lookup_lt_is_Some_2 c1 (S mid)) as [d Hd]; [lia|]. rewrite (array_get_nat (child_ i) _ (S mid) d) by (lia || (rewrite Hc; by apply lookup_app_l_Some)). cbn [mbind outcome_bind]. rewrite (proj1 (child_first d)). cbn [mbind outcome_bind]. rewrite set_keys_keys.
      destruct (split_right_high d ltac:(lia) Hd) as (n1 & n2 & n3 & H1 & H2 & H3 & Hright). rewrite H1. cbn [mbind outcome_bind]. rewrite H2. cbn [mbind outcome_bind].
      change (node_width - Z.of_nat (length l1)) with (15 - Z.of_nat (length l1)). rewrite H3. cbn [mbind outcome_bind].
      destruct (lookup_lt_is_Some_2 l1 mid) as [sep Hsep]; [lia|]. rewrite (array_get_nat (i_ikey0_ i) _ mid sep) by (done || (rewrite Hk; by apply lookup_app_l_Some)). cbn [mbind outcome_bind].
      eexists n3, _, sep. split; [done|]. split; [by apply lookup_app_l_Some|]. split; [done|]. split; [done|]. split; [done|]. rewrite (take_before l1 (x :: l2) l2) by lia. rewrite (take_before c1 (c :: c2) c2) by lia.
      apply (Harr _ _ _ (drop mid (l1 ++ l2)) (drop (S mid) (c1 ++ c2))); [by rewrite take_drop..|]. rewrite length_take, length_app. lia.
Qed.
End InnerSplit.
