(* ===== verification/MassGhost.v ===== *)
(** * Splits and the ranges of nodes

    What a split does to layers, levels and ranges, apart from the nodes in memory: a node is
    cut in two, and its parent learns of the new half or a new root is put above both. *)

From S2P Require Import Prelude Permuter KSearch NodeVersion MassKey MassBag MassNode MassTree MassLeaf MassSplit MassInv.

Record ghost_ok (G V : ghosts) (E : dict) : Prop := {
  go_addr p : is_Some (G !! p) -> 0 < p /\ p mod 64 = 0;
  go_span p g : G !! p = Some g -> 0 <= lo g /\ lo g < hi g /\ hi g <= 2 ^ 64;
  go_disj p q g h x : G !! p = Some g -> G !! q = Some h -> layer g = layer h -> level g = level h -> covers g x -> covers h x -> p = q;
  go_view p g : V !! p = Some g -> exists h, G !! p = Some h /\ layer h = layer g /\ level h = level g /\ lo h = lo g /\ up h = up g /\ hi h <= hi g;
  go_up p g : V !! p = Some g -> if decide (up g = 0) then lo g = 0 /\ hi g = 2 ^ 64
    else exists h, G !! up g = Some h /\ layer h = layer g /\ level h = S (level g) /\ lo h <= lo g /\ hi g <= hi h;
  go_layer p g pi x : G !! p = Some g -> layer g = pi ++ [x] -> exists link, E !! (pi, (x, 9)) = Some (CLayer link);
  go_link pi k r : E !! (pi, k) = Some (CLayer r) -> k.2 = 9 /\ exists g, V !! r = Some g /\ layer g = pi ++ [k.1] /\ lo g = 0;
  go_entry pi k c : E !! (pi, k) = Some c -> exists p g, G !! p = Some g /\ layer g = pi /\ level g = 0%nat /\ covers g k.1 }.
Lemma tree_ghost N G V E X L : tree_ok N G V E X L -> ghost_ok G V E.
Proof. by intros []. Qed.
Lemma tree_intro N G V E X L : ghost_ok G V E -> (forall p, is_Some (N !! p) <-> is_Some (G !! p)) -> (forall p g n, G !! p = Some g -> N !! p = Some n -> node_ok G V E X L p g n) -> tree_ok N G V E X L.
Proof. by intros []. Qed.

(** The node [n], with the ghost [g] in the eyes of its parent, has been cut at [x]; the new
    half is [child]. *)
Record pending (G V : ghosts) (n child x : Z) (g : ghost) : Prop := {
  pd_view : V !! n = Some g;
  pd_left : G !! n = Some (mkG (layer g) (level g) (lo g) x (up g));
  pd_right : exists u, G !! child = Some (mkG (layer g) (level g) x (hi g) u);
  pd_gone : V !! child = None;
  pd_cut : lo g < x < hi g;
  pd_same q : q <> n -> q <> child -> V !! q = G !! q }.

(** ** Cutting a node *)
Definition set_up (u : Z) (g : ghost) : ghost := mkG (layer g) (level g) (lo g) (hi g) u.
Definition reup (R : list Z) (q : Z) (V : ghosts) : ghosts := map_imap (fun c g => Some (if decide (c ∈ R) then set_up q g else g)) V.
Lemma reup_lookup R q V c : reup R q V !! c = ((fun g => if decide (c ∈ R) then set_up q g else g) <$> (V !! c)).
Proof. unfold reup. rewrite map_lookup_imap. by destruct (V !! c). Qed.
Section Cut.
Context (V : ghosts) (E : dict) (HV : ghost_ok V V E) (p nc sep : Z) (g : ghost) (R : list Z).
Context (Hp : V !! p = Some g) (Hnc : V !! nc = None) (Hnc0 : 0 < nc /\ nc mod 64 = 0) (Hsep : lo g < sep < hi g).
Context (HR : forall c, c ∈ R -> exists gc, V !! c = Some gc /\ up gc = p /\ sep <= lo gc) (HL : forall c gc, V !! c = Some gc -> up gc = p -> c ∉ R -> hi gc <= sep).
Definition cut_view : ghosts := reup R nc V.
Definition cut_ghosts : ghosts := <[nc := mkG (layer g) (level g) sep (hi g) 0]> (<[p := mkG (layer g) (level g) (lo g) sep (up g)]> cut_view).
Lemma cut_not_moved : (p ∉ R) /\ (nc ∉ R) /\ p <> nc.
Proof.
  split; [|split].
  - intros (gc & Hgc & Hup & _)%HR. rewrite Hp in Hgc. injection Hgc as <-. pose proof (go_up _ _ _ HV p g Hp) as Hu. destruct (go_addr _ _ _ HV p ltac:(eauto)). rewrite decide_False in Hu by lia. destruct Hu as (h & Hh & _ & Hl & _). rewrite Hup, Hp in Hh. injection Hh as <-. lia.
  - intros (gc & Hgc & _)%HR. congruence.
  - intros ->. congruence.
Qed.
Lemma cut_view_at q h : cut_view !! q = Some h <-> exists h0, V !! q = Some h0 /\ h = if decide (q ∈ R) then set_up nc h0 else h0.
Proof. unfold cut_view. rewrite reup_lookup, fmap_Some. split; intros (h0 & H1 & H2); exists h0; (split; [exact H1|exact H2]). Qed.
Lemma cut_place q h : cut_view !! q = Some h -> exists h0, V !! q = Some h0 /\ layer h = layer h0 /\ level h = level h0 /\ lo h = lo h0 /\ hi h = hi h0.
Proof. intros (h0 & Hh & ->)%cut_view_at. exists h0. by case_decide. Qed.
Lemma cut_at q h : cut_ghosts !! q = Some h -> (q = nc /\ h = mkG (layer g) (level g) sep (hi g) 0) \/ (q = p /\ h = mkG (layer g) (level g) (lo g) sep (up g)) \/ (q <> nc /\ q <> p /\ cut_view !! q = Some h).
Proof. unfold cut_ghosts. intros [[<- <-]|[? [[<- <-]|[? ?]]%lookup_insert_Some]]%lookup_insert_Some; auto. Qed.
Lemma cut_right : cut_ghosts !! nc = Some (mkG (layer g) (level g) sep (hi g) 0).
Proof. apply lookup_insert_eq. Qed.
Lemma cut_left : cut_ghosts !! p = Some (mkG (layer g) (level g) (lo g) sep (up g)).
Proof. destruct cut_not_moved as (_ & _ & ?). unfold cut_ghosts. rewrite lookup_insert_ne by done. apply lookup_insert_eq. Qed.
Lemma cut_other q : q <> p -> q <> nc -> cut_ghosts !! q = cut_view !! q.
Proof. intros. unfold cut_ghosts. by rewrite !lookup_insert_ne. Qed.
Lemma cut_view_p : cut_view !! p = Some g.
Proof. apply cut_view_at. exists g. split; [done|]. rewrite decide_False; [done|apply cut_not_moved]. Qed.
(** What every node of the cut tree is part of. *)
Lemma cut_from q h : cut_ghosts !! q = Some h -> exists q0 h0, V !! q0 = Some h0 /\ layer h = layer h0 /\ level h = level h0 /\ (forall x, covers h x -> covers h0 x) /\ (q = q0 \/ (q = nc /\ q0 = p)).
Proof.
  intros [[-> ->]|[[-> ->]|(_ & _ & Hq)]]%cut_at.
  - exists p, g. split_and!; try done; [unfold covers; simpl; lia|by right].
  - exists p, g. split_and!; try done; [unfold covers; simpl; lia|by left].
  - destruct (cut_place q h Hq) as (h0 & H0 & ? & ? & H1 & H2). exists q, h0. split_and!; try done; [unfold covers; rewrite H1, H2; done|by left].
Qed.
Lemma cut_disj q1 q2 h1 h2 x : cut_ghosts !! q1 = Some h1 -> cut_ghosts !! q2 = Some h2 -> layer h1 = layer h2 -> level h1 = level h2 -> covers h1 x -> covers h2 x -> q1 = q2.
Proof.
  intros H1 H2 Hla Hlv Hc1 Hc2. destruct (cut_from q1 h1 H1) as (p1 & g1 & G1 & Ea & Eb & Ec & Ed), (cut_from q2 h2 H2) as (p2 & g2 & G2 & Fa & Fb & Fc & Fd).
  assert (p1 = p2) as <- by (eapply (go_disj _ _ _ HV); [exact G1|exact G2|congruence|congruence|by apply Ec|by apply Fc]). destruct Ed as [Ed|[Ed Ed']], Fd as [Fd|[Fd Fd']]; [congruence| | |congruence].
  - rewrite Ed, Fd', cut_left in H1. injection H1 as <-. rewrite Fd, cut_right in H2. injection H2 as <-. unfold covers in *. simpl in *. lia.
  - rewrite Fd, Ed', cut_left in H2. injection H2 as <-. rewrite Ed, cut_right in H1. injection H1 as <-. unfold covers in *. simpl in *. lia.
Qed.
Lemma cut_up q h : cut_view !! q = Some h -> if decide (up h = 0) then lo h = 0 /\ hi h = 2 ^ 64
    else exists h', cut_ghosts !! up h = Some h' /\ layer h' = layer h /\ level h' = S (level h) /\ lo h' <= lo h /\ hi h <= hi h'.
Proof.
  intros (h0 & H0 & ->)%cut_view_at. pose proof (go_up _ _ _ HV q h0 H0) as Hu. destruct (go_addr _ _ _ HV p ltac:(eauto)) as [Hp0 _]. destruct (decide (q ∈ R)) as [HqR|HqR].
  - cbn [up set_up lo hi layer level]. rewrite (decide_False (P := nc = 0)) by lia. destruct (HR q HqR) as (gc & Hgc & Hup & Hlo). rewrite H0 in Hgc. injection Hgc as <-. rewrite decide_False in Hu by lia. destruct Hu as (h & Hh & Hla & Hlv & _ & Hhi). rewrite Hup, Hp in Hh. injection Hh as <-.
    exists (mkG (layer g) (level g) sep (hi g) 0). split; [apply cut_right|]. done.
  - case_decide as Hup; [done|]. destruct Hu as (h & Hh & Hla & Hlv & Hlo & Hhi). destruct (decide (up h0 = p)) as [Hupp|Hne].
    + rewrite Hupp, Hp in Hh. injection Hh as <-. exists (mkG (layer g) (level g) (lo g) sep (up g)). split; [rewrite Hupp; apply cut_left|]. split; [done|]. split; [done|]. split; [done|]. by apply (HL q h0).
    + assert (up h0 <> nc) by congruence. rewrite cut_other by done. exists (if decide (up h0 ∈ R) then set_up nc h else h). split; [apply cut_view_at; by exists h|]. by case_decide.
Qed.
Lemma ghost_cut : ghost_ok cut_ghosts cut_view E /\ pending cut_ghosts cut_view p nc sep g.
Proof.
  destruct cut_not_moved as (HpR & HncR & Hne). split; [split|split].
  - intros q [h Hq]. destruct (cut_from q h Hq) as (q0 & h0 & H0 & _ & _ & _ & [->|[-> _]]); [by apply (go_addr _ _ _ HV); eauto|done].
  - intros q h [[-> ->]|[[-> ->]|(_ & _ & Hq)]]%cut_at; pose proof (go_span _ _ _ HV p g Hp); simpl; [lia..|]. destruct (cut_place q h Hq) as (h0 & H0 & _ & _ & -> & ->). by apply (go_span _ _ _ HV q).
  - exact cut_disj.
  - intros q h Hq. destruct (decide (q = p)) as [->|Hqp]; [rewrite cut_view_p in Hq; injection Hq as <-; eexists; split; [apply cut_left|]; simpl; split_and!; try done; lia|].
    exists h. rewrite cut_other; [done|done|]. intros ->. apply cut_view_at in Hq as (h0 & H0 & _). congruence.
  - exact cut_up.
  - intros q h pi x Hq Hla. destruct (cut_from q h Hq) as (q0 & h0 & H0 & Hl & _). apply (go_layer _ _ _ HV q0 h0 pi x H0). congruence.
  - intros pi k r Hl. destruct (go_link _ _ _ HV pi k r Hl) as [H9 (h & Hh & Hla & Hlo)]. split; [done|]. exists (if decide (r ∈ R) then set_up nc h else h). split; [apply cut_view_at; by exists h|]. by case_decide.
  - intros pi k c He. destruct (go_entry _ _ _ HV pi k c He) as (q & h & Hq & Hla & Hlv & Hc). destruct (decide (q = p)) as [->|Hqp].
    + rewrite Hp in Hq. injection Hq as <-. destruct (Z.lt_ge_cases k.1 sep) as [Hlt|Hge].
      * eexists p, _. split; [apply cut_left|]. split; [done|]. split; [done|]. unfold covers in *. simpl. lia.
      * eexists nc, _. split; [apply cut_right|]. split; [done|]. split; [done|]. unfold covers in *. simpl. lia.
    + exists q, (if decide (q ∈ R) then set_up nc h else h). assert (q <> nc) by congruence. rewrite cut_other by done. split; [apply cut_view_at; by exists h|]. by case_decide.
  - apply cut_view_p.
  - apply cut_left.
  - exists 0. apply cut_right.
  - unfold cut_view. by rewrite reup_lookup, Hnc.
  - done.
  - intros q H1 H2. by rewrite cut_other.
Qed.
End Cut.

(** ** The parent learns of the new half *)
Definition same_place (g h : ghost) : Prop := layer g = layer h /\ level g = level h /\ lo g = lo h /\ hi g = hi h.
(** Changing only parents keeps everything but the parents. *)
Lemma ghost_reparent G V E V1 : ghost_ok G V E -> (forall q, is_Some (V1 !! q) -> is_Some (G !! q)) -> (forall q h, G !! q = Some h -> exists h1, V1 !! q = Some h1 /\ same_place h1 h) ->
  (forall q h, V1 !! q = Some h -> if decide (up h = 0) then lo h = 0 /\ hi h = 2 ^ 64 else exists h', V1 !! up h = Some h' /\ layer h' = layer h /\ level h' = S (level h) /\ lo h' <= lo h /\ hi h <= hi h') -> ghost_ok V1 V1 E.
Proof.
  intros HG Hdom Hfwd Hup. assert (Hback : forall q h1, V1 !! q = Some h1 -> exists h, G !! q = Some h /\ same_place h1 h).
  { intros q h1 H1. destruct (Hdom q ltac:(eauto)) as [h Hh]. destruct (Hfwd q h Hh) as (h1' & H1' & Hs). rewrite H1 in H1'. injection H1' as <-. eauto. }
  assert (Hcov : forall g h x, same_place g h -> covers g x <-> covers h x) by (intros g h x (_ & _ & E1 & E2); unfold covers; by rewrite E1, E2).
  split; try done.
  - intros q Hq. by apply (go_addr _ _ _ HG), Hdom.
  - intros q h (h0 & H0 & _ & _ & -> & ->)%Hback. by apply (go_span _ _ _ HG q).
  - intros q1 q2 h1 h2 x (g1 & G1 & S1)%Hback (g2 & G2 & S2)%Hback Hla Hlv C1 C2. pose proof S1 as (? & ? & _). pose proof S2 as (? & ? & _). apply (go_disj _ _ _ HG q1 q2 g1 g2 x G1 G2); [congruence|congruence|by apply (Hcov h1 g1 x S1)|by apply (Hcov h2 g2 x S2)].
  - intros q h Hq. by exists h.
  - intros q h pi x (h0 & H0 & Hla & _)%Hback Hl. apply (go_layer _ _ _ HG q h0 pi x H0). congruence.
  - intros pi k r Hl. destruct (go_link _ _ _ HG pi k r Hl) as [H9 (h & Hh & Hla & Hlo)]. split; [done|]. destruct (go_view _ _ _ HG r h Hh) as (h' & Hh' & ? & _ & ? & _). destruct (Hfwd r h' Hh') as (h1 & H1 & ? & _ & ? & _). exists h1. split; [done|]. split; congruence.
  - intros pi k c He. destruct (go_entry _ _ _ HG pi k c He) as (q & h & Hq & Hla & Hlv & Hc). destruct (Hfwd q h Hq) as (h1 & H1 & Hs). pose proof Hs as (? & ? & _). exists q, h1. split; [done|]. split; [congruence|]. split; [congruence|by apply (Hcov h1 h _ Hs)].
Qed.
Section Resolve.
Context (G V : ghosts) (E : dict) (HG : ghost_ok G V E) (n child x : Z) (g : ghost) (Hpd : pending G V n child x g).
Lemma pending_ne : n <> child.
Proof. intros ->. destruct Hpd as [H1 _ _ H2 _ _]. congruence. Qed.
Definition adopted (p : Z) : ghosts := <[child := mkG (layer g) (level g) x (hi g) p]> G.
Lemma parent_ne h p : G !! p = Some h -> level h = S (level g) -> p <> n /\ p <> child.
Proof. intros Hp Hl. destruct Hpd as [_ H1 [u H2] _ _ _]. split; intros ->; rewrite Hp in *; simplify_eq; simpl in Hl; lia. Qed.
Lemma ghost_adopted p : up g = p -> p <> 0 -> ghost_ok (adopted p) (adopted p) E.
Proof.
  intros Hup Hp0. pose proof (go_up _ _ _ HG n g (pd_view _ _ _ _ _ _ Hpd)) as Hu. rewrite decide_False in Hu by congruence. destruct Hu as (h & Hh & Hla & Hlv & Hlo & Hhi). rewrite Hup in Hh.
  destruct (parent_ne h p Hh Hlv) as [Hpn Hpc]. pose proof (pd_cut _ _ _ _ _ _ Hpd) as Hx. destruct (pd_right _ _ _ _ _ _ Hpd) as [u Hch].
  assert (Hplace : forall q h, G !! q = Some h -> exists h1, adopted p !! q = Some h1 /\ same_place h1 h).
  { intros q hq Hq. unfold adopted. destruct (decide (q = child)) as [->|]; [rewrite lookup_insert_eq; rewrite Hch in Hq; injection Hq as <-; by eexists|]. rewrite lookup_insert_ne by done. by exists hq. }
  apply (ghost_reparent G V); [done| |exact Hplace|].
  - intros q. unfold adopted. destruct (decide (q = child)) as [->|]; [rewrite Hch; eauto|by rewrite lookup_insert_ne].
  - intros q hq. unfold adopted at 1. intros [[<- <-]|[Hqc Hq]]%lookup_insert_Some.
    + cbn [up lo hi layer level]. rewrite decide_False by done. exists h. split; [unfold adopted; by rewrite lookup_insert_ne|]. split_and!; try done; lia.
    + destruct (decide (q = n)) as [->|Hqn].
      * rewrite (pd_left _ _ _ _ _ _ Hpd) in Hq. injection Hq as <-. cbn [up lo hi layer level]. rewrite Hup, decide_False by done. exists h. split; [unfold adopted; by rewrite lookup_insert_ne|]. split_and!; try done; lia.
      * rewrite <- (pd_same _ _ _ _ _ _ Hpd q Hqn ltac:(done)) in Hq. pose proof (go_up _ _ _ HG q hq Hq) as Hu. case_decide; [done|]. destruct Hu as (h' & Hh' & ? & ? & ? & ?). destruct (Hplace _ _ Hh') as (h1 & Hh1 & ? & ? & ? & ?). exists h1. split; [done|]. split_and!; [congruence|congruence|lia|lia].
Qed.
(** *** A new root *)
Context (nn : Z) (Hnn : G !! nn = None) (Hnn0 : 0 < nn /\ nn mod 64 = 0).
Definition rooted : ghosts := <[nn := mkG (layer g) (S (level g)) 0 (2 ^ 64) 0]> (<[n := mkG (layer g) (level g) (lo g) x nn]> (<[child := mkG (layer g) (level g) x (hi g) nn]> G)).
Lemma ghost_rooted : up g = 0 -> (forall q h, G !! q = Some h -> layer h = layer g -> level h <> S (level g)) -> ghost_ok rooted rooted E.
Proof.
  intros Hup Hnone. pose proof (go_up _ _ _ HG n g (pd_view _ _ _ _ _ _ Hpd)) as Hu. rewrite decide_True in Hu by done. destruct Hu as [Hlo Hhi]. pose proof (pd_cut _ _ _ _ _ _ Hpd) as Hx. destruct (pd_right _ _ _ _ _ _ Hpd) as [u Hch].
  pose proof (pd_left _ _ _ _ _ _ Hpd) as Hn. pose proof pending_ne as Hne. assert (n <> nn) as Hnnn by congruence. assert (child <> nn) as Hcnn by congruence.
  assert (Hplace : forall q h, G !! q = Some h -> exists h1, rooted !! q = Some h1 /\ same_place h1 h).
  { intros q hq Hq. unfold rooted. rewrite lookup_insert_ne by congruence. destruct (decide (q = n)) as [->|]; [rewrite lookup_insert_eq; rewrite Hn in Hq; injection Hq as <-; by eexists|].
    rewrite lookup_insert_ne by done. destruct (decide (q = child)) as [->|]; [rewrite lookup_insert_eq; rewrite Hch in Hq; injection Hq as <-; by eexists|]. rewrite lookup_insert_ne by done. by exists hq. }
  assert (Hback : forall q h, rooted !! q = Some h -> (q = nn /\ h = mkG (layer g) (S (level g)) 0 (2 ^ 64) 0) \/ (q <> nn /\ exists h0, G !! q = Some h0 /\ same_place h h0)).
  { intros q hq Hq. destruct (decide (q = nn)) as [->|Hqn]; [left; unfold rooted in Hq; rewrite lookup_insert_eq in Hq; by injection Hq as <-|]. right. split; [done|]. assert (is_Some (G !! q)) as [h0 H0].
    { unfold rooted in Hq. rewrite lookup_insert_ne in Hq by done. apply lookup_insert_Some in Hq as [[<- _]|[_ [[<- _]|[_ Hq]]%lookup_insert_Some]]; eauto. }
    exists h0. split; [done|]. destruct (Hplace q h0 H0) as (h1 & H1 & Hs). rewrite Hq in H1. by injection H1 as <-. }
  assert (Hroot : rooted !! nn = Some (mkG (layer g) (S (level g)) 0 (2 ^ 64) 0)) by apply lookup_insert_eq.
  split.
  - intros q [h Hq]. destruct (Hback q h Hq) as [[-> _]|[_ (h0 & H0 & _)]]; [done|]. apply (go_addr _ _ _ HG). eauto.
  - intros q h Hq. destruct (Hback q h Hq) as [[_ ->]|[_ (h0 & H0 & _ & _ & -> & ->)]]; [simpl; lia|]. by apply (go_span _ _ _ HG q).
  - intros q1 q2 h1 h2 y H1 H2 Hla Hlv C1 C2. destruct (Hback q1 h1 H1) as [[-> ->]|[_ (g1 & G1 & A1 & A2 & A3 & A4)]], (Hback q2 h2 H2) as [[-> ->]|[_ (g2 & G2 & B1 & B2 & B3 & B4)]]; [done|..]; simpl in Hla, Hlv.
    + exfalso. apply (Hnone q2 g2 G2); congruence.
    + exfalso. apply (Hnone q1 g1 G1); congruence.
    + apply (go_disj _ _ _ HG q1 q2 g1 g2 y G1 G2); [congruence|congruence|unfold covers in *; congruence|unfold covers in *; congruence].
  - intros q h Hq. by exists h.
  - intros q h Hq. destruct (decide (q = nn)) as [->|Hqnn]; [rewrite Hroot in Hq; injection Hq as <-; done|]. unfold rooted in Hq. rewrite lookup_insert_ne in Hq by done.
    pose proof (go_span _ _ _ HG n _ Hn) as Hsp. simpl in Hsp. apply lookup_insert_Some in Hq as [[<- <-]|[Hqn [[<- <-]|[Hqc Hq]]%lookup_insert_Some]].
    + cbn [up lo hi layer level]. rewrite decide_False by lia. eexists. split; [exact Hroot|]. simpl. split_and!; try done; lia.
    + cbn [up lo hi layer level]. rewrite decide_False by lia. eexists. split; [exact Hroot|]. simpl. split_and!; try done; lia.
    + rewrite <- (pd_same _ _ _ _ _ _ Hpd q ltac:(done) ltac:(done)) in Hq. pose proof (go_up _ _ _ HG q h Hq) as Hu. case_decide; [done|]. destruct Hu as (h' & Hh' & ? & ? & ? & ?). destruct (Hplace _ _ Hh') as (h1 & Hh1 & ? & ? & ? & ?). exists h1. split; [done|]. split_and!; [congruence|congruence|lia|lia].
  - intros q h pi y Hq Hl. destruct (Hback q h Hq) as [[_ ->]|[_ (h0 & H0 & Hla & _)]]; [apply (go_layer _ _ _ HG n _ pi y Hn Hl)|]. apply (go_layer _ _ _ HG q h0 pi y H0). congruence.
  - intros pi k r Hl. destruct (go_link _ _ _ HG pi k r Hl) as [H9 (h & Hh & Hla & Hlor)]. split; [done|]. destruct (go_view _ _ _ HG r h Hh) as (h' & Hh' & ? & _ & ? & _). destruct (Hplace r h' Hh') as (h1 & Hh1 & ? & _ & ? & _). exists h1. split; [done|]. split; congruence.
  - intros pi k c He. destruct (go_entry _ _ _ HG pi k c He) as (q & h & Hq & Hla & Hlv & Hc). destruct (Hplace q h Hq) as (h1 & Hh1 & ? & ? & E1 & E2). exists q, h1. split; [done|]. split; [congruence|]. split; [congruence|]. unfold covers in *. by rewrite E1, E2.
Qed.
End Resolve.
