(* ===== verification/MassParent.v ===== *)
(** * A split reaches the parent

    One round of the loop of [finish_split]: the new half of a node is entered in its parent,
    the parent is split when it is full, or a new root is made. *)

From S2P Require Import Prelude Permuter KSearch NodeVersion MassKey MassBag MassNode MassTree MassLeaf MassSplit MassInv MassDict MassGet MassWrite MassInner MassGhost.
#[local] Abbreviation P := nodeversion32_parameters.

(** ** Families *)
Lemma family_at V pi lv q B cs i c : family V pi lv q B cs -> cs !! i = Some c -> exists a b, B !! i = Some a /\ B !! S i = Some b /\ V !! c = Some (mkG pi lv a b q).
Proof.
  intros [Hl Hs Hc] Hi. pose proof (lookup_lt_Some _ _ _ Hi). destruct (lookup_lt_is_Some_2 B i) as [a Ha]; [lia|]. destruct (lookup_lt_is_Some_2 B (S i)) as [b Hb]; [lia|]. exists a, b. split_and!; try done. by eapply Hc.
Qed.
Lemma family_inj V pi lv q B cs i j c : family V pi lv q B cs -> cs !! i = Some c -> cs !! j = Some c -> i = j.
Proof.
  intros Hf Hi Hj. destruct (family_at _ _ _ _ _ _ _ _ Hf Hi) as (a & b & Ha & _ & H1), (family_at _ _ _ _ _ _ _ _ Hf Hj) as (a' & b' & Ha' & _ & H2). rewrite H1 in H2. injection H2 as <- <-.
  eapply NoDup_lookup; [apply ksorted_NoDup; apply Hf|exact Ha|exact Ha'].
Qed.
Lemma family_insert V V' pi lv q B1 B2 c0 c2 n child x a b : family V pi lv q (B1 ++ B2) ((c0 ++ [n]) ++ c2) -> length B1 = S (length c0) -> V !! n = Some (mkG pi lv a b q) -> a < x < b ->
  V' !! n = Some (mkG pi lv a x q) -> V' !! child = Some (mkG pi lv x b q) -> (forall c gc, c <> n -> V !! c = Some gc -> up gc = q -> V' !! c = Some gc) ->
  family V' pi lv q (B1 ++ x :: B2) ((c0 ++ [n]) ++ child :: c2).
Proof.
  intros Hf HB1 Hn Hx Hn' Hch Hoth. set (j := length c0). assert (Hj : ((c0 ++ [n]) ++ c2) !! j = Some n) by (apply lookup_app_l_Some; by apply list_lookup_middle).
  destruct (family_at _ _ _ _ _ _ _ _ Hf Hj) as (a' & b' & Ha & Hb & Hn2). rewrite Hn in Hn2. injection Hn2 as <- <-. pose proof (fm_length _ _ _ _ _ _ Hf) as Hl. pose proof (fm_sorted _ _ _ _ _ _ Hf) as Hs. rewrite !length_app in Hl. simpl in Hl.
  pose proof Ha as Ha1. rewrite lookup_app_l in Ha1 by lia. pose proof Hb as Hb1. rewrite lookup_app_r in Hb1 by lia. replace (S j - length B1)%nat with 0%nat in Hb1 by lia. assert (Hother : forall i c, ((c0 ++ [n]) ++ c2) !! i = Some c -> i <> j -> c <> n) by (intros i c Hi Hne ->; apply Hne; by eapply family_inj).
  split.
  - rewrite !length_app. simpl. lia.
  - apply ksorted_insert; [done| | |].
    + apply Forall_forall. intros y [i Hi]%list_elem_of_lookup. pose proof (lookup_lt_Some _ _ _ Hi). destruct (decide (i = j)) as [->|]; [rewrite Ha1 in Hi; injection Hi as <-; lia|]. pose proof (ksorted_lookup (B1 ++ B2) i j y a Hs ltac:(lia) ltac:(by apply lookup_app_l_Some) Ha). lia.
    + apply Forall_forall. intros y [i Hi]%list_elem_of_lookup. destruct i as [|i]; [rewrite Hb1 in Hi; injection Hi as <-; lia|]. pose proof (ksorted_lookup (B1 ++ B2) (S j) (length B1 + S i) b y Hs ltac:(lia) Hb ltac:(rewrite lookup_app_r by lia; rewrite <- Hi; f_equal; lia)). lia.
    + intros [i Hi]%list_elem_of_lookup. destruct i as [|i]; [rewrite Hb1 in Hi; injection Hi as ?; lia|]. pose proof (ksorted_lookup (B1 ++ B2) (S j) (length B1 + S i) b x Hs ltac:(lia) Hb ltac:(rewrite lookup_app_r by lia; rewrite <- Hi; f_equal; lia)). lia.
  - intros i c y z Hi Hy Hz. destruct (Nat.lt_trichotomy i j) as [Hlt|[->|Hgt]].
    + rewrite !lookup_app_l in Hi by (rewrite ?length_app; simpl; lia). assert (Hi' : ((c0 ++ [n]) ++ c2) !! i = Some c) by (by do 2 apply lookup_app_l_Some). rewrite lookup_app_l in Hy, Hz by lia.
      apply Hoth; [by apply (Hother i); [|lia]|by eapply (fm_child _ _ _ _ _ _ Hf); [|apply lookup_app_l_Some|apply lookup_app_l_Some]|done].
    + rewrite lookup_app_l in Hi by (rewrite length_app; simpl; lia). rewrite (list_lookup_middle c0 [] n j) in Hi by done. injection Hi as <-. rewrite lookup_app_l in Hy by lia. rewrite Ha1 in Hy. injection Hy as <-. rewrite list_lookup_middle in Hz by lia. by injection Hz as <-.
    + destruct (decide (i = S j)) as [->|Hne].
      * rewrite list_lookup_middle in Hi by (rewrite length_app; simpl; lia). injection Hi as <-. rewrite list_lookup_middle in Hy by lia. injection Hy as <-. rewrite lookup_app_r in Hz by lia. replace (S (S j) - length B1)%nat with 1%nat in Hz by lia. simpl in Hz. rewrite Hb1 in Hz. by injection Hz as <-.
      * assert (Hpast : forall A (l1 l2 : list A) e m, (length l1 < m)%nat -> (l1 ++ e :: l2) !! m = (l1 ++ l2) !! (m - 1)%nat).
        { intros A l1 l2 e m Hm. rewrite !lookup_app_r by lia. by replace (m - length l1)%nat with (S (m - 1 - length l1)) by lia. }
        rewrite Hpast in Hi by (rewrite length_app; simpl; lia). rewrite Hpast in Hy by lia. rewrite Hpast in Hz by lia. replace (S i - 1)%nat with (S (i - 1)) in Hz by lia.
        apply Hoth; [by apply (Hother (i - 1)%nat); [|lia]|by eapply (fm_child _ _ _ _ _ _ Hf)|done].
Qed.
Lemma family_left V V' pi lv q B cs m : family V pi lv q B cs -> (m <= length cs)%nat -> (forall c gc, c ∈ take m cs -> V !! c = Some gc -> V' !! c = Some gc) -> family V' pi lv q (take (S m) B) (take m cs).
Proof.
  intros Hf Hm HV. pose proof (fm_length _ _ _ _ _ _ Hf) as Hl. split.
  - rewrite !length_take. lia.
  - pose proof (fm_sorted _ _ _ _ _ _ Hf) as Hs. rewrite <- (take_drop (S m) B) in Hs. by apply ksorted_app in Hs as (? & _).
  - intros i c a b Hc Ha Hb. apply HV; [by eapply list_elem_of_lookup_2|]. apply lookup_take_Some in Hc as [Hc _]. apply lookup_take_Some in Ha as [Ha _]. apply lookup_take_Some in Hb as [Hb _]. by eapply (fm_child _ _ _ _ _ _ Hf).
Qed.
Lemma family_right V V' pi lv q q' B cs m : family V pi lv q B cs -> (m <= length cs)%nat -> (forall c gc, c ∈ drop m cs -> V !! c = Some gc -> V' !! c = Some (set_up q' gc)) -> family V' pi lv q' (drop m B) (drop m cs).
Proof.
  intros Hf Hm HV. pose proof (fm_length _ _ _ _ _ _ Hf) as Hl. split.
  - rewrite !length_drop. lia.
  - pose proof (fm_sorted _ _ _ _ _ _ Hf) as Hs. rewrite <- (take_drop m B) in Hs. by apply ksorted_app in Hs as (_ & ? & _).
  - intros i c a b Hc Ha Hb. rewrite lookup_drop in Ha, Hb. replace (m + S i)%nat with (S (m + i)) in Hb by lia. pose proof Hc as Hc'. rewrite lookup_drop in Hc'.
    apply (HV c (mkG pi lv a b q)); [by eapply list_elem_of_lookup_2|]. by eapply (fm_child _ _ _ _ _ _ Hf).
Qed.

(** ** Nodes with another parent *)
Lemma node_ok_parent G V E X L p g n u : node_ok G V E X L p g n -> (p ∈ X \/ lo g <> 0 \/ (u = 0 <-> up g = 0)) -> node_ok G V E X L p (set_up u g) (set_node_parent u n).
Proof.
  intros [(rt & Hv & Hrt) Hup Hc] Hu. split.
  - exists rt. split; [by destruct n|]. intros HX Hlo. cbn [up set_up lo] in *. destruct Hu as [?|[?|Hu]]; [done|done|]. rewrite (bool_decide_ext _ _ Hu). by apply Hrt.
  - by destruct n.
  - destruct n as [l|i]; [|done]. destruct Hc as [[] Hlc]. split; [by split|]. intros Hp. destruct (Hlc Hp) as [Hlok Hh Hf]. split; [by apply (leaf_ok_reframe (l_version l) (modstate_ l) (l_next_ l) (l_prev_ l) u (node_ts_ l))|done|done].
Qed.

(** ** The tree after a round *)
Section Round.
Context (N : memory) (G V : ghosts) (E : dict) (X L : gset Z) (Ht : tree_ok N G V E X L) (n child x : Z) (g : ghost) (Hpd : pending G V n child x g).
Context (mc : node) (Hmc : N !! child = Some mc).
Lemma round_child : exists u, G !! child = Some (mkG (layer g) (level g) x (hi g) u) /\ node_ok G V E X L child (mkG (layer g) (level g) x (hi g) u) mc /\ x <> 0.
Proof.
  destruct (pd_right _ _ _ _ _ _ Hpd) as [u Hu]. exists u. split; [done|]. split; [by apply (to_node _ _ _ _ _ _ Ht)|]. pose proof (to_span _ _ _ _ _ _ Ht n _ (pd_left _ _ _ _ _ _ Hpd)) as Hs. simpl in Hs. pose proof (pd_cut _ _ _ _ _ _ Hpd). lia.
Qed.
(** *** Under a parent with room *)
Section Adopt.
Context (p : Z) (h : ghost) (Hup : up g = p) (Hp0 : p <> 0) (Hh : G !! p = Some h).
#[local] Abbreviation V1 := (adopted G child x g p).
Lemma round_parent : level h = S (level g) /\ layer h = layer g /\ lo h <= lo g /\ hi g <= hi h /\ p <> n /\ p <> child /\ n <> child.
Proof.
  pose proof (to_up _ _ _ _ _ _ Ht n g (pd_view _ _ _ _ _ _ Hpd)) as Hu. rewrite Hup, decide_False in Hu by done. destruct Hu as (h' & Hh' & ? & Hlv & ? & ?). rewrite Hh in Hh'. injection Hh' as <-.
  destruct (parent_ne G V n child x g Hpd h p Hh Hlv). pose proof (pending_ne G V n child x g Hpd). done.
Qed.
Lemma adopted_child : V1 !! child = Some (mkG (layer g) (level g) x (hi g) p).
Proof. apply lookup_insert_eq. Qed.
Lemma adopted_other q : q <> child -> V1 !! q = G !! q.
Proof. intros. by apply lookup_insert_ne. Qed.
Lemma adopted_kept q c gc : q <> p -> V !! c = Some gc -> up gc = q -> V1 !! c = Some gc.
Proof.
  intros Hq Hc Hu. destruct (decide (c = child)) as [->|Hcc]; [by rewrite (pd_gone _ _ _ _ _ _ Hpd) in Hc|]. destruct (decide (c = n)) as [->|Hcn]; [rewrite (pd_view _ _ _ _ _ _ Hpd) in Hc; injection Hc as <-; congruence|].
  rewrite adopted_other by done. by rewrite <- (pd_same _ _ _ _ _ _ Hpd).
Qed.
Lemma adopted_place q h0 : G !! q = Some h0 -> exists h1, V1 !! q = Some h1 /\ same_place h1 h0.
Proof.
  intros Hq. destruct (decide (q = child)) as [->|Hqc]; [|exists h0; by rewrite adopted_other]. destruct round_child as (u & Hu & _). rewrite Hq in Hu. injection Hu as ->. eexists. split; [apply adopted_child|done].
Qed.
(** Every node but the parent, in the adopted view. *)
Lemma adopted_node q hq m X' L' G' V' : q <> p -> V1 !! q = Some hq -> (if decide (q = child) then m = set_node_parent p mc else N !! q = Some m) -> (q ∈ L <-> q ∈ L') -> (q ∉ X' -> q ∉ X) ->
  (forall c gc, V1 !! c = Some gc -> level gc = 0%nat -> exists gc', G' !! c = Some gc' /\ layer gc' = layer gc /\ level gc' = 0%nat /\ lo gc' = lo gc) ->
  (forall c gc, V1 !! c = Some gc -> up gc = q -> V' !! c = Some gc) -> node_ok G' V' E X' L' q hq m.
Proof.
  intros Hq Hhq Hm HL HX HG' HV'. assert (Hok : node_ok G V E X L q hq m).
  { destruct (decide (q = child)) as [->|Hqc].
    - subst m. rewrite adopted_child in Hhq. injection Hhq as <-. destruct round_child as (u & Hu & Hok & Hx0). apply (node_ok_parent _ _ _ _ _ _ _ _ p Hok). by right; left.
    - rewrite adopted_other in Hhq by done. by apply (to_node _ _ _ _ _ _ Ht). }
  eapply node_ok_transport; [exact Hok|done|done| | |done].
  - intros c gc Hc Hl. destruct (adopted_place c gc Hc) as (g1 & H1 & ? & ? & ? & _). destruct (HG' c g1 H1) as (g2 & Hg2 & ? & ? & ?); [congruence|]. exists g2. split; [done|]. split_and!; congruence.
  - intros c gc Hc Hu. apply HV'; [|done]. by eapply adopted_kept.
Qed.
Lemma tree_adopted N' i3 : p ∈ L -> N' !! p = Some (NInner i3) -> (forall q, q <> p -> N' !! q = if decide (q = child) then Some (set_node_parent p mc) else N !! q) ->
  inner_content V1 p h i3 -> i_parent_ i3 = up h -> (exists rt, ver (i_version i3) false rt true /\ (p ∉ X -> lo h = 0 -> rt = bool_decide (up h = 0))) -> tree_ok N' V1 V1 E X L.
Proof.
  intros HpL Hp' Hoth Hc Hpar Hv. destruct round_parent as (_ & _ & _ & _ & Hpn & Hpc & Hnc). apply tree_intro.
  - by apply (ghost_adopted G V E (tree_ghost _ _ _ _ _ _ Ht) n).
  - intros q. destruct (decide (q = p)) as [->|Hqp]; [rewrite Hp', adopted_other, Hh by done; split; eauto|]. rewrite Hoth by done. destruct (decide (q = child)) as [->|Hqc]; [rewrite adopted_child; split; eauto|]. rewrite adopted_other by done. apply Ht.
  - intros q hq m Hhq Hm. destruct (decide (q = p)) as [->|Hqp].
    + rewrite adopted_other, Hh in Hhq by done. injection Hhq as <-. rewrite Hp' in Hm. injection Hm as <-. split; [|done|done]. destruct Hv as (rt & Hv & Hrt). exists rt. by rewrite bool_decide_eq_true_2 by done.
    + rewrite Hoth in Hm by done. apply (adopted_node q); try done; [case_decide; [by injection Hm as <-|done]|]. intros c gc Hc' Hl. by exists gc.
Qed.
(** *** Under a parent that is split *)
Context (nc sep : Z) (right : list Z) (Hnc : N !! nc = None) (Hnc0 : 0 < nc /\ nc mod 64 = 0) (Hsep : lo h < sep < hi h).
Context (HR : forall c, c ∈ right -> exists gc, V1 !! c = Some gc /\ up gc = p /\ sep <= lo gc) (HL' : forall c gc, V1 !! c = Some gc -> up gc = p -> c ∉ right -> hi gc <= sep).
#[local] Abbreviation V2 := (cut_view V1 nc right).
#[local] Abbreviation G2 := (cut_ghosts V1 p nc sep h right).
Lemma fresh_ghost : V1 !! nc = None.
Proof.
  destruct round_parent as (_ & _ & _ & _ & _ & _ & _). rewrite adopted_other by congruence. apply eq_None_not_Some. intros Hs%(to_dom _ _ _ _ _ _ Ht). rewrite Hnc in Hs. by destruct Hs.
Qed.
Lemma parent_view : V1 !! p = Some h.
Proof. destruct round_parent as (_ & _ & _ & _ & _ & Hpc & _). by rewrite adopted_other. Qed.
Lemma tree_split N' i3 r : p ∈ L -> nc ∉ L -> N' !! p = Some (NInner i3) -> N' !! nc = Some (NInner r) ->
  (forall q, q <> p -> q <> nc -> N' !! q = (if decide (q ∈ right) then set_node_parent nc else id) <$> (if decide (q = child) then Some (set_node_parent p mc) else N !! q)) ->
  inner_content V2 p (mkG (layer h) (level h) (lo h) sep (up h)) i3 -> i_parent_ i3 = up h -> (exists rt, ver (i_version i3) false rt true) ->
  inner_content V2 nc (mkG (layer h) (level h) sep (hi h) 0) r -> i_parent_ r = 0 -> (exists rt, ver (i_version r) false rt true) ->
  tree_ok N' G2 V2 E ({[p]} ∪ X) ({[nc]} ∪ L) /\ pending G2 V2 p nc sep h.
Proof.
  intros HpL HncL Hp' Hnc' Hoth Hc Hpar Hv Hcr Hparr Hvr. destruct round_parent as (_ & _ & _ & _ & Hpn & Hpc & Hnch).
  pose proof (ghost_adopted G V E (tree_ghost _ _ _ _ _ _ Ht) n child x g Hpd p Hup Hp0) as Hgo. destruct (ghost_cut V1 E Hgo p nc sep h right parent_view fresh_ghost Hnc0 Hsep HR HL') as [Hgo2 Hpd2].
  pose proof (cut_not_moved V1 E Hgo p nc sep h right parent_view fresh_ghost HR HL') as (HpR & HncR & Hpnc). split; [|done]. apply tree_intro; [done| |].
  - intros q. destruct (decide (q = p)) as [->|Hqp]; [rewrite Hp', (pd_left _ _ _ _ _ _ Hpd2); split; eauto|]. destruct (decide (q = nc)) as [->|Hqn]; [destruct (pd_right _ _ _ _ _ _ Hpd2) as [u ->]; rewrite Hnc'; split; eauto|].
    rewrite Hoth, cut_other by done. unfold cut_view. rewrite reup_lookup, !fmap_is_Some. destruct (decide (q = child)) as [->|Hqc]; [rewrite adopted_child; split; eauto|]. rewrite adopted_other by done. apply Ht.
  - intros q hq m Hhq Hm. destruct (decide (q = p)) as [->|Hqp].
    { rewrite (pd_left _ _ _ _ _ _ Hpd2) in Hhq. injection Hhq as <-. rewrite Hp' in Hm. injection Hm as <-. destruct Hv as [rt Hv]. split; [|done|done]. exists rt. rewrite bool_decide_eq_true_2 by set_solver. split; [done|]. set_solver. }
    destruct (decide (q = nc)) as [->|Hqn].
    { rewrite cut_right in Hhq. injection Hhq as <-. rewrite Hnc' in Hm. injection Hm as <-. destruct Hvr as [rt Hvr]. split; [|done|done]. exists rt. rewrite bool_decide_eq_true_2 by set_solver. split; [done|]. intros _ Hs0. simpl in Hs0. pose proof (to_span _ _ _ _ _ _ Ht p h Hh). lia. }
    rewrite Hoth in Hm by done. rewrite cut_other in Hhq by done. apply cut_view_at in Hhq as (h0 & H0 & ->). apply fmap_Some in Hm as (m0 & Hm0 & ->).
    assert (Hok : node_ok G2 V2 E ({[p]} ∪ X) ({[nc]} ∪ L) q h0 m0).
    { apply (adopted_node q h0 m0); try done; [case_decide; [by injection Hm0 as <-|done]|set_solver|set_solver| |].
      - intros c gc Hcc Hlc. destruct (go_view _ _ _ Hgo2 c (if decide (c ∈ right) then set_up nc gc else gc)) as (g2 & Hg2 & ? & ? & ? & _); [apply cut_view_at; eauto|]. exists g2. split; [done|]. destruct (decide (c ∈ right)); cbn [layer level lo set_up] in *; split_and!; congruence.
      - intros c gc Hcc Hu. apply cut_view_at. exists gc. split; [done|]. rewrite decide_False; [done|]. intros (gc' & Hgc' & Hu' & _)%HR. rewrite Hcc in Hgc'. injection Hgc' as <-. congruence. }
    destruct (decide (q ∈ right)) as [HqR|HqR]; [|exact Hok]. apply node_ok_parent; [done|]. right; right. destruct (HR q HqR) as (gc & Hgc & Hu & _). rewrite H0 in Hgc. injection Hgc as <-. split; lia.
Qed.
End Adopt.
(** *** Under a new root *)
Section NewRoot.
Context (Hup : up g = 0) (HnX : n ∈ X) (nn : Z) (Hnn : N !! nn = None) (Hnn0 : 0 < nn /\ nn mod 64 = 0) (mn : node) (Hmn : N !! n = Some mn).
#[local] Abbreviation V1 := (rooted G n child x g nn).
Lemma root_range : lo g = 0 /\ hi g = 2 ^ 64.
Proof. pose proof (to_up _ _ _ _ _ _ Ht n g (pd_view _ _ _ _ _ _ Hpd)) as Hu. by rewrite decide_True in Hu. Qed.
Lemma nothing_above q h : G !! q = Some h -> layer h = layer g -> level h <> S (level g).
Proof.
  intros Hq Hla Hlv. destruct (tree_node _ _ _ _ _ _ _ _ Ht Hq) as (m & Hm & Hok). destruct (node_inner _ _ _ _ _ _ _ _ _ Hok Hlv) as (i & -> & (lv & ks & cs & Hlv' & _ & Hf)). assert (lv = level g) as -> by lia.
  destruct (family_inhabited _ _ _ _ _ _ Hf) as (c & a & b & _ & Hc); [simpl; rewrite length_app; simpl; lia|]. destruct (to_addr _ _ _ _ _ _ Ht q ltac:(eauto)) as [Hq0 _]. destruct root_range as [Hlo Hhi].
  destruct (decide (c = n)) as [->|Hcn]; [rewrite (pd_view _ _ _ _ _ _ Hpd) in Hc; injection Hc as Hc; rewrite Hc in Hup; simpl in Hup; lia|].
  destruct (decide (c = child)) as [->|Hcc]; [by rewrite (pd_gone _ _ _ _ _ _ Hpd) in Hc|]. rewrite (pd_same _ _ _ _ _ _ Hpd c Hcn Hcc) in Hc. pose proof (to_span _ _ _ _ _ _ Ht c _ Hc) as Hs. simpl in Hs.
  destruct (Z.lt_ge_cases a x) as [Hlt|Hge].
  - apply Hcn. apply (to_disj _ _ _ _ _ _ Ht c n _ _ a Hc (pd_left _ _ _ _ _ _ Hpd)); try done; unfold covers; simpl; lia.
  - apply Hcc. destruct (pd_right _ _ _ _ _ _ Hpd) as [u Hu]. apply (to_disj _ _ _ _ _ _ Ht c child _ _ a Hc Hu); try done; unfold covers; simpl; lia.
Qed.
Lemma tree_rooted N' i : nn ∉ L -> N' !! nn = Some (NInner i) -> N' !! n = Some (set_node_parent nn mn) -> N' !! child = Some (set_node_parent nn mc) -> (forall q, q <> nn -> q <> n -> q <> child -> N' !! q = N !! q) ->
  inner_arrays i [x] [n; child] -> i_parent_ i = 0 -> ver (i_version i) false true false -> tree_ok N' V1 V1 E X L.
Proof.
  intros HnnL H1 H2 H3 H4 Ha Hpar Hv. destruct root_range as [Hlo Hhi]. assert (Hgn : G !! nn = None) by (apply eq_None_not_Some; intros Hs%(to_dom _ _ _ _ _ _ Ht); rewrite Hnn in Hs; by destruct Hs).
  pose proof (pending_ne G V n child x g Hpd) as Hnc. pose proof (pd_left _ _ _ _ _ _ Hpd) as Hgl. destruct round_child as (u & Hgc & Hokc & Hx0). assert (Hn1 : n <> nn) by congruence. assert (Hn2 : child <> nn) by congruence. pose proof (pd_cut _ _ _ _ _ _ Hpd) as Hcut.
  assert (Vnn : V1 !! nn = Some (mkG (layer g) (S (level g)) 0 (2 ^ 64) 0)) by apply lookup_insert_eq.
  assert (Vn : V1 !! n = Some (mkG (layer g) (level g) (lo g) x nn)) by (unfold rooted; rewrite lookup_insert_ne by done; apply lookup_insert_eq).
  assert (Vc : V1 !! child = Some (mkG (layer g) (level g) x (hi g) nn)) by (unfold rooted; rewrite !lookup_insert_ne by done; apply lookup_insert_eq).
  assert (Vo : forall q, q <> nn -> q <> n -> q <> child -> V1 !! q = G !! q) by (intros; unfold rooted; by rewrite !lookup_insert_ne).
  assert (Htr : forall q gq m, node_ok G V E X L q gq m -> q <> 0 -> node_ok V1 V1 E X L q gq m).
  { intros q gq m Hok Hq0. eapply node_ok_transport; [exact Hok|done|done| | |done].
    - intros c gc Hc Hl. destruct (decide (c = n)) as [->|]; [rewrite Hgl in Hc; injection Hc as <-; eexists; split; [exact Vn|done]|]. destruct (decide (c = child)) as [->|]; [rewrite Hgc in Hc; injection Hc as <-; eexists; split; [exact Vc|done]|].
      exists gc. rewrite Vo by congruence. done.
    - intros c gc Hc Hu. assert (c <> n) by (intros ->; rewrite (pd_view _ _ _ _ _ _ Hpd) in Hc; injection Hc as <-; congruence). assert (c <> child) by (intros ->; by rewrite (pd_gone _ _ _ _ _ _ Hpd) in Hc).
      rewrite (pd_same _ _ _ _ _ _ Hpd) in Hc by done. rewrite Vo by congruence. done. }
  apply tree_intro.
  - apply (ghost_rooted G V E (tree_ghost _ _ _ _ _ _ Ht) n child x g Hpd nn Hgn Hnn0 Hup nothing_above).
  - intros q. destruct (decide (q = nn)) as [->|]; [rewrite H1, Vnn; split; eauto|]. destruct (decide (q = n)) as [->|]; [rewrite H2, Vn; split; eauto|]. destruct (decide (q = child)) as [->|]; [rewrite H3, Vc; split; eauto|]. rewrite H4, Vo by done. apply Ht.
  - intros q hq m Hhq Hm. destruct (decide (q = nn)) as [->|Hqnn].
    { rewrite Vnn in Hhq. injection Hhq as <-. rewrite H1 in Hm. injection Hm as <-. split; [exists true; rewrite bool_decide_eq_false_2 by done; done|done|]. exists (level g), [x], [n; child]. split; [done|]. split; [done|]. split; [done| |].
      - cbn [lo hi app]. repeat (apply SSorted_nil || apply SSorted_cons || apply Forall_nil_2 || apply Forall_cons_2); lia.
      - cbn [lo hi layer app]. intros [|[|j]] c a b Hc Ha' Hb; simpl in Hc, Ha', Hb; simplify_eq; [rewrite Vn; by rewrite Hlo|rewrite Vc; by rewrite Hhi]. }
    destruct (decide (q = n)) as [->|Hqn].
    { rewrite Vn in Hhq. injection Hhq as <-. rewrite H2 in Hm. injection Hm as <-. apply Htr; [|destruct (to_addr _ _ _ _ _ _ Ht n ltac:(eauto)); lia]. apply (node_ok_parent _ _ _ _ _ _ _ _ nn (to_node _ _ _ _ _ _ Ht n _ _ Hgl Hmn)). by left. }
    destruct (decide (q = child)) as [->|Hqc].
    { rewrite Vc in Hhq. injection Hhq as <-. rewrite H3 in Hm. injection Hm as <-. apply Htr; [|destruct (to_addr _ _ _ _ _ _ Ht child ltac:(eauto)); lia]. apply (node_ok_parent _ _ _ _ _ _ _ _ nn Hokc). by right; left. }
    rewrite Vo in Hhq by done. rewrite H4 in Hm by done. apply Htr; [by apply (to_node _ _ _ _ _ _ Ht)|destruct (to_addr _ _ _ _ _ _ Ht q ltac:(eauto)); lia].
Qed.
End NewRoot.
End Round.
