(* ===== verification/MassRound.v ===== *)
(** * The code of a round of [finish_split]

    Runs the statements of a round on a memory that satisfies the invariant, and goes up. *)

From S2P Require Import Prelude Permuter KSearch NodeVersion MassKey MassBag MassNode MassTree MassLeaf MassSplit MassInv MassDict MassGet MassWrite MassInner MassGhost MassParent.
#[local] Abbreviation P := nodeversion32_parameters.

(** ** Running writes *)
Definition alloc (n : node) (s : mass) : mass := mkMass (<[mbrk s := n]> (mnodes s)) (mrows s) (mbrk s + 64) (mroot s) (ti_ts s).
Lemma run_alloc n s : allocate_node n s = Ok (mbrk s, alloc n s).
Proof. done. Qed.
Lemma run_set_parent s c q m : mnodes s !! c = Some m -> set_parent c q s = Ok (tt, upd c (set_node_parent q m) s).
Proof. intros Hc. unfold set_parent. by erewrite ST_bind_ok by (by apply run_node). Qed.
Lemma upd_comm s p q n m : p <> q -> upd p n (upd q m s) = upd q m (upd p n s).
Proof. intros. unfold upd, on_nodes. simpl. by rewrite insert_insert_ne. Qed.
Lemma upd_alloc s n m : upd (mbrk s) m (alloc n s) = alloc m s.
Proof. unfold upd, on_nodes, alloc. simpl. by rewrite insert_insert_eq. Qed.
Lemma alloc_at s n : mnodes (alloc n s) !! mbrk s = Some n.
Proof. apply lookup_insert_eq. Qed.
Lemma alloc_other s n q : q <> mbrk s -> mnodes (alloc n s) !! q = mnodes s !! q.
Proof. intros. by apply lookup_insert_ne. Qed.
#[local] Ltac look := repeat (rewrite upd_at || rewrite alloc_at || (rewrite upd_other by congruence) || (rewrite alloc_other by congruence)).
Definition reparent (R : list Z) (q : Z) (N : memory) : memory := map_imap (fun c m => Some (if decide (c ∈ R) then set_node_parent q m else m)) N.
Lemma reparent_lookup R q N c : reparent R q N !! c = ((fun m => if decide (c ∈ R) then set_node_parent q m else m) <$> (N !! c)).
Proof. unfold reparent. rewrite map_lookup_imap. by destruct (N !! c). Qed.
Lemma set_parent_twice q q' m : set_node_parent q (set_node_parent q' m) = set_node_parent q m.
Proof. by destruct m. Qed.
Lemma run_set_parents q : forall R s, (forall c, c ∈ R -> is_Some (mnodes s !! c)) -> set_parents R q s = Ok (tt, on_nodes (reparent R q) s).
Proof.
  induction R as [|c R IH]; intros s HR; cbn [set_parents].
  - unfold mret, ST_ret. do 2 f_equal. destruct s. unfold on_nodes. simpl. f_equal. apply map_eq. intros c. rewrite reparent_lookup. by destruct (_ !! c).
  - destruct (HR c ltac:(set_solver)) as [m Hm]. erewrite ST_bind_ok by (by apply run_set_parent). rewrite IH.
    + do 2 f_equal. destruct s as [N rows brk rt ts]. unfold upd, on_nodes. simpl in *. f_equal. apply map_eq. intros d. rewrite !reparent_lookup. destruct (decide (d = c)) as [->|Hne].
      * rewrite lookup_insert_eq, Hm. simpl. rewrite (decide_True (P := c ∈ c :: R)) by set_solver. case_decide; [by rewrite set_parent_twice|done].
      * rewrite lookup_insert_ne by done. destruct (N !! d); [|done]. simpl. f_equal. destruct (decide (d ∈ R)), (decide (d ∈ c :: R)); set_solver.
    + intros d Hd. destruct (decide (d = c)) as [->|]; [rewrite upd_at; eauto|]. rewrite upd_other by done. apply HR. set_solver.
Qed.
(** Separators and children move up, the new one enters. *)
Lemma insert_child_run s p i child mc l1 l2 c1 c2 x : mnodes s !! p = Some (NInner i) -> mnodes s !! child = Some mc -> p <> child -> inner_arrays i (l1 ++ l2) (c1 ++ c2) -> length c1 = S (length l1) -> length c2 = length l2 -> (length (l1 ++ l2) < 15)%nat ->
  exists i3, (i ← get_inner p; i ← lift (shift_up i (Z.of_nat (length l1) + 1) (Z.of_nat (length l1)) (nkeys_ i - Z.of_nat (length l1))); put_inner p i;; assign_child p (Z.of_nat (length l1)) x child;; i ← get_inner p; put_inner p (set_keys (u8 (nkeys_ i + 1)) (i_ikey0_ i) (child_ i) i)) s
      = Ok (tt, upd p (NInner i3) (upd child (set_node_parent p mc) s)) /\ inner_arrays i3 (l1 ++ x :: l2) (c1 ++ child :: c2) /\ i_version i3 = i_version i /\ i_parent_ i3 = i_parent_ i.
Proof.
  intros Hp Hc Hne Ha H1 H2 H3. destruct (internode_insert_ok i l1 l2 c1 c2 x child Ha H1 H2 H3) as (i1 & i2 & Hs1 & Hs2 & Harr & _ & _ & Hv2 & Hp2).
  eexists. split; [|split; [exact Harr|split; [exact Hv2|exact Hp2]]]. erewrite ST_bind_ok by (by apply run_inner). erewrite ST_bind_ok by (apply lift_ok; exact Hs1). unfold put_inner. rewrite (ST_bind_ok (run_put _ _ _)).
  rewrite (ST_bind_ok (a := tt) (s' := upd p (NInner i2) (upd child (set_node_parent p mc) s))).
  2:{ unfold assign_child, put_inner. erewrite ST_bind_ok by (apply run_set_parent; rewrite upd_other by done; exact Hc). erewrite ST_bind_ok by (apply run_inner; rewrite upd_other by done; apply upd_at). erewrite ST_bind_ok by (apply lift_ok; exact Hs2).
      rewrite run_put. rewrite (upd_comm _ child p) by done. by rewrite upd_upd. }
  erewrite ST_bind_ok by (apply run_inner, upd_at). rewrite run_put. by rewrite upd_upd.
Qed.

(** ** A new root *)
Lemma new_root_run s n child mn mc x st : mnodes s !! n = Some mn -> mnodes s !! child = Some mc -> n <> child -> n <> mbrk s -> child <> mbrk s ->
  exists i, insert_into_parent 0 n child x st s = Ok ((0, 0), upd n (set_node_parent (mbrk s) mn) (upd child (set_node_parent (mbrk s) mc) (alloc (NInner i) s)))
    /\ inner_arrays i [x] [n; child] /\ i_parent_ i = 0 /\ ver (i_version i) false true false.
Proof.
  intros Hn Hc Hnc Hn1 Hc1. unfold insert_into_parent. cbn [Z.eqb]. rewrite (ST_bind_ok (run_alloc _ _)).
  erewrite ST_bind_ok by (apply run_inner, alloc_at). rewrite (ST_bind_ok (a := n :: replicate 15 0) (s' := alloc (NInner new_internode) s)) by (by apply lift_ok). unfold put_inner. rewrite (ST_bind_ok (run_put _ _ _)). rewrite upd_alloc. set (i1 := set_keys _ _ _ _).
  set (i2 := set_keys 0 (x :: replicate 14 0) (n :: child :: replicate 14 0) new_internode). rewrite (ST_bind_ok (a := tt) (s' := upd child (set_node_parent (mbrk s) mc) (alloc (NInner i2) s))).
  2:{ unfold assign_child, put_inner. erewrite ST_bind_ok by (apply run_set_parent; rewrite alloc_other by done; exact Hc). erewrite ST_bind_ok by (apply run_inner; rewrite upd_other by done; apply alloc_at). rewrite (ST_bind_ok (a := i2) (s' := upd child (set_node_parent (mbrk s) mc) (alloc (NInner i1) s))) by (by apply lift_ok).
      rewrite run_put. rewrite upd_comm by done. by rewrite upd_alloc. }
  erewrite ST_bind_ok by (apply run_inner; rewrite upd_other by done; apply alloc_at). rewrite (ST_bind_ok (run_put _ _ _)). rewrite upd_comm by done. rewrite upd_alloc. set (i3 := mkInternode _ _ _ _ _).
  erewrite ST_bind_ok by (apply run_set_parent; rewrite upd_other, alloc_other by done; exact Hn). exists i3. split; [done|]. split; [by exists (replicate 14 0), (replicate 14 0)|]. split; [done|]. apply (ver_new_root false).
Qed.

(** What a round leaves alone: rows, the root, the nodes outside [ps] but for their parents,
    and of every node its layer, its level and where it begins. *)
Definition mem_ok (s : mass) : Prop := 0 < mbrk s /\ mbrk s mod 64 = 0 /\ forall q, mbrk s <= q -> mnodes s !! q = None.
Record carried (s s' : mass) (G G' : ghosts) (ps : gset Z) : Prop := {
  cd_rows : mrows s' = mrows s;
  cd_root : mroot s' = mroot s;
  cd_brk : mbrk s <= mbrk s';
  cd_mem : mem_ok s';
  cd_node q m : q ∉ ps -> mnodes s !! q = Some m -> exists u, mnodes s' !! q = Some (set_node_parent u m);
  cd_ghost q gq : G !! q = Some gq -> exists gq', G' !! q = Some gq' /\ layer gq' = layer gq /\ level gq' = level gq /\ lo gq' = lo gq /\ (q ∉ ps -> hi gq' = hi gq) }.
Lemma same_parent m : m = set_node_parent (node_parent m) m.
Proof. by destruct m as [[]|[]]. Qed.
Lemma mem_alloc s s' : mem_ok s -> mbrk s' = mbrk s + 64 -> (forall q, mbrk s < q -> mnodes s !! q = None -> mnodes s' !! q = None) -> mem_ok s'.
Proof. intros (H0 & H1 & H2) Hb Hn. split; [lia|]. split; [by rewrite Hb, Z.add_mod, H1|]. intros q Hq. apply Hn; [lia|]. apply H2. lia. Qed.
(** ** Under a parent *)
Definition set_i_version (v : Z) (i : internode) : internode := mkInternode v (nkeys_ i) (i_ikey0_ i) (child_ i) (i_parent_ i).
(** A sorted list of bounds covers what lies between its ends. *)
Lemma bounds_cover B : forall a z y, ksorted (a :: B ++ [z]) -> a <= y < z -> exists i b c, (a :: B ++ [z]) !! i = Some b /\ (a :: B ++ [z]) !! S i = Some c /\ b <= y < c.
Proof.
  induction B as [|k B IH]; intros a z y Hs Hy; [by exists 0%nat, a, z|]. destruct (Z.lt_ge_cases y k) as [Hlt|Hge]; [exists 0%nat, a, k; split_and!; try done; lia|].
  apply StronglySorted_cons in Hs as [_ Hs]. destruct (IH k z y Hs ltac:(lia)) as (i & b & c & Hb & Hc & Hbc). by exists (S i), b, c.
Qed.
Lemma family_complete V E pi lv p B cs a z h c gc : ghost_ok V V E -> family V pi lv p (a :: B ++ [z]) cs -> V !! p = Some h -> p <> 0 -> layer h = pi -> level h = S lv -> lo h = a -> hi h = z -> V !! c = Some gc -> up gc = p -> c ∈ cs.
Proof.
  intros Hgo Hf Hp Hp0 Hla Hlv <- <- Hc Hu. pose proof (go_up _ _ _ Hgo c gc Hc) as Hup. rewrite decide_False in Hup by congruence. destruct Hup as (h' & Hh' & Hla' & Hlv' & Hlo & Hhi). rewrite Hu, Hp in Hh'. injection Hh' as <-. pose proof (go_span _ _ _ Hgo c gc Hc).
  destruct (bounds_cover B (lo h) (hi h) (lo gc) (fm_sorted _ _ _ _ _ _ Hf) ltac:(lia)) as (i & b & e & Hb & He & Hbe). pose proof (fm_length _ _ _ _ _ _ Hf) as Hl. pose proof (lookup_lt_Some _ _ _ He). destruct (lookup_lt_is_Some_2 cs i) as [d Hd]; [lia|].
  pose proof (fm_child _ _ _ _ _ _ Hf i d b e Hd Hb He) as Hvd. assert (c = d) as ->; [|by eapply list_elem_of_lookup_2]. apply (go_disj _ _ _ Hgo c d gc _ (lo gc) Hc Hvd); simpl; [congruence|lia|unfold covers; lia|unfold covers; simpl; lia].
Qed.
Section Parent.
Context (s : mass) (G V : ghosts) (E : dict) (X L : gset Z) (n child x st p : Z) (g h : ghost) (mc : node) (i : internode).
Context (Ht : tree_ok (mnodes s) G V E X L) (Hpd : pending G V n child x g) (Hmc : mnodes s !! child = Some mc) (Hup : up g = p) (Hp0 : p <> 0) (Hh : G !! p = Some h) (Hi : mnodes s !! p = Some (NInner i)) (HpL : p ∈ L) (Hmem : mem_ok s).
#[local] Abbreviation V1 := (adopted G child x g p).
(** Where the node is among the children of its parent. *)
Lemma parent_lists : exists l1 l2 c0 c2, inner_arrays i (l1 ++ l2) ((c0 ++ [n]) ++ c2) /\ length c0 = length l1 /\ length c2 = length l2 /\ internode_upper x i = Ok (Z.of_nat (length l1))
  /\ family V1 (layer h) (level g) p (lo h :: (l1 ++ x :: l2) ++ [hi h]) ((c0 ++ [n]) ++ child :: c2).
Proof.
  destruct (round_parent (mnodes s) G V E X L Ht n child x g Hpd p h Hup Hp0 Hh) as (Hlv & Hla & Hlo & Hhi & Hpn & Hpc & Hnc). pose proof (pd_cut _ _ _ _ _ _ Hpd) as Hx.
  destruct (nk_content _ _ _ _ _ _ _ _ (to_node _ _ _ _ _ _ Ht p h _ Hh Hi)) as (lv & ks & cs & Hlv' & Ha & Hf). assert (lv = level g) as -> by lia.
  destruct (child_to_follow _ _ _ _ _ _ _ _ _ x Ha Hf ltac:(lia)) as (j & c & a & b & Hu & Hc & Hja & Hjb & Hab). pose proof (fm_child _ _ _ _ _ _ Hf j c a b Hc Hja Hjb) as Hvc.
  assert (c = n) as ->.
  { destruct (decide (c = n)) as [|Hcn]; [done|]. destruct (decide (c = child)) as [->|Hcc]; [by rewrite (pd_gone _ _ _ _ _ _ Hpd) in Hvc|]. rewrite (pd_same _ _ _ _ _ _ Hpd c Hcn Hcc) in Hvc. destruct (pd_right _ _ _ _ _ _ Hpd) as [u Hchg].
    exfalso. apply Hcc. apply (to_disj _ _ _ _ _ _ Ht c child _ _ x Hvc Hchg); try done. unfold covers. simpl. lia. }
  pose proof (fm_length _ _ _ _ _ _ Hf) as Hl. simpl in Hl. rewrite length_app in Hl. simpl in Hl. pose proof (lookup_lt_Some _ _ _ Hc) as Hjl. pose proof (take_drop_middle _ _ _ Hc) as Hcs.
  assert (Hgeq : g = mkG (layer h) (level g) a b p) by (rewrite (pd_view _ _ _ _ _ _ Hpd) in Hvc; by injection Hvc).
  exists (take j ks), (drop j ks), (take j cs), (drop (S j) cs). assert (Hcs' : (take j cs ++ [n]) ++ drop (S j) cs = cs) by (by rewrite <- app_assoc). split; [by rewrite take_drop, Hcs'|].
  split; [rewrite !length_take; lia|]. split; [rewrite !length_drop; lia|]. split; [rewrite length_take; replace (j `min` length ks)%nat with j by lia; exact Hu|].
  rewrite <- app_assoc. change (lo h :: take j ks ++ (x :: drop j ks) ++ [hi h]) with ((lo h :: take j ks) ++ x :: drop j ks ++ [hi h]).
  apply (family_insert V _ _ _ _ _ _ _ _ _ _ x a b).
  - rewrite Hcs'. replace ((lo h :: take j ks) ++ drop j ks ++ [hi h]) with (lo h :: ks ++ [hi h]); [done|]. simpl. f_equal. rewrite app_assoc. by rewrite take_drop.
  - simpl. rewrite !length_take. lia.
  - done.
  - rewrite Hgeq in Hx. simpl in Hx. lia.
  - rewrite adopted_other by done. rewrite (pd_left _ _ _ _ _ _ Hpd). rewrite Hgeq. done.
  - rewrite adopted_child. rewrite Hgeq. done.
  - intros c gc Hcn Hvc' Huc. rewrite adopted_other; [|intros ->; by rewrite (pd_gone _ _ _ _ _ _ Hpd) in Hvc']. rewrite <- (pd_same _ _ _ _ _ _ Hpd c Hcn); [done|]. intros ->. by rewrite (pd_gone _ _ _ _ _ _ Hpd) in Hvc'.
Qed.
Lemma parent_version : exists rt, ver (i_version i) false rt true /\ (p ∉ X -> lo h = 0 -> rt = bool_decide (up h = 0)) /\ i_parent_ i = up h.
Proof. destruct (to_node _ _ _ _ _ _ Ht p h _ Hh Hi) as [(rt & Hv & Hrt) Hu _]. rewrite bool_decide_eq_true_2 in Hv by done. by exists rt. Qed.
Lemma room_run : nkeys_ i < 15 -> exists s', insert_into_parent p n child x st s = Ok ((0, 0), s') /\ tree_ok (mnodes s') V1 V1 E X L /\ carried s s' G V1 {[p]}.
Proof.
  intros Hroom. destruct (round_parent (mnodes s) G V E X L Ht n child x g Hpd p h Hup Hp0 Hh) as (Hlv & _ & _ & _ & Hpn & Hpc & Hnc). destruct parent_lists as (l1 & l2 & c0 & c2 & Ha & Hl0 & Hl2 & Hu & Hf). destruct parent_version as (rt & Hv & Hrt & Hpar).
  pose proof Ha as (kt & ct & _ & _ & _ & _ & Hnk). unfold insert_into_parent. rewrite (proj2 (Z.eqb_neq p 0)) by done. erewrite ST_bind_ok by (by apply run_inner). erewrite ST_bind_ok by (apply lift_ok; exact Hu).
  rewrite (proj2 (Z.ltb_lt (nkeys_ i) node_width)) by done. set (i0 := set_i_version (mark_insert P (i_version i)) i). rewrite (ST_bind_ok (a := (0, 0, Z.of_nat (length l1))) (s' := upd p (NInner i0) s)).
  2:{ unfold update_version. rewrite (ST_bind_ok (a := tt) (s' := upd p (NInner i0) s)); [done|]. erewrite ST_bind_ok by (by apply run_version). exact (run_write_version s p (NInner i) _ Hi). }
  cbn iota beta. rewrite (proj2 (Z.leb_le 0 (Z.of_nat (length l1)))) by lia.
  destruct (insert_child_run (upd p (NInner i0) s) p i0 child mc l1 l2 (c0 ++ [n]) c2 x) as (i3 & Hrun & Ha3 & Hv3 & Hp3); try done; [apply upd_at|by rewrite upd_other|rewrite length_app; simpl; lia|lia|].
  rewrite (ST_bind_ok Hrun). rewrite (upd_comm s child p) by done. rewrite upd_upd. eexists. split; [done|].
  assert (Hoth : forall q, q <> p -> mnodes (upd p (NInner i3) (upd child (set_node_parent p mc) s)) !! q = if decide (q = child) then Some (set_node_parent p mc) else mnodes s !! q).
  { intros q Hq. rewrite upd_other by done. destruct (decide (q = child)) as [->|]; [apply upd_at|by rewrite upd_other]. }
  split; [|split; try done].
  - apply (tree_adopted (mnodes s) G V E X L Ht n child x g Hpd mc Hmc p h Hup Hp0 Hh _ i3 HpL); [apply upd_at|exact Hoth| |by rewrite Hp3|].
    + exists (level g), (l1 ++ x :: l2), ((c0 ++ [n]) ++ child :: c2). done.
    + exists rt. split; [rewrite Hv3; by apply (ver_mark_insert Hv)|done].
  - destruct Hmem as (H0 & H1 & H2). split; [done|]. split; [done|]. intros q Hq. rewrite Hoth; [|intros ->; rewrite (H2 p Hq) in Hi; done]. rewrite decide_False; [by apply H2|]. intros ->. by rewrite (H2 child Hq) in Hmc.
  - intros q m Hq%not_elem_of_singleton Hm. rewrite Hoth by done. destruct (decide (q = child)) as [->|]; [rewrite Hmc in Hm; injection Hm as <-; by exists p|]. exists (node_parent m). by rewrite <- same_parent.
  - intros q gq Hq. destruct (adopted_place (mnodes s) G V E X L Ht n child x g Hpd mc Hmc p q gq Hq) as (g1 & H1 & ? & ? & ? & ?). by exists g1.
Qed.
(** *** A full parent *)
Section Full.
Context (l1 l2 c0 c2 : list Z) (Ha : inner_arrays i (l1 ++ l2) ((c0 ++ [n]) ++ c2)) (Hl0 : length c0 = length l1) (Hl2 : length c2 = length l2) (Hu : internode_upper x i = Ok (Z.of_nat (length l1))).
Context (Hf : family V1 (layer h) (level g) p (lo h :: (l1 ++ x :: l2) ++ [hi h]) ((c0 ++ [n]) ++ child :: c2)) (Hfull : 15 <= nkeys_ i) (HLs : forall q, q ∈ L -> is_Some (mnodes s !! q)).
#[local] Abbreviation c1 := (c0 ++ [n]).
#[local] Abbreviation mid := (mid_of st).
#[local] Abbreviation ks' := (l1 ++ x :: l2).
#[local] Abbreviation cs' := (c1 ++ child :: c2).
#[local] Abbreviation nc := (mbrk s).
#[local] Abbreviation right := (drop (S mid) cs').
Lemma mid_bounds : (8 <= mid <= 15)%nat.
Proof. unfold mid_of. destruct (st =? 2); lia. Qed.
Lemma full_arrays : i_ikey0_ i = l1 ++ l2 /\ child_ i = c1 ++ c2 /\ (length l1 + length l2 = 15)%nat /\ length c1 = S (length l1).
Proof.
  destruct Ha as (kt & ct & Hk & Hc & Hlk & Hlc & Hnk). assert (length c1 = S (length l1)) as Hc1 by (rewrite length_app; simpl; lia). assert (length l1 + length l2 = 15)%nat as H15 by (rewrite Hk, !length_app in Hlk; rewrite length_app in Hnk; lia).
  rewrite Hk, !length_app in Hlk. rewrite Hc, (length_app (c1 ++ c2)), (length_app c1) in Hlc. destruct kt; [|simpl in *; lia]. destruct ct; [|simpl in *; lia]. by rewrite !app_nil_r in *.
Qed.
Lemma full_view : ghost_ok V1 V1 E /\ V1 !! p = Some h.
Proof. destruct (round_parent (mnodes s) G V E X L Ht n child x g Hpd p h Hup Hp0 Hh) as (_ & _ & _ & _ & _ & Hpc & _). split; [by apply (ghost_adopted G V E (tree_ghost _ _ _ _ _ _ Ht) n)|by rewrite adopted_other]. Qed.
Lemma full_level : level h = S (level g).
Proof. apply (round_parent (mnodes s) G V E X L Ht n child x g Hpd p h Hup Hp0 Hh). Qed.
Section Moved.
Context (sep : Z) (Hsep : ks' !! mid = Some sep).
Lemma sep_bound : (lo h :: ks' ++ [hi h]) !! S mid = Some sep.
Proof. simpl. by apply lookup_app_l_Some. Qed.
Lemma right_moved c : c ∈ right -> exists gc, V1 !! c = Some gc /\ up gc = p /\ sep <= lo gc.
Proof.
  intros [j Hj]%list_elem_of_lookup. rewrite lookup_drop in Hj. destruct (family_at _ _ _ _ _ _ _ _ Hf Hj) as (a & b & Ha' & _ & Hvc). eexists. split; [exact Hvc|]. split; [done|]. cbn [lo]. pose proof sep_bound as HB.
  destruct j as [|j]; [rewrite Nat.add_0_r, HB in Ha'; by injection Ha' as ->|]. pose proof (ksorted_lookup _ (S mid) (S mid + S j) sep a (fm_sorted _ _ _ _ _ _ Hf) ltac:(lia) HB Ha'). lia.
Qed.
Lemma left_kept c gc : V1 !! c = Some gc -> up gc = p -> c ∉ right -> hi gc <= sep.
Proof.
  intros Hvc Huc Hcr. destruct full_view as [Hgo Hvp]. pose proof sep_bound as HB. pose proof (family_complete _ _ _ _ _ _ _ _ _ _ _ _ Hgo Hf Hvp Hp0 eq_refl full_level eq_refl eq_refl Hvc Huc) as [j Hj]%list_elem_of_lookup. assert (j <= mid)%nat as Hjm.
  { destruct (decide (j <= mid)%nat); [done|]. exfalso. apply Hcr. apply (list_elem_of_lookup_2 _ (j - S mid)). rewrite lookup_drop. rewrite <- Hj. f_equal. lia. }
  destruct (family_at _ _ _ _ _ _ _ _ Hf Hj) as (a & b & _ & Hb' & Hvc'). rewrite Hvc in Hvc'. injection Hvc' as ->. cbn [hi]. destruct (decide (j = mid)) as [->|]; [rewrite HB in Hb'; by injection Hb' as <-|].
  pose proof (ksorted_lookup _ (S j) (S mid) b sep (fm_sorted _ _ _ _ _ _ Hf) ltac:(lia) Hb' HB). lia.
Qed.
Lemma right_known c : c ∈ right -> is_Some (mnodes s !! c).
Proof.
  intros Hcr. apply (to_dom _ _ _ _ _ _ Ht). destruct (right_moved c Hcr) as (gc & Hvc & _). destruct (decide (c = child)) as [->|]; [destruct (pd_right _ _ _ _ _ _ Hpd); eauto|]. rewrite adopted_other in Hvc by done. eauto.
Qed.
Lemma nc_fresh : mnodes s !! nc = None /\ (nc ∉ right) /\ (p ∉ right) /\ nc <> p /\ nc <> child /\ nc <> n.
Proof.
  destruct Hmem as (_ & _ & Hb). assert (Hn : mnodes s !! nc = None) by (apply Hb; lia). split; [done|]. split; [intros Hx; destruct (right_known _ Hx); congruence|]. split.
  - intros (gc & Hvc & Huc & _)%right_moved. destruct full_view as [Hgo Hvp]. rewrite Hvp in Hvc. injection Hvc as <-. pose proof (go_up _ _ _ Hgo p h Hvp) as Hx. rewrite decide_False in Hx by congruence. destruct Hx as (h' & Hh' & _ & Hl' & _). rewrite Huc, Hvp in Hh'. injection Hh' as <-. lia.
  - split; [congruence|]. split; [congruence|]. intros Heq. rewrite Heq in Hn. assert (is_Some (mnodes s !! n)) as [? ?]; [|congruence]. apply (to_dom _ _ _ _ _ _ Ht). rewrite (pd_left _ _ _ _ _ _ Hpd). eauto.
Qed.
Lemma sep_inside : lo h < sep < hi h.
Proof.
  pose proof sep_bound as HB. pose proof (fm_sorted _ _ _ _ _ _ Hf) as Hs. pose proof (ksorted_lookup _ 0 (S mid) (lo h) sep Hs ltac:(lia) eq_refl HB). split; [done|]. apply (ksorted_lookup _ (S mid) (S (length ks')) sep (hi h) Hs); [|done|simpl; by rewrite list_lookup_middle].
  pose proof (lookup_lt_Some _ _ _ Hsep). lia.
Qed.
(** The new node takes the right half, and the children there point to it. *)
Definition split_memory (i' r : internode) : mass := upd p (NInner i') (on_nodes (reparent right nc) (alloc (NInner r) s)).
Lemma split_memory_at i' r : mnodes (split_memory i' r) !! p = Some (NInner i') /\ mnodes (split_memory i' r) !! nc = Some (NInner r)
  /\ forall q, q <> p -> q <> nc -> mnodes (split_memory i' r) !! q = (fun m => if decide (q ∈ right) then set_node_parent nc m else m) <$> (mnodes s !! q).
Proof.
  destruct nc_fresh as (_ & HncR & HpR & Hne & _). unfold split_memory. split; [apply upd_at|]. split.
  - rewrite upd_other by done. cbn [mnodes on_nodes]. rewrite reparent_lookup, alloc_at. simpl. by rewrite decide_False.
  - intros q Hq1 Hq2. rewrite upd_other by done. cbn [mnodes on_nodes]. by rewrite reparent_lookup, alloc_other.
Qed.
Lemma split_inner_run nr r i' kp : inner_split_into i nr (Z.of_nat (length l1)) x child st = Ok (r, i', sep, kp) -> inner_arrays r (drop (S mid) ks') right ->
  split_inner p nc (Z.of_nat (length l1)) x child st (alloc (NInner nr) s) = Ok ((sep, kp), split_memory i' r).
Proof.
  intros Hsp (kt & ct & _ & Hcr & _ & _ & Hnr). destruct nc_fresh as (_ & HncR & _ & Hne & _). unfold split_inner, put_inner. erewrite ST_bind_ok by (apply run_inner; rewrite alloc_other by done; exact Hi). erewrite ST_bind_ok by (apply run_inner, alloc_at). erewrite ST_bind_ok by (apply lift_ok; exact Hsp). cbn iota beta.
  rewrite (ST_bind_ok (run_put _ _ _)). rewrite upd_alloc. assert (take (Z.to_nat (nkeys_ r + 1)) (child_ r) = right) as ->.
  { rewrite Hcr. apply take_app_length'. rewrite Hnr. destruct full_arrays as (_ & _ & H15 & Hc1). pose proof mid_bounds. rewrite !length_drop, !length_app in *. simpl in *. lia. }
  rewrite (ST_bind_ok (run_set_parents nc right _ ltac:(intros c Hcr'; rewrite alloc_other; [by apply right_known|intros ->; done]))). by rewrite (ST_bind_ok (run_put _ _ _)).
Qed.
End Moved.
Lemma child_side : (length l1 < mid)%nat <-> child ∉ right.
Proof.
  destruct full_arrays as (_ & _ & _ & Hc1). assert (Hat : cs' !! S (length l1) = Some child) by (by apply list_lookup_middle). split.
  - intros Hlt [j Hj]%list_elem_of_lookup. rewrite lookup_drop in Hj. pose proof (family_inj _ _ _ _ _ _ _ _ _ Hf Hat Hj). lia.
  - intros Hnot. destruct (decide (length l1 < mid)%nat); [done|]. exfalso. apply Hnot. apply (list_elem_of_lookup_2 _ (S (length l1) - S mid)). rewrite lookup_drop. rewrite <- Hat. f_equal. lia.
Qed.
Lemma full_code : exists s' i3 r sep, insert_into_parent p n child x st s = Ok ((nc, sep), s') /\ ks' !! mid = Some sep /\ mnodes s' !! p = Some (NInner i3) /\ mnodes s' !! nc = Some (NInner r)
  /\ (forall q, q <> p -> q <> nc -> mnodes s' !! q = (if decide (q ∈ right) then set_node_parent nc else id) <$> (if decide (q = child) then Some (set_node_parent p mc) else mnodes s !! q))
  /\ (inner_arrays i3 (take mid ks') (take (S mid) cs') /\ i_parent_ i3 = up h /\ ver (i_version i3) false false true)
  /\ (inner_arrays r (drop (S mid) ks') right /\ i_parent_ r = 0 /\ ver (i_version r) false false true)
  /\ mbrk s' = nc + 64 /\ mrows s' = mrows s /\ mroot s' = mroot s.
Proof.
  destruct full_arrays as (Hk & Hc & H15 & Hc1). pose proof mid_bounds as Hm. destruct parent_version as (rt & Hv & _ & Hpar). set (nr := set_i_version (mark_nonroot P (i_version i)) new_internode).
  destruct (internode_split_ok i nr l1 l2 c1 c2 x child st Hk Hc H15 Hc1 Hl2 eq_refl eq_refl) as (r & i' & sep & Hsp & Hsep & (Hrv & Hrp & Hra) & Hi'v & Hi'p & Hi'a).
  destruct (nc_fresh sep Hsep) as (_ & _ & _ & Hnp & Hncc & _). destruct (split_memory_at sep Hsep i' r) as (Hmp & Hmn & Hmo). set (s3 := split_memory i' r) in *. set (kp := if decide (length l1 < mid)%nat then Z.of_nat (length l1) else -1) in *.
  destruct (round_parent (mnodes s) G V E X L Ht n child x g Hpd p h Hup Hp0 Hh) as (_ & _ & _ & _ & Hpn & Hpc & _).
  unfold insert_into_parent. rewrite (proj2 (Z.eqb_neq p 0)) by done. erewrite ST_bind_ok by (by apply run_inner). erewrite ST_bind_ok by (apply lift_ok; exact Hu). rewrite (proj2 (Z.ltb_ge (nkeys_ i) node_width)) by done.
  rewrite (ST_bind_ok (a := (nc, sep, kp)) (s' := s3)).
  2:{ rewrite (ST_bind_ok (run_alloc _ _)). erewrite ST_bind_ok by (apply run_version; rewrite alloc_other by done; exact Hi). rewrite (ST_bind_ok (run_write_version _ _ _ _ (alloc_at _ _))). rewrite upd_alloc. change (set_version _ _) with (NInner nr).
      rewrite (ST_bind_ok (split_inner_run sep Hsep nr r i' kp Hsp Hra)). done. }
  cbn iota beta. assert (Hr : inner_arrays r (drop (S mid) ks') right /\ i_parent_ r = 0 /\ ver (i_version r) false false true) by (split; [done|]; split; [done|]; rewrite Hrv; by apply (ver_nonroot Hv)).
  assert (Hmc3 : forall q, q <> p -> q <> nc -> q <> child -> mnodes s3 !! q = (if decide (q ∈ right) then set_node_parent nc else id) <$> (mnodes s !! q)) by (intros q H1 H2 _; rewrite Hmo by done; by destruct (decide (q ∈ right))).
  pose proof child_side as Hside. unfold kp. destruct (decide (length l1 < mid)%nat) as [Hlt|Hge].
  - rewrite (proj2 (Z.leb_le 0 _)) by lia. apply Hside in Hlt as HcR. destruct (insert_child_run s3 p i' child mc l1 (take (mid - S (length l1)) l2) c1 (take (mid - S (length l1)) c2) x) as (i3 & Hrun & Ha3 & Hv3 & Hp3); try done.
    { rewrite Hmo, Hmc by done. simpl. by rewrite decide_False. } { rewrite !length_take. lia. } { rewrite length_app, length_take. lia. }
    rewrite (ST_bind_ok Hrun). eexists _, i3, r, sep. split; [done|]. split; [done|]. split; [apply upd_at|]. split; [by rewrite !upd_other by congruence|]. split.
    { intros q H1 H2. rewrite upd_other by done. destruct (decide (q = child)) as [->|]; [rewrite upd_at, decide_False by done; done|]. rewrite upd_other by done. by apply Hmc3. }
    split; [|done]. split; [|split; [by rewrite Hp3, Hi'p|rewrite Hv3, Hi'v; by apply (ver_mark_split Hv)]]. replace mid with (S (mid - 1)) at 1 by lia. rewrite take_past by lia. rewrite take_past by lia.
    replace (mid - 1 - length l1)%nat with (mid - S (length l1))%nat by lia. by rewrite Hc1.
  - change (0 <=? -1) with false. cbn iota. rewrite (ST_bind_ok (a := tt) (s' := s3)) by done. assert (child ∈ right) as HcR by (destruct (decide (child ∈ right)); [done|]; by apply Hside in n0).
    eexists s3, i', r, sep. split; [done|]. split; [done|]. split; [done|]. split; [done|]. split.
    { intros q H1 H2. destruct (decide (q = child)) as [->|]; [|by apply Hmc3]. rewrite Hmo, Hmc by done. simpl. rewrite !decide_True by done. by rewrite set_parent_twice. }
    split; [|done]. split; [done|]. split; [by rewrite Hi'p|]. rewrite Hi'v. by apply (ver_mark_split Hv).
Qed.
(** The parent has been cut in two. *)
Lemma full_run : exists s' sep, insert_into_parent p n child x st s = Ok ((nc, sep), s') /\ carried s s' G (cut_ghosts V1 p nc sep h right) {[p]}
  /\ tree_ok (mnodes s') (cut_ghosts V1 p nc sep h right) (cut_view V1 nc right) E ({[p]} ∪ X) ({[nc]} ∪ L) /\ pending (cut_ghosts V1 p nc sep h right) (cut_view V1 nc right) p nc sep h
  /\ exists i3, mnodes s' !! p = Some (NInner i3) /\ ver (i_version i3) false false true.
Proof.
  destruct full_code as (s' & i3 & r & sep & Hrun & Hsep & Hp' & Hn' & Hoth & (Ha3 & Hpa3 & Hv3) & (Har & Hpar & Hvr) & Hb & Hrows & Hroot). exists s', sep. split; [done|].
  destruct (nc_fresh sep Hsep) as (Hfree & HncR & HpR & Hnp & Hncc & Hncn). pose proof full_level as Hlv. destruct full_view as [Hgo Hvp]. pose proof mid_bounds as Hm. destruct full_arrays as (_ & _ & H15 & Hc1).
  assert (Hlen : length cs' = 17%nat /\ length ks' = 16%nat) by (rewrite (length_app c1 (_ :: _)), (length_app l1 (_ :: _)); simpl; lia). destruct Hlen as [Hlc Hlk].
  assert (Hnc0 : 0 < nc /\ nc mod 64 = 0) by (destruct Hmem; tauto). split; [|].
  - split; [done|done|lia| | |].
    + eapply mem_alloc; [done|done|]. intros q Hq Hnone. rewrite Hoth by (congruence || lia). rewrite (decide_False (P := q = child)) by congruence. by rewrite Hnone.
    + intros q m Hq%not_elem_of_singleton Hmq. rewrite Hoth by congruence. destruct (decide (q = child)) as [->|]; [rewrite Hmc in Hmq; injection Hmq as <-|rewrite Hmq]; simpl; case_decide; rewrite ?set_parent_twice; eauto. exists (node_parent m). by rewrite <- same_parent.
    + intros q gq Hq. destruct (adopted_place (mnodes s) G V E X L Ht n child x g Hpd mc Hmc p q gq Hq) as (g1 & H1 & Hs1 & Hs2 & Hs3 & Hs4).
      assert (q <> nc). { intros ->. assert (is_Some (mnodes s !! nc)) as [? ?]; [|congruence]. apply (to_dom _ _ _ _ _ _ Ht). eauto. }
      destruct (decide (q = p)) as [->|Hqp]; [rewrite Hvp in H1; injection H1 as <-; eexists; split; [unfold cut_ghosts; rewrite lookup_insert_ne by congruence; apply lookup_insert_eq|split_and!; [done..|set_solver]]|].
      exists (if decide (q ∈ right) then set_up nc g1 else g1). rewrite cut_other by done. split; [apply cut_view_at; eauto|]. by destruct (decide (q ∈ right)).
  - assert (Hcv : forall c gc, V1 !! c = Some gc -> cut_view V1 nc right !! c = Some (if decide (c ∈ right) then set_up nc gc else gc)) by (intros c gc Hc; apply cut_view_at; eauto).
    destruct (tree_split (mnodes s) G V E X L Ht n child x g Hpd mc Hmc p h Hup Hp0 Hh nc sep right Hfree Hnc0 (sep_inside sep Hsep) (right_moved sep Hsep) (left_kept sep Hsep) (mnodes s') i3 r HpL) as [Ht' Hpd']; try done; try (by eauto).
    + intros [? ?]%HLs. congruence.
    + exists (level g), (take mid ks'), (take (S mid) cs'). split; [done|]. split; [done|]. cbn [lo hi layer]. replace (lo h :: take mid ks' ++ [sep]) with (take (S (S mid)) (lo h :: ks' ++ [hi h])).
      * apply (family_left V1); [done|lia|]. intros c gc Hc Hgc. rewrite (Hcv c gc Hgc). rewrite decide_False; [done|]. intros [j Hj]%list_elem_of_lookup. apply list_elem_of_lookup in Hc as [j' Hj']. rewrite lookup_drop in Hj. apply lookup_take_Some in Hj' as [Hj' Hlt]. pose proof (family_inj _ _ _ _ _ _ _ _ _ Hf Hj' Hj). lia.
      * simpl. f_equal. rewrite take_app_le by lia. by apply take_S_r.
    + exists (level g), (drop (S mid) ks'), right. split; [done|]. split; [done|]. cbn [lo hi layer]. replace (sep :: drop (S mid) ks' ++ [hi h]) with (drop (S mid) (lo h :: ks' ++ [hi h])).
      * apply (family_right V1 _ _ _ p); [done|lia|]. intros c gc Hc Hgc. rewrite (Hcv c gc Hgc). by rewrite decide_True.
      * simpl. rewrite drop_app_le by lia. by rewrite (drop_S _ _ _ Hsep).
Qed.
End Full.
End Parent.
