(* ===== verification/MassClimb.v ===== *)
(** * The loop of [finish_split]

    A round locks the parent of the node that was split, enters the new half and hands a split
    of the parent to the next round. *)

From S2P Require Import Prelude Permuter KSearch NodeVersion MassKey MassBag MassNode MassTree MassLeaf MassSplit MassInv MassDict MassGet MassWrite MassInner MassGhost MassParent MassRound.
#[local] Abbreviation P := nodeversion32_parameters.

(** ** A round *)
(** [child] is the new half of [n]; both are locked, and nothing above them is. *)
Record climbing (s : mass) (G V : ghosts) (E : dict) (X L : gset Z) (n child x : Z) (g : ghost) : Prop := {
  cl_tree : tree_ok (mnodes s) G V E X L;
  cl_pending : pending G V n child x g;
  cl_mem : mem_ok s;
  cl_split : n ∈ X;
  cl_left : n ∈ L;
  cl_right : child ∈ L;
  cl_locked q : q ∈ L -> exists gq, G !! q = Some gq /\ (level gq <= level g)%nat }.
(** The two outcomes: the parent had room or is new, or it was split in turn. *)
Definition resolved (s : mass) (G : ghosts) (E : dict) (X L : gset Z) (p : Z) : Prop :=
  tree_ok (mnodes s) G G E X (if decide (p = 0) then L else {[p]} ∪ L) /\ (p <> 0 -> exists i, mnodes s !! p = Some (NInner i)).
Definition passed_on (s : mass) (G G' : ghosts) (E : dict) (X L : gset Z) (p nc sep : Z) (g : ghost) : Prop := exists V h,
  climbing s G' V E ({[p]} ∪ X) ({[nc]} ∪ ({[p]} ∪ L)) p nc sep h /\ level h = S (level g) /\ (nc ∉ L)
  /\ (exists i, mnodes s !! p = Some (NInner i) /\ ver (i_version i) false false true) /\ forall q gq, G' !! q = Some gq -> exists q0 g0, G !! q0 = Some g0 /\ level gq = level g0.
Lemma mem_upd s p n m : mem_ok s -> mnodes s !! p = Some m -> mem_ok (upd p n s).
Proof. intros (H0 & H1 & H2) Hm. split; [done|]. split; [done|]. intros q Hq. rewrite upd_other; [by apply H2|]. intros ->. by rewrite (H2 p Hq) in Hm. Qed.
Lemma carried_upd s s' G G' p m m' : mnodes s !! p = Some m -> carried (upd p m' s) s' G G' {[p]} -> carried s s' G G' {[p]}.
Proof. intros Hm []. split; try done. intros q mq Hq Hmq. apply cd_node; [done|]. rewrite upd_other by set_solver. done. Qed.
Section Round.
Context (s : mass) (G V : ghosts) (E : dict) (X L : gset Z) (n child x st : Z) (g : ghost) (Hcl : climbing s G V E X L n child x g).
#[local] Abbreviation Ht := (cl_tree _ _ _ _ _ _ _ _ _ _ Hcl).
#[local] Abbreviation Hpd := (cl_pending _ _ _ _ _ _ _ _ _ _ Hcl).
Lemma locked_known q : q ∈ L -> is_Some (mnodes s !! q).
Proof. intros (gq & Hgq & _)%(cl_locked _ _ _ _ _ _ _ _ _ _ Hcl). apply (to_dom _ _ _ _ _ _ Ht). eauto. Qed.
Lemma fresh_node : mnodes s !! mbrk s = None /\ (mbrk s ∉ L) /\ 0 < mbrk s /\ mbrk s mod 64 = 0.
Proof. destruct (cl_mem _ _ _ _ _ _ _ _ _ _ Hcl) as (H0 & H1 & H2). assert (Hf : mnodes s !! mbrk s = None) by (apply H2; lia). split; [done|]. split; [intros [? ?]%locked_known; congruence|done]. Qed.
Lemma round_root mn : up g = 0 -> mnodes s !! n = Some mn -> exists s' G', insert_into_parent 0 n child x st s = Ok ((0, 0), s') /\ carried s s' G G' {[0]}
  /\ (exists u, u <> 0 /\ G' !! n = Some (mkG (layer g) (level g) (lo g) x u)) /\ resolved s' G' E X L 0.
Proof.
  intros Hup Hmn. pose proof Hpd as Hp. destruct fresh_node as (Hf & HfL & Hf0). destruct (pd_right _ _ _ _ _ _ Hp) as [u0 Hc]. destruct (tree_node _ _ _ _ _ _ _ _ Ht Hc) as (mc & Hmc & _). pose proof (pending_ne _ _ _ _ _ _ Hp) as Hne.
  assert (Hn1 : n <> mbrk s) by congruence. assert (Hc1 : child <> mbrk s) by congruence. destruct (new_root_run s n child mn mc x st Hmn Hmc Hne Hn1 Hc1) as (i & Hrun & Ha & Hpar & Hv).
  set (s' := upd n _ _) in *. exists s', (rooted G n child x g (mbrk s)). split; [done|].
  assert (Hn' : mnodes s' !! n = Some (set_node_parent (mbrk s) mn)) by apply upd_at. assert (Hc' : mnodes s' !! child = Some (set_node_parent (mbrk s) mc)) by (unfold s'; rewrite upd_other by done; apply upd_at).
  assert (Ho' : forall q, q <> mbrk s -> q <> n -> q <> child -> mnodes s' !! q = mnodes s !! q) by (intros q H1 H2 H3; unfold s'; rewrite !upd_other by done; by apply alloc_other).
  assert (Hg : forall q, q <> mbrk s -> q <> n -> q <> child -> rooted G n child x g (mbrk s) !! q = G !! q) by (intros; unfold rooted; by rewrite !lookup_insert_ne).
  assert (Hgn : rooted G n child x g (mbrk s) !! n = Some (mkG (layer g) (level g) (lo g) x (mbrk s))) by (unfold rooted; rewrite lookup_insert_ne by done; apply lookup_insert_eq).
  assert (Hgc : rooted G n child x g (mbrk s) !! child = Some (mkG (layer g) (level g) x (hi g) (mbrk s))) by (unfold rooted; rewrite !lookup_insert_ne by done; apply lookup_insert_eq). split; [split; try done|split].
  - simpl. lia.
  - eapply mem_alloc; [apply Hcl|done|]. intros q Hq Hnone. rewrite Ho'; [done|lia|congruence|congruence].
  - intros q m _ Hm. destruct (decide (q = n)) as [->|]; [rewrite Hmn in Hm; injection Hm as <-; eauto|]. destruct (decide (q = child)) as [->|]; [rewrite Hmc in Hm; injection Hm as <-; eauto|]. rewrite Ho' by congruence. exists (node_parent m). by rewrite <- same_parent.
  - intros q gq Hq. destruct (decide (q = n)) as [->|]; [rewrite (pd_left _ _ _ _ _ _ Hp) in Hq; injection Hq as <-; by eexists|]. destruct (decide (q = child)) as [->|]; [rewrite Hc in Hq; injection Hq as <-; by eexists|].
    exists gq. rewrite Hg; [done| |done|done]. intros ->. assert (is_Some (mnodes s !! mbrk s)) as [? ?]; [|congruence]. apply (to_dom _ _ _ _ _ _ Ht). eauto.
  - exists (mbrk s). split; [lia|done].
  - split; [|done]. rewrite decide_True by done. by apply (tree_rooted (mnodes s) G V E X L Ht n child x g Hp mc Hmc Hup (cl_split _ _ _ _ _ _ _ _ _ _ Hcl) (mbrk s) Hf Hf0 mn Hmn _ i); try done; unfold s'; rewrite !upd_other by done; apply alloc_at.
Qed.
Lemma round_above p : up g = p -> p <> 0 -> exists pv s1 nc sep s' G', version_of p s = Ok (pv, s) /\ nb_lock p pv s = Ok (Z.lor pv 1, s1) /\ insert_into_parent p n child x st s1 = Ok ((nc, sep), s') /\ carried s s' G G' {[p]} /\ (p ∉ L)
  /\ (exists u, u <> 0 /\ G' !! n = Some (mkG (layer g) (level g) (lo g) x u)) /\ ((nc = 0 /\ resolved s' G' E X L p) \/ (nc <> 0 /\ passed_on s' G G' E X L p nc sep g)).
Proof.
  intros Hup Hp0. pose proof Hpd as Hp. destruct fresh_node as (Hf & HfL & Hf0 & Hf64). pose proof (to_up _ _ _ _ _ _ Ht n g (pd_view _ _ _ _ _ _ Hp)) as Hu. rewrite Hup, decide_False in Hu by done. destruct Hu as (h & Hh & Hla & Hlv & _).
  assert (HpL : p ∉ L) by (intros (h' & Hh' & Hle)%(cl_locked _ _ _ _ _ _ _ _ _ _ Hcl); rewrite Hh in Hh'; injection Hh' as <-; lia). destruct (tree_node _ _ _ _ _ _ _ _ Ht Hh) as (m & Hm & Hok). destruct (node_inner _ _ _ _ _ _ _ _ _ Hok Hlv) as (i & -> & _).
  destruct (node_lock_ok s G V E X L p h _ Ht Hh Hm HpL) as [Hlock Ht1]. set (v := i_version i) in *. set (i1 := set_i_version (Z.lor v 1) i). set (s1 := upd p _ s) in *. exists v, s1.
  assert (Hi1 : mnodes s1 !! p = Some (NInner i1)) by apply upd_at. assert (Hmem1 : mem_ok s1) by (by eapply mem_upd; [apply Hcl|]). destruct (pd_right _ _ _ _ _ _ Hp) as [u0 Hc]. destruct (parent_ne G V n child x g Hp h p Hh Hlv) as [Hpn Hpc].
  destruct (tree_node _ _ _ _ _ _ _ _ Ht1 Hc) as (mc & Hmc & _). assert (HpL1 : p ∈ {[p]} ∪ L) by set_solver. pose proof (pending_ne _ _ _ _ _ _ Hp) as Hne. assert (Hgn : adopted G child x g p !! n = Some (mkG (layer g) (level g) (lo g) x (up g))) by (unfold adopted; rewrite lookup_insert_ne by done; apply Hp).
  destruct (Z.lt_ge_cases (nkeys_ i1) 15) as [Hroom|Hfull].
  - destruct (room_run s1 G V E X ({[p]} ∪ L) n child x st p g h mc i1 Ht1 Hp Hmc Hup Hp0 Hh Hi1 HpL1 Hmem1 Hroom) as (s' & Hrun & Ht' & Hcd). exists 0, 0, s', (adopted G child x g p). split; [by apply run_version with (n := NInner i)|]. split; [done|]. split; [done|]. split; [by eapply carried_upd|]. split; [done|]. split.
    + exists (up g). split; [congruence|done].
    + left. split; [done|]. split; [by rewrite decide_False|]. intros _. destruct (tree_node _ _ _ _ _ _ p h Ht') as (m & Hm' & Hok'); [unfold adopted; by rewrite lookup_insert_ne|]. destruct (node_inner _ _ _ _ _ _ _ _ _ Hok' Hlv) as (i' & -> & _). eauto.
  - destruct (parent_lists s1 G V E X ({[p]} ∪ L) n child x p g h i1 Ht1 Hp Hup Hp0 Hh Hi1) as (l1 & l2 & c0 & c2 & Ha & Hl0 & Hl2 & Hu & Hfam).
    destruct (full_run s1 G V E X ({[p]} ∪ L) n child x st p g h mc i1 Ht1 Hp Hmc Hup Hp0 Hh Hi1 HpL1 Hmem1 l1 l2 c0 c2 Ha Hl0 Hl2 Hu Hfam Hfull) as (s' & sep & Hrun & Hcd & Ht' & Hpd' & Hi').
    { intros q [->%elem_of_singleton|[mq Hq]%locked_known]%elem_of_union; [eauto|]. destruct (decide (q = p)) as [->|]; [eauto|]. unfold s1. rewrite upd_other by done. eauto. }
    set (right := drop _ _) in *. change (mbrk s1) with (mbrk s) in *. set (G2 := cut_ghosts _ _ _ _ _ _) in *. set (nc := mbrk s) in *. assert (n <> nc) as Hnnc by (intros Heq; destruct (proj2 (to_dom _ _ _ _ _ _ Ht n)) as [? ?]; [rewrite (pd_left _ _ _ _ _ _ Hp); eauto|congruence]).
    exists nc, sep, s', G2. split; [by apply run_version with (n := NInner i)|]. split; [done|]. split; [done|]. split; [by eapply carried_upd|]. split; [done|]. split.
    + unfold G2. rewrite cut_other by done. destruct (decide (n ∈ right)) as [Hr|Hr]; [exists nc|exists p]; (split; [lia|]); apply cut_view_at; eexists; (split; [exact Hgn|]); [by rewrite decide_True|rewrite decide_False by done; by rewrite Hup].
    + right. split; [lia|]. exists (cut_view (adopted G child x g p) nc right), h. split; [|split; [done|split; [done|split; [done|]]]].
      * split; try done; [apply Hcd|set_solver..|]. intros q [->%elem_of_singleton|[->%elem_of_singleton|Hq]%elem_of_union]%elem_of_union.
        -- destruct (pd_right _ _ _ _ _ _ Hpd') as [u Hu']. eexists. split; [exact Hu'|done].
        -- eexists. split; [exact (pd_left _ _ _ _ _ _ Hpd')|done].
        -- destruct (cl_locked _ _ _ _ _ _ _ _ _ _ Hcl q Hq) as (gq & Hgq & Hle). destruct (cd_ghost _ _ _ _ _ Hcd q gq Hgq) as (gq' & Hgq' & _ & Hl & _). exists gq'. split; [done|lia].
      * intros q gq [[-> ->]|[[-> ->]|(_ & _ & Hq)]]%cut_at; [by exists p, h..|]. apply cut_place in Hq as (h0 & H0 & _ & -> & _). unfold adopted in H0. apply lookup_insert_Some in H0 as [[<- <-]|[_ H0]]; [|by eauto]. eexists n, _. split; [apply Hp|done].
Qed.
Lemma round_ok : exists p s1 nc sep s' G', locked_parent n s = Ok (p, s1) /\ insert_into_parent p n child x st s1 = Ok ((nc, sep), s') /\ carried s s' G G' {[p]} /\ (p ∉ L)
  /\ (exists u, u <> 0 /\ G' !! n = Some (mkG (layer g) (level g) (lo g) x u)) /\ ((nc = 0 /\ resolved s' G' E X L p) \/ (nc <> 0 /\ p <> 0 /\ passed_on s' G G' E X L p nc sep g)).
Proof.
  pose proof Hpd as Hp. destruct (tree_node _ _ _ _ _ _ _ _ Ht (pd_left _ _ _ _ _ _ Hp)) as (mn & Hmn & Hokn). pose proof (nk_up _ _ _ _ _ _ _ _ Hokn) as Hpar. cbn [up] in Hpar.
  unfold locked_parent. erewrite ST_bind_ok by (by apply run_node). rewrite Hpar. destruct (Z.eqb_spec (up g) 0) as [Hup|Hup].
  - destruct (round_root mn Hup Hmn) as (s' & G' & Hrun & Hcd & Hg & Hr). exists 0, s, 0, 0, s', G'. split; [done|]. split; [done|]. split; [done|]. split; [|split; [done|by left]].
    intros (gq & Hgq & _)%(cl_locked _ _ _ _ _ _ _ _ _ _ Hcl). destruct (to_addr _ _ _ _ _ _ Ht 0 ltac:(eauto)). lia.
  - destruct (round_above (up g) eq_refl Hup) as (pv & s1 & nc & sep & s' & G' & Hver & Hlock & Hrun & Hcd & HpL & Hg & Hr). exists (up g), s1, nc, sep, s', G'. split; [by rewrite (ST_bind_ok Hver), (ST_bind_ok Hlock)|]. split; [done|]. split; [done|]. split; [done|]. split; [done|].
    destruct Hr as [Hr|[Hnc Hr]]; [by left|by right].
Qed.
End Round.

(** ** The rest of a round *)
Lemma carried_trans s s1 s2 G G1 G2 ps1 ps2 : carried s s1 G G1 ps1 -> carried s1 s2 G1 G2 ps2 -> carried s s2 G G2 (ps1 ∪ ps2).
Proof.
  intros [] []. split; [congruence|congruence|lia|done| |].
  - intros q m Hq Hm. destruct (cd_node q m) as [u Hu]; [set_solver|done|]. destruct (cd_node0 q _ ltac:(set_solver) Hu) as [u' Hu']. exists u'. by rewrite Hu', set_parent_twice.
  - intros q gq Hq. destruct (cd_ghost q gq Hq) as (g1 & Hg1 & ? & ? & ? & Hh1). destruct (cd_ghost0 q g1 Hg1) as (g2 & Hg2 & ? & ? & ? & Hh2). exists g2. split; [done|]. split_and!; [congruence..|]. intros Hps. rewrite Hh2, Hh1 by set_solver. done.
Qed.
Lemma carried_write s G p m m' : mem_ok s -> mnodes s !! p = Some m -> carried s (upd p m' s) G G {[p]}.
Proof.
  intros Hmem Hm. split; [done|done|simpl; lia|by eapply mem_upd| |by eauto 7].
  intros q mq Hq Hmq. rewrite upd_other by set_solver. exists (node_parent mq). by rewrite <- same_parent.
Qed.
Lemma release s G V E X L p g n : tree_ok (mnodes s) G V E X L -> mem_ok s -> G !! p = Some g -> mnodes s !! p = Some n -> p ∈ L -> (forall l, n = NLeaf l -> p ∉ X -> lo g <> 0 -> 0 ∈ live l) ->
  exists s', nb_unlock_this p s = Ok (tt, s') /\ tree_ok (mnodes s') G V E X (L ∖ {[p]}) /\ carried s s' G G {[p]}.
Proof.
  intros Ht Hmem Hg Hn HL H0. destruct (node_unlock_ok s G V E X L p g n Ht Hg Hn HL H0) as [Hrun Ht']. eexists. split; [|split; [exact Ht'|by eapply carried_write]]. unfold nb_unlock_this. by erewrite ST_bind_ok by (by apply run_version).
Qed.
(** The split of an inner node ends when its parent knows of both halves. *)
Lemma end_split N G V E X L n g i : tree_ok N G V E X L -> G !! n = Some g -> N !! n = Some (NInner i) -> up g <> 0 -> (exists lk, ver (i_version i) false false lk) -> tree_ok N G V E (X ∖ {[n]}) L.
Proof.
  intros Ht Hg Hn Hup [lk Hv]. rewrite <- (insert_id N n (NInner i)) by done. eapply (tree_write _ _ _ E E X); [done|done|set_solver|by left|]. destruct (to_node _ _ _ _ _ _ Ht n g _ Hg Hn) as [(rt & Hv' & _) Hu Hc]. split; [|done|done].
  exists false. split; [|intros _ _; symmetry; by apply bool_decide_eq_false_2]. destruct Hv, Hv'. split; try done; congruence.
Qed.
(** *** A round for an inner node *)
Lemma carried_inner s s' G G' ps q i : carried s s' G G' ps -> q ∉ ps -> mnodes s !! q = Some (NInner i) -> exists i', mnodes s' !! q = Some (NInner i') /\ i_version i' = i_version i.
Proof. intros Hcd Hq Hi. destruct (cd_node _ _ _ _ _ Hcd q _ Hq Hi) as [u Hu]. by eexists. Qed.
Lemma finish_inner s G V E X L n child g gc i ic c : tree_ok (mnodes s) G V E X L -> mem_ok s -> G !! n = Some g -> up g <> 0 -> mnodes s !! n = Some (NInner i) -> (exists lk, ver (i_version i) false false lk) ->
  G !! child = Some gc -> mnodes s !! child = Some (NInner ic) -> n ∈ L -> child ∈ L -> n <> child -> n_ c <> n -> n_ c <> child ->
  exists s', (forall B (k : MM B), ((if negb (n =? n_ c) then nb_unlock_this n else mret tt);; (if negb (child =? n_ c) then nb_unlock_this child else mret tt);; k) s = k s')
    /\ tree_ok (mnodes s') G V E (X ∖ {[n]}) (L ∖ {[n]} ∖ {[child]}) /\ carried s s' G G ({[n]} ∪ {[child]}).
Proof.
  intros Ht Hmem Hg Hup Hn Hv Hgc Hc HnL HcL Hne H1 H2. pose proof (end_split _ _ _ _ _ _ _ _ _ Ht Hg Hn Hup Hv) as Ht0. destruct (release s G V E _ L n g _ Ht0 Hmem Hg Hn HnL) as (s1 & Hrun1 & Ht1 & Hcd1); [done|].
  destruct (carried_inner _ _ _ _ _ child ic Hcd1) as (ic' & Hc' & _); [set_solver|done|]. destruct (release s1 G V E _ _ child gc _ Ht1 (cd_mem _ _ _ _ _ Hcd1) Hgc Hc') as (s2 & Hrun2 & Ht2 & Hcd2); [set_solver|done|].
  exists s2. split; [|split; [done|by eapply carried_trans]]. intros B k. rewrite (proj2 (Z.eqb_neq n (n_ c))), (proj2 (Z.eqb_neq child (n_ c))) by congruence. cbn [negb]. by rewrite (ST_bind_ok Hrun1), (ST_bind_ok Hrun2).
Qed.
Lemma climb_ok B st c : forall fuel s G V E n child x g i, climbing s G V E {[n]} ({[child]} ∪ ({[n]} ∪ {[n_ c]})) n child x g -> n_ c <> n -> n_ c <> child ->
  mnodes s !! n = Some (NInner i) -> ver (i_version i) false false true -> (forall q gq, G !! q = Some gq -> (level gq < B)%nat) -> (B - level g <= fuel)%nat ->
  exists s' G' ps, split_loop fuel n child x st c s = Ok (c, s') /\ settled (mnodes s') G' E {[n_ c]} /\ carried s s' G G' ps /\ (n_ c ∉ ps).
Proof.
  induction fuel as [|fuel IH]; intros s G V E n child x g i Hcl Hq1 Hq2 Hi Hv HB Hfu; pose proof (cl_pending _ _ _ _ _ _ _ _ _ _ Hcl) as Hpd; pose proof (HB _ _ (pd_left _ _ _ _ _ _ Hpd)) as HBg; cbn [level] in HBg; [lia|].
  pose proof (pending_ne _ _ _ _ _ _ Hpd) as Hne. destruct (round_ok s G V E _ _ n child x st g Hcl) as (p & s1 & nc & sep & s2 & G2 & Hlp & Hip & Hcd & HpL & (u & Hu & Hgn) & Hout).
  cbn [split_loop]. rewrite (ST_bind_ok Hlp), (ST_bind_ok Hip). cbn iota beta. destruct (carried_inner _ _ _ _ _ n i Hcd) as (i2 & Hi2 & Hvi); [set_solver|done|]. rewrite <- Hvi in Hv. erewrite ST_bind_ok by (by apply run_version). cbn [node_version]. rewrite (ver_isleaf Hv). rewrite (ST_bind_ok (a := c) (s' := s2)) by done.
  assert (Hchild : exists gc2 ic2, G2 !! child = Some gc2 /\ mnodes s2 !! child = Some (NInner ic2)).
  { destruct (pd_right _ _ _ _ _ _ Hpd) as [u0 Hc]. destruct (tree_node _ _ _ _ _ _ _ _ (cl_tree _ _ _ _ _ _ _ _ _ _ Hcl) Hc) as (mc & Hmc & Hokc). destruct (to_node _ _ _ _ _ _ (cl_tree _ _ _ _ _ _ _ _ _ _ Hcl) n _ _ (pd_left _ _ _ _ _ _ Hpd) Hi) as [_ _ (lv & _ & _ & Hlv & _)]. cbn [level] in Hlv.
    destruct (node_inner _ _ _ _ _ _ _ _ lv Hokc Hlv) as (ic & -> & _). destruct (carried_inner _ _ _ _ _ child ic Hcd) as (ic2 & Hic2 & _); [set_solver|done|]. destruct (cd_ghost _ _ _ _ _ Hcd child _ Hc) as (gc2 & Hgc2 & _). eauto. }
  destruct Hchild as (gc2 & ic2 & Hgc2 & Hic2). assert (Hfin : forall V2 X2 L2, tree_ok (mnodes s2) G2 V2 E X2 L2 -> n ∈ L2 -> child ∈ L2 -> exists s',
    (forall C (k : MM C), ((if negb (n =? n_ c) then nb_unlock_this n else mret tt);; (if negb (child =? n_ c) then nb_unlock_this child else mret tt);; k) s2 = k s')
    /\ tree_ok (mnodes s') G2 V2 E (X2 ∖ {[n]}) (L2 ∖ {[n]} ∖ {[child]}) /\ carried s2 s' G2 G2 ({[n]} ∪ {[child]})).
  { intros V2 X2 L2 Ht2 Hn2 Hc2. destruct (finish_inner s2 G2 V2 E X2 L2 n child _ gc2 i2 ic2 c Ht2 (cd_mem _ _ _ _ _ Hcd) Hgn Hu Hi2 ltac:(eauto) Hgc2 Hic2 Hn2 Hc2 Hne Hq1 Hq2) as (s' & H1 & H2 & H3). by exists s'. }
  assert (Hqp : n_ c <> p) by set_solver. assert (Hpn : p <> n /\ p <> child) by set_solver. destruct Hpn as [Hpn Hpc].
  destruct Hout as [[-> [Ht2 Hp2]]|(Hnc & Hp0 & V2 & h & Hcl2 & Hlv & HncL & (ip & Hip2 & Hvp) & Hlvs)].
  - destruct (Hfin _ _ _ Ht2) as (s3 & Hrun & Ht3 & Hcd3); [destruct (decide (p = 0)); set_solver..|]. rewrite Hrun. cbn [Z.eqb negb]. rewrite difference_diag_L in Ht3. destruct (decide (p = 0)) as [->|Hp0].
    + eexists s3, G2, _. split; [done|]. split; [|split; [exact (carried_trans _ _ _ _ _ _ _ _ Hcd Hcd3)|set_solver]]. replace {[n_ c]} with (({[child]} ∪ ({[n]} ∪ {[n_ c]})) ∖ {[n]} ∖ {[child]} : gset Z) by set_solver. done.
    + destruct (Hp2 Hp0) as [ip Hip2]. rewrite (proj2 (Z.eqb_neq p 0)) by done. cbn [negb]. destruct (carried_inner _ _ _ _ _ p ip Hcd3) as (ip3 & Hip3 & _); [set_solver|done|]. destruct (proj1 (to_dom _ _ _ _ _ _ Ht3 p) ltac:(eauto)) as [gp Hgp].
      destruct (release s3 G2 G2 E _ _ p gp _ Ht3 (cd_mem _ _ _ _ _ Hcd3) Hgp Hip3) as (s4 & Hrun4 & Ht4 & Hcd4); [set_solver|done|]. rewrite (ST_bind_ok Hrun4). eexists s4, G2, _. split; [done|]. split; [|split; [exact (carried_trans _ _ _ _ _ _ _ _ Hcd (carried_trans _ _ _ _ _ _ _ _ Hcd3 Hcd4))|set_solver]].
      replace {[n_ c]} with (({[p]} ∪ ({[child]} ∪ ({[n]} ∪ {[n_ c]}))) ∖ {[n]} ∖ {[child]} ∖ {[p]} : gset Z) by set_solver. done.
  - destruct (Hfin _ _ _ (cl_tree _ _ _ _ _ _ _ _ _ _ Hcl2)) as (s3 & Hrun & Ht3 & Hcd3); [set_solver..|]. rewrite Hrun. rewrite (proj2 (Z.eqb_neq nc 0)) by done. cbn [negb]. destruct (carried_inner _ _ _ _ _ p ip Hcd3) as (ip3 & Hip3 & Hvp3); [set_solver|done|]. rewrite <- Hvp3 in Hvp.
    assert (Hp3 : pending G2 V2 p nc sep h) by apply Hcl2. destruct (IH s3 G2 V2 E p nc sep h ip3) as (s4 & G4 & ps & Hrun4 & Ht4 & Hcd4 & Hps); try done; [|set_solver| |lia|].
    + replace (({[p]} ∪ {[n]}) ∖ {[n]}) with ({[p]} : gset Z) in Ht3 by set_solver. replace (_ ∖ {[n]} ∖ {[child]}) with ({[nc]} ∪ ({[p]} ∪ {[n_ c]}) : gset Z) in Ht3 by set_solver. split; [done|done|apply Hcd3|set_solver..|]. intros q Hq. apply (cl_locked _ _ _ _ _ _ _ _ _ _ Hcl2). set_solver.
    + intros q gq (q0 & g0 & Hg0 & ->)%Hlvs. by eapply HB.
    + eexists s4, G4, _. split; [exact Hrun4|]. split; [done|]. split; [exact (carried_trans _ _ _ _ _ _ _ _ Hcd (carried_trans _ _ _ _ _ _ _ _ Hcd3 Hcd4))|set_solver].
Qed.
