(* ===== verification/MassLink.v ===== *)
(** * Splitting a leaf of a Masstree

    [finish_split] up to its loop: a new leaf takes the right part of a full one and enters
    the list of leaves; no parent knows of it yet. *)

From S2P Require Import Prelude Permuter KSearch NodeVersion MassKey MassBag MassNode MassTree MassLeaf MassSplit MassInv MassDict MassGet MassWrite MassInner MassGhost MassParent MassRound MassClimb.
#[local] Abbreviation P := nodeversion32_parameters.

(** ** New leaves *)
Lemma leaf_sizes k : 0 <= k -> leaf_alloc_size k = 320 \/ leaf_alloc_size k = 384 \/ leaf_alloc_size k = 448.
Proof.
  intros Hk. unfold leaf_alloc_size. set (m := Z.min k 128). assert (Hm : 0 <= m < 129) by lia.
  assert (Hall : forallb (fun m => let z := iceil (sizeof_leaf + m) 64 in (z =? 320) || (z =? 384) || (z =? 448)) (seqZ 0 129) = true) by (vm_compute; reflexivity).
  rewrite forallb_forall in Hall. specialize (Hall m ltac:(apply list_elem_of_In, elem_of_seqZ; lia)). rewrite !orb_true_iff, !Z.eqb_eq in Hall. tauto.
Qed.
Lemma new_leaf_shape k ts : 0 <= k -> shape_ok (new_leaf (leaf_alloc_size k) ts).
Proof.
  intros Hk. split; try done. unfold bags_ok. cbn [ksuf_ new_leaf]. destruct (leaf_sizes k Hk) as [-> | [-> | ->]]; [done|..]; intros _; (apply (new_bag_ok 8 ltac:(by left) 15); [lia|vm_compute; split; congruence]).
Qed.
Lemma used_nonneg l : shape_ok l -> 0 <= ksuf_used_capacity l.
Proof.
  intros [_ _ _ Hb]. unfold ksuf_used_capacity, bags_ok, used_capacity in *. destruct (ksuf_ l) as [b|]; [destruct Hb as [Hb _]; pose proof (bk_size _ _ _ Hb); change (overhead 16 15) with 64 in *; lia|].
  destruct (Z.ltb_spec 0 (extrasize64_ l)) as [Hlt|]; [|done]. pose proof (bk_size _ _ _ (Hb Hlt)). change (overhead 8 15) with 32 in *. lia.
Qed.

(** ** Linking *)
Lemma link_run s n child l r : mnodes s !! n = Some (NLeaf l) -> mnodes s !! child = Some (NLeaf r) -> n <> child -> l_next_ l <> n -> l_next_ l <> child -> l_next_ l mod 64 = 0 ->
  (l_next_ l = 0 \/ exists x, mnodes s !! l_next_ l = Some (NLeaf x)) -> exists s', link_split n child s = Ok (tt, s') /\ mbrk s' = mbrk s /\ mrows s' = mrows s /\ mroot s' = mroot s
    /\ mnodes s' !! n = Some (NLeaf (set_next child l)) /\ mnodes s' !! child = Some (NLeaf (set_next (l_next_ l) (set_prev n r)))
    /\ (forall x, l_next_ l <> 0 -> mnodes s !! l_next_ l = Some (NLeaf x) -> mnodes s' !! l_next_ l = Some (NLeaf (set_prev child x)))
    /\ forall q, q <> n -> q <> child -> (q <> l_next_ l \/ l_next_ l = 0) -> mnodes s' !! q = mnodes s !! q.
Proof.
  intros Hn Hc Hne Hx1 Hx2 Hmod Hx. unfold link_split, put_leaf. erewrite ST_bind_ok by (by apply run_leaf). rewrite (ST_bind_ok (run_put _ _ _)).
  set (y := l_next_ l) in *. set (l1 := if y =? 0 then l else set_next (y + 1) l). set (s1 := upd child (NLeaf (set_prev n r)) s). set (s2 := if y =? 0 then s1 else upd n (NLeaf l1) s1).
  assert (Hs2n : mnodes s2 !! n = Some (NLeaf l1)) by (unfold s2, l1; destruct (y =? 0); [unfold s1; by rewrite upd_other|apply upd_at]).
  assert (Hs2c : mnodes s2 !! child = Some (NLeaf (set_prev n r))) by (unfold s2; destruct (y =? 0); [apply upd_at|rewrite upd_other by done; apply upd_at]).
  assert (Hs2o : forall q, q <> n -> q <> child -> mnodes s2 !! q = mnodes s !! q) by (intros q H1 H2; unfold s2, s1; destruct (y =? 0); by rewrite !upd_other by done).
  rewrite (ST_bind_ok (a := y) (s' := s2)).
  2:{ unfold lock_next. erewrite ST_bind_ok by (apply run_leaf; unfold s1; rewrite upd_other by done; exact Hn). fold y. unfold s2, l1. destruct (Z.eqb_spec y 0) as [He|He]; [by rewrite He|]. assert (Z.testbit y 0 = false) as ->.
      { rewrite Z.bit0_odd. replace y with (2 * (32 * (y / 64))) by (pose proof (Z.div_mod y 64 ltac:(lia)); lia). by rewrite Z.odd_mul. }
      unfold put_leaf. by rewrite (ST_bind_ok (run_put _ _ _)). }
  erewrite ST_bind_ok by (by apply run_leaf). rewrite (ST_bind_ok (run_put _ _ _)). set (s3 := upd child _ s2). assert (Hl1 : set_next child l1 = set_next child l) by (unfold l1; by destruct (y =? 0)).
  destruct (Z.eqb_spec y 0) as [He|He]; cbn [negb].
  - rewrite (ST_bind_ok (a := tt) (s' := s3)) by done. erewrite ST_bind_ok by (apply run_leaf; unfold s3; by rewrite upd_other). rewrite run_put, Hl1. eexists. split; [done|]. split; [unfold s3, s2; by destruct (y =? 0)|]. split; [unfold s3, s2; by destruct (y =? 0)|]. split; [unfold s3, s2; by destruct (y =? 0)|].
    split; [apply upd_at|]. split; [rewrite upd_other by done; apply upd_at|]. split; [done|]. intros q H1 H2 _. unfold s3. rewrite !upd_other by done. by apply Hs2o.
  - destruct Hx as [?|[x Hx]]; [done|]. rewrite (ST_bind_ok (a := tt) (s' := upd y (NLeaf (set_prev child x)) s3)).
    2:{ erewrite ST_bind_ok by (apply run_leaf; unfold s3; rewrite upd_other by done; by rewrite Hs2o). by rewrite run_put. }
    erewrite ST_bind_ok by (apply run_leaf; unfold s3; by rewrite !upd_other by done). rewrite run_put, Hl1. eexists. split; [done|]. split; [unfold s3, s2; by destruct (y =? 0)|]. split; [unfold s3, s2; by destruct (y =? 0)|]. split; [unfold s3, s2; by destruct (y =? 0)|].
    split; [apply upd_at|]. split; [rewrite !upd_other by done; apply upd_at|]. split; [intros x' _ Hx'; rewrite Hx in Hx'; injection Hx' as <-; rewrite upd_other by done; apply upd_at|].
    intros q H1 H2 [H3|?]; [|done]. unfold s3. rewrite !upd_other by done. by apply Hs2o.
Qed.

(** ** The tree with an unknown leaf *)
Lemma reup_nil q V : reup [] q V = V.
Proof. apply map_eq. intros c. rewrite reup_lookup. destruct (V !! c); [|done]. cbn [fmap option_fmap option_map]. rewrite decide_False; [done|]. set_solver. Qed.
Section Linked.
Context (N : memory) (G : ghosts) (E : dict) (n child sep : Z) (g : ghost) (l nr : leaf).
Context (Ht : settled N G E {[n]}) (Hg : G !! n = Some g) (Hn : N !! n = Some (NLeaf l)) (Hfree : N !! child = None) (Hc0 : 0 < child /\ child mod 64 = 0) (Hsep : lo g < sep < hi g).
#[local] Abbreviation G1 := (cut_ghosts G n child sep g []).
Lemma leaf_of_split : leaf_frame G g l /\ leaf_content E {[n]} n g l /\ l_parent_ l = up g /\ exists rt, ver (l_version l) true rt true.
Proof. destruct (to_node _ _ _ _ _ _ Ht n g _ Hg Hn) as [(rt & Hv & _) Hup [Hfr Hlc]]. rewrite bool_decide_eq_true_2 in Hv by set_solver. split; [done|]. split; [apply Hlc; set_solver|]. split; [done|]. eauto. Qed.
Lemma child_free : G !! child = None /\ n <> child.
Proof. split; [apply eq_None_not_Some; intros Hs%(to_dom _ _ _ _ _ _ Ht); rewrite Hfree in Hs; by destruct Hs|congruence]. Qed.
Lemma linked_ghosts : ghost_ok G1 G E /\ pending G1 G n child sep g.
Proof.
  destruct leaf_of_split as ([Hlv _ _ _] & _). destruct child_free as [Hf _]. assert (Hid : cut_view G child [] = G) by apply reup_nil. destruct (ghost_cut G E (tree_ghost _ _ _ _ _ _ Ht) n child sep g []) as [H1 H2]; try done; [set_solver| |by rewrite Hid in H1, H2].
  intros c gc Hc Hup _. pose proof (to_up _ _ _ _ _ _ Ht c gc Hc) as Hu. destruct (to_addr _ _ _ _ _ _ Ht n ltac:(eauto)). rewrite decide_False in Hu by lia. destruct Hu as (h & Hh & _ & Hl & _). rewrite Hup, Hg in Hh. injection Hh as <-. lia.
Qed.
Lemma linked_at q : q <> n -> q <> child -> G1 !! q = G !! q.
Proof. intros. rewrite cut_other by done. unfold cut_view. by rewrite reup_nil. Qed.
Lemma next_apart : l_next_ l <> n /\ l_next_ l <> child /\ l_next_ l mod 64 = 0 /\ (l_next_ l = 0 \/ exists x, N !! l_next_ l = Some (NLeaf x)).
Proof.
  destruct leaf_of_split as ([Hlv _ _ Hnx] & _). destruct child_free as [Hf _]. destruct (to_addr _ _ _ _ _ _ Ht n ltac:(eauto)) as [Hn0 _]. destruct Hnx as [[-> _]|(gq & Hq & Hla & Hl0 & Hlo)]; [split_and!; [lia|lia|done|by left]|].
  split; [intros Heq; rewrite Heq, Hg in Hq; injection Hq as <-; pose proof (to_span _ _ _ _ _ _ Ht n g Hg); lia|]. split; [congruence|]. split; [by apply (to_addr _ _ _ _ _ _ Ht); eauto|]. right.
  destruct (tree_node _ _ _ _ _ _ _ _ Ht Hq) as (m & Hm & Hok). destruct (node_leaf _ _ _ _ _ _ _ _ Hok Hl0) as [x ->]. eauto.
Qed.
Context (Hnr : leaf_ok nr) (Hrh : forall k c, holds nr k c <-> holds l k c /\ sep <= k.1) (Hr0 : slot_ikey nr 0 = sep) (Hr1 : 0 ∈ live nr \/ back node_width (permutation_ nr) = 0).
Context (Hrv : l_version nr = l_version l) (Hrm : modstate_ nr = modstate_insert) (Hrp : l_parent_ nr = 0).
Lemma linked_right : node_ok G1 G E {[n]} ({[child]} ∪ {[n]}) child (mkG (layer g) (level g) sep (hi g) 0) (NLeaf (set_next (l_next_ l) (set_prev n nr))).
Proof.
  destruct leaf_of_split as ([Hlv Hmod Hprev Hnx] & [Hok Hh Hf] & Hup & rt & Hv). destruct child_free as [_ Hnc]. pose proof (to_span _ _ _ _ _ _ Ht n g Hg) as Hsp. destruct (to_addr _ _ _ _ _ _ Ht n ltac:(eauto)) as [Hn0 _]. split.
  - exists rt. rewrite bool_decide_eq_true_2 by set_solver. cbn [node_version leaf_node l_version set_next set_prev]. rewrite Hrv. split; [done|]. intros _ Hlo. cbn [lo] in Hlo. lia.
  - done.
  - split.
    + split; [done|done|cbn [l_prev_ set_next set_prev lo]; lia|]. cbn [l_next_ set_next hi layer]. destruct Hnx as [Hnx|(gq & Hq & Hla & Hl0 & Hlo)]; [by left|right]. exists gq. rewrite linked_at; [done|..]; apply next_apart.
    + intros _. apply (leaf_content_reframe (l_version nr) (modstate_ nr) (l_next_ l) n (l_parent_ nr) (node_ts_ nr) E ({[child]} ∪ {[n]}) _ child _ nr); [|done]. split; [done| |].
      * intros k c. rewrite Hrh, Hh. unfold covers. cbn [layer lo hi]. split; [intros [[? ?] ?]|intros [? ?]]; (split; [|lia || done]); [done|split; [done|lia]].
      * intros _. split; [done|]. destruct Hr1; [by left|right]. split; [set_solver|done].
Qed.
Lemma linked_left : node_ok G1 G E {[n]} ({[child]} ∪ {[n]}) n (mkG (layer g) (level g) (lo g) sep (up g)) (NLeaf (set_next child l)).
Proof.
  destruct leaf_of_split as ([Hlv Hmod Hprev Hnx] & _ & Hup & rt & Hv). destruct linked_ghosts as [_ Hpd]. split.
  - exists rt. rewrite bool_decide_eq_true_2 by set_solver. split; [done|]. set_solver.
  - done.
  - split; [|set_solver]. split; [done|done|done|]. right. destruct (pd_right _ _ _ _ _ _ Hpd) as [u Hu]. eexists. split; [exact Hu|done].
Qed.
Lemma linked_tree N' : N' !! n = Some (NLeaf (set_next child l)) -> N' !! child = Some (NLeaf (set_next (l_next_ l) (set_prev n nr))) ->
  (forall x, l_next_ l <> 0 -> N !! l_next_ l = Some (NLeaf x) -> N' !! l_next_ l = Some (NLeaf (set_prev child x))) -> (forall q, q <> n -> q <> child -> (q <> l_next_ l \/ l_next_ l = 0) -> N' !! q = N !! q) ->
  tree_ok N' G1 G E {[n]} ({[child]} ∪ {[n]}).
Proof.
  intros H1 H2 H3 H4. destruct linked_ghosts as [Hgo Hpd]. destruct child_free as [Hf Hnc]. destruct next_apart as (Hx1 & Hx2 & _ & Hx). apply tree_intro; [done| |].
  - intros q. destruct (decide (q = n)) as [->|]; [rewrite H1, (pd_left _ _ _ _ _ _ Hpd); split; eauto|]. destruct (decide (q = child)) as [->|]; [destruct (pd_right _ _ _ _ _ _ Hpd) as [u ->]; rewrite H2; split; eauto|]. rewrite linked_at by done. rewrite <- (to_dom _ _ _ _ _ _ Ht q).
    destruct (decide (q = l_next_ l /\ l_next_ l <> 0)) as [[-> Hx0]|]; [|rewrite H4; [done..|]; destruct (decide (l_next_ l = 0)); [by right|left; naive_solver]]. destruct Hx as [?|[x Hx]]; [done|]. rewrite (H3 x), Hx by done. split; eauto.
  - intros q hq m Hq Hm. destruct (decide (q = n)) as [->|Hqn]; [rewrite (pd_left _ _ _ _ _ _ Hpd) in Hq; injection Hq as <-; rewrite H1 in Hm; injection Hm as <-; apply linked_left|].
    destruct (decide (q = child)) as [->|Hqc]; [rewrite cut_right in Hq; injection Hq as <-; rewrite H2 in Hm; injection Hm as <-; apply linked_right|]. rewrite linked_at in Hq by done.
    assert (Htr : forall m, node_ok G G E ∅ {[n]} q hq m -> node_ok G1 G E {[n]} ({[child]} ∪ {[n]}) q hq m).
    { intros m0 Hok. eapply node_ok_transport; [exact Hok|set_solver|set_solver| |done|done]. intros c gc Hc Hl. destruct (go_view _ _ _ Hgo c gc Hc) as (h & Hh & ? & ? & ? & _). exists h. split_and!; congruence. }
    destruct (decide (q = l_next_ l /\ l_next_ l <> 0)) as [[-> Hx0]|Hqx].
    + destruct Hx as [?|[x Hx]]; [done|]. rewrite (H3 x) in Hm by done. injection Hm as <-. destruct (Htr _ (to_node _ _ _ _ _ _ Ht _ _ _ Hq Hx)) as [Hv Hup [[Hlv Hmod Hprev Hnx] Hlc]]. split; [done|done|]. split.
      * split; [done|done| |done]. cbn [l_prev_ set_prev]. destruct leaf_of_split as ([_ _ _ Hnl] & _). destruct Hnl as [[? _]|(gq & Hgq & _ & _ & Hlo)]; [done|]. rewrite Hq in Hgq. injection Hgq as <-. pose proof (to_span _ _ _ _ _ _ Ht n g Hg). lia.
      * intros HX. exact (leaf_content_reframe (l_version x) (modstate_ x) (l_next_ x) child (l_parent_ x) (node_ts_ x) E _ _ _ _ x (Hlc HX) (fun H => H)).
    + rewrite H4 in Hm; [apply Htr; by apply (to_node _ _ _ _ _ _ Ht)|done|done|]. destruct (decide (l_next_ l = 0)); [by right|left; naive_solver].
Qed.
End Linked.
