(* ===== verification/MassGrow.v ===== *)
(** * [finish_split]

    The whole of it: the leaf is split, the parents learn of the new leaf, and the cursor ends
    at a locked leaf with a slot ready for the key. *)

From S2P Require Import Prelude Permuter KSearch NodeVersion MassKey MassBag MassNode MassTree MassLeaf MassSplit MassInv MassDict MassGet MassWrite MassFinish MassInner MassGhost MassParent MassRound MassClimb MassLink.
#[local] Abbreviation P := nodeversion32_parameters.

Lemma search_split_reframe v m nx pv pa ts l k A B : search_split l k A B -> search_split (reframe v m nx pv pa ts l) k A B.
Proof. by intros []. Qed.

Lemma ready_reframe v m nx pv pa ts l ki kp k suf A B : ready l ki kp k suf A B -> ready (reframe v m nx pv pa ts l) ki kp k suf A B.
Proof. intros []. split; try done; [by apply leaf_ok_reframe|by destruct rd_slot|by apply search_split_reframe]. Qed.
Lemma ready_parent l ki kp k suf A B u : ready l ki kp k suf A B -> ready (set_l_parent u l) ki kp k suf A B.
Proof. apply ready_reframe. Qed.
Lemma carried_weaken s s' G G' ps ps' : carried s s' G G' ps -> ps ⊆ ps' -> carried s s' G G' ps'.
Proof.
  intros [] Hsub. split; try done; [intros q m Hq; apply cd_node; set_solver|]. intros q gq Hq. destruct (cd_ghost q gq Hq) as (g1 & ? & ? & ? & ? & Hh). exists g1. split_and!; try done. intros Hps. apply Hh. set_solver.
Qed.

(** ** The leaf after its round *)
Section LeafRound.
Context (s : mass) (G V : ghosts) (E : dict) (X L : gset Z) (n child sep u st mid : Z) (g gc : ghost) (l r : leaf) (c : tcursor) (str A B : list Z).
Context (Ht : tree_ok (mnodes s) G V E X L) (Hmem : mem_ok s) (HnL : n ∈ L) (HcL : child ∈ L) (HcX : child ∉ X) (Hne : n <> child).
Context (Hg : G !! n = Some g) (Hup : up g <> 0) (Hgh : hi g = sep) (Hgc : G !! child = Some gc) (Hgcl : lo gc = sep /\ sep <> 0).
Context (Hl : mnodes s !! n = Some (NLeaf l)) (Hr : mnodes s !! child = Some (NLeaf r)).
Context (Hlok : leaf_ok l) (Hlh : forall k x, holds l k x /\ k.1 < sep <-> E !! (layer g, k) = Some x /\ covers g k.1) (Hl0 : lo g <> 0 -> slot_ikey l 0 = lo g /\ 0 ∈ live l).
Context (Hk : key_repr 7 (ka_ c) str) (Hss : search_split l (akey_of str) A B) (Habs : forall p, p ∈ live l -> slot_key l p <> akey_of str) (Hfull : leaf_size l = 15) (Hmax : Z.of_nat (length str) <= max_suffix).
#[local] Abbreviation pos := (Z.of_nat (length A)).
Context (Hnc : n_ c = n) (Hki : ki_ c = pos) (Hmid : 1 <= mid <= 15) (Hdiff : eik l str A B (mid - 1) <> eik l str A B mid) (Hsep : eik l str A B mid = sep) (Hst : st = if mid <=? pos then 1 + Z.b2z (mid =? 15) else 0).
Context (Hrs : leaf_size r = 16 - mid - Z.b2z (mid <=? pos)) (Hr0 : mid <> pos -> 0 ∈ live r) (Hrr : mid <= pos -> exists A' B', ready r (pos - mid) (pos - mid) (akey_of str) (drop 8 str) A' B').
(** The cursor afterwards, and what it points to. *)
Definition slot_ready (c' : tcursor) (s' : mass) (q : Z) : Prop := ka_ c' = ka_ c /\ root_ c' = root_ c /\ state_ c' = state_ c /\ n_ c' = q
  /\ exists l' A' B', mnodes s' !! q = Some (NLeaf l') /\ ready l' (ki_ c') (kp_ c') (akey_of str) (drop 8 str) A' B'.
Definition marked_left : leaf := set_l_version (mark_split P (l_version l)) l.
Definition cut_left_leaf : leaf := set_permutation (set_size node_width (mid - Z.b2z (pos <? mid)) (permutation_ l)) marked_left.
Lemma left_leaf : leaf_ok cut_left_leaf /\ (forall k x, holds cut_left_leaf k x <-> holds l k x /\ k.1 < sep) /\ leaf_size cut_left_leaf = mid - Z.b2z (pos <? mid) /\ (forall p, p ∈ live cut_left_leaf <-> p ∈ live l /\ slot_ikey l p < sep)
  /\ (pos < mid -> exists l2 B', assign cut_left_leaf (back node_width (permutation_ cut_left_leaf)) (ka_ c) = Ok l2 /\ same_frame cut_left_leaf l2 /\ (forall p, p ∈ live cut_left_leaf -> slot_key l2 p = slot_key cut_left_leaf p /\ slot_content l2 p = slot_content cut_left_leaf p)
        /\ live l2 = live cut_left_leaf /\ ready l2 pos (back node_width (permutation_ cut_left_leaf)) (akey_of str) (drop 8 str) A B').
Proof.
  rewrite <- Hsep. pose proof (leaf_ok_reframe (mark_split P (l_version l)) (modstate_ l) (l_next_ l) (l_prev_ l) (l_parent_ l) (node_ts_ l) l Hlok) as Hlok'.
  exact (left_split_ok marked_left 7 (ka_ c) str A B ltac:(lia) Hlok' Hk (search_split_reframe _ _ _ _ _ _ _ _ _ _ Hss) Habs Hfull Hmax mid Hmid Hdiff).
Qed.
Lemma left_node l2 : leaf_ok l2 -> same_frame cut_left_leaf l2 -> live l2 = live cut_left_leaf -> (forall p, p ∈ live cut_left_leaf -> slot_key l2 p = slot_key cut_left_leaf p /\ slot_content l2 p = slot_content cut_left_leaf p) ->
  node_ok G V E (X ∖ {[n]}) L n g (NLeaf l2) /\ (lo g <> 0 -> 0 ∈ live l2).
Proof.
  intros Hok2 (Hv & Hm & _ & Hnx & Hpv & Hpa & _) Hlive Hslots. destruct left_leaf as (_ & Hh & _ & Hlv & _). destruct (to_node _ _ _ _ _ _ Ht n g _ Hg Hl) as [(rt & Hver & _) Hpar [[H1 H2 H3 H4] _]]. rewrite bool_decide_eq_true_2 in Hver by done.
  assert (H0 : lo g <> 0 -> 0 ∈ live cut_left_leaf) by (intros Hlo; destruct (Hl0 Hlo) as [Hs0 Hin]; apply Hlv; split; [done|]; pose proof (to_span _ _ _ _ _ _ Ht n g Hg); lia).
  split; [|by rewrite Hlive]. split.
  - exists false. cbn [node_version leaf_node]. rewrite Hv, bool_decide_eq_true_2 by done. split; [by apply (ver_mark_split Hver)|]. intros _ _. symmetry. by apply bool_decide_eq_false_2.
  - cbn [node_parent]. by rewrite Hpa.
  - split; [split; [done|by rewrite Hm|by rewrite Hpv|by rewrite Hnx]|]. intros _. split; [done| |].
    + intros k x. rewrite <- Hlh, <- Hh. unfold holds. rewrite Hlive. split; intros (q & Hq & Hkq & Hcq); exists q; (split; [done|]); destruct (Hslots q Hq) as [H5 H6]; [by rewrite <- H5, <- H6|by rewrite H5, H6].
    + intros Hlo. destruct (Hslots 0 (H0 Hlo)) as [H5 _]. split; [|left; rewrite Hlive; by apply H0]. change (slot_ikey l2 0) with (slot_key l2 0).1. rewrite H5. by apply Hl0.
Qed.
(** [finish_leaf_split], and the other leaf is unlocked. *)
Lemma cut_run : exists s1, mnodes s1 !! n = Some (NLeaf cut_left_leaf) /\ s1 = upd n (NLeaf cut_left_leaf) s
  /\ forall C (k : tcursor -> MM C), (c ← finish_leaf_split n child st c; k c) s = (c ← (if st =? 0 then let kp := back node_width (permutation_ cut_left_leaf) in l ← get_leaf n; l ← lift (assign l kp (ka_ c)); put_leaf n l;; mret (with_position (ki_ c) kp c)
       else mret (with_node child (with_position (ki_ c - leaf_size cut_left_leaf) (ki_ c - leaf_size cut_left_leaf) c))); k c) s1.
Proof.
  exists (upd n (NLeaf cut_left_leaf) s). split; [apply upd_at|]. split; [done|]. intros C k. unfold finish_leaf_split. assert (Hperm : (let perml := permutation_ l in let width := psize perml in let perml := set_size node_width (width - leaf_size r) perml in
    if negb (width =? node_width) then exchange node_width (psize perml) (node_width - 1) perml else perml) = permutation_ cut_left_leaf).
  { cbn zeta. change (psize (permutation_ l)) with (leaf_size l). rewrite Hfull, Hrs. cbn [negb Z.eqb node_width Pos.eqb]. unfold cut_left_leaf. cbn [permutation_ set_permutation]. f_equal. destruct (Z.leb_spec mid pos), (Z.ltb_spec pos mid); simpl; lia. }
  unfold mbind, ST_bind. erewrite run_leaf by exact Hl. erewrite run_leaf by exact Hr. cbn zeta in Hperm |- *. rewrite Hperm. unfold put_leaf at 1. rewrite run_put. reflexivity.
Qed.
Lemma leaf_round_ok : exists c' s' q o, (q = n /\ o = child /\ pos < mid \/ q = child /\ o = n /\ mid <= pos)
  /\ (forall C (k : tcursor -> MM C), (c ← finish_leaf_split n child st c; (if negb (n =? n_ c) then nb_unlock_this n else mret tt);; (if negb (child =? n_ c) then nb_unlock_this child else mret tt);; k c) s = k c' s')
  /\ tree_ok (mnodes s') G V E (X ∖ {[n]}) (L ∖ {[o]}) /\ carried s s' G G ({[n]} ∪ {[child]}) /\ slot_ready c' s' q.
Proof.
  destruct cut_run as (s1 & Hs1 & -> & Hrun). destruct left_leaf as (Hok1 & _ & Hsz & _ & Hassign). set (kp := back node_width (permutation_ cut_left_leaf)) in *.
  assert (Hwrite : forall l2, leaf_ok l2 -> same_frame cut_left_leaf l2 -> live l2 = live cut_left_leaf -> (forall p, p ∈ live cut_left_leaf -> slot_key l2 p = slot_key cut_left_leaf p /\ slot_content l2 p = slot_content cut_left_leaf p) ->
    tree_ok (mnodes (upd n (NLeaf l2) s)) G V E (X ∖ {[n]}) L /\ (lo g <> 0 -> 0 ∈ live l2)).
  { intros l2 H1 H2 H3 H4. destruct (left_node l2 H1 H2 H3 H4) as [Hok H0]. split; [|done]. eapply (tree_write _ _ _ E E X); [done|done|set_solver|by left|done]. }
  assert (Hcw : forall l2, carried s (upd n (NLeaf l2) s) G G {[n]}) by (intros l2; by eapply carried_write).
  destruct (Z.leb_spec mid pos) as [Hge|Hlt].
  - destruct (Hwrite cut_left_leaf Hok1 ltac:(done) eq_refl ltac:(done)) as [Ht1 H0]. destruct (release _ G V E _ L n g _ Ht1 (cd_mem _ _ _ _ _ (Hcw _)) Hg Hs1 HnL) as (s2 & Hrun2 & Ht2 & Hcd2); [by intros l' [= <-] _|].
    assert (Hr2 : exists u, mnodes s2 !! child = Some (set_node_parent u (NLeaf r))) by (apply (cd_node _ _ _ _ _ (carried_trans _ _ _ _ _ _ _ _ (Hcw _) Hcd2)); [set_solver|done]). destruct Hr2 as [u' Hr2]. destruct (Hrr Hge) as (A' & B' & Hready).
    assert (Hst0 : (st =? 0) = false) by (apply Z.eqb_neq; rewrite Hst; destruct (mid =? 15); simpl; lia). eexists _, s2, child, n. split; [by right|]. split.
    + intros C k. rewrite Hrun, Hst0. rewrite (ST_bind_ok (a := with_node child (with_position (ki_ c - leaf_size cut_left_leaf) (ki_ c - leaf_size cut_left_leaf) c)) (s' := upd n (NLeaf cut_left_leaf) s)) by done. cbn [n_ with_node].
      rewrite (proj2 (Z.eqb_neq n child)), Z.eqb_refl by done. cbn [negb]. by rewrite (ST_bind_ok Hrun2).
    + split; [done|]. split; [eapply carried_weaken; [by eapply carried_trans|set_solver]|]. do 4 (split; [done|]). eexists _, A', B'. split; [exact Hr2|]. cbn [ki_ kp_ with_node with_position]. rewrite Hsz, Hki, (proj2 (Z.ltb_ge pos mid)) by done.
      rewrite Z.sub_0_r. by apply ready_parent.
  - destruct (Hassign Hlt) as (l2 & B' & Has & Hfr & Hsl & Hlv & Hready). destruct (Hwrite l2 (rd_leaf _ _ _ _ _ _ _ Hready) Hfr Hlv Hsl) as [Ht1 _]. set (s1 := upd n (NLeaf l2) s) in *.
    assert (Hr1 : mnodes s1 !! child = Some (NLeaf r)) by (unfold s1; rewrite upd_other by done; exact Hr). destruct (release s1 G V E _ L child gc _ Ht1 (cd_mem _ _ _ _ _ (Hcw _)) Hgc Hr1 HcL) as (s2 & Hrun2 & Ht2 & Hcd2).
    { intros l' [= <-] _ _. apply Hr0. lia. }
    eexists _, s2, n, child. split; [by left|]. split.
    + intros C k. rewrite Hrun, Hst. cbn [Z.eqb]. rewrite (ST_bind_ok (a := with_position (ki_ c) kp c) (s' := s1)).
      2:{ erewrite ST_bind_ok by (by apply run_leaf). erewrite ST_bind_ok by (apply lift_ok; exact Has). unfold put_leaf. rewrite (ST_bind_ok (run_put _ _ _)). unfold s1. by rewrite upd_upd. }
      cbn [n_ with_position]. rewrite Hnc, Z.eqb_refl, (proj2 (Z.eqb_neq child n)) by done. cbn [negb]. rewrite (ST_bind_ok (a := tt) (s' := s1)) by done. by rewrite (ST_bind_ok Hrun2).
    + split; [done|]. split; [eapply carried_weaken; [by eapply carried_trans|set_solver]|]. do 3 (split; [done|]). split; [done|].
      destruct (cd_node _ _ _ _ _ Hcd2 n (NLeaf l2)) as [u' Hn2]; [set_solver|apply upd_at|]. eexists _, A, B'. split; [exact Hn2|]. cbn [ki_ kp_ with_position]. rewrite Hki. by apply ready_parent.
Qed.
End LeafRound.

(** ** All of it *)
Lemma drop_other (q o : Z) : q <> o -> ({[q]} ∪ {[o]}) ∖ {[o]} = ({[q]} : gset Z).
Proof. set_solver. Qed.
Lemma drop_two (p q o : Z) : q <> o -> q <> p -> ({[p]} ∪ ({[q]} ∪ {[o]})) ∖ {[o]} ∖ {[p]} = ({[q]} : gset Z).
Proof. set_solver. Qed.
Lemma drop_one (p q o nc : Z) : q <> o -> o <> p -> o <> nc -> ({[nc]} ∪ ({[p]} ∪ ({[q]} ∪ {[o]}))) ∖ {[o]} = ({[nc]} ∪ ({[p]} ∪ {[q]}) : gset Z).
Proof. set_solver. Qed.
Lemma still_in (p o : Z) (Y : gset Z) : p <> o -> p ∈ ({[p]} ∪ Y) ∖ {[o]}.
Proof. set_solver. Qed.
Lemma carried_refl s G : mem_ok s -> carried s s G G ∅.
Proof. intros Hm. split; [done|done|lia|done|intros q m _ Hq; exists (node_parent m); by rewrite <- same_parent|by eauto 7]. Qed.
Lemma heap_carried s s' G G' E ps : heap_ok s G E -> carried s s' G G' ps -> heap_ok s' G' E.
Proof.
  intros [] [Hrows Hroot Hb (H0 & H1 & H2) _ Hg]. split.
  - rewrite Hroot. destruct hp_root as (g & Hgr & Hla & Hlo). destruct (Hg _ _ Hgr) as (g' & Hg' & ? & _ & ? & _). exists g'. split_and!; congruence.
  - done.
  - intros p Hp. split; [by apply H2|]. rewrite Hrows. apply hp_fresh. lia.
  - rewrite Hrows. done.
  - done.
Qed.
Section Grow.
Context (s : mass) (G : ghosts) (E : dict) (c : tcursor) (g : ghost) (l : leaf) (str A B : list Z).
#[local] Abbreviation n := (n_ c).
#[local] Abbreviation pos := (Z.of_nat (length A)).
Context (Hs : mass_ok s G E {[n]}) (Hg : G !! n = Some g) (Hn : mnodes s !! n = Some (NLeaf l)) (H0 : lo g <> 0 -> 0 ∈ live l) (Hcov : covers g (slice_of str)).
Context (Hk : key_repr 7 (ka_ c) str) (Hss : search_split l (akey_of str) A B) (Habs : forall p, p ∈ live l -> slot_key l p <> akey_of str) (Hfull : leaf_size l = 15) (Hmax : Z.of_nat (length str) <= max_suffix) (Hki : ki_ c = pos).
#[local] Abbreviation eik := (eik l str A B).
#[local] Abbreviation Ht := (ms_tree _ _ _ _ Hs).
Lemma grow_leaf : leaf_frame G g l /\ leaf_content E {[n]} n g l /\ l_parent_ l = up g /\ exists rt, ver (l_version l) true rt true.
Proof. destruct (to_node _ _ _ _ _ _ Ht n g _ Hg Hn) as [(rt & Hv & _) Hup [Hfr Hlc]]. rewrite bool_decide_eq_true_2 in Hv by set_solver. split; [done|]. split; [apply Hlc; set_solver|]. split; [done|]. eauto. Qed.
Lemma eik_covers i : 0 <= i <= 15 -> covers g (eik i).
Proof.
  intros Hi. destruct grow_leaf as (_ & [Hok Hh _] & _). destruct (entry_exists l str A B Hok Hss Hfull i Hi) as [e He]. rewrite <- (eik_entry l str A B i e He). destruct e as [q|]; [|exact Hcov]. cbn [ekey].
  pose proof (entry_live l 7 (ka_ c) str A B ltac:(lia) Hok Hk Hss Habs Hfull Hmax (Z.to_nat i) q He) as Hq. destruct (so_content _ _ (lo_slots _ Hok q Hq)) as [x Hx]. apply (Hh (slot_key l q) x). by exists q.
Qed.
(** What the split of the leaf leaves behind. *)
Record started (s2 : mass) (child sep st mid : Z) (nr : leaf) : Prop := {
  sd_climbing : climbing s2 (cut_ghosts G n child sep g []) G E {[n]} ({[child]} ∪ {[n]}) n child sep g;
  sd_carried : carried s s2 G (cut_ghosts G n child sep g []) ({[n]} ∪ {[l_next_ l]});
  sd_left : mnodes s2 !! n = Some (NLeaf (set_next child l));
  sd_right : mnodes s2 !! child = Some (NLeaf (set_next (l_next_ l) (set_prev n nr)));
  sd_mid : 1 <= mid <= 15 /\ eik (mid - 1) <> eik mid /\ eik mid = sep;
  sd_type : st = if mid <=? pos then 1 + Z.b2z (mid =? 15) else 0;
  sd_size : leaf_size nr = 16 - mid - Z.b2z (mid <=? pos);
  sd_zero : mid <> pos -> 0 ∈ live nr;
  sd_ready : mid <= pos -> exists A' B', ready nr (pos - mid) (pos - mid) (akey_of str) (drop 8 str) A' B' }.
Lemma grow_start : exists s2 child sep st mid nr, started s2 child sep st mid nr /\ forall C (k : Z -> Z -> Z -> MM C),
  (child ← leaf_make (ksuf_used_capacity l) (node_ts_ l); write_version child (l_version l);; '(xikey, split_type) ← split_leaf n child (ki_ c) (ka_ c); k child xikey split_type) s = k child sep st s2.
Proof.
  destruct grow_leaf as (Hfr & Hlc & Hup & rt & Hv). pose proof (lc_ok _ _ _ _ _ Hlc) as Hok. set (x := new_leaf (leaf_alloc_size (ksuf_used_capacity l)) (node_ts_ l)). set (nr0 := set_l_version (l_version l) x).
  assert (Hx : shape_ok nr0) by (destruct (new_leaf_shape (ksuf_used_capacity l) (node_ts_ l) (used_nonneg l (lo_shape _ Hok))); by split).
  destruct (leaf_split_into_ok l 7 (ka_ c) str A B ltac:(lia) Hok Hk Hss Habs Hfull Hmax nr0 Hx) as (mid & nr & Hmid & Hdiff & Hsplit & (Hrv & Hrm & Hrn & Hrpv & Hrp & Hrt) & Hr0 & Hnr & Hsz & Hrh & Hz & Hready).
  set (child := mbrk s). set (sep := eik mid) in *. set (st := if mid <=? pos then _ else _) in *. destruct (ms_brk _ _ _ _ Hs) as [Hb0 Hb1]. destruct (ms_fresh _ _ _ _ Hs child ltac:(unfold child; lia)) as [Hfree _].
  assert (Hnc : n <> child) by congruence. assert (Hsep : lo g < sep < hi g).
  { pose proof (eik_covers (mid - 1) ltac:(lia)) as [? _]. pose proof (eik_covers mid ltac:(lia)) as [_ ?]. pose proof (eik_mono l 7 (ka_ c) str A B ltac:(lia) Hok Hk Hss Habs Hfull Hmax (mid - 1) mid ltac:(lia) ltac:(lia)). unfold sep in *. lia. }
  destruct (next_apart (mnodes s) G E n child sep g l Ht Hg Hn Hfree (conj Hb0 Hb1) Hsep) as (Hx1 & Hx2 & Hx3 & Hx4). set (s1 := alloc (NLeaf nr) s).
  destruct (link_run s1 n child l nr) as (s2 & Hlink & Hbrk & Hrows & Hroot & Hl2 & Hc2 & Hnx2 & Ho2); try done; [unfold s1; by rewrite alloc_other|apply alloc_at| |].
  { destruct Hx4 as [?|[y Hy]]; [by left|right]. exists y. unfold s1. by rewrite alloc_other. }
  exists s2, child, sep, st, mid, nr. split.
  - destruct (linked_ghosts (mnodes s) G E n child sep g l Ht Hg Hn Hfree (conj Hb0 Hb1) Hsep) as [_ Hpd]. assert (Hmem : mem_ok s2).
    { apply (mem_alloc s); [by split_and!; [..|intros q Hq; apply (ms_fresh _ _ _ _ Hs q Hq)]|done|]. intros q Hq Hnone. unfold child in *. rewrite Ho2; [unfold s1; by rewrite alloc_other by lia|congruence|lia|]. destruct Hx4 as [?|[y Hy]]; [by right|left; congruence]. }
    split; try done.
    + split; try done; [|set_solver..|].
      * apply (linked_tree (mnodes s) G E n child sep g l nr Ht Hg Hn Hfree (conj Hb0 Hb1) Hsep Hnr Hrh Hr0); try done.
        -- destruct (decide (mid = pos)) as [He|]; [right|left; by apply Hz]. destruct (Hready ltac:(lia)) as (A' & B' & Hrd). rewrite <- (rd_back _ _ _ _ _ _ _ Hrd). lia.
        -- intros y Hy0 Hy. apply Hnx2; [done|]. unfold s1. by rewrite alloc_other.
        -- intros q Hq1 Hq2 Hq3. rewrite Ho2 by done. unfold s1. by rewrite alloc_other.
      * intros q [->%elem_of_singleton| ->%elem_of_singleton]%elem_of_union; [destruct (pd_right _ _ _ _ _ _ Hpd) as [u Hu]; eexists; split; [exact Hu|done]|eexists; split; [exact (pd_left _ _ _ _ _ _ Hpd)|done]].
    + split; try done; [rewrite Hbrk; simpl; lia|..].
      * intros q m Hq Hm. assert (q <> child) by congruence. exists (node_parent m). rewrite Ho2; [unfold s1; rewrite alloc_other by done; by rewrite <- same_parent|set_solver|done|left; set_solver].
      * intros q gq Hq. destruct (decide (q = n)) as [->|Hqn]; [rewrite Hg in Hq; injection Hq as <-; eexists; split; [exact (pd_left _ _ _ _ _ _ Hpd)|split_and!; [done..|set_solver]]|]. exists gq. rewrite linked_at; [done|done|]. intros ->. assert (is_Some (mnodes s !! child)) as [? ?]; [|congruence]. apply (to_dom _ _ _ _ _ _ Ht). eauto.
  - intros C k. unfold leaf_make. rewrite (ST_bind_ok (run_alloc _ _)). rewrite (ST_bind_ok (run_write_version _ _ _ _ (alloc_at _ _))). rewrite upd_alloc. change (set_version _ _) with (NLeaf nr0). fold child.
    rewrite (ST_bind_ok (a := (sep, st)) (s' := s2)); [done|]. unfold split_leaf, put_leaf. erewrite ST_bind_ok by (apply run_leaf; rewrite alloc_other by done; exact Hn). erewrite ST_bind_ok by (apply run_leaf, alloc_at). rewrite Hki. erewrite ST_bind_ok by (apply lift_ok; exact Hsplit). cbn iota beta.
    rewrite (ST_bind_ok (run_put _ _ _)). unfold child. rewrite upd_alloc. fold s1. fold child. by rewrite (ST_bind_ok Hlink).
Qed.
(** The round of the leaf, whatever became of its parent. *)
Section FirstRound.
Context (s2 : mass) (child sep st mid : Z) (nr : leaf) (Hsd : started s2 child sep st mid nr) (s3 : mass) (G3 : ghosts) (p : Z) (Hcd : carried s2 s3 (cut_ghosts G n child sep g []) G3 {[p]}) (HpL : p ∉ ({[child]} ∪ {[n]} : gset Z)).
Context (u : Z) (Hu : u <> 0) (Hgn : G3 !! n = Some (mkG (layer g) (level g) (lo g) sep u)).
Lemma first_nodes : exists u' u'' uc, mnodes s3 !! n = Some (NLeaf (set_l_parent u' (set_next child l))) /\ mnodes s3 !! child = Some (NLeaf (set_l_parent u'' (set_next (l_next_ l) (set_prev n nr)))) /\ G3 !! child = Some (mkG (layer g) (level g) sep (hi g) uc).
Proof.
  destruct (cd_node _ _ _ _ _ Hcd n _ ltac:(set_solver) (sd_left _ _ _ _ _ _ Hsd)) as [u' H1]. destruct (cd_node _ _ _ _ _ Hcd child _ ltac:(set_solver) (sd_right _ _ _ _ _ _ Hsd)) as [u'' H2].
  destruct (pd_right _ _ _ _ _ _ (cl_pending _ _ _ _ _ _ _ _ _ _ (sd_climbing _ _ _ _ _ _ Hsd))) as [u0 Hc]. destruct (cd_ghost _ _ _ _ _ Hcd child _ Hc) as ([la lv lo' hi' uc] & Hgc & H3 & H4 & H5 & H6). cbn [layer level lo hi] in *. rewrite H3, H4, H5, H6 in Hgc by set_solver. by exists u', u'', uc.
Qed.
Lemma first_round V X L : tree_ok (mnodes s3) G3 V E X L -> n ∈ L -> child ∈ L -> child ∉ X -> exists c' s4 q o gq, ({[q]} ∪ {[o]} = ({[child]} ∪ {[n]} : gset Z) /\ q <> o)
  /\ (forall C (k : tcursor -> MM C), (c ← finish_leaf_split n child st c; (if negb (n =? n_ c) then nb_unlock_this n else mret tt);; (if negb (child =? n_ c) then nb_unlock_this child else mret tt);; k c) s3 = k c' s4)
  /\ tree_ok (mnodes s4) G3 V E (X ∖ {[n]}) (L ∖ {[o]}) /\ carried s3 s4 G3 G3 ({[n]} ∪ {[child]}) /\ slot_ready c str c' s4 q /\ G3 !! q = Some gq /\ layer gq = layer g /\ covers gq (slice_of str).
Proof.
  intros Ht3 HnL HcL HcX. destruct first_nodes as (u' & u'' & uc & Hl3 & Hr3 & Hgc). destruct grow_leaf as (Hfr & [Hok Hh Hf] & _). destruct (sd_mid _ _ _ _ _ _ Hsd) as (Hmid & Hdiff & Hsep). pose proof (pending_ne _ _ _ _ _ _ (cl_pending _ _ _ _ _ _ _ _ _ _ (sd_climbing _ _ _ _ _ _ Hsd))) as Hne.
  pose proof (pd_cut _ _ _ _ _ _ (cl_pending _ _ _ _ _ _ _ _ _ _ (sd_climbing _ _ _ _ _ _ Hsd))) as Hcut. pose proof (to_span _ _ _ _ _ _ Ht n g Hg) as Hspan. pose proof (leaf_ok_reframe (l_version l) (modstate_ l) child (l_prev_ l) u' (node_ts_ l) l Hok) as Hok3.
  pose proof (search_split_reframe (l_version l) (modstate_ l) child (l_prev_ l) u' (node_ts_ l) l (akey_of str) A B Hss) as Hss3.
  assert (Hlh : forall k x, holds (set_l_parent u' (set_next child l)) k x /\ k.1 < sep <-> E !! (layer g, k) = Some x /\ covers (mkG (layer g) (level g) (lo g) sep u) k.1).
  { intros k x. rewrite (Hh k x : holds (set_l_parent u' (set_next child l)) k x <-> _). unfold covers. cbn [lo hi]. split; [intros [[? ?] ?]; split; [done|lia]|intros [? ?]; split; [split; [done|lia]|lia]]. }
  assert (Hs0 : sep <> 0) by lia. destruct (leaf_round_ok s3 G3 V E X L n child sep st mid _ _ _ _ c str A B Ht3 (cd_mem _ _ _ _ _ Hcd) HnL HcL HcX Hne Hgn Hu eq_refl Hgc (conj eq_refl Hs0) Hl3 Hr3 Hok3 Hlh (fun Hlo => conj (proj1 (Hf Hlo)) (H0 Hlo)) Hk Hss3 Habs Hfull Hmax eq_refl Hki Hmid Hdiff Hsep
    (sd_type _ _ _ _ _ _ Hsd) (sd_size _ _ _ _ _ _ Hsd) (sd_zero _ _ _ _ _ _ Hsd)) as (c' & s4 & q & o & Hqo & Hrun & Ht4 & Hcd4 & Hrd).
  { intros Hge. destruct (sd_ready _ _ _ _ _ _ Hsd Hge) as (A' & B' & Hrd). exists A', B'. exact (ready_reframe (l_version nr) (modstate_ nr) (l_next_ l) n u'' (node_ts_ nr) nr _ _ _ _ _ _ Hrd). }
  pose proof (eik_pos l str A B) as Hep. pose proof (entries_length l str A B Hok Hss Hfull) as [_ Hpos]. destruct Hcov as [Hcov1 Hcov2]. destruct Hqo as [(-> & -> & Hlt)|(-> & -> & Hge)].
  - eexists c', s4, n, child, _. split; [split; [set_solver|done]|]. split; [done|]. split; [done|]. split; [done|]. split; [done|]. split; [exact Hgn|]. split; [done|]. unfold covers. cbn [lo hi]. split; [done|].
    rewrite <- Hsep, <- Hep. by apply (below_mid l 7 (ka_ c) str A B ltac:(lia) Hok Hk Hss Habs Hfull Hmax mid pos Hmid Hdiff).
  - eexists c', s4, child, n, _. split; [split; [set_solver|done]|]. split; [done|]. split; [done|]. split; [done|]. split; [done|]. split; [exact Hgc|]. split; [done|]. unfold covers. cbn [lo hi]. split; [|done].
    rewrite <- Hsep, <- Hep. apply (eik_mono l 7 (ka_ c) str A B ltac:(lia) Hok Hk Hss Habs Hfull Hmax); lia.
Qed.
End FirstRound.
(** What [finish_split] promises. *)
Record grown (s' : mass) (G' : ghosts) (c' : tcursor) : Prop := {
  gw_mass : mass_ok s' G' E {[n_ c']};
  gw_rows : mrows s' = mrows s;
  gw_cursor : ka_ c' = ka_ c /\ root_ c' = root_ c /\ state_ c' = state_ c;
  gw_ready : exists g' l' A' B', G' !! n_ c' = Some g' /\ layer g' = layer g /\ covers g' (slice_of str) /\ mnodes s' !! n_ c' = Some (NLeaf l') /\ ready l' (ki_ c') (kp_ c') (akey_of str) (drop 8 str) A' B' }.
Lemma grown_intro s1 s' G1 G' ps0 ps c' q gq : carried s s1 G G1 ps0 -> settled (mnodes s') G' E {[q]} -> slot_ready c str c' s1 q -> carried s1 s' G1 G' ps -> q ∉ ps -> G1 !! q = Some gq -> layer gq = layer g -> covers gq (slice_of str) -> grown s' G' c'.
Proof.
  intros Hcd0 Ht' (Hka & Hrt & Hst & <- & l1 & A' & B' & Hl1 & Hrd) Hcd Hps Hgq Hla [Hc1 Hc2]. pose proof (carried_trans _ _ _ _ _ _ _ _ Hcd0 Hcd) as Hall. split; [|apply Hall|done|].
  - apply mass_heap. split; [done|]. apply mass_heap in Hs as [_ Hh]. by eapply heap_carried.
  - destruct (cd_ghost _ _ _ _ _ Hcd _ _ Hgq) as (g' & Hg' & Hla' & _ & Hlo & Hhi). destruct (cd_node _ _ _ _ _ Hcd _ _ Hps Hl1) as [u' Hl']. eexists g', _, A', B'. split; [done|]. split; [congruence|]. split; [unfold covers; rewrite Hlo, Hhi by done; done|]. split; [exact Hl'|]. by apply ready_parent.
Qed.
Lemma finish_split_ok levels : (base.size (mnodes s) <= levels)%nat -> exists s' G' c', finish_split levels c s = Ok ((InsertMarker, c'), s') /\ grown s' G' c'.
Proof.
  intros Hlev. destruct grow_start as (s2 & child & sep & st & mid & nr & Hsd & Hstart). pose proof (sd_climbing _ _ _ _ _ _ Hsd) as Hcl. pose proof (sd_carried _ _ _ _ _ _ Hsd) as Hcd2. pose proof (cl_pending _ _ _ _ _ _ _ _ _ _ Hcl) as Hpd. pose proof (pending_ne _ _ _ _ _ _ Hpd) as Hne.
  destruct (round_ok s2 _ G E _ _ n child sep st g Hcl) as (p & s2' & nc & sep' & s3 & G3 & Hlp & Hip & Hcd & HpL & (u & Hu & Hgn) & Hout). destruct (first_nodes s2 child sep st mid nr Hsd s3 G3 p Hcd HpL u Hu Hgn) as (u' & u'' & uc & Hl3 & _ & _).
  destruct grow_leaf as ([Hlv _ _ _] & _ & _ & rt & Hv). destruct levels as [|fuel]; [pose proof (level_bound _ _ _ _ _ _ Ht Hg); lia|]. unfold finish_split. erewrite ST_bind_ok by (by apply run_leaf). rewrite Hfull. cbn [Z.ltb Z.compare Pos.compare Pos.compare_cont andb node_width]. rewrite Hstart. cbn [split_loop].
  assert (Hpre : forall C (k : Z -> Z -> Z -> tcursor -> MM C), (p ← locked_parent n; '(a, b) ← insert_into_parent p n child sep st; v ← version_of n; c ← (if nv_isleaf P v then finish_leaf_split n child st c else mret c); k p a b c) s2 = (c ← finish_leaf_split n child st c; k p nc sep' c) s3).
  { intros C k. rewrite (ST_bind_ok Hlp), (ST_bind_ok Hip). cbn iota beta. erewrite ST_bind_ok by (by apply run_version). cbn [node_version]. change (l_version _) with (l_version l). by rewrite (ver_isleaf Hv). }
  set (rest := fun p0 a b c0 => (if negb (n =? n_ c0) then nb_unlock_this n else mret tt);; (if negb (child =? n_ c0) then nb_unlock_this child else mret tt);; if negb (a =? 0) then split_loop fuel p0 a b st c0 else if negb (p0 =? 0) then nb_unlock_this p0;; mret c0 else mret c0).
  assert (Hloop : exists s' G' c', (c ← finish_leaf_split n child st c; rest p nc sep' c) s3 = Ok (c', s') /\ grown s' G' c'); [|destruct Hloop as (s' & G' & c' & Hloop & Hgw); exists s', G', c'; split; [|done]; rewrite (ST_bind_ok (a := c') (s' := s')); [done|]; rewrite <- Hloop; exact (Hpre _ rest)].
  pose proof (carried_trans _ _ _ _ _ _ _ _ Hcd2 Hcd) as Hcd3. unfold rest. clear Hpre rest. destruct Hout as [[-> [Ht3 Hp3]]|(Hnc & Hp0 & V3 & h & Hcl3 & Hlvh & HncL & (ip & Hip3 & Hvp) & Hlvs)].
  - destruct (first_round s2 child sep st mid nr Hsd s3 G3 p Hcd HpL u Hu Hgn _ _ _ Ht3) as (c' & s4 & q & o & gq & (Hqo & Hqne) & Hrun & Ht4 & Hcd4 & Hrd & Hgq & Hla & Hcv); [destruct (decide (p = 0)); set_solver..|set_solver|].
    rewrite (Hrun _ (fun c0 => if negb (0 =? 0) then split_loop fuel p 0 sep' st c0 else if negb (p =? 0) then nb_unlock_this p;; mret c0 else mret c0)). cbn [Z.eqb negb]. rewrite difference_diag_L in Ht4. pose proof (carried_trans _ _ _ _ _ _ _ _ Hcd3 Hcd4) as Hcd5. destruct (decide (p = 0)) as [->|Hp0].
    + exists s4, G3, c'. split; [done|]. apply (grown_intro s4 s4 G3 G3 _ ∅ c' q gq Hcd5); try done; [|apply carried_refl, Hcd5]. by rewrite <- Hqo, drop_other in Ht4.
    + rewrite (proj2 (Z.eqb_neq p 0)) by done. cbn [negb]. assert (Hqp : q <> p /\ p <> o) by (split; intros ->; apply HpL; rewrite <- Hqo; set_solver). destruct Hqp as [Hqp Hpo]. destruct (Hp3 Hp0) as [ip Hip3]. destruct (carried_inner _ _ _ _ _ p ip Hcd4) as (ip4 & Hip4 & _); [set_solver|done|]. destruct (proj1 (to_dom _ _ _ _ _ _ Ht4 p) ltac:(eauto)) as [gp Hgp].
      destruct (release s4 G3 G3 E _ _ p gp _ Ht4 (cd_mem _ _ _ _ _ Hcd4) Hgp Hip4 (still_in _ _ _ Hpo)) as (s5 & Hrun5 & Ht5 & Hcd6); [done|]. exists s5, G3, c'. split; [by rewrite (ST_bind_ok Hrun5)|]. apply (grown_intro s4 s5 G3 G3 _ {[p]} c' q gq Hcd5); try done; [|by apply not_elem_of_singleton].
      by rewrite <- Hqo, drop_two in Ht5 by done.
  - assert (Hpn : p <> n /\ p <> child /\ nc <> n /\ nc <> child) by set_solver. destruct Hpn as (Hpn & Hpc & Hncn & Hncc). pose proof (cl_tree _ _ _ _ _ _ _ _ _ _ Hcl3) as Ht3.
    destruct (first_round s2 child sep st mid nr Hsd s3 G3 p Hcd HpL u Hu Hgn _ _ _ Ht3) as (c' & s4 & q & o & gq & (Hqo & Hqne) & Hrun & Ht4 & Hcd4 & Hrd & Hgq & Hla & Hcv); [set_solver..|].
    rewrite (Hrun _ (fun c0 => if negb (nc =? 0) then split_loop fuel p nc sep' st c0 else if negb (p =? 0) then nb_unlock_this p;; mret c0 else mret c0)). rewrite (proj2 (Z.eqb_neq nc 0)) by done. cbn [negb]. pose proof (carried_trans _ _ _ _ _ _ _ _ Hcd3 Hcd4) as Hcd5.
    assert (Hq : (q = n \/ q = child) /\ (o = n \/ o = child)) by (split; [assert (q ∈ ({[child]} ∪ {[n]} : gset Z)) by (rewrite <- Hqo; set_solver)|assert (o ∈ ({[child]} ∪ {[n]} : gset Z)) by (rewrite <- Hqo; set_solver)]; set_solver). destruct Hq as [Hq Ho].
    assert (Hq' : q <> p /\ q <> nc /\ o <> p /\ o <> nc) by (destruct Hq as [-> | ->], Ho as [-> | ->]; done). destruct Hq' as (Hqp & Hqnc & Hop & Honc).
    rewrite <- Hqo, (drop_one p q o nc Hqne Hop Honc), (drop_other p n Hpn) in Ht4. destruct (carried_inner _ _ _ _ _ p ip Hcd4) as (ip4 & Hip4 & Hvp4); [set_solver|done|]. rewrite <- Hvp4 in Hvp. pose proof Hrd as (_ & _ & _ & Hnq & _).
    destruct (climb_ok (base.size (mnodes s)) st c' fuel s4 G3 V3 E p nc sep' h ip4) as (s5 & G5 & ps & Hrun5 & Ht5 & Hcd6 & Hps); [|rewrite Hnq; exact Hqp|rewrite Hnq; exact Hqnc|exact Hip4|exact Hvp| |rewrite Hlvh, Hlv; clear - Hlev; lia|].
    + rewrite Hnq. split; [done|apply Hcl3|apply Hcd4|apply elem_of_singleton_2; done|apply elem_of_union_r, elem_of_union_l, elem_of_singleton_2; done|apply elem_of_union_l, elem_of_singleton_2; done|].
      intros x Hx. apply (cl_locked _ _ _ _ _ _ _ _ _ _ Hcl3). rewrite <- Hqo. apply elem_of_union in Hx as [Hx|[Hx|Hx]%elem_of_union]; [by apply elem_of_union_l|by apply elem_of_union_r, elem_of_union_l|by apply elem_of_union_r, elem_of_union_r, elem_of_union_l].
    + intros x gx (x0 & g0 & Hg0 & ->)%Hlvs. apply cut_at in Hg0 as [[-> ->]|[[-> ->]|(_ & _ & Hx0)]]; [exact (level_bound _ _ _ _ _ _ Ht Hg)..|]. apply cut_place in Hx0 as (h0 & Hh0 & _ & -> & _). exact (level_bound _ _ _ _ _ _ Ht Hh0).
    + exists s5, G5, c'. split; [exact Hrun5|]. rewrite Hnq in Ht5, Hps. by apply (grown_intro s4 s5 G3 G5 _ ps c' q gq Hcd5).
Qed.
End Grow.
