(* ===== verification/MassLayer.v ===== *)
(** * A new layer

    [check_leaf_new_layer]: two keys share a slice that was a value with a suffix; it becomes
    a link to a new layer, through a twig of further layers while they share more slices. *)

From S2P Require Import Prelude Permuter KSearch NodeVersion MassKey MassBag MassNode MassTree MassLeaf MassSplit MassInv MassDict MassGet MassWrite MassFinish MassInner MassGhost MassParent MassRound MassClimb MassLink.
#[local] Abbreviation P := nodeversion32_parameters.

(** ** One more layer in the tree *)
Section OneLayer.
Context (G : ghosts) (E : dict) (p : Z) (g : ghost) (x : Z) (suf : list Z) (r a : Z).
Context (Hgo : ghost_ok G G E) (Hg : G !! p = Some g) (Hval : E !! (layer g, (x, 9)) = Some (CVal suf r)) (Hnew : forall pi k, (layer g ++ [x]) `prefix_of` pi -> E !! (pi, k) = None) (Hsuf : Forall byte_ok suf).
Context (Ha : G !! a = None) (Ha0 : 0 < a /\ a mod 64 = 0).
Definition layer_root : ghost := mkG (layer g ++ [x]) 0 0 (2 ^ 64) 0.
Definition more_ghosts : ghosts := <[a := layer_root]> G.
#[local] Abbreviation E1 := (deepen E (layer g) x suf r a).
Lemma no_ghost_below q gq : G !! q = Some gq -> ~ (layer g ++ [x]) `prefix_of` layer gq.
Proof.
  intros Hq [z Hz]. destruct z as [|y z _] using rev_ind.
  - rewrite app_nil_r in Hz. destruct (go_layer _ _ _ Hgo q gq (layer g) x Hq Hz) as [link Hl]. congruence.
  - rewrite app_assoc in Hz. destruct (go_layer _ _ _ Hgo q gq _ y Hq Hz) as [link Hl]. rewrite Hnew in Hl; [done|]. by apply prefix_app_r.
Qed.
Lemma deepen_old pi k : ~ (layer g ++ [x]) `prefix_of` pi -> (pi, k) <> (layer g, (x, 9)) -> E1 !! (pi, k) = E !! (pi, k).
Proof. intros Hn Hne. apply deepen_other; [done|]. intros ->. by apply Hn. Qed.
Lemma layer_shape : layer g ++ [x] <> layer g.
Proof. apply snoc_ne. Qed.
Lemma ghost_deepen : ghost_ok more_ghosts more_ghosts E1.
Proof.
  assert (Hold : forall q h, G !! q = Some h -> more_ghosts !! q = Some h) by (intros q h Hq; unfold more_ghosts; rewrite lookup_insert_ne; [done|congruence]).
  assert (Hcase : forall q h, more_ghosts !! q = Some h -> (q = a /\ h = layer_root) \/ (q <> a /\ G !! q = Some h)) by (intros q h; unfold more_ghosts; intros [[<- <-]|[? ?]]%lookup_insert_Some; auto).
  assert (Hentry : forall pi k c, E1 !! (pi, k) = Some c -> (pi = layer g /\ k = (x, 9) /\ c = CLayer a) \/ (pi = layer g ++ [x] /\ k = akey_of suf /\ c = CVal (drop 8 suf) r) \/ (E !! (pi, k) = Some c)).
  { intros pi k c Hk. destruct (decide ((pi, k) = (layer g, (x, 9)))) as [Heq|Hne]; [rewrite Heq, deepen_link in Hk; injection Hk as <-; simplify_eq; by left|]. destruct (decide (pi = layer g ++ [x])) as [->|Hpi]; [right; left; apply (deepen_new E _ _ _ _ _ Hnew) in Hk as [-> ->]; done|]. rewrite deepen_other in Hk by done. by right; right. }
  split.
  - intros q [h [[-> _]|[_ Hq]]%Hcase]; [done|by apply (go_addr _ _ _ Hgo); eauto].
  - intros q h [[_ ->]|[_ Hq]]%Hcase; [simpl; lia|by apply (go_span _ _ _ Hgo q)].
  - intros q1 q2 h1 h2 y [[-> ->]|[H1 Hq1]]%Hcase [[-> ->]|[H2 Hq2]]%Hcase Hla Hlv C1 C2; [done| | |by eapply (go_disj _ _ _ Hgo)].
    + exfalso. apply (no_ghost_below q2 h2 Hq2). by rewrite <- Hla.
    + exfalso. apply (no_ghost_below q1 h1 Hq1). by rewrite Hla.
  - intros q h Hq. by exists h.
  - intros q h [[_ ->]|[_ Hq]]%Hcase; [done|]. pose proof (go_up _ _ _ Hgo q h Hq) as Hu. case_decide; [done|]. destruct Hu as (h' & Hh' & ?). exists h'. split; [by apply Hold|done].
  - intros q h pi y [[_ ->]|[_ Hq]]%Hcase Hla.
    + cbn [layer layer_root] in Hla. apply app_inj_tail in Hla as [<- <-]. exists a. apply deepen_link.
    + destruct (go_layer _ _ _ Hgo q h pi y Hq Hla) as [link Hl]. exists link. rewrite deepen_old; [done| |congruence]. intros Hp. apply (no_ghost_below q h Hq). rewrite Hla. by apply prefix_app_r.
  - intros pi k link [(-> & -> & [= ->])|[(_ & _ & [=])|Hk]]%Hentry; [split; [done|]; exists layer_root; split; [apply lookup_insert_eq|done]|]. destruct (go_link _ _ _ Hgo pi k link Hk) as [H9 (h & Hh & ?)]. split; [done|]. exists h. split; [by apply Hold|done].
  - intros pi k c [(-> & -> & ->)|[(-> & -> & ->)|Hk]]%Hentry.
    + destruct (go_entry _ _ _ Hgo _ _ _ Hval) as (q & h & Hq & ?). exists q, h. split; [by apply Hold|done].
    + exists a, layer_root. split; [apply lookup_insert_eq|]. split; [done|]. split; [done|]. unfold covers. cbn [lo hi layer_root akey_of fst]. by apply slice_range.
    + destruct (go_entry _ _ _ Hgo _ _ _ Hk) as (q & h & Hq & ?). exists q, h. split; [by apply Hold|done].
Qed.
End OneLayer.
(** A leaf [p] whose entry has already become a link to [a], and the root of the new layer. *)
Lemma tree_layer N G E L L' p g x suf r a mp m : tree_ok N G G E {[p]} L -> G !! p = Some g -> level g = 0%nat -> covers g x -> E !! (layer g, (x, 9)) = Some (CVal suf r) ->
  (forall pi k, (layer g ++ [x]) `prefix_of` pi -> E !! (pi, k) = None) -> Forall byte_ok suf -> N !! a = None -> 0 < a /\ a mod 64 = 0 -> (forall q, q <> a -> (q ∈ L <-> q ∈ L')) -> N !! p = Some mp ->
  (forall G1, (forall q gq, G !! q = Some gq -> G1 !! q = Some gq) -> node_ok G1 G1 (deepen E (layer g) x suf r a) ∅ L p g mp) ->
  node_ok (more_ghosts G g x a) (more_ghosts G g x a) (deepen E (layer g) x suf r a) {[a]} L' a (layer_root g x) m ->
  tree_ok (<[a := m]> N) (more_ghosts G g x a) (more_ghosts G g x a) (deepen E (layer g) x suf r a) {[a]} L'.
Proof.
  intros Ht Hg Hlv Hx Hval Hnew Hsuf Ha Ha0 HL Hp Hmp Hm. assert (Hga : G !! a = None) by (apply eq_None_not_Some; intros Hs%(to_dom _ _ _ _ _ _ Ht); rewrite Ha in Hs; by destruct Hs).
  pose proof (tree_ghost _ _ _ _ _ _ Ht) as Hgo. assert (Hpa : p <> a) by congruence. assert (Hold : forall q h, G !! q = Some h -> more_ghosts G g x a !! q = Some h) by (intros q h Hq; unfold more_ghosts; rewrite lookup_insert_ne; [done|congruence]). apply tree_intro.
  - by eapply ghost_deepen.
  - intros q. destruct (decide (q = a)) as [->|Hq]; [unfold more_ghosts; rewrite !lookup_insert_eq; split; eauto|]. unfold more_ghosts. rewrite !lookup_insert_ne by done. apply Ht.
  - intros q h n Hq Hn. destruct (decide (q = a)) as [->|Hqa]; [unfold more_ghosts in Hq; rewrite lookup_insert_eq in Hq; rewrite lookup_insert_eq in Hn; injection Hq as <-; by injection Hn as <-|].
    unfold more_ghosts in Hq. rewrite lookup_insert_ne in Hq by done. rewrite lookup_insert_ne in Hn by done. destruct (decide (q = p)) as [->|Hqp].
    + rewrite Hg in Hq. injection Hq as <-. rewrite Hp in Hn. injection Hn as <-. eapply node_ok_transport; [exact (Hmp _ Hold)|by apply HL|set_solver| |done|done]. intros c gc Hc Hl. by exists gc.
    + eapply node_ok_transport; [by apply (to_node _ _ _ _ _ _ Ht)|by apply HL|set_solver|intros c gc Hc Hl; exists gc; split; [by apply Hold|done]|intros c gc Hc _; by apply Hold|]. intros Hl0 k Hk. apply deepen_old.
      * by eapply no_ghost_below.
      * intros [Hla ->]%pair_equal_spec. apply Hqp. by apply (to_disj _ _ _ _ _ _ Ht q p h g x); try done; congruence.
Qed.

(** ** What a new layer does to the entries *)
Record deeper (E E' : dict) : Prop := {
  dp_found t r : Forall byte_ok t -> found E' [] t r <-> found E [] t r;
  dp_link a link : E !! a = Some (CLayer link) -> exists link', E' !! a = Some (CLayer link');
  dp_value a suf r : E' !! a = Some (CVal suf r) -> exists b suf', E !! b = Some (CVal suf' r);
  dp_inj : (forall a b suf suf' r, E !! a = Some (CVal suf r) -> E !! b = Some (CVal suf' r) -> a = b) -> forall a b suf suf' r, E' !! a = Some (CVal suf r) -> E' !! b = Some (CVal suf' r) -> a = b }.
Lemma deeper_refl E : deeper E E.
Proof. split; [done|by eauto..|done]. Qed.
Lemma deeper_trans E E1 E2 : deeper E E1 -> deeper E1 E2 -> deeper E E2.
Proof.
  intros [] []. split.
  - intros t r Ht. rewrite dp_found1 by done. by apply dp_found0.
  - intros a link [link1 H1]%dp_link0. by apply dp_link1 in H1.
  - intros a suf r (b & suf' & Hb)%dp_value1. by apply dp_value0 in Hb.
  - intros Hinj. apply dp_inj1. by apply dp_inj0.
Qed.
Lemma deeper_reach E E' pi s pi' s' : deeper E E' -> reach E pi s pi' s' -> reach E' pi s pi' s'.
Proof. intros Hd. induction 1 as [|pi s link pi' s' He Hr IH]; [apply reach_refl|]. destruct (dp_link _ _ Hd _ _ He) as [link' Hl]. by eapply reach_step. Qed.
Lemma deepen_deeper E pi x suf r link : links_long E -> E !! (pi, (x, 9)) = Some (CVal suf r) -> (forall pi' k, (pi ++ [x]) `prefix_of` pi' -> E !! (pi', k) = None) -> Forall byte_ok suf -> deeper E (deepen E pi x suf r link).
Proof.
  intros HE Hval Hnew Hsuf. assert (Hcase : forall a s r', deepen E pi x suf r link !! a = Some (CVal s r') -> (a = (pi ++ [x], akey_of suf) /\ r' = r) \/ (a <> (pi, (x, 9)) /\ E !! a = Some (CVal s r'))).
  { intros [pi' k] s r' Ha. destruct (decide ((pi', k) = (pi, (x, 9)))) as [Heq|Hne]; [by rewrite Heq, deepen_link in Ha|]. destruct (decide (pi' = pi ++ [x])) as [->|Hpi]; [left; apply (deepen_new E _ _ _ _ _ Hnew) in Ha as [-> [= _ ->]]; done|]. right. by rewrite deepen_other in Ha. }
  split.
  - intros t r' Ht. apply found_deepen; try done. intros [z Hz]. destruct pi; discriminate Hz.
  - intros [pi' k] link' Ha. destruct (decide ((pi', k) = (pi, (x, 9)))) as [Heq|Hne]; [rewrite Heq; eexists; apply deepen_link|]. exists link'. rewrite deepen_other; [done|done|]. intros ->. by rewrite Hnew in Ha.
  - intros a s r' [[-> ->]|[_ Ha]]%Hcase; eauto.
  - intros Hinj a b s s' r' [[-> ->]|[Hna Ha]]%Hcase [[-> Hr]|[Hnb Hb]]%Hcase; [done|..].
    + exfalso. apply Hnb. by eapply Hinj.
    + exfalso. subst r'. apply Hna. by eapply Hinj.
    + by eapply Hinj.
Qed.
Lemma heap_deeper s G E E' : heap_ok s G E -> deeper E E' -> heap_ok s G E'.
Proof.
  intros [] Hd. split; try done; [|by apply (dp_inj _ _ Hd)]. intros pi k suf r Hr. apply (dp_value _ _ Hd) in Hr as ([pi' k'] & suf' & Hr). by eapply hp_rows.
Qed.

(** ** Comparing two keys *)
Lemma key_compare_strings sl sl' ka kb a b : key_repr sl ka a -> key_repr sl' kb b ->
  (key_compare ka (ikey0 kb) (klen kb) < 0 <-> akey_lt (akey_of a) (akey_of b)) /\ (key_compare ka (ikey0 kb) (klen kb) = 0 <-> akey_of a = akey_of b).
Proof.
  intros Ha Hb. unfold key_compare, akey_of, akey_lt. rewrite (kr_ikey _ _ _ Ha), (kr_len _ _ _ Ha), (kr_ikey _ _ _ Hb), (kr_len _ _ _ Hb). cbn [fst snd]. unfold ikey_size.
  rewrite compare_sgn. destruct (Z.lt_trichotomy (slice_of a) (slice_of b)) as [Hlt|[->|Hgt]].
  - rewrite Z.sgn_neg by lia. simpl. split; split; intros; try lia; simplify_eq; lia.
  - rewrite Z.sub_diag. cbn [Z.sgn Z.eqb]. rewrite akey_eq. destruct (Z.ltb_spec 8 (Z.of_nat (length a))), (Z.leb_spec (Z.of_nat (length b)) 8); simpl; lia.
  - rewrite Z.sgn_pos by lia. simpl. split; split; intros; try lia; simplify_eq; lia.
Qed.

(** ** Roots of layers *)
Definition root_leaf (k ts : Z) : leaf := set_l_version (mark_root P (new_nodeversion P true)) (set_l_parent 0 (set_prev 0 (set_next 0 (new_leaf (leaf_alloc_size k) ts)))).
Lemma make_root_run k s parent l : mnodes s !! parent = Some (NLeaf l) -> parent <> 0 -> leaf_make_root k parent s = Ok (mbrk s, alloc (NLeaf (root_leaf k (node_ts_ l))) s).
Proof.
  intros Hp H0. unfold leaf_make_root, leaf_make, put_leaf. rewrite (proj2 (Z.eqb_neq parent 0)) by done. cbn [negb]. rewrite (ST_bind_ok (a := node_ts_ l) (s' := s)) by (by erewrite ST_bind_ok by (by apply run_leaf)).
  rewrite (ST_bind_ok (run_alloc _ _)). erewrite ST_bind_ok by (apply run_leaf, alloc_at). rewrite (ST_bind_ok (run_put _ _ _)). by rewrite upd_alloc.
Qed.
Lemma root_shape k ts : 0 <= k -> shape_ok (root_leaf k ts).
Proof. intros Hk. destruct (new_leaf_shape k ts Hk). by split. Qed.
(** The only leaf of a layer. *)
Lemma root_frame G pi l : modstate_ l = modstate_insert -> l_prev_ l = 0 -> l_next_ l = 0 -> leaf_frame G (mkG pi 0 0 (2 ^ 64) 0) l.
Proof. intros. split; [done|done|done|by left]. Qed.
Lemma root_node G V E X L a pi l lk : modstate_ l = modstate_insert -> l_prev_ l = 0 -> l_next_ l = 0 -> l_parent_ l = 0 -> ver (l_version l) true true lk -> lk = bool_decide (a ∈ L) ->
  (a ∉ X -> leaf_ok l /\ forall k c, holds l k c <-> E !! (pi, k) = Some c) -> (forall k c, E !! (pi, k) = Some c -> 0 <= k.1 < 2 ^ 64) -> node_ok G V E X L a (mkG pi 0 0 (2 ^ 64) 0) (NLeaf l).
Proof.
  intros Hm Hpv Hnx Hpa Hv -> Hc Hr. split; [|done|].
  - exists true. done.
  - split; [by apply root_frame|]. intros Ha. destruct (Hc Ha) as [Hok Hh]. split; [done| |done]. intros k c. rewrite Hh. split; [intros He; split; [done|by eapply Hr]|by intros [? _]].
Qed.
(** A leaf of the twig: one slot, for a layer. *)
Definition twig_leaf (y ts : Z) (v : leafvalue) : leaf :=
  set_permutation (make_sorted node_width 1) (set_slots (layer_keylenx :: replicate 14 0) (y :: replicate 14 0) (v :: replicate 14 lv_make_empty) (root_leaf 0 ts)).
Lemma twig_slot y ts link : slot_key (twig_leaf y ts (LvLayer link)) 0 = (y, 9) /\ slot_content (twig_leaf y ts (LvLayer link)) 0 = Some (CLayer link) /\ live (twig_leaf y ts (LvLayer link)) = [0].
Proof. split; [done|]. split; [done|]. vm_compute. done. Qed.
Lemma twig_ok y ts link : 0 <= y < 2 ^ 64 -> leaf_ok (twig_leaf y ts (LvLayer link)) /\ forall k c, holds (twig_leaf y ts (LvLayer link)) k c <-> k = (y, 9) /\ c = CLayer link.
Proof.
  intros Hy. destruct (twig_slot y ts link) as (Hk & Hc & Hl). split.
  - split.
    + by split.
    + apply make_sorted_ok; unfold node_width; lia.
    + rewrite Hl. intros p ->%list_elem_of_singleton. split; [lia|done|by right|done|by rewrite Hc].
    + rewrite Hl. intros i j p q Hi Hj Hij. destruct i, j; simpl in *; try lia; done.
  - intros k c. split.
    + intros (p & Hp & Hk' & Hc'). rewrite Hl in Hp. apply list_elem_of_singleton in Hp as ->. rewrite Hk in Hk'. rewrite Hc in Hc'. by injection Hc' as <-.
    + intros [-> ->]. exists 0. rewrite Hl. split; [set_solver|done].
Qed.
