(* ===== verification/MassTwig.v ===== *)
(** * The twig of a new layer

    The loop of [check_leaf_new_layer].  The new leaves are not reachable before its end; the
    proof follows the memory that there will be: the last leaf of the twig already links to
    the next address, and its layer is the one under construction. *)

From S2P Require Import Prelude Permuter KSearch NodeVersion MassKey MassBag MassNode MassTree MassLeaf MassSplit MassInv MassDict MassGet MassWrite MassFinish MassInner MassGhost MassParent MassRound MassClimb MassLink MassLayer.
#[local] Abbreviation P := nodeversion32_parameters.

(** The tree that the memory [Np] with the finished leaf [tail] will be; [lf a] is that leaf
    with a link to [a].  The string [o] is what is left of the old key, at the slice [x]. *)
Record twigging (s : mass) (Np : memory) (G : ghosts) (E : dict) (tail : Z) (g : ghost) (x : Z) (o : list Z) (r : Z) (lf : Z -> leaf) : Prop := {
  tw_tree : tree_ok (<[tail := NLeaf (lf (mbrk s))]> Np) G G E {[tail]} ∅;
  tw_ghost : G !! tail = Some g;
  tw_level : level g = 0%nat;
  tw_covers : covers g x;
  tw_value : E !! (layer g, (x, 9)) = Some (CVal o r);
  tw_new pi k : (layer g ++ [x]) `prefix_of` pi -> E !! (pi, k) = None;
  tw_done a G1 : (forall q gq, G !! q = Some gq -> G1 !! q = Some gq) -> node_ok G1 G1 (deepen E (layer g) x o r a) ∅ ∅ tail g (NLeaf (lf a));
  tw_mem : 0 < mbrk s /\ mbrk s mod 64 = 0 /\ tail < mbrk s;
  tw_fresh q : mbrk s <= q -> Np !! q = None }.
(** The memory as it is: the leaf [n] where it started and the last leaf have no links yet. *)
Record actual (s : mass) (Np : memory) (n tail head : Z) (l : leaf) (lfn lf : Z -> leaf) : Prop := {
  ac_other q : q <> n -> q <> tail -> mnodes s !! q = Np !! q;
  ac_start : mnodes s !! n = Some (NLeaf l);
  ac_tail : (tail = n /\ head = n /\ forall a, lf a = lfn a)
            \/ (tail <> n /\ head <> n /\ Np !! n = Some (NLeaf (lfn head)) /\ exists lt, mnodes s !! tail = Some (NLeaf lt) /\ length (lv_ lt) = 15%nat /\ forall a, lf a = with_value lt 0 (LvLayer a)) }.
Lemma tail_leaf s Np n tail head l lfn lf : actual s Np n tail head l lfn lf -> exists lt, mnodes s !! tail = Some (NLeaf lt).
Proof. intros [_ Hs [(-> & _)|(_ & _ & _ & lt & Hlt & _)]]; eauto. Qed.
(** One round: the memory afterwards. *)
Definition tail_linked (head n tail a : Z) (lt : leaf) (s : mass) : mass := if head =? n then s else upd tail (NLeaf (with_value lt 0 (LvLayer a))) s.
Lemma twig_step n tail head oka ka oka' ka' fuel s lt : mnodes s !! tail = Some (NLeaf lt) -> tail <> 0 -> tail <> mbrk s -> length (lv_ lt) = 15%nat -> key_compare oka (ikey0 ka) (klen ka) = 0 -> key_shift oka = Ok oka' -> key_shift ka = Ok ka' ->
  twig_loop (S fuel) n head tail oka ka s
  = twig_loop fuel n (if head =? n then mbrk s else head) (mbrk s) oka' ka' (alloc (NLeaf (twig_leaf (ikey0 oka) (node_ts_ lt) lv_make_empty)) (tail_linked head n tail (mbrk s) lt s)).
Proof.
  intros Hlt H0 Hne Hlen Hc Hs1 Hs2. cbn [twig_loop]. rewrite Hc, Z.eqb_refl. rewrite (ST_bind_ok (make_root_run 0 s tail lt Hlt H0)). erewrite ST_bind_ok by (apply run_leaf, alloc_at).
  set (x1 := set_slots (layer_keylenx :: replicate 14 0) (ikey0 oka :: replicate 14 0) (replicate 15 lv_make_empty) (root_leaf 0 (node_ts_ lt))).
  rewrite (ST_bind_ok (a := x1) (s' := alloc (NLeaf (root_leaf 0 (node_ts_ lt))) s)) by (by apply lift_ok). unfold put_leaf. rewrite (ST_bind_ok (run_put _ _ _)). rewrite upd_alloc.
  set (s1 := tail_linked head n tail (mbrk s) lt s). assert (Hb : mbrk s1 = mbrk s) by (unfold s1, tail_linked; by destruct (head =? n)).
  rewrite (ST_bind_ok (a := if head =? n then mbrk s else head) (s' := alloc (NLeaf x1) s1)).
  2:{ unfold s1, tail_linked. destruct (head =? n); cbn [negb]; [done|]. erewrite ST_bind_ok by (apply run_leaf; rewrite alloc_other by done; exact Hlt).
      rewrite (ST_bind_ok (a := <[0%nat := LvLayer (mbrk s)]> (lv_ lt)) (s' := alloc (NLeaf x1) s)) by (apply lift_ok; unfold array_set; by rewrite decide_True by lia). rewrite (ST_bind_ok (run_put _ _ _)).
      unfold mret, ST_ret. do 2 f_equal. unfold upd, alloc, on_nodes. cbn [mnodes mrows mbrk mroot ti_ts]. f_equal. by rewrite insert_insert_ne. }
  rewrite <- Hb. erewrite ST_bind_ok by (apply run_leaf, alloc_at). rewrite (ST_bind_ok (run_put _ _ _)). rewrite upd_alloc. erewrite ST_bind_ok by (apply lift_ok; exact Hs1). erewrite ST_bind_ok by (apply lift_ok; exact Hs2). done.
Qed.
Section Step.
Context (s : mass) (Np : memory) (G : ghosts) (E : dict) (n tail head : Z) (g : ghost) (x : Z) (o t : list Z) (r : Z) (l : leaf) (lfn lf : Z -> leaf) (lt : leaf).
Context (Htw : twigging s Np G E tail g x o r lf) (Hac : actual s Np n tail head l lfn lf) (Ho : Forall byte_ok o) (Ht : Forall byte_ok t) (Hk : akey_of o = akey_of t) (Hot : o <> t) (Hlt : mnodes s !! tail = Some (NLeaf lt)).
#[local] Abbreviation a := (mbrk s).
#[local] Abbreviation G2 := (more_ghosts G g x a).
#[local] Abbreviation E2 := (deepen E (layer g) x o r a).
#[local] Abbreviation Np2 := (<[tail := NLeaf (lf a)]> Np).
#[local] Abbreviation s2 := (alloc (NLeaf (twig_leaf (slice_of o) (node_ts_ lt) lv_make_empty)) (tail_linked head n tail a lt s)).
Lemma both_long : (8 < length o)%nat /\ (8 < length t)%nat /\ akey_of o = (slice_of o, 9).
Proof.
  destruct (decide (length o <= 8)%nat) as [Hs|Hl]; [exfalso; apply Hot; by apply akey_short|]. destruct (akey_long o t Ho Ht ltac:(lia) Hk). split; [lia|]. split; [done|]. unfold akey_of. f_equal. lia.
Qed.
Lemma linked_brk : mbrk (tail_linked head n tail a lt s) = a.
Proof. unfold tail_linked. by destruct (head =? n). Qed.
Lemma step_tree : tree_ok (<[a := NLeaf (twig_leaf (slice_of o) (node_ts_ lt) (LvLayer (mbrk s2)))]> Np2) G2 G2 E2 {[a]} ∅.
Proof.
  destruct Htw as [Htree Hg Hl Hx Hv Hn Hd (Hb0 & Hb1 & Htb) Hf]. eapply (tree_layer _ G E ∅ ∅ tail g x o r a (NLeaf (lf a))); try done.
  - rewrite lookup_insert_ne by lia. apply Hf. lia.
  - apply lookup_insert_eq.
  - intros G1 HG1. by apply Hd.
  - apply (root_node _ _ _ _ _ _ _ _ false); try exact (ver_new_root true); try done; [set_solver|]. intros k c [-> _]%(deepen_new E _ _ _ _ _ Hn). by apply slice_range.
Qed.
Lemma step_twigging : twigging s2 Np2 G2 E2 a (layer_root g x) (slice_of o) (drop 8 o) r (fun b => twig_leaf (slice_of o) (node_ts_ lt) (LvLayer b)).
Proof.
  pose proof step_tree as Htree2. destruct Htw as [Htree Hg Hl Hx Hv Hn Hd (Hb0 & Hb1 & Htb) Hf]. destruct both_long as (Hlo & Hlt' & Hko). pose proof (slice_range o Ho) as Hso. split; try done.
  - apply lookup_insert_eq.
  - rewrite <- Hko. by apply deepen_value.
  - intros pi k Hp. cbn [layer layer_root] in Hp. apply (deepen_below E _ _ _ _ _ Hn); [etrans; [|exact Hp]; by apply prefix_app_r|]. intros ->. by apply prefix_snoc_not in Hp.
  - intros b G1 HG1. cbn [layer layer_root]. destruct (twig_ok (slice_of o) (node_ts_ lt) b Hso) as [Hok Hh].
    assert (Hent : forall k c, deepen E2 (layer g ++ [x]) (slice_of o) (drop 8 o) r b !! (layer g ++ [x], k) = Some c <-> k = (slice_of o, 9) /\ c = CLayer b).
    { intros k c. split.
      - intros He. destruct (decide (k = (slice_of o, 9))) as [->|Hne]; [rewrite deepen_link in He; by injection He as <-|]. rewrite deepen_other in He; [|congruence|intros Heq; by apply eq_sym, snoc_ne in Heq]. apply (deepen_new E _ _ _ _ _ Hn) in He as [-> _]. by rewrite Hko in Hne.
      - intros [-> ->]. apply deepen_link. }
    apply (root_node _ _ _ _ _ _ _ _ false); try exact (ver_new_root true); try done.
    + intros _. split; [done|]. intros k c. by rewrite Hh, Hent.
    + intros k c [-> _]%Hent. done.
  - cbn [mbrk alloc]. rewrite linked_brk. split; [lia|]. split; [by rewrite Z.add_mod, Hb1|lia].
  - cbn [mbrk alloc]. rewrite linked_brk. intros q Hq. rewrite lookup_insert_ne by lia. apply Hf. lia.
Qed.
Lemma step_actual : n < a -> actual s2 Np2 n a (if head =? n then a else head) l lfn (fun b => twig_leaf (slice_of o) (node_ts_ lt) (LvLayer b)).
Proof.
  intros Hna. destruct Hac as [Hot' Hst Htl]. destruct (tw_mem _ _ _ _ _ _ _ _ _ _ Htw) as (_ & _ & Hta). pose proof linked_brk as Hlb. assert (Hs2 : forall q, q <> a -> mnodes s2 !! q = mnodes (tail_linked head n tail a lt s) !! q) by (intros q Hq; rewrite alloc_other; [done|by rewrite Hlb]).
  pose proof (alloc_at (tail_linked head n tail a lt s) (NLeaf (twig_leaf (slice_of o) (node_ts_ lt) lv_make_empty))) as Hat. rewrite Hlb in Hat. split.
  - intros q Hqn Hqa. rewrite Hs2 by done. destruct Htl as [(-> & -> & Hlf)|(Htn & Hhn & _ & lt' & Hlt' & _ & Hlf)].
    + unfold tail_linked. rewrite Z.eqb_refl. rewrite lookup_insert_ne by done. by apply Hot'.
    + unfold tail_linked. rewrite (proj2 (Z.eqb_neq head n)) by done. rewrite Hlt in Hlt'. injection Hlt' as <-. destruct (decide (q = tail)) as [->|]; [rewrite upd_at, lookup_insert_eq; by rewrite Hlf|]. rewrite upd_other, lookup_insert_ne by done. by apply Hot'.
  - rewrite Hs2 by lia. unfold tail_linked. destruct (Z.eqb_spec head n); [done|]. destruct Htl as [(_ & ? & _)|(Htn & _)]; [done|]. by rewrite upd_other.
  - right. split; [lia|]. destruct Htl as [(-> & -> & Hlf)|(Htn & Hhn & Hnn & lt' & Hlt' & _ & Hlf)].
    + rewrite Z.eqb_refl. split; [lia|]. split; [rewrite lookup_insert_eq; by rewrite Hlf|]. eexists. split; [exact Hat|]. done.
    + rewrite (proj2 (Z.eqb_neq head n)) by done. split; [done|]. split; [by rewrite lookup_insert_ne|]. eexists. split; [exact Hat|]. done.
Qed.
End Step.

(** ** The loop *)
Record branch (s : mass) (Np : memory) (G : ghosts) (E : dict) (n tail head : Z) (g : ghost) (x : Z) (o t : list Z) (r : Z) (l : leaf) (lfn lf : Z -> leaf) (oka ka : key) (str : list Z) : Prop := {
  br_twig : twigging s Np G E tail g x o r lf;
  br_actual : actual s Np n tail head l lfn lf;
  br_start : n < mbrk s;
  br_old : key_repr 0 oka o;
  br_key : key_repr 7 ka t;
  br_reach : exists rest, reach E [] str (layer g) rest /\ akey_of rest = (x, 9) /\ drop 8 rest = t }.
Record branched (s s' : mass) (G G' : ghosts) (E E' : dict) : Prop := {
  bd_rows : mrows s' = mrows s;
  bd_root : mroot s' = mroot s;
  bd_brk : mbrk s <= mbrk s';
  bd_ghost q gq : G !! q = Some gq -> G' !! q = Some gq;
  bd_deeper : deeper E E' }.
Lemma twig_loop_ok n l lfn r str : length (lv_ l) = 15%nat -> forall fuel s Np G E tail head g x o t oka ka lf, branch s Np G E n tail head g x o t r l lfn lf oka ka str -> o <> t -> (length t < fuel)%nat ->
  exists s' Np' G' E' tail' head' g' x' o' t' oka' ka' lf', twig_loop fuel n head tail oka ka s = Ok ((head', tail', oka', ka'), s')
    /\ branch s' Np' G' E' n tail' head' g' x' o' t' r l lfn lf' oka' ka' str /\ akey_of o' <> akey_of t' /\ (length o' <= length o)%nat /\ (length t' <= length t)%nat /\ branched s s' G G' E E'.
Proof.
  intros Hl15. induction fuel as [|fuel IH]; intros s Np G E tail head g x o t oka ka lf Hbr Hot Hfu; [lia|]. destruct Hbr as [Htw Hac Hn Ho Ht (rest & Hre & Hka & Hdr)]. destruct (key_compare_strings _ _ _ _ _ _ Ho Ht) as [_ Heq]. pose proof (kr_ok _ _ _ Ho) as Hbo. pose proof (kr_ok _ _ _ Ht) as Hbt.
  destruct (decide (akey_of o = akey_of t)) as [Hk|Hk].
  - destruct (tail_leaf _ _ _ _ _ _ _ _ Hac) as [lt Hlt]. destruct (both_long o t Hbo Hbt Hk Hot) as (Hlo & Hlt8 & Hko). destruct (key_repr_shift 0 oka o ltac:(lia) Ho Hlo) as (oka' & Hso & Ho'). destruct (key_repr_shift 7 ka t ltac:(lia) Ht Hlt8) as (ka' & Hst & Ht').
    pose proof (tw_mem _ _ _ _ _ _ _ _ _ _ Htw) as (Hb0 & Hb1 & Htb). destruct (to_addr _ _ _ _ _ _ (tw_tree _ _ _ _ _ _ _ _ _ _ Htw) tail ltac:(eexists; apply Htw)) as [Ht0 _].
    assert (Hlen : length (lv_ lt) = 15%nat) by (destruct (ac_tail _ _ _ _ _ _ _ _ Hac) as [(-> & _)|(_ & _ & _ & lt' & Hlt' & Hl & _)]; [rewrite (ac_start _ _ _ _ _ _ _ _ Hac) in Hlt; by injection Hlt as <-|rewrite Hlt' in Hlt; by injection Hlt as <-]).
    rewrite (twig_step n tail head oka ka oka' ka' fuel s lt Hlt ltac:(lia) ltac:(lia) Hlen (proj2 Heq Hk) Hso Hst). rewrite (kr_ikey _ _ _ Ho).
    pose proof (step_twigging s Np G E n tail head g x o t r l lfn lf lt Htw Hac Hbo Hbt Hk Hot Hlt) as Htw2. pose proof (step_actual s Np G E n tail head g x o r l lfn lf lt Htw Hac Hlt Hn) as Hac2.
    set (s2 := alloc _ _) in *. set (E2 := deepen _ _ _ _ _ _) in *. assert (Hd2 : deeper E E2) by (apply deepen_deeper; [by eapply settled_links, (tw_tree _ _ _ _ _ _ _ _ _ _ Htw)|apply Htw|apply Htw|done]).
    assert (Hlb : mbrk s2 = mbrk s + 64) by (unfold s2, tail_linked; by destruct (head =? n)).
    assert (Hre2 : reach E2 [] str (layer g ++ [x]) t).
    { assert (Hsl : slice_of rest = x) by (unfold akey_of in Hka; by injection Hka). rewrite <- Hsl, <- Hdr. apply (reach_snoc _ _ _ _ _ (mbrk s)); [by eapply deeper_reach|]. rewrite Hka. apply deepen_link. }
    assert (Hbr2 : branch s2 (<[tail := NLeaf (lf (mbrk s))]> Np) (more_ghosts G g x (mbrk s)) E2 n (mbrk s) (if head =? n then mbrk s else head) (layer_root g x) (slice_of o) (drop 8 o) (drop 8 t) r l lfn (fun b => twig_leaf (slice_of o) (node_ts_ lt) (LvLayer b)) oka' ka' str).
    { split; try done; [lia|]. exists t. split; [done|]. split; [by rewrite <- Hk|done]. }
    destruct (IH _ _ _ _ _ _ _ _ _ _ _ _ _ Hbr2) as (s' & Np' & G' & E' & tail' & head' & g' & x' & o' & t' & oka2 & ka2 & lf' & Hrun & Hbr' & Hne & Hl1 & Hl2 & [B1 B2 B3 B4 B5]).
    { intros Hd. apply Hot. by apply same_string. } { rewrite length_drop. lia. }
    rewrite length_drop in Hl1, Hl2. exists s', Np', G', E', tail', head', g', x', o', t', oka2, ka2, lf'. split; [exact Hrun|]. split; [done|]. split; [done|]. split; [lia|]. split; [lia|]. split.
    + rewrite B1. unfold s2, tail_linked. by destruct (head =? n).
    + rewrite B2. unfold s2, tail_linked. by destruct (head =? n).
    + lia.
    + intros q gq Hq. apply B4. unfold more_ghosts. rewrite lookup_insert_ne; [done|]. intros <-. assert (is_Some ((<[tail := NLeaf (lf (mbrk s))]> Np) !! mbrk s)) as [y Hy]; [apply (to_dom _ _ _ _ _ _ (tw_tree _ _ _ _ _ _ _ _ _ _ Htw)); eauto|].
      rewrite lookup_insert_ne in Hy by lia. by rewrite (tw_fresh _ _ _ _ _ _ _ _ _ _ Htw) in Hy by lia.
    + by eapply deeper_trans.
  - assert (Hne : key_compare oka (ikey0 ka) (klen ka) <> 0) by (by rewrite Heq). cbn [twig_loop]. rewrite (proj2 (Z.eqb_neq _ 0)) by done. exists s, Np, G, E, tail, head, g, x, o, t, oka, ka, lf. split; [done|]. split; [split; try done; by exists rest|]. split; [done|]. split; [done|]. split; [done|]. split; try done. apply deeper_refl.
Qed.
