(* ===== verification/MassPair.v ===== *)
(** * The first leaf of a new layer

    The leaf in which the old and the new key part, the end of [check_leaf_new_layer]. *)

From S2P Require Import Prelude Permuter KSearch NodeVersion MassKey MassBag MassNode MassTree MassLeaf MassSplit MassInv MassDict MassGet MassWrite MassFinish MassInner MassGhost MassParent MassRound MassClimb MassLink MassLayer MassTwig.
#[local] Abbreviation P := nodeversion32_parameters.

(** ** Two keys *)
Lemma two_slots sa sb l ka kb a b : shape_ok l -> 0 <= sa -> 0 <= sb -> key_repr sa ka a -> key_repr sb kb b -> Z.of_nat (length a) <= max_suffix -> Z.of_nat (length b) <= max_suffix ->
  exists l1 l2, assign_initialize l 0 ka = Ok l1 /\ assign_initialize l1 1 kb = Ok l2 /\ same_frame l l2 /\ shape_ok l2
    /\ slot_ok l2 0 /\ slot_ok l2 1 /\ slot_key l2 0 = akey_of a /\ slot_key l2 1 = akey_of b /\ slot_content l2 0 = Some (CVal (drop 8 a) 0) /\ slot_content l2 1 = Some (CVal (drop 8 b) 0).
Proof.
  intros Hl Hsa Hsb Ha Hb Hla Hlb. destruct (leaf_assign_key_ok sa l 0 ka a true Hsa Hl Ha ltac:(lia) Hla) as (l1 & Hr1 & [F1 S1 O1 K1 C1 _ _]).
  { intros q Hq. change (live_slots l 0 true) with (seqZ 0 0) in Hq. apply elem_of_seqZ in Hq. lia. } { apply NoDup_seqZ. } { simpl. lia. }
  destruct (leaf_assign_key_ok sb l1 1 kb b true Hsb S1 Hb ltac:(lia) Hlb) as (l2 & Hr2 & [F2 S2 O2 K2 C2 Ks Ss]).
  { intros q Hq. change (live_slots l1 1 true) with [0] in Hq. apply list_elem_of_singleton in Hq as ->. split; [lia|done]. } { apply NoDup_singleton. } { simpl. lia. }
  exists l1, l2. split; [done|]. split; [done|]. split; [by eapply same_frame_trans|]. split; [done|]. destruct (Ss 0) as [O0 C0]; [change (live_slots l1 1 true) with [0]; set_solver|lia|done|].
  split; [done|]. split; [done|]. split; [by rewrite Ks by lia|]. split; [done|]. split; [by rewrite C0|done].
Qed.
(** The old key is in its slot, the new one in the other, which is not yet in use. *)
Definition pair_perm (low : bool) : Z := if low then make_sorted node_width 1 else remove_to_back node_width 0 (make_sorted node_width 2).
Definition pair_leaf (low : bool) (r w : Z) (l : leaf) : leaf := set_permutation (pair_perm low) (set_l_version w (with_value l (Z.b2z (negb low)) (LvValue r))).
Lemma pair_perm_ok low : permuter_ok node_width (pair_perm low) /\ psize (pair_perm low) = 1 /\ take 1 (elements node_width (pair_perm low)) = [Z.b2z (negb low)] /\ back node_width (pair_perm low) = Z.b2z low.
Proof.
  destruct low; cbn [pair_perm negb Z.b2z].
  - split; [apply make_sorted_ok; unfold node_width; lia|]. vm_compute. done.
  - destruct (right_perm_less 2 0 ltac:(lia) ltac:(lia)) as (H1 & H2 & H3 & H4). split; [done|]. split; [done|]. split; [exact H3|done].
Qed.
Section Pair.
Context (l : leaf) (low : bool) (r w : Z) (o t : list Z) (Hl : shape_ok l).
#[local] Abbreviation j := (Z.b2z (negb low)).
#[local] Abbreviation i := (Z.b2z low).
Context (Hj : slot_ok l j) (Hi : slot_ok l i) (Hkj : slot_key l j = akey_of o) (Hki : slot_key l i = akey_of t) (Hcj : slot_content l j = Some (CVal (drop 8 o) 0)) (Hci : slot_content l i = Some (CVal (drop 8 t) 0)).
Context (Hlt : if low then akey_lt (akey_of o) (akey_of t) else akey_lt (akey_of t) (akey_of o)).
#[local] Abbreviation z := (pair_leaf low r w l).
Lemma pair_live : live z = [j].
Proof. destruct (pair_perm_ok low) as (_ & Hs & Ht & _). unfold live, leaf_size. cbn [permutation_ pair_leaf set_permutation]. rewrite Hs. exact Ht. Qed.
Lemma pair_apart : i <> j.
Proof. by destruct low. Qed.
Lemma pair_content : slot_content z j = Some (CVal (drop 8 o) r) /\ slot_content z i = Some (CVal (drop 8 t) 0).
Proof.
  split; [exact (with_value_content_eq l j _ 0 r Hl (so_range _ _ Hj) Hcj)|]. rewrite <- Hci. apply (with_value_content l j (LvValue r) i); [destruct low; simpl; lia|destruct low; simpl; lia|exact pair_apart].
Qed.
Lemma pair_slots : slot_ok z j /\ slot_ok z i.
Proof. destruct pair_content as [C1 C2]. split; [destruct (with_value_slot l j (LvValue r) j Hj (mk_is_Some _ _ C1))|destruct (with_value_slot l j (LvValue r) i Hi (mk_is_Some _ _ C2))]; by split. Qed.
Lemma pair_ok : leaf_ok z /\ (forall k c, holds z k c <-> k = akey_of o /\ c = CVal (drop 8 o) r) /\ exists A B, ready z i i (akey_of t) (drop 8 t) A B.
Proof.
  pose proof pair_live as Hlive. destruct pair_content as [C1 C2], pair_slots as [O1 O2], (pair_perm_ok low) as (Hp & Hs & _ & Hb). pose proof pair_apart as Hne.
  assert (Hok : leaf_ok z).
  { split; [by destruct (with_value_ok l j (LvValue r) Hl)|done| |].
    - rewrite Hlive. by intros p ->%list_elem_of_singleton.
    - rewrite Hlive. intros a b p q Ha Hb' Hab. destruct a, b; simpl in *; try lia; done. }
  assert (Hdiff : akey_of o <> akey_of t) by (intros He; rewrite He in Hlt; by destruct low; apply akey_lt_irrefl in Hlt). split; [done|]. split.
  - intros k c. split.
    + intros (q & Hq & Hkq & Hcq). rewrite Hlive in Hq. apply list_elem_of_singleton in Hq as ->. change (slot_key z j) with (slot_key l j) in Hkq. rewrite C1 in Hcq. injection Hcq as <-. by rewrite <- Hkq.
    + intros [-> ->]. exists j. rewrite Hlive. split; [set_solver|done].
  - exists (if low then [j] else []), (if low then [] else [j]). split; try done.
    + unfold leaf_size. cbn [permutation_ pair_leaf set_permutation]. rewrite Hs. lia.
    + eauto.
    + split; [rewrite Hlive; by destruct low| |]; intros p Hp'; destruct low; try (by apply elem_of_nil in Hp'); apply list_elem_of_singleton in Hp' as ->; change (slot_key (pair_leaf _ _ _ _) ?q) with (slot_key l q); rewrite Hkj; [done|by right].
    + by destruct low.
    + rewrite Hlive. intros p ->%list_elem_of_singleton. change (slot_key z j) with (slot_key l j). by rewrite Hkj.
Qed.
End Pair.

(** ** The links *)
Definition layer_leaf (l : leaf) (kp v a : Z) : leaf :=
  set_l_version (nv_unlock P (mark_insert P v)) (set_slots (<[Z.to_nat kp := layer_keylenx]> (keylenx_ l)) (l_ikey0_ l) (<[Z.to_nat kp := LvLayer a]> (lv_ l)) l).
Lemma run_put_leaf s p l : put_leaf p l s = Ok (tt, upd p (NLeaf l) s).
Proof. done. Qed.
Lemma run_set_lv s n l p v : mnodes s !! n = Some (NLeaf l) -> length (lv_ l) = 15%nat -> 0 <= p < 15 -> set_lv n p v s = Ok (tt, upd n (NLeaf (with_value l p v)) s).
Proof.
  intros Hn Hl Hp. unfold set_lv, put_leaf. erewrite ST_bind_ok by (by apply run_leaf). rewrite (ST_bind_ok (a := <[Z.to_nat p := v]> (lv_ l)) (s' := s)) by (apply lift_ok; unfold array_set; by rewrite decide_True by lia). by rewrite run_put.
Qed.
Section Join.
Context (s : mass) (c : tcursor) (v head tail : Z) (oka ka : key) (o t : list Z) (l lt : leaf) (r : Z).
#[local] Abbreviation n := (n_ c).
#[local] Abbreviation a := (mbrk s).
Context (Hn : mnodes s !! n = Some (NLeaf l)) (Hl : shape_ok l) (Hkp : 0 <= kp_ c < 15) (Hv : lv_ l !! Z.to_nat (kp_ c) = Some (LvValue r)) (Hlt : mnodes s !! tail = Some (NLeaf lt)) (Htl : length (lv_ lt) = 15%nat).
Context (Hna : n < a) (Hta : tail < a) (Ht0 : tail <> 0) (Hth : tail = n <-> head = n) (Ho : key_repr 0 oka o) (Hk : key_repr 7 ka t) (Hlo : Z.of_nat (length o) <= max_suffix) (Hlk : Z.of_nat (length t) <= max_suffix) (Hne : akey_of o <> akey_of t).
#[local] Abbreviation low := (key_compare oka (ikey0 ka) (klen ka) <? 0).
Definition joined (z : leaf) : mass := upd n (NLeaf (layer_leaf l (kp_ c) v (if head =? n then a else head))) (tail_linked tail n tail a lt (alloc (NLeaf z) s)).
Lemma low_spec : if low then akey_lt (akey_of o) (akey_of t) else akey_lt (akey_of t) (akey_of o).
Proof.
  clear Htl Hth. destruct (key_compare_strings _ _ _ _ _ _ Ho Hk) as [H1 H2]. destruct (Z.ltb_spec (key_compare oka (ikey0 ka) (klen ka)) 0) as [Hlow|Hge]; [by apply H1|]. destruct (akey_trichotomy (akey_of o) (akey_of t)) as [Hx|[Hx|Hx]]; [apply H1 in Hx; lia|done|done].
Qed.
Lemma high_spec : (0 <? key_compare oka (ikey0 ka) (klen ka)) = negb low.
Proof.
  clear Htl Hth. destruct (key_compare_strings _ _ _ _ _ _ Ho Hk) as [_ H2]. destruct (Z.ltb_spec (key_compare oka (ikey0 ka) (klen ka)) 0), (Z.ltb_spec 0 (key_compare oka (ikey0 ka) (klen ka))); try done; try lia. exfalso. apply Hne, H2. lia.
Qed.
(** The two keys enter a new leaf in their order. *)
Lemma pair_run k ts : 0 <= k -> exists y1 y, assign_initialize (root_leaf k ts) 0 (if low then oka else ka) = Ok y1 /\ assign_initialize y1 1 (if low then ka else oka) = Ok y /\ same_frame (root_leaf k ts) y /\ shape_ok y
  /\ slot_ok y (Z.b2z (negb low)) /\ slot_ok y (Z.b2z low) /\ slot_key y (Z.b2z (negb low)) = akey_of o /\ slot_key y (Z.b2z low) = akey_of t
  /\ slot_content y (Z.b2z (negb low)) = Some (CVal (drop 8 o) 0) /\ slot_content y (Z.b2z low) = Some (CVal (drop 8 t) 0).
Proof.
  intros Hk0. pose proof (root_shape k ts Hk0) as Hx. destruct low; cbn [negb Z.b2z].
  - destruct (two_slots 0 7 _ oka ka o t Hx ltac:(lia) ltac:(lia) Ho Hk Hlo Hlk) as (y1 & y & Hy). exists y1, y. exact Hy.
  - destruct (two_slots 7 0 _ ka oka t o Hx ltac:(lia) ltac:(lia) Hk Ho Hlk Hlo) as (y1 & y & H1 & H2 & H3 & H4 & H5 & H6 & H7 & H8 & H9 & H10). exists y1, y. by split_and!.
Qed.
Lemma old_row : kp_ c < 15 -> array_get (lv_ l) (kp_ c) = Ok (LvValue r).
Proof. intros _. unfold array_get. rewrite decide_True by lia. by rewrite Hv. Qed.
(** The links from above. *)
Lemma link_layer_run {C} z (k : MM C) :
  (v ← nb_mark_insert n v; (if negb (tail =? n) then set_lv tail 0 (LvLayer a) else mret tt);; set_lv n (kp_ c) (LvLayer (if negb (head =? n) then head else a));;
   l ← get_leaf n; ks ← lift (array_set (keylenx_ l) (kp_ c) layer_keylenx); put_leaf n (set_slots ks (l_ikey0_ l) (lv_ l) l);; nb_unlock n v;; k) (alloc (NLeaf z) s) = k (joined z).
Proof.
  set (s1 := alloc (NLeaf z) s). assert (H1 : mnodes s1 !! n = Some (NLeaf l)) by (unfold s1; rewrite alloc_other by lia; exact Hn).
  rewrite (ST_bind_ok (a := mark_insert P v) (s' := upd n (NLeaf (set_l_version (mark_insert P v) l)) s1)) by (unfold nb_mark_insert; by erewrite ST_bind_ok by (by apply run_write_version)).
  set (l1 := set_l_version (mark_insert P v) l). set (link := if negb (head =? n) then head else a). rewrite (ST_bind_ok (a := tt) (s' := upd n (NLeaf l1) (tail_linked tail n tail a lt s1))).
  2:{ unfold tail_linked. destruct (Z.eqb_spec tail n) as [Heq|Hneq]; cbn [negb]; [done|]. erewrite run_set_lv; [|rewrite upd_other by done; unfold s1; rewrite alloc_other by lia; exact Hlt|done|lia]. by rewrite upd_comm. }
  erewrite ST_bind_ok by (apply run_set_lv; [apply upd_at|apply Hl|done]). rewrite upd_upd. erewrite ST_bind_ok by (apply run_leaf, upd_at).
  rewrite (ST_bind_ok (a := <[Z.to_nat (kp_ c) := layer_keylenx]> (keylenx_ l)) (s' := upd n (NLeaf (with_value l1 (kp_ c) (LvLayer link))) (tail_linked tail n tail a lt s1))).
  2:{ apply lift_ok. unfold array_set. cbn [keylenx_ with_value set_slots l1 set_l_version]. rewrite decide_True; [done|]. rewrite (sh_keylenx _ Hl). lia. }
  unfold put_leaf. rewrite (ST_bind_ok (run_put _ _ _)). rewrite upd_upd. unfold nb_unlock. erewrite ST_bind_ok by (apply run_write_version, upd_at). rewrite upd_upd. unfold joined, link. fold s1. by destruct (head =? n).
Qed.
Lemma new_layer_run : exists y w, new_layer_leaf c v head tail oka ka s = Ok ((InsertMarker, with_node a (with_position (Z.b2z low) (Z.b2z low) (with_key ka c))), joined (pair_leaf low r w y))
  /\ ver w true true true /\ shape_ok y /\ modstate_ y = modstate_insert /\ l_prev_ y = 0 /\ l_next_ y = 0 /\ l_parent_ y = 0
  /\ slot_ok y (Z.b2z (negb low)) /\ slot_ok y (Z.b2z low) /\ slot_key y (Z.b2z (negb low)) = akey_of o /\ slot_key y (Z.b2z low) = akey_of t
  /\ slot_content y (Z.b2z (negb low)) = Some (CVal (drop 8 o) 0) /\ slot_content y (Z.b2z low) = Some (CVal (drop 8 t) 0).
Proof.
  unfold new_layer_leaf. set (k := if has_suffix ka || has_suffix oka then _ else _). assert (Hk0 : 0 <= k) by (unfold k; destruct (has_suffix ka || has_suffix oka); [change (overhead 8 node_width) with 32; change (node_width / 2) with 7|]; lia).
  destruct (pair_run k (node_ts_ lt) Hk0) as (y1 & y & Hr1 & Hr2 & (Fv & Fm & _ & Fn & Fp & Fa & _) & Hy & Hslots). change (l_version y = mark_root P (new_nodeversion P true)) in Fv. rewrite high_spec. set (j := Z.b2z (negb low)) in *. exists y, (Z.lor (mark_root P (new_nodeversion P true)) 1).
  split; [|split; [by apply (ver_lock (ver_new_root true))|split; [exact Hy|]; split; [exact Fm|]; split; [exact Fp|]; split; [exact Fn|]; split; [exact Fa|exact Hslots]]].
  rewrite (ST_bind_ok (make_root_run k s tail lt Hlt Ht0)). erewrite ST_bind_ok by (apply run_leaf, alloc_at). erewrite ST_bind_ok by (apply lift_ok; exact Hr1). erewrite ST_bind_ok by (apply lift_ok; exact Hr2).
  rewrite (ST_bind_ok (run_put_leaf _ _ _)). rewrite upd_alloc. erewrite ST_bind_ok by (apply run_leaf; rewrite alloc_other by lia; exact Hn). erewrite ST_bind_ok by (apply lift_ok, old_row; lia).
  erewrite ST_bind_ok by (apply run_set_lv; [apply alloc_at|apply Hy|unfold j; destruct low; simpl; lia]). rewrite upd_alloc. erewrite ST_bind_ok by (apply run_version, alloc_at). cbn [node_version with_value set_slots l_version]. rewrite Fv.
  rewrite (ST_bind_ok (a := Z.lor (mark_root P (new_nodeversion P true)) 1) (s' := alloc (NLeaf (set_l_version (Z.lor (mark_root P (new_nodeversion P true)) 1) (with_value y j (LvValue r)))) s)).
  2:{ unfold nb_lock. erewrite ST_bind_ok by (apply run_version, alloc_at). cbn [node_version with_value set_slots l_version]. rewrite Fv. rewrite (ver_try_lock (ver_new_root true) eq_refl). erewrite ST_bind_ok by (apply run_write_version, alloc_at). by rewrite upd_alloc. }
  erewrite ST_bind_ok by (apply run_leaf, alloc_at). rewrite (ST_bind_ok (run_put_leaf _ _ _)). rewrite upd_alloc. fold (pair_perm low). fold (pair_leaf low r (Z.lor (mark_root P (new_nodeversion P true)) 1) y).
  exact (link_layer_run _ _).
Qed.
End Join.
