(* ===== verification/MassBranch.v ===== *)
(** * Two keys in one slot

    [check_leaf_new_layer] from its first to its last step: the slot of the old key becomes a
    link, the twig grows, and the cursor stands in the leaf where the two keys part. *)

From S2P Require Import Prelude Permuter KSearch NodeVersion MassKey MassBag MassNode MassTree MassLeaf MassSplit MassInv MassDict MassGet MassWrite MassFinish MassInner MassGhost MassParent MassRound MassClimb MassLink MassLayer MassTwig MassPair.
#[local] Abbreviation P := nodeversion32_parameters.

(** ** The slot that becomes a link *)
Lemma layer_leaf_keylenx l kp v a q : shape_ok l -> 0 <= kp < 15 -> 0 <= q -> slot_keylenx (layer_leaf l kp v a) q = if decide (q = kp) then layer_keylenx else slot_keylenx l q.
Proof.
  intros Hl Hk Hq. unfold slot_keylenx. cbn [keylenx_ layer_leaf set_l_version set_slots]. case_decide as Hd.
  - subst q. rewrite list_lookup_total_insert_eq; [done|]. rewrite (sh_keylenx _ Hl). lia.
  - rewrite list_lookup_total_insert_ne by lia. done.
Qed.
Lemma layer_leaf_slot l kp v a suf r : leaf_ok l -> kp ∈ live l -> slot_content l kp = Some (CVal suf r) -> (slot_key l kp).2 = 9 ->
  slot_content (layer_leaf l kp v a) kp = Some (CLayer a) /\ (forall q, 0 <= q -> slot_key (layer_leaf l kp v a) q = slot_key l q) /\ (forall q, 0 <= q -> q <> kp -> slot_content (layer_leaf l kp v a) q = slot_content l q).
Proof.
  intros Hl Hin Hc H9. pose proof (live_range l kp (lo_perm _ Hl) Hin) as Hr. pose proof (lo_shape _ Hl) as Hsh. split; [|split].
  - unfold slot_content. rewrite layer_leaf_keylenx, decide_True by done || lia. cbn [lv_ layer_leaf set_l_version set_slots]. rewrite list_lookup_insert_eq by (rewrite (sh_lv _ Hsh); lia). done.
  - intros q Hq. unfold slot_key. rewrite layer_leaf_keylenx by done. change (slot_ikey (layer_leaf l kp v a) q) with (slot_ikey l q). case_decide as Hd; [|done]. subst q. f_equal. symmetry. exact H9.
  - intros q Hq Hne. unfold slot_content. rewrite layer_leaf_keylenx, decide_False by done. cbn [lv_ layer_leaf set_l_version set_slots]. rewrite list_lookup_insert_ne by lia. done.
Qed.
Lemma layer_leaf_ok l kp v a suf r : leaf_ok l -> kp ∈ live l -> slot_content l kp = Some (CVal suf r) -> (slot_key l kp).2 = 9 ->
  leaf_ok (layer_leaf l kp v a) /\ forall k c, holds (layer_leaf l kp v a) k c <-> if decide (k = slot_key l kp) then c = CLayer a else holds l k c.
Proof.
  intros Hl Hin Hc H9. pose proof (lo_shape _ Hl) as Hsh. destruct (layer_leaf_slot l kp v a suf r Hl Hin Hc H9) as (Hcp & Hks & Hcs). set (l' := layer_leaf l kp v a) in *. assert (Hlv : live l' = live l) by done. assert (Hpos : forall q, q ∈ live l -> 0 <= q < 15) by (intros q Hq; by apply (live_range l q (lo_perm _ Hl))). split.
  - split; [|apply Hl| |].
    + split; [cbn; by rewrite length_insert, (sh_keylenx _ Hsh)|apply Hsh|cbn; by rewrite length_insert, (sh_lv _ Hsh)|apply Hsh].
    + rewrite Hlv. intros q Hq. pose proof (Hpos q Hq) as Hqr. destruct (lo_slots _ Hl q Hq) as [S1 S2 S3 S4 S5]. split; [done|exact S2| | |].
      * unfold l'. rewrite layer_leaf_keylenx by (done || lia || by apply Hpos). case_decide; [by right|done].
      * unfold l'. rewrite layer_leaf_keylenx by (done || lia || by apply Hpos). case_decide; [done|exact S4].
      * destruct (decide (q = kp)) as [->|Hne]; [by rewrite Hcp|]. by rewrite Hcs by lia.
    + rewrite Hlv. intros i j p q Hi Hj Hij. rewrite !Hks; [by eapply (lo_sorted _ Hl)|apply Hpos; by eapply list_elem_of_lookup_2|apply Hpos; by eapply list_elem_of_lookup_2].
  - intros k c. case_decide as Hd.
    + subst k. split; [|intros ->; exists kp; split; [done|]; split; [apply Hks, Hpos, Hin|done]]. intros (q & Hq & Hkq & Hcq). rewrite Hlv in Hq. rewrite Hks in Hkq by (by apply Hpos). assert (q = kp) as -> by (by eapply (sorted_key_inj l)). congruence.
    + split; intros (q & Hq & Hkq & Hcq); exists q; try rewrite Hlv in Hq; (split; [done|]).
      * rewrite Hks in Hkq by (by apply Hpos). split; [done|]. rewrite <- Hcs; [done|by apply Hpos|]. intros ->. congruence.
      * split; [rewrite Hks by (by apply Hpos); done|]. rewrite Hcs; [done|by apply Hpos|]. intros ->. congruence.
Qed.
(** Nothing below a slot that holds a value. *)
Lemma nothing_below N G V E X L pi x suf r : tree_ok N G V E X L -> E !! (pi, (x, 9)) = Some (CVal suf r) -> forall pi' k, (pi ++ [x]) `prefix_of` pi' -> E !! (pi', k) = None.
Proof.
  intros Ht Hval. assert (Hno : forall z p g, G !! p = Some g -> layer g <> (pi ++ [x]) ++ z).
  { induction z as [|y z IH] using rev_ind; intros p g Hg Hla.
    - rewrite app_nil_r in Hla. destruct (to_layer _ _ _ _ _ _ Ht p g pi x Hg Hla) as [link Hl]. congruence.
    - rewrite app_assoc in Hla. destruct (to_layer _ _ _ _ _ _ Ht p g _ y Hg Hla) as [link Hl]. destruct (to_entry _ _ _ _ _ _ Ht _ _ _ Hl) as (q & h & Hq & Hlq & _). by apply (IH q h). }
  intros pi' k [z ->]. destruct (E !! ((pi ++ [x]) ++ z, k)) as [c|] eqn:He; [|done]. destruct (to_entry _ _ _ _ _ _ Ht _ _ _ He) as (q & h & Hq & Hlq & _). by destruct (Hno z q h Hq).
Qed.

(** ** The start of the twig *)
Section Start.
Context (s : mass) (G : ghosts) (E : dict) (Hs : mass_ok s G E ∅) (p : Z) (g : ghost) (l : leaf) (ka : key) (str rest : list Z) (Hleaf : leaf_for s G (layer g) (slice_of rest) p g l) (Hka : key_repr 7 ka rest) (Hreach : reach E [] str (layer g) rest).
Context (kp : Z) (suf : list Z) (r : Z) (Hin : kp ∈ live l) (Hk : slot_key l kp = akey_of rest) (Hc : slot_content l kp = Some (CVal suf r)) (Hne : suf <> drop 8 rest).
#[local] Abbreviation v := (Z.lor (l_version l) 1).
#[local] Abbreviation s1 := (locked_state s p l).
#[local] Abbreviation l1 := (locked_leaf l).
#[local] Abbreviation x := (slice_of rest).
#[local] Abbreviation lfn := (layer_leaf l1 kp v).
Lemma start_content : leaf_content E ∅ p g l.
Proof. by eapply found_content. Qed.
Lemma start_long : slot_keylenx l kp = 9 /\ (8 < length rest)%nat /\ akey_of rest = (x, 9) /\ suf = bag_string (leaf_bag l) kp.
Proof.
  pose proof (lo_slots _ (lc_ok _ _ _ _ _ start_content) kp Hin) as Hok. pose proof Hc as Hc'. unfold slot_content in Hc'. destruct (lv_ l !! Z.to_nat kp) as [[w|w]|]; [|by destruct (keylenx_is_layer _)|done].
  destruct (keylenx_is_layer (slot_keylenx l kp)) eqn:Hlay; [done|]. injection Hc' as Hsuf _. unfold slot_key, akey_of, norm_len in Hk. injection Hk as _ Hk2. unfold keylenx_is_layer in Hlay. apply Z.ltb_ge in Hlay. unfold keylenx_has_ksuf in Hsuf.
  destruct (so_len _ _ Hok) as [Hlen|He]; [|unfold layer_keylenx in He; lia]. destruct (Z.eqb_spec (slot_keylenx l kp) (8 + 1)) as [H9|Hn9].
  - split; [done|]. split; [lia|]. split; [|done]. unfold akey_of. f_equal. lia.
  - exfalso. apply Hne. rewrite <- Hsuf. symmetry. apply drop_ge. lia.
Qed.
Lemma start_value : E !! (layer g, (x, 9)) = Some (CVal suf r).
Proof. destruct start_long as (_ & _ & He & _). rewrite <- He. apply (lc_holds _ _ _ _ _ start_content). by exists kp. Qed.
Lemma start_node a G1 : (forall q gq, G !! q = Some gq -> G1 !! q = Some gq) -> node_ok G1 G1 (deepen E (layer g) x suf r a) ∅ ∅ p g (NLeaf (lfn a)).
Proof.
  intros HG1. destruct start_long as (_ & _ & He & _). pose proof Hleaf as (Hg & Hn & _ & Hl0 & Hx). destruct (to_node _ _ _ _ _ _ (ms_tree _ _ _ _ Hs) _ _ _ Hg Hn) as [(rt & Hv & Hrt) Hup [[F1 F2 F3 F4] Hlc]].
  rewrite bool_decide_eq_false_2 in Hv by apply not_elem_of_empty. split; [|exact Hup|].
  - exists rt. rewrite bool_decide_eq_false_2 by apply not_elem_of_empty. split; [|exact Hrt]. apply (ver_unlock (ver_mark_insert (ver_lock Hv eq_refl) eq_refl) eq_refl).
  - split; [split; try done; destruct F4 as [?|(gq & Hq & Hx')]; [by left|right; exists gq; split; [by apply HG1|done]]|]. intros _. pose proof start_content as [Hok Hh Hf].
    destruct (layer_leaf_ok l kp v a suf r Hok Hin Hc) as [Hok' Hh']; [by rewrite Hk, He|]. split; [exact Hok'| |].
    + intros k c. change (holds (lfn a) k c) with (holds (layer_leaf l kp v a) k c). rewrite Hh'. destruct (decide (k = slot_key l kp)) as [->|Hd]; rewrite Hk, He in *.
      * rewrite deepen_link. split; [intros ->; done|by intros [[= ->] _]].
      * rewrite deepen_other; [by apply Hh|intros [_ ?]%pair_equal_spec; done|intros Heq; by apply eq_sym, snoc_ne in Heq].
    + intros Hlo. destruct (Hf Hlo) as [H1 [H2|[H2 _]]]; [|by apply not_elem_of_empty in H2]. split; [exact H1|left; exact H2].
Qed.
Lemma start_tree a : tree_ok (<[p := NLeaf (lfn a)]> (mnodes s1)) G G E {[p]} ∅.
Proof.
  pose proof Hleaf as (Hg & Hn & _). destruct (start_node a G ltac:(done)) as [(rt & Hv & Hrt) Hup [Hfr _]]. cbn [locked_state mnodes upd on_nodes]. rewrite insert_insert_eq. eapply (tree_write _ _ _ E E ∅ {[p]} ∅ ∅); [apply Hs|exact Hg|set_solver|by left|].
  split; [|exact Hup|split; [exact Hfr|set_solver]]. exists rt. split; [exact Hv|]. set_solver.
Qed.
Lemma start_branch : exists pos len oka ka', leaf_ksuf l1 kp = Ok (s_ (leaf_bag l), pos, len) /\ key_of_string (s_ (leaf_bag l)) pos len = Ok oka /\ key_shift ka = Ok ka' /\ (length suf <= Z.to_nat max_suffix)%nat
  /\ branch s1 (mnodes s1) G E p p p g x suf (drop 8 rest) r l1 lfn lfn oka ka' str.
Proof.
  pose proof Hleaf as (Hg & Hn & _ & Hl0 & Hx). destruct start_long as (H9 & Hlong & He & Hsuf). pose proof (lc_ok _ _ _ _ _ start_content) as Hok. pose proof (lo_slots _ Hok kp Hin) as Hsl.
  destruct (leaf_ksuf_ok l kp (lo_shape _ Hok) Hsl H9) as (pos & len & Hks & Hb & Hpos & Hroom & Hstr & Hlen & Hlr). destruct (key_repr_string 0 (s_ (leaf_bag l)) pos len ltac:(lia) Hb Hpos ltac:(lia) ltac:(lia)) as (oka & Hoka & Hro). rewrite Hstr, <- Hsuf in Hro.
  destruct (key_repr_shift 7 ka rest ltac:(lia) Hka Hlong) as (ka' & Hsh & Hka'). exists pos, len, oka, ka'. split; [exact Hks|]. split; [exact Hoka|]. split; [exact Hsh|]. destruct (so_suffix _ _ Hsl H9) as [Hsz _]. split; [rewrite Hsuf; lia|].
  pose proof (ms_brk _ _ _ _ Hs) as [Hb0 Hb1]. assert (Hpb : p < mbrk s) by (destruct (Z.lt_ge_cases p (mbrk s)) as [|Hge]; [done|]; destruct (ms_fresh _ _ _ _ Hs p Hge); congruence). split.
  - split; try done; [exact (start_tree (mbrk s1))|exact start_value|exact (nothing_below _ _ _ _ _ _ _ _ _ _ (ms_tree _ _ _ _ Hs) start_value)|by apply start_node|].
    intros q Hq. unfold locked_state. rewrite upd_other; [by apply (ms_fresh _ _ _ _ Hs)|]. change (mbrk s <= q) in Hq. lia.
  - split; [done|apply upd_at|by left].
  - exact Hpb.
  - exact Hro.
  - exact Hka'.
  - by exists rest.
Qed.
End Start.

(** ** The end *)
Definition with_state (st : Z) (c : tcursor) : tcursor := mkCursor (n_ c) (ka_ c) (ki_ c) (kp_ c) (root_ c) st.
Lemma stands_deeper s s' E E' M : stands s E M -> mrows s' = mrows s -> deeper E E' -> stands s' E' M.
Proof. intros HM Hr Hd str v. rewrite (HM str v), Hr. split; intros (Hb & r & row & Hf & Hx); (split; [done|]); exists r, row; (split; [by apply (dp_found _ _ Hd)|done]). Qed.
(** The first leaf of the layer, locked. *)
Lemma tree_layer_leaf N G E p g x suf r a mp m : tree_ok N G G E {[p]} ∅ -> G !! p = Some g -> level g = 0%nat -> covers g x -> E !! (layer g, (x, 9)) = Some (CVal suf r) ->
  (forall pi k, (layer g ++ [x]) `prefix_of` pi -> E !! (pi, k) = None) -> Forall byte_ok suf -> N !! a = None -> 0 < a /\ a mod 64 = 0 -> N !! p = Some mp ->
  (forall G1, (forall q gq, G !! q = Some gq -> G1 !! q = Some gq) -> node_ok G1 G1 (deepen E (layer g) x suf r a) ∅ ∅ p g mp) ->
  (forall X, node_ok (more_ghosts G g x a) (more_ghosts G g x a) (deepen E (layer g) x suf r a) X {[a]} a (layer_root g x) m) ->
  settled (<[a := m]> N) (more_ghosts G g x a) (deepen E (layer g) x suf r a) {[a]}.
Proof.
  intros Ht Hg Hlv Hx Hval Hnew Hsuf Ha Ha0 Hp Hmp Hm. assert (HL : forall q, q <> a -> q ∈ (∅ : gset Z) <-> q ∈ ({[a]} : gset Z)) by set_solver.
  pose proof (tree_layer N G E ∅ {[a]} p g x suf r a mp m Ht Hg Hlv Hx Hval Hnew Hsuf Ha Ha0 HL Hp Hmp (Hm {[a]})) as Ht'. rewrite <- (insert_insert_eq N a m m). eapply tree_write; [exact Ht'|apply lookup_insert_eq| |by left|apply Hm]. clear. set_solver.
Qed.
Section Part.
Context (s0 s : mass) (Np : memory) (G0 G : ghosts) (E0 E : dict) (c : tcursor) (v tail head : Z) (g : ghost) (x : Z) (o t : list Z) (r : Z) (l : leaf) (lf : Z -> leaf) (oka ka : key) (str : list Z).
#[local] Abbreviation n := (n_ c).
#[local] Abbreviation a := (mbrk s).
#[local] Abbreviation lfn := (layer_leaf l (kp_ c) v).
Context (Hbr : branch s Np G E n tail head g x o t r l lfn lf oka ka str) (Hne : akey_of o <> akey_of t) (Hbd : branched s0 s G0 G E0 E) (Hheap : heap_ok s0 G0 E0) (Hlo : Z.of_nat (length o) <= max_suffix) (Hlt : Z.of_nat (length t) <= max_suffix).
Context (Hl : shape_ok l) (Hkp : 0 <= kp_ c < 15) (Hv : lv_ l !! Z.to_nat (kp_ c) = Some (LvValue r)).
#[local] Abbreviation G' := (more_ghosts G g x a).
#[local] Abbreviation E' := (deepen E (layer g) x o r a).
Lemma part_tail : exists lt, mnodes s !! tail = Some (NLeaf lt) /\ length (lv_ lt) = 15%nat /\ (tail = n <-> head = n) /\ 0 < tail < a
  /\ forall z, mnodes (joined s c v head tail l lt z) = <[a := NLeaf z]> (<[tail := NLeaf (lf a)]> Np).
Proof.
  destruct Hbr as [Htw [Hot Hst Htl] Hna _ _ _]. destruct (tw_mem _ _ _ _ _ _ _ _ _ _ Htw) as (_ & _ & Hta). destruct (to_addr _ _ _ _ _ _ (tw_tree _ _ _ _ _ _ _ _ _ _ Htw) tail ltac:(eexists; apply Htw)) as [Ht0 _].
  destruct Htl as [(-> & -> & Hlf)|(Htn & Hhn & Hnn & lt & Hlt' & Hlen & Hlf)].
  - exists l. split; [done|]. split; [apply Hl|]. split; [done|]. split; [done|]. intros z. unfold joined, tail_linked. rewrite !Z.eqb_refl. cbn [mnodes upd alloc on_nodes]. rewrite Hlf, insert_insert_ne by lia. f_equal.
    apply map_eq. intros q. destruct (decide (q = n)) as [->|]; [by rewrite !lookup_insert_eq|]. rewrite !lookup_insert_ne by done. by apply Hot.
  - exists lt. split; [done|]. split; [done|]. split; [done|]. split; [done|]. intros z. unfold joined, tail_linked. rewrite (proj2 (Z.eqb_neq tail n)), (proj2 (Z.eqb_neq head n)) by done. cbn [mnodes upd alloc on_nodes]. rewrite Hlf.
    rewrite (insert_insert_ne _ tail a) by lia. rewrite (insert_insert_ne _ n a) by lia. f_equal. apply map_eq. intros q. destruct (decide (q = n)) as [->|Hqn]; [by rewrite lookup_insert_eq, lookup_insert_ne|]. rewrite lookup_insert_ne by done.
    destruct (decide (q = tail)) as [->|Hqt]; [by rewrite !lookup_insert_eq|]. rewrite !lookup_insert_ne by done. by apply Hot.
Qed.
Lemma part_ghost q gq : G !! q = Some gq -> G' !! q = Some gq.
Proof.
  intros Hq. unfold more_ghosts. rewrite lookup_insert_ne; [done|]. intros <-. pose proof (br_twig _ _ _ _ _ _ _ _ _ _ _ _ _ _ _ _ _ _ Hbr) as Htw. pose proof (tw_mem _ _ _ _ _ _ _ _ _ _ Htw) as (_ & _ & Hta).
  assert (is_Some ((<[tail := NLeaf (lf a)]> Np) !! a)) as [y Hy]; [apply (to_dom _ _ _ _ _ _ (tw_tree _ _ _ _ _ _ _ _ _ _ Htw)); eauto|]. rewrite lookup_insert_ne in Hy by lia. by rewrite (tw_fresh _ _ _ _ _ _ _ _ _ _ Htw) in Hy by lia.
Qed.
Lemma part_deeper : deeper E0 E'.
Proof.
  pose proof (br_twig _ _ _ _ _ _ _ _ _ _ _ _ _ _ _ _ _ _ Hbr) as Htw. eapply deeper_trans; [apply Hbd|]. apply deepen_deeper; [by eapply settled_links, (tw_tree _ _ _ _ _ _ _ _ _ _ Htw)|apply Htw|apply Htw|exact (kr_ok _ _ _ (br_old _ _ _ _ _ _ _ _ _ _ _ _ _ _ _ _ _ _ Hbr))].
Qed.
Lemma part_heap s' : mrows s' = mrows s -> mroot s' = mroot s -> mbrk s' = a + 64 -> (forall q, a + 64 <= q -> mnodes s' !! q = None) -> heap_ok s' G' E'.
Proof.
  intros Hr Hrt Hb Hf. pose proof (br_twig _ _ _ _ _ _ _ _ _ _ _ _ _ _ _ _ _ _ Hbr) as Htw. destruct (tw_mem _ _ _ _ _ _ _ _ _ _ Htw) as (Hb0 & Hb1 & _). destruct (heap_deeper _ _ _ _ Hheap part_deeper) as [Q1 Q2 Q3 Q4 Q5]. destruct Hbd as [B1 B2 B3 B4 _]. split.
  - destruct Q1 as (gr & Hgr & Hx). exists gr. rewrite Hrt, B2. split; [by apply part_ghost, B4|done].
  - rewrite Hb. split; [lia|]. by rewrite Z.add_mod, Hb1.
  - intros q Hq. rewrite Hb in Hq. split; [by apply Hf|]. rewrite Hr, B1. apply Q3. lia.
  - intros pi k suf r' Hk. rewrite Hr, B1. by eapply Q4.
  - exact Q5.
Qed.
Lemma part_ok M : stands s0 E0 M -> exists c' s' z, new_layer_leaf c v head tail oka ka s = Ok ((InsertMarker, c'), s') /\ placed s' G' E' (with_state 2 c') false str (layer_root g x) z t /\ stands s' E' M.
Proof.
  intros HM. destruct part_tail as (lt & Hlt' & Hlen & Hth & Ht0 & Hmem). pose proof Hbr as [Htw Hac Hna Ho Hk (rest & Hre & Hka & Hdr)]. pose proof (tw_mem _ _ _ _ _ _ _ _ _ _ Htw) as (Hb0 & Hb1 & _).
  destruct (new_layer_run s c v head tail oka ka o t l lt r (ac_start _ _ _ _ _ _ _ _ Hac) Hl Hkp Hv Hlt' Hlen Hna (proj2 Ht0) ltac:(lia) Hth Ho Hk Hlo Hlt Hne) as (y & w & Hrun & Hw & Hy & Y1 & Y2 & Y3 & Y4 & S1 & S2 & S3 & S4 & S5 & S6).
  pose proof (low_spec oka ka o t Ho Hk Hne) as Hord. set (low := key_compare oka (ikey0 ka) (klen ka) <? 0) in *. destruct (pair_ok y low r w o t Hy S1 S2 S3 S4 S5 S6 Hord) as (Hok & Hh & A & B & Hrd). set (z := pair_leaf low r w y) in *.
  specialize (Hmem z). set (s' := joined s c v head tail l lt z) in *. assert (Hs' : mrows s' = mrows s /\ mroot s' = mroot s /\ mbrk s' = a + 64) by (unfold s', joined, tail_linked; by destruct (tail =? n)). destruct Hs' as (Hr' & Hrt' & Hb').
  pose proof (kr_ok _ _ _ Ho) as Hbo. pose proof (kr_ok _ _ _ Hk) as Hbt. pose proof (deepen_new E (layer g) x o r a (tw_new _ _ _ _ _ _ _ _ _ _ Htw)) as Hnew.
  assert (Hroot : forall X L, a ∈ L -> node_ok G' G' E' X L a (layer_root g x) (NLeaf z)).
  { intros X L HL. apply (root_node _ _ _ _ _ _ _ _ true); try done; [by rewrite bool_decide_eq_true_2|intros _; split; [done|]; intros k q; rewrite Hh; split; [intros [-> ->]; apply deepen_value|by intros ?%Hnew]|]. intros k q [-> _]%Hnew. by apply slice_range. }
  assert (Hfa : forall q, a <= q -> (<[tail := NLeaf (lf a)]> Np) !! q = None) by (intros q Hq; rewrite lookup_insert_ne by lia; by apply (tw_fresh _ _ _ _ _ _ _ _ _ _ Htw)).
  assert (Htree : settled (mnodes s') G' E' {[a]}).
  { rewrite Hmem. destruct Htw as [T1 T2 T3 T4 T5 T6 T7 _ _]. apply (tree_layer_leaf _ G E tail g x o r a (NLeaf (lf a))); try assumption; [apply Hfa, Z.le_refl|by split|apply lookup_insert_eq|intros G1 HG1; by apply T7|]. intros X. apply Hroot. by apply elem_of_singleton. }
  eexists _, s', z. split; [exact Hrun|]. split.
  - split; try done.
    + apply mass_heap. split; [exact Htree|]. apply part_heap; try done. intros q Hq. rewrite Hmem, lookup_insert_ne by lia. apply Hfa. lia.
    + apply lookup_insert_eq.
    + change (mnodes s' !! a = Some (NLeaf z)). rewrite Hmem. apply lookup_insert_eq.
    + by apply slice_range.
    + cbn [layer layer_root]. assert (Hsl : slice_of rest = x) by (unfold akey_of in Hka; by injection Hka). rewrite <- Hsl, <- Hdr. apply (reach_snoc _ _ _ _ _ a); [|rewrite Hka, Hsl; apply deepen_link].
      eapply deeper_reach; [|exact Hre]. rewrite Hsl. apply deepen_deeper; [by eapply settled_links, (tw_tree _ _ _ _ _ _ _ _ _ _ Htw)|apply Htw|apply Htw|done].
    + by exists A, B.
  - eapply stands_deeper; [exact HM|rewrite Hr'; apply Hbd|exact part_deeper].
Qed.
End Part.

Lemma slot_value l kp suf r : slot_content l kp = Some (CVal suf r) -> lv_ l !! Z.to_nat kp = Some (LvValue r).
Proof. unfold slot_content. destruct (lv_ l !! Z.to_nat kp) as [[w|w]|]; destruct (keylenx_is_layer (slot_keylenx l kp)); try done. intros Hc. injection Hc as _ ->. done. Qed.
(** [check_leaf_new_layer] on the locked leaf of another key with the same slice. *)
Lemma new_layer_ok s G E p g l ka str rest kp suf r fuel c M : mass_ok s G E ∅ -> leaf_for s G (layer g) (slice_of rest) p g l -> key_repr 7 ka rest -> reach E [] str (layer g) rest ->
  kp ∈ live l -> slot_key l kp = akey_of rest -> slot_content l kp = Some (CVal suf r) -> suf <> drop 8 rest -> n_ c = p -> ka_ c = ka -> kp_ c = kp -> (length rest < fuel)%nat -> Z.of_nat (length rest) <= max_suffix -> stands s E M ->
  exists c' s' G' E' g' z t, check_leaf_new_layer fuel c (Z.lor (l_version l) 1) (locked_state s p l) = Ok ((InsertMarker, c'), s') /\ placed s' G' E' (with_state 2 c') false str g' z t /\ stands s' E' M.
Proof.
  intros Hs Hleaf Hka Hre Hin Hk Hc Hne Hcn Hck Hckp Hfuel Hmax HM. subst p ka kp. destruct (locate_lock s G E Hs _ (Nat.le_refl _) _ g l _ rest Hleaf Hka) as [_ Hs1]. apply mass_heap in Hs1 as [_ Hheap].
  destruct (start_branch s G E Hs _ g l _ str rest Hleaf Hka Hre _ suf r Hin Hk Hc Hne) as (pos & len & oka & ka' & Hks & Hoka & Hsh & Hlsuf & Hbr). pose proof (found_content s G E Hs _ (Nat.le_refl _) _ g l _ rest Hleaf Hka) as Hlc. pose proof (lc_ok _ _ _ _ _ Hlc) as Hok. assert (Hsh1 : shape_ok (locked_leaf l)) by (destruct (lo_shape _ Hok); by split).
  destruct (twig_loop_ok (n_ c) (locked_leaf l) _ r str (sh_lv _ (lo_shape _ Hok)) fuel _ _ _ _ _ _ _ _ _ _ _ _ _ Hbr Hne) as (s2 & Np & G2 & E2 & tail & head & g2 & x2 & o2 & t2 & oka2 & ka2 & lf2 & Hloop & Hbr2 & Hne2 & Hl1 & Hl2 & Hbd); [rewrite length_drop; lia|]. rewrite length_drop in Hl2.
  destruct (part_ok _ s2 Np G G2 E E2 c _ tail head g2 x2 o2 t2 r (locked_leaf l) lf2 oka2 ka2 str Hbr2 Hne2 Hbd Hheap ltac:(unfold max_suffix in *; lia) ltac:(lia) Hsh1 (live_range l _ (lo_perm _ Hok) Hin) (slot_value _ _ _ _ Hc) M HM) as (c' & s' & z & Hrun & Hpl & HM').
  exists c', s', (more_ghosts G2 g2 x2 (mbrk s2)), (deepen E2 (layer g2) x2 o2 r (mbrk s2)), (layer_root g2 x2), z, t2. split; [|by split]. unfold check_leaf_new_layer. erewrite ST_bind_ok by (apply run_leaf, upd_at). erewrite ST_bind_ok by (apply lift_ok; exact Hks). cbn iota beta.
  erewrite ST_bind_ok by (apply lift_ok; exact Hoka). erewrite ST_bind_ok by (apply lift_ok; exact Hsh). erewrite ST_bind_ok by exact Hloop. exact Hrun.
Qed.
