(* ===== verification/MassInsert.v ===== *)
(** * Insertion into a Masstree

    [check_leaf_insert] at the leaf of a key and [find_insert] through the layers: the cursor
    ends at the slot of the key, or at one that is ready for it, in a locked leaf. *)

From S2P Require Import Prelude Permuter KSearch NodeVersion MassKey MassBag MassNode MassTree MassLeaf MassSplit MassInv MassDict MassGet MassWrite MassFinish MassInner MassGhost MassParent MassRound MassClimb MassLink MassGrow MassLayer MassTwig MassPair MassBranch.
#[local] Abbreviation P := nodeversion32_parameters.

(** What the cursor of [find_insert] stands at. *)
Definition placed_somewhere (M : gmap (list Z) (list Z)) (str : list Z) (fnd : bool) (c : tcursor) (s : mass) : Prop :=
  exists G E g l rest, placed s G E c fnd str g l rest /\ stands s E M.
Lemma back_not_first l : leaf_ok l -> leaf_size l < 15 -> 0 ∈ live l -> back node_width (permutation_ l) <> 0.
Proof. intros Hl Hsz H0 Hb. apply (back_is_free node_width ltac:(unfold node_width; lia) (permutation_ l)); [apply Hl|unfold leaf_size, node_width in *; lia|]. rewrite Hb. exact H0. Qed.
Section Leaf.
Context (s : mass) (G : ghosts) (E : dict) (Hs : mass_ok s G E ∅) (levels : nat) (Hlv : (base.size (mnodes s) + 2 <= levels)%nat).
Context (g : ghost) (l : leaf) (str rest : list Z) (c : tcursor).
#[local] Abbreviation p := (n_ c).
Context (Hleaf : leaf_for s G (layer g) (slice_of rest) p g l) (Hka : key_repr 7 (ka_ c) rest).
Context (Hre : reach E [] str (layer g) rest) (Hmax : Z.of_nat (length rest) <= max_suffix) (M : gmap (list Z) (list Z)) (HM : stands s E M).
#[local] Abbreviation v := (Z.lor (l_version l) 1).
#[local] Abbreviation s1 := (locked_state s p l).
#[local] Abbreviation l1 := (locked_leaf l).
Lemma leaf_facts : leaf_content E ∅ p g l /\ mass_ok s1 G E {[p]} /\ leaf_frame G g l1 /\ node_ok G G E ∅ {[p]} p g (NLeaf l1).
Proof.
  destruct (locate_lock s G E Hs levels Hlv p g l _ rest Hleaf Hka) as [_ Hs1]. split; [exact (found_content s G E Hs levels Hlv p g l _ rest Hleaf Hka)|]. split; [done|]. destruct Hleaf as (Hg & _). pose proof (to_node _ _ _ _ _ _ (ms_tree _ _ _ _ Hs1) _ _ _ Hg (upd_at _ _ _)) as Hok. split; [apply Hok|done].
Qed.
Lemma locked_content : leaf_content E {[p]} p g l1.
Proof. destruct leaf_facts as (Hlc & _). exact (leaf_content_reframe v (modstate_ l) (l_next_ l) (l_prev_ l) (l_parent_ l) (node_ts_ l) _ ∅ {[p]} _ _ _ Hlc (fun H => match not_elem_of_empty _ H with end)). Qed.
Lemma first_live : lo g <> 0 -> 0 ∈ live l.
Proof. intros Hlo. destruct leaf_facts as (Hlc & _). destruct (lc_first _ _ _ _ _ Hlc Hlo) as [_ [?|[?%not_elem_of_empty _]]]; done. Qed.
Section Searched.
Context (A B : list Z) (Hss : search_split l (akey_of rest) A B).
#[local] Abbreviation kp := (found_slot l (akey_of rest) B).
#[local] Abbreviation c1 := (with_position (Z.of_nat (length A)) kp c).
Lemma locked_split : search_split l1 (akey_of rest) A B.
Proof. destruct Hss. by split. Qed.
(** The leaf has room for the key. *)
Lemma room_ok : leaf_size l < 15 -> (forall q, q ∈ live l -> slot_key l q <> akey_of rest) ->
  exists l2, assign l1 (back node_width (permutation_ l)) (ka_ c) = Ok l2 /\ placed (upd p (NLeaf l2) s1) G E (with_state 2 (with_position (Z.of_nat (length A)) (back node_width (permutation_ l)) c1)) false str g l2 rest.
Proof.
  intros Hsz Habs. pose proof Hleaf as (Hg & _ & _ & Hl0 & Hx). destruct leaf_facts as (_ & Hs1 & Hfr & [Hv Hup _]). pose proof locked_content as [Hok Hh Hf].
  destruct (assign_ready 7 l1 (ka_ c) rest A B ltac:(lia) Hok Hsz Hka Hmax locked_split Habs) as (l2 & Hrun & Hsf & Hkeep & Hlive & Hrd). exists l2. split; [exact Hrun|]. pose proof Hsf as (F1 & F2 & F3 & F4 & F5 & F6 & F7).
  assert (Hlc2 : leaf_content E {[p]} p g l2).
  { split; [apply Hrd| |].
    - intros k x. rewrite <- Hh. split; intros (q & Hq & Hkq & Hcq); exists q; (split; [by rewrite Hlive in *|]); [rewrite Hlive in Hq|]; destruct (Hkeep q Hq) as [K1 K2]; split; congruence.
    - intros Hlo. pose proof (first_live Hlo) as H0. destruct (Hf Hlo) as [H1 _]. split; [|left; rewrite Hlive; exact H0]. destruct (Hkeep 0 H0) as [[= K1 _] _]. congruence. }
  apply mass_heap in Hs1 as [Ht Hheap]. split; try done.
  - apply mass_heap. split; [|by eapply heap_upd; [exact Hheap|apply upd_at]]. eapply (tree_write _ _ _ E E ∅ ∅ {[p]} {[p]}); [exact Ht|exact Hg|done|by left|]. split.
    + destruct Hv as (rt & Hv & Hrt). exists rt. cbn [node_version leaf_node] in *. rewrite F1. done.
    + cbn [node_parent] in *. by rewrite F6.
    + split; [|done]. destruct Hfr as [R1 R2 R3 R4]. split; [exact R1|by rewrite F2|by rewrite F5|by rewrite F4].
  - apply upd_at.
  - by exists A, B.
Qed.
Lemma full_ok lv' : leaf_size l = 15 -> (forall q, q ∈ live l -> slot_key l q <> akey_of rest) -> (base.size (mnodes s) <= lv')%nat ->
  exists c' s', finish_split lv' c1 s1 = Ok ((InsertMarker, c'), s') /\ placed_somewhere M str false (with_state 2 c') s'.
Proof.
  intros Hfull Habs Hlv'. pose proof Hleaf as (Hg & Hnl & _ & Hl0 & Hx). destruct leaf_facts as (_ & Hs1 & _).
  destruct (finish_split_ok s1 G E c1 g l1 rest A B Hs1 Hg (upd_at _ _ _) first_live Hx Hka locked_split Habs Hfull Hmax eq_refl lv') as (s' & G' & c' & Hrun & [W1 W2 W3 (g' & l' & A' & B' & W4 & W5 & W6 & W7 & W8)]).
  { unfold locked_state. by erewrite upd_size. }
  exists c', s'. split; [exact Hrun|]. exists G', E, g', l', rest. split; [split; try done; [by rewrite W5|by exists A', B']|]. by eapply (stands_same s).
Qed.
(** The key is in the leaf, with this suffix or another one. *)
Lemma found_ok r : 0 <= kp -> kp ∈ live l -> slot_key l kp = akey_of rest -> slot_content l kp = Some (CVal (drop 8 rest) r) -> placed s1 G E (with_state 3 c1) true str g l1 rest.
Proof.
  intros Hge Hin Hk Hc. pose proof Hleaf as (Hg & _ & _ & _ & Hx). destruct leaf_facts as (_ & Hs1 & _). split; try done; [apply upd_at|]. split; [exact Hin|]. split; [exact Hk|]. split; [exact first_live|]. by exists r.
Qed.
End Searched.

(** ** [check_leaf_insert] *)
Definition step_ok (st : next_step) (c' : tcursor) (s' : mass) : Prop :=
  match st with
  | FoundMarker => placed_somewhere M str true (with_state 3 c') s'
  | InsertMarker => placed_somewhere M str false (with_state 2 c') s'
  | NextRoot r => exists E' gr, mass_ok s' G E' ∅ /\ stands s' E' M /\ base.size (mnodes s') = base.size (mnodes s) /\ G !! r = Some gr /\ lo gr = 0
      /\ key_repr 7 (ka_ c') (drop 8 rest) /\ (8 < length rest)%nat /\ reach E' [] str (layer gr) (drop 8 rest)
  end.
Lemma next_ok c' res s' : next_layer s G E g rest res c' s' -> exists r w ka', res = (r, w, with_key ka' c') /\ r <> 0 /\ step_ok (NextRoot r) (with_key ka' c') s'.
Proof.
  intros (E' & r & w & ka' & gr & -> & Hr & Hs' & Hrows & Hsz & Hrl & Hgr & Hla & Hlo & Hka' & Hlong & link & Hlink). exists r, w, ka'. split; [done|]. split; [done|]. exists E', gr. split; [done|]. split; [eapply stands_same; [exact HM|done|intros; by eapply relink_found]|].
  do 5 (split; [done|]). rewrite Hla. eapply relink_reach; [exact Hrl|]. by eapply reach_snoc.
Qed.
Lemma absent_ok A B fuel root : search_split l (akey_of rest) A B -> found_slot l (akey_of rest) B = -1 -> (forall q, q ∈ live l -> slot_key l q <> akey_of rest) ->
  get_leaf_locked fuel levels c root (l_version l) s = Ok ((0, v, with_position (Z.of_nat (length A)) (-1) c), s1) ->
  exists c' s', check_leaf_insert fuel levels c root (l_version l) s = Ok ((InsertMarker, c'), s') /\ step_ok InsertMarker c' s'.
Proof.
  intros Hss Hm Habs Hrun. unfold check_leaf_insert. erewrite ST_bind_ok by exact Hrun. cbn iota beta. cbn [Z.eqb negb n_ kp_ ki_ ka_ with_position]. destruct leaf_facts as (Hlc & _ & Hfr & _). erewrite ST_bind_ok by (apply run_leaf, upd_at).
  change (0 <=? -1) with false. cbn iota. rewrite (lf_mod _ _ _ Hfr). change (modstate_insert =? modstate_deleted_layer) with false. cbn iota. rewrite Z.eqb_refl. cbn [negb]. erewrite ST_bind_ok by reflexivity. erewrite ST_bind_ok by (apply run_leaf, upd_at).
  destruct (lookup_lt_is_Some_2 (l_ikey0_ l) 0) as [b Hb]; [rewrite (sh_ikey0 _ (lo_shape _ (lc_ok _ _ _ _ _ Hlc))); lia|]. rewrite (ST_bind_ok (a := b) (s' := s1)).
  2:{ apply lift_ok. unfold ikey_bound, array_get. cbn [l_ikey0_ locked_leaf set_l_version]. rewrite decide_True by lia. change (Z.to_nat 0) with 0%nat. by rewrite Hb. }
  change (leaf_size l1) with (leaf_size l). change (permutation_ l1) with (permutation_ l). change (l_prev_ l1) with (l_prev_ l). change (leaf_size l <? node_width) with (leaf_size l <? 15). pose proof (size_range l (lo_perm _ (lc_ok _ _ _ _ _ Hlc))) as Hsr. destruct (Z.ltb_spec (leaf_size l) 15) as [Hsz|Hsz].
  - assert (Hor : negb (back node_width (permutation_ l) =? 0) || (l_prev_ l =? 0) || (b =? ikey0 (ka_ c)) = true).
    { destruct (Z.eq_dec (lo g) 0) as [Hlo|Hlo].
      - rewrite (proj2 (Z.eqb_eq (l_prev_ l) 0)); [by rewrite orb_true_r|]. by apply (lf_prev _ _ _ Hfr).
      - rewrite (proj2 (Z.eqb_neq _ 0)); [done|]. apply back_not_first; [apply Hlc|done|by apply first_live]. }
    rewrite Hor. cbn [andb]. destruct (room_ok A B Hss Hsz Habs) as (l2 & Hass & Hpl). rewrite Hm in Hpl. erewrite ST_bind_ok by (apply lift_ok; exact Hass). rewrite (ST_bind_ok (run_put_leaf _ _ _)). eexists _, _. split; [reflexivity|]. eexists G, E, g, l2, rest. split; [exact Hpl|exact HM].
  - cbn [andb]. assert (Hfull : leaf_size l = 15) by lia. rewrite <- Hm. destruct (full_ok A B Hss levels Hfull Habs ltac:(lia)) as (c' & s' & Hr & Hpl). exists c', s'. by split.
Qed.
Lemma check_leaf_insert_ok fuel root : (length rest < fuel)%nat -> exists st c' s', check_leaf_insert fuel levels c root (l_version l) s = Ok ((st, c'), s') /\ step_ok st c' s'.
Proof.
  intros Hfuel. destruct (get_leaf_locked_ok s G E Hs levels Hlv p g l (ka_ c) rest Hleaf Hka c root fuel eq_refl eq_refl ltac:(lia)) as (res & s' & A & B & Hrun & (Hss & _ & _ & Hcase) & Hres). cbn [kp_ with_position] in Hcase. destruct Hres as [Hnext|(-> & -> & Hnl)].
  - apply next_ok in Hnext as (r & w & ka' & -> & Hr & Hst). eexists (NextRoot r), _, s'. split; [|exact Hst]. unfold check_leaf_insert. erewrite ST_bind_ok by exact Hrun. cbn iota beta. rewrite (proj2 (Z.eqb_neq r 0)) by done. done.
  - destruct Hcase as [(Hm & He & Habs)|(Hge & Hin & Hk)]; [rewrite Hm in Hrun; exists InsertMarker; by eapply absent_ok|]. destruct leaf_facts as (Hlc & _). set (c1 := with_position _ _ c) in *. set (kp := found_slot l (akey_of rest) B) in *.
    destruct (slot_read l kp (ka_ c) rest (lc_ok _ _ _ _ _ Hlc) Hin Hk Hka) as (x & kl & w & Hc & _ & Hkl & _ & Hx). destruct x as [suf r|r]; [|by destruct (Hnl r Hge)]. destruct Hx as (_ & _ & Hks).
    assert (Hgo : check_leaf_insert fuel levels c root (l_version l) s = (if bool_decide (suf = drop 8 rest) then mret (FoundMarker, c1) else check_leaf_new_layer fuel c1 v) s1).
    { unfold check_leaf_insert. erewrite ST_bind_ok by exact Hrun. cbn iota beta. cbn [Z.eqb negb]. erewrite ST_bind_ok by (apply run_leaf, upd_at). change (kp_ c1) with kp. rewrite (proj2 (Z.leb_le 0 kp)) by lia. erewrite ST_bind_ok by (apply lift_ok; exact Hkl). erewrite ST_bind_ok by (apply lift_ok; exact Hks). done. }
    rewrite Hgo. case_bool_decide as Hsuf.
    + exists FoundMarker, c1, s1. split; [done|]. exists G, E, g, l1, rest. subst suf. split; [by eapply found_ok|exact HM].
    + destruct (new_layer_ok s G E p g l (ka_ c) str rest kp suf r fuel c1 M Hs Hleaf Hka Hre Hin Hk Hc Hsuf eq_refl eq_refl eq_refl Hfuel Hmax HM) as (c' & s' & G' & E' & g' & z & t & Hr & Hpl & HM'). exists InsertMarker, c', s'. split; [exact Hr|]. by exists G', E', g', z, t.
Qed.
End Leaf.

(** ** [find_insert] *)
Lemma find_insert_loop_ok G M str levels : forall fuel s E c root g rest, mass_ok s G E ∅ -> stands s E M -> (base.size (mnodes s) + 2 <= levels)%nat -> G !! root = Some g -> lo g = 0 ->
  key_repr 7 (ka_ c) rest -> reach E [] str (layer g) rest -> Z.of_nat (length rest) <= max_suffix -> (length rest + 1 < fuel)%nat ->
  exists fnd c' s', find_insert_loop fuel levels c root s = Ok ((fnd, c'), s') /\ placed_somewhere M str fnd c' s'.
Proof.
  induction fuel as [|fuel IH]; intros s E c root g rest Hs HM Hlv Hg Hlo Hka Hre Hmax Hf; [lia|]. cbn [find_insert_loop]. pose proof (slice_range rest (kr_ok _ _ _ Hka)) as Hx.
  destruct (reach_leaf_ok s G E (ms_tree _ _ _ _ Hs) _ (levels_enough s G E (ms_tree _ _ _ _ Hs)) root (ka_ c) levels g Hg Hlo ltac:(by rewrite (kr_ikey _ _ _ Hka)) Hlv) as (q & h & l & Hrun & Hleaf). rewrite (kr_ikey _ _ _ Hka) in Hleaf.
  assert (Hla : layer h = layer g) by apply Hleaf. rewrite <- Hla in Hleaf, Hre. erewrite ST_bind_ok by exact Hrun. cbn iota beta.
  destruct (check_leaf_insert_ok s G E Hs levels Hlv h l str rest (with_node q c) Hleaf Hka Hre Hmax M HM fuel root ltac:(lia)) as (st & c' & s' & Hr & Hst). erewrite ST_bind_ok by exact Hr. cbn iota beta. destruct st as [| |r].
  - eexists _, _, _. split; [reflexivity|exact Hst].
  - eexists _, _, _. split; [reflexivity|exact Hst].
  - destruct Hst as (E' & gr & Hs' & HM' & Hsz & Hgr & Hlor & Hka' & Hlong & Hre'). apply (IH s' E' c' r gr (drop 8 rest)); try done; [by rewrite Hsz|rewrite length_drop; lia|rewrite length_drop; lia].
Qed.
Lemma find_insert_ok s M levels fuel mem p len : masstree s M -> (base.size (mnodes s) + 2 <= levels)%nat -> Forall byte_ok mem -> 0 <= p -> 0 <= len <= max_suffix -> p + len + 7 <= Z.of_nat (length mem) -> len + 1 < Z.of_nat fuel ->
  exists c s0 fnd c' s', new_cursor levels mem p len s = Ok (c, s0) /\ find_insert fuel levels c s0 = Ok ((fnd, c'), s') /\ placed_somewhere M (string_at mem p len) fnd c' s'.
Proof.
  intros (G & E & Hs & HM) Hlv Hm Hp Hl Hr Hf. destruct (new_cursor_ok s G E levels mem p len Hs Hlv Hm Hp ltac:(lia) Hr) as (r & g & ka & Hfix & Hs' & Hg & Hla & Hlo & Hka & Hkr). assert (Hstr : Z.of_nat (length (string_at mem p len)) = len) by (rewrite string_at_length; lia).
  set (c := mkCursor 0 ka 0 0 r 0). destruct (find_insert_loop_ok G M (string_at mem p len) levels fuel (with_root r s) E c r g _ Hs' HM Hlv Hg Hlo Hkr) as (fnd & c' & s' & Hrun & Hpl); [rewrite Hla; apply reach_refl|lia|lia|].
  exists c, (with_root r s), fnd, c', s'. split; [|by split]. unfold new_cursor. erewrite ST_bind_ok by (apply lift_ok; exact Hka). erewrite ST_bind_ok by exact Hfix. done.
Qed.
