(* ===== verification/MassPut.v ===== *)
(** * The index of a Masstree as a map

    [put] and [put_uv] of [mtIndexAPI.hh] change one string of the map that a Masstree stands
    for, and an initialised table stands for the empty map. *)

From S2P Require Import Prelude Permuter KSearch NodeVersion MassKey MassBag MassNode MassTree MassLeaf MassSplit MassInv MassDict MassGet MassWrite MassFinish MassInner MassGhost MassParent MassRound MassClimb MassLink MassGrow MassLayer MassTwig MassPair MassBranch MassInsert.
#[local] Abbreviation P := nodeversion32_parameters.

(** ** Timestamps *)
Lemma advance_run x s : exists t, advance_timestamp x s = Ok (tt, set_ts t s).
Proof. unfold advance_timestamp, modify. destruct (circular_less (ti_ts s) x); [by exists x|]. exists (ti_ts s). by destruct s. Qed.
Lemma update_run x s : exists t, update_timestamp_to x s = Ok (t, set_ts t s).
Proof. unfold update_timestamp_to. destruct (circular_less_equal (ti_ts s) x); [by eexists|]. exists (ti_ts s). by destruct s. Qed.
(** The value of the cursor when the key is there. *)
Lemma cursor_value_run s c l suf r : mnodes s !! n_ c = Some (NLeaf l) -> 0 <= kp_ c < 15 -> slot_content l (kp_ c) = Some (CVal suf r) -> cursor_value c s = Ok (r, s).
Proof.
  intros Hn Hr Hc. unfold cursor_value. erewrite ST_bind_ok by (by apply run_leaf). rewrite (ST_bind_ok (a := LvValue r) (s' := s)); [done|]. apply lift_ok. unfold array_get. rewrite decide_True by lia. by rewrite (slot_value _ _ _ _ Hc).
Qed.
Definition without_row (r : Z) (s : mass) : mass := mkMass (mnodes s) (delete r (mrows s)) (mbrk s) (mroot s) (ti_ts s).
Lemma then_ret {A B} (m : MM A) (k : A -> MM unit) (f : MM unit) (b : B) s s' : (x ← m; k x;; f) s = Ok (tt, s') -> (x ← m; k x;; f;; mret b) s = Ok (b, s').
Proof.
  unfold mbind, ST_bind. destruct (m s) as [[x s1]|]; [|done]. destruct (k x s1) as [[[] s2]|]; [|done]. by intros ->.
Qed.
Lemma store_then {X} (A : Prop) (Q R : X -> Prop) : A -> (exists x, Q x /\ R x) -> exists x, A /\ Q x /\ R x.
Proof. intros HA (x & HQ & HR). by exists x. Qed.
Section Put.
Context (M : gmap (list Z) (list Z)) (str : list Z) (Hstr : Forall byte_ok str) (value : list Z) (Hval : Z.of_nat (length value) < 65530).
(** A key that is new. *)
Lemma put_new c s : placed_somewhere M str false c s -> exists l t s', get_leaf (n_ c) s = Ok (l, s) /\ advance_timestamp (node_ts_ l) s = Ok (tt, set_ts t s) /\ (row ← allocate_row (create1 value t); set_cursor_value c row;; finish 1 c) (set_ts t s) = Ok (tt, s') /\ masstree s' (<[str := value]> M).
Proof.
  intros (G & E & g & l & rest & Hp & HM). destruct (advance_run (node_ts_ l) s) as [t Ht]. destruct (store_ok s G E c false str g l rest Hp Hstr (set_ts t s) M value t HM) as (s' & Hrun & Hms); try done; [intros x Hx; by apply (ms_fresh _ _ _ _ (pl_mass _ _ _ _ _ _ _ _ _ Hp))|]. exists l, t, s'. split; [apply run_leaf, Hp|by split_and!].
Qed.
(** A key that is there: its row is freed, and another one takes its place. *)
Lemma put_old c s : placed_somewhere M str true c s -> exists ts s2 s', (r ← cursor_value c; row ← get_row r; ts ← update_timestamp_to (row_ts row); deallocate_row r;; mret ts) s = Ok (ts, s2) /\ (row ← allocate_row (create1 value ts); set_cursor_value c row;; finish 1 c) s2 = Ok (tt, s') /\ masstree s' (<[str := value]> M).
Proof.
  intros (G & E & g & l & rest & Hp & HM). pose proof (pl_mass _ _ _ _ _ _ _ _ _ Hp) as Hm. destruct (placed_entry s G E c true str g l rest Hp Hstr) as (r & He & Hc). destruct (ms_rows _ _ _ _ Hm _ _ _ _ He) as (row & val & Hrow & _).
  destruct (slot_in_range s G E c true str g l rest Hp Hstr) as [Hr _]. destruct (update_run (row_ts row) s) as [t Ht]. exists t, (without_row r (set_ts t s)). apply store_then.
  { erewrite ST_bind_ok by (eapply cursor_value_run; [apply Hp|exact Hr|exact Hc]). rewrite (ST_bind_ok (a := row) (s' := s)) by (unfold get_row; by rewrite Hrow). erewrite ST_bind_ok by exact Ht. by rewrite (ST_bind_ok (a := tt) (s' := without_row r (set_ts t s))) by (unfold deallocate_row; cbn [mrows set_ts]; by rewrite Hrow). }
  apply (store_ok s G E c true str g l rest Hp Hstr (without_row r (set_ts t s)) M value _ HM); try done.
  - intros x Hx. cbn [mrows without_row set_ts]. apply lookup_delete_None. right. by apply (ms_fresh _ _ _ _ Hm).
  - intros b suf x Hb Hne. cbn [mrows without_row set_ts]. apply lookup_delete_ne. intros ->. apply Hne. by eapply (ms_inj _ _ _ _ Hm).
Qed.
Lemma put_uv_old c s : placed_somewhere M str true c s -> exists s', finish 1 c s = Ok (tt, s') /\ masstree s' M /\ is_Some (M !! str).
Proof.
  intros (G & E & g & l & rest & Hp & HM). pose proof (pl_mass _ _ _ _ _ _ _ _ _ Hp) as Hm. destruct (pl_slot _ _ _ _ _ _ _ _ _ Hp) as (_ & _ & H0 & _). unfold finish. rewrite (pl_state _ _ _ _ _ _ _ _ _ Hp). change ((0 <? 1) && (3 =? 2)) with false. cbn iota. erewrite ST_bind_ok by reflexivity.
  destruct (node_unlock_ok s G G E ∅ {[n_ c]} (n_ c) g (NLeaf l) (ms_tree _ _ _ _ Hm) (pl_ghost _ _ _ _ _ _ _ _ _ Hp) (pl_leaf _ _ _ _ _ _ _ _ _ Hp) ltac:(set_solver)) as [Hrun Ht]; [intros x [= <-] _; exact H0|].
  rewrite difference_diag_L in Ht. eexists. split; [unfold nb_unlock_this; erewrite ST_bind_ok by (apply run_version; apply Hp); exact Hrun|]. split.
  - exists G, E. split; [|exact HM]. apply mass_heap. split; [exact Ht|]. apply mass_heap in Hm as [_ Hh]. eapply heap_upd; [exact Hh|apply Hp].
  - destruct (placed_entry s G E c true str g l rest Hp Hstr) as (r & He & _). destruct (ms_rows _ _ _ _ Hm _ _ _ _ He) as (row & val & Hrow & Hcol). exists val. apply HM. split; [done|]. exists r, row. split; [|done]. eapply reach_found; [apply Hp|]. by apply found_here.
Qed.
Lemma put_uv_absent c s : placed_somewhere M str false c s -> M !! str = None.
Proof.
  intros (G & E & g & l & rest & Hp & HM). pose proof (placed_entry s G E c false str g l rest Hp Hstr) as He. cbn iota in He. apply eq_None_not_Some. intros [val (_ & r & row & Hf & _)%HM].
  assert (Hr : found E (layer g) rest r).
  { pose proof (pl_reach _ _ _ _ _ _ _ _ _ Hp) as Hre. clear -Hre Hf. induction Hre as [|pi s link pi' s' Hl Hre IH]; [done|]. inversion Hf as [? ? ? He|? ? ? ? He Hf']; subst; [congruence|]. by apply IH. }
  inversion Hr as [? ? ? He'|? ? ? ? He']; subst; congruence.
Qed.
End Put.

(** ** An empty table *)
Definition empty_table : mass := mkMass {[64 := NLeaf (root_leaf 0 0)]} ∅ 128 64 0.
Lemma empty_leaf : leaf_ok (root_leaf 0 0) /\ live (root_leaf 0 0) = [].
Proof.
  assert (Hl : live (root_leaf 0 0) = []) by (by vm_compute). split; [|done]. split; [by apply root_shape|apply (make_sorted_ok node_width ltac:(unfold node_width; lia) 0); unfold node_width; lia| |]; rewrite Hl; [by intros p ?%elem_of_nil|done].
Qed.
Lemma initialize_ok : table_initialize new_table = Ok (tt, empty_table) /\ masstree empty_table ∅.
Proof.
  split; [by vm_compute|]. set (g := mkG [] 0 0 (2 ^ 64) 0). exists {[64 := g]}, ∅. destruct empty_leaf as [Hok Hlive].
  assert (Hone : forall q (h : ghost), ({[64 := g]} : ghosts) !! q = Some h -> q = 64 /\ h = g) by (intros q h [<- <-]%lookup_singleton_Some; done). split.
  - apply mass_heap. split; [split|split].
    + intros q. cbn [mnodes empty_table]. destruct (decide (q = 64)) as [->|Hq]; [rewrite !lookup_singleton_eq; split; eauto|]. rewrite !lookup_singleton_ne by done. done.
    + by intros q [h [-> _]%Hone].
    + intros q h n [-> ->]%Hone Hn. cbn [mnodes empty_table] in Hn. rewrite lookup_singleton_eq in Hn. injection Hn as <-. apply (root_node _ _ _ _ _ _ _ _ false); try exact (ver_new_root true); try done. intros _. split; [done|]. intros k c. split; [intros (q & Hq & _); rewrite Hlive in Hq; by apply elem_of_nil in Hq|]. by rewrite lookup_empty.
    + intros q h [_ ->]%Hone. done.
    + intros q1 q2 h1 h2 x [-> _]%Hone [-> _]%Hone. done.
    + intros q h Hq. by exists h.
    + intros q h [_ ->]%Hone. done.
    + intros q h pi x [_ ->]%Hone Hx. by destruct pi.
    + intros pi k r. by rewrite lookup_empty.
    + intros pi k c. by rewrite lookup_empty.
    + exists g. cbn [mroot empty_table]. by rewrite lookup_singleton_eq.
    + done.
    + intros q Hq. cbn [mbrk mnodes mrows empty_table] in *. rewrite lookup_singleton_ne by lia. done.
    + intros pi k suf r. by rewrite lookup_empty.
    + intros a b suf suf' r. by rewrite lookup_empty.
  - intros str v. rewrite lookup_empty. split; [done|]. intros (_ & r & row & Hf & _). apply found_entry in Hf as (pi & k & suf & He). by rewrite lookup_empty in He.
Qed.

(** ** The index *)
Lemma put_ok s M mem p len value fuel levels : masstree s M -> Forall byte_ok mem -> 0 <= p -> 0 <= len <= max_suffix -> p + len + 7 <= Z.of_nat (length mem) -> Z.of_nat (length value) < 65530 ->
  len + 1 < Z.of_nat fuel -> (base.size (mnodes s) + 2 <= levels)%nat -> exists s', put fuel levels mem p len value s = Ok (tt, s') /\ masstree s' (<[string_at mem p len := value]> M).
Proof.
  intros Hs Hm Hp Hl Hr Hv Hf Hlv. destruct (find_insert_ok s M levels fuel mem p len Hs Hlv Hm Hp Hl Hr Hf) as (c & s0 & fnd & c' & s1 & Hc & Hfi & Hpl). pose proof (string_at_ok mem p len Hm) as Hstr.
  unfold put. erewrite ST_bind_ok by exact Hc. erewrite ST_bind_ok by exact Hfi. cbn iota beta. destruct fnd; cbn [negb].
  - destruct (put_old M _ Hstr value Hv c' s1 Hpl) as (ts & s2 & s' & Hts & Hrun & Hms). exists s'. split; [|done]. erewrite ST_bind_ok by exact Hts. exact Hrun.
  - destruct (put_new M _ Hstr value Hv c' s1 Hpl) as (l & t & s' & Hgl & Had & Hrun & Hms). exists s'. split; [|done]. rewrite (ST_bind_ok (a := t) (s' := set_ts t s1)); [exact Hrun|]. erewrite ST_bind_ok by exact Hgl. by erewrite ST_bind_ok by exact Had.
Qed.
(** C4: [put] of the index, called by one thread on a key of at most 2040 bytes with seven readable
    bytes behind it and a value of less than 65530 bytes, terminates without a fault, and the
    table then stands for the same map with the value for the key, whether the key was there,
    got a free slot, split nodes up to the root, or made new layers. *)
Theorem put_correct s M mem p len value fuel levels : masstree s M -> Forall byte_ok mem -> 0 <= p -> 0 <= len <= max_suffix -> p + len + 7 <= Z.of_nat (length mem) -> Z.of_nat (length value) < 65530 ->
  len + 1 < Z.of_nat fuel -> (base.size (mnodes s) + 2 <= levels)%nat -> exists s', put fuel levels mem p len value s = Ok (tt, s') /\ masstree s' (<[string_at mem p len := value]> M).
Proof. exact (put_ok s M mem p len value fuel levels). Qed.
Lemma put_uv_ok s M mem p len value fuel levels : masstree s M -> Forall byte_ok mem -> 0 <= p -> 0 <= len <= max_suffix -> p + len + 7 <= Z.of_nat (length mem) -> Z.of_nat (length value) < 65530 ->
  len + 1 < Z.of_nat fuel -> (base.size (mnodes s) + 2 <= levels)%nat ->
  exists s', put_uv fuel levels mem p len value s = Ok (bool_decide (M !! string_at mem p len = None), s') /\ masstree s' (if decide (M !! string_at mem p len = None) then <[string_at mem p len := value]> M else M).
Proof.
  intros Hs Hm Hp Hl Hr Hv Hf Hlv. destruct (find_insert_ok s M levels fuel mem p len Hs Hlv Hm Hp Hl Hr Hf) as (c & s0 & fnd & c' & s1 & Hc & Hfi & Hpl). pose proof (string_at_ok mem p len Hm) as Hstr.
  unfold put_uv. erewrite ST_bind_ok by exact Hc. erewrite ST_bind_ok by exact Hfi. cbn iota beta. destruct fnd.
  - destruct (put_uv_old M _ Hstr value Hv c' s1 Hpl) as (s' & Hrun & Hms & [val Hval]). exists s'. erewrite ST_bind_ok by exact Hrun. by rewrite Hval.
  - pose proof (put_uv_absent M _ Hstr c' s1 Hpl) as Habs. destruct (put_new M _ Hstr value Hv c' s1 Hpl) as (l & t & s' & Hgl & Had & Hrun & Hms). exists s'. rewrite Habs. split; [|done].
    erewrite ST_bind_ok by exact Hgl. erewrite ST_bind_ok by exact Had. erewrite ST_bind_ok by reflexivity. by apply then_ret.
Qed.
(** C5: [put_uv] inserts a key that is not there and returns true, and otherwise changes
    nothing of the map and returns false. *)
Theorem put_uv_correct s M mem p len value fuel levels : masstree s M -> Forall byte_ok mem -> 0 <= p -> 0 <= len <= max_suffix -> p + len + 7 <= Z.of_nat (length mem) -> Z.of_nat (length value) < 65530 ->
  len + 1 < Z.of_nat fuel -> (base.size (mnodes s) + 2 <= levels)%nat ->
  exists s', put_uv fuel levels mem p len value s = Ok (bool_decide (M !! string_at mem p len = None), s') /\ masstree s' (if decide (M !! string_at mem p len = None) then <[string_at mem p len := value]> M else M).
Proof. exact (put_uv_ok s M mem p len value fuel levels). Qed.
