(* ===== verification/MassIndex.v ===== *)
(** * A Masstree under requests

    Sequences of [put], [put_uv] and [get] on a table that [table_initialize] has made, against
    a finite map from byte strings to values.  The fuel of an operation is a function of the
    key and of the number of nodes, so no bound on the sequence is needed. *)

From S2P Require Import Prelude Permuter KSearch NodeVersion MassKey MassBag MassNode MassTree MassLeaf MassSplit MassInv MassDict MassGet MassWrite MassFinish MassPut.

Inductive request : Type := Put (key value : list Z) | PutUv (key value : list Z) | Get (key : list Z).
Inductive answer : Type := Done | Inserted (new : bool) | Value (v : option (list Z)).
(** A key in memory, with the bytes behind it that [key] may read. *)
Definition key_memory (k : list Z) : list Z := k ++ replicate 7 0.
Definition serve (q : request) : MM answer := fun s =>
  let levels := (base.size (mnodes s) + 2)%nat in
  match q with
  | Put k v => (put (length k + 2) levels (key_memory k) 0 (Z.of_nat (length k)) v;; mret Done) s
  | PutUv k v => (b ← put_uv (length k + 2) levels (key_memory k) 0 (Z.of_nat (length k)) v; mret (Inserted b)) s
  | Get k => (v ← mt_get (length k + 2) levels (key_memory k) 0 (Z.of_nat (length k)); mret (Value v)) s
  end.
Fixpoint serve_all (qs : list request) : MM (list answer) :=
  match qs with [] => mret [] | q :: qs => a ← serve q; l ← serve_all qs; mret (a :: l) end.
(** The specification: a map. *)
Abbreviation byte_map := (gmap (list Z) (list Z)).
Definition serve_spec (q : request) (M : byte_map) : answer * byte_map :=
  match q with
  | Put k v => (Done, <[k := v]> M)
  | PutUv k v => if decide (M !! k = None) then (Inserted true, <[k := v]> M) else (Inserted false, M)
  | Get k => (Value (M !! k), M)
  end.
Fixpoint serve_all_spec (qs : list request) (M : byte_map) : list answer * byte_map :=
  match qs with [] => ([], M) | q :: qs => let (a, M) := serve_spec q M in let (l, M) := serve_all_spec qs M in (a :: l, M) end.
Definition bytes (l : list Z) : bool := forallb (fun b => (0 <=? b) && (b <? 256)) l.
Definition key_fits (k : list Z) : bool := bytes k && (Z.of_nat (length k) <=? max_suffix).
Definition value_fits (v : list Z) : bool := Z.of_nat (length v) <? 65530.
Definition request_fits (q : request) : bool :=
  match q with Put k v | PutUv k v => key_fits k && value_fits v | Get k => key_fits k end.

Lemma key_memory_string k : string_at (key_memory k) 0 (Z.of_nat (length k)) = k.
Proof. unfold string_at, key_memory. change (Z.to_nat 0) with 0%nat. rewrite drop_0, Nat2Z.id. apply take_app_length. Qed.
Lemma key_fits_spec k : key_fits k = true -> Forall byte_ok (key_memory k) /\ Z.of_nat (length k) <= max_suffix /\ 0 + Z.of_nat (length k) + 7 <= Z.of_nat (length (key_memory k)).
Proof.
  unfold key_fits, bytes. rewrite andb_true_iff, forallb_forall, Z.leb_le. intros [Hb Hl]. split; [|split; [done|unfold key_memory; rewrite length_app; simpl; lia]]. unfold key_memory. apply Forall_app. split.
  - apply Forall_forall. intros x Hx%list_elem_of_In. apply Hb in Hx. rewrite andb_true_iff, Z.leb_le, Z.ltb_lt in Hx. exact Hx.
  - apply Forall_forall. intros x ->%elem_of_replicate_inv. unfold byte_ok. lia.
Qed.
Lemma serve_ok q s M : request_fits q = true -> masstree s M -> exists s', serve q s = Ok ((serve_spec q M).1, s') /\ masstree s' (serve_spec q M).2.
Proof.
  intros Hq Hs. destruct q as [k v|k v|k]; cbn [request_fits] in Hq; [apply andb_true_iff in Hq as [Hk Hv]; apply Z.ltb_lt in Hv|apply andb_true_iff in Hq as [Hk Hv]; apply Z.ltb_lt in Hv|rename Hq into Hk].
  all: destruct (key_fits_spec k Hk) as (Hb & Hl & Hr); unfold serve; cbn [serve_spec].
  - destruct (put_ok s M (key_memory k) 0 (Z.of_nat (length k)) v (length k + 2) (base.size (mnodes s) + 2)) as (s' & Hrun & Hms); try done; try lia. rewrite key_memory_string in Hms. exists s'. by erewrite ST_bind_ok by exact Hrun.
  - destruct (put_uv_ok s M (key_memory k) 0 (Z.of_nat (length k)) v (length k + 2) (base.size (mnodes s) + 2)) as (s' & Hrun & Hms); try done; try lia. rewrite key_memory_string in *. exists s'. erewrite ST_bind_ok by exact Hrun. case_decide as Hd; [by rewrite bool_decide_eq_true_2|by rewrite bool_decide_eq_false_2].
  - destruct (mt_get_ok s M (key_memory k) 0 (Z.of_nat (length k)) (length k + 2) (base.size (mnodes s) + 2)) as (r & Hrun & Hms); try done; try lia. rewrite key_memory_string in Hrun. exists (with_root r s). by erewrite ST_bind_ok by exact Hrun.
Qed.
Lemma serve_all_ok qs : forall s M, forallb request_fits qs = true -> masstree s M -> exists s', serve_all qs s = Ok ((serve_all_spec qs M).1, s') /\ masstree s' (serve_all_spec qs M).2.
Proof.
  induction qs as [|q qs IH]; intros s M Hqs Hs; [by exists s|]. cbn [forallb] in Hqs. apply andb_true_iff in Hqs as [Hq Hqs]. destruct (serve_ok q s M Hq Hs) as (s1 & Hrun & Hs1). cbn [serve_all serve_all_spec].
  destruct (serve_spec q M) as [a M1]. destruct (IH s1 M1 Hqs Hs1) as (s2 & Hrun2 & Hs2). destruct (serve_all_spec qs M1) as [l M2]. exists s2. split; [|done]. erewrite ST_bind_ok by exact Hrun. by erewrite ST_bind_ok by exact Hrun2.
Qed.
(** C3: the Masstree index refines a map: after [table_initialize] every sequence of [put],
    [put_uv] and [get] runs without a fault and answers as a finite map from byte strings to
    values does, through splits, new roots and new layers; keys have at most 2040 bytes and
    values less than 65530. *)
Theorem index_refines qs : forallb request_fits qs = true ->
  exists s', (table_initialize;; serve_all qs) new_table = Ok ((serve_all_spec qs ∅).1, s') /\ masstree s' (serve_all_spec qs ∅).2.
Proof. intros Hqs. destruct initialize_ok as [Hinit Hs]. destruct (serve_all_ok qs empty_table ∅ Hqs Hs) as (s' & Hrun & Hms). exists s'. split; [|done]. by erewrite ST_bind_ok by exact Hinit. Qed.
(** Twenty keys in one layer, two with a long common beginning, lookups and an update. *)
Definition long_key (b : Z) : list Z := replicate 20 7 ++ [b].
Definition some_requests : list request :=
  ((fun i => Put [i; 2; 3] [i]) <$> seqZ 0 20) ++ [Put (long_key 1) [10]; Put (long_key 2) [20]; PutUv (long_key 1) [30]; PutUv [5] [50]; Put [3; 2; 3] [4]; Get [3; 2; 3]; Get (long_key 2); Get (long_key 3); Get []].
Example index_refines_witness : forallb request_fits some_requests = true /\ exists s', (table_initialize;; serve_all some_requests) new_table
  = Ok (replicate 22 Done ++ [Inserted false; Inserted true; Done; Value (Some [4]); Value (Some [20]); Value None; Value None], s').
Proof.
  assert (Hq : forallb request_fits some_requests = true) by (vm_compute; reflexivity). split; [exact Hq|]. destruct (index_refines some_requests Hq) as (s' & Hrun & _). exists s'. rewrite Hrun. vm_compute. reflexivity.
Defined.
(** What the table is afterwards: nodes and rows. *)
Example requests_nodes : match (table_initialize;; serve_all some_requests) new_table with Ok (_, s) => (base.size (mnodes s), base.size (mrows s)) | Fault _ => (0, 0)%nat end = (6, 23)%nat.
Proof. vm_compute. reflexivity. Qed.
(** A row is freed when it is replaced: a reader that has found it before, and reads it after,
    finds freed memory. *)
Theorem row_freed_under_reader : exists s r s1 s2, (table_initialize;; serve (Put [1] [10])) new_table = Ok (Done, s)
  /\ lookup_row 3 3 (key_memory [1]) 0 1 s = Ok (Some r, s1) /\ serve (Put [1] [20]) s1 = Ok (Done, s2) /\ get_row r s2 = Fault NullDeref.
Proof.
  destruct ((table_initialize;; serve (Put [1] [10])) new_table) as [[a s]|] eqn:H1; [|by vm_compute in H1]. vm_compute in H1. injection H1 as <- <-. eexists _, _, _, _. split; [reflexivity|]. split; [vm_compute; reflexivity|]. split; vm_compute; reflexivity.
Qed.
(** A table with one key, for the operations one by one. *)
Lemma one_key : exists s, masstree s {[long_key 1 := [10]]}.
Proof. destruct initialize_ok as [_ Hs]. destruct (serve_ok (Put (long_key 1) [10]) empty_table ∅ eq_refl Hs) as (s & _ & Hms). by exists s. Qed.
Lemma long_key_fits b : 0 <= b < 256 -> Forall byte_ok (key_memory (long_key b)).
Proof. intros Hb. unfold key_memory, long_key. repeat (apply Forall_app; split); [apply Forall_replicate; unfold byte_ok; lia|by apply Forall_singleton|apply Forall_replicate; unfold byte_ok; lia]. Qed.
Example mt_get_correct_witness : exists s r, masstree s {[long_key 1 := [10]]} /\ mt_get 30 (base.size (mnodes s) + 2) (key_memory (long_key 1)) 0 21 s = Ok (Some [10], with_root r s).
Proof.
  destruct one_key as [s Hs]. destruct (mt_get_correct s _ (key_memory (long_key 1)) 0 21 30 (base.size (mnodes s) + 2) Hs (long_key_fits 1 ltac:(lia)) ltac:(lia) ltac:(lia) ltac:(vm_compute; done) ltac:(lia) ltac:(lia)) as (r & Hrun & _).
  exists s, r. split; [exact Hs|]. rewrite Hrun. change (string_at _ 0 21) with (long_key 1). by rewrite lookup_singleton_eq.
Defined.
Example put_correct_witness : exists s s', masstree s {[long_key 1 := [10]]} /\ put 30 (base.size (mnodes s) + 2) (key_memory (long_key 2)) 0 21 [20] s = Ok (tt, s') /\ masstree s' (<[long_key 2 := [20]]> {[long_key 1 := [10]]}).
Proof.
  destruct one_key as [s Hs]. destruct (put_correct s _ (key_memory (long_key 2)) 0 21 [20] 30 (base.size (mnodes s) + 2) Hs (long_key_fits 2 ltac:(lia)) ltac:(lia) ltac:(unfold max_suffix; lia) ltac:(vm_compute; done) ltac:(simpl; lia) ltac:(lia) ltac:(lia)) as (s' & Hrun & Hms).
  exists s, s'. split; [exact Hs|]. split; [exact Hrun|exact Hms].
Defined.
Example put_uv_correct_witness : exists s s', masstree s {[long_key 1 := [10]]} /\ put_uv 30 (base.size (mnodes s) + 2) (key_memory (long_key 1)) 0 21 [20] s = Ok (false, s') /\ masstree s' {[long_key 1 := [10]]}.
Proof.
  destruct one_key as [s Hs]. destruct (put_uv_correct s _ (key_memory (long_key 1)) 0 21 [20] 30 (base.size (mnodes s) + 2) Hs (long_key_fits 1 ltac:(lia)) ltac:(lia) ltac:(unfold max_suffix; lia) ltac:(vm_compute; done) ltac:(simpl; lia) ltac:(lia) ltac:(lia)) as (s' & Hrun & Hms).
  exists s, s'. split; [exact Hs|]. change (string_at _ 0 21) with (long_key 1) in *. rewrite lookup_singleton_eq in Hrun, Hms. split; [exact Hrun|exact Hms].
Defined.
