(* ===== verification/MassClient.v ===== *)
(** * The Masstree benchmark

    What a worker of the Masstree benchmark ([thread_benchmark.cpp]) does for a tuple: keys
    of 64 bits become strings of eight bytes, most significant byte first, so that the order
    of the strings is that of the numbers; values are the eight bytes of an [int64_t] as they
    lie in memory.  With this the table keeps the laws of [Clients], so the theorem on
    workloads holds of Masstree too; a lookup of a key that is not there reads through the
    null pointer of an empty [Str]. *)

From S2P Require Import Prelude Permuter KSearch NodeVersion MassKey MassBag MassNode MassTree MassLeaf MassSplit MassInv MassDict MassGet MassWrite MassFinish MassPut MassIndex.
From S2P Require Import Workload CoreConfig Driver Clients.

(** ** What the worker hands to the tree *)
(** The memory of [__bswap_64(tuple.key())]. *)
Definition key_bytes (k : Z) : list Z := le_bytes 8 (byteswap k).
(** The memory of [tuple.value()]. *)
Definition value_bytes (v : Z) : list Z := le_bytes 8 (u64 v).
Definition read_value (bs : list Z) : outcome Z := b ← MassKey.load bs 0 8; Ok (signed 64 (le_word b)).
Definition mass_put (k v : Z) : MM unit := fun s =>
  put 10 (base.size (mnodes s) + 2) (key_memory (key_bytes k)) 0 8 (value_bytes v) s.
(** [Str value] starts out with a null pointer, and [get] leaves it alone when it finds nothing. *)
Definition mass_lookup (k : Z) : MM Z := fun s =>
  (r ← mt_get 10 (base.size (mnodes s) + 2) (key_memory (key_bytes k)) 0 8;
   match r with Some bs => lift (read_value bs) | None => lift (Fault NullDeref) end) s.
#[export] Instance mass_index : Index mass := { idx_insert := mass_put; idx_update := mass_put; idx_find := mass_lookup }.

(** ** Bytes *)
Lemma le_bytes_length n : forall x, length (le_bytes n x) = n.
Proof. induction n as [|n IH]; intros x; simpl; [done|by rewrite IH]. Qed.
Lemma le_bytes_bytes n : forall x, Forall byte_ok (le_bytes n x).
Proof. induction n as [|n IH]; intros x; simpl; constructor; [|done]. unfold byte_ok. apply Z.mod_pos_bound. lia. Qed.
Lemma le_word_bytes n : forall x, 0 <= x < 256 ^ Z.of_nat n -> le_word (le_bytes n x) = x.
Proof.
  induction n as [|n IH]; intros x Hx; [simpl in *; lia|]. rewrite Nat2Z.inj_succ, Z.pow_succ_r in Hx by lia.
  cbn [le_bytes le_word foldr]. fold (le_word (le_bytes n (x / 256))).
  rewrite IH by (split; [apply Z.div_pos; lia|apply Z.div_lt_upper_bound; lia]).
  pose proof (Z.div_mod x 256 ltac:(lia)). lia.
Qed.
Lemma key_bytes_reverse k : key_bytes k = reverse (le_bytes 8 k).
Proof.
  unfold key_bytes, byteswap. replace 8%nat with (length (reverse (le_bytes 8 k))) at 1 by (rewrite length_reverse; apply le_bytes_length).
  apply le_bytes_word, Forall_reverse, le_bytes_bytes.
Qed.
Lemma key_bytes_inj k k' : 0 <= k <= max_u64 -> 0 <= k' <= max_u64 -> key_bytes k = key_bytes k' -> k = k'.
Proof.
  unfold max_u64. rewrite !key_bytes_reverse. intros Hk Hk' E%(inj reverse).
  rewrite <- (le_word_bytes 8 k), <- (le_word_bytes 8 k') by (simpl; lia). by rewrite E.
Qed.
Lemma key_bytes_length k : length (key_bytes k) = 8%nat.
Proof. apply le_bytes_length. Qed.
Lemma value_bytes_length v : length (value_bytes v) = 8%nat.
Proof. apply le_bytes_length. Qed.
Lemma read_value_bytes v : - 2 ^ 63 <= v < 2 ^ 63 -> read_value (value_bytes v) = Ok v.
Proof.
  intros Hv. unfold read_value. rewrite load_ok by (rewrite ?value_bytes_length; lia). unfold string_at. rewrite drop_0, take_ge by (rewrite value_bytes_length; lia).
  unfold mbind, outcome_bind, value_bytes. rewrite le_word_bytes by (unfold u64, wrap; apply Z.mod_pos_bound; lia).
  f_equal. unfold signed, u64, wrap. change (64 - 1) with 63. rewrite Zplus_mod_idemp_l, Z.mod_small by lia. lia.
Qed.
(** The key in memory, as [put] and [get] want it. *)
Lemma key_bytes_memory k : Forall byte_ok (key_memory (key_bytes k)) /\ string_at (key_memory (key_bytes k)) 0 8 = key_bytes k
  /\ Z.of_nat (length (key_memory (key_bytes k))) = 15.
Proof.
  split; [|split].
  - unfold key_memory. apply Forall_app. split; [apply le_bytes_bytes|apply Forall_replicate; unfold byte_ok; lia].
  - rewrite <- (key_memory_string (key_bytes k)) at 2. by rewrite key_bytes_length.
  - unfold key_memory. by rewrite length_app, key_bytes_length.
Qed.

(** ** The table as a map of numbers *)
Record stands_for (M : byte_map) (m : gmap Z Z) : Prop := {
  sf_keys bs : is_Some (M !! bs) -> exists k, 0 <= k < max_u64 /\ bs = key_bytes k;
  sf_lookup k : 0 <= k < max_u64 -> M !! key_bytes k = value_bytes <$> m !! k;
  sf_dom k v : m !! k = Some v -> 0 <= k < max_u64 /\ - 2 ^ 63 <= v < 2 ^ 63 }.
Definition mass_rep (s : mass) (m : gmap Z Z) : Prop := exists M, masstree s M /\ stands_for M m.

Lemma stands_for_empty : stands_for ∅ ∅.
Proof. split; [intros bs [x Hx]|intros k _|intros k v Hv]; rewrite ?lookup_empty in *; done. Qed.
Lemma stands_for_insert M m k v : stands_for M m -> 0 <= k < max_u64 -> - 2 ^ 63 <= v < 2 ^ 63 ->
  stands_for (<[key_bytes k := value_bytes v]> M) (<[k := v]> m).
Proof.
  intros [Hkeys Hlook Hdom] Hk Hv. split.
  - intros bs [x [[<- _]|[_ Hx]]%lookup_insert_Some]; eauto.
  - intros k' Hk'. destruct (decide (k' = k)) as [->|Hne]; [by rewrite !lookup_insert_eq|].
    rewrite !lookup_insert_ne, Hlook; [done|done|done|]. intros E%key_bytes_inj; [done|lia|lia].
  - intros k' v' [[<- <-]|[_ Hx]]%lookup_insert_Some; eauto.
Qed.

Lemma mass_put_ok s m k v : mass_rep s m -> 0 <= k < max_u64 -> - 2 ^ 63 <= v < 2 ^ 63 ->
  exists s', mass_put k v s = Ok (tt, s') /\ mass_rep s' (<[k := v]> m).
Proof.
  intros (M & Hs & HM) Hk Hv. destruct (key_bytes_memory k) as (Hb & Hstr & Hlen).
  destruct (put_ok s M (key_memory (key_bytes k)) 0 8 (value_bytes v) 10 (base.size (mnodes s) + 2)) as (s' & Hrun & Hms);
    rewrite ?value_bytes_length, ?Hlen; try done; try lia.
  rewrite Hstr in Hms. exists s'. split; [exact Hrun|]. eexists. split; [exact Hms|]. by apply stands_for_insert.
Qed.
Lemma mass_get_ok s M k : masstree s M -> exists s', masstree s' M
  /\ mt_get 10 (base.size (mnodes s) + 2) (key_memory (key_bytes k)) 0 8 s = Ok (M !! key_bytes k, s').
Proof.
  intros Hs. destruct (key_bytes_memory k) as (Hb & Hstr & Hlen).
  destruct (mt_get_ok s M (key_memory (key_bytes k)) 0 8 10 (base.size (mnodes s) + 2)) as (r & Hrun & Hms);
    rewrite ?Hlen; try done; try lia.
  rewrite Hstr in Hrun. by exists (with_root r s).
Qed.
Lemma mass_lookup_ok s m k v : mass_rep s m -> 0 <= k < max_u64 -> m !! k = Some v ->
  exists s', mass_lookup k s = Ok (v, s') /\ mass_rep s' m.
Proof.
  intros (M & Hs & HM) Hk Hv. destruct (mass_get_ok s M k Hs) as (s' & Hms & Hrun). exists s'. split; [|by exists M].
  unfold mass_lookup. rewrite (ST_bind_ok Hrun), (sf_lookup _ _ HM _ Hk), Hv. cbn [fmap option_fmap option_map].
  exact (lift_ok (read_value_bytes v (proj2 (sf_dom _ _ HM _ _ Hv)))).
Qed.

#[export] Program Instance mass_laws : IndexLaws mass := {
  idx_rep := mass_rep; idx_room n := True; idx_value v := - 2 ^ 63 <= v < 2 ^ 63; idx_put k v m := <[k := v]> m }.
Next Obligation. intros. apply dom_insert_L. Qed.
Next Obligation. done. Qed.
Next Obligation. intros s m k v Hs _ Hk Hv. by apply mass_put_ok. Qed.
Next Obligation. intros s m k v Hs _ Hk Hv _. by apply mass_put_ok. Qed.
Next Obligation. intros s m k v Hs _ Hk Hv. by apply mass_lookup_ok. Qed.

(** A lookup of a key that is not there dereferences a null pointer. *)
Theorem mass_missing_null_deref s m k : mass_rep s m -> 0 <= k < max_u64 -> m !! k = None -> mass_lookup k s = Fault NullDeref.
Proof.
  intros (M & Hs & HM) Hk Hv. destruct (mass_get_ok s M k Hs) as (s' & _ & Hrun).
  unfold mass_lookup. by rewrite (ST_bind_ok Hrun), (sf_lookup _ _ HM _ Hk), Hv.
Qed.

(** A phase of the benchmark on a table that is set up for it: [perform_all] of [Clients]
    with the calls above. *)
Example mass_phase : exists s', (table_initialize;; perform_all ClientExamples.five_tuples [0; 1; 2; 3; 4]) new_table
  = Ok ([None; None; Some 1; None; None], s') /\ mass_rep s' {[7 := 9; 8 := 3]}.
Proof.
  destruct initialize_ok as [Hinit Hs]. rewrite (ST_bind_ok Hinit).
  destruct (perform_all_ok (St := mass) ClientExamples.five_tuples ClientExamples.five_tuples [] empty_table ∅) as (s' & Hrun & Hs').
  - done.
  - exists ∅. split; [exact Hs|apply stands_for_empty].
  - done.
  - repeat constructor; unfold max_u64; simpl; lia.
  - vm_compute. reflexivity.
  - exists s'. split; [exact Hrun|].
    replace {[7 := 9; 8 := 3]} with (run_spec (St := mass) ClientExamples.five_tuples ∅).2 by (vm_compute; reflexivity).
    exact Hs'.
Qed.
