(* ===== verification/AtomicStack.v ===== *)
(** * The free list of the BwTree

    Models [src/src/indices/bw_tree/thread/atomic_stack.h]: a stack in a fixed array whose
    top is a pointer with a version, swapped by a double-word compare-and-swap.  One
    thread pushes, any number pop.  A pointer into [data] is its index, [-1] before the
    first item.  The operations run by one thread are functions; the same pieces are the
    steps of the interleaved executions. *)

From S2P Require Import Prelude.

(** ** [VersionedPointer] *)
Record VersionedPointer : Type := mkVP { vp_ptr : option Z; vp_version : Z }.
#[export] Instance VersionedPointer_eq_dec : EqDecision VersionedPointer.
Proof. solve_decision. Defined.
Definition new_vp (p : option Z) : VersionedPointer := mkVP p 0.
Definition vp_incr (vp : VersionedPointer) : VersionedPointer := mkVP (Z.succ <$> vp_ptr vp) (vp_version vp).
Definition vp_decr (vp : VersionedPointer) : VersionedPointer := mkVP (Z.pred <$> vp_ptr vp) (vp_version vp).
Definition ToNextVersion (vp : VersionedPointer) : VersionedPointer := mkVP (vp_ptr vp) (u64 (vp_version vp + 1)).

(** ** [AtomicStack] *)
Section AtomicStack.
Context {T : Type} (T_empty : T).

Record AtomicStack : Type := mkStack { st_data : list T; top_p : VersionedPointer; buffer : list T }.
Definition new_stack (data : list T) : AtomicStack := mkStack data (new_vp (Some (-1))) [].
#[local] Abbreviation SM := (ST AtomicStack).

(** [top_p.exchange(nullptr)] *)
Definition PreparePush : SM VersionedPointer := fun s =>
  Ok (top_p s, mkStack (st_data s) (new_vp None) (buffer s)).
(** [*(vp) = item] *)
Definition write_item (vp : VersionedPointer) (item : T) (data : list T) : outcome (list T) :=
  match vp_ptr vp with None => Fault NullDeref | Some i => array_set data i item end.
Definition put_item (vp : VersionedPointer) (item : T) : SM unit := fun s =>
  d ← write_item vp item (st_data s); Ok (tt, mkStack d (top_p s) (buffer s)).
Definition store_top (vp : VersionedPointer) : SM unit := modify (fun s => mkStack (st_data s) vp (buffer s)).

Definition SingleThreadBufferPush (item : T) : SM unit :=
  modify (fun s => mkStack (st_data s) (top_p s) (buffer s ++ [item])).
Definition SingleThreadPush (item : T) : SM unit :=
  snapshot_top_p ← PreparePush;
  let snapshot_top_p := vp_incr snapshot_top_p in
  put_item snapshot_top_p item;;
  store_top (ToNextVersion snapshot_top_p).
Fixpoint commit_loop (items : list T) (vp : VersionedPointer) : SM VersionedPointer :=
  match items with
  | [] => mret vp
  | item :: items => let vp := vp_incr vp in put_item vp item;; commit_loop items vp
  end.
Definition SingleThreadCommitPush : SM unit :=
  snapshot_top_p ← PreparePush;
  items ← gets buffer;
  snapshot_top_p ← commit_loop items snapshot_top_p;
  store_top (ToNextVersion snapshot_top_p);;
  modify (fun s => mkStack (st_data s) (top_p s) []).

(** One round of the loop of [Pop], before the compare-and-swap: nothing to pop, or the
    item under the snapshot. *)
Definition pop_check (snapshot_top_p : VersionedPointer) (data : list T) : outcome (option T) :=
  match vp_ptr snapshot_top_p with
  | None => Ok None
  | Some i => if i <? 0 then Ok None else x ← array_get data i; Ok (Some x)
  end.
Definition popped_top (snapshot_top_p : VersionedPointer) : VersionedPointer := ToNextVersion (vp_decr snapshot_top_p).
Fixpoint pop_loop (fuel : nat) (snapshot_top_p : VersionedPointer) : SM (bool * T) :=
  match fuel with
  | O => lift (Fault OutOfFuel)
  | S fuel =>
      data ← gets st_data;
      item ← lift (pop_check snapshot_top_p data);
      match item with
      | None => mret (false, T_empty)
      | Some x =>
          top ← gets top_p;
          if decide (top = snapshot_top_p) then store_top (popped_top snapshot_top_p);; mret (true, x)
          else pop_loop fuel top
      end
  end.
Definition Pop (fuel : nat) : SM (bool * T) := snapshot_top_p ← gets top_p; pop_loop fuel snapshot_top_p.

(** ** One producer and many consumers *)
Inductive pusher : Type := PushIdle | PushWriting (snapshot : VersionedPointer) (todo all : list T).
Inductive popper : Type :=
  | PopIdle | PopSnapshot (vp : VersionedPointer) | PopItem (vp : VersionedPointer) (x : T) | PopDone (r : option T).
Record SharedStack : Type := mkShared { sh_data : list T; sh_top : VersionedPointer; sh_pusher : pusher; sh_poppers : list popper }.
Inductive stack_event : Type := Pushed (items : list T) | Popped (x : T).

Inductive stack_step : SharedStack -> list stack_event -> SharedStack -> Prop :=
  | as_prepare d top ps items :
      stack_step (mkShared d top PushIdle ps) [] (mkShared d (new_vp None) (PushWriting top items items) ps)
  | as_write d d' top ps vp x todo all : write_item (vp_incr vp) x d = Ok d' ->
      stack_step (mkShared d top (PushWriting vp (x :: todo) all) ps) [] (mkShared d' top (PushWriting (vp_incr vp) todo all) ps)
  | as_store d top ps vp all :
      stack_step (mkShared d top (PushWriting vp [] all) ps) [Pushed all] (mkShared d (ToNextVersion vp) PushIdle ps)
  | as_load d top pu ps t : ps !! t = Some PopIdle ->
      stack_step (mkShared d top pu ps) [] (mkShared d top pu (<[t := PopSnapshot top]> ps))
  | as_empty d top pu ps t vp : ps !! t = Some (PopSnapshot vp) -> pop_check vp d = Ok None ->
      stack_step (mkShared d top pu ps) [] (mkShared d top pu (<[t := PopDone None]> ps))
  | as_read d top pu ps t vp x : ps !! t = Some (PopSnapshot vp) -> pop_check vp d = Ok (Some x) ->
      stack_step (mkShared d top pu ps) [] (mkShared d top pu (<[t := PopItem vp x]> ps))
  | as_swap d top pu ps t x : ps !! t = Some (PopItem top x) ->
      stack_step (mkShared d top pu ps) [Popped x] (mkShared d (popped_top top) pu (<[t := PopDone (Some x)]> ps))
  | as_fail d top pu ps t vp x : ps !! t = Some (PopItem vp x) -> top <> vp ->
      stack_step (mkShared d top pu ps) [] (mkShared d top pu (<[t := PopSnapshot top]> ps))
  | as_return d top pu ps t r : ps !! t = Some (PopDone r) ->
      stack_step (mkShared d top pu ps) [] (mkShared d top pu (<[t := PopIdle]> ps)).
Definition shared_start (data : list T) (threads : nat) : SharedStack :=
  mkShared data (new_vp (Some (-1))) PushIdle (replicate threads PopIdle).
Inductive stack_run (s0 : SharedStack) : list stack_event -> SharedStack -> Prop :=
  | stack_run_start : stack_run s0 [] s0
  | stack_run_step evs s ev s' : stack_run s0 evs s -> stack_step s ev s' -> stack_run s0 (evs ++ ev) s'.
End AtomicStack.
Arguments AtomicStack T : clear implicits.
Arguments SharedStack T : clear implicits.
Arguments stack_event T : clear implicits.

(** ** The stack it implements *)
Section Linearizable.
Context {T : Type} `{!EqDecision T}.

Definition stack_effect (e : stack_event T) (st : list T) : option (list T) :=
  match e with
  | Pushed items => Some (reverse items ++ st)
  | Popped x => match st with y :: st => if decide (x = y) then Some st else None | [] => None end
  end.
(** The stack after a history, if every item popped was on top. *)
Fixpoint replay (evs : list (stack_event T)) (st : list T) : option (list T) :=
  match evs with [] => Some st | e :: evs => st ← stack_effect e st; replay evs st end.
Lemma replay_snoc evs e st st' : replay evs st = Some st' -> replay (evs ++ [e]) st = stack_effect e st'.
Proof.
  revert st. induction evs as [|e' evs IH]; intros st; simpl.
  - intros [= ->]. by destruct (stack_effect e st').
  - destruct (stack_effect e' st); simpl; [apply IH|done].
Qed.

(** Items up to index [p], the top first. *)
Definition stacked (p : Z) (d : list T) : list T := reverse (take (Z.to_nat (p + 1)) d).

(** A snapshot with the current version is the current top. *)
Definition popper_ok (p v : Z) (d : list T) (w : popper) : Prop :=
  match w with
  | PopSnapshot vp => forall i, vp_ptr vp = Some i -> vp_version vp <= v /\ (vp_version vp = v -> i = p)
  | PopItem vp x => exists i, vp_ptr vp = Some i /\ 0 <= i /\ vp_version vp <= v /\ (vp_version vp = v -> i = p /\ d !! Z.to_nat p = Some x)
  | _ => True
  end.
Definition pusher_ok (p v : Z) (d : list T) (top : VersionedPointer) (w : pusher) : Prop :=
  match w with
  | PushIdle => top = mkVP (Some p) v
  | PushWriting vp todo all => top = new_vp None /\ exists done, all = done ++ todo
      /\ vp = mkVP (Some (p + Z.of_nat (length done))) v /\ p + Z.of_nat (length done) < Z.of_nat (length d)
      /\ take (length done) (drop (Z.to_nat (p + 1)) d) = done
  end.
Definition stack_inv (evs : list (stack_event T)) (s : SharedStack T) : Prop :=
  exists p, -1 <= p < Z.of_nat (length (sh_data s))
    /\ replay evs [] = Some (stacked p (sh_data s))
    /\ pusher_ok p (Z.of_nat (length evs)) (sh_data s) (sh_top s) (sh_pusher s)
    /\ Forall (popper_ok p (Z.of_nat (length evs)) (sh_data s)) (sh_poppers s).

Lemma start_inv data threads : stack_inv [] (shared_start data threads).
Proof. exists (-1). split_and!; [simpl; lia|lia|done|done|]. by apply Forall_replicate. Qed.
(** The version that moves on leaves older snapshots behind. *)
Lemma popper_ok_next p v d p' d' w : popper_ok p v d w -> popper_ok p' (v + 1) d' w.
Proof.
  destruct w as [|vp|vp x|]; simpl; [done| | |done].
  - intros H i Hi. destruct (H i Hi). lia.
  - intros (i & ? & ? & ? & ?). exists i. split_and!; [done|done|lia|lia].
Qed.
Lemma popper_ok_write p v (d d' : list T) w : popper_ok p v d w -> (0 <= p -> d' !! Z.to_nat p = d !! Z.to_nat p) -> popper_ok p v d' w.
Proof.
  destruct w as [|vp|vp x|]; simpl; [done|done| |done]. intros (i & Hi & H0 & Hv & H) Hd. exists i. split_and!; [done..|].
  intros He. destruct (H He) as [-> Hx]. split; [done|]. by rewrite Hd.
Qed.
Lemma pop_check_item vp (x : T) (d : list T) : pop_check vp d = Ok (Some x) -> exists i, vp_ptr vp = Some i /\ 0 <= i /\ d !! Z.to_nat i = Some x.
Proof.
  unfold pop_check. destruct (vp_ptr vp) as [i|]; [|done]. destruct (Z.ltb_spec i 0); [done|].
  destruct (array_get d i) as [y|] eqn:E; [|done]. intros [= ->]. exists i. apply array_get_inv in E. naive_solver.
Qed.
Lemma stacked_pop p (d : list T) x : 0 <= p -> d !! Z.to_nat p = Some x -> stacked p d = x :: stacked (p - 1) d.
Proof.
  intros Hp Hx. unfold stacked. replace (Z.to_nat (p + 1)) with (S (Z.to_nat p)) by lia.
  rewrite (take_S_r _ _ _ Hx), reverse_snoc. by replace (Z.to_nat (p - 1 + 1)) with (Z.to_nat p) by lia.
Qed.
Lemma stacked_push p d items : -1 <= p -> take (length items) (drop (Z.to_nat (p + 1)) d) = items ->
  stacked (p + Z.of_nat (length items)) d = reverse items ++ stacked p d.
Proof.
  intros Hp Ht. unfold stacked. rewrite <- reverse_app. f_equal.
  replace (Z.to_nat (p + Z.of_nat (length items) + 1)) with (Z.to_nat (p + 1) + length items)%nat by lia.
  by rewrite <- take_take_drop, Ht.
Qed.
(** A write extends the items above the top. *)
Lemma write_above p (done : list T) d d' x : -1 <= p -> take (length done) (drop (Z.to_nat (p + 1)) d) = done ->
  array_set d (p + Z.of_nat (length done) + 1) x = Ok d' ->
  length d' = length d /\ p + Z.of_nat (length done) + 1 < Z.of_nat (length d)
  /\ take (length (done ++ [x])) (drop (Z.to_nat (p + 1)) d') = done ++ [x]
  /\ take (Z.to_nat (p + 1)) d' = take (Z.to_nat (p + 1)) d
  /\ (0 <= p -> d' !! Z.to_nat p = d !! Z.to_nat p).
Proof.
  intros Hp Hd Hset. unfold array_set in Hset. case_decide as Hr; [|done]. injection Hset as <-.
  rewrite length_insert. split; [done|]. split; [lia|].
  assert (Hn : Z.to_nat (p + Z.of_nat (length done) + 1) = (Z.to_nat (p + 1) + length done)%nat) by lia. rewrite Hn in *.
  split; [|split; [by rewrite take_insert_ge by lia|intros; apply list_lookup_insert_ne; lia]].
  rewrite length_app. simpl. rewrite drop_insert_ge by lia.
  replace (Z.to_nat (p + 1) + length done - Z.to_nat (p + 1))%nat with (length done) by lia.
  assert (Hlt : (length done < length (drop (Z.to_nat (p + 1)) d))%nat) by (rewrite length_drop; lia).
  replace (length done + 1)%nat with (S (length done)) by lia.
  erewrite take_S_r by (apply list_lookup_insert_eq; exact Hlt). rewrite take_insert_ge by lia. by rewrite Hd.
Qed.

Lemma top_snapshot_ok p v d top pu : pusher_ok p v d top pu -> popper_ok p v d (PopSnapshot top).
Proof.
  destruct pu as [|vp todo all]; simpl; [|by intros [-> _] i]. intros ->. simpl. intros i [= ->]. lia.
Qed.
(** A popper that holds an item and finds the top unchanged meets an idle pusher. *)
Lemma swap_top p v d top pu x : pusher_ok p v d top pu -> popper_ok p v d (PopItem top x) ->
  pu = PushIdle /\ top = mkVP (Some p) v /\ 0 <= p /\ d !! Z.to_nat p = Some x.
Proof.
  destruct pu as [|vp todo all]; simpl; [|by intros [-> _] (i & ? & _)]. intros -> (i & [= <-] & Hi & _ & H). simpl in H.
  destruct (H eq_refl) as [_ Hx]. done.
Qed.
Lemma stack_inv_step evs s ev s' : stack_inv evs s -> stack_step s ev s' -> Z.of_nat (length (evs ++ ev)) < 2 ^ 64 ->
  stack_inv (evs ++ ev) s'.
Proof.
  intros (p & Hp & Hr & Hpu & Hpo) Hst Hlen. rewrite length_app in Hlen.
  assert (Hnext : Z.of_nat (length ev) = 1 -> u64 (Z.of_nat (length evs) + 1) = Z.of_nat (length (evs ++ ev))).
  { intros He. rewrite length_app. rewrite u64_small; unfold max_u64; lia. }
  assert (Hthread : forall d top pu ps t w, s = mkShared d top pu ps -> popper_ok p (Z.of_nat (length evs)) d w ->
            stack_inv evs (mkShared d top pu (<[t := w]> ps))).
  { intros d top pu ps t w -> Hw. exists p. simpl in *. split; [done|]. split; [done|]. split; [done|]. by apply Forall_insert. }
  destruct Hst; cbn [sh_data sh_top sh_pusher sh_poppers] in *; rewrite ?app_nil_r.
  - exists p. split; [done|]. split; [done|]. split; [|done]. split; [done|]. exists []. rewrite Z.add_0_r. simpl. split_and!; done || lia.
  - destruct Hpu as (-> & done & -> & -> & Hlt & Htake). cbn in H.
    destruct (write_above p done d d' x ltac:(lia) Htake H) as (Hl & Hlt' & Htake' & Hlow & Hat).
    exists p. cbn [sh_data sh_top sh_pusher sh_poppers]. split_and!; [lia|lia| | |].
    + rewrite Hr. unfold stacked. by rewrite Hlow.
    + split; [done|]. exists (done ++ [x]). rewrite <- app_assoc, length_app, Hl. unfold vp_incr. simpl.
      split_and!; [done|do 2 f_equal; lia|lia|by rewrite length_app in Htake'].
    + eapply Forall_impl; [exact Hpo|]. intros w Hw. by eapply popper_ok_write.
  - destruct Hpu as (-> & done & -> & -> & Hlt & Htake). rewrite app_nil_r in *.
    exists (p + Z.of_nat (length done)). cbn [sh_data sh_top sh_pusher sh_poppers]. split_and!; [lia|done| | |].
    + rewrite (replay_snoc _ _ _ _ Hr). simpl. by rewrite stacked_push by (done || lia).
    + simpl. unfold ToNextVersion. simpl. by rewrite Hnext.
    + rewrite length_app. eapply Forall_impl; [exact Hpo|]. intros w Hw. simpl. rewrite Nat2Z.inj_add. by eapply popper_ok_next.
  - apply (Hthread _ _ _ _ _ _ eq_refl). by eapply top_snapshot_ok.
  - by apply (Hthread _ _ _ _ _ _ eq_refl).
  - apply (Hthread _ _ _ _ _ _ eq_refl). destruct (pop_check_item _ _ _ H0) as (i & Hi & H1 & Hx).
    eapply Forall_lookup_1 in Hpo; [|exact H]. destruct (Hpo i Hi) as [Hv He]. exists i. split_and!; try done.
    intros Hv'. specialize (He Hv'). subst i. done.
  - pose proof (Forall_lookup_1 _ _ _ _ Hpo H) as Hit. destruct (swap_top _ _ _ _ _ _ Hpu Hit) as (-> & -> & H0 & Hx).
    exists (p - 1). cbn [sh_data sh_top sh_pusher sh_poppers]. split_and!; [lia|lia| | |].
    + rewrite (replay_snoc _ _ _ _ Hr), (stacked_pop _ _ _ H0 Hx). simpl. by rewrite decide_True.
    + simpl. unfold popped_top, ToNextVersion. simpl. rewrite Hnext by done. f_equal.
    + apply Forall_insert; [|done]. rewrite length_app. eapply Forall_impl; [exact Hpo|]. intros w Hw. simpl.
      rewrite Nat2Z.inj_add. by eapply popper_ok_next.
  - apply (Hthread _ _ _ _ _ _ eq_refl). by eapply top_snapshot_ok.
  - by apply (Hthread _ _ _ _ _ _ eq_refl).
Qed.
Lemma stack_run_inv data threads evs s :
  stack_run (shared_start data threads) evs s -> Z.of_nat (length evs) < 2 ^ 64 -> stack_inv evs s.
Proof.
  induction 1 as [|evs s ev s' Hr IH Hst]; intros Hlen; [apply start_inv|].
  eapply stack_inv_step; [apply IH|done|done]. rewrite length_app in Hlen. lia.
Qed.
End Linearizable.

(** C35: the free list is a stack in every interleaving of its single producer with any
    number of consumers: whatever a [Pop] returns was on top at the moment of its
    compare-and-swap, so that no item is handed out twice, invented or lost, and the
    array below the top holds the rest of the stack.  The versions keep a [Pop] that was
    overtaken by other pops and pushes from succeeding with a stale item; this needs
    fewer than 2^64 operations, after which a version could repeat. *)
Theorem atomic_stack_linearizable {T} `{!EqDecision T} (data : list T) threads evs s :
  stack_run (shared_start data threads) evs s -> Z.of_nat (length evs) < 2 ^ 64 ->
  exists st, replay evs [] = Some st
    /\ (sh_pusher s = PushIdle -> exists p, vp_ptr (sh_top s) = Some p /\ st = stacked p (sh_data s)).
Proof.
  intros Hr Hlen. destruct (stack_run_inv _ _ _ _ Hr Hlen) as (p & _ & Hrep & Hpu & _). exists (stacked p (sh_data s)).
  split; [done|]. intros Hi. rewrite Hi in Hpu. simpl in Hpu. exists p. by rewrite Hpu.
Qed.

(** ** The operations run by one thread *)
Section Sequential.
Context {T : Type} (T_empty : T).

Definition holds_stack (s : AtomicStack T) (st : list T) : Prop :=
  exists p, vp_ptr (top_p s) = Some p /\ -1 <= p < Z.of_nat (length (st_data s)) /\ st = stacked p (st_data s).

Lemma commit_loop_writes (items : list T) : forall (done : list T) p v s,
  -1 <= p -> p + Z.of_nat (length (done ++ items)) < Z.of_nat (length (st_data s)) ->
  take (length done) (drop (Z.to_nat (p + 1)) (st_data s)) = done ->
  exists d, commit_loop items (mkVP (Some (p + Z.of_nat (length done))) v) s
      = Ok (mkVP (Some (p + Z.of_nat (length (done ++ items)))) v, mkStack d (top_p s) (buffer s))
    /\ length d = length (st_data s) /\ take (length (done ++ items)) (drop (Z.to_nat (p + 1)) d) = done ++ items
    /\ take (Z.to_nat (p + 1)) d = take (Z.to_nat (p + 1)) (st_data s).
Proof.
  induction items as [|x items IH]; intros done p v s Hp Hlt Htake.
  - exists (st_data s). rewrite app_nil_r. by destruct s.
  - cbn [commit_loop]. unfold vp_incr. cbn [vp_ptr fmap option_fmap option_map vp_version].
    rewrite length_app in Hlt. simpl in Hlt.
    assert (Hset : exists d, array_set (st_data s) (p + Z.of_nat (length done) + 1) x = Ok d).
    { unfold array_set. rewrite decide_True by lia. by eexists. }
    destruct Hset as [d Hset]. destruct (write_above p done (st_data s) d x Hp Htake Hset) as (Hl & _ & Htake' & Hlow & _).
    assert (Hput : put_item (mkVP (Some (Z.succ (p + Z.of_nat (length done)))) v) x s = Ok (tt, mkStack d (top_p s) (buffer s))).
    { unfold put_item, write_item. simpl. unfold Z.succ. by rewrite Hset. }
    rewrite (ST_bind_ok Hput).
    destruct (IH (done ++ [x]) p v (mkStack d (top_p s) (buffer s)) Hp) as (d' & Hrun & Hl' & Ht & Hlo); simpl.
    { rewrite !length_app. simpl. rewrite Hl. lia. }
    { done. }
    exists d'. simpl in *. rewrite <- app_assoc in *. simpl in *. split_and!; [|congruence|done|congruence].
    rewrite <- Hrun. do 3 f_equal. rewrite length_app. simpl. lia.
Qed.

(** Run by one thread, pushes and pops are those of a stack; a batch is pushed in order. *)
Lemma sequential_stack s st : holds_stack s st ->
  (forall item, Z.of_nat (length st) < Z.of_nat (length (st_data s)) ->
     exists s', SingleThreadPush item s = Ok (tt, s') /\ holds_stack s' (item :: st) /\ buffer s' = buffer s)
  /\ (Z.of_nat (length st + length (buffer s)) <= Z.of_nat (length (st_data s)) ->
     exists s', SingleThreadCommitPush s = Ok (tt, s') /\ holds_stack s' (reverse (buffer s) ++ st) /\ buffer s' = [])
  /\ exists s', Pop T_empty 1 s = Ok (match st with [] => (false, T_empty) | x :: _ => (true, x) end, s')
       /\ holds_stack s' (tail st) /\ buffer s' = buffer s.
Proof.
  intros (p & Hp & Hr & ->). destruct s as [d [pp v] b]. simpl in *. subst pp.
  assert (Hlen : length (stacked p d) = Z.to_nat (p + 1)) by (unfold stacked; rewrite length_reverse, length_take; lia). rewrite Hlen.
  assert (Hcommit : forall items, p + Z.of_nat (length items) < Z.of_nat (length d) ->
    exists d', commit_loop items (mkVP (Some p) v) (mkStack d (new_vp None) b)
        = Ok (mkVP (Some (p + Z.of_nat (length items))) v, mkStack d' (new_vp None) b)
      /\ length d' = length d /\ stacked (p + Z.of_nat (length items)) d' = reverse items ++ stacked p d).
  { intros items Hi. destruct (commit_loop_writes items [] p v (mkStack d (new_vp None) b)) as (d' & Hrun & Hl & Ht & Hlo); simpl in *; try lia; try done.
    rewrite Z.add_0_r in Hrun. exists d'. split_and!; [done|done|]. rewrite stacked_push by (done || lia). unfold stacked. by rewrite Hlo. }
  split_and!.
  - intros item Hroom. destruct (Hcommit [item]) as (d' & Hrun & Hl & Hst); [simpl; lia|].
    exists (mkStack d' (ToNextVersion (mkVP (Some (p + 1)) v)) b). split; [|split; [|done]].
    + unfold SingleThreadPush. cbn [commit_loop] in Hrun. apply ST_bind_inv in Hrun as ([] & s1 & Hput & Hret).
      assert (s1 = mkStack d' (new_vp None) b) as -> by (unfold mret, ST_ret in Hret; congruence). unfold mbind, ST_bind, PreparePush. simpl. simpl in Hput. by rewrite Hput.
    + exists (p + 1). simpl in *. split_and!; [done|lia|lia|symmetry; exact Hst].
  - intros Hroom. destruct (Hcommit b) as (d' & Hrun & Hl & Hst); [lia|].
    exists (mkStack d' (ToNextVersion (mkVP (Some (p + Z.of_nat (length b))) v)) []). split; [|split; [|done]].
    + unfold SingleThreadCommitPush, mbind, ST_bind, PreparePush, gets. simpl. by rewrite Hrun.
    + exists (p + Z.of_nat (length b)). simpl in *. split_and!; [done|lia|lia|done].
  - unfold Pop, mbind at 1, ST_bind at 1, gets at 1. cbn [top_p pop_loop]. unfold mbind at 1, ST_bind at 1, gets at 1. cbn [st_data].
    unfold pop_check. cbn [vp_ptr]. destruct (Z.ltb_spec p 0) as [Hneg|Hpos].
    + assert (p = -1) as -> by lia. exists (mkStack d (mkVP (Some (-1)) v) b). simpl. split; [done|]. split; [|done].
      exists (-1). simpl. split_and!; done || lia.
    + destruct (lookup_lt_is_Some_2 d (Z.to_nat p)) as [x Hx]; [lia|]. rewrite (stacked_pop _ _ _ Hpos Hx).
      pose proof (array_get_lookup d (Z.to_nat p) x Hx) as Hget. rewrite Z2Nat.id in Hget by lia.
      unfold lift, mbind, ST_bind, outcome_bind. rewrite Hget. unfold gets. cbn [top_p]. rewrite decide_True by done.
      eexists. split; [done|]. split; [|done]. exists (p - 1). simpl. split_and!; [done|lia|lia|done].
Qed.
End Sequential.

Module StackExamples.
(** Thread 0 reads the top item 5, thread 1 pops it, the producer pushes 6 to the same
    slot: the swap of thread 0 fails, although the pointer is the one it saw. *)
Definition slots : list Z := [0; 0; 0].
Definition s0 : SharedStack Z := shared_start slots 2.
Definition interleaved : SharedStack Z :=
  mkShared [6; 0; 0] (mkVP (Some 0) 3) PushIdle [PopSnapshot (mkVP (Some 0) 3); PopDone (Some 5)].
Definition history : list (stack_event Z) := [Pushed [5]; Popped 5; Pushed [6]].
Ltac advance R c := eapply stack_run_step in R; [|c; done]; cbn in R.
Lemma overtaken : stack_run s0 history interleaved.
Proof.
  pose proof (stack_run_start s0) as R.
  advance R ltac:(eapply (as_prepare _ _ _ [5])). advance R ltac:(eapply as_write). advance R ltac:(eapply as_store).
  advance R ltac:(eapply (as_load _ _ _ _ 0)). advance R ltac:(eapply (as_read _ _ _ _ 0)).
  advance R ltac:(eapply (as_load _ _ _ _ 1)). advance R ltac:(eapply (as_read _ _ _ _ 1)).
  advance R ltac:(eapply (as_swap _ _ _ _ 1)).
  advance R ltac:(eapply (as_prepare _ _ _ [6])). advance R ltac:(eapply as_write). advance R ltac:(eapply as_store).
  advance R ltac:(eapply (as_fail _ _ _ _ 0)). exact R.
Qed.
Lemma atomic_stack_linearizable_witness :
  exists st, replay history [] = Some st
    /\ (sh_pusher interleaved = PushIdle -> exists p, vp_ptr (sh_top interleaved) = Some p /\ st = stacked p (sh_data interleaved)).
Proof. apply (atomic_stack_linearizable slots 2 history interleaved overtaken). vm_compute. reflexivity. Defined.
End StackExamples.
