(* ===== verification/BwSets.v ===== *)
(** * The small sets of the BwTree

    Models [src/src/indices/bw_tree/thread/bloom_filter.h] and [sorted_small_set.h], which
    the BwTree uses while it walks a delta chain: the values seen so far, and the values
    collected in order.  Hash function, equality and order are arguments of the templates;
    the claims name what they rely on. *)

From S2P Require Import Prelude.

(** ** [BloomFilter] *)
Section BloomFilter.
Context {V : Type} (value_eq : V -> V -> bool) (value_hash : V -> Z).

Definition ARRAY_SIZE : Z := 256.
Definition FILTER_NUM : Z := 8.
Definition FILTER_SIZE : Z := ARRAY_SIZE / FILTER_NUM.
Definition BIT_OFFSET_MASK : Z := 0x07.
Definition BYTE_OFFSET_MASK : Z := 0xF8.

(** [data_p] is an array the caller provides. *)
Record BloomFilter : Type := mkBloom { bit_array_0 : list Z; data_p : list V; value_count : Z }.
Definition new_bloom (data : list V) : BloomFilter := mkBloom (replicate (Z.to_nat FILTER_SIZE) 0) data 0.
Definition bf_GetSize (b : BloomFilter) : Z := value_count b.

Definition byte_offset (h : Z) : Z := Z.shiftr (Z.land h BYTE_OFFSET_MASK) 3.
Definition bit_mask (h : Z) : Z := Z.shiftl 1 (Z.land h BIT_OFFSET_MASK).
Definition InsertScalar (v : V) (b : BloomFilter) : outcome BloomFilter :=
  let hash_value := value_hash v in
  data ← array_set (data_p b) (value_count b) v;
  byte ← array_get (bit_array_0 b) (byte_offset hash_value);
  bits ← array_set (bit_array_0 b) (byte_offset hash_value) (u8 (Z.lor byte (bit_mask hash_value)));
  Ok (mkBloom bits data (value_count b + 1)).
Definition bf_Insert := InsertScalar.

Fixpoint exists_loop (fuel : nat) (v : V) (b : BloomFilter) (i : Z) : outcome bool :=
  match fuel with
  | O => Fault OutOfFuel
  | S fuel =>
      if i <? value_count b then
        w ← array_get (data_p b) i;
        if value_eq v w then Ok true else exists_loop fuel v b (i + 1)
      else Ok false
  end.
Definition ExistsScalar (v : V) (b : BloomFilter) : outcome bool :=
  let hash_value := value_hash v in
  byte ← array_get (bit_array_0 b) (byte_offset hash_value);
  if Z.land byte (bit_mask hash_value) =? 0 then Ok false
  else exists_loop (S (Z.to_nat (value_count b))) v b 0.
Definition bf_Exists := ExistsScalar.

Fixpoint insert_values (vs : list V) (b : BloomFilter) : outcome BloomFilter :=
  match vs with [] => Ok b | v :: vs => b ← bf_Insert v b; insert_values vs b end.
End BloomFilter.

Section BloomFacts.
Context {V : Type} (value_eq : V -> V -> bool) (value_hash : V -> Z).
(** Equal values have equal hashes, as [std::hash] and [std::equal_to] guarantee. *)
Context (hash_respects : forall a b, value_eq a b = true -> value_hash a = value_hash b).

Lemma byte_offset_range h : 0 <= byte_offset h < 32.
Proof.
  unfold byte_offset, BYTE_OFFSET_MASK. assert (Hl : 0 <= Z.land h 248) by (apply Z.land_nonneg; by right).
  rewrite Z.shiftr_div_pow2 by lia. split; [by apply Z.div_pos|]. apply Z.div_lt_upper_bound; [lia|].
  change 248 with (Z.land 248 (Z.ones 8)). rewrite Z.land_assoc, Z.land_ones by lia. apply Z.mod_pos_bound. lia.
Qed.
Definition bit_index (h : Z) : Z := Z.land h BIT_OFFSET_MASK.
Lemma bit_index_range h : 0 <= bit_index h < 8.
Proof. unfold bit_index. change BIT_OFFSET_MASK with (Z.ones 3). rewrite Z.land_ones by lia. apply Z.mod_pos_bound. lia. Qed.
Lemma bit_mask_tests byte h : (Z.land byte (bit_mask h) =? 0) = negb (Z.testbit byte (bit_index h)).
Proof.
  pose proof (bit_index_range h). unfold bit_mask. fold (bit_index h). rewrite Z.shiftl_1_l.
  destruct (Z.testbit byte (bit_index h)) eqn:E.
  - apply Z.eqb_neq. intros H0. assert (Hb : Z.testbit (Z.land byte (2 ^ bit_index h)) (bit_index h) = true)
      by (by rewrite Z.land_spec, E, Z.pow2_bits_true by lia). by rewrite H0, Z.bits_0 in Hb.
  - apply Z.eqb_eq, Z.bits_inj'. intros i Hi. rewrite Z.land_spec, Z.pow2_bits_eqb, Z.bits_0 by lia.
    destruct (Z.eqb_spec (bit_index h) i) as [<-|]; [by rewrite E|apply andb_false_r].
Qed.

(** The bit of a hash. *)
Definition has_hash (bits : list Z) (h : Z) : bool :=
  match bits !! Z.to_nat (byte_offset h) with Some byte => Z.testbit byte (bit_index h) | None => false end.
Record bloom_inv (vs : list V) (b : BloomFilter (V := V)) : Prop := {
  bi_bits : length (bit_array_0 b) = 32%nat;
  bi_count : value_count b = Z.of_nat (length vs);
  bi_data : exists rest, data_p b = vs ++ rest;
  bi_hash : Forall (fun v => has_hash (bit_array_0 b) (value_hash v) = true) vs }.

Lemma bloom_insert_ok vs b v : bloom_inv vs b -> (length vs < length (data_p b))%nat ->
  exists b', bf_Insert value_hash v b = Ok b' /\ bloom_inv (vs ++ [v]) b' /\ length (data_p b') = length (data_p b).
Proof.
  intros [Hbits Hcount [rest Hdata] Hhash] Hroom. pose proof (byte_offset_range (value_hash v)) as Ho.
  pose proof (bit_index_range (value_hash v)) as Hi.
  set (o := Z.to_nat (byte_offset (value_hash v))). destruct (lookup_lt_is_Some_2 (bit_array_0 b) o) as [byte Hbyte]; [lia|].
  unfold bf_Insert, InsertScalar, array_set, array_get. rewrite decide_True by lia.
  cbn [mbind outcome_bind]. rewrite decide_True by lia. fold o. rewrite Hbyte. cbn [mbind outcome_bind].
  rewrite decide_True by lia. cbn [mbind outcome_bind]. eexists. split; [done|]. split; [split|]; simpl.
  - by rewrite length_insert.
  - rewrite length_app, Hcount. simpl. lia.
  - rewrite Hcount, Nat2Z.id, Hdata. destruct rest as [|r rest]; [rewrite Hdata, app_nil_r in Hroom; lia|].
    exists rest. rewrite insert_app_r_alt, Nat.sub_diag by lia. by rewrite <- app_assoc.
  - set (nb := u8 (Z.lor byte (bit_mask (value_hash v)))).
    assert (Hnb : forall k, 0 <= k < 8 -> Z.testbit nb k = Z.testbit byte k || (k =? bit_index (value_hash v))).
    { intros k Hk. unfold nb, u8, wrap, bit_mask. rewrite Z.mod_pow2_bits_low, Z.lor_spec by lia. f_equal.
      fold (bit_index (value_hash v)). rewrite Z.shiftl_1_l, Z.pow2_bits_eqb by lia. apply Z.eqb_sym. }
    apply Forall_app. split.
    + eapply Forall_impl; [exact Hhash|]. intros w Hw. unfold has_hash in *. fold o.
      pose proof (bit_index_range (value_hash w)). destruct (decide (Z.to_nat (byte_offset (value_hash w)) = o)) as [Heq|Hne].
      * rewrite Heq in *. rewrite Hbyte in Hw. rewrite list_lookup_insert_eq by lia. by rewrite Hnb, Hw.
      * by rewrite list_lookup_insert_ne.
    + constructor; [|done]. unfold has_hash. fold o. rewrite list_lookup_insert_eq by lia. rewrite Hnb by lia.
      by rewrite Z.eqb_refl, orb_true_r.
  - by rewrite length_insert.
Qed.
Lemma insert_values_ok vs : forall done b, bloom_inv done b -> (length done + length vs <= length (data_p b))%nat ->
  exists b', insert_values value_hash vs b = Ok b' /\ bloom_inv (done ++ vs) b'.
Proof.
  induction vs as [|v vs IH]; intros done b Hb Hlen; simpl in *; [exists b; by rewrite app_nil_r|].
  destruct (bloom_insert_ok done b v Hb) as (b1 & Hrun & Hb1 & Hl); [lia|]. rewrite Hrun. simpl.
  destruct (IH (done ++ [v]) b1 Hb1) as (b' & Hrun' & Hb'); [rewrite length_app, Hl; simpl; lia|].
  exists b'. by rewrite <- app_assoc in Hb'.
Qed.
Lemma exists_loop_ok vs b v : bloom_inv vs b -> forall fuel i, 0 <= i <= Z.of_nat (length vs) -> Z.of_nat (length vs) - i < Z.of_nat fuel ->
  exists_loop value_eq fuel v b i = Ok (existsb (value_eq v) (drop (Z.to_nat i) vs)).
Proof.
  intros Hb. induction fuel as [|fuel IH]; intros i Hi Hf; [lia|]. cbn [exists_loop]. destruct Hb as [_ Hc [rest Hd] _]. rewrite Hc.
  destruct (Z.ltb_spec i (Z.of_nat (length vs))).
  - destruct (lookup_lt_is_Some_2 vs (Z.to_nat i)) as [w Hw]; [lia|].
    assert (Hget : array_get (data_p b) i = Ok w).
    { rewrite <- (Z2Nat.id i) by lia. apply array_get_lookup. rewrite Hd. by apply lookup_app_l_Some. }
    rewrite Hget. cbn [mbind outcome_bind]. rewrite (drop_S _ _ _ Hw). simpl. destruct (value_eq v w); [done|].
    rewrite IH by lia. by replace (Z.to_nat (i + 1)) with (S (Z.to_nat i)) by lia.
  - by rewrite drop_ge by lia.
Qed.
Lemma bloom_exists_ok vs b v : bloom_inv vs b -> bf_Exists value_eq value_hash v b = Ok (existsb (value_eq v) vs).
Proof.
  intros Hb. pose proof (byte_offset_range (value_hash v)). unfold bf_Exists, ExistsScalar, array_get. rewrite decide_True by lia.
  destruct (lookup_lt_is_Some_2 (bit_array_0 b) (Z.to_nat (byte_offset (value_hash v)))) as [byte Hbyte]; [rewrite (bi_bits _ _ Hb); lia|].
  rewrite Hbyte. cbn [mbind outcome_bind]. rewrite bit_mask_tests. destruct (Z.testbit byte (bit_index (value_hash v))) eqn:E; cbn [negb].
  - rewrite (exists_loop_ok vs b v Hb); [done|lia|rewrite (bi_count _ _ Hb); lia].
  - f_equal. symmetry. apply not_true_iff_false. intros (w & Hin & Heq)%existsb_exists.
    apply hash_respects in Heq. pose proof (bi_hash _ _ Hb) as Hh. rewrite Forall_forall in Hh.
    specialize (Hh w ltac:(by apply list_elem_of_In)). unfold has_hash in Hh. rewrite <- Heq, Hbyte, E in Hh. done.
Qed.
Lemma new_bloom_inv data : bloom_inv [] (new_bloom data).
Proof. split; [done|done|by exists data|constructor]. Qed.
End BloomFacts.

(** The filter answers exactly.  After any values that fit into the array were
    inserted into a new filter, [Exists] says whether one of them equals its argument: the
    bits never exclude a value that was inserted (no false negatives), and what they let
    through is compared (no false positives either). *)
Theorem bloom_exact {V} (value_eq : V -> V -> bool) (value_hash : V -> Z) data vs v :
  (forall a b, value_eq a b = true -> value_hash a = value_hash b) -> (length vs <= length data)%nat ->
  exists b, insert_values value_hash vs (new_bloom data) = Ok b
    /\ bf_Exists value_eq value_hash v b = Ok (existsb (value_eq v) vs) /\ bf_GetSize b = Z.of_nat (length vs).
Proof.
  intros Hh Hlen. destruct (insert_values_ok value_hash vs [] (new_bloom data)) as (b & Hrun & Hb); [apply new_bloom_inv|done|].
  exists b. split; [done|]. split; [by eapply bloom_exists_ok|]. apply (bi_count _ _ _ Hb).
Qed.

(** ** [SortedSmallSet] *)
Section SortedSmallSet.
Context {V : Type} (value_cmp value_eqc : V -> V -> bool).

(** The array and the two pointers into it. *)
Record SortedSmallSet : Type := mkSSS { sss_data : list V; start_p : Z; end_p : Z }.
Definition new_sss (data : list V) : SortedSmallSet := mkSSS data 0 0.

(** [std::copy_backward(it, end_p, end_p + 1); *it = value; end_p++] *)
Definition shift_in (it : Z) (v : V) (s : SortedSmallSet) : outcome SortedSmallSet :=
  data ← memmove (sss_data s) (it + 1) it (end_p s - it);
  data ← array_set data it v;
  Ok (mkSSS data (start_p s) (end_p s + 1)).
Fixpoint sss_insert_loop (fuel : nat) (it : Z) (v : V) (s : SortedSmallSet) : outcome SortedSmallSet :=
  match fuel with
  | O => Fault OutOfFuel
  | S fuel =>
      if it <? end_p s then
        x ← array_get (sss_data s) it;
        if negb (value_cmp x v) then
          if negb (value_eqc x v) then shift_in it v s else Ok s
        else sss_insert_loop fuel (it + 1) v s
      else
        data ← array_set (sss_data s) (end_p s) v;
        Ok (mkSSS data (start_p s) (end_p s + 1))
  end.
Definition sss_Insert (v : V) (s : SortedSmallSet) : outcome SortedSmallSet :=
  sss_insert_loop (S (Z.to_nat (end_p s - start_p s))) (start_p s) v s.

(** [std::upper_bound]: the halving loop over [len] values from [first] on. *)
Fixpoint std_upper_bound (fuel : nat) (data : list V) (first len : Z) (v : V) : outcome Z :=
  match fuel with
  | O => Fault OutOfFuel
  | S fuel =>
      if len <=? 0 then Ok first
      else
        let half := Z.shiftr len 1 in
        x ← array_get data (first + half);
        if value_cmp v x then std_upper_bound fuel data first half v
        else std_upper_bound fuel data (first + half + 1) (len - half - 1) v
  end.
Definition sss_InsertNoDedup (v : V) (s : SortedSmallSet) : outcome SortedSmallSet :=
  it ← std_upper_bound (S (Z.to_nat (end_p s - start_p s))) (sss_data s) (start_p s) (end_p s - start_p s) v;
  shift_in it v s.

Definition sss_IsEmpty (s : SortedSmallSet) : bool := start_p s =? end_p s.
Definition sss_PopFront (s : SortedSmallSet) : outcome (V * SortedSmallSet) :=
  v ← array_get (sss_data s) (start_p s); Ok (v, mkSSS (sss_data s) (start_p s + 1) (end_p s)).
Definition sss_GetFront (s : SortedSmallSet) : outcome V := array_get (sss_data s) (start_p s).
Definition sss_GetSize (s : SortedSmallSet) : Z := end_p s - start_p s.
Definition sss_Invalidate (s : SortedSmallSet) : SortedSmallSet := mkSSS (sss_data s) (start_p s) (start_p s).

(** ** The list between the pointers *)
Definition sss_holds (s : SortedSmallSet) (l : list V) : Prop :=
  exists pre post, sss_data s = pre ++ l ++ post /\ start_p s = Z.of_nat (length pre)
    /\ end_p s = Z.of_nat (length pre + length l).
(** Room for one more value behind [end_p]. *)
Definition sss_room (s : SortedSmallSet) : Prop := end_p s < Z.of_nat (length (sss_data s)).

(** The array keeps its length and [end_p] moves by at most one. *)
Definition sss_grew (s s' : SortedSmallSet) : Prop :=
  length (sss_data s') = length (sss_data s) /\ start_p s' = start_p s /\ end_p s <= end_p s' <= end_p s + 1.

(** Insertion before the first value that is not smaller; an equal one stays alone. *)
Fixpoint insert_sorted (v : V) (l : list V) : list V :=
  match l with
  | [] => [v]
  | x :: l' => if value_cmp x v then x :: insert_sorted v l' else if value_eqc x v then l else v :: l
  end.
(** Insertion behind the values that are not greater. *)
Fixpoint insert_after (v : V) (l : list V) : list V :=
  match l with
  | [] => [v]
  | x :: l' => if value_cmp v x then v :: l else x :: insert_after v l'
  end.
End SortedSmallSet.
Arguments SortedSmallSet V : clear implicits.

Section SmallSetFacts.
Context {V : Type} (value_cmp value_eqc : V -> V -> bool).
(** A strict weak order and the equality it induces, which is what [std::less] and
    [std::equal_to] are, and what the comparisons of data nodes by their keys are. *)
Context (cmp_irrefl : forall a, value_cmp a a = false)
  (cmp_trans : forall a b c, value_cmp a b = true -> value_cmp b c = true -> value_cmp a c = true)
  (cmp_weak : forall a b c, value_cmp a b = true -> value_cmp a c = true \/ value_cmp c b = true)
  (eq_weak : forall a b, value_eqc a b = true <-> value_cmp a b = false /\ value_cmp b a = false).

Definition ordered (l : list V) : Prop := StronglySorted (fun a b => value_cmp a b = true) l.
Definition ordered_weak (l : list V) : Prop := StronglySorted (fun a b => value_cmp b a = false) l.

Lemma array_get_at {A} (a : list A) x c : array_get (a ++ x :: c) (Z.of_nat (length a)) = Ok x.
Proof. apply array_get_lookup. by rewrite list_lookup_middle. Qed.
Lemma shift_in_ok a b (y : V) c st v :
  shift_in (Z.of_nat (length a)) v (mkSSS (a ++ b ++ y :: c) st (Z.of_nat (length a + length b)))
  = Ok (mkSSS (a ++ v :: b ++ c) st (Z.of_nat (length a + length b) + 1)).
Proof.
  unfold shift_in, memmove, memcpy. cbn [sss_data end_p start_p].
  rewrite decide_True by (rewrite !length_app; simpl; lia). cbn [mbind outcome_bind].
  assert (Hd : exists z, take (Z.to_nat (Z.of_nat (length a) + 1)) (a ++ b ++ y :: c) = a ++ [z]).
  { replace (Z.to_nat (Z.of_nat (length a) + 1)) with (length a + 1)%nat by lia. rewrite take_app_add.
    destruct b as [|z b]; [by exists y|by exists z]. }
  destruct Hd as [z ->]. rewrite Nat2Z.id, drop_app_length.
  replace (Z.to_nat (Z.of_nat (length a + length b) - Z.of_nat (length a))) with (length b) by lia. rewrite take_app_length.
  replace (Z.to_nat (Z.of_nat (length a) + 1 + (Z.of_nat (length a + length b) - Z.of_nat (length a)))) with (length (a ++ b) + 1)%nat
    by (rewrite length_app; lia).
  rewrite (app_assoc a b), drop_app_add, <- app_assoc. simpl. by rewrite array_set_app.
Qed.

(** The loop stands behind [done] smaller values. *)
Lemma sss_insert_loop_ok v fuel : forall pre done l y post, (length l < fuel)%nat ->
  exists post', sss_insert_loop value_cmp value_eqc fuel (Z.of_nat (length (pre ++ done))) v
      (mkSSS (pre ++ (done ++ l) ++ y :: post) (Z.of_nat (length pre)) (Z.of_nat (length pre + length (done ++ l))))
    = Ok (mkSSS (pre ++ (done ++ insert_sorted value_cmp value_eqc v l) ++ post') (Z.of_nat (length pre))
           (Z.of_nat (length pre + length (done ++ insert_sorted value_cmp value_eqc v l)))).
Proof.
  induction fuel as [|fuel IH]; intros pre done l y post Hf; [lia|]. cbn [sss_insert_loop end_p sss_data start_p].
  destruct l as [|x l].
  - exists post. rewrite app_nil_r, length_app, Z.ltb_irrefl. rewrite app_assoc, <- length_app, array_set_app. cbn [mbind outcome_bind].
    simpl. rewrite <- !app_assoc. simpl. do 2 f_equal. rewrite !length_app. simpl. lia.
  - rewrite (proj2 (Z.ltb_lt _ _)) by (rewrite !length_app; simpl; lia).
    assert (Hget : array_get (pre ++ (done ++ x :: l) ++ y :: post) (Z.of_nat (length (pre ++ done))) = Ok x).
    { rewrite <- app_assoc, (app_assoc pre). simpl. apply array_get_at. }
    rewrite Hget. cbn [mbind outcome_bind insert_sorted]. destruct (value_cmp x v); cbn [negb].
    + destruct (IH pre (done ++ [x]) l y post) as (post' & Hrun); [simpl in Hf; lia|]. exists post'.
      rewrite <- !app_assoc in *. simpl in *. rewrite <- Hrun. do 2 f_equal. rewrite !length_app. simpl. lia.
    + destruct (value_eqc x v); cbn [negb]; [by exists (y :: post)|]. exists post.
      pose proof (shift_in_ok (pre ++ done) (x :: l) y post (Z.of_nat (length pre)) v) as Hsh.
      rewrite <- !app_assoc in *. cbn [app] in *. rewrite !length_app in *. rewrite Nat.add_assoc, Hsh. do 2 f_equal.
      cbn [length]. lia.
Qed.

Lemma std_upper_bound_ok data v b fuel : forall first len, len < Z.of_nat fuel -> 0 <= len -> first <= b <= first + len ->
  (forall i, first <= i < b -> exists x, array_get data i = Ok x /\ value_cmp v x = false) ->
  (forall i, b <= i < first + len -> exists x, array_get data i = Ok x /\ value_cmp v x = true) ->
  std_upper_bound value_cmp fuel data first len v = Ok b.
Proof.
  induction fuel as [|fuel IH]; intros first len Hf Hl Hb Hlo Hhi; [lia|]. cbn [std_upper_bound].
  destruct (Z.leb_spec len 0); [f_equal; lia|]. cbn zeta.
  assert (Hh : 0 <= Z.shiftr len 1 < len).
  { rewrite Z.shiftr_div_pow2 by lia. change (2 ^ 1) with 2. split; [apply Z.div_pos; lia|apply Z.div_lt; lia]. }
  destruct (Z.lt_ge_cases (first + Z.shiftr len 1) b).
  - destruct (Hlo (first + Z.shiftr len 1)) as (x & -> & Hx); [lia|]. cbn [mbind outcome_bind]. rewrite Hx.
    apply IH; [lia|lia|lia| |]; intros i Hi; [apply Hlo|apply Hhi]; lia.
  - destruct (Hhi (first + Z.shiftr len 1)) as (x & -> & Hx); [lia|]. cbn [mbind outcome_bind]. rewrite Hx.
    apply IH; [lia|lia|lia| |]; intros i Hi; [apply Hlo|apply Hhi]; lia.
Qed.
Lemma insert_after_split v l : ordered_weak l ->
  exists l1 l2, l = l1 ++ l2 /\ insert_after value_cmp v l = l1 ++ v :: l2
    /\ Forall (fun x => value_cmp v x = false) l1 /\ Forall (fun x => value_cmp v x = true) l2.
Proof.
  induction 1 as [|x l Hs IH Hx]; [by exists [], []|]. simpl. destruct (value_cmp v x) eqn:E.
  - exists [], (x :: l). split_and!; [done|done|done|]. constructor; [done|]. eapply Forall_impl; [exact Hx|]. intros y Hyx. simpl in Hyx.
    destruct (cmp_weak v x y E) as [|Hy]; [done|]. by rewrite Hyx in Hy.
  - destruct IH as (l1 & l2 & -> & Hins & H1 & H2). exists (x :: l1), l2. rewrite Hins. split_and!; try done. by constructor.
Qed.

(** What the insertions do to the order and to the values. *)
Lemma insert_sorted_ordered v l : ordered l -> ordered (insert_sorted value_cmp value_eqc v l).
Proof.
  induction 1 as [|x l Hs IH Hx]; simpl; [repeat constructor|]. destruct (value_cmp x v) eqn:E.
  - constructor; [done|]. clear IH. induction l as [|y l IHl]; simpl; [by repeat constructor|].
    apply Forall_cons in Hx as [Hxy Hx]. apply StronglySorted_inv in Hs as [Hs _].
    destruct (value_cmp y v); [constructor; [done|by apply IHl]|]. destruct (value_eqc y v); repeat (constructor; [done|]); done.
  - destruct (value_eqc x v) eqn:Ee; [by constructor|]. constructor; [by constructor|].
    assert (Hvx : value_cmp v x = true).
    { destruct (value_cmp v x) eqn:Ev; [done|]. by rewrite (proj2 (eq_weak x v)) in Ee. }
    constructor; [done|]. eapply Forall_impl; [exact Hx|]. intros y Hy. by eapply cmp_trans.
Qed.
Lemma insert_sorted_elem v l x : (forall a b, value_eqc a b = true <-> a = b) -> x ∈ insert_sorted value_cmp value_eqc v l <-> x = v \/ x ∈ l.
Proof.
  intros eq_ok. induction l as [|y l IH]; simpl; [set_solver|]. destruct (value_cmp y v); [rewrite !elem_of_cons, IH; naive_solver|].
  destruct (value_eqc y v) eqn:E; [|set_solver]. apply eq_ok in E as ->. set_solver.
Qed.
Lemma insert_after_ordered v l : ordered_weak l -> ordered_weak (insert_after value_cmp v l).
Proof.
  assert (Hanti : forall a b, value_cmp a b = true -> value_cmp b a = false).
  { intros a b Hab. destruct (value_cmp b a) eqn:E; [|done]. by rewrite <- (cmp_irrefl a), (cmp_trans a b a). }
  induction 1 as [|x l Hs IH Hx]; simpl; [repeat constructor|]. destruct (value_cmp v x) eqn:E.
  - constructor; [by constructor|]. constructor; [by apply Hanti|]. eapply Forall_impl; [exact Hx|]. intros y Hy. simpl in Hy.
    destruct (value_cmp y v) eqn:Ey; [|done]. by rewrite (cmp_trans y v x) in Hy.
  - constructor; [done|]. clear IH Hs. induction l as [|y l IHl]; simpl; [by repeat constructor|].
    apply Forall_cons in Hx as [Hxy Hx]. destruct (value_cmp v y); [by repeat (constructor; [done|])|constructor; [done|by apply IHl]].
Qed.
Lemma insert_after_perm v l : insert_after value_cmp v l ≡ₚ v :: l.
Proof. induction l as [|x l IH]; simpl; [done|]. case_match; [done|]. rewrite IH. apply Permutation_swap. Qed.

Lemma sss_room_split (s : SortedSmallSet V) l : sss_holds s l -> sss_room s ->
  exists pre (y : V) post, s = mkSSS (pre ++ l ++ y :: post) (Z.of_nat (length pre)) (Z.of_nat (length pre + length l)).
Proof.
  intros (pre & post & Hd & Hs & He) Hr. unfold sss_room in Hr. rewrite Hd, He, !length_app in Hr.
  destruct post as [|y post]; [simpl in Hr; lia|]. exists pre, y, post. destruct s; simpl in *. by subst.
Qed.
Lemma sss_insert_ok (s : SortedSmallSet V) l v : sss_holds s l -> sss_room s ->
  exists s', sss_Insert value_cmp value_eqc v s = Ok s' /\ sss_holds s' (insert_sorted value_cmp value_eqc v l).
Proof.
  intros Hh Hr. destruct (sss_room_split s l Hh Hr) as (pre & y & post & ->).
  destruct (sss_insert_loop_ok v (S (Z.to_nat (Z.of_nat (length pre + length l) - Z.of_nat (length pre)))) pre [] l y post) as (post' & Hrun); [lia|].
  unfold sss_Insert. cbn [end_p start_p]. rewrite app_nil_r in Hrun. cbn [app] in Hrun. rewrite Hrun. eexists. split; [done|].
  by exists pre, post'.
Qed.
Lemma sss_insert_no_dedup_ok (s : SortedSmallSet V) l v : sss_holds s l -> sss_room s -> ordered_weak l ->
  exists s', sss_InsertNoDedup value_cmp v s = Ok s' /\ sss_holds s' (insert_after value_cmp v l).
Proof.
  intros Hh Hr Ho. destruct (sss_room_split s l Hh Hr) as (pre & y & post & ->).
  destruct (insert_after_split v l Ho) as (l1 & l2 & -> & -> & H1 & H2). unfold sss_InsertNoDedup. cbn [end_p start_p sss_data].
  assert (Hget : forall k x, (l1 ++ l2) !! k = Some x -> array_get (pre ++ (l1 ++ l2) ++ y :: post) (Z.of_nat (length pre + k)) = Ok x).
  { intros k x Hk. apply array_get_lookup. rewrite lookup_app_r by lia. replace (length pre + k - length pre)%nat with k by lia.
    by apply lookup_app_l_Some. }
  rewrite (std_upper_bound_ok _ v (Z.of_nat (length pre + length l1))); rewrite ?length_app; try lia.
  - cbn [mbind outcome_bind]. pose proof (shift_in_ok (pre ++ l1) l2 y post (Z.of_nat (length pre)) v) as Hsh.
    rewrite <- !app_assoc in *. rewrite !length_app in Hsh. rewrite Nat.add_assoc, Hsh. eexists. split; [done|]. exists pre, post.
    simpl. rewrite <- !app_assoc, !length_app. simpl. split_and!; [done|done|lia].
  - intros i Hi. destruct (lookup_lt_is_Some_2 l1 (Z.to_nat (i - Z.of_nat (length pre)))) as [x Hx]; [lia|]. exists x.
    rewrite Forall_lookup in H1. split; [|by eapply H1].
    replace i with (Z.of_nat (length pre + Z.to_nat (i - Z.of_nat (length pre)))) at 1 by lia. apply Hget. by apply lookup_app_l_Some.
  - intros i Hi. destruct (lookup_lt_is_Some_2 l2 (Z.to_nat (i - Z.of_nat (length pre + length l1)))) as [x Hx]; [lia|]. exists x.
    rewrite Forall_lookup in H2. split; [|by eapply H2].
    replace i with (Z.of_nat (length pre + Z.to_nat (i - Z.of_nat (length pre)))) at 1 by lia. apply Hget.
    rewrite lookup_app_r by lia. by replace (Z.to_nat (i - Z.of_nat (length pre)) - length l1)%nat with (Z.to_nat (i - Z.of_nat (length pre + length l1))) by lia.
Qed.
Lemma shift_in_grew it v (s s' : SortedSmallSet V) : shift_in it v s = Ok s' -> sss_grew s s'.
Proof.
  unfold shift_in, memmove, memcpy, array_set. case_decide as Hm; [|done]. cbn [mbind outcome_bind]. case_decide; [|done]. intros [= <-].
  unfold sss_grew. simpl. rewrite length_insert, !length_app, !length_take, !length_drop. lia.
Qed.
Lemma sss_Insert_grew v (s s' : SortedSmallSet V) : sss_Insert value_cmp value_eqc v s = Ok s' -> sss_grew s s'.
Proof.
  unfold sss_Insert. generalize (start_p s) at 2. generalize (S (Z.to_nat (end_p s - start_p s))). intros fuel. induction fuel as [|fuel IH]; intros it; [discriminate|].
  cbn [sss_insert_loop]. case_match.
  - destruct (array_get _ _); cbn [mbind outcome_bind]; [|done]. destruct (value_cmp _ _); cbn [negb]; [apply IH|].
    destruct (value_eqc _ _); cbn [negb]; [|apply shift_in_grew]. intros [= <-]. split_and!; [done|done|lia|lia].
  - unfold array_set. case_decide; [|done]. cbn [mbind outcome_bind]. intros [= <-]. unfold sss_grew. simpl. rewrite length_insert. lia.
Qed.
Lemma sss_InsertNoDedup_grew v (s s' : SortedSmallSet V) : sss_InsertNoDedup value_cmp v s = Ok s' -> sss_grew s s'.
Proof. unfold sss_InsertNoDedup. destruct (std_upper_bound _ _ _ _ _ _); cbn [mbind outcome_bind]; [apply shift_in_grew|done]. Qed.
Lemma sss_pop_ok (s : SortedSmallSet V) v l : sss_holds s (v :: l) -> sss_GetFront s = Ok v /\ exists s', sss_PopFront s = Ok (v, s') /\ sss_holds s' l.
Proof.
  intros (pre & post & Hd & Hs & He). unfold sss_GetFront, sss_PopFront. rewrite Hd, Hs. simpl.
  rewrite array_get_at. split; [done|]. eexists. split; [done|]. exists (pre ++ [v]), post. simpl in *.
  rewrite <- app_assoc, length_app. simpl. split_and!; [done|lia|lia].
Qed.
End SmallSetFacts.

Lemma total_weak {V} (cmp : V -> V -> bool) :
  (forall a b c, cmp a b = true -> cmp b c = true -> cmp a c = true) ->
  (forall a b, cmp a b = false -> cmp b a = false -> a = b) ->
  forall a b c, cmp a b = true -> cmp a c = true \/ cmp c b = true.
Proof.
  intros Htr Htot a b c Hab. destruct (cmp a c) eqn:Eac; [by left|]. right. destruct (cmp c a) eqn:Eca; [by eapply Htr|].
  by rewrite <- (Htot a c Eac Eca).
Qed.

(** The sorted small set stays sorted.  While there is room, [Insert] adds a value to
    a strictly increasing set, keeps it strictly increasing and leaves a value that is
    already there alone; [InsertNoDedup] adds the value behind its equals; [PopFront] takes
    the least value; none of them touches memory outside the array.  Comparator and
    equality are as [std::less] and [std::equal_to] are: a strict total order. *)
Theorem small_set_correct {V} (value_cmp value_eqc : V -> V -> bool) s l v :
  (forall a, value_cmp a a = false) ->
  (forall a b c, value_cmp a b = true -> value_cmp b c = true -> value_cmp a c = true) ->
  (forall a b, value_cmp a b = false -> value_cmp b a = false -> a = b) ->
  (forall a b, value_eqc a b = true <-> a = b) ->
  sss_holds s l -> sss_room s ->
  (ordered value_cmp l -> exists s' l', sss_Insert value_cmp value_eqc v s = Ok s' /\ sss_holds s' l' /\ ordered value_cmp l'
     /\ forall x, x ∈ l' <-> x = v \/ x ∈ l)
  /\ (ordered_weak value_cmp l -> exists s' l', sss_InsertNoDedup value_cmp v s = Ok s' /\ sss_holds s' l'
     /\ ordered_weak value_cmp l' /\ l' ≡ₚ v :: l)
  /\ (forall x l', l = x :: l' -> sss_GetFront s = Ok x /\ exists s', sss_PopFront s = Ok (x, s') /\ sss_holds s' l').
Proof.
  intros Hirr Htr Htot Heq Hh Hr. pose proof (total_weak value_cmp Htr Htot) as Hweak.
  assert (Hew : forall a b, value_eqc a b = true <-> value_cmp a b = false /\ value_cmp b a = false).
  { intros a b. rewrite Heq. split; [by intros ->|]. intros [? ?]. by apply Htot. }
  split_and!.
  - intros Ho. destruct (sss_insert_ok value_cmp value_eqc s l v Hh Hr) as (s' & Hrun & Hh'). exists s', (insert_sorted value_cmp value_eqc v l).
    split_and!; [done|done|by apply insert_sorted_ordered|]. intros x. by apply insert_sorted_elem.
  - intros Ho. destruct (sss_insert_no_dedup_ok value_cmp Hweak s l v Hh Hr Ho) as (s' & Hrun & Hh').
    exists s', (insert_after value_cmp v l). split_and!; [done|done|by apply insert_after_ordered|apply insert_after_perm].
  - intros x l' ->. by apply sss_pop_ok.
Qed.

(** ** Concrete sets *)
Module SetExamples.
Lemma bloom_exact_witness :
  exists b, insert_values (fun v => v * 37) [3; 259; 7] (new_bloom [0; 0; 0; 0]) = Ok b
    /\ bf_Exists Z.eqb (fun v => v * 37) 259 b = Ok (existsb (Z.eqb 259) [3; 259; 7]) /\ bf_GetSize b = Z.of_nat (length [3; 259; 7]).
Proof.
  apply (bloom_exact Z.eqb (fun v => v * 37) [0; 0; 0; 0] [3; 259; 7] 259); [|simpl; lia]. intros a b ->%Z.eqb_eq. done.
Defined.
(** 3 and 259 share a bit when the hash is the identity: the comparison tells them apart. *)
Example collision :
  (b ← insert_values (fun v => v) [3] (new_bloom [0]); bf_Exists Z.eqb (fun v => v) 259 b) = Ok false.
Proof. vm_compute. reflexivity. Qed.

Definition two_values : SortedSmallSet Z := mkSSS [9; 1; 5; 0; 0] 1 3.
Lemma small_set_correct_witness :
  exists s' l', sss_Insert Z.ltb Z.eqb 3 two_values = Ok s' /\ sss_holds s' l' /\ ordered Z.ltb l'
    /\ forall x, x ∈ l' <-> x = 3 \/ x ∈ [1; 5].
Proof.
  refine (proj1 (small_set_correct Z.ltb Z.eqb two_values [1; 5] 3 _ _ _ _ _ _) _).
  - intros a. apply Z.ltb_irrefl.
  - intros a b c. rewrite !Z.ltb_lt. lia.
  - intros a b. rewrite !Z.ltb_ge. lia.
  - intros a b. apply Z.eqb_eq.
  - by exists [9], [0; 0].
  - vm_compute. reflexivity.
  - repeat constructor.
Defined.
End SetExamples.
