(* ===== verification/BwNode.v ===== *)
(** * The nodes of the BwTree

    Models the node classes of [src/src/indices/bw_tree/thread/bwtree.h] in the
    configuration its macros select: unique keys, compare-and-swap, delta updates,
    preallocation and search shortcuts; [KeyType] and [ValueType] are the 64-bit integers
    of the benchmark, compared with [std::less] and [std::equal_to].

    Every node is immutable once it is published, so a [const BaseNode *] is the node it
    points at; its address is the field [this], which is what a compare-and-swap compares.
    The pointers [low_key_p] and [high_key_p] are the pairs they point at; the base node
    in whose object the low key lies is [GetNodeHeader].  Memory of delta nodes comes from
    the preallocated chunk of their base node, which has no effect on their values. *)

From S2P Require Import Prelude BwSets.

(** ** Constants *)
Definition INVALID_NODE_ID : Z := 0.
Definition INNER_DELTA_CHAIN_LENGTH_THRESHOLD : Z := 2.
Definition LEAF_DELTA_CHAIN_LENGTH_THRESHOLD : Z := 24.
Definition INNER_NODE_SIZE_UPPER_THRESHOLD : Z := 64.
Definition INNER_NODE_SIZE_LOWER_THRESHOLD : Z := 16.
Definition LEAF_NODE_SIZE_UPPER_THRESHOLD : Z := 64.
Definition LEAF_NODE_SIZE_LOWER_THRESHOLD : Z := 16.

(** ** Keys *)
Abbreviation KeyNodeIDPair := (Z * Z)%type.
Abbreviation KeyValuePair := (Z * Z)%type.
Definition KeyCmpLess (a b : Z) : bool := a <? b.
Definition KeyCmpEqual (a b : Z) : bool := a =? b.
Definition KeyCmpGreaterEqual (a b : Z) : bool := negb (KeyCmpLess a b).
Definition KeyCmpGreater (a b : Z) : bool := KeyCmpLess b a.
Definition KeyCmpLessEqual (a b : Z) : bool := negb (KeyCmpGreater a b).

(** ** Node types and metadata *)
Inductive NodeType : Set :=
  | InnerType | InnerInsertType | InnerDeleteType | InnerSplitType | InnerRemoveType | InnerMergeType | InnerAbortType
  | LeafType | LeafInsertType | LeafSplitType | LeafDeleteType | LeafRemoveType | LeafMergeType | LeafUpdateType.
#[export] Instance NodeType_eq_dec : EqDecision NodeType.
Proof. solve_decision. Defined.
Definition type_code (t : NodeType) : Z :=
  match t with
  | InnerType => 0 | InnerInsertType => 1 | InnerDeleteType => 2 | InnerSplitType => 3 | InnerRemoveType => 4
  | InnerMergeType => 5 | InnerAbortType => 6 | LeafType => 7 | LeafInsertType => 8 | LeafSplitType => 9
  | LeafDeleteType => 10 | LeafRemoveType => 11 | LeafMergeType => 12 | LeafUpdateType => 13
  end.
Definition LeafStart : Z := 7.

(** The depth is a [short]. *)
Record NodeMetaData : Type := mkMeta {
  this : Z;
  low_key : KeyNodeIDPair;
  high_key : KeyNodeIDPair;
  depth : Z;
  item_count : Z }.
Definition new_meta (a : Z) (low high : KeyNodeIDPair) (p_depth count : Z) : NodeMetaData :=
  mkMeta a low high (i16 p_depth) count.

Inductive BaseNode : Type :=
  | Leaf (m : NodeMetaData) (items : list KeyValuePair)
  | LeafInsert (m : NodeMetaData) (item : KeyValuePair) (index_pair : Z * bool) (child_node_p : BaseNode)
  | LeafDelete (m : NodeMetaData) (item : KeyValuePair) (index_pair : Z * bool) (child_node_p : BaseNode)
  | LeafUpdate (m : NodeMetaData) (item old_item : KeyValuePair) (index_pair : Z * bool) (child_node_p : BaseNode)
  | LeafSplit (m : NodeMetaData) (insert_item : KeyNodeIDPair) (child_node_p : BaseNode)
  | LeafRemove (m : NodeMetaData) (removed_id : Z) (child_node_p : BaseNode)
  | LeafMerge (m : NodeMetaData) (delete_item : KeyNodeIDPair) (right_merge_p child_node_p : BaseNode)
  | Inner (m : NodeMetaData) (items : list KeyNodeIDPair)
  | InnerInsert (m : NodeMetaData) (item next_item : KeyNodeIDPair) (location : Z) (child_node_p : BaseNode)
  | InnerDelete (m : NodeMetaData) (item prev_item next_item : KeyNodeIDPair) (location : Z) (child_node_p : BaseNode)
  | InnerSplit (m : NodeMetaData) (insert_item : KeyNodeIDPair) (child_node_p : BaseNode)
  | InnerRemove (m : NodeMetaData) (removed_id : Z) (child_node_p : BaseNode)
  | InnerMerge (m : NodeMetaData) (delete_item : KeyNodeIDPair) (right_merge_p child_node_p : BaseNode)
  | InnerAbort (m : NodeMetaData) (child_node_p : BaseNode).

Definition metadata (n : BaseNode) : NodeMetaData :=
  match n with
  | Leaf m _ | LeafInsert m _ _ _ | LeafDelete m _ _ _ | LeafUpdate m _ _ _ _ | LeafSplit m _ _ | LeafRemove m _ _
  | LeafMerge m _ _ _ | Inner m _ | InnerInsert m _ _ _ _ | InnerDelete m _ _ _ _ _ | InnerSplit m _ _ | InnerRemove m _ _
  | InnerMerge m _ _ _ | InnerAbort m _ => m
  end.
Definition GetType (n : BaseNode) : NodeType :=
  match n with
  | Leaf _ _ => LeafType | LeafInsert _ _ _ _ => LeafInsertType | LeafDelete _ _ _ _ => LeafDeleteType
  | LeafUpdate _ _ _ _ _ => LeafUpdateType | LeafSplit _ _ _ => LeafSplitType | LeafRemove _ _ _ => LeafRemoveType
  | LeafMerge _ _ _ _ => LeafMergeType | Inner _ _ => InnerType | InnerInsert _ _ _ _ _ => InnerInsertType
  | InnerDelete _ _ _ _ _ _ => InnerDeleteType | InnerSplit _ _ _ => InnerSplitType | InnerRemove _ _ _ => InnerRemoveType
  | InnerMerge _ _ _ _ => InnerMergeType | InnerAbort _ _ => InnerAbortType
  end.
Definition address (n : BaseNode) : Z := this (metadata n).
(** Two [const BaseNode *] are compared by address. *)
Definition same_node (a b : BaseNode) : bool := address a =? address b.

Definition IsDeltaNode (n : BaseNode) : bool :=
  negb (bool_decide (GetType n = InnerType) || bool_decide (GetType n = LeafType)).
Definition IsInnerNode (n : BaseNode) : bool := bool_decide (GetType n = InnerType).
Definition IsRemoveNode (n : BaseNode) : bool :=
  bool_decide (GetType n = InnerRemoveType) || bool_decide (GetType n = LeafRemoveType).
Definition IsOnLeafDeltaChain (n : BaseNode) : bool := LeafStart <=? type_code (GetType n).
Definition GetLowKeyPair (n : BaseNode) : KeyNodeIDPair := low_key (metadata n).
Definition GetHighKeyPair (n : BaseNode) : KeyNodeIDPair := high_key (metadata n).
Definition GetLowKey (n : BaseNode) : Z := (GetLowKeyPair n).1.
Definition GetHighKey (n : BaseNode) : Z := (GetHighKeyPair n).1.
Definition GetNextNodeID (n : BaseNode) : Z := (GetHighKeyPair n).2.
Definition GetLowKeyNodeID (n : BaseNode) : Z := (GetLowKeyPair n).2.
Definition GetDepth (n : BaseNode) : Z := depth (metadata n).
Definition GetItemCount (n : BaseNode) : Z := item_count (metadata n).

(** The pointer to the low key is that of the child, down to the base node that holds it. *)
Fixpoint GetNodeHeader (n : BaseNode) : BaseNode :=
  match n with
  | Leaf _ _ | Inner _ _ => n
  | LeafInsert _ _ _ c | LeafDelete _ _ _ c | LeafUpdate _ _ _ _ c | LeafSplit _ _ c | LeafRemove _ _ c | LeafMerge _ _ _ c
  | InnerInsert _ _ _ _ c | InnerDelete _ _ _ _ _ c | InnerSplit _ _ c | InnerRemove _ _ c | InnerMerge _ _ _ c
  | InnerAbort _ c => GetNodeHeader c
  end.

(** ** Constructors of the delta nodes *)
Definition LeafInsertNode (a key v : Z) (c : BaseNode) (ip : Z * bool) : BaseNode :=
  LeafInsert (new_meta a (GetLowKeyPair c) (GetHighKeyPair c) (GetDepth c + 1) (GetItemCount c + 1)) (key, v) ip c.
Definition LeafDeleteNode (a key v : Z) (c : BaseNode) (ip : Z * bool) : BaseNode :=
  LeafDelete (new_meta a (GetLowKeyPair c) (GetHighKeyPair c) (GetDepth c + 1) (GetItemCount c - 1)) (key, v) ip c.
Definition LeafUpdateNode (a key old_value new_value : Z) (c : BaseNode) (ip : Z * bool) : BaseNode :=
  LeafUpdate (new_meta a (GetLowKeyPair c) (GetHighKeyPair c) (GetDepth c + 1) (GetItemCount c))
    (key, new_value) (key, old_value) ip c.
Definition LeafSplitNode (a : Z) (insert_item : KeyNodeIDPair) (c split_node : BaseNode) : BaseNode :=
  LeafSplit (new_meta a (GetLowKeyPair c) insert_item (GetDepth c) (GetItemCount c - GetItemCount split_node)) insert_item c.
Definition LeafRemoveNode (a removed : Z) (c : BaseNode) : BaseNode :=
  LeafRemove (new_meta a (GetLowKeyPair c) (GetHighKeyPair c) (GetDepth c) (GetItemCount c)) removed c.
Definition LeafMergeNode (a merge_key : Z) (right : BaseNode) (deleted : Z) (c : BaseNode) : BaseNode :=
  LeafMerge (new_meta a (GetLowKeyPair c) (GetHighKeyPair right) (GetDepth c + GetDepth right) (GetItemCount c + GetItemCount right))
    (merge_key, deleted) right c.
Definition InnerInsertNode (a : Z) (insert_item next_item : KeyNodeIDPair) (c : BaseNode) (location : Z) : BaseNode :=
  InnerInsert (new_meta a (GetLowKeyPair c) (GetHighKeyPair c) (GetDepth c + 1) (GetItemCount c + 1)) insert_item next_item location c.
Definition InnerDeleteNode (a : Z) (delete_item prev_item next_item : KeyNodeIDPair) (c : BaseNode) (location : Z) : BaseNode :=
  InnerDelete (new_meta a (GetLowKeyPair c) (GetHighKeyPair c) (GetDepth c + 1) (GetItemCount c - 1))
    delete_item prev_item next_item location c.
Definition InnerSplitNode (a : Z) (insert_item : KeyNodeIDPair) (c split_node : BaseNode) : BaseNode :=
  InnerSplit (new_meta a (GetLowKeyPair c) insert_item (GetDepth c) (GetItemCount c - GetItemCount split_node)) insert_item c.
Definition InnerRemoveNode (a removed : Z) (c : BaseNode) : BaseNode :=
  InnerRemove (new_meta a (GetLowKeyPair c) (GetHighKeyPair c) (GetDepth c) (GetItemCount c)) removed c.
Definition InnerMergeNode (a merge_key : Z) (right : BaseNode) (deleted : Z) (c : BaseNode) : BaseNode :=
  InnerMerge (new_meta a (GetLowKeyPair c) (GetHighKeyPair right) (GetDepth c + GetDepth right) (GetItemCount c + GetItemCount right))
    (merge_key, deleted) right c.
Definition InnerAbortNode (a : Z) (c : BaseNode) : BaseNode :=
  InnerAbort (new_meta a (GetLowKeyPair c) (GetHighKeyPair c) (GetDepth c) (GetItemCount c)) c.

(** ** Binary searches: [std::lower_bound] and [std::upper_bound] on the keys between two indices *)
Definition LowerBound (start_index end_index key : Z) (items : list (Z * Z)) : outcome Z :=
  lower_bound_loop (S (Z.to_nat (end_index - start_index))) items.*1 start_index (end_index - start_index) key.
Definition UpperBound (start_index end_index key : Z) (items : list (Z * Z)) : outcome Z :=
  std_upper_bound KeyCmpLess (S (Z.to_nat (end_index - start_index))) items.*1 start_index (end_index - start_index) key.
Definition GetSize (items : list (Z * Z)) : Z := Z.of_nat (length items).

(** ** Leaf nodes.  A new leaf has room for as many items as its metadata says. *)
Definition Leaf_Get (a p_depth count : Z) (low high : KeyNodeIDPair) : BaseNode := Leaf (new_meta a low high p_depth count) [].
Definition PushBack (e : KeyValuePair) (n : BaseNode) : outcome BaseNode :=
  match n with
  | Leaf m items =>
      if Z.of_nat (length items) <? item_count m then Ok (Leaf m (items ++ [e])) else Fault OutOfBounds
  | _ => Fault InactiveMember
  end.
(** [PushBack(src + first, src + last)] *)
Definition PushBackRange (src : list KeyValuePair) (first last : Z) (n : BaseNode) : outcome BaseNode :=
  match n with
  | Leaf m items =>
      if decide (0 <= first <= last /\ last <= Z.of_nat (length src)
                 /\ Z.of_nat (length items) + (last - first) <= item_count m) then
        Ok (Leaf m (items ++ take (Z.to_nat (last - first)) (drop (Z.to_nat first) src)))
      else Fault OutOfBounds
  | _ => Fault InactiveMember
  end.

(** The two loops of [FindSplitPoint]. *)
Fixpoint split_left (fuel : nat) (items : list KeyValuePair) (central_key it : Z) : outcome Z :=
  match fuel with
  | O => Fault OutOfFuel
  | S fuel =>
      if it =? 0 then Ok it
      else
        x ← array_get items it;
        if KeyCmpEqual x.1 central_key then split_left fuel items central_key (it - 1) else Ok it
  end.
Fixpoint split_right (fuel : nat) (items : list KeyValuePair) (central_key it : Z) : outcome Z :=
  match fuel with
  | O => Fault OutOfFuel
  | S fuel =>
      if it =? GetSize items then Ok it
      else
        x ← array_get items it;
        if KeyCmpEqual x.1 central_key then split_right fuel items central_key (it + 1) else Ok it
  end.
Definition FindSplitPoint (items : list KeyValuePair) : outcome Z :=
  let central_index := GetSize items / 2 in
  central_kvp ← array_get items central_index;
  it ← split_left (S (length items)) items central_kvp.1 (central_index - 1);
  let left_sibling_size := it + 1 in
  if LEAF_NODE_SIZE_LOWER_THRESHOLD <? left_sibling_size then Ok left_sibling_size
  else
    it ← split_right (S (length items)) items central_kvp.1 (central_index + 1);
    let right_sibling_size := GetSize items - it in
    if LEAF_NODE_SIZE_LOWER_THRESHOLD <? right_sibling_size then Ok it else Ok (-1).
(** [None] is the null pointer. *)
Definition Leaf_GetSplitSibling (a : Z) (n : BaseNode) : outcome (option BaseNode) :=
  match n with
  | Leaf m items =>
      split_item_index ← FindSplitPoint items;
      if split_item_index =? -1 then Ok None
      else
        first ← array_get items split_item_index;
        let sibling_size := GetSize items - split_item_index in
        leaf_node_p ← PushBackRange items split_item_index (GetSize items)
                        (Leaf_Get a 0 sibling_size (first.1, u64 (Z.lnot INVALID_NODE_ID)) (high_key m));
        Ok (Some leaf_node_p)
  | _ => Fault InactiveMember
  end.

(** ** Inner nodes.  The arrays of a new node have their final size. *)
Definition Inner_Get (a p_depth count : Z) (low high : KeyNodeIDPair) : BaseNode :=
  Inner (new_meta a low high p_depth count) (replicate (Z.to_nat count) (0, 0)).
Definition WriteItem (index : Z) (knp : KeyNodeIDPair) (n : BaseNode) : outcome BaseNode :=
  match n with
  | Inner m items => items ← array_set items index knp; Ok (Inner m items)
  | _ => Fault InactiveMember
  end.
(** [WriteItem(index, count, src_keys + first, src_ids + first)] *)
Definition WriteItems (index count : Z) (src : list KeyNodeIDPair) (first : Z) (n : BaseNode) : outcome BaseNode :=
  match n with
  | Inner m items => items ← memcpy items index src first count; Ok (Inner m items)
  | _ => Fault InactiveMember
  end.
Definition Inner_GetSplitSibling (a : Z) (n : BaseNode) : outcome BaseNode :=
  match n with
  | Inner m items =>
      let key_num := GetSize items in
      let split_item_index := key_num / 2 in
      let sibling_item_count := key_num - split_item_index in
      low ← array_get items split_item_index;
      WriteItems 0 sibling_item_count items split_item_index
        (Inner_Get a 0 sibling_item_count low (high_key m))
  | _ => Fault InactiveMember
  end.

(** ** Snapshots and the context of a traversal

    The constructors of both leave the members of the snapshots without a value: [None]. *)
Record NodeSnapshot : Type := mkSnapshot { node_id : option Z; node_p : option BaseNode }.
Record Context : Type := mkContext {
  search_key : Z;
  current_snapshot : NodeSnapshot;
  parent_snapshot : NodeSnapshot;
  abort_flag : bool }.
Definition new_Context (key : Z) : Context := mkContext key (mkSnapshot None None) (mkSnapshot None None) false.
