(* ===== verification/BwLeaf.v ===== *)
(** * Delta chains of leaf nodes

    Models the functions of [src/src/indices/bw_tree/thread/bwtree.h] that read a leaf
    delta chain: both [NavigateLeafNode]s (behind the sibling chain) and
    [CollectAllValuesOnLeaf], the consolidation.  A loop that follows [child_node_p] is a
    recursion over the node.  Casting a node to a class it does not have (the cases behind
    [assert(false)]) is a [Fault].  The theorems say that lookups and consolidation agree
    with the map a chain stands for. *)

From S2P Require Import Prelude BwSets BwNode.

(** [static_cast<const LeafDataNode *>]: the item and the index pair of a data node. *)
Definition leaf_item (n : BaseNode) : KeyValuePair :=
  match n with LeafInsert _ i _ _ | LeafDelete _ i _ _ | LeafUpdate _ i _ _ _ => i | _ => (0, 0) end.
Definition GetIndexPair (n : BaseNode) : Z * bool :=
  match n with LeafInsert _ _ ip _ | LeafDelete _ _ ip _ | LeafUpdate _ _ _ ip _ => ip | _ => (0, false) end.

(** ** [NavigateLeafNode(context_p, value_list)] *)

(** The base node: what the lower bound between the shortcut indices points at. *)
Definition base_search (items : list KeyValuePair) (key start_index end_index : Z) : outcome (Z * option KeyValuePair) :=
  let end_it := if end_index =? -1 then GetSize items else end_index in
  it ← LowerBound start_index end_it key items;
  if negb (it =? GetSize items) then
    x ← array_get items it;
    Ok (it, if KeyCmpEqual key x.1 then Some x else None)
  else Ok (it, None).
(** A delta with another key moves one of the indices. *)
Definition shortcut (key item_key index start_index end_index : Z) : Z * Z :=
  if KeyCmpGreater key item_key then (index, end_index) else (start_index, index).

Fixpoint navigate_values (n : BaseNode) (key start_index end_index : Z) : outcome (list Z) :=
  match n with
  | Leaf _ items =>
      '(_, x) ← base_search items key start_index end_index;
      Ok (match x with Some x => [x.2] | None => [] end)
  | LeafInsert _ item ip c =>
      if KeyCmpEqual key item.1 then Ok [item.2]
      else let '(st, en) := shortcut key item.1 ip.1 start_index end_index in navigate_values c key st en
  | LeafDelete _ item ip c =>
      if KeyCmpEqual key item.1 then Ok []
      else let '(st, en) := shortcut key item.1 ip.1 start_index end_index in navigate_values c key st en
  | LeafUpdate _ item _ ip c =>
      if KeyCmpEqual key item.1 then Ok [item.2]
      else let '(st, en) := shortcut key item.1 ip.1 start_index end_index in navigate_values c key st en
  | LeafMerge _ delete_item right_p c =>
      if KeyCmpGreaterEqual key delete_item.1 then navigate_values right_p key 0 (-1) else navigate_values c key 0 (-1)
  | LeafSplit _ _ c => navigate_values c key start_index end_index
  | _ => Fault InactiveMember
  end.

(** ** [NavigateLeafNode(context_p, search_value, index_pair_p)] *)
Fixpoint navigate_item (n : BaseNode) (key start_index end_index : Z) : outcome (option KeyValuePair * (Z * bool)) :=
  match n with
  | Leaf _ items =>
      '(it, x) ← base_search items key start_index end_index;
      Ok (x, (it, bool_decide (is_Some x)))
  | LeafInsert _ item ip c =>
      if KeyCmpEqual key item.1 then Ok (Some item, ip)
      else let '(st, en) := shortcut key item.1 ip.1 start_index end_index in navigate_item c key st en
  | LeafDelete _ item ip c =>
      if KeyCmpEqual key item.1 then Ok (None, ip)
      else let '(st, en) := shortcut key item.1 ip.1 start_index end_index in navigate_item c key st en
  | LeafUpdate _ item _ ip c =>
      if KeyCmpEqual key item.1 then Ok (Some item, ip)
      else let '(st, en) := shortcut key item.1 ip.1 start_index end_index in navigate_item c key st en
  | LeafMerge _ delete_item right_p c =>
      if KeyCmpGreaterEqual key delete_item.1 then navigate_item right_p key 0 (-1) else navigate_item c key 0 (-1)
  | LeafSplit _ _ c => navigate_item c key start_index end_index
  | _ => Fault InactiveMember
  end.

(** ** [CollectAllValuesOnLeaf] *)
Section Collect.
Context (key_hash : Z -> Z).

(** The comparator [f1] of the sorted set of data nodes. *)
Definition leaf_data_less (ldn1 ldn2 : BaseNode) : bool :=
  if KeyCmpLess (leaf_item ldn1).1 (leaf_item ldn2).1 then true
  else if KeyCmpEqual (leaf_item ldn1).1 (leaf_item ldn2).1 then (GetIndexPair ldn1).1 <? (GetIndexPair ldn2).1
  else false.

(** Both sets and the node under construction. *)
Record Collector : Type := mkCollector {
  sss : SortedSmallSet BaseNode;
  delta_set : BloomFilter (V := Z);
  new_leaf : BaseNode }.

(** From behind, past the items at or above the high key: [sss_end_it]. *)
Fixpoint sss_end_loop (fuel : nat) (data : list BaseNode) (start it high : Z) : outcome Z :=
  match fuel with
  | O => Fault OutOfFuel
  | S fuel =>
      if start <=? it then
        x ← array_get data it;
        if KeyCmpLess (leaf_item x).1 high then Ok it else sss_end_loop fuel data start (it - 1) high
      else Ok it
  end.
Definition find_sss_end (s : SortedSmallSet BaseNode) (high_key_pair : KeyNodeIDPair) : outcome Z :=
  if high_key_pair.2 =? INVALID_NODE_ID then Ok (end_p s)
  else
    it ← sss_end_loop (S (Z.to_nat (end_p s - start_p s))) (sss_data s) (start_p s) (end_p s - 1) high_key_pair.1;
    Ok (it + 1).

(** [while (sss.GetFront()->GetIndexPair().first == current_index)] *)
Fixpoint drain_loop (fuel : nat) (sss_end_it current_index : Z) (item_overwritten : bool)
    (s : SortedSmallSet BaseNode) (n : BaseNode) : outcome (bool * SortedSmallSet BaseNode * BaseNode) :=
  match fuel with
  | O => Fault OutOfFuel
  | S fuel =>
      front ← sss_GetFront s;
      if (GetIndexPair front).1 =? current_index then
        let item_overwritten := item_overwritten || (GetIndexPair front).2 in
        '(_, s) ← sss_PopFront s;
        n ← (if bool_decide (GetType front = LeafInsertType) || bool_decide (GetType front = LeafUpdateType)
             then PushBack (leaf_item front) n else Ok n);
        if start_p s =? sss_end_it then Ok (item_overwritten, s, n)
        else drain_loop fuel sss_end_it current_index item_overwritten s n
      else Ok (item_overwritten, s, n)
  end.
(** [while (sss.GetBegin() != sss_end_it)] *)
Fixpoint merge_loop (fuel : nat) (items : list KeyValuePair) (sss_end_it copy_start_index : Z)
    (s : SortedSmallSet BaseNode) (n : BaseNode) : outcome (Z * SortedSmallSet BaseNode * BaseNode) :=
  match fuel with
  | O => Fault OutOfFuel
  | S fuel =>
      if start_p s =? sss_end_it then Ok (copy_start_index, s, n)
      else
        front ← sss_GetFront s;
        let current_index := (GetIndexPair front).1 in
        n ← PushBackRange items copy_start_index current_index n;
        '(item_overwritten, s, n) ← drain_loop (S (Z.to_nat (sss_end_it - start_p s))) sss_end_it current_index false s n;
        merge_loop fuel items sss_end_it (if item_overwritten : bool then current_index + 1 else current_index) s n
  end.
Definition collect_base (items : list KeyValuePair) (high_key_pair : KeyNodeIDPair) (c : Collector) : outcome Collector :=
  copy_end_index ← (if high_key_pair.2 =? INVALID_NODE_ID then Ok (GetSize items)
                    else LowerBound 0 (GetSize items) high_key_pair.1 items);
  sss_end_it ← find_sss_end (sss c) high_key_pair;
  '(copy_start_index, s, n) ← merge_loop (S (Z.to_nat (sss_end_it - start_p (sss c)))) items sss_end_it 0 (sss c) (new_leaf c);
  n ← PushBackRange items copy_start_index copy_end_index n;
  Ok (mkCollector s (delta_set c) n).

(** A data node whose key no newer delta has. *)
Definition collect_delta (n : BaseNode) (c : Collector) : outcome Collector :=
  seen ← bf_Exists KeyCmpEqual key_hash (leaf_item n).1 (delta_set c);
  if seen : bool then Ok c
  else
    ds ← bf_Insert key_hash (leaf_item n).1 (delta_set c);
    s ← sss_InsertNoDedup leaf_data_less n (sss c);
    Ok (mkCollector s ds (new_leaf c)).
Definition collect_old (old_key : Z) (c : Collector) : outcome Collector :=
  seen ← bf_Exists KeyCmpEqual key_hash old_key (delta_set c);
  if seen : bool then Ok c
  else ds ← bf_Insert key_hash old_key (delta_set c); Ok (mkCollector (sss c) ds (new_leaf c)).

(** [high_key_pair] is the high key of the node the call started at. *)
Fixpoint CollectAllValuesOnLeafRecursive (n : BaseNode) (high_key_pair : KeyNodeIDPair) (c : Collector) : outcome Collector :=
  match n with
  | Leaf _ items => collect_base items high_key_pair c
  | LeafInsert _ _ _ child | LeafDelete _ _ _ child =>
      c ← collect_delta n c; CollectAllValuesOnLeafRecursive child high_key_pair c
  | LeafUpdate _ _ old_item _ child =>
      c ← collect_delta n c; c ← collect_old old_item.1 c; CollectAllValuesOnLeafRecursive child high_key_pair c
  | LeafSplit _ _ child => CollectAllValuesOnLeafRecursive child high_key_pair c
  | LeafMerge _ _ right_p child =>
      c ← CollectAllValuesOnLeafRecursive child (GetHighKeyPair child) c;
      CollectAllValuesOnLeafRecursive right_p (GetHighKeyPair right_p) c
  | _ => Fault InactiveMember
  end.

(** The arrays on the stack have no defined content. *)
Definition CollectAllValuesOnLeaf (a : Z) (n : BaseNode) : outcome BaseNode :=
  let leaf_node := Leaf_Get a 0 (GetItemCount n) (GetLowKeyPair n) (GetHighKeyPair n) in
  let delta_change_num := GetDepth n in
  let delta_set := new_bloom (replicate (Z.to_nat (delta_change_num * 2)) 0) in
  let s := new_sss (replicate (Z.to_nat delta_change_num) n) in
  c ← CollectAllValuesOnLeafRecursive n (GetHighKeyPair n) (mkCollector s delta_set leaf_node);
  Ok (new_leaf c).
End Collect.

(** ** The map a leaf chain stands for *)

(** [INVALID_NODE_ID] in the high key means there is no bound. *)
Definition below (high : KeyNodeIDPair) (k : Z) : Prop := high.2 = INVALID_NODE_ID \/ k < high.1.
#[export] Instance below_dec high k : Decision (below high k).
Proof. unfold below. apply _. Defined.
Definition in_range (n : BaseNode) (k : Z) : Prop := GetLowKey n <= k /\ below (GetHighKeyPair n) k.

(** What a data node does to the map below it. *)
Definition apply_delta (d : BaseNode) (m : gmap Z Z) : gmap Z Z :=
  match d with
  | LeafInsert _ item _ _ | LeafUpdate _ item _ _ _ => <[item.1 := item.2]> m
  | LeafDelete _ item _ _ => delete item.1 m
  | _ => m
  end.
Fixpoint leaf_map (n : BaseNode) : gmap Z Z :=
  match n with
  | Leaf _ items => list_to_map items
  | LeafInsert _ _ _ c | LeafDelete _ _ _ c | LeafUpdate _ _ _ _ c => apply_delta n (leaf_map c)
  | LeafSplit _ item c => filter (fun kv => kv.1 < item.1) (leaf_map c)
  | LeafRemove _ _ c => leaf_map c
  | LeafMerge _ _ right_p c => leaf_map c ∪ leaf_map right_p
  | _ => ∅
  end.
(** The base node the position of a key refers to. *)
Fixpoint branch_base (n : BaseNode) (key : Z) : list KeyValuePair :=
  match n with
  | Leaf _ items => items
  | LeafMerge _ d right_p c => if decide (d.1 <= key) then branch_base right_p key else branch_base c key
  | LeafInsert _ _ _ c | LeafDelete _ _ _ c | LeafUpdate _ _ _ _ c | LeafSplit _ _ c | LeafRemove _ _ c => branch_base c key
  | _ => []
  end.
(** Position of a key in a sorted array, and whether the array has it. *)
Definition rank (items : list KeyValuePair) (key : Z) : nat := length (filter (fun x => x.1 < key) items).
Definition index_ok (items : list KeyValuePair) (key : Z) (ip : Z * bool) : Prop :=
  ip = (Z.of_nat (rank items key), bool_decide (key ∈ items.*1)).

(** Metadata that a delta shares with its child. *)
Definition delta_meta (m : NodeMetaData) (c : BaseNode) (more : Z) : Prop :=
  low_key m = GetLowKeyPair c /\ high_key m = GetHighKeyPair c /\ depth m = GetDepth c + 1 /\ item_count m = GetItemCount c + more.
Definition data_ok (m : NodeMetaData) (item : KeyValuePair) (ip : Z * bool) (c : BaseNode) (more : Z) : Prop :=
  delta_meta m c more /\ in_range c item.1 /\ index_ok (branch_base c item.1) item.1 ip.

(** A well-formed chain.  Splits happen to consolidated nodes only; the branches of a merge
    are adjacent. *)
Fixpoint leaf_ok (n : BaseNode) : Prop :=
  match n with
  | Leaf m items =>
      ksorted items.*1 /\ Forall (fun k => (low_key m).1 <= k /\ below (high_key m) k) items.*1
      /\ depth m = 0 /\ item_count m = Z.of_nat (length items)
  | LeafInsert m item ip c => leaf_ok c /\ data_ok m item ip c 1 /\ leaf_map c !! item.1 = None
  | LeafDelete m item ip c => leaf_ok c /\ data_ok m item ip c (-1) /\ is_Some (leaf_map c !! item.1)
  | LeafUpdate m item old_item ip c =>
      leaf_ok c /\ data_ok m item ip c 0 /\ is_Some (leaf_map c !! item.1) /\ old_item.1 = item.1
  | LeafSplit m item c =>
      leaf_ok c /\ GetType c = LeafType /\ low_key m = GetLowKeyPair c /\ high_key m = item /\ item.2 <> INVALID_NODE_ID
      /\ in_range c item.1 /\ depth m = 0
      /\ item_count m = Z.of_nat (base.size (filter (fun kv => kv.1 < item.1) (leaf_map c)))
  | LeafMerge m d right_p c =>
      leaf_ok c /\ leaf_ok right_p /\ low_key m = GetLowKeyPair c /\ high_key m = GetHighKeyPair right_p
      /\ GetHighKey c = d.1 /\ GetNextNodeID c <> INVALID_NODE_ID /\ GetLowKey right_p = d.1
      /\ GetLowKey c <= d.1 /\ below (GetHighKeyPair right_p) d.1
      /\ depth m = GetDepth c + GetDepth right_p /\ item_count m = GetItemCount c + GetItemCount right_p
  | _ => False
  end.

(** *** Ranks *)
Lemma rank_le items key : (rank items key <= length items)%nat.
Proof. apply length_filter. Qed.
Lemma rank_split items key : ksorted items.*1 ->
  exists l1 l2, items = l1 ++ l2 /\ length l1 = rank items key
    /\ Forall (fun x => x.1 < key) l1 /\ Forall (fun x => key <= x.1) l2.
Proof.
  unfold rank. induction items as [|x items IH]; intros Hs; [by exists [], []|]. rewrite filter_cons.
  apply StronglySorted_inv in Hs as [Hs Hx]. destruct (IH Hs) as (l1 & l2 & -> & Hl & H1 & H2). case_decide as Hd.
  - exists (x :: l1), l2. split_and!; [done|simpl; lia|by constructor|done].
  - exists [], (x :: l1 ++ l2). apply Forall_fmap, Forall_app in Hx. split_and!; [done| |done|].
    + rewrite <- Hl. destruct l1 as [|y l1]; [done|]. apply Forall_cons in H1 as [? _]. destruct Hx as [[? _]%Forall_cons _]. simpl in *. lia.
    + constructor; [lia|]. apply Forall_app. destruct Hx as [Hx1 Hx2].
      split; [eapply Forall_impl; [exact Hx1|]|eapply Forall_impl; [exact Hx2|]]; simpl; intros; lia.
Qed.
Lemma rank_app l1 l2 key : Forall (fun x => x.1 < key) l1 -> Forall (fun x => key <= x.1) l2 -> rank (l1 ++ l2) key = length l1.
Proof.
  intros H1 H2. unfold rank. rewrite filter_app, length_app. induction H1 as [|x l1 Hx H1 IH]; simpl.
  - induction H2 as [|y l2 Hy H2 IH]; [done|]. rewrite filter_cons, decide_False by lia. exact IH.
  - rewrite filter_cons, decide_True by done. simpl. lia.
Qed.
Lemma rank_mono items k k' : k <= k' -> (rank items k <= rank items k')%nat.
Proof.
  intros Hk. unfold rank. induction items as [|x items IH]; [done|]. rewrite !filter_cons.
  destruct (decide (x.1 < k)), (decide (x.1 < k')); simpl; lia.
Qed.
Lemma rank_found items key : ksorted items.*1 ->
  (key ∈ items.*1 <-> exists v, items !! rank items key = Some (key, v)).
Proof.
  intros Hs. destruct (rank_split items key Hs) as (l1 & l2 & -> & Hl & H1 & H2). rewrite <- Hl, fmap_app, elem_of_app.
  assert (Hlook : (l1 ++ l2) !! length l1 = head l2).
  { rewrite lookup_app_r, Nat.sub_diag by lia. by destruct l2. }
  rewrite Hlook. rewrite fmap_app in Hs. apply ksorted_app in Hs as (_ & Hs2 & _). split.
  - intros [Hin|Hin]; apply list_elem_of_fmap in Hin as ([k v] & -> & Hin).
    + rewrite Forall_forall in H1. specialize (H1 _ Hin). simpl in *. lia.
    + destruct l2 as [|[k' v'] l2]; [by apply elem_of_nil in Hin|]. simpl. apply elem_of_cons in Hin as [[= -> ->]|Hin]; [by exists v'|].
      simpl in Hs2. apply StronglySorted_inv in Hs2 as [_ Hx]. rewrite Forall_forall in Hx. specialize (Hx k). apply Forall_cons in H2 as [? _]. simpl in *.
      assert (k' < k); [|lia]. apply Hx. apply list_elem_of_fmap. by exists (k, v).
  - intros [v Hh]. right. destruct l2 as [|x l2]; [done|]. injection Hh as ->. simpl. set_solver.
Qed.
Lemma fmap_split {A B} (f : A -> B) l (m1 m2 : list B) : f <$> l = m1 ++ m2 ->
  exists l1 l2, l = l1 ++ l2 /\ m1 = f <$> l1 /\ m2 = f <$> l2.
Proof. intros H. apply fmap_app_inv in H as (l1 & l2 & -> & -> & ->). eauto. Qed.
Lemma LowerBound_ok items key (st en : nat) : ksorted items.*1 ->
  (st <= rank items key)%nat -> (rank items key <= en)%nat -> (en <= length items)%nat ->
  LowerBound (Z.of_nat st) (Z.of_nat en) key items = Ok (Z.of_nat (rank items key)).
Proof.
  intros Hs H1 H2 H3. destruct (rank_split items key Hs) as (l1 & l2 & -> & Hl & Hlt & Hge).
  rewrite <- Hl in *. set (k1 := take st l1). set (k2 := drop (en - length l1) l2).
  assert (Hks : (l1 ++ l2).*1 = (k1.*1) ++ (drop st l1 ++ take (en - length l1) l2).*1 ++ k2.*1).
  { rewrite <- !fmap_app. f_equal. unfold k1, k2. rewrite <- app_assoc, (app_assoc (take st l1)), !take_drop. done. }
  destruct (lower_bound_loop_spec (S (en - st)) (l1 ++ l2).*1 (l1 ++ l2).*1 [] k1.*1 (drop st l1 ++ take (en - length l1) l2).*1 k2.*1 key)
    as (m1 & m2 & Hm & Hm1 & Hm2 & Hrun); [by rewrite app_nil_r|exact Hks|done| | | |].
  - apply Forall_fmap, Forall_take. exact Hlt.
  - apply Forall_fmap, Forall_drop. exact Hge.
  - rewrite length_fmap, length_app, length_drop, length_take. rewrite length_app in H3. lia.
  - unfold LowerBound. unfold k1 in Hrun. rewrite length_fmap in Hrun. rewrite length_app in H3. rewrite length_fmap, length_app, length_drop, !length_take in Hrun.
    replace (Z.of_nat en - Z.of_nat st) with (Z.of_nat (length l1 - st + (en - length l1) `min` length l2)) by lia.
    replace (S (Z.to_nat _)) with (S (en - st)) by lia. replace (Z.of_nat st) with (Z.of_nat (st `min` length l1)) by lia. rewrite Hrun.
    apply fmap_split in Hm as (n1 & n2 & Hn & -> & ->). rewrite Forall_fmap in Hm1, Hm2.
    by rewrite length_fmap, <- (rank_app n1 n2 key Hm1 Hm2), <- Hn, (rank_app l1 l2 key Hlt Hge).
Qed.

(** *** Maps and ranges *)
Lemma list_map_lookup items k v : ksorted items.*1 -> (list_to_map items : gmap Z Z) !! k = Some v <-> (k, v) ∈ items.
Proof. intros Hs%ksorted_NoDup. symmetry. by apply elem_of_list_to_map. Qed.
Lemma leaf_map_range n k v : leaf_ok n -> leaf_map n !! k = Some v -> in_range n k.
Proof.
  unfold in_range, GetLowKey, GetHighKeyPair, GetLowKeyPair. revert k v. induction n; intros k v; simpl; try tauto.
  - intros (Hs & Hr & _) Hk. apply list_map_lookup in Hk; [|done]. rewrite Forall_forall in Hr.
    apply Hr, list_elem_of_fmap. by exists (k, v).
  - intros (Hc & ((Hl & Hh & _) & Hr & _) & _). rewrite Hl, Hh. intros [[<- _]|[_ Hk]]%lookup_insert_Some; [done|by eapply IHn].
  - intros (Hc & ((Hl & Hh & _) & Hr & _) & _). rewrite Hl, Hh. intros [_ Hk]%lookup_delete_Some. by eapply IHn.
  - intros (Hc & ((Hl & Hh & _) & Hr & _) & _). rewrite Hl, Hh. intros [[<- _]|[_ Hk]]%lookup_insert_Some; [done|by eapply IHn].
  - intros (Hc & _ & Hl & Hh & _). rewrite Hl, Hh. intros [Hk Hlt]%map_lookup_filter_Some. simpl in Hlt.
    split; [by eapply IHn|by right].
  - intros (Hc & Hr & Hl & Hh & Hhc & Hnc & Hlr & Hld & Hbd & _). rewrite Hl, Hh.
    intros [Hk|[_ Hk]]%lookup_union_Some_raw.
    + destruct (IHn2 k v Hc Hk) as [? Hb]. split; [done|]. destruct Hb as [?|Hb]; [done|]. unfold GetHighKey, GetHighKeyPair in Hhc.
      destruct Hbd as [?|?]; [by left|right]. unfold GetHighKeyPair in *. lia.
    + destruct (IHn1 k v Hr Hk) as [? ?]. unfold GetLowKey, GetLowKeyPair in *. split; [lia|done].
Qed.
(** The branches of a merge have no key in common. *)
Lemma merge_left_below m d r c k v : leaf_ok (LeafMerge m d r c) -> leaf_map c !! k = Some v -> k < d.1.
Proof.
  intros (Hc & _ & _ & _ & Hh & Hn & _) Hk. destruct (leaf_map_range c k v Hc Hk) as [_ [?|?]]; [done|].
  unfold GetHighKey in *. lia.
Qed.
Lemma merge_right_above m d r c k v : leaf_ok (LeafMerge m d r c) -> leaf_map r !! k = Some v -> d.1 <= k.
Proof. intros (_ & Hr & _ & _ & _ & _ & Hl & _) Hk. destruct (leaf_map_range r k v Hr Hk) as [? _]. lia. Qed.
Lemma merge_disjoint m d r c : leaf_ok (LeafMerge m d r c) -> leaf_map c ##ₘ leaf_map r.
Proof.
  intros Hok. apply map_disjoint_spec. intros k v1 v2 H1 H2.
  pose proof (merge_left_below _ _ _ _ _ _ Hok H1). pose proof (merge_right_above _ _ _ _ _ _ Hok H2). lia.
Qed.
Lemma merge_lookup m d r c k : leaf_ok (LeafMerge m d r c) ->
  (leaf_map c ∪ leaf_map r) !! k = if decide (d.1 <= k) then leaf_map r !! k else leaf_map c !! k.
Proof.
  intros Hok. rewrite lookup_union. case_decide.
  - destruct (leaf_map c !! k) eqn:E; [|by rewrite option_union_left_id]. pose proof (merge_left_below _ _ _ _ _ _ Hok E). lia.
  - destruct (leaf_map r !! k) eqn:E; [|by rewrite option_union_right_id]. pose proof (merge_right_above _ _ _ _ _ _ Hok E). lia.
Qed.

(** *** The item count is exact *)
Lemma leaf_count n : leaf_ok n -> GetItemCount n = Z.of_nat (base.size (leaf_map n)).
Proof.
  unfold GetItemCount. induction n; simpl; try tauto.
  - intros (Hs & _ & _ & ->). f_equal. rewrite <- (length_map_to_list (list_to_map items : gmap Z Z)).
    apply Permutation_length. symmetry. apply map_to_list_to_map. by apply ksorted_NoDup.
  - intros (Hc & ((_ & _ & _ & ->) & _) & Hn). rewrite map_size_insert_None by done. unfold GetItemCount; rewrite IHn by done. lia.
  - intros (Hc & ((_ & _ & _ & ->) & _) & [v Hn]). rewrite map_size_delete_Some by eauto. unfold GetItemCount; rewrite IHn by done.
    assert (base.size (leaf_map n) <> 0%nat) by (eapply map_size_ne_0_lookup_2; eauto). lia.
  - intros (Hc & ((_ & _ & _ & ->) & _) & Hn & _). rewrite map_size_insert_Some by done. unfold GetItemCount; rewrite IHn by done. lia.
  - intros Hok. pose proof (merge_disjoint _ _ _ _ Hok). destruct Hok as (Hc & Hr & _ & _ & _ & _ & _ & _ & _ & _ & ->).
    rewrite map_size_disj_union by done. unfold GetItemCount; rewrite IHn1, IHn2 by done. lia.
Qed.

(** ** Lookups *)

(** The shortcut indices enclose the position of the key. *)
Definition bracket (items : list KeyValuePair) (key st en : Z) : Prop :=
  0 <= st <= Z.of_nat (rank items key) /\ (en = -1 \/ Z.of_nat (rank items key) <= en <= GetSize items).
Lemma base_search_ok items key st en : ksorted items.*1 -> bracket items key st en ->
  base_search items key st en = Ok (Z.of_nat (rank items key), pair key <$> (list_to_map items : gmap Z Z) !! key).
Proof.
  intros Hs [Hst Hen]. unfold base_search. pose proof (rank_le items key).
  assert (exists en' : nat, (if en =? -1 then GetSize items else en) = Z.of_nat en' /\ (rank items key <= en' <= length items)%nat) as (en' & -> & ?).
  { unfold GetSize in *. destruct (Z.eqb_spec en (-1)); [exists (length items); lia|exists (Z.to_nat en); lia]. }
  rewrite <- (Z2Nat.id st) by lia. rewrite LowerBound_ok by (try done; lia). cbn [mbind outcome_bind]. unfold GetSize.
  destruct (Z.eqb_spec (Z.of_nat (rank items key)) (Z.of_nat (length items))) as [He|Hne]; cbn [negb].
  - destruct (list_to_map items !! key) eqn:E; [|done]. apply list_map_lookup in E; [|done].
    destruct (proj1 (rank_found items key Hs)) as [v Hv]; [apply list_elem_of_fmap; by exists (key, z)|].
    apply lookup_lt_Some in Hv. lia.
  - destruct (lookup_lt_is_Some_2 items (rank items key)) as [[k v] Hx]; [lia|]. rewrite (array_get_lookup _ _ _ Hx). cbn [mbind outcome_bind fst].
    unfold KeyCmpEqual. destruct (Z.eqb_spec key k) as [<-|Hk].
    + rewrite (proj2 (list_map_lookup items key v Hs)); [done|]. by eapply list_elem_of_lookup_2.
    + destruct (list_to_map items !! key) eqn:E; [|done]. apply list_map_lookup in E; [|done].
      destruct (proj1 (rank_found items key Hs)) as [v' Hv']; [apply list_elem_of_fmap; by exists (key, z)|]. congruence.
Qed.

(** The base node of a chain without merges. *)
Fixpoint plain_base (n : BaseNode) : option (list KeyValuePair) :=
  match n with
  | Leaf _ items => Some items
  | LeafInsert _ _ _ c | LeafDelete _ _ _ c | LeafUpdate _ _ _ _ c | LeafSplit _ _ c => plain_base c
  | _ => None
  end.
Lemma plain_branch n items key : plain_base n = Some items -> branch_base n key = items.
Proof. induction n; simpl; naive_solver. Qed.
Definition brackets (n : BaseNode) (key st en : Z) : Prop := forall items, plain_base n = Some items -> bracket items key st en.

Lemma shortcut_brackets c key item (ip : Z * bool) st en :
  brackets c key st en -> index_ok (branch_base c item) item ip -> key <> item ->
  brackets c key (shortcut key item ip.1 st en).1 (shortcut key item ip.1 st en).2.
Proof.
  intros Hb Hip Hne items Hp. specialize (Hb items Hp) as [Hst Hen]. rewrite (plain_branch _ _ item Hp) in Hip. rewrite Hip.
  unfold shortcut, bracket, KeyCmpGreater, KeyCmpLess in *. pose proof (rank_le items item). unfold GetSize in *.
  destruct (Z.ltb_spec item key); cbn [fst snd].
  - pose proof (rank_mono items item key ltac:(lia)). split; [lia|done].
  - pose proof (rank_mono items key item ltac:(lia)). split; [done|]. right. lia.
Qed.

Lemma index_ok_item items key : ksorted items.*1 ->
  index_ok items key (Z.of_nat (rank items key), bool_decide (is_Some (pair key <$> (list_to_map items : gmap Z Z) !! key))).
Proof.
  intros Hs. unfold index_ok. f_equal. apply bool_decide_ext. rewrite fmap_is_Some. split.
  - intros [v Hv%list_map_lookup]; [|done]. apply list_elem_of_fmap. by exists (key, v).
  - intros ([k v] & -> & Hin)%list_elem_of_fmap. exists v. by apply list_map_lookup.
Qed.

(** One lemma for the three kinds of data nodes. *)
Lemma navigate_delta c key item ip st en : leaf_ok c ->
  (forall st en, in_range c key -> brackets c key st en -> exists ip, navigate_item c key st en = Ok (pair key <$> leaf_map c !! key, ip)
     /\ index_ok (branch_base c key) key ip) ->
  in_range c key -> brackets c key st en -> index_ok (branch_base c item) item ip -> key <> item ->
  exists ip', (let '(st', en') := shortcut key item ip.1 st en in navigate_item c key st' en') = Ok (pair key <$> leaf_map c !! key, ip')
    /\ index_ok (branch_base c key) key ip'.
Proof.
  intros Hok IH Hr Hb Hip Hne. pose proof (shortcut_brackets _ _ _ _ _ _ Hb Hip Hne) as Hb'.
  destruct (shortcut key item ip.1 st en) as [st' en']. by apply IH.
Qed.
Lemma navigate_item_ok n key : leaf_ok n -> forall st en, in_range n key -> brackets n key st en ->
  exists ip, navigate_item n key st en = Ok (pair key <$> leaf_map n !! key, ip) /\ index_ok (branch_base n key) key ip.
Proof.
  induction n; intros Hok st en Hr Hb; try done.
  - destruct Hok as (Hs & _). cbn [navigate_item]. rewrite base_search_ok by eauto. cbn [mbind outcome_bind]. eexists. split; [done|].
    by apply index_ok_item.
  - destruct Hok as (Hc & (Hm & Hri & Hip) & Hn). cbn [navigate_item leaf_map apply_delta]. unfold KeyCmpEqual. destruct (Z.eqb_spec key item.1) as [->|Hne].
    + exists index_pair. rewrite lookup_insert_eq. simpl. by destruct item.
    + rewrite lookup_insert_ne by done. apply (navigate_delta n key item.1 index_pair st en); auto. destruct Hm as (Hl & Hh & _).
      unfold in_range, GetLowKey, GetLowKeyPair, GetHighKeyPair in *. simpl in Hr. by rewrite Hl, Hh in Hr.
  - destruct Hok as (Hc & (Hm & Hri & Hip) & Hn). cbn [navigate_item leaf_map apply_delta]. unfold KeyCmpEqual. destruct (Z.eqb_spec key item.1) as [->|Hne].
    + exists index_pair. by rewrite lookup_delete_eq.
    + rewrite lookup_delete_ne by done. apply (navigate_delta n key item.1 index_pair st en); auto. destruct Hm as (Hl & Hh & _).
      unfold in_range, GetLowKey, GetLowKeyPair, GetHighKeyPair in *. simpl in Hr. by rewrite Hl, Hh in Hr.
  - destruct Hok as (Hc & (Hm & Hri & Hip) & Hn & Ho). cbn [navigate_item leaf_map apply_delta]. unfold KeyCmpEqual. destruct (Z.eqb_spec key item.1) as [->|Hne].
    + exists index_pair. rewrite lookup_insert_eq. simpl. by destruct item.
    + rewrite lookup_insert_ne by done. apply (navigate_delta n key item.1 index_pair st en); auto. destruct Hm as (Hl & Hh & _).
      unfold in_range, GetLowKey, GetLowKeyPair, GetHighKeyPair in *. simpl in Hr. by rewrite Hl, Hh in Hr.
  - destruct Hok as (Hc & _ & Hl & Hh & Hid & Hri & _). cbn [navigate_item leaf_map]. destruct Hr as [Hr1 Hr2].
    unfold in_range, GetLowKey, GetLowKeyPair, GetHighKeyPair in *. simpl in Hr1, Hr2. rewrite Hl in Hr1. rewrite Hh in Hr2. destruct Hr2 as [?|Hr2]; [done|].
    destruct (IHn Hc st en) as (ip & Hrun & Hip); [|done|].
    { split; [done|]. destruct Hri as [_ [?|?]]; [by left|right; lia]. }
    exists ip. split; [|done]. rewrite Hrun. do 3 f_equal. rewrite map_lookup_filter. destruct (leaf_map n !! key); [|done]. simpl. by case_guard.
  - pose proof Hok as (Hc & Hr2 & Hl & Hh & Hhc & Hnc & Hlr & _). cbn [navigate_item leaf_map branch_base].
    rewrite (merge_lookup _ _ _ _ _ Hok). unfold KeyCmpGreaterEqual, KeyCmpLess. destruct Hr as [Hra Hrb].
    unfold in_range, GetLowKey, GetHighKey, GetNextNodeID, GetLowKeyPair, GetHighKeyPair in *. simpl in Hra, Hrb. rewrite Hl in Hra. rewrite Hh in Hrb.
    assert (Hb0 : forall n', brackets n' key 0 (-1)) by (intros ? ? _; split; [lia|by left]).
    destruct (Z.ltb_spec key delete_item.1); cbn [negb].
    + rewrite !decide_False by lia. apply IHn2; [done| |done]. split; [done|]. right. lia.
    + rewrite !decide_True by lia. apply IHn1; [done| |done]. split; [lia|done].
Qed.
Lemma navigate_values_item n key : forall st en,
  navigate_values n key st en = (fun r => match r.1 with Some x => [x.2] | None => [] end) <$> navigate_item n key st en.
Proof.
  induction n; intros st en; simpl; try done; try (case_match; [done|]; case_match; auto).
  - by destruct (base_search items key st en) as [[? ?]|].
  - by case_match.
Qed.
Lemma brackets_all n key : brackets n key 0 (-1).
Proof. intros items _. split; [lia|by left]. Qed.
Lemma navigate_values_ok n key : leaf_ok n -> in_range n key -> navigate_values n key 0 (-1) = Ok (option_list (leaf_map n !! key)).
Proof.
  intros Hok Hr. rewrite navigate_values_item. destruct (navigate_item_ok n key Hok 0 (-1) Hr (brackets_all n key)) as (ip & -> & _).
  by destruct (leaf_map n !! key).
Qed.

(** ** Consolidation *)

(** *** The merge of a base node with the data nodes, as a function on lists *)
Definition slice {A} (l : list A) (a b : nat) : list A := take (b - a) (drop a l).
Definition is_put (d : BaseNode) : bool := bool_decide (GetType d = LeafInsertType) || bool_decide (GetType d = LeafUpdateType).
Definition puts (d : BaseNode) : list KeyValuePair := if is_put d then [leaf_item d] else [].
Definition delta_index (d : BaseNode) : nat := Z.to_nat (GetIndexPair d).1.
Fixpoint merge_items (items : list KeyValuePair) (pos stop : nat) (l : list BaseNode) : list KeyValuePair :=
  match l with
  | [] => slice items pos stop
  | d :: l =>
      slice items pos (delta_index d) ++ puts d
      ++ merge_items items (if (GetIndexPair d).2 then S (delta_index d) else delta_index d) stop l
  end.

Definition dkey (d : BaseNode) : Z := (leaf_item d).1.
(** Data nodes in the order of their keys, positioned on [items]. *)
Record positioned (items : list KeyValuePair) (l : list BaseNode) : Prop := {
  po_sorted : ksorted (dkey <$> l);
  po_index : Forall (fun d => index_ok items (dkey d) (GetIndexPair d)) l }.
Lemma positioned_cons items d l : positioned items (d :: l) ->
  index_ok items (dkey d) (GetIndexPair d) /\ positioned items l /\ Forall (fun d' => dkey d < dkey d') l.
Proof.
  intros [Hs Hi]. apply Forall_cons in Hi as [? ?]. rewrite fmap_cons in Hs. apply StronglySorted_inv in Hs as [? Hx]. rewrite Forall_fmap in Hx. split_and!; [done|by split|exact Hx].
Qed.
Lemma index_rank items d : index_ok items (dkey d) (GetIndexPair d) ->
  delta_index d = rank items (dkey d) /\ (GetIndexPair d).2 = bool_decide (dkey d ∈ items.*1).
Proof. unfold delta_index. intros ->. simpl. split; [lia|done]. Qed.

Lemma slice_lookup {A} (l : list A) a b x : x ∈ slice l a b <-> exists i, (a <= i < b)%nat /\ l !! i = Some x.
Proof.
  unfold slice. rewrite list_elem_of_lookup. split.
  - intros [i Hi]. apply lookup_take_Some in Hi as [Hi ?]. rewrite lookup_drop in Hi. exists (a + i)%nat. split; [lia|done].
  - intros (i & Hi & Hx). exists (i - a)%nat. apply lookup_take_Some. rewrite lookup_drop. replace (a + (i - a))%nat with i by lia. split; [done|lia].
Qed.
Lemma slice_split {A} (l : list A) a b c : (a <= b <= c)%nat -> slice l a c = slice l a b ++ slice l b c.
Proof.
  intros H. unfold slice. replace (c - a)%nat with ((b - a) + (c - b))%nat by lia. rewrite <- take_take_drop, drop_drop.
  by replace (a + (b - a))%nat with b by lia.
Qed.
Lemma slice_sorted (items : list KeyValuePair) a b : ksorted items.*1 -> ksorted (slice items a b).*1.
Proof.
  intros Hs. unfold slice. rewrite <- (take_drop a items), fmap_app in Hs. apply ksorted_app in Hs as (_ & Hs & _).
  rewrite <- (take_drop (b - a) (drop a items)), fmap_app in Hs. by apply ksorted_app in Hs as (? & _).
Qed.
Lemma rank_before (items : list KeyValuePair) key i x : ksorted items.*1 -> items !! i = Some x -> ((i < rank items key)%nat <-> x.1 < key).
Proof.
  intros Hs Hx. destruct (rank_split items key Hs) as (l1 & l2 & -> & Hl & H1 & H2). rewrite Forall_lookup in H1, H2. rewrite <- Hl. split.
  - intros Hi. rewrite lookup_app_l in Hx by done. by eapply H1.
  - intros Hlt. destruct (decide (i < length l1)%nat) as [|Hge]; [done|]. rewrite lookup_app_r in Hx by lia. specialize (H2 _ _ Hx). simpl in H2. lia.
Qed.

(** Data nodes that fit between two positions of [items]. *)
Record fits (items : list KeyValuePair) (pos stop : nat) (l : list BaseNode) : Prop := {
  fi_sorted : ksorted items.*1;
  fi_positioned : positioned items l;
  fi_from : Forall (fun d => pos <= rank items (dkey d))%nat l;
  fi_to : Forall (fun d => rank items (dkey d) <= stop /\ (dkey d ∈ items.*1 -> rank items (dkey d) < stop))%nat l;
  fi_le : (pos <= stop)%nat }.
Definition next_pos (items : list KeyValuePair) (d : BaseNode) : nat :=
  if bool_decide (dkey d ∈ items.*1) then S (rank items (dkey d)) else rank items (dkey d).
Lemma fits_cons items pos stop d l : fits items pos stop (d :: l) ->
  (pos <= rank items (dkey d) <= stop)%nat /\ Forall (fun d' => dkey d < dkey d') l /\ fits items (next_pos items d) stop l
  /\ delta_index d = rank items (dkey d) /\ (GetIndexPair d).2 = bool_decide (dkey d ∈ items.*1).
Proof.
  intros [Hs Hp [Hf1 Hf]%Forall_cons [[Ht1 Ht2] Ht]%Forall_cons Hle]. apply positioned_cons in Hp as (Hd & Hp & Hlt).
  destruct (index_rank _ _ Hd) as [Hix Hb]. split_and!; try done. unfold next_pos. split; try done.
  - rewrite !Forall_forall in *. intros d' Hd'. specialize (Hlt d' Hd'). case_bool_decide as Hin; [|apply rank_mono; lia].
    apply rank_found in Hin as [v Hv]; [|done]. apply (rank_before items (dkey d') _ _ Hs Hv). simpl. lia.
  - case_bool_decide; [by apply Ht2|done].
Qed.
Lemma next_pos_slice items d stop kv : ksorted items.*1 ->
  (kv ∈ slice items (next_pos items d) stop <-> kv ∈ slice items (rank items (dkey d)) stop /\ kv.1 <> dkey d).
Proof.
  intros Hs. rewrite !slice_lookup. unfold next_pos. case_bool_decide as Hin.
  - apply rank_found in Hin as [v Hv]; [|done]. split.
    + intros (i & Hi & Hx). split; [exists i; split; [lia|done]|]. intros Heq. assert (i = rank items (dkey d)); [|lia].
      apply ksorted_NoDup in Hs. eapply NoDup_lookup; [exact Hs| |].
      * by rewrite list_lookup_fmap, Hx.
      * rewrite list_lookup_fmap, Hv. simpl. by rewrite Heq.
    + intros [(i & Hi & Hx) Hne]. exists i. split; [|done].
      assert (i <> rank items (dkey d)) by (intros ->; rewrite Hv in Hx; simplify_eq/=; done). lia.
  - split; [|tauto]. intros (i & Hi & Hx). split; [by exists i|]. intros Heq. apply Hin. rewrite <- Heq.
    apply list_elem_of_fmap. exists kv. split; [done|by eapply list_elem_of_lookup_2].
Qed.

(** What is in the merged list: the puts, and the items of the base node no data node
    speaks of. *)
Lemma merge_items_elem items stop l : forall pos, fits items pos stop l ->
  forall kv, kv ∈ merge_items items pos stop l <->
    (exists d, d ∈ l /\ is_put d = true /\ kv = leaf_item d) \/ (kv ∈ slice items pos stop /\ Forall (fun d => dkey d <> kv.1) l).
Proof.
  induction l as [|d l IH]; intros pos Hp kv; cbn [merge_items].
  { split; [intros; right; by split|]. intros [(d & Hd & _)|[? _]]; [by apply elem_of_nil in Hd|done]. }
  pose proof (fi_sorted _ _ _ _ Hp) as Hs. apply fits_cons in Hp as (Hrange & Hlt & Hp & Hix & Hb). rewrite Hix, Hb.
  fold (next_pos items d). rewrite !elem_of_app, (IH _ Hp kv), (next_pos_slice items d stop kv Hs). clear IH.
  assert (Hputs : kv ∈ puts d <-> is_put d = true /\ kv = leaf_item d)
    by (unfold puts; destruct (is_put d); rewrite ?list_elem_of_singleton, ?elem_of_nil; naive_solver).
  assert (Hbefore : kv ∈ slice items pos (rank items (dkey d)) -> kv.1 < dkey d).
  { intros (i & Hi & Hx)%slice_lookup. apply (rank_before items (dkey d) i kv Hs Hx). lia. }
  rewrite Hputs, Forall_cons, (slice_split items pos (rank items (dkey d)) stop), elem_of_app by lia.
  assert (Hl : kv.1 < dkey d -> Forall (fun d' => dkey d' <> kv.1) l).
  { intros Hkv. eapply Forall_impl; [exact Hlt|]. simpl. intros. lia. }
  split.
  - intros [Hk|[[? ?]|[(d' & ? & ?)|[[Hk ?] ?]]]].
    + right. specialize (Hbefore Hk). split; [by left|]. split; [lia|by apply Hl].
    + left. exists d. split; [left|done].
    + left. exists d'. split; [by right|done].
    + right. split; [by right|]. by split; [intros ?|].
  - intros [(d' & [->|?]%elem_of_cons & ? & ?)|[[Hk|Hk] [? ?]]]; [tauto| |by left|].
    + right; right; left. by exists d'.
    + right; right; right. by split_and!; [|intros ?|].
Qed.
Lemma merge_items_sorted items stop l : forall pos, fits items pos stop l -> ksorted (merge_items items pos stop l).*1.
Proof.
  induction l as [|d l IH]; intros pos Hp; cbn [merge_items]; pose proof (fi_sorted _ _ _ _ Hp) as Hs; [by apply slice_sorted|].
  apply fits_cons in Hp as (Hrange & Hlt & Hp & Hix & Hb). rewrite Hix, Hb. fold (next_pos items d). rewrite !fmap_app.
  assert (Hrest : forall k, k ∈ (merge_items items (next_pos items d) stop l).*1 -> dkey d < k).
  { intros k (kv & -> & [(d' & Hd' & _ & ->)|[Hsl _]]%(merge_items_elem _ _ _ _ Hp))%list_elem_of_fmap.
    - rewrite Forall_forall in Hlt. by apply Hlt.
    - apply next_pos_slice in Hsl as [(i & Hi & Hx)%slice_lookup Hne]; [|done]. pose proof (rank_before items (dkey d) i kv Hs Hx). lia. }
  assert (Hbefore : forall k, k ∈ (slice items pos (rank items (dkey d))).*1 -> k < dkey d).
  { intros k (kv & -> & (i & Hi & Hx)%slice_lookup)%list_elem_of_fmap. apply (rank_before items (dkey d) i kv Hs Hx). lia. }
  assert (Hputs : forall k, k ∈ (puts d).*1 -> k = dkey d) by (unfold puts, dkey; destruct (is_put d); set_solver).
  apply ksorted_app. split_and!; [by apply slice_sorted| |].
  - apply ksorted_app. split_and!; [unfold puts; destruct (is_put d); repeat constructor|by apply IH|].
    intros x y ->%Hputs ?. by apply Hrest.
  - intros x y Hx%Hbefore [->%Hputs|Hy%Hrest]%elem_of_app; lia.
Qed.

(** *** The loops compute the merge *)
Definition all_puts (l : list BaseNode) : list KeyValuePair := mjoin (puts <$> l).
Lemma all_puts_length items stop l : forall pos, (length (all_puts l) <= length (merge_items items pos stop l))%nat.
Proof.
  induction l as [|d l IH]; intros pos; [simpl; lia|]. change (all_puts (d :: l)) with (puts d ++ all_puts l). cbn [merge_items].
  rewrite !length_app. specialize (IH (if (GetIndexPair d).2 then S (delta_index d) else delta_index d)). lia.
Qed.
Lemma puts_pushed d m out : (length out + length (puts d) <= Z.to_nat (item_count m))%nat -> 0 <= item_count m ->
  (if bool_decide (GetType d = LeafInsertType) || bool_decide (GetType d = LeafUpdateType)
   then PushBack (leaf_item d) (Leaf m out) else Ok (Leaf m out)) = Ok (Leaf m (out ++ puts d)).
Proof.
  unfold puts, is_put, PushBack. destruct (_ || _); simpl; intros; [|by rewrite app_nil_r].
  by rewrite (proj2 (Z.ltb_lt _ _)) by lia.
Qed.
Lemma holds_start (s s' : SortedSmallSet BaseNode) d l : sss_holds s (d :: l) -> sss_PopFront s = Ok (d, s') -> start_p s' = start_p s + 1.
Proof. intros Hh. unfold sss_PopFront. destruct (array_get _ _); simpl; [|done]. intros [= -> <-]. done. Qed.

Lemma drain_loop_ok cur l2 l : forall fuel ow s m out end_it, (length l < fuel)%nat -> l <> [] -> 0 <= item_count m ->
  sss_holds s (l ++ l2) -> end_it = start_p s + Z.of_nat (length l) -> (length out + length (all_puts l) <= Z.to_nat (item_count m))%nat ->
  exists l1 l' s', l = l1 ++ l' /\ Forall (fun d => (GetIndexPair d).1 = cur) l1 /\ Forall (fun d => (GetIndexPair d).1 <> cur) (take 1 l')
    /\ drain_loop fuel end_it cur ow s (Leaf m out) = Ok (ow || existsb (fun d => (GetIndexPair d).2) l1, s', Leaf m (out ++ all_puts l1))
    /\ sss_holds s' (l' ++ l2) /\ end_it = start_p s' + Z.of_nat (length l').
Proof.
  induction l as [|d l IH]; intros fuel ow s m out end_it Hf Hne Hc Hh He Hroom; [done|]. destruct fuel as [|fuel]; [lia|]. cbn [drain_loop].
  destruct (sss_pop_ok s d (l ++ l2) Hh) as (-> & s1 & Hpop & Hh1). pose proof (holds_start _ _ _ _ Hh Hpop) as Hst. cbn [mbind outcome_bind].
  destruct (Z.eqb_spec (GetIndexPair d).1 cur) as [Heq|Hneq].
  - rewrite Hpop. cbn [mbind outcome_bind]. change (all_puts (d :: l)) with (puts d ++ all_puts l) in Hroom. rewrite length_app in Hroom.
    rewrite puts_pushed by lia. cbn [mbind outcome_bind]. simpl in He. destruct l as [|d2 l].
    + rewrite (proj2 (Z.eqb_eq _ _)) by (simpl in He; lia). exists [d], [], s1. simpl. unfold all_puts. simpl. rewrite app_nil_r, orb_false_r.
      split_and!; [done|by repeat constructor|done|done|done|simpl in *; lia].
    + rewrite (proj2 (Z.eqb_neq _ _)) by (simpl in He; lia).
      destruct (IH fuel (ow || (GetIndexPair d).2) s1 m (out ++ puts d) end_it) as (l1 & l' & s' & Hl & Hl1 & Hl' & Hrun & Hh' & He');
        [simpl in *; lia|done|done|done|simpl in *; lia|rewrite length_app; lia|].
      exists (d :: l1), l', s'. rewrite Hrun, Hl. unfold all_puts. simpl. rewrite <- app_assoc, orb_assoc.
      split_and!; [done|by constructor|done|done|done|done].
  - exists [], (d :: l), s. simpl. rewrite orb_false_r. unfold all_puts. simpl. rewrite app_nil_r.
    split_and!; [done|constructor|by repeat constructor|done|done|simpl in He; lia].
Qed.

Lemma merge_items_group items stop l' cur l1 : forall pos, l1 <> [] -> fits items pos stop (l1 ++ l') ->
  Forall (fun d => delta_index d = cur) l1 ->
  let next := if existsb (fun d => (GetIndexPair d).2) l1 then S cur else cur in
  merge_items items pos stop (l1 ++ l') = slice items pos cur ++ all_puts l1 ++ merge_items items next stop l'
  /\ fits items next stop l' /\ (pos <= cur <= stop)%nat.
Proof.
  induction l1 as [|d l1 IH]; intros pos Hne Hfit Hcur; [done|]. apply Forall_cons in Hcur as [Hd Hcur]. cbn beta in Hd. cbn [app merge_items existsb]. rewrite Hd.
  change (all_puts (d :: l1)) with (puts d ++ all_puts l1). apply fits_cons in Hfit as (Hrange & _ & Hfit & Hix & Hb).
  assert (Hnp : next_pos items d = if (GetIndexPair d).2 then S cur else cur) by (unfold next_pos; rewrite <- Hb; rewrite Hix in Hd; by rewrite Hd).
  rewrite Hnp in Hfit. destruct l1 as [|d2 l1]; cbn zeta.
  { cbn [existsb app]. rewrite orb_false_r. change (all_puts []) with (@nil KeyValuePair). rewrite app_nil_r. split_and!; [done|done|lia|lia]. }
  assert (H2 : (GetIndexPair d).2 = false).
  { destruct (GetIndexPair d).2; [|done]. apply fits_cons in Hfit as (Hr2 & _ & _ & Hix2 & _). apply Forall_cons in Hcur as [Hc2 _]. cbn beta in Hc2. lia. }
  rewrite H2, orb_false_l in *. destruct (IH cur) as (-> & Hfit' & _); [done..|]. split_and!; [|done|lia|lia].
  unfold slice at 2. by rewrite Nat.sub_diag, <- app_assoc.
Qed.
Lemma push_range items m out pos cur : (pos <= cur)%nat -> (cur <= length items)%nat -> 0 <= item_count m ->
  (length out + length (slice items pos cur) <= Z.to_nat (item_count m))%nat ->
  PushBackRange items (Z.of_nat pos) (Z.of_nat cur) (Leaf m out) = Ok (Leaf m (out ++ slice items pos cur)).
Proof.
  intros. unfold slice in *. rewrite length_take, length_drop in *. unfold PushBackRange. rewrite decide_True by lia. do 4 f_equal; [|f_equal]; lia.
Qed.
Lemma merge_loop_ok items stop l2 m : (stop <= length items)%nat -> 0 <= item_count m ->
  forall fuel l pos s out end_it, (length l < fuel)%nat -> fits items pos stop l -> sss_holds s (l ++ l2) ->
  end_it = start_p s + Z.of_nat (length l) -> (length out + length (merge_items items pos stop l) <= Z.to_nat (item_count m))%nat ->
  exists pos' s' out', merge_loop fuel items end_it (Z.of_nat pos) s (Leaf m out) = Ok (Z.of_nat pos', s', Leaf m out')
    /\ sss_holds s' l2 /\ (pos' <= stop)%nat /\ out' ++ slice items pos' stop = out ++ merge_items items pos stop l.
Proof.
  intros Hstop Hc. induction fuel as [|fuel IH]; intros l pos s out end_it Hf Hfit Hh He Hroom; [lia|]. cbn [merge_loop].
  destruct l as [|d l].
  { rewrite (proj2 (Z.eqb_eq _ _)) by (simpl in He; lia). exists pos, s, out. split_and!; [done|done|apply Hfit|done]. }
  rewrite (proj2 (Z.eqb_neq _ _)) by (simpl in He; lia). destruct (sss_pop_ok s d (l ++ l2) Hh) as (-> & _). cbn [mbind outcome_bind].
  destruct (fits_cons _ _ _ _ _ Hfit) as (Hrange & _ & _ & Hix & _).
  assert (Hcur : (GetIndexPair d).1 = Z.of_nat (delta_index d)).
  { pose proof (po_index _ _ (fi_positioned _ _ _ _ Hfit)) as Hi. apply Forall_cons in Hi as [Hi _]. rewrite Hix, Hi. done. }
  rewrite Hcur. pose proof Hroom as Hroom'. cbn [merge_items] in Hroom'. rewrite !length_app in Hroom'.
  rewrite push_range by lia. cbn [mbind outcome_bind].
  destruct (drain_loop_ok (Z.of_nat (delta_index d)) l2 (d :: l) (S (Z.to_nat (end_it - start_p s))) false s m (out ++ slice items pos (delta_index d)) end_it)
    as (l1 & l' & s1 & Hl & Hl1 & Hl' & Hrun & Hh1 & He1); [lia|done|done|done|done| |].
  { rewrite length_app. change (all_puts (d :: l)) with (puts d ++ all_puts l). rewrite length_app.
    pose proof (all_puts_length items stop l (if (GetIndexPair d).2 then S (delta_index d) else delta_index d)). lia. }
  rewrite Hrun. cbn [mbind outcome_bind]. rewrite orb_false_l.
  assert (l1 <> []) as Hne.
  { intros ->. simpl in Hl. subst l'. apply Forall_cons in Hl' as [Hl' _]. by rewrite Hcur in Hl'. }
  rewrite Hl in Hfit, Hroom |- *. destruct (merge_items_group items stop l' (delta_index d) l1 pos Hne Hfit) as (Hmi & Hfit' & _).
  { eapply Forall_impl; [exact Hl1|]. intros d' Hd'. simpl in Hd'. unfold delta_index at 1. lia. }
  set (next := if existsb _ l1 then S (delta_index d) else delta_index d) in *.
  assert (Hlen : (length l' < length (d :: l))%nat) by (rewrite Hl, length_app; destruct l1; [done|simpl; lia]).
  rewrite Hmi in Hroom |- *. rewrite !length_app in Hroom.
  destruct (IH l' next s1 ((out ++ slice items pos (delta_index d)) ++ all_puts l1) end_it) as (pos' & s' & out' & Hrun' & Hh' & Hp' & Ho');
    [lia|done|done|done|rewrite !length_app; lia|].
  exists pos', s', out'. replace (if existsb _ l1 then Z.of_nat (delta_index d) + 1 else Z.of_nat (delta_index d)) with (Z.of_nat next)
    by (unfold next; destruct (existsb _ l1); lia).
  rewrite Hrun'. split_and!; [done|done|done|]. by rewrite Ho', <- !app_assoc.
Qed.

(** *** The base node *)
Lemma sss_end_loop_ok (data : list BaseNode) high l1 l2 pre post : data = pre ++ (l1 ++ l2) ++ post ->
  Forall (fun d => dkey d < high) l1 -> Forall (fun d => high <= dkey d) l2 ->
  forall fuel, (length (l1 ++ l2) < fuel)%nat ->
  sss_end_loop fuel data (Z.of_nat (length pre)) (Z.of_nat (length pre + length (l1 ++ l2)) - 1) high
  = Ok (Z.of_nat (length pre + length l1) - 1).
Proof.
  intros Hd H1 H2. revert post Hd. induction l2 as [|d l2 IH] using rev_ind; intros post Hd fuel Hf.
  - rewrite app_nil_r in *. destruct fuel as [|fuel]; [lia|]. cbn [sss_end_loop]. destruct l1 as [|x l1] using rev_ind.
    + rewrite (proj2 (Z.leb_gt _ _)); [done|]. simpl. lia.
    + clear IHl1. rewrite length_app in *. simpl in *. rewrite (proj2 (Z.leb_le _ _)) by lia.
      replace (Z.of_nat (length pre + (length l1 + 1)) - 1) with (Z.of_nat (length (pre ++ l1))) by (rewrite length_app; lia).
      rewrite Hd, <- app_assoc, (app_assoc pre l1). simpl. rewrite array_get_at. cbn [mbind outcome_bind].
      apply Forall_app in H1 as [_ [Hx _]%Forall_cons]. unfold KeyCmpLess. cbn beta in Hx. unfold dkey in Hx. by rewrite (proj2 (Z.ltb_lt _ _) Hx).
  - destruct fuel as [|fuel]; [lia|]. cbn [sss_end_loop]. rewrite app_assoc in *. rewrite (length_app (l1 ++ l2)) in *. simpl in *.
    rewrite (proj2 (Z.leb_le _ _)) by lia.
    replace (Z.of_nat (length pre + (length (l1 ++ l2) + 1)) - 1) with (Z.of_nat (length (pre ++ l1 ++ l2))) by (rewrite (length_app pre); lia).
    assert (Hd' : data = (pre ++ l1 ++ l2) ++ d :: post) by (rewrite Hd, <- !app_assoc; done).
    rewrite Hd' at 1. rewrite array_get_at. cbn [mbind outcome_bind]. apply Forall_app in H2 as [H2 [Hx _]%Forall_cons].
    unfold KeyCmpLess. cbn beta in Hx. unfold dkey in Hx. rewrite (proj2 (Z.ltb_ge _ _) Hx).
    rewrite <- (IH H2 (d :: post)) with (fuel := fuel); [|by rewrite Hd', <- !app_assoc|lia]. f_equal. rewrite (length_app pre). lia.
Qed.
Lemma find_sss_end_ok (s : SortedSmallSet BaseNode) l1 l2 high : sss_holds s (l1 ++ l2) ->
  Forall (fun d => below high (dkey d)) l1 -> Forall (fun d => ~ below high (dkey d)) l2 ->
  find_sss_end s high = Ok (start_p s + Z.of_nat (length l1)).
Proof.
  intros (pre & post & Hd & Hst & Hen) H1 H2. unfold find_sss_end. destruct (Z.eqb_spec high.2 INVALID_NODE_ID) as [He|Hne].
  - destruct l2 as [|d l2]; [|apply Forall_cons in H2 as [H2 _]; exfalso; apply H2; by left]. rewrite app_nil_r in *. f_equal. lia.
  - rewrite Hst, Hen. rewrite (sss_end_loop_ok _ high.1 l1 l2 pre post Hd); [cbn [mbind outcome_bind]; f_equal; lia| | |lia].
    + eapply Forall_impl; [exact H1|]. intros d [?|?]; [done|lia].
    + eapply Forall_impl; [exact H2|]. intros d Hd'. simpl in Hd'. destruct (Z.le_gt_cases high.1 (dkey d)); [done|]. exfalso. apply Hd'. by right.
Qed.

(** Where the copying of a base node ends. *)
Definition stop_at (items : list KeyValuePair) (high : KeyNodeIDPair) : nat :=
  if high.2 =? INVALID_NODE_ID then length items else rank items high.1.
Lemma stop_at_le items high : (stop_at items high <= length items)%nat.
Proof. unfold stop_at. case_match; [done|apply rank_le]. Qed.
Lemma stop_at_elem items high kv : ksorted items.*1 -> (kv ∈ slice items 0 (stop_at items high) <-> kv ∈ items /\ below high kv.1).
Proof.
  intros Hs. rewrite slice_lookup, list_elem_of_lookup. unfold stop_at, below. destruct (Z.eqb_spec high.2 INVALID_NODE_ID).
  - split; [naive_solver|]. intros [[i Hi] _]. exists i. split; [apply lookup_lt_Some in Hi; lia|done].
  - split.
    + intros (i & Hi & Hx). split; [by exists i|]. right. apply (rank_before items high.1 i kv Hs Hx). lia.
    + intros [[i Hi] [?|Hlt]]; [done|]. exists i. split; [|done]. pose proof (rank_before items high.1 i kv Hs Hi). lia.
Qed.
Lemma fits_below items high l : ksorted items.*1 -> positioned items l -> Forall (fun d => below high (dkey d)) l -> fits items 0 (stop_at items high) l.
Proof.
  intros Hs Hp Hb. split; [done|done|apply Forall_forall; intros; lia| |lia]. eapply Forall_impl; [exact Hb|]. intros d Hd. simpl in Hd.
  unfold stop_at, below in *. destruct (Z.eqb_spec high.2 INVALID_NODE_ID).
  - split; [apply rank_le|]. intros (v & Hv)%rank_found; [|done]. by apply lookup_lt_Some in Hv.
  - destruct Hd as [?|Hd]; [done|]. split; [apply rank_mono; lia|]. intros (v & Hv)%rank_found; [|done].
    by apply (rank_before items high.1 _ _ Hs Hv).
Qed.
Lemma collect_base_ok items high (c : Collector) l1 l2 m out : ksorted items.*1 -> positioned items l1 ->
  new_leaf c = Leaf m out -> 0 <= item_count m -> sss_holds (sss c) (l1 ++ l2) ->
  Forall (fun d => below high (dkey d)) l1 -> Forall (fun d => ~ below high (dkey d)) l2 ->
  (length out + length (merge_items items 0 (stop_at items high) l1) <= Z.to_nat (item_count m))%nat ->
  exists s', collect_base items high c = Ok (mkCollector s' (delta_set c) (Leaf m (out ++ merge_items items 0 (stop_at items high) l1)))
    /\ sss_holds s' l2.
Proof.
  intros Hs Hp Hn Hc Hh H1 H2 Hroom. unfold collect_base.
  assert (Hend : (if high.2 =? INVALID_NODE_ID then Ok (GetSize items) else LowerBound 0 (GetSize items) high.1 items)
                 = Ok (Z.of_nat (stop_at items high))).
  { unfold stop_at. case_match; [done|]. pose proof (rank_le items high.1). apply (LowerBound_ok items high.1 0 (length items)); [done|lia..]. }
  rewrite Hend. cbn [mbind outcome_bind]. rewrite (find_sss_end_ok _ l1 l2 high Hh H1 H2). cbn [mbind outcome_bind]. rewrite Hn.
  destruct (merge_loop_ok items (stop_at items high) l2 m (stop_at_le _ _) Hc
    (S (Z.to_nat (start_p (sss c) + Z.of_nat (length l1) - start_p (sss c)))) l1 0 (sss c) out (start_p (sss c) + Z.of_nat (length l1)))
    as (pos' & s' & out' & Hrun & Hh' & Hp' & Ho'); [lia|by apply fits_below|done|done|done|].
  change (Z.of_nat 0) with 0 in Hrun. rewrite Hrun. cbn [mbind outcome_bind]. rewrite push_range; [|done|apply stop_at_le|done|].
  - cbn [mbind outcome_bind]. exists s'. by rewrite Ho'.
  - rewrite <- length_app, Ho', length_app. done.
Qed.

(** *** Data nodes on top of a map *)
Definition is_data (d : BaseNode) : Prop :=
  match d with LeafInsert _ _ _ _ | LeafDelete _ _ _ _ | LeafUpdate _ _ _ _ _ => True | _ => False end.
Definition overlay (l : list BaseNode) (m : gmap Z Z) : gmap Z Z := foldr apply_delta m l.
Lemma apply_delta_lookup d m k : is_data d ->
  apply_delta d m !! k = if decide (dkey d = k) then if is_put d then Some (leaf_item d).2 else None else m !! k.
Proof.
  unfold dkey. intros Hd. destruct d; try done; cbn [apply_delta leaf_item is_put]; case_decide as Hk; subst;
    rewrite ?lookup_insert_eq, ?lookup_delete_eq, ?lookup_insert_ne, ?lookup_delete_ne by done; done.
Qed.
Lemma overlay_elem l m k v : ksorted (dkey <$> l) -> Forall is_data l ->
  overlay l m !! k = Some v <-> (exists d, d ∈ l /\ is_put d = true /\ (k, v) = leaf_item d) \/ (m !! k = Some v /\ Forall (fun d => dkey d <> k) l).
Proof.
  induction l as [|d l IH]; intros Hs Hd; simpl.
  { split; [intros; right; by split|]. intros [(d & Hd' & _)|[? _]]; [by apply elem_of_nil in Hd'|done]. }
  rewrite fmap_cons in Hs. apply StronglySorted_inv in Hs as [Hs Hlt]. apply Forall_cons in Hd as [Hd Hds]. rewrite Forall_fmap in Hlt.
  change (foldr apply_delta m l) with (overlay l m). rewrite apply_delta_lookup by done. rewrite Forall_cons. case_decide as Hk.
  - split.
    + intros Hv. left. exists d. split; [left|]. destruct (is_put d); [|done]. split; [done|]. unfold dkey in Hk.
      injection Hv as <-. rewrite <- Hk. by destruct (leaf_item d).
    + intros [(d' & [->|Hd']%elem_of_cons & Hp & He)|[_ [? _]]]; [by rewrite Hp, <- He| |done].
      rewrite Forall_forall in Hlt. specialize (Hlt d' Hd'). cbn in Hlt. unfold dkey in Hlt, Hk. rewrite <- He in Hlt. simpl in Hlt. lia.
  - rewrite IH by done. split.
    + intros [(d' & ? & ?)|[? ?]]; [left; exists d'; by split; [right|]|right; by split_and!].
    + intros [(d' & [->|Hd']%elem_of_cons & Hp & He)|(? & _ & ?)]; [|left; by exists d'|by right].
      exfalso. apply Hk. unfold dkey. by rewrite <- He.
Qed.
Lemma overlay_swap l m d : is_data d -> Forall is_data l -> Forall (fun d' => dkey d' <> dkey d) l ->
  overlay l (apply_delta d m) = apply_delta d (overlay l m).
Proof.
  intros Hd Hl Hne. induction l as [|x l IH]; [done|]. apply Forall_cons in Hl as [Hx Hl], Hne as [Hnx Hne]. simpl. rewrite IH by done.
  apply map_eq. intros k. rewrite !apply_delta_lookup by done. repeat case_decide; try done. congruence.
Qed.
Lemma overlay_shadow l m d : is_data d -> Forall is_data l -> dkey d ∈ dkey <$> l -> overlay l (apply_delta d m) = overlay l m.
Proof.
  intros Hd Hl Hin. induction l as [|x l IH]; [by apply elem_of_nil in Hin|]. apply Forall_cons in Hl as [Hx Hl]. simpl.
  destruct (decide (dkey d ∈ dkey <$> l)) as [H'|H']; [by rewrite IH|]. rewrite fmap_cons in Hin. apply elem_of_cons in Hin as [He|?]; [|done].
  rewrite overlay_swap; [|done|done|]; [|apply Forall_forall; intros y Hy Heq; apply H'; rewrite <- Heq; by apply list_elem_of_fmap_2].
  apply map_eq. intros k. rewrite !apply_delta_lookup by done. repeat case_decide; try done. congruence.
Qed.
Lemma overlay_app l1 l2 m : overlay (l1 ++ l2) m = overlay l1 (overlay l2 m).
Proof. apply foldr_app. Qed.

(** A strictly sorted list with the elements of a map has its size. *)
Lemma sorted_map_length (l : list KeyValuePair) (m : gmap Z Z) : ksorted l.*1 -> (forall kv, kv ∈ l <-> m !! kv.1 = Some kv.2) ->
  list_to_map l = m /\ length l = base.size m.
Proof.
  intros Hs Hel. assert (Heq : list_to_map l = m).
  { apply map_eq. intros k. apply option_eq. intros v. rewrite list_map_lookup by done. rewrite Hel. done. }
  split; [done|]. rewrite <- Heq, <- (length_map_to_list (list_to_map l : gmap Z Z)). apply Permutation_length. symmetry.
  apply map_to_list_to_map. by apply ksorted_NoDup.
Qed.
Definition cut (high : KeyNodeIDPair) (m : gmap Z Z) : gmap Z Z := filter (fun kv => below high kv.1) m.
Lemma merge_items_overlay items high l : ksorted items.*1 -> positioned items l -> Forall (fun d => below high (dkey d)) l -> Forall is_data l ->
  ksorted (merge_items items 0 (stop_at items high) l).*1
  /\ (forall kv, kv ∈ merge_items items 0 (stop_at items high) l <-> overlay l (cut high (list_to_map items)) !! kv.1 = Some kv.2).
Proof.
  intros Hs Hp Hb Hd. pose proof (fits_below items high l Hs Hp Hb) as Hf. split; [by apply merge_items_sorted|]. intros [k v].
  rewrite merge_items_elem by done. rewrite overlay_elem by (try done; apply Hp). rewrite stop_at_elem by done. unfold cut.
  rewrite map_lookup_filter_Some, list_map_lookup by done. done.
Qed.

Lemma leaf_depth n : leaf_ok n -> 0 <= GetDepth n.
Proof.
  unfold GetDepth. induction n; simpl; try tauto.
  - intros (_ & _ & -> & _). done.
  - intros (Hc & ((_ & _ & -> & _) & _) & _). specialize (IHn Hc). unfold GetDepth. lia.
  - intros (Hc & ((_ & _ & -> & _) & _) & _). specialize (IHn Hc). unfold GetDepth. lia.
  - intros (Hc & ((_ & _ & -> & _) & _) & _). specialize (IHn Hc). unfold GetDepth. lia.
  - intros (_ & _ & _ & _ & _ & _ & -> & _). done.
  - intros (Hc & Hr & _ & _ & _ & _ & _ & _ & _ & -> & _). specialize (IHn1 Hr). specialize (IHn2 Hc). unfold GetDepth. lia.
Qed.

(** *** The walk down the chain *)
Section CollectFacts.
Context (key_hash : Z -> Z).

(** The state of a collection: data nodes [L] in the order of their keys, keys [vs] seen,
    items [out] written to a leaf with metadata [m]. *)
Record collecting (c : Collector) (L : list BaseNode) (vs : list Z) (m : NodeMetaData) (out : list KeyValuePair) : Prop := {
  co_holds : sss_holds (sss c) L;
  co_sorted : ksorted (dkey <$> L);
  co_data : Forall is_data L;
  co_bloom : bloom_inv key_hash vs (delta_set c);
  co_leaf : new_leaf c = Leaf m out }.
(** Room in both arrays for [k] more data nodes. *)
Definition has_room (c : Collector) (vs : list Z) (k : Z) : Prop :=
  end_p (sss c) + k <= Z.of_nat (length (sss_data (sss c))) /\ Z.of_nat (length vs) + k <= Z.of_nat (length (data_p (delta_set c))).

Lemma less_key a b : dkey a <> dkey b -> leaf_data_less a b = (dkey a <? dkey b).
Proof.
  unfold leaf_data_less, KeyCmpLess, KeyCmpEqual. fold (dkey a) (dkey b). intros Hne. destruct (Z.ltb_spec (dkey a) (dkey b)); [done|].
  by destruct (Z.eqb_spec (dkey a) (dkey b)).
Qed.
Lemma less_weak a b c : leaf_data_less a b = true -> leaf_data_less a c = true \/ leaf_data_less c b = true.
Proof.
  unfold leaf_data_less, KeyCmpLess, KeyCmpEqual. fold (dkey a) (dkey b) (dkey c).
  destruct (Z.ltb_spec (dkey a) (dkey b)), (Z.ltb_spec (dkey a) (dkey c)), (Z.ltb_spec (dkey c) (dkey b)),
    (Z.eqb_spec (dkey a) (dkey b)), (Z.eqb_spec (dkey a) (dkey c)), (Z.eqb_spec (dkey c) (dkey b)); try lia; auto.
Qed.
Lemma less_irrefl a : leaf_data_less a a = false.
Proof. unfold leaf_data_less, KeyCmpLess, KeyCmpEqual. by rewrite Z.ltb_irrefl, Z.eqb_refl, Z.ltb_irrefl. Qed.
Lemma sorted_ordered L : ksorted (dkey <$> L) -> ordered_weak leaf_data_less L.
Proof.
  induction L as [|d L IH]; [constructor|]. rewrite fmap_cons. intros [Hs Hx]%StronglySorted_inv. constructor; [by apply IH|].
  rewrite Forall_fmap in Hx. eapply Forall_impl; [exact Hx|]. intros y Hy. simpl in Hy. rewrite less_key by lia. by apply Z.ltb_ge; lia.
Qed.
(** Where a data node with a new key goes. *)
Lemma insert_after_keys d L : ksorted (dkey <$> L) -> dkey d ∉ dkey <$> L ->
  exists L1 L2, L = L1 ++ L2 /\ insert_after leaf_data_less d L = L1 ++ d :: L2
    /\ Forall (fun x => dkey x < dkey d) L1 /\ Forall (fun x => dkey d < dkey x) L2.
Proof.
  intros Hs Hn. destruct (insert_after_split leaf_data_less less_weak d L (sorted_ordered L Hs)) as (L1 & L2 & -> & -> & H1 & H2).
  exists L1, L2. split_and!; [done|done| |]; apply Forall_forall; intros x Hx.
  - rewrite Forall_forall in H1. specialize (H1 x Hx). cbn beta in H1. assert (dkey d <> dkey x).
    { intros He. apply Hn. rewrite He. apply list_elem_of_fmap_2, elem_of_app. by left. }
    rewrite less_key in H1 by done. apply Z.ltb_ge in H1. lia.
  - rewrite Forall_forall in H2. specialize (H2 x Hx). cbn beta in H2. assert (dkey d <> dkey x).
    { intros He. apply Hn. rewrite He. apply list_elem_of_fmap_2, elem_of_app. by right. }
    rewrite less_key in H2 by done. apply Z.ltb_lt in H2. lia.
Qed.
Lemma insert_between L1 L2 d : ksorted (dkey <$> (L1 ++ L2)) -> Forall (fun x => dkey x < dkey d) L1 -> Forall (fun x => dkey d < dkey x) L2 ->
  ksorted (dkey <$> (L1 ++ d :: L2)).
Proof.
  intros Hs H1 H2. rewrite !fmap_app in *. rewrite fmap_cons. apply ksorted_insert; [done|by apply Forall_fmap| |].
  - apply Forall_fmap. eapply Forall_impl; [exact H2|]. simpl. intros. lia.
  - intros (x & He & Hx)%list_elem_of_fmap. rewrite Forall_forall in H2. specialize (H2 x Hx). simpl in H2. lia.
Qed.

Lemma key_seen vs k ds : bloom_inv key_hash vs ds -> bf_Exists KeyCmpEqual key_hash k ds = Ok (bool_decide (k ∈ vs)).
Proof.
  intros Hb. rewrite (bloom_exists_ok KeyCmpEqual key_hash) with (vs := vs); [|by intros a b ->%Z.eqb_eq|done]. f_equal.
  apply eq_bool_prop_intro. rewrite bool_decide_spec. rewrite existb_True. unfold KeyCmpEqual. rewrite Exists_exists. split.
  - intros (x & Hx & ->%Is_true_true%Z.eqb_eq). done.
  - intros Hx. exists k. split; [done|]. by rewrite Z.eqb_refl.
Qed.

(** A data node that is new is collected, one whose key was seen is skipped. *)
Lemma collect_delta_ok d c L vs m out : is_data d -> collecting c L vs m out -> has_room c vs 1 -> (dkey d ∉ vs -> dkey d ∉ dkey <$> L) ->
  exists c' vs', collect_delta key_hash d c = Ok c'
    /\ collecting c' (if decide (dkey d ∈ vs) then L else insert_after leaf_data_less d L) vs' m out
    /\ (forall k, k ∈ vs' <-> k = dkey d \/ k ∈ vs)
    /\ (forall k, has_room c vs (k + 1) -> has_room c' vs' k).
Proof.
  intros Hd [Hh Hs Hda Hb Hl] [Hr1 Hr2] Hnew. unfold collect_delta. fold (dkey d). rewrite (key_seen vs _ _ Hb). cbn [mbind outcome_bind].
  case_bool_decide as Hseen.
  - exists c, vs. rewrite decide_True by done. split_and!; [done|by split|intros k; split; [by right|intros [->|?]; done]|].
    unfold has_room. intros k. lia.
  - destruct (bloom_insert_ok key_hash vs (delta_set c) (dkey d) Hb) as (ds & Hrun & Hb' & Hlen); [lia|]. rewrite Hrun. cbn [mbind outcome_bind].
    destruct (sss_insert_no_dedup_ok leaf_data_less less_weak (sss c) L d Hh) as (s' & Hrun2 & Hh'); [unfold sss_room; lia|by apply sorted_ordered|].
    rewrite Hrun2. cbn [mbind outcome_bind]. apply sss_InsertNoDedup_grew in Hrun2 as (Hg1 & Hg2 & Hg3).
    eexists _, (vs ++ [dkey d]). rewrite decide_False by done. split_and!; [done| |set_solver|].
    + destruct (insert_after_keys d L Hs (Hnew Hseen)) as (L1 & L2 & -> & Hins & H1 & H2). rewrite Hins in *.
      apply Forall_app in Hda as [? ?]. split; simpl; [done|by apply insert_between| |done|done].
      apply Forall_app. split; [done|by constructor].
    + intros k [? ?]. unfold has_room. simpl. rewrite length_app. simpl. lia.
Qed.

(** [H] is the high key of [n], or of a split above the base node [n]. *)
Definition entry_high (n : BaseNode) (H : KeyNodeIDPair) : Prop :=
  H = GetHighKeyPair n \/ (GetType n = LeafType /\ forall k, below H k -> below (GetHighKeyPair n) k).
Record collect_pre (n : BaseNode) (H : KeyNodeIDPair) (c : Collector) (L1 L2 : list BaseNode) (vs : list Z)
    (m : NodeMetaData) (out : list KeyValuePair) : Prop := {
  cp_high : entry_high n H;
  cp_state : collecting c (L1 ++ L2) vs m out;
  cp_room : has_room c vs (GetDepth n);
  cp_inside : Forall (fun d => GetLowKey n <= dkey d /\ below H (dkey d)) L1;
  cp_outside : Forall (fun d => ~ below H (dkey d)) L2;
  cp_index : Forall (fun d => index_ok (branch_base n (dkey d)) (dkey d) (GetIndexPair d)) L1;
  cp_seen : forall k, GetLowKey n <= k -> below H k -> (k ∈ vs <-> k ∈ dkey <$> L1);
  cp_count : 0 <= item_count m;
  cp_fits : (length out + base.size (overlay L1 (cut H (leaf_map n))) <= Z.to_nat (item_count m))%nat }.
Definition collect_post (n : BaseNode) (H : KeyNodeIDPair) (c : Collector) (L1 L2 : list BaseNode) (vs : list Z)
    (m : NodeMetaData) (out : list KeyValuePair) (run : outcome Collector) : Prop :=
  exists c' vs' res, run = Ok c' /\ collecting c' L2 vs' m (out ++ res)
    /\ (forall k, ~ (GetLowKey n <= k /\ below H k) -> (k ∈ vs' <-> k ∈ vs))
    /\ ksorted res.*1 /\ (forall kv, kv ∈ res <-> overlay L1 (cut H (leaf_map n)) !! kv.1 = Some kv.2)
    /\ (forall k, has_room c vs (GetDepth n + k) -> has_room c' vs' k).

Lemma insert_after_app d L1 L2 : Forall (fun x => leaf_data_less d x = true) L2 ->
  insert_after leaf_data_less d (L1 ++ L2) = insert_after leaf_data_less d L1 ++ L2.
Proof.
  intros H2. induction L1 as [|x L1 IH]; simpl.
  - destruct H2 as [|y L2 Hy _]; [done|]. simpl. by rewrite Hy.
  - case_match; [done|]. by rewrite IH.
Qed.
Lemma cut_apply H d m : is_data d -> below H (dkey d) -> cut H (apply_delta d m) = apply_delta d (cut H m).
Proof.
  intros Hd Hb. apply map_eq. intros k. unfold cut. rewrite map_lookup_filter, !apply_delta_lookup, map_lookup_filter by done.
  case_decide as Hk; [|done]. subst k. destruct (is_put d); simpl; [|done]. by rewrite option_guard_True.
Qed.
Lemma overlay_between A B d m : is_data d -> Forall is_data (A ++ B) -> Forall (fun x => dkey d < dkey x) B ->
  overlay (A ++ d :: B) m = overlay (A ++ B) (apply_delta d m).
Proof.
  intros Hd [HA HB]%Forall_app Hlt. rewrite !overlay_app. f_equal. simpl. symmetry. apply overlay_swap; [done|done|].
  eapply Forall_impl; [exact Hlt|]. simpl. intros. lia.
Qed.

(** One step past a data node [n] with child [c0]. *)
Lemma collect_step n c0 H c L1 L2 vs m out : is_data n -> leaf_map n = apply_delta n (leaf_map c0) ->
  (forall k, branch_base n k = branch_base c0 k) -> GetDepth n = GetDepth c0 + 1 -> 0 <= GetDepth c0 ->
  GetLowKeyPair n = GetLowKeyPair c0 -> GetHighKeyPair n = GetHighKeyPair c0 -> in_range c0 (dkey n) ->
  index_ok (branch_base c0 (dkey n)) (dkey n) (GetIndexPair n) -> collect_pre n H c L1 L2 vs m out ->
  exists c1 vs1 L1', collect_delta key_hash n c = Ok c1 /\ collect_pre c0 H c1 L1' L2 vs1 m out
    /\ overlay L1' (cut H (leaf_map c0)) = overlay L1 (cut H (leaf_map n)) /\ (forall k, k ∈ vs1 <-> k = dkey n \/ k ∈ vs)
    /\ (forall k, has_room c vs (GetDepth n + k) -> has_room c1 vs1 (GetDepth c0 + k)).
Proof.
  intros Hd Hmap Hbr Hdep Hdep0 Hlow Hhigh [Hr1 Hr2] Hix [Hhi Hst Hroom Hin Hout Hidx Hseen Hcount Hfit].
  assert (Hl : GetLowKey n = GetLowKey c0) by (unfold GetLowKey; by rewrite Hlow).
  assert (HH : H = GetHighKeyPair c0) by (destruct Hhi as [->|[Ht _]]; [done|destruct n; done]).
  assert (Hbn : below H (dkey n)) by (by rewrite HH).
  assert (Hgt : Forall (fun x => dkey n < dkey x) L2).
  { eapply Forall_impl; [exact Hout|]. intros x Hx. cbn beta in Hx. destruct Hbn as [?|?]; [exfalso; apply Hx; by left|].
    destruct (Z.lt_ge_cases (dkey n) (dkey x)); [done|]. exfalso. apply Hx. right. lia. }
  assert (Hkn : dkey n ∈ vs <-> dkey n ∈ dkey <$> L1) by (apply Hseen; [lia|done]).
  destruct (collect_delta_ok n c (L1 ++ L2) vs m out Hd Hst) as (c1 & vs1 & Hrun & Hst1 & Hvs1 & Hroom1).
  { unfold has_room in *. lia. }
  { intros Hns. rewrite fmap_app, elem_of_app. intros [?|(x & He & Hx)%list_elem_of_fmap]; [by apply Hns, Hkn|].
    rewrite Forall_forall in Hgt. specialize (Hgt x Hx). simpl in Hgt. lia. }
  assert (Hroom2 : forall k, has_room c vs (GetDepth n + k) -> has_room c1 vs1 (GetDepth c0 + k)).
  { intros k Hk. apply Hroom1. by replace (GetDepth c0 + k + 1) with (GetDepth n + k) by lia. }
  pose proof (Hroom2 0) as Hroom3. rewrite !Z.add_0_r in Hroom3. specialize (Hroom3 Hroom).
  pose proof (co_data _ _ _ _ _ Hst) as Hda. apply Forall_app in Hda as [Hda1 Hda2].
  destruct (decide (dkey n ∈ vs)) as [Hs|Hs].
  - exists c1, vs1, L1. rewrite Hmap, cut_apply in * by done. assert (Hov : overlay L1 (cut H (leaf_map c0)) = overlay L1 (apply_delta n (cut H (leaf_map c0)))).
    { symmetry. apply overlay_shadow; [done|done|by apply Hkn]. }
    split_and!; [done| |done|done|done]. split; [by left|done|done|by rewrite <- Hl|done| | |done|by rewrite Hov].
    + eapply Forall_impl; [exact Hidx|]. intros x. cbn beta. by rewrite Hbr.
    + intros k Hk1 Hk2. rewrite <- Hl in Hk1. rewrite Hvs1, <- Hseen by done. split; [intros [->|?]; done|by right].
  - pose proof (co_sorted _ _ _ _ _ Hst) as Hsorted. rewrite fmap_app in Hsorted. apply ksorted_app in Hsorted as (Hsorted & _ & _).
    destruct (insert_after_keys n L1 Hsorted) as (A & B & HL & Hins & HA & HB); [by rewrite <- Hkn|].
    exists c1, vs1, (A ++ n :: B). rewrite insert_after_app, Hins in Hst1.
    2:{ eapply Forall_impl; [exact Hgt|]. intros x Hx. simpl in Hx. rewrite less_key by lia. by apply Z.ltb_lt. }
    assert (Hov : overlay (A ++ n :: B) (cut H (leaf_map c0)) = overlay L1 (cut H (leaf_map n))).
    { rewrite Hmap, cut_apply by done. rewrite HL in *. by apply overlay_between. }
    split_and!; [done| |done|done|done]. subst L1. apply Forall_app in Hin as [HinA HinB], Hidx as [HixA HixB].
    split; [by left|done|done| |done| | |done|by rewrite Hov].
    + rewrite <- Hl. apply Forall_app. split; [done|]. constructor; [split; [lia|done]|done].
    + apply Forall_app. split; [|constructor; [done|]]; [eapply Forall_impl; [exact HixA|]|eapply Forall_impl; [exact HixB|]]; intros x; cbn beta; by rewrite Hbr.
    + intros k Hk1 Hk2. rewrite <- Hl in Hk1. rewrite Hvs1, Hseen by done. rewrite !fmap_app, fmap_cons. set_solver.
Qed.

(** Popping leaves the array alone. *)
Definition same_array (s s' : SortedSmallSet BaseNode) : Prop := sss_data s' = sss_data s /\ end_p s' = end_p s.
Lemma pop_same s d s' : sss_PopFront s = Ok (d, s') -> same_array s s'.
Proof. unfold sss_PopFront. destruct (array_get _ _); simpl; [|done]. by intros [= _ <-]. Qed.
Lemma drain_same end_it cur fuel : forall ow s n ow' s' n', drain_loop fuel end_it cur ow s n = Ok (ow', s', n') -> same_array s s'.
Proof.
  induction fuel as [|fuel IH]; intros ow s n ow' s' n'; [discriminate|]. cbn [drain_loop].
  destruct (sss_GetFront s) as [d|]; cbn [mbind outcome_bind]; [|discriminate]. case_match; [|by intros [= _ <- _]].
  destruct (sss_PopFront s) as [[x s1]|] eqn:Hp; cbn [mbind outcome_bind]; [|discriminate]. apply pop_same in Hp as [Hp1 Hp2].
  match goal with |- mbind _ ?x = _ -> _ => destruct x; cbn [mbind outcome_bind]; [|discriminate] end.
  case_match; [by intros [= _ <- _]|]. intros [H1 H2]%IH. split; congruence.
Qed.
Lemma merge_loop_same items end_it fuel : forall pos s n pos' s' n', merge_loop fuel items end_it pos s n = Ok (pos', s', n') -> same_array s s'.
Proof.
  induction fuel as [|fuel IH]; intros pos s n pos' s' n'; [discriminate|]. cbn [merge_loop]. case_match; [by intros [= _ <- _]|].
  destruct (sss_GetFront s) as [d|]; cbn [mbind outcome_bind]; [|discriminate].
  destruct (PushBackRange _ _ _ _); cbn [mbind outcome_bind]; [|discriminate].
  destruct (drain_loop _ _ _ _ _ _) as [[[ow s1] n1]|] eqn:Hd; cbn [mbind outcome_bind]; [|discriminate].
  apply drain_same in Hd as [? ?]. intros [? ?]%IH. split; congruence.
Qed.
Lemma collect_base_same items H c c' : collect_base items H c = Ok c' -> same_array (sss c) (sss c') /\ delta_set c' = delta_set c.
Proof.
  unfold collect_base. match goal with |- mbind _ ?x = _ -> _ => destruct x; cbn [mbind outcome_bind]; [|discriminate] end.
  destruct (find_sss_end _ _); cbn [mbind outcome_bind]; [|discriminate].
  destruct (merge_loop _ _ _ _ _ _) as [[[pos s1] n1]|] eqn:Hd; cbn [mbind outcome_bind]; [|discriminate]. apply merge_loop_same in Hd.
  destruct (PushBackRange _ _ _ _); cbn [mbind outcome_bind]; [|discriminate]. by intros [= <-].
Qed.

(** The post condition of a data node follows from that of its child. *)
Lemma collect_post_step n c0 H c c1 L1 L1' L2 vs vs1 m out run : GetLowKeyPair n = GetLowKeyPair c0 ->
  collect_post c0 H c1 L1' L2 vs1 m out run -> overlay L1' (cut H (leaf_map c0)) = overlay L1 (cut H (leaf_map n)) ->
  (forall k, k ∈ vs1 <-> k = dkey n \/ k ∈ vs) -> GetLowKey n <= dkey n /\ below H (dkey n) ->
  (forall k, has_room c vs (GetDepth n + k) -> has_room c1 vs1 (GetDepth c0 + k)) ->
  collect_post n H c L1 L2 vs m out run.
Proof.
  intros Hlow (c' & vs' & res & Hrun & Hst & Hvs & Hs & Hel & Hroom) Hov Hvs1 Hk Hroom1. exists c', vs', res. rewrite Hov in Hel.
  split_and!; try done; [|by intros; apply Hroom, Hroom1]. unfold GetLowKey in *. rewrite Hlow in *. intros k Hn. rewrite Hvs, Hvs1 by done.
  split; [|by right]. intros [->|?]; [by exfalso; apply Hn|done].
Qed.

Lemma sorted_partition (f : BaseNode -> Z) x (L : list BaseNode) : ksorted (f <$> L) ->
  exists La Lb, L = La ++ Lb /\ Forall (fun d => f d < x) La /\ Forall (fun d => x <= f d) Lb.
Proof.
  induction L as [|d L IH]; [by exists [], []|]. rewrite fmap_cons. intros [Hs Hx]%StronglySorted_inv. destruct (decide (f d < x)).
  - destruct (IH Hs) as (La & Lb & -> & ? & ?). exists (d :: La), Lb. split_and!; [done|by constructor|done].
  - exists [], (d :: L). split_and!; [done|done|]. constructor; [lia|]. rewrite Forall_fmap in Hx. eapply Forall_impl; [exact Hx|]. simpl. intros. lia.
Qed.
(** The two branches of a merge, each with its data nodes. *)
Lemma overlay_merge x La Lb (ml mr : gmap Z Z) : ksorted (dkey <$> (La ++ Lb)) -> Forall is_data (La ++ Lb) ->
  Forall (fun d => dkey d < x) La -> Forall (fun d => x <= dkey d) Lb ->
  (forall k v, ml !! k = Some v -> k < x) -> (forall k v, mr !! k = Some v -> x <= k) ->
  overlay (La ++ Lb) (ml ∪ mr) = overlay La ml ∪ overlay Lb mr
  /\ (forall k v, overlay La ml !! k = Some v -> k < x) /\ (forall k v, overlay Lb mr !! k = Some v -> x <= k).
Proof.
  intros Hs Hd HA HB Hml Hmr. pose proof Hs as Hs'. rewrite fmap_app in Hs'. apply ksorted_app in Hs' as (HsA & HsB & _). pose proof Hd as [HdA HdB]%Forall_app.
  assert (HlA : forall k v, overlay La ml !! k = Some v -> k < x).
  { intros k v. rewrite overlay_elem by done. intros [(d & Hin & _ & He)|[? _]]; [|by eapply Hml].
    rewrite Forall_forall in HA. specialize (HA d Hin). unfold dkey in HA. rewrite <- He in HA. done. }
  assert (HlB : forall k v, overlay Lb mr !! k = Some v -> x <= k).
  { intros k v. rewrite overlay_elem by done. intros [(d & Hin & _ & He)|[? _]]; [|by eapply Hmr].
    rewrite Forall_forall in HB. specialize (HB d Hin). unfold dkey in HB. rewrite <- He in HB. done. }
  split_and!; [|done|done]. apply map_eq. intros k. apply option_eq. intros v.
  assert (Hdis : overlay La ml ##ₘ overlay Lb mr).
  { apply map_disjoint_spec. intros i a b Ha%HlA Hb%HlB. lia. }
  assert (Hdis' : ml ##ₘ mr).
  { apply map_disjoint_spec. intros i a b Ha%Hml Hb%Hmr. lia. }
  rewrite lookup_union_Some, !overlay_elem, lookup_union_Some by done. rewrite Forall_app.
  assert (HkA : ml !! k = Some v -> Forall (fun d => dkey d <> k) Lb).
  { intros Hk%Hml. eapply Forall_impl; [exact HB|]. simpl. intros. lia. }
  assert (HkB : mr !! k = Some v -> Forall (fun d => dkey d <> k) La).
  { intros Hk%Hmr. eapply Forall_impl; [exact HA|]. simpl. intros. lia. }
  setoid_rewrite elem_of_app. split.
  - intros [(d & [?|?] & ?)|[[?|?] [? ?]]]; [left; left; eauto|right; left; eauto|left; right; eauto|right; right; eauto].
  - intros [[(d & ? & ?)|[? ?]]|[(d & ? & ?)|[? ?]]]; [left; eauto|right; auto|left; eauto|right; auto].
Qed.
Lemma collect_merge mm d r c0 H c L1 L2 vs m out : leaf_ok (LeafMerge mm d r c0) ->
  (forall H c L1 L2 vs m out, collect_pre c0 H c L1 L2 vs m out ->
     collect_post c0 H c L1 L2 vs m out (CollectAllValuesOnLeafRecursive key_hash c0 H c)) ->
  (forall H c L1 L2 vs m out, collect_pre r H c L1 L2 vs m out ->
     collect_post r H c L1 L2 vs m out (CollectAllValuesOnLeafRecursive key_hash r H c)) ->
  collect_pre (LeafMerge mm d r c0) H c L1 L2 vs m out ->
  collect_post (LeafMerge mm d r c0) H c L1 L2 vs m out (CollectAllValuesOnLeafRecursive key_hash (LeafMerge mm d r c0) H c).
Proof.
  intros Hok IHc IHr [Hhi Hst Hroom Hin Hout Hidx Hseen Hcount Hfit].
  pose proof Hok as (Hc & Hr & Hlow & Hhigh & Hhc & Hnc & Hlr & Hld & Hbd & Hdep & _). pose proof (leaf_depth _ Hc). pose proof (leaf_depth _ Hr).
  set (n := LeafMerge mm d r c0) in *. assert (Hln : GetLowKey n = GetLowKey c0) by (unfold GetLowKey, GetLowKeyPair, n; simpl; by rewrite Hlow).
  assert (Hdn : GetDepth n = GetDepth c0 + GetDepth r) by done.
  assert (HH : H = GetHighKeyPair r) by (destruct Hhi as [->|[? _]]; [unfold GetHighKeyPair, n; simpl; by rewrite Hhigh|done]).
  assert (Hbc : forall k, below (GetHighKeyPair c0) k <-> k < d.1).
  { intros k. unfold below, GetHighKey, GetNextNodeID in *. rewrite Hhc. naive_solver. }
  assert (Hb0 : forall k, k <= d.1 -> below H k) by (rewrite HH; intros k ?; destruct Hbd as [?|?]; [by left|right; lia]).
  pose proof (co_sorted _ _ _ _ _ Hst) as Hsorted. rewrite fmap_app in Hsorted. apply ksorted_app in Hsorted as (Hsorted & _ & _).
  pose proof (co_data _ _ _ _ _ Hst) as Hda. apply Forall_app in Hda as [Hda1 Hda2].
  destruct (sorted_partition dkey d.1 L1 Hsorted) as (La & Lb & -> & HA & HB).
  destruct (overlay_merge d.1 La Lb (cut (GetHighKeyPair c0) (leaf_map c0)) (cut H (leaf_map r))) as (Hov & HlA & HlB); [done..| | |].
  { intros k v [_ Hk%Hbc]%map_lookup_filter_Some. done. }
  { intros k v [Hk _]%map_lookup_filter_Some. by eapply merge_right_above. }
  assert (Hcut : cut H (leaf_map n) = cut (GetHighKeyPair c0) (leaf_map c0) ∪ cut H (leaf_map r)).
  { apply map_eq. intros k. apply option_eq. intros v. unfold cut, n. cbn [leaf_map]. rewrite map_lookup_filter_Some, (merge_lookup _ _ _ _ _ Hok).
    rewrite lookup_union_Some, !map_lookup_filter_Some.
    2:{ apply map_disjoint_spec. intros i a b [_ Ha%Hbc]%map_lookup_filter_Some [Hb _]%map_lookup_filter_Some.
        pose proof (merge_right_above _ _ _ _ _ _ Hok Hb). simpl in *. lia. }
    simpl. rewrite Hbc. case_decide as Hk.
    - split; [by right|]. intros [[_ ?]|?]; [lia|done].
    - split; [intros [? _]; left; split; [done|lia]|]. intros [[? ?]|[Hx _]]; [split; [done|apply Hb0; lia]|].
      pose proof (merge_right_above _ _ _ _ _ _ Hok Hx). lia. }
  rewrite <- Hcut in Hov. set (Ml := overlay La (cut (GetHighKeyPair c0) (leaf_map c0))) in *. set (Mr := overlay Lb (cut H (leaf_map r))) in *.
  assert (Hdis : Ml ##ₘ Mr) by (apply map_disjoint_spec; intros i a b Ha%HlA Hb%HlB; lia).
  rewrite Hov, map_size_disj_union in Hfit by done. apply Forall_app in Hin as [HinA HinB], Hidx as [HixA HixB].
  destruct (IHc (GetHighKeyPair c0) c La (Lb ++ L2) vs m out) as (c1 & vs1 & resl & Hrunl & Hstl & Hvsl & Hsl & Hell & Hrooml).
  { split; [by left|by rewrite app_assoc|unfold has_room in *; lia| | | | |done|fold Ml; lia].
    - apply Forall_forall. intros x Hx. rewrite Forall_forall in HinA, HA. specialize (HinA x Hx). specialize (HA x Hx). rewrite Hbc. simpl in *. lia.
    - apply Forall_app. split; [eapply Forall_impl; [exact HB|]|eapply Forall_impl; [exact Hout|]]; intros x Hx; rewrite Hbc; simpl in Hx; [lia|].
      intros ?. apply Hx, Hb0. lia.
    - apply Forall_forall. intros x Hx. rewrite Forall_forall in HixA, HA. specialize (HixA x Hx). specialize (HA x Hx). cbn beta in *.
      cbn [branch_base n] in HixA. by rewrite decide_False in HixA by lia.
    - intros k Hk1 Hk2%Hbc. rewrite Hseen by (try lia; apply Hb0; lia). rewrite fmap_app, elem_of_app. split; [|by left].
      intros [?|(x & -> & Hx)%list_elem_of_fmap]; [done|]. rewrite Forall_forall in HB. specialize (HB x Hx). simpl in HB. lia. }
  destruct (sorted_map_length resl Ml Hsl Hell) as [_ Hlenl].
  destruct (IHr H c1 Lb L2 vs1 m (out ++ resl)) as (c2 & vs2 & resr & Hrunr & Hstr & Hvsr & Hsr & Helr & Hroomr).
  { split; [by left|done| | |done| | |done|fold Mr; rewrite length_app; lia].
    - apply Hrooml. unfold has_room in *. lia.
    - apply Forall_forall. intros x Hx. rewrite Forall_forall in HinB, HB. specialize (HinB x Hx). specialize (HB x Hx). simpl in *. split; [lia|tauto].
    - apply Forall_forall. intros x Hx. rewrite Forall_forall in HixB, HB. specialize (HixB x Hx). specialize (HB x Hx). cbn beta in *.
      cbn [branch_base n] in HixB. by rewrite decide_True in HixB by lia.
    - intros k Hk1 Hk2. rewrite Hvsl by (rewrite Hbc; lia). rewrite Hseen by (try done; lia). rewrite fmap_app, elem_of_app. split; [|by right].
      intros [(x & -> & Hx)%list_elem_of_fmap|?]; [|done]. rewrite Forall_forall in HA. specialize (HA x Hx). simpl in HA. lia. }
  exists c2, vs2, (resl ++ resr). unfold n at 1. cbn [CollectAllValuesOnLeafRecursive]. rewrite Hrunl. cbn [mbind outcome_bind]. rewrite <- HH, Hrunr.
  split_and!; [done|by rewrite app_assoc| | | |].
  - intros k Hk. rewrite Hln in Hk. rewrite Hvsr by (intros [? ?]; apply Hk; split; [lia|done]). apply Hvsl. rewrite Hbc. intros [? ?]. apply Hk. split; [done|apply Hb0; lia].
  - rewrite fmap_app. apply ksorted_app. split_and!; [done|done|].
    intros a b (x & -> & Hx)%list_elem_of_fmap (y & -> & Hy)%list_elem_of_fmap. apply Hell, HlA in Hx. apply Helr, HlB in Hy. lia.
  - intros kv. rewrite elem_of_app, Hell, Helr. rewrite Hov, lookup_union_Some by done. done.
  - intros k Hk. apply Hroomr, Hrooml. by rewrite Z.add_assoc, <- Hdn.
Qed.

Lemma collect_leaf m0 items H c L1 L2 vs m out : leaf_ok (Leaf m0 items) -> collect_pre (Leaf m0 items) H c L1 L2 vs m out ->
  collect_post (Leaf m0 items) H c L1 L2 vs m out (collect_base items H c).
Proof.
  intros (Hs & Hrange & Hdep & Hcnt) [Hhi Hst Hroom Hin Hout Hidx Hseen Hcount Hfit].
  pose proof (co_sorted _ _ _ _ _ Hst) as Hsorted. rewrite fmap_app in Hsorted. apply ksorted_app in Hsorted as (Hsorted & Hsorted2 & _).
  pose proof (co_data _ _ _ _ _ Hst) as Hda. apply Forall_app in Hda as [Hda1 Hda2].
  assert (Hp : positioned items L1) by (by split). assert (Hb : Forall (fun d => below H (dkey d)) L1) by (eapply Forall_impl; [exact Hin|]; by intros x [_ ?]).
  destruct (merge_items_overlay items H L1 Hs Hp Hb Hda1) as [Hsm Hel]. destruct (sorted_map_length _ _ Hsm Hel) as [_ Hlen].
  destruct (collect_base_ok items H c L1 L2 m out Hs Hp (co_leaf _ _ _ _ _ Hst) Hcount (co_holds _ _ _ _ _ Hst) Hb Hout) as (s' & Hrun & Hh); [by rewrite Hlen|].
  eexists _, vs, _. split; [exact Hrun|]. destruct (collect_base_same _ _ _ _ Hrun) as [[Hsa Hse] _].
  split_and!; [|done|exact Hsm|exact Hel|].
  - split; simpl; [done|done|done|apply Hst|done].
  - unfold GetDepth. simpl. rewrite Hdep. intros k [? ?]. unfold has_room. simpl in *. rewrite Hsa, Hse. lia.
Qed.
Lemma collect_split m0 item c0 H c L1 L2 vs m out : leaf_ok (LeafSplit m0 item c0) ->
  (collect_pre c0 H c L1 L2 vs m out -> collect_post c0 H c L1 L2 vs m out (CollectAllValuesOnLeafRecursive key_hash c0 H c)) ->
  collect_pre (LeafSplit m0 item c0) H c L1 L2 vs m out ->
  collect_post (LeafSplit m0 item c0) H c L1 L2 vs m out (CollectAllValuesOnLeafRecursive key_hash c0 H c).
Proof.
  intros (Hc & Ht & Hl & Hh & Hid & [Hr1 Hr2] & Hdep & _) IH [Hhi Hst Hroom Hin Hout Hidx Hseen Hcount Hfit].
  assert (HH : H = item) by (destruct Hhi as [->|[? _]]; done).
  assert (Hlow : GetLowKey (LeafSplit m0 item c0) = GetLowKey c0) by (unfold GetLowKey, GetLowKeyPair; simpl; by rewrite Hl).
  assert (Hd0 : GetDepth c0 = 0) by (destruct c0; try done; by destruct Hc as (_ & _ & ? & _)).
  assert (Hd1 : GetDepth (LeafSplit m0 item c0) = GetDepth c0) by (unfold GetDepth in *; simpl; lia).
  assert (Hcut : cut H (leaf_map (LeafSplit m0 item c0)) = cut H (leaf_map c0)).
  { apply map_eq. intros k. apply option_eq. intros v. unfold cut. cbn [leaf_map]. rewrite !map_lookup_filter_Some. rewrite HH. unfold below. naive_solver. }
  rewrite Hcut in Hfit. destruct IH as (c' & vs' & res & ? & ? & ? & ? & Hel & ?).
  { split; try done; [|by rewrite <- Hd1|by rewrite <- Hlow|by rewrite <- Hlow]. right. split; [done|]. rewrite HH. intros k [?|?]; [done|].
    destruct Hr2 as [?|?]; [by left|right; lia]. }
  exists c', vs', res. rewrite Hcut, Hlow, Hd1. by split_and!.
Qed.
(** A data node of any kind. *)
Lemma collect_data n c0 more H c L1 L2 vs m out : is_data n -> leaf_ok c0 -> data_ok (metadata n) (leaf_item n) (GetIndexPair n) c0 more ->
  leaf_map n = apply_delta n (leaf_map c0) -> (forall k, branch_base n k = branch_base c0 k) -> collect_pre n H c L1 L2 vs m out ->
  exists c1 vs1 L1', collect_delta key_hash n c = Ok c1 /\ collect_pre c0 H c1 L1' L2 vs1 m out /\ dkey n ∈ vs1
    /\ (forall run, collect_post c0 H c1 L1' L2 vs1 m out run -> collect_post n H c L1 L2 vs m out run).
Proof.
  intros Hd Hc ((Hl & Hh & Hdp & Hct) & [Hri1 Hri2] & Hip) Hmap Hbr Hpre.
  destruct (collect_step n c0 H c L1 L2 vs m out) as (c1 & vs1 & L1' & Hrun & Hpre' & Hov & Hvs & Hroom); try done; [by apply leaf_depth|].
  exists c1, vs1, L1'. split_and!; [done|done|apply Hvs; by left|]. intros run Hpost.
  eapply collect_post_step; [done|exact Hpost|done|done| |done]. unfold GetLowKey, GetLowKeyPair. rewrite Hl. split; [done|].
  destruct (cp_high _ _ _ _ _ _ _ _ Hpre) as [->|[Ht _]]; [unfold GetHighKeyPair; by rewrite Hh|by destruct n].
Qed.
Lemma collect_ok n : leaf_ok n -> forall H c L1 L2 vs m out, collect_pre n H c L1 L2 vs m out ->
  collect_post n H c L1 L2 vs m out (CollectAllValuesOnLeafRecursive key_hash n H c).
Proof.
  induction n; intros Hok H c L1 L2 vs nm out Hpre; try done.
  - by apply collect_leaf.
  - destruct Hok as (Hc & Hda & _). destruct (collect_data (LeafInsert m item index_pair n) n _ H c L1 L2 vs nm out I Hc Hda eq_refl (fun _ => eq_refl) Hpre)
      as (c1 & vs1 & L1' & Hrun & Hpre' & _ & Hpost). cbn [CollectAllValuesOnLeafRecursive]. rewrite Hrun. cbn [mbind outcome_bind]. by apply Hpost, IHn.
  - destruct Hok as (Hc & Hda & _). destruct (collect_data (LeafDelete m item index_pair n) n _ H c L1 L2 vs nm out I Hc Hda eq_refl (fun _ => eq_refl) Hpre)
      as (c1 & vs1 & L1' & Hrun & Hpre' & _ & Hpost). cbn [CollectAllValuesOnLeafRecursive]. rewrite Hrun. cbn [mbind outcome_bind]. by apply Hpost, IHn.
  - destruct Hok as (Hc & Hda & _ & Ho). destruct (collect_data (LeafUpdate m item old_item index_pair n) n _ H c L1 L2 vs nm out I Hc Hda eq_refl (fun _ => eq_refl) Hpre)
      as (c1 & vs1 & L1' & Hrun & Hpre' & Hk & Hpost). cbn [CollectAllValuesOnLeafRecursive]. rewrite Hrun. cbn [mbind outcome_bind]. unfold collect_old.
    rewrite (key_seen vs1 _ _ (co_bloom _ _ _ _ _ (cp_state _ _ _ _ _ _ _ _ Hpre'))). cbn [mbind outcome_bind].
    rewrite bool_decide_eq_true_2 by (by rewrite Ho). cbn [mbind outcome_bind]. by apply Hpost, IHn.
  - cbn [CollectAllValuesOnLeafRecursive]. apply collect_split; [done|apply IHn, Hok|done].
  - pose proof Hok as (Hc & Hr & _). by apply collect_merge; [|apply IHn2|apply IHn1|].
Qed.

(** A consolidated node stands for the same map, in one sorted array that is full. *)
Lemma collect_all_ok a n : leaf_ok n ->
  exists items, CollectAllValuesOnLeaf key_hash a n = Ok (Leaf (new_meta a (GetLowKeyPair n) (GetHighKeyPair n) 0 (GetItemCount n)) items)
    /\ list_to_map items = leaf_map n
    /\ leaf_ok (Leaf (new_meta a (GetLowKeyPair n) (GetHighKeyPair n) 0 (GetItemCount n)) items).
Proof.
  intros Hok. pose proof (leaf_depth _ Hok). pose proof (leaf_count _ Hok) as Hcnt. unfold CollectAllValuesOnLeaf, Leaf_Get.
  set (m := new_meta a _ _ _ _).
  assert (Hcut : cut (GetHighKeyPair n) (leaf_map n) = leaf_map n).
  { apply map_filter_id. intros k v Hk. by apply (leaf_map_range n k v). }
  destruct (collect_ok n Hok (GetHighKeyPair n) (mkCollector (new_sss (replicate (Z.to_nat (GetDepth n)) n))
    (new_bloom (replicate (Z.to_nat (GetDepth n * 2)) 0)) (Leaf m [])) [] [] [] m []) as (c' & vs' & res & Hrun & Hst & _ & Hs & Hel & _).
  { split; [by left| | |constructor|constructor|constructor| |simpl; lia|].
    - split; simpl; [|constructor|constructor|apply new_bloom_inv|done]. by exists [], (replicate (Z.to_nat (GetDepth n)) n).
    - unfold has_room. simpl. rewrite !length_replicate. lia.
    - intros k _ _. by rewrite !elem_of_nil.
    - simpl. rewrite Hcut. simpl. lia. }
  rewrite Hrun. cbn [mbind outcome_bind]. rewrite (co_leaf _ _ _ _ _ Hst). exists res. simpl in Hel. rewrite Hcut in Hel.
  destruct (sorted_map_length res (leaf_map n) Hs Hel) as [Hm Hlen]. split_and!; [done|done|].
  cbn [leaf_ok]. split_and!; [done| |done|simpl; lia]. apply Forall_forall. intros k (kv & -> & Hin%Hel)%list_elem_of_fmap. simpl.
  by apply (leaf_map_range n kv.1 kv.2).
Qed.
End CollectFacts.

(** ** Posting and splitting *)
Lemma i16_depth d : 0 <= d < 32768 -> i16 d = d.
Proof. intros. apply i16_small. lia. Qed.
(** The delta that follows a lookup extends the chain by its change. *)
Lemma leaf_insert_ok a key v n ip : leaf_ok n -> in_range n key -> leaf_map n !! key = None -> index_ok (branch_base n key) key ip ->
  GetDepth n + 1 < 32768 -> leaf_ok (LeafInsertNode a key v n ip) /\ leaf_map (LeafInsertNode a key v n ip) = <[key := v]> (leaf_map n).
Proof.
  intros Hok Hr Hn Hip Hd. pose proof (leaf_depth _ Hok). split; [|done]. cbn [LeafInsertNode leaf_ok]. split_and!; [done| |done].
  split_and!; [|done|done]. split_and!; [done|done| |done]. simpl. apply i16_depth. lia.
Qed.
Lemma leaf_delete_ok a key v n ip : leaf_ok n -> in_range n key -> is_Some (leaf_map n !! key) -> index_ok (branch_base n key) key ip ->
  GetDepth n + 1 < 32768 -> leaf_ok (LeafDeleteNode a key v n ip) /\ leaf_map (LeafDeleteNode a key v n ip) = delete key (leaf_map n).
Proof.
  intros Hok Hr Hn Hip Hd. pose proof (leaf_depth _ Hok). split; [|done]. cbn [LeafDeleteNode leaf_ok]. split_and!; [done| |done].
  split_and!; [|done|done]. split_and!; [done|done| |simpl; lia]. simpl. apply i16_depth. lia.
Qed.
Lemma leaf_update_ok a key old v n ip : leaf_ok n -> in_range n key -> is_Some (leaf_map n !! key) -> index_ok (branch_base n key) key ip ->
  GetDepth n + 1 < 32768 -> leaf_ok (LeafUpdateNode a key old v n ip) /\ leaf_map (LeafUpdateNode a key old v n ip) = <[key := v]> (leaf_map n).
Proof.
  intros Hok Hr Hn Hip Hd. pose proof (leaf_depth _ Hok). split; [|done]. cbn [LeafUpdateNode leaf_ok]. split_and!; [done| |done|done].
  split_and!; [|done|done]. split_and!; [done|done| |simpl; lia]. simpl. apply i16_depth. lia.
Qed.

Lemma ksorted_pair (items : list KeyValuePair) i j x y : ksorted items.*1 -> (i < j)%nat -> items !! i = Some x -> items !! j = Some y -> x.1 < y.1.
Proof. intros Hs Hij Hx Hy. eapply (ksorted_lookup items.*1 i j); [done|done|by rewrite list_lookup_fmap, Hx|by rewrite list_lookup_fmap, Hy]. Qed.
Lemma FindSplitPoint_ok items : ksorted items.*1 -> (34 <= length items)%nat -> FindSplitPoint items = Ok (Z.of_nat (length items / 2)).
Proof.
  intros Hs Hlen. unfold FindSplitPoint, GetSize. cbv zeta. set (c := (length items / 2)%nat).
  replace (Z.of_nat (length items) / 2) with (Z.of_nat c) by (unfold c; by rewrite Nat2Z.inj_div).
  assert (Hc : (17 <= c < length items)%nat).
  { unfold c. split; [apply Nat.div_le_lower_bound; lia|apply Nat.div_lt; lia]. }
  destruct (lookup_lt_is_Some_2 items c) as [x Hx]; [lia|]. rewrite (array_get_lookup _ _ _ Hx). cbn [mbind outcome_bind].
  destruct (lookup_lt_is_Some_2 items (c - 1)) as [y Hy]; [lia|].
  cbn [split_left]. rewrite (proj2 (Z.eqb_neq _ _)) by lia. replace (Z.of_nat c - 1) with (Z.of_nat (c - 1)) by lia.
  rewrite (array_get_lookup _ _ _ Hy). cbn [mbind outcome_bind]. unfold KeyCmpEqual.
  assert (y.1 < x.1) by (eapply (ksorted_pair items (c - 1) c); [done|lia|done|done]). rewrite (proj2 (Z.eqb_neq _ _)) by lia. cbn [mbind outcome_bind].
  unfold LEAF_NODE_SIZE_LOWER_THRESHOLD. rewrite (proj2 (Z.ltb_lt _ _)) by lia. f_equal. lia.
Qed.
(** A leaf that is too large is cut in the middle, and neither half is too small. *)
Lemma leaf_split_ok a b id m items : leaf_ok (Leaf m items) -> (64 <= length items)%nat -> id <> INVALID_NODE_ID ->
  exists sib k, Leaf_GetSplitSibling a (Leaf m items) = Ok (Some sib) /\ leaf_ok sib /\ GetType sib = LeafType
    /\ GetLowKey sib = k /\ GetHighKeyPair sib = high_key m /\ (low_key m).1 < k /\ below (high_key m) k
    /\ array_get (match sib with Leaf _ is' => is' | _ => [] end) 0 ≫= (fun x => Ok x.1) = Ok k
    /\ let left_p := LeafSplitNode b (k, id) (Leaf m items) sib in
       leaf_ok left_p /\ leaf_map (Leaf m items) = leaf_map left_p ∪ leaf_map sib
       /\ (forall k' v, leaf_map left_p !! k' = Some v -> k' < k) /\ (forall k' v, leaf_map sib !! k' = Some v -> k <= k')
       /\ 32 <= GetItemCount left_p /\ 32 <= GetItemCount sib /\ GetItemCount left_p + GetItemCount sib = Z.of_nat (length items)
       /\ address sib = a.
Proof.
  intros Hok Hlen Hid. pose proof Hok as (Hs & Hrange & Hdep & Hcnt). unfold Leaf_GetSplitSibling. rewrite FindSplitPoint_ok by (try done; lia).
  cbn [mbind outcome_bind]. set (c := (length items / 2)%nat).
  assert (Hc : (32 <= c /\ c + c <= length items)%nat).
  { unfold c. split; [apply Nat.div_le_lower_bound; lia|]. pose proof (Nat.Div0.mul_div_le (length items) 2). lia. }
  rewrite (proj2 (Z.eqb_neq _ _)) by lia. destruct (lookup_lt_is_Some_2 items c) as [x Hx]; [lia|]. rewrite (array_get_lookup _ _ _ Hx).
  cbn [mbind outcome_bind]. unfold GetSize, Leaf_Get.
  set (sm := new_meta a (x.1, u64 (Z.lnot INVALID_NODE_ID)) (high_key m) 0 (Z.of_nat (length items) - Z.of_nat c)).
  rewrite (push_range items sm [] c (length items)); [|lia|lia|simpl; lia|simpl; unfold slice; rewrite length_take, length_drop; lia].
  cbn [mbind outcome_bind app]. assert (Hsl : slice items c (length items) = drop c items).
  { unfold slice. apply take_ge. rewrite length_drop. lia. }
  rewrite Hsl. assert (Hsplit : items = take c items ++ drop c items) by (by rewrite take_drop).
  pose proof Hs as Hs2. rewrite Hsplit, fmap_app in Hs2. apply ksorted_app in Hs2 as (Hs1 & Hs2 & Hlt).
  assert (Hhead : drop c items !! 0%nat = Some x) by (rewrite lookup_drop, Nat.add_0_r; done).
  assert (Hge : forall k v, (k, v) ∈ drop c items -> x.1 <= k).
  { intros k v [i Hi]%list_elem_of_lookup. destruct i as [|i]; [rewrite Hhead in Hi; by injection Hi as ->|].
    assert (x.1 < (k, v).1) by (eapply (ksorted_pair (drop c items) 0 (S i)); [done|lia|done|done]). simpl in *. lia. }
  assert (Hlt' : forall k v, (k, v) ∈ take c items -> k < x.1).
  { intros k v Hk. apply Hlt; [apply list_elem_of_fmap; by exists (k, v)|]. apply list_elem_of_fmap. exists x. split; [done|]. by eapply list_elem_of_lookup_2. }
  assert (Hxin : x ∈ items) by (by eapply list_elem_of_lookup_2).
  rewrite Forall_forall in Hrange. pose proof (Hrange x.1 ltac:(apply list_elem_of_fmap; by exists x)) as [Hx1 Hx2].
  assert (Hsib : leaf_ok (Leaf sm (drop c items))).
  { cbn [leaf_ok]. split_and!; [done| |done|simpl; rewrite length_drop; lia]. apply Forall_forall. intros k Hk. split; simpl.
    - apply list_elem_of_fmap in Hk as ([k' v'] & -> & Hk). by eapply Hge.
    - apply Hrange. rewrite Hsplit, fmap_app. set_solver. }
  assert (Hxlow : (low_key m).1 < x.1).
  { destruct (lookup_lt_is_Some_2 items 0) as [y Hy]; [lia|]. pose proof (ksorted_pair items 0 c y x Hs ltac:(lia) Hy Hx).
    pose proof (Hrange y.1 ltac:(apply list_elem_of_fmap; exists y; split; [done|by eapply list_elem_of_lookup_2])) as [? _]. lia. }
  assert (Hleft : filter (fun kv => kv.1 < x.1) (list_to_map items : gmap Z Z) = list_to_map (take c items)).
  { apply map_eq. intros k. apply option_eq. intros v. rewrite map_lookup_filter_Some, !list_map_lookup by done. simpl.
    rewrite Hsplit at 1. rewrite elem_of_app. split; [intros [[?|Hk] ?]; [done|specialize (Hge _ _ Hk); lia]|]. intros Hk. split; [by left|by eapply Hlt']. }
  assert (Hsize : base.size (list_to_map (take c items) : gmap Z Z) = c).
  { destruct (sorted_map_length (take c items) (list_to_map (take c items)) Hs1) as [_ <-]; [|rewrite length_take; lia].
    intros [k v]. by rewrite list_map_lookup. }
  assert (Hcut : item_count sm = Z.of_nat (length items) - Z.of_nat c) by done.
  exists (Leaf sm (drop c items)), x.1. split_and!; try done.
  { change 0 with (Z.of_nat 0). by rewrite (array_get_lookup _ _ _ Hhead). }
  cbv zeta. unfold LeafSplitNode, GetItemCount. cbn [metadata item_count new_meta]. cbn [leaf_ok leaf_map fst]. rewrite Hleft, Hsize, Hcnt.
  rewrite Hcut. split_and!; try done; try lia.
  - by apply Forall_forall.
  - unfold GetDepth. simpl. by rewrite Hdep.
  - cbn. lia.
  - cbn [leaf_map LeafSplitNode fst]. rewrite Hleft, <- list_to_map_app, <- Hsplit. done.
  - cbn [leaf_map LeafSplitNode fst]. rewrite Hleft. intros k v Hk%list_map_lookup; [|done]. by eapply Hlt'.
  - cbn [leaf_map]. intros k v Hk%list_map_lookup; [|done]. by eapply Hge.
  - unfold LeafSplitNode, GetItemCount. cbn [metadata item_count new_meta]. rewrite Hcnt, Hcut. lia.
  - unfold GetItemCount. cbn [metadata]. rewrite Hcut. lia.
  - unfold LeafSplitNode, GetItemCount. cbn [metadata item_count new_meta]. rewrite Hcnt, Hcut. lia.
Qed.

(** ** A chain with every kind of delta

    Two leaves, split and merged, with an insert, an update and a delete on top and below. *)
Definition left_leaf : BaseNode := Leaf (new_meta 1 (0, 0) (20, 3) 0 4) [(1, 10); (5, 50); (12, 120); (15, 150)].
Definition left_branch : BaseNode :=
  LeafUpdateNode 4 5 50 55 (LeafInsertNode 3 7 70 (LeafSplitNode 2 (12, 9) left_leaf (Leaf (new_meta 8 (12, 0) (20, 3) 0 2) [(12, 120); (15, 150)])) (2, false)) (1, true).
Definition right_branch : BaseNode := LeafDeleteNode 6 13 130 (Leaf (new_meta 5 (12, 0) (20, 3) 0 2) [(13, 130); (16, 160)]) (0, true).
Definition merged_leaf : BaseNode := LeafInsertNode 10 13 131 (LeafMergeNode 7 12 right_branch 9 left_branch) (0, true).

Ltac chain_case :=
  match goal with
  | |- _ /\ _ => split
  | |- Forall _ _ => constructor
  | |- StronglySorted _ _ => constructor
  | |- below _ _ => first [left; reflexivity | right; reflexivity]
  | |- is_Some _ => eexists; vm_compute; reflexivity
  | |- _ = _ => vm_compute; reflexivity
  | |- _ <> _ => by vm_compute
  | |- _ ∉ _ => refine (bool_decide_eq_true_1 _ _); vm_compute; reflexivity
  | |- _ => first [reflexivity | by vm_compute | by constructor]
  end.
Ltac chain_ok :=
  cbv [leaf_ok data_ok delta_meta in_range index_ok new_meta low_key high_key depth item_count LeafInsertNode LeafUpdateNode LeafDeleteNode
    LeafSplitNode LeafMergeNode fst snd fmap list_fmap]; repeat chain_case.
Lemma merged_leaf_ok : leaf_ok merged_leaf.
Proof. unfold merged_leaf, right_branch, left_branch, left_leaf. chain_ok. Qed.

(** ** What the operations on a leaf rely on *)
Section LeafClaims.
Context (key_hash : Z -> Z).
(** C15: consolidating a leaf, through inserts, updates, deletes, splits and merges of any
    nesting, succeeds, never writes past the array it has allocated, and yields one sorted
    base node with the bounds of the chain and exactly its bindings. *)
Theorem leaf_consolidation_correct a n : leaf_ok n ->
  exists m items, CollectAllValuesOnLeaf key_hash a n = Ok (Leaf m items)
    /\ ksorted items.*1 /\ (forall k v, (k, v) ∈ items <-> leaf_map n !! k = Some v)
    /\ low_key m = GetLowKeyPair n /\ high_key m = GetHighKeyPair n /\ item_count m = Z.of_nat (length items) /\ depth m = 0.
Proof.
  intros Hok. destruct (collect_all_ok key_hash a n Hok) as (items & Hrun & Hmap & Hs & _ & Hd & Hc). eexists _, items.
  split; [exact Hrun|]. split_and!; try done. intros k v. by rewrite <- Hmap, list_map_lookup.
Qed.
(** C17: the two searches of a leaf chain, for the values of a key and for an item with its
    position, find the binding of a key that the chain stands for; the position is the one a
    delta for the key has to carry; and the consolidated leaf answers the same. *)
Theorem leaf_lookup_correct a n key : leaf_ok n -> in_range n key ->
  navigate_values n key 0 (-1) = Ok (option_list (leaf_map n !! key))
  /\ (exists ip, navigate_item n key 0 (-1) = Ok (pair key <$> leaf_map n !! key, ip) /\ index_ok (branch_base n key) key ip)
  /\ (exists n', CollectAllValuesOnLeaf key_hash a n = Ok n' /\ navigate_values n' key 0 (-1) = navigate_values n key 0 (-1)).
Proof.
  intros Hok Hr. rewrite (navigate_values_ok n key Hok Hr). split_and!; [done|by apply navigate_item_ok; [| |apply brackets_all]|].
  destruct (collect_all_ok key_hash a n Hok) as (items & Hrun & Hmap & Hok'). eexists. split; [exact Hrun|].
  rewrite navigate_values_ok; [by rewrite <- Hmap|done|exact Hr].
Qed.
End LeafClaims.
Lemma leaf_consolidation_correct_witness :
  exists m items, CollectAllValuesOnLeaf id 11 merged_leaf = Ok (Leaf m items)
    /\ ksorted items.*1 /\ (forall k v, (k, v) ∈ items <-> leaf_map merged_leaf !! k = Some v)
    /\ low_key m = (0, 0) /\ high_key m = (20, 3) /\ item_count m = Z.of_nat (length items) /\ depth m = 0.
Proof. exact (leaf_consolidation_correct id 11 merged_leaf merged_leaf_ok). Defined.
Lemma leaf_lookup_correct_witness :
  navigate_values merged_leaf 13 0 (-1) = Ok (option_list (Some 131))
  /\ (exists ip, navigate_item merged_leaf 13 0 (-1) = Ok (Some (13, 131), ip) /\ index_ok (branch_base merged_leaf 13) 13 ip)
  /\ (exists n', CollectAllValuesOnLeaf id 11 merged_leaf = Ok n' /\ navigate_values n' 13 0 (-1) = navigate_values merged_leaf 13 0 (-1)).
Proof. refine (leaf_lookup_correct id 11 merged_leaf 13 merged_leaf_ok _). split; [by vm_compute|by right]. Defined.
