(* ===== verification/BwInner.v ===== *)
(** * Delta chains of inner nodes

    Models the functions of [src/src/indices/bw_tree/thread/bwtree.h] that read an inner
    delta chain: both [NavigateInnerNode]s (the one with a context behind the sibling
    chain) and [CollectAllSepsOnInner], the consolidation.  The theorems relate them to
    the map from separator keys to node ids a chain stands for. *)

From S2P Require Import Prelude BwSets BwNode BwLeaf.

(** [static_cast<const InnerDataNode *>] *)
Definition inner_item (n : BaseNode) : KeyNodeIDPair :=
  match n with InnerInsert _ i _ _ _ | InnerDelete _ i _ _ _ _ => i | _ => (0, 0) end.
(** The items of [InnerNode::GetNodeHeader(&node_p->GetLowKeyPair())]. *)
Definition header_items (n : BaseNode) : list KeyNodeIDPair :=
  match GetNodeHeader n with Inner _ items | Leaf _ items => items | _ => [] end.

Definition LocateSeparatorByKey (key : Z) (items : list KeyNodeIDPair) (start_index end_index : Z) : outcome Z :=
  item_index ← UpperBound start_index end_index key items;
  x ← array_get items (item_index - 1);
  Ok x.2.

(** ** [NavigateInnerNode(context_p)], behind [NavigateSiblingChain] *)
Definition before_next (key : Z) (next_item : KeyNodeIDPair) : bool :=
  (next_item.2 =? INVALID_NODE_ID) || KeyCmpLess key next_item.1.
Fixpoint navigate_inner (n : BaseNode) (key start_index end_index : Z) : outcome Z :=
  match n with
  | Inner _ items => LocateSeparatorByKey key items start_index end_index
  | InnerInsert _ item next_item location c =>
      if KeyCmpGreaterEqual key item.1 then
        if before_next key next_item then Ok item.2
        else navigate_inner c key (Z.max start_index location) end_index
      else navigate_inner c key start_index (Z.min end_index location)
  | InnerDelete _ item prev_item next_item location c =>
      if ((GetLowKeyNodeID n =? prev_item.2) || KeyCmpGreaterEqual key prev_item.1) && before_next key next_item then Ok prev_item.2
      else if KeyCmpGreaterEqual key item.1 then navigate_inner c key (Z.max location start_index) end_index
      else navigate_inner c key start_index (Z.min location end_index)
  | InnerSplit _ _ c => navigate_inner c key start_index end_index
  | InnerMerge _ delete_item right_p c =>
      if KeyCmpGreaterEqual key delete_item.1 then navigate_inner right_p key 1 (GetSize (header_items right_p))
      else navigate_inner c key 1 (GetSize (header_items c))
  | _ => Fault InactiveMember
  end.
Definition NavigateInner (n : BaseNode) (key : Z) : outcome Z := navigate_inner n key 1 (GetSize (header_items n)).

(** ** [NavigateInnerNode(snapshot_p, search_key, location)] *)
Fixpoint find_separator (n : BaseNode) (low_id key : Z) : outcome (option Z * Z) :=
  match n with
  | Inner _ items =>
      first ← array_get items 0;
      let start_index := if low_id =? first.2 then 1 else 0 in
      item_index ← LowerBound start_index (GetSize items) key items;
      if item_index =? GetSize items then Ok (None, item_index)
      else
        x ← array_get items item_index;
        if KeyCmpEqual x.1 key then Ok (Some x.2, item_index) else Ok (None, item_index)
  | InnerInsert _ item _ location c => if KeyCmpEqual item.1 key then Ok (Some item.2, location) else find_separator c low_id key
  | InnerDelete _ item _ _ location c => if KeyCmpEqual item.1 key then Ok (None, location) else find_separator c low_id key
  | InnerSplit _ _ c => find_separator c low_id key
  | InnerMerge _ delete_item right_p c =>
      if KeyCmpGreaterEqual key delete_item.1 then find_separator right_p low_id key else find_separator c low_id key
  | _ => Fault InactiveMember
  end.
Definition FindSeparator (n : BaseNode) (key : Z) : outcome (option Z * Z) := find_separator n (GetLowKeyNodeID n) key.

(** ** [CollectAllSepsOnInner] *)
Definition inner_data_less (idn1 idn2 : BaseNode) : bool := KeyCmpLess (inner_item idn1).1 (inner_item idn2).1.
Definition inner_data_eq (idn1 idn2 : BaseNode) : bool := KeyCmpEqual (inner_item idn1).1 (inner_item idn2).1.

Fixpoint seps_end_loop (fuel : nat) (data : list BaseNode) (start it high : Z) : outcome Z :=
  match fuel with
  | O => Fault OutOfFuel
  | S fuel =>
      if start <=? it then
        x ← array_get data it;
        if KeyCmpLess (inner_item x).1 high then Ok it else seps_end_loop fuel data start (it - 1) high
      else Ok it
  end.
Definition find_seps_end (s : SortedSmallSet BaseNode) (high_key_pair : KeyNodeIDPair) : outcome Z :=
  if high_key_pair.2 =? INVALID_NODE_ID then Ok (end_p s)
  else
    it ← seps_end_loop (S (Z.to_nat (end_p s - start_p s))) (sss_data s) (start_p s) (end_p s - 1) high_key_pair.1;
    Ok (it + 1).

(** Takes the front: an inserted separator is written, a deleted one dropped. *)
Definition take_front (s : SortedSmallSet BaseNode) (n : BaseNode) (index : Z) : outcome (SortedSmallSet BaseNode * BaseNode * Z) :=
  '(front, s) ← sss_PopFront s;
  if bool_decide (GetType front = InnerInsertType) then
    n ← WriteItem index (inner_item front) n; Ok (s, n, index + 1)
  else Ok (s, n, index).
Fixpoint drain_seps (fuel : nat) (sss_end_it : Z) (s : SortedSmallSet BaseNode) (n : BaseNode) (index : Z) :
    outcome (SortedSmallSet BaseNode * BaseNode * Z) :=
  match fuel with
  | O => Fault OutOfFuel
  | S fuel =>
      if start_p s =? sss_end_it then Ok (s, n, index)
      else '(s, n, index) ← take_front s n index; drain_seps fuel sss_end_it s n index
  end.
(** [while (1)]: the merge of the array with the data nodes. *)
Fixpoint merge_seps (fuel : nat) (items : list KeyNodeIDPair) (sss_end_it copy_start_index copy_end_index : Z)
    (s : SortedSmallSet BaseNode) (n : BaseNode) (index : Z) : outcome (SortedSmallSet BaseNode * BaseNode * Z) :=
  match fuel with
  | O => Fault OutOfFuel
  | S fuel =>
      let sss_end_flag := start_p s =? sss_end_it in
      let array_end_flag := copy_start_index =? copy_end_index in
      if sss_end_flag && array_end_flag then Ok (s, n, index)
      else if sss_end_flag then
        let copy_count := copy_end_index - copy_start_index in
        n ← WriteItems index copy_count items copy_start_index n;
        Ok (s, n, index + copy_count)
      else if array_end_flag then drain_seps (S (Z.to_nat (sss_end_it - start_p s))) sss_end_it s n index
      else
        head ← array_get items copy_start_index;
        front ← sss_GetFront s;
        if KeyCmpLess head.1 (inner_item front).1 then
          n ← WriteItem index head n;
          merge_seps fuel items sss_end_it (copy_start_index + 1) copy_end_index s n (index + 1)
        else if KeyCmpLess (inner_item front).1 head.1 then
          '(s, n, index) ← take_front s n index;
          merge_seps fuel items sss_end_it copy_start_index copy_end_index s n index
        else
          '(s, n, index) ← take_front s n index;
          merge_seps fuel items sss_end_it (copy_start_index + 1) copy_end_index s n index
  end.
Definition collect_inner_base (items : list KeyNodeIDPair) (high_key_pair : KeyNodeIDPair) (low_key_node_id : Z)
    (s : SortedSmallSet BaseNode) (n : BaseNode) (index : Z) : outcome (SortedSmallSet BaseNode * BaseNode * Z) :=
  copy_end_index ← (if high_key_pair.2 =? INVALID_NODE_ID then Ok (GetSize items)
                    else LowerBound 1 (GetSize items) high_key_pair.1 items);
  first ← array_get items 0;
  let copy_start_index := if first.2 =? low_key_node_id then 1 else 0 in
  sss_end_it ← find_seps_end s high_key_pair;
  merge_seps (S (Z.to_nat (sss_end_it - start_p s) + Z.to_nat (copy_end_index - copy_start_index)))
    items sss_end_it copy_start_index copy_end_index s n index.

Fixpoint CollectAllSepsOnInnerRecursive (n : BaseNode) (high_key_pair : KeyNodeIDPair) (low_key_node_id : Z)
    (s : SortedSmallSet BaseNode) (new_inner : BaseNode) (index : Z) : outcome (SortedSmallSet BaseNode * BaseNode * Z) :=
  match n with
  | Inner _ items => collect_inner_base items high_key_pair low_key_node_id s new_inner index
  | InnerInsert _ _ _ _ c | InnerDelete _ _ _ _ _ c =>
      s ← sss_Insert inner_data_less inner_data_eq n s;
      CollectAllSepsOnInnerRecursive c high_key_pair low_key_node_id s new_inner index
  | InnerSplit _ _ c => CollectAllSepsOnInnerRecursive c high_key_pair low_key_node_id s new_inner index
  | InnerMerge _ _ right_p c =>
      '(s, new_inner, index) ← CollectAllSepsOnInnerRecursive c (GetHighKeyPair c) low_key_node_id s new_inner index;
      CollectAllSepsOnInnerRecursive right_p (GetHighKeyPair right_p) low_key_node_id s new_inner index
  | _ => Fault InactiveMember
  end.
Definition CollectAllSepsOnInner (a : Z) (n : BaseNode) (p_depth : Z) : outcome BaseNode :=
  let s := new_sss (replicate (Z.to_nat (GetDepth n)) n) in
  inner_node ← WriteItem 0 (GetLowKeyPair n) (Inner_Get a p_depth (GetItemCount n) (GetLowKeyPair n) (GetHighKeyPair n));
  '(_, inner_node, _) ← CollectAllSepsOnInnerRecursive n (GetHighKeyPair n) (GetLowKeyNodeID n) s inner_node 1;
  Ok inner_node.

(** ** The separators an inner chain stands for *)
Definition apply_sep (d : BaseNode) (m : gmap Z Z) : gmap Z Z :=
  match d with
  | InnerInsert _ item _ _ _ => <[item.1 := item.2]> m
  | InnerDelete _ item _ _ _ _ => delete item.1 m
  | _ => m
  end.
Fixpoint inner_map (n : BaseNode) : gmap Z Z :=
  match n with
  | Inner _ items => list_to_map items
  | InnerInsert _ _ _ _ c | InnerDelete _ _ _ _ _ c => apply_sep n (inner_map c)
  | InnerSplit _ item c => filter (fun kv => kv.1 < item.1) (inner_map c)
  | InnerRemove _ _ c | InnerAbort _ c => inner_map c
  | InnerMerge _ _ right_p c => inner_map c ∪ inner_map right_p
  | _ => ∅
  end.
Fixpoint inner_base (n : BaseNode) (key : Z) : list KeyNodeIDPair :=
  match n with
  | Inner _ items => items
  | InnerMerge _ d right_p c => if decide (d.1 <= key) then inner_base right_p key else inner_base c key
  | InnerInsert _ _ _ _ c | InnerDelete _ _ _ _ _ c | InnerSplit _ _ c => inner_base c key
  | _ => []
  end.
(** The first ids of all base nodes. *)
Fixpoint first_ids (n : BaseNode) : list Z :=
  match n with
  | Inner _ items => match items with x :: _ => [x.2] | [] => [] end
  | InnerMerge _ _ right_p c => first_ids c ++ first_ids right_p
  | InnerInsert _ _ _ _ c | InnerDelete _ _ _ _ _ c | InnerSplit _ _ c => first_ids c
  | _ => []
  end.

(** [next] is the separator behind [x], or the high key. *)
Definition next_ok (mp : gmap Z Z) (high : KeyNodeIDPair) (x : Z) (next : KeyNodeIDPair) : Prop :=
  (forall k, is_Some (mp !! k) -> x < k -> next.2 <> INVALID_NODE_ID /\ next.1 <= k)
  /\ (next.2 <> INVALID_NODE_ID -> x < next.1 /\ (below high next.1 -> is_Some (mp !! next.1))).
(** [prev] is the separator before [x]. *)
Definition prev_ok (mp : gmap Z Z) (low : KeyNodeIDPair) (x : Z) (prev : KeyNodeIDPair) : Prop :=
  mp !! prev.1 = Some prev.2 /\ prev.1 < x /\ (forall k, is_Some (mp !! k) -> k < x -> k <= prev.1)
  /\ (prev.2 = low.2 -> prev.1 = low.1).
Definition sep_ok (m : NodeMetaData) (item : KeyNodeIDPair) (location : Z) (c : BaseNode) (more : Z) : Prop :=
  delta_meta m c more /\ GetLowKey c < item.1 /\ below (GetHighKeyPair c) item.1
  /\ location = Z.of_nat (rank (inner_base c item.1) item.1).
Fixpoint inner_ok (n : BaseNode) : Prop :=
  match n with
  | Inner m items =>
      ksorted items.*1 /\ head items = Some (low_key m) /\ Forall (fun k => below (high_key m) k) items.*1
      /\ 0 <= depth m /\ item_count m = Z.of_nat (length items)
  | InnerInsert m item next_item location c =>
      inner_ok c /\ sep_ok m item location c 1 /\ inner_map c !! item.1 = None
  | InnerDelete m item prev_item next_item location c =>
      inner_ok c /\ sep_ok m item location c (-1) /\ is_Some (inner_map c !! item.1)
  | InnerSplit m item c =>
      inner_ok c /\ GetType c = InnerType /\ low_key m = GetLowKeyPair c /\ high_key m = item /\ item.2 <> INVALID_NODE_ID
      /\ GetLowKey c < item.1 /\ below (GetHighKeyPair c) item.1 /\ depth m = GetDepth c
      /\ item_count m = Z.of_nat (base.size (filter (fun kv => kv.1 < item.1) (inner_map c)))
  | InnerMerge m d right_p c =>
      inner_ok c /\ inner_ok right_p /\ low_key m = GetLowKeyPair c /\ high_key m = GetHighKeyPair right_p
      /\ GetHighKey c = d.1 /\ GetNextNodeID c <> INVALID_NODE_ID /\ GetLowKey right_p = d.1
      /\ GetLowKey c < d.1 /\ below (GetHighKeyPair right_p) d.1 /\ (GetLowKeyNodeID c ∉ first_ids right_p)
      /\ depth m = GetDepth c + GetDepth right_p /\ item_count m = GetItemCount c + GetItemCount right_p
  | _ => False
  end.
(** The shortcuts [next_item] and [prev_item] of a chain name the neighbours of its items. *)
Fixpoint inner_exact (n : BaseNode) : Prop :=
  match n with
  | Inner _ _ => True
  | InnerInsert _ item next_item _ c => inner_exact c /\ next_ok (inner_map c) (GetHighKeyPair c) item.1 next_item
  | InnerDelete _ item prev_item next_item _ c =>
      inner_exact c /\ next_ok (inner_map c) (GetHighKeyPair c) item.1 next_item /\ prev_ok (inner_map c) (GetLowKeyPair c) item.1 prev_item
  | InnerSplit _ _ c => inner_exact c
  | InnerMerge _ _ right_p c => inner_exact c /\ inner_exact right_p
  | _ => False
  end.
(** Everything a chain points at satisfies [K]: its items, also of base nodes whose items
    were deleted or split off, and the shortcuts of deletes. *)
Fixpoint points (K : Z -> Z -> Prop) (n : BaseNode) : Prop :=
  match n with
  | Inner _ items => Forall (fun x => K x.1 x.2) items
  | InnerInsert _ item _ _ c => K item.1 item.2 /\ points K c
  | InnerDelete _ _ prev_item _ _ c => K prev_item.1 prev_item.2 /\ points K c
  | InnerSplit _ _ c | InnerRemove _ _ c | InnerAbort _ c => points K c
  | InnerMerge _ _ right_p c => points K c /\ points K right_p
  | _ => False
  end.
(** The child in charge of a key: the one behind the last separator that is not greater. *)
Definition in_charge (mp : gmap Z Z) (key id : Z) : Prop :=
  exists k, mp !! k = Some id /\ k <= key /\ forall k', is_Some (mp !! k') -> k' <= key -> k' <= k.

(** *** Ranges, merges and counts *)
Lemma inner_map_range n k v : inner_ok n -> inner_map n !! k = Some v -> in_range n k.
Proof.
  unfold in_range, GetLowKey, GetHighKeyPair, GetLowKeyPair. revert k v. induction n; intros k v; simpl; try tauto.
  - intros (Hs & Hhd & Hr & _) Hk. apply list_map_lookup in Hk; [|done]. rewrite Forall_forall in Hr.
    split; [|apply Hr, list_elem_of_fmap; by exists (k, v)]. destruct items as [|x items]; [done|]. injection Hhd as <-.
    apply elem_of_cons in Hk as [<-|Hk]; [done|]. simpl in Hs. apply StronglySorted_inv in Hs as [_ Hx]. rewrite Forall_forall in Hx.
    assert (x.1 < k); [|lia]. apply Hx. apply list_elem_of_fmap. by exists (k, v).
  - intros (Hc & ((Hl & Hh & _) & Hr1 & Hr2 & _) & _). rewrite Hl, Hh. unfold GetLowKey, GetLowKeyPair in *.
    intros [[<- _]|[_ Hk]]%lookup_insert_Some; [split; [lia|done]|by eapply IHn].
  - intros (Hc & ((Hl & Hh & _) & _) & _). rewrite Hl, Hh. intros [_ Hk]%lookup_delete_Some. by eapply IHn.
  - intros (Hc & _ & Hl & Hh & _). rewrite Hl, Hh. intros [Hk Hlt]%map_lookup_filter_Some. simpl in Hlt.
    split; [by eapply IHn|by right].
  - intros (Hc & Hr & Hl & Hh & Hhc & Hnc & Hlr & Hld & Hbd & _). rewrite Hl, Hh.
    intros [Hk|[_ Hk]]%lookup_union_Some_raw.
    + destruct (IHn2 k v Hc Hk) as [? Hb]. split; [done|]. destruct Hb as [?|Hb]; [done|]. unfold GetHighKey, GetHighKeyPair in Hhc.
      destruct Hbd as [?|?]; [by left|right]. unfold GetHighKeyPair in *. lia.
    + destruct (IHn1 k v Hr Hk) as [? ?]. unfold GetLowKey, GetLowKeyPair in *. split; [lia|done].
Qed.
Lemma imerge_left m d r c k v : inner_ok (InnerMerge m d r c) -> inner_map c !! k = Some v -> k < d.1.
Proof.
  intros (Hc & _ & _ & _ & Hh & Hn & _) Hk. destruct (inner_map_range c k v Hc Hk) as [_ [?|?]]; [done|]. unfold GetHighKey in *. lia.
Qed.
Lemma imerge_right m d r c k v : inner_ok (InnerMerge m d r c) -> inner_map r !! k = Some v -> d.1 <= k.
Proof. intros (_ & Hr & _ & _ & _ & _ & Hl & _) Hk. destruct (inner_map_range r k v Hr Hk) as [? _]. lia. Qed.
Lemma imerge_disjoint m d r c : inner_ok (InnerMerge m d r c) -> inner_map c ##ₘ inner_map r.
Proof.
  intros Hok. apply map_disjoint_spec. intros k v1 v2 H1 H2.
  pose proof (imerge_left _ _ _ _ _ _ Hok H1). pose proof (imerge_right _ _ _ _ _ _ Hok H2). lia.
Qed.
Lemma imerge_lookup m d r c k : inner_ok (InnerMerge m d r c) ->
  (inner_map c ∪ inner_map r) !! k = if decide (d.1 <= k) then inner_map r !! k else inner_map c !! k.
Proof.
  intros Hok. rewrite lookup_union. case_decide.
  - destruct (inner_map c !! k) eqn:E; [|by rewrite option_union_left_id]. pose proof (imerge_left _ _ _ _ _ _ Hok E). lia.
  - destruct (inner_map r !! k) eqn:E; [|by rewrite option_union_right_id]. pose proof (imerge_right _ _ _ _ _ _ Hok E). lia.
Qed.
Lemma inner_count n : inner_ok n -> GetItemCount n = Z.of_nat (base.size (inner_map n)).
Proof.
  unfold GetItemCount. induction n; simpl; try tauto.
  - intros (Hs & _ & _ & _ & ->). f_equal. apply (sorted_map_length items); [done|]. intros [k v]. by rewrite list_map_lookup.
  - intros (Hc & ((_ & _ & _ & ->) & _) & Hn). rewrite map_size_insert_None by done. unfold GetItemCount; rewrite IHn by done. lia.
  - intros (Hc & ((_ & _ & _ & ->) & _) & [v Hn]). rewrite map_size_delete_Some by eauto. unfold GetItemCount; rewrite IHn by done.
    assert (base.size (inner_map n) <> 0%nat) by (eapply map_size_ne_0_lookup_2; eauto). lia.
  - intros Hok. pose proof (imerge_disjoint _ _ _ _ Hok). destruct Hok as (Hc & Hr & _ & _ & _ & _ & _ & _ & _ & _ & _ & ->).
    rewrite map_size_disj_union by done. unfold GetItemCount; rewrite IHn1, IHn2 by done. lia.
Qed.
Lemma inner_depth n : inner_ok n -> 0 <= GetDepth n.
Proof.
  unfold GetDepth. induction n; simpl; try tauto.
  - intros (Hc & ((_ & _ & -> & _) & _) & _). specialize (IHn Hc). unfold GetDepth. lia.
  - intros (Hc & ((_ & _ & -> & _) & _) & _). specialize (IHn Hc). unfold GetDepth. lia.
  - intros (Hc & _ & _ & _ & _ & _ & _ & -> & _). by apply IHn.
  - intros (Hc & Hr & _ & _ & _ & _ & _ & _ & _ & _ & -> & _). specialize (IHn1 Hr). specialize (IHn2 Hc). unfold GetDepth. lia.
Qed.
(** The low key is always a separator. *)
Lemma inner_low n : inner_ok n -> inner_map n !! GetLowKey n = Some (GetLowKeyNodeID n).
Proof.
  unfold GetLowKey, GetLowKeyNodeID, GetLowKeyPair. induction n; simpl; try tauto.
  - intros (Hs & Hhd & _). apply list_map_lookup; [done|]. destruct items as [|x items]; [done|]. injection Hhd as <-. destruct x. left.
  - intros (Hc & ((Hl & _) & Hlt & _) & _). rewrite Hl. unfold GetLowKey, GetLowKeyPair in *. rewrite lookup_insert_ne by lia. by apply IHn.
  - intros (Hc & ((Hl & _) & Hlt & _) & _). rewrite Hl. unfold GetLowKey, GetLowKeyPair in *. rewrite lookup_delete_ne by lia. by apply IHn.
  - intros (Hc & _ & Hl & _ & _ & Hlt & _). rewrite Hl. unfold GetLowKey, GetLowKeyPair in *. apply map_lookup_filter_Some. split; [by apply IHn|done].
  - intros Hok. pose proof Hok as (Hc & _ & Hl & _ & _ & _ & _ & Hlt & _). rewrite (imerge_lookup _ _ _ _ _ Hok), Hl.
    unfold GetLowKey, GetLowKeyPair in *. rewrite decide_False by lia. by apply IHn2.
Qed.
(** So the low id heads the leftmost base node. *)
Lemma inner_first n : inner_ok n -> exists ids, first_ids n = GetLowKeyNodeID n :: ids.
Proof.
  unfold GetLowKeyNodeID, GetLowKeyPair. induction n; simpl; try tauto.
  - intros (_ & Hhd & _). destruct items as [|x items]; [done|]. injection Hhd as <-. by exists [].
  - intros (Hc & ((Hl & _) & _) & _). rewrite Hl. by apply IHn.
  - intros (Hc & ((Hl & _) & _) & _). rewrite Hl. by apply IHn.
  - intros (Hc & _ & Hl & _). rewrite Hl. by apply IHn.
  - intros (Hc & _ & Hl & _). rewrite Hl. destruct (IHn2 Hc) as [ids ->]. simpl. eauto.
Qed.

(** ** Navigation *)
Lemma UpperBound_ok (items : list KeyNodeIDPair) key (st en : nat) : ksorted items.*1 ->
  (st <= rank items (key + 1))%nat -> (rank items (key + 1) <= en)%nat -> (en <= length items)%nat ->
  UpperBound (Z.of_nat st) (Z.of_nat en) key items = Ok (Z.of_nat (rank items (key + 1))).
Proof.
  intros Hs H1 H2 H3. unfold UpperBound. apply std_upper_bound_ok; [lia|lia|lia| |]; intros i Hi.
  - destruct (lookup_lt_is_Some_2 items (Z.to_nat i)) as [x Hx]; [lia|]. exists x.1. rewrite <- (Z2Nat.id i) by lia. split.
    + apply array_get_lookup. by rewrite list_lookup_fmap, Hx.
    + apply Z.ltb_ge. assert (x.1 < key + 1); [|lia]. apply (rank_before items (key + 1) _ _ Hs Hx). lia.
  - destruct (lookup_lt_is_Some_2 items (Z.to_nat i)) as [x Hx]; [lia|]. exists x.1. rewrite <- (Z2Nat.id i) by lia. split.
    + apply array_get_lookup. by rewrite list_lookup_fmap, Hx.
    + apply Z.ltb_lt. pose proof (rank_before items (key + 1) _ _ Hs Hx). lia.
Qed.
Definition ibracket (items : list KeyNodeIDPair) (key st en : Z) : Prop :=
  1 <= st <= Z.of_nat (rank items (key + 1)) /\ Z.of_nat (rank items (key + 1)) <= en <= GetSize items.
Lemma locate_ok items key st en : ksorted items.*1 -> ibracket items key st en ->
  exists id, LocateSeparatorByKey key items st en = Ok id /\ in_charge (list_to_map items) key id.
Proof.
  intros Hs [Hst Hen]. unfold LocateSeparatorByKey, GetSize in *. pose proof (rank_le items (key + 1)).
  rewrite <- (Z2Nat.id st), <- (Z2Nat.id en) by lia. rewrite UpperBound_ok by (try done; lia). cbn [mbind outcome_bind].
  destruct (lookup_lt_is_Some_2 items (rank items (key + 1) - 1)) as [x Hx]; [lia|].
  replace (Z.of_nat (rank items (key + 1)) - 1) with (Z.of_nat (rank items (key + 1) - 1)) by lia. rewrite (array_get_lookup _ _ _ Hx).
  exists x.2. split; [done|]. exists x.1. split_and!.
  - apply list_map_lookup; [done|]. destruct x. by eapply list_elem_of_lookup_2.
  - assert (x.1 < key + 1); [|lia]. apply (rank_before items (key + 1) _ _ Hs Hx). lia.
  - intros k' [v [i Hi]%list_map_lookup%list_elem_of_lookup] Hk; [|done].
    assert (i < rank items (key + 1))%nat by (apply (rank_before items (key + 1) _ _ Hs Hi); simpl; lia).
    destruct (decide (i = rank items (key + 1) - 1)%nat) as [->|]; [rewrite Hx in Hi; by injection Hi as ->|].
    assert ((k', v).1 < x.1) by (eapply (ksorted_pair items i); [done| |done|done]; lia). simpl in *. lia.
Qed.

Fixpoint plain_inner (n : BaseNode) : option (list KeyNodeIDPair) :=
  match n with
  | Inner _ items => Some items
  | InnerInsert _ _ _ _ c | InnerDelete _ _ _ _ _ c | InnerSplit _ _ c => plain_inner c
  | _ => None
  end.
Lemma plain_inner_base n items key : plain_inner n = Some items -> inner_base n key = items.
Proof. induction n; simpl; naive_solver. Qed.
Lemma plain_inner_header n items : plain_inner n = Some items -> header_items n = items.
Proof. unfold header_items. induction n; simpl; naive_solver. Qed.
Lemma plain_inner_ok n items : inner_ok n -> plain_inner n = Some items -> ksorted items.*1 /\ head items = Some (GetLowKeyPair n).
Proof.
  unfold GetLowKeyPair. induction n; simpl; try done.
  - intros (Hs & Hhd & _) [= <-]. done.
  - intros (Hc & ((Hl & _) & _) & _). rewrite Hl. by apply IHn.
  - intros (Hc & ((Hl & _) & _) & _). rewrite Hl. by apply IHn.
  - intros (Hc & _ & Hl & _). rewrite Hl. by apply IHn.
Qed.
Definition ibrackets (n : BaseNode) (key st en : Z) : Prop := forall items, plain_inner n = Some items -> ibracket items key st en.
Lemma ibrackets_start n key : inner_ok n -> GetLowKey n <= key -> ibrackets n key 1 (GetSize (header_items n)).
Proof.
  intros Hok Hlow items Hp. rewrite (plain_inner_header _ _ Hp). destruct (plain_inner_ok _ _ Hok Hp) as [Hs Hhd].
  pose proof (rank_le items (key + 1)). unfold ibracket, GetSize. destruct items as [|x items]; [done|]. injection Hhd as ->.
  assert (0 < rank (GetLowKeyPair n :: items) (key + 1))%nat by (apply (rank_before _ (key + 1) 0 (GetLowKeyPair n) Hs); [done|unfold GetLowKey in *; lia]). lia.
Qed.
Lemma ibrackets_max c key item st en : ibrackets c key st en -> item <= key ->
  ibrackets c key (Z.max st (Z.of_nat (rank (inner_base c item) item))) en.
Proof.
  intros Hb Hle items Hp. specialize (Hb items Hp) as [Hst Hen]. rewrite (plain_inner_base _ _ item Hp).
  pose proof (rank_mono items item (key + 1) ltac:(lia)). split; [lia|done].
Qed.
Lemma ibrackets_min c key item st en : ibrackets c key st en -> key < item ->
  ibrackets c key st (Z.min en (Z.of_nat (rank (inner_base c item) item))).
Proof.
  intros Hb Hle items Hp. specialize (Hb items Hp) as [Hst Hen]. rewrite (plain_inner_base _ _ item Hp).
  pose proof (rank_mono items (key + 1) item ltac:(lia)). split; [done|]. lia.
Qed.

(** How the child in charge changes with one separator. *)
Lemma in_charge_insert (mp : gmap Z Z) (high : KeyNodeIDPair) key (item next : KeyNodeIDPair) id : mp !! item.1 = None -> next_ok mp high item.1 next -> below high key ->
  (item.1 <= key -> before_next key next = true -> in_charge (<[item.1 := item.2]> mp) key item.2)
  /\ (key < item.1 \/ before_next key next = false -> in_charge mp key id -> in_charge (<[item.1 := item.2]> mp) key id).
Proof.
  intros Hn [Hnx1 Hnx2] Hb. unfold before_next, KeyCmpLess. split.
  - intros Hk Hbn. exists item.1. rewrite lookup_insert_eq. split_and!; [done|done|]. intros k' Hk' Hle.
    destruct (decide (k' = item.1)) as [->|]; [done|]. rewrite lookup_insert_ne in Hk' by done.
    destruct (Z.le_gt_cases k' item.1) as [|Hgt]; [done|]. destruct (Hnx1 k' Hk' Hgt) as [? ?].
    apply orb_true_iff in Hbn as [?%Z.eqb_eq|?%Z.ltb_lt]; [done|lia].
  - intros Hor (k & Hk & Hle & Hmax). exists k. rewrite lookup_insert_ne by congruence. split_and!; [done|done|]. intros k' Hk' Hle'.
    destruct (decide (k' = item.1)) as [->|]; [|rewrite lookup_insert_ne in Hk' by done; by apply Hmax].
    destruct Hor as [?|[Hx Hy]%orb_false_iff]; [lia|]. apply Z.eqb_neq in Hx. apply Z.ltb_ge in Hy. destruct (Hnx2 Hx) as [Hlt Hsome].
    assert (next.1 <= k); [|lia]. apply Hmax; [|done]. apply Hsome. destruct Hb as [?|?]; [by left|right; lia].
Qed.
Lemma in_charge_delete (mp : gmap Z Z) (low high : KeyNodeIDPair) key (item prev next : KeyNodeIDPair) id : prev_ok mp low item.1 prev -> next_ok mp high item.1 next -> below high key -> low.1 <= key ->
  (((low.2 =? prev.2) || KeyCmpGreaterEqual key prev.1) && before_next key next = true -> in_charge (delete item.1 mp) key prev.2)
  /\ (((low.2 =? prev.2) || KeyCmpGreaterEqual key prev.1) && before_next key next = false -> in_charge mp key id -> in_charge (delete item.1 mp) key id).
Proof.
  intros (Hp1 & Hp2 & Hp3 & Hp4) [Hnx1 Hnx2] Hb Hl. unfold before_next, KeyCmpGreaterEqual, KeyCmpLess. split.
  - intros [Ha Hbn]%andb_true_iff. exists prev.1. rewrite lookup_delete_ne by lia. split_and!; [done| |].
    + apply orb_true_iff in Ha as [Ha%Z.eqb_eq|Ha%negb_true_iff%Z.ltb_ge]; [|done]. rewrite Hp4 by done. done.
    + intros k' Hk' Hle. destruct (decide (k' = item.1)) as [->|]; [by rewrite lookup_delete_eq in Hk'; destruct Hk'|].
      rewrite lookup_delete_ne in Hk' by done. destruct (Z.lt_ge_cases k' item.1); [by apply Hp3|].
      destruct (Hnx1 k' Hk' ltac:(lia)) as [? ?]. apply orb_true_iff in Hbn as [?%Z.eqb_eq|?%Z.ltb_lt]; [done|lia].
  - intros Hor (k & Hk & Hle & Hmax). exists k. assert (k <> item.1) as Hne.
    { intros ->. apply andb_false_iff in Hor as [[_ Hx%negb_false_iff%Z.ltb_lt]%orb_false_iff|[Hx Hy]%orb_false_iff]; [lia|].
      apply Z.eqb_neq in Hx. apply Z.ltb_ge in Hy. destruct (Hnx2 Hx) as [Hlt Hsome].
      assert (next.1 <= item.1); [|lia]. apply Hmax; [|done]. apply Hsome. destruct Hb as [?|?]; [by left|right; lia]. }
    rewrite lookup_delete_ne by done. split_and!; [done|done|]. intros k' Hk' Hle'. apply Hmax; [|done].
    destruct (decide (k' = item.1)) as [->|]; [by rewrite lookup_delete_eq in Hk'; destruct Hk'|]. by rewrite lookup_delete_ne in Hk'.
Qed.
Lemma navigate_inner_ok n key : inner_ok n -> inner_exact n -> forall st en, in_range n key -> ibrackets n key st en ->
  exists id, navigate_inner n key st en = Ok id /\ in_charge (inner_map n) key id.
Proof.
  induction n; intros Hok Hex st en Hr Hb; try done.
  - cbn [navigate_inner inner_map]. apply locate_ok; [apply Hok|by apply Hb].
  - destruct Hok as (Hc & ((Hl & Hh & _) & Hr1 & Hr2 & Hloc) & Hn). destruct Hex as [Hex Hnx]. cbn [navigate_inner inner_map apply_sep].
    assert (Hr' : in_range n key) by (unfold in_range, GetLowKey, GetLowKeyPair, GetHighKeyPair in *; simpl in Hr; by rewrite Hl, Hh in Hr).
    pose proof (fun id => in_charge_insert _ _ key item next_item id Hn Hnx (proj2 Hr')) as Hch.
    unfold KeyCmpGreaterEqual, KeyCmpLess. destruct (Z.ltb_spec key item.1) as [Hlt|Hge]; cbn [negb].
    + destruct (IHn Hc Hex st (Z.min en location)) as (id & Hrun & Hin); [done|rewrite Hloc; by apply ibrackets_min|].
      exists id. split; [done|]. apply Hch; [by left|done].
    + destruct (before_next key next_item) eqn:Hbn; [exists item.2; split; [done|]; apply (Hch 0); [lia|done]|].
      destruct (IHn Hc Hex (Z.max st location) en) as (id & Hrun & Hin); [done|rewrite Hloc; by apply ibrackets_max|].
      exists id. split; [done|]. apply Hch; [by right|done].
  - destruct Hok as (Hc & ((Hl & Hh & _) & Hr1 & Hr2 & Hloc) & Hn). destruct Hex as (Hex & Hnx & Hpv). cbn [navigate_inner inner_map apply_sep].
    assert (Hr' : in_range n key) by (unfold in_range, GetLowKey, GetLowKeyPair, GetHighKeyPair in *; simpl in Hr; by rewrite Hl, Hh in Hr).
    pose proof (fun id => in_charge_delete _ _ _ key item prev_item next_item id Hpv Hnx (proj2 Hr') (proj1 Hr')) as Hch.
    assert (Hlow : GetLowKeyNodeID (InnerDelete m item prev_item next_item location n) = (GetLowKeyPair n).2)
      by (unfold GetLowKeyNodeID, GetLowKeyPair in *; simpl; by rewrite Hl).
    rewrite Hlow. destruct (_ && _) eqn:Hcase; [exists prev_item.2; split; [done|by apply (Hch 0)]|].
    unfold KeyCmpGreaterEqual, KeyCmpLess. destruct (Z.ltb_spec key item.1) as [Hlt|Hge]; cbn [negb].
    + destruct (IHn Hc Hex st (Z.min location en)) as (id & Hrun & Hin); [done|rewrite Z.min_comm, Hloc; by apply ibrackets_min|].
      exists id. split; [done|]. by apply Hch.
    + destruct (IHn Hc Hex (Z.max location st) en) as (id & Hrun & Hin); [done|rewrite Z.max_comm, Hloc; by apply ibrackets_max; [|lia]|].
      exists id. split; [done|]. by apply Hch.
  - destruct Hok as (Hc & _ & Hl & Hh & Hid & Hr1 & Hr2 & _). cbn [navigate_inner inner_map]. destruct Hr as [Hra Hrb].
    unfold GetLowKey, GetLowKeyPair, GetHighKeyPair in Hra, Hrb. simpl in Hra, Hrb. rewrite Hl in Hra. rewrite Hh in Hrb. destruct Hrb as [?|Hrb]; [done|].
    destruct (IHn Hc Hex st en) as (id & Hrun & k & Hk & Hle & Hmax); [|done|].
    { split; [done|]. destruct Hr2 as [?|?]; [by left|right; lia]. }
    exists id. split; [done|]. exists k. rewrite map_lookup_filter_Some. split_and!; [done|simpl; lia|done|].
    intros k' [v [Hv _]%map_lookup_filter_Some] Hk'. apply Hmax; [by exists v|done].
  - pose proof Hok as (Hc & Hr2 & Hl & Hh & Hhc & Hnc & Hlr & Hlt & _). cbn [navigate_inner inner_map].
    destruct Hr as [Hra Hrb]. unfold GetLowKey, GetLowKeyPair, GetHighKeyPair in Hra, Hrb. simpl in Hra, Hrb. rewrite Hl in Hra. rewrite Hh in Hrb.
    unfold KeyCmpGreaterEqual, KeyCmpLess. destruct (Z.ltb_spec key delete_item.1); cbn [negb].
    + destruct (IHn2 Hc (proj1 Hex) 1 (GetSize (header_items n2))) as (id & Hrun & k & Hk & Hle & Hmax); [|by apply ibrackets_start|].
      { split; [done|]. right. unfold GetHighKey in Hhc. lia. }
      exists id. split; [done|]. exists k. rewrite (imerge_lookup _ _ _ _ _ Hok), decide_False by lia. split_and!; [done|done|].
      intros k' Hk' Hle'. rewrite (imerge_lookup _ _ _ _ _ Hok), decide_False in Hk' by lia. by apply Hmax.
    + destruct (IHn1 Hr2 (proj2 Hex) 1 (GetSize (header_items n1))) as (id & Hrun & k & Hk & Hle & Hmax); [split; [lia|done]|apply ibrackets_start; [done|lia]|].
      exists id. split; [done|]. pose proof (imerge_right _ _ _ _ _ _ Hok Hk). exists k. rewrite (imerge_lookup _ _ _ _ _ Hok), decide_True by lia.
      split_and!; [done|done|]. intros k' Hk' Hle'. rewrite (imerge_lookup _ _ _ _ _ Hok) in Hk'. case_decide; [by apply Hmax|lia].
Qed.

Lemma find_base_ok items key (st : nat) : ksorted items.*1 -> (st <= rank items key)%nat ->
  (item_index ← LowerBound (Z.of_nat st) (GetSize items) key items;
   if item_index =? GetSize items then Ok (None, item_index)
   else x ← array_get items item_index; if KeyCmpEqual x.1 key then Ok (Some x.2, item_index) else Ok (None, item_index))
  = Ok ((list_to_map items : gmap Z Z) !! key, Z.of_nat (rank items key)).
Proof.
  intros Hs Hst. pose proof (rank_le items key). unfold GetSize. rewrite LowerBound_ok by (try done; lia). cbn [mbind outcome_bind].
  assert (Hfound : forall v, (list_to_map items : gmap Z Z) !! key = Some v -> items !! rank items key = Some (key, v)).
  { intros v Hv%list_map_lookup; [|done]. destruct (proj1 (rank_found items key Hs)) as [v' Hv']; [apply list_elem_of_fmap; by exists (key, v)|].
    assert (v' = v) as ->; [|done]. apply list_elem_of_lookup_2 in Hv'. apply list_map_lookup in Hv, Hv'; [|done|done]. congruence. }
  destruct (Z.eqb_spec (Z.of_nat (rank items key)) (Z.of_nat (length items))) as [He|Hne].
  - destruct (list_to_map items !! key); [|done]. specialize (Hfound _ eq_refl). apply lookup_lt_Some in Hfound. lia.
  - destruct (lookup_lt_is_Some_2 items (rank items key)) as [[k v] Hx]; [lia|]. rewrite (array_get_lookup _ _ _ Hx). cbn [mbind outcome_bind fst snd].
    unfold KeyCmpEqual. destruct (Z.eqb_spec k key) as [->|Hk].
    + rewrite (proj2 (list_map_lookup items key v Hs)); [done|]. by eapply list_elem_of_lookup_2.
    + destruct (list_to_map items !! key); [|done]. specialize (Hfound _ eq_refl). congruence.
Qed.
Lemma find_separator_ok n key low_id : inner_ok n -> in_range n key ->
  (low_id = GetLowKeyNodeID n /\ GetLowKey n < key) \/ low_id ∉ first_ids n ->
  find_separator n low_id key = Ok (inner_map n !! key, Z.of_nat (rank (inner_base n key) key)).
Proof.
  induction n; intros Hok Hr Hid; try done.
  - destruct Hok as (Hs & Hhd & _). cbn [find_separator inner_map inner_base]. destruct items as [|x items]; [done|].
    change (array_get (x :: items) 0) with (array_get (x :: items) (Z.of_nat 0)). rewrite (array_get_lookup _ _ x) by done.
    cbn [mbind outcome_bind]. injection Hhd as Hx. destruct (Z.eqb_spec low_id x.2) as [->|Hne].
    + apply (find_base_ok (x :: items) key 1); [done|]. destruct Hid as [[_ Hlt]|Hid]; [|exfalso; apply Hid; simpl; left].
      apply (rank_before _ key 0 x Hs); [done|]. unfold GetLowKey, GetLowKeyPair in Hlt. simpl in Hlt. by rewrite <- Hx in Hlt.
    + apply (find_base_ok (x :: items) key 0); [done|lia].
  - destruct Hok as (Hc & ((Hl & Hh & _) & Hr1 & Hr2 & Hloc) & Hn). cbn [find_separator inner_map apply_sep inner_base]. unfold KeyCmpEqual.
    destruct (Z.eqb_spec item.1 key) as [<-|Hne]; [by rewrite lookup_insert_eq, Hloc|]. rewrite lookup_insert_ne by done.
    unfold in_range, GetLowKey, GetLowKeyNodeID, GetLowKeyPair, GetHighKeyPair in *. simpl in *. rewrite Hl, Hh in *. by apply IHn.
  - destruct Hok as (Hc & ((Hl & Hh & _) & Hr1 & Hr2 & Hloc) & Hn). cbn [find_separator inner_map apply_sep inner_base]. unfold KeyCmpEqual.
    destruct (Z.eqb_spec item.1 key) as [<-|Hne]; [by rewrite lookup_delete_eq, Hloc|]. rewrite lookup_delete_ne by done.
    unfold in_range, GetLowKey, GetLowKeyNodeID, GetLowKeyPair, GetHighKeyPair in *. simpl in *. rewrite Hl, Hh in *. by apply IHn.
  - destruct Hok as (Hc & _ & Hl & Hh & Hi & Hr1 & Hr2 & _). cbn [find_separator inner_map inner_base].
    unfold in_range, GetLowKey, GetLowKeyNodeID, GetLowKeyPair, GetHighKeyPair in *. simpl in *. rewrite Hl, Hh in *. destruct Hr as [Hra [?|Hrb]]; [done|].
    rewrite IHn; [|done| |done].
    + do 2 f_equal. rewrite map_lookup_filter. destruct (inner_map n !! key); [|done]. simpl. by case_guard.
    + split; [done|]. destruct Hr2 as [?|?]; [by left|right; lia].
  - pose proof Hok as (Hc & Hr2 & Hl & Hh & Hhc & Hnc & Hlr & Hlt & _ & Hids & _). cbn [find_separator inner_map inner_base].
    rewrite (imerge_lookup _ _ _ _ _ Hok). cbn [first_ids] in Hid. rewrite not_elem_of_app in Hid.
    unfold in_range, GetLowKey, GetLowKeyNodeID, GetLowKeyPair, GetHighKeyPair, GetHighKey, GetNextNodeID in *. simpl in *. rewrite Hl, Hh in *.
    unfold KeyCmpGreaterEqual, KeyCmpLess. destruct (Z.ltb_spec key delete_item.1); cbn [negb].
    + rewrite !decide_False by lia. apply IHn2; [done| |tauto]. split; [apply Hr|]. right. unfold GetHighKeyPair in *. lia.
    + rewrite !decide_True by lia. apply IHn1; [done| |]; [split; [lia|apply Hr]|]. right. destruct Hid as [[-> _]|[_ ?]]; done.
Qed.

(** ** Consolidation *)
Definition ikey (d : BaseNode) : Z := (inner_item d).1.
Definition is_sep (d : BaseNode) : Prop := match d with InnerInsert _ _ _ _ _ | InnerDelete _ _ _ _ _ _ => True | _ => False end.
Definition is_ins (d : BaseNode) : bool := bool_decide (GetType d = InnerInsertType).
Definition sep_puts (d : BaseNode) : list KeyNodeIDPair := if is_ins d then [inner_item d] else [].
Definition all_seps (l : list BaseNode) : list KeyNodeIDPair := mjoin (sep_puts <$> l).

(** The merge as a function on lists. *)
Fixpoint merge_lists (B : list KeyNodeIDPair) : list BaseNode -> list KeyNodeIDPair :=
  match B with
  | [] => all_seps
  | b :: B' =>
      fix go L :=
        match L with
        | [] => b :: B'
        | d :: L' =>
            if KeyCmpLess b.1 (ikey d) then b :: merge_lists B' (d :: L')
            else if KeyCmpLess (ikey d) b.1 then sep_puts d ++ go L'
            else sep_puts d ++ merge_lists B' L'
        end
  end.
Lemma merge_lists_nil B : merge_lists B [] = B.
Proof. by destruct B. Qed.
Lemma all_seps_cons d L : all_seps (d :: L) = sep_puts d ++ all_seps L.
Proof. done. Qed.

(** An inner node whose first items are written. *)
Lemma write_item_ok m out y junk x :
  WriteItem (Z.of_nat (length out)) x (Inner m (out ++ y :: junk)) = Ok (Inner m ((out ++ [x]) ++ junk)).
Proof. unfold WriteItem. rewrite array_set_app. cbn [mbind outcome_bind]. by rewrite <- app_assoc. Qed.
Lemma take_front_ok s d L m out junk : sss_holds s (d :: L) -> (length (sep_puts d) <= length junk)%nat ->
  exists s', take_front s (Inner m (out ++ junk)) (Z.of_nat (length out))
      = Ok (s', Inner m ((out ++ sep_puts d) ++ drop (length (sep_puts d)) junk), Z.of_nat (length (out ++ sep_puts d)))
    /\ sss_holds s' L /\ start_p s' = start_p s + 1 /\ same_array s s'.
Proof.
  intros Hh Hl. destruct (sss_pop_ok s d L Hh) as (_ & s' & Hpop & Hh'). unfold take_front. rewrite Hpop. cbn [mbind outcome_bind].
  pose proof (holds_start _ _ _ _ Hh Hpop). pose proof (pop_same _ _ _ Hpop). exists s'. unfold sep_puts, is_ins in *. case_bool_decide.
  - destruct junk as [|y junk]; [simpl in Hl; lia|]. rewrite write_item_ok. cbn [mbind outcome_bind]. rewrite length_app. simpl.
    split_and!; [repeat f_equal; lia|done|done|done].
  - rewrite !app_nil_r. done.
Qed.
Lemma drain_seps_ok L2 m L : forall fuel s out junk end_it, (length L < fuel)%nat -> sss_holds s (L ++ L2) ->
  end_it = start_p s + Z.of_nat (length L) -> (length (all_seps L) <= length junk)%nat ->
  exists s', drain_seps fuel end_it s (Inner m (out ++ junk)) (Z.of_nat (length out))
      = Ok (s', Inner m ((out ++ all_seps L) ++ drop (length (all_seps L)) junk), Z.of_nat (length (out ++ all_seps L)))
    /\ sss_holds s' L2 /\ same_array s s'.
Proof.
  induction L as [|d L IH]; intros fuel s out junk end_it Hf Hh He Hl; (destruct fuel as [|fuel]; [lia|]); cbn [drain_seps].
  - rewrite (proj2 (Z.eqb_eq _ _)) by (simpl in He; lia). exists s. rewrite !app_nil_r. done.
  - rewrite (proj2 (Z.eqb_neq _ _)) by (simpl in He; lia). rewrite all_seps_cons, length_app in Hl.
    destruct (take_front_ok s d (L ++ L2) m out junk Hh) as (s1 & -> & Hh1 & Hst & Hsa); [lia|]. cbn [mbind outcome_bind].
    destruct (IH fuel s1 (out ++ sep_puts d) (drop (length (sep_puts d)) junk) end_it) as (s' & -> & Hh' & Hsa');
      [simpl in Hf; lia|done|simpl in He; lia|rewrite length_drop; lia|].
    exists s'. rewrite all_seps_cons, drop_drop, <- length_app, !app_assoc. split_and!; [done|done|]. destruct Hsa, Hsa'. split; congruence.
Qed.
Lemma merge_seps_ok items L2 m : forall fuel cs ce L s out junk end_it,
  (ce - cs + length L < fuel)%nat -> (cs <= ce <= length items)%nat -> sss_holds s (L ++ L2) ->
  end_it = start_p s + Z.of_nat (length L) -> (length (merge_lists (slice items cs ce) L) <= length junk)%nat ->
  exists s', merge_seps fuel items end_it (Z.of_nat cs) (Z.of_nat ce) s (Inner m (out ++ junk)) (Z.of_nat (length out))
      = Ok (s', Inner m ((out ++ merge_lists (slice items cs ce) L) ++ drop (length (merge_lists (slice items cs ce) L)) junk),
            Z.of_nat (length (out ++ merge_lists (slice items cs ce) L)))
    /\ sss_holds s' L2 /\ same_array s s'.
Proof.
  induction fuel as [|fuel IH]; intros cs ce L s out junk end_it Hf Hc Hh He Hl; [lia|]. cbn [merge_seps]. cbv zeta.
  assert (Hnil : cs = ce -> slice items cs ce = []) by (intros ->; unfold slice; by rewrite Nat.sub_diag).
  assert (Hcons : (cs < ce)%nat -> exists b, items !! cs = Some b /\ slice items cs ce = b :: slice items (S cs) ce).
  { intros Hlt. destruct (lookup_lt_is_Some_2 items cs) as [b Hb]; [lia|]. exists b. split; [done|]. unfold slice. rewrite (drop_S _ _ _ Hb).
    replace (ce - cs)%nat with (S (ce - S cs)) by lia. done. }
  destruct L as [|d L].
  - rewrite (proj2 (Z.eqb_eq (start_p s) end_it)) by (simpl in He; lia). cbn [andb]. rewrite merge_lists_nil in *.
    destruct (Z.eqb_spec (Z.of_nat cs) (Z.of_nat ce)) as [Heq|Hne].
    + rewrite Hnil by lia. exists s. rewrite !app_nil_r. done.
    + unfold WriteItems, slice in *. rewrite length_take, length_drop in Hl. replace (Z.of_nat ce - Z.of_nat cs) with (Z.of_nat (ce - cs)) by lia.
      rewrite memcpy_nat by (rewrite ?length_app; lia). cbn [mbind outcome_bind]. exists s. rewrite take_app_length, length_app, !length_take, !length_drop.
      replace ((ce - cs) `min` (length items - cs))%nat with (ce - cs)%nat by lia. rewrite drop_app_add, <- app_assoc.
      split_and!; [repeat f_equal; lia|done|done].
  - rewrite (proj2 (Z.eqb_neq (start_p s) end_it)) by (simpl in He; lia). cbn [andb].
    destruct (Z.eqb_spec (Z.of_nat cs) (Z.of_nat ce)) as [Heq|Hne].
    + rewrite Hnil in * by lia. cbn [merge_lists] in *. apply drain_seps_ok; [lia|done|done|done].
    + destruct Hcons as (b & Hb & Hsl); [lia|]. rewrite Hsl in *. rewrite (array_get_lookup _ _ _ Hb). cbn [mbind outcome_bind].
      destruct (sss_pop_ok s d (L ++ L2) Hh) as (-> & _). cbn [mbind outcome_bind]. fold (ikey d). cbn [merge_lists] in *.
      change ((fix go L := match L with [] => b :: slice items (S cs) ce | d :: L' => if KeyCmpLess b.1 (ikey d) then b :: merge_lists (slice items (S cs) ce) (d :: L')
        else if KeyCmpLess (ikey d) b.1 then sep_puts d ++ go L' else sep_puts d ++ merge_lists (slice items (S cs) ce) L' end) L)
        with (merge_lists (b :: slice items (S cs) ce) L) in *.
      replace (Z.of_nat cs + 1) with (Z.of_nat (S cs)) by lia. destruct (KeyCmpLess b.1 (ikey d)) eqn:E1; [|destruct (KeyCmpLess (ikey d) b.1) eqn:E2].
      * destruct junk as [|y junk]; [simpl in Hl; lia|]. rewrite write_item_ok. cbn [mbind outcome_bind].
        replace (Z.of_nat (length out) + 1) with (Z.of_nat (length (out ++ [b]))) by (rewrite length_app; simpl; lia).
        destruct (IH (S cs) ce (d :: L) s (out ++ [b]) junk end_it) as (s' & -> & Hh' & Hsa); [simpl in *; lia|lia|done|done|simpl in Hl; lia|].
        exists s'. simpl. rewrite <- !app_assoc. done.
      * rewrite length_app in Hl. destruct (take_front_ok s d (L ++ L2) m out junk Hh) as (s1 & -> & Hh1 & Hst & Hsa); [lia|]. cbn [mbind outcome_bind].
        destruct (IH cs ce L s1 (out ++ sep_puts d) (drop (length (sep_puts d)) junk) end_it) as (s' & -> & Hh' & Hsa');
          [simpl in *; lia|lia|done|simpl in He; lia|rewrite Hsl, length_drop; lia|].
        exists s'. rewrite Hsl, drop_drop, <- length_app, !app_assoc. split_and!; [done|done|]. destruct Hsa, Hsa'. split; congruence.
      * rewrite length_app in Hl. destruct (take_front_ok s d (L ++ L2) m out junk Hh) as (s1 & -> & Hh1 & Hst & Hsa); [lia|]. cbn [mbind outcome_bind].
        destruct (IH (S cs) ce L s1 (out ++ sep_puts d) (drop (length (sep_puts d)) junk) end_it) as (s' & -> & Hh' & Hsa');
          [simpl in *; lia|lia|done|simpl in He; lia|rewrite length_drop; lia|].
        exists s'. rewrite drop_drop, <- length_app, !app_assoc. split_and!; [done|done|]. destruct Hsa, Hsa'. split; congruence.
Qed.

Lemma sep_puts_elem d kv : kv ∈ sep_puts d <-> is_ins d = true /\ kv = inner_item d.
Proof. unfold sep_puts. destruct (is_ins d); rewrite ?list_elem_of_singleton, ?elem_of_nil; naive_solver. Qed.
Lemma all_seps_elem L kv : kv ∈ all_seps L <-> exists d, d ∈ L /\ is_ins d = true /\ kv = inner_item d.
Proof.
  induction L as [|d L IH]; [split; [by intros ?%elem_of_nil|by intros (d & ?%elem_of_nil & _)]|].
  rewrite all_seps_cons, elem_of_app, IH, sep_puts_elem. setoid_rewrite elem_of_cons. naive_solver.
Qed.
Lemma merge_lists_cons b B d L : merge_lists (b :: B) (d :: L) =
  if KeyCmpLess b.1 (ikey d) then b :: merge_lists B (d :: L)
  else if KeyCmpLess (ikey d) b.1 then sep_puts d ++ merge_lists (b :: B) L else sep_puts d ++ merge_lists B L.
Proof. done. Qed.
Lemma merge_lists_elem B : ksorted B.*1 -> forall L, ksorted (ikey <$> L) -> forall kv,
  kv ∈ merge_lists B L <-> (exists d, d ∈ L /\ is_ins d = true /\ kv = inner_item d) \/ (kv ∈ B /\ Forall (fun d => ikey d <> kv.1) L).
Proof.
  induction B as [|b B IHB]; intros HB L HL kv.
  { cbn [merge_lists]. rewrite all_seps_elem, elem_of_nil. naive_solver. }
  rewrite fmap_cons in HB. apply StronglySorted_inv in HB as [HB Hb]. rewrite Forall_fmap in Hb. specialize (IHB HB).
  induction L as [|d L IHL].
  { rewrite merge_lists_nil. split; [intros; right; by split|]. intros [(d & ?%elem_of_nil & _)|[? _]]; done. }
  pose proof HL as HL'. rewrite fmap_cons in HL. apply StronglySorted_inv in HL as [HL Hd]. rewrite Forall_fmap in Hd. specialize (IHL HL).
  rewrite merge_lists_cons, Forall_cons. unfold KeyCmpLess.
  assert (HBgt : kv ∈ B -> b.1 < kv.1) by (intros Hin; rewrite Forall_forall in Hb; by apply Hb).
  assert (HLgt : forall x, kv.1 <= ikey d -> x ∈ L -> ikey x <> kv.1) by (intros x Hle Hin; rewrite Forall_forall in Hd; specialize (Hd x Hin); simpl in Hd; lia).
  destruct (Z.ltb_spec b.1 (ikey d)); [|destruct (Z.ltb_spec (ikey d) b.1)].
  - rewrite elem_of_cons, IHB by done. rewrite elem_of_cons, Forall_cons. split.
    + intros [->|[?|[? ?]]]; [right|by left|right; tauto]. split; [by left|]. split; [lia|]. apply Forall_forall. intros x. apply HLgt. lia.
    + intros [?|[[->|?] [? ?]]]; [by right; left|by left|by right; right].
  - rewrite elem_of_app, sep_puts_elem, IHL. setoid_rewrite elem_of_cons. split.
    + intros [[? ?]|[(x & ? & ?)|[Hin ?]]]; [left; eauto|left; eauto|right]. split; [done|]. split; [|done].
      destruct Hin as [->|Hin]; [lia|]. specialize (HBgt Hin). lia.
    + intros [(x & [->|?] & ?)|[? [? ?]]]; [by left|right; left; eauto|right; right; tauto].
  - rewrite elem_of_app, sep_puts_elem, IHB by done. setoid_rewrite elem_of_cons. assert (ikey d = b.1) as He by lia. split.
    + intros [[? ?]|[(x & ? & ?)|[Hin ?]]]; [left; eauto|left; eauto|right]. split; [by right|]. split; [|done]. specialize (HBgt Hin). lia.
    + intros [(x & [->|?] & ?)|[[->|?] [? ?]]]; [by left|right; left; eauto|done|right; right; tauto].
Qed.
Lemma merge_lists_sorted B : ksorted B.*1 -> forall L, ksorted (ikey <$> L) -> ksorted (merge_lists B L).*1.
Proof.
  assert (Hputs : forall d (R : list KeyNodeIDPair), ksorted R.*1 -> (forall kv, kv ∈ R -> ikey d < kv.1) -> ksorted (sep_puts d ++ R).*1).
  { intros d R HR Hlt. unfold sep_puts. destruct (is_ins d); [|done]. simpl. constructor; [done|]. apply Forall_forall.
    intros k (kv & -> & Hin)%list_elem_of_fmap. by apply Hlt. }
  assert (Hitem : forall x, ikey x = (inner_item x).1) by done.
  induction B as [|b B IHB]; intros HB L HL.
  { cbn [merge_lists]. induction L as [|d L IHL]; [constructor|]. rewrite fmap_cons in HL. apply StronglySorted_inv in HL as [HL Hd].
    rewrite all_seps_cons. apply Hputs; [by apply IHL|]. intros kv (x & Hx & _ & ->)%all_seps_elem. rewrite Forall_fmap, Forall_forall in Hd. by apply Hd. }
  pose proof HB as HB'. rewrite fmap_cons in HB. apply StronglySorted_inv in HB as [HB Hb]. rewrite Forall_fmap, Forall_forall in Hb.
  induction L as [|d L IHL]; [by rewrite merge_lists_nil|].
  pose proof HL as HL'. rewrite fmap_cons in HL. apply StronglySorted_inv in HL as [HL Hd]. rewrite Forall_fmap, Forall_forall in Hd. rewrite merge_lists_cons. unfold KeyCmpLess.
  destruct (Z.ltb_spec b.1 (ikey d)); [|destruct (Z.ltb_spec (ikey d) b.1)].
  - rewrite fmap_cons. constructor; [by apply IHB|]. apply Forall_forall. intros k (kv & -> & Hin)%list_elem_of_fmap. apply merge_lists_elem in Hin; [|done|done].
    destruct Hin as [(x & [->|Hx]%elem_of_cons & _ & ->)|[? _]]; [by rewrite <- Hitem| |by apply Hb]. specialize (Hd x Hx). simpl in Hd. rewrite <- Hitem. lia.
  - apply Hputs; [by apply IHL|]. intros kv Hin. apply merge_lists_elem in Hin; [|done|done].
    destruct Hin as [(x & Hx & _ & ->)|[[->|Hk]%elem_of_cons _]]; [by apply Hd|done|]. specialize (Hb kv Hk). simpl in Hb. lia.
  - apply Hputs; [by apply IHB|]. intros kv Hin. apply merge_lists_elem in Hin; [|done|done].
    destruct Hin as [(x & Hx & _ & ->)|[Hk _]]; [by apply Hd|]. specialize (Hb kv Hk). simpl in Hb. lia.
Qed.

(** *** The data nodes of an inner chain on top of a map

    A separator delta acts on a map as the data node of a leaf with the same item does. *)
Definition as_leaf (d : BaseNode) : BaseNode :=
  match d with
  | InnerInsert m item _ location c => LeafInsert m item (location, false) c
  | InnerDelete m item _ _ location c => LeafDelete m item (location, false) c
  | _ => Leaf (metadata d) []
  end.
Lemma as_leaf_item d : leaf_item (as_leaf d) = inner_item d.
Proof. by destruct d. Qed.
Lemma as_leaf_key d : dkey (as_leaf d) = ikey d.
Proof. unfold dkey, ikey. by rewrite as_leaf_item. Qed.
Lemma as_leaf_keys (L : list BaseNode) : dkey <$> (as_leaf <$> L) = ikey <$> L.
Proof. rewrite <- list_fmap_compose. apply list_fmap_ext. intros _ d _. apply as_leaf_key. Qed.
Lemma as_leaf_data (L : list BaseNode) : Forall is_sep L -> Forall is_data (as_leaf <$> L).
Proof. intros H. apply Forall_fmap. eapply Forall_impl; [exact H|]. by intros []. Qed.
Lemma as_leaf_apply d m : apply_delta (as_leaf d) m = apply_sep d m.
Proof. by destruct d. Qed.
Lemma as_leaf_put d : is_sep d -> is_put (as_leaf d) = is_ins d.
Proof. by destruct d. Qed.
Lemma as_leaf_Forall (P : Z -> Prop) (L : list BaseNode) : Forall (fun d => P (ikey d)) L <-> Forall (fun d => P (dkey d)) (as_leaf <$> L).
Proof. rewrite Forall_fmap. apply Forall_iff. intros d. cbn. by rewrite as_leaf_key. Qed.
Definition sep_overlay (L : list BaseNode) (m : gmap Z Z) : gmap Z Z := overlay (as_leaf <$> L) m.
Lemma sep_overlay_elem L m k v : ksorted (ikey <$> L) -> Forall is_sep L ->
  sep_overlay L m !! k = Some v <-> (exists d, d ∈ L /\ is_ins d = true /\ (k, v) = inner_item d) \/ (m !! k = Some v /\ Forall (fun d => ikey d <> k) L).
Proof.
  intros Hs Hd. unfold sep_overlay. rewrite overlay_elem by (rewrite ?as_leaf_keys; try done; by apply as_leaf_data).
  rewrite (as_leaf_Forall (fun x => x <> k)). rewrite Forall_forall in Hd. split; (intros [(d & H1 & H2 & H3)|?]; [left|by right]).
  - apply list_elem_of_fmap in H1 as (x & -> & Hx). exists x. rewrite as_leaf_put, as_leaf_item in * by (by apply Hd). done.
  - exists (as_leaf d). rewrite as_leaf_put, as_leaf_item by (by apply Hd). split; [by apply list_elem_of_fmap_2|done].
Qed.

Lemma seps_end_leaf fuel data start it high : seps_end_loop fuel data start it high = sss_end_loop fuel (as_leaf <$> data) start it high.
Proof.
  revert it. induction fuel as [|fuel IH]; intros it; [done|]. simpl. case_match; [|done]. unfold array_get. rewrite list_lookup_fmap.
  case_decide; [|done]. destruct (data !! Z.to_nat it); [|done]. simpl. by rewrite as_leaf_item, IH.
Qed.
Lemma find_seps_end_ok (s : SortedSmallSet BaseNode) L1 L2 high : sss_holds s (L1 ++ L2) ->
  Forall (fun d => below high (ikey d)) L1 -> Forall (fun d => ~ below high (ikey d)) L2 ->
  find_seps_end s high = Ok (start_p s + Z.of_nat (length L1)).
Proof.
  intros (pre & post & Hd & Hst & Hen) H1 H2.
  pose proof (find_sss_end_ok (mkSSS (as_leaf <$> sss_data s) (start_p s) (end_p s)) (as_leaf <$> L1) (as_leaf <$> L2) high) as Hf.
  unfold find_sss_end, find_seps_end in *. cbn [sss_data start_p end_p] in Hf. rewrite seps_end_leaf, Hf, length_fmap; [done| | |].
  - exists (as_leaf <$> pre), (as_leaf <$> post). cbn [sss_data start_p end_p].
    rewrite Hd, !fmap_app, !length_app, !length_fmap. rewrite length_app in Hen. done.
  - by apply (as_leaf_Forall (below high)).
  - by apply (as_leaf_Forall (fun k => ~ below high k)).
Qed.
Lemma sep_overlay_shadow L m d : is_sep d -> Forall is_sep L -> ikey d ∈ ikey <$> L -> sep_overlay L (apply_sep d m) = sep_overlay L m.
Proof.
  intros Hd HL Hin. unfold sep_overlay. rewrite <- as_leaf_apply. apply overlay_shadow; [by destruct d|by apply as_leaf_data|].
  by rewrite as_leaf_keys, as_leaf_key.
Qed.
Lemma sep_overlay_between A B d m : is_sep d -> Forall is_sep (A ++ B) -> Forall (fun x => ikey d < ikey x) B ->
  sep_overlay (A ++ d :: B) m = sep_overlay (A ++ B) (apply_sep d m).
Proof.
  intros Hd HL Hlt. unfold sep_overlay. rewrite <- as_leaf_apply, !fmap_app, fmap_cons. apply overlay_between; [by destruct d| |].
  - rewrite <- fmap_app. by apply as_leaf_data.
  - rewrite as_leaf_key. by apply (as_leaf_Forall (fun x => ikey d < x)).
Qed.
Lemma sep_overlay_merge x La Lb (ml mr : gmap Z Z) : ksorted (ikey <$> (La ++ Lb)) -> Forall is_sep (La ++ Lb) ->
  Forall (fun d => ikey d < x) La -> Forall (fun d => x <= ikey d) Lb ->
  (forall k v, ml !! k = Some v -> k < x) -> (forall k v, mr !! k = Some v -> x <= k) ->
  sep_overlay (La ++ Lb) (ml ∪ mr) = sep_overlay La ml ∪ sep_overlay Lb mr
  /\ (forall k v, sep_overlay La ml !! k = Some v -> k < x) /\ (forall k v, sep_overlay Lb mr !! k = Some v -> x <= k).
Proof.
  intros Hs Hd HA HB Hml Hmr. unfold sep_overlay. rewrite fmap_app. apply overlay_merge; try done.
  - by rewrite <- fmap_app, as_leaf_keys.
  - rewrite <- fmap_app. by apply as_leaf_data.
  - by apply (as_leaf_Forall (fun k => k < x)).
  - by apply (as_leaf_Forall (fun k => x <= k)).
Qed.
Lemma apply_sep_lookup d m k : is_sep d ->
  apply_sep d m !! k = if decide (k = ikey d) then (if is_ins d then Some (inner_item d).2 else None) else m !! k.
Proof.
  unfold ikey, is_ins. destruct d; simpl; try done; intros _; case_decide as Hk.
  - by rewrite Hk, lookup_insert_eq.
  - by rewrite lookup_insert_ne.
  - by rewrite Hk, lookup_delete_eq.
  - by rewrite lookup_delete_ne.
Qed.

(** The set keeps the newest data node of every key. *)
Lemma insert_sorted_seps d L : ksorted (ikey <$> L) ->
  if decide (ikey d ∈ ikey <$> L) then insert_sorted inner_data_less inner_data_eq d L = L
  else exists A B, L = A ++ B /\ insert_sorted inner_data_less inner_data_eq d L = A ++ d :: B
    /\ Forall (fun x => ikey x < ikey d) A /\ Forall (fun x => ikey d < ikey x) B.
Proof.
  induction L as [|x L IH]; intros Hs.
  { rewrite decide_False by apply not_elem_of_nil. by exists [], []. }
  rewrite fmap_cons in Hs. apply StronglySorted_inv in Hs as [Hs Hx]. rewrite Forall_fmap in Hx. specialize (IH Hs). cbn [insert_sorted]. rewrite fmap_cons.
  change (inner_data_less x d) with (ikey x <? ikey d). change (inner_data_eq x d) with (ikey x =? ikey d).
  destruct (Z.ltb_spec (ikey x) (ikey d)) as [Hlt|Hge].
  - destruct (decide (ikey d ∈ ikey <$> L)) as [Hin|Hn].
    + rewrite decide_True by (by right). by rewrite IH.
    + rewrite decide_False by (rewrite elem_of_cons; intros [?|?]; [lia|done]). destruct IH as (A & B & -> & -> & ? & ?).
      exists (x :: A), B. split_and!; [done|done|by constructor|done].
  - destruct (Z.eqb_spec (ikey x) (ikey d)) as [He|Hne]; [rewrite decide_True by (rewrite He; left); done|].
    assert (Hgt : Forall (fun y => ikey d < ikey y) (x :: L)).
    { constructor; [lia|]. eapply Forall_impl; [exact Hx|]. simpl. intros. lia. }
    rewrite decide_False; [by exists [], (x :: L)|]. change (ikey x :: (ikey <$> L)) with (ikey <$> (x :: L)). intros (y & He & Hy)%list_elem_of_fmap.
    rewrite Forall_forall in Hgt. specialize (Hgt y Hy). simpl in Hgt. lia.
Qed.
Lemma sep_between L1 L2 d : ksorted (ikey <$> (L1 ++ L2)) -> Forall (fun x => ikey x < ikey d) L1 -> Forall (fun x => ikey d < ikey x) L2 ->
  ksorted (ikey <$> (L1 ++ d :: L2)).
Proof.
  intros Hs H1 H2. rewrite !fmap_app in *. rewrite fmap_cons. apply ksorted_insert; [done|by apply Forall_fmap| |].
  - apply Forall_fmap. eapply Forall_impl; [exact H2|]. simpl. intros. lia.
  - intros (x & He & Hx)%list_elem_of_fmap. rewrite Forall_forall in H2. specialize (H2 x Hx). simpl in H2. lia.
Qed.

(** *** The recursion *)
Definition iroom (s : SortedSmallSet BaseNode) (k : Z) : Prop := end_p s + k <= Z.of_nat (length (sss_data s)).
Record icollecting (s : SortedSmallSet BaseNode) (L : list BaseNode) : Prop := {
  ic_holds : sss_holds s L;
  ic_sorted : ksorted (ikey <$> L);
  ic_seps : Forall is_sep L }.
(** The keys the call for [n] writes: those of its range, but not the low key of the whole
    node, which is written already. *)
Definition writes (n : BaseNode) (H : KeyNodeIDPair) (low_id k : Z) : Prop :=
  GetLowKey n <= k /\ below H k /\ (low_id = GetLowKeyNodeID n -> k <> GetLowKey n).
#[export] Instance writes_dec n H low_id k : Decision (writes n H low_id k).
Proof. unfold writes. apply _. Defined.
Definition icut (n : BaseNode) (H : KeyNodeIDPair) (low_id : Z) : gmap Z Z := filter (fun kv => writes n H low_id kv.1) (inner_map n).
Record icollect_pre (n : BaseNode) (H : KeyNodeIDPair) (low_id : Z) (s : SortedSmallSet BaseNode) (L1 L2 : list BaseNode) (junk : nat) : Prop := {
  ip_high : H = GetHighKeyPair n \/ (GetType n = InnerType /\ forall k, below H k -> below (GetHighKeyPair n) k);
  ip_low : below H (GetLowKey n);
  ip_id : low_id = GetLowKeyNodeID n \/ low_id ∉ first_ids n;
  ip_state : icollecting s (L1 ++ L2);
  ip_room : iroom s (GetDepth n);
  ip_inside : Forall (fun d => writes n H low_id (ikey d)) L1;
  ip_outside : Forall (fun d => ~ below H (ikey d)) L2;
  ip_fits : (base.size (sep_overlay L1 (icut n H low_id)) <= junk)%nat }.
Definition icollect_post (n : BaseNode) (H : KeyNodeIDPair) (low_id : Z) (s : SortedSmallSet BaseNode) (L1 L2 : list BaseNode)
    (m : NodeMetaData) (out junk : list KeyNodeIDPair) (run : outcome (SortedSmallSet BaseNode * BaseNode * Z)) : Prop :=
  exists s' res, run = Ok (s', Inner m ((out ++ res) ++ drop (length res) junk), Z.of_nat (length (out ++ res)))
    /\ icollecting s' L2 /\ ksorted res.*1 /\ (forall kv, kv ∈ res <-> sep_overlay L1 (icut n H low_id) !! kv.1 = Some kv.2)
    /\ (forall k, iroom s (GetDepth n + k) -> iroom s' k).

Lemma icollect_base m0 items H low_id s L1 L2 m out junk : inner_ok (Inner m0 items) ->
  icollect_pre (Inner m0 items) H low_id s L1 L2 (length junk) ->
  icollect_post (Inner m0 items) H low_id s L1 L2 m out junk
    (collect_inner_base items H low_id s (Inner m (out ++ junk)) (Z.of_nat (length out))).
Proof.
  intros (Hs & Hhd & Hr & Hdep & Hcnt) [Hhi Hlow Hid [Hh Hsort Hsep] Hroom Hin Hout Hfit]. destruct items as [|x items]; [done|]. injection Hhd as Hx.
  set (its := x :: items) in *. unfold collect_inner_base. unfold GetLowKey, GetLowKeyNodeID, GetLowKeyPair in *. cbn [metadata] in *.
  assert (Hstop : (1 <= stop_at its H)%nat).
  { unfold stop_at. case_match eqn:E; [simpl; lia|]. apply Z.eqb_neq in E. destruct Hlow as [?|Hlow]; [done|].
    pose proof (rank_before its H.1 0 x Hs eq_refl) as [_ Hr0]. rewrite <- Hx in Hlow. apply Hr0 in Hlow. lia. }
  assert (Hend : (if H.2 =? INVALID_NODE_ID then Ok (GetSize its) else LowerBound 1 (GetSize its) H.1 its) = Ok (Z.of_nat (stop_at its H))).
  { unfold stop_at in *. case_match; [done|]. pose proof (rank_le its H.1). apply (LowerBound_ok its H.1 1 (length its)); [done|lia..]. }
  rewrite Hend. cbn [mbind outcome_bind]. change (array_get its 0) with (array_get its (Z.of_nat 0)). rewrite (array_get_lookup its 0 x) by done. cbn [mbind outcome_bind].
  assert (HB1 : Forall (fun d => below H (ikey d)) L1) by (eapply Forall_impl; [exact Hin|]; by intros d (_ & ? & _)).
  rewrite (find_seps_end_ok s L1 L2 H Hh HB1 Hout). cbn [mbind outcome_bind].
  set (cs := if x.2 =? low_id then 1%nat else 0%nat). replace (if x.2 =? low_id then 1 else 0) with (Z.of_nat cs) by (unfold cs; by destruct (x.2 =? low_id)).
  assert (Hcs : (cs <= stop_at its H)%nat) by (unfold cs; destruct (x.2 =? low_id); lia). pose proof (stop_at_le its H).
  rewrite fmap_app in Hsort. apply ksorted_app in Hsort as (Hs1 & Hs2 & _). apply Forall_app in Hsep as [Hp1 Hp2].
  assert (Hel : forall kv, kv ∈ slice its cs (stop_at its H) <-> icut (Inner m0 its) H low_id !! kv.1 = Some kv.2).
  { intros kv. unfold icut, writes. rewrite map_lookup_filter_Some. cbn [inner_map]. rewrite list_map_lookup by done. rewrite <- surjective_pairing.
    cbn [fst]. unfold GetLowKey, GetLowKeyNodeID, GetLowKeyPair. cbn [metadata]. rewrite <- Hx.
    assert (Hge : kv ∈ its -> x.1 <= kv.1 /\ (kv.1 = x.1 -> kv = x)).
    { intros [i Hi]%list_elem_of_lookup. destruct i as [|i]; [injection Hi as <-; split; [lia|done]|].
      pose proof (ksorted_pair its 0 (S i) x kv Hs ltac:(lia) eq_refl Hi). lia. }
    rewrite (slice_lookup its cs (stop_at its H) kv).
    pose proof (stop_at_elem its H kv Hs) as Hse. rewrite slice_lookup in Hse. unfold cs. destruct (Z.eqb_spec x.2 low_id) as [He|Hne].
    - split.
      + intros (i & Hi & Hkv). assert (Hi' : kv ∈ its /\ below H kv.1) by (apply Hse; exists i; split; [lia|done]).
        pose proof (ksorted_pair its 0 i x kv Hs ltac:(lia) eq_refl Hkv). destruct Hi' as [? ?]. split_and!; [done|lia|done|lia].
      + intros (Hi & _ & Hb & Hn). destruct (proj2 Hse (conj Hi Hb)) as (i & Hii & Hkv). exists i. split; [|done]. destruct i; [|lia].
        injection Hkv as <-. by destruct (Hn (eq_sym He)).
    - rewrite Hse. split; [|naive_solver]. intros [Hi ?]. destruct (Hge Hi) as [? _]. split_and!; [done|done|done|congruence]. }
  pose proof (slice_sorted its cs (stop_at its H) Hs) as Hsl.
  assert (Hres : forall kv, kv ∈ merge_lists (slice its cs (stop_at its H)) L1 <-> sep_overlay L1 (icut (Inner m0 its) H low_id) !! kv.1 = Some kv.2).
  { intros kv. rewrite merge_lists_elem, sep_overlay_elem, Hel by done. by rewrite <- surjective_pairing. }
  pose proof (merge_lists_sorted _ Hsl L1 Hs1) as Hms. destruct (sorted_map_length _ _ Hms Hres) as [_ Hlen].
  destruct (merge_seps_ok its L2 m (S (Z.to_nat (start_p s + Z.of_nat (length L1) - start_p s) + Z.to_nat (Z.of_nat (stop_at its H) - Z.of_nat cs)))
    cs (stop_at its H) L1 s out junk (start_p s + Z.of_nat (length L1))) as (s' & Hrun & Hh' & [Hd He]); [lia|lia|done|done|lia|].
  eexists s', _. split_and!; [exact Hrun|by split|done|exact Hres|]. intros k. unfold iroom, GetDepth. cbn [metadata]. rewrite Hd, He. lia.
Qed.
Lemma icut_apply n c H low_id : is_sep n -> inner_map n = apply_sep n (inner_map c) -> GetLowKeyPair n = GetLowKeyPair c ->
  writes c H low_id (ikey n) -> icut n H low_id = apply_sep n (icut c H low_id).
Proof.
  intros Hd Hmap Hlow Hw. assert (Hwc : forall k, writes n H low_id k <-> writes c H low_id k).
  { intros k. unfold writes, GetLowKey, GetLowKeyNodeID. by rewrite Hlow. }
  apply map_eq. intros k. apply option_eq. intros v. unfold icut. rewrite map_lookup_filter_Some, Hmap, !apply_sep_lookup by done. cbn [fst]. rewrite Hwc.
  case_decide as Hk; [subst k; tauto|]. by rewrite map_lookup_filter_Some.
Qed.
Lemma insert_sorted_app d L1 L2 : Forall (fun x => ikey d < ikey x) L2 ->
  insert_sorted inner_data_less inner_data_eq d (L1 ++ L2) = insert_sorted inner_data_less inner_data_eq d L1 ++ L2.
Proof.
  intros H2. induction L1 as [|x L1 IH]; simpl.
  - destruct H2 as [|y L2 Hy _]; [done|]. simpl. change (inner_data_less y d) with (ikey y <? ikey d). change (inner_data_eq y d) with (ikey y =? ikey d).
    rewrite (proj2 (Z.ltb_ge _ _)), (proj2 (Z.eqb_neq _ _)) by lia. done.
  - case_match; [by rewrite IH|]. by case_match.
Qed.
(** One step past the separator delta [n] with child [c]. *)
Lemma icollect_sep n c more item location H low_id s L1 L2 m out junk : is_sep n -> inner_item n = item -> inner_ok c -> sep_ok (metadata n) item location c more ->
  inner_map n = apply_sep n (inner_map c) -> first_ids n = first_ids c -> icollect_pre n H low_id s L1 L2 (length junk) ->
  (forall s' L1', icollect_pre c H low_id s' L1' L2 (length junk) -> icollect_post c H low_id s' L1' L2 m out junk
     (CollectAllSepsOnInnerRecursive c H low_id s' (Inner m (out ++ junk)) (Z.of_nat (length out)))) ->
  icollect_post n H low_id s L1 L2 m out junk
    (s' ← sss_Insert inner_data_less inner_data_eq n s; CollectAllSepsOnInnerRecursive c H low_id s' (Inner m (out ++ junk)) (Z.of_nat (length out))).
Proof.
  intros Hd Hitem Hc ((Hl & Hh & Hdp & _) & Hr1 & Hr2 & _) Hmap Hfi [Hhi Hlow Hid [Hho Hsort Hsep] Hroom Hin Hout Hfit] IH.
  fold (GetLowKeyPair n) in Hl. fold (GetHighKeyPair n) in Hh. fold (GetDepth n) in Hdp. assert (Hik : ikey n = item.1) by (unfold ikey; by rewrite Hitem).
  assert (HH : H = GetHighKeyPair c) by (destruct Hhi as [->|[Ht _]]; [done|destruct n; done]). pose proof (inner_depth _ Hc).
  assert (Hlk : GetLowKey n = GetLowKey c) by (unfold GetLowKey; by rewrite Hl). assert (Hli : GetLowKeyNodeID n = GetLowKeyNodeID c) by (unfold GetLowKeyNodeID; by rewrite Hl).
  assert (Hw : writes c H low_id (ikey n)) by (rewrite Hik, HH; split_and!; [lia|done|lia]).
  assert (Hgt : Forall (fun x => ikey n < ikey x) L2).
  { eapply Forall_impl; [exact Hout|]. intros x Hx. cbn beta in Hx. destruct Hw as (_ & [?|?] & _); [exfalso; apply Hx; by left|].
    destruct (Z.lt_ge_cases (ikey n) (ikey x)); [done|]. exfalso. apply Hx. right. lia. }
  destruct (sss_insert_ok inner_data_less inner_data_eq s (L1 ++ L2) n Hho) as (s1 & Hrun & Hh1); [unfold iroom, sss_room in *; lia|].
  rewrite Hrun. cbn [mbind outcome_bind]. rewrite insert_sorted_app in Hh1 by done. apply sss_Insert_grew in Hrun as (Hg1 & Hg2 & Hg3).
  pose proof Hsort as Hsort'. rewrite fmap_app in Hsort'. apply ksorted_app in Hsort' as (Hs1 & Hs2 & Hs12). pose proof Hsep as [Hp1 Hp2]%Forall_app.
  assert (Hroom1 : forall k, iroom s (GetDepth n + k) -> iroom s1 (GetDepth c + k)) by (unfold iroom; intros; lia).
  assert (Hwc : forall k, writes n H low_id k <-> writes c H low_id k) by (intros k; unfold writes; by rewrite Hlk, Hli).
  rewrite (icut_apply n c) in Hfit by done.
  assert (Hstep : exists L1', insert_sorted inner_data_less inner_data_eq n L1 = L1' /\ icollecting s1 (L1' ++ L2)
    /\ sep_overlay L1' (icut c H low_id) = sep_overlay L1 (apply_sep n (icut c H low_id)) /\ Forall (fun d => writes c H low_id (ikey d)) L1').
  { assert (Hin' : Forall (fun d => writes c H low_id (ikey d)) L1) by (eapply Forall_impl; [exact Hin|]; intros x; apply Hwc).
    pose proof (insert_sorted_seps n L1 Hs1) as Hins. case_decide as Hseen.
    - rewrite Hins in *. exists L1. split_and!; [done|by split|by rewrite sep_overlay_shadow|done].
    - destruct Hins as (A & B & -> & Hins & HA & HB). rewrite Hins in *. exists (A ++ n :: B). apply Forall_app in Hin' as [HiA HiB].
      split_and!; [done| |by apply sep_overlay_between|apply Forall_app; split; [done|by constructor]]. split; [done| |].
      + rewrite <- app_assoc in *. apply sep_between; [done|done|]. apply Forall_app. by split.
      + rewrite <- app_assoc in *. apply Forall_app in Hsep as [? ?]. apply Forall_app. split; [done|by constructor]. }
  destruct Hstep as (L1' & Hins & Hst & Hov & Hin'). rewrite Hins in Hh1.
  destruct (IH s1 L1') as (s' & res & -> & Hst' & Hsr & Hel & Hro).
  { split; [by left|by rewrite <- Hlk|by rewrite <- Hli, <- Hfi|done| |done|done|by rewrite Hov].
    pose proof (Hroom1 0) as Hr0. rewrite !Z.add_0_r in Hr0. by apply Hr0. }
  exists s', res. split_and!; [done|done|done| |by intros k Hk; apply Hro, Hroom1]. intros kv. by rewrite Hel, Hov, (icut_apply n c).
Qed.
Lemma icollect_split m0 item c H low_id s L1 L2 m out junk : inner_ok (InnerSplit m0 item c) ->
  icollect_pre (InnerSplit m0 item c) H low_id s L1 L2 (length junk) ->
  (forall s' L1', icollect_pre c H low_id s' L1' L2 (length junk) -> icollect_post c H low_id s' L1' L2 m out junk
     (CollectAllSepsOnInnerRecursive c H low_id s' (Inner m (out ++ junk)) (Z.of_nat (length out)))) ->
  icollect_post (InnerSplit m0 item c) H low_id s L1 L2 m out junk
    (CollectAllSepsOnInnerRecursive c H low_id s (Inner m (out ++ junk)) (Z.of_nat (length out))).
Proof.
  intros (Hc & Ht & Hl & Hh & Hid' & Hr1 & Hr2 & Hdep & _) [Hhi Hlow Hid Hst Hroom Hin Hout Hfit] IH. set (n := InnerSplit m0 item c) in *.
  assert (HH : H = item) by (destruct Hhi as [->|[? _]]; done).
  assert (Hlk : GetLowKey n = GetLowKey c) by (unfold GetLowKey, GetLowKeyPair, n; simpl; by rewrite Hl).
  assert (Hli : GetLowKeyNodeID n = GetLowKeyNodeID c) by (unfold GetLowKeyNodeID, GetLowKeyPair, n; simpl; by rewrite Hl).
  assert (Hdn : GetDepth n = GetDepth c) by done. assert (Hwc : forall k, writes n H low_id k <-> writes c H low_id k) by (intros k; unfold writes; by rewrite Hlk, Hli).
  assert (Hcut : icut n H low_id = icut c H low_id).
  { apply map_eq. intros k. apply option_eq. intros v. unfold icut, n. cbn [inner_map]. rewrite !map_lookup_filter_Some. fold n. cbn [fst]. rewrite Hwc, HH.
    unfold writes, below. naive_solver. }
  rewrite Hcut in Hfit. destruct (IH s L1) as (s' & res & Hrun & ? & ? & Hel & Hro).
  { split; try done; [|by rewrite <- Hlk|by rewrite <- Hli|by rewrite <- Hdn|eapply Forall_impl; [exact Hin|]; intros x; apply Hwc]. right. split; [done|]. rewrite HH.
    intros k [?|?]; [done|]. destruct Hr2 as [?|?]; [by left|right; lia]. }
  exists s', res. rewrite Hcut, Hdn. done.
Qed.
Lemma icollect_merge mm d r c H low_id s L1 L2 m out junk : inner_ok (InnerMerge mm d r c) ->
  icollect_pre (InnerMerge mm d r c) H low_id s L1 L2 (length junk) ->
  (forall n, n = c \/ n = r -> forall H low_id s L1 L2 out junk, icollect_pre n H low_id s L1 L2 (length junk) ->
     icollect_post n H low_id s L1 L2 m out junk (CollectAllSepsOnInnerRecursive n H low_id s (Inner m (out ++ junk)) (Z.of_nat (length out)))) ->
  icollect_post (InnerMerge mm d r c) H low_id s L1 L2 m out junk
    (CollectAllSepsOnInnerRecursive (InnerMerge mm d r c) H low_id s (Inner m (out ++ junk)) (Z.of_nat (length out))).
Proof.
  intros Hok [Hhi Hlow Hid [Hho Hsort Hsep] Hroom Hin Hout Hfit] IH.
  pose proof Hok as (Hc & Hr & Hl & Hh & Hhc & Hnc & Hlr & Hld & Hbd & Hids & Hdep & _). pose proof (inner_depth _ Hc). pose proof (inner_depth _ Hr).
  destruct (inner_first r Hr) as [ids Hfr]. set (n := InnerMerge mm d r c) in *.
  assert (Hlk : GetLowKey n = GetLowKey c) by (unfold GetLowKey, GetLowKeyPair, n; simpl; by rewrite Hl).
  assert (Hli : GetLowKeyNodeID n = GetLowKeyNodeID c) by (unfold GetLowKeyNodeID, GetLowKeyPair, n; simpl; by rewrite Hl).
  assert (Hdn : GetDepth n = GetDepth c + GetDepth r) by done.
  assert (HH : H = GetHighKeyPair r) by (destruct Hhi as [->|[? _]]; [unfold GetHighKeyPair, n; simpl; by rewrite Hh|done]).
  assert (Hbc : forall k, below (GetHighKeyPair c) k <-> k < d.1).
  { intros k. unfold below, GetHighKey, GetNextNodeID in *. rewrite Hhc. naive_solver. }
  assert (Hb0 : forall k, k <= d.1 -> below H k) by (rewrite HH; intros k ?; destruct Hbd as [?|?]; [by left|right; lia]).
  assert (Hidr : low_id ∉ first_ids r).
  { destruct Hid as [->|Hid]; [by rewrite Hli|]. unfold n in Hid. cbn [first_ids] in Hid. rewrite not_elem_of_app in Hid. tauto. }
  assert (Hidr' : low_id <> GetLowKeyNodeID r) by (intros ->; apply Hidr; rewrite Hfr; by left).
  assert (Hwl : forall k, k < d.1 -> (writes n H low_id k <-> writes c (GetHighKeyPair c) low_id k)).
  { intros k Hk. unfold writes. rewrite Hlk, Hli, Hbc. pose proof (Hb0 k ltac:(lia)). tauto. }
  assert (Hwr : forall k, d.1 <= k -> (writes n H low_id k <-> writes r H low_id k)).
  { intros k Hk. unfold writes. rewrite Hlk, Hli. split; [intros (? & ? & _); split_and!; [lia|done|done]|intros (? & ? & _); split_and!; [lia|done|lia]]. }
  pose proof Hsort as Hsort'. rewrite fmap_app in Hsort'. apply ksorted_app in Hsort' as (Hs1 & _ & _). pose proof Hsep as [Hp1 Hp2]%Forall_app.
  destruct (sorted_partition ikey d.1 L1 Hs1) as (La & Lb & -> & HA & HB).
  destruct (sep_overlay_merge d.1 La Lb (icut c (GetHighKeyPair c) low_id) (icut r H low_id)) as (Hov & HlA & HlB); [done..| | |].
  { intros k v [_ (_ & Hk%Hbc & _)]%map_lookup_filter_Some. done. }
  { intros k v [Hk _]%map_lookup_filter_Some. by eapply imerge_right. }
  assert (Hcut : icut n H low_id = icut c (GetHighKeyPair c) low_id ∪ icut r H low_id).
  { apply map_eq. intros k. apply option_eq. intros v. unfold icut. rewrite lookup_union_Some, !map_lookup_filter_Some.
    2:{ apply map_disjoint_spec. intros i a b [Ha _]%map_lookup_filter_Some [Hb _]%map_lookup_filter_Some.
        pose proof (imerge_right _ _ _ _ _ _ Hok Hb). pose proof (imerge_left _ _ _ _ _ _ Hok Ha). lia. }
    unfold n at 1. cbn [inner_map fst]. rewrite (imerge_lookup _ _ _ _ _ Hok). case_decide as Hk.
    - rewrite Hwr by done. split; [by right|]. intros [[Hx _]|?]; [|done]. pose proof (imerge_left _ _ _ _ _ _ Hok Hx). lia.
    - rewrite Hwl by lia. split; [by left|]. intros [?|[Hx _]]; [done|]. pose proof (imerge_right _ _ _ _ _ _ Hok Hx). lia. }
  rewrite <- Hcut in Hov. set (Ml := sep_overlay La (icut c (GetHighKeyPair c) low_id)) in *. set (Mr := sep_overlay Lb (icut r H low_id)) in *.
  assert (Hdis : Ml ##ₘ Mr) by (apply map_disjoint_spec; intros i a b Ha%HlA Hb%HlB; lia).
  rewrite Hov, map_size_disj_union in Hfit by done. apply Forall_app in Hin as [HinA HinB].
  destruct (IH c (or_introl eq_refl) (GetHighKeyPair c) low_id s La (Lb ++ L2) out junk) as (s1 & resl & Hrunl & Hstl & Hsl & Hell & Hrooml).
  { split; [by left|by apply Hbc| |split; by rewrite app_assoc|unfold iroom in *; lia| | |fold Ml; lia].
    - destruct Hid as [->|Hid]; [by left|right]. unfold n in Hid. cbn [first_ids] in Hid. rewrite not_elem_of_app in Hid. tauto.
    - apply Forall_forall. intros x Hx. rewrite Forall_forall in HinA, HA. apply Hwl; [by apply HA|by apply HinA].
    - apply Forall_app. split; [eapply Forall_impl; [exact HB|]|eapply Forall_impl; [exact Hout|]]; intros x Hx; rewrite Hbc; simpl in Hx; [lia|].
      intros ?. apply Hx, Hb0. lia. }
  destruct (sorted_map_length resl Ml Hsl Hell) as [_ Hlenl].
  destruct (IH r (or_intror eq_refl) H low_id s1 Lb L2 (out ++ resl) (drop (length resl) junk)) as (s2 & resr & Hrunr & Hstr & Hsr & Helr & Hroomr).
  { split; [by left|apply Hb0; lia|by right|done| | |done|fold Mr; rewrite length_drop; lia].
    - apply Hrooml. unfold iroom in *. lia.
    - apply Forall_forall. intros x Hx. rewrite Forall_forall in HinB, HB. apply Hwr; [by apply HB|by apply HinB]. }
  exists s2, (resl ++ resr). unfold n at 1. cbn [CollectAllSepsOnInnerRecursive]. rewrite Hrunl. cbn [mbind outcome_bind]. rewrite <- HH, Hrunr.
  split_and!; [|done| | |].
  - by rewrite drop_drop, (app_assoc out resl resr), (length_app resl resr).
  - rewrite fmap_app. apply ksorted_app. split_and!; [done|done|].
    intros a b (x & -> & Hx)%list_elem_of_fmap (y & -> & Hy)%list_elem_of_fmap. apply Hell, HlA in Hx. apply Helr, HlB in Hy. lia.
  - intros kv. rewrite elem_of_app, Hell, Helr. rewrite Hov, lookup_union_Some by done. done.
  - intros k Hk. apply Hroomr, Hrooml. by rewrite Z.add_assoc, <- Hdn.
Qed.
Lemma icollect_ok m n : inner_ok n -> forall H low_id s L1 L2 out junk, icollect_pre n H low_id s L1 L2 (length junk) ->
  icollect_post n H low_id s L1 L2 m out junk (CollectAllSepsOnInnerRecursive n H low_id s (Inner m (out ++ junk)) (Z.of_nat (length out))).
Proof.
  induction n as [| | | | | | |m0 items|m0 item next loc c IHc|m0 item prev next loc c IHc|m0 item c IHc| |m0 d r IHr c IHc|]; intros Hok H low_id s L1 L2 out junk Hpre; try done.
  - by apply icollect_base.
  - destruct Hok as (Hc & Hse & _). eapply (icollect_sep (InnerInsert m0 item next loc c)); try done. intros. by apply IHc.
  - destruct Hok as (Hc & Hse & _). eapply (icollect_sep (InnerDelete m0 item prev next loc c)); try done. intros. by apply IHc.
  - cbn [CollectAllSepsOnInnerRecursive]. apply icollect_split; [done|done|]. intros. apply IHc; [apply Hok|done].
  - apply icollect_merge; [done|done|]. intros n [->| ->]; intros; [apply IHc|apply IHr]; [apply Hok|done|apply Hok|done].
Qed.
(** Consolidation writes the separators of the chain into one sorted array that is full. *)
Lemma collect_seps_ok a n p_depth : inner_ok n -> 0 <= p_depth < 32768 ->
  exists items, CollectAllSepsOnInner a n p_depth = Ok (Inner (new_meta a (GetLowKeyPair n) (GetHighKeyPair n) p_depth (GetItemCount n)) items)
    /\ list_to_map items = inner_map n
    /\ inner_ok (Inner (new_meta a (GetLowKeyPair n) (GetHighKeyPair n) p_depth (GetItemCount n)) items).
Proof.
  intros Hok Hpd. pose proof (inner_depth _ Hok). pose proof (inner_count _ Hok) as Hcnt. pose proof (inner_low _ Hok) as Hlow.
  destruct (inner_map_range _ _ _ Hok Hlow) as [_ Hbl]. unfold CollectAllSepsOnInner, Inner_Get. set (m := new_meta a _ _ _ _).
  assert (Hsz : base.size (inner_map n) = S (base.size (delete (GetLowKey n) (inner_map n)))).
  { rewrite <- (insert_delete_id (inner_map n) (GetLowKey n) (GetLowKeyNodeID n)) at 1 by done.
    apply map_size_insert_None, lookup_delete_eq. }
  rewrite Hcnt, Nat2Z.id, Hsz. cbn [replicate]. pose proof (write_item_ok m [] (0, 0) (replicate (base.size (delete (GetLowKey n) (inner_map n))) (0, 0)) (GetLowKeyPair n)) as Hwr.
  cbn [app length] in Hwr. change (Z.of_nat 0) with 0 in Hwr. rewrite Hwr. cbn [mbind outcome_bind].
  set (junk := replicate (base.size (delete (GetLowKey n) (inner_map n))) (0, 0)). assert (Hcut : icut n (GetHighKeyPair n) (GetLowKeyNodeID n) = delete (GetLowKey n) (inner_map n)).
  { apply map_eq. intros k. apply option_eq. intros v. unfold icut. rewrite map_lookup_filter_Some, lookup_delete_Some. unfold writes. cbn [fst]. split.
    - intros (? & _ & _ & Hne). split; [|done]. specialize (Hne eq_refl). congruence.
    - intros [? Hk]. destruct (inner_map_range _ _ _ Hok Hk). split_and!; [done|done|done|congruence]. }
  destruct (icollect_ok m n Hok (GetHighKeyPair n) (GetLowKeyNodeID n) (new_sss (replicate (Z.to_nat (GetDepth n)) n)) [] [] [GetLowKeyPair n] junk)
    as (s' & res & Hrun & _ & Hs & Hel & _).
  { split; [by left|done|by left| | |constructor|constructor|].
    - split; simpl; [|constructor|constructor]. by exists [], (replicate (Z.to_nat (GetDepth n)) n).
    - unfold iroom. simpl. rewrite length_replicate. lia.
    - unfold sep_overlay. simpl. rewrite Hcut. unfold junk. by rewrite length_replicate. }
  change (Z.of_nat (length [GetLowKeyPair n])) with 1 in Hrun. cbn [app] in Hrun. rewrite Hrun. cbn [mbind outcome_bind].
  unfold sep_overlay in Hel. simpl in Hel. rewrite Hcut in Hel. destruct (sorted_map_length _ _ Hs Hel) as [Hm Hlen].
  rewrite drop_ge, app_nil_r by (unfold junk; rewrite length_replicate; lia). exists (GetLowKeyPair n :: res).
  assert (Hall : list_to_map (GetLowKeyPair n :: res) = inner_map n).
  { rewrite (surjective_pairing (GetLowKeyPair n)), list_to_map_cons, Hm. by apply insert_delete_id. }
  assert (Hin : forall kv, kv ∈ res -> inner_map n !! kv.1 = Some kv.2 /\ kv.1 <> GetLowKey n).
  { intros kv Hkv%Hel. apply lookup_delete_Some in Hkv. naive_solver. }
  split_and!; [done|done|]. cbn [inner_ok]. split_and!; [|done| |unfold m; simpl; rewrite i16_depth; lia|simpl; lia].
  - rewrite fmap_cons. constructor; [done|]. apply Forall_forall. intros k (kv & -> & [Hk Hne]%Hin)%list_elem_of_fmap.
    destruct (inner_map_range _ _ _ Hok Hk). unfold GetLowKey in *. lia.
  - rewrite fmap_cons. constructor; [done|]. apply Forall_forall. intros k (kv & -> & [Hk Hne]%Hin)%list_elem_of_fmap. by apply (inner_map_range _ _ _ Hok Hk).
Qed.

(** ** What a chain points at *)
Lemma points_map K n k id : inner_ok n -> points K n -> inner_map n !! k = Some id -> K k id.
Proof.
  induction n as [| | | | | | |m items|m item nx loc c IHc|m item pv nx loc c IHc|m item c IHc| |m d r IHr c IHc|]; cbn [inner_ok points inner_map apply_sep]; try tauto.
  - intros (Hs & _) HK Hk%list_map_lookup; [|done]. rewrite Forall_forall in HK. by apply (HK (k, id)).
  - intros (Hc & _) [HK1 HK2] [[<- <-]|[_ Hk]]%lookup_insert_Some; [done|by apply IHc].
  - intros (Hc & _) [_ HK2] [_ Hk]%lookup_delete_Some. by apply IHc.
  - intros (Hc & _) HK [Hk _]%map_lookup_filter_Some. by apply IHc.
  - intros Hok [HK1 HK2]. pose proof Hok as (Hc & Hr & _). rewrite (imerge_lookup _ _ _ _ _ Hok). case_decide; [by apply IHr|by apply IHc].
Qed.
Lemma points_low K n : inner_ok n -> points K n -> K (GetLowKey n) (GetLowKeyNodeID n).
Proof. intros Hok HK. eapply points_map; [done|done|by apply inner_low]. Qed.
Lemma points_mono (K K' : Z -> Z -> Prop) n : (forall k id, K k id -> K' k id) -> points K n -> points K' n.
Proof.
  intros HK. induction n; cbn [points]; try tauto; [|by intros [? ?]; split; auto..].
  intros H. eapply Forall_impl; [exact H|]. intros x. apply HK.
Qed.
(** Whatever state its shortcuts are in, a chain leads to something that is known and not
    behind the key. *)
Lemma navigate_points (K : Z -> Z -> Prop) n key : (forall k k' id, K k id -> K k' id -> k = k') -> inner_ok n -> points K n ->
  forall st en, in_range n key -> ibrackets n key st en -> exists id k, navigate_inner n key st en = Ok id /\ K k id /\ k <= key.
Proof.
  intros HKf. induction n as [| | | | | | |m items|m item nx loc c IHc|m item pv nx loc c IHc|m item c IHc| |m d r IHr c IHc|]; intros Hok HK st en Hr Hb; try done.
  - cbn [navigate_inner points] in *. destruct Hok as (Hs & _). destruct (locate_ok items key st en Hs) as (id & Hrun & k & Hk & Hle & _); [by apply Hb|].
    apply list_map_lookup in Hk; [|done]. rewrite Forall_forall in HK. exists id, k. split_and!; [done|by apply (HK (k, id))|done].
  - destruct Hok as (Hc & ((Hl & Hh & _) & _ & _ & Hloc) & _). destruct HK as [HK1 HK2]. cbn [navigate_inner].
    assert (Hr' : in_range c key) by (unfold in_range, GetLowKey, GetLowKeyPair, GetHighKeyPair in *; simpl in Hr; by rewrite Hl, Hh in Hr).
    unfold KeyCmpGreaterEqual, KeyCmpLess. destruct (Z.ltb_spec key item.1) as [Hlt|Hge]; cbn [negb].
    + apply IHc; try done. rewrite Hloc. by apply ibrackets_min.
    + case_match; [by exists item.2, item.1|]. apply IHc; try done. rewrite Hloc. by apply ibrackets_max.
  - pose proof (points_low K _ Hok HK) as Hlow. pose proof Hok as (Hc & ((Hl & Hh & _) & _ & _ & Hloc) & _). destruct HK as [HK1 HK2]. cbn [navigate_inner].
    assert (Hr' : in_range c key) by (unfold in_range, GetLowKey, GetLowKeyPair, GetHighKeyPair in *; simpl in Hr; by rewrite Hl, Hh in Hr).
    destruct (_ && _) eqn:Hcase.
    { exists pv.2, pv.1. split_and!; [done|done|]. apply andb_true_iff in Hcase as [[Ha%Z.eqb_eq|Ha]%orb_true_iff _].
      - rewrite Ha in Hlow. rewrite (HKf _ _ _ HK1 Hlow). apply Hr.
      - unfold KeyCmpGreaterEqual, KeyCmpLess in Ha. apply negb_true_iff, Z.ltb_ge in Ha. done. }
    unfold KeyCmpGreaterEqual, KeyCmpLess. destruct (Z.ltb_spec key item.1) as [Hlt|Hge]; cbn [negb].
    + apply IHc; try done. rewrite Z.min_comm, Hloc. by apply ibrackets_min.
    + apply IHc; try done. rewrite Z.max_comm, Hloc. apply ibrackets_max; [done|lia].
  - destruct Hok as (Hc & _ & Hl & Hh & Hid & Hr1 & Hr2 & _). cbn [navigate_inner points] in *. destruct Hr as [Hra Hrb].
    unfold GetLowKey, GetLowKeyPair, GetHighKeyPair in Hra, Hrb. simpl in Hra, Hrb. rewrite Hl in Hra. rewrite Hh in Hrb. destruct Hrb as [?|Hrb]; [done|].
    apply IHc; try done. split; [done|]. destruct Hr2 as [?|?]; [by left|right; lia].
  - pose proof Hok as (Hc & Hr2 & Hl & Hh & Hhc & Hnc & Hlr & Hlt & _). destruct HK as [HK1 HK2]. cbn [navigate_inner].
    destruct Hr as [Hra Hrb]. unfold GetLowKey, GetLowKeyPair, GetHighKeyPair in Hra, Hrb. simpl in Hra, Hrb. rewrite Hl in Hra. rewrite Hh in Hrb.
    unfold KeyCmpGreaterEqual, KeyCmpLess. destruct (Z.ltb_spec key d.1); cbn [negb].
    + apply IHc; try done; [|by apply ibrackets_start]. split; [done|]. right. unfold GetHighKey in Hhc. lia.
    + apply IHr; try done; [split; [lia|done]|apply ibrackets_start; [done|lia]].
Qed.
Lemma NavigateInner_points (K : Z -> Z -> Prop) n key : (forall k k' id, K k id -> K k' id -> k = k') -> inner_ok n -> points K n -> in_range n key ->
  exists id k, NavigateInner n key = Ok id /\ K k id /\ k <= key.
Proof. intros HKf Hok HK Hr. eapply navigate_points; [done..|]. apply ibrackets_start; [done|apply Hr]. Qed.
Lemma FindSeparator_ok n key : inner_ok n -> GetLowKey n < key -> below (GetHighKeyPair n) key ->
  FindSeparator n key = Ok (inner_map n !! key, Z.of_nat (rank (inner_base n key) key)).
Proof. intros Hok Hl Hh. apply find_separator_ok; [done|split; [lia|done]|by left]. Qed.

(** ** Posting and splitting *)
Lemma inner_insert_ok a item next n : inner_ok n -> GetLowKey n < item.1 -> below (GetHighKeyPair n) item.1 -> inner_map n !! item.1 = None ->
  GetDepth n + 1 < 32768 -> inner_ok (InnerInsertNode a item next n (Z.of_nat (rank (inner_base n item.1) item.1))).
Proof.
  intros Hok Hl Hh Hn Hd. pose proof (inner_depth _ Hok). cbn [InnerInsertNode inner_ok]. split_and!; [done| |done].
  split_and!; [|done|done|done]. split_and!; [done|done|simpl; apply i16_depth; lia|done].
Qed.
Lemma inner_delete_ok a item prev next n : inner_ok n -> GetLowKey n < item.1 -> is_Some (inner_map n !! item.1) ->
  GetDepth n + 1 < 32768 -> inner_ok (InnerDeleteNode a item prev next n (Z.of_nat (rank (inner_base n item.1) item.1))).
Proof.
  intros Hok Hl [v Hn] Hd. pose proof (inner_depth _ Hok). destruct (inner_map_range _ _ _ Hok Hn) as [_ Hh]. cbn [InnerDeleteNode inner_ok].
  split_and!; [done| |by exists v]. split_and!; [|done|done|done]. split_and!; [done|done|simpl; apply i16_depth; lia|simpl; lia].
Qed.
(** An inner node is cut in the middle. *)
Lemma inner_split_ok a b id m items : inner_ok (Inner m items) -> (64 <= length items)%nat -> id <> INVALID_NODE_ID -> depth m < 32768 ->
  exists sm x sib, Inner_GetSplitSibling a (Inner m items) = Ok (Inner sm (x :: sib)) /\ inner_ok (Inner sm (x :: sib))
    /\ low_key sm = x /\ high_key sm = high_key m /\ this sm = a /\ depth sm = 0 /\ (forall y, y ∈ x :: sib -> y ∈ items)
    /\ (low_key m).1 < x.1 /\ below (high_key m) x.1
    /\ let left_p := InnerSplitNode b (x.1, id) (Inner m items) (Inner sm (x :: sib)) in
       inner_ok left_p /\ inner_map (Inner m items) = inner_map left_p ∪ inner_map (Inner sm (x :: sib))
       /\ 32 <= GetItemCount left_p /\ 32 <= item_count sm /\ GetItemCount left_p + item_count sm = Z.of_nat (length items).
Proof.
  intros Hok Hlen Hid Hdm. pose proof Hok as (Hs & Hhd & Hrange & Hdep & Hcnt). unfold Inner_GetSplitSibling, GetSize. cbv zeta. set (c := (length items / 2)%nat).
  replace (Z.of_nat (length items) / 2) with (Z.of_nat c) by (unfold c; by rewrite Nat2Z.inj_div).
  assert (Hc : (32 <= c /\ c + c <= length items)%nat).
  { unfold c. split; [apply Nat.div_le_lower_bound; lia|]. pose proof (Nat.Div0.mul_div_le (length items) 2). lia. }
  destruct (lookup_lt_is_Some_2 items c) as [x Hx]; [lia|]. rewrite (array_get_lookup _ _ _ Hx). cbn [mbind outcome_bind].
  replace (Z.of_nat (length items) - Z.of_nat c) with (Z.of_nat (length items - c)) by lia. unfold Inner_Get, WriteItems. rewrite Nat2Z.id.
  set (sm := new_meta a x (high_key m) 0 (Z.of_nat (length items - c))). 
  pose proof (memcpy_nat (replicate (length items - c) (0, 0)) 0 items c (length items - c)) as Hcopy. change (Z.of_nat 0) with 0 in Hcopy.
  rewrite Hcopy by (rewrite ?length_replicate; lia). cbn [mbind outcome_bind take app]. rewrite (drop_ge (replicate _ _)), app_nil_r by (rewrite length_replicate; lia).
  rewrite (take_ge (drop c items)) by (rewrite length_drop; lia). pose proof (drop_S _ _ _ Hx) as Hdrop. rewrite Hdrop.
  assert (Hsplit : items = take c items ++ drop c items) by (by rewrite take_drop).
  pose proof Hs as Hs2. rewrite Hsplit, fmap_app in Hs2. apply ksorted_app in Hs2 as (Hs1 & Hs2 & Hlt). rewrite Forall_forall in Hrange.
  assert (Hlt' : forall k v, (k, v) ∈ take c items -> k < x.1).
  { intros k v Hk. apply Hlt; [apply list_elem_of_fmap; by exists (k, v)|]. apply list_elem_of_fmap. exists x. split; [done|]. rewrite Hdrop. left. }
  assert (Hge : forall k v, (k, v) ∈ drop c items -> x.1 <= k).
  { intros k v Hk. rewrite Hdrop in Hk, Hs2. apply elem_of_cons in Hk as [<-|Hk]; [done|]. rewrite fmap_cons in Hs2. apply StronglySorted_inv in Hs2 as [_ Hs2].
    rewrite Forall_fmap, Forall_forall in Hs2. specialize (Hs2 (k, v) Hk). simpl in Hs2. lia. }
  assert (Hxin : x ∈ items) by (by eapply list_elem_of_lookup_2). pose proof (Hrange x.1 ltac:(apply list_elem_of_fmap; by exists x)) as Hx2.
  assert (Hxlow : (low_key m).1 < x.1).
  { destruct items as [|y items']; [simpl in Hlen; lia|]. injection Hhd as <-. eapply (ksorted_pair (y :: items') 0 c); [done|lia|done|done]. }
  assert (Hin : forall y, y ∈ drop c items -> y ∈ items) by (intros y Hy; rewrite Hsplit; set_solver).
  assert (Hleft : filter (fun kv => kv.1 < x.1) (list_to_map items : gmap Z Z) = list_to_map (take c items)).
  { apply map_eq. intros k. apply option_eq. intros v. rewrite map_lookup_filter_Some, !list_map_lookup by done. simpl.
    rewrite Hsplit at 1. rewrite elem_of_app. split; [intros [[?|Hk] ?]; [done|specialize (Hge _ _ Hk); lia]|]. intros Hk. split; [by left|by eapply Hlt']. }
  assert (Hsize : base.size (list_to_map (take c items) : gmap Z Z) = c).
  { destruct (sorted_map_length (take c items) (list_to_map (take c items)) Hs1) as [_ <-]; [|rewrite length_take; lia]. intros [k v]. by rewrite list_map_lookup. }
  assert (Hsib : inner_ok (Inner sm (x :: drop (S c) items))).
  { cbn [inner_ok]. rewrite <- Hdrop. split_and!; [done|by rewrite Hdrop| |done|simpl; rewrite length_drop; lia]. apply Forall_forall.
    intros k (y & -> & Hy)%list_elem_of_fmap. apply Hrange, list_elem_of_fmap. eauto. }
  exists sm, x, (drop (S c) items). do 9 (split; [first [done|by rewrite <- Hdrop]|]). cbv zeta. unfold InnerSplitNode, GetItemCount. cbn [metadata item_count new_meta].
  rewrite Hcnt. replace (item_count sm) with (Z.of_nat (length items) - Z.of_nat c) by (simpl; lia). cbn [inner_ok inner_map fst]. rewrite Hleft, Hsize.
  split_and!; try done; try lia.
  - by apply Forall_forall.
  - unfold GetDepth. simpl. rewrite i16_depth; [done|lia].
  - simpl. lia.
  - rewrite <- Hdrop, <- list_to_map_app, <- Hsplit. done.
Qed.

(** ** A chain with every kind of delta *)
Definition left_inner : BaseNode := Inner (new_meta 1 (0, 2) (40, 9) 0 4) [(0, 2); (10, 3); (20, 4); (30, 5)].
Definition cut_inner : BaseNode := InnerSplitNode 3 (30, 8) left_inner (Inner (new_meta 2 (30, 5) (40, 9) 0 1) [(30, 5)]).
Definition left_chain : BaseNode := InnerDeleteNode 5 (10, 3) (0, 2) (20, 4) (InnerInsertNode 4 (25, 6) (30, 8) cut_inner 3) 1.
Definition right_chain : BaseNode := InnerInsertNode 7 (35, 7) (40, 9) (Inner (new_meta 6 (30, 5) (40, 9) 0 1) [(30, 5)]) 1.
Definition merged_inner : BaseNode := InnerInsertNode 9 (10, 11) (20, 4) (InnerMergeNode 8 30 right_chain 8 left_chain) 1.
Ltac inner_chain_ok :=
  cbv [inner_ok sep_ok delta_meta in_range new_meta low_key high_key depth item_count InnerInsertNode InnerDeleteNode InnerSplitNode InnerMergeNode
    fst snd fmap list_fmap head]; repeat chain_case.
Lemma merged_inner_ok : inner_ok merged_inner.
Proof. unfold merged_inner, right_chain, left_chain, cut_inner, left_inner. inner_chain_ok. Qed.
(** The conditions on shortcuts, for a map given by its bindings. *)
Lemma next_ok_list (l : list KeyNodeIDPair) mp high x next : mp = list_to_map l -> Forall (fun y => x < y.1 -> next.1 <= y.1) l ->
  next.2 <> INVALID_NODE_ID -> x < next.1 -> next = high \/ is_Some (mp !! next.1) -> next_ok mp high x next.
Proof.
  intros -> Hl Hid Hx Hs. split; [|].
  - intros k [v Hk%elem_of_list_to_map_2] Hlt. rewrite Forall_forall in Hl. by split; [|exact (Hl _ Hk Hlt)].
  - intros _. split; [done|]. intros Hb. destruct Hs as [->|Hs]; [|done]. destruct Hb; [done|lia].
Qed.
Lemma prev_ok_list (l : list KeyNodeIDPair) mp low x prev : mp = list_to_map l -> mp !! prev.1 = Some prev.2 -> prev.1 < x ->
  Forall (fun y => y.1 < x -> y.1 <= prev.1) l -> (prev.2 = low.2 -> prev.1 = low.1) -> prev_ok mp low x prev.
Proof.
  intros -> Hp Hx Hl Hlow. split_and!; [done|done| |done]. intros k [v Hk%elem_of_list_to_map_2] Hlt. rewrite Forall_forall in Hl. exact (Hl _ Hk Hlt).
Qed.
Lemma merged_inner_exact : inner_exact merged_inner.
Proof.
  assert (Hn : forall l mp high x next, mp = list_to_map l -> forallb (fun y => (y.1 <=? x) || (next.1 <=? y.1)) l = true ->
    next.2 <> INVALID_NODE_ID -> x < next.1 -> next = high \/ is_Some (mp !! next.1) -> next_ok mp high x next).
  { intros l mp high x next Hm Hl. apply (next_ok_list l); [done|]. apply Forall_forall. intros y Hy Hlt. rewrite forallb_forall in Hl.
    apply list_elem_of_In in Hy. specialize (Hl y Hy). lia. }
  cbn [inner_exact merged_inner left_chain right_chain cut_inner left_inner InnerInsertNode InnerDeleteNode InnerSplitNode InnerMergeNode]. split_and!; try done.
  - apply (Hn [(0, 2); (10, 3); (20, 4)]); try done. by left.
  - apply (Hn [(0, 2); (10, 3); (20, 4); (25, 6)]); try done. right. by eexists.
  - apply (prev_ok_list [(0, 2); (10, 3); (20, 4); (25, 6)]); try done. repeat constructor; simpl; lia.
  - apply (Hn [(30, 5)]); try done. by left.
  - apply (Hn [(0, 2); (20, 4); (25, 6); (30, 5); (35, 7)]); try done. right. by eexists.
Qed.

(** ** What the operations on an inner node rely on *)

(** C16: consolidating an inner node, through inserts and deletes of separators, splits and
    merges of any nesting, succeeds, fills exactly the array it has allocated, and yields
    one sorted base node with the bounds of the chain and exactly its separators. *)
Theorem inner_consolidation_correct a n p_depth : inner_ok n -> 0 <= p_depth < 32768 ->
  exists m items, CollectAllSepsOnInner a n p_depth = Ok (Inner m items)
    /\ ksorted items.*1 /\ (forall k id, (k, id) ∈ items <-> inner_map n !! k = Some id)
    /\ head items = Some (GetLowKeyPair n) /\ high_key m = GetHighKeyPair n /\ item_count m = Z.of_nat (length items) /\ depth m = p_depth.
Proof.
  intros Hok Hd. destruct (collect_seps_ok a n p_depth Hok Hd) as (items & Hrun & Hmap & Hs & Hhd & _ & _ & Hc). eexists _, items.
  split; [exact Hrun|]. split_and!; try done; [|simpl; by apply i16_depth]. intros k v. by rewrite <- Hmap, list_map_lookup.
Qed.
Lemma inner_consolidation_correct_witness :
  exists m items, CollectAllSepsOnInner 12 merged_inner 0 = Ok (Inner m items)
    /\ ksorted items.*1 /\ (forall k id, (k, id) ∈ items <-> inner_map merged_inner !! k = Some id)
    /\ head items = Some (0, 2) /\ high_key m = (40, 9) /\ item_count m = Z.of_nat (length items) /\ depth m = 0.
Proof. refine (inner_consolidation_correct 12 merged_inner 0 merged_inner_ok _). lia. Defined.
(** C18: the search for the child of a key in an inner chain, with the neighbours its deltas
    record as shortcuts, finds the child in charge of the key, the one behind the greatest
    separator not above it, whether the chain has been consolidated or not. *)
Theorem inner_navigation_correct a n key : inner_ok n -> inner_exact n -> in_range n key ->
  exists id n', NavigateInner n key = Ok id /\ in_charge (inner_map n) key id
    /\ CollectAllSepsOnInner a n 0 = Ok n' /\ NavigateInner n' key = Ok id.
Proof.
  intros Hok Hex Hr. destruct (navigate_inner_ok n key Hok Hex 1 (GetSize (header_items n)) Hr) as (id & Hrun & k & Hk & Hle & Hmax);
    [by apply ibrackets_start, Hr|]. destruct (collect_seps_ok a n 0 Hok) as (items & Hcol & Hmap & Hok'); [lia|].
  exists id. eexists. split_and!; [exact Hrun|by exists k|exact Hcol|]. destruct (navigate_inner_ok _ key Hok' I 1 (GetSize items)) as (id' & Hrun' & k' & Hk' & Hle' & Hmax');
    [exact Hr|by apply (ibrackets_start _ key Hok'), Hr|]. etransitivity; [exact Hrun'|]. f_equal.
  cbn [inner_map] in Hk', Hmax'. rewrite Hmap in Hk', Hmax'. pose proof (Hmax k' ltac:(eauto) Hle'). pose proof (Hmax' k ltac:(eauto) Hle).
  assert (k = k') as <- by lia. congruence.
Qed.
Lemma inner_navigation_correct_witness :
  exists id n', NavigateInner merged_inner 27 = Ok id /\ in_charge (inner_map merged_inner) 27 id
    /\ CollectAllSepsOnInner 12 merged_inner 0 = Ok n' /\ NavigateInner n' 27 = Ok id.
Proof. refine (inner_navigation_correct 12 merged_inner 27 merged_inner_ok merged_inner_exact _). split; [by vm_compute|by right]. Defined.
