(* ===== verification/BwTree.v ===== *)
(** * The BwTree

    Models the operations of class [BwTree] in
    [src/src/indices/bw_tree/thread/bwtree.h]: the mapping table, traversals, the completion
    of structure modifications, consolidation, splitting and removal of nodes, and [Insert],
    [Upsert], [Delete] and [GetValue].

    An operation is a program: a tree whose inner nodes are accesses to shared memory, each
    of them one atomic instruction of the source (a load, a store, a compare-and-swap, a
    fetch-and-add), and what happens between them is a pure function of the answers.  One
    thread runs a program by answering every access from the state; several threads may be
    interleaved at the accesses.  A node that is allocated has an address of its own; the
    epochs, which keep memory from being used again while a thread could still see it, are
    not part of the program.  The loops that wait for a tree without obstacles take fuel. *)

From S2P Require Import Prelude BwSets BwNode BwLeaf BwInner.

(** ** Shared memory *)
Record BwTree : Type := mkTree {
  mapping_table : gmap Z BaseNode;
  root_id : Z;
  first_leaf_id : Z;
  next_unused_node_id : Z;
  free_node_id_list : list Z;
  next_address : Z;
  garbage : list BaseNode }.
(** The region of 1 GB that [InitMappingTable] maps holds this many pointers. *)
Definition mapping_table_entries : Z := 1024 * 1024 * 1024 / 8.

Inductive action : Type :=
  | ALoadNode (id : Z)
  | ACompareExchange (id : Z) (node prev : BaseNode)
  | AStoreNode (id : Z) (node : BaseNode)
  | APopFreeID
  | AFetchAddID
  | ANew
  | ALoadRoot
  | AStoreRoot (id : Z)
  | ACompareExchangeRoot (old_id new_id : Z)
  | ASetFirstLeaf (id : Z)
  | AAddGarbage (node : BaseNode).
Definition answer (a : action) : Type :=
  match a with
  | ALoadNode _ => option BaseNode
  | ACompareExchange _ _ _ | ACompareExchangeRoot _ _ => bool
  | APopFreeID => option Z
  | AFetchAddID | ANew | ALoadRoot => Z
  | AStoreNode _ _ | AStoreRoot _ | ASetFirstLeaf _ | AAddGarbage _ => unit
  end.
Definition set_table (T : gmap Z BaseNode) (s : BwTree) : BwTree :=
  mkTree T (root_id s) (first_leaf_id s) (next_unused_node_id s) (free_node_id_list s) (next_address s) (garbage s).
Definition set_root (id : Z) (s : BwTree) : BwTree :=
  mkTree (mapping_table s) id (first_leaf_id s) (next_unused_node_id s) (free_node_id_list s) (next_address s) (garbage s).

(** A pointer is compared by its address. *)
Definition points_at (o : option BaseNode) (n : BaseNode) : bool := match o with Some x => same_node x n | None => false end.
Definition exec (a : action) (s : BwTree) : BwTree * answer a :=
  match a with
  | ALoadNode id => (s, mapping_table s !! id)
  | ACompareExchange id node prev =>
      if points_at (mapping_table s !! id) prev then (set_table (<[id := node]> (mapping_table s)) s, true) else (s, false)
  | AStoreNode id node => (set_table (<[id := node]> (mapping_table s)) s, tt)
  | APopFreeID =>
      match free_node_id_list s with
      | [] => (s, None)
      | id :: ids =>
          (mkTree (mapping_table s) (root_id s) (first_leaf_id s) (next_unused_node_id s) ids (next_address s) (garbage s), Some id)
      end
  | AFetchAddID =>
      (mkTree (mapping_table s) (root_id s) (first_leaf_id s) (next_unused_node_id s + 1) (free_node_id_list s) (next_address s) (garbage s),
       next_unused_node_id s)
  | ANew =>
      (mkTree (mapping_table s) (root_id s) (first_leaf_id s) (next_unused_node_id s) (free_node_id_list s) (next_address s + 1) (garbage s),
       next_address s)
  | ALoadRoot => (s, root_id s)
  | AStoreRoot id => (set_root id s, tt)
  | ACompareExchangeRoot old_id new_id => if root_id s =? old_id then (set_root new_id s, true) else (s, false)
  | ASetFirstLeaf id =>
      (mkTree (mapping_table s) (root_id s) id (next_unused_node_id s) (free_node_id_list s) (next_address s) (garbage s), tt)
  | AAddGarbage node =>
      (mkTree (mapping_table s) (root_id s) (first_leaf_id s) (next_unused_node_id s) (free_node_id_list s) (next_address s)
         (node :: garbage s), tt)
  end.

(** ** Programs *)
Inductive prog (A : Type) : Type :=
  | Ret (x : A)
  | Crash (f : fault)
  | Act (a : action) (k : answer a -> prog A).
Arguments Ret {A} x.
Arguments Crash {A} f.
Arguments Act {A} a k.

Fixpoint prog_bind_def {A B} (k : A -> prog B) (p : prog A) : prog B :=
  match p with Ret x => k x | Crash f => Crash f | Act a k' => Act a (fun r => prog_bind_def k (k' r)) end.
#[export] Instance prog_ret : MRet prog := fun A => Ret.
#[export] Instance prog_bind : MBind prog := fun A B => prog_bind_def.
Definition act (a : action) : prog (answer a) := Act a Ret.
Definition pure {A} (o : outcome A) : prog A := match o with Ok x => Ret x | Fault f => Crash f end.
(** A member without a value, a null pointer. *)
Definition read {A} (o : option A) : prog A := match o with Some x => Ret x | None => Crash Uninitialised end.
Definition deref {A} (o : option A) : prog A := match o with Some x => Ret x | None => Crash NullDeref end.

(** One thread alone. *)
Fixpoint run {A} (p : prog A) (s : BwTree) : outcome A * BwTree :=
  match p with
  | Ret x => (Ok x, s)
  | Crash f => (Fault f, s)
  | Act a k => run (k (exec a s).2) (exec a s).1
  end.

(** ** The mapping table *)
Definition mapped (id : Z) : bool := (0 <=? id) && (id <? mapping_table_entries).
Definition GetNode (id : Z) : prog (option BaseNode) := if mapped id then act (ALoadNode id) else Crash Unmapped.
Definition InstallNodeToReplace (id : Z) (node prev : BaseNode) : prog bool :=
  if mapped id then act (ACompareExchange id node prev) else Crash Unmapped.
Definition InstallNewNode (id : Z) (node : BaseNode) : prog unit := if mapped id then act (AStoreNode id node) else Crash Unmapped.
Definition InstallRootNode (old_root_node_id new_root_node_id : Z) : prog bool := act (ACompareExchangeRoot old_root_node_id new_root_node_id).
Definition BwTree_GetNextNodeID : prog Z :=
  ret_pair ← act APopFreeID;
  match ret_pair with None => act AFetchAddID | Some id => Ret id end.
Definition AddGarbageNode (node : BaseNode) : prog unit := act (AAddGarbage node).

Definition empty_tree : BwTree := mkTree ∅ 0 0 1 [] 1 [].
Definition InitNodeLayout : prog unit :=
  root ← BwTree_GetNextNodeID;
  _ ← act (AStoreRoot root);
  leaf ← BwTree_GetNextNodeID;
  _ ← act (ASetFirstLeaf leaf);
  let first_sep := (0, leaf) in
  a ← act ANew;
  root_node_p ← pure (WriteItem 0 first_sep (Inner_Get a 0 1 first_sep (0, INVALID_NODE_ID)));
  _ ← InstallNewNode root root_node_p;
  a ← act ANew;
  InstallNewNode leaf (Leaf_Get a 0 0 (0, INVALID_NODE_ID) (0, INVALID_NODE_ID)).
Definition new_BwTree : BwTree := (run InitNodeLayout empty_tree).2.

(** ** Snapshots *)
Definition set_current (s : NodeSnapshot) (c : Context) : Context := mkContext (search_key c) s (parent_snapshot c) (abort_flag c).
Definition set_parent (s : NodeSnapshot) (c : Context) : Context := mkContext (search_key c) (current_snapshot c) s (abort_flag c).
Definition set_abort (b : bool) (c : Context) : Context := mkContext (search_key c) (current_snapshot c) (parent_snapshot c) b.
Definition with_node (n : BaseNode) (s : NodeSnapshot) : NodeSnapshot := mkSnapshot (node_id s) (Some n).
Definition aborted (c : Context) : prog Context := Ret (set_abort true c).

Definition IsOnRootNode (c : Context) : prog bool := id ← read (node_id (parent_snapshot c)); Ret (id =? INVALID_NODE_ID).
Definition IsLeafLevel (s : NodeSnapshot) : prog bool := n ← read (node_p s); Ret (IsOnLeafDeltaChain n).
Definition IsOnLeftMostChild (c : Context) : prog bool :=
  p ← read (node_p (parent_snapshot c));
  id ← read (node_id (current_snapshot c));
  Ret (GetLowKeyNodeID p =? id).
(** The node is dereferenced right after it is loaded: a null pointer is met here. *)
Definition TakeNodeSnapshot (id : Z) (c : Context) : prog Context :=
  o ← GetNode id; n ← deref o;
  Ret (set_current (mkSnapshot (Some id) (Some n)) (set_parent (current_snapshot c) c)).
Definition UpdateNodeSnapshot (id : Z) (c : Context) : prog Context :=
  o ← GetNode id; n ← deref o;
  Ret (set_current (mkSnapshot (Some id) (Some n)) c).

(** ** Consolidation *)
Section Tree.
Context (key_hash : Z -> Z).

Definition install_consolidated (s : NodeSnapshot) (n new_node : BaseNode) : prog NodeSnapshot :=
  id ← read (node_id s);
  ret ← InstallNodeToReplace id new_node n;
  if ret : bool then _ ← AddGarbageNode n; Ret (with_node new_node s)
  else _ ← AddGarbageNode new_node; Ret s.
Definition ConsolidateLeafNode (s : NodeSnapshot) : prog NodeSnapshot :=
  n ← read (node_p s);
  a ← act ANew;
  leaf_node_p ← pure (CollectAllValuesOnLeaf key_hash a n);
  install_consolidated s n leaf_node_p.
Definition ConsolidateInnerNode (s : NodeSnapshot) : prog NodeSnapshot :=
  n ← read (node_p s);
  a ← act ANew;
  inner_node_p ← pure (CollectAllSepsOnInner a n 0);
  install_consolidated s n inner_node_p.
Definition ConsolidateNode (s : NodeSnapshot) : prog NodeSnapshot :=
  n ← read (node_p s);
  if IsOnLeafDeltaChain n then ConsolidateLeafNode s else ConsolidateInnerNode s.
Definition TryConsolidateNode (c : Context) : prog Context :=
  n ← read (node_p (current_snapshot c));
  if negb (IsDeltaNode n) then Ret c
  else if GetDepth n <? (if IsOnLeafDeltaChain n then LEAF_DELTA_CHAIN_LENGTH_THRESHOLD else INNER_DELTA_CHAIN_LENGTH_THRESHOLD) then Ret c
  else s ← ConsolidateNode (current_snapshot c); Ret (set_current s c).

(** ** Removal: the abort node on the parent *)
Definition PostAbortOnParent (c : Context) : prog (bool * Z * BaseNode * BaseNode) :=
  parent_node_p ← read (node_p (parent_snapshot c));
  parent_node_id ← read (node_id (parent_snapshot c));
  a ← act ANew;
  let abort_node_p := InnerAbortNode a parent_node_p in
  ret ← InstallNodeToReplace parent_node_id abort_node_p parent_node_p;
  Ret (ret, parent_node_id, abort_node_p, parent_node_p).
Definition RemoveAbortOnParent (parent_node_id : Z) (abort_node_p abort_child_node_p : BaseNode) : prog unit :=
  _ ← InstallNodeToReplace parent_node_id abort_child_node_p abort_node_p;
  AddGarbageNode abort_node_p.
(** A node that is too small is removed under the protection of the abort node. *)
Definition remove_node (c : Context) (id : Z) (n : BaseNode) (RemoveNode : Z -> Z -> BaseNode -> BaseNode) : prog Context :=
  '(abort_node_ret, parent_node_id, abort_node_p, abort_child_node_p) ← PostAbortOnParent c;
  if (abort_node_ret : bool) then
    a ← act ANew;
    _ ← InstallNodeToReplace id (RemoveNode a id n) n;
    _ ← RemoveAbortOnParent parent_node_id abort_node_p abort_child_node_p;
    aborted c
  else aborted c.

(** ** Size adjustment *)
Definition split_leaf (c : Context) (id : Z) (n : BaseNode) : prog Context :=
  a ← act ANew;
  new_leaf_node_p ← pure (Leaf_GetSplitSibling a n);
  match new_leaf_node_p with
  | None => Ret c
  | Some new_leaf_node_p =>
      first ← pure (match new_leaf_node_p with Leaf _ items => array_get items 0 | _ => Fault InactiveMember end);
      new_node_id ← BwTree_GetNextNodeID;
      b ← act ANew;
      let split_node_p := LeafSplitNode b (first.1, new_node_id) n new_leaf_node_p in
      _ ← InstallNewNode new_node_id new_leaf_node_p;
      ret ← InstallNodeToReplace id split_node_p n;
      if (ret : bool) then aborted c
      else
        a ← act ANew;
        _ ← AddGarbageNode (LeafRemoveNode a new_node_id new_leaf_node_p);
        _ ← AddGarbageNode new_leaf_node_p;
        Ret c
  end.
Definition split_inner (c : Context) (id : Z) (n : BaseNode) : prog Context :=
  a ← act ANew;
  new_inner_node_p ← pure (Inner_GetSplitSibling a n);
  first_item ← pure (match new_inner_node_p with Inner _ items => array_get items 0 | _ => Fault InactiveMember end);
  o ← GetNode first_item.2; split_key_child_node_p ← deref o;
  if IsRemoveNode split_key_child_node_p then _ ← AddGarbageNode new_inner_node_p; Ret c
  else
    new_node_id ← BwTree_GetNextNodeID;
    b ← act ANew;
    let split_node_p := InnerSplitNode b (GetLowKey new_inner_node_p, new_node_id) n new_inner_node_p in
    _ ← InstallNewNode new_node_id new_inner_node_p;
    ret ← InstallNodeToReplace id split_node_p n;
    if (ret : bool) then aborted c
    else
      a ← act ANew;
      _ ← AddGarbageNode (InnerRemoveNode a new_node_id new_inner_node_p);
      _ ← AddGarbageNode new_inner_node_p;
      Ret c.
Definition AdjustNodeSize (c : Context) : prog Context :=
  n ← read (node_p (current_snapshot c));
  if IsDeltaNode n then Ret c
  else
    id ← read (node_id (current_snapshot c));
    if IsOnLeafDeltaChain n then
      let node_size := GetItemCount n in
      if LEAF_NODE_SIZE_UPPER_THRESHOLD <=? node_size then split_leaf c id n
      else if node_size <=? LEAF_NODE_SIZE_LOWER_THRESHOLD then
        left_most ← IsOnLeftMostChild c;
        if (left_most : bool) then Ret c else remove_node c id n LeafRemoveNode
      else Ret c
    else
      let node_size := match n with Inner _ items => GetSize items | _ => 0 end in
      if INNER_NODE_SIZE_UPPER_THRESHOLD <=? node_size then split_inner c id n
      else if node_size <=? INNER_NODE_SIZE_LOWER_THRESHOLD then
        root ← IsOnRootNode c;
        if (root : bool) then Ret c
        else
          left_most ← IsOnLeftMostChild c;
          if (left_most : bool) then Ret c else remove_node c id n InnerRemoveNode
      else Ret c.

(** ** Posting on the parent *)
Definition PostInnerInsertNode (c : Context) (insert_item next_item : KeyNodeIDPair) (location : Z) : prog (bool * Context) :=
  p ← read (node_p (parent_snapshot c));
  a ← act ANew;
  let insert_node_p := InnerInsertNode a insert_item next_item p location in
  id ← read (node_id (parent_snapshot c));
  ret ← InstallNodeToReplace id insert_node_p p;
  if (ret : bool) then
    let c := set_parent (with_node insert_node_p (parent_snapshot c)) c in
    s ← ConsolidateNode (current_snapshot c);
    Ret (true, set_current s c)
  else Ret (false, set_abort true c).
Definition PostInnerDeleteNode (c : Context) (delete_item prev_item next_item : KeyNodeIDPair) (location : Z) : prog (bool * Context) :=
  p ← read (node_p (parent_snapshot c));
  a ← act ANew;
  let delete_node_p := InnerDeleteNode a delete_item prev_item next_item p location in
  id ← read (node_id (parent_snapshot c));
  ret ← InstallNodeToReplace id delete_node_p p;
  if (ret : bool) then
    o ← GetNode delete_item.2; garbage_node_p ← deref o;
    _ ← AddGarbageNode garbage_node_p;
    let c := set_parent (with_node delete_node_p (parent_snapshot c)) c in
    s ← ConsolidateNode (current_snapshot c);
    Ret (true, set_current s c)
  else Ret (false, set_abort true c).
(** [PostLeafMergeNode] and [PostInnerMergeNode] *)
Definition PostMergeNode (MergeNode : Z -> Z -> BaseNode -> Z -> BaseNode -> BaseNode) (s : NodeSnapshot) (merge_key : Z)
    (merge_branch_p : BaseNode) (deleted_node_id : Z) : prog (option BaseNode) :=
  n ← read (node_p s);
  id ← read (node_id s);
  a ← act ANew;
  let merge_node_p := MergeNode a merge_key merge_branch_p deleted_node_id n in
  ret ← InstallNodeToReplace id merge_node_p n;
  Ret (if (ret : bool) then Some merge_node_p else None).

(** ** [FindLeftSibling] *)
Definition left_less (idn_1 idn_2 : BaseNode) : bool := KeyCmpLess (inner_item idn_2).1 (inner_item idn_1).1.
(** Down to the base node, or to a merge. *)
Fixpoint left_collect (n : BaseNode) (key : Z) (s : SortedSmallSet BaseNode) : outcome (option (list KeyNodeIDPair) * SortedSmallSet BaseNode) :=
  match n with
  | Inner _ items => Ok (Some items, s)
  | InnerInsert _ item _ _ c | InnerDelete _ item _ _ _ c =>
      s ← (if KeyCmpLessEqual item.1 key then sss_Insert left_less inner_data_eq n s else Ok s);
      left_collect c key s
  | InnerSplit _ _ c => left_collect c key s
  | InnerMerge _ _ _ _ => Ok (None, s)
  | _ => Fault InactiveMember
  end.
(** [while (counter < 2)] *)
Fixpoint left_loop (fuel : nat) (items : list KeyNodeIDPair) (s : SortedSmallSet BaseNode) (index1 counter : Z) (left_node_id : option Z) :
    outcome (option Z) :=
  match fuel with
  | O => Fault OutOfFuel
  | S fuel =>
      if counter <? 2 then
        if start_p s =? end_p s then
          x ← array_get items index1;
          left_loop fuel items s (index1 - 1) (counter + 1) (Some x.2)
        else if index1 =? 0 then
          front ← sss_GetFront s;
          '(_, s) ← sss_PopFront s;
          if bool_decide (GetType front = InnerInsertType) then left_loop fuel items s index1 (counter + 1) (Some (inner_item front).2)
          else left_loop fuel items s index1 counter left_node_id
        else
          x ← array_get items index1;
          front ← sss_GetFront s;
          if KeyCmpEqual (inner_item front).1 x.1 then
            '(_, s) ← sss_PopFront s;
            if bool_decide (GetType front = InnerDeleteType) then left_loop fuel items s (index1 - 1) counter left_node_id
            else left_loop fuel items s (index1 - 1) (counter + 1) (Some (inner_item front).2)
          else if KeyCmpLess (inner_item front).1 x.1 then left_loop fuel items s (index1 - 1) (counter + 1) (Some x.2)
          else
            '(_, s) ← sss_PopFront s;
            if bool_decide (GetType front = InnerInsertType) then left_loop fuel items s index1 (counter + 1) (Some (inner_item front).2)
            else left_loop fuel items s index1 counter left_node_id
      else Ok left_node_id
  end.
Definition left_base (items : list KeyNodeIDPair) (key : Z) (s : SortedSmallSet BaseNode) : outcome (option Z) :=
  index1 ← UpperBound 1 (GetSize items) key items;
  left_loop (S (length items + length (sss_data s) + 2)) items s (index1 - 1) 0 None.
Definition FindLeftSibling (key : Z) (s : NodeSnapshot) : prog (Z * NodeSnapshot) :=
  n ← read (node_p s);
  '(base, small_set) ← pure (left_collect n key (new_sss (replicate (Z.to_nat (GetDepth n)) n)));
  match base with
  | Some items => left_id ← pure (left_base items key small_set); left_id ← read left_id; Ret (left_id, s)
  | None =>
      a ← act ANew;
      inner_node_p ← pure (CollectAllSepsOnInner a n (GetDepth n + 1));
      s ← install_consolidated s n inner_node_p;
      items ← pure (match inner_node_p with Inner _ items => Ok items | _ => Fault InactiveMember end);
      left_id ← pure (left_base items key (sss_Invalidate small_set));
      left_id ← read left_id;
      Ret (left_id, s)
  end.

(** ** [FinishPartialSMO] *)

(** [InnerAbortType]: the child is looked at instead. *)
Fixpoint skip_abort (n : BaseNode) : BaseNode := match n with InnerAbort _ c => skip_abort c | _ => n end.
(** [JumpToNodeID] and [JumpToLeftSibling] for a given [FinishPartialSMO]. *)
Definition jump_to (finish : Context -> prog Context) (id : Z) (c : Context) : prog Context :=
  c ← UpdateNodeSnapshot id c;
  c ← finish c;
  if abort_flag c then Ret c
  else c ← TryConsolidateNode c; AdjustNodeSize c.
Definition jump_left (finish : Context -> prog Context) (c : Context) : prog Context :=
  left_most ← IsOnLeftMostChild c;
  if (left_most : bool) then aborted c
  else
    removed_node_id ← read (node_id (current_snapshot c));
    parent_id ← read (node_id (parent_snapshot c));
    parent_p ← read (node_p (parent_snapshot c));
    o ← GetNode parent_id;
    if negb (points_at o parent_p) then aborted c
    else
      n ← read (node_p (current_snapshot c));
      '(left_sibling_id, s) ← FindLeftSibling (GetLowKey n) (parent_snapshot c);
      c ← jump_to finish left_sibling_id (set_parent s c);
      if abort_flag c then Ret c
      else
        n ← read (node_p (current_snapshot c));
        if negb (removed_node_id =? GetNextNodeID n) then aborted c else Ret c.

(** [InnerMergeType], [LeafMergeType]: the separator is deleted from the parent. *)
Definition finish_merge (c : Context) (n : BaseNode) : prog Context :=
  parent_id ← read (node_id (parent_snapshot c));
  o ← GetNode parent_id;
  parent_p ← read (node_p (parent_snapshot c));
  if negb (points_at o parent_p) then aborted c
  else
    '(delete_item, right_merge_p) ←
       pure (match n with InnerMerge _ d r _ | LeafMerge _ d r _ => Ok (d, r) | _ => Fault InactiveMember end);
    '(found, location) ← pure (FindSeparator parent_p delete_item.1);
    match found with
    | None => Ret c
    | Some _ =>
        id ← read (node_id (current_snapshot c));
        '(_, c) ← PostInnerDeleteNode c delete_item (GetLowKey n, id) (GetHighKeyPair right_merge_p) location;
        Ret c
    end.
(** [InnerSplitType], [LeafSplitType]: a new root, or the separator is inserted into the parent. *)
Definition finish_split (c : Context) (insert_item next_item : KeyNodeIDPair) : prog Context :=
  on_root ← IsOnRootNode c;
  if (on_root : bool) then
    id ← read (node_id (current_snapshot c));
    new_root_id ← BwTree_GetNextNodeID;
    a ← act ANew;
    inner_node_p ← pure (WriteItem 0 (0, id) (Inner_Get a 0 2 (0, id) (0, INVALID_NODE_ID)));
    inner_node_p ← pure (WriteItem 1 insert_item inner_node_p);
    _ ← InstallNewNode new_root_id inner_node_p;
    ret ← InstallRootNode id new_root_id;
    if (ret : bool) then aborted c
    else
      a ← act ANew;
      _ ← AddGarbageNode (InnerRemoveNode a new_root_id inner_node_p);
      _ ← AddGarbageNode inner_node_p;
      aborted c
  else
    parent_p ← read (node_p (parent_snapshot c));
    if negb (GetNextNodeID parent_p =? INVALID_NODE_ID) && KeyCmpGreaterEqual insert_item.1 (GetHighKey parent_p) then Ret c
    else
      '(found, location) ← pure (FindSeparator parent_p insert_item.1);
      match found with
      | Some found => if negb (found =? insert_item.2) then aborted c else Ret c
      | None => '(_, c) ← PostInnerInsertNode c insert_item next_item location; Ret c
      end.
(** [LeafRemoveType], [InnerRemoveType]: the node is merged into its left sibling. *)
Definition finish_remove (jump_left_ : Context -> prog Context) (c : Context) (merge_right_branch : BaseNode) : prog Context :=
  deleted_node_id ← read (node_id (current_snapshot c));
  c ← jump_left_ c;
  if abort_flag c then Ret c
  else
    n ← read (node_p (current_snapshot c));
    leaf ← IsLeafLevel (current_snapshot c);
    ret ← PostMergeNode (if (leaf : bool) then LeafMergeNode else InnerMergeNode) (current_snapshot c) (GetHighKey n) merge_right_branch deleted_node_id;
    match ret with
    | Some merge_node_p => finish_merge (set_current (with_node merge_node_p (current_snapshot c)) c) merge_node_p
    | None => aborted c
    end.
Fixpoint FinishPartialSMO (fuel : nat) (c : Context) : prog Context :=
  match fuel with
  | O => Crash OutOfFuel
  | S fuel =>
      n ← read (node_p (current_snapshot c));
      let n := skip_abort n in
      let c := set_current (with_node n (current_snapshot c)) c in
      match n with
      | LeafRemove _ _ child | InnerRemove _ _ child => finish_remove (jump_left (FinishPartialSMO fuel)) c child
      | InnerMerge _ _ _ _ | LeafMerge _ _ _ _ => finish_merge c n
      | InnerSplit _ insert_item child | LeafSplit _ insert_item child => finish_split c insert_item (GetHighKeyPair child)
      | _ => Ret c
      end
  end.
Definition JumpToNodeID (fuel : nat) : Z -> Context -> prog Context := jump_to (FinishPartialSMO fuel).
Definition LoadNodeID (fuel : nat) (id : Z) (c : Context) : prog Context :=
  c ← TakeNodeSnapshot id c;
  c ← FinishPartialSMO fuel c;
  if abort_flag c then Ret c
  else c ← TryConsolidateNode c; AdjustNodeSize c.

(** ** Traversals *)
Fixpoint NavigateSiblingChain (fuel : nat) (c : Context) : prog Context :=
  match fuel with
  | O => Crash OutOfFuel
  | S fuel' =>
      n ← read (node_p (current_snapshot c));
      if negb (GetNextNodeID n =? INVALID_NODE_ID) && KeyCmpGreaterEqual (search_key c) (GetHighKey n) then
        c ← JumpToNodeID fuel (GetNextNodeID n) c;
        if abort_flag c then Ret c else NavigateSiblingChain fuel' c
      else Ret c
  end.
Definition NavigateInnerNode (fuel : nat) (c : Context) : prog (Z * Context) :=
  c ← NavigateSiblingChain fuel c;
  if abort_flag c then Ret (INVALID_NODE_ID, c)
  else
    n ← read (node_p (current_snapshot c));
    id ← pure (NavigateInner n (search_key c));
    Ret (id, c).
(** [NavigateLeafNode(context_p, search_value, index_pair_p)] *)
Definition NavigateLeafNode (fuel : nat) (c : Context) : prog (option KeyValuePair * option (Z * bool) * Context) :=
  c ← NavigateSiblingChain fuel c;
  if abort_flag c then Ret (None, None, c)
  else
    n ← read (node_p (current_snapshot c));
    '(item, index_pair) ← pure (navigate_item n (search_key c) 0 (-1));
    Ret (item, Some index_pair, c).
(** [NavigateLeafNode(context_p, value_list)] *)
Definition NavigateLeafValues (fuel : nat) (c : Context) : prog (list Z * Context) :=
  c ← NavigateSiblingChain fuel c;
  if abort_flag c then Ret ([], c)
  else
    n ← read (node_p (current_snapshot c));
    values ← pure (navigate_values n (search_key c) 0 (-1));
    Ret (values, c).
Definition forget_current (c : Context) : Context := set_current (mkSnapshot (Some INVALID_NODE_ID) (node_p (current_snapshot c))) c.

(** [while (1)] of [Traverse]: down to the leaf level. *)
Fixpoint descend (fuel : nat) (c : Context) : prog Context :=
  match fuel with
  | O => Crash OutOfFuel
  | S fuel' =>
      '(child_node_id, c) ← NavigateInnerNode fuel c;
      if abort_flag c then Ret c
      else
        c ← LoadNodeID fuel child_node_id c;
        if abort_flag c then Ret c
        else
          leaf ← IsLeafLevel (current_snapshot c);
          if (leaf : bool) then Ret c else descend fuel' c
  end.
Definition traverse_once (fuel : nat) (value_p : option Z) (c : Context) : prog (option KeyValuePair * option (Z * bool) * Context) :=
  start_node_id ← act ALoadRoot;
  c ← LoadNodeID fuel start_node_id (forget_current c);
  if abort_flag c then Ret (None, None, c)
  else
    c ← descend fuel c;
    if abort_flag c then Ret (None, None, c)
    else
      match value_p with
      | None => c ← NavigateSiblingChain fuel c; Ret (None, None, c)
      | Some _ => NavigateLeafNode fuel c
      end.
Fixpoint Traverse (fuel : nat) (value_p : option Z) (c : Context) : prog (option KeyValuePair * option (Z * bool) * Context) :=
  match fuel with
  | O => Crash OutOfFuel
  | S fuel' =>
      '(found_pair_p, index_pair, c) ← traverse_once fuel value_p c;
      if abort_flag c then Traverse fuel' value_p (set_abort false (forget_current c)) else Ret (found_pair_p, index_pair, c)
  end.

(** The read-optimised traversal keeps no parent and completes nothing on its way down. *)
Definition FinishPartialSMOReadOptimized (c : Context) : prog Context :=
  n ← read (node_p (current_snapshot c));
  let n := skip_abort n in
  let c := set_current (with_node n (current_snapshot c)) c in
  match n with LeafRemove _ _ _ | InnerRemove _ _ _ => aborted c | _ => Ret c end.
Definition LoadNodeIDReadOptimized (id : Z) (c : Context) : prog Context :=
  c ← UpdateNodeSnapshot id c; FinishPartialSMOReadOptimized c.
Fixpoint descend_read (fuel : nat) (c : Context) : prog (list Z * Context) :=
  match fuel with
  | O => Crash OutOfFuel
  | S fuel' =>
      '(child_node_id, c) ← NavigateInnerNode fuel c;
      if abort_flag c then Ret ([], c)
      else
        c ← LoadNodeIDReadOptimized child_node_id c;
        if abort_flag c then Ret ([], c)
        else
          leaf ← IsLeafLevel (current_snapshot c);
          if (leaf : bool) then NavigateLeafValues fuel c else descend_read fuel' c
  end.
Fixpoint TraverseReadOptimized (fuel : nat) (c : Context) : prog (list Z) :=
  match fuel with
  | O => Crash OutOfFuel
  | S fuel' =>
      root ← act ALoadRoot;
      c ← LoadNodeIDReadOptimized root c;
      if abort_flag c then TraverseReadOptimized fuel' (set_abort false (forget_current c))
      else
        '(values, c) ← descend_read fuel c;
        if abort_flag c then TraverseReadOptimized fuel' (set_abort false (forget_current c)) else Ret values
  end.

(** ** Operations *)
Fixpoint Insert (fuel : nat) (key value : Z) : prog bool :=
  match fuel with
  | O => Crash OutOfFuel
  | S fuel' =>
      '(item_p, index_pair, c) ← Traverse fuel (Some value) (new_Context key);
      match item_p with
      | Some _ => Ret false
      | None =>
          n ← read (node_p (current_snapshot c));
          id ← read (node_id (current_snapshot c));
          a ← act ANew;
          index_pair ← read index_pair;
          ret ← InstallNodeToReplace id (LeafInsertNode a key value n index_pair) n;
          if (ret : bool) then Ret true else Insert fuel' key value
      end
  end.
Fixpoint Upsert (fuel : nat) (key new_value : Z) : prog bool :=
  match fuel with
  | O => Crash OutOfFuel
  | S fuel' =>
      '(item_p, index_pair, c) ← Traverse fuel (Some new_value) (new_Context key);
      n ← read (node_p (current_snapshot c));
      id ← read (node_id (current_snapshot c));
      a ← act ANew;
      index_pair ← read index_pair;
      match item_p with
      | Some item =>
          ret ← InstallNodeToReplace id (LeafUpdateNode a key item.2 new_value n index_pair) n;
          if (ret : bool) then Ret false else Upsert fuel' key new_value
      | None =>
          ret ← InstallNodeToReplace id (LeafInsertNode a key new_value n index_pair) n;
          if (ret : bool) then Ret true else Upsert fuel' key new_value
      end
  end.
Fixpoint Delete (fuel : nat) (key value : Z) : prog bool :=
  match fuel with
  | O => Crash OutOfFuel
  | S fuel' =>
      '(item_p, index_pair, c) ← Traverse fuel (Some value) (new_Context key);
      match item_p with
      | None => Ret false
      | Some item =>
          n ← read (node_p (current_snapshot c));
          id ← read (node_id (current_snapshot c));
          a ← act ANew;
          index_pair ← read index_pair;
          ret ← InstallNodeToReplace id (LeafDeleteNode a key item.2 n index_pair) n;
          if (ret : bool) then Ret true else Delete fuel' key value
      end
  end.
Definition GetValue (fuel : nat) (search_key : Z) : prog (list Z) := TraverseReadOptimized fuel (new_Context search_key).
End Tree.
