(* ===== verification/BwLogic.v ===== *)
(** * Interleavings of BwTree operations

    The step relation of any number of threads that insert, upsert and look up in one tree,
    interleaved at their accesses to shared memory; the atomic object the tree is to
    implement; and a program logic in the rely-guarantee style that connects the two: a
    weakest precondition over programs and a ghost state, in which a thread may assume of
    the others what each of them guarantees. *)

From S2P Require Import Prelude BwSets BwNode BwLeaf BwInner BwTree.

(** ** The atomic object

    Its state is a map.  An operation takes effect at one moment between its invocation and
    its response; one that changes nothing may answer for any map that was current in
    between. *)
Inductive op : Type := OpInsert (key value : Z) | OpUpsert (key value : Z) | OpGetValue (key : Z).
Inductive res : Type := RBool (b : bool) | RValues (l : list Z).
Definition op_key (o : op) : Z := match o with OpInsert k _ | OpUpsert k _ | OpGetValue k => k end.
Definition apply_op (o : op) (m : gmap Z Z) : gmap Z Z * res :=
  match o with
  | OpInsert k v => match m !! k with Some _ => (m, RBool false) | None => (<[k := v]> m, RBool true) end
  | OpUpsert k v => (<[k := v]> m, RBool (bool_decide (m !! k = None)))
  | OpGetValue k => (m, RValues (match m !! k with Some v => [v] | None => [] end))
  end.
Inductive progress : Type := Waiting (seen : list (gmap Z Z)) | Committed (r : res).
Record spec : Type := mkSpec { content : gmap Z Z; pending : gmap nat (op * progress) }.
Inductive event : Type := Invoke (n : nat) (o : op) | Respond (n : nat) (r : res).

Definition see (m : gmap Z Z) (p : op * progress) : op * progress :=
  (p.1, match p.2 with Waiting seen => Waiting (m :: seen) | Committed r => Committed r end).
Definition commit (n : nat) (o : op) (s : spec) : spec :=
  let '(m, r) := apply_op o (content s) in mkSpec m (<[n := (o, Committed r)]> (see m <$> pending s)).
(** A waiting operation has seen the current map. *)
Definition current_seen (s : spec) : Prop := forall n o seen, pending s !! n = Some (o, Waiting seen) -> content s ∈ seen.
(** The answer [r] is right for [o]. *)
Definition justified (o : op) (p : progress) (r : res) : Prop :=
  match p with
  | Committed r' => r = r'
  | Waiting seen => exists m, m ∈ seen /\ apply_op o m = (m, r)
  end.
Inductive spec_step : spec -> list event -> spec -> Prop :=
  | spec_invoke s n o : pending s !! n = None ->
      spec_step s [Invoke n o] (mkSpec (content s) (<[n := (o, Waiting [content s])]> (pending s)))
  | spec_commit s n o seen : pending s !! n = Some (o, Waiting seen) -> spec_step s [] (commit n o s)
  | spec_respond s n o p r : pending s !! n = Some (o, p) -> justified o p r ->
      spec_step s [Respond n r] (mkSpec (content s) (delete n (pending s))).
Inductive spec_steps : spec -> list event -> spec -> Prop :=
  | spec_refl s : spec_steps s [] s
  | spec_trans s1 tr1 s2 tr2 s3 : spec_step s1 tr1 s2 -> spec_steps s2 tr2 s3 -> spec_steps s1 (tr1 ++ tr2) s3.

(** ** Threads *)
Section Threads.
Context (key_hash : Z -> Z).
Definition run_op (fuel : nat) (o : op) : prog res :=
  match o with
  | OpInsert k v => b ← Insert key_hash fuel k v; Ret (RBool b)
  | OpUpsert k v => b ← Upsert key_hash fuel k v; Ret (RBool b)
  | OpGetValue k => l ← GetValue key_hash fuel k; Ret (RValues l)
  end.
Record config : Type := mkConfig { shared : BwTree; threads : gmap nat (op * prog res) }.
(** [KeyType] is unsigned. *)
Definition valid_op (o : op) : Prop := 0 <= op_key o.
Inductive step : config -> list event -> config -> Prop :=
  | step_invoke c n o fuel : threads c !! n = None -> valid_op o ->
      step c [Invoke n o] (mkConfig (shared c) (<[n := (o, run_op fuel o)]> (threads c)))
  | step_access c n o a k : threads c !! n = Some (o, Act a k) ->
      step c [] (mkConfig (exec a (shared c)).1 (<[n := (o, k (exec a (shared c)).2)]> (threads c)))
  | step_respond c n o r : threads c !! n = Some (o, Ret r) ->
      step c [Respond n r] (mkConfig (shared c) (delete n (threads c))).
(** No depth counter, a [short], has overflowed. *)
Definition depths_fit (s : BwTree) : Prop := map_Forall (fun _ n => 0 <= GetDepth n) (mapping_table s).
Inductive steps : config -> list event -> config -> Prop :=
  | steps_refl c : steps c [] c
  | steps_trans c1 tr1 c2 tr2 c3 : step c1 tr1 c2 -> depths_fit (shared c2) -> steps c2 tr2 c3 -> steps c1 (tr1 ++ tr2) c3.
Definition start : config := mkConfig new_BwTree ∅.
End Threads.

(** ** Ghost state

    What the proof knows: for an id its level and low key, for an address the id and the
    node published there, the ids and addresses a thread has drawn but not published, and
    the state of the atomic object. *)
Record ghost : Type := mkGhost {
  known : gmap Z (Z * Z);
  published : gmap Z (Z * BaseNode);
  drawn_ids : gmap Z (nat * option BaseNode);
  drawn_addresses : gmap Z nat;
  spec_of : spec }.
Definition set_known (x : gmap Z (Z * Z)) (g : ghost) : ghost := mkGhost x (published g) (drawn_ids g) (drawn_addresses g) (spec_of g).
Definition set_spec (x : spec) (g : ghost) : ghost := mkGhost (known g) (published g) (drawn_ids g) (drawn_addresses g) x.
Definition set_ids (x : gmap Z (nat * option BaseNode)) (g : ghost) : ghost := mkGhost (known g) (published g) x (drawn_addresses g) (spec_of g).
Definition set_addresses (x : gmap Z nat) (g : ghost) : ghost := mkGhost (known g) (published g) (drawn_ids g) x (spec_of g).

(** The maps seen by an operation only grow in number. *)
Definition progress_le (p p' : op * progress) : Prop :=
  p'.1 = p.1 /\ match p.2 with Waiting seen => exists more, p'.2 = Waiting (more ++ seen) | Committed r => p'.2 = Committed r end.
Record rely (n : nat) (g g' : ghost) : Prop := {
  rely_known : known g ⊆ known g';
  rely_published : published g ⊆ published g';
  rely_ids : forall id c, drawn_ids g !! id = Some (n, c) -> drawn_ids g' !! id = Some (n, c);
  rely_addresses : forall a, drawn_addresses g !! a = Some n -> drawn_addresses g' !! a = Some n;
  rely_pending : forall p, pending (spec_of g) !! n = Some p -> exists p', pending (spec_of g') !! n = Some p' /\ progress_le p p' }.
Record guar (n : nat) (g g' : ghost) : Prop := {
  guar_known : known g ⊆ known g';
  guar_published : published g ⊆ published g';
  guar_ids : forall id m c, m <> n -> drawn_ids g !! id = Some (m, c) -> drawn_ids g' !! id = Some (m, c);
  guar_addresses : forall a m, m <> n -> drawn_addresses g !! a = Some m -> drawn_addresses g' !! a = Some m;
  guar_spec : spec_of g' = spec_of g
    \/ exists o seen, pending (spec_of g) !! n = Some (o, Waiting seen) /\ spec_of g' = commit n o (spec_of g) }.

#[export] Instance progress_le_preorder : PreOrder progress_le.
Proof.
  split.
  - intros [o [l|r]]; split; simpl; [done|by exists []|done|done].
  - intros [o [l|r]] [o2 p2] [o3 p3] [H1 H2] [H3 H4]; simpl in *; subst; split; simpl; try done.
    destruct H2 as [more ->]. destruct H4 as [more2 ->]. exists (more2 ++ more). by rewrite app_assoc.
Qed.
#[export] Instance rely_preorder n : PreOrder (rely n).
Proof.
  split.
  - intros g. split; try done. intros p Hp. exists p. by split.
  - intros g1 g2 g3 [] []. split; [by etrans|by etrans|by eauto|by eauto|].
    intros p Hp. destruct (rely_pending0 p Hp) as (p2 & Hp2 & Hle). destruct (rely_pending1 p2 Hp2) as (p3 & Hp3 & Hle3).
    exists p3. split; [done|by etrans].
Qed.
Lemma see_le m p : progress_le p (see m p).
Proof. destruct p as [o [l|r]]; split; simpl; try done. by exists [m]. Qed.
(** What one thread guarantees the others rely on. *)
Lemma guar_rely n m g g' : m <> n -> guar n g g' -> rely m g g'.
Proof.
  intros Hne [? ? Hi Ha Hs]. split; [done|done|by eauto|by eauto|]. intros p Hp. destruct Hs as [->|(o & seen & _ & ->)]; [by exists p|].
  unfold commit. destruct (apply_op o _) as [m' r]. simpl. exists (see m' p). rewrite lookup_insert_ne, lookup_fmap, Hp by done. split; [done|apply see_le].
Qed.
Lemma guar_refl n g : guar n g g.
Proof. split; try done. by left. Qed.

(** ** Weakest preconditions *)
Section Logic.
Context (Inv : ghost -> BwTree -> Prop).

(** Thread [n] runs [p] without a fault outside [E] and ends in [Q]; before each of its
    accesses the others may do what they guarantee. *)
Fixpoint wp {A} (n : nat) (E : fault -> Prop) (p : prog A) (Q : ghost -> A -> Prop) (g : ghost) : Prop :=
  match p with
  | Ret x => Q g x
  | Crash f => E f
  | Act a k => forall g1 s, rely n g g1 -> Inv g1 s -> depths_fit (exec a s).1 ->
      exists g2, guar n g1 g2 /\ Inv g2 (exec a s).1 /\ wp n E (k (exec a s).2) Q g2
  end.
Definition stable {A} (n : nat) (Q : ghost -> A -> Prop) : Prop := forall g g' x, rely n g g' -> Q g x -> Q g' x.

Lemma wp_bind {A B} n E (p : prog A) (f : A -> prog B) Q g :
  wp n E p (fun g x => wp n E (f x) Q g) g -> wp n E (p ≫= f) Q g.
Proof.
  revert g. induction p as [x|e|a k IH]; intros g; [done|done|]. intros H g1 s Hr Hi Hd.
  destruct (H g1 s Hr Hi Hd) as (g2 & Hg & Hi2 & Hw). exists g2. split_and!; [done|done|]. by apply IH.
Qed.
Lemma wp_mono {A} n E (p : prog A) (Q Q' : ghost -> A -> Prop) g : (forall g x, Q g x -> Q' g x) -> wp n E p Q g -> wp n E p Q' g.
Proof.
  intros HQ. revert g. induction p as [x|e|a k IH]; intros g; [apply HQ|done|]. intros H g1 s Hr Hi Hd.
  destruct (H g1 s Hr Hi Hd) as (g2 & Hg & Hi2 & Hw). exists g2. split_and!; [done|done|]. by apply IH.
Qed.
Lemma wp_stable {A} n E (p : prog A) (Q : ghost -> A -> Prop) g g' : stable n Q -> rely n g g' -> wp n E p Q g -> wp n E p Q g'.
Proof.
  intros HQ Hr. destruct p as [x|e|a k]; [by apply HQ|done|]. intros H g1 s Hr1. apply H. by etrans.
Qed.
(** The rule of consequence for a call: what the callee establishes suffices for the rest. *)
Lemma wp_call {A B} n E (p : prog A) (f : A -> prog B) Q Q' g :
  wp n E p Q' g -> (forall g x, Q' g x -> wp n E (f x) Q g) -> wp n E (p ≫= f) Q g.
Proof. intros Hp Hf. apply wp_bind. eapply wp_mono; [|exact Hp]. exact Hf. Qed.
(** One access. *)
Lemma wp_act {A} n E a (f : answer a -> prog A) Q g :
  (forall g1 s, rely n g g1 -> Inv g1 s -> depths_fit (exec a s).1 ->
     exists g2, guar n g1 g2 /\ Inv g2 (exec a s).1 /\ wp n E (f (exec a s).2) Q g2) ->
  wp n E (act a ≫= f) Q g.
Proof. done. Qed.

(** ** From the logic to the step relation *)
Context (key_hash : Z -> Z) (allowed : op -> fault -> Prop).
Definition answers (n : nat) (g : ghost) (r : res) : Prop :=
  exists o p, pending (spec_of g) !! n = Some (o, p) /\ justified o p r.
Lemma answers_stable n : stable n (answers n).
Proof.
  intros g g' r Hr (o & p & Hp & Hj). destruct (rely_pending _ _ _ Hr _ Hp) as ([o' p'] & Hp' & He & Hle). simpl in *. subst o'.
  exists o, p'. split; [done|]. destruct p as [seen|r']; simpl in *; [|by subst]. destruct Hle as [more ->]. destruct Hj as (m & Hm & Ha).
  exists m. split; [|done]. apply elem_of_app. by right.
Qed.
Hypothesis inv_seen : forall g s, Inv g s -> current_seen (spec_of g).
Hypothesis inv_pending : forall g s P, Inv g s -> current_seen (mkSpec (content (spec_of g)) P) ->
  Inv (set_spec (mkSpec (content (spec_of g)) P) g) s.
Hypothesis op_ok : forall n o fuel g seen, valid_op o -> pending (spec_of g) !! n = Some (o, Waiting seen) ->
  wp n (allowed o) (run_op key_hash fuel o) (answers n) g.

Record simulates (c : config) (g : ghost) : Prop := {
  sim_inv : Inv g (shared c);
  sim_idle : forall n, threads c !! n = None <-> pending (spec_of g) !! n = None;
  sim_op : forall n o p, threads c !! n = Some (o, p) -> exists pr, pending (spec_of g) !! n = Some (o, pr);
  sim_wp : forall n o p, threads c !! n = Some (o, p) -> wp n (allowed o) p (answers n) g }.

Lemma rely_other n g P : (forall p, pending (spec_of g) !! n = Some p -> P !! n = Some p) ->
  rely n g (set_spec (mkSpec (content (spec_of g)) P) g).
Proof. intros HP. split; try done. intros p Hp. exists p. by split; [apply HP|]. Qed.
Lemma simulates_step c tr c' g : simulates c g -> step key_hash c tr c' -> depths_fit (shared c') ->
  exists g', simulates c' g' /\ spec_steps (spec_of g) tr (spec_of g').
Proof.
  intros [Hi Hidle Hop Hwp] Hstep Hfit. destruct Hstep as [c n o fuel Hn Hv|c n o a k Hn|c n o r Hn].
  - set (P := <[n := (o, Waiting [content (spec_of g)])]> (pending (spec_of g))). pose proof (proj1 (Hidle n) Hn) as Hpn.
    exists (set_spec (mkSpec (content (spec_of g)) P) g). split; [|rewrite <- (app_nil_r [_]); eapply spec_trans; [by apply spec_invoke|constructor]].
    pose proof (inv_seen _ _ Hi) as Hseen. split; simpl; [apply inv_pending; [done|]| | |].
    + intros m o' seen. simpl. unfold P. intros [[<- [= <- <-]]|[_ Hm]]%lookup_insert_Some; [by left|by eapply Hseen].
    + intros m. unfold P. destruct (decide (m = n)) as [->|]; [by rewrite !lookup_insert_eq|by rewrite !lookup_insert_ne].
    + intros m o' p. unfold P. destruct (decide (m = n)) as [->|]; [rewrite !lookup_insert_eq; intros [= <- _]; eauto|rewrite !lookup_insert_ne by done; apply Hop].
    + intros m o' p. destruct (decide (m = n)) as [->|Hne].
      * rewrite lookup_insert_eq. intros [= <- <-]. apply (op_ok _ _ _ _ [content (spec_of g)]); [done|simpl; unfold P; by rewrite lookup_insert_eq].
      * rewrite lookup_insert_ne by done. intros Hm. eapply wp_stable; [apply answers_stable| |by apply Hwp]. apply rely_other.
        intros p' Hp'. unfold P. by rewrite lookup_insert_ne.
  - destruct (Hwp n o _ Hn g (shared c)) as (g2 & Hg & Hi2 & Hw2); [done|done|done|].
    assert (Hkeep : forall m, m <> n -> (pending (spec_of g) !! m = None <-> pending (spec_of g2) !! m = None)
              /\ forall o' pr, pending (spec_of g) !! m = Some (o', pr) -> exists pr', pending (spec_of g2) !! m = Some (o', pr')).
    { intros m Hne. destruct (guar_spec _ _ _ Hg) as [->|(o2 & seen & _ & ->)]; [split; [done|eauto]|]. unfold commit. destruct (apply_op o2 _) as [m' r]. simpl.
      rewrite lookup_insert_ne, lookup_fmap, fmap_None by done. split; [done|]. intros o' pr ->. simpl. unfold see. eauto. }
    assert (Hself : exists pr, pending (spec_of g2) !! n = Some (o, pr)).
    { destruct (Hop n o _ Hn) as [pr Hpr]. destruct (guar_spec _ _ _ Hg) as [->|(o2 & seen & Hs & ->)]; [eauto|]. unfold commit. destruct (apply_op o2 _) as [m' r]. simpl.
      rewrite lookup_insert_eq. rewrite Hs in Hpr. injection Hpr as -> _. eauto. }
    exists g2. split.
    + split; simpl; [done| | |].
      * intros m. destruct (decide (m = n)) as [->|Hne]; [rewrite lookup_insert_eq; destruct Hself as [? ->]; done|]. rewrite lookup_insert_ne by done.
        rewrite Hidle. by apply Hkeep.
      * intros m o' p. destruct (decide (m = n)) as [->|Hne]; [rewrite lookup_insert_eq; by intros [= <- _]|]. rewrite lookup_insert_ne by done.
        intros Hm. destruct (Hop m o' p Hm) as [pr Hpr]. by eapply Hkeep.
      * intros m o' p. destruct (decide (m = n)) as [->|Hne]; [rewrite lookup_insert_eq; by intros [= <- <-]|]. rewrite lookup_insert_ne by done.
        intros Hm. eapply wp_stable; [apply answers_stable|by eapply guar_rely|by apply Hwp].
    + destruct (guar_spec _ _ _ Hg) as [->|(o2 & seen & Hs & ->)]; [constructor|]. rewrite <- (app_nil_r []). eapply spec_trans; [by eapply spec_commit|constructor].
  - destruct (Hwp n o _ Hn) as (o' & p & Hp & Hj). destruct (Hop n o _ Hn) as [pr Hpr]. rewrite Hpr in Hp. injection Hp as <- <-.
    set (P := delete n (pending (spec_of g))). exists (set_spec (mkSpec (content (spec_of g)) P) g).
    split; [|rewrite <- (app_nil_r [_]); eapply spec_trans; [by eapply spec_respond|constructor]].
    split; simpl; [apply inv_pending; [done|]| | |].
    + intros m o' seen. simpl. unfold P. intros [_ Hm]%lookup_delete_Some. by eapply (inv_seen _ _ Hi).
    + intros m. unfold P. destruct (decide (m = n)) as [->|]; [by rewrite !lookup_delete_eq|by rewrite !lookup_delete_ne].
    + intros m o' p. unfold P. intros [Hne Hm]%lookup_delete_Some. rewrite lookup_delete_ne by done. by eapply Hop.
    + intros m o' p [Hne Hm]%lookup_delete_Some. eapply wp_stable; [apply answers_stable| |by apply Hwp]. apply rely_other.
      intros p' Hp'. unfold P. by rewrite lookup_delete_ne.
Qed.
Lemma spec_steps_app s1 tr1 s2 tr2 s3 : spec_steps s1 tr1 s2 -> spec_steps s2 tr2 s3 -> spec_steps s1 (tr1 ++ tr2) s3.
Proof. induction 1; [done|]. intros. rewrite <- app_assoc. econstructor; [done|auto]. Qed.
Lemma simulates_steps c tr c' g : simulates c g -> steps key_hash c tr c' ->
  exists g', simulates c' g' /\ spec_steps (spec_of g) tr (spec_of g').
Proof.
  intros Hs Hsteps. revert g Hs. induction Hsteps as [c|c1 tr1 c2 tr2 c3 Hst Hfit Hsts IH]; intros g Hs; [exists g; split; [done|constructor]|].
  destruct (simulates_step _ _ _ _ Hs Hst Hfit) as (g2 & Hs2 & Hp2). destruct (IH g2 Hs2) as (g3 & Hs3 & Hp3).
  exists g3. split; [done|]. by eapply spec_steps_app.
Qed.
End Logic.
