(* ===== verification/BwInv.v ===== *)
(** * The invariant of a BwTree that grows

    What holds of the mapping table between any two accesses of threads that insert, upsert
    and look up, and that each kind of publication preserves it: replacing a node by one
    with the same range, splitting a node, installing a new root. *)

From S2P Require Import Prelude BwSets BwNode BwLeaf BwInner BwTree BwLogic.

(** Nothing is removed, so there are no remove, merge or abort nodes. *)
Definition plain_top (p : BaseNode) : Prop :=
  match p with LeafRemove _ _ _ | InnerRemove _ _ _ | LeafMerge _ _ _ _ | InnerMerge _ _ _ _ | InnerAbort _ _ => False | _ => True end.
(** A node of a level with a low key; [G] tells level and low key of the ids that are known. *)
Record node_ok (G : gmap Z (Z * Z)) (lvl low : Z) (p : BaseNode) : Prop := {
  no_low : GetLowKey p = low;
  no_range : below (GetHighKeyPair p) low;
  no_next : GetNextNodeID p <> INVALID_NODE_ID -> G !! GetNextNodeID p = Some (lvl, GetHighKey p);
  no_size : low <> 0 -> 17 <= GetItemCount p;
  no_depth : GetDepth p < 32768;
  no_top : plain_top p;
  no_leaf : lvl = 0 -> leaf_ok p;
  no_inner : lvl <> 0 -> inner_ok p /\ points (fun k id => G !! id = Some (lvl - 1, k) /\ low <= k) p }.
Record Inv (g : ghost) (s : BwTree) : Prop := {
  inv_root : exists lvl, 0 < lvl /\ known g !! root_id s = Some (lvl, 0)
    /\ forall id lvl' low, known g !! id = Some (lvl', low) -> lvl' <= lvl;
  inv_table : forall id x, known g !! id = Some x -> exists p, mapping_table s !! id = Some p /\ published g !! address p = Some (id, p);
  inv_published : forall a id p, published g !! a = Some (id, p) ->
    address p = a /\ a < next_address s /\ exists lvl low, known g !! id = Some (lvl, low) /\ node_ok (known g) lvl low p;
  inv_known : forall id lvl low, known g !! id = Some (lvl, low) -> mapped id = true /\ 0 < id < next_unused_node_id s /\ 0 <= lvl /\ 0 <= low;
  inv_alone : forall id id' lvl low, known g !! id = Some (lvl, low) -> known g !! id' = Some (lvl, low) -> lvl = 0 \/ low = 0 -> id = id';
  inv_apart : forall id id' low low' p, known g !! id = Some (0, low) -> known g !! id' = Some (0, low') -> low < low' ->
    mapping_table s !! id = Some p -> GetNextNodeID p <> INVALID_NODE_ID /\ GetHighKey p <= low';
  inv_ids : forall id n c, drawn_ids g !! id = Some (n, c) -> 0 < id < next_unused_node_id s /\ known g !! id = None /\ mapping_table s !! id = c;
  inv_addresses : forall a n, drawn_addresses g !! a = Some n -> a < next_address s /\ published g !! a = None;
  inv_bound : 0 < next_unused_node_id s /\ forall id p, mapping_table s !! id = Some p -> id < next_unused_node_id s;
  inv_free : free_node_id_list s = [];
  inv_seen : current_seen (spec_of g);
  inv_content : forall id low p k, known g !! id = Some (0, low) -> mapping_table s !! id = Some p -> in_range p k ->
    content (spec_of g) !! k = leaf_map p !! k }.

Lemma node_ok_mono G G' lvl low p : G ⊆ G' -> node_ok G lvl low p -> node_ok G' lvl low p.
Proof.
  intros Hsub [? ? Hn ? ? ? ? Hi]. split; try done; [intros; eapply lookup_weaken; [by apply Hn|done]|].
  intros H. destruct (Hi H) as [? Hp]. split; [done|]. eapply points_mono; [|exact Hp]. intros k id [? ?]. split; [by eapply lookup_weaken|done].
Qed.
(** Leaves and inner nodes are told apart by their level. *)
Lemma leaf_ok_type p : leaf_ok p -> IsOnLeafDeltaChain p = true.
Proof. by destruct p. Qed.
Lemma inner_ok_type p : inner_ok p -> IsOnLeafDeltaChain p = false.
Proof. by destruct p. Qed.
Lemma node_ok_level G lvl low p : node_ok G lvl low p -> IsOnLeafDeltaChain p = bool_decide (lvl = 0).
Proof.
  intros H. case_bool_decide as Hl; [by apply leaf_ok_type, (no_leaf _ _ _ _ H)|by apply inner_ok_type, (no_inner _ _ _ _ H)].
Qed.
Lemma node_ok_depth G lvl low p : node_ok G lvl low p -> 0 <= GetDepth p.
Proof.
  intros H. destruct (decide (lvl = 0)) as [Hl|Hl]; [by apply leaf_depth, (no_leaf _ _ _ _ H)|by apply inner_depth, (no_inner _ _ _ _ H)].
Qed.
(** A published node is the one its address says. *)
Lemma cas_node g s id p q x : Inv g s -> known g !! id = Some x -> published g !! address q = Some (id, q) ->
  mapping_table s !! id = Some p -> same_node p q = true -> p = q.
Proof.
  intros HI Hk Hq Hp He. unfold same_node in He. apply Z.eqb_eq in He. destruct (inv_table _ _ HI _ _ Hk) as (p' & Hp' & Hpub).
  rewrite Hp in Hp'. injection Hp' as <-. rewrite He, Hq in Hpub. by injection Hpub as ->.
Qed.

(** ** Publications *)
Definition publish (id : Z) (p : BaseNode) (g : ghost) : ghost :=
  mkGhost (known g) (<[address p := (id, p)]> (published g)) (drawn_ids g) (delete (address p) (drawn_addresses g)) (spec_of g).
(** A node is replaced by one with the same range. *)
Lemma inv_replace g s id lvl low old new sp n : Inv g s -> known g !! id = Some (lvl, low) -> mapping_table s !! id = Some old ->
  drawn_addresses g !! address new = Some n -> node_ok (known g) lvl low new -> GetHighKeyPair new = GetHighKeyPair old ->
  current_seen sp -> (lvl <> 0 -> content sp = content (spec_of g)) ->
  (lvl = 0 -> forall k, content sp !! k = if decide (in_range new k) then leaf_map new !! k else content (spec_of g) !! k) ->
  Inv (set_spec sp (publish id new g)) (set_table (<[id := new]> (mapping_table s)) s).
Proof.
  intros [Hroot Htab Hpub Hkn Halone Hapart Hids Haddr Hbound Hfree Hseen Hcont] Hid Hold Hnew Hok Hhigh Hsp Hsame Hchange.
  destruct (Haddr _ _ Hnew) as [Ha Hfresh].
  assert (Hother : forall i x p, known g !! i = Some x -> <[id := new]> (mapping_table s) !! i = Some p ->
    (i = id /\ p = new) \/ (i <> id /\ mapping_table s !! i = Some p)).
  { intros i x p _ [[<- <-]|[? ?]]%lookup_insert_Some; [by left|by right]. }
  split; simpl; try done.
  - intros i x Hi. destruct (decide (i = id)) as [->|Hne]; [exists new; by rewrite !lookup_insert_eq|]. destruct (Htab i x Hi) as (p & Hp & Hpp).
    exists p. rewrite lookup_insert_ne by done. split; [done|]. rewrite lookup_insert_ne; [done|]. intros He. rewrite <- He in Hpp. congruence.
  - intros a i p [[<- [= <- <-]]|[Hne Hp]]%lookup_insert_Some; [by split_and!; [..|exists lvl, low]|by apply Hpub].
  - intros i i' l l' p Hi Hi' Hlt Hp. destruct (Hother _ _ _ Hi Hp) as [[-> ->]|[? ?]]; [|by apply (Hapart i i' l l' p)].
    unfold GetNextNodeID, GetHighKey. rewrite Hhigh. by apply (Hapart id i' l l' old).
  - intros i m c Hi. destruct (Hids i m c Hi) as (? & Hn & ?). rewrite lookup_insert_ne by congruence. done.
  - intros a m [Hne Hd]%lookup_delete_Some. destruct (Haddr a m Hd). rewrite lookup_insert_ne by done. done.
  - split; [apply Hbound|]. intros i p [[<- <-]|[_ Hp]]%lookup_insert_Some; [by apply Hkn in Hid as (_ & [_ ?] & _)|by eapply Hbound].
  - intros i l p k Hi Hp Hr. destruct (decide (lvl = 0)) as [->|Hl].
    + rewrite Hchange by done. destruct (Hother _ _ _ Hi Hp) as [[-> ->]|[Hne Hp']]; [by rewrite decide_True|]. rewrite decide_False; [by eapply Hcont|].
      intros [Hr1 Hr2]. rewrite (no_low _ _ _ _ Hok) in Hr1. destruct Hr as [Hr3 Hr4].
      destruct (Htab _ _ Hi) as (p2 & Hp2 & Hpp). rewrite Hp' in Hp2. injection Hp2 as <-. destruct (Hpub _ _ _ Hpp) as (_ & _ & l1 & l2 & Hk2 & Hok2).
      rewrite Hi in Hk2. injection Hk2 as <- <-. rewrite (no_low _ _ _ _ Hok2) in Hr3. destruct (Z.lt_trichotomy l low) as [Hlt|[->|Hlt]].
      * destruct (Hapart i id l low p Hi Hid Hlt Hp') as [? ?]. destruct Hr4 as [?|?]; [done|]. unfold GetHighKey in *. lia.
      * apply Hne. eapply Halone; [done|done|by left].
      * destruct (Hapart id i low l old Hid Hi Hlt Hold) as [? ?]. rewrite Hhigh in Hr2. destruct Hr2 as [?|?]; [done|]. unfold GetHighKey in *. lia.
    + rewrite Hsame by done. destruct (Hother _ _ _ Hi Hp) as [[-> ->]|[Hne Hp']]; [|by eapply Hcont]. rewrite Hid in Hi. injection Hi as -> _. done.
Qed.

(** A node is split: the sibling, installed before, becomes known. *)
Definition publish_split (id : Z) (p : BaseNode) (new_id lvl k : Z) (sib : BaseNode) (g : ghost) : ghost :=
  mkGhost (<[new_id := (lvl, k)]> (known g)) (<[address p := (id, p)]> (<[address sib := (new_id, sib)]> (published g)))
    (delete new_id (drawn_ids g)) (delete (address p) (delete (address sib) (drawn_addresses g))) (spec_of g).
Lemma inv_split g s id lvl low old new new_id sib k n : Inv g s -> known g !! id = Some (lvl, low) -> mapping_table s !! id = Some old ->
  drawn_ids g !! new_id = Some (n, Some sib) -> mapped new_id = true ->
  drawn_addresses g !! address new = Some n -> drawn_addresses g !! address sib = Some n -> address new <> address sib ->
  node_ok (<[new_id := (lvl, k)]> (known g)) lvl low new -> node_ok (<[new_id := (lvl, k)]> (known g)) lvl k sib ->
  GetHighKeyPair new = (k, new_id) -> GetHighKeyPair sib = GetHighKeyPair old -> low < k -> below (GetHighKeyPair old) k ->
  (lvl = 0 -> leaf_map old = leaf_map new ∪ leaf_map sib /\ (forall k' v, leaf_map sib !! k' = Some v -> k <= k')
     /\ (forall k' v, leaf_map new !! k' = Some v -> k' < k)) ->
  Inv (publish_split id new new_id lvl k sib g) (set_table (<[id := new]> (mapping_table s)) s).
Proof.
  intros [Hroot Htab Hpub Hkn Halone Hapart Hids Haddr Hbound Hfree Hseen Hcont] Hid Hold Hdrawn Hmapped Hnew Hsib Hdiff Hokn Hoks Hhn Hhs Hlow Hbk Hmap.
  destruct (Haddr _ _ Hnew) as [Ha1 Hf1]. destruct (Haddr _ _ Hsib) as [Ha2 Hf2]. destruct (Hids _ _ _ Hdrawn) as (Hid1 & Hid2 & Hid3).
  destruct (Hkn _ _ _ Hid) as (Hm & Hid0 & Hlvl & Hl0). assert (Hne : new_id <> id) by congruence.
  assert (Hsub : known g ⊆ <[new_id := (lvl, k)]> (known g)) by (by apply insert_subseteq).
  assert (Hlook : forall i x, <[new_id := (lvl, k)]> (known g) !! i = Some x -> (i = new_id /\ x = (lvl, k)) \/ (i <> new_id /\ known g !! i = Some x)).
  { intros i x [[<- <-]|[? ?]]%lookup_insert_Some; [by left|by right]. }
  assert (Hnn : GetNextNodeID new = new_id /\ GetHighKey new = k) by (unfold GetNextNodeID, GetHighKey; by rewrite Hhn).
  assert (Hbetween : forall i l, known g !! i = Some (0, l) -> lvl = 0 -> low < l -> GetNextNodeID old <> INVALID_NODE_ID /\ GetHighKey old <= l).
  { intros i l Hi -> Hlt. by apply (Hapart id i low l old). }
  assert (Hkhigh : GetNextNodeID old <> INVALID_NODE_ID -> k < GetHighKey old) by (intros; destruct Hbk; [done|done]).
  assert (Hold' : forall i l, known g !! i = Some (0, l) -> lvl = 0 -> l <> k).
  { intros i l Hi H0 ->. destruct (Hbetween i k Hi H0 Hlow) as [H1 H2]. specialize (Hkhigh H1). lia. }
  split; simpl; try done.
  - destruct Hroot as (rl & ? & Hr & Hmax). exists rl. split_and!; [done|by eapply lookup_weaken|].
    intros i l' lo [[-> [= -> ->]]|[_ Hi]]%Hlook; [by eapply Hmax|by eapply Hmax].
  - intros i x [[-> ->]|[Hi1 Hi]]%Hlook.
    + exists sib. rewrite lookup_insert_ne by done. split; [done|]. by rewrite lookup_insert_ne, lookup_insert_eq.
    + destruct (decide (i = id)) as [->|Hin]; [exists new; by rewrite !lookup_insert_eq|]. destruct (Htab i x Hi) as (p & Hp & Hpp).
      exists p. rewrite lookup_insert_ne by done. split; [done|]. rewrite !lookup_insert_ne; [done| |]; intros He; rewrite <- He in Hpp; congruence.
  - intros a i p [[<- [= <- <-]]|[_ [[<- [= <- <-]]|[_ Hp]]%lookup_insert_Some]]%lookup_insert_Some.
    + split_and!; [done|done|]. exists lvl, low. split; [by eapply lookup_weaken|done].
    + split_and!; [done|done|]. exists lvl, k. by rewrite lookup_insert_eq.
    + destruct (Hpub _ _ _ Hp) as (? & ? & l1 & l2 & Hk & Hok). split_and!; [done|done|]. exists l1, l2. split; [by eapply lookup_weaken|by eapply node_ok_mono].
  - intros i l lo [[-> [= -> ->]]|[_ Hi]]%Hlook; [split_and!; [done|lia|lia|lia|lia]|by apply Hkn].
  - intros i i' l lo [[-> [= -> ->]]|[Hi1 Hi]]%Hlook [[-> He]|[Hi1' Hi']]%Hlook Hor.
    + done.
    + destruct Hor as [->| ->]; [by destruct (Hold' i' k Hi' eq_refl)|lia].
    + injection He as -> ->. destruct Hor as [->| ->]; [by destruct (Hold' i k Hi eq_refl)|lia].
    + by eapply Halone.
  - intros i i' l l' p Hi Hi' Hlt Hp.
    assert (Hi2 : (i' = new_id /\ l' = k /\ lvl = 0) \/ known g !! i' = Some (0, l')) by (apply Hlook in Hi' as [[-> [= <- ->]]|[_ ?]]; [by left|by right]).
    apply Hlook in Hi as [[-> [= <- ->]]|[Hi1 Hi]].
    + rewrite lookup_insert_ne in Hp by done. rewrite Hid3 in Hp. injection Hp as <-. destruct Hi2 as [(_ & -> & _)|Hi2]; [lia|].
      unfold GetNextNodeID, GetHighKey. rewrite Hhs. apply (Hbetween i' l' Hi2 eq_refl). lia.
    + apply lookup_insert_Some in Hp as [[<- <-]|[Hin Hp]].
      * rewrite Hid in Hi. injection Hi as -> ->. destruct Hnn as [-> ->]. split; [unfold INVALID_NODE_ID; lia|]. destruct Hi2 as [(_ & -> & _)|Hi2]; [lia|].
        destruct (Hbetween i' l' Hi2 eq_refl Hlt) as [H1 H2]. specialize (Hkhigh H1). lia.
      * destruct Hi2 as [(_ & -> & H0)|Hi2]; [|by apply (Hapart i i' l l' p)]. subst lvl.
        destruct (Z.lt_trichotomy l low) as [Hll|[->|Hll]]; [destruct (Hapart i id l low p Hi Hid Hll Hp); split; [done|lia]| |].
        -- destruct Hin. symmetry. eapply Halone; [exact Hi|exact Hid|by left].
        -- destruct (Hbetween i l Hi eq_refl Hll) as [H1 H2]. specialize (Hkhigh H1). lia.
  - intros i m c [Hin Hi]%lookup_delete_Some. destruct (Hids i m c Hi) as (? & Hkn' & ?). rewrite !lookup_insert_ne by congruence. done.
  - intros a m [Han [Has Hd]%lookup_delete_Some]%lookup_delete_Some. destruct (Haddr a m Hd). rewrite !lookup_insert_ne by done. done.
  - split; [apply Hbound|]. intros i p [[<- _]|[_ Hp]]%lookup_insert_Some; [lia|by eapply Hbound].
  - intros i l p k' Hi Hp Hr. apply Hlook in Hi as [[-> [= <- ->]]|[Hi1 Hi]].
    + rewrite lookup_insert_ne in Hp by done. rewrite Hid3 in Hp. injection Hp as <-. destruct Hr as [Hr1 Hr2]. rewrite (no_low _ _ _ _ Hoks) in Hr1. rewrite Hhs in Hr2.
      destruct (Hmap eq_refl) as (He & Hge & Hlt). rewrite (Hcont id low old k' Hid Hold).
      * rewrite He. rewrite lookup_union_r; [done|]. destruct (leaf_map new !! k') eqn:E; [|done]. specialize (Hlt _ _ E). lia.
      * destruct (Htab _ _ Hid) as (p2 & Hp2 & Hpp). rewrite Hold in Hp2. injection Hp2 as <-. destruct (Hpub _ _ _ Hpp) as (_ & _ & l1 & l2 & Hk2 & Hok2).
        rewrite Hid in Hk2. injection Hk2 as <- <-. split; [rewrite (no_low _ _ _ _ Hok2); lia|done].
    + apply lookup_insert_Some in Hp as [[<- <-]|[Hin Hp]]; [|by eapply Hcont]. rewrite Hid in Hi. injection Hi as -> ->. destruct Hr as [Hr1 Hr2].
      rewrite Hhn in Hr2. destruct Hr2 as [Hr2|Hr2]; [simpl in Hr2; unfold INVALID_NODE_ID in Hr2; lia|]. simpl in Hr2.
      destruct (Hmap eq_refl) as (He & Hge & Hlt). rewrite (Hcont id l old k' Hid Hold).
      * rewrite He. rewrite lookup_union_l; [done|]. destruct (leaf_map sib !! k') eqn:E; [|done]. specialize (Hge _ _ E). lia.
      * destruct (Htab _ _ Hid) as (p2 & Hp2 & Hpp). rewrite Hold in Hp2. injection Hp2 as <-. destruct (Hpub _ _ _ Hpp) as (_ & _ & l1 & l2 & Hk2 & Hok2).
        rewrite Hid in Hk2. injection Hk2 as <- <-. rewrite (no_low _ _ _ _ Hokn) in Hr1. split; [rewrite (no_low _ _ _ _ Hok2); lia|].
        destruct Hbk as [?|?]; [by left|right; lia].
Qed.

(** A new root above the old one. *)
Definition publish_root (id lvl : Z) (p : BaseNode) (g : ghost) : ghost :=
  mkGhost (<[id := (lvl, 0)]> (known g)) (<[address p := (id, p)]> (published g))
    (delete id (drawn_ids g)) (delete (address p) (drawn_addresses g)) (spec_of g).
Lemma inv_new_root g s lvl id p n : Inv g s -> known g !! root_id s = Some (lvl, 0) -> drawn_ids g !! id = Some (n, Some p) -> mapped id = true ->
  drawn_addresses g !! address p = Some n -> node_ok (<[id := (lvl + 1, 0)]> (known g)) (lvl + 1) 0 p ->
  Inv (publish_root id (lvl + 1) p g) (set_root id s).
Proof.
  intros [Hroot Htab Hpub Hkn Halone Hapart Hids Haddr Hbound Hfree Hseen Hcont] Hr Hdrawn Hmapped Hnew Hok.
  destruct (Haddr _ _ Hnew) as [Ha Hf]. destruct (Hids _ _ _ Hdrawn) as (Hid1 & Hid2 & Hid3).
  destruct Hroot as (rl & Hrl & Hr' & Hmax). rewrite Hr in Hr'. injection Hr' as <-.
  assert (Hsub : known g ⊆ <[id := (lvl + 1, 0)]> (known g)) by (by apply insert_subseteq).
  assert (Hlook : forall i x, <[id := (lvl + 1, 0)]> (known g) !! i = Some x -> (i = id /\ x = (lvl + 1, 0)) \/ (i <> id /\ known g !! i = Some x)).
  { intros i x [[<- <-]|[? ?]]%lookup_insert_Some; [by left|by right]. }
  assert (Hleaf : forall i l, <[id := (lvl + 1, 0)]> (known g) !! i = Some (0, l) -> known g !! i = Some (0, l)).
  { intros i l [[_ [= ? _]]|[_ ?]]%Hlook; [lia|done]. }
  split; simpl; try done.
  - exists (lvl + 1). split_and!; [lia|by rewrite lookup_insert_eq|]. intros i l' lo [[_ [= -> _]]|[_ Hi]]%Hlook; [lia|]. specialize (Hmax _ _ _ Hi). lia.
  - intros i x [[-> ->]|[Hi1 Hi]]%Hlook; [exists p; by rewrite lookup_insert_eq|]. destruct (Htab i x Hi) as (q & Hq & Hqq). exists q. split; [done|].
    rewrite lookup_insert_ne; [done|]. intros He. rewrite <- He in Hqq. congruence.
  - intros a i q [[<- [= <- <-]]|[_ Hq]]%lookup_insert_Some; [split_and!; [done|done|]; exists (lvl + 1), 0; by rewrite lookup_insert_eq|].
    destruct (Hpub _ _ _ Hq) as (? & ? & l1 & l2 & Hk & Hok2). split_and!; [done|done|]. exists l1, l2. split; [by eapply lookup_weaken|by eapply node_ok_mono].
  - intros i l lo [[-> [= -> ->]]|[_ Hi]]%Hlook; [split_and!; [done|lia|lia|lia|lia]|by apply Hkn].
  - intros i i' l lo [[-> [= -> ->]]|[Hi1 Hi]]%Hlook [[-> He]|[Hi1' Hi']]%Hlook Hor; [done|by specialize (Hmax _ _ _ Hi'); lia| |by eapply Halone].
    injection He as -> ->. specialize (Hmax _ _ _ Hi). lia.
  - intros i i' l l' q Hi%Hleaf Hi'%Hleaf Hlt Hq. by apply (Hapart i i' l l' q).
  - intros i m c [Hin Hi]%lookup_delete_Some. destruct (Hids i m c Hi) as (? & Hkn' & ?). rewrite lookup_insert_ne by congruence. done.
  - intros a m [Han Hd]%lookup_delete_Some. destruct (Haddr a m Hd). rewrite lookup_insert_ne by done. done.
  - intros i l q k Hi%Hleaf Hq Hrange. by apply (Hcont i l q).
Qed.
