(* ===== verification/BwWp.v ===== *)
(** * Rules for the accesses of the BwTree

    The weakest preconditions of the functions of [BwTree] under the invariant: first the
    accesses to shared memory, then consolidation, splitting and the completion of splits,
    then traversals.  What a thread knows of a snapshot survives whatever the others do. *)

From S2P Require Import Prelude BwSets BwNode BwLeaf BwInner BwTree BwLogic BwInv.

Abbreviation wpI := (wp Inv).

(** ** Knowledge *)
Record grows (n : nat) (g g' : ghost) : Prop := {
  gr_known : known g ⊆ known g';
  gr_published : published g ⊆ published g';
  gr_pending : forall p, pending (spec_of g) !! n = Some p -> exists p', pending (spec_of g') !! n = Some p' /\ progress_le p p' }.
Lemma rely_grows n g g' : rely n g g' -> grows n g g'.
Proof. by intros []. Qed.
#[export] Instance grows_preorder n : PreOrder (grows n).
Proof.
  split.
  - intros g. split; try done. intros p Hp. exists p. by split.
  - intros g1 g2 g3 [] []. split; [by etrans|by etrans|].
    intros p Hp. destruct (gr_pending0 p Hp) as (p2 & Hp2 & Hle). destruct (gr_pending1 p2 Hp2) as (p3 & Hp3 & Hle3).
    exists p3. split; [done|by etrans].
Qed.
(** The operation has not taken effect yet. *)
Definition waiting (n : nat) (o : op) (g : ghost) : Prop := exists seen, pending (spec_of g) !! n = Some (o, Waiting seen).
Lemma waiting_grows n o g g' : grows n g g' -> waiting n o g -> waiting n o g'.
Proof.
  intros Hg (seen & Hs). destruct (gr_pending _ _ _ Hg _ Hs) as ([o' p'] & Hp & He & more & Hm). simpl in *. subst. by exists (more ++ seen).
Qed.
(** A leaf that held, on its range, what the tree held at a moment since the invocation. *)
Definition live (n : nat) (g : ghost) (p : BaseNode) : Prop :=
  exists o seen m, pending (spec_of g) !! n = Some (o, Waiting seen) /\ m ∈ seen /\ forall k, in_range p k -> m !! k = leaf_map p !! k.
Lemma live_grows n g g' p : grows n g g' -> live n g p -> live n g' p.
Proof.
  intros Hg (o & seen & m & Hs & Hm & Hk). destruct (gr_pending _ _ _ Hg _ Hs) as ([o' p'] & Hp & He & more & Hmore). simpl in *. subst.
  exists o, (more ++ seen), m. split_and!; [done|apply elem_of_app; by right|done].
Qed.
Record snap (n : nat) (g : ghost) (id lvl low : Z) (p : BaseNode) : Prop := {
  sn_known : known g !! id = Some (lvl, low);
  sn_published : published g !! address p = Some (id, p);
  sn_ok : node_ok (known g) lvl low p;
  sn_live : lvl = 0 -> live n g p }.
Lemma snap_grows n g g' id lvl low p : grows n g g' -> snap n g id lvl low p -> snap n g' id lvl low p.
Proof.
  intros Hg [? ? ? Hl]. split; [eapply lookup_weaken; [done|apply Hg]|eapply lookup_weaken; [done|apply Hg]|eapply node_ok_mono; [apply Hg|done]|].
  intros H. eapply live_grows; [done|auto].
Qed.
Lemma known_grows n g g' id x : grows n g g' -> known g !! id = Some x -> known g' !! id = Some x.
Proof. intros Hg Hk. eapply lookup_weaken; [done|apply Hg]. Qed.

(** ** Accesses *)
Section Rules.
Context (n : nat) (E : fault -> Prop).
Context (E_unmapped : E Unmapped).

Lemma rely_same g g' : known g ⊆ known g' -> published g ⊆ published g' -> drawn_ids g' = drawn_ids g -> drawn_addresses g' = drawn_addresses g ->
  spec_of g' = spec_of g -> rely n g g'.
Proof. intros ? ? Hi Ha Hs. split; try done; [by rewrite Hi|by rewrite Ha|]. intros p Hp. exists p. rewrite Hs. by split. Qed.
(** No low key is negative, and one node of each level has the low key 0. *)
Definition leftmost_alone (g : ghost) : Prop :=
  (forall i l lo, known g !! i = Some (l, lo) -> 0 <= lo)
  /\ forall i i' l, known g !! i = Some (l, 0) -> known g !! i' = Some (l, 0) -> i = i'.
Lemma wp_GetNode {A} id lvl low (f : option BaseNode -> prog A) Q g : known g !! id = Some (lvl, low) ->
  (lvl = 0 -> exists o, waiting n o g) ->
  (forall g1 p, rely n g g1 -> snap n g1 id lvl low p -> leftmost_alone g1 -> wpI n E (f (Some p)) Q g1) -> wpI n E (GetNode id ≫= f) Q g.
Proof.
  intros Hk Hw Hf. unfold GetNode. destruct (mapped id); [|exact E_unmapped]. apply wp_act. intros g1 s Hr HI _. exists g1. simpl. split_and!; [apply guar_refl|done|].
  pose proof (known_grows _ _ _ _ _ (rely_grows _ _ _ Hr) Hk) as Hk1. destruct (inv_table _ _ HI _ _ Hk1) as (p & Hp & Hpub). rewrite Hp. apply Hf; [done| |].
  destruct (inv_published _ _ HI _ _ _ Hpub) as (_ & _ & l1 & l2 & Hk2 & Hok). rewrite Hk1 in Hk2. injection Hk2 as <- <-.
  2:{ split; [intros i l lo Hi; by apply (inv_known _ _ HI) in Hi as (_ & _ & _ & ?)|]. intros i i' l Hi Hi'. eapply (inv_alone _ _ HI); [done|done|by right]. }
  split; [done|done|done|]. intros ->. destruct (Hw eq_refl) as [o Ho]. destruct (waiting_grows _ _ _ _ (rely_grows _ _ _ Hr) Ho) as [seen Hs].
  exists o, seen, (content (spec_of g1)). split_and!; [done|by eapply (inv_seen _ _ HI)|]. intros k Hrk. by eapply (inv_content _ _ HI).
Qed.
Lemma wp_cas {A} id lvl low old new (f : bool -> prog A) Q g : snap n g id lvl low old ->
  (forall g1, rely n g g1 -> wpI n E (f false) Q g1) ->
  (forall g1 s, rely n g g1 -> Inv g1 s -> mapping_table s !! id = Some old -> depths_fit (set_table (<[id := new]> (mapping_table s)) s) ->
     exists g2, guar n g1 g2 /\ Inv g2 (set_table (<[id := new]> (mapping_table s)) s) /\ wpI n E (f true) Q g2) ->
  wpI n E (InstallNodeToReplace id new old ≫= f) Q g.
Proof.
  intros Hsn Hfail Hok. unfold InstallNodeToReplace. destruct (mapped id); [|exact E_unmapped]. apply wp_act. intros g1 s Hr HI Hd.
  pose proof (snap_grows _ _ _ _ _ _ _ (rely_grows _ _ _ Hr) Hsn) as [Hk Hp _ _]. destruct (inv_table _ _ HI _ _ Hk) as (p & Hpt & _).
  simpl in Hd |- *. rewrite Hpt in Hd |- *. simpl in Hd |- *. destruct (same_node p old) eqn:He.
  - pose proof (cas_node _ _ _ _ _ _ HI Hk Hp Hpt He) as ->. simpl in Hd |- *. apply Hok; done.
  - exists g1. split_and!; [apply guar_refl|done|by apply Hfail].
Qed.
Lemma wp_new {A} (f : Z -> prog A) Q g :
  (forall g1 a, rely n g g1 -> drawn_addresses g1 !! a = Some n -> (forall a', drawn_addresses g !! a' = Some n -> a' <> a) -> wpI n E (f a) Q g1) ->
  wpI n E (act ANew ≫= f) Q g.
Proof.
  intros Hf. apply wp_act. intros g1 s Hr HI _. simpl. set (a := next_address s).
  assert (Hfresh : forall a' m, drawn_addresses g1 !! a' = Some m -> a' <> a) by (intros a' m Ha%(inv_addresses _ _ HI); unfold a; lia).
  exists (set_addresses (<[a := n]> (drawn_addresses g1)) g1). split_and!.
  - split; try done; [|by left]. intros a' m Hm Ha'. simpl. rewrite lookup_insert_ne; [done|]. intros <-. by apply (Hfresh _ _ Ha').
  - destruct HI as [? ? Hpub ? ? ? ? Haddr ? ? ? ?]. split; simpl; try done.
    + intros b i p Hp. destruct (Hpub _ _ _ Hp) as (? & ? & ?). split_and!; [done|lia|done].
    + intros b m [[<- _]|[_ Hb]]%lookup_insert_Some; [split; [unfold a; lia|]|destruct (Haddr _ _ Hb); split; [lia|done]].
      destruct (published g1 !! a) as [[i p]|] eqn:Hp; [|done]. destruct (Hpub _ _ _ Hp) as (_ & ? & _). unfold a in *. lia.
  - apply Hf; simpl; [|by rewrite lookup_insert_eq|].
    + etrans; [exact Hr|]. split; simpl; try done; [|intros p Hp; by exists p].
      intros a' Ha'. rewrite lookup_insert_ne; [done|]. intros <-. by apply (Hfresh _ _ Ha').
    + intros a' Ha'. eapply Hfresh. eapply (rely_addresses _ _ _ Hr). done.
Qed.
Lemma wp_next_id {A} (f : Z -> prog A) Q g :
  (forall g1 id, rely n g g1 -> drawn_ids g1 !! id = Some (n, None) -> wpI n E (f id) Q g1) -> wpI n E (BwTree_GetNextNodeID ≫= f) Q g.
Proof.
  intros Hf. unfold BwTree_GetNextNodeID. apply wp_bind, wp_act. intros g1 s Hr HI _. exists g1. simpl. rewrite (inv_free _ _ HI). simpl.
  split_and!; [apply guar_refl|done|]. clear s HI. intros g2 s Hr2 HI _. simpl. set (id := next_unused_node_id s).
  assert (Hfresh : forall i m c, drawn_ids g2 !! i = Some (m, c) -> i <> id) by (intros i m c Hi%(inv_ids _ _ HI); unfold id; lia).
  exists (set_ids (<[id := (n, None)]> (drawn_ids g2)) g2). split_and!.
  - split; try done; [|by left]. intros i m c Hm Hi. simpl. rewrite lookup_insert_ne; [done|]. intros <-. by apply (Hfresh _ _ _ Hi).
  - destruct HI as [? ? ? Hkn ? ? Hids ? Hbound ? ? ?]. split; simpl; try done.
    + intros i l lo Hi. destruct (Hkn _ _ _ Hi) as (? & ? & ?). split_and!; [done|lia|lia|lia|lia].
    + intros i m c [[<- [= <- <-]]|[_ Hi]]%lookup_insert_Some.
      * destruct Hbound as [? Hb]. split_and!; [unfold id; lia|unfold id; lia| |].
        -- destruct (known g2 !! id) as [[l lo]|] eqn:Hk; [|done]. destruct (Hkn _ _ _ Hk) as (_ & ? & _). unfold id in *. lia.
        -- destruct (mapping_table s !! id) eqn:Ht; [|done]. specialize (Hb _ _ Ht). unfold id in *. lia.
      * destruct (Hids _ _ _ Hi) as (? & ? & ?). split_and!; [lia|lia|done|done].
    + destruct Hbound as [? Hb]. split; [lia|]. intros i p Hp. specialize (Hb i p Hp). lia.
  - apply Hf; simpl; [|by rewrite lookup_insert_eq]. etrans; [exact Hr|]. etrans; [exact Hr2|]. split; simpl; try done; [|intros p Hp; by exists p].
    intros i c Hi. rewrite lookup_insert_ne; [done|]. intros <-. by apply (Hfresh _ _ _ Hi).
Qed.
(** What is stored under an id of one's own only changes that. *)
Lemma wp_store {A} id c node (f : unit -> prog A) Q g : drawn_ids g !! id = Some (n, c) ->
  (forall g1, grows n g g1 -> drawn_ids g1 !! id = Some (n, Some node) -> (forall a, drawn_addresses g !! a = Some n -> drawn_addresses g1 !! a = Some n) ->
     mapped id = true -> wpI n E (f tt) Q g1) ->
  wpI n E (InstallNewNode id node ≫= f) Q g.
Proof.
  intros Hid Hf. unfold InstallNewNode. destruct (mapped id) eqn:Hm; [|exact E_unmapped]. apply wp_act. intros g1 s Hr HI _. simpl.
  pose proof (rely_ids _ _ _ Hr _ _ Hid) as Hid1.
  exists (set_ids (<[id := (n, Some node)]> (drawn_ids g1)) g1). split_and!.
  - split; try done; [|by left]. intros i m c' Hm' Hi. simpl. rewrite lookup_insert_ne; [done|]. intros <-. rewrite Hid1 in Hi. injection Hi as <- _. done.
  - destruct (inv_ids _ _ HI _ _ _ Hid1) as (Hb1 & Hk1 & Ht1). destruct HI as [? Htab ? Hkn ? Hapart Hids ? Hbound ? ? Hcont].
    assert (Hne : forall i x, known g1 !! i = Some x -> i <> id) by congruence. split; simpl; try done.
    + intros i x Hi. rewrite lookup_insert_ne by (symmetry; by eapply Hne). by eapply Htab.
    + intros i i' l l' p Hi Hi' Hl. rewrite lookup_insert_ne by (symmetry; by eapply Hne). intros Hp. by apply (Hapart i i' l l' p).
    + intros i m c' [[<- [= <- <-]]|[Hin Hi]]%lookup_insert_Some; [by rewrite lookup_insert_eq|]. rewrite lookup_insert_ne by done. by eapply Hids.
    + destruct Hbound as [? Hb]. split; [done|]. intros i p [[<- _]|[_ Hp]]%lookup_insert_Some; [lia|by eapply Hb].
    + intros i l p k Hi. rewrite lookup_insert_ne by (symmetry; by eapply Hne). intros Hp Hrk. by apply (Hcont i l p).
  - apply Hf; simpl; [|by rewrite lookup_insert_eq| |done].
    + etrans; [by apply rely_grows|]. split; try done. intros p Hp. by exists p.
    + intros a Ha. by apply (rely_addresses _ _ _ Hr).
Qed.
Lemma wp_load_root {A} (f : Z -> prog A) Q g :
  (forall g1 id lvl, rely n g g1 -> 0 < lvl -> known g1 !! id = Some (lvl, 0) -> wpI n E (f id) Q g1) -> wpI n E (act ALoadRoot ≫= f) Q g.
Proof.
  intros Hf. apply wp_act. intros g1 s Hr HI _. exists g1. simpl. split_and!; [apply guar_refl|done|].
  destruct (inv_root _ _ HI) as (lvl & ? & Hk & _). by eapply Hf.
Qed.
Lemma wp_garbage {A} node (f : unit -> prog A) Q g :
  (forall g1, rely n g g1 -> wpI n E (f tt) Q g1) -> wpI n E (AddGarbageNode node ≫= f) Q g.
Proof.
  intros Hf. apply wp_act. intros g1 s Hr HI _. exists g1. simpl. split_and!; [apply guar_refl| |by apply Hf]. by destruct HI.
Qed.
End Rules.

(** ** Publishing *)
Lemma grows_publish n g id p sp : published g !! address p = None ->
  (forall q, pending (spec_of g) !! n = Some q -> exists q', pending sp !! n = Some q' /\ progress_le q q') ->
  grows n g (set_spec sp (publish id p g)).
Proof. intros Hf Hsp. split; simpl; [done|by apply insert_subseteq|done]. Qed.
Lemma guar_publish n g id p sp : published g !! address p = None -> drawn_addresses g !! address p = Some n ->
  (sp = spec_of g \/ exists o seen, pending (spec_of g) !! n = Some (o, Waiting seen) /\ sp = commit n o (spec_of g)) ->
  guar n g (set_spec sp (publish id p g)).
Proof.
  intros Hf Ha Hsp. split; simpl; [done|by apply insert_subseteq|done| |done]. intros a m Hm Hd. rewrite lookup_delete_ne; [done|]. intros <-. congruence.
Qed.
(** A node that agrees with a good one in range, size and kind. *)
Lemma node_ok_same G lvl low p q : node_ok G lvl low p -> GetLowKeyPair q = GetLowKeyPair p -> GetHighKeyPair q = GetHighKeyPair p ->
  GetItemCount p <= GetItemCount q -> GetDepth q < 32768 -> plain_top q -> (lvl = 0 -> leaf_ok q) ->
  (lvl <> 0 -> inner_ok q /\ points (fun k id => G !! id = Some (lvl - 1, k) /\ low <= k) q) -> node_ok G lvl low q.
Proof.
  intros [? ? ? Hs ? ? ? ?] Hl Hh Hc Hd Ht Hle Hin. unfold GetLowKey, GetNextNodeID, GetHighKey in *. split; unfold GetLowKey, GetNextNodeID, GetHighKey; rewrite ?Hl, ?Hh; try done.
  intros H0. specialize (Hs H0). lia.
Qed.
Lemma live_same n g p q : GetLowKeyPair q = GetLowKeyPair p -> GetHighKeyPair q = GetHighKeyPair p -> leaf_map q = leaf_map p -> live n g p -> live n g q.
Proof.
  intros Hl Hh Hm (o & seen & m & Hs & Hin & Hk). exists o, seen, m. split_and!; [done|done|]. intros k Hr. rewrite Hm. apply Hk.
  unfold in_range, GetLowKey in *. by rewrite <- Hl, <- Hh.
Qed.

Section Functions.
Context (key_hash : Z -> Z) (n : nat) (E : fault -> Prop).
Context (E_unmapped : E Unmapped) (E_fuel : E OutOfFuel).

(** The current map on the range of a leaf that is in the table. *)
Lemma content_of g s id low p : Inv g s -> known g !! id = Some (0, low) -> mapping_table s !! id = Some p ->
  forall k, content (spec_of g) !! k = if decide (in_range p k) then leaf_map p !! k else content (spec_of g) !! k.
Proof. intros HI Hk Hp k. case_decide; [by eapply (inv_content _ _ HI)|done]. Qed.

(** ** Consolidation *)
Definition consolidated (p q : BaseNode) : Prop :=
  GetLowKeyPair q = GetLowKeyPair p /\ GetHighKeyPair q = GetHighKeyPair p /\ leaf_map q = leaf_map p.
Lemma wp_install_consolidated id lvl low p q g : snap n g id lvl low p -> drawn_addresses g !! address q = Some n ->
  node_ok (known g) lvl low q -> consolidated p q ->
  wpI n E (install_consolidated (mkSnapshot (Some id) (Some p)) p q)
    (fun g' s' => grows n g g' /\ exists p', s' = mkSnapshot (Some id) (Some p') /\ snap n g' id lvl low p') g.
Proof.
  intros Hsn Ha Hok (Hl & Hh & Hm). unfold install_consolidated. cbn [node_id read mbind prog_bind prog_bind_def].
  eapply (wp_cas n E E_unmapped id lvl low p q); [done| |].
  - intros g1 Hr. apply wp_garbage. intros g2 Hr2. cbn. assert (Hg : grows n g g2) by (etrans; by apply rely_grows).
    split; [done|]. exists p. split; [done|]. by eapply snap_grows.
  - intros g1 s Hr HI Ht Hd. pose proof (snap_grows _ _ _ _ _ _ _ (rely_grows _ _ _ Hr) Hsn) as Hsn1. pose proof (rely_addresses _ _ _ Hr _ Ha) as Ha1.
    destruct (inv_addresses _ _ HI _ _ Ha1) as [_ Hf]. pose proof (node_ok_mono _ _ _ _ _ (rely_known _ _ _ Hr) Hok) as Hok1.
    assert (Hg2 : grows n g1 (set_spec (spec_of g1) (publish id q g1))) by (apply grows_publish; [done|intros x Hx; by exists x]).
    exists (set_spec (spec_of g1) (publish id q g1)). split_and!.
    + apply guar_publish; [done|done|by left].
    + eapply (inv_replace g1 s id lvl low p q); try done; [apply Hsn1|apply (inv_seen _ _ HI)|]. intros ->. intros k.
      rewrite (content_of g1 s id low p HI (sn_known _ _ _ _ _ _ Hsn1) Ht k) at 1. unfold in_range, GetLowKey. by rewrite Hl, Hh, Hm.
    + apply wp_garbage. intros g3 Hr3. cbn. assert (Hg : grows n g g3) by (etrans; [by apply rely_grows|]; etrans; [exact Hg2|by apply rely_grows]).
      split; [done|]. exists q. split; [done|]. eapply snap_grows; [by apply rely_grows|]. split; simpl; [apply Hsn1|by rewrite lookup_insert_eq|done|].
      intros H0. apply (live_grows _ _ _ _ Hg2). eapply live_same; [done..|]. by apply Hsn1.
Qed.
Lemma consolidate_leaf_ok G low p a : node_ok G 0 low p -> exists q, CollectAllValuesOnLeaf key_hash a p = Ok q /\ address q = a
  /\ node_ok G 0 low q /\ consolidated p q.
Proof.
  intros Hok. destruct (collect_all_ok key_hash a p (no_leaf _ _ _ _ Hok eq_refl)) as (items & Hrun & Hm & Hq). eexists. split_and!; [exact Hrun|done| |].
  - eapply node_ok_same; try done.
  - split_and!; [done|done|]. simpl. done.
Qed.
Lemma leaf_map_inner p : inner_ok p -> leaf_map p = ∅.
Proof. by destruct p. Qed.
Lemma consolidate_inner_ok G lvl low p a d : node_ok G lvl low p -> lvl <> 0 -> 0 <= d < 32768 -> exists q, CollectAllSepsOnInner a p d = Ok q /\ address q = a
  /\ node_ok G lvl low q /\ consolidated p q.
Proof.
  intros Hok Hl Hd. destruct (no_inner _ _ _ _ Hok Hl) as [Hin Hpt]. destruct (collect_seps_ok a p d Hin Hd) as (items & Hrun & Hm & Hq).
  eexists. split_and!; [exact Hrun|done| |].
  - eapply node_ok_same; try done; [unfold GetDepth; simpl; rewrite i16_depth; lia|]. intros _. split; [done|].
    cbn [points]. apply Forall_forall. intros [k id] Hx. eapply points_map in Hpt; [exact Hpt|done|]. rewrite <- Hm. apply list_map_lookup; [apply Hq|done].
  - split_and!; [done|done|]. by rewrite (leaf_map_inner p Hin).
Qed.
Lemma wp_ConsolidateNode id lvl low p g : snap n g id lvl low p ->
  wpI n E (ConsolidateNode key_hash (mkSnapshot (Some id) (Some p)))
    (fun g' s' => grows n g g' /\ exists p', s' = mkSnapshot (Some id) (Some p') /\ snap n g' id lvl low p') g.
Proof.
  intros Hsn. unfold ConsolidateNode. cbn [node_p read mbind prog_bind prog_bind_def]. rewrite (node_ok_level _ _ _ _ (sn_ok _ _ _ _ _ _ Hsn)).
  assert (Hpost : forall q g1, rely n g g1 -> drawn_addresses g1 !! address q = Some n -> node_ok (known g1) lvl low q -> consolidated p q ->
    wpI n E (install_consolidated (mkSnapshot (Some id) (Some p)) p q)
      (fun g' s' => grows n g g' /\ exists p', s' = mkSnapshot (Some id) (Some p') /\ snap n g' id lvl low p') g1).
  { intros q g1 Hr Ha Hok Hc. eapply wp_mono; [|eapply wp_install_consolidated; [eapply snap_grows; [by apply rely_grows|done]|done..]].
    intros g2 s [Hg Hs]. split; [etrans; [by apply rely_grows|done]|done]. }
  case_bool_decide as H0.
  - subst lvl. unfold ConsolidateLeafNode. cbn [node_p read mbind prog_bind prog_bind_def]. apply wp_new. intros g1 a Hr Ha _.
    pose proof (snap_grows _ _ _ _ _ _ _ (rely_grows _ _ _ Hr) Hsn) as Hsn1.
    destruct (consolidate_leaf_ok (known g1) low p a (sn_ok _ _ _ _ _ _ Hsn1)) as (q & -> & Haq & Hok & Hc).
    cbn [pure mbind prog_bind prog_bind_def]. apply Hpost; [done|by rewrite Haq|done|done].
  - unfold ConsolidateInnerNode. cbn [node_p read mbind prog_bind prog_bind_def]. apply wp_new. intros g1 a Hr Ha _.
    pose proof (snap_grows _ _ _ _ _ _ _ (rely_grows _ _ _ Hr) Hsn) as Hsn1.
    destruct (consolidate_inner_ok (known g1) lvl low p a 0 (sn_ok _ _ _ _ _ _ Hsn1) H0) as (q & -> & Haq & Hok & Hc); [lia|].
    cbn [pure mbind prog_bind prog_bind_def]. apply Hpost; [done|by rewrite Haq|done|done].
Qed.

(** ** What the context of a traversal is known to be

    A traversal that is read-optimised keeps no parent; one that is not has a parent above
    the root level, which is the invalid id if the node was reached as the root. *)
Context (ro : bool) (E_ro : ro = true -> E Uninitialised) (o : op) (key : Z).
Definition no_snapshot : NodeSnapshot := mkSnapshot None None.
Definition parent_ok (g : ghost) (lvl low id : Z) (s : NodeSnapshot) : Prop :=
  if ro then s = no_snapshot
  else (0 < lvl /\ node_id s = Some INVALID_NODE_ID)
    \/ exists pid plow pp, s = mkSnapshot (Some pid) (Some pp) /\ snap n g pid (lvl + 1) plow pp /\ plow <= low
         /\ (low = 0 -> GetLowKeyNodeID pp = id).
Definition at_node (g : ghost) (lvl : Z) (c : Context) : Prop :=
  exists id low p, current_snapshot c = mkSnapshot (Some id) (Some p) /\ snap n g id lvl low p /\ low <= key
    /\ parent_ok g lvl low id (parent_snapshot c).
Record state_ok (g : ghost) (lvl : Z) (c : Context) : Prop := {
  st_key : search_key c = key;
  st_ro : ro = true -> parent_snapshot c = no_snapshot;
  st_wait : waiting n o g;
  st_at : abort_flag c = false -> at_node g lvl c }.
Lemma parent_grows g g' lvl low id s : grows n g g' -> parent_ok g lvl low id s -> parent_ok g' lvl low id s.
Proof.
  unfold parent_ok. intros Hg. destruct ro; [done|]. intros [?|(pid & plow & pp & ? & ? & ? & ?)]; [by left|right].
  exists pid, plow, pp. split_and!; [done|by eapply snap_grows|done|done].
Qed.
Lemma state_grows g g' lvl c : grows n g g' -> state_ok g lvl c -> state_ok g' lvl c.
Proof.
  intros Hg [? ? ? Hat]. split; [done|done|by eapply waiting_grows|]. intros Ha. destruct (Hat Ha) as (id & low & p & ? & ? & ? & ?).
  exists id, low, p. split_and!; [done|by eapply snap_grows|done|by eapply parent_grows].
Qed.
Lemma state_abort g lvl lvl' c : state_ok g lvl c -> state_ok g lvl' (set_abort true c).
Proof. intros [? ? ? ?]. by split. Qed.
(** Another node under the same id. *)
Lemma state_node g lvl c id low p q : state_ok g lvl c -> current_snapshot c = mkSnapshot (Some id) (Some p) -> snap n g id lvl low p ->
  snap n g id lvl low q -> state_ok g lvl (set_current (mkSnapshot (Some id) (Some q)) c).
Proof.
  intros [? ? ? Hat] Hc Hp Hq. split; [done|done|done|]. intros Ha. destruct (Hat Ha) as (id' & low' & p' & Hc' & Hp' & ? & ?).
  rewrite Hc in Hc'. injection Hc' as <- <-. assert (low' = low) as -> by (pose proof (sn_known _ _ _ _ _ _ Hp); pose proof (sn_known _ _ _ _ _ _ Hp'); congruence).
  by exists id, low, q.
Qed.

Lemma wp_TryConsolidateNode g lvl c : state_ok g lvl c -> abort_flag c = false ->
  wpI n E (TryConsolidateNode key_hash c) (fun g' c' => state_ok g' lvl c' /\ abort_flag c' = false) g.
Proof.
  intros Hst Ha. destruct (st_at _ _ _ Hst Ha) as (id & low & p & Hc & Hsn & Hle & Hpar). unfold TryConsolidateNode. rewrite Hc. cbn [node_p read mbind prog_bind prog_bind_def].
  case_match; [done|]. case_match; [done|]. eapply wp_call; [by eapply wp_ConsolidateNode|]. intros g1 s [Hg (q & -> & Hq)]. split; [|done].
  eapply state_node; [by eapply state_grows|done|by eapply snap_grows|done].
Qed.

(** ** Splitting *)
Lemma leaf_split_full a m items : leaf_ok (Leaf m items) -> (64 <= length items)%nat ->
  exists sm x sib, Leaf_GetSplitSibling a (Leaf m items) = Ok (Some (Leaf sm (x :: sib))) /\ leaf_ok (Leaf sm (x :: sib)) /\ this sm = a
    /\ (low_key sm).1 = x.1 /\ high_key sm = high_key m /\ (low_key m).1 < x.1 /\ below (high_key m) x.1 /\ 32 <= item_count sm
    /\ forall b id, id <> INVALID_NODE_ID -> let left_p := LeafSplitNode b (x.1, id) (Leaf m items) (Leaf sm (x :: sib)) in
         leaf_ok left_p /\ leaf_map (Leaf m items) = leaf_map left_p ∪ leaf_map (Leaf sm (x :: sib))
         /\ (forall k v, leaf_map (Leaf sm (x :: sib)) !! k = Some v -> x.1 <= k) /\ (forall k v, leaf_map left_p !! k = Some v -> k < x.1)
         /\ 32 <= GetItemCount left_p.
Proof.
  intros Hok Hlen. destruct (leaf_split_ok a 0 1 m items Hok Hlen) as (sib & k & Hrun & Hs & Ht & Hlk & Hhk & Hk1 & Hk2 & Hfirst & _ & _ & _ & _ & _ & Hc & _ & Had); [done|].
  destruct sib as [sm its| | | | | | | | | | | | |]; try done. destruct its as [|x its]; [done|]. injection Hfirst as <-.
  exists sm, x, its. split_and!; try done. intros b id Hid. destruct (leaf_split_ok a b id m items Hok Hlen Hid)
    as (sib' & k' & Hrun' & _ & _ & _ & _ & _ & _ & Hfirst & Hl & Hm & H1 & H2 & H3 & _ & _).
  rewrite Hrun in Hrun'. injection Hrun' as <-. injection Hfirst as <-. by split_and!.
Qed.
Lemma guar_split g id p new_id lvl k sib : known g !! new_id = None -> published g !! address p = None -> published g !! address sib = None ->
  address p <> address sib -> (exists c, drawn_ids g !! new_id = Some (n, c)) -> drawn_addresses g !! address p = Some n -> drawn_addresses g !! address sib = Some n ->
  guar n g (publish_split id p new_id lvl k sib g) /\ grows n g (publish_split id p new_id lvl k sib g).
Proof.
  intros Hk Hp Hs Hne [c Hid] Ha Hb. assert (Hsub : published g ⊆ <[address p := (id, p)]> (<[address sib := (new_id, sib)]> (published g))).
  { etrans; [by apply insert_subseteq|]. apply insert_subseteq. by rewrite lookup_insert_ne. }
  split.
  - split; simpl; [by apply insert_subseteq|done| | |by left].
    + intros i m c' Hm Hi. rewrite lookup_delete_ne; [done|]. intros <-. congruence.
    + intros a m Hm Hd. rewrite !lookup_delete_ne; [done| |]; intros <-; congruence.
  - split; simpl; [by apply insert_subseteq|done|]. intros q Hq. by exists q.
Qed.
(** Both halves of a split are published; the traversal starts again. *)
Lemma wp_publish_split {A} g id lvl low p q new_id k sib (f : bool -> prog A) Q : snap n g id lvl low p ->
  drawn_ids g !! new_id = Some (n, Some sib) -> mapped new_id = true ->
  drawn_addresses g !! address q = Some n -> drawn_addresses g !! address sib = Some n -> address q <> address sib ->
  (forall G, known g ⊆ G -> G !! new_id = Some (lvl, k) -> node_ok G lvl low q /\ node_ok G lvl k sib) ->
  GetHighKeyPair q = (k, new_id) -> GetHighKeyPair sib = GetHighKeyPair p -> low < k -> below (GetHighKeyPair p) k ->
  (lvl = 0 -> leaf_map p = leaf_map q ∪ leaf_map sib /\ (forall k' v, leaf_map sib !! k' = Some v -> k <= k')
     /\ (forall k' v, leaf_map q !! k' = Some v -> k' < k)) ->
  (forall g1, grows n g g1 -> wpI n E (f true) Q g1) -> (forall g1, grows n g g1 -> wpI n E (f false) Q g1) ->
  wpI n E (InstallNodeToReplace id q p ≫= f) Q g.
Proof.
  intros Hsn Hid Hm Hq Hs Hne Hok Hh1 Hh2 Hlk Hbk Hmap Ht Hf. eapply (wp_cas n E E_unmapped id lvl low p q); [done|intros g1 Hr; apply Hf; by apply rely_grows|].
  intros g1 s Hr HI Hp Hd. pose proof (snap_grows _ _ _ _ _ _ _ (rely_grows _ _ _ Hr) Hsn) as Hsn1.
  pose proof (rely_ids _ _ _ Hr _ _ Hid) as Hid1. pose proof (rely_addresses _ _ _ Hr _ Hq) as Hq1. pose proof (rely_addresses _ _ _ Hr _ Hs) as Hs1.
  destruct (inv_ids _ _ HI _ _ _ Hid1) as (_ & Hk1 & _). destruct (inv_addresses _ _ HI _ _ Hq1) as [_ Hf1]. destruct (inv_addresses _ _ HI _ _ Hs1) as [_ Hf2].
  destruct (guar_split g1 id q new_id lvl k sib) as [Hgu Hgr]; try done; [by eexists|].
  destruct (Hok (<[new_id := (lvl, k)]> (known g1))) as [Hokq Hoks]; [|by rewrite lookup_insert_eq|].
  { etrans; [apply Hr|]. by apply insert_subseteq. }
  exists (publish_split id q new_id lvl k sib g1). split_and!; [done| |apply Ht; etrans; [by apply rely_grows|done]].
  eapply (inv_split g1 s id lvl low p); try done. apply Hsn1.
Qed.

Lemma wp_split_leaf g c id low p : state_ok g 0 c -> abort_flag c = false -> current_snapshot c = mkSnapshot (Some id) (Some p) -> snap n g id 0 low p ->
  IsDeltaNode p = false -> 64 <= GetItemCount p -> wpI n E (split_leaf c id p) (fun g' c' => state_ok g' 0 c') g.
Proof.
  intros Hst Ha Hc Hsn Hd Hsize. pose proof (sn_ok _ _ _ _ _ _ Hsn) as Hok. pose proof (no_leaf _ _ _ _ Hok eq_refl) as Hleaf.
  destruct p as [m items| | | | | | | | | | | | |]; try done. pose proof Hleaf as (_ & _ & _ & Hcnt).
  unfold split_leaf. apply wp_new. intros g1 a Hr1 Ha1 _.
  destruct (leaf_split_full a m items Hleaf) as (sm & x & sib & Hrun & Hs & Hth & Hlk & Hhk & Hk1 & Hk2 & Hs32 & Hleft); [unfold GetItemCount in Hsize; simpl in Hsize; lia|].
  rewrite Hrun. cbn [pure mbind prog_bind prog_bind_def]. change (array_get (x :: sib) 0) with (Ok x). cbn [pure mbind prog_bind prog_bind_def].
  apply wp_next_id. intros g2 nid Hr2 Hid2. apply wp_new. intros g3 b Hr3 Hb3 Hfresh. set (q := LeafSplitNode b (x.1, nid) (Leaf m items) (Leaf sm (x :: sib))).
  pose proof (rely_addresses _ _ _ Hr2 _ Ha1) as Ha2. pose proof (Hfresh a Ha2) as Hab.
  eapply (wp_store n E E_unmapped nid None); [by apply (rely_ids _ _ _ Hr3)|]. intros g4 Hg4 Hid4 Haddr Hmapped.
  assert (Hgr : grows n g g4) by (etrans; [apply rely_grows, Hr1|]; etrans; [apply rely_grows, Hr2|]; etrans; [apply rely_grows, Hr3|done]).
  pose proof (snap_grows _ _ _ _ _ _ _ Hgr Hsn) as Hsn4. pose proof (no_low _ _ _ _ Hok) as Hlow. unfold GetLowKey, GetLowKeyPair in Hlow. cbn [metadata] in Hlow.
  destruct (decide (nid = INVALID_NODE_ID)) as [->|Hnid].
  { eapply wp_cas; [done|exact Hsn4|intros g5 Hr5|intros g5 s Hr5 HI]; [|pose proof (rely_ids _ _ _ Hr5 _ _ Hid4) as Hx; apply (inv_ids _ _ HI) in Hx as [? _]; unfold INVALID_NODE_ID in *; lia].
    apply wp_new. intros g6 ? Hr6 _ _. apply wp_garbage. intros g7 Hr7. apply wp_garbage. intros g8 Hr8.
    eapply state_grows; [|exact Hst]. etrans; [exact Hgr|]. do 3 (etrans; [apply rely_grows; eassumption|]). by apply rely_grows. }
  destruct (Hleft b nid Hnid) as (Hql & Hmap & Hge & Hlt & Hq32). fold q in Hql, Hmap, Hlt, Hq32.
  eapply (wp_publish_split g4 id 0 low (Leaf m items) q nid x.1 (Leaf sm (x :: sib))); try done.
  - apply Haddr. exact Hb3.
  - apply Haddr. unfold address. cbn [metadata]. rewrite Hth. by apply (rely_addresses _ _ _ Hr3).
  - unfold q, address. cbn. rewrite Hth. done.
  - intros G Hsub HG. pose proof (node_ok_mono _ _ _ _ _ Hsub (sn_ok _ _ _ _ _ _ Hsn4)) as HokG. split.
    + split; try done; [right; simpl; lia|intros _; lia|]. destruct Hql as (_ & _ & _ & _ & _ & _ & Hdq & _). assert (GetDepth q = 0) as -> by exact Hdq. lia.
    + split; try done.
      * unfold GetHighKeyPair. cbn [metadata]. by rewrite Hhk.
      * unfold GetNextNodeID, GetHighKey, GetHighKeyPair. cbn [metadata]. rewrite Hhk. apply (no_next _ _ _ _ HokG).
      * intros _. unfold GetItemCount. cbn [metadata]. lia.
      * destruct Hs as (_ & _ & Hds & _). unfold GetDepth. cbn [metadata]. lia.
  - lia.
  - intros g5 Hg5. eapply state_abort, state_grows; [|exact Hst]. by etrans.
  - intros g5 Hg5. apply wp_new. intros g6 ? Hr6 _ _. apply wp_garbage. intros g7 Hr7. apply wp_garbage. intros g8 Hr8.
    eapply state_grows; [|exact Hst]. etrans; [exact Hgr|]. etrans; [exact Hg5|]. do 2 (etrans; [apply rely_grows; eassumption|]). by apply rely_grows.
Qed.
Lemma wp_split_inner g lvl c id low p : lvl <> 0 -> state_ok g lvl c -> abort_flag c = false -> current_snapshot c = mkSnapshot (Some id) (Some p) ->
  snap n g id lvl low p -> (exists m items, p = Inner m items /\ (64 <= length items)%nat) -> wpI n E (split_inner c id p) (fun g' c' => state_ok g' lvl c') g.
Proof.
  intros Hlvl Hst Ha Hc Hsn (m & items & -> & Hsize). pose proof (sn_ok _ _ _ _ _ _ Hsn) as Hok. destruct (no_inner _ _ _ _ Hok Hlvl) as [Hin Hpt].
  unfold split_inner. apply wp_new. intros g1 a Hr1 Ha1 _. pose proof (no_depth _ _ _ _ Hok) as Hdep. unfold GetDepth in Hdep. cbn [metadata] in Hdep.
  destruct (inner_split_ok a 0 1 m items Hin Hsize) as (sm & x & sib & Hrun & Hs & Hlk & Hhk & Hth & Hds & Hsub & Hk1 & Hk2 & _ & _ & _ & Hs32 & _); [done|done|].
  rewrite Hrun. cbn [pure mbind prog_bind prog_bind_def]. change (array_get (x :: sib) 0) with (Ok x). cbn [pure mbind prog_bind prog_bind_def].
  assert (HKx : forall y, y ∈ x :: sib -> known g !! y.2 = Some (lvl - 1, y.1)).
  { intros y Hy%Hsub. cbn [points] in Hpt. rewrite Forall_forall in Hpt. by apply Hpt. }
  eapply (wp_GetNode n E E_unmapped x.2 (lvl - 1) x.1).
  { eapply known_grows; [by apply rely_grows|]. apply HKx. left. }
  { intros _. exists o. eapply waiting_grows; [by apply rely_grows|apply Hst]. }
  intros g2 child Hr2 _ _. cbn [deref mbind prog_bind prog_bind_def]. destruct (IsRemoveNode child).
  { apply wp_garbage. intros g3 Hr3. eapply state_grows; [|exact Hst]. do 2 (etrans; [apply rely_grows; eassumption|]). by apply rely_grows. }
  apply wp_next_id. intros g3 nid Hr3 Hid3. apply wp_new. intros g4 b Hr4 Hb4 Hfresh.
  replace (GetLowKey (Inner sm (x :: sib))) with x.1 by (unfold GetLowKey, GetLowKeyPair; cbn [metadata]; by rewrite Hlk).
  set (q := InnerSplitNode b (x.1, nid) (Inner m items) (Inner sm (x :: sib))).
  pose proof (rely_addresses _ _ _ Hr3 _ (rely_addresses _ _ _ Hr2 _ Ha1)) as Ha3. pose proof (Hfresh a Ha3) as Hab.
  eapply (wp_store n E E_unmapped nid None); [by apply (rely_ids _ _ _ Hr4)|]. intros g5 Hg5 Hid5 Haddr Hmapped.
  assert (Hgr : grows n g g5).
  { etrans; [apply rely_grows, Hr1|]. etrans; [apply rely_grows, Hr2|]. etrans; [apply rely_grows, Hr3|]. etrans; [apply rely_grows, Hr4|done]. }
  pose proof (snap_grows _ _ _ _ _ _ _ Hgr Hsn) as Hsn5. pose proof (no_low _ _ _ _ Hok) as Hlow. unfold GetLowKey, GetLowKeyPair in Hlow. cbn [metadata] in Hlow.
  destruct (decide (nid = INVALID_NODE_ID)) as [->|Hnid].
  { eapply wp_cas; [done|exact Hsn5|intros g6 Hr6|intros g6 s Hr6 HI]; [|pose proof (rely_ids _ _ _ Hr6 _ _ Hid5) as Hx; apply (inv_ids _ _ HI) in Hx as [? _]; unfold INVALID_NODE_ID in *; lia].
    apply wp_new. intros g7 ? Hr7 _ _. apply wp_garbage. intros g8 Hr8. apply wp_garbage. intros g9 Hr9.
    eapply state_grows; [|exact Hst]. etrans; [exact Hgr|]. do 3 (etrans; [apply rely_grows; eassumption|]). by apply rely_grows. }
  destruct (inner_split_ok a b nid m items Hin Hsize Hnid) as (sm' & x' & sib' & Hrun' & _ & _ & _ & _ & _ & _ & _ & _ & Hql & Hmap & Hq32 & _ & _); [done|].
  rewrite Hrun in Hrun'. injection Hrun' as <- <- <-. fold q in Hql, Hmap, Hq32.
  eapply (wp_publish_split g5 id lvl low (Inner m items) q nid x.1 (Inner sm (x :: sib))); try done.
  - apply Haddr. exact Hb4.
  - apply Haddr. unfold address. cbn [metadata]. rewrite Hth. by apply (rely_addresses _ _ _ Hr4).
  - unfold q, address. cbn. rewrite Hth. done.
  - intros G Hsub' HG. pose proof (node_ok_mono _ _ _ _ _ Hsub' (sn_ok _ _ _ _ _ _ Hsn5)) as HokG. split.
    + split; try done; [right; simpl; lia|intros _; lia| |].
      * destruct Hql as (_ & _ & _ & _ & _ & _ & _ & Hdq & _). assert (GetDepth q = depth m) as -> by exact Hdq. lia.
      * intros _. split; [done|]. unfold q. cbn [InnerSplitNode points]. destruct (no_inner _ _ _ _ HokG Hlvl) as [_ HptG]. exact HptG.
    + split; try done.
      * unfold GetLowKey, GetLowKeyPair. cbn [metadata]. by rewrite Hlk.
      * unfold GetHighKeyPair. cbn [metadata]. by rewrite Hhk.
      * unfold GetNextNodeID, GetHighKey, GetHighKeyPair. cbn [metadata]. rewrite Hhk. apply (no_next _ _ _ _ HokG).
      * intros _. unfold GetItemCount. cbn [metadata]. lia.
      * unfold GetDepth. cbn [metadata]. lia.
      * intros _. split; [done|]. cbn [points]. apply Forall_forall. intros y Hy. split.
        -- eapply lookup_weaken; [|exact Hsub']. eapply known_grows; [exact Hgr|by apply HKx].
        -- destruct Hs as (Hss & _). apply elem_of_cons in Hy as [->|Hy]; [done|]. rewrite fmap_cons in Hss. apply StronglySorted_inv in Hss as [_ Hss].
           rewrite Forall_fmap, Forall_forall in Hss. specialize (Hss y Hy). simpl in Hss. lia.
  - lia.
  - intros g6 Hg6. eapply state_abort, state_grows; [|exact Hst]. by etrans.
  - intros g6 Hg6. apply wp_new. intros g7 ? Hr7 _ _. apply wp_garbage. intros g8 Hr8. apply wp_garbage. intros g9 Hr9.
    eapply state_grows; [|exact Hst]. etrans; [exact Hgr|]. etrans; [exact Hg6|]. do 2 (etrans; [apply rely_grows; eassumption|]). by apply rely_grows.
Qed.

(** A node that is too small is the leftmost one: nothing is removed. *)
Lemma wp_AdjustNodeSize g lvl c : 0 <= lvl -> state_ok g lvl c -> abort_flag c = false ->
  wpI n E (AdjustNodeSize c) (fun g' c' => state_ok g' lvl c') g.
Proof.
  intros Hlvl Hst Ha. destruct (st_at _ _ _ Hst Ha) as (id & low & p & Hc & Hsn & Hle & Hpar). pose proof (sn_ok _ _ _ _ _ _ Hsn) as Hok.
  unfold AdjustNodeSize. rewrite Hc. cbn [node_p node_id read mbind prog_bind prog_bind_def]. destruct (IsDeltaNode p) eqn:Hd; [done|].
  rewrite (node_ok_level _ _ _ _ Hok). unfold LEAF_NODE_SIZE_UPPER_THRESHOLD, LEAF_NODE_SIZE_LOWER_THRESHOLD, INNER_NODE_SIZE_UPPER_THRESHOLD, INNER_NODE_SIZE_LOWER_THRESHOLD.
  assert (Hleft : GetItemCount p <= 16 -> forall pid plow pp, parent_snapshot c = mkSnapshot (Some pid) (Some pp) -> snap n g pid (lvl + 1) plow pp ->
    (low = 0 -> GetLowKeyNodeID pp = id) -> (GetLowKeyNodeID pp =? id) = true).
  { intros Hsm pid plow pp _ _ Hlm. apply Z.eqb_eq, Hlm. destruct (decide (low = 0)); [done|]. pose proof (no_size _ _ _ _ Hok). lia. }
  case_bool_decide as H0.
  - subst lvl. destruct (Z.leb_spec 64 (GetItemCount p)); [by eapply wp_split_leaf|]. destruct (Z.leb_spec (GetItemCount p) 16) as [Hsm|]; [|done].
    unfold IsOnLeftMostChild. unfold parent_ok in Hpar. destruct ro eqn:Hro; [rewrite Hpar; cbn; by apply E_ro|].
    destruct Hpar as [[? _]|(pid & plow & pp & Hp & Hsp & _ & Hlm)]; [lia|]. rewrite Hp, Hc. cbn. by rewrite (Hleft Hsm pid plow pp Hp Hsp Hlm).
  - destruct (no_inner _ _ _ _ Hok H0) as [Hin _]. destruct p as [| | | | | | |m items| | | | | |]; try done. pose proof Hin as (_ & _ & _ & _ & Hcnt).
    assert (Hgs : GetItemCount (Inner m items) = GetSize items) by (unfold GetItemCount, GetSize; cbn [metadata]; done). rewrite <- Hgs.
    destruct (Z.leb_spec 64 (GetItemCount (Inner m items))) as [Hbig|]; [eapply wp_split_inner; try done; exists m, items; split; [done|]; unfold GetSize in *; lia|].
    destruct (Z.leb_spec (GetItemCount (Inner m items)) 16) as [Hsm|]; [|done]. unfold IsOnRootNode, IsOnLeftMostChild. unfold parent_ok in Hpar.
    destruct ro eqn:Hro; [rewrite Hpar; cbn; by apply E_ro|].
    destruct Hpar as [[_ Hp]|(pid & plow & pp & Hp & Hsp & _ & Hlm)]; [rewrite Hp; cbn; done|]. rewrite Hp, Hc. cbn.
    destruct (pid =? INVALID_NODE_ID); [done|]. cbn. by rewrite (Hleft Hsm pid plow pp Hp Hsp Hlm).
Qed.

(** ** The completion of splits *)
Lemma i16_no_overflow d : 0 <= d < 32768 -> 0 <= i16 (d + 1) -> d + 1 < 32768.
Proof. intros Hd Hi. destruct (decide (d = 32767)) as [->|]; [|lia]. vm_compute in Hi. by destruct Hi. Qed.
Lemma wp_PostInnerInsertNode g lvl c id low p pid plow pp item next : 0 <= lvl -> state_ok g lvl c -> ro = false -> abort_flag c = false ->
  current_snapshot c = mkSnapshot (Some id) (Some p) -> snap n g id lvl low p -> low <= key ->
  parent_snapshot c = mkSnapshot (Some pid) (Some pp) -> snap n g pid (lvl + 1) plow pp -> plow <= low -> (low = 0 -> GetLowKeyNodeID pp = id) ->
  known g !! item.2 = Some (lvl, item.1) -> plow < item.1 -> below (GetHighKeyPair pp) item.1 -> inner_map pp !! item.1 = None ->
  wpI n E (PostInnerInsertNode key_hash c item next (Z.of_nat (rank (inner_base pp item.1) item.1))) (fun g' x => state_ok g' lvl x.2) g.
Proof.
  intros Hlvl Hst Hro Ha Hc Hsn Hle Hp Hsp Hpl Hlm Hitem Hlt Hbel Hnone. unfold PostInnerInsertNode. rewrite Hp. cbn [node_p node_id read mbind prog_bind prog_bind_def].
  apply wp_new. intros g1 a Hr1 Ha1 _. set (q := InnerInsertNode a item next pp (Z.of_nat (rank (inner_base pp item.1) item.1))).
  eapply (wp_cas n E E_unmapped pid (lvl + 1) plow pp q); [eapply snap_grows; [by apply rely_grows|done]| |].
  { intros g2 Hr2. eapply state_abort, state_grows; [|exact Hst]. etrans; by apply rely_grows. }
  intros g2 s Hr2 HI Ht Hd. assert (Hg2 : grows n g g2) by (etrans; by apply rely_grows). pose proof (snap_grows _ _ _ _ _ _ _ Hg2 Hsp) as Hsp2.
  pose proof (sn_ok _ _ _ _ _ _ Hsp2) as Hok. destruct (no_inner _ _ _ _ Hok) as [Hin Hpt]; [lia|]. pose proof (inner_depth _ Hin) as Hdep. pose proof (no_depth _ _ _ _ Hok).
  assert (Hd' : GetDepth pp + 1 < 32768).
  { apply i16_no_overflow; [lia|]. specialize (Hd pid q). simpl in Hd. rewrite lookup_insert_eq in Hd. by specialize (Hd eq_refl). }
  assert (Hq : inner_ok q) by (apply inner_insert_ok; [done|rewrite (no_low _ _ _ _ Hok); done|done|done|done]).
  assert (Hokq : node_ok (known g2) (lvl + 1) plow q).
  { eapply node_ok_same; try done; [unfold q, InnerInsertNode, GetItemCount; simpl; lia|unfold q, GetDepth; simpl; rewrite i16_depth; lia|lia|].
    intros _. split; [done|]. unfold q. cbn [InnerInsertNode points]. split; [|done]. split; [|lia]. replace (lvl + 1 - 1) with lvl by lia. by eapply known_grows. }
  pose proof (rely_addresses _ _ _ Hr2 _ Ha1) as Ha2. change a with (address q) in Ha2. destruct (inv_addresses _ _ HI _ _ Ha2) as [_ Hf].
  assert (Hg3 : grows n g2 (set_spec (spec_of g2) (publish pid q g2))) by (apply grows_publish; [done|intros x Hx; by exists x]).
  exists (set_spec (spec_of g2) (publish pid q g2)). split_and!.
  - apply guar_publish; [done|done|by left].
  - eapply (inv_replace g2 s pid (lvl + 1) plow pp q); try done; [apply Hsp2|apply (inv_seen _ _ HI)|]. intros ?. lia.
  - assert (Hg : grows n g (set_spec (spec_of g2) (publish pid q g2))) by (by etrans). cbn [current_snapshot set_parent]. rewrite Hc.
    eapply wp_call; [eapply wp_ConsolidateNode; by eapply snap_grows|]. intros g4 s4 [Hg4 (p' & -> & Hp')]. cbn.
    pose proof (state_grows _ _ _ _ (transitivity Hg Hg4) Hst) as [Hk Hr Hw _]. split; cbn; [done|by rewrite Hro|done|]. intros _.
    exists id, low, p'. cbn. split_and!; [done|done|done|]. unfold parent_ok. rewrite Hro. right. exists pid, plow, q. split_and!; [done| |done|].
    + eapply snap_grows; [exact Hg4|]. split; simpl; [apply Hsp2|by rewrite lookup_insert_eq|done|lia].
    + intros H0. rewrite <- (Hlm H0). done.
Qed.
Lemma wp_cas_root {A} g id lvl low nid p (f : bool -> prog A) Q : known g !! id = Some (lvl, low) -> drawn_ids g !! nid = Some (n, Some p) -> mapped nid = true ->
  drawn_addresses g !! address p = Some n ->
  (low = 0 -> 0 < lvl -> forall G, known g ⊆ G -> node_ok G (lvl + 1) 0 p) -> (forall g1 b, grows n g g1 -> wpI n E (f b) Q g1) ->
  wpI n E (InstallRootNode id nid ≫= f) Q g.
Proof.
  intros Hid Hn Hm Ha Hok Hf. apply wp_act. intros g1 s Hr HI Hd. simpl. destruct (Z.eqb_spec (root_id s) id) as [He|].
  2:{ exists g1. split_and!; [apply guar_refl|done|apply Hf; by apply rely_grows]. }
  destruct (inv_root _ _ HI) as (rl & Hrl & Hroot & _). pose proof (rely_ids _ _ _ Hr _ _ Hn) as Hn1. pose proof (rely_addresses _ _ _ Hr _ Ha) as Ha1.
  destruct (inv_ids _ _ HI _ _ _ Hn1) as (_ & Hk1 & _). destruct (inv_addresses _ _ HI _ _ Ha1) as [_ Hf1].
  pose proof (known_grows _ _ _ _ _ (rely_grows _ _ _ Hr) Hid) as Hid1. rewrite He, Hid1 in Hroot. injection Hroot as -> ->.
  assert (Hsub : known g1 ⊆ <[nid := (rl + 1, 0)]> (known g1)) by (by apply insert_subseteq).
  exists (publish_root nid (rl + 1) p g1). split_and!; simpl.
  - split; simpl; [done|by apply insert_subseteq| | |by left].
    + intros i m c Hne Hi. rewrite lookup_delete_ne; [done|]. intros <-. congruence.
    + intros a m Hne Hi. rewrite lookup_delete_ne; [done|]. intros <-. congruence.
  - eapply inv_new_root; [done|by rewrite He|done|done|done|]. apply Hok; [done|done|]. etrans; [apply Hr|done].
  - apply Hf. etrans; [by apply rely_grows|]. split; simpl; [done|by apply insert_subseteq|]. intros q Hq. by exists q.
Qed.
Lemma new_root_items a x y h : (n1 ← WriteItem 0 x (Inner_Get a 0 2 x h); WriteItem 1 y n1) = Ok (Inner (new_meta a x h 0 2) [x; y]).
Proof. done. Qed.
Lemma wp_finish_split g lvl c id low p item next : 0 <= lvl -> state_ok g lvl c -> abort_flag c = false ->
  current_snapshot c = mkSnapshot (Some id) (Some p) -> snap n g id lvl low p -> low <= key -> parent_ok g lvl low id (parent_snapshot c) ->
  known g !! item.2 = Some (lvl, item.1) -> low < item.1 -> wpI n E (finish_split key_hash c item next) (fun g' c' => state_ok g' lvl c') g.
Proof.
  intros Hlvl Hst Ha Hc Hsn Hle Hpar Hitem Hlt. unfold finish_split, IsOnRootNode. unfold parent_ok in Hpar.
  destruct (Bool.bool_dec ro true) as [Hro|Hro%not_true_is_false]; rewrite Hro in Hpar; [rewrite Hpar; cbn; by apply E_ro|].
  assert (Hroot : wpI n E (id ← read (node_id (current_snapshot c));
    new_root_id ← BwTree_GetNextNodeID;
    a ← act ANew;
    inner_node_p ← pure (WriteItem 0 (0, id) (Inner_Get a 0 2 (0, id) (0, INVALID_NODE_ID)));
    inner_node_p ← pure (WriteItem 1 item inner_node_p);
    _ ← InstallNewNode new_root_id inner_node_p;
    ret ← InstallRootNode id new_root_id;
    if (ret : bool) then aborted c
    else
      a ← act ANew;
      _ ← AddGarbageNode (InnerRemoveNode a new_root_id inner_node_p);
      _ ← AddGarbageNode inner_node_p;
      aborted c) (fun g' c' => state_ok g' lvl c') g).
  { rewrite Hc. cbn [node_id read mbind prog_bind prog_bind_def]. apply wp_next_id. intros g1 nid Hr1 Hid1. apply wp_new. intros g2 a Hr2 Ha2 _.
    change (WriteItem 0 (0, id) (Inner_Get a 0 2 (0, id) (0, INVALID_NODE_ID))) with (Ok (Inner (new_meta a (0, id) (0, INVALID_NODE_ID) 0 2) [(0, id); (0, 0)])).
    cbn [pure mbind prog_bind prog_bind_def].
    change (WriteItem 1 item (Inner (new_meta a (0, id) (0, INVALID_NODE_ID) 0 2) [(0, id); (0, 0)])) with (Ok (Inner (new_meta a (0, id) (0, INVALID_NODE_ID) 0 2) [(0, id); item])).
    cbn [pure mbind prog_bind prog_bind_def]. set (q := Inner _ _). eapply (wp_store n E E_unmapped nid None); [by apply (rely_ids _ _ _ Hr2)|].
    intros g3 Hg3 Hid3 Haddr Hm. assert (Hg : grows n g g3) by (etrans; [by apply rely_grows|]; etrans; [by apply rely_grows|done]).
    eapply (wp_cas_root g3 id lvl low nid q); [eapply known_grows; [done|apply Hsn]|done|done|by apply Haddr| |].
    - intros -> Hl G Hsub. assert (HK1 : G !! id = Some (lvl, 0)) by (eapply lookup_weaken; [exact (known_grows _ _ _ _ _ Hg (sn_known _ _ _ _ _ _ Hsn))|done]).
      assert (HK2 : G !! item.2 = Some (lvl, item.1)) by (eapply lookup_weaken; [exact (known_grows _ _ _ _ _ Hg Hitem)|done]).
      split; try done; [by left|lia|]. intros _. split.
      + cbn [inner_ok q]. split_and!; [|done| |done|done]; cbn.
        * repeat constructor. done.
        * repeat constructor; by left.
      + cbn [points q]. replace (lvl + 1 - 1) with lvl by lia. constructor; [by split|]. constructor; [split; [done|lia]|constructor].
    - intros g4 b Hg4. destruct b; [eapply state_abort, state_grows; [|exact Hst]; by etrans|]. apply wp_new. intros g5 a' Hr5 _ _. apply wp_garbage. intros g6 Hr6. apply wp_garbage. intros g7 Hr7.
      eapply state_abort, state_grows; [|exact Hst]. etrans; [exact Hg|]. etrans; [exact Hg4|]. do 2 (etrans; [apply rely_grows; eassumption|]). by apply rely_grows. }
  destruct Hpar as [[_ Hp]|(pid & plow & pp & Hp & Hsp & Hpl & Hlm)]; [rewrite Hp; cbn [read mbind prog_bind prog_bind_def]; exact Hroot|].
  rewrite Hp. cbn [node_id read mbind prog_bind prog_bind_def]. destruct (pid =? INVALID_NODE_ID); [exact Hroot|]. clear Hroot. cbn [node_p read mbind prog_bind prog_bind_def].
  destruct (negb _ && _) eqn:Hhigh; [done|]. pose proof (sn_ok _ _ _ _ _ _ Hsp) as Hokp. destruct (no_inner _ _ _ _ Hokp) as [Hin _]; [lia|].
  assert (Hbel : below (GetHighKeyPair pp) item.1).
  { apply andb_false_iff in Hhigh as [Hx%negb_false_iff%Z.eqb_eq|Hx]; [by left|right]. unfold KeyCmpGreaterEqual, KeyCmpLess in Hx. apply negb_false_iff, Z.ltb_lt in Hx. done. }
  rewrite (FindSeparator_ok pp item.1 Hin) by (try done; rewrite (no_low _ _ _ _ Hokp); lia). cbn [pure mbind prog_bind prog_bind_def].
  destruct (inner_map pp !! item.1) as [found|] eqn:Hnone.
  - case_match; [by eapply state_abort|done].
  - eapply wp_call; [eapply (wp_PostInnerInsertNode g lvl c id low p pid plow pp item next); try done; lia|]. intros g1 [b c'] Hs. exact Hs.
Qed.
Lemma set_same_node c id p : current_snapshot c = mkSnapshot (Some id) (Some p) -> set_current (with_node p (current_snapshot c)) c = c.
Proof. destruct c as [k cur par ab]. simpl. by intros ->. Qed.
Lemma wp_FinishPartialSMO fuel g lvl c : 0 <= lvl -> state_ok g lvl c -> abort_flag c = false ->
  wpI n E (FinishPartialSMO key_hash fuel c) (fun g' c' => state_ok g' lvl c') g.
Proof.
  intros Hlvl Hst Ha. destruct fuel as [|fuel]; [exact E_fuel|]. destruct (st_at _ _ _ Hst Ha) as (id & low & p & Hc & Hsn & Hle & Hpar).
  pose proof (sn_ok _ _ _ _ _ _ Hsn) as Hok. pose proof (no_top _ _ _ _ Hok) as Htop. cbn [FinishPartialSMO]. rewrite Hc at 1. cbn [node_p read mbind prog_bind prog_bind_def]. cbv zeta.
  assert (Hskip : skip_abort p = p) by (by destruct p). rewrite Hskip, (set_same_node c id p Hc).
  assert (Hsplit : forall item child, (lvl = 0 -> leaf_ok p -> GetHighKeyPair p = item /\ item.2 <> INVALID_NODE_ID) -> (lvl <> 0 -> inner_ok p -> GetHighKeyPair p = item /\ item.2 <> INVALID_NODE_ID) ->
    wpI n E (finish_split key_hash c item (GetHighKeyPair child)) (fun g' c' => state_ok g' lvl c') g).
  { intros item child H1 H2. assert (Hi : GetHighKeyPair p = item /\ item.2 <> INVALID_NODE_ID).
    { destruct (decide (lvl = 0)) as [Hl|Hl]; [apply H1; [done|by apply (no_leaf _ _ _ _ Hok)]|apply H2; [done|by apply (no_inner _ _ _ _ Hok)]]. }
    destruct Hi as [Hi Hne]. pose proof (no_next _ _ _ _ Hok) as Hnx. pose proof (no_range _ _ _ _ Hok) as Hrg. unfold GetNextNodeID, GetHighKey in Hnx. rewrite Hi in Hnx, Hrg.
    eapply wp_finish_split; try done; [by apply Hnx|]. by destruct Hrg. }
  destruct p; try done; apply Hsplit; intros _ Hx; try done; destruct Hx as (_ & _ & _ & Hh & Hid & _); done.
Qed.

(** ** Loading nodes *)
Definition parent_pre (g : ghost) (lvl low : Z) (s : NodeSnapshot) : Prop :=
  if ro then s = no_snapshot
  else (0 < lvl /\ node_id s = Some INVALID_NODE_ID)
    \/ exists pid plow pp, s = mkSnapshot (Some pid) (Some pp) /\ snap n g pid (lvl + 1) plow pp /\ plow <= low.
Lemma parent_at_load g lvl low id s : 0 <= lvl -> leftmost_alone g -> known g !! id = Some (lvl, low) -> parent_pre g lvl low s -> parent_ok g lvl low id s.
Proof.
  intros Hlvl [H1 H2] Hid. unfold parent_pre, parent_ok. destruct ro; [done|]. intros [?|(pid & plow & pp & ? & Hsp & Hle)]; [by left|right].
  exists pid, plow, pp. split_and!; [done|done|done|]. intros ->. pose proof (H1 _ _ _ (sn_known _ _ _ _ _ _ Hsp)). pose proof (sn_ok _ _ _ _ _ _ Hsp) as Hok.
  destruct (no_inner _ _ _ _ Hok) as [Hin Hpt]; [lia|]. destruct (points_low _ _ Hin Hpt) as [Hk _]. rewrite (no_low _ _ _ _ Hok) in Hk.
  replace (lvl + 1 - 1) with lvl in Hk by lia. replace plow with 0 in Hk by lia. by eapply H2.
Qed.
Lemma parent_pre_grows g g' lvl low s : grows n g g' -> parent_pre g lvl low s -> parent_pre g' lvl low s.
Proof.
  unfold parent_pre. intros Hg. destruct ro; [done|]. intros [?|(pid & plow & pp & ? & ? & ?)]; [by left|right].
  exists pid, plow, pp. split_and!; [done|by eapply snap_grows|done].
Qed.
Lemma parent_ok_pre g lvl low low' id s : low <= low' -> parent_ok g lvl low id s -> parent_pre g lvl low' s.
Proof.
  unfold parent_pre, parent_ok. intros Hle. destruct ro; [done|]. intros [?|(pid & plow & pp & ? & ? & ? & _)]; [by left|right].
  exists pid, plow, pp. split_and!; [done|done|lia].
Qed.
(** A node is loaded under a parent. *)
Lemma wp_load g lvl id low c par : 0 <= lvl -> search_key c = key -> waiting n o g -> abort_flag c = false -> (ro = true -> par = no_snapshot) ->
  known g !! id = Some (lvl, low) -> low <= key -> parent_pre g lvl low par ->
  wpI n E (x ← GetNode id; nd ← deref x; Ret (set_current (mkSnapshot (Some id) (Some nd)) (set_parent par c)))
    (fun g' c' => state_ok g' lvl c' /\ abort_flag c' = false) g.
Proof.
  intros Hlvl Hk Hw Ha Hro Hid Hle Hpar. eapply (wp_GetNode n E E_unmapped id lvl low); [done|by exists o|]. intros g1 p Hr Hsn Hal. cbn. split; [|done].
  pose proof (rely_grows _ _ _ Hr) as Hg. split; cbn; [done|done|by eapply waiting_grows|]. intros _. exists id, low, p. cbn. split_and!; [done|done|done|].
  apply parent_at_load; [done|done|apply Hsn|by eapply parent_pre_grows].
Qed.
(** After the load: a split is completed, the chain consolidated, the size adjusted. *)
Lemma wp_after_load fuel g lvl (p : prog Context) : 0 <= lvl -> wpI n E p (fun g' c' => state_ok g' lvl c' /\ abort_flag c' = false) g ->
  wpI n E (c ← p; c ← FinishPartialSMO key_hash fuel c; if abort_flag c then Ret c else c ← TryConsolidateNode key_hash c; AdjustNodeSize c)
    (fun g' c' => state_ok g' lvl c') g.
Proof.
  intros Hlvl Hp. eapply wp_call; [exact Hp|]. intros g1 c1 [Hs1 Ha1]. eapply wp_call; [by apply (wp_FinishPartialSMO fuel g1 lvl)|]. intros g2 c2 Hs2.
  destruct (abort_flag c2) eqn:Ha2; [done|]. eapply wp_call; [by apply (wp_TryConsolidateNode g2 lvl)|]. intros g3 c3 [Hs3 Ha3]. by apply (wp_AdjustNodeSize g3 lvl).
Qed.
Lemma set_parent_same c : set_parent (parent_snapshot c) c = c.
Proof. by destruct c. Qed.
Lemma wp_JumpToNodeID fuel g lvl id low c : 0 <= lvl -> search_key c = key -> waiting n o g -> abort_flag c = false ->
  (ro = true -> parent_snapshot c = no_snapshot) -> known g !! id = Some (lvl, low) -> low <= key -> parent_pre g lvl low (parent_snapshot c) ->
  wpI n E (JumpToNodeID key_hash fuel id c) (fun g' c' => state_ok g' lvl c') g.
Proof.
  intros. apply wp_after_load; [done|]. pose proof (wp_load g lvl id low c (parent_snapshot c)) as Hx. rewrite set_parent_same in Hx. by apply Hx.
Qed.
Lemma wp_LoadNodeID fuel g lvl id low c : 0 <= lvl -> ro = false -> search_key c = key -> waiting n o g -> abort_flag c = false ->
  known g !! id = Some (lvl, low) -> low <= key -> parent_pre g lvl low (current_snapshot c) ->
  wpI n E (LoadNodeID key_hash fuel id c) (fun g' c' => state_ok g' lvl c') g.
Proof. intros Hlvl Hro. intros. apply wp_after_load; [done|]. eapply wp_load; try done. by rewrite Hro. Qed.

(** ** Navigation *)
Definition in_place (c : Context) : Prop := abort_flag c = false -> exists p, node_p (current_snapshot c) = Some p /\ in_range p key.
Lemma wp_NavigateSiblingChain fuel g lvl c : 0 <= lvl -> state_ok g lvl c -> abort_flag c = false ->
  wpI n E (NavigateSiblingChain key_hash fuel c) (fun g' c' => state_ok g' lvl c' /\ in_place c') g.
Proof.
  intros Hlvl. revert g c. induction fuel as [|fuel IH]; intros g c Hst Ha; [exact E_fuel|]. destruct (st_at _ _ _ Hst Ha) as (id & low & p & Hc & Hsn & Hle & Hpar).
  pose proof (sn_ok _ _ _ _ _ _ Hsn) as Hok. cbn [NavigateSiblingChain]. rewrite Hc at 1. cbn [node_p read mbind prog_bind prog_bind_def]. rewrite (st_key _ _ _ Hst).
  destruct (negb _ && _) eqn:Hcase.
  - apply andb_true_iff in Hcase as [Hn%negb_true_iff%Z.eqb_neq Hk]. unfold KeyCmpGreaterEqual, KeyCmpLess in Hk. apply negb_true_iff, Z.ltb_ge in Hk.
    pose proof (no_range _ _ _ _ Hok) as [?|Hrg]; [done|]. fold (GetHighKey p) in Hrg.
    eapply wp_call; [eapply (wp_JumpToNodeID (S fuel) g lvl (GetNextNodeID p) (GetHighKey p)); try done; [apply Hst|apply Hst|apply Hst|by apply (no_next _ _ _ _ Hok)|]|].
    + eapply parent_ok_pre; [|exact Hpar]. lia.
    + intros g1 c1 Hs1. destruct (abort_flag c1) eqn:Ha1; [|by apply IH]. split; [done|]. intros ?. congruence.
  - split; [done|]. intros _. exists p. rewrite Hc. split; [done|]. split; [by rewrite (no_low _ _ _ _ Hok)|].
    apply andb_false_iff in Hcase as [Hx%negb_false_iff%Z.eqb_eq|Hx]; [by left|right]. unfold KeyCmpGreaterEqual, KeyCmpLess in Hx. by apply negb_false_iff, Z.ltb_lt in Hx.
Qed.
Lemma wp_NavigateInnerNode fuel g lvl c : 0 < lvl -> state_ok g lvl c -> abort_flag c = false ->
  wpI n E (NavigateInnerNode key_hash fuel c)
    (fun g' x => state_ok g' lvl x.2 /\ (abort_flag x.2 = false -> exists low, known g' !! x.1 = Some (lvl - 1, low) /\ low <= key
       /\ exists pid plow pp, current_snapshot x.2 = mkSnapshot (Some pid) (Some pp) /\ snap n g' pid lvl plow pp /\ plow <= low)) g.
Proof.
  intros Hlvl Hst Ha. unfold NavigateInnerNode. eapply wp_call; [apply (wp_NavigateSiblingChain fuel g lvl); [lia|done|done]|]. intros g1 c1 [Hs1 Hin1].
  destruct (abort_flag c1) eqn:Ha1; [split; [done|]; cbn; intros ?; congruence|].
  destruct (st_at _ _ _ Hs1 Ha1) as (id & low & p & Hc & Hsn & Hle & Hpar). destruct (Hin1 Ha1) as (p' & Hp' & Hr). rewrite Hc in Hp' |- *. injection Hp' as <-.
  cbn [node_p read mbind prog_bind prog_bind_def]. pose proof (sn_ok _ _ _ _ _ _ Hsn) as Hok. destruct (no_inner _ _ _ _ Hok) as [Hino Hpt]; [lia|].
  rewrite (st_key _ _ _ Hs1). destruct (NavigateInner_points (fun k id => known g1 !! id = Some (lvl - 1, k) /\ low <= k) p key) as (cid & k & -> & [HK1 HK2] & Hk);
    [intros k k' i [H1 _] [H2 _]; congruence|done|done|done|].
  cbn. split; [done|]. intros _. exists k. split_and!; [done|done|]. by exists id, low, p.
Qed.
Lemma state_relevel g lvl lvl' c : abort_flag c = true -> state_ok g lvl c -> state_ok g lvl' c.
Proof. intros Ha [? ? ? ?]. split; try done. congruence. Qed.
Lemma level_leaf g lvl c : state_ok g lvl c -> abort_flag c = false -> exists p, node_p (current_snapshot c) = Some p /\ IsOnLeafDeltaChain p = bool_decide (lvl = 0).
Proof.
  intros Hst Ha. destruct (st_at _ _ _ Hst Ha) as (id & low & p & Hc & Hsn & _). exists p. rewrite Hc. split; [done|]. by eapply node_ok_level, sn_ok.
Qed.
Lemma wp_descend fuel : ro = false -> forall g lvl c, 0 < lvl -> state_ok g lvl c -> abort_flag c = false ->
  wpI n E (descend key_hash fuel c) (fun g' c' => state_ok g' 0 c') g.
Proof.
  intros Hro. induction fuel as [|fuel IH]; intros g lvl c Hlvl Hst Ha; [exact E_fuel|]. cbn [descend]. eapply wp_call; [by eapply wp_NavigateInnerNode|].
  intros g1 [cid c1] [Hs1 Hn1]. cbn [fst snd] in *. destruct (abort_flag c1) eqn:Ha1; [by eapply state_relevel|].
  destruct (Hn1 eq_refl) as (low & Hk & Hle & pid & plow & pp & Hc & Hsp & Hpl).
  eapply wp_call; [eapply (wp_LoadNodeID (S fuel) g1 (lvl - 1) cid low); try done; [lia|apply Hs1|apply Hs1|]|].
  { unfold parent_pre. rewrite Hro. right. exists pid, plow, pp. replace (lvl - 1 + 1) with lvl by lia. done. }
  intros g2 c2 Hs2. cbn beta in Hs2. destruct (abort_flag c2) eqn:Ha2; [by eapply state_relevel|]. destruct (level_leaf _ _ _ Hs2 Ha2) as (p & Hp & Hlf).
  unfold IsLeafLevel. rewrite Hp. cbn [read mbind prog_bind prog_bind_def]. rewrite Hlf. case_bool_decide as H0; [by rewrite <- H0|]. eapply IH; [|done|done]. lia.
Qed.

(** ** Traversals *)

(** A leaf in charge of the key, with the position a lookup found. *)
Definition found_in (g : ghost) (c : Context) (item : option KeyValuePair) (index_pair : option (Z * bool)) : Prop :=
  exists id low p ip, current_snapshot c = mkSnapshot (Some id) (Some p) /\ snap n g id 0 low p /\ in_range p key
    /\ item = pair key <$> leaf_map p !! key /\ index_pair = Some ip /\ index_ok (branch_base p key) key ip.
Lemma wp_NavigateLeafNode fuel g c : state_ok g 0 c -> abort_flag c = false ->
  wpI n E (NavigateLeafNode key_hash fuel c) (fun g' x => state_ok g' 0 x.2 /\ (abort_flag x.2 = false -> found_in g' x.2 x.1.1 x.1.2)) g.
Proof.
  intros Hst Ha. unfold NavigateLeafNode. eapply wp_call; [by apply (wp_NavigateSiblingChain fuel g 0)|]. intros g1 c1 [Hs1 Hin1].
  destruct (abort_flag c1) eqn:Ha1; [split; cbn; [done|congruence]|].
  destruct (st_at _ _ _ Hs1 Ha1) as (id & low & p & Hc & Hsn & _). destruct (Hin1 Ha1) as (p' & Hp' & Hr). rewrite Hc in Hp' |- *. injection Hp' as <-.
  cbn [node_p read mbind prog_bind prog_bind_def]. rewrite (st_key _ _ _ Hs1). pose proof (no_leaf _ _ _ _ (sn_ok _ _ _ _ _ _ Hsn) eq_refl) as Hl.
  destruct (navigate_item_ok p key Hl 0 (-1) Hr (brackets_all p key)) as (ip & -> & Hip). cbn. split; [done|]. intros _. by exists id, low, p, ip.
Qed.
Lemma wp_traverse_once fuel v g c : ro = false -> 0 <= key -> waiting n o g -> search_key c = key -> abort_flag c = false ->
  wpI n E (traverse_once key_hash fuel (Some v) c) (fun g' x => state_ok g' 0 x.2 /\ (abort_flag x.2 = false -> found_in g' x.2 x.1.1 x.1.2)) g.
Proof.
  intros Hro Hkey Hw Hk Ha. unfold traverse_once. apply wp_load_root. intros g1 root lvl Hr Hlvl Hroot.
  eapply wp_call; [eapply (wp_LoadNodeID fuel g1 lvl root 0 (forget_current c)); try done; [lia|eapply waiting_grows; [by apply rely_grows|done]|]|].
  { unfold parent_pre. rewrite Hro. by left. }
  intros g2 c2 Hs2. cbn beta in Hs2. destruct (abort_flag c2) eqn:Ha2; [split; cbn; [by eapply state_relevel|congruence]|].
  eapply wp_call; [by eapply (wp_descend fuel Hro g2 lvl)|]. intros g3 c3 Hs3. cbn beta in Hs3.
  destruct (abort_flag c3) eqn:Ha3; [split; cbn; [done|congruence]|]. by apply wp_NavigateLeafNode.
Qed.
Lemma wp_Traverse fuel v : ro = false -> 0 <= key -> forall g c, waiting n o g -> search_key c = key -> abort_flag c = false ->
  wpI n E (Traverse key_hash fuel (Some v) c) (fun g' x => waiting n o g' /\ found_in g' x.2 x.1.1 x.1.2) g.
Proof.
  intros Hro Hkey. induction fuel as [|fuel IH]; intros g c Hw Hk Ha; [exact E_fuel|]. cbn [Traverse].
  eapply wp_call; [by apply wp_traverse_once|]. intros g1 [[item ip] c1] [Hs1 Hf1]. cbn [fst snd] in *. destruct (abort_flag c1) eqn:Ha1.
  - apply IH; [apply Hs1|apply Hs1|done].
  - split; cbn; [apply Hs1|by apply Hf1].
Qed.

(** The read-optimised traversal. *)
Lemma wp_LoadNodeIDReadOptimized g lvl id low c : 0 <= lvl -> ro = true -> search_key c = key -> waiting n o g -> abort_flag c = false ->
  parent_snapshot c = no_snapshot -> known g !! id = Some (lvl, low) -> low <= key ->
  wpI n E (LoadNodeIDReadOptimized id c) (fun g' c' => state_ok g' lvl c' /\ abort_flag c' = false) g.
Proof.
  intros Hlvl Hro Hk Hw Ha Hp Hid Hle. unfold LoadNodeIDReadOptimized. pose proof (wp_load g lvl id low c (parent_snapshot c)) as Hx. rewrite set_parent_same in Hx.
  eapply wp_call; [apply Hx; try done; unfold parent_pre; by rewrite Hro|]. intros g1 c1 [Hs1 Ha1]. unfold FinishPartialSMOReadOptimized.
  destruct (st_at _ _ _ Hs1 Ha1) as (i & l & p & Hc & Hsn & _). pose proof (no_top _ _ _ _ (sn_ok _ _ _ _ _ _ Hsn)) as Htop. rewrite Hc at 1.
  cbn [node_p read mbind prog_bind prog_bind_def]. cbv zeta. assert (Hskip : skip_abort p = p) by (by destruct p). rewrite Hskip, (set_same_node c1 i p Hc). by destruct p.
Qed.
(** The values a leaf held for the key. *)
Definition values_in (g : ghost) (values : list Z) : Prop :=
  exists p, live n g p /\ in_range p key /\ values = match leaf_map p !! key with Some v => [v] | None => [] end.
Lemma wp_NavigateLeafValues fuel g c : state_ok g 0 c -> abort_flag c = false ->
  wpI n E (NavigateLeafValues key_hash fuel c) (fun g' x => state_ok g' 0 x.2 /\ (abort_flag x.2 = false -> values_in g' x.1)) g.
Proof.
  intros Hst Ha. unfold NavigateLeafValues. eapply wp_call; [by apply (wp_NavigateSiblingChain fuel g 0)|]. intros g1 c1 [Hs1 Hin1].
  destruct (abort_flag c1) eqn:Ha1; [split; cbn; [done|congruence]|].
  destruct (st_at _ _ _ Hs1 Ha1) as (id & low & p & Hc & Hsn & _). destruct (Hin1 Ha1) as (p' & Hp' & Hr). rewrite Hc in Hp' |- *. injection Hp' as <-.
  cbn [node_p read mbind prog_bind prog_bind_def]. rewrite (st_key _ _ _ Hs1). pose proof (no_leaf _ _ _ _ (sn_ok _ _ _ _ _ _ Hsn) eq_refl) as Hl.
  rewrite navigate_values_item. destruct (navigate_item_ok p key Hl 0 (-1) Hr (brackets_all p key)) as (ip & -> & _). cbn. split; [done|]. intros _.
  exists p. split_and!; [by apply Hsn|done|]. by destruct (leaf_map p !! key).
Qed.
Lemma wp_descend_read fuel : ro = true -> forall g lvl c, 0 < lvl -> state_ok g lvl c -> abort_flag c = false ->
  wpI n E (descend_read key_hash fuel c) (fun g' x => state_ok g' 0 x.2 /\ (abort_flag x.2 = false -> values_in g' x.1)) g.
Proof.
  intros Hro. induction fuel as [|fuel IH]; intros g lvl c Hlvl Hst Ha; [exact E_fuel|]. cbn [descend_read]. eapply wp_call; [by eapply wp_NavigateInnerNode|].
  intros g1 [cid c1] [Hs1 Hn1]. cbn [fst snd] in *. destruct (abort_flag c1) eqn:Ha1; [split; cbn; [by eapply state_relevel|congruence]|].
  destruct (Hn1 eq_refl) as (low & Hk & Hle & _).
  eapply wp_call; [eapply (wp_LoadNodeIDReadOptimized g1 (lvl - 1) cid low); try done; [lia|apply Hs1|apply Hs1|by apply Hs1]|].
  intros g2 c2 [Hs2 Ha2]. rewrite Ha2. destruct (level_leaf _ _ _ Hs2 Ha2) as (p & Hp & Hlf).
  unfold IsLeafLevel. rewrite Hp. cbn [read mbind prog_bind prog_bind_def]. rewrite Hlf. case_bool_decide as H0; [rewrite H0 in Hs2; by apply wp_NavigateLeafValues|].
  eapply IH; [|done|done]. lia.
Qed.
Lemma wp_TraverseReadOptimized fuel : ro = true -> 0 <= key -> forall g c, waiting n o g -> search_key c = key -> abort_flag c = false ->
  parent_snapshot c = no_snapshot -> wpI n E (TraverseReadOptimized key_hash fuel c) (fun g' values => waiting n o g' /\ values_in g' values) g.
Proof.
  intros Hro Hkey. induction fuel as [|fuel IH]; intros g c Hw Hk Ha Hp; [exact E_fuel|]. cbn [TraverseReadOptimized]. apply wp_load_root. intros g1 root lvl Hr Hlvl Hroot.
  eapply wp_call; [eapply (wp_LoadNodeIDReadOptimized g1 lvl root 0); try done; [lia|eapply waiting_grows; [by apply rely_grows|done]]|].
  intros g2 c2 [Hs2 Ha2]. rewrite Ha2. eapply wp_call; [by eapply (wp_descend_read (S fuel) Hro g2 lvl)|]. intros g3 [values c3] [Hs3 Hv3]. cbn [fst snd] in *.
  destruct (abort_flag c3) eqn:Ha3; [|split; [apply Hs3|by apply Hv3]]. apply IH; [apply Hs3|apply Hs3|done|by apply Hs3].
Qed.
End Functions.
