(* ===== verification/BwLin.v ===== *)
(** * The BwTree is linearisable

    The operations [Insert], [Upsert] and [GetValue] of [BwTree] meet their specification
    under any interference of the same kind: every interleaving answers as the atomic map
    of [BwLogic] does, and what can go wrong is what the operations' comments leave open. *)

From S2P Require Import Prelude BwSets BwNode BwLeaf BwInner BwTree BwLogic BwInv BwWp.

(** ** The moment an operation takes effect *)
Lemma commit_seen n o s : current_seen s -> current_seen (commit n o s).
Proof.
  intros _. unfold commit. destruct (apply_op o (content s)) as [m r]. intros i o' seen. simpl. intros [[<- ?]|[Hne Hi]]%lookup_insert_Some; [done|].
  rewrite lookup_fmap in Hi. destruct (pending s !! i) as [[o2 [l|r2]]|]; simpl in Hi; try done. injection Hi as <- <-. by left.
Qed.
Lemma commit_own n o s : exists m, content (commit n o s) = (apply_op o (content s)).1
  /\ pending (commit n o s) !! n = Some (o, Committed (apply_op o (content s)).2) /\ m = (apply_op o (content s)).1.
Proof. unfold commit. destruct (apply_op o (content s)) as [m r]. exists m. simpl. by rewrite lookup_insert_eq. Qed.

Section Operations.
Context (key_hash : Z -> Z) (n : nat) (E : fault -> Prop).
Context (E_unmapped : E Unmapped) (E_fuel : E OutOfFuel).

(** Posting a delta on the leaf that was searched commits the operation. *)
Lemma wp_post {A} g o id low p q key (f : bool -> prog A) Q : waiting n o g -> snap n g id 0 low p -> in_range p key ->
  drawn_addresses g !! address q = Some n -> GetLowKeyPair q = GetLowKeyPair p -> GetHighKeyPair q = GetHighKeyPair p -> GetItemCount p <= GetItemCount q ->
  plain_top q -> GetDepth q = i16 (GetDepth p + 1) -> (GetDepth p + 1 < 32768 -> leaf_ok q) ->
  (exists v, leaf_map q = <[key := v]> (leaf_map p) /\ forall m : gmap Z Z, m !! key = leaf_map p !! key -> (apply_op o m).1 = <[key := v]> m) ->
  (forall g1 m, m !! key = leaf_map p !! key -> pending (spec_of g1) !! n = Some (o, Committed (apply_op o m).2) -> wpI n E (f true) Q g1) ->
  (forall g1, waiting n o g1 -> wpI n E (f false) Q g1) ->
  wpI n E (InstallNodeToReplace id q p ≫= f) Q g.
Proof.
  intros Hw Hsn Hr Ha Hl Hh Hc Htop Hdq Hleaf (v & Hmap & Happ) Ht Hf.
  eapply (wp_cas n E E_unmapped id 0 low p q); [done|intros g1 Hr1; apply Hf; eapply waiting_grows; [by apply rely_grows|done]|].
  intros g1 s Hr1 HI Hp Hd. pose proof (snap_grows _ _ _ _ _ _ _ (rely_grows _ _ _ Hr1) Hsn) as Hsn1. pose proof (sn_ok _ _ _ _ _ _ Hsn1) as Hok.
  pose proof (rely_addresses _ _ _ Hr1 _ Ha) as Ha1. destruct (inv_addresses _ _ HI _ _ Ha1) as [_ Hfresh].
  assert (Hd' : GetDepth p + 1 < 32768).
  { apply i16_no_overflow; [split; [by eapply node_ok_depth|by eapply no_depth]|]. specialize (Hd id q). simpl in Hd. rewrite lookup_insert_eq in Hd.
    rewrite <- Hdq. by apply Hd. }
  destruct (waiting_grows _ _ _ _ (rely_grows _ _ _ Hr1) Hw) as [seen Hs]. pose proof (inv_content _ _ HI _ _ _ key (sn_known _ _ _ _ _ _ Hsn1) Hp Hr) as Hkey.
  destruct (commit_own n o (spec_of g1)) as (_ & Hcont & Hpend & _). rewrite (Happ _ Hkey) in Hcont.
  exists (set_spec (commit n o (spec_of g1)) (publish id q g1)). split_and!.
  - apply guar_publish; [done|done|right; by exists o, seen].
  - eapply (inv_replace g1 s id 0 low p q); try done; [apply Hsn1| |apply commit_seen, (inv_seen _ _ HI)|].
    + eapply node_ok_same; try done; [rewrite Hdq, i16_depth; [lia|]|intros _; by apply Hleaf]. pose proof (node_ok_depth _ _ _ _ Hok). lia.
    + intros _ k. rewrite Hcont. assert (Hrq : forall k, in_range q k <-> in_range p k) by (intros k'; unfold in_range, GetLowKey; by rewrite Hl, Hh).
      destruct (decide (k = key)) as [->|Hne].
      * rewrite decide_True by (by apply Hrq). by rewrite Hmap, !lookup_insert_eq.
      * rewrite lookup_insert_ne by done. rewrite Hmap, lookup_insert_ne by done. case_decide as Hk; [|done]. eapply (inv_content _ _ HI); [apply Hsn1|done|by apply Hrq].
  - eapply (Ht _ (content (spec_of g1))); [done|]. simpl. exact Hpend.
Qed.
(** An answer that needs no effect. *)
Lemma live_answers g o p r : live n g p -> waiting n o g -> in_range p (op_key o) ->
  (forall m : gmap Z Z, m !! op_key o = leaf_map p !! op_key o -> apply_op o m = (m, r)) -> answers n g r.
Proof.
  intros (o' & seen & m & Hs & Hm & Hk) [seen' Hs'] Hr Happ. rewrite Hs in Hs'. injection Hs' as -> <-. exists o, (Waiting seen). split; [done|]. exists m. split; [done|].
  by apply Happ, Hk.
Qed.

Lemma not_read_only : false = true -> E Uninitialised.
Proof. done. Qed.
Lemma wp_Insert fuel key value : 0 <= key -> forall g, waiting n (OpInsert key value) g ->
  wpI n E (Insert key_hash fuel key value) (fun g' b => answers n g' (RBool b)) g.
Proof.
  intros Hkey. set (o := OpInsert key value). induction fuel as [|fuel IH]; intros g Hw; [exact E_fuel|]. cbn [Insert].
  eapply wp_call; [by eapply (wp_Traverse key_hash n E E_unmapped E_fuel false not_read_only o key (S fuel) value)|].
  intros g1 [[item ipo] c] [Hw1 (id & low & p & ip & Hc & Hsn & Hr & Hit & Hip & Hix)]. cbn [fst snd] in *. subst item ipo.
  pose proof (no_leaf _ _ _ _ (sn_ok _ _ _ _ _ _ Hsn) eq_refl) as Hl. destruct (leaf_map p !! key) as [v|] eqn:Hv.
  - eapply (live_answers g1 o p); [by apply Hsn|done|done|]. intros m Hm. cbn in *. by rewrite Hm, Hv.
  - cbn [fmap option_fmap option_map]. rewrite Hc. cbn [node_p node_id read mbind prog_bind prog_bind_def]. apply wp_new. intros g2 a Hr2 Ha2 _.
    pose proof (rely_grows _ _ _ Hr2) as Hg2.
    eapply (wp_post g2 o id low p (LeafInsertNode a key value p ip) key); try done.
    + by eapply waiting_grows.
    + by eapply snap_grows.
    + change (GetItemCount (LeafInsertNode a key value p ip)) with (GetItemCount p + 1). lia.
    + intros Hd. by apply leaf_insert_ok.
    + exists value. split; [done|]. intros m Hm. cbn. by rewrite Hm, Hv.
    + intros g3 m Hm Hp. cbn in Hp |- *. rewrite Hm, Hv in Hp. by exists o, (Committed (RBool true)).
Qed.
Lemma wp_Upsert fuel key value : 0 <= key -> forall g, waiting n (OpUpsert key value) g ->
  wpI n E (Upsert key_hash fuel key value) (fun g' b => answers n g' (RBool b)) g.
Proof.
  intros Hkey. set (o := OpUpsert key value). induction fuel as [|fuel IH]; intros g Hw; [exact E_fuel|]. cbn [Upsert].
  eapply wp_call; [by eapply (wp_Traverse key_hash n E E_unmapped E_fuel false not_read_only o key (S fuel) value)|].
  intros g1 [[item ipo] c] [Hw1 (id & low & p & ip & Hc & Hsn & Hr & Hit & Hip & Hix)]. cbn [fst snd] in *. subst item ipo.
  pose proof (no_leaf _ _ _ _ (sn_ok _ _ _ _ _ _ Hsn) eq_refl) as Hl. rewrite Hc. cbn [node_p node_id read mbind prog_bind prog_bind_def].
  apply wp_new. intros g2 a Hr2 Ha2 _. pose proof (rely_grows _ _ _ Hr2) as Hg2. pose proof (waiting_grows _ _ _ _ Hg2 Hw1) as Hw2. pose proof (snap_grows _ _ _ _ _ _ _ Hg2 Hsn) as Hsn2.
  cbn [read mbind prog_bind prog_bind_def]. destruct (leaf_map p !! key) as [v|] eqn:Hv; cbn [fmap option_fmap option_map].
  - eapply (wp_post g2 o id low p (LeafUpdateNode a key (key, v).2 value p ip) key); try done.
    + intros Hd. by apply leaf_update_ok.
    + exists value. done.
    + intros g3 m Hm Hp. cbn in Hp |- *. rewrite Hm, Hv in Hp. rewrite bool_decide_eq_false_2 in Hp by done. by exists o, (Committed (RBool false)).
  - eapply (wp_post g2 o id low p (LeafInsertNode a key value p ip) key); try done.
    + change (GetItemCount (LeafInsertNode a key value p ip)) with (GetItemCount p + 1). lia.
    + intros Hd. by apply leaf_insert_ok.
    + exists value. done.
    + intros g3 m Hm Hp. cbn in Hp |- *. rewrite Hm, Hv in Hp. rewrite bool_decide_eq_true_2 in Hp by done. by exists o, (Committed (RBool true)).
Qed.
Lemma wp_GetValue fuel key : E Uninitialised -> 0 <= key -> forall g, waiting n (OpGetValue key) g ->
  wpI n E (GetValue key_hash fuel key) (fun g' l => answers n g' (RValues l)) g.
Proof.
  intros HE Hkey g Hw. set (o := OpGetValue key). unfold GetValue. eapply wp_mono; [|eapply (wp_TraverseReadOptimized key_hash n E E_unmapped E_fuel true (fun _ => HE) o key fuel); try done].
  intros g1 values [Hw1 (p & Hl & Hr & ->)]. eapply (live_answers g1 o p); [done|done|done|]. intros m Hm. cbn in *. by rewrite Hm.
Qed.
End Operations.

(** ** All interleavings *)

(** What a run may end in besides an answer: a loop that is cut short, a node id outside the
    mapped region, and, for the read-optimised traversal only, a read of the parent snapshot
    it never sets. *)
Definition allowed (o : op) (f : fault) : Prop :=
  f = OutOfFuel \/ f = Unmapped \/ (f = Uninitialised /\ exists k, o = OpGetValue k).
Lemma run_op_ok key_hash n o fuel g seen : valid_op o -> pending (spec_of g) !! n = Some (o, Waiting seen) ->
  wpI n (allowed o) (run_op key_hash fuel o) (answers n) g.
Proof.
  intros Hv Hs. assert (Hw : waiting n o g) by (by exists seen). unfold allowed.
  destruct o as [k v|k v|k]; cbn [run_op]; (eapply wp_call; [|intros g1 r Hr; exact Hr]).
  - apply wp_Insert; [by right; left|by left|done|done].
  - apply wp_Upsert; [by right; left|by left|done|done].
  - apply wp_GetValue; [by right; left|by left|right; right; eauto|done|done].
Qed.
Lemma inv_pending_ok g s P : Inv g s -> current_seen (mkSpec (content (spec_of g)) P) -> Inv (set_spec (mkSpec (content (spec_of g)) P) g) s.
Proof. intros [] Hs. by split. Qed.

(** The tree the constructor builds. *)
Definition start_root : BaseNode := Inner (new_meta 1 (0, 2) (0, 0) 0 1) [(0, 2)].
Definition start_leaf : BaseNode := Leaf (new_meta 2 (0, 0) (0, 0) 0 0) [].
Definition start_ghost : ghost :=
  mkGhost {[1 := (1, 0); 2 := (0, 0)]} {[1 := (1, start_root); 2 := (2, start_leaf)]} ∅ ∅ (mkSpec ∅ ∅).
Lemma new_BwTree_eq : new_BwTree = mkTree {[1 := start_root; 2 := start_leaf]} 1 2 3 [] 3 [].
Proof. by vm_compute. Qed.
Lemma start_known id x : known start_ghost !! id = Some x -> (id = 1 /\ x = (1, 0)) \/ (id = 2 /\ x = (0, 0)).
Proof. simpl. intros [[<- <-]|[_ [<- <-]%lookup_singleton_Some]]%lookup_insert_Some; [by left|by right]. Qed.
Lemma inv_start : Inv start_ghost new_BwTree.
Proof.
  rewrite new_BwTree_eq. split; simpl; try done.
  - exists 1. split_and!; [done|done|]. intros id lvl low [[_ [= -> _]]|[_ [= -> _]]]%(start_known id); lia.
  - intros id x [[-> ->]|[-> ->]]%(start_known id); [by exists start_root|by exists start_leaf].
  - intros a id p [[<- [= <- <-]]|[_ [<- [= <- <-]]%lookup_singleton_Some]]%lookup_insert_Some.
    + split_and!; [done|done|]. exists 1, 0. split; [done|]. split; try done; [by left|]. intros _. split.
      * cbn. split_and!; [repeat constructor|done|repeat constructor; by left|done|done].
      * cbn. constructor; [done|constructor].
    + split_and!; [done|done|]. exists 0, 0. split; [done|]. split; try done; [by left|]. intros _. cbn. split_and!; [constructor|constructor|done|done].
  - intros id lvl low [[-> [= -> ->]]|[-> [= -> ->]]]%(start_known id); by split_and!.
  - intros id id' lvl low [[-> H1]|[-> H1]]%(start_known id) [[-> H2]|[-> H2]]%(start_known id') _; congruence.
  - intros id id' low low' p [[-> [= ?]]|[-> [= ->]]]%(start_known id) [[-> [= ?]]|[-> [= ->]]]%(start_known id'); try done.
  - split; [done|]. intros id p [[<- _]|[_ [<- _]%lookup_singleton_Some]]%lookup_insert_Some; lia.
  - intros id low p k [[-> [= ?]]|[-> [= ->]]]%(start_known id). rewrite lookup_insert_ne, lookup_singleton_eq by done. by intros [= <-] _.
Qed.
Lemma simulates_start : simulates Inv allowed start start_ghost.
Proof. split; [apply inv_start|done|done|done]. Qed.

Section Claims.
Context (key_hash : Z -> Z).
(** C9: any number of threads that insert, upsert and look up in one BwTree, interleaved at
    every access to shared memory, answer as the atomic map does: whatever sequence of
    invocations and responses a run shows, the atomic map has a run that shows the same,
    in which every operation takes effect at one moment between its invocation and its
    response. *)
Theorem bw_linearizable tr c : steps key_hash start tr c -> exists s, spec_steps (mkSpec ∅ ∅) tr s.
Proof.
  intros Hst. destruct (simulates_steps Inv key_hash allowed inv_seen inv_pending_ok (run_op_ok key_hash) start tr c start_ghost) as (g & _ & Hsp);
    [by apply simulates_start|done|]. eauto.
Qed.
(** C10: in no interleaving does an insert or an upsert run into undefined behaviour: no
    array is accessed past its end, no null pointer dereferenced, no node cast to a class it
    does not have, no uninitialised snapshot read.  A thread stops only with an answer, or
    when its fuel or the mapped region of the mapping table is exhausted; a lookup may in
    addition read the parent snapshot it never sets. *)
Theorem bw_faults tr c n o f : steps key_hash start tr c -> threads c !! n = Some (o, Crash f) ->
  f = OutOfFuel \/ f = Unmapped \/ (f = Uninitialised /\ exists k, o = OpGetValue k).
Proof.
  intros Hst Hn. destruct (simulates_steps Inv key_hash allowed inv_seen inv_pending_ok (run_op_ok key_hash) start tr c start_ghost) as (g & Hs & _);
    [by apply simulates_start|done|]. exact (sim_wp _ _ _ _ Hs _ _ _ Hn).
Qed.
(** C11: at every moment of every interleaving the tree is well formed: the ids that can be
    reached have a level and a low key, the root is above the leaves and starts at the least
    key; on the level of the leaves the mapping table holds well-formed leaf chains and above
    it well-formed inner chains, every right link leads to a node of the same level that
    starts where this one ends, every separator, also of items that are shadowed, to a node one level below
    that starts at the separator, and the ranges of the leaves do not overlap. *)
Theorem bw_well_formed tr c : steps key_hash start tr c ->
  exists G : gmap Z (Z * Z),
    (exists lvl, 0 < lvl /\ G !! root_id (shared c) = Some (lvl, 0))
    /\ (forall id lvl low, G !! id = Some (lvl, low) -> exists p, mapping_table (shared c) !! id = Some p /\ node_ok G lvl low p)
    /\ (forall id id' low low' p, G !! id = Some (0, low) -> G !! id' = Some (0, low') -> low < low' ->
         mapping_table (shared c) !! id = Some p -> GetNextNodeID p <> INVALID_NODE_ID /\ GetHighKey p <= low').
Proof.
  intros Hst. destruct (simulates_steps Inv key_hash allowed inv_seen inv_pending_ok (run_op_ok key_hash) start tr c start_ghost) as (g & [HI _ _ _] & _);
    [by apply simulates_start|done|]. exists (known g). split_and!; [destruct (inv_root _ _ HI) as (lvl & ? & ? & _); eauto| |apply HI].
  intros id lvl low Hid. destruct (inv_table _ _ HI _ _ Hid) as (p & Hp & Hpub). exists p. split; [done|].
  destruct (inv_published _ _ HI _ _ _ Hpub) as (_ & _ & lvl' & low' & Hid' & Hok). congruence.
Qed.
End Claims.

(** ** Concrete interleavings

    A schedule: calls, accesses of a thread, returns. *)
Inductive order : Type := Call (n : nat) (o : op) (fuel : nat) | Go (n count : nat) | Return (n : nat).
Definition fits (s : BwTree) : bool := forallb (fun x => 0 <=? GetDepth x.2) (map_to_list (mapping_table s)).
(** At most [count] accesses of a thread. *)
Fixpoint go (count n : nat) (c : config) : option config :=
  match count with
  | O => Some c
  | S count =>
      match threads c !! n with
      | Some (o, Act a k) =>
          let '(s, r) := exec a (shared c) in
          if fits s then go count n (mkConfig s (<[n := (o, k r)]> (threads c))) else None
      | _ => Some c
      end
  end.
Fixpoint drive (key_hash : Z -> Z) (l : list order) (c : config) : option (list event * config) :=
  match l with
  | [] => Some ([], c)
  | Call n o fuel :: l =>
      if bool_decide (threads c !! n = None) && (0 <=? op_key o) && fits (shared c) then
        r ← drive key_hash l (mkConfig (shared c) (<[n := (o, run_op key_hash fuel o)]> (threads c)));
        Some (Invoke n o :: r.1, r.2)
      else None
  | Go n count :: l => c ← go count n c; drive key_hash l c
  | Return n :: l =>
      match threads c !! n with
      | Some (_, Ret x) =>
          if fits (shared c) then
            r ← drive key_hash l (mkConfig (shared c) (delete n (threads c))); Some (Respond n x :: r.1, r.2)
          else None
      | _ => None
      end
  end.
Lemma fits_ok s : fits s = true -> depths_fit s.
Proof.
  intros H id p Hp. unfold fits in H. rewrite forallb_forall in H. specialize (H (id, p)). simpl in H. apply Z.leb_le, H.
  apply list_elem_of_In, elem_of_map_to_list. done.
Qed.
Lemma steps_app key_hash c1 tr1 c2 tr2 c3 : steps key_hash c1 tr1 c2 -> steps key_hash c2 tr2 c3 -> steps key_hash c1 (tr1 ++ tr2) c3.
Proof. induction 1; [done|]. intros. rewrite <- app_assoc. econstructor; [done|done|auto]. Qed.
Lemma go_steps key_hash n count : forall c c', go count n c = Some c' -> steps key_hash c [] c'.
Proof.
  induction count as [|count IH]; intros c c'; simpl; [intros [= <-]; constructor|].
  destruct (threads c !! n) as [[o [x|f|a k]]|] eqn:Hn; try (intros [= <-]; constructor).
  destruct (exec a (shared c)) as [s r] eqn:He. destruct (fits s) eqn:Hf; [|done]. intros Hgo%IH. rewrite <- (app_nil_r []).
  eapply steps_trans; [by apply (step_access key_hash c n o a k)| |]; rewrite He; [by apply fits_ok|done].
Qed.
Lemma drive_steps key_hash l : forall c tr c', drive key_hash l c = Some (tr, c') -> steps key_hash c tr c'.
Proof.
  induction l as [|[n o fuel|n count|n] l IH]; intros c tr c'; cbn [drive]; [intros [= <- <-]; constructor| | |].
  - destruct (_ && _) eqn:Hb; [|done]. apply andb_true_iff in Hb as [[Hn%bool_decide_eq_true Hk%Z.leb_le]%andb_true_iff Hf].
    destruct (drive key_hash l _) as [[tr' c2]|] eqn:Hd; [|done]. intros [= <- <-]. apply IH in Hd.
    change (Invoke n o :: tr') with ([Invoke n o] ++ tr'). eapply steps_trans; [by eapply step_invoke|by apply fits_ok|done].
  - destruct (go count n c) as [c1|] eqn:Hg; [|done]. cbn. intros Hd%IH. change tr with ([] ++ tr). eapply steps_app; [by eapply go_steps|done].
  - destruct (threads c !! n) as [[o [x|f|a k]]|] eqn:Hn; try done. destruct (fits (shared c)) eqn:Hf; [|done].
    destruct (drive key_hash l _) as [[tr' c2]|] eqn:Hd; [|done]. intros [= <- <-]. apply IH in Hd.
    change (Respond n x :: tr') with ([Respond n x] ++ tr'). eapply steps_trans; [by eapply step_respond|by apply fits_ok|done].
Qed.

(** Two inserts of one key that race for the same leaf: the one overtaken has to answer no. *)
Definition race : list order :=
  [Call 0 (OpInsert 5 50) 9; Call 1 (OpInsert 5 51) 9; Go 0 3; Go 1 100; Go 0 100; Return 0; Return 1].
Definition race_trace : list event :=
  [Invoke 0 (OpInsert 5 50); Invoke 1 (OpInsert 5 51); Respond 0 (RBool false); Respond 1 (RBool true)].
Definition inserts (keys : list Z) : list order := keys ≫= fun k => [Call 0 (OpInsert k k) 9; Go 0 1000; Return 0].
(** A reader waits at the root while the leaf it is about to visit splits and the new leaf
    is in the middle of a split of its own. *)
Definition slow_reader : list order :=
  [Call 1 (OpGetValue 110) 9; Go 1 2] ++ inserts (seqZ 1 120) ++ [Call 0 (OpInsert 121 7) 9; Go 0 12; Go 1 100].
Definition ends (l : list order) : option (list event * config) := drive id l start.
Lemma race_runs : exists c, steps id start race_trace c.
Proof.
  assert (H : fst <$> ends race = Some race_trace) by (vm_compute; reflexivity).
  apply fmap_Some in H as ([tr c] & He & ->). exists c. by apply drive_steps in He.
Qed.
Lemma slow_reader_runs : exists tr c, steps id start tr c /\ threads c !! 1%nat = Some (OpGetValue 110, Crash Uninitialised).
Proof.
  assert (H : ends slow_reader ≫= (fun x => threads x.2 !! 1%nat) = Some (OpGetValue 110, Crash Uninitialised)) by (vm_compute; reflexivity).
  apply bind_Some in H as ([tr c] & He & Ht). exists tr, c. by apply drive_steps in He.
Qed.
Lemma bw_linearizable_witness : exists s, spec_steps (mkSpec ∅ ∅) race_trace s.
Proof. destruct race_runs as [c Hc]. exact (bw_linearizable id _ c Hc). Defined.
Lemma bw_faults_witness : Uninitialised = OutOfFuel \/ Uninitialised = Unmapped \/ (Uninitialised = Uninitialised /\ exists k, OpGetValue 110 = OpGetValue k).
Proof. destruct slow_reader_runs as (tr & c & Hc & Ht). exact (bw_faults id tr c 1 (OpGetValue 110) Uninitialised Hc Ht). Defined.

Lemma bw_well_formed_witness : exists tr c, steps id start tr c /\ threads c !! 1%nat = Some (OpGetValue 110, Crash Uninitialised)
  /\ exists G : gmap Z (Z * Z),
    (exists lvl, 0 < lvl /\ G !! root_id (shared c) = Some (lvl, 0))
    /\ (forall id lvl low, G !! id = Some (lvl, low) -> exists p, mapping_table (shared c) !! id = Some p /\ node_ok G lvl low p)
    /\ (forall id id' low low' p, G !! id = Some (0, low) -> G !! id' = Some (0, low') -> low < low' ->
         mapping_table (shared c) !! id = Some p -> GetNextNodeID p <> INVALID_NODE_ID /\ GetHighKey p <= low').
Proof. destruct slow_reader_runs as (tr & c & Hc & Ht). exists tr, c. split; [exact Hc|]. split; [exact Ht|]. exact (bw_well_formed id tr c Hc). Defined.

(** A lookup does read the parent snapshot that the read-optimised traversal never sets:
    in some interleaving of one lookup with inserts, the lookup follows a right link to a leaf that is
    being split, helps to finish the split, and asks the uninitialised snapshot for the
    parent. *)
Theorem bw_reader_uninitialised : exists tr c, steps id start tr c /\ threads c !! 1%nat = Some (OpGetValue 110, Crash Uninitialised).
Proof. exact slow_reader_runs. Qed.
