(* ===== verification/BwAlloc.v ===== *)
(** * The memory of delta nodes

    Models [AllocationMeta] and the allocation functions of [ElasticNode] in
    [src/src/indices/bw_tree/thread/bwtree.h].  In front of a base node lies a chunk from
    which the deltas of its chain are allocated downwards; a chunk that is used up is
    followed by another one.  Any number of threads allocate without locks: every atomic
    access is one step. *)

From S2P Require Import Prelude.
From Stdlib Require Import List.

(** ** Counting threads *)
Section Counting.
Context {A : Type} (f : A -> bool).
Definition count_if (l : list A) : Z := Z.of_nat (length (List.filter f l)).
Lemma count_if_cons x l : count_if (x :: l) = (if f x then 1 else 0) + count_if l.
Proof. unfold count_if. simpl. destruct (f x); simpl; lia. Qed.
Lemma count_if_insert l t x y : l !! t = Some x ->
  count_if (<[t := y]> l) + (if f x then 1 else 0) = count_if l + (if f y then 1 else 0).
Proof.
  revert t. induction l as [|z l IH]; intros [|t]; try done; simpl; intros Ht.
  - injection Ht as ->. rewrite !count_if_cons. lia.
  - rewrite !count_if_cons. specialize (IH t Ht). lia.
Qed.
Lemma count_if_bound l : 0 <= count_if l <= Z.of_nat (length l).
Proof. induction l as [|x l IH]; [done|]. rewrite count_if_cons. simpl. destruct (f x); lia. Qed.
End Counting.

(** ** Chunks and threads *)
Section Chunks.
(** The usable bytes of a chunk, [sizeof(AllocationMeta)] and [sizeof(ElasticNode)]. *)
Context (chunk_size meta_size node_size : Z).

Record AllocationMeta : Type := mkAM { tail : Z; limit : Z; next : option Z }.
(** Constructed at the lower end of [chunk_size + meta_size] bytes. *)
Definition new_AM (base : Z) : AllocationMeta := mkAM (base + meta_size + chunk_size) (base + meta_size) None.
Definition with_tail (x : Z) (a : AllocationMeta) : AllocationMeta := mkAM x (limit a) (next a).
Definition with_next (x : Z) (a : AllocationMeta) : AllocationMeta := mkAM (tail a) (limit a) (Some x).

(** Where a thread is in [Allocate(size)], at the chunk [m]. *)
Inductive pc : Type :=
  | Idle
  | TryLoad (m size : Z)
  | TrySub (m size : Z)
  | GrowLoad (m size : Z)
  | GrowCas (m size new_chunk : Z)
  | Returned (p size : Z).
(** [nodes] are the base nodes; [brk] is the end of what [operator new] has handed out, which is
    fresh memory every time (a chunk is not released while allocations from it go on);
    [regions] are the chunk, address and size of all allocations. *)
Record heap : Type := mkHeap {
  metas : gmap Z AllocationMeta;
  nodes : list Z;
  brk : Z;
  pcs : list pc;
  regions : list (Z * Z * Z) }.
Definition start (n : nat) : heap := mkHeap ∅ [] 0 (replicate n Idle) [].

Definition GetAllocationHeader (node : Z) : Z := node - chunk_size - meta_size.
(** [ElasticNode::Get]: the memory of a base node with its first chunk. *)
Definition ElasticNode_Get (byte_size : Z) (h : heap) : Z * heap :=
  let alloc_base := brk h in
  (alloc_base + meta_size + chunk_size,
   mkHeap (<[alloc_base := new_AM alloc_base]> (metas h)) (alloc_base + meta_size + chunk_size :: nodes h) (alloc_base + node_size + byte_size + chunk_size + meta_size) (pcs h) (regions h)).

Definition goto (t : nat) (x : pc) (h : heap) : heap := mkHeap (metas h) (nodes h) (brk h) (<[t := x]> (pcs h)) (regions h).
Definition update (m : Z) (a : AllocationMeta) (h : heap) : heap := mkHeap (<[m := a]> (metas h)) (nodes h) (brk h) (pcs h) (regions h).
(** One access of a thread in [Allocate]. *)
Definition step (t : nat) (h : heap) : option heap :=
  match pcs h !! t with
  | Some (TryLoad m size) =>
      a ← metas h !! m;
      Some (goto t (if tail a <? limit a then GrowLoad m size else TrySub m size) h)
  | Some (TrySub m size) =>
      a ← metas h !! m;
      let new_tail := tail a - size in
      let h := update m (with_tail new_tail a) h in
      Some (if new_tail <? limit a then goto t (GrowLoad m size) h
            else goto t (Returned new_tail size) (mkHeap (metas h) (nodes h) (brk h) (pcs h) ((m, new_tail, size) :: regions h)))
  | Some (GrowLoad m size) =>
      a ← metas h !! m;
      match next a with
      | Some meta_p => Some (goto t (TryLoad meta_p size) h)
      | None =>
          let new_chunk := brk h in
          Some (goto t (GrowCas m size new_chunk)
                  (mkHeap (<[new_chunk := new_AM new_chunk]> (metas h)) (nodes h) (new_chunk + chunk_size + meta_size) (pcs h) (regions h)))
      end
  | Some (GrowCas m size new_chunk) =>
      a ← metas h !! m;
      match next a with
      | None => Some (goto t (TryLoad new_chunk size) (update m (with_next new_chunk a) h))
      | Some expected => Some (goto t (TryLoad expected size) (mkHeap (delete new_chunk (metas h)) (nodes h) (brk h) (pcs h) (regions h)))
      end
  | _ => None
  end.
Definition at_rest (x : pc) : bool := match x with Idle | Returned _ _ => true | _ => false end.
(** What happens: a base node is created, a thread calls [InlineAllocate] for a base node, a
    thread makes a step. *)
Inductive event : Type := NewNode (byte_size : Z) | InlineAllocate (t : nat) (node size : Z) | Step (t : nat).
Definition happen (e : event) (h : heap) : option heap :=
  match e with
  | NewNode byte_size => if 0 <=? byte_size then Some (ElasticNode_Get byte_size h).2 else None
  | InlineAllocate t node size =>
      x ← pcs h !! t;
      if at_rest x && bool_decide (node ∈ nodes h) && (0 <? size) && (size <=? chunk_size)
      then Some (goto t (TryLoad (GetAllocationHeader node) size) h) else None
  | Step t => step t h
  end.
Fixpoint history (l : list event) (h : heap) : option heap :=
  match l with [] => Some h | e :: l => h ← happen e h; history l h end.

(** ** The invariant *)
Definition here (x : pc) : option (Z * Z) :=
  match x with TryLoad m s | TrySub m s | GrowLoad m s | GrowCas m s _ => Some (m, s) | _ => None end.
(** A chunk that its thread has not published. *)
Definition unpublished (h : heap) (c : Z) : Prop := exists t m s, pcs h !! t = Some (GrowCas m s c).
Definition subtracting (m : Z) (x : pc) : bool := match x with TrySub m' _ => m =? m' | _ => false end.
Definition apart (x y : Z * Z * Z) : Prop := x.1.2 + x.2 <= y.1.2 \/ y.1.2 + y.2 <= x.1.2.
Definition public (h : heap) (m : Z) : Prop := is_Some (metas h !! m) /\ ~ unpublished h m.
Record heap_ok (h : heap) : Prop := {
  ok_meta : forall m a, metas h !! m = Some a ->
    limit a = m + meta_size /\ tail a <= limit a + chunk_size /\ m + meta_size + chunk_size <= brk h
    /\ limit a <= tail a + chunk_size * (Z.of_nat (length (pcs h)) - count_if (subtracting m) (pcs h));
  ok_apart : forall m m', is_Some (metas h !! m) -> is_Some (metas h !! m') -> m < m' -> m + meta_size + chunk_size <= m';
  ok_next : forall m a m', metas h !! m = Some a -> next a = Some m' -> m < m' /\ public h m';
  ok_node : forall node, node ∈ nodes h -> public h (GetAllocationHeader node);
  ok_here : forall t x m s, pcs h !! t = Some x -> here x = Some (m, s) -> public h m /\ 0 < s <= chunk_size;
  ok_new : forall t m s c, pcs h !! t = Some (GrowCas m s c) -> m < c /\ metas h !! c = Some (new_AM c)
    /\ forall t' m' s', pcs h !! t' = Some (GrowCas m' s' c) -> t' = t;
  ok_region : forall m p s, (m, p, s) ∈ regions h -> 0 < s /\ ~ unpublished h m /\
    exists a, metas h !! m = Some a /\ limit a <= p /\ tail a <= p /\ p + s <= limit a + chunk_size;
  ok_disjoint : ForallOrdPairs apart (regions h) }.
Context (chunk_pos : 0 < chunk_size) (meta_pos : 0 < meta_size) (node_pos : 0 < node_size).
Lemma empty_heap_ok n : heap_ok (start n).
Proof.
  split; simpl.
  - intros m a. by rewrite lookup_empty.
  - intros m m' [a Ha]. by rewrite lookup_empty in Ha.
  - intros m a m'. by rewrite lookup_empty.
  - intros node. by rewrite elem_of_nil.
  - intros t x m s [-> _]%lookup_replicate_1. done.
  - intros t m s c [? _]%lookup_replicate_1. done.
  - intros m p s. by rewrite elem_of_nil.
  - constructor.
Qed.
(** Moving a thread that neither enters nor leaves [GrowCas] or [TrySub]. *)
Lemma unpublished_goto t x y h c : pcs h !! t = Some x -> (forall m s, y <> GrowCas m s c) ->
  unpublished (goto t y h) c -> unpublished h c.
Proof.
  intros Hx Hy (t' & m & s & Ht). simpl in Ht. destruct (decide (t' = t)) as [->|Hne].
  - rewrite list_lookup_insert_eq in Ht by (by eapply lookup_lt_Some). injection Ht as ->. by destruct (Hy m s).
  - rewrite list_lookup_insert_ne in Ht by done. by exists t', m, s.
Qed.
Lemma public_goto t x y h c : pcs h !! t = Some x -> (forall m s, y <> GrowCas m s c) -> public h c -> public (goto t y h) c.
Proof. intros Hx Hy [? Hc]. split; [done|]. intros Hu. by eapply Hc, unpublished_goto. Qed.
Lemma goto_lookup t x y h t' z : pcs h !! t = Some x -> pcs (goto t y h) !! t' = Some z -> (t' = t /\ z = y) \/ (t' <> t /\ pcs h !! t' = Some z).
Proof.
  intros Hx. simpl. destruct (decide (t' = t)) as [->|Hne].
  - rewrite list_lookup_insert_eq by (by eapply lookup_lt_Some). intros [= <-]. by left.
  - rewrite list_lookup_insert_ne by done. by right.
Qed.
Definition growing (x : pc) : bool := match x with GrowCas _ _ _ => true | _ => false end.
(** A thread moves on without writing. *)
Lemma goto_ok t x y h : heap_ok h -> pcs h !! t = Some x -> growing x = false -> growing y = false ->
  (forall m s, here y = Some (m, s) -> public h m /\ 0 < s <= chunk_size) ->
  (forall m s a, y = TrySub m s -> metas h !! m = Some a -> limit a <= tail a) -> heap_ok (goto t y h).
Proof.
  intros [Hmeta Hap Hnext Hnode Hhere Hnew Hreg Hdis] Hx Hgx Hgy Hy Hsub. assert (Hlt := lookup_lt_Some _ _ _ Hx).
  assert (Hpub : forall c, public h c -> public (goto t y h) c) by (intros c; eapply public_goto; [done|by destruct y]).
  split; try done.
  - intros m a Hm. destruct (Hmeta m a Hm) as (? & ? & ? & Hb). simpl. split_and!; try done. rewrite length_insert.
    pose proof (count_if_insert (subtracting m) _ _ _ y Hx). destruct (subtracting m y) eqn:Hs; [|destruct (subtracting m x); nia].
    destruct y; try done. simpl in Hs. apply Z.eqb_eq in Hs as <-. specialize (Hsub m size a eq_refl Hm).
    pose proof (count_if_bound (subtracting m) (<[t := TrySub m size]> (pcs h))) as Hc. rewrite length_insert in Hc. nia.
  - intros m a m' Hm Hn. destruct (Hnext m a m' Hm Hn). eauto.
  - eauto.
  - intros t' z m s Hz Hh. apply (goto_lookup t x) in Hz as [[-> ->]|[Hne Hz]]; [|by destruct (Hhere _ _ _ _ Hz Hh); eauto|done].
    destruct (Hy _ _ Hh). eauto.
  - intros t' m s c Hz. apply (goto_lookup t x) in Hz as [[-> <-]|[Hne Hz]]; [done| |done]. destruct (Hnew _ _ _ _ Hz) as (? & ? & Hu).
    split_and!; try done. intros t2 m2 s2 Hz2. apply (goto_lookup t x) in Hz2 as [[-> <-]|[? ?]]; [done| |done]. by eapply Hu.
  - intros m p s Hr. destruct (Hreg m p s Hr) as (? & Hu & ?). split_and!; try done. intros Hc. apply Hu. apply (unpublished_goto t x y h m Hx); [by destruct y|exact Hc].
Qed.
(** A thread subtracts from the tail of a chunk. *)
Lemma sub_ok t m size a h : heap_ok h -> pcs h !! t = Some (TrySub m size) -> metas h !! m = Some a ->
  let h' := update m (with_tail (tail a - size) a) h in
  heap_ok (if tail a - size <? limit a then goto t (GrowLoad m size) h'
           else goto t (Returned (tail a - size) size) (mkHeap (metas h') (nodes h') (brk h') (pcs h') ((m, tail a - size, size) :: regions h'))).
Proof.
  intros [Hmeta Hap Hnext Hnode Hhere Hnew Hreg Hdis] Hx Ha h'. destruct (Hhere _ _ _ _ Hx eq_refl) as [Hpm Hsize].
  destruct (Hmeta m a Ha) as (Hlim & Htop & Hbrk & Hbound).
  assert (Hdom : forall m', is_Some (<[m := with_tail (tail a - size) a]> (metas h) !! m') <-> is_Some (metas h !! m')).
  { intros m'. destruct (decide (m' = m)) as [->|Hne]; [rewrite lookup_insert_eq, Ha; split; eauto|by rewrite lookup_insert_ne]. }
  set (y := if tail a - size <? limit a then GrowLoad m size else Returned (tail a - size) size).
  set (R := if tail a - size <? limit a then regions h else (m, tail a - size, size) :: regions h).
  assert (Heq : (if tail a - size <? limit a then goto t (GrowLoad m size) h'
    else goto t (Returned (tail a - size) size) (mkHeap (metas h') (nodes h') (brk h') (pcs h') ((m, tail a - size, size) :: regions h')))
    = mkHeap (metas h') (nodes h) (brk h) (<[t := y]> (pcs h)) R) by (unfold y, R; by case_match).
  rewrite Heq. clear Heq. assert (Hy : growing y = false) by (unfold y; by case_match).
  assert (Hunp : forall c, unpublished (mkHeap (metas h') (nodes h) (brk h) (<[t := y]> (pcs h)) R) c -> unpublished h c).
  { intros c Hc. eapply (unpublished_goto t _ y h c Hx); [by destruct y|exact Hc]. }
  assert (Hpub : forall c, public h c -> public (mkHeap (metas h') (nodes h) (brk h) (<[t := y]> (pcs h)) R) c).
  { intros c [Hc Hu]. split; [by apply Hdom|]. auto. }
  assert (Hold : forall m' p s, (m', p, s) ∈ regions h -> 0 < s /\ ~ unpublished h m' /\
    exists a', <[m := with_tail (tail a - size) a]> (metas h) !! m' = Some a' /\ limit a' <= p /\ tail a' <= p /\ p + s <= limit a' + chunk_size).
  { intros m' p s Hr. destruct (Hreg m' p s Hr) as (? & Hu & a' & Ha' & ? & ? & ?). split_and!; try done. destruct (decide (m' = m)) as [->|Hne].
    - rewrite lookup_insert_eq. rewrite Ha in Ha'. injection Ha' as <-. eexists. split; [done|]. simpl. lia.
    - rewrite lookup_insert_ne by done. eauto. }
  split; simpl.
  - intros m' a'. pose proof (count_if_insert (subtracting m') _ _ _ y Hx) as Hc. rewrite length_insert.
    assert (subtracting m' y = false) as Hs by (unfold y; destruct (tail a - size <? limit a); reflexivity). rewrite Hs in Hc. simpl in Hc.
    intros [[<- <-]|[Hne Hm]]%lookup_insert_Some; simpl.
    + rewrite Z.eqb_refl in Hc. split_and!; try done; [lia|nia].
    + rewrite (proj2 (Z.eqb_neq m' m)) in Hc by done. destruct (Hmeta m' a' Hm) as (? & ? & ? & ?). split_and!; try done. nia.
  - intros m1 m2. rewrite !Hdom. apply Hap.
  - intros m' a' m2 [[<- <-]|[_ Hm]]%lookup_insert_Some Hn; simpl in Hn; [destruct (Hnext m a m2 Ha Hn)|destruct (Hnext m' a' m2 Hm Hn)]; eauto.
  - intros node Hin. eauto.
  - intros t' z m' s Hz Hh. apply (goto_lookup t _ y h t' z Hx) in Hz as [[-> ->]|[_ Hz]]; [|destruct (Hhere _ _ _ _ Hz Hh); eauto].
    unfold y in Hh. case_match; [|done]. injection Hh as <- <-. eauto.
  - intros t' m' s c Hz. apply (goto_lookup t _ y h t' _ Hx) in Hz as [[-> <-]|[_ Hz]]; [done|]. destruct (Hnew _ _ _ _ Hz) as (? & Hc & Hu). split_and!; [done| |].
    + rewrite lookup_insert_ne; [done|]. intros <-. apply Hpm. by exists t', m', s.
    + intros t2 m2 s2 Hz2. apply (goto_lookup t _ y h t2 _ Hx) in Hz2 as [[-> <-]|[_ ?]]; [done|]. by eapply Hu.
  - intros m' p s Hr. assert (Hr' : (m', p, s) = (m, tail a - size, size) /\ limit a <= tail a - size \/ (m', p, s) ∈ regions h).
    { unfold R in Hr. destruct (Z.ltb_spec (tail a - size) (limit a)); [by right|]. apply elem_of_cons in Hr as [?|?]; [by left|by right]. }
    destruct Hr' as [[[= -> -> ->] Hl]|Hr']; [|destruct (Hold _ _ _ Hr') as (? & Hu & ?); split_and!; [done|by intros ?%Hunp|done]].
    split_and!; [lia|intros Hc%Hunp; by apply Hpm|]. rewrite lookup_insert_eq. eexists. split; [done|]. simpl. lia.
  - unfold R. destruct (Z.ltb_spec (tail a - size) (limit a)) as [|Hl]; [done|]. constructor; [|done]. apply List.Forall_forall. intros [[m' p] s] Hin%list_elem_of_In.
    destruct (Hreg _ _ _ Hin) as (Hs & _ & a' & Ha' & Hp1 & Hp2 & Hp3). unfold apart. simpl. destruct (decide (m' = m)) as [->|Hne].
    + rewrite Ha in Ha'. injection Ha' as <-. left. lia.
    + destruct (Hmeta m' a' Ha') as (Hlim' & _). destruct (Z.lt_ge_cases m m').
      * pose proof (Hap m m' ltac:(eauto) ltac:(eauto) ltac:(lia)). left. lia.
      * pose proof (Hap m' m ltac:(eauto) ltac:(eauto) ltac:(lia)). right. lia.
Qed.
(** *** New chunks *)
Lemma meta_below h m : heap_ok h -> is_Some (metas h !! m) -> m < brk h.
Proof. intros [Hmeta _ _ _ _ _ _ _] [a Ha]. destruct (Hmeta m a Ha) as (_ & _ & ? & _). lia. Qed.
Lemma brk_fresh h m : heap_ok h -> is_Some (metas h !! m) -> m <> brk h.
Proof. intros Hok Hm. pose proof (meta_below h m Hok Hm). lia. Qed.
Lemma add_chunk_ok h top l : heap_ok h -> brk h + meta_size + chunk_size <= top ->
  (forall node, node ∈ l -> node ∈ nodes h \/ GetAllocationHeader node = brk h) ->
  heap_ok (mkHeap (<[brk h := new_AM (brk h)]> (metas h)) l top (pcs h) (regions h)).
Proof.
  intros Hok Htop Hl. pose proof (fun m => brk_fresh h m Hok) as Hfresh. pose proof (fun m => meta_below h m Hok) as Hbelow.
  destruct Hok as [Hmeta Hap Hnext Hnode Hhere Hnew Hreg Hdis].
  assert (Hpub : forall c, public h c -> public (mkHeap (<[brk h := new_AM (brk h)]> (metas h)) l top (pcs h) (regions h)) c).
  { intros c [Hc Hu]. split; [|done]. simpl. rewrite lookup_insert_ne by (by apply not_eq_sym, Hfresh). done. }
  split; simpl; try done.
  - intros m a [[<- <-]|[Hne Hm]]%lookup_insert_Some.
    + simpl. pose proof (count_if_bound (subtracting (brk h)) (pcs h)). split_and!; try lia. nia.
    + destruct (Hmeta m a Hm) as (? & ? & ? & ?). split_and!; try done. lia.
  - intros m m' Hm Hm' Hlt. apply lookup_insert_is_Some in Hm as [<-|[? Hm]]; apply lookup_insert_is_Some in Hm' as [<-|[? Hm']]; [lia| | |by apply Hap].
    + pose proof (Hbelow m' Hm'). lia.
    + destruct Hm as [a2 Hm]. destruct (Hmeta m a2 Hm) as (_ & _ & ? & _). lia.
  - intros m a m' [[<- <-]|[_ Hm]]%lookup_insert_Some Hn; [done|]. destruct (Hnext m a m' Hm Hn). eauto.
  - intros node [?|Hb]%Hl; [eauto|]. rewrite Hb. split; [simpl; rewrite lookup_insert_eq; eauto|]. intros (t & m & s & Ht). simpl in Ht.
    destruct (Hnew _ _ _ _ Ht) as (_ & Hc & _). by destruct (Hfresh (brk h) ltac:(eauto)).
  - intros t x m s Ht Hh. destruct (Hhere _ _ _ _ Ht Hh). eauto.
  - intros t m s c Ht. destruct (Hnew _ _ _ _ Ht) as (? & Hc & ?). split_and!; try done. rewrite lookup_insert_ne; [done|]. apply not_eq_sym, Hfresh. eauto.
  - intros m q s Hr. destruct (Hreg _ _ _ Hr) as (? & ? & a & Ha & ?). split_and!; try done. exists a. split; [|done]. rewrite lookup_insert_ne; [done|].
    apply not_eq_sym, Hfresh. eauto.
Qed.
Lemma node_ok h byte_size : heap_ok h -> 0 <= byte_size -> heap_ok (ElasticNode_Get byte_size h).2.
Proof.
  intros Hok Hb. apply (add_chunk_ok h _ (brk h + meta_size + chunk_size :: nodes h)); [done|lia|]. intros node [->|?]%elem_of_cons; [right|by left].
  unfold GetAllocationHeader. lia.
Qed.
(** A thread that has made a chunk is about to publish it. *)
Lemma grow_ok t m size h : heap_ok h -> pcs h !! t = Some (GrowLoad m size) ->
  heap_ok (goto t (GrowCas m size (brk h)) (mkHeap (<[brk h := new_AM (brk h)]> (metas h)) (nodes h) (brk h + chunk_size + meta_size) (pcs h) (regions h))).
Proof.
  intros Hok Hx. pose proof (fun m => brk_fresh h m Hok) as Hfresh. destruct (ok_here _ Hok _ _ _ _ Hx eq_refl) as [[Hm Hu] Hs].
  pose proof (meta_below h m Hok Hm) as Hlt. pose proof (add_chunk_ok h (brk h + chunk_size + meta_size) (nodes h) Hok ltac:(lia) ltac:(by left)) as Hadd.
  set (h1 := mkHeap (<[brk h := new_AM (brk h)]> (metas h)) (nodes h) (brk h + chunk_size + meta_size) (pcs h) (regions h)) in *.
  assert (Hu1 : forall c, unpublished (goto t (GrowCas m size (brk h)) h1) c -> c <> brk h -> unpublished h c).
  { intros c Hc Hne. eapply (unpublished_goto t _ (GrowCas m size (brk h)) h c Hx); [by intros ? ? [= _ _ ?]|exact Hc]. }
  assert (Hpub : forall c, public h c -> public (goto t (GrowCas m size (brk h)) h1) c).
  { intros c [Hc Hn]. split; [simpl; rewrite lookup_insert_ne by (by apply not_eq_sym, Hfresh); done|]. intros Hun. apply Hn, Hu1; [done|by apply Hfresh]. }
  destruct Hok as [Hmeta Hap Hnext Hnode Hhere Hnew Hreg Hdis]. split.
  - intros m' a Hm'. destruct (ok_meta _ Hadd m' a Hm') as (? & ? & ? & ?). split_and!; try done. simpl. rewrite length_insert.
    pose proof (count_if_insert (subtracting m') _ _ _ (GrowCas m size (brk h)) Hx) as Hc. simpl in Hc. rewrite !Z.add_0_r in Hc. by rewrite Hc.
  - apply Hadd.
  - simpl. intros m' a m2 [[<- <-]|[_ Hm']]%lookup_insert_Some Hn; [done|]. destruct (Hnext _ _ _ Hm' Hn). eauto.
  - intros node Hn. eauto.
  - intros t' z m' s Hz Hh. apply (goto_lookup t _ _ h1 t' z Hx) in Hz as [[-> ->]|[_ Hz]]; [injection Hh as <- <-; split; [apply Hpub; by split|done]|].
    destruct (Hhere _ _ _ _ Hz Hh). eauto.
  - intros t' m' s c Hz. apply (goto_lookup t _ _ h1 t' _ Hx) in Hz as [[-> [= -> -> ->]]|[Hne Hz]].
    + split_and!; [done|simpl; by rewrite lookup_insert_eq|]. intros t2 m2 s2 Hz2. apply (goto_lookup t _ _ h1 t2 _ Hx) in Hz2 as [[-> _]|[_ Hz2]]; [done|].
      destruct (Hnew _ _ _ _ Hz2) as (_ & Hc & _). by destruct (Hfresh (brk h) ltac:(eauto)).
    + destruct (Hnew _ _ _ _ Hz) as (? & Hc & Huq). pose proof (Hfresh c ltac:(eauto)) as Hcb. split_and!; [done|simpl; by rewrite lookup_insert_ne|].
      intros t2 m2 s2 Hz2. apply (goto_lookup t _ _ h1 t2 _ Hx) in Hz2 as [[-> [= -> -> ->]]|[_ Hz2]]; [done|]. by eapply Huq.
  - intros m' q s Hr. destruct (Hreg _ _ _ Hr) as (? & Hn & a & Ha & ?). pose proof (Hfresh m' ltac:(eauto)) as Hmb. split_and!; [done| |].
    + intros Hc. by apply Hn, Hu1.
    + exists a. simpl. by rewrite lookup_insert_ne.
  - done.
Qed.
(** Leaving [GrowCas]: the chunk is no longer waiting to be published. *)
Lemma unpublished_leave t m size c h y m' : pcs h !! t = Some (GrowCas m size c) -> growing y = false ->
  unpublished (goto t y h) m' -> unpublished h m'.
Proof. intros Hx Hy. apply (unpublished_goto t _ y h m' Hx). by destruct y. Qed.
Lemma new_chunk_private h t m size c : heap_ok h -> pcs h !! t = Some (GrowCas m size c) ->
  forall m', public h m' -> m' <> c.
Proof. intros Hok Hx m' [_ Hu] ->. apply Hu. by exists t, m, size. Qed.
Lemma published_ok t m size c a h : heap_ok h -> pcs h !! t = Some (GrowCas m size c) -> metas h !! m = Some a -> next a = None ->
  heap_ok (goto t (TryLoad c size) (update m (with_next c a) h)).
Proof.
  intros Hok Hx Ha Hna. pose proof (new_chunk_private h t m size c Hok Hx) as Hpriv. destruct Hok as [Hmeta Hap Hnext Hnode Hhere Hnew Hreg Hdis].
  destruct (Hhere _ _ _ _ Hx eq_refl) as [Hpm Hs]. destruct (Hnew _ _ _ _ Hx) as (Hmc & Hc & Huq).
  set (h' := goto t (TryLoad c size) (update m (with_next c a) h)).
  assert (Hdom : forall m', is_Some (metas h' !! m') <-> is_Some (metas h !! m')).
  { intros m'. simpl. destruct (decide (m' = m)) as [->|Hne]; [rewrite lookup_insert_eq, Ha; split; eauto|by rewrite lookup_insert_ne]. }
  assert (Hunp : forall c', unpublished h' c' -> unpublished h c') by (intros c'; by apply (unpublished_leave t m size c h (TryLoad c size))).
  assert (Hpub : forall c', public h c' -> public h' c') by (intros c' [? ?]; split; [by apply Hdom|auto]).
  assert (Hpc : public h' c).
  { split; [apply Hdom; eauto|]. intros (t' & m' & s' & Ht). apply (goto_lookup t _ _ h t' _ Hx) in Ht as [[_ ?]|[Hne Ht]]; [done|]. by apply Hne, (Huq _ _ _ Ht). }
  split.
  - intros m' a'. simpl. pose proof (count_if_insert (subtracting m') _ _ _ (TryLoad c size) Hx) as Hct. simpl in Hct. rewrite !Z.add_0_r in Hct.
    rewrite length_insert, Hct. intros [[<- <-]|[_ Hm]]%lookup_insert_Some; [by apply (Hmeta m a Ha)|by apply Hmeta].
  - intros m1 m2. rewrite !Hdom. apply Hap.
  - simpl. intros m' a' m2 [[<- <-]|[_ Hm]]%lookup_insert_Some Hn; simpl in Hn; [by injection Hn as <-|]. destruct (Hnext _ _ _ Hm Hn). eauto.
  - intros node Hn. eauto.
  - intros t' z m' s Hz Hh. apply (goto_lookup t _ _ (update m (with_next c a) h) t' z Hx) in Hz as [[-> ->]|[_ Hz]]; [by injection Hh as <- <-|].
    destruct (Hhere _ _ _ _ Hz Hh). eauto.
  - intros t' m' s c' Hz. apply (goto_lookup t _ _ h t' _ Hx) in Hz as [[_ ?]|[Hne Hz]]; [done|]. destruct (Hnew _ _ _ _ Hz) as (? & Hc' & Hu'). split_and!; [done| |].
    + simpl. rewrite lookup_insert_ne; [done|]. intros <-. apply (proj2 Hpm). by exists t', m', s.
    + intros t2 m2 s2 Hz2. apply (goto_lookup t _ _ h t2 _ Hx) in Hz2 as [[_ ?]|[_ Hz2]]; [done|]. by eapply Hu'.
  - intros m' q s Hr. destruct (Hreg _ _ _ Hr) as (? & Hn & a' & Ha' & Hb). split_and!; [done|auto|]. simpl. destruct (decide (m' = m)) as [->|Hne].
    + rewrite lookup_insert_eq. rewrite Ha in Ha'. injection Ha' as <-. by eexists.
    + rewrite lookup_insert_ne by done. eauto.
  - done.
Qed.
Lemma discarded_ok t m size c a e h : heap_ok h -> pcs h !! t = Some (GrowCas m size c) -> metas h !! m = Some a -> next a = Some e ->
  heap_ok (goto t (TryLoad e size) (mkHeap (delete c (metas h)) (nodes h) (brk h) (pcs h) (regions h))).
Proof.
  intros Hok Hx Ha Hna. pose proof (new_chunk_private h t m size c Hok Hx) as Hpriv. destruct Hok as [Hmeta Hap Hnext Hnode Hhere Hnew Hreg Hdis].
  destruct (Hhere _ _ _ _ Hx eq_refl) as [Hpm Hs]. destruct (Hnew _ _ _ _ Hx) as (Hmc & Hc & Huq). destruct (Hnext _ _ _ Ha Hna) as [_ Hpe].
  set (h' := goto t (TryLoad e size) (mkHeap (delete c (metas h)) (nodes h) (brk h) (pcs h) (regions h))).
  assert (Hunp : forall c', unpublished h' c' -> unpublished h c') by (intros c'; by apply (unpublished_leave t m size c h (TryLoad e size))).
  assert (Hpub : forall c', public h c' -> public h' c').
  { intros c' Hp. pose proof (Hpriv c' Hp). destruct Hp. split; [simpl; by rewrite lookup_delete_ne|auto]. }
  split.
  - intros m' a'. simpl. pose proof (count_if_insert (subtracting m') _ _ _ (TryLoad e size) Hx) as Hct. simpl in Hct. rewrite !Z.add_0_r in Hct.
    rewrite length_insert, Hct. intros [_ Hm]%lookup_delete_Some. by apply Hmeta.
  - simpl. intros m1 m2 [? [_ ?]%lookup_delete_Some] [? [_ ?]%lookup_delete_Some]. apply Hap; eauto.
  - simpl. intros m' a' m2 [_ Hm]%lookup_delete_Some Hn. destruct (Hnext _ _ _ Hm Hn). eauto.
  - intros node Hn. eauto.
  - intros t' z m' s Hz Hh. apply (goto_lookup t _ _ h t' z Hx) in Hz as [[-> ->]|[_ Hz]]; [injection Hh as <- <-; eauto|]. destruct (Hhere _ _ _ _ Hz Hh). eauto.
  - intros t' m' s c' Hz. apply (goto_lookup t _ _ h t' _ Hx) in Hz as [[_ ?]|[Hne Hz]]; [done|]. destruct (Hnew _ _ _ _ Hz) as (? & Hc' & Hu'). split_and!; [done| |].
    + simpl. rewrite lookup_delete_ne; [done|]. intros <-. by apply Hne, (Huq _ _ _ Hz).
    + intros t2 m2 s2 Hz2. apply (goto_lookup t _ _ h t2 _ Hx) in Hz2 as [[_ ?]|[_ Hz2]]; [done|]. by eapply Hu'.
  - intros m' q s Hr. destruct (Hreg _ _ _ Hr) as (? & Hn & a' & Ha' & Hb). split_and!; [done|auto|]. exists a'. split; [|done]. simpl.
    rewrite lookup_delete_ne; [done|]. apply not_eq_sym, Hpriv. split; [by eexists|done].
  - done.
Qed.
Lemma step_ok t h h' : heap_ok h -> step t h = Some h' -> heap_ok h'.
Proof.
  intros Hok. unfold step. destruct (pcs h !! t) as [[|m s|m s|m s|m s c|]|] eqn:Hx; try done;
    destruct (ok_here _ Hok _ _ _ _ Hx eq_refl) as [Hpm Hs]; destruct (metas h !! m) as [a|] eqn:Ha; try done; cbn [mbind option_bind].
  - intros [= <-]. apply (goto_ok t _ _ h Hok Hx); [done|by case_match| |].
    + intros m' s' Hh. by case_match; injection Hh as <- <-.
    + intros m' s' a' He Ha'. destruct (Z.ltb_spec (tail a) (limit a)); [done|]. injection He as <- <-. rewrite Ha in Ha'. by injection Ha' as <-.
  - intros [= <-]. by apply sub_ok.
  - destruct (next a) as [e|] eqn:Hn; intros [= <-]; [|by apply grow_ok]. apply (goto_ok t _ _ h Hok Hx); try done.
    intros m' s' [= <- <-]. destruct (ok_next _ Hok _ _ _ Ha Hn). done.
  - destruct (next a) as [e|] eqn:Hn; intros [= <-]; [by eapply discarded_ok|by apply published_ok].
Qed.
Lemma happen_ok e h h' : heap_ok h -> happen e h = Some h' -> heap_ok h'.
Proof.
  intros Hok. destruct e as [b|t node size|t]; cbn [happen]; [|cbv zeta|by apply step_ok].
  - destruct (Z.leb_spec 0 b); [|done]. intros [= <-]. by apply node_ok.
  - destruct (pcs h !! t) as [x|] eqn:Hx; [|done]. cbn [mbind option_bind].
    destruct (at_rest x && _ && _ && _) eqn:Hb; [|done]. apply andb_true_iff in Hb as [[[Hr Hn%bool_decide_eq_true]%andb_true_iff H0%Z.ltb_lt]%andb_true_iff Hs%Z.leb_le].
    intros [= <-]. apply (goto_ok t x _ h Hok Hx); [by destruct x|done| |done]. intros m s [= <- <-]. split; [by apply (ok_node _ Hok)|lia].
Qed.
Lemma history_ok l : forall h h', heap_ok h -> history l h = Some h' -> heap_ok h'.
Proof.
  induction l as [|e l IH]; intros h h' Hok; cbn [history]; [by intros [= <-]|].
  destruct (happen e h) as [h1|] eqn:He; [|done]. cbn. apply IH. by eapply happen_ok.
Qed.

(** ** A thread that is not disturbed *)
Definition returns (t : nat) (s : Z) (h : heap) : Prop :=
  exists k h' p, history (replicate k (Step t)) h = Some h' /\ pcs h' !! t = Some (Returned p s) /\ head (regions h').*2 = Some s.
Lemma returns_step t s h h1 : step t h = Some h1 -> returns t s h1 -> returns t s h.
Proof. intros Hs (k & h' & p & Hh & Hp). exists (S k), h', p. split; [|done]. cbn [replicate history happen]. by rewrite Hs. Qed.
Lemma goto_at t x y h : pcs h !! t = Some x -> pcs (goto t y h) !! t = Some y.
Proof. intros Hx. simpl. apply list_lookup_insert_eq. by eapply lookup_lt_Some. Qed.
Lemma room_returns t m s a h : pcs h !! t = Some (TryLoad m s) -> metas h !! m = Some a -> limit a <= tail a - s -> 0 < s -> returns t s h.
Proof.
  intros Hx Ha Hl Hs. eapply returns_step; [unfold step; by rewrite Hx, Ha|]. rewrite (proj2 (Z.ltb_ge _ _)) by lia. pose proof (goto_at t _ (TrySub m s) h Hx) as Hx1.
  set (h1 := goto t (TrySub m s) h) in *. eapply returns_step; [unfold step; rewrite Hx1; change (metas h1) with (metas h); by rewrite Ha|].
  cbv zeta. rewrite (proj2 (Z.ltb_ge _ _)) by lia. exists 0%nat. eexists _, _. split_and!; [done|by apply (goto_at t (TrySub m s))|done].
Qed.
Lemma load_returns t n : forall h m s, heap_ok h -> brk h - m < Z.of_nat n -> pcs h !! t = Some (TryLoad m s) \/ pcs h !! t = Some (GrowLoad m s) -> returns t s h.
Proof.
  assert (Hgrow : forall n, (forall h m s, heap_ok h -> brk h - m < Z.of_nat n -> pcs h !! t = Some (TryLoad m s) -> returns t s h) ->
    forall h m s, heap_ok h -> brk h - m < Z.of_nat (S n) -> pcs h !! t = Some (GrowLoad m s) -> returns t s h).
  { clear n. intros n IH h m s Hok Hb Hx. destruct (ok_here _ Hok _ _ _ _ Hx eq_refl) as [[[a Ha] _] Hs].
    destruct (next a) as [e|] eqn:Hn.
    - assert (Hst : step t h = Some (goto t (TryLoad e s) h)) by (unfold step; rewrite Hx, Ha; cbn [mbind option_bind]; by rewrite Hn).
      eapply returns_step; [exact Hst|]. destruct (ok_next _ Hok _ _ _ Ha Hn) as [? _]. eapply (IH _ e); [by eapply step_ok|simpl; lia|by eapply goto_at].
    - set (c := brk h). set (h0 := mkHeap (<[c := new_AM c]> (metas h)) (nodes h) (c + chunk_size + meta_size) (pcs h) (regions h)).
      assert (Hst : step t h = Some (goto t (GrowCas m s c) h0)) by (unfold step; rewrite Hx, Ha; cbn [mbind option_bind]; by rewrite Hn).
      assert (Hcm : m <> c) by (apply brk_fresh; [done|eauto]).
      eapply returns_step; [exact Hst|]. pose proof (goto_at t _ (GrowCas m s c) h0 Hx) as Hx1. set (h1 := goto t (GrowCas m s c) h0) in *.
      assert (Hst1 : step t h1 = Some (goto t (TryLoad c s) (update m (with_next c a) h1))).
      { unfold step. rewrite Hx1. change (metas h1) with (<[c := new_AM c]> (metas h)). rewrite lookup_insert_ne, Ha by done. cbn [mbind option_bind]. by rewrite Hn. }
      eapply returns_step; [exact Hst1|]. eapply (room_returns t c s (new_AM c)); [by eapply goto_at| |simpl; lia|lia].
      simpl. by rewrite lookup_insert_ne, lookup_insert_eq. }
  induction n as [|n IH]; intros h m s Hok Hb Hx.
  { destruct Hx as [Hx|Hx]; destruct (ok_here _ Hok _ _ _ _ Hx eq_refl) as [[Hm _] _]; pose proof (meta_below h m Hok Hm); lia. }
  assert (Hg : forall h m s, heap_ok h -> brk h - m < Z.of_nat (S n) -> pcs h !! t = Some (GrowLoad m s) -> returns t s h) by (apply Hgrow; eauto).
  destruct Hx as [Hx|Hx]; [|by eapply Hg]. destruct (ok_here _ Hok _ _ _ _ Hx eq_refl) as [[[a Ha] _] Hs].
  destruct (decide (limit a <= tail a - s)) as [Hr|Hr]; [by eapply room_returns; [..|lia]|].
  assert (Hst : step t h = Some (goto t (if tail a <? limit a then GrowLoad m s else TrySub m s) h)) by (unfold step; rewrite Hx, Ha; done).
  eapply returns_step; [exact Hst|]. destruct (Z.ltb_spec (tail a) (limit a)).
  { eapply (Hg _ m); [by eapply step_ok|done|by eapply goto_at]. }
  pose proof (goto_at t _ (TrySub m s) h Hx) as Hx1. set (h1 := goto t (TrySub m s) h) in *.
  assert (Hst1 : step t h1 = Some (goto t (GrowLoad m s) (update m (with_tail (tail a - s) a) h1))).
  { unfold step. rewrite Hx1. change (metas h1) with (metas h). rewrite Ha. cbn [mbind option_bind]. by rewrite (proj2 (Z.ltb_lt _ _)) by lia. }
  eapply returns_step; [exact Hst1|]. eapply (Hg _ m); [eapply step_ok; [by eapply step_ok|exact Hst1]|done|by eapply (goto_at t (TrySub m s))].
Qed.
Lemma busy_returns t x m s h : heap_ok h -> pcs h !! t = Some x -> here x = Some (m, s) -> returns t s h.
Proof.
  intros Hok Hx Hh. assert (Hload : forall h m, heap_ok h -> pcs h !! t = Some (TryLoad m s) \/ pcs h !! t = Some (GrowLoad m s) -> returns t s h).
  { intros h1 m1 Hok1 Hx1. apply (load_returns t (S (Z.to_nat (brk h1 - m1))) h1 m1); [done|lia|done]. }
  destruct x as [|m' s'|m' s'|m' s'|m' s' c|]; try done; injection Hh as -> ->; [by eapply Hload; [|left]| |by eapply Hload; [|right]|].
  - destruct (ok_here _ Hok _ _ _ _ Hx eq_refl) as [[[a Ha] _] Hs]. pose proof (step_ok t h) as Hsok. unfold step in Hsok. rewrite Hx, Ha in Hsok. cbn [mbind option_bind] in Hsok.
    eapply returns_step; [unfold step; by rewrite Hx, Ha|]. cbv zeta in *. specialize (Hsok _ Hok eq_refl). destruct (Z.ltb_spec (tail a - s) (limit a)).
    + eapply Hload; [done|right; by eapply goto_at].
    + exists 0%nat. eexists _, _. split_and!; [done|by eapply goto_at|done].
  - destruct (ok_here _ Hok _ _ _ _ Hx eq_refl) as [[[a Ha] _] Hs]. pose proof (step_ok t h) as Hsok. unfold step in Hsok. rewrite Hx, Ha in Hsok. cbn [mbind option_bind] in Hsok.
    destruct (next a) as [e|] eqn:Hn; (eapply returns_step; [unfold step; rewrite Hx, Ha; cbn [mbind option_bind]; by rewrite Hn|]);
      (eapply Hload; [by apply Hsok|left; by eapply goto_at]).
Qed.

(** ** Destruction and statistics, by one thread *)
Fixpoint Destroy (fuel : nat) (meta_p : option Z) (M : gmap Z AllocationMeta) : outcome (gmap Z AllocationMeta) :=
  match meta_p, fuel with
  | None, _ => Ok M
  | Some m, O => Fault OutOfFuel
  | Some m, S fuel => match M !! m with Some a => Destroy fuel (next a) (delete m M) | None => Fault NullDeref end
  end.
Fixpoint GetStatistics (fuel : nat) (meta_p : option Z) (M : gmap Z AllocationMeta) (total_size used_size : Z) : outcome (Z * Z) :=
  match meta_p, fuel with
  | None, _ => Ok (total_size, used_size)
  | Some m, O => Fault OutOfFuel
  | Some m, S fuel =>
      match M !! m with
      | None => Fault NullDeref
      | Some a =>
          let used := match next a with
                      | Some _ => chunk_size
                      | None => if tail a <? limit a then chunk_size else tail a - limit a
                      end in
          GetStatistics fuel (next a) M (total_size + chunk_size) (used_size + used)
      end
  end.
(** The chunks behind a chunk. *)
Definition linked (M : gmap Z AllocationMeta) (m m' : Z) : Prop := exists a, M !! m = Some a /\ next a = Some m'.
Lemma linked_le h m m' : heap_ok h -> rtc (linked (metas h)) m m' -> m <= m'.
Proof. intros Hok. induction 1 as [|m m1 m2 (a & Ha & Hn) _ IH]; [lia|]. destruct (ok_next _ Hok _ _ _ Ha Hn). lia. Qed.
(** [Destroy] frees the chunks of a base node and nothing else, each once. *)
Lemma Destroy_ok h n : heap_ok h -> forall m M, brk h - m < Z.of_nat n -> is_Some (metas h !! m) ->
  (forall c, m <= c -> M !! c = metas h !! c) ->
  exists M', Destroy n (Some m) M = Ok M' /\ forall c, (rtc (linked (metas h)) m c -> M' !! c = None) /\ (~ rtc (linked (metas h)) m c -> M' !! c = M !! c).
Proof.
  intros Hok. induction n as [|n IH]; intros m M Hb Hm HM; [pose proof (meta_below h m Hok Hm); lia|]. cbn [Destroy]. destruct Hm as [a Ha]. rewrite HM, Ha by lia.
  destruct (next a) as [e|] eqn:Hn.
  - destruct (ok_next _ Hok _ _ _ Ha Hn) as [Hlt [He _]]. destruct (IH e (delete m M)) as (M' & Hd & HM'); [lia|done|intros c Hc; rewrite lookup_delete_ne by lia; apply HM; lia|].
    exists M'. split; [done|]. assert (Hme : linked (metas h) m e) by (by exists a). intros c. split.
    + intros Hc. apply rtc_inv in Hc as [<-|(x & (a' & Ha' & Hn') & Hc)].
      * rewrite (proj2 (HM' m)); [by apply lookup_delete_eq|]. intros Hc%(linked_le h); [lia|done].
      * rewrite Ha in Ha'. injection Ha' as <-. rewrite Hn in Hn'. injection Hn' as <-. by apply HM'.
    + intros Hc. rewrite (proj2 (HM' c)); [apply lookup_delete_ne; intros ->; apply Hc, rtc_refl|]. intros Hc'. apply Hc. by eapply rtc_l.
  - exists (delete m M). split; [by destruct n|]. intros c. split.
    + intros Hc. apply rtc_inv in Hc as [<-|(x & (a' & Ha' & Hn') & _)]; [by apply lookup_delete_eq|]. congruence.
    + intros Hc. apply lookup_delete_ne. intros ->. apply Hc, rtc_refl.
Qed.

(** ** What the tree relies on *)

(** C13: whatever threads allocate deltas from whatever base nodes, in any interleaving, no two
    allocations overlap, every one lies inside the usable bytes of a chunk and off the
    metadata of every chunk; and the tail pointer of a chunk, which is decremented before it
    is checked, never gets further below the limit than one allocation per thread. *)
Theorem allocations_disjoint n l h : history l (start n) = Some h ->
  ForallOrdPairs apart (regions h)
  /\ (forall m p s, (m, p, s) ∈ regions h -> is_Some (metas h !! m) /\ m + meta_size <= p /\ p + s <= m + meta_size + chunk_size)
  /\ (forall m m', is_Some (metas h !! m) -> is_Some (metas h !! m') -> m < m' -> m + meta_size + chunk_size <= m')
  /\ (forall m a, metas h !! m = Some a -> limit a - chunk_size * Z.of_nat (length (pcs h)) <= tail a).
Proof.
  intros Hh. pose proof (history_ok l _ _ (empty_heap_ok n) Hh) as Hok. split_and!; [apply Hok| |apply Hok|].
  - intros m p s Hr. destruct (ok_region _ Hok _ _ _ Hr) as (_ & _ & a & Ha & ? & ? & ?). destruct (ok_meta _ Hok _ _ Ha) as (? & _). split_and!; [eauto|lia|lia].
  - intros m a Ha. destruct (ok_meta _ Hok _ _ Ha) as (_ & _ & _ & ?). pose proof (count_if_bound (subtracting m) (pcs h)). nia.
Qed.
(** C14: an allocation never waits for another thread: in any reachable state, a thread that
    is anywhere inside [InlineAllocate] returns after finitely many steps of its own, even
    if no other thread ever takes a step again. *)
Theorem allocation_progress n l h t m s x : history l (start n) = Some h -> pcs h !! t = Some x -> here x = Some (m, s) ->
  exists k h' p, history (replicate k (Step t)) h = Some h' /\ pcs h' !! t = Some (Returned p s).
Proof.
  intros Hh Hx Hm. destruct (busy_returns t x m s h) as (k & h' & p & Hk & Hp & _); [by eapply history_ok; [apply (empty_heap_ok n)|]|done|done|]. eauto.
Qed.
End Chunks.

(** ** Concrete runs: two threads, chunks of 16 bytes *)
Definition contended : list event :=
  [NewNode 64; InlineAllocate 0 24 10; InlineAllocate 1 24 10; Step 0; Step 1; Step 0; Step 1; Step 1; InlineAllocate 0 24 6; Step 0; Step 0; Step 0].
Definition contended_heap : option (heap) := history 16 8 40 contended (start 2).
Lemma allocations_disjoint_witness : exists h, contended_heap = Some h /\
  ForallOrdPairs apart (regions h)
  /\ (forall m p s, (m, p, s) ∈ regions h -> is_Some (metas h !! m) /\ m + 8 <= p /\ p + s <= m + 8 + 16)
  /\ (forall m m', is_Some (metas h !! m) -> is_Some (metas h !! m') -> m < m' -> m + 8 + 16 <= m')
  /\ (forall m a, metas h !! m = Some a -> limit a - 16 * Z.of_nat (length (pcs h)) <= tail a).
Proof.
  destruct contended_heap as [h|] eqn:Hh; [|by vm_compute in Hh]. exists h. split; [reflexivity|].
  refine (allocations_disjoint 16 8 40 _ _ _ 2 contended h Hh); lia.
Defined.
Lemma allocation_progress_witness : exists h, contended_heap = Some h /\
  exists k h' p, history 16 8 40 (replicate k (Step 1)) h = Some h' /\ pcs h' !! 1%nat = Some (Returned p 10).
Proof.
  destruct contended_heap as [h|] eqn:Hh; [|by vm_compute in Hh]. exists h. split; [reflexivity|].
  assert (Hpc : contended_heap ≫= (fun h => pcs h !! 1%nat) = Some (GrowCas 0 10 128)) by (vm_compute; reflexivity).
  rewrite Hh in Hpc. refine (allocation_progress 16 8 40 _ _ _ 2 contended h 1 0 10 (GrowCas 0 10 128) Hh Hpc eq_refl); lia.
Defined.
(** [GetStatistics] counts what is left of the last chunk as used: of a new base node,
    nothing of whose chunk is used, everything is reported. *)
Lemma statistics_of_unused_chunk : GetStatistics 16 2 (Some 0) (metas (ElasticNode_Get 16 8 40 64 (start 1)).2) 0 0 = Ok (16, 16).
Proof. reflexivity. Qed.
