(* ===== verification/BwGc.v ===== *)
(** * Garbage collection of the BwTree

    Models the epochs of [BwTreeBase] and the garbage lists of [BwTree] in
    [src/src/indices/bw_tree/thread/bwtree.h]: a thread publishes the epoch in which it
    began an operation, an unlinked node is stamped with the current epoch and appended to a
    list of its thread, and a thread frees what was stamped before every published epoch.

    The functions as one thread runs them, with the linked lists as they are.  Their
    interleavings are in [BwReclaim]. *)

From S2P Require Import Prelude BwSets BwNode.

Definition GC_NODE_COUNT_THREADHOLD : Z := 1024.

(** ** The lists of garbage *)
Record GarbageNode : Type := mkGarbage { delete_epoch : Z; garbage_p : BaseNode; next_p : option Z }.
(** [header] is embedded in the metadata: [header_next] is its [next_p], and [last_p] is
    [None] when it points at [header]. *)
Record GCMetaData : Type := mkGCMeta { last_active_epoch : Z; header_next : option Z; last_p : option Z; node_count : Z }.
Definition new_GCMetaData : GCMetaData := mkGCMeta 0 None None 0.
(** [freed] are the addresses of destroyed nodes, [nulled] the ids whose entry in the mapping
    table was reset. *)
Record GcState : Type := mkGc {
  epoch : Z;
  gc_metadata : list GCMetaData;
  cells : gmap Z GarbageNode;
  next_cell : Z;
  freed : gset Z;
  nulled : list Z }.
Definition set_epoch (x : Z) (s : GcState) : GcState := mkGc x (gc_metadata s) (cells s) (next_cell s) (freed s) (nulled s).
Definition set_metadata (x : list GCMetaData) (s : GcState) : GcState := mkGc (epoch s) x (cells s) (next_cell s) (freed s) (nulled s).
Definition set_cells (x : gmap Z GarbageNode) (s : GcState) : GcState := mkGc (epoch s) (gc_metadata s) x (next_cell s) (freed s) (nulled s).
Abbreviation GM := (ST GcState).

Definition GetGCMetaData (t : nat) : GM GCMetaData := fun s =>
  match gc_metadata s !! t with Some md => Ok (md, s) | None => Fault OutOfBounds end.
Definition put_metadata (t : nat) (md : GCMetaData) : GM unit := modify (fun s => set_metadata (<[t := md]> (gc_metadata s)) s).
Definition set_last_active (x : Z) (md : GCMetaData) : GCMetaData := mkGCMeta x (header_next md) (last_p md) (node_count md).
Definition GetGlobalEpoch : GM Z := gets epoch.
Definition IncreaseEpoch : GM unit := modify (fun s => set_epoch (u64 (epoch s + 1)) s).
Definition UpdateLastActiveEpoch (t : nat) : GM unit :=
  e ← GetGlobalEpoch; md ← GetGCMetaData t; put_metadata t (set_last_active e md).
Definition LeaveEpoch (t : nat) : GM unit := md ← GetGCMetaData t; put_metadata t (set_last_active (u64 (-1)) md).
Definition UnregisterThread (t : nat) : GM unit := md ← GetGCMetaData t; put_metadata t (set_last_active (u64 (-1)) md).
Definition SummarizeGCEpoch : GM Z := fun s =>
  match gc_metadata s with
  | [] => Fault OutOfBounds
  | md :: mds => Ok (fold_left (fun min_epoch md => Z.min (last_active_epoch md) min_epoch) mds (last_active_epoch md), s)
  end.

(** *** Freeing a chain *)
Definition destroy (n : BaseNode) : GM unit := fun s =>
  if decide (address n ∈ freed s) then Fault NullDeref
  else Ok (tt, mkGc (epoch s) (gc_metadata s) (cells s) (next_cell s) ({[address n]} ∪ freed s) (nulled s)).
Definition InvalidateNodeID (id : Z) : GM unit :=
  modify (fun s => mkGc (epoch s) (gc_metadata s) (cells s) (next_cell s) (freed s) (id :: nulled s)).
(** A merge node is destroyed after its two branches, as it is written.  It was allocated in
    the chunk of the base node of the right branch, whose memory [Destroy] has released by
    then; its destructor is trivial and touches nothing.  [freed] counts the nodes one by one, and not
    the chunks they share. *)
Fixpoint FreeEpochDeltaChain (n : BaseNode) : GM unit :=
  match n with
  | LeafInsert _ _ _ c | LeafDelete _ _ _ c | LeafUpdate _ _ _ _ c | LeafSplit _ _ c
  | InnerInsert _ _ _ _ c | InnerDelete _ _ _ _ _ c | InnerSplit _ _ c => destroy n;; FreeEpochDeltaChain c
  | LeafMerge _ _ right_merge_p c | InnerMerge _ _ right_merge_p c =>
      FreeEpochDeltaChain c;; FreeEpochDeltaChain right_merge_p;; destroy n
  | LeafRemove _ removed_id _ | InnerRemove _ removed_id _ => InvalidateNodeID removed_id;; destroy n
  | Leaf _ _ | Inner _ _ | InnerAbort _ _ => destroy n
  end.

(** *** The collector of a thread *)
Definition get_cell (p : Z) : GM GarbageNode := fun s =>
  match cells s !! p with Some g => Ok (g, s) | None => Fault NullDeref end.
(** [while (first_p != nullptr && first_p->delete_epoch < min_epoch)] *)
Fixpoint gc_loop (fuel : nat) (t : nat) (min_epoch : Z) : GM (option Z) :=
  match fuel with
  | O => fun _ => Fault OutOfFuel
  | S fuel =>
      md ← GetGCMetaData t;
      match header_next md with
      | None => mret None
      | Some first_p =>
          g ← get_cell first_p;
          if delete_epoch g <? min_epoch then
            put_metadata t (mkGCMeta (last_active_epoch md) (next_p g) (last_p md) (node_count md));;
            FreeEpochDeltaChain (garbage_p g);;
            modify (fun s => set_cells (delete first_p (cells s)) s);;
            md ← GetGCMetaData t;
            put_metadata t (mkGCMeta (last_active_epoch md) (header_next md) (last_p md) (u64 (node_count md - 1)));;
            gc_loop fuel t min_epoch
          else mret (Some first_p)
      end
  end.
Definition PerformGC (fuel : nat) (t : nat) : GM unit :=
  min_epoch ← SummarizeGCEpoch;
  first_p ← gc_loop fuel t min_epoch;
  match first_p with
  | None => md ← GetGCMetaData t; put_metadata t (mkGCMeta (last_active_epoch md) (header_next md) None (node_count md))
  | Some _ => mret tt
  end.
Definition AddGarbageNode (fuel : nat) (t : nat) (n : BaseNode) : GM unit :=
  e ← GetGlobalEpoch;
  garbage_node_p ← gets next_cell;
  modify (fun s => mkGc (epoch s) (gc_metadata s) (<[garbage_node_p := mkGarbage e n None]> (cells s)) (garbage_node_p + 1) (freed s) (nulled s));;
  md ← GetGCMetaData t;
  (match last_p md with
   | None => put_metadata t (mkGCMeta (last_active_epoch md) (Some garbage_node_p) (last_p md) (node_count md))
   | Some l => g ← get_cell l; modify (fun s => set_cells (<[l := mkGarbage (delete_epoch g) (garbage_p g) (Some garbage_node_p)]> (cells s)) s)
   end);;
  md ← GetGCMetaData t;
  put_metadata t (mkGCMeta (last_active_epoch md) (header_next md) (Some garbage_node_p) (u64 (node_count md + 1)));;
  md ← GetGCMetaData t;
  if GC_NODE_COUNT_THREADHOLD <? node_count md then PerformGC fuel t else mret tt.
Definition ClearThreadLocalGarbage (fuel : nat) : GM unit :=
  n ← gets (fun s => length (gc_metadata s));
  foldr (fun t k => UnregisterThread t;; k) (mret tt) (seq 0 n);;
  foldr (fun t k => PerformGC fuel t;; k) (mret tt) (seq 0 n).
(** [DestroyThreadLocal], [SetThreadNum] and [PrepareThreadLocal] replace the array. *)
Definition UpdateThreadLocal (fuel : nat) (p_thread_num : nat) : GM unit :=
  ClearThreadLocalGarbage fuel;; modify (set_metadata (replicate p_thread_num new_GCMetaData)).

(** ** What the lists stand for *)

(** The nodes a chain owns, in the order in which they are destroyed. *)
Fixpoint owned (n : BaseNode) : list BaseNode :=
  match n with
  | LeafInsert _ _ _ c | LeafDelete _ _ _ c | LeafUpdate _ _ _ _ c | LeafSplit _ _ c
  | InnerInsert _ _ _ _ c | InnerDelete _ _ _ _ _ c | InnerSplit _ _ c => n :: owned c
  | LeafMerge _ _ right_merge_p c | InnerMerge _ _ right_merge_p c => owned c ++ owned right_merge_p ++ [n]
  | _ => [n]
  end.
Definition addresses (n : BaseNode) : list Z := address <$> owned n.
(** A list of cells from a pointer on. *)
Fixpoint cell_list (C : gmap Z GarbageNode) (p : option Z) (A : list Z) (L : list (Z * BaseNode)) : Prop :=
  match A, L with
  | [], [] => p = None
  | a :: A, (d, n) :: L => p = Some a /\ exists nx, C !! a = Some (mkGarbage d n nx) /\ cell_list C nx A L
  | _, _ => False
  end.
Abbreviation garbage_lists := (list (list Z * list (Z * BaseNode))).
Definition all_cells (X : garbage_lists) : list Z := X ≫= fst.
Definition garbage_of (x : list Z * list (Z * BaseNode)) : list Z := x.2 ≫= (fun g => addresses g.2).
Definition all_garbage (X : garbage_lists) : list Z := X ≫= garbage_of.
(** [X] has the cells and the garbage of every thread: nothing is owned twice, and nothing
    that is owned has been freed.  While thread [t] empties its list, its [last_p] lags. *)
Record gc_inv (t : option nat) (s : GcState) (X : garbage_lists) : Prop := {
  gc_length : length (gc_metadata s) = length X;
  gc_meta : forall i md x, gc_metadata s !! i = Some md -> X !! i = Some x ->
    cell_list (cells s) (header_next md) x.1 x.2 /\ node_count md = Z.of_nat (length x.2) /\ node_count md < 2 ^ 64
    /\ (Some i <> t \/ x.1 <> [] -> last_p md = last x.1);
  gc_cells : NoDup (all_cells X);
  gc_fresh : forall a, a ∈ all_cells X -> a < next_cell s;
  gc_owned : NoDup (all_garbage X);
  gc_live : forall a, a ∈ all_garbage X -> a ∉ freed s }.
Abbreviation gc_ok := (gc_inv None).
Lemma owned_self n : n ∈ owned n.
Proof. destruct n; simpl; set_solver. Qed.
(** What a call frees, if all of it is alive. *)
Definition freeing (F : list Z) (s s' : GcState) : Prop :=
  epoch s' = epoch s /\ gc_metadata s' = gc_metadata s /\ cells s' = cells s /\ next_cell s' = next_cell s /\ freed s' = list_to_set F ∪ freed s.
Definition frees (m : GM unit) (F : list Z) : Prop :=
  forall s, NoDup F -> Forall (fun a => a ∉ freed s) F -> exists s', m s = Ok (tt, s') /\ freeing F s s'.
Lemma frees_seq m1 m2 F G : frees m1 F -> frees m2 G -> frees (m1;; m2) (F ++ G).
Proof.
  intros H1 H2 s (Hd1 & Hx & Hd2)%NoDup_app [Hf1 Hf2]%Forall_app. destruct (H1 s Hd1 Hf1) as (s1 & Hr1 & Hs1). destruct Hs1 as (? & ? & ? & ? & Hfr).
  destruct (H2 s1 Hd2) as (s2 & Hr2 & ? & ? & ? & ? & Hfr2).
  - rewrite Hfr. rewrite Forall_forall in Hf2 |- *. intros a Ha. specialize (Hf2 a Ha). specialize (Hx a). set_solver.
  - exists s2. split; [unfold mbind, ST_bind; by rewrite Hr1|]. split_and!; try congruence. rewrite Hfr2, Hfr, list_to_set_app_L. set_solver.
Qed.
Lemma frees_destroy n : frees (destroy n) [address n].
Proof. intros s _ [Hf _]%Forall_cons. unfold destroy. rewrite decide_False by done. eexists. split; [done|]. split_and!; try done. simpl. set_solver. Qed.
Lemma frees_invalidate id m F : frees m F -> frees (InvalidateNodeID id;; m) F.
Proof.
  intros H. change F with ([] ++ F). apply frees_seq; [|done]. intros s _ _. eexists. split; [done|]. split_and!; try done. simpl. set_solver.
Qed.
(** Freeing a chain destroys what it owns. *)
Lemma free_chain_ok n : frees (FreeEpochDeltaChain n) (addresses n).
Proof.
  induction n; cbn [FreeEpochDeltaChain]; unfold addresses in *; cbn [owned fmap list_fmap]; rewrite ?fmap_app; try apply frees_destroy;
    try (apply frees_invalidate, frees_destroy); try (by apply (frees_seq _ _ [_]); [apply frees_destroy|]);
    (apply frees_seq; [done|apply frees_seq; [done|apply frees_destroy]]).
Qed.

(** *** Replacing the list of one thread *)
Lemma bind_insert {A B} (f : A -> list B) (X : list A) t x y : X !! t = Some x ->
  exists rest, X ≫= f ≡ₚ f x ++ rest /\ (<[t := y]> X) ≫= f ≡ₚ f y ++ rest.
Proof.
  revert t. induction X as [|z X IH]; intros [|t] Ht; try done; simpl in *.
  - injection Ht as ->. by exists (X ≫= f).
  - destruct (IH t Ht) as (rest & H1 & H2). exists (f z ++ rest). cbn. rewrite H1, H2. split; solve_Permutation.
Qed.
Lemma cell_list_agree C C' p A L : (forall a, a ∈ A -> C' !! a = C !! a) -> cell_list C p A L -> cell_list C' p A L.
Proof.
  revert p L. induction A as [|a A IH]; intros p [|[d n] L] Ha; simpl; try done. intros (-> & nx & Hc & Hl). split; [done|].
  exists nx. split; [rewrite Ha; [done|by left]|]. apply IH; [|done]. intros a' Ha'. apply Ha. by right.
Qed.
Lemma cell_list_length C p A L : cell_list C p A L -> length A = length L.
Proof. revert p L. induction A as [|a A IH]; intros p [|[d n] L]; simpl; try done. intros (_ & nx & _ & H). f_equal. by eapply IH. Qed.
Lemma last_cons_ne {A} (a : A) l : l <> [] -> last (a :: l) = last l.
Proof. by destruct l. Qed.
(** What one round of the collector leaves behind. *)
Lemma gc_pop t s X md a A d n nx L s1 : gc_inv (Some t) s X -> X !! t = Some (a :: A, (d, n) :: L) -> gc_metadata s !! t = Some md ->
  cells s !! a = Some (mkGarbage d n nx) -> cell_list (cells s) nx A L -> freeing (addresses n) s s1 ->
  gc_inv (Some t)
    (mkGc (epoch s1) (<[t := mkGCMeta (last_active_epoch md) nx (last_p md) (node_count md - 1)]> (gc_metadata s1)) (delete a (cells s1)) (next_cell s1) (freed s1) (nulled s1))
    (<[t := (A, L)]> X).
Proof.
  intros [Hlen Hmeta Hcells Hfresh Howned Hlive] Ht Hmd Ha Hl (-> & -> & -> & -> & Hfr).
  destruct (bind_insert fst X t _ (A, L) Ht) as (R1 & Hp1 & Hp1'). destruct (bind_insert garbage_of X t _ (A, L) Ht) as (R2 & Hp2 & Hp2').
  unfold all_cells, all_garbage in *. rewrite Hp1 in Hcells. rewrite Hp2 in Howned. cbn [fst app garbage_of snd mbind list_bind] in Hcells, Howned.
  apply NoDup_cons in Hcells as [Hna Hcells].
  assert (Hown : NoDup (addresses n ++ garbage_of (A, L) ++ R2)) by (unfold garbage_of; simpl; by rewrite app_assoc).
  apply NoDup_app in Hown as (_ & Hdis & Hown).
  destruct (Hmeta t md _ Hmd Ht) as (_ & Hcount & Hsmall & Hlast). cbn [fst snd length] in *.
  split; simpl.
  - by rewrite !length_insert.
  - intros i md' x Hi Hx. destruct (decide (i = t)) as [->|Hne].
    + rewrite list_lookup_insert_eq in Hi by (by eapply lookup_lt_Some). rewrite list_lookup_insert_eq in Hx by (by eapply lookup_lt_Some).
      injection Hi as <-. injection Hx as <-. simpl. split_and!; [|lia|lia|].
      * eapply cell_list_agree; [|exact Hl]. intros a' Ha'. apply lookup_delete_ne. intros <-. apply Hna. set_solver.
      * intros [?|HA]; [done|]. rewrite Hlast by (by right). by apply last_cons_ne.
    + rewrite list_lookup_insert_ne in Hi by done. rewrite list_lookup_insert_ne in Hx by done. destruct (Hmeta i md' x Hi Hx) as (Hc & ? & ? & ?). split_and!; try done.
      eapply cell_list_agree; [|exact Hc]. intros a' Ha'. apply lookup_delete_ne. intros <-. apply Hna. rewrite elem_of_app. right.
      assert (Hin : a ∈ (<[t := (A, L)]> X) ≫= fst).
      { apply list_elem_of_bind. exists x. split; [done|]. apply list_elem_of_lookup. exists i. by rewrite list_lookup_insert_ne. }
      rewrite Hp1' in Hin. simpl in Hin. set_solver.
  - by rewrite Hp1'.
  - intros a'. rewrite Hp1'. intros Ha'. apply Hfresh. rewrite Hp1. simpl in *. set_solver.
  - by rewrite Hp2'.
  - intros a'. rewrite Hp2'. intros Ha'. rewrite Hfr. intros Hin. apply elem_of_union in Hin as [Hin|Hin]; [apply elem_of_list_to_set in Hin; by apply (Hdis a')|].
    apply (Hlive a'); [|done]. rewrite Hp2. cbn [garbage_of snd mbind list_bind]. set_solver.
Qed.

Definition actives (s : GcState) : list Z := last_active_epoch <$> gc_metadata s.
Lemma u64_pred x : 0 < x < 2 ^ 64 -> u64 (x - 1) = x - 1.
Proof. intros. unfold u64, wrap. apply Z.mod_small. lia. Qed.
Lemma fmap_insert_same {A B} (f : A -> B) (l : list A) t x y : l !! t = Some x -> f y = f x -> f <$> <[t := y]> l = f <$> l.
Proof. intros Hx Hf. rewrite list_fmap_insert, Hf. apply list_insert_id. by rewrite list_lookup_fmap, Hx. Qed.
Lemma gc_loop_ok t min_epoch : forall L A s X fuel, gc_inv (Some t) s X -> X !! t = Some (A, L) -> (length L < fuel)%nat ->
  exists s' D L' A', gc_loop fuel t min_epoch s = Ok (head A', s') /\ L = D ++ L' /\ Forall (fun g => g.1 < min_epoch) D
    /\ (forall g, head L' = Some g -> min_epoch <= g.1) /\ gc_inv (Some t) s' (<[t := (A', L')]> X)
    /\ freed s' = list_to_set (D ≫= (fun g => addresses g.2)) ∪ freed s /\ epoch s' = epoch s /\ actives s' = actives s /\ next_cell s' = next_cell s.
Proof.
  induction L as [|[d n] L IH]; intros A s X [|fuel] Hinv Ht Hf; try (simpl in Hf; lia);
    (destruct (lookup_lt_is_Some_2 (gc_metadata s) t) as [md Hmd]; [rewrite (gc_length _ _ _ Hinv); by eapply lookup_lt_Some|]);
    destruct (gc_meta _ _ _ Hinv t md _ Hmd Ht) as (Hl & Hcount & Hsmall & _); cbn [fst snd] in *; cbn [gc_loop];
    unfold mbind, ST_bind, GetGCMetaData; rewrite Hmd.
  - destruct A as [|a A]; [|done]. simpl in Hl. rewrite Hl. exists s, [], [], []. split_and!; try done; [by rewrite list_insert_id|simpl; set_solver].
  - destruct A as [|a A]; [done|]. destruct Hl as (Hhd & nx & Ha & Hl). rewrite Hhd. unfold get_cell. rewrite Ha. cbn [delete_epoch next_p garbage_p].
    destruct (Z.ltb_spec d min_epoch) as [Hd|Hd].
    + cbn [put_metadata modify]. set (md1 := mkGCMeta (last_active_epoch md) nx (last_p md) (node_count md)).
      set (s0 := set_metadata (<[t := md1]> (gc_metadata s)) s). assert (Hlt := lookup_lt_Some _ _ _ Hmd).
      destruct (bind_insert garbage_of X t _ (A, L) Ht) as (R2 & Hp2 & _). pose proof (gc_owned _ _ _ Hinv) as Hown. unfold all_garbage in Hown. rewrite Hp2 in Hown.
      cbn [garbage_of snd mbind list_bind] in Hown. rewrite <- app_assoc in Hown. apply NoDup_app in Hown as (Hown & _ & _).
      destruct (free_chain_ok n s0) as (s1 & Hr1 & Hs1); [done| |].
      { apply Forall_forall. intros x Hx. apply (gc_live _ _ _ Hinv). unfold all_garbage. rewrite Hp2. cbn [garbage_of snd mbind list_bind]. set_solver. }
      rewrite Hr1. destruct Hs1 as (He1 & Hm1 & Hc1 & Hn1 & Hf1). simpl in He1, Hm1, Hc1, Hn1, Hf1.
      change (gc_metadata (set_cells (delete a (cells s1)) s1)) with (gc_metadata s1). rewrite Hm1, list_lookup_insert_eq by done.
      set (s2 := mkGc (epoch s1) (<[t := mkGCMeta (last_active_epoch md) nx (last_p md) (node_count md - 1)]> (gc_metadata s)) (delete a (cells s1)) (next_cell s1) (freed s1) (nulled s1)).
      match goal with |- context [gc_loop fuel t min_epoch ?st] => assert (st = s2) as -> end.
      { unfold s2, set_metadata, set_cells, md1. simpl. rewrite Hm1, list_insert_insert_eq, u64_pred by (simpl in Hcount; lia). done. }
      assert (Hinv2 : gc_inv (Some t) s2 (<[t := (A, L)]> X)).
      { set (s1' := mkGc (epoch s) (gc_metadata s) (cells s) (next_cell s) (freed s1) (nulled s1)).
        pose proof (gc_pop t s X md a A d n nx L s1' Hinv Ht Hmd Ha Hl) as Hp. unfold s1' in Hp. simpl in Hp. unfold s2. rewrite He1, Hc1, Hn1. apply Hp. by split_and!. }
      destruct (IH A s2 (<[t := (A, L)]> X) fuel) as (s' & D & L' & A' & Hr & -> & HD & Hhead & Hinv' & Hfr & He & Hac & Hnc);
        [done|apply list_lookup_insert_eq; by eapply lookup_lt_Some|simpl in Hf; lia|].
      exists s', ((d, n) :: D), L', A'. split_and!; try done.
      * by constructor.
      * by rewrite list_insert_insert_eq in Hinv'.
      * rewrite Hfr. simpl. rewrite Hf1, list_to_set_app_L. set_solver.
      * by rewrite He.
      * rewrite Hac. unfold actives, s2. simpl. by apply (fmap_insert_same _ _ _ md).
      * by rewrite Hnc.
    + exists s, [], ((d, n) :: L), (a :: A). split_and!; try done; [by intros g [= <-]|by rewrite list_insert_id|simpl; set_solver].
Qed.
Lemma fold_min (l : list GCMetaData) : forall m, let r := fold_left (fun x md => Z.min (last_active_epoch md) x) l m in
  (r = m \/ r ∈ last_active_epoch <$> l) /\ r <= m /\ forall e, e ∈ last_active_epoch <$> l -> r <= e.
Proof.
  induction l as [|md l IH]; intros m; simpl; [split_and!; [by left|lia|by intros e ?%elem_of_nil]|].
  destruct (IH (Z.min (last_active_epoch md) m)) as (Hr & Hle & Hall). split_and!.
  - destruct Hr as [->|?]; [|right; by right]. destruct (Z.min_spec (last_active_epoch md) m) as [[_ ->]|[_ ->]]; [right; by left|by left].
  - lia.
  - intros e [->|He]%elem_of_cons; [lia|by apply Hall].
Qed.
(** The epoch below which garbage is free: the least one that a thread has published. *)
Lemma summarize_ok s t md : gc_metadata s !! t = Some md ->
  exists m, SummarizeGCEpoch s = Ok (m, s) /\ m ∈ actives s /\ forall e, e ∈ actives s -> m <= e.
Proof.
  unfold SummarizeGCEpoch, actives. destruct (gc_metadata s) as [|md0 mds]; [done|]. intros _. eexists. split; [done|].
  destruct (fold_min mds (last_active_epoch md0)) as (Hr & Hle & Hall). split.
  - destruct Hr as [->|?]; [by left|by right].
  - intros e [->|He]%elem_of_cons; [done|by apply Hall].
Qed.
Lemma gc_inv_weaken t s X : gc_ok s X -> gc_inv (Some t) s X.
Proof. intros [? Hm ? ? ? ?]. split; try done. intros i md x Hi Hx. destruct (Hm i md x Hi Hx) as (? & ? & ? & Hl). split_and!; try done. intros _. apply Hl. by left. Qed.
Lemma perform_gc_ok fuel t s X A L : gc_ok s X -> X !! t = Some (A, L) -> (length L < fuel)%nat ->
  exists s' m D L' A', PerformGC fuel t s = Ok (tt, s') /\ m ∈ actives s /\ (forall e, e ∈ actives s -> m <= e)
    /\ L = D ++ L' /\ Forall (fun g => g.1 < m) D /\ (forall g, head L' = Some g -> m <= g.1) /\ gc_ok s' (<[t := (A', L')]> X)
    /\ freed s' = list_to_set (D ≫= (fun g => addresses g.2)) ∪ freed s /\ epoch s' = epoch s /\ actives s' = actives s.
Proof.
  intros Hok Ht Hf. destruct (lookup_lt_is_Some_2 (gc_metadata s) t) as [md Hmd]; [rewrite (gc_length _ _ _ Hok); by eapply lookup_lt_Some|].
  destruct (summarize_ok s t md Hmd) as (m & Hsum & Hm & Hle).
  destruct (gc_loop_ok t m L A s X fuel (gc_inv_weaken t s X Hok) Ht Hf) as (s1 & D & L' & A' & Hr & HL & HD & Hhead & Hinv & Hfr & He & Hac & _).
  assert (Hlt := lookup_lt_Some _ _ _ Ht).
  destruct (lookup_lt_is_Some_2 (gc_metadata s1) t) as [md1 Hmd1]; [rewrite (gc_length _ _ _ Hinv), length_insert; done|].
  assert (HX' : <[t := (A', L')]> X !! t = Some (A', L')) by (by apply list_lookup_insert_eq).
  destruct (gc_meta _ _ _ Hinv t md1 _ Hmd1 HX') as (Hcl & Hcount & Hsmall & Hlast). cbn [fst snd] in *.
  unfold PerformGC, mbind, ST_bind. rewrite Hsum, Hr. destruct A' as [|a A'].
  - cbn [head]. unfold GetGCMetaData. rewrite Hmd1. eexists _, m, D, L', []. split; [reflexivity|]. split_and!; try done.
    + destruct Hinv as [Hlen Hmeta Hcells Hfresh Howned Hlive]. split; simpl; try done; [by rewrite length_insert|].
      intros i md' x Hi Hx. destruct (decide (i = t)) as [->|Hne].
      * rewrite list_lookup_insert_eq in Hi by (by eapply lookup_lt_Some). injection Hi as <-. rewrite HX' in Hx. injection Hx as <-. by split_and!.
      * rewrite list_lookup_insert_ne in Hi by done. destruct (Hmeta i md' x Hi Hx) as (? & ? & ? & Hl). split_and!; try done. intros _. apply Hl. left. congruence.
    + unfold actives in *. simpl. rewrite <- Hac. by apply (fmap_insert_same _ _ _ md1).
  - cbn [head]. eexists s1, m, D, L', (a :: A'). split; [reflexivity|]. split_and!; try done.
    destruct Hinv as [Hlen Hmeta Hcells Hfresh Howned Hlive]. split; try done.
    intros i md' x Hi Hx. destruct (Hmeta i md' x Hi Hx) as (? & ? & ? & Hl). split_and!; try done. intros _. apply Hl.
    destruct (decide (i = t)) as [->|Hne]; [right; rewrite HX' in Hx; by injection Hx as <-|left; congruence].
Qed.
(** Appending a cell behind the last one. *)
Lemma cell_list_snoc C p A L c e n l g : cell_list C p A L -> last A = Some l -> C !! l = Some g -> NoDup A -> c ∉ A ->
  cell_list (<[l := mkGarbage (delete_epoch g) (garbage_p g) (Some c)]> (<[c := mkGarbage e n None]> C)) p (A ++ [c]) (L ++ [(e, n)]).
Proof.
  revert p L. induction A as [|a A IH]; intros p [|[d n'] L]; simpl; try done. intros (-> & nx & Ha & Hl) Hlast Hg [Hna Hnd]%NoDup_cons Hc.
  split; [done|]. destruct A as [|a2 A].
  - injection Hlast as <-. rewrite lookup_insert_eq. rewrite Ha in Hg. injection Hg as <-. eexists. split; [done|]. destruct L as [|[? ?] ?]; [|done]. simpl.
    split; [done|]. eexists. rewrite lookup_insert_ne by set_solver. by rewrite lookup_insert_eq.
  - exists nx. assert (Hla : l ∈ a2 :: A) by (by apply last_Some_elem_of). split; [rewrite !lookup_insert_ne by set_solver; done|]. apply IH; [done|done|done|done|set_solver].
Qed.
Lemma add_cell_ok t s X A L md n : gc_ok s X -> X !! t = Some (A, L) -> gc_metadata s !! t = Some md ->
  NoDup (addresses n) -> (forall a, a ∈ addresses n -> (a ∉ freed s) /\ a ∉ all_garbage X) -> Z.of_nat (length L) + 1 < 2 ^ 64 ->
  let c := next_cell s in
  let C := <[c := mkGarbage (epoch s) n None]> (cells s) in
  gc_ok (mkGc (epoch s)
           (<[t := mkGCMeta (last_active_epoch md) (match last_p md with None => Some c | Some _ => header_next md end) (Some c) (node_count md + 1)]> (gc_metadata s))
           (match last_p md with Some l => match C !! l with Some g => <[l := mkGarbage (delete_epoch g) (garbage_p g) (Some c)]> C | None => C end | None => C end)
           (c + 1) (freed s) (nulled s))
    (<[t := (A ++ [c], L ++ [(epoch s, n)])]> X)
  /\ (forall l, last_p md = Some l -> is_Some (C !! l)).
Proof.
  intros [Hlen Hmeta Hcells Hfresh Howned Hlive] Ht Hmd Hnd Hnew Hsmall c C. assert (Hlt := lookup_lt_Some _ _ _ Ht).
  destruct (bind_insert fst X t _ (A ++ [c], L ++ [(epoch s, n)]) Ht) as (R1 & Hp1 & Hp1').
  destruct (bind_insert garbage_of X t _ (A ++ [c], L ++ [(epoch s, n)]) Ht) as (R2 & Hp2 & Hp2').
  unfold all_cells, all_garbage in *. cbn [fst] in Hp1, Hp1'.
  assert (Hfr : forall a, a ∈ A ++ R1 -> a < next_cell s) by (intros a Ha; apply Hfresh; by rewrite Hp1).
  assert (Hcf : forall a, a ∈ A ++ R1 -> a <> c) by (intros a Ha%Hfr; unfold c; lia). rewrite Hp1 in Hcells. rewrite Hp2 in Howned.
  destruct (Hmeta t md _ Hmd Ht) as (Hcl & Hcount & _ & Hlast). cbn [fst snd] in *. specialize (Hlast ltac:(by left)).
  apply NoDup_app in Hcells as (HndA & HdisA & HndR).
  assert (Hgar : garbage_of (A ++ [c], L ++ [(epoch s, n)]) = garbage_of (A, L) ++ addresses n) by (unfold garbage_of; simpl; rewrite bind_app; simpl; by rewrite app_nil_r).
  assert (Hag : forall l g, cells s !! l = Some g -> l <> c -> C !! l = Some g) by (intros l g Hl Hne; unfold C; by rewrite lookup_insert_ne).
  assert (HlastA : forall l, last A = Some l -> exists g, cells s !! l = Some g /\ l ∈ A /\ l <> c).
  { intros l Hl. assert (HlA : l ∈ A) by (by apply last_Some_elem_of). assert (l <> c) by (apply Hcf; set_solver).
    clear -Hcl HlA H. revert HlA Hcl. generalize (header_next md). generalize L. induction A as [|a A IH]; intros L0 p Hin; [by apply elem_of_nil in Hin|].
    destruct L0 as [|[d n'] L0]; [done|]. intros (_ & nx & Ha & Hl'). apply elem_of_cons in Hin as [->|Hin]; [eexists; split_and!; [done|by left|done]|].
    destruct (IH L0 nx Hin Hl') as (g & ? & ? & ?). exists g. split_and!; [done|by right|done]. }
  split; [|rewrite Hlast; intros l Hl; destruct (HlastA l Hl) as (g & Hg & _ & ?); eauto].
  assert (Hown : forall C', (forall a, a ∈ A ++ R1 -> (last_p md <> Some a) -> C' !! a = cells s !! a) -> forall i md' x, i <> t ->
    gc_metadata s !! i = Some md' -> X !! i = Some x -> cell_list C' (header_next md') x.1 x.2).
  { intros C' HC' i md' x Hne Hi Hx. destruct (Hmeta i md' x Hi Hx) as (Hc' & _). eapply cell_list_agree; [|exact Hc']. intros a Ha.
    assert (HaR : a ∈ R1).
    { assert (Hin : a ∈ (<[t := (A ++ [c], L ++ [(epoch s, n)])]> X) ≫= fst).
      { apply list_elem_of_bind. exists x. split; [done|]. apply list_elem_of_lookup. exists i. by rewrite list_lookup_insert_ne. }
      assert (Hin2 : a ∈ (<[t := ([] : list Z, L)]> X) ≫= fst).
      { apply list_elem_of_bind. exists x. split; [done|]. apply list_elem_of_lookup. exists i. by rewrite list_lookup_insert_ne. }
      destruct (bind_insert fst X t _ ([] : list Z, L) Ht) as (R & Hq & Hq'). rewrite Hq' in Hin2. simpl in Hin2. rewrite Hp1 in Hq. cbn [fst] in Hq.
      apply Permutation_app_inv_l in Hq. by rewrite Hq. }
    apply HC'; [set_solver|]. rewrite Hlast. intros HA%last_Some_elem_of. by apply (HdisA a). }
  split; simpl.
  - by rewrite !length_insert.
  - intros i md' x Hi Hx. destruct (decide (i = t)) as [->|Hne].
    + rewrite list_lookup_insert_eq in Hi by (by eapply lookup_lt_Some). rewrite list_lookup_insert_eq in Hx by done. injection Hi as <-. injection Hx as <-. simpl.
      split_and!; [|rewrite length_app; simpl; lia|lia|intros _; by rewrite last_snoc].
      rewrite Hlast. destruct (last A) as [l|] eqn:HlA.
      * destruct (HlastA l eq_refl) as (g & Hg & HlinA & Hlc). rewrite (Hag l g Hg Hlc). apply cell_list_snoc; [done|done|done|done|]. intros Hc. by apply (Hcf c); [set_solver|].
      * apply last_None in HlA as ->. destruct L as [|[? ?] ?]; [|done]. simpl. split; [done|]. eexists. unfold C. by rewrite lookup_insert_eq.
    + rewrite list_lookup_insert_ne in Hi by done. rewrite list_lookup_insert_ne in Hx by done. destruct (Hmeta i md' x Hi Hx) as (_ & ? & ? & ?). split_and!; try done.
      eapply Hown; [|done|done|done]. intros a Ha Hla. assert (a <> c) by (by apply Hcf). destruct (last_p md) as [l|]; [|unfold C; by rewrite lookup_insert_ne].
      case_match; [rewrite lookup_insert_ne by congruence|]; unfold C; by rewrite lookup_insert_ne.
  - rewrite Hp1'. rewrite <- app_assoc, NoDup_app. split_and!; [done| |].
    + intros a Ha. rewrite elem_of_app, list_elem_of_singleton. intros [->|HR]; [by apply (Hcf c); [set_solver|]|by apply (HdisA a)].
    + constructor; [|done]. intros Hc. by apply (Hcf c); [set_solver|].
  - intros a. rewrite Hp1'. rewrite <- app_assoc, !elem_of_app, list_elem_of_singleton. intros [Ha|[->|Ha]]; [|lia|].
    + specialize (Hfr a ltac:(set_solver)). lia.
    + specialize (Hfr a ltac:(set_solver)). lia.
  - rewrite Hp2', Hgar. apply NoDup_app in Howned as (Hn1 & Hn2 & Hn3). rewrite <- app_assoc. apply NoDup_app. split_and!; [done| |].
    + intros a Ha. rewrite elem_of_app. intros [Hb|Hb]; [|by apply (Hn2 a)]. apply (Hnew a Hb). rewrite Hp2. set_solver.
    + apply NoDup_app. split_and!; [done| |done]. intros a Ha Hb. apply (Hnew a Ha). rewrite Hp2. set_solver.
  - intros a. rewrite Hp2', Hgar, !elem_of_app. intros [[Ha|Ha]|Ha]; [apply Hlive; rewrite Hp2; set_solver|by apply Hnew|apply Hlive; rewrite Hp2; set_solver].
Qed.
Lemma u64_succ x : 0 <= x -> x + 1 < 2 ^ 64 -> u64 (x + 1) = x + 1.
Proof. intros. unfold u64, wrap. apply Z.mod_small. lia. Qed.
Lemma add_garbage_ok fuel t s X A L n : gc_ok s X -> X !! t = Some (A, L) -> NoDup (addresses n) ->
  (forall a, a ∈ addresses n -> (a ∉ freed s) /\ a ∉ all_garbage X) -> Z.of_nat (length L) + 1 < 2 ^ 64 -> (length L + 1 < fuel)%nat ->
  exists s' D L' A', AddGarbageNode fuel t n s = Ok (tt, s') /\ L ++ [(epoch s, n)] = D ++ L' /\ gc_ok s' (<[t := (A', L')]> X)
    /\ freed s' = list_to_set (D ≫= (fun g => addresses g.2)) ∪ freed s
    /\ (forall g e, g ∈ D -> e ∈ actives s -> g.1 < e) /\ (D <> [] -> GC_NODE_COUNT_THREADHOLD <= Z.of_nat (length L))
    /\ (GC_NODE_COUNT_THREADHOLD <= Z.of_nat (length L) -> forall g, head L' = Some g -> exists e, e ∈ actives s /\ e <= g.1)
    /\ actives s' = actives s /\ epoch s' = epoch s.
Proof.
  intros Hok Ht Hnd Hnew Hsmall Hfuel. destruct (lookup_lt_is_Some_2 (gc_metadata s) t) as [md Hmd]; [rewrite (gc_length _ _ _ Hok); by eapply lookup_lt_Some|].
  destruct (gc_meta _ _ _ Hok t md _ Hmd Ht) as (_ & Hcount & _). cbn [fst snd] in Hcount. assert (Hltm := lookup_lt_Some _ _ _ Hmd). assert (Hlt := lookup_lt_Some _ _ _ Ht).
  destruct (add_cell_ok t s X A L md n Hok Ht Hmd Hnd Hnew Hsmall) as [Hok1 Hlast]. set (c := next_cell s) in *. set (C := <[c := mkGarbage (epoch s) n None]> (cells s)) in *.
  match type of Hok1 with gc_inv _ ?st _ => set (s1 := st) in * end. set (X1 := <[t := (A ++ [c], L ++ [(epoch s, n)])]> X) in *.
  assert (Hmd1 : gc_metadata s1 !! t = Some (mkGCMeta (last_active_epoch md) (match last_p md with None => Some c | Some _ => header_next md end) (Some c) (node_count md + 1)))
    by (unfold s1; simpl; by apply list_lookup_insert_eq).
  assert (Hact : actives s1 = actives s) by (unfold actives, s1; simpl; by apply (fmap_insert_same _ _ _ md)).
  assert (Hrun : AddGarbageNode fuel t n s = (if GC_NODE_COUNT_THREADHOLD <? node_count md + 1 then PerformGC fuel t s1 else Ok (tt, s1))).
  { unfold AddGarbageNode, mbind, ST_bind, GetGlobalEpoch, gets, modify, GetGCMetaData, get_cell, put_metadata. cbn [gc_metadata cells]. rewrite Hmd. fold c C.
    unfold s1. destruct (last_p md) as [l|] eqn:Hl.
    - destruct (Hlast l eq_refl) as [g Hg]. cbn [cells]. rewrite !Hg. unfold set_cells. cbn [gc_metadata cells]. rewrite Hmd. unfold modify, set_metadata, set_cells. cbn [gc_metadata cells epoch next_cell freed nulled].
      rewrite list_lookup_insert_eq by done. rewrite u64_succ by lia. cbn [node_count header_next last_active_epoch]. by destruct (GC_NODE_COUNT_THREADHOLD <? node_count md + 1).
    - unfold modify, set_metadata. cbn [gc_metadata cells epoch next_cell freed nulled]. rewrite list_lookup_insert_eq by done. cbn [node_count header_next last_active_epoch last_p gc_metadata].
      rewrite list_insert_insert_eq, list_lookup_insert_eq by done. rewrite u64_succ by lia. cbn [node_count]. by destruct (GC_NODE_COUNT_THREADHOLD <? node_count md + 1). }
  rewrite Hrun. destruct (Z.ltb_spec GC_NODE_COUNT_THREADHOLD (node_count md + 1)) as [Hgt|Hle].
  - destruct (perform_gc_ok fuel t s1 X1 (A ++ [c]) (L ++ [(epoch s, n)])) as (s' & m & D & L' & A' & Hr & Hm & Hmin & HL & HD & Hhead & Hok' & Hfr & He & Hac);
      [done|by apply list_lookup_insert_eq|rewrite length_app; simpl; lia|].
    exists s', D, L', A'. split_and!; try done.
    + unfold X1 in Hok'. by rewrite list_insert_insert_eq in Hok'.
    + intros g e Hg Hin. rewrite Forall_forall in HD. specialize (HD g Hg). rewrite <- Hact in Hin. specialize (Hmin e Hin). lia.
    + intros _. lia.
    + intros _ g Hg. rewrite <- Hact. eauto.
    + by rewrite Hac.
  - exists s1, [], (L ++ [(epoch s, n)]), (A ++ [c]). split_and!; try done; [simpl; set_solver|by intros g e ?%elem_of_nil|lia].
Qed.
(** Once every thread has left, all garbage is freed. *)
Lemma unregister_ok t s X md : gc_ok s X -> gc_metadata s !! t = Some md ->
  UnregisterThread t s = Ok (tt, set_metadata (<[t := set_last_active (u64 (-1)) md]> (gc_metadata s)) s)
  /\ gc_ok (set_metadata (<[t := set_last_active (u64 (-1)) md]> (gc_metadata s)) s) X.
Proof.
  intros [Hlen Hmeta Hc Hf Ho Hl] Hmd. split; [unfold UnregisterThread, mbind, ST_bind, GetGCMetaData; by rewrite Hmd|].
  split; simpl; try done; [by rewrite length_insert|]. intros i md' x Hi Hx. destruct (decide (i = t)) as [->|Hne].
  - rewrite list_lookup_insert_eq in Hi by (by eapply lookup_lt_Some). injection Hi as <-. exact (Hmeta t md x Hmd Hx).
  - rewrite list_lookup_insert_ne in Hi by done. by apply Hmeta.
Qed.
Lemma unregister_all ts : forall s X, gc_ok s X -> Forall (fun t => t < length X)%nat ts ->
  exists s', foldr (fun t k => UnregisterThread t;; k) (mret tt) ts s = Ok (tt, s') /\ gc_ok s' X /\ freed s' = freed s
    /\ length (actives s') = length (actives s) /\ forall i e, actives s' !! i = Some e -> i ∈ ts /\ e = max_u64 \/ actives s !! i = Some e /\ i ∉ ts.
Proof.
  induction ts as [|t ts IH]; intros s X Hok Hts; simpl.
  - exists s. split_and!; try done. intros i e Hi. right. split; [done|]. apply not_elem_of_nil.
  - apply Forall_cons in Hts as [Ht Hts]. destruct (lookup_lt_is_Some_2 (gc_metadata s) t) as [md Hmd]; [rewrite (gc_length _ _ _ Hok); done|].
    destruct (unregister_ok t s X md Hok Hmd) as [Hr Hok1]. set (s1 := set_metadata _ s) in *. destruct (IH s1 X Hok1 Hts) as (s' & Hr' & Hok' & Hfr & Hlen & Hac).
    exists s'. split; [unfold mbind, ST_bind; rewrite Hr; exact Hr'|]. unfold actives in Hlen, Hac |- *. unfold s1 in Hlen, Hac. simpl in Hlen, Hac. rewrite list_fmap_insert in Hlen, Hac. rewrite length_insert in Hlen.
    split_and!; try done. intros i e Hi. destruct (Hac i e Hi) as [[? ->]|[Hi' Hni]]; [left; split; [by right|done]|].
    destruct (decide (i = t)) as [->|Hne].
    + left. split; [by left|]. rewrite list_lookup_insert_eq in Hi' by (rewrite length_fmap; by eapply lookup_lt_Some). by injection Hi' as <-.
    + rewrite list_lookup_insert_ne in Hi' by done. right. split; [done|]. by rewrite not_elem_of_cons.
Qed.
Lemma clear_lists fuel m : forall k s X, gc_ok s X -> length X = (k + m)%nat -> (forall e, e ∈ actives s -> e = max_u64) ->
  (forall i, (i < k)%nat -> X !! i = Some ([], [])) -> (forall x, x ∈ X -> (length x.2 < fuel)%nat /\ forall g, g ∈ x.2 -> g.1 < max_u64) ->
  exists s', foldr (fun t k => PerformGC fuel t;; k) (mret tt) (seq k m) s = Ok (tt, s') /\ gc_ok s' (replicate (k + m) ([], []))
    /\ freed s' = list_to_set (all_garbage X) ∪ freed s.
Proof.
  induction m as [|m IH]; intros k s X Hok Hlen Hac Hdone Hb; simpl.
  - assert (HX : X = replicate k ([], [])).
    { apply list_eq. intros i. destruct (decide (i < k)%nat) as [Hi|Hi]; [rewrite Hdone, lookup_replicate_2 by done; done|].
      rewrite !lookup_ge_None_2; [done|rewrite length_replicate; lia|lia]. }
    rewrite HX in Hok |- *. exists s. rewrite Nat.add_0_r. split_and!; try done. assert (Hnil : all_garbage (replicate k ([], [])) = []) by (clear; induction k; done).
    rewrite Hnil. simpl. set_solver.
  - destruct (lookup_lt_is_Some_2 X k) as [[A L] Hk]; [lia|]. assert (Hin : (A, L) ∈ X) by (by eapply list_elem_of_lookup_2). destruct (Hb _ Hin) as [Hf Hep].
    destruct (perform_gc_ok fuel k s X A L Hok Hk Hf) as (s1 & mn & D & L' & A' & Hr & Hmn & _ & HL & _ & Hhead & Hok1 & Hfr & _ & Hac1). apply Hac in Hmn as ->.
    assert (HL' : L' = []).
    { destruct L' as [|g L']; [done|]. specialize (Hhead g eq_refl). specialize (Hep g ltac:(rewrite HL; set_solver)). lia. }
    subst L'. rewrite app_nil_r in HL. subst D. assert (HA' : A' = []).
    { assert (Hlt : (k < length X)%nat) by lia. destruct (lookup_lt_is_Some_2 (gc_metadata s1) k) as [md Hmd]; [by rewrite (gc_length _ _ _ Hok1), length_insert|].
      destruct (gc_meta _ _ _ Hok1 k md (A', []) Hmd) as (Hc & _); [by apply list_lookup_insert_eq|]. apply cell_list_length in Hc. by destruct A'. }
    subst A'. destruct (IH (S k) s1 (<[k := ([], [])]> X) Hok1) as (s' & Hr' & Hok' & Hfr').
    + rewrite length_insert. lia.
    + intros e He. apply Hac. by rewrite <- Hac1.
    + intros i Hi. destruct (decide (i = k)) as [->|Hne]; [apply list_lookup_insert_eq; lia|rewrite list_lookup_insert_ne by done; apply Hdone; lia].
    + intros x [i Hx]%list_elem_of_lookup. destruct (decide (i = k)) as [->|Hne].
      * rewrite list_lookup_insert_eq in Hx by lia. injection Hx as <-. split; [simpl; lia|by intros g ?%elem_of_nil].
      * rewrite list_lookup_insert_ne in Hx by done. apply Hb. by eapply list_elem_of_lookup_2.
    + exists s'. replace (k + S m)%nat with (S k + m)%nat by lia. split_and!; [unfold mbind, ST_bind; rewrite Hr; exact Hr'|done|].
      destruct (bind_insert garbage_of X k _ ([], []) Hk) as (R & Hp & Hp'). unfold all_garbage in *. rewrite Hfr', Hfr.
      assert (H1 : (list_to_set (X ≫= garbage_of) : gset Z) = list_to_set (garbage_of (A, L) ++ R)) by (by apply list_to_set_perm_L).
      assert (H2 : (list_to_set (<[k := ([], [])]> X ≫= garbage_of) : gset Z) = list_to_set R) by (by apply list_to_set_perm_L).
      rewrite H1, H2, list_to_set_app_L. unfold garbage_of. simpl. set_solver.
Qed.
Lemma clear_ok fuel s X : gc_ok s X -> (forall x, x ∈ X -> (length x.2 < fuel)%nat /\ forall g, g ∈ x.2 -> g.1 < max_u64) ->
  exists s', ClearThreadLocalGarbage fuel s = Ok (tt, s') /\ gc_ok s' (replicate (length X) ([], [])) /\ freed s' = list_to_set (all_garbage X) ∪ freed s.
Proof.
  intros Hok Hb. assert (Hseq : forall (m1 m2 : GM unit) s1 s2, m1 s1 = Ok (tt, s2) -> (m1;; m2) s1 = m2 s2) by (intros m1 m2 s1 s2 Hr; unfold mbind, ST_bind; by rewrite Hr).
  change (ClearThreadLocalGarbage fuel s) with ((foldr (fun t k => UnregisterThread t;; k) (mret tt) (seq 0 (length (gc_metadata s)));;
    foldr (fun t k => PerformGC fuel t;; k) (mret tt) (seq 0 (length (gc_metadata s)))) s). rewrite (gc_length _ _ _ Hok).
  destruct (unregister_all (seq 0 (length X)) s X Hok) as (s1 & Hr1 & Hok1 & Hfr1 & Hlen1 & Hac1).
  { apply Forall_forall. intros t Ht%elem_of_seq. lia. }
  rewrite (Hseq _ _ _ _ Hr1). destruct (clear_lists fuel (length X) 0 s1 X Hok1) as (s' & Hr & Hok' & Hfr); [done| |lia|done|].
  - intros e [i Hi]%list_elem_of_lookup. destruct (Hac1 i e Hi) as [[_ ?]|[Hi' Hni]]; [done|]. destruct Hni. apply elem_of_seq. apply lookup_lt_Some in Hi'.
    unfold actives in Hi'. rewrite length_fmap, (gc_length _ _ _ Hok) in Hi'. lia.
  - exists s'. rewrite Hfr, Hfr1. split_and!; try done.
Qed.

(** ** What the tree relies on *)

(** C29: handing a node to the collector appends it with the current epoch to the list of the
    thread.  If the list has become long, the collector destroys exactly the nodes in front
    that were stamped before every published epoch, up to the first that was not, with
    everything their chains own, each node once, and the cells and the pointer to the last cell stay a list of the rest. *)
Theorem garbage_collection_exact fuel t s X A L n : gc_ok s X -> X !! t = Some (A, L) -> NoDup (addresses n) ->
  (forall a, a ∈ addresses n -> (a ∉ freed s) /\ a ∉ all_garbage X) -> Z.of_nat (length L) + 1 < 2 ^ 64 -> (length L + 1 < fuel)%nat ->
  exists s' D L' A', AddGarbageNode fuel t n s = Ok (tt, s') /\ L ++ [(epoch s, n)] = D ++ L' /\ gc_ok s' (<[t := (A', L')]> X)
    /\ freed s' = list_to_set (D ≫= (fun g => addresses g.2)) ∪ freed s
    /\ (forall g e, g ∈ D -> e ∈ actives s -> g.1 < e) /\ (D <> [] -> GC_NODE_COUNT_THREADHOLD <= Z.of_nat (length L))
    /\ (GC_NODE_COUNT_THREADHOLD <= Z.of_nat (length L) -> forall g, head L' = Some g -> exists e, e ∈ actives s /\ e <= g.1)
    /\ actives s' = actives s /\ epoch s' = epoch s.
Proof. apply add_garbage_ok. Qed.
Definition two_threads : GcState := mkGc 0 [new_GCMetaData; new_GCMetaData] ∅ 0 ∅ [].
Lemma two_threads_ok : gc_ok two_threads [([], []); ([], [])].
Proof.
  split; simpl; try done; try (by intros a ?%elem_of_nil); [|constructor|constructor].
  intros [|[|i]] md x; simpl; try done; intros [= <-] [= <-]; by split_and!.
Qed.
Definition old_chain : BaseNode := LeafInsertNode 12 5 50 (LeafInsertNode 11 4 40 (Leaf (new_meta 10 (0, 0) (0, 0) 0 0) []) (0, false)) (0, false).
Lemma garbage_collection_exact_witness :
  exists s' D L' A', AddGarbageNode 3 1 old_chain two_threads = Ok (tt, s') /\ [] ++ [(0, old_chain)] = D ++ L' /\ gc_ok s' (<[1%nat := (A', L')]> [([], []); ([], [])])
    /\ freed s' = list_to_set (D ≫= (fun g => addresses g.2)) ∪ ∅
    /\ (forall g e, g ∈ D -> e ∈ [0; 0] -> g.1 < e) /\ (D <> [] -> GC_NODE_COUNT_THREADHOLD <= 0)
    /\ (GC_NODE_COUNT_THREADHOLD <= 0 -> forall g, head L' = Some g -> exists e, e ∈ [0; 0] /\ e <= g.1)
    /\ actives s' = [0; 0] /\ epoch s' = 0.
Proof.
  refine (garbage_collection_exact 3 1 two_threads [([], []); ([], [])] [] [] old_chain two_threads_ok eq_refl _ _ _ _).
  - refine (bool_decide_eq_true_1 _ _). vm_compute. reflexivity.
  - intros a _. split; [apply not_elem_of_empty|]. simpl. apply not_elem_of_nil.
  - vm_compute. reflexivity.
  - simpl. lia.
Defined.
