(* ===== verification/BwReclaim.v ===== *)
(** * Reclamation of BwTree nodes is safe

    The interleavings of the functions of [BwGc]: any number of threads that join and leave
    epochs, read nodes through the mapping table, replace them, stamp what they replaced and
    collect, beside the thread that increases the epoch.  Every access to a shared variable
    is one step.  What a node contains plays no part: a node stands for the chain that a
    compare-and-swap replaces, whose memory [FreeEpochDeltaChain] releases.

    A node is [linked] when a thread can find it: it is in the table under an id that the
    root or another node leads to.  The new sibling of a split whose compare-and-swap fails
    was put into the table as well, under an id that no node ever carries: no thread reads
    it, and the step [Discard] retires it as a node that was never linked (as it does the
    consolidated node of a failed replacement).  The node of a removal, which
    [PostInnerDeleteNode] stamps while its id still leads to it, is not covered: it is only
    there after [Delete], whose interleavings the development does not treat. *)

From S2P Require Import Prelude BwSets BwNode BwGc.

(** Where a thread is.  In [Joining] it has read the epoch that it is about to publish; in
    [Retiring] it has replaced a node and not yet stamped it; [Scanning] is the loop of
    [SummarizeGCEpoch] before its access to a thread's epoch, [Sweeping] that of [PerformGC]. *)
Inductive phase : Type :=
  | Outside
  | Joining (e : Z)
  | Inside
  | Retiring (x : Z)
  | Scanning (i : nat) (min_epoch : option Z)
  | Sweeping (min_epoch : Z).
(** [held] are the nodes that the thread has read and may still follow. *)
Record thread : Type := mkThread { at_ : phase; active : Z; list_ : list (Z * Z); held : gset Z }.
(** [linked] are the nodes in the mapping table, [allocated] all nodes there have been. *)
Record world : Type := mkWorld { clock : Z; threads : list thread; linked : gset Z; gone : gset Z; allocated : gset Z }.
Definition new_world (n : nat) : world := mkWorld 0 (replicate n (mkThread Outside (last_active_epoch new_GCMetaData) [] ∅)) ∅ ∅ ∅.
Definition set_at (p : phase) (th : thread) : thread := mkThread p (active th) (list_ th) (held th).
Definition put (t : nat) (th : thread) (w : world) : world := mkWorld (clock w) (<[t := th]> (threads w)) (linked w) (gone w) (allocated w).

Inductive label : Type :=
  | Tick
  | JoinLoad (t : nat) | JoinStore (t : nat)
  | Publish (t : nat) (x : Z) | Read (t : nat) (x : Z) | Replace (t : nat) (x : Z) | Discard (t : nat) (x : Z)
  | AddGarbage (t : nat) | Scan (t : nat) | Free (t : nat) | Finish (t : nat)
  | Leave (t : nat).
(** The steps of [IncreaseEpoch], [UpdateLastActiveEpoch] (a load and a store), the operation
    with [AddGarbageNode], [SummarizeGCEpoch], the loop of [PerformGC], and [LeaveEpoch],
    which the methods of [EpochManager] call. *)
Definition inside (p : phase) : bool := match p with Outside | Joining _ => false | _ => true end.
Definition gc_step (l : label) (w : world) : option world :=
  match l with
  | Tick => Some (mkWorld (u64 (clock w + 1)) (threads w) (linked w) (gone w) (allocated w))
  (* JoinEpoch *)
  | JoinLoad t =>
      th ← threads w !! t;
      match at_ th with Outside => Some (put t (set_at (Joining (clock w)) th) w) | _ => None end
  | JoinStore t =>
      th ← threads w !! t;
      match at_ th with Joining e => Some (put t (mkThread Inside e (list_ th) (held th)) w) | _ => None end
  (* the operation *)
  | Publish t x =>
      th ← threads w !! t;
      match at_ th with
      | Inside =>
          if decide (x ∈ allocated w) then None
          else Some (mkWorld (clock w) (threads w) ({[x]} ∪ linked w) (gone w) ({[x]} ∪ allocated w))
      | _ => None
      end
  | Read t x =>
      th ← threads w !! t;
      match at_ th with
      | Inside => if decide (x ∈ linked w) then Some (put t (mkThread Inside (active th) (list_ th) ({[x]} ∪ held th)) w) else None
      | _ => None
      end
  | Replace t x =>
      th ← threads w !! t;
      match at_ th with
      | Inside =>
          if decide (x ∈ linked w) then
            Some (mkWorld (clock w) (<[t := set_at (Retiring x) th]> (threads w)) (linked w ∖ {[x]}) (gone w) (allocated w))
          else None
      | _ => None
      end
  | Discard t x =>
      th ← threads w !! t;
      match at_ th with
      | Inside =>
          if decide (x ∈ allocated w) then None
          else Some (mkWorld (clock w) (<[t := set_at (Retiring x) th]> (threads w)) (linked w) (gone w) ({[x]} ∪ allocated w))
      | _ => None
      end
  (* AddGarbageNode *)
  | AddGarbage t =>
      th ← threads w !! t;
      match at_ th with
      | Retiring x =>
          let l := list_ th ++ [(clock w, x)] in
          let p := if GC_NODE_COUNT_THREADHOLD <? Z.of_nat (length l) then Scanning 0 None else Inside in
          Some (put t (mkThread p (active th) l (held th)) w)
      | _ => None
      end
  (* SummarizeGCEpoch *)
  | Scan t =>
      th ← threads w !! t;
      match at_ th with
      | Scanning i min_epoch =>
          match threads w !! i, min_epoch with
          | Some other, None => Some (put t (set_at (Scanning (S i) (Some (active other))) th) w)
          | Some other, Some m => Some (put t (set_at (Scanning (S i) (Some (Z.min (active other) m))) th) w)
          | None, Some m => Some (put t (set_at (Sweeping m) th) w)
          | None, None => None
          end
      | _ => None
      end
  (* PerformGC *)
  | Free t =>
      th ← threads w !! t;
      match at_ th, list_ th with
      | Sweeping m, (d, x) :: l =>
          if d <? m then
            Some (mkWorld (clock w) (<[t := mkThread (Sweeping m) (active th) l (held th)]> (threads w)) (linked w) ({[x]} ∪ gone w) (allocated w))
          else None
      | _, _ => None
      end
  | Finish t =>
      th ← threads w !! t;
      match at_ th, list_ th with
      | Sweeping m, [] => Some (put t (set_at Inside th) w)
      | Sweeping m, (d, _) :: _ => if d <? m then None else Some (put t (set_at Inside th) w)
      | _, _ => None
      end
  (* LeaveEpoch *)
  | Leave t =>
      th ← threads w !! t;
      match at_ th with Inside => Some (put t (mkThread Outside (u64 (-1)) (list_ th) ∅) w) | _ => None end
  end.
Fixpoint gc_run (l : list label) (w : world) : option world :=
  match l with [] => Some w | a :: l => w ← gc_step a w; gc_run l w end.

(** ** The invariant *)
Definition trash (th : thread) : list Z := (list_ th).*2 ++ match at_ th with Retiring x => [x] | _ => [] end.
Definition all_trash (w : world) : list Z := threads w ≫= trash.
Record reclaim_ok (w : world) : Prop := {
  r_joining : forall t th e, threads w !! t = Some th -> at_ th = Joining e -> e <= clock w;
  r_active : forall t th, threads w !! t = Some th -> inside (at_ th) = true -> active th <= clock w;
  r_held : forall t th x, threads w !! t = Some th -> x ∈ held th -> inside (at_ th) = true /\ x ∈ allocated w /\ x ∉ gone w;
  r_linked : forall x, x ∈ linked w -> x ∈ allocated w /\ x ∉ gone w;
  r_gone : forall x, x ∈ gone w -> x ∈ allocated w;
  r_unique : NoDup (all_trash w);
  r_trash : forall x, x ∈ all_trash w -> x ∈ allocated w /\ (x ∉ linked w) /\ x ∉ gone w;
  r_stamp : forall t th u uh d x, threads w !! t = Some th -> threads w !! u = Some uh -> x ∈ held th -> (d, x) ∈ list_ uh -> active th <= d;
  r_scan : forall t th u uh i m d x, threads w !! t = Some th -> threads w !! u = Some uh -> at_ uh = Scanning i m ->
    (t < i)%nat -> x ∈ held th -> (d, x) ∈ list_ uh -> exists m', m = Some m' /\ m' <= d;
  r_sweep : forall t th u uh m d x, threads w !! t = Some th -> threads w !! u = Some uh -> at_ uh = Sweeping m ->
    x ∈ held th -> (d, x) ∈ list_ uh -> m <= d }.
Lemma trash_in w u uh x : threads w !! u = Some uh -> x ∈ trash uh -> x ∈ all_trash w.
Proof. intros Hu Hx. apply list_elem_of_bind. exists uh. split; [done|]. by eapply list_elem_of_lookup_2. Qed.
Lemma list_trash uh d x : (d, x) ∈ list_ uh -> x ∈ trash uh.
Proof. intros Hx. apply elem_of_app. left. apply list_elem_of_fmap. by exists (d, x). Qed.
Lemma new_world_ok n : reclaim_ok (new_world n).
Proof.
  assert (Hth : forall t th, replicate n (mkThread Outside (last_active_epoch new_GCMetaData) [] ∅) !! t = Some th -> th = mkThread Outside (last_active_epoch new_GCMetaData) [] ∅) by (by intros t th [-> _]%lookup_replicate_1).
  assert (Htr : all_trash (new_world n) = []) by (unfold all_trash; simpl; clear; induction n; done).
  split; simpl; try (by intros; set_solver); try (by intros t th; intros; match goal with H : _ !! _ = Some _ |- _ => apply Hth in H as -> end).
  - rewrite Htr. constructor.
  - rewrite Htr. intros x ?%elem_of_nil. done.
  - intros t th u uh d x ->%Hth. simpl. set_solver.
Qed.

(** The threads after one of them has moved. *)
Lemma put_lookup (l : list thread) t th' j x : <[t := th']> l !! j = Some x -> (j = t /\ x = th') \/ (j <> t /\ l !! j = Some x).
Proof. intros [[-> [-> _]]|[? ?]]%list_lookup_insert_Some; [by left|by right]. Qed.
Ltac moved := repeat match goal with H : <[_ := _]> _ !! _ = Some _ |- _ => apply put_lookup in H as [[-> ->]|[? H]] end.
(** A thread moves without touching nodes; what it knows so far about the epochs of the
    others is right. *)
Lemma move_ok w t th th' : reclaim_ok w -> threads w !! t = Some th -> trash th' = trash th -> list_ th' = list_ th -> held th' ⊆ held th ->
  (forall e, at_ th' = Joining e -> e <= clock w) -> (inside (at_ th') = true -> active th' <= clock w) ->
  (forall x, x ∈ held th' -> inside (at_ th') = true /\ active th' = active th) ->
  (forall i m j h d x, at_ th' = Scanning i m -> threads w !! j = Some h -> (j < i)%nat -> x ∈ held h -> (d, x) ∈ list_ th -> exists m', m = Some m' /\ m' <= d) ->
  (forall m j h d x, at_ th' = Sweeping m -> threads w !! j = Some h -> x ∈ held h -> (d, x) ∈ list_ th -> m <= d) ->
  reclaim_ok (put t th' w).
Proof.
  intros [Hj Ha Hh Hl Hg Hu Ht Hs Hsc Hsw] Hth Htr Hls Hheld Hj' Ha' Hh' Hsc' Hsw'.
  assert (Hperm : all_trash (put t th' w) ≡ₚ all_trash w).
  { destruct (bind_insert trash (threads w) t th th' Hth) as (R & Hp & Hp'). unfold all_trash, put. simpl. by rewrite Hp', Hp, Htr. }
  split; simpl; try done.
  - intros t0 th0 e H1. moved; eauto.
  - intros t0 th0 H1. moved; eauto.
  - intros t0 th0 x H1 Hx. moved; [|by eapply Hh]. destruct (Hh t th x Hth) as (_ & ? & ?); [set_solver|]. by split; [apply (Hh' x)|].
  - by rewrite Hperm.
  - intros x. rewrite Hperm. apply Ht.
  - intros t0 th0 u uh d x H1 H2 Hx Hd. moved; rewrite ?Hls in Hd; try (rewrite (proj2 (Hh' x Hx))); eauto.
  - intros t0 th0 u uh i m d x H1 H2 Hat Hlt Hx Hd. moved; rewrite ?Hls in Hd; eauto.
  - intros t0 th0 u uh m d x H1 H2 Hat Hx Hd. moved; rewrite ?Hls in Hd; eauto.
Qed.
Lemma tick_ok w : reclaim_ok w -> 0 <= clock w -> clock w + 1 < 2 ^ 64 ->
  reclaim_ok (mkWorld (u64 (clock w + 1)) (threads w) (linked w) (gone w) (allocated w)).
Proof.
  intros [Hj Ha Hh Hl Hg Hu Ht Hs Hsc Hsw] H0 H1. rewrite u64_succ by done. split; simpl; try done.
  - intros t th e Hth He. specialize (Hj t th e Hth He). lia.
  - intros t th Hth Hi. specialize (Ha t th Hth Hi). lia.
Qed.
Lemma publish_ok w x : reclaim_ok w -> x ∉ allocated w -> reclaim_ok (mkWorld (clock w) (threads w) ({[x]} ∪ linked w) (gone w) ({[x]} ∪ allocated w)).
Proof.
  intros [Hj Ha Hh Hl Hg Hu Ht Hs Hsc Hsw] Hx. split; simpl; try done.
  - intros t th y Hth Hy. destruct (Hh t th y Hth Hy) as (? & ? & ?). set_solver.
  - intros y Hy. specialize (Hl y). specialize (Hg x). set_solver.
  - intros y Hy. specialize (Hg y). set_solver.
  - intros y Hy. specialize (Ht y Hy). set_solver.
Qed.
Lemma read_ok w t th x : reclaim_ok w -> threads w !! t = Some th -> at_ th = Inside -> x ∈ linked w ->
  reclaim_ok (put t (mkThread Inside (active th) (list_ th) ({[x]} ∪ held th)) w).
Proof.
  intros [Hj Ha Hh Hl Hg Hu Ht Hs Hsc Hsw] Hth Hat Hx. set (th' := mkThread _ _ _ _).
  assert (Htr : trash th' = trash th) by (unfold trash; simpl; by rewrite Hat).
  assert (Hperm : all_trash (put t th' w) ≡ₚ all_trash w).
  { destruct (bind_insert trash (threads w) t th th' Hth) as (R & Hp & Hp'). unfold all_trash, put. simpl. by rewrite Hp', Hp, Htr. }
  assert (Hno : forall u uh d, threads w !! u = Some uh -> (d, x) ∈ list_ uh -> False).
  { intros u uh d Huh Hd. destruct (Ht x) as (_ & ? & _); [|done]. eapply trash_in; [done|by eapply list_trash]. }
  assert (Hin : inside (at_ th) = true) by (by rewrite Hat).
  split; simpl; try done.
  - intros t0 th0 e H1. moved; [done|eauto].
  - intros t0 th0 H1 Hi. moved; [exact (Ha t th Hth Hin)|eauto].
  - intros t0 th0 y H1 Hy. moved; [|by eapply Hh]. simpl in Hy. apply elem_of_union in Hy as [->%elem_of_singleton|Hy]; [by split; [|apply Hl]|].
    destruct (Hh t th y Hth Hy) as (_ & ? & ?). done.
  - by rewrite Hperm.
  - intros y. rewrite Hperm. apply Ht.
  - intros t0 th0 u uh d y H1 H2 Hy Hd. assert (Huh : exists uh', threads w !! u = Some uh' /\ (d, y) ∈ list_ uh') by (moved; eauto). destruct Huh as (uh' & Hu' & Hd').
    moved; simpl in Hy; try (apply elem_of_union in Hy as [->%elem_of_singleton|Hy]; [by destruct (Hno _ _ _ Hu' Hd')|]); try change (active th') with (active th); eauto.
  - intros t0 th0 u uh i m d y H1 H2 Hat' Hlt Hy Hd. moved; try done; [|eauto]. simpl in Hy. apply elem_of_union in Hy as [->%elem_of_singleton|Hy]; [by destruct (Hno _ _ _ H2 Hd)|eauto].
  - intros t0 th0 u uh m d y H1 H2 Hat' Hy Hd. moved; try done; [|eauto]. simpl in Hy. apply elem_of_union in Hy as [->%elem_of_singleton|Hy]; [by destruct (Hno _ _ _ H2 Hd)|eauto].
Qed.
(** A node becomes garbage: it was in the mapping table, or it is new. *)
Lemma retire_ok w t th x L' : reclaim_ok w -> threads w !! t = Some th -> at_ th = Inside -> L' ⊆ linked w -> x ∉ L' -> x ∉ all_trash w -> x ∉ gone w ->
  reclaim_ok (mkWorld (clock w) (<[t := set_at (Retiring x) th]> (threads w)) L' (gone w) ({[x]} ∪ allocated w)).
Proof.
  intros [Hj Ha Hh Hl Hg Hu Ht Hs Hsc Hsw] Hth Hat HL Hx Htx Hgx. set (th' := set_at _ th).
  assert (Htr : trash th' = trash th ++ [x]) by (unfold trash; simpl; by rewrite Hat, app_nil_r).
  assert (Hperm : all_trash (put t th' w) ≡ₚ x :: all_trash w).
  { destruct (bind_insert trash (threads w) t th th' Hth) as (R & Hp & Hp'). unfold all_trash, put. simpl. rewrite Hp', Hp, Htr. solve_Permutation. }
  assert (Hin : inside (at_ th) = true) by (by rewrite Hat).
  split; simpl.
  - intros t0 th0 e H1. moved; [done|eauto].
  - intros t0 th0 H1 Hi. moved; [exact (Ha t th Hth Hin)|eauto].
  - intros t0 th0 y H1 Hy. moved; simpl in *; [destruct (Hh t th y Hth Hy) as (_ & ? & ?)|destruct (Hh t0 th0 y H1 Hy) as (? & ? & ?)]; split_and!; try done; set_solver.
  - intros y Hy. destruct (Hl y); set_solver.
  - intros y Hy. specialize (Hg y Hy). set_solver.
  - change (NoDup (all_trash (put t th' w))). rewrite Hperm. by constructor.
  - intros y Hy. change (y ∈ all_trash (put t th' w)) in Hy. rewrite Hperm in Hy. apply elem_of_cons in Hy as [->|Hy]; [set_solver|]. specialize (Ht y Hy). set_solver.
  - intros t0 th0 u uh d y H1 H2 Hy Hd. moved; simpl in *; try change (active th') with (active th); eauto.
  - intros t0 th0 u uh i m d y H1 H2 Hat' Hlt Hy Hd. moved; simpl in *; eauto; done.
  - intros t0 th0 u uh m d y H1 H2 Hat' Hy Hd. moved; simpl in *; eauto; done.
Qed.
Lemma add_trash_ok w t th x p : reclaim_ok w -> threads w !! t = Some th -> at_ th = Retiring x -> p = Inside \/ p = Scanning 0 None ->
  reclaim_ok (put t (mkThread p (active th) (list_ th ++ [(clock w, x)]) (held th)) w).
Proof.
  intros [Hj Ha Hh Hl Hg Hu Ht Hs Hsc Hsw] Hth Hat Hp. set (th' := mkThread _ _ _ _).
  assert (Htr : trash th' = trash th) by (unfold trash; simpl; rewrite Hat, fmap_app; by destruct Hp as [-> | ->]; rewrite app_nil_r).
  assert (Hperm : all_trash (put t th' w) ≡ₚ all_trash w).
  { destruct (bind_insert trash (threads w) t th th' Hth) as (R & Hq & Hq'). unfold all_trash, put. simpl. by rewrite Hq', Hq, Htr. }
  assert (Hin : inside (at_ th) = true) by (by rewrite Hat). assert (Hin' : inside (at_ th') = true) by (by destruct Hp as [-> | ->]).
  assert (Hstamp : forall j h d y, threads w !! j = Some h -> y ∈ held h -> (d, y) ∈ list_ th' -> active h <= d).
  { intros j h d y Hjh Hy. simpl. rewrite elem_of_app, list_elem_of_singleton. intros [Hd|[= -> ->]]; [by apply (Hs j h t th d y)|]. apply (Ha j h Hjh). by apply (Hh j h x). }
  split; simpl; try done.
  - intros t0 th0 e H1 He. moved; [simpl in He; by destruct Hp as [-> | ->]|eauto].
  - intros t0 th0 H1 Hi. moved; [exact (Ha t th Hth Hin)|eauto].
  - intros t0 th0 y H1 Hy. moved; [|eauto]. simpl in Hy. destruct (Hh t th y Hth Hy) as (_ & ? & ?). done.
  - by rewrite Hperm.
  - intros y. rewrite Hperm. apply Ht.
  - intros t0 th0 u uh d y H1 H2 Hy Hd. moved; simpl in Hy; try change (active th') with (active th); eauto.
  - intros t0 th0 u uh i m d y H1 H2 Hat' Hlt Hy Hd. moved; simpl in *; try (destruct Hp as [-> | ->]; [done|injection Hat' as <- <-; lia]); eauto.
  - intros t0 th0 u uh m d y H1 H2 Hat' Hy Hd. moved; simpl in *; try (by destruct Hp as [-> | ->]); eauto.
Qed.
(** Nothing that is freed is held. *)
Lemma free_ok w t th m d x l : reclaim_ok w -> threads w !! t = Some th -> at_ th = Sweeping m -> list_ th = (d, x) :: l -> d < m ->
  reclaim_ok (mkWorld (clock w) (<[t := mkThread (Sweeping m) (active th) l (held th)]> (threads w)) (linked w) ({[x]} ∪ gone w) (allocated w)).
Proof.
  intros [Hj Ha Hh Hl Hg Hu Ht Hs Hsc Hsw] Hth Hat Hlist Hd. set (th' := mkThread _ _ _ _).
  assert (Htr : trash th = x :: trash th') by (unfold trash; simpl; by rewrite Hat, Hlist).
  assert (Hperm : all_trash w ≡ₚ x :: all_trash (put t th' w)).
  { destruct (bind_insert trash (threads w) t th th' Hth) as (R & Hp & Hp'). unfold all_trash, put. simpl. rewrite Hp', Hp, Htr. done. }
  rewrite Hperm in Hu. apply NoDup_cons in Hu as [Hnx Hu]. destruct (Ht x) as (Hxa & Hxl & Hxg); [rewrite Hperm; by left|].
  assert (Hfree : forall j h, threads w !! j = Some h -> x ∉ held h).
  { intros j h Hjh Hx. assert (m <= d); [|lia]. eapply (Hsw j h t th); [done|done|done|done|]. rewrite Hlist. by left. }
  assert (Hin : inside (at_ th) = true) by (by rewrite Hat).
  assert (Hsub : forall y, y ∈ l -> y ∈ list_ th) by (intros y Hy; rewrite Hlist; by right).
  split; simpl; try done.
  - intros t0 th0 e H1 He. moved; [done|eauto].
  - intros t0 th0 H1 Hi. moved; [exact (Ha t th Hth Hin)|eauto].
  - intros t0 th0 y H1 Hy. assert (Hy' : exists h j, threads w !! j = Some h /\ y ∈ held h) by (moved; eauto). destruct Hy' as (h & j & Hjh & Hyh).
    destruct (Hh j h y Hjh Hyh) as (? & ? & ?). assert (y <> x) by (intros ->; by apply (Hfree j h)). split_and!; [|done|set_solver]. moved; [done|]. by destruct (Hh t0 th0 y H1 Hy).
  - intros y Hy. destruct (Hl y Hy). split; [done|]. set_solver.
  - intros y Hy. apply elem_of_union in Hy as [->%elem_of_singleton|Hy]; [done|auto].
  - intros y Hy. change (y ∈ all_trash (put t th' w)) in Hy. assert (y <> x) by (by intros ->). destruct (Ht y) as (? & ? & ?); [rewrite Hperm; by right|]. set_solver.
  - intros t0 th0 u uh d' y H1 H2 Hy Hd'. moved; simpl in *; try change (active th') with (active th); eauto.
  - intros t0 th0 u uh i m' d' y H1 H2 Hat' Hlt Hy Hd'. moved; simpl in *; eauto; done.
  - intros t0 th0 u uh m' d' y H1 H2 Hat' Hy Hd'. moved; simpl in *; try (injection Hat' as <-); eauto.
Qed.
Lemma scan_ok w t th i m p : reclaim_ok w -> threads w !! t = Some th -> at_ th = Scanning i m ->
  (forall j h d x, threads w !! j = Some h -> (match p with Scanning k _ => (j < k)%nat | _ => True end) -> x ∈ held h -> (d, x) ∈ list_ th ->
     match p with Scanning _ m' => exists m2, m' = Some m2 /\ m2 <= d | Sweeping m' => m' <= d | _ => True end) ->
  match p with Scanning _ _ | Sweeping _ => True | _ => False end -> reclaim_ok (put t (set_at p th) w).
Proof.
  intros Hok Hth Hat Hp Hc. assert (Hin : inside (at_ th) = true) by (by rewrite Hat). assert (Hin' : inside p = true) by (by destruct p).
  apply (move_ok w t th); try done.
  - unfold trash. simpl. rewrite Hat. by destruct p.
  - intros e He. simpl in He. by subst.
  - intros _. exact (r_active _ Hok t th Hth Hin).
  - intros k m' j h d x He Hj Hlt Hx Hd. simpl in He. subst p. by apply (Hp j h d x).
  - intros m' j h d x He Hj Hx Hd. simpl in He. subst p. by apply (Hp j h d x).
Qed.
Lemma gc_step_ok l w w' : reclaim_ok w -> 0 <= clock w -> clock w + 1 < 2 ^ 64 -> gc_step l w = Some w' -> reclaim_ok w' /\ clock w <= clock w' <= clock w + 1.
Proof.
  intros Hok H0 H1. assert (Hempty : forall t th, threads w !! t = Some th -> inside (at_ th) = false -> forall x, x ∈ held th -> False).
  { intros t th Hth Hin x Hx. destruct (r_held _ Hok t th x Hth Hx) as (Hi & _). congruence. }
  destruct l; cbn [gc_step]; try (destruct (threads w !! t) as [th|] eqn:Hth; [|done]; cbn [mbind option_bind]; destruct (at_ th) eqn:Hat; try done).
  - intros [= <-]. split; [by apply tick_ok|]. simpl. rewrite u64_succ by done. lia.
  - intros [= <-]. split; [|simpl; lia]. apply (move_ok w t th); try done; [unfold trash; simpl; by rewrite Hat|by intros e' [= <-]|].
    intros x Hx. simpl in Hx. destruct (Hempty t th Hth) with x; [by rewrite Hat|done].
  - intros [= <-]. split; [|simpl; lia]. apply (move_ok w t th); try done; [unfold trash; simpl; by rewrite Hat|intros _; by apply (r_joining _ Hok t th)|].
    intros x Hx. simpl in Hx. destruct (Hempty t th Hth) with x; [by rewrite Hat|done].
  - case_decide; [done|]. intros [= <-]. split; [by apply publish_ok|simpl; lia].
  - case_decide; [|done]. intros [= <-]. split; [by apply read_ok|simpl; lia].
  - case_decide as Hx; [|done]. intros [= <-]. split; [|simpl; lia]. destruct (r_linked _ Hok x Hx) as [Hal Hgo].
    pose proof (retire_ok w t th x (linked w ∖ {[x]}) Hok Hth Hat) as Hr. replace ({[x]} ∪ allocated w) with (allocated w) in Hr by set_solver.
    apply Hr; [set_solver|set_solver| |done]. intros Ht%(r_trash _ Hok). set_solver.
  - case_decide as Hx; [done|]. intros [= <-]. split; [|simpl; lia]. apply retire_ok; try done.
    + intros Hl%(r_linked _ Hok). set_solver.
    + intros Ht%(r_trash _ Hok). set_solver.
    + intros Hg%(r_gone _ Hok). set_solver.
  - intros [= <-]. split; [|simpl; lia]. apply add_trash_ok; try done. case_match; [by right|by left].
  - destruct (threads w !! i) as [other|] eqn:Hi; destruct min_epoch as [m|]; try done; intros [= <-]; (split; [|simpl; lia]); (eapply scan_ok; [done|done|exact Hat| |done]).
    + intros j h d x Hj Hlt Hx Hd. eexists. split; [done|]. destruct (decide (j = i)) as [->|Hne].
      * rewrite Hi in Hj. injection Hj as <-. pose proof (r_stamp _ Hok _ _ _ _ _ _ Hi Hth Hx Hd). lia.
      * destruct (r_scan _ Hok _ _ _ _ _ _ _ _ Hj Hth Hat ltac:(lia) Hx Hd) as (m2 & [= <-] & ?). lia.
    + intros j h d x Hj Hlt Hx Hd. eexists. split; [done|]. destruct (decide (j = i)) as [->|Hne].
      * rewrite Hi in Hj. injection Hj as <-. by apply (r_stamp _ Hok _ _ _ _ _ _ Hi Hth Hx Hd).
      * destruct (r_scan _ Hok _ _ _ _ _ _ _ _ Hj Hth Hat ltac:(lia) Hx Hd) as (m2 & [=] & ?).
    + intros j h d x Hj _ Hx Hd. apply lookup_ge_None in Hi. pose proof (lookup_lt_Some _ _ _ Hj).
      destruct (r_scan _ Hok _ _ _ _ _ _ _ _ Hj Hth Hat ltac:(lia) Hx Hd) as (m2 & [= <-] & ?). done.
  - destruct (list_ th) as [|[d x] l] eqn:Hl; [done|]. destruct (Z.ltb_spec d min_epoch); [|done]. intros [= <-]. split; [by eapply free_ok|simpl; lia].
  - assert (Hfin : reclaim_ok (put t (set_at Inside th) w)).
    { apply (move_ok w t th); try done; [unfold trash; simpl; by rewrite Hat|intros _; refine (r_active _ Hok t th Hth _); by rewrite Hat]. }
    destruct (list_ th) as [|[d x] l]; [|destruct (Z.ltb_spec d min_epoch); [done|]]; intros [= <-]; (split; [done|simpl; lia]).
  - intros [= <-]. split; [|simpl; lia]. apply (move_ok w t th); try done; unfold trash; simpl; by rewrite Hat.
Qed.
Lemma gc_run_ok l : forall w w', reclaim_ok w -> 0 <= clock w -> clock w + Z.of_nat (length l) < 2 ^ 64 -> gc_run l w = Some w' -> reclaim_ok w'.
Proof.
  induction l as [|a l IH]; intros w w' Hok H0 Hb; cbn [gc_run]; [by intros [= <-]|]. cbn [length] in Hb. destruct (gc_step a w) as [w1|] eqn:Hs; [|done].
  cbn [mbind option_bind]. destruct (gc_step_ok a w w1 Hok H0 ltac:(lia) Hs) as [Hok1 ?]. apply IH; [done|lia|lia].
Qed.

(** C12: in every interleaving of threads that join epochs, read, replace and discard nodes,
    stamp and collect garbage and leave, beside the thread that increases the epoch, for
    fewer than 2^64 steps: what a thread frees is no longer in the mapping table, no thread
    inside an epoch holds it, and it has not been freed before. *)
Theorem bw_reclamation_safe n l w t w' : gc_run l (new_world n) = Some w -> Z.of_nat (length l) < 2 ^ 64 -> gc_step (Free t) w = Some w' ->
  exists x, gone w' = {[x]} ∪ gone w /\ x ∉ gone w /\ (x ∉ linked w') /\ forall j th, threads w' !! j = Some th -> x ∉ held th.
Proof.
  intros Hr Hb Hf. pose proof (gc_run_ok l _ _ (new_world_ok n) ltac:(done) Hb Hr) as Hok. cbn [gc_step] in Hf.
  destruct (threads w !! t) as [th|] eqn:Hth; [|done]. cbn [mbind option_bind] in Hf. destruct (at_ th) as [| | | | |m] eqn:Hat; try done.
  destruct (list_ th) as [|[d x] rest] eqn:Hl; [done|]. destruct (Z.ltb_spec d m) as [Hd|]; [|done]. injection Hf as <-. exists x.
  destruct (r_trash _ Hok x) as (_ & ? & ?); [eapply trash_in; [done|]; eapply (list_trash th d); rewrite Hl; by left|]. split_and!; try done.
  intros j h Hj Hx. assert (Hj' : exists j' h', threads w !! j' = Some h' /\ x ∈ held h') by (simpl in Hj; moved; eauto). destruct Hj' as (j' & h' & Hj' & Hx').
  pose proof (r_sweep _ Hok _ _ _ _ _ _ _ Hj' Hth Hat Hx' ltac:(rewrite Hl; by left)). lia.
Qed.

(** A run in which a thread that has collected enough garbage in one operation frees it in
    the next, while another thread holds a node that was replaced later. *)
Definition collecting_run : list label :=
  [JoinLoad 0; JoinStore 0] ++ (seqZ 1 1024 ≫= fun x => [Discard 0 x; AddGarbage 0]) ++ [Publish 0 2000; Leave 0; Tick; JoinLoad 1; JoinStore 1; Read 1 2000;
   JoinLoad 0; JoinStore 0; Replace 0 2000; AddGarbage 0; Scan 0; Scan 0; Scan 0].
Lemma bw_reclamation_safe_witness : exists w w', gc_run collecting_run (new_world 2) = Some w /\ gc_step (Free 0) w = Some w' /\
  exists x, gone w' = {[x]} ∪ gone w /\ x ∉ gone w /\ (x ∉ linked w') /\ forall j th, threads w' !! j = Some th -> x ∉ held th.
Proof.
  assert (Hrun : is_Some (w ← gc_run collecting_run (new_world 2); gc_step (Free 0) w)) by (vm_compute; eexists; reflexivity).
  destruct Hrun as [w' Hw]. apply bind_Some in Hw as (w & Hw & Hf). exists w, w'. split; [exact Hw|]. split; [exact Hf|].
  refine (bw_reclamation_safe 2 collecting_run w 0 w' Hw _ Hf). vm_compute. reflexivity.
Defined.
